(* ===== verification/_CoqProject ===== *)
-Q . S2P
Prelude.v
Page.v
Buddy.v
BuddySpec.v
PageAlloc.v
BuddyCorrect.v
Pmm.v
PmmSpec.v
PmmInit.v
PmmBoot.v
PmmCorrect.v
PageTable.v
Vmm.v
PtRep.v
PtWalk.v
VmmMap.v
VmmUnmap.v
VmmAlloc.v
VmmFork.v
VmmCopy.v
VmmFree.v
VmmCow.v
VmmSystem.v
VmmProcs.v
VmmCorrect.v
VmArea.v
AreaIndex.v
MapleTree.v
MapleSpec.v
MapleRep.v
MapleQuery.v
MapleInsert.v
MapleErase.v
MapleCorrect.v
VmaMeta.v
VmaSpace.v
VmaSpaceCorrect.v
Pipe.v
PipeRing.v
PipeCalls.v
PipeSystem.v
PipeCorrect.v
IoSched.v
MClock.v
MClockRep.v
MClockOps.v
MClockCalls.v
MClockPick.v
MClockCorrect.v
VirtioQueue.v
VirtioRep.v
VirtioOps.v
VirtioCalls.v
VirtioSystem.v
VirtioCorrect.v
Sleep.v
SleepRep.v
SleepOps.v
SleepCorrect.v
SleepLock.v
Semaphore.v
Futex.v
FutexSystem.v
FutexOps.v
FutexInv.v
FutexWait.v
FutexWake.v
FutexScan.v
FutexCorrect.v
FutexTimeouts.v
FutexCalls.v
FutexRobust.v
Scheduler.v
SchedRep.v
SchedOps.v
SchedReach.v
SchedPass.v
SchedCorrect.v
