(* ===== verification/Prelude.v ===== *)
(** * A verification development for the F7LY kernel

    F7LY is a C++ operating system kernel.  This library verifies several of its
    parts, each translated from the source into executable definitions, and what
    they promise to one another.

    ** The parts and how they interact

    - The page allocator hands out blocks of physical pages
      (kernel/mem/buddysystem.{hh,cc}).
    - The physical memory manager lays out the memory at boot and counts the
      references to every page, over the page allocator
      (kernel/mem/physical_memory_manager.cc).
    - The virtual memory manager maps pages in the page tables of processes and
      shares them copy-on-write (kernel/mem/virtual_memory_manager.cc, over
      kernel/mem/riscv/pagetable.cc and pte.cc).
    - An address space is a list of areas with an index by address:
      kernel/proc/vma_space.{hh,cc} keeps both, using the tree of
      kernel/proc/vma_maple_tree.{hh,cc} as index, the area record of
      kernel/proc/vm_area.hh and the reference counting of
      kernel/proc/vma_metadata_utils.cc and vm_object.cc.
    - A pipe is a ring buffer that processes read, write, poll, resize and close
      concurrently (kernel/proc/pipe.{hh,cc}).
    - The block scheduler queues disk requests by process and service class and
      chooses the next one by its tags
      (kernel/fs/drivers/virtio_mclock_scheduler.{hh,cc}).
    - The virtio block queue takes requests from the scheduler to the device and
      back (kernel/fs/drivers/virtio_blk_queue.{hh,cc}).
    - Processes sleep on channels and are woken (kernel/proc/proc_manager.cc); on
      this rest the sleep locks (kernel/proc/sleeplock.cc), the semaphores
      (kernel/libs/semaphore.cc) and the futexes of user programs
      (kernel/proc/futex.cc and wakeup2 of proc_manager.cc).
    - The scheduler chooses the task a processor runs next
      (kernel/proc/scheduler.cc, with the sets of processors of kernel/hal/cpu.cc).

    ** Files

    - [Prelude]: outcomes ([Ret], [Panic], [Fault], [Stuck]), machine integers,
      arrays, loop rules, the tactics and generic lemmas, maps given by their cells.
    - [Buddy] models BuddySystem, one definition per member function, the tree as
      a list of node states.  [BuddySpec] holds the tree invariant and its lemmas,
      [PageAlloc] the interface [PageAllocator] (an allocator of disjoint blocks),
      [BuddyCorrect] the theorems.  [Page] has the rounding macros of page.hh.
    - [Pmm] models the page operations of PhysicalMemoryManager on a [Machine]: the
      manager, the contents of the page frames as lists of 512 words, and a log of
      TLB flushes and of pages given back to the allocator.  [PmmSpec] has its
      invariant and the specification of single pages and, in its module
      [PmmBlocks], of blocks.
      [PmmInit] models the boot-time layout (RISC-V), [PmmBoot] proves it,
      [PmmCorrect] has the theorems.
    - [PageTable] models Pte and PageTable, entries being words of frames.  [Vmm]
      models VirtualMemoryManager.  [PtRep] says what it is for a machine to store
      a list of address spaces ([World]); [PtWalk], [VmmMap], [VmmUnmap],
      [VmmAlloc], [VmmFork], [VmmCopy], [VmmFree] and [VmmCow] have
      the specification of the operations.  [VmmSystem] adds a store of a process
      with the part of fault_page that resolves a copy-on-write fault, [VmmProcs] the operations of processes and their
      simulation by separate memories, [VmmCorrect] the theorems.
    - [VmArea] is the area record with its member functions.  [AreaIndex] is the
      interface an address space has to its index.
    - [MapleTree] models VmaMapleTree at pointer level: a memory with one map per
      node field, nodes allocated and freed explicitly.  [MapleSpec], [MapleRep],
      [MapleQuery], [MapleInsert] and [MapleErase] relate it to an ordered list of
      areas, [MapleCorrect] has the theorems and the [AreaIndex] instance.
    - [VmaMeta] models overlay and object reference handling over the interface
      [MetaEnv] of page counts; [VmaSpace] models VMASpace over [AreaIndex];
      [VmaSpaceCorrect] has the theorems.
    - [Pipe] models Pipe.  A read or write call is a sequence of critical sections:
      a section runs from taking the lock to giving it up, returns the events it
      sends (wakeups, signals, bytes moved) and is either done or paused at a
      program point.  User memory, pending signals and kills are observations.
      [PipeRing] has the ring invariant, [PipeCalls] the specification of every
      section, [PipeSystem] the step relation of any number of processes and its
      invariant, [PipeCorrect] the theorems.
    - [IoSched] has the request record and the scheduler interface [IoScheduler]
      with its laws.  [MClock] models MClockScheduler: flows are slots of a pool
      linked by next and prev, requests a store linked by flow_next.  [MClockRep],
      [MClockOps], [MClockCalls] and [MClockPick] relate it to lists of flows with
      their queues; [MClockCorrect] has the theorems and the instance.
    - [VirtioQueue] models VirtioBlkQueue over [IoScheduler].  [VirtioRep],
      [VirtioOps] and [VirtioCalls] relate it to the chains in flight, the rings
      and the pending requests; [VirtioSystem] is the step relation of calls,
      interrupts and device; [VirtioCorrect] has the theorems for the queue with
      the mClock scheduler.
    - [Sleep] models process control blocks, wait channels, sleep, wakeup and the
      tests for pending signals.  [SleepRep] has the invariant of bitmaps and
      channels, [SleepOps] the specification of single operations and, in its module
      [SlotScan], of scans over slots, [SleepCorrect] that of wakeup and, in its
      module [SleepEnv], the events that happen to processes meanwhile: signals,
      scheduling, other channels.
    - [SleepLock] models SleepLock and [Semaphore] the semaphores, each with the step
      relation of processes that use one; their modules [SleepLockCorrect] and
      [SemaphoreCorrect] have the theorems.
    - [Futex] models the futex calls as program counters, one region of code per
      stretch between locks.  [FutexSystem] interleaves the regions of all processes
      with stores, signals, timeouts and scheduling.  [FutexOps], [FutexInv],
      [FutexWait] and [FutexWake] prove its invariant, [FutexScan] the uninterrupted
      wakeup2, [FutexCorrect] has the theorems.  [FutexTimeouts] is about deadlines,
      and its module [FutexLimits] evaluates the defects the theorems name.
      [FutexCalls] models sys_futex, wake-op and robust lists, [FutexRobust] proves
      the latter.
    - [Scheduler] models Scheduler on a [Machine] of tasks, tables and processors;
      a pass of start_schedule is a sequence of turns.  [SchedRep] has the invariant
      of the tables, [SchedOps] the specification of placement, of the changes of a
      task and of the load averages, one module each; [SchedReach] has the operations
      of all processors in any order (module [SchedSystem]) and the proof that they
      return and keep the invariant, [SchedPass] the passes, [SchedCorrect] the
      theorems.

    ** What the theorems show

    - Page allocator: every run of Alloc and Free is a run of an allocator of
      disjoint blocks; Alloc refuses exactly if the largest free block is too
      small; freeing what Alloc returned restores the state, coalescing included;
      initialisation, queries, addresses and rounding.
    - Physical memory: sequences of page operations are those of a store of
      reference counts; batches equal single calls; at boot no two users of the
      memory overlap, and the one layout for which booting panics is shown.
    - Virtual memory: processes that share pages copy-on-write see what they would
      see with memories of their own, in every reachable state and for every
      operation on memory without objects; counts equal mappings; pages are flushed
      before they are reused; growing an address space and resolving a fault are done
      in full or leave nothing behind; copying one is done in full, or the parent is
      as before and the child has lost its mappings below the page that failed, with
      exactly their references.
    - Area index: insert, erase, find, gap search and iteration do on the tree what
      they do on the ordered list, splits and node removal included, and no node
      leaks.
    - Address space: list and index stay consistent under creation, destruction,
      reindexing and coalescing; coalescing keeps what every address is mapped to
      and which areas are marked as resident, and misses no merge in its range; cloning an overlay is all or nothing.
    - Pipe: in every interleaving bytes leave in the order they entered; sections
      end; return values tell what happened; who wakes whom, with the case in
      which a sleeping reader is not woken; polling, resizing, and that the
      chunked write equals the write by single bytes.
    - Block scheduler: requests leave from the head of a flow in the order the tags
      prescribe, none is lost, one is returned whenever one is due, and service
      times are exact roundings.
    - Block queue: a section ends unless the device reports an error, in which case
      it panics; the device finds correct chains; no call sleeps without something
      that leads to its wakeup, except that a clock set back can strand one, of which
      a run is shown; a returned call leaves no pointer to its request behind.
    - Sleep: wakeup wakes the sleepers of its channel and nobody else.  A sleep lock
      has one holder, and no process sleeps for it without a holder or a release
      that will wake it.  A semaphore grants what it has, in the order of arrival,
      as long as no signal ends a wait; a signal that does is shown to break this.
    - Futexes: no wakeup is lost in any interleaving; a wakeup wakes and requeues
      exactly the waiters it should; bucket locks cannot block each other; timeouts
      and robust lists are exact.  Two defects of the code damage the entry of a
      waiter: a requeue from a shared to a private futex across address spaces, and a
      removal that clears a key it has not read.  Both are steps of [FutexSystem],
      which marks the process in its log ([stray]); nothing is claimed of the marked
      process until it enters a key again, and the others are not affected.
    - Scheduler: no task runs twice; run queues and counters are exact; no assertion
      fails; a pass takes the next task in turn, does not idle with work and starves
      no task; placement and load averages.

    ** Bounds, fuel and parameters

    Integers are [Z] with wrap-around written out at their width.  Loops that are
    not structural take fuel; running out is [Stuck], and the theorems state that
    the result is a [Ret], so the fuel is proved to be enough: the depth of the
    buddy tree, the number of nodes or areas, the number of pages of a range (the
    depth of the tables for [freewalk]), the sixteen rounds of the boot layout, the bytes still to move for a pipe,
    the pool size for flow lists, one more than the queue size (128) for the loops
    of the block queue, of which at most 42 chains of three descriptors are in
    flight, 64 for the bits of a word, 521 for wakeup2 (one iteration per process and
    per word of the bucket), 1100 for a pass of the scheduler (one turn per task and
    word of its two ranges), the bound of the code for robust lists.

    Parameters are page reference counts ([MetaEnv]), user memory as a pipe section
    observes it, and for the block queue the transport's address translation, the
    addresses of the driver's fields, the clock and the device.  Nothing is
    assumed of the clock, which can be set.  The device is assumed to fetch the avail
    ring in order and to complete each chain it fetched once, with any status, at any
    time between sections or while the driver works off the used ring.  At most one call
    per process (512) is in progress, half of the scheduler's flow slots.  For the
    futexes the translation of user addresses ([AddressSpaces]) does not change while
    a call is in progress.  A sleep lock or semaphore has an address that is not null,
    and thread ids are distinct.

    ** Not modelled

    Memory ordering below the critical sections: a section is atomic except for the
    device's writes to the used ring, and memory barriers are only recorded.  An
    operation of the scheduler is one step, as it holds the lock of the task it
    changes.  Console output and performance counters are omitted, and so are the
    exchange of registers and address spaces at a switch, idling and the interrupts
    sent to idle processors.  Wake-op and the wakeups of robust lists run uninterrupted.
    A semaphore wait that a signal ends is no step of [Semaphore].
    Of VmObject only the reference counting and area destruction are modelled; its
    page-fault handlers need the page cache.  The memory managers and the number of
    processors are those of the RISC-V build; user copies, the kernel's own page
    table, the population of pages on demand and the growth of stacks are left out,
    private mappings of objects are not among the operations of [VmmProcs], and the
    area that covers a page is an argument of the copy-on-write and permission
    operations.  Creation, exit and waiting for processes, delivery of signals, the file systems, the network stack,
    the decoding of other system calls than futex, boot code and the device drivers
    below the transport are not modelled: they are bound to trap frames, assembly or
    register access, are third-party code the sources call, or are parts this library
    has not reached (heap, FIFOs, timers, shared memory). *)

From stdpp Require Export base numbers sorting.
From stdpp Require Export list list_numbers gmap.

(** ** Outcomes of kernel code

    A kernel routine returns a value, stops in [panic()], or performs an
    access that C++ leaves undefined (an array index outside the allocated
    storage, a null dereference).  [Stuck] is the value of a loop model that ran
    out of fuel; the theorems rule it out where they claim a result. *)
Inductive outcome (A : Type) : Type :=
  | Ret (a : A)
  | Panic
  | Fault
  | Stuck.
Arguments Ret {A} _.
Arguments Panic {A}.
Arguments Fault {A}.
Arguments Stuck {A}.

Definition obind {A B} (m : outcome A) (k : A → outcome B) : outcome B :=
  match m with
  | Ret a => k a
  | Panic => Panic
  | Fault => Fault
  | Stuck => Stuck
  end.

Declare Scope kernel_scope.
Delimit Scope kernel_scope with K.
Notation "'let!' x ':=' m 'in' k" := (obind m (λ x, k))
  (at level 10, x pattern, m at level 100, k at level 200) : kernel_scope.
Open Scope kernel_scope.
Open Scope Z_scope.

(** ** Machine integers *)

(** Unsigned wrap-around at the three widths the kernel uses. *)
Definition u8 (x : Z) : Z := x mod 2 ^ 8.
Definition u16 (x : Z) : Z := x mod 2 ^ 16.
Definition u32 (x : Z) : Z := x mod 2 ^ 32.
Definition u64 (x : Z) : Z := x mod 2 ^ 64.
(** Conversion to [int]: two's complement at 32 bits. *)
Definition i32 (x : Z) : Z := (x + 2 ^ 31) mod 2 ^ 32 - 2 ^ 31.

Definition PGSIZE : Z := 4096.

(** Addresses of kernel objects. *)
Abbreviation ptr := Z.
Definition nullptr : ptr := 0.

(** ** Loops

    [for_up lo hi body s] is [for (i = lo; i < hi; ++i) s = body(i, s)], and
    [for_down n body s] is [for (i = n - 1; i >= 0; --i) s = body(i, s)]. *)
Section loops.
Context {St : Type} (body : Z → St → outcome St).

Fixpoint for_iter (n : nat) (i : Z) (s : St) : outcome St :=
    match n with
    | O => Ret s
    | S n' => let! s' := body i s in for_iter n' (i + 1) s'
    end.

Definition for_up (lo hi : Z) (s : St) : outcome St :=
    for_iter (Z.to_nat (hi - lo)) lo s.

Fixpoint for_down (n : nat) (s : St) : outcome St :=
    match n with
    | O => Ret s
    | S n' => let! s' := body (Z.of_nat n') s in for_down n' s'
    end.
End loops.

(** ** Arrays

    Array storage is a list; an access outside it is a [Fault]. *)
Section arrays.
Context {A : Type}.

Definition aget (l : list A) (i : Z) : outcome A :=
    if bool_decide (0 ≤ i) then
      match l !! Z.to_nat i with Some x => Ret x | None => Fault end
    else Fault.

Definition aset (l : list A) (i : Z) (x : A) : outcome (list A) :=
    if bool_decide (0 ≤ i < Z.of_nat (length l)) then Ret (<[Z.to_nat i := x]> l)
    else Fault.

(** [memmove] out of and into an array, at element [i]. *)
Definition load_range (l : list A) (i n : Z) : outcome (list A) :=
    if bool_decide (0 ≤ i ∧ 0 ≤ n ∧ i + n ≤ Z.of_nat (length l))
    then Ret (take (Z.to_nat n) (drop (Z.to_nat i) l)) else Fault.

Definition store_range (l : list A) (i : Z) (bs : list A) : outcome (list A) :=
    if bool_decide (0 ≤ i ∧ i + Z.of_nat (length bs) ≤ Z.of_nat (length l))
    then Ret (take (Z.to_nat i) l ++ bs ++ drop (Z.to_nat i + length bs) l) else Fault.
End arrays.

(** ** Automation *)

(** Case analysis on the boolean test a model branches on, turning integer
    tests into the facts they decide. *)
Ltac case_test :=
  match goal with
  | |- context [if ?c then _ else _] =>
      lazymatch c with
      | (?a <? ?b)%Z => destruct (Z.ltb_spec a b)
      | (?a <=? ?b)%Z => destruct (Z.leb_spec a b)
      | (?a =? ?b)%Z => destruct (Z.eqb_spec a b)
      | bool_decide ?P => let H := fresh "Hd" in destruct (bool_decide_reflect P) as [H|H]
      end
  end.

(** Turn a conjunction or a refuted disjunction of tests into facts. *)
Ltac bool_facts :=
  repeat match goal with
  | H : (_ && _) = true |- _ => apply andb_true_iff in H as [? ?]
  | H : (_ || _) = false |- _ => apply orb_false_iff in H as [? ?]
  | H : negb _ = false |- _ => apply negb_false_iff in H
  | H : negb _ = true |- _ => apply negb_true_iff in H
  | H : (_ =? _)%Z = true |- _ => apply Z.eqb_eq in H
  | H : (_ =? _)%Z = false |- _ => apply Z.eqb_neq in H
  | H : (_ <=? _)%Z = true |- _ => apply Z.leb_le in H
  | H : (_ <? _)%Z = true |- _ => apply Z.ltb_lt in H
  | H : (_ <? _)%Z = false |- _ => apply Z.ltb_ge in H
  | H : bool_decide _ = true |- _ => apply bool_decide_eq_true in H
  | H : Bool.eqb _ _ = true |- _ => apply eqb_prop in H
  end.

(** Open a hypothesis [obind m k = Ret r]. *)
Lemma obind_Ret {A B} (m : outcome A) (k : A → outcome B) r :
  obind m k = Ret r ↔ ∃ a, m = Ret a ∧ k a = Ret r.
Proof. destruct m; naive_solver. Qed.

Ltac obind_inv H :=
  apply obind_Ret in H as (? & ? & H).

Create HintDb kernel.

(** ** Integer lemmas *)

Lemma u16_small x : 0 ≤ x < 2 ^ 16 → u16 x = x.
Proof. intros. by apply Z.mod_small. Qed.

Lemma u32_small x : 0 ≤ x < 2 ^ 32 → u32 x = x.
Proof. intros. by apply Z.mod_small. Qed.

Lemma u64_small x : 0 ≤ x < 2 ^ 64 → u64 x = x.
Proof. intros. by apply Z.mod_small. Qed.

Lemma i32_small x : - 2 ^ 31 ≤ x < 2 ^ 31 → i32 x = x.
Proof. intros. unfold i32. rewrite Z.mod_small; lia. Qed.

Lemma u32_range x : 0 ≤ u32 x < 2 ^ 32.
Proof. by apply Z.mod_pos_bound. Qed.

Lemma u64_range x : 0 ≤ u64 x < 2 ^ 64.
Proof. by apply Z.mod_pos_bound. Qed.

#[export] Hint Resolve u32_range u64_range : kernel.

(** A position that ran past the end of a ring at most once. *)
Lemma mod_wrap a m : 0 ≤ a < 2 * m → a < m ∧ a mod m = a ∨ m ≤ a ∧ a mod m = a - m.
Proof.
  intros Ha. destruct (decide (a < m)); [left; rewrite Z.mod_small; lia|].
  right. split; [lia|]. symmetry. apply (Z.mod_unique_pos _ _ 1); lia.
Qed.

Lemma pow2_pos n : 0 ≤ n → 0 < 2 ^ n.
Proof. intros. by apply Z.pow_pos_nonneg. Qed.

Lemma pow2_S (n : nat) : 2 ^ Z.of_nat (S n) = 2 * 2 ^ Z.of_nat n.
Proof. rewrite Nat2Z.inj_succ, Z.pow_succ_r; lia. Qed.

Lemma pow2_nat_pos (n : nat) : 0 < 2 ^ Z.of_nat n.
Proof. apply pow2_pos; lia. Qed.

#[export] Hint Resolve pow2_pos pow2_nat_pos : kernel.

(** ** Loop rules *)
Section loop_rules.
Context {St : Type} (body : Z → St → outcome St) (P : Z → St → Prop).

Lemma for_iter_inv n i s :
    P i s →
    (∀ j s, i ≤ j < i + Z.of_nat n → P j s → ∃ s', body j s = Ret s' ∧ P (j + 1) s') →
    ∃ s', for_iter body n i s = Ret s' ∧ P (i + Z.of_nat n) s'.
Proof.
    revert i s. induction n as [|n IH]; intros i s Hs Hstep.
    - exists s. by rewrite Z.add_0_r.
    - destruct (Hstep i s) as (s1 & E & H1); [lia|done|]. simpl. rewrite E. cbn [obind].
      destruct (IH (i + 1) s1 H1) as (s' & -> & Hs'); [intros; apply Hstep; [lia|done]|].
      exists s'. split; [done|]. by replace (i + Z.of_nat (S n)) with (i + 1 + Z.of_nat n) by lia.
  Qed.

Lemma for_up_inv lo hi s :
    lo ≤ hi → P lo s →
    (∀ j s, lo ≤ j < hi → P j s → ∃ s', body j s = Ret s' ∧ P (j + 1) s') →
    ∃ s', for_up body lo hi s = Ret s' ∧ P hi s'.
Proof.
    intros Hle Hs Hstep. destruct (for_iter_inv (Z.to_nat (hi - lo)) lo s Hs) as (s' & E & Hs').
    - intros j s1 Hj. apply Hstep. lia.
    - exists s'. split; [done|]. by replace (lo + Z.of_nat (Z.to_nat (hi - lo))) with hi in Hs' by lia.
  Qed.

Lemma for_down_inv n s :
    P (Z.of_nat n) s →
    (∀ j s, 0 ≤ j < Z.of_nat n → P (j + 1) s → ∃ s', body j s = Ret s' ∧ P j s') →
    ∃ s', for_down body n s = Ret s' ∧ P 0 s'.
Proof.
    revert s. induction n as [|n IH]; intros s Hs Hstep; [by exists s|].
    simpl. destruct (Hstep (Z.of_nat n) s) as (s1 & -> & H1); [lia| |].
    - by replace (Z.of_nat n + 1) with (Z.of_nat (S n)) by lia.
    - cbn [obind]. apply IH; [done|]. intros; apply Hstep; [lia|done].
  Qed.
End loop_rules.

Lemma for_up_ext {St} (f g : Z → St → outcome St) lo hi s :
  (∀ i s, f i s = g i s) → for_up f lo hi s = for_up g lo hi s.
Proof.
  intros H. unfold for_up. generalize (Z.to_nat (hi - lo)). intros n. revert lo s.
  induction n as [|n IH]; intros lo s; [done|]. cbn [for_iter]. rewrite H.
  destruct (g lo s); cbn [obind]; [apply IH|done..].
Qed.

(** ** Array lemmas *)
Section array_lemmas.
Context {A : Type}.
  Implicit Types (l : list A) (i : Z) (x : A).

Lemma aget_lookup l i x :
    0 ≤ i → l !! Z.to_nat i = Some x → aget l i = Ret x.
Proof.
    intros Hi Hl. unfold aget. rewrite bool_decide_eq_true_2 by done. by rewrite Hl.
  Qed.

Lemma aset_in_range l i x :
    0 ≤ i < Z.of_nat (length l) → aset l i x = Ret (<[Z.to_nat i := x]> l).
Proof. intros. unfold aset. by rewrite bool_decide_eq_true_2. Qed.

Lemma lookup_total_in_range `{!Inhabited A} l i :
    0 ≤ i < Z.of_nat (length l) → l !! Z.to_nat i = Some (l !!! Z.to_nat i).
Proof. intros. apply list_lookup_lookup_total_lt. lia. Qed.

Lemma aget_total `{!Inhabited A} l i :
    0 ≤ i < Z.of_nat (length l) → aget l i = Ret (l !!! Z.to_nat i).
Proof. intros. apply aget_lookup; [lia|]. by apply lookup_total_in_range. Qed.

Lemma lookup_total_aset_eq `{!Inhabited A} l i x :
    0 ≤ i < Z.of_nat (length l) → <[Z.to_nat i := x]> l !!! Z.to_nat i = x.
Proof. intros. apply list_lookup_total_insert_eq. lia. Qed.

Lemma lookup_total_aset_ne `{!Inhabited A} l i j x :
    0 ≤ i → 0 ≤ j → i ≠ j → <[Z.to_nat i := x]> l !!! Z.to_nat j = l !!! Z.to_nat j.
Proof. intros. apply list_lookup_total_insert_ne. lia. Qed.
End array_lemmas.

(** One array access of a model, in range by [lia]. *)
Ltac array_step :=
  lazymatch goal with
  | |- obind (aset _ _ _) _ = _ => rewrite aset_in_range by (rewrite ?length_insert; lia)
  | |- obind (aget _ _) _ = _ => rewrite aget_total by (rewrite ?length_insert; lia)
  | |- aset _ _ _ = _ => rewrite aset_in_range by (rewrite ?length_insert; lia)
  end; cbn [obind].

Lemma elem_of_flat_map {A B} (f : A → list B) l y :
  y ∈ flat_map f l ↔ ∃ x, x ∈ l ∧ y ∈ f x.
Proof.
  rewrite list_elem_of_In, in_flat_map. split; intros (x & Hx & Hy); exists x.
  all: by rewrite ?list_elem_of_In in *.
Qed.

(** Membership in lists built from [++] and [::]. *)
Ltac in_list := rewrite ?elem_of_app, ?elem_of_cons in *; tauto.

Lemma NoDup_middle2 {A} (l : list A) x y r :
  NoDup (l ++ x :: y :: r) → x ≠ y ∧ x ∉ l ++ r ∧ y ∉ l ++ r ∧ y ∉ l ++ x :: r.
Proof.
  assert (l ++ x :: y :: r ≡ₚ x :: y :: l ++ r) as -> by solve_Permutation.
  rewrite !NoDup_cons, !elem_of_cons. intros (H1 & H2 & _).
  split_and!; [naive_solver..|]. rewrite elem_of_app, elem_of_cons in *. naive_solver.
Qed.

Lemma filter_ne_absent {A} `{EqDecision A} (l : list A) x : x ∉ l → base.filter (.≠ x) l = l.
Proof.
  intros Hx. induction l as [|y l IH]; [done|]. rewrite not_elem_of_cons in Hx.
  rewrite filter_cons_True by naive_solver. f_equal. naive_solver.
Qed.

Lemma filter_ne_middle {A} `{EqDecision A} (l : list A) x r :
  NoDup (l ++ x :: r) → base.filter (.≠ x) (l ++ x :: r) = l ++ r.
Proof.
  rewrite NoDup_app, NoDup_cons. intros (_ & Hd & Hx & _).
  rewrite filter_app, filter_cons_False by (intros Hn; by apply Hn).
  rewrite !filter_ne_absent; [done|done|]. intros Hl. apply (Hd x Hl). by left.
Qed.

(** A list splits in one way into elements with and elements without [P]. *)
Lemma app_split_unique {A} (P : A → Prop) (l r l' r' : list A) :
  l ++ r = l' ++ r' → (∀ x, x ∈ l → P x) → (∀ x, x ∈ r → ¬ P x) →
  (∀ x, x ∈ l' → P x) → (∀ x, x ∈ r' → ¬ P x) → l = l' ∧ r = r'.
Proof.
  revert l'. induction l as [|x l IH]; intros [|x' l'] E Hl Hr Hl' Hr'; cbn in E.
  - done.
  - destruct (Hr x'); [rewrite E; by left|]. apply Hl'. by left.
  - destruct (Hr' x); [rewrite <- E; by left|]. apply Hl. by left.
  - injection E as <- E. destruct (IH l' E) as [-> ->]; try done.
    + intros y Hy. apply Hl. by right.
    + intros y Hy. apply Hl'. by right.
Qed.

(** The last element of a list of pointers, [d] for the empty one. *)
Definition last_or (d : ptr) (l : list ptr) : ptr := default d (last l).

Lemma last_or_snoc d l x : last_or d (l ++ [x]) = x.
Proof. unfold last_or. by rewrite last_snoc. Qed.

Lemma last_or_app d l l' : last_or d (l ++ l') = last_or (last_or d l) l'.
Proof.
  destruct l' as [|x l' _] using rev_ind; [by rewrite app_nil_r|].
  by rewrite app_assoc, !last_or_snoc.
Qed.

Lemma last_or_cons d x l : last_or d (x :: l) = last_or x l.
Proof. exact (last_or_app d [x] l). Qed.

(** ** Maps given by their cells

    [repl f l]: the map [f] holds exactly the cells of the list [l], each key
    once.  The order of the list is irrelevant, so one memory can be described
    by the list that suits the data structure it stores. *)
Section cells.
Context {A : Type}.
Implicit Types (f : gmap Z A) (l : list (Z * A)).

Definition repl f l : Prop := f = list_to_map l ∧ NoDup l.*1.

Lemma repl_perm f l l' : l ≡ₚ l' → repl f l → repl f l'.
Proof.
  intros Hp [-> Hnd]. split; [by apply list_to_map_proper|]. by rewrite <- Hp.
Qed.

#[export] Instance repl_proper f : Proper ((≡ₚ) ==> iff) (repl f).
Proof. intros l l' Hp. split; apply repl_perm; [done|by symmetry]. Qed.

Lemma repl_lookup f l i x : repl f l → (i, x) ∈ l → f !! i = Some x.
Proof. intros [-> Hnd] ?. by apply elem_of_list_to_map_1. Qed.

Lemma repl_update f l i x y : repl f ((i, x) :: l) → repl (<[i := y]> f) ((i, y) :: l).
Proof. intros [-> Hnd]. split; [|done]. cbn. by rewrite insert_insert_eq. Qed.

Lemma repl_fresh f l i y : i ∉ l.*1 → repl f l → repl (<[i := y]> f) ((i, y) :: l).
Proof. intros Hi [-> Hnd]. split; [done|]. cbn. by constructor. Qed.

Lemma repl_delete f l i x : repl f ((i, x) :: l) → repl (delete i f) l.
Proof.
  intros [-> Hnd]. cbn in Hnd. apply NoDup_cons in Hnd as [Hi Hnd]. split; [|done]. cbn.
  rewrite delete_insert_id; [done|]. by apply not_elem_of_list_to_map_1.
Qed.

Lemma repl_delete_none f l i : i ∉ l.*1 → repl f l → repl (delete i f) l.
Proof.
  intros Hi [-> Hnd]. split; [|done]. apply delete_id. by apply not_elem_of_list_to_map_1.
Qed.

Lemma repl_size f l : repl f l → size f = length l.
Proof.
  intros [-> Hnd]. induction l as [|[i x] l IH]; cbn in *; [by rewrite map_size_empty|].
  apply NoDup_cons in Hnd as [Hi Hnd]. rewrite map_size_insert_None, IH; [done|done|].
  by apply not_elem_of_list_to_map_1.
Qed.
End cells.

(** How often a value occurs in a list. *)
Definition occ (a : Z) (l : list Z) : Z := Z.of_nat (length (base.filter (a =.) l)).

Lemma occ_cons a x l : occ a (x :: l) = (if decide (a = x) then 1 else 0) + occ a l.
Proof.
  unfold occ. destruct (decide (a = x)) as [->|Hne].
  - rewrite filter_cons_True by done. cbn [length]. lia.
  - by rewrite filter_cons_False.
Qed.

Lemma occ_app a l r : occ a (l ++ r) = occ a l + occ a r.
Proof. unfold occ. rewrite filter_app, length_app. lia. Qed.

Lemma occ_nonneg a l : 0 ≤ occ a l.
Proof. unfold occ. lia. Qed.

Lemma occ_pos a l : 0 < occ a l ↔ a ∈ l.
Proof.
  induction l as [|x l IH]; [split; [unfold occ; cbn; lia|by intros ?%not_elem_of_nil]|].
  rewrite occ_cons, elem_of_cons. pose proof (occ_nonneg a l).
  destruct (decide (a = x)); [split; [auto|lia]|]. rewrite <- IH. split; [auto with lia|naive_solver].
Qed.
