(* ===== verification/Page.v ===== *)
(** * Pages and rounding (kernel/mem/page.hh)

    The page size, the two rounding macros at 64 bits and their arithmetic. *)
From S2P Require Import Prelude.

Module Page.

(** [~(PGSIZE - 1)] is an [int], sign-extended to 64 bits. *)
Definition PGROUNDDOWN (address : Z) : Z := Z.land address (u64 (Z.lnot (PGSIZE - 1))).

Definition PGROUNDUP (size : Z) : Z :=
  Z.land (u64 (size + PGSIZE - 1)) (u64 (Z.lnot (PGSIZE - 1))).

(** ** Rounding as arithmetic *)

(** Clearing the low [k] bits of a 64-bit value. *)
Lemma land_clear_low k x :
  0 ≤ k ≤ 64 → 0 ≤ x < 2 ^ 64 → Z.land x (2 ^ 64 - 2 ^ k) = x - x mod 2 ^ k.
Proof.
  intros Hk Hx. pose proof (pow2_pos k).
  replace (2 ^ 64 - 2 ^ k) with (Z.ldiff (Z.ones 64) (Z.ones k)); cycle 1.
  { rewrite <- Z.sub_nocarry_ldiff.
    - rewrite !Z.ones_equiv. lia.
    - apply Z.bits_inj'. intros n Hn. rewrite Z.ldiff_spec, Z.bits_0.
      rewrite !Z.testbit_ones by lia. lia. }
  replace (x - x mod 2 ^ k) with (Z.ldiff x (Z.ones k)).
  - apply Z.bits_inj'. intros n Hn. rewrite Z.land_spec, !Z.ldiff_spec, !Z.testbit_ones by lia.
    destruct (Z.ltb_spec n 64).
    + rewrite (proj2 (Z.leb_le 0 n)) by lia. done.
    + rewrite <- (Z.mod_small x (2 ^ 64)) by done. by rewrite Z.mod_pow2_bits_high by lia.
  - rewrite Z.ldiff_ones_r, Z.shiftl_mul_pow2, Z.shiftr_div_pow2 by lia.
    pose proof (Z.div_mod x (2 ^ k)). lia.
Qed.

Lemma PGROUNDDOWN_mod a : 0 ≤ a < 2 ^ 64 → PGROUNDDOWN a = a - a mod PGSIZE.
Proof. intros Ha. by apply (land_clear_low 12). Qed.

Lemma PGROUNDUP_mod a : 0 ≤ a → a + PGSIZE - 1 < 2 ^ 64 →
  PGROUNDUP a = (a + PGSIZE - 1) / PGSIZE * PGSIZE.
Proof.
  intros Ha Hb. unfold PGROUNDUP. rewrite u64_small by (unfold PGSIZE in *; lia).
  change (u64 (Z.lnot (PGSIZE - 1))) with (2 ^ 64 - 2 ^ 12).
  rewrite land_clear_low by (unfold PGSIZE in *; lia). change (2 ^ 12) with PGSIZE.
  pose proof (Z.div_mod (a + PGSIZE - 1) PGSIZE). unfold PGSIZE in *. lia.
Qed.

(** An address is page-aligned if it is a multiple of the page size. *)
Definition page_aligned (a : Z) : Prop := a mod PGSIZE = 0.

Lemma PGROUNDDOWN_aligned a : 0 ≤ a < 2 ^ 64 → page_aligned a → PGROUNDDOWN a = a.
Proof. intros ? Ha. rewrite PGROUNDDOWN_mod by done. rewrite Ha. lia. Qed.

Lemma PGROUNDDOWN_spec a : 0 ≤ a < 2 ^ 64 →
  page_aligned (PGROUNDDOWN a) ∧ PGROUNDDOWN a ≤ a < PGROUNDDOWN a + PGSIZE ∧ 0 ≤ PGROUNDDOWN a.
Proof.
  intros Ha. rewrite PGROUNDDOWN_mod by done. unfold page_aligned, PGSIZE.
  pose proof (Z.mod_pos_bound a 4096). pose proof (Z.div_mod a 4096).
  split; [|lia]. replace (a - a mod 4096) with (a / 4096 * 4096) by lia. apply Z_mod_mult.
Qed.

Lemma PGROUNDUP_spec a : 0 ≤ a → a + PGSIZE - 1 < 2 ^ 64 →
  page_aligned (PGROUNDUP a) ∧ a ≤ PGROUNDUP a < a + PGSIZE.
Proof.
  intros Ha Hb. rewrite PGROUNDUP_mod by done. unfold page_aligned, PGSIZE in *.
  split; [apply Z_mod_mult|]. pose proof (Z.div_mod (a + 4096 - 1) 4096).
  pose proof (Z.mod_pos_bound (a + 4096 - 1) 4096). lia.
Qed.

Lemma PGROUNDUP_aligned a : 0 ≤ a → a + PGSIZE - 1 < 2 ^ 64 → page_aligned a → PGROUNDUP a = a.
Proof.
  intros Ha Hb Hal. destruct (PGROUNDUP_spec a Ha Hb) as [H1 H2].
  unfold page_aligned, PGSIZE in *. apply Z.mod_divide in H1 as [x H1]; [|done].
  apply Z.mod_divide in Hal as [y Hy]; [|done]. lia.
Qed.

End Page.
