(* ===== verification/Buddy.v ===== *)
(** * The buddy allocator (kernel/mem/buddysystem.cc)

    A complete binary tree of node states, stored as an array, over
    [capacity_pages] pages. *)
From S2P Require Import Prelude.

Module Buddy.

(** ** Data (buddysystem.hh) *)

Inductive NodeState := NODE_UNUSED | NODE_USED | NODE_SPLIT | NODE_FULL.

#[export] Instance NodeState_eq_dec : EqDecision NodeState.
Proof. solve_decision. Defined.

Record PageQueryResult := mkQuery {
  in_range : bool;
  is_free : bool;
  node_state : NodeState;
  block_pages : Z;
  node_index : Z;
  node_level : Z;
  block_offset : Z
}.

(** [PageQueryResult result{}]: every field zero. *)
Definition PageQueryResult_zero : PageQueryResult :=
  mkQuery false false NODE_UNUSED 0 0 0 0.

Record BuddySystem := mkBuddy {
  page_count : Z;
  capacity_pages : Z;
  free_page_count_ : Z;
  level : Z;
  tree : list NodeState;
  base_ptr : Z
}.

Definition with_tree (b : BuddySystem) (t : list NodeState) : BuddySystem :=
  mkBuddy (page_count b) (capacity_pages b) (free_page_count_ b) (level b) t (base_ptr b).

Definition with_free (b : BuddySystem) (n : Z) : BuddySystem :=
  mkBuddy (page_count b) (capacity_pages b) n (level b) (tree b) (base_ptr b).

(** ** Sizes *)

Definition AlignUp (addr align : Z) : Z :=
  Z.land (u64 (addr + align - 1)) (u64 (Z.lnot (u64 (align - 1)))).

(** The bit-smearing round up to a power of two, at 32 bits. *)
Definition NextPowerOfTwo (x : Z) : Z :=
  if x =? 0 then 1 else
  let x := u32 (x - 1) in
  let x := Z.lor x (Z.shiftr x 1) in
  let x := Z.lor x (Z.shiftr x 2) in
  let x := Z.lor x (Z.shiftr x 4) in
  let x := Z.lor x (Z.shiftr x 8) in
  let x := Z.lor x (Z.shiftr x 16) in
  u32 (x + 1).

Definition capacity_pages_for (total_pages : Z) : Z :=
  NextPowerOfTwo (if total_pages =? 0 then 1 else total_pages).

Definition required_tree_bytes (total_pages : Z) : Z :=
  u64 (capacity_pages_for total_pages * 2 - 1).

Definition required_storage_bytes (sizeof_BuddySystem total_pages : Z) : Z :=
  u64 (sizeof_BuddySystem + required_tree_bytes total_pages).

(** ** Initialisation *)

(** [while ((1u << level) < capacity_pages) level++], at most 32 turns before
    the shift count leaves the width of [unsigned]. *)
Fixpoint level_loop (fuel : nat) (lv capacity : Z) : outcome Z :=
  match fuel with
  | O => Stuck
  | S fuel' =>
      if u32 (Z.shiftl 1 lv) <? capacity then level_loop fuel' (lv + 1) capacity
      else Ret lv
  end.

(** [(1 << (level + 1)) - 1] in [int]. *)
Definition max_nodes_of (lv : Z) : Z := i32 (i32 (Z.shiftl 1 (lv + 1)) - 1).

Definition mark_unusable_leaves (b : BuddySystem) : outcome BuddySystem :=
  let max_nodes := max_nodes_of (level b) in
  let leaf_start := i32 (Z.shiftl 1 (level b)) - 1 in
  let! t := for_up (λ i t,
      aset t (leaf_start + i)
        (if page_count b <=? i then NODE_FULL else NODE_UNUSED))
    0 (capacity_pages b) (tree b) in
  let! t := for_up (λ idx t, aset t idx NODE_FULL)
    (leaf_start + capacity_pages b) max_nodes t in
  Ret (with_tree b t).

Definition rebuild_parent_states (b : BuddySystem) : outcome BuddySystem :=
  let max_nodes := max_nodes_of (level b) in
  let! t := for_down (λ idx t,
      let left := idx * 2 + 1 in
      let right := left + 1 in
      if (max_nodes <=? left) || (max_nodes <=? right) then aset t idx NODE_FULL
      else
        let! l := aget t left in
        let! r := aget t right in
        if bool_decide (l = NODE_FULL) && bool_decide (r = NODE_FULL)
        then aset t idx NODE_FULL
        else if bool_decide (l = NODE_UNUSED) && bool_decide (r = NODE_UNUSED)
        then aset t idx NODE_UNUSED
        else aset t idx NODE_SPLIT)
    (Z.to_nat (i32 (Z.shiftl 1 (level b)) - 1)) (tree b) in
  Ret (with_tree b t).

(** [tree_storage] is [None] for a null pointer; its bytes are about to be
    overwritten, so their former contents are irrelevant. *)
Definition Initialize (baseptr total_pages : Z)
    (tree_storage : option (list NodeState)) (tree_storage_bytes : Z)
    : outcome BuddySystem :=
  let pages := if total_pages =? 0 then 1 else total_pages in
  let capacity := capacity_pages_for pages in
  let! lv := level_loop 32 0 capacity in
  let max_nodes := required_tree_bytes pages in
  match tree_storage with
  | None => Panic
  | Some storage =>
      if tree_storage_bytes <? max_nodes then Panic else
      let! t := for_up (λ i t, aset t i NODE_UNUSED) 0 max_nodes storage in
      let! b := mark_unusable_leaves (mkBuddy pages capacity pages lv t baseptr) in
      rebuild_parent_states b
  end.

(** ** Node geometry *)

Fixpoint depth_loop (fuel : nat) (depth x : Z) : outcome Z :=
  match fuel with
  | O => Stuck
  | S fuel' =>
      if i32 (Z.shiftl 1 (depth + 1)) <=? x then depth_loop fuel' (depth + 1) x
      else Ret depth
  end.

Definition node_depth (index : Z) : outcome Z := depth_loop 31 0 (index + 1).

Definition node_offset_pages (b : BuddySystem) (index : Z) : outcome Z :=
  let! depth := node_depth index in
  let pos := (index + 1) - Z.shiftl 1 depth in
  Ret (Z.shiftl pos (level b - depth)).

Definition node_block_pages (b : BuddySystem) (depth : Z) : Z :=
  Z.shiftr (capacity_pages b) depth.

(** ** Node states *)

Definition split_unused_node (t : list NodeState) (index : Z) : outcome (list NodeState) :=
  let! s := aget t index in
  if negb (bool_decide (s = NODE_UNUSED)) then Ret t else
  let! t := aset t index NODE_SPLIT in
  let! t := aset t (index * 2 + 1) NODE_UNUSED in
  aset t (index * 2 + 2) NODE_UNUSED.

Definition unavailable (s : NodeState) : bool :=
  bool_decide (s = NODE_USED) || bool_decide (s = NODE_FULL).

Definition summarize (l r : NodeState) : NodeState :=
  if unavailable l && unavailable r then NODE_FULL
  else if bool_decide (l = NODE_UNUSED) && bool_decide (r = NODE_UNUSED) then NODE_UNUSED
  else NODE_SPLIT.

Definition summarize_children_state (t : list NodeState) (index : Z) : outcome NodeState :=
  let left := index * 2 + 1 in
  let right := left + 1 in
  let! l := aget t left in
  let! r := aget t right in
  Ret (summarize l r).

(** ** Allocation and release *)

(** The recursion of [allocate_from_node]; [fuel] bounds its depth. Returns
    the node index or [-1], and the tree as the call leaves it. *)
Fixpoint allocate_from_node (fuel : nat) (b : BuddySystem) (t : list NodeState)
    (index depth actual_pages : Z) : outcome (Z * list NodeState) :=
  match fuel with
  | O => Stuck
  | S fuel' =>
      let block_pages := node_block_pages b depth in
      if block_pages <? actual_pages then Ret (-1, t) else
      let! state := aget t index in
      if unavailable state then Ret (-1, t) else
      if block_pages =? actual_pages then
        if negb (bool_decide (state = NODE_UNUSED)) then Ret (-1, t) else
        let! t := aset t index NODE_USED in
        Ret (index, t)
      else
        let! t := (if bool_decide (state = NODE_UNUSED) then split_unused_node t index
                   else Ret t) in
        let! state := aget t index in
        if negb (bool_decide (state = NODE_SPLIT)) then Ret (-1, t) else
        let left := index * 2 + 1 in
        let! (allocated, t) := allocate_from_node fuel' b t left (depth + 1) actual_pages in
        let! (allocated, t) :=
          (if allocated =? -1
           then allocate_from_node fuel' b t (left + 1) (depth + 1) actual_pages
           else Ret (allocated, t)) in
        let! s := summarize_children_state t index in
        let! t := aset t index s in
        Ret (allocated, t)
  end.

Fixpoint free_from_node (fuel : nat) (b : BuddySystem) (t : list NodeState)
    (index depth target_offset : Z) : outcome (bool * list NodeState) :=
  match fuel with
  | O => Stuck
  | S fuel' =>
      let! offset := node_offset_pages b index in
      let block_pages := node_block_pages b depth in
      if (target_offset <? offset) || (offset + block_pages <=? target_offset)
      then Ret (false, t) else
      let! state := aget t index in
      if bool_decide (state = NODE_USED) then
        if negb (offset =? target_offset) then Ret (false, t) else
        let! t := aset t index NODE_UNUSED in
        Ret (true, t)
      else if bool_decide (state = NODE_UNUSED) then Ret (false, t) else
      let left := index * 2 + 1 in
      let midpoint := offset + block_pages / 2 in
      let! (released, t) :=
        (if target_offset <? midpoint
         then free_from_node fuel' b t left (depth + 1) target_offset
         else free_from_node fuel' b t (left + 1) (depth + 1) target_offset) in
      if negb released then Ret (false, t) else
      let! s := summarize_children_state t index in
      let! t := aset t index s in
      Ret (true, t)
  end.

(** Enough turns for any recursion from the root: one per level of the tree. *)
Definition tree_fuel (b : BuddySystem) : nat := S (Z.to_nat (level b)).

Definition Alloc (b : BuddySystem) (size : Z) : outcome (Z * BuddySystem) :=
  let requested_pages := if size <=? 0 then 1 else u32 size in
  let actual_pages := NextPowerOfTwo requested_pages in
  if capacity_pages b <? actual_pages then Ret (-1, b) else
  let! (node, t) := allocate_from_node (tree_fuel b) b (tree b) 0 0 actual_pages in
  let b := with_tree b t in
  if node <? 0 then Ret (-1, b) else
  let! offset := node_offset_pages b node in
  if (offset <? 0) || (i32 (page_count b) <=? offset) then Panic else
  if free_page_count_ b <? actual_pages then Panic else
  Ret (offset, with_free b (free_page_count_ b - actual_pages)).

Fixpoint query_page_from_node (fuel : nat) (b : BuddySystem) (index current_level
    block_offset block_pages page_offset : Z) : outcome PageQueryResult :=
  match fuel with
  | O => Stuck
  | S fuel' =>
      let in_range := page_offset <? page_count b in
      if negb in_range || (index <? 0) || (block_pages =? 0) then
        Ret (mkQuery in_range false NODE_UNUSED block_pages index current_level block_offset)
      else
        let! state := aget (tree b) index in
        if bool_decide (state = NODE_UNUSED) then
          Ret (mkQuery in_range true state block_pages index current_level block_offset)
        else if bool_decide (state = NODE_USED) || (block_pages =? 1) then
          Ret (mkQuery in_range false state block_pages index current_level block_offset)
        else
          let child_block_pages := block_pages / 2 in
          if child_block_pages =? 0 then
            Ret (mkQuery in_range false state block_pages index current_level block_offset)
          else if page_offset <? block_offset + child_block_pages then
            query_page_from_node fuel' b (index * 2 + 1) (current_level + 1) block_offset
              child_block_pages page_offset
          else
            query_page_from_node fuel' b (index * 2 + 2) (current_level + 1)
              (block_offset + child_block_pages) child_block_pages page_offset
  end.

Definition query_page (b : BuddySystem) (page_offset : Z) : outcome PageQueryResult :=
  if page_count b <=? page_offset then Ret PageQueryResult_zero
  else query_page_from_node (tree_fuel b) b 0 0 0 (capacity_pages b) page_offset.

Definition Free (b : BuddySystem) (offset : Z) : outcome BuddySystem :=
  if (offset <? 0) || (i32 (page_count b) <=? offset) then Ret b else
  let! block := query_page b (u32 offset) in
  if negb (in_range block) || is_free block || negb (block_offset block =? u32 offset)
  then Ret b else
  let! (released, t) := free_from_node (tree_fuel b) b (tree b) 0 0 offset in
  let b := with_tree b t in
  if negb released then Ret b else
  if u64 (page_count b - block_pages block) <? free_page_count_ b then Panic else
  Ret (with_free b (u64 (free_page_count_ b + block_pages block))).

(** [alloc_pages] returns the block's address and the byte count it hands to
    [memset]: [count * PGSIZE] is computed in [int] and converted to [size_t]. *)
Definition alloc_pages (b : BuddySystem) (count : Z)
    : outcome (option (Z * Z) * BuddySystem) :=
  let! (offset, b) := Alloc b count in
  if offset =? -1 then Ret (None, b) else
  Ret (Some (u64 (offset * PGSIZE + base_ptr b), u64 (i32 (count * PGSIZE))), b).

Definition free_pages (b : BuddySystem) (ptr : Z) : outcome BuddySystem :=
  if negb (ptr mod PGSIZE =? 0) then Panic else
  Free b (i32 (u64 (ptr - base_ptr b) / PGSIZE)).

Fixpoint max_free_block_pages_from_node (fuel : nat) (t : list NodeState)
    (index block_pages : Z) : outcome Z :=
  match fuel with
  | O => Stuck
  | S fuel' =>
      let! state := aget t index in
      if bool_decide (state = NODE_UNUSED) then Ret block_pages
      else if unavailable state || (block_pages =? 0) then Ret 0
      else
        let child_block_pages := block_pages / 2 in
        let! lmax := max_free_block_pages_from_node fuel' t (index * 2 + 1) child_block_pages in
        let! rmax := max_free_block_pages_from_node fuel' t (index * 2 + 2) child_block_pages in
        Ret (if rmax <? lmax then lmax else rmax)
  end.

Definition get_max_free_block_pages (b : BuddySystem) : outcome Z :=
  max_free_block_pages_from_node (tree_fuel b) (tree b) 0 (capacity_pages b).

Definition get_free_page_count (b : BuddySystem) : Z := free_page_count_ b.

End Buddy.
