(* ===== verification/BuddySpec.v ===== *)
(** * What the buddy allocator promises, and that it keeps it

    The array of node states is read as a logical tree ([view]); the
    allocator's recursions are shown to implement operations on that tree
    ([lalloc], [lfree]), and the operations on trees to implement a set of
    disjoint allocated blocks. *)
From S2P Require Import Prelude Buddy.
Import Buddy.

Module BuddySpec.

#[export] Instance NodeState_inhabited : Inhabited NodeState := populate NODE_UNUSED.

(** ** Logical trees *)

Inductive ltree :=
  | Lf (s : NodeState)
  | Nd (s : NodeState) (l r : ltree).

Definition st (lt : ltree) : NodeState :=
  match lt with Lf s => s | Nd s _ _ => s end.

Definition set_st (s : NodeState) (lt : ltree) : ltree :=
  match lt with Lf _ => Lf s | Nd _ l r => Nd s l r end.

#[local] Abbreviation pw h := (2 ^ Z.of_nat h).

(** Well-formedness of a subtree of height [h] that starts at page [off] of
    an allocator with [pc] pages: a leaf is [NODE_FULL] exactly beyond the
    managed pages; an inner node either summarises its children or is
    allocated as a whole, over untouched children. *)
Fixpoint wf (pc : Z) (h : nat) (off : Z) (lt : ltree) : Prop :=
  match h, lt with
  | O, Lf s => (off < pc ∧ (s = NODE_UNUSED ∨ s = NODE_USED)) ∨ (pc ≤ off ∧ s = NODE_FULL)
  | S h', Nd s l r =>
      wf pc h' off l ∧ wf pc h' (off + pw h') r ∧
      (s = summarize (st l) (st r) ∨
       (s = NODE_USED ∧ st l = NODE_UNUSED ∧ st r = NODE_UNUSED))
  | _, _ => False
  end.

(** The allocated blocks [(offset, pages)] below a node. *)
Fixpoint blocks (h : nat) (off : Z) (lt : ltree) : list (Z * Z) :=
  match h, lt with
  | S h', Nd s l r =>
      if bool_decide (s = NODE_USED) then [(off, pw h)]
      else blocks h' off l ++ blocks h' (off + pw h') r
  | _, _ => if bool_decide (st lt = NODE_USED) then [(off, 1)] else []
  end.

(** The number of free pages below a node. *)
Fixpoint nfree (lt : ltree) : Z :=
  match lt with
  | Lf s => if bool_decide (s = NODE_UNUSED) then 1 else 0
  | Nd s l r => if bool_decide (s = NODE_USED) then 0 else nfree l + nfree r
  end.

(** The largest free block below a node. *)
Fixpoint lmax (h : nat) (lt : ltree) : Z :=
  if bool_decide (st lt = NODE_UNUSED) then pw h
  else match h, lt with
       | S h', Nd s l r =>
           if unavailable s then 0 else Z.max (lmax h' l) (lmax h' r)
       | _, _ => 0
       end.

(** Allocation of [2 ^ k] pages, leftmost first. *)
Fixpoint lalloc (k h : nat) (off : Z) (lt : ltree) : option (Z * ltree) :=
  if unavailable (st lt) then None
  else if bool_decide (k = h) then
    if bool_decide (st lt = NODE_UNUSED) then Some (off, set_st NODE_USED lt) else None
  else match h, lt with
  | S h', Nd s l r =>
      match lalloc k h' off l with
      | Some (o, l') => Some (o, Nd (summarize (st l') (st r)) l' r)
      | None =>
          match lalloc k h' (off + pw h') r with
          | Some (o, r') => Some (o, Nd (summarize (st l) (st r')) l r')
          | None => None
          end
      end
  | _, _ => None
  end.

(** Release of the block that starts at page [target]. *)
Fixpoint lfree (h : nat) (off target : Z) (lt : ltree) : option ltree :=
  if bool_decide (st lt = NODE_USED) then
    if bool_decide (off = target) then Some (set_st NODE_UNUSED lt) else None
  else if bool_decide (st lt = NODE_UNUSED) then None
  else match h, lt with
  | S h', Nd s l r =>
      if bool_decide (target < off + pw h') then
        match lfree h' off target l with
        | Some l' => Some (Nd (summarize (st l') (st r)) l' r)
        | None => None
        end
      else
        match lfree h' (off + pw h') target r with
        | Some r' => Some (Nd (summarize (st l) (st r')) l r')
        | None => None
        end
  | _, _ => None
  end.

(** ** Facts on states *)

Lemma pow2_divide (k h : nat) : (k ≤ h)%nat → (pw k | pw h).
Proof.
  intros Hk. exists (2 ^ (Z.of_nat h - Z.of_nat k)). rewrite <- Z.pow_add_r by lia. f_equal. lia.
Qed.

Lemma st_set_st s lt : st (set_st s lt) = s.
Proof. by destruct lt. Qed.

Lemma summarize_unused l r :
  summarize l r = NODE_UNUSED ↔ l = NODE_UNUSED ∧ r = NODE_UNUSED.
Proof. destruct l, r; vm_compute; naive_solver. Qed.

Lemma summarize_not_used l r : summarize l r ≠ NODE_USED.
Proof. by destruct l, r. Qed.

Lemma summarize_full l r :
  summarize l r = NODE_FULL ↔ unavailable l = true ∧ unavailable r = true.
Proof. destruct l, r; vm_compute; naive_solver. Qed.

(** A free node stands for free, managed pages only. *)
Lemma wf_unused pc h off lt :
  wf pc h off lt → st lt = NODE_UNUSED →
  off + pw h ≤ pc ∧ blocks h off lt = [] ∧ nfree lt = pw h ∧ lmax h lt = pw h.
Proof.
  revert off lt. induction h as [|h IH]; intros off [s|s l r] Hwf Hs; simpl in *; subst; try done.
  - vm_compute (bool_decide _). naive_solver lia.
  - destruct Hwf as (Hl & Hr & [Hs|[? _]]); [|done].
    symmetry in Hs. apply summarize_unused in Hs as [Hsl Hsr].
    destruct (IH _ _ Hl Hsl) as (? & Hbl & Hnl & _).
    destruct (IH _ _ Hr Hsr) as (? & Hbr & Hnr & _).
    rewrite ?bool_decide_eq_false_2, ?bool_decide_eq_true_2 by done.
    rewrite Hbl, Hbr, pow2_S. split_and!; [lia|done|lia|done].
Qed.

(** An unavailable node has no free page. *)
Lemma wf_unavailable pc h off lt :
  wf pc h off lt → unavailable (st lt) = true → nfree lt = 0 ∧ lmax h lt = 0.
Proof.
  revert off lt. induction h as [|h IH]; intros off [s|s l r] Hwf Hs; simpl in *; try done.
  - destruct s; done.
  - destruct Hwf as (Hl & Hr & Hst). split; [|by destruct s].
    case_test; [done|]. destruct Hst as [->|[? _]]; [|done].
    assert (unavailable (st l) = true ∧ unavailable (st r) = true) as [Hul Hur].
    { apply summarize_full. revert Hs Hd. by destruct (summarize _ _). }
    destruct (IH _ _ Hl Hul) as [-> _], (IH _ _ Hr Hur) as [-> _]. done.
Qed.

Lemma lmax_bound h lt : 0 ≤ lmax h lt ≤ pw h.
Proof.
  revert lt. induction h as [|h IH]; intros [s|s l r]; simpl;
    repeat case_match; rewrite ?pow2_S; try done;
    try (pose proof (IH l); pose proof (IH r)); try pose proof (pow2_nat_pos h); lia.
Qed.

(** ** Allocation on trees *)

(** A successful allocation takes one free, aligned block of managed pages and
    leaves every other block where it was. *)
Lemma lalloc_correct pc k h off lt o lt' :
  wf pc h off lt → (k ≤ h)%nat → lalloc k h off lt = Some (o, lt') →
  wf pc h off lt' ∧ blocks h off lt' ≡ₚ (o, pw k) :: blocks h off lt ∧
  nfree lt = nfree lt' + pw k ∧ (pw k | o - off) ∧
  off ≤ o ∧ o + pw k ≤ off + pw h ∧ o + pw k ≤ pc.
Proof.
  revert off lt o lt'. induction h as [|h IH]; intros off lt o lt' Hwf Hk Ha.
  - destruct lt as [s|]; [|done]. assert (k = 0%nat) as -> by lia.
    destruct s; simplify_eq/=. vm_compute (bool_decide _).
    rewrite Z.sub_diag. split_and!; try done; try apply Z.divide_0_r; naive_solver lia.
  - destruct lt as [|s l r]; [done|]. cbn [lalloc st] in Ha.
    destruct (unavailable s) eqn:Hus; [done|].
    revert Ha. case_test; intros Ha.
    + subst k. destruct (bool_decide (s = NODE_UNUSED)) eqn:E; simplify_eq.
      apply bool_decide_eq_true in E.
      destruct (wf_unused _ _ _ _ Hwf E) as (? & Hb & Hn & _).
      destruct Hwf as (Hl & Hr & Hst). cbn [st] in E; subst s.
      assert (st l = NODE_UNUSED ∧ st r = NODE_UNUSED) as Hlr.
      { apply summarize_unused. naive_solver. }
      split_and!; try lia.
      * simpl. naive_solver.
      * rewrite Hb. cbn [blocks set_st]. by rewrite bool_decide_eq_true_2.
      * rewrite Hn. cbn [nfree set_st]. rewrite bool_decide_eq_true_2; done.
      * rewrite Z.sub_diag. apply Z.divide_0_r.
    + destruct Hwf as (Hl & Hr & Hst).
      assert (s ≠ NODE_USED) by (by destruct s).
      assert (k ≤ h)%nat by lia.
      destruct (lalloc k h off l) as [[o1 l']|] eqn:Hal; simplify_eq.
      * destruct (IH _ _ _ _ Hl H0 Hal) as (Hl' & Hb & Hn & Hd' & ?).
        cbn [blocks nfree]. rewrite !bool_decide_eq_false_2 by (done || apply summarize_not_used).
        rewrite pow2_S. pose proof (pow2_nat_pos h).
        split; [by simpl; auto|]. split_and!; try lia; [by rewrite Hb|done].
      * destruct (lalloc k h (off + pw h) r) as [[o1 r']|] eqn:Har; simplify_eq.
        destruct (IH _ _ _ _ Hr H0 Har) as (Hr' & Hb & Hn & Hd' & ?).
        cbn [blocks nfree]. rewrite !bool_decide_eq_false_2 by (done || apply summarize_not_used).
        rewrite pow2_S. pose proof (pow2_nat_pos h).
        split; [by simpl; auto|]. split_and!; try lia.
        -- rewrite Hb. by rewrite Permutation_middle.
        -- replace (o - off) with ((o - (off + pw h)) + pw h) by lia.
           apply Z.divide_add_r; [done|]. apply pow2_divide. lia.
Qed.

(** Allocation fails only when no free block is large enough. *)
Lemma lalloc_fails pc k h off lt :
  wf pc h off lt → (k ≤ h)%nat → lalloc k h off lt = None ↔ lmax h lt < pw k.
Proof.
  revert off lt. induction h as [|h IH]; intros off lt Hwf Hk.
  - destruct lt as [s|]; [|done]. assert (k = 0%nat) as -> by lia. by destruct s.
  - destruct lt as [|s l r]; [done|]. cbn [lalloc st].
    pose proof (pow2_nat_pos k).
    destruct (unavailable s) eqn:Hus.
    { destruct (wf_unavailable _ _ _ _ Hwf Hus) as [_ ->]. naive_solver. }
    case_test; [subst k|].
    + case_test.
      * destruct (wf_unused _ _ _ _ Hwf Hd) as (_ & _ & _ & ->). split; [done|lia].
      * split; [intros _|done]. cbn [lmax st].
        rewrite bool_decide_eq_false_2 by done. rewrite Hus, pow2_S.
        pose proof (lmax_bound h l). pose proof (lmax_bound h r).
        pose proof (pow2_nat_pos h). lia.
    + assert (k ≤ h)%nat as Hkh by lia.
      destruct (decide (s = NODE_UNUSED)) as [E|E].
      * destruct (wf_unused _ _ _ _ Hwf E) as (_ & _ & _ & ->).
        destruct Hwf as (Hl & Hr & Hst). subst s.
        assert (st l = NODE_UNUSED) as Hsl.
        { destruct Hst as [Hs|[? _]]; [|done]. symmetry in Hs. by apply summarize_unused in Hs as []. }
        specialize (IH off l Hl Hkh). destruct (wf_unused _ _ _ _ Hl Hsl) as (_ & _ & _ & Hm).
        assert (pw k ≤ pw h) by (apply Z.pow_le_mono_r; lia).
        destruct (lalloc k h off l) as [[]|]; [|destruct IH as [IH _]; specialize (IH eq_refl); lia].
        split; [done|]. rewrite pow2_S. lia.
      * destruct Hwf as (Hl & Hr & Hst). cbn [lmax st].
        rewrite bool_decide_eq_false_2 by done. rewrite Hus.
        specialize (IH off l Hl Hkh) as IHl. specialize (IH (off + pw h) r Hr Hkh) as IHr.
        destruct (lalloc k h off l) as [[]|], (lalloc k h (off + pw h) r) as [[]|];
          naive_solver lia.
Qed.

(** ** Blocks *)

(** Every block lies among the managed pages of its subtree. *)
Lemma blocks_in_range pc h off lt o n :
  wf pc h off lt → (o, n) ∈ blocks h off lt →
  off ≤ o ∧ 0 < n ∧ o + n ≤ off + pw h ∧ o + n ≤ pc.
Proof.
  revert off lt. induction h as [|h IH]; intros off [s|s l r] Hwf Hin; try done; cbn in Hin.
  - revert Hin. case_test; [|by intros Hin; apply elem_of_nil in Hin].
    intros Hin%list_elem_of_singleton. simplify_eq. cbn in Hwf. rewrite Z.pow_0_r. naive_solver lia.
  - destruct Hwf as (Hl & Hr & Hst). rewrite pow2_S. pose proof (pow2_nat_pos h).
    revert Hin. case_test; intros Hin.
    + apply list_elem_of_singleton in Hin. simplify_eq.
      destruct Hst as [Hs|(_ & Hsl & Hsr)]; [by destruct (summarize_not_used (st l) (st r))|].
      destruct (wf_unused _ _ _ _ Hr Hsr) as [? _]. rewrite pow2_S. lia.
    + apply elem_of_app in Hin as [Hin|Hin];
        [specialize (IH _ _ Hl Hin)|specialize (IH _ _ Hr Hin)]; lia.
Qed.

(** Managed pages without a block are a free node: freed blocks coalesce. *)
Lemma wf_coalesced pc h off lt :
  wf pc h off lt → off + pw h ≤ pc → blocks h off lt = [] → st lt = NODE_UNUSED.
Proof.
  revert off lt. induction h as [|h IH]; intros off [s|s l r] Hwf Hpc Hb; try done; cbn in Hwf, Hb.
  - revert Hb. case_test; [done|]. rewrite Z.pow_0_r in Hpc. cbn. naive_solver lia.
  - destruct Hwf as (Hl & Hr & Hst). rewrite pow2_S in Hpc. pose proof (pow2_nat_pos h).
    revert Hb. case_test; [done|]. intros [Hbl Hbr]%app_eq_nil.
    destruct Hst as [->|[-> _]]; [|done]. cbn. apply summarize_unused.
    split; [apply (IH off)|apply (IH (off + pw h))]; solve [done|lia].
Qed.

(** Aligned managed pages that meet no block are no larger than the largest free
    block, so a search for them succeeds. *)
Lemma lmax_complete pc k h off lt o :
  wf pc h off lt → (k ≤ h)%nat → (pw k | off) → (pw k | o) →
  off ≤ o → o + pw k ≤ off + pw h → o + pw k ≤ pc →
  (∀ o' n', (o', n') ∈ blocks h off lt → o + pw k ≤ o' ∨ o' + n' ≤ o) →
  pw k ≤ lmax h lt.
Proof.
  revert off lt. induction h as [|h IH]; intros off lt Hwf Hk Hoff Ho Hlo Hhi Hpc Hfree.
  all: destruct (decide (st lt = NODE_UNUSED)) as [Hs|Hs];
    [destruct (wf_unused _ _ _ _ Hwf Hs) as (_ & _ & _ & ->); apply Z.pow_le_mono_r; lia|].
  all: match type of Hk with
    | (_ ≤ ?h')%nat => destruct (decide (k = h')) as [->|Hne];
        [destruct Hs; apply (wf_coalesced pc h' off); [done|lia|];
         apply elem_of_nil_inv; intros [o' n'] Hb;
         pose proof (blocks_in_range _ _ _ _ _ _ Hwf Hb); specialize (Hfree _ _ Hb); lia|] end.
  - lia.
  - destruct lt as [s|s l r]; [done|]. cbn [st] in Hs. destruct Hwf as (Hl & Hr & Hst).
    pose proof (pow2_nat_pos k). rewrite pow2_S in Hhi. cbn [blocks] in Hfree.
    destruct (decide (s = NODE_USED)) as [->|Hu].
    { rewrite bool_decide_eq_true_2 in Hfree by done.
      specialize (Hfree off (pw (S h))). rewrite pow2_S in Hfree. set_solver by lia. }
    rewrite bool_decide_eq_false_2 in Hfree by done.
    assert (pw k ≤ Z.max (lmax h l) (lmax h r)) as Hmax.
    { assert (pw k | off + pw h) as Hmid.
      { apply Z.divide_add_r; [done|]. apply pow2_divide. lia. }
      destruct (Z.lt_ge_cases o (off + pw h)) as [Hlt|Hge].
      - assert (o + pw k ≤ off + pw h).
        { destruct Ho as [x ->], Hmid as [y Hy].
          assert (x < y) by (apply (Z.mul_lt_mono_pos_r (pw k)); lia).
          rewrite Hy, <- Z.mul_succ_l. apply Z.mul_le_mono_nonneg_r; lia. }
        pose proof (IH off l Hl ltac:(lia) Hoff Ho ltac:(lia) ltac:(lia) Hpc) as H'.
        pose proof (H' ltac:(intros; apply Hfree; apply elem_of_app; by left)). lia.
      - pose proof (IH (off + pw h) r Hr ltac:(lia) Hmid Ho ltac:(lia) ltac:(lia) Hpc) as H'.
        pose proof (H' ltac:(intros; apply Hfree; apply elem_of_app; by right)). lia. }
    cbn [lmax st]. rewrite bool_decide_eq_false_2 by done.
    destruct Hst as [->|[? _]]; [|done].
    destruct (unavailable (summarize (st l) (st r))) eqn:Ea; [|done].
    assert (summarize (st l) (st r) = NODE_FULL) as [Hul Hur]%summarize_full
      by (revert Ea Hu; by destruct (summarize _ _)).
    destruct (wf_unavailable _ _ _ _ Hl Hul) as [_ El], (wf_unavailable _ _ _ _ Hr Hur) as [_ Er]. lia.
Qed.

Definition before (a b : Z * Z) : Prop := a.1 + a.2 ≤ b.1.

(** The blocks are listed by address and do not overlap. *)
Lemma blocks_sorted pc h off lt :
  wf pc h off lt → StronglySorted before (blocks h off lt).
Proof.
  revert off lt. induction h as [|h IH]; intros off [s|s l r] Hwf; try done; cbn.
  - case_test; repeat constructor.
  - destruct Hwf as (Hl & Hr & _). case_test; [repeat constructor|].
    apply StronglySorted_app_2; [|by apply IH..].
    intros [o n] [o' n'] Hin Hin'.
    apply (blocks_in_range _ _ _ _ _ _ Hl) in Hin.
    apply (blocks_in_range _ _ _ _ _ _ Hr) in Hin'. unfold before; simpl; lia.
Qed.

(** ** Release on trees *)

Lemma lfree_correct pc h off target lt lt' :
  wf pc h off lt → lfree h off target lt = Some lt' →
  wf pc h off lt' ∧
  ∃ n, blocks h off lt ≡ₚ (target, n) :: blocks h off lt' ∧ nfree lt' = nfree lt + n.
Proof.
  revert off lt lt'. induction h as [|h IH]; intros off [s|s l r] lt' Hwf Hf; try done.
  - destruct s; simplify_eq/=. revert Hf. case_test; intros; simplify_eq.
    vm_compute (bool_decide _). split; [naive_solver|]. exists 1. done.
  - destruct Hwf as (Hl & Hr & Hst). cbn [lfree st] in Hf.
    destruct (bool_decide_reflect (s = NODE_USED)) as [->|Hs].
    + destruct Hst as [Hs|(_ & Hsl & Hsr)]; [by destruct (summarize_not_used (st l) (st r))|].
      revert Hf. case_test; intros; simplify_eq. cbn [set_st].
      assert (wf pc (S h) target (Nd NODE_UNUSED l r)) as Hwf'.
      { simpl. rewrite Hsl, Hsr. auto. }
      destruct (wf_unused _ _ _ _ Hwf' eq_refl) as (_ & Hb & Hn & _).
      split; [done|]. exists (pw (S h)). rewrite Hb, Hn. cbn [blocks nfree].
      by rewrite !bool_decide_eq_true_2.
    + destruct Hst as [->|[? _]]; [|done]. revert Hf. case_test; [done|]. case_test; intros Hf.
      * destruct (lfree h off target l) as [l'|] eqn:E; simplify_eq.
        destruct (IH _ _ _ Hl E) as (Hl' & n & Hb & Hn). split; [by simpl; auto|].
        exists n. cbn [blocks nfree]. rewrite !bool_decide_eq_false_2 by apply summarize_not_used.
        split; [by rewrite Hb|lia].
      * destruct (lfree h (off + pw h) target r) as [r'|] eqn:E; simplify_eq.
        destruct (IH _ _ _ Hr E) as (Hr' & n & Hb & Hn). split; [by simpl; auto|].
        exists n. cbn [blocks nfree]. rewrite !bool_decide_eq_false_2 by apply summarize_not_used.
        split; [|lia]. rewrite Hb. by rewrite <- Permutation_middle.
Qed.

(** Release fails exactly when no block starts at the target. *)
Lemma lfree_fails pc h off target lt :
  wf pc h off lt → lfree h off target lt = None → ∀ n, (target, n) ∉ blocks h off lt.
Proof.
  revert off lt. induction h as [|h IH]; intros off [s|s l r] Hwf Hf n; try done.
  - cbn [lfree blocks st] in *.
    destruct (bool_decide_reflect (s = NODE_USED)) as [->|]; [|set_solver].
    revert Hf. case_test; [done|]. intros _ Hin%list_elem_of_singleton. naive_solver.
  - pose proof Hwf as Hwf'. destruct Hwf as (Hl & Hr & Hst). cbn [lfree blocks st] in *.
    destruct (bool_decide_reflect (s = NODE_USED)) as [->|Hs].
    + revert Hf. case_test; [done|]. intros _ Hin%list_elem_of_singleton. naive_solver.
    + revert Hf. case_test.
      { intros _. destruct (wf_unused _ _ _ _ Hwf' Hd) as (_ & Hb & _).
        cbn [blocks] in Hb. rewrite bool_decide_eq_false_2 in Hb by done. rewrite Hb. set_solver. }
      rewrite not_elem_of_app. case_test; intros Hf.
      * split; [apply IH; [done|by destruct (lfree h off target l)]|].
        intros Hin%(blocks_in_range _ _ _ _ _ _ Hr). lia.
      * split; [|apply IH; [done|by destruct (lfree h _ target r)]].
        intros Hin%(blocks_in_range _ _ _ _ _ _ Hl). lia.
Qed.

(** Releasing the block just allocated restores the tree. *)
Lemma lfree_lalloc pc k h off lt o lt' :
  wf pc h off lt → (k ≤ h)%nat → lalloc k h off lt = Some (o, lt') →
  lfree h off o lt' = Some lt.
Proof.
  revert off lt o lt'. induction h as [|h IH]; intros off lt o lt' Hwf Hk Ha.
  - destruct lt as [s|]; [|done]. assert (k = 0%nat) as -> by lia.
    destruct s; simplify_eq/=. by rewrite bool_decide_eq_true_2.
  - pose proof (lalloc_correct _ _ _ _ _ _ _ Hwf Hk Ha) as (Hwf' & Hb & _).
    destruct lt as [|s l r]; [done|]. destruct Hwf as (Hl & Hr & Hst).
    cbn [lalloc st] in Ha. destruct (unavailable s) eqn:Hus; [done|]. revert Ha. case_test.
    { case_test; intros; simplify_eq/=. by rewrite bool_decide_eq_true_2. }
    destruct Hst as [->|[-> _]]; [|done]. assert (k ≤ h)%nat as Hkh by lia.
    assert (∀ l' r', lt' = Nd (summarize (st l') (st r')) l' r' →
      bool_decide (summarize (st l') (st r') = NODE_UNUSED) = false ∧
      bool_decide (summarize (st l') (st r') = NODE_USED) = false) as Hst'.
    { intros l' r' ->. split; apply bool_decide_eq_false_2; [|apply summarize_not_used].
      intros Hs. destruct (wf_unused _ _ _ _ Hwf' Hs) as (_ & Hb' & _).
      rewrite Hb' in Hb. by apply Permutation_nil_cons in Hb. }
    destruct (lalloc k h off l) as [[o1 l']|] eqn:Hal; intros; simplify_eq.
    + destruct (Hst' _ _ eq_refl) as [E1 E2]. cbn [lfree st]. rewrite E1, E2.
      pose proof (lalloc_correct _ _ _ _ _ _ _ Hl Hkh Hal) as (_ & _ & _ & _ & ? & ? & _).
      pose proof (pow2_nat_pos k). rewrite bool_decide_eq_true_2 by lia.
      by rewrite (IH _ _ _ _ Hl Hkh Hal).
    + destruct (lalloc k h (off + pw h) r) as [[o1 r']|] eqn:Har; simplify_eq.
      destruct (Hst' _ _ eq_refl) as [E1 E2]. cbn [lfree st]. rewrite E1, E2.
      pose proof (lalloc_correct _ _ _ _ _ _ _ Hr Hkh Har) as (_ & _ & _ & _ & ? & ? & _).
      rewrite bool_decide_eq_false_2 by lia. by rewrite (IH _ _ _ _ Hr Hkh Har).
Qed.

(** ** The array as a tree *)

(** The subtree of height [h] rooted at array index [i]. *)
Fixpoint view (t : list NodeState) (h : nat) (i : Z) : ltree :=
  match h with
  | O => Lf (t !!! Z.to_nat i)
  | S h' => Nd (t !!! Z.to_nat i) (view t h' (i * 2 + 1)) (view t h' (i * 2 + 2))
  end.

(** Index [j] belongs to the subtree of height [h] rooted at [i]. *)
Definition insub (j i : Z) (h : nat) : Prop :=
  ∃ k : nat, (k ≤ h)%nat ∧ (j + 1) / pw k = i + 1.

#[export] Instance insub_dec j i h : Decision (insub j i h).
Proof.
  refine (cast_if (decide (Exists (λ k : nat, (j + 1) / pw k = i + 1) (seq 0 (S h)))));
    rewrite Exists_exists in *; [|intros (k & Hk & E); destruct n];
    [destruct e as (k & Hk%elem_of_seq & E)|]; exists k; rewrite ?elem_of_seq; split; lia || done.
Defined.

(** The subtree fits in the array. *)
Definition fits (t : list NodeState) (i : Z) (h : nat) : Prop :=
  0 ≤ i ∧ (i + 2) * pw h ≤ Z.of_nat (length t) + 1.

Definition same_outside (t t' : list NodeState) (i : Z) (h : nat) : Prop :=
  length t' = length t ∧
  ∀ j, 0 ≤ j → ¬ insub j i h → t' !!! Z.to_nat j = t !!! Z.to_nat j.

Lemma st_view t h i : st (view t h i) = t !!! Z.to_nat i.
Proof. by destruct h. Qed.

Lemma insub_root i h : insub i i h.
Proof. exists 0%nat. rewrite Z.div_1_r. split; [lia|done]. Qed.

Lemma div_pow2_S x (k : nat) : x / pw (S k) = x / pw k / 2.
Proof. pose proof (pow2_nat_pos k). rewrite pow2_S, Z.mul_comm, Zdiv.Zdiv_Zdiv; lia. Qed.

Lemma insub_left j i h : insub j (i * 2 + 1) h → insub j i (S h).
Proof.
  intros (k & ? & Hk). exists (S k). split; [lia|]. rewrite div_pow2_S, Hk.
  replace (i * 2 + 1 + 1) with ((i + 1) * 2) by lia. by rewrite Z.div_mul.
Qed.

Lemma insub_right j i h : insub j (i * 2 + 2) h → insub j i (S h).
Proof.
  intros (k & ? & Hk). exists (S k). split; [lia|]. rewrite div_pow2_S, Hk.
  replace (i * 2 + 2 + 1) with (1 + (i + 1) * 2) by lia. by rewrite Z.div_add.
Qed.

Lemma div_pow2_le x (k : nat) : 0 ≤ x → x / pw k ≤ x.
Proof. intros. pose proof (pow2_nat_pos k). apply Z.div_le_upper_bound; nia. Qed.

(** The parent is outside its children's subtrees. *)
Lemma insub_child_parent i c h : 0 ≤ i → c = i * 2 + 1 ∨ c = i * 2 + 2 → ¬ insub i c h.
Proof.
  intros Hi Hc (k & _ & Hk). pose proof (div_pow2_le (i + 1) k). lia.
Qed.

Lemma insub_nonneg j i h : 0 ≤ i → insub j i h → 0 ≤ j.
Proof.
  intros Hi (k & _ & Hk). pose proof (pow2_nat_pos k).
  destruct (decide (0 ≤ j)); [done|].
  assert ((j + 1) / pw k ≤ 0 / pw k) by (apply Z.div_le_mono; lia).
  rewrite Z.div_0_l in * by lia. lia.
Qed.

(** Siblings have disjoint subtrees. *)
Lemma insub_siblings j i h : 0 ≤ i → insub j (i * 2 + 1) h → ¬ insub j (i * 2 + 2) h.
Proof.
  intros Hi (k & _ & Hk) (k' & _ & Hk').
  assert (∀ (a b : nat) x, (a ≤ b)%nat → x / pw b = x / pw a / pw (b - a)) as Hsplit.
  { intros a b x Hab. pose proof (pow2_nat_pos a). pose proof (pow2_nat_pos (b - a)).
    rewrite Zdiv.Zdiv_Zdiv by lia. f_equal. rewrite <- Z.pow_add_r by lia. f_equal; lia. }
  destruct (decide (k ≤ k')%nat) as [Hle|Hle].
  - rewrite (Hsplit _ _ _ Hle), Hk in Hk'.
    pose proof (div_pow2_le (i * 2 + 1 + 1) (k' - k)). lia.
  - rewrite (Hsplit k' k) in Hk by lia. rewrite Hk' in Hk.
    assert (k - k' = S (k - k' - 1))%nat as E by lia. rewrite E, pow2_S in Hk.
    rewrite <- Zdiv.Zdiv_Zdiv in Hk by (pose proof (pow2_nat_pos (k - k' - 1)); lia).
    assert ((i * 2 + 2 + 1) / 2 = i + 1) as E2.
    { replace (i * 2 + 2 + 1) with (1 + (i + 1) * 2) by lia. by rewrite Z.div_add. }
    rewrite E2 in Hk. pose proof (div_pow2_le (i + 1) (k - k' - 1)). lia.
Qed.

Lemma fits_root t i h : fits t i h → 0 ≤ i < Z.of_nat (length t).
Proof. intros [? ?]. pose proof (pow2_nat_pos h). nia. Qed.

Lemma fits_left t i h : fits t i (S h) → fits t (i * 2 + 1) h.
Proof. intros [? Hl]. rewrite pow2_S in Hl. pose proof (pow2_nat_pos h). split; nia. Qed.

Lemma fits_right t i h : fits t i (S h) → fits t (i * 2 + 2) h.
Proof. intros [? Hl]. rewrite pow2_S in Hl. pose proof (pow2_nat_pos h). split; nia. Qed.

Lemma fits_length t t' i h : length t' = length t → fits t i h → fits t' i h.
Proof. unfold fits. by intros ->. Qed.

#[export] Hint Resolve fits_left fits_right fits_root : kernel.

Lemma view_ext t t' h i :
  0 ≤ i → (∀ j, 0 ≤ j → insub j i h → t' !!! Z.to_nat j = t !!! Z.to_nat j) →
  view t' h i = view t h i.
Proof.
  revert i. induction h as [|h IH]; intros i Hi Heq; simpl.
  - f_equal. apply Heq; [done|]. apply insub_root.
  - rewrite (Heq i Hi (insub_root _ _)). f_equal; apply IH; try lia; intros; apply Heq;
      auto using insub_left, insub_right.
Qed.

Lemma view_same_outside t t' h i c hc :
  0 ≤ i → same_outside t t' c hc → (∀ j, insub j i h → ¬ insub j c hc) →
  view t' h i = view t h i.
Proof. intros Hi [_ Hs] Hd. apply view_ext; [done|]. intros j Hj Hin. apply Hs; eauto. Qed.

Lemma same_outside_refl t i h : same_outside t t i h.
Proof. done. Qed.

Lemma same_outside_trans t1 t2 t3 i h :
  same_outside t1 t2 i h → same_outside t2 t3 i h → same_outside t1 t3 i h.
Proof.
  intros [L1 H1] [L2 H2]. split; [congruence|]. intros j Hj Hn. rewrite H2, H1; auto.
Qed.

Lemma same_outside_left t t' i h :
  same_outside t t' (i * 2 + 1) h → same_outside t t' i (S h).
Proof. intros [? Hs]. split; [done|]. intros. apply Hs; auto using insub_left. Qed.

Lemma same_outside_right t t' i h :
  same_outside t t' (i * 2 + 2) h → same_outside t t' i (S h).
Proof. intros [? Hs]. split; [done|]. intros. apply Hs; auto using insub_right. Qed.

Lemma same_outside_set t i h s :
  0 ≤ i → same_outside t (<[Z.to_nat i := s]> t) i h.
Proof.
  intros Hi. split; [apply length_insert|]. intros j Hj Hn.
  apply lookup_total_aset_ne; [done..|]. intros ->. apply Hn, insub_root.
Qed.

#[export] Hint Resolve same_outside_refl same_outside_left same_outside_right
  same_outside_set : kernel.

(** Writing the root of a subtree. *)
Lemma view_set_root t i h s :
  fits t i h → view (<[Z.to_nat i := s]> t) h i = set_st s (view t h i).
Proof.
  intros Hf. pose proof (fits_root _ _ _ Hf).
  destruct h as [|h]; simpl; rewrite lookup_total_aset_eq by done; [done|].
  f_equal; apply (view_same_outside _ _ _ _ i 0); try lia;
    try (apply same_outside_set; lia);
    intros j Hin (k & Hk & E); assert (k = 0%nat) as -> by lia; rewrite Z.div_1_r in E;
    assert (j = i) as -> by lia; revert Hin; apply insub_child_parent; lia.
Qed.

Lemma view_sibling_r t t' i h :
  0 ≤ i → same_outside t t' (i * 2 + 1) h → view t' h (i * 2 + 2) = view t h (i * 2 + 2).
Proof.
  intros Hi Hs. eapply view_same_outside; [lia|done|].
  intros j H2 H1. by eapply insub_siblings.
Qed.

Lemma view_sibling_l t t' i h :
  0 ≤ i → same_outside t t' (i * 2 + 2) h → view t' h (i * 2 + 1) = view t h (i * 2 + 1).
Proof.
  intros Hi Hs. eapply view_same_outside; [lia|done|].
  intros j H1. by eapply insub_siblings.
Qed.

Lemma root_same_outside t t' i c h :
  0 ≤ i → c = i * 2 + 1 ∨ c = i * 2 + 2 → same_outside t t' c h →
  t' !!! Z.to_nat i = t !!! Z.to_nat i.
Proof. intros Hi Hc [_ Hs]. apply Hs; [done|]. by apply insub_child_parent. Qed.

(** ** Geometry of nodes *)

(** The allocator's sizes are consistent: [2 ^ level] pages of capacity, small
    enough for the [int] arithmetic on node indices. *)
Definition sized (b : BuddySystem) : Prop :=
  0 ≤ level b ≤ 29 ∧ capacity_pages b = 2 ^ level b.

(** Index [i] at depth [d] is the root of a subtree of height [h] that starts
    at page [off]. *)
Definition geom (b : BuddySystem) (i d : Z) (h : nat) (off : Z) : Prop :=
  0 ≤ d ∧ level b = d + Z.of_nat h ∧ 2 ^ d ≤ i + 1 < 2 ^ (d + 1) ∧
  off = (i + 1 - 2 ^ d) * pw h.

Lemma geom_root b : sized b → geom b 0 0 (Z.to_nat (level b)) 0.
Proof. intros [? _]. unfold geom. rewrite Z2Nat.id by lia. split_and!; lia. Qed.

Lemma geom_left b i d h off :
  geom b i d (S h) off → geom b (i * 2 + 1) (d + 1) h off.
Proof.
  intros (? & ? & ? & ->). unfold geom. rewrite pow2_S.
  rewrite (Z.pow_add_r 2 (d + 1) 1), (Z.pow_add_r 2 d 1) in * by lia.
  split_and!; lia.
Qed.

Lemma geom_right b i d h off :
  geom b i d (S h) off → geom b (i * 2 + 2) (d + 1) h (off + pw h).
Proof.
  intros (? & ? & ? & ->). unfold geom. rewrite pow2_S.
  rewrite (Z.pow_add_r 2 (d + 1) 1), (Z.pow_add_r 2 d 1) in * by lia.
  split_and!; lia.
Qed.

Lemma geom_block_pages b i d h off :
  sized b → geom b i d h off → node_block_pages b d = pw h.
Proof.
  intros [? Hc] (? & ? & _). unfold node_block_pages.
  rewrite Z.shiftr_div_pow2, Hc by lia. rewrite <- Z.pow_sub_r by lia. f_equal; lia.
Qed.

Lemma depth_loop_spec fuel depth d x :
  0 ≤ depth ≤ d → d < 30 → d - depth < Z.of_nat fuel → 2 ^ d ≤ x < 2 ^ (d + 1) →
  depth_loop fuel depth x = Ret d.
Proof.
  revert depth. induction fuel as [|fuel IH]; intros depth Hd Hd30 Hf Hx; [lia|]. simpl.
  rewrite Z.shiftl_1_l.
  assert (2 ^ (depth + 1) ≤ 2 ^ 30) by (apply Z.pow_le_mono_r; lia).
  assert (0 < 2 ^ (depth + 1)) by auto with kernel lia.
  rewrite i32_small by lia. case_test.
  - apply IH; try lia. destruct (decide (depth = d)) as [->|]; lia.
  - destruct (decide (depth = d)) as [->|]; [done|].
    assert (2 ^ (depth + 1) ≤ 2 ^ d) by (apply Z.pow_le_mono_r; lia). lia.
Qed.

Lemma geom_node_offset b i d h off :
  sized b → geom b i d h off → node_offset_pages b i = Ret off.
Proof.
  intros [? Hc] (? & Hlv & Hi & ->). unfold node_offset_pages, node_depth.
  rewrite (depth_loop_spec _ 0 d) by lia. simpl.
  rewrite Z.shiftl_mul_pow2, Z.shiftl_1_l by lia. do 3 f_equal. lia.
Qed.

#[export] Hint Resolve geom_root geom_left geom_right : kernel.

(** ** The array operations implement the tree operations *)

Lemma summarize_children_view t i h :
  fits t i (S h) →
  summarize_children_state t i =
    Ret (summarize (st (view t h (i * 2 + 1))) (st (view t h (i * 2 + 2)))).
Proof.
  intros Hf. unfold summarize_children_state.
  replace (i * 2 + 1 + 1) with (i * 2 + 2) by lia.
  pose proof (fits_root _ _ _ (fits_left _ _ _ Hf)).
  pose proof (fits_root _ _ _ (fits_right _ _ _ Hf)).
  rewrite !aget_total by lia. by rewrite !st_view.
Qed.

(** Under the invariant, splitting a free node changes that node only. *)
Lemma split_unused_view t i h pc off :
  fits t i (S h) → wf pc (S h) off (view t (S h) i) → t !!! Z.to_nat i = NODE_UNUSED →
  split_unused_node t i = Ret (<[Z.to_nat i := NODE_SPLIT]> t).
Proof.
  intros Hf Hwf Hs. pose proof (fits_root _ _ _ Hf).
  pose proof (fits_root _ _ _ (fits_left _ _ _ Hf)).
  pose proof (fits_root _ _ _ (fits_right _ _ _ Hf)).
  destruct Hwf as (_ & _ & Hst). rewrite Hs, !st_view in Hst.
  destruct Hst as [Hst|[? _]]; [|done]. symmetry in Hst.
  apply summarize_unused in Hst as [Hl Hr].
  unfold split_unused_node. array_step. rewrite Hs, bool_decide_eq_true_2 by done.
  cbn [negb]. do 3 array_step.
  rewrite (list_insert_id _ (Z.to_nat (i * 2 + 1))); cycle 1.
  { rewrite list_lookup_insert_ne by lia. rewrite <- Hl. by apply lookup_total_in_range. }
  rewrite (list_insert_id _ (Z.to_nat (i * 2 + 2))); [done|].
  rewrite list_lookup_insert_ne by lia. rewrite <- Hr. by apply lookup_total_in_range.
Qed.

(** Writing the summary of the children at the root of a subtree whose
    children have just changed. *)
Lemma summarize_and_set {A} t i h (a : A) :
  fits t i (S h) →
  let l := view t h (i * 2 + 1) in
  let r := view t h (i * 2 + 2) in
  let t' := <[Z.to_nat i := summarize (st l) (st r)]> t in
  (let! s := summarize_children_state t i in let! t := aset t i s in Ret (a, t)) = Ret (a, t') ∧
  view t' (S h) i = Nd (summarize (st l) (st r)) l r ∧ same_outside t t' i (S h).
Proof.
  intros Hf l r t'. pose proof (fits_root _ _ _ Hf).
  rewrite (summarize_children_view _ _ h) by done. cbn [obind].
  rewrite aset_in_range by done. split; [done|]. split; [|apply same_outside_set; lia].
  unfold t'. by rewrite view_set_root.
Qed.

(** The state in which [allocate_from_node] descends: the node is marked
    [NODE_SPLIT] and its children are as before. *)
Lemma descend_view t i h pc off :
  fits t i (S h) → wf pc (S h) off (view t (S h) i) →
  unavailable (t !!! Z.to_nat i) = false →
  (if bool_decide (t !!! Z.to_nat i = NODE_UNUSED) then split_unused_node t i else Ret t)
    = Ret (<[Z.to_nat i := NODE_SPLIT]> t).
Proof.
  intros Hf Hwf Hs. case_test; [by eapply split_unused_view|].
  f_equal. symmetry. apply list_insert_id.
  rewrite lookup_total_in_range by eauto with kernel. f_equal.
  by destruct (t !!! Z.to_nat i).
Qed.

Lemma view_children_set t i h s :
  fits t i (S h) →
  let t' := <[Z.to_nat i := s]> t in
  view t' h (i * 2 + 1) = view t h (i * 2 + 1) ∧ view t' h (i * 2 + 2) = view t h (i * 2 + 2).
Proof. intros Hf. pose proof (view_set_root t i (S h) s Hf) as E. by injection E. Qed.

(** The outcome of [allocate_from_node] on a subtree, in terms of [lalloc]. *)
Definition alloc_refines (b : BuddySystem) (t : list NodeState) (i : Z) (h : nat)
    (res : outcome (Z * list NodeState)) (spec : option (Z * ltree)) : Prop :=
  match spec with
  | None => res = Ret (-1, t)
  | Some (o, lt') => ∃ j t', res = Ret (j, t') ∧ same_outside t t' i h ∧
      view t' h i = lt' ∧ 0 ≤ j ∧ node_offset_pages b j = Ret o
  end.

(** Marking a whole node [NODE_USED]. *)
Lemma alloc_refines_whole b t i d h off :
  sized b → geom b i d h off → fits t i h →
  alloc_refines b t i h
    (if negb (bool_decide (t !!! Z.to_nat i = NODE_UNUSED)) then Ret (-1, t)
     else let! t := aset t i NODE_USED in Ret (i, t))
    (if bool_decide (st (view t h i) = NODE_UNUSED)
     then Some (off, set_st NODE_USED (view t h i)) else None).
Proof.
  intros Hb Hg Hf. rewrite st_view. pose proof (fits_root _ _ _ Hf).
  case_test; cbn [negb]; [|done]. rewrite aset_in_range by lia. cbn.
  exists i, (<[Z.to_nat i := NODE_USED]> t). rewrite view_set_root by done.
  split_and!; auto with kernel lia. by eapply geom_node_offset.
Qed.

(** The two recursive calls of [allocate_from_node] on the children of a node
    just marked [NODE_SPLIT], and the summary written afterwards. *)
Lemma alloc_refines_children b pc k h off t i al ar :
  sized b → fits t i (S h) → wf pc (S h) off (view t (S h) i) → (k ≤ h)%nat →
  unavailable (t !!! Z.to_nat i) = false →
  let t1 := <[Z.to_nat i := NODE_SPLIT]> t in
  let l := view t h (i * 2 + 1) in let r := view t h (i * 2 + 2) in
  alloc_refines b t1 (i * 2 + 1) h al (lalloc k h off l) →
  alloc_refines b t1 (i * 2 + 2) h (ar t1) (lalloc k h (off + pw h) r) →
  alloc_refines b t i (S h)
    (let! (a, t2) := al in
     let! (a, t2) := (if a =? -1 then ar t2 else Ret (a, t2)) in
     let! s := summarize_children_state t2 i in
     let! t2 := aset t2 i s in Ret (a, t2))
    (match lalloc k h off l with
     | Some (o, l') => Some (o, Nd (summarize (st l') (st r)) l' r)
     | None => match lalloc k h (off + pw h) r with
               | Some (o, r') => Some (o, Nd (summarize (st l) (st r')) l r')
               | None => None
               end
     end).
Proof.
  intros Hb Hf Hwf Hk Hs t1 l r Hal Har. pose proof (fits_root _ _ _ Hf) as Hi.
  assert (fits t1 i (S h)) as Hf1 by (eapply fits_length, Hf; apply length_insert).
  destruct (view_children_set t i h NODE_SPLIT Hf) as [El Er]. fold t1 l r in El, Er.
  assert (same_outside t t1 i (S h)) as Ho1 by (apply same_outside_set; lia).
  destruct (lalloc k h off l) as [[o l']|] eqn:El'.
  - destruct Hal as (j & t2 & -> & Ho & Hv & Hj & Hoff). cbn [obind].
    destruct (Z.eqb_spec j (-1)); [lia|]. cbn [obind].
    assert (fits t2 i (S h)) as Hf2 by (eapply fits_length, Hf1; apply Ho).
    destruct (summarize_and_set t2 i h j Hf2) as (-> & Hv2 & Ho2).
    eexists j, _. split; [done|]. split; [eauto using same_outside_trans, same_outside_left|].
    split; [|done]. by rewrite Hv2, Hv, (view_sibling_r t1 t2), Er by (lia || done).
  - rewrite Hal. cbn [obind]. rewrite Z.eqb_refl.
    destruct (lalloc k h (off + pw h) r) as [[o r']|] eqn:Er'.
    + destruct Har as (j & t2 & -> & Ho & Hv & Hj & Hoff). cbn [obind].
      assert (fits t2 i (S h)) as Hf2 by (eapply fits_length, Hf1; apply Ho).
      destruct (summarize_and_set t2 i h j Hf2) as (-> & Hv2 & Ho2).
      eexists j, _. split; [done|]. split; [eauto using same_outside_trans, same_outside_right|].
      split; [|done]. by rewrite Hv2, Hv, (view_sibling_l t1 t2), El by (lia || done).
    + rewrite Har. cbn [obind alloc_refines].
      destruct (summarize_and_set t1 i h (-1) Hf1) as (-> & _ & _).
      rewrite El, Er. unfold t1. rewrite list_insert_insert_eq. do 2 f_equal.
      assert (lalloc k (S h) off (view t (S h) i) = None) as Hnone.
      { cbn [lalloc]. rewrite st_view, Hs. cbn [view]. fold l r.
        rewrite bool_decide_eq_false_2 by lia. by rewrite El', Er'. }
      apply (lalloc_fails pc) in Hnone; [|done|lia].
      destruct (decide (t !!! Z.to_nat i = NODE_UNUSED)) as [E|E].
      { destruct (wf_unused _ _ _ _ Hwf) as (_ & _ & _ & Hm); [by rewrite st_view|].
        pose proof (Z.pow_le_mono_r 2 (Z.of_nat k) (Z.of_nat (S h))). lia. }
      destruct Hwf as (_ & _ & [Hst|[? _]]); [|by rewrite H in Hs].
      apply list_insert_id. fold l r in Hst. rewrite <- Hst.
      by apply lookup_total_in_range.
Qed.

Lemma allocate_from_node_refines b pc k h : ∀ fuel t i d off,
  sized b → geom b i d h off → fits t i h → wf pc h off (view t h i) →
  (k ≤ h)%nat → (h < fuel)%nat →
  alloc_refines b t i h (allocate_from_node fuel b t i d (pw k)) (lalloc k h off (view t h i)).
Proof.
  induction h as [|h IH]; intros [|fuel] t i d off Hb Hg Hf Hwf Hk Hfuel; try lia;
    pose proof (fits_root _ _ _ Hf) as Hi; simpl allocate_from_node;
    rewrite (geom_block_pages _ _ _ _ _ Hb Hg);
    pose proof (Z.pow_le_mono_r 2 (Z.of_nat k) _ ltac:(lia) (inj_le _ _ Hk));
    (case_test; [lia|]); rewrite aget_total by lia; cbn [obind lalloc]; rewrite st_view.
  - assert (k = 0%nat) as -> by lia. rewrite Z.eqb_refl.
    case_match; [done|]. rewrite <- (st_view t 0 i). by eapply alloc_refines_whole.
  - destruct (unavailable (t !!! Z.to_nat i)) eqn:Hs; [done|].
    destruct (decide (k = S h)) as [->|Hne].
    { rewrite Z.eqb_refl, (bool_decide_eq_true_2 (S h = S h)) by done.
      rewrite <- (st_view t (S h) i). by eapply alloc_refines_whole. }
    rewrite (bool_decide_eq_false_2 (k = S h)) by done.
    destruct (Z.eqb_spec (pw (S h)) (pw k)) as [E|_]; [apply Z.pow_inj_r in E; lia|].
    erewrite descend_view by done. cbn [obind].
    rewrite aget_total by (rewrite length_insert; lia). cbn [obind].
    rewrite lookup_total_aset_eq, bool_decide_eq_true_2 by done. cbn [negb].
    replace (i * 2 + 1 + 1) with (i * 2 + 2) by lia.
    pose proof Hwf as (Hl & Hr & _).
    assert (fits (<[Z.to_nat i := NODE_SPLIT]> t) i (S h)) as Hf1
      by (eapply fits_length, Hf; apply length_insert).
    destruct (view_children_set t i h NODE_SPLIT Hf) as [El Er].
    apply (alloc_refines_children b pc k h off t i _
      (λ t2, allocate_from_node fuel b t2 (i * 2 + 2) (d + 1) (pw k))); try done; try lia.
    + rewrite <- El. apply IH; eauto with kernel; [by rewrite El|lia..].
    + rewrite <- Er. apply IH; eauto with kernel; [by rewrite Er|lia..].
Qed.

Definition free_refines (t : list NodeState) (i : Z) (h : nat)
    (res : outcome (bool * list NodeState)) (spec : option ltree) : Prop :=
  match spec with
  | None => res = Ret (false, t)
  | Some lt' => ∃ t', res = Ret (true, t') ∧ same_outside t t' i h ∧ view t' h i = lt'
  end.

(** Marking a whole node [NODE_UNUSED]. *)
Lemma free_refines_whole t i h off target :
  fits t i h →
  free_refines t i h
    (if negb (off =? target) then Ret (false, t)
     else let! t := aset t i NODE_UNUSED in Ret (true, t))
    (if bool_decide (off = target) then Some (set_st NODE_UNUSED (view t h i)) else None).
Proof.
  intros Hf. pose proof (fits_root _ _ _ Hf).
  destruct (Z.eqb_spec off target); case_test; try done. cbn [negb].
  rewrite aset_in_range by lia. cbn. exists (<[Z.to_nat i := NODE_UNUSED]> t).
  rewrite view_set_root by done. split_and!; auto with kernel lia.
Qed.

(** The summary written after a successful release in a child. *)
Lemma free_refines_left t i h res spec :
  fits t i (S h) → free_refines t (i * 2 + 1) h res spec →
  free_refines t i (S h)
    (let! (released, t) := res in
     if negb released then Ret (false, t) else
     let! s := summarize_children_state t i in
     let! t := aset t i s in Ret (true, t))
    (match spec with
     | Some l' => Some (Nd (summarize (st l') (st (view t h (i * 2 + 2)))) l' (view t h (i * 2 + 2)))
     | None => None
     end).
Proof.
  intros Hf Hr. pose proof (fits_root _ _ _ Hf).
  destruct spec as [l'|]; [|by rewrite Hr]. destruct Hr as (t2 & -> & Ho & Hv). cbn [obind negb].
  assert (fits t2 i (S h)) as Hf2 by (eapply fits_length, Hf; apply Ho).
  destruct (summarize_and_set t2 i h true Hf2) as (-> & Hv2 & Ho2).
  eexists. split; [done|]. split; [eauto using same_outside_trans, same_outside_left|].
  by rewrite Hv2, Hv, (view_sibling_r t t2) by (lia || done).
Qed.

Lemma free_refines_right t i h res spec :
  fits t i (S h) → free_refines t (i * 2 + 2) h res spec →
  free_refines t i (S h)
    (let! (released, t) := res in
     if negb released then Ret (false, t) else
     let! s := summarize_children_state t i in
     let! t := aset t i s in Ret (true, t))
    (match spec with
     | Some r' => Some (Nd (summarize (st (view t h (i * 2 + 1))) (st r')) (view t h (i * 2 + 1)) r')
     | None => None
     end).
Proof.
  intros Hf Hr. pose proof (fits_root _ _ _ Hf).
  destruct spec as [r'|]; [|by rewrite Hr]. destruct Hr as (t2 & -> & Ho & Hv). cbn [obind negb].
  assert (fits t2 i (S h)) as Hf2 by (eapply fits_length, Hf; apply Ho).
  destruct (summarize_and_set t2 i h true Hf2) as (-> & Hv2 & Ho2).
  eexists. split; [done|]. split; [eauto using same_outside_trans, same_outside_right|].
  by rewrite Hv2, Hv, (view_sibling_l t t2) by (lia || done).
Qed.

Lemma free_from_node_refines b pc h : ∀ fuel t i d off target,
  sized b → geom b i d h off → fits t i h → wf pc h off (view t h i) →
  off ≤ target < off + pw h → target < pc → (h < fuel)%nat →
  free_refines t i h (free_from_node fuel b t i d target) (lfree h off target (view t h i)).
Proof.
  induction h as [|h IH]; intros [|fuel] t i d off target Hb Hg Hf Hwf Ht Hpc Hfuel; try lia;
    pose proof (fits_root _ _ _ Hf) as Hi; simpl free_from_node;
    rewrite (geom_node_offset _ _ _ _ _ Hb Hg); cbn [obind];
    rewrite (geom_block_pages _ _ _ _ _ Hb Hg);
    rewrite (proj2 (Z.ltb_ge target off)), (proj2 (Z.leb_gt _ target)) by lia;
    cbn [orb]; rewrite aget_total by lia; cbn [obind lfree]; rewrite st_view.
  - destruct (bool_decide_reflect (t !!! Z.to_nat i = NODE_USED));
      [by apply (free_refines_whole t i 0)|].
    destruct Hwf as [[_ [Hs|Hs]]|[? _]]; [|done|lia].
    by rewrite bool_decide_eq_true_2.
  - destruct (bool_decide_reflect (t !!! Z.to_nat i = NODE_USED));
      [by apply (free_refines_whole t i (S h))|].
    destruct (bool_decide_reflect (t !!! Z.to_nat i = NODE_UNUSED)); [done|].
    destruct Hwf as (Hl & Hr & _). rewrite pow2_S in *.
    rewrite (Z.mul_comm 2), Z.div_mul by lia. pose proof (pow2_nat_pos h).
    replace (i * 2 + 1 + 1) with (i * 2 + 2) by lia. cbn [view].
    destruct (Z.ltb_spec target (off + pw h)).
    + rewrite bool_decide_eq_true_2 by done. apply free_refines_left; [done|].
      apply IH; eauto with kernel; lia.
    + rewrite bool_decide_eq_false_2 by lia. apply free_refines_right; [done|].
      apply IH; eauto with kernel; lia.
Qed.

Lemma max_free_block_pages_from_node_refines pc h : ∀ fuel t i off,
  fits t i h → wf pc h off (view t h i) → (h < fuel)%nat →
  max_free_block_pages_from_node fuel t i (pw h) = Ret (lmax h (view t h i)).
Proof.
  induction h as [|h IH]; intros [|fuel] t i off Hf Hwf Hfuel; try lia;
    pose proof (fits_root _ _ _ Hf) as Hi; simpl max_free_block_pages_from_node;
    rewrite aget_total by lia; cbn [obind lmax]; rewrite st_view.
  - case_test; [done|]. cbn in Hwf. by destruct (t !!! Z.to_nat i); naive_solver.
  - case_test; [done|]. pose proof (pow2_nat_pos h). rewrite pow2_S.
    destruct (Z.eqb_spec (2 * pw h) 0); [lia|]. rewrite orb_false_r. cbn [view].
    destruct (unavailable (t !!! Z.to_nat i)); [done|].
    destruct Hwf as (Hl & Hr & _). rewrite (Z.mul_comm 2), Z.div_mul by lia.
    erewrite !IH by (eauto with kernel; lia). cbn [obind]. f_equal. case_test; lia.
Qed.

(** The block or free node that covers a page. *)
Fixpoint lquery (h : nat) (off p : Z) (lt : ltree) : bool * Z * Z :=
  if bool_decide (st lt = NODE_UNUSED) then (true, off, pw h)
  else if bool_decide (st lt = NODE_USED) then (false, off, pw h)
  else match h, lt with
       | S h', Nd _ l r =>
           if bool_decide (p < off + pw h') then lquery h' off p l
           else lquery h' (off + pw h') p r
       | _, _ => (false, off, pw h)
       end.

Lemma lquery_correct pc h off p lt free o n :
  wf pc h off lt → off ≤ p < off + pw h → p < pc → lquery h off p lt = (free, o, n) →
  if free then ∀ o' n', (o', n') ∈ blocks h off lt → ¬ (o' ≤ p < o' + n')
  else (o, n) ∈ blocks h off lt ∧ o ≤ p < o + n.
Proof.
  revert off lt. induction h as [|h IH]; intros off [s|s l r] Hwf Hp Hpc Hq; try done;
    pose proof Hwf as Hwf'; cbn [lquery st blocks] in *.
  - destruct Hwf as [[_ [->| ->]]|[? _]]; [| |lia]; vm_compute (bool_decide _) in Hq;
      vm_compute (bool_decide _); simplify_eq/=; [set_solver|].
    split; [set_solver|done].
  - pose proof (pow2_S h). destruct Hwf as (Hl & Hr & _).
    revert Hq. case_test.
    { intros; simplify_eq. destruct (wf_unused _ _ _ _ Hwf' eq_refl) as (_ & Hb & _).
      cbn [blocks] in Hb. rewrite Hb. set_solver. }
    destruct (bool_decide_reflect (s = NODE_USED)).
    { intros; simplify_eq. split; [set_solver|done]. }
    case_test; intros Hq; [specialize (IH _ _ Hl ltac:(lia) Hpc Hq)
                          |specialize (IH _ _ Hr ltac:(lia) Hpc Hq)]; destruct free.
    + intros o' n' [Hin|Hin]%elem_of_app; [by apply IH|].
      apply (blocks_in_range _ _ _ _ _ _ Hr) in Hin. lia.
    + rewrite elem_of_app. naive_solver.
    + intros o' n' [Hin|Hin]%elem_of_app; [|by apply IH].
      apply (blocks_in_range _ _ _ _ _ _ Hl) in Hin. lia.
    + rewrite elem_of_app. naive_solver.
Qed.

Lemma query_page_from_node_refines b pc h : ∀ fuel i d off p,
  fits (tree b) i h → page_count b = pc → wf pc h off (view (tree b) h i) →
  off ≤ p < off + pw h → p < pc → (h < fuel)%nat →
  ∃ q, query_page_from_node fuel b i d off (pw h) p = Ret q ∧ in_range q = true ∧
    (is_free q, block_offset q, block_pages q) = lquery h off p (view (tree b) h i).
Proof.
  induction h as [|h IH]; intros [|fuel] i d off p Hf Hpc Hwf Hp Hpc' Hfuel; try lia;
    pose proof (fits_root _ _ _ Hf) as Hi; simpl query_page_from_node; cbn [lquery];
    rewrite Hpc; destruct (Z.ltb_spec p pc), (Z.ltb_spec i 0); try lia; cbn [negb orb];
    rewrite aget_total by lia; cbn [obind]; rewrite st_view.
  - rewrite orb_true_r. repeat case_test; eexists; split_and!; done.
  - rewrite pow2_S. pose proof (pow2_nat_pos h).
    destruct (Z.eqb_spec (2 * pw h) 0); [lia|].
    destruct (Z.eqb_spec (2 * pw h) 1); [lia|]. rewrite orb_false_r.
    case_test; [by eexists|]. case_test; [by eexists|].
    rewrite (Z.mul_comm 2), Z.div_mul by lia. destruct (Z.eqb_spec (pw h) 0); [lia|].
    rewrite pow2_S in Hp. destruct Hwf as (Hl & Hr & _). cbn [view].
    destruct (Z.ltb_spec p (off + pw h)).
    + rewrite bool_decide_eq_true_2 by done. apply IH; eauto with kernel; lia.
    + rewrite bool_decide_eq_false_2 by lia. apply IH; eauto with kernel; lia.
Qed.

(** ** Rounding up to a power of two *)

(** [y] has bit [j] set when [x] has one of the bits [j .. j + n - 1] set. *)
Definition smeared (n x y : Z) : Prop :=
  ∀ j, 0 ≤ j → Z.testbit y j = true ↔ ∃ d, 0 ≤ d < n ∧ Z.testbit x (j + d) = true.

Lemma smeared_start x : smeared 1 x x.
Proof.
  intros j Hj. split; [intros; exists 0; by rewrite Z.add_0_r|].
  intros (d & ? & E). by replace (j + d) with j in E by lia.
Qed.

Lemma smeared_step n x y : 0 < n → smeared n x y → smeared (n + n) x (Z.lor y (Z.shiftr y n)).
Proof.
  intros Hn Hs j Hj. red in Hs. rewrite Z.lor_spec, Z.shiftr_spec, orb_true_iff by lia.
  rewrite !Hs by lia. split.
  - intros [(d & ? & E)|(d & ? & E)]; [exists d|exists (n + d)]; (split; [lia|]).
    + done.
    + by rewrite Z.add_assoc.
  - intros (d & ? & E). destruct (decide (d < n)); [left; exists d|right; exists (d - n)];
      (split; [lia|]); [done|]. by replace (j + n + (d - n)) with (j + d) by lia.
Qed.

Lemma smear_nonneg y n : 0 ≤ y → 0 ≤ Z.lor y (Z.shiftr y n).
Proof. intros. apply Z.lor_nonneg. by rewrite Z.shiftr_nonneg. Qed.

Lemma smeared_ones x y :
  0 < x < 2 ^ 32 → 0 ≤ y → smeared 32 x y → y = Z.ones (Z.log2 x + 1).
Proof.
  intros Hx Hy Hs. pose proof (Z.log2_nonneg x).
  assert (Z.log2 x < 32) by (apply Z.log2_lt_pow2; lia).
  apply Z.bits_inj'. intros j Hj. rewrite Z.testbit_ones_nonneg by lia.
  apply eq_true_iff_eq. rewrite (Hs j Hj), Z.ltb_lt. split.
  - intros (d & ? & E). destruct (decide (j < Z.log2 x + 1)); [done|].
    rewrite Z.bits_above_log2 in E; [done|lia..].
  - intros. exists (Z.log2 x - j). split; [lia|].
    replace (j + (Z.log2 x - j)) with (Z.log2 x) by lia. apply Z.bit_log2; lia.
Qed.

(** The five smearing steps set every bit below the top one. *)
Lemma smear_steps x :
  0 < x < 2 ^ 32 →
  let y := Z.lor x (Z.shiftr x 1) in
  let y := Z.lor y (Z.shiftr y 2) in
  let y := Z.lor y (Z.shiftr y 4) in
  let y := Z.lor y (Z.shiftr y 8) in
  let y := Z.lor y (Z.shiftr y 16) in
  y = 2 ^ (Z.log2 x + 1) - 1.
Proof.
  intros Hx. cbv zeta. set (y := Z.lor _ (Z.shiftr _ 16)).
  assert (smeared 32 x y) as Hs.
  { change 32 with (16 + 16). apply smeared_step; [lia|]. change 16 with (8 + 8).
    apply smeared_step; [lia|]. change 8 with (4 + 4). apply smeared_step; [lia|].
    change 4 with (2 + 2). apply smeared_step; [lia|]. change 2 with (1 + 1).
    apply smeared_step; [lia|]. apply smeared_start. }
  assert (0 ≤ y) as Hy by (unfold y; do 5 apply smear_nonneg; lia).
  rewrite (smeared_ones x y), Z.ones_equiv by done. lia.
Qed.

Lemma NextPowerOfTwo_log2_up x : 0 < x ≤ 2 ^ 31 → NextPowerOfTwo x = 2 ^ Z.log2_up x.
Proof.
  intros Hx. unfold NextPowerOfTwo. case_test; [lia|].
  rewrite (u32_small (x - 1)) by lia.
  destruct (decide (x = 1)) as [->|Hne]; [by vm_compute|].
  rewrite smear_steps, Z.log2_up_eqn by lia.
  replace (Z.pred x) with (x - 1) by lia. rewrite <- Z.add_1_r.
  pose proof (Z.log2_nonneg (x - 1)).
  assert (Z.log2 (x - 1) < 31) by (apply Z.log2_lt_pow2; lia).
  assert (2 ^ (Z.log2 (x - 1) + 1) ≤ 2 ^ 31) by (apply Z.pow_le_mono_r; lia).
  pose proof (pow2_pos (Z.log2 (x - 1) + 1)).
  rewrite u32_small; lia.
Qed.

(** Above [2 ^ 31] the result does not fit in 32 bits and wraps to zero. *)
Lemma NextPowerOfTwo_wraps x : 2 ^ 31 < x < 2 ^ 32 → NextPowerOfTwo x = 0.
Proof.
  intros Hx. unfold NextPowerOfTwo. case_test; [lia|].
  rewrite (u32_small (x - 1)), smear_steps by lia.
  replace (Z.log2 (x - 1)) with 31; [by vm_compute|]. symmetry. apply Z.log2_unique; lia.
Qed.

(** ** Conservation of pages *)

Definition total_pages_of (bs : list (Z * Z)) : Z := foldr (λ b n, b.2 + n) 0 bs.

Lemma total_pages_app bs1 bs2 :
  total_pages_of (bs1 ++ bs2) = total_pages_of bs1 + total_pages_of bs2.
Proof. induction bs1 as [|b bs1 IH]; simpl; lia. Qed.

#[export] Instance total_pages_proper : Proper (Permutation ==> eq) total_pages_of.
Proof. intros bs bs' Hp. unfold total_pages_of. induction Hp; simpl; lia. Qed.

Lemma total_pages_blocks pc h off lt : wf pc h off lt → 0 ≤ total_pages_of (blocks h off lt).
Proof.
  intros Hwf. assert (∀ b, b ∈ blocks h off lt → 0 < b.2) as Hpos.
  { intros [o n] Hin. apply (blocks_in_range _ _ _ _ _ _ Hwf) in Hin. simpl. lia. }
  induction (blocks h off lt) as [|b bs IH]; simpl; [done|].
  pose proof (Hpos b ltac:(set_solver)). assert (0 ≤ total_pages_of bs) by (apply IH; set_solver). unfold total_pages_of in *. lia.
Qed.

(** Managed pages are either free or inside an allocated block. *)
Lemma pages_conserved pc h off lt :
  wf pc h off lt →
  nfree lt + total_pages_of (blocks h off lt) = Z.max 0 (Z.min (pw h) (pc - off)).
Proof.
  revert off lt. induction h as [|h IH]; intros off [s|s l r] Hwf; try done.
  - cbn in Hwf. cbn -[Z.pow]. rewrite Z.pow_0_r.
    destruct Hwf as [[? [->| ->]]|[? ->]]; vm_compute (bool_decide _); simpl; lia.
  - pose proof (pow2_nat_pos h). pose proof (pow2_S h). destruct Hwf as (Hl & Hr & Hst).
    pose proof (IH _ _ Hl) as IHl. pose proof (IH _ _ Hr) as IHr. cbn [nfree blocks].
    case_test.
    + destruct Hst as [E|(_ & _ & Hsr)]; [by destruct (summarize_not_used (st l) (st r)); congruence|].
      destruct (wf_unused _ _ _ _ Hr Hsr) as [? _]. simpl total_pages_of. lia.
    + rewrite total_pages_app. lia.
Qed.

(** A tree array is determined by its view and by what lies outside it. *)
Lemma view_inj t t' h : ∀ i,
  0 ≤ i → view t h i = view t' h i →
  ∀ j, insub j i h → t !!! Z.to_nat j = t' !!! Z.to_nat j.
Proof.
  induction h as [|h IH]; intros i Hi Hv j (k & Hk & E); simpl in Hv.
  - assert (k = 0%nat) as -> by lia. rewrite Z.div_1_r in E.
    assert (j = i) as -> by lia. by injection Hv.
  - injection Hv as Hs Hl Hr. destruct k as [|k].
    { rewrite Z.div_1_r in E. by assert (j = i) as -> by lia. }
    rewrite div_pow2_S in E.
    pose proof (Z.div_mod ((j + 1) / pw k) 2 ltac:(lia)).
    pose proof (Z.mod_pos_bound ((j + 1) / pw k) 2 ltac:(lia)).
    assert ((j + 1) / pw k = i * 2 + 1 + 1 ∨ (j + 1) / pw k = i * 2 + 2 + 1) as [E'|E'] by lia;
      [apply (IH (i * 2 + 1))|apply (IH (i * 2 + 2))]; try done; try lia; exists k; split; lia || done.
Qed.

Lemma view_same_outside_eq t t' h i :
  0 ≤ i → view t' h i = view t h i → same_outside t t' i h → t' = t.
Proof.
  intros Hi Hv [Hlen Hs]. apply list_eq. intros n.
  destruct (decide (n < length t)%nat) as [Hn|Hn].
  - rewrite !list_lookup_lookup_total_lt by lia. f_equal.
    rewrite <- (Nat2Z.id n). destruct (decide (insub (Z.of_nat n) i h)) as [Hin|Hin].
    + by eapply view_inj.
    + apply Hs; [lia|done].
  - rewrite !lookup_ge_None_2; [done|lia..].
Qed.

(** Two blocks that share a page are the same block. *)
Lemma before_unique bs b1 b2 p :
  StronglySorted before bs → b1 ∈ bs → b2 ∈ bs →
  b1.1 ≤ p < b1.1 + b1.2 → b2.1 ≤ p < b2.1 + b2.2 → b1 = b2.
Proof.
  unfold before. induction 1 as [|b bs Hs IH Hb]; intros H1 H2 Hp1 Hp2; [by apply elem_of_nil in H1|].
  rewrite Forall_forall in Hb.
  apply elem_of_cons in H1 as [->|H1]; apply elem_of_cons in H2 as [->|H2]; auto.
  - apply Hb in H2. lia.
  - apply Hb in H1. lia.
Qed.

End BuddySpec.
