(* ===== verification/PageAlloc.v ===== *)
(** * What a page allocator promises its clients

    The kernel's heap and physical memory managers take blocks of pages from a
    buddy allocator and give them back.  This file states what they rely on:
    an abstract allocator, whose state is the map from the offsets of the
    allocated blocks to their sizes, and an interface that an implementation
    discharges.  What follows from the interface alone is proved here once. *)
From S2P Require Import Prelude.

Module PageAlloc.

(** ** The abstract allocator *)

Definition overlap (o n o' n' : Z) : Prop := o < o' + n' ∧ o' < o + n.

(** The range of [n] pages at [o] meets no allocated block. *)
Definition free_range (m : gmap Z Z) (o n : Z) : Prop :=
  ∀ o' n', m !! o' = Some n' → ¬ overlap o n o' n'.

(** No naturally aligned power-of-two range that could serve the request is
    free: the only reason to refuse it. *)
Definition exhausted (limit : Z) (m : gmap Z Z) (size : Z) : Prop :=
  ∀ k o, 0 ≤ k → Z.max 1 size ≤ 2 ^ k → 0 ≤ o → (2 ^ k | o) → o + 2 ^ k ≤ limit →
    ¬ free_range m o (2 ^ k).

(** Requests as a client sees them: an allocation that returned an offset, an
    allocation that was refused, a release. *)
Inductive event :=
  | EAlloc (size o : Z)
  | ERefuse (size : Z)
  | EFree (o : Z).

(** [spec_step limit m e m']: with [limit] pages managed and [m] allocated,
    the event [e] may happen and leaves [m'] allocated. *)
Inductive spec_step (limit : Z) (m : gmap Z Z) : event → gmap Z Z → Prop :=
  | SpecAlloc size o n :
      Z.max 1 size ≤ n → 0 ≤ o → o + n ≤ limit →
      free_range m o n →
      spec_step limit m (EAlloc size o) (<[o := n]> m)
  | SpecRefuse size : exhausted limit m size → spec_step limit m (ERefuse size) m
  | SpecFree o : spec_step limit m (EFree o) (delete o m).

Inductive spec_run (limit : Z) : gmap Z Z → list event → gmap Z Z → Prop :=
  | SpecRunNil m : spec_run limit m [] m
  | SpecRunCons m e m1 es m' :
      spec_step limit m e m1 → spec_run limit m1 es m' → spec_run limit m (e :: es) m'.

(** ** The interface *)

(** [pa_alloc s size] is the offset of a block or [-1]; [pa_free s o] releases
    the block that starts at page [o]. *)
Class PageAllocator (St : Type) := {
  pa_alloc : St → Z → outcome (Z * St);
  pa_free : St → Z → outcome St;
  pa_inv : St → Prop;
  pa_limit : St → Z;
  pa_map : St → gmap Z Z;

  pa_alloc_law s size :
    pa_inv s → - 2 ^ 31 ≤ size < 2 ^ 31 →
    (pa_alloc s size = Ret (-1, s) ∧ exhausted (pa_limit s) (pa_map s) size) ∨
    (∃ o n s', pa_alloc s size = Ret (o, s') ∧ pa_inv s' ∧ pa_limit s' = pa_limit s ∧
      0 ≤ o ∧ o + n ≤ pa_limit s ∧ Z.max 1 size ≤ n ∧
      free_range (pa_map s) o n ∧
      pa_map s' = <[o := n]> (pa_map s));

  pa_free_law s o :
    pa_inv s → - 2 ^ 31 ≤ o < 2 ^ 31 →
    ∃ s', pa_free s o = Ret s' ∧ pa_inv s' ∧ pa_limit s' = pa_limit s ∧
      pa_map s' = delete o (pa_map s)
}.

(** ** Clients *)

(** A client program: a list of requests. *)
Inductive request := RAlloc (size : Z) | RFree (o : Z).

Definition request_ok (r : request) : Prop :=
  match r with RAlloc x | RFree x => - 2 ^ 31 ≤ x < 2 ^ 31 end.

Section client.
Context `{!PageAllocator St}.

Definition serve (s : St) (r : request) : outcome (event * St) :=
    match r with
    | RAlloc size =>
        let! (o, s') := pa_alloc s size in
        Ret (if o =? -1 then ERefuse size else EAlloc size o, s')
    | RFree o => let! s' := pa_free s o in Ret (EFree o, s')
    end.

Fixpoint serve_all (s : St) (rs : list request) : outcome (list event * St) :=
    match rs with
    | [] => Ret ([], s)
    | r :: rs =>
        let! (e, s') := serve s r in
        let! (es, s'') := serve_all s' rs in
        Ret (e :: es, s'')
    end.

Lemma serve_refines s r :
    pa_inv s → request_ok r →
    ∃ e s', serve s r = Ret (e, s') ∧ pa_inv s' ∧ pa_limit s' = pa_limit s ∧
      spec_step (pa_limit s) (pa_map s) e (pa_map s').
Proof.
    intros Hs Hr. destruct r as [size|o]; simpl in *.
    - destruct (pa_alloc_law s size Hs Hr) as [[E Hx]|(o & n & s' & E & Hs' & Hl & Ho & Hn & Hsz & Hd & Hm)];
        rewrite E; cbn [obind].
      + exists (ERefuse size), s. split_and!; [done..|by constructor].
      + destruct (Z.eqb_spec o (-1)); [lia|]. exists (EAlloc size o), s'.
        rewrite Hm. repeat split; [done..|by constructor].
    - destruct (pa_free_law s o Hs Hr) as (s' & E & Hs' & Hl & Hm). rewrite E. cbn [obind].
      exists (EFree o), s'. rewrite Hm. repeat split; [done..|constructor].
  Qed.

  (** Serving any program of requests succeeds and is a run of the abstract
      allocator. *)
Lemma serve_all_refines rs : ∀ s,
    pa_inv s → Forall request_ok rs →
    ∃ es s', serve_all s rs = Ret (es, s') ∧ pa_inv s' ∧
      spec_run (pa_limit s) (pa_map s) es (pa_map s').
Proof.
    induction rs as [|r rs IH]; intros s Hs Hrs.
    - exists [], s. split_and!; [done..|constructor].
    - apply Forall_cons_iff in Hrs as [Hr Hrs].
      destruct (serve_refines s r Hs Hr) as (e & s1 & E & Hs1 & Hl & Hstep).
      destruct (IH s1 Hs1 Hrs) as (es & s2 & E2 & Hs2 & Hrun).
      exists (e :: es), s2. simpl. rewrite E. cbn [obind]. rewrite E2. cbn [obind].
      split_and!; [done..|]. econstructor; [done|]. by rewrite <- Hl.
  Qed.
End client.

(** In every reachable abstract state the blocks are disjoint. *)
Definition disjoint_map (m : gmap Z Z) : Prop :=
  ∀ o n o' n', m !! o = Some n → m !! o' = Some n' → o ≠ o' → ¬ overlap o n o' n'.

Lemma spec_step_disjoint limit m e m' :
  spec_step limit m e m' → disjoint_map m → disjoint_map m'.
Proof.
  intros [size o n _ _ _ Hd | size _ | o] Hm; [|done|].
  - intros o1 n1 o2 n2 H1 H2 Hne.
    apply lookup_insert_Some in H1 as [[<- <-]|[? H1]];
      apply lookup_insert_Some in H2 as [[<- <-]|[? H2]]; [done|by eapply Hd| |by eapply Hm].
    intros Ho. eapply (Hd o1 n1); [done|]. destruct Ho. split; lia.
  - intros o1 n1 o2 n2 [_ H1]%lookup_delete_Some [_ H2]%lookup_delete_Some. by eapply Hm.
Qed.

Lemma spec_run_disjoint limit m es m' :
  spec_run limit m es m' → disjoint_map m → disjoint_map m'.
Proof. induction 1; eauto using spec_step_disjoint. Qed.

End PageAlloc.
