(* ===== verification/BuddyCorrect.v ===== *)
(** * Correctness of the buddy allocator

    The public operations of [BuddySystem] on states that satisfy [Inv]: what
    [Initialize] establishes, what [Alloc], [Free], the queries and the
    byte-address wrappers do, and that the allocator implements the page
    allocator interface. *)
From S2P Require Import Prelude Buddy BuddySpec PageAlloc.
Import Buddy BuddySpec PageAlloc.

Module BuddyCorrect.

#[local] Abbreviation pw h := (2 ^ Z.of_nat h).

(** ** The allocator's invariant *)

Definition height (b : BuddySystem) : nat := Z.to_nat (level b).
Definition root (b : BuddySystem) : ltree := view (tree b) (height b) 0.

(** The blocks handed out and not yet released, by offset. *)
Definition allocated (b : BuddySystem) : list (Z * Z) := blocks (height b) 0 (root b).

Definition Inv (b : BuddySystem) : Prop :=
  sized b ∧ 0 < page_count b ≤ capacity_pages b ∧
  fits (tree b) 0 (height b) ∧
  wf (page_count b) (height b) 0 (root b) ∧
  free_page_count_ b = nfree (root b).

(** The number of pages [Alloc size] hands out. *)
Definition pages_for (size : Z) : Z := 2 ^ Z.log2_up (Z.max 1 size).

Lemma height_level b : sized b → Z.of_nat (height b) = level b.
Proof. intros [? _]. unfold height. lia. Qed.

Lemma capacity_height b : sized b → capacity_pages b = pw (height b).
Proof. intros Hb. rewrite (height_level _ Hb). by destruct Hb. Qed.

Lemma sized_with_tree b t : sized b → sized (with_tree b t).
Proof. done. Qed.

Lemma capacity_bound b : sized b → 1 ≤ capacity_pages b ≤ 2 ^ 29.
Proof.
  intros [? ->]. split; [pose proof (pow2_pos (level b)); lia|]. apply Z.pow_le_mono_r; lia.
Qed.

Lemma pages_for_exp size : -2 ^ 31 ≤ size < 2 ^ 31 →
  ∃ k : nat, pages_for size = pw k ∧ (k ≤ 31)%nat ∧ Z.max 1 size ≤ pw k.
Proof.
  intros Hs. unfold pages_for. pose proof (Z.log2_up_nonneg (Z.max 1 size)).
  exists (Z.to_nat (Z.log2_up (Z.max 1 size))). rewrite Z2Nat.id by done.
  split_and!; [done| |].
  - assert (Z.log2_up (Z.max 1 size) ≤ 31) by (apply Z.log2_up_le_pow2; lia). lia.
  - destruct (decide (size ≤ 1)); [rewrite Z.max_l by lia; done|].
    apply Z.log2_up_spec. lia.
Qed.

(** What [Alloc] computes from its argument. *)
Lemma request_pages size : -2 ^ 31 ≤ size < 2 ^ 31 →
  NextPowerOfTwo (if size <=? 0 then 1 else u32 size) = pages_for size.
Proof.
  intros Hs. unfold pages_for. case_test.
  - rewrite Z.max_l by lia. done.
  - rewrite u32_small, Z.max_r by lia. apply NextPowerOfTwo_log2_up. lia.
Qed.

(** ** Queries *)

Lemma max_free_root b : Inv b → get_max_free_block_pages b = Ret (lmax (height b) (root b)).
Proof.
  intros (Hb & _ & Hf & Hwf & _). unfold get_max_free_block_pages.
  rewrite (capacity_height _ Hb). eapply max_free_block_pages_from_node_refines; [done..|].
  unfold tree_fuel, height. lia.
Qed.

Lemma query_root b p : Inv b → 0 ≤ p < page_count b →
  ∃ q, query_page b p = Ret q ∧ in_range q = true ∧
    (is_free q, block_offset q, block_pages q) = lquery (height b) 0 p (root b).
Proof.
  intros (Hb & Hpc & Hf & Hwf & _) Hp. unfold query_page.
  destruct (Z.leb_spec (page_count b) p); [lia|]. rewrite (capacity_height _ Hb) in *.
  eapply query_page_from_node_refines; try done; [lia..|]. unfold tree_fuel, height. lia.
Qed.

(** ** Allocation and release at the root *)

Lemma Alloc_root b size : Inv b → -2 ^ 31 ≤ size < 2 ^ 31 →
  ∃ k : nat, pages_for size = pw k ∧ Z.max 1 size ≤ pw k ∧
  if bool_decide (k ≤ height b)%nat then
    match lalloc k (height b) 0 (root b) with
    | None => Alloc b size = Ret (-1, b)
    | Some (o, lt') => ∃ t', Alloc b size =
        Ret (o, with_free (with_tree b t') (free_page_count_ b - pw k)) ∧
        view t' (height b) 0 = lt' ∧ same_outside (tree b) t' 0 (height b)
    end
  else Alloc b size = Ret (-1, b).
Proof.
  intros (Hb & Hpc & Hf & Hwf & Hfree) Hs.
  destruct (pages_for_exp size Hs) as (k & Hk & Hk31 & Hsz). exists k. split; [done|].
  split; [done|]. unfold Alloc. rewrite (request_pages size Hs), Hk.
  rewrite (capacity_height _ Hb) in *. case_test.
  - assert (pw k ≤ pw (height b)) by (apply Z.pow_le_mono_r; lia).
    destruct (Z.ltb_spec (pw (height b)) (pw k)); [lia|].
    pose proof (allocate_from_node_refines b (page_count b) k (height b) (tree_fuel b) (tree b) 0 0 0
      Hb (geom_root _ Hb) Hf Hwf Hd ltac:(unfold tree_fuel, height; lia)) as Hr.
    fold (root b) in Hr. destruct (lalloc k (height b) 0 (root b)) as [[o lt']|] eqn:Ha.
    + destruct Hr as (j & t' & -> & Ho & Hv & Hj & Hoff). cbn [obind].
      destruct (Z.ltb_spec j 0); [lia|].
      change (node_offset_pages (with_tree b t') j) with (node_offset_pages b j).
      rewrite Hoff. cbn [obind].
      destruct (lalloc_correct _ _ _ _ _ _ _ Hwf Hd Ha) as (Hwf' & _ & Hn & _ & ? & ? & ?).
      pose proof (pages_conserved _ _ _ _ Hwf') as Hcons.
      pose proof (pow2_nat_pos k). pose proof (capacity_bound b Hb).
      rewrite (capacity_height _ Hb) in *. cbn [page_count with_tree free_page_count_].
      rewrite i32_small by lia.
      destruct (Z.ltb_spec o 0), (Z.leb_spec (page_count b) o); try lia. cbn [orb].
      assert (0 ≤ nfree lt').
      { clear. induction lt' as [s|s l IHl r IHr]; simpl; case_test; lia. }
      destruct (Z.ltb_spec (free_page_count_ b) (pw k)); [lia|]. by eexists.
    + rewrite Hr. cbn [obind]. by destruct b.
  - assert (pw (height b) < pw k) by (apply Z.pow_lt_mono_r; lia).
    destruct (Z.ltb_spec (pw (height b)) (pw k)); [done|lia].
Qed.

Lemma Inv_with b t' n :
  Inv b → same_outside (tree b) t' 0 (height b) →
  wf (page_count b) (height b) 0 (view t' (height b) 0) → n = nfree (view t' (height b) 0) →
  Inv (with_free (with_tree b t') n).
Proof.
  intros (Hb & Hpc & Hf & _ & _) Ho Hwf ->. split; [done|]. split; [done|].
  split; [eapply fits_length, Hf; apply Ho|done].
Qed.

Lemma allocated_with b t' n :
  allocated (with_free (with_tree b t') n) = blocks (height b) 0 (view t' (height b) 0).
Proof. done. Qed.

Lemma Inv_wf b : Inv b → wf (page_count b) (height b) 0 (root b).
Proof. by intros (_ & _ & _ & ? & _). Qed.

#[local] Hint Resolve Inv_wf : kernel.

(** The block a query reports for a page. *)
Lemma query_block b p q : Inv b → 0 ≤ p < page_count b → query_page b p = Ret q →
  in_range q = true ∧
  if is_free q then ∀ o n, (o, n) ∈ allocated b → ¬ (o ≤ p < o + n)
  else (block_offset q, block_pages q) ∈ allocated b ∧
       block_offset q ≤ p < block_offset q + block_pages q.
Proof.
  intros Hi Hp Hq. destruct (query_root b p Hi Hp) as (q' & E & Hr & Hl).
  rewrite Hq in E. injection E as <-.
  split; [done|]. pose proof Hi as (Hb & Hpc & _). rewrite (capacity_height _ Hb) in Hpc.
  eapply (lquery_correct (page_count b) _ _ p); eauto with kernel; lia.
Qed.

Lemma allocated_sorted b : Inv b → StronglySorted before (allocated b).
Proof. intros. eapply blocks_sorted. eauto with kernel. Qed.

Lemma allocated_range b o n : Inv b → (o, n) ∈ allocated b →
  0 ≤ o ∧ 0 < n ∧ o + n ≤ page_count b.
Proof. intros Hi Hin. eapply blocks_in_range in Hin; [|eauto with kernel]. lia. Qed.

Lemma free_page_bound b : Inv b →
  0 ≤ free_page_count_ b ∧ free_page_count_ b + total_pages_of (allocated b) = page_count b.
Proof.
  intros Hi. pose proof (pages_conserved _ _ _ _ (Inv_wf _ Hi)) as Hc.
  destruct Hi as (Hb & Hpc & _ & _ & ->). rewrite (capacity_height _ Hb) in Hpc. split.
  - clear. induction (root b) as [s|s l IHl r IHr]; simpl; case_test; lia.
  - unfold allocated. lia.
Qed.

(** [Free] at the start of an allocated block. *)
Lemma Free_block b o n : Inv b → (o, n) ∈ allocated b →
  ∃ t' lt', lfree (height b) 0 o (root b) = Some lt' ∧
    Free b o = Ret (with_free (with_tree b t') (free_page_count_ b + n)) ∧
    view t' (height b) 0 = lt' ∧ same_outside (tree b) t' 0 (height b) ∧
    blocks (height b) 0 (root b) ≡ₚ (o, n) :: blocks (height b) 0 lt' ∧
    wf (page_count b) (height b) 0 lt' ∧ nfree lt' = nfree (root b) + n.
Proof.
  intros Hi Hin. pose proof (allocated_range _ _ _ Hi Hin) as Hr.
  pose proof Hi as (Hb & Hpc & Hf & Hwf & Hfree). pose proof (capacity_bound b Hb) as Hcap.
  destruct (query_root b o Hi ltac:(lia)) as (q & Hq & _).
  pose proof (query_block b o q Hi ltac:(lia) Hq) as [Hrange Hblk].
  destruct (is_free q) eqn:Hqf; [by destruct (Hblk o n Hin); lia|].
  destruct Hblk as [Hqin Hcov].
  assert ((block_offset q, block_pages q) = (o, n)) as [= Eo En].
  { eapply (before_unique _ _ _ o); [by apply allocated_sorted|done..|simpl; lia]. }
  rewrite (capacity_height _ Hb) in Hpc, Hcap.
  pose proof (free_from_node_refines b (page_count b) (height b) (tree_fuel b) (tree b) 0 0 0 o
    Hb (geom_root _ Hb) Hf Hwf ltac:(lia) ltac:(lia) ltac:(unfold tree_fuel, height; lia)) as Hfr.
  fold (root b) in Hfr. destruct (lfree (height b) 0 o (root b)) as [lt'|] eqn:Hl; cycle 1.
  { by destruct (lfree_fails _ _ _ _ _ Hwf Hl n). }
  destruct Hfr as (t' & Hfr & Ho & Hv).
  destruct (lfree_correct _ _ _ _ _ _ Hwf Hl) as (Hwf' & n' & Hb' & Hn').
  assert (n' = n) as ->.
  { assert ((o, n') ∈ allocated b) as Hin' by (unfold allocated; rewrite Hb'; set_solver).
    pose proof (allocated_range _ _ _ Hi Hin').
    assert ((o, n') = (o, n)) as [= ->]; [|done].
    eapply (before_unique _ _ _ o); [by apply allocated_sorted|done..|simpl; lia|simpl; lia]. }
  exists t', lt'. split; [done|]. split; [|done].
  destruct (free_page_bound b Hi) as [? Hsum].
  assert (n ≤ page_count b - free_page_count_ b).
  { rewrite <- Hsum. unfold allocated. rewrite Hb'.
    pose proof (total_pages_blocks _ _ _ _ Hwf'). simpl. lia. }
  unfold Free. rewrite i32_small, u32_small by lia.
  destruct (Z.ltb_spec o 0), (Z.leb_spec (page_count b) o); try lia. cbn [orb].
  rewrite Hq. cbn [obind]. rewrite Hrange, Hqf, Eo, Z.eqb_refl. cbn [negb orb].
  rewrite Hfr. cbn [obind negb with_tree page_count free_page_count_ block_pages].
  rewrite En, !u64_small by lia.
  destruct (Z.ltb_spec (page_count b - n) (free_page_count_ b)); [lia|done].
Qed.

(** [Free] anywhere else changes nothing. *)
Lemma Free_no_block b o : Inv b → -2 ^ 31 ≤ o < 2 ^ 31 →
  (∀ n, (o, n) ∉ allocated b) → Free b o = Ret b.
Proof.
  intros Hi Ho Hno. pose proof Hi as (Hb & Hpc & _). pose proof (capacity_bound b Hb).
  unfold Free. rewrite i32_small by lia.
  destruct (Z.ltb_spec o 0), (Z.leb_spec (page_count b) o); try done. cbn [orb].
  rewrite u32_small by lia. destruct (query_root b o Hi ltac:(lia)) as (q & Hq & _).
  pose proof (query_block b o q Hi ltac:(lia) Hq) as [Hrange Hblk].
  rewrite Hq. cbn [obind]. rewrite Hrange. cbn [negb orb].
  destruct (is_free q) eqn:Hqf; [done|]. cbn [orb].
  destruct (Z.eqb_spec (block_offset q) o) as [E|]; [|done].
  destruct Hblk as [Hin _]. rewrite E in Hin. by destruct (Hno _ Hin).
Qed.

(** ** Initialisation *)

Lemma level_loop_spec fuel lv L :
  0 ≤ lv ≤ L → L ≤ 31 → L - lv < Z.of_nat fuel → level_loop fuel lv (2 ^ L) = Ret L.
Proof.
  revert lv. induction fuel as [|fuel IH]; intros lv Hlv HL Hf; [lia|]. simpl.
  rewrite Z.shiftl_1_l.
  assert (2 ^ lv ≤ 2 ^ 31) by (apply Z.pow_le_mono_r; lia).
  pose proof (pow2_pos lv). rewrite u32_small by lia.
  destruct (decide (lv = L)) as [->|]; [by rewrite Z.ltb_irrefl|].
  assert (2 ^ lv < 2 ^ L) by (apply Z.pow_lt_mono_r; lia).
  destruct (Z.ltb_spec (2 ^ lv) (2 ^ L)); [|lia]. apply IH; lia.
Qed.

Lemma max_nodes_of_spec L : 0 ≤ L ≤ 29 → max_nodes_of L = 2 * 2 ^ L - 1.
Proof.
  intros HL. unfold max_nodes_of. rewrite Z.shiftl_1_l, Z.pow_add_r, Z.pow_1_r by lia.
  assert (2 ^ L ≤ 2 ^ 29) by (apply Z.pow_le_mono_r; lia). pose proof (pow2_pos L).
  rewrite (i32_small (2 ^ L * 2)) by lia. rewrite i32_small; lia.
Qed.

(** A tree array in which the leaves are marked and every inner node
    summarises its children is well formed. *)
Lemma wf_of_array b pc t L :
  sized b → L = level b →
  (∀ j, 0 ≤ j < 2 ^ L →
    t !!! Z.to_nat (2 ^ L - 1 + j) = if bool_decide (pc ≤ j) then NODE_FULL else NODE_UNUSED) →
  (∀ j, 0 ≤ j < 2 ^ L - 1 →
    t !!! Z.to_nat j = summarize (t !!! Z.to_nat (j * 2 + 1)) (t !!! Z.to_nat (j * 2 + 2))) →
  ∀ h i d off, geom b i d h off → wf pc h off (view t h i).
Proof.
  intros Hb -> Hleaf Hnode. induction h as [|h IH]; intros i d off Hg; simpl.
  - destruct Hg as (? & Hd & Hi & ->). rewrite Z.add_0_r in Hd. subst d.
    rewrite Z.pow_add_r, Z.pow_1_r in Hi by lia. rewrite Z.pow_0_r, Z.mul_1_r.
    replace i with (2 ^ level b - 1 + (i + 1 - 2 ^ level b)) by lia.
    rewrite Hleaf by lia. replace (2 ^ level b - 1 + _ + 1 - _) with (i + 1 - 2 ^ level b) by lia.
    case_test; [right|left]; (split; [lia|]); auto.
  - split; [by eapply IH, geom_left|]. split; [by eapply IH, geom_right|]. left.
    rewrite !st_view. apply Hnode. destruct Hg as (? & Hd & Hi & _).
    assert (2 ^ (d + 1) ≤ 2 ^ level b) by (apply Z.pow_le_mono_r; lia).
    pose proof (pow2_pos d). lia.
Qed.

Lemma blocks_none h : ∀ off t i,
  (∀ j, 0 ≤ j → insub j i h → t !!! Z.to_nat j ≠ NODE_USED) → 0 ≤ i →
  blocks h off (view t h i) = [].
Proof.
  induction h as [|h IH]; intros off t i Hn Hi; cbn [blocks view st];
    rewrite bool_decide_eq_false_2 by (apply Hn; [done|apply insub_root]); [done|].
  rewrite !IH; try lia; [done|..]; intros; apply Hn; auto using insub_left, insub_right.
Qed.

(** The leaf-marking pass. *)
Lemma mark_unusable_leaves_spec b :
  sized b → 0 ≤ page_count b → 2 * capacity_pages b - 1 ≤ Z.of_nat (length (tree b)) →
  ∃ t, mark_unusable_leaves b = Ret (with_tree b t) ∧ length t = length (tree b) ∧
    (∀ j, 0 ≤ j < capacity_pages b → t !!! Z.to_nat (capacity_pages b - 1 + j) =
      if bool_decide (page_count b ≤ j) then NODE_FULL else NODE_UNUSED).
Proof.
  intros Hb Hpc Hlen. pose proof (capacity_bound b Hb).
  destruct Hb as [HL Hc]. unfold mark_unusable_leaves.
  rewrite max_nodes_of_spec, Z.shiftl_1_l, <- Hc, i32_small by lia.
  edestruct (for_up_inv (λ i t, aset t (capacity_pages b - 1 + i)
        (if page_count b <=? i then NODE_FULL else NODE_UNUSED))
      (λ i t, length t = length (tree b) ∧
        ∀ j, 0 ≤ j < i → t !!! Z.to_nat (capacity_pages b - 1 + j) =
          if bool_decide (page_count b ≤ j) then NODE_FULL else NODE_UNUSED)
      0 (capacity_pages b) (tree b)) as (t & -> & Hl & Ht); [lia|split; [done|lia]| |].
  { intros j t Hj [Hl Ht]. rewrite aset_in_range by lia. eexists. split; [done|].
    rewrite length_insert. split; [done|]. intros j' Hj'.
    destruct (decide (j' = j)) as [->|].
    - rewrite lookup_total_aset_eq by lia. rewrite Z.leb_antisym.
      destruct (Z.ltb_spec j (page_count b)); case_test; done || lia.
    - rewrite lookup_total_aset_ne by lia. apply Ht. lia. }
  cbn [obind]. unfold for_up.
  replace (Z.to_nat _) with 0%nat by lia. cbn. by eexists.
Qed.

(** The pass that summarises inner nodes, bottom up. *)
Lemma rebuild_parent_states_spec b N :
  sized b → N = capacity_pages b → 2 * N - 1 ≤ Z.of_nat (length (tree b)) →
  (∀ j, N - 1 ≤ j < 2 * N - 1 → tree b !!! Z.to_nat j ≠ NODE_USED) →
  ∃ t, rebuild_parent_states b = Ret (with_tree b t) ∧ length t = length (tree b) ∧
    (∀ j, N - 1 ≤ j < 2 * N - 1 → t !!! Z.to_nat j = tree b !!! Z.to_nat j) ∧
    (∀ j, 0 ≤ j < 2 * N - 1 → t !!! Z.to_nat j ≠ NODE_USED) ∧
    (∀ j, 0 ≤ j < N - 1 →
      t !!! Z.to_nat j = summarize (t !!! Z.to_nat (j * 2 + 1)) (t !!! Z.to_nat (j * 2 + 2))).
Proof.
  intros Hb -> Hlen Hused. pose proof (capacity_bound b Hb).
  destruct Hb as [HL Hc]. unfold rebuild_parent_states.
  rewrite max_nodes_of_spec, Z.shiftl_1_l, <- Hc, i32_small by lia.
  set (N := capacity_pages b) in *.
  match goal with |- context [for_down ?f _ _] =>
    edestruct (for_down_inv f (λ n t, length t = length (tree b) ∧
      (∀ j, N - 1 ≤ j < 2 * N - 1 → t !!! Z.to_nat j = tree b !!! Z.to_nat j) ∧
      (∀ j, n ≤ j < 2 * N - 1 → t !!! Z.to_nat j ≠ NODE_USED) ∧
      (∀ j, n ≤ j < N - 1 →
        t !!! Z.to_nat j = summarize (t !!! Z.to_nat (j * 2 + 1)) (t !!! Z.to_nat (j * 2 + 2))))
      (Z.to_nat (N - 1)) (tree b)) as (t & -> & Hl & H1 & H2 & H3) end.
  { split_and!; [done|done| |lia]. intros j Hj. apply Hused. lia. }
  { intros j t Hj (Hl & H1 & H2 & H3). cbn beta.
    destruct (Z.leb_spec (2 * N - 1) (j * 2 + 1)), (Z.leb_spec (2 * N - 1) (j * 2 + 1 + 1));
      try lia. cbn [orb]. rewrite !aget_total by lia. cbn [obind].
    replace (j * 2 + 1 + 1) with (j * 2 + 2) by lia.
    set (l := t !!! Z.to_nat (j * 2 + 1)). set (r := t !!! Z.to_nat (j * 2 + 2)).
    assert (l ≠ NODE_USED ∧ r ≠ NODE_USED) as [Hul Hur] by (split; apply H2; lia).
    rewrite !aset_in_range by lia.
    exists (<[Z.to_nat j := summarize l r]> t). split.
    { destruct l, r; done. }
    rewrite length_insert. split_and!; [done|..]; intros j' Hj'.
    - rewrite lookup_total_aset_ne by lia. by apply H1.
    - destruct (decide (j' = j)) as [->|].
      + rewrite lookup_total_aset_eq by lia. apply summarize_not_used.
      + rewrite lookup_total_aset_ne by lia. apply H2; lia.
    - rewrite (lookup_total_aset_ne t j (j' * 2 + 1)), (lookup_total_aset_ne t j (j' * 2 + 2)) by lia.
      destruct (decide (j' = j)) as [->|]; [by rewrite lookup_total_aset_eq by lia|].
      rewrite lookup_total_aset_ne by lia. apply H3; lia. }
  cbn [obind]. exists t. split_and!; [done..|]. done.
Qed.

Lemma insub_root_bound b j :
  sized b → insub j 0 (height b) → 0 ≤ j < 2 * capacity_pages b - 1.
Proof.
  intros Hb (k & Hk & E). split; [apply (insub_nonneg j 0 (height b)); [lia|by exists k]|].
  rewrite (capacity_height _ Hb). pose proof (pow2_nat_pos k).
  assert (pw k ≤ pw (height b)) by (apply Z.pow_le_mono_r; lia).
  pose proof (Z.mul_succ_div_gt (j + 1) (pw k) ltac:(lia)). nia.
Qed.

(** [Initialize] with enough storage for the tree establishes the invariant
    with nothing allocated and every managed page free. *)
Lemma Initialize_spec baseptr total storage bytes :
  0 ≤ total ≤ 2 ^ 29 → bytes ≤ Z.of_nat (length storage) →
  required_tree_bytes total ≤ bytes →
  ∃ b, Initialize baseptr total (Some storage) bytes = Ret b ∧ Inv b ∧
    allocated b = [] ∧ page_count b = Z.max 1 total ∧
    get_free_page_count b = Z.max 1 total ∧ base_ptr b = baseptr.
Proof.
  intros Ht Hlen Hbytes.
  set (pages := if total =? 0 then 1 else total).
  assert (pages = Z.max 1 total) as Hpages by (unfold pages; case_test; lia).
  set (L := Z.log2_up pages). pose proof (Z.log2_up_nonneg pages).
  assert (L ≤ 29) by (apply Z.log2_up_le_pow2; lia).
  assert (capacity_pages_for pages = 2 ^ L) as Hcap.
  { unfold capacity_pages_for. case_test; [lia|]. apply NextPowerOfTwo_log2_up. lia. }
  assert (pages ≤ 2 ^ L) as HpL.
  { destruct (decide (pages = 1)) as [->|]; [by vm_compute|].
    unfold L. apply Z.log2_up_spec. lia. }
  assert (2 ^ L ≤ 2 ^ 29) by (apply Z.pow_le_mono_r; lia).
  pose proof (pow2_pos L).
  assert (required_tree_bytes pages = 2 * 2 ^ L - 1) as Hreq.
  { unfold required_tree_bytes. rewrite Hcap, u64_small; lia. }
  assert (required_tree_bytes total = required_tree_bytes pages) as Hreq'.
  { unfold required_tree_bytes, capacity_pages_for, pages. repeat case_test; done || lia. }
  unfold Initialize. fold pages. rewrite Hcap, level_loop_spec by lia. cbn [obind].
  rewrite Hreq. destruct (Z.ltb_spec bytes (2 * 2 ^ L - 1)); [lia|].
  destruct (for_up_inv (λ i t, aset t i NODE_UNUSED) (λ _ t, length t = length storage)
    0 (2 * 2 ^ L - 1) storage) as (t0 & -> & Hl0); [lia|done| |].
  { intros j t Hj Hl. rewrite aset_in_range by lia. eexists. split; [done|]. by rewrite length_insert. }
  cbn [obind]. set (b0 := mkBuddy _ _ _ _ _ _). assert (sized b0) as Hb0 by (split; simpl; lia || done).
  destruct (mark_unusable_leaves_spec b0) as (t1 & -> & Hl1 & Hleaf); [done|simpl; lia..|].
  cbn [obind]. simpl in Hl1. unfold capacity_pages at 1 2, page_count at 1 in Hleaf; simpl in Hleaf.
  destruct (rebuild_parent_states_spec (with_tree b0 t1) (2 ^ L))
    as (t2 & -> & Hl2 & Hkeep & Hused & Hsum); [done|done|simpl; lia| |].
  { intros j Hj. simpl. replace j with (2 ^ L - 1 + (j - (2 ^ L - 1))) by lia.
    rewrite Hleaf by lia. by case_test. }
  simpl in *. assert (height b0 = Z.to_nat L) as Hh by done.
  assert (wf pages (height b0) 0 (view t2 (height b0) 0)) as Hwf.
  { eapply (wf_of_array b0 _ _ L); [done|done| |done|by apply geom_root].
    intros j Hj. rewrite Hkeep by lia. rewrite Hleaf by lia. done. }
  assert (blocks (height b0) 0 (view t2 (height b0) 0) = []) as Hnone.
  { apply blocks_none; [|lia]. intros j _ Hin. apply Hused.
    by apply (insub_root_bound b0). }
  pose proof (pages_conserved _ _ _ _ Hwf) as Hcons. rewrite Hnone in Hcons. simpl in Hcons.
  rewrite Hh, Z2Nat.id in Hcons by lia.
  eexists. split; [done|]. split_and!; try done; simpl; try lia.
  - split; [done|]. split; [simpl; lia|]. unfold root, height in *. simpl in *.
    split; [split; [lia|]|].
    { rewrite Hl2, Hl1, Hl0. unfold height in *. simpl. rewrite Z2Nat.id by lia. lia. }
    split; [done|]. lia.
Qed.

(** A request is refused exactly when no free block is large enough; otherwise
    the smallest power of two pages is handed out, aligned, among managed pages,
    and the accounting follows. *)
Lemma Alloc_spec b size :
  Inv b → -2 ^ 31 ≤ size < 2 ^ 31 →
  ∃ m, get_max_free_block_pages b = Ret m ∧
  if m <? pages_for size then Alloc b size = Ret (-1, b)
  else ∃ o b', Alloc b size = Ret (o, b') ∧ Inv b' ∧
    0 ≤ o ∧ o + pages_for size ≤ page_count b ∧ (pages_for size | o) ∧
    allocated b' ≡ₚ (o, pages_for size) :: allocated b ∧
    get_free_page_count b' = get_free_page_count b - pages_for size ∧
    page_count b' = page_count b ∧ base_ptr b' = base_ptr b.
Proof.
  intros Hi Hs. exists (lmax (height b) (root b)). split; [by apply max_free_root|].
  destruct (Alloc_root b size Hi Hs) as (k & -> & Hsz & Ha).
  pose proof (lmax_bound (height b) (root b)) as Hmax.
  destruct (bool_decide_reflect (k ≤ height b)%nat) as [Hk|Hk]; cycle 1.
  { assert (pw (height b) < pw k) by (apply Z.pow_lt_mono_r; lia).
    destruct (Z.ltb_spec (lmax (height b) (root b)) (pw k)); [done|lia]. }
  pose proof (lalloc_fails _ k _ _ _ (Inv_wf _ Hi) Hk) as Hfail.
  destruct (lalloc k (height b) 0 (root b)) as [[o lt']|] eqn:El.
  - destruct (Z.ltb_spec (lmax (height b) (root b)) (pw k)).
    { destruct Hfail as [_ Hfail]. by specialize (Hfail ltac:(lia)). }
    destruct Ha as (t' & -> & Hv & Ho).
    destruct (lalloc_correct _ _ _ _ _ _ _ (Inv_wf _ Hi) Hk El)
      as (Hwf' & Hb' & Hn & Hdiv & ? & ? & ?).
    rewrite Z.sub_0_r in Hdiv. pose proof Hi as (_ & _ & _ & _ & Hfree).
    eexists o, _. split; [done|]. split.
    { apply Inv_with; [done|done|by rewrite Hv|]. rewrite Hv. lia. }
    split_and!; try done. by rewrite allocated_with, Hv.
  - destruct (Z.ltb_spec (lmax (height b) (root b)) (pw k)); [done|].
    destruct Hfail as [Hfail _]. specialize (Hfail eq_refl). lia.
Qed.

(** [Free] of an allocated block releases exactly that block; of any other
    offset, in range or not, it changes nothing.  No release panics. *)
Lemma Free_spec b o :
  Inv b → -2 ^ 31 ≤ o < 2 ^ 31 →
  (∃ n b', (o, n) ∈ allocated b ∧ Free b o = Ret b' ∧ Inv b' ∧
     allocated b ≡ₚ (o, n) :: allocated b' ∧
     get_free_page_count b' = get_free_page_count b + n ∧
     page_count b' = page_count b ∧ base_ptr b' = base_ptr b) ∨
  ((∀ n, (o, n) ∉ allocated b) ∧ Free b o = Ret b).
Proof.
  intros Hi Ho.
  destruct (list_find (λ x, x.1 = o) (allocated b)) as [[i [o' n]]|] eqn:Hf.
  - left. apply list_find_Some in Hf as (Hin & Heq & _). simpl in Heq. subst o'.
    apply list_elem_of_lookup_2 in Hin.
    destruct (Free_block b o n Hi Hin) as (t' & lt' & _ & E & Hv & Hs & Hb & Hwf & Hn).
    pose proof Hi as (_ & _ & _ & _ & Hfree).
    eexists n, _. split; [done|]. split; [done|]. split.
    { apply Inv_with; [done|done|by rewrite Hv|]. rewrite Hv. lia. }
    split_and!; try done. by rewrite allocated_with, Hv.
  - right. apply list_find_None in Hf. rewrite Forall_forall in Hf.
    assert (∀ n, (o, n) ∉ allocated b) as Hno by (intros n Hin; by apply (Hf (o, n))).
    split; [done|]. by apply Free_no_block.
Qed.

(** Releasing the block [Alloc] returned restores the allocator bit for bit. *)
Lemma Free_Alloc_eq b size o b' :
  Inv b → -2 ^ 31 ≤ size < 2 ^ 31 → Alloc b size = Ret (o, b') → o ≠ -1 → Free b' o = Ret b.
Proof.
  intros Hi Hs Ha Ho. pose proof Hi as (_ & _ & _ & Hwf & Hfree).
  destruct (Alloc_root b size Hi Hs) as (k & _ & _ & Hr).
  destruct (bool_decide_reflect (k ≤ height b)%nat) as [Hk|_]; [|congruence].
  destruct (lalloc k (height b) 0 (root b)) as [[o' lt']|] eqn:El; [|congruence].
  destruct Hr as (t' & E & Hv & Hout). rewrite Ha in E. injection E as <- ->.
  destruct (lalloc_correct _ _ _ _ _ _ _ Hwf Hk El) as (Hwf' & Hb' & Hn & _).
  set (b' := with_free _ _).
  assert (Inv b') as Hi' by (apply Inv_with; [done|done|by rewrite Hv|rewrite Hv; lia]).
  assert ((o, pw k) ∈ allocated b') as Hin.
  { unfold b'. rewrite allocated_with, Hv, Hb'. set_solver. }
  destruct (Free_block b' o (pw k) Hi' Hin) as (t2 & lt2 & Hl & -> & Hv2 & Hout2 & _).
  change (height b') with (height b) in *.
  assert (root b' = lt') as Hroot by done. rewrite Hroot in Hl.
  rewrite (lfree_lalloc _ _ _ _ _ _ _ Hwf Hk El) in Hl. injection Hl as <-.
  assert (t2 = tree b) as ->.
  { eapply (view_same_outside_eq _ _ (height b) 0); [lia|done|].
    eapply same_outside_trans; [exact Hout|exact Hout2]. }
  unfold b'. destruct b; cbn. f_equal. unfold with_free, with_tree. cbn. f_equal. lia.
Qed.

(** Live blocks are disjoint ranges of managed pages, and together with the
    free-page counter they account for every managed page. *)
Theorem allocated_disjoint b :
  Inv b →
  StronglySorted before (allocated b) ∧
  (∀ o n, (o, n) ∈ allocated b → 0 ≤ o ∧ 0 < n ∧ o + n ≤ page_count b) ∧
  get_free_page_count b + total_pages_of (allocated b) = page_count b.
Proof.
  intros Hi. split_and!; [by apply allocated_sorted|by intros; apply allocated_range|].
  by apply free_page_bound.
Qed.

(** [query_page] tells free pages from allocated ones and finds the block. *)
Theorem query_page_correct b p :
  Inv b → 0 ≤ p →
  ∃ q, query_page b p = Ret q ∧ in_range q = (p <? page_count b) ∧
  if in_range q then
    if is_free q then ∀ o n, (o, n) ∈ allocated b → ¬ (o ≤ p < o + n)
    else (block_offset q, block_pages q) ∈ allocated b ∧
         block_offset q ≤ p < block_offset q + block_pages q
  else q = PageQueryResult_zero.
Proof.
  intros Hi Hp. destruct (Z.ltb_spec p (page_count b)).
  - destruct (query_root b p Hi ltac:(lia)) as (q & Hq & _). exists q.
    destruct (query_block b p q Hi ltac:(lia) Hq) as [-> Hb]. done.
  - exists PageQueryResult_zero. unfold query_page.
    destruct (Z.leb_spec (page_count b) p); [done|lia].
Qed.

(** ** The allocator as a [PageAllocator] *)

Definition block_map (b : BuddySystem) : gmap Z Z := list_to_map (allocated b).

Lemma before_NoDup bs :
  StronglySorted before bs → (∀ o n, (o, n) ∈ bs → 0 < n) → NoDup bs.*1.
Proof.
  induction 1 as [|[o n] bs Hs IH Hb]; intros Hpos; [constructor|]. simpl.
  apply NoDup_cons. split; [|apply IH; intros; eapply Hpos, list_elem_of_further; done].
  intros Hin. apply list_elem_of_fmap in Hin as ([o' n'] & Heq & Hin). simpl in Heq; subst o'.
  rewrite Forall_forall in Hb. apply Hb in Hin as Hbo. unfold before in Hbo; simpl in Hbo.
  pose proof (Hpos o n ltac:(set_solver)). lia.
Qed.

Lemma allocated_NoDup b : Inv b → NoDup (allocated b).*1.
Proof.
  intros Hi. apply before_NoDup; [by apply allocated_sorted|].
  intros o n Hin. by apply (allocated_range b o n) in Hin as (_ & ? & _).
Qed.

Lemma block_map_lookup b o n : Inv b → block_map b !! o = Some n ↔ (o, n) ∈ allocated b.
Proof. intros Hi. symmetry. apply elem_of_list_to_map. by apply allocated_NoDup. Qed.

(** A request that exceeds the largest free block cannot be served from any
    aligned range of managed pages. *)
Lemma exhausted_max b size :
  Inv b → -2 ^ 31 ≤ size < 2 ^ 31 → lmax (height b) (root b) < pages_for size →
  exhausted (page_count b) (block_map b) size.
Proof.
  intros Hi Hs Hmax k o Hk Hsz Ho Hdiv Hlim Hfree.
  pose proof Hi as (Hsd & Hpc & _). rewrite capacity_height in Hpc by done.
  assert (pages_for size ≤ 2 ^ k) as Hpk.
  { apply Z.pow_le_mono_r; [lia|]. apply Z.log2_up_le_pow2; lia. }
  assert (k ≤ Z.of_nat (height b)) as Hkh by (apply (Z.pow_le_mono_r_iff 2); lia).
  assert (2 ^ k ≤ lmax (height b) (root b)); [|lia].
  rewrite <- (Z2Nat.id k) in * by done.
  apply (lmax_complete (page_count b) (Z.to_nat k) (height b) 0 (root b) o);
    [by apply Inv_wf|lia|apply Z.divide_0_r|done|done|lia|done|].
  intros o' n' Hb. apply (block_map_lookup b o' n' Hi), Hfree in Hb. unfold overlap in Hb. lia.
Qed.

Lemma Alloc_law b size :
  Inv b → -2 ^ 31 ≤ size < 2 ^ 31 →
  (Alloc b size = Ret (-1, b) ∧ exhausted (page_count b) (block_map b) size) ∨
  ∃ o n b', Alloc b size = Ret (o, b') ∧ Inv b' ∧ page_count b' = page_count b ∧
    0 ≤ o ∧ o + n ≤ page_count b ∧ Z.max 1 size ≤ n ∧
    free_range (block_map b) o n ∧
    block_map b' = <[o := n]> (block_map b).
Proof.
  intros Hi Hs. destruct (Alloc_spec b size Hi Hs) as (m & Em & Ha).
  rewrite max_free_root in Em by done. simplify_eq.
  destruct (Z.ltb_spec (lmax (height b) (root b)) (pages_for size));
    [left; auto using exhausted_max|right].
  destruct Ha as (o & b' & E & Hi' & Ho & Hlim & _ & Hperm & _ & Hpc & _).
  destruct (pages_for_exp size Hs) as (k & Ek & _ & Hsz). rewrite Ek in *.
  exists o, (pw k), b'. split_and!; try done.
  - intros o' n' Hin%block_map_lookup [? ?]; [|done].
    assert ((o', n') ∈ allocated b') as Hin' by (rewrite Hperm; set_solver).
    assert ((o, pw k) ∈ allocated b') as Hnew by (rewrite Hperm; set_solver).
    pose proof (allocated_range _ _ _ Hi Hin). pose proof (pow2_nat_pos k).
    pose proof (allocated_NoDup b' Hi') as Hnd. rewrite Hperm in Hnd.
    simpl in Hnd. apply NoDup_cons in Hnd as [Hnd _]. apply Hnd.
    assert ((o, pw k) = (o', n')) as [= -> _].
    { eapply (before_unique _ _ _ (Z.max o o')); [by apply allocated_sorted|done..| |]; simpl; lia. }
    apply list_elem_of_fmap. by exists (o', n').
  - unfold block_map. rewrite <- list_to_map_cons. apply list_to_map_proper; [|done].
    by apply allocated_NoDup.
Qed.

Lemma Free_law b o :
  Inv b → -2 ^ 31 ≤ o < 2 ^ 31 →
  ∃ b', Free b o = Ret b' ∧ Inv b' ∧ page_count b' = page_count b ∧
    block_map b' = delete o (block_map b).
Proof.
  intros Hi Ho. destruct (Free_spec b o Hi Ho)
    as [(n & b' & _ & E & Hi' & Hperm & _ & Hpc & _)|[Hno E]].
  - exists b'. split_and!; try done. pose proof (allocated_NoDup b Hi) as Hnd.
    assert (block_map b = <[o := n]> (block_map b')) as ->.
    { unfold block_map. rewrite <- list_to_map_cons. by apply list_to_map_proper. }
    rewrite Hperm in Hnd. simpl in Hnd. apply NoDup_cons in Hnd as [Hnd _].
    rewrite delete_insert_id; [done|]. by apply not_elem_of_list_to_map.
  - exists b. split_and!; try done. symmetry. apply delete_id.
    destruct (block_map b !! o) as [n|] eqn:E'; [|done].
    apply block_map_lookup in E'; [|done]. by destruct (Hno n).
Qed.

#[export] Instance BuddySystem_PageAllocator : PageAllocator BuddySystem := {
  pa_alloc := Alloc;
  pa_free := Free;
  pa_inv := Inv;
  pa_limit := page_count;
  pa_map := block_map;
  pa_alloc_law := Alloc_law;
  pa_free_law := Free_law
}.

(** C11. From [Initialize] on, any sequence of [Alloc] and [Free] calls returns, and
    is a run of the abstract page allocator that starts with nothing
    allocated: a block handed out is free and managed, and a request is refused
    only if no aligned power-of-two range that could serve it is free. *)
Theorem buddy_refines_page_allocator baseptr total storage bytes rs :
  0 ≤ total ≤ 2 ^ 29 → bytes ≤ Z.of_nat (length storage) →
  required_tree_bytes total ≤ bytes → Forall request_ok rs →
  ∃ b es b', Initialize baseptr total (Some storage) bytes = Ret b ∧
    serve_all b rs = Ret (es, b') ∧
    spec_run (Z.max 1 total) ∅ es (block_map b') ∧ disjoint_map (block_map b').
Proof.
  intros Ht Hlen Hbytes Hrs.
  destruct (Initialize_spec baseptr total storage bytes Ht Hlen Hbytes)
    as (b & E & Hi & Hnone & Hpc & _).
  destruct (serve_all_refines rs b) as (es & b' & E' & Hi' & Hrun); [exact Hi|exact Hrs|].
  cbn in Hrun. rewrite Hpc in Hrun.
  assert (block_map b = ∅) as Hm by (unfold block_map; by rewrite Hnone).
  rewrite Hm in Hrun. exists b, es, b'. split_and!; try done.
  eapply spec_run_disjoint; [done|]. by intros o n o' n' ?%lookup_empty_Some.
Qed.

(** ** Byte addresses *)

(** [alloc_pages] returns the address of the block and clears exactly the pages
    requested, for requests whose size in bytes fits in [int]; [free_pages] of
    that address undoes it. *)
Theorem alloc_pages_free_pages b count pa len b' :
  Inv b → 0 < count < 2 ^ 19 →
  0 ≤ base_ptr b → base_ptr b mod PGSIZE = 0 →
  base_ptr b + page_count b * PGSIZE < 2 ^ 64 →
  alloc_pages b count = Ret (Some (pa, len), b') →
  len = count * PGSIZE ∧
  base_ptr b ≤ pa ∧ pa + len ≤ base_ptr b + page_count b * PGSIZE ∧ pa mod PGSIZE = 0 ∧
  free_pages b' pa = Ret b.
Proof.
  intros Hi Hc Hbase Halign Hend. unfold alloc_pages, PGSIZE in *. intros Ha.
  apply obind_Ret in Ha as ([o b1] & Ha & Hret). revert Hret. case_test; [done|].
  intros Hret. injection Hret as <- <- <-.
  destruct (Alloc_spec b count Hi ltac:(lia)) as (m & _ & Hspec).
  destruct (m <? pages_for count); [congruence|].
  destruct Hspec as (o' & b2 & Ha' & Hi' & Ho & Hlim & _ & _ & _ & Hpc & Hbp).
  rewrite Ha in Ha'. injection Ha' as <- <-.
  destruct (pages_for_exp count ltac:(lia)) as (k & Ek & _ & Hsz). rewrite Ek in *.
  pose proof Hi as ([? ?] & Hpcb & _). pose proof (capacity_bound b ltac:(done)).
  rewrite i32_small, (u64_small (count * 4096)) by lia. rewrite Hbp.
  rewrite (u64_small (o * 4096 + base_ptr b)) by lia.
  assert ((o * 4096 + base_ptr b) mod 4096 = 0) as Hal.
  { rewrite Z.add_comm, Z.mod_add by lia. done. }
  split_and!; try lia. unfold free_pages, PGSIZE. rewrite Hal, Hbp. cbn [negb Z.eqb].
  replace (o * 4096 + base_ptr b - base_ptr b) with (o * 4096) by lia.
  rewrite u64_small, Z.div_mul, i32_small by lia.
  eapply Free_Alloc_eq; [done| |done|done]. lia.
Qed.

(** ** Properties *)

(** [Initialize] with enough storage for the tree never panics or leaves the
    storage, and establishes the allocator's invariant with nothing allocated
    and every managed page free. *)
Theorem Initialize_correct baseptr total storage bytes :
  0 ≤ total ≤ 2 ^ 29 → bytes ≤ Z.of_nat (length storage) →
  required_tree_bytes total ≤ bytes →
  ∃ b, Initialize baseptr total (Some storage) bytes = Ret b ∧ Inv b ∧
    allocated b = [] ∧ page_count b = Z.max 1 total ∧
    get_free_page_count b = Z.max 1 total ∧ base_ptr b = baseptr.
Proof. apply Initialize_spec. Qed.

(** A request is refused, with the allocator unchanged, exactly when the
    largest free block is too small; otherwise the smallest power of two pages
    that covers it is handed out, aligned to its size, among managed pages, the
    other blocks stay where they were and the free-page counter follows. *)
Theorem Alloc_correct b size :
  Inv b → -2 ^ 31 ≤ size < 2 ^ 31 →
  ∃ m, get_max_free_block_pages b = Ret m ∧
  if m <? pages_for size then Alloc b size = Ret (-1, b)
  else ∃ o b', Alloc b size = Ret (o, b') ∧ Inv b' ∧
    0 ≤ o ∧ o + pages_for size ≤ page_count b ∧ (pages_for size | o) ∧
    allocated b' ≡ₚ (o, pages_for size) :: allocated b ∧
    get_free_page_count b' = get_free_page_count b - pages_for size ∧
    page_count b' = page_count b ∧ base_ptr b' = base_ptr b.
Proof. apply Alloc_spec. Qed.

(** [Free] of an allocated block releases exactly that block and returns its
    pages to the counter; of any other offset, in range or not, it changes
    nothing.  No call panics. *)
Theorem Free_correct b o :
  Inv b → -2 ^ 31 ≤ o < 2 ^ 31 →
  (∃ n b', (o, n) ∈ allocated b ∧ Free b o = Ret b' ∧ Inv b' ∧
     allocated b ≡ₚ (o, n) :: allocated b' ∧
     get_free_page_count b' = get_free_page_count b + n ∧
     page_count b' = page_count b ∧ base_ptr b' = base_ptr b) ∨
  ((∀ n, (o, n) ∉ allocated b) ∧ Free b o = Ret b).
Proof. apply Free_spec. Qed.

(** C30. Releasing the block [Alloc] just returned restores the whole allocator:
    buddies coalesce back to the tree before the request. *)
Theorem Free_Alloc b size o b' :
  Inv b → -2 ^ 31 ≤ size < 2 ^ 31 → Alloc b size = Ret (o, b') → o ≠ -1 → Free b' o = Ret b.
Proof. apply Free_Alloc_eq. Qed.

(** ** Examples

    Six managed pages in a tree of capacity eight. *)
Definition buddy6 : BuddySystem :=
  mkBuddy 6 8 6 3
    [NODE_SPLIT; NODE_UNUSED; NODE_SPLIT; NODE_UNUSED; NODE_UNUSED; NODE_UNUSED; NODE_FULL;
     NODE_UNUSED; NODE_UNUSED; NODE_UNUSED; NODE_UNUSED; NODE_UNUSED; NODE_UNUSED;
     NODE_FULL; NODE_FULL] 0x80000000.

Lemma buddy6_Inv : Inv buddy6.
Proof.
  destruct (Initialize_spec 0x80000000 6 (replicate 15 NODE_UNUSED) 15)
    as (b & E & Hi & _); [lia|by vm_compute|by vm_compute|].
  vm_compute in E. by injection E as <-.
Qed.

Lemma Initialize_correct_witness :
  ∃ b, Initialize 0x80000000 6 (Some (replicate 15 NODE_FULL)) 15 = Ret b ∧ Inv b ∧
    allocated b = [] ∧ page_count b = 6 ∧ get_free_page_count b = 6 ∧
    base_ptr b = 0x80000000.
Proof.
  apply (Initialize_correct 0x80000000 6 (replicate 15 NODE_FULL) 15);
    [lia|by vm_compute|by vm_compute].
Defined.

(** Three pages are served from a block of four at offset zero. *)
Lemma Alloc_correct_witness :
  ∃ m, get_max_free_block_pages buddy6 = Ret m ∧
  if m <? pages_for 3 then Alloc buddy6 3 = Ret (-1, buddy6)
  else ∃ o b', Alloc buddy6 3 = Ret (o, b') ∧ Inv b' ∧
    0 ≤ o ∧ o + pages_for 3 ≤ page_count buddy6 ∧ (pages_for 3 | o) ∧
    allocated b' ≡ₚ (o, pages_for 3) :: allocated buddy6 ∧
    get_free_page_count b' = get_free_page_count buddy6 - pages_for 3 ∧
    page_count b' = page_count buddy6 ∧ base_ptr b' = base_ptr buddy6.
Proof. apply (Alloc_correct buddy6 3); [exact buddy6_Inv|lia]. Defined.

(** Nothing is allocated yet, so releasing page 2 changes nothing. *)
Lemma Free_correct_witness :
  (∃ n b', (2, n) ∈ allocated buddy6 ∧ Free buddy6 2 = Ret b' ∧ Inv b' ∧
     allocated buddy6 ≡ₚ (2, n) :: allocated b' ∧
     get_free_page_count b' = get_free_page_count buddy6 + n ∧
     page_count b' = page_count buddy6 ∧ base_ptr b' = base_ptr buddy6) ∨
  ((∀ n, (2, n) ∉ allocated buddy6) ∧ Free buddy6 2 = Ret buddy6).
Proof. apply (Free_correct buddy6 2); [exact buddy6_Inv|lia]. Defined.

(** [buddy6] after [Alloc 2]. *)
Definition buddy6_a : BuddySystem :=
  mkBuddy 6 8 4 3
    [NODE_SPLIT; NODE_SPLIT; NODE_SPLIT; NODE_USED; NODE_UNUSED; NODE_UNUSED; NODE_FULL;
     NODE_UNUSED; NODE_UNUSED; NODE_UNUSED; NODE_UNUSED; NODE_UNUSED; NODE_UNUSED;
     NODE_FULL; NODE_FULL] 0x80000000.

Lemma Free_Alloc_witness : Free buddy6_a 0 = Ret buddy6.
Proof.
  apply (Free_Alloc buddy6 2 0 buddy6_a); [exact buddy6_Inv|lia|by vm_compute|lia].
Defined.

Lemma allocated_disjoint_witness :
  StronglySorted before (allocated buddy6) ∧
  (∀ o n, (o, n) ∈ allocated buddy6 → 0 ≤ o ∧ 0 < n ∧ o + n ≤ page_count buddy6) ∧
  get_free_page_count buddy6 + total_pages_of (allocated buddy6) = page_count buddy6.
Proof. apply (allocated_disjoint buddy6). exact buddy6_Inv. Defined.

Lemma query_page_correct_witness :
  ∃ q, query_page buddy6 5 = Ret q ∧ in_range q = (5 <? page_count buddy6) ∧
  if in_range q then
    if is_free q then ∀ o n, (o, n) ∈ allocated buddy6 → ¬ (o ≤ 5 < o + n)
    else (block_offset q, block_pages q) ∈ allocated buddy6 ∧
         block_offset q ≤ 5 < block_offset q + block_pages q
  else q = PageQueryResult_zero.
Proof. apply (query_page_correct buddy6 5); [exact buddy6_Inv|lia]. Defined.

Lemma buddy_refines_page_allocator_witness :
  ∃ b es b', Initialize 0x80000000 6 (Some (replicate 15 NODE_FULL)) 15 = Ret b ∧
    serve_all b [RAlloc 3; RAlloc 1; RFree 0; RFree 17] = Ret (es, b') ∧
    spec_run 6 ∅ es (block_map b') ∧ disjoint_map (block_map b').
Proof.
  apply (buddy_refines_page_allocator 0x80000000 6 (replicate 15 NODE_FULL) 15
    [RAlloc 3; RAlloc 1; RFree 0; RFree 17]);
    [lia|by vm_compute|by vm_compute|repeat constructor; simpl; lia].
Defined.

Lemma alloc_pages_free_pages_witness :
  8192 = 2 * PGSIZE ∧ 0x80000000 ≤ 0x80000000 ∧
  0x80000000 + 8192 ≤ 0x80000000 + 6 * PGSIZE ∧ 0x80000000 mod PGSIZE = 0 ∧
  free_pages buddy6_a 0x80000000 = Ret buddy6.
Proof.
  apply (alloc_pages_free_pages buddy6 2 0x80000000 8192 buddy6_a);
    [exact buddy6_Inv|lia|by vm_compute|by vm_compute|by vm_compute|by vm_compute].
Defined.

(** [NextPowerOfTwo] is the least power of two not below its argument, for
    every argument up to [2 ^ 31]; above, the result wraps to zero. *)
Theorem NextPowerOfTwo_correct x :
  0 ≤ x < 2 ^ 32 →
  if x <=? 2 ^ 31 then
    x ≤ NextPowerOfTwo x ∧ (∃ k, 0 ≤ k ∧ NextPowerOfTwo x = 2 ^ k) ∧
    (∀ k, 0 ≤ k → x ≤ 2 ^ k → NextPowerOfTwo x ≤ 2 ^ k)
  else NextPowerOfTwo x = 0.
Proof.
  intros Hx. case_test; [|apply NextPowerOfTwo_wraps; lia].
  destruct (decide (x = 0)) as [->|].
  { split_and!; [done|by exists 0|]. intros k Hk _. pose proof (pow2_pos k Hk). vm_compute (NextPowerOfTwo 0). lia. }
  rewrite NextPowerOfTwo_log2_up by lia. pose proof (Z.log2_up_nonneg x). split_and!.
  - destruct (decide (x = 1)) as [->|]; [done|]. apply Z.log2_up_spec. lia.
  - by exists (Z.log2_up x).
  - intros k Hk Hle. apply Z.pow_le_mono_r; [lia|]. by apply Z.log2_up_le_pow2; [lia|].
Qed.

Lemma NextPowerOfTwo_correct_witness :
  5 ≤ 8 ∧ (∃ k, 0 ≤ k ∧ 8 = 2 ^ k) ∧ (∀ k, 0 ≤ k → 5 ≤ 2 ^ k → 8 ≤ 2 ^ k).
Proof. apply (NextPowerOfTwo_correct 5). lia. Defined.

End BuddyCorrect.
