(* ===== verification/Pmm.v ===== *)
(** * The physical memory manager (kernel/mem/physical_memory_manager.cc)

    Pages come from a buddy allocator and carry a reference count each.  The
    machine state is the manager together with the contents of the page frames
    it manages and a log of the two kinds of actions whose order matters to other
    processors: TLB flushes and pages given back to the allocator.  The state is
    that of an initialised manager; performance counters are omitted. *)
From S2P Require Import Prelude Page Buddy.
Import Page.

Module Pmm.

(** ** State *)

Record PhysicalMemoryManager := mkPmm {
  _buddy : Buddy.BuddySystem;
  pa_start : Z;
  page_count : Z;
  k_page_refcounts : list Z (* uint16, one per managed page *)
}.

(** What other processors can tell apart: the translations of an address range
    dropped, of the address space with the page table [target] or of all of them,
    and page [index] back in the allocator. *)
Inductive Event :=
  | TlbFlush (target : option Z) (start size : Z)
  | BuddyFree (index : Z).

(** A frame is the list of the 64-bit words of a page, by its address. *)
Record Machine := mkMachine {
  pmm : PhysicalMemoryManager;
  frames : gmap Z (list Z);
  events : list Event
}.

Definition with_pmm (m : Machine) (p : PhysicalMemoryManager) : Machine :=
  mkMachine p (frames m) (events m).
Definition with_frames (m : Machine) (f : gmap Z (list Z)) : Machine :=
  mkMachine (pmm m) f (events m).
Definition emit (m : Machine) (e : Event) : Machine :=
  mkMachine (pmm m) (frames m) (events m ++ [e]).

Definition with_buddy (m : Machine) (b : Buddy.BuddySystem) : Machine :=
  with_pmm m (mkPmm b (pa_start (pmm m)) (page_count (pmm m)) (k_page_refcounts (pmm m))).
Definition with_refs (m : Machine) (r : list Z) : Machine :=
  with_pmm m (mkPmm (_buddy (pmm m)) (pa_start (pmm m)) (page_count (pmm m)) r).

(** [_buddy->Free(index)] *)
Definition buddy_free (m : Machine) (index : Z) : outcome Machine :=
  let! b := Buddy.Free (_buddy (pmm m)) (i32 index) in
  Ret (emit (with_buddy m b) (BuddyFree index)).

(** ** Page numbers *)

Definition page_words : nat := 512.
Definition zero_frame : list Z := replicate page_words 0.
Definition UINT16_MAX : Z := 65535.

Definition page_index_in_range (m : Machine) (page_index : Z) : bool :=
  page_index <? page_count (pmm m).

Definition pa2pgnm (m : Machine) (pa : Z) : outcome Z :=
  if negb (pa mod PGSIZE =? 0) then Panic else Ret (u64 (pa - pa_start (pmm m)) / PGSIZE).

Definition pgnm2pa (m : Machine) (pgnm : Z) : Z :=
  u64 (u64 (u64 pgnm * PGSIZE) + pa_start (pmm m)).

Definition size_to_page_num (size : Z) : Z :=
  i32 (size / PGSIZE + (if size mod PGSIZE =? 0 then 0 else 1)).

Definition is_managed_page (m : Machine) (pa : Z) : bool :=
  let p := pmm m in
  if (pa <? pa_start p) || (u64 (pa_start p + page_count p * PGSIZE) <=? pa) then false
  else if negb (pa mod PGSIZE =? 0) then false
  else u64 (pa - pa_start p) / PGSIZE <? page_count p.

(** [memset(pa, 0, n * PGSIZE)] *)
Fixpoint clear_frames (n : nat) (pa : Z) (f : gmap Z (list Z)) : gmap Z (list Z) :=
  match n with
  | O => f
  | S n' => clear_frames n' (pa + PGSIZE) (<[pa := zero_frame]> f)
  end.

Definition clear_page (m : Machine) (pa : Z) : Machine :=
  with_frames m (<[pa := zero_frame]> (frames m)).

(** [memmove(dst, src, PGSIZE)] between two frames *)
Definition copy_page (m : Machine) (dst src : Z) : outcome Machine :=
  match frames m !! src with
  | Some ws => Ret (with_frames m (<[dst := ws]> (frames m)))
  | None => Fault
  end.

(** ** Allocation *)

Definition try_alloc_page_impl (m : Machine) (clear : bool) : outcome (Machine * Z) :=
  let! (x, b) := Buddy.Alloc (_buddy (pmm m)) 0 in
  let m := with_buddy m b in
  if x =? -1 then Ret (m, nullptr) else
  if negb (page_index_in_range m (u64 x)) then Panic else
  let pa := pgnm2pa m x in
  let! r := aget (k_page_refcounts (pmm m)) x in
  if negb (r =? 0) then Panic else
  let! rs := aset (k_page_refcounts (pmm m)) x 1 in
  let m := with_refs m rs in
  Ret (if clear then clear_page m pa else m, pa).

Definition try_alloc_page (m : Machine) : outcome (Machine * Z) := try_alloc_page_impl m true.

Definition try_alloc_page_uninitialized (m : Machine) : outcome (Machine * Z) :=
  try_alloc_page_impl m false.

Definition alloc_page (m : Machine) : outcome (Machine * Z) :=
  let! (m, pa) := try_alloc_page m in
  if pa =? nullptr then Panic else Ret (m, pa).

(** The loops over a block: every page must have the reference count [expected]
    and gets [value]. *)
Definition set_block_refs (m : Machine) (page_index block_pages expected value : Z) : outcome Machine :=
  let! rs := for_up (λ offset rs,
      let index := u32 (u32 page_index + offset) in
      if page_count (pmm m) <=? index then Panic else
      let! r := aget rs index in
      if negb (r =? expected) then Panic else aset rs index value)
    0 block_pages (k_page_refcounts (pmm m)) in
  Ret (with_refs m rs).

(** The check and the references of a block that [Alloc] just returned. *)
Definition claim_block (m : Machine) (page_index : Z) : outcome Machine :=
  let! block := Buddy.query_page (_buddy (pmm m)) (u32 page_index) in
  if negb (Buddy.in_range block) || Buddy.is_free block
     || negb (Buddy.block_offset block =? u32 page_index)
  then Panic
  else set_block_refs m page_index (Buddy.block_pages block) 0 1.

Definition try_alloc_pages (m : Machine) (count : Z) : outcome (Machine * Z) :=
  if count <=? 0 then Ret (m, nullptr) else
  let! (page_index, b) := Buddy.Alloc (_buddy (pmm m)) count in
  let m := with_buddy m b in
  let! m := (if 0 <=? page_index then claim_block m page_index else Ret m) in
  if page_index <? 0 then Ret (m, nullptr) else
  if negb (page_index_in_range m (u64 page_index)) then Panic else
  let pa := pgnm2pa m page_index in
  Ret (with_frames m (clear_frames (Z.to_nat count) pa (frames m)), pa).

Definition alloc_pages (m : Machine) (count : Z) : outcome (Machine * Z) :=
  let! (m, pa) := try_alloc_pages m count in
  if pa =? nullptr then Panic else Ret (m, pa).

Definition kmalloc_impl (m : Machine) (size : Z) (clear : bool) : outcome (Machine * Z) :=
  let page_num := size_to_page_num size in
  if page_count (pmm m) <? u32 page_num then Ret (m, 0) else
  let! (x, b) := Buddy.Alloc (_buddy (pmm m)) page_num in
  let m := with_buddy m b in
  let! m := (if 0 <=? x then claim_block m x else Ret m) in
  if x =? -1 then Ret (m, 0) else
  if (x <? 0) || (page_count (pmm m) <=? u32 x) then Ret (m, 0) else
  let pa := pgnm2pa m x in
  Ret (if clear then with_frames m (clear_frames (Z.to_nat page_num) pa (frames m)) else m, pa).

Definition kmalloc (m : Machine) (size : Z) : outcome (Machine * Z) := kmalloc_impl m size true.

Definition kmalloc_uninitialized (m : Machine) (size : Z) : outcome (Machine * Z) :=
  kmalloc_impl m size false.

Definition kcalloc (m : Machine) (n size : Z) : outcome (Machine * Z) := kmalloc m (u64 (n * size)).

(** ** Release *)

Definition free_page (m : Machine) (pa : Z) : outcome Machine :=
  let! page_index := pa2pgnm m pa in
  if negb (page_index_in_range m page_index) then Ret m else
  let! block := Buddy.query_page (_buddy (pmm m)) (u32 page_index) in
  if negb (Buddy.in_range block) || Buddy.is_free block then Panic else
  if 1 <? Buddy.block_pages block then
    if negb (Buddy.block_offset block =? page_index) then Panic else
    let! m := set_block_refs m page_index (Buddy.block_pages block) 1 0 in
    buddy_free m page_index
  else
    let! r := aget (k_page_refcounts (pmm m)) page_index in
    if 1 <? r then
      let! rs := aset (k_page_refcounts (pmm m)) page_index (u16 (r - 1)) in
      Ret (with_refs m rs)
    else
      let! rs := aset (k_page_refcounts (pmm m)) page_index 0 in
      buddy_free (with_refs m rs) page_index.

Definition free_pages (m : Machine) (pa : Z) : outcome Machine :=
  if pa =? nullptr then Ret m else
  if negb (pa mod PGSIZE =? 0) then Panic else
  let! page_index := pa2pgnm m pa in
  let! block := Buddy.query_page (_buddy (pmm m)) (u32 page_index) in
  if negb (Buddy.in_range block) || Buddy.is_free block
     || negb (Buddy.block_offset block =? page_index)
  then Panic else
  let! m := set_block_refs m page_index (Buddy.block_pages block) 1 0 in
  buddy_free m page_index.

(** ** Reference counts *)

Definition retain_page (m : Machine) (pa : Z) : outcome (Machine * bool) :=
  let! page_index := pa2pgnm m pa in
  if negb (page_index_in_range m page_index) then Ret (m, false) else
  let! r := aget (k_page_refcounts (pmm m)) page_index in
  if (r =? 0) || (r =? UINT16_MAX) then Ret (m, false) else
  let! rs := aset (k_page_refcounts (pmm m)) page_index (u16 (r + 1)) in
  Ret (with_refs m rs, true).

(** The loop of [retain_pages_batch]; [index] is the position in the batch. *)
Fixpoint retain_loop (pages : list Z) (index : Z) (m : Machine) (retained_mask : Z)
    : outcome (Machine * Z) :=
  match pages with
  | [] => Ret (m, retained_mask)
  | pa :: pages =>
      let! page_index := pa2pgnm m pa in
      if negb (page_index_in_range m page_index) then retain_loop pages (index + 1) m retained_mask else
      let! r := aget (k_page_refcounts (pmm m)) page_index in
      if (r =? 0) || (r =? UINT16_MAX) then retain_loop pages (index + 1) m retained_mask else
      let! rs := aset (k_page_refcounts (pmm m)) page_index (u16 (r + 1)) in
      retain_loop pages (index + 1) (with_refs m rs)
        (Z.lor retained_mask (u64 (Z.shiftl 1 index)))
  end.

Definition retain_pages_batch (m : Machine) (pages : list Z) : outcome (Machine * Z) :=
  if (length pages =? 0)%nat then Ret (m, 0) else
  if (64 <? length pages)%nat then Panic else
  retain_loop pages 0 m 0.

Fixpoint release_pages_batch (m : Machine) (pages : list Z) : outcome Machine :=
  match pages with
  | [] => Ret m
  | pa :: pages =>
      if pa =? nullptr then release_pages_batch m pages else
      let! page_index := pa2pgnm m pa in
      if negb (page_index_in_range m page_index) then release_pages_batch m pages else
      let! block := Buddy.query_page (_buddy (pmm m)) (u32 page_index) in
      if negb (Buddy.in_range block) || Buddy.is_free block then Panic else
      if negb (Buddy.block_pages block =? 1) || negb (Buddy.block_offset block =? page_index)
      then Panic else
      let! refcount := aget (k_page_refcounts (pmm m)) page_index in
      if refcount =? 0 then Panic else
      if 1 <? refcount then
        let! rs := aset (k_page_refcounts (pmm m)) page_index (u16 (refcount - 1)) in
        release_pages_batch (with_refs m rs) pages
      else
        let! rs := aset (k_page_refcounts (pmm m)) page_index 0 in
        let! m := buddy_free (with_refs m rs) page_index in
        release_pages_batch m pages
  end.

Definition page_ref_count (m : Machine) (pa : Z) : outcome Z :=
  let! page_index := pa2pgnm m pa in
  if negb (page_index_in_range m page_index) then Ret 0
  else aget (k_page_refcounts (pmm m)) page_index.

Definition get_free_page_count (m : Machine) : Z := Buddy.get_free_page_count (_buddy (pmm m)).

End Pmm.
