(* ===== verification/PmmSpec.v ===== *)
(** * What the physical memory manager guarantees

    The manager seen by address: which pages it manages, the reference count of
    each, and which pages are blocks of their own.  [PmmOk] is its invariant: a
    page has references exactly if the buddy allocator counts it as allocated. *)
From S2P Require Import Prelude Page Buddy BuddySpec PageAlloc BuddyCorrect Pmm.
Import Page BuddySpec BuddyCorrect Pmm.

Module PmmSpec.

(** ** The view by address *)

Definition managed (m : Machine) (a : Z) : Prop :=
  page_aligned a ∧ pa_start (pmm m) ≤ a < pa_start (pmm m) + page_count (pmm m) * PGSIZE.

#[export] Instance managed_dec m a : Decision (managed m a).
Proof. unfold managed, page_aligned. apply _. Defined.

Definition index_of (m : Machine) (a : Z) : Z := (a - pa_start (pmm m)) / PGSIZE.
Definition addr_of (m : Machine) (i : Z) : Z := pa_start (pmm m) + i * PGSIZE.

Definition ref (m : Machine) (i : Z) : Z := k_page_refcounts (pmm m) !!! Z.to_nat i.
Definition rc (m : Machine) (a : Z) : Z := if decide (managed m a) then ref m (index_of m a) else 0.

Definition blocks_of (m : Machine) : list (Z * Z) := allocated (_buddy (pmm m)).
Definition covered (m : Machine) (i : Z) : Prop := ∃ o n, (o, n) ∈ blocks_of m ∧ o ≤ i < o + n.

(** A managed page that was allocated on its own. *)
Definition single (m : Machine) (a : Z) : Prop := managed m a ∧ (index_of m a, 1) ∈ blocks_of m.

#[export] Instance single_dec m a : Decision (single m a).
Proof. unfold single. apply _. Defined.

Record PmmOk (m : Machine) : Prop := {
  ok_buddy : BuddyCorrect.Inv (_buddy (pmm m));
  ok_count : page_count (pmm m) = Buddy.page_count (_buddy (pmm m));
  ok_base : page_aligned (pa_start (pmm m)) ∧ 0 < pa_start (pmm m) ∧
    pa_start (pmm m) + page_count (pmm m) * PGSIZE ≤ 2 ^ 48;
  ok_length : Z.of_nat (length (k_page_refcounts (pmm m))) = page_count (pmm m);
  ok_refs : ∀ i, 0 ≤ i < page_count (pmm m) →
    0 ≤ ref m i ≤ UINT16_MAX ∧ (0 < ref m i ↔ covered m i);
  ok_frames : ∀ a, managed m a → ∃ ws, frames m !! a = Some ws ∧ length ws = page_words
}.

(** The managed range is fixed. *)
Definition same_layout (m m' : Machine) : Prop :=
  pa_start (pmm m') = pa_start (pmm m) ∧ page_count (pmm m') = page_count (pmm m).

#[export] Instance same_layout_equiv : Equivalence same_layout.
Proof.
  split; [done|intros ?? [??]; split; congruence|].
  intros ??? [??] [??]. split; congruence.
Qed.

Lemma managed_layout m m' a : same_layout m m' → managed m' a ↔ managed m a.
Proof. intros [E1 E2]. unfold managed. by rewrite E1, E2. Qed.

Lemma index_of_layout m m' a : same_layout m m' → index_of m' a = index_of m a.
Proof. intros [E1 _]. unfold index_of. by rewrite E1. Qed.

(** ** Addresses and indices *)

Lemma page_count_bound m : PmmOk m → 0 < page_count (pmm m) ≤ 2 ^ 29.
Proof.
  intros HO. rewrite (ok_count _ HO). pose proof (ok_buddy _ HO) as (Hb & Hpc & _).
  pose proof (capacity_bound _ Hb). lia.
Qed.

Lemma managed_index m a : managed m a → page_aligned (pa_start (pmm m)) →
  0 ≤ index_of m a < page_count (pmm m) ∧ a = addr_of m (index_of m a).
Proof.
  unfold managed, page_aligned, index_of, addr_of, PGSIZE. intros (Ha & Hlo & Hhi) Hs.
  apply Z.mod_divide in Ha as [x ->]; [|done]. apply Z.mod_divide in Hs as [y Hs]; [|done].
  rewrite Hs in *. rewrite <- Z.mul_sub_distr_r, Z.div_mul by done. lia.
Qed.

Lemma index_of_addr m i : index_of m (addr_of m i) = i.
Proof.
  unfold index_of, addr_of. replace (_ + i * PGSIZE - _) with (i * PGSIZE) by lia.
  by apply Z.div_mul.
Qed.

Lemma addr_managed m i : page_aligned (pa_start (pmm m)) → 0 ≤ i < page_count (pmm m) →
  managed m (addr_of m i).
Proof.
  unfold managed, page_aligned, addr_of, PGSIZE. intros Hs Hi. split; [|lia].
  rewrite Z.add_mod, Z_mod_mult, Hs by done. done.
Qed.

Lemma managed_range m a : PmmOk m → managed m a → 0 < a ∧ a + PGSIZE ≤ 2 ^ 48 ∧ page_aligned a.
Proof.
  intros HO Ha. destruct (ok_base _ HO) as (Hs & H0 & H48).
  destruct (managed_index m a Ha Hs) as [Hi Ea]. destruct Ha as (Ha & Hlo & Hhi).
  split_and!; [lia| |done]. rewrite Ea in *. unfold addr_of, PGSIZE in *. lia.
Qed.

Lemma pa2pgnm_managed m a : PmmOk m → managed m a → pa2pgnm m a = Ret (index_of m a).
Proof.
  intros HO Ha. destruct (managed_range m a HO Ha) as (H0 & H48 & Hal).
  pose proof (proj1 (proj2 Ha)). destruct (ok_base _ HO) as (_ & Hs0 & _).
  unfold pa2pgnm. unfold page_aligned in Hal. rewrite Hal, Z.eqb_refl. cbn [negb].
  unfold PGSIZE in *. by rewrite u64_small by lia.
Qed.

(** An aligned address outside the managed range has a page number outside the
    table. *)
Lemma pa2pgnm_unmanaged m a : PmmOk m → page_aligned a → 0 ≤ a < 2 ^ 64 → ¬ managed m a →
  ∃ i, pa2pgnm m a = Ret i ∧ page_index_in_range m i = false.
Proof.
  intros HO Hal Ha Hno. destruct (ok_base _ HO) as (Hs & H0 & H48).
  pose proof (page_count_bound m HO) as Hpc. unfold pa2pgnm, page_index_in_range.
  unfold page_aligned in Hal. rewrite Hal, Z.eqb_refl. cbn [negb]. eexists. split; [done|].
  apply Z.ltb_ge. unfold PGSIZE in *. apply Z.div_le_lower_bound; [done|].
  destruct (Z.lt_ge_cases a (pa_start (pmm m))) as [Hlt|Hge].
  - unfold u64. rewrite <- (Z.mod_add _ 1), Z.mod_small by lia. lia.
  - rewrite u64_small by lia.
    destruct (Z.lt_ge_cases a (pa_start (pmm m) + page_count (pmm m) * 4096)); [|lia].
    destruct Hno. split; [done|]. unfold PGSIZE. lia.
Qed.

Lemma pgnm2pa_index m i : PmmOk m → 0 ≤ i < page_count (pmm m) → pgnm2pa m i = addr_of m i.
Proof.
  intros HO Hi. destruct (ok_base _ HO) as (Hs & H0 & H48). pose proof (page_count_bound m HO).
  unfold pgnm2pa, addr_of, PGSIZE in *. rewrite (u64_small i), (u64_small (i * 4096)), u64_small by lia. lia.
Qed.

Lemma is_managed_page_spec m a : PmmOk m → 0 ≤ a < 2 ^ 64 →
  is_managed_page m a = bool_decide (managed m a).
Proof.
  intros HO Ha. destruct (ok_base _ HO) as (Hs & H0 & H48). unfold is_managed_page.
  pose proof (page_count_bound m HO).
  rewrite (u64_small (_ + _)) by (unfold PGSIZE in *; lia).
  destruct (Z.ltb_spec a (pa_start (pmm m))) as [Hlt|Hge]; cbn [orb].
  { symmetry. apply bool_decide_eq_false. intros (_ & ? & _). lia. }
  destruct (Z.leb_spec (pa_start (pmm m) + page_count (pmm m) * PGSIZE) a) as [Hle|Hgt].
  { symmetry. apply bool_decide_eq_false. intros (_ & _ & ?). lia. }
  destruct (Z.eqb_spec (a mod PGSIZE) 0) as [Hal|Hal]; cbn [negb].
  - assert (managed m a) as Hm by (split; [done|lia]). rewrite bool_decide_eq_true_2 by done.
    rewrite u64_small by lia. destruct (managed_index m a Hm Hs) as [Hi _].
    apply Z.ltb_lt. unfold index_of in Hi. lia.
  - symmetry. apply bool_decide_eq_false. by intros [? _].
Qed.

Lemma in_range_managed m a : PmmOk m → managed m a → page_index_in_range m (index_of m a) = true.
Proof.
  intros HO Ha. destruct (managed_index m a Ha (proj1 (ok_base _ HO))).
  apply Z.ltb_lt. lia.
Qed.

Lemma rc_managed m a : managed m a → rc m a = ref m (index_of m a).
Proof. intros Ha. unfold rc. by rewrite decide_True. Qed.

Lemma rc_unmanaged m a : ¬ managed m a → rc m a = 0.
Proof. intros Ha. unfold rc. by rewrite decide_False. Qed.

Lemma rc_range m a : PmmOk m → 0 ≤ rc m a ≤ UINT16_MAX.
Proof.
  intros HO. destruct (decide (managed m a)) as [Ha|Ha].
  - rewrite rc_managed by done. apply (ok_refs _ HO).
    by apply (managed_index m a Ha (proj1 (ok_base _ HO))).
  - rewrite rc_unmanaged by done. unfold UINT16_MAX. lia.
Qed.

Lemma get_ref m a : PmmOk m → managed m a →
  aget (k_page_refcounts (pmm m)) (index_of m a) = Ret (rc m a).
Proof.
  intros HO Ha. destruct (managed_index m a Ha (proj1 (ok_base _ HO))) as [Hi _].
  rewrite rc_managed by done. apply aget_total. rewrite (ok_length _ HO). lia.
Qed.

Lemma set_ref m a v : PmmOk m → managed m a →
  aset (k_page_refcounts (pmm m)) (index_of m a) v =
  Ret (<[Z.to_nat (index_of m a) := v]> (k_page_refcounts (pmm m))).
Proof.
  intros HO Ha. destruct (managed_index m a Ha (proj1 (ok_base _ HO))) as [Hi _].
  apply aset_in_range. rewrite (ok_length _ HO). lia.
Qed.

(** ** Blocks and counts *)

Lemma block_unique m o n o' n' i : PmmOk m →
  (o, n) ∈ blocks_of m → (o', n') ∈ blocks_of m → o ≤ i < o + n → o' ≤ i < o' + n' → (o, n) = (o', n').
Proof.
  intros HO H1 H2 Hi Hi'.
  eapply (before_unique _ _ _ i); [apply allocated_sorted, (ok_buddy _ HO)|done..].
Qed.

Lemma block_range m o n : PmmOk m → (o, n) ∈ blocks_of m → 0 ≤ o ∧ 0 < n ∧ o + n ≤ page_count (pmm m).
Proof. intros HO Hb. rewrite (ok_count _ HO). eapply allocated_range, Hb. apply (ok_buddy _ HO). Qed.

Lemma rc_covered m a : PmmOk m → managed m a → 0 < rc m a ↔ covered m (index_of m a).
Proof.
  intros HO Ha. rewrite rc_managed by done. apply (ok_refs _ HO).
  by apply (managed_index m a Ha (proj1 (ok_base _ HO))).
Qed.

Lemma single_rc m a : PmmOk m → single m a → 0 < rc m a.
Proof.
  intros HO [Ha Hb]. apply rc_covered; [done..|]. exists (index_of m a), 1. split; [done|]. lia.
Qed.

Lemma rc_pos_managed m a : 0 < rc m a → managed m a.
Proof. unfold rc. by destruct (decide (managed m a)). Qed.

(** What the buddy allocator reports about a managed page. *)
Lemma query_managed m a : PmmOk m → managed m a →
  ∃ q, Buddy.query_page (_buddy (pmm m)) (u32 (index_of m a)) = Ret q ∧ Buddy.in_range q = true ∧
    if Buddy.is_free q then rc m a = 0
    else (Buddy.block_offset q, Buddy.block_pages q) ∈ blocks_of m ∧ 0 < rc m a ∧
      Buddy.block_offset q ≤ index_of m a < Buddy.block_offset q + Buddy.block_pages q.
Proof.
  intros HO Ha. destruct (managed_index m a Ha (proj1 (ok_base _ HO))) as [Hi _].
  pose proof (page_count_bound m HO). rewrite u32_small by lia. rewrite (ok_count _ HO) in Hi.
  destruct (query_root _ (index_of m a) (ok_buddy _ HO) Hi) as (q & Hq & _).
  destruct (query_block _ _ q (ok_buddy _ HO) Hi Hq) as [Hr Hb]. exists q. split_and!; [done..|].
  destruct (Buddy.is_free q).
  - pose proof (rc_range m a HO). destruct (decide (rc m a = 0)) as [|Hne]; [done|].
    destruct (proj1 (rc_covered m a HO Ha)) as (o & n & Hin & Hon); [lia|]. by destruct (Hb o n Hin).
  - destruct Hb as [Hin Hon]. split_and!; [done| |lia..].
    apply rc_covered; [done..|]. by exists (Buddy.block_offset q), (Buddy.block_pages q).
Qed.

Lemma query_single m a : PmmOk m → single m a →
  ∃ q, Buddy.query_page (_buddy (pmm m)) (u32 (index_of m a)) = Ret q ∧ Buddy.in_range q = true ∧
    Buddy.is_free q = false ∧ Buddy.block_offset q = index_of m a ∧ Buddy.block_pages q = 1.
Proof.
  intros HO [Ha Hb]. destruct (query_managed m a HO Ha) as (q & Hq & Hr & Hf). exists q.
  pose proof (single_rc m a HO (conj Ha Hb)).
  destruct (Buddy.is_free q); [lia|]. destruct Hf as (Hin & _ & Hon).
  assert ((Buddy.block_offset q, Buddy.block_pages q) = (index_of m a, 1)) as [= E1 E2]
    by (eapply block_unique; [done..|lia]). done.
Qed.

(** ** Updates of one count *)

(** The reference count of [a] becomes [v], every other one stays. *)
Record SetRc (m m' : Machine) (a v : Z) : Prop := {
  sr_ok : PmmOk m';
  sr_layout : same_layout m m';
  sr_rc : ∀ x, rc m' x = if decide (x = a) then v else rc m x
}.

Lemma ref_insert m a v b i f ev : PmmOk m → managed m a → 0 ≤ i < page_count (pmm m) →
  ref (mkMachine (mkPmm b (pa_start (pmm m)) (page_count (pmm m))
    (<[Z.to_nat (index_of m a) := v]> (k_page_refcounts (pmm m)))) f ev) i =
  if decide (i = index_of m a) then v else ref m i.
Proof.
  intros HO Ha Hi. destruct (managed_index m a Ha (proj1 (ok_base _ HO))) as [Hia _].
  unfold ref. cbn. destruct (decide (i = index_of m a)) as [->|Hne].
  - apply lookup_total_aset_eq. rewrite (ok_length _ HO). lia.
  - apply lookup_total_aset_ne; lia.
Qed.

(** A new state of the buddy allocator and a new count of one page fit together
    if the new count is positive exactly if the page is in a block now, and every
    other page is as before. *)
Lemma SetRc_intro m a v b f :
  PmmOk m → managed m a → 0 ≤ v ≤ UINT16_MAX →
  BuddyCorrect.Inv b → Buddy.page_count b = page_count (pmm m) →
  (∀ x, managed m x → ∃ ws, f !! x = Some ws ∧ length ws = page_words) →
  (∀ i, 0 ≤ i < page_count (pmm m) →
    (∃ o n, (o, n) ∈ allocated b ∧ o ≤ i < o + n) ↔
    if decide (i = index_of m a) then 0 < v else covered m i) →
  ∀ ev, SetRc m (mkMachine (mkPmm b (pa_start (pmm m)) (page_count (pmm m))
    (<[Z.to_nat (index_of m a) := v]> (k_page_refcounts (pmm m)))) f ev) a v.
Proof.
  intros HO Ha Hv Hb Hpc Hf Hcov ev.
  destruct (managed_index m a Ha (proj1 (ok_base _ HO))) as [Hia Ea].
  split; [|done|].
  - split; cbn [pmm _buddy page_count pa_start k_page_refcounts frames]; [done|done|apply HO| |..|exact Hf].
    + by rewrite length_insert, (ok_length _ HO).
    + intros i Hi. rewrite (ref_insert m a v b i f ev) by done. specialize (Hcov i Hi).
      unfold covered, blocks_of in *. cbn. rewrite Hcov.
      destruct (decide (i = index_of m a)); [done|]. by apply (ok_refs _ HO).
  - intros x. unfold rc at 1. destruct (decide (managed _ x)) as [Hx|Hx].
    + change (managed m x) in Hx. destruct (managed_index m x Hx (proj1 (ok_base _ HO))) as [Hix Ex].
      change (index_of _ x) with (index_of m x). rewrite (ref_insert m a v b _ f ev) by done.
      destruct (decide (x = a)) as [->|Hxa]; [by rewrite decide_True|].
      rewrite decide_False by congruence. by rewrite rc_managed.
    + change (¬ managed m x) in Hx. rewrite decide_False by (by intros ->). by rewrite rc_unmanaged.
Qed.

(** ** Allocating a page *)

(** Page [pa], unreferenced before, is allocated with one reference. *)
Record Fresh (m m' : Machine) (pa : Z) : Prop := {
  fr_set : SetRc m m' pa 1;
  fr_managed : managed m pa;
  fr_unused : rc m pa = 0;
  fr_single : ∀ a, single m' a ↔ a = pa ∨ single m a;
  fr_events : events m' = events m
}.

(** A block the buddy allocator hands out is a new one, apart from all others; it
    refuses only if no aligned range is free. *)
Lemma Alloc_blocks b size : BuddyCorrect.Inv b → - 2 ^ 31 ≤ size < 2 ^ 31 →
  (Buddy.Alloc b size = Ret (-1, b) ∧ PageAlloc.exhausted (Buddy.page_count b) (block_map b) size) ∨
  ∃ o b', Buddy.Alloc b size = Ret (o, b') ∧ BuddyCorrect.Inv b' ∧
    Buddy.page_count b' = Buddy.page_count b ∧ Buddy.base_ptr b' = Buddy.base_ptr b ∧
    0 ≤ o ∧ o + pages_for size ≤ Buddy.page_count b ∧
    allocated b' ≡ₚ (o, pages_for size) :: allocated b ∧
    (∀ o' n', (o', n') ∈ allocated b → o + pages_for size ≤ o' ∨ o' + n' ≤ o).
Proof.
  intros Hi Hs. destruct (Alloc_spec b size Hi Hs) as (mx & Em & Ha).
  rewrite max_free_root in Em by done. simplify_eq.
  destruct (Z.ltb_spec (lmax (height b) (root b)) (pages_for size)); [left; auto using exhausted_max|right].
  destruct Ha as (o & b' & E & Hi' & Ho & Hlim & _ & Hperm & _ & Hpc & Hbase).
  exists o, b'. split_and!; try done. intros o' n' Hin.
  assert ((o', n') ∈ allocated b') as Hin' by (rewrite Hperm; set_solver).
  assert ((o, pages_for size) ∈ allocated b') as Hnew by (rewrite Hperm; set_solver).
  pose proof (allocated_range _ _ _ Hi Hin). pose proof (allocated_range _ _ _ Hi' Hnew).
  destruct (decide (o + pages_for size ≤ o' ∨ o' + n' ≤ o)) as [|Hno]; [done|].
  pose proof (allocated_NoDup b' Hi') as Hnd. rewrite Hperm in Hnd. apply NoDup_cons in Hnd as [Hnd _].
  destruct Hnd. assert ((o, pages_for size) = (o', n')) as [= -> _].
  { eapply (before_unique _ _ _ (Z.max o o')); [by apply allocated_sorted|done..| |]; simpl; lia. }
  apply list_elem_of_fmap. by exists (o', n').
Qed.

(** The state after a page that the buddy allocator returned got its count. *)
Lemma Fresh_intro m b o f :
  PmmOk m → BuddyCorrect.Inv b → Buddy.page_count b = page_count (pmm m) →
  0 ≤ o < page_count (pmm m) → allocated b ≡ₚ (o, 1) :: blocks_of m →
  (∀ o' n', (o', n') ∈ blocks_of m → o + 1 ≤ o' ∨ o' + n' ≤ o) →
  (∀ x, managed m x → ∃ ws, f !! x = Some ws ∧ length ws = page_words) →
  Fresh m (mkMachine (mkPmm b (pa_start (pmm m)) (page_count (pmm m))
    (<[Z.to_nat o := 1]> (k_page_refcounts (pmm m)))) f (events m)) (addr_of m o).
Proof.
  intros HO Hb Hbpc Ho Hperm Hnew Hf. set (pa := addr_of m o).
  assert (managed m pa) as Hm by (by apply addr_managed; [apply HO|]).
  assert (index_of m pa = o) as Ei by apply index_of_addr. rewrite <- Ei in Hperm, Hnew |- *.
  split; [|done| | |done].
  - apply SetRc_intro; [done|done|unfold UINT16_MAX; lia|done..|].
    intros i Hi. setoid_rewrite Hperm. unfold covered.
    destruct (decide (i = index_of m pa)) as [->|Hne].
    + split; [lia|]. intros _. exists (index_of m pa), 1. split; [by left|lia].
    + split; [|intros (o' & n' & Hin & Hon); exists o', n'; split; [by right|done]].
      intros (o' & n' & [[= -> ->]|Hin]%elem_of_cons & Hon); [lia|eauto].
  - pose proof (rc_range m pa HO). destruct (decide (rc m pa = 0)); [done|].
    destruct (proj1 (rc_covered m pa HO Hm)) as (o' & n' & Hin & Hon); [lia|].
    destruct (Hnew o' n' Hin); lia.
  - intros a. unfold single at 1, blocks_of at 1. cbn [pmm _buddy].
    change (managed (mkMachine _ f _) a) with (managed m a).
    change (index_of (mkMachine _ f _) a) with (index_of m a). rewrite Hperm, elem_of_cons.
    split; [intros (Hma & [[= Eq]|Hin]); [left|by right]|].
    + apply (managed_index m a) in Hma; [|apply HO]. destruct Hma as [_ ->]. by rewrite Eq, Ei.
    + intros [->|[? ?]]; [split; [done|by left]|split; [done|by right]].
Qed.

Lemma try_alloc_spec m clear : PmmOk m →
  ∃ m' pa, try_alloc_page_impl m clear = Ret (m', pa) ∧
    ((pa = nullptr ∧ m' = m ∧ ∀ a, managed m a → 0 < rc m a) ∨
     (Fresh m m' pa ∧ frames m' = if clear then <[pa := zero_frame]> (frames m) else frames m)).
Proof.
  intros HO. pose proof (page_count_bound m HO) as Hpc.
  destruct (Alloc_blocks (_buddy (pmm m)) 0 (ok_buddy _ HO) ltac:(lia)) as [[E Hx]|Hal].
  - unfold try_alloc_page_impl. rewrite E. cbn [obind]. rewrite Z.eqb_refl.
    eexists _, _. split; [done|]. left. split_and!; [done|by destruct m as [[]]|].
    intros a Ha. destruct (managed_index m a Ha (proj1 (ok_base _ HO))) as [Hi _].
    pose proof (rc_range m a HO). destruct (decide (rc m a = 0)) as [E0|]; [|lia].
    destruct (Hx 0 (index_of m a)); [done|lia|lia|apply Z.divide_1_l|rewrite <- (ok_count _ HO); lia|].
    intros o n Hin%block_map_lookup [??]; [|apply HO].
    assert (0 < rc m a); [|lia]. apply rc_covered; [done..|]. exists o, n. split; [done|lia].
  - destruct Hal as (o & b & E & Hb & Hbpc & _ & Ho & Hlim & Hperm & Hnew).
    change (pages_for 0) with 1 in *. rewrite <- (ok_count _ HO) in *.
    set (f := if clear then <[addr_of m o := zero_frame]> (frames m) else frames m).
    assert (Fresh m (mkMachine (mkPmm b (pa_start (pmm m)) (page_count (pmm m))
      (<[Z.to_nat o := 1]> (k_page_refcounts (pmm m)))) f (events m)) (addr_of m o)) as HF.
    { apply Fresh_intro; [done|done|done|lia|done|done|]. intros x Hx. unfold f.
      destruct clear; [|by apply (ok_frames _ HO)].
      destruct (decide (x = addr_of m o)) as [->|]; [exists zero_frame; by rewrite lookup_insert_eq|].
      rewrite lookup_insert_ne by done. by apply (ok_frames _ HO). }
    pose proof (get_ref m _ HO (fr_managed _ _ _ HF)) as Eg. rewrite index_of_addr, (fr_unused _ _ _ HF) in Eg.
    pose proof (set_ref m _ 1 HO (fr_managed _ _ _ HF)) as Es. rewrite index_of_addr in Es.
    unfold try_alloc_page_impl. rewrite E. cbn [obind]. rewrite (proj2 (Z.eqb_neq o (-1))) by lia.
    unfold page_index_in_range. cbn [with_buddy with_pmm pmm page_count k_page_refcounts].
    rewrite u64_small, (proj2 (Z.ltb_lt _ _)), Eg by lia. cbn [negb obind Z.eqb]. rewrite Es. cbn [obind].
    change (pgnm2pa (with_buddy m b) o) with (pgnm2pa m o). rewrite pgnm2pa_index by (done || lia).
    eexists _, _. split; [reflexivity|]. right. destruct clear; done.
Qed.

(** ** Retaining a page *)

(** A managed page gets one reference more, unless it has none or its counter is
    full; the address must be aligned. *)
Lemma retain_spec m a : PmmOk m → page_aligned a → 0 ≤ a < 2 ^ 64 →
  if bool_decide (0 < rc m a < UINT16_MAX)
  then ∃ m', retain_page m a = Ret (m', true) ∧ SetRc m m' a (rc m a + 1) ∧
    (∀ x, single m' x ↔ single m x) ∧ frames m' = frames m ∧ events m' = events m
  else retain_page m a = Ret (m, false).
Proof.
  intros HO Hal Ha. unfold retain_page. destruct (decide (managed m a)) as [Hm|Hm]; cycle 1.
  { rewrite rc_unmanaged by done. destruct (pa2pgnm_unmanaged m a HO Hal Ha Hm) as (i & -> & Hi).
    cbn [obind]. by rewrite Hi. }
  rewrite pa2pgnm_managed by done. cbn [obind]. rewrite in_range_managed, get_ref by done. cbn [obind negb].
  pose proof (rc_range m a HO). case_bool_decide as Hr.
  - destruct (Z.eqb_spec (rc m a) 0), (Z.eqb_spec (rc m a) UINT16_MAX); try lia. cbn [orb].
    rewrite set_ref by done. cbn [obind]. unfold UINT16_MAX in *. rewrite u16_small by lia.
    eexists. split; [reflexivity|]. split_and!; [|done..].
    apply SetRc_intro; [done|done|unfold UINT16_MAX; lia|apply HO|symmetry; apply HO|apply HO|].
    intros i Hi. destruct (decide (i = index_of m a)) as [->|]; [|done].
    pose proof (rc_covered m a HO Hm) as Hc. split; [lia|]. intros _. apply Hc. lia.
  - destruct (Z.eqb_spec (rc m a) 0), (Z.eqb_spec (rc m a) UINT16_MAX); try lia; done.
Qed.

(** ** Dropping a reference *)

(** One reference less; the last one gives the page back to the allocator. *)
Record Dropped (m m' : Machine) (a : Z) : Prop := {
  dr_set : SetRc m m' a (rc m a - 1);
  dr_single : ∀ x, single m' x ↔ single m x ∧ (x = a → 1 < rc m a);
  dr_frames : frames m' = frames m;
  dr_events : events m' = events m ++ (if 1 <? rc m a then [] else [BuddyFree (index_of m a)])
}.

(** The state after a page that is a block of its own was given back. *)
Lemma buddy_free_single m a : PmmOk m → single m a → rc m a = 1 →
  ∃ m', buddy_free (with_refs m (<[Z.to_nat (index_of m a) := 0]> (k_page_refcounts (pmm m))))
          (index_of m a) = Ret m' ∧ Dropped m m' a.
Proof.
  intros HO Hs E1. pose proof Hs as [Hm Hb]. pose proof (page_count_bound m HO).
  destruct (managed_index m a Hm (proj1 (ok_base _ HO))) as [Hi _].
  unfold buddy_free. rewrite i32_small by lia. cbn [with_refs with_pmm pmm _buddy].
  destruct (Free_spec (_buddy (pmm m)) (index_of m a) (ok_buddy _ HO) ltac:(lia))
    as [(n & b & Hin & -> & Hi' & Hperm & _ & Hpc & _)|[Hno _]]; [|by destruct (Hno 1)].
  assert ((index_of m a, n) = (index_of m a, 1)) as [= ->].
  { pose proof (block_range m _ _ HO Hin). eapply (block_unique m _ _ _ _ (index_of m a)); try done; lia. }
  assert (∀ o' n', (o', n') ∈ allocated b → ¬ o' ≤ index_of m a < o' + n') as Hout.
  { intros o' n' Hin' Hon. pose proof (allocated_NoDup _ (ok_buddy _ HO)) as Hnd. rewrite Hperm in Hnd.
    apply NoDup_cons in Hnd as [Hnd _]. destruct Hnd.
    assert ((o', n') = (index_of m a, 1)) as [= -> ->].
    { eapply block_unique; [done| |done|done|lia]. unfold blocks_of. rewrite Hperm. by right. }
    apply list_elem_of_fmap. by exists (index_of m a, 1). }
  eexists. split; [reflexivity|].
  split; [|..|done|by rewrite E1].
  - rewrite E1. refine (SetRc_intro m a 0 b (frames m) HO Hm _ Hi' _ (ok_frames _ HO) _ _);
      [unfold UINT16_MAX; lia|by rewrite Hpc, (ok_count _ HO)|].
    intros i Hir.
    destruct (decide (i = index_of m a)) as [->|Hne].
    + split; [|lia]. intros (o' & n' & Hin' & Hon). by destruct (Hout o' n').
    + unfold covered, blocks_of. setoid_rewrite Hperm.
      split; [intros (o' & n' & Hin' & Hon); exists o', n'; split; [by right|done]|].
      intros (o' & n' & [[= -> ->]|Hin']%elem_of_cons & Hon); [lia|eauto].
  - intros x. match goal with |- single ?m' x ↔ _ =>
      change (single m' x) with (managed m x ∧ (index_of m x, 1) ∈ allocated b) end.
    unfold single, blocks_of. rewrite Hperm, elem_of_cons.
    split; [|intros [[Hx [[= Eq]|?]] Hxa]; [|done]].
    + intros [Hx Hin']. split; [by auto|]. intros ->. destruct (Hout _ _ Hin'). lia.
    + destruct (managed_index m x Hx (proj1 (ok_base _ HO))) as [_ Ex].
      destruct (managed_index m a Hm (proj1 (ok_base _ HO))) as [_ Ea].
      assert (x = a) as -> by congruence. specialize (Hxa eq_refl). lia.
Qed.

(** A managed page that is not in use or is a block of its own: what the paths
    for single pages expect. *)
Definition single_or_free (m : Machine) (a : Z) : Prop := managed m a → rc m a = 0 ∨ single m a.

Lemma query_unused m a : PmmOk m → managed m a → rc m a = 0 →
  ∃ q, Buddy.query_page (_buddy (pmm m)) (u32 (index_of m a)) = Ret q ∧ Buddy.in_range q = true ∧
    Buddy.is_free q = true.
Proof.
  intros HO Hm E0. destruct (query_managed m a HO Hm) as (q & Hq & Hr & Hf). exists q.
  split_and!; [done..|]. destruct (Buddy.is_free q); [done|]. lia.
Qed.

(** [free_page] drops the reference of a page of its own, panics on a page not in
    use and ignores addresses it does not manage. *)
Lemma free_page_spec m a : PmmOk m → page_aligned a → 0 ≤ a < 2 ^ 64 → single_or_free m a →
  if decide (single m a) then ∃ m', free_page m a = Ret m' ∧ Dropped m m' a
  else free_page m a = if decide (managed m a) then Panic else Ret m.
Proof.
  intros HO Hal Ha Hsf. unfold free_page.
  destruct (decide (managed m a)) as [Hm|Hm]; cycle 1.
  { rewrite decide_False by (by intros [? _]).
    destruct (pa2pgnm_unmanaged m a HO Hal Ha Hm) as (i & -> & Hi). cbn [obind]. by rewrite Hi. }
  rewrite pa2pgnm_managed by done. cbn [obind]. rewrite in_range_managed by done. cbn [negb].
  destruct (decide (single m a)) as [Hs|Hs]; cycle 1.
  { destruct (Hsf Hm) as [E0|]; [|done]. destruct (query_unused m a HO Hm E0) as (q & Eq & Er & Ef).
    rewrite Eq. cbn [obind]. by rewrite Er, Ef. }
  destruct (query_single m a HO Hs) as (q & Eq & Er & Ef & Eo & Ep). rewrite Eq. cbn [obind].
  rewrite Er, Ef, Ep. cbn [negb orb Z.ltb Z.compare Pos.compare Pos.compare_cont].
  pose proof (single_rc m a HO Hs). pose proof (rc_range m a HO).
  rewrite get_ref by done. cbn [obind]. destruct (Z.ltb_spec 1 (rc m a)).
  - rewrite set_ref by done. cbn [obind]. unfold UINT16_MAX in *. rewrite u16_small by lia.
    eexists. split; [reflexivity|]. split; [|intros x|done|].
    + apply SetRc_intro; [done|done|unfold UINT16_MAX; lia|apply HO|symmetry; apply HO|apply HO|].
      intros i Hi. destruct (decide (i = index_of m a)) as [->|]; [|done].
      pose proof (rc_covered m a HO Hm) as Hc. split; [lia|]. intros _. apply Hc. lia.
    + change (single m x ↔ single m x ∧ (x = a → 1 < rc m a)). naive_solver.
    + rewrite (proj2 (Z.ltb_lt _ _)) by lia. by rewrite app_nil_r.
  - rewrite set_ref by done. cbn [obind]. apply buddy_free_single; [done..|lia].
Qed.

(** The batch release is the release of its pages one by one; null entries are
    skipped. *)
Fixpoint free_each (m : Machine) (pages : list Z) : outcome Machine :=
  match pages with
  | [] => Ret m
  | pa :: pages =>
      let! m := (if pa =? nullptr then Ret m else free_page m pa) in free_each m pages
  end.

Lemma single_or_free_dropped m m' a x : PmmOk m → Dropped m m' a → single m a →
  single_or_free m x → single_or_free m' x.
Proof.
  intros HO [[HO' Hly Hrc] Hsing _ _] Ha Hx Hm. rewrite (managed_layout m m') in Hm by done.
  rewrite Hrc, Hsing. destruct (decide (x = a)) as [->|Hne].
  - destruct (decide (rc m a = 1)); [left; lia|]. right. split; [done|]. intros _.
    pose proof (single_rc m a HO Ha). lia.
  - destruct (Hx Hm) as [?|?]; [by left|right]. by split.
Qed.

Lemma release_batch_eq pages : ∀ m, PmmOk m →
  Forall (λ a, page_aligned a ∧ 0 ≤ a < 2 ^ 64 ∧ single_or_free m a) pages →
  release_pages_batch m pages = free_each m pages.
Proof.
  induction pages as [|a pages IH]; intros m HO Hp; [done|]. cbn [release_pages_batch free_each].
  apply Forall_cons in Hp as [(Hal & Ha & Hsf) Hp].
  destruct (Z.eqb_spec a nullptr); [by apply IH|]. pose proof (free_page_spec m a HO Hal Ha Hsf) as Hfree.
  destruct (decide (managed m a)) as [Hm|Hm]; cycle 1.
  { rewrite decide_False in Hfree by (by intros [? _]). rewrite Hfree.
    destruct (pa2pgnm_unmanaged m a HO Hal Ha Hm) as (i & -> & Hi). cbn [obind]. rewrite Hi. by apply IH. }
  rewrite pa2pgnm_managed by done. cbn [obind]. rewrite in_range_managed by done. cbn [negb].
  destruct (decide (single m a)) as [Hs|Hs]; cycle 1.
  { rewrite Hfree. destruct (Hsf Hm) as [E0|]; [|done].
    destruct (query_unused m a HO Hm E0) as (q & Eq & Er & Ef).
    rewrite Eq. cbn [obind]. by rewrite Er, Ef. }
  destruct Hfree as (m' & E & HD). rewrite E. cbn [obind].
  assert (release_pages_batch m' pages = free_each m' pages) as HI.
  { apply IH; [apply HD|]. eapply Forall_impl; [exact Hp|]. cbn. intros x (? & ? & ?).
    split; [done|]. split; [done|]. by eapply single_or_free_dropped. }
  rewrite <- HI. clear HI IH. revert E. unfold free_page.
  rewrite pa2pgnm_managed by done. cbn [obind]. rewrite in_range_managed by done. cbn [negb].
  destruct (query_single m a HO Hs) as (q & Eq & Er & Ef & Eo & Ep). rewrite Eq. cbn [obind].
  rewrite Er, Ef, Ep, Eo. cbn [negb orb Z.ltb Z.compare Pos.compare Pos.compare_cont].
  rewrite !Z.eqb_refl, get_ref by done. cbn [obind negb orb Z.eqb Pos.eqb].
  pose proof (single_rc m a HO Hs). rewrite (proj2 (Z.eqb_neq (rc m a) 0)) by lia.
  destruct (Z.ltb_spec 1 (rc m a)); rewrite set_ref by done; cbn [obind].
  - by intros [= ->].
  - intros ->. done.
Qed.

(** ** Releasing a list of references *)

Record Released (m m' : Machine) (pages : list Z) : Prop := {
  rl_ok : PmmOk m';
  rl_layout : same_layout m m';
  rl_rc : ∀ x, managed m x → rc m' x = rc m x - occ x pages;
  rl_single : ∀ x, single m' x ↔ single m x ∧ 0 < rc m' x;
  rl_frames : frames m' = frames m;
  rl_events : ∃ ev, events m' = events m ++ ev ∧
    Forall (λ e, ∃ x, e = BuddyFree (index_of m x) ∧ x ∈ pages ∧ managed m x ∧ rc m' x = 0) ev
}.

(** The references to give back are there. *)
Definition releasable (m : Machine) (pages : list Z) : Prop :=
  ∀ x, managed m x → x ∈ pages → single m x ∧ occ x pages ≤ rc m x.

Lemma nullptr_unmanaged m : PmmOk m → ¬ managed m nullptr.
Proof. intros HO Hm. destruct (managed_range m _ HO Hm) as [H _]. unfold nullptr in H. lia. Qed.

Lemma Released_nil m : PmmOk m → Released m m [].
Proof.
  intros HO. split; [done|done| | |done|by exists []; rewrite app_nil_r].
  - intros x Hx. change (occ x []) with 0. lia.
  - intros x. split; [|by intros [? _]]. intros Hx. split; [done|]. by apply single_rc.
Qed.

Lemma Released_skip m m' a pages : ¬ managed m a → Released m m' pages → Released m m' (a :: pages).
Proof.
  intros Ha [HO Hl Hr Hs Hf (ev & Ee & He)]. split; [done..| |done|done|].
  - intros x Hx. rewrite occ_cons, decide_False by congruence. by apply Hr.
  - exists ev. split; [done|]. eapply Forall_impl; [exact He|]. cbn. intros e (x & ? & ? & ? & ?).
    exists x. split_and!; [done|by right|done..].
Qed.

Lemma Released_cons m m1 m' a pages : managed m a → Dropped m m1 a → Released m1 m' pages →
  Released m m' (a :: pages).
Proof.
  intros Hm [[HO1 Hl1 Hr1] Hs1 Hf1 He1] [HO Hl Hr Hs Hf (ev & Ee & He)].
  assert (∀ x, managed m1 x ↔ managed m x) as Hml by (intros; by apply managed_layout).
  split; [done|by rewrite Hl1| | |congruence|].
  - intros x Hx. rewrite Hr, Hr1, occ_cons by (by apply Hml). destruct (decide (x = a)); subst; lia.
  - intros x. rewrite Hs, Hs1. split; [intros [[? _] ?]; done|]. intros [Hx Hp]. split; [split; [done|]|done].
    intros ->. rewrite Hr, Hr1, decide_True in Hp by (done || by apply Hml). pose proof (occ_nonneg a pages). lia.
  - exists ((if 1 <? rc m a then [] else [BuddyFree (index_of m a)]) ++ ev). split.
    { by rewrite Ee, He1, <- app_assoc. }
    apply Forall_app. split.
    { destruct (Z.ltb_spec 1 (rc m a)); [constructor|]. repeat constructor. exists a. split_and!; [done|by left|done|].
      pose proof (rc_range m' a HO). pose proof (occ_nonneg a pages).
      rewrite Hr, Hr1, decide_True in * by (done || by apply Hml). lia. }
    eapply Forall_impl; [exact He|]. cbn. intros e (x & -> & ? & ? & ?). exists x.
    rewrite (index_of_layout m m1) by done. split_and!; [done|by right|by apply Hml|done].
Qed.

Lemma release_spec pages : ∀ m, PmmOk m → Forall (λ a, page_aligned a ∧ 0 ≤ a < 2 ^ 64) pages →
  releasable m pages → ∃ m', release_pages_batch m pages = Ret m' ∧ Released m m' pages.
Proof.
  intros m HO Hp Hr. rewrite release_batch_eq; [|done|]; cycle 1.
  { rewrite Forall_forall in Hp |- *. intros a Ha. destruct (Hp a Ha) as [??]. split; [done|]. split; [done|].
    intros Hm. right. by apply Hr. }
  revert m HO Hp Hr. induction pages as [|a pages IH]; intros m HO Hp Hr.
  { exists m. split; [done|]. by apply Released_nil. }
  apply Forall_cons in Hp as [[Hal Ha] Hp]. cbn [free_each].
  destruct (decide (managed m a)) as [Hm|Hm].
  - destruct (Hr a Hm ltac:(by left)) as [Hs Hocc].
    pose proof (free_page_spec m a HO Hal Ha ltac:(by intros ?; right)) as Hfree.
    rewrite decide_True in Hfree by done. destruct Hfree as (m1 & E & HD).
    rewrite (proj2 (Z.eqb_neq a nullptr)) by (intros ->; by apply (nullptr_unmanaged m)).
    rewrite E. cbn [obind]. destruct (IH m1) as (m' & E' & HR); [apply HD|done| |].
    + pose proof HD as [[HO1 Hl1 Hr1] Hs1 _ _]. intros x Hx Hin.
      rewrite (managed_layout m m1) in Hx by done.
      destruct (Hr x Hx ltac:(by right)) as [Hsx Hox]. rewrite occ_cons in Hox. rewrite Hr1, Hs1.
      pose proof (proj2 (occ_pos x pages) Hin).
      destruct (decide (x = a)) as [->|]; (split; [split; [done|]|lia]); [intros _; lia|done].
    + exists m'. split; [done|]. by eapply Released_cons.
  - assert ((if a =? nullptr then Ret m else free_page m a) = Ret m) as ->.
    { destruct (a =? nullptr); [done|]. pose proof (free_page_spec m a HO Hal Ha) as Hfree.
      rewrite decide_False in Hfree by (by intros [? _]). rewrite decide_False in Hfree by done.
      apply Hfree. by intros ?. }
    cbn [obind]. destruct (IH m HO Hp) as (m' & E & HR).
    + intros x Hx Hin. destruct (Hr x Hx ltac:(by right)) as [? Hox]. split; [done|].
      rewrite occ_cons, decide_False in Hox by congruence. lia.
    + exists m'. split; [done|]. by apply Released_skip.
Qed.

Lemma index_of_inj m a b : PmmOk m → managed m a → managed m b → index_of m a = index_of m b → a = b.
Proof.
  intros HO Ha Hb E. destruct (managed_index m a Ha (proj1 (ok_base _ HO))) as [_ ->].
  destruct (managed_index m b Hb (proj1 (ok_base _ HO))) as [_ ->]. by rewrite E.
Qed.

(** ** Unused pages *)

Definition free_count (m : Machine) : Z :=
  Z.of_nat (length (base.filter (λ i, ref m i = 0) (seqZ 0 (page_count (pmm m))))).

Lemma free_count_nonneg m : 0 ≤ free_count m.
Proof. unfold free_count. lia. Qed.

(** No page is unused if every one is counted. *)
Lemma free_count_full m : PmmOk m → (∀ a, managed m a → 0 < rc m a) → free_count m = 0.
Proof.
  intros HO Hall. unfold free_count. destruct (base.filter _ _) as [|i l] eqn:E; [done|].
  assert (i ∈ base.filter (λ i, ref m i = 0) (seqZ 0 (page_count (pmm m)))) as Hi by (rewrite E; by left).
  apply list_elem_of_filter in Hi as [E0 Hi%elem_of_seqZ].
  specialize (Hall (addr_of m i) ltac:(apply addr_managed; [apply HO|lia])).
  rewrite rc_managed, index_of_addr in Hall by (apply addr_managed; [apply HO|lia]). lia.
Qed.

Lemma ref_rc m i : PmmOk m → 0 ≤ i < page_count (pmm m) → ref m i = rc m (addr_of m i).
Proof. intros HO Hi. rewrite rc_managed, index_of_addr by (apply addr_managed; [apply HO|lia]). done. Qed.

Lemma free_count_fresh m m' pa : PmmOk m → Fresh m m' pa → free_count m = free_count m' + 1.
Proof.
  intros HO [[HO' Hl Hrc] Hm Hu _ _]. destruct (managed_index m pa Hm (proj1 (ok_base _ HO))) as [Hi Ea].
  assert (∀ i, 0 ≤ i < page_count (pmm m) → ref m' i = if decide (i = index_of m pa) then 1 else ref m i) as Hr.
  { intros i Hir. rewrite !ref_rc by (done || rewrite (proj2 Hl); lia). rewrite Hrc.
    assert (addr_of m' i = addr_of m i) as -> by (unfold addr_of; by rewrite (proj1 Hl)).
    destruct (decide (i = index_of m pa)) as [->|Hne]; [by rewrite <- Ea, decide_True|].
    rewrite decide_False; [done|]. intros <-. by rewrite index_of_addr in Hne. }
  assert (ref m (index_of m pa) = 0) as E0 by (by rewrite <- rc_managed).
  unfold free_count. rewrite (proj2 Hl).
  assert (∀ l, NoDup l → (∀ i, i ∈ l → 0 ≤ i < page_count (pmm m)) →
    Z.of_nat (length (base.filter (λ i, ref m i = 0) l)) =
    Z.of_nat (length (base.filter (λ i, ref m' i = 0) l)) + (if decide (index_of m pa ∈ l) then 1 else 0)) as Hl'.
  { induction l as [|x l IH]; intros Hnd Hin; [by rewrite decide_False by (by intros ?%not_elem_of_nil)|].
    apply NoDup_cons in Hnd as [Hx Hnd]. pose proof (Hr x (Hin x ltac:(by left))) as Hrx.
    specialize (IH Hnd ltac:(intros i Hi'; apply Hin; by right)). rewrite !filter_cons, Hrx.
    destruct (decide (x = index_of m pa)) as [->|Hne].
    - rewrite (decide_True (P := _ = 0)) by done. rewrite (decide_False (P := 1 = 0)) by done.
      rewrite (decide_True (P := _ ∈ _)) by (by left). rewrite decide_False in IH by done. cbn [length]. lia.
    - assert (index_of m pa ∈ x :: l ↔ index_of m pa ∈ l) as Hiff by (rewrite elem_of_cons; naive_solver).
      destruct (decide (index_of m pa ∈ l)), (decide (index_of m pa ∈ x :: l)); try tauto;
        destruct (decide (ref m x = 0)); cbn [length]; lia. }
  rewrite Hl'; [|apply NoDup_seqZ|intros i Hin%elem_of_seqZ; lia].
  rewrite decide_True by (apply elem_of_seqZ; lia). done.
Qed.

Lemma filter_iff_in {A} (P Q : A → Prop) `{∀ x, Decision (P x), ∀ x, Decision (Q x)} (l : list A) :
  (∀ x, x ∈ l → P x ↔ Q x) → base.filter P l = base.filter Q l.
Proof.
  induction l as [|x l IH]; intros Hl; [done|]. rewrite !filter_cons, IH by (intros; apply Hl; by right).
  specialize (Hl x ltac:(by left)). repeat case_decide; tauto || done.
Qed.

(** The number of unused pages depends on which counts are zero only. *)
Lemma free_count_same m m' : PmmOk m → PmmOk m' → same_layout m m' →
  (∀ a, managed m a → rc m' a = 0 ↔ rc m a = 0) → free_count m' = free_count m.
Proof.
  intros HO HO' Hl Hz. unfold free_count. rewrite (proj2 Hl). do 2 f_equal. apply filter_iff_in.
  intros i Hi%elem_of_seqZ. rewrite !ref_rc by (done || rewrite ?(proj2 Hl); lia).
  assert (addr_of m' i = addr_of m i) as -> by (unfold addr_of; by rewrite (proj1 Hl)).
  apply Hz, addr_managed; [apply HO|lia].
Qed.

End PmmSpec.

(** * Blocks of several pages in the physical memory manager

    [try_alloc_pages], [kmalloc] and [free_pages]: a block is claimed and released
    as a whole, every page of it with one reference. *)
Import Page BuddySpec BuddyCorrect Pmm PmmSpec.

Module PmmBlocks.

(** The counts [rs'] are [rs] with [v] for the pages of the block. *)
Definition filled (rs rs' : list Z) (o n v : Z) : Prop :=
  length rs' = length rs ∧
  ∀ i, 0 ≤ i < Z.of_nat (length rs) →
    rs' !!! Z.to_nat i = if decide (o ≤ i < o + n) then v else rs !!! Z.to_nat i.

Lemma set_block_refs_ok m o n e v : PmmOk m → 0 ≤ o → 0 < n → o + n ≤ page_count (pmm m) →
  (∀ i, o ≤ i < o + n → ref m i = e) →
  ∃ rs, set_block_refs m o n e v = Ret (with_refs m rs) ∧ filled (k_page_refcounts (pmm m)) rs o n v.
Proof.
  intros HO Ho Hn Hon He. pose proof (page_count_bound m HO). pose proof (ok_length _ HO) as HL.
  unfold set_block_refs. rewrite (u32_small o) by lia.
  match goal with |- context [for_up ?body 0 n ?rs0] =>
    destruct (for_up_inv body (λ j rs, filled (k_page_refcounts (pmm m)) rs o j v) 0 n rs0)
      as (rs & -> & Hrs) end; [lia| | |by exists rs].
  - split; [done|]. intros i Hi. by rewrite decide_False by lia.
  - intros j rs Hj [Hlen Hf]. cbn beta zeta. rewrite u32_small by lia.
    destruct (Z.leb_spec (page_count (pmm m)) (o + j)); [lia|].
    rewrite aget_total by lia. cbn [obind]. rewrite Hf, decide_False by lia.
    change (k_page_refcounts (pmm m) !!! Z.to_nat (o + j)) with (ref m (o + j)).
    rewrite He, Z.eqb_refl by lia. cbn [negb]. rewrite aset_in_range by lia. eexists. split; [done|].
    split; [by rewrite length_insert|]. intros i Hi. destruct (decide (i = o + j)) as [->|Hne].
    + rewrite lookup_total_aset_eq, decide_True by lia. done.
    + rewrite lookup_total_aset_ne, Hf by lia. repeat case_decide; lia || done.
Qed.

(** A page with another count stops the loop. *)
Lemma set_block_refs_panic m o n e v : PmmOk m → 0 ≤ o → o + n ≤ page_count (pmm m) →
  (∃ i, o ≤ i < o + n ∧ ref m i ≠ e) → set_block_refs m o n e v = Panic.
Proof.
  intros HO Ho Hon Hex. pose proof (page_count_bound m HO). pose proof (ok_length _ HO) as HL.
  assert (0 < n) by (destruct Hex as (? & ? & _); lia).
  unfold set_block_refs. rewrite (u32_small o) by lia. unfold for_up. rewrite Z.sub_0_r.
  match goal with |- context [for_iter ?body _ _ _] => assert (∀ k j rs, 0 ≤ j → j + Z.of_nat k ≤ n →
    length rs = length (k_page_refcounts (pmm m)) →
    (∀ i, o + j ≤ i < o + n → rs !!! Z.to_nat i = ref m i) →
    (∃ i, o + j ≤ i < o + j + Z.of_nat k ∧ ref m i ≠ e) → for_iter body k j rs = Panic) as Hloop end.
  { induction k as [|k IH]; intros j rs Hj Hjk Hlen Hrs (i & Hi & Hne); [lia|]. cbn [for_iter].
    rewrite u32_small by lia. destruct (Z.leb_spec (page_count (pmm m)) (o + j)); [lia|].
    rewrite aget_total by lia. cbn [obind]. rewrite Hrs by lia.
    destruct (Z.eqb_spec (ref m (o + j)) e) as [E|]; [|done]. cbn [negb].
    rewrite aset_in_range by lia. cbn [obind]. apply IH; [lia|lia|by rewrite length_insert| |].
    - intros i' Hi'. rewrite lookup_total_aset_ne by lia. apply Hrs. lia.
    - exists i. split; [|done]. destruct (decide (i = o + j)) as [->|]; [done|]. lia. }
  rewrite (Hloop (Z.to_nat n) 0); [done|lia|lia|done|done|].
  destruct Hex as (i & Hi & Hne). exists i. split; [lia|done].
Qed.

(** ** Allocation *)

(** The block of [n] pages at page [o] becomes allocated, each page with one
    reference. *)
Record FreshBlock (m m' : Machine) (o n : Z) : Prop := {
  fb_ok : PmmOk m';
  fb_layout : same_layout m m';
  fb_range : 0 ≤ o ∧ 0 < n ∧ o + n ≤ page_count (pmm m);
  fb_unused : ∀ i, o ≤ i < o + n → ref m i = 0;
  fb_filled : filled (k_page_refcounts (pmm m)) (k_page_refcounts (pmm m')) o n 1;
  fb_blocks : blocks_of m' ≡ₚ (o, n) :: blocks_of m;
  fb_events : events m' = events m
}.

Lemma ref_filled m rs o n v i : PmmOk m → filled (k_page_refcounts (pmm m)) rs o n v →
  0 ≤ i < page_count (pmm m) →
  rs !!! Z.to_nat i = if decide (o ≤ i < o + n) then v else ref m i.
Proof. intros HO [_ Hf] Hi. apply Hf. rewrite (ok_length _ HO). lia. Qed.

(** The check after an allocation finds the block [Alloc] returned. *)
Lemma claim_block_spec m b o n f : PmmOk m → BuddyCorrect.Inv b → Buddy.page_count b = page_count (pmm m) →
  0 ≤ o → 0 < n → o + n ≤ page_count (pmm m) → allocated b ≡ₚ (o, n) :: blocks_of m →
  (∀ o' n', (o', n') ∈ blocks_of m → o + n ≤ o' ∨ o' + n' ≤ o) → f = frames m →
  ∃ rs, claim_block (with_buddy m b) o = Ret (with_refs (with_buddy m b) rs) ∧
    FreshBlock m (with_refs (with_buddy m b) rs) o n.
Proof.
  intros HO Hb Hbpc Ho Hn Hon Hperm Hnew ->. pose proof (page_count_bound m HO).
  assert (∀ i, o ≤ i < o + n → ref m i = 0) as Hunused.
  { intros i Hi. destruct (ok_refs _ HO i ltac:(lia)) as [Hr Hc].
    destruct (decide (ref m i = 0)); [done|]. destruct (proj1 Hc) as (o' & n' & Hin & ?); [lia|].
    destruct (Hnew o' n' Hin); lia. }
  assert (∃ q, Buddy.query_page b o = Ret q ∧ Buddy.in_range q = true ∧ Buddy.is_free q = false ∧
    Buddy.block_offset q = o ∧ Buddy.block_pages q = n) as (q & Eq & Er & Ef & Eo & En).
  { destruct (query_root b o Hb ltac:(lia)) as (q & Hq & _). exists q.
    destruct (query_block b o q Hb ltac:(lia) Hq) as [Hr Hf].
    assert ((o, n) ∈ allocated b) as Hin by (rewrite Hperm; by left).
    destruct (Buddy.is_free q); [by destruct (Hf o n Hin); lia|]. destruct Hf as [Hin' Hon'].
    assert ((Buddy.block_offset q, Buddy.block_pages q) = (o, n)) as [= ? ?]; [|done].
    eapply (before_unique _ _ _ o); [by apply allocated_sorted|done..|simpl; lia]. }
  unfold claim_block. cbn [with_buddy with_pmm pmm _buddy]. rewrite u32_small by lia. rewrite Eq.
  cbn [obind]. rewrite Er, Ef, Eo, En, Z.eqb_refl. cbn [negb orb].
  destruct (set_block_refs_ok m o n 0 1 HO Ho Hn Hon Hunused) as (rs & E & Hfill).
  exists rs. split.
  { revert E. unfold set_block_refs. cbn [with_buddy with_pmm pmm page_count k_page_refcounts].
    destruct (for_up _ _ _ _); try done. cbn. by intros [= ->]. }
  split; [|done|done|done|done|done|done].
  split; cbn; [done|done|apply HO|rewrite (proj1 Hfill); apply HO| |apply (ok_frames _ HO)].
  intros i Hi. unfold ref, covered, blocks_of. cbn. rewrite (ref_filled m rs o n 1 i) by done.
  setoid_rewrite Hperm. destruct (decide (o ≤ i < o + n)) as [Hin|Hout].
  - unfold UINT16_MAX. split; [lia|]. split; [|lia]. intros _. exists o, n. split; [by left|done].
  - destruct (ok_refs _ HO i Hi) as [Hr Hc]. split; [done|]. rewrite Hc. split.
    + intros (o' & n' & Hin & ?). exists o', n'. split; [by right|done].
    + intros (o' & n' & [[= -> ->]|Hin]%elem_of_cons & ?); [lia|]. by exists o', n'.
Qed.

(** ** Contents of a cleared range *)

Lemma clear_frames_ne n : ∀ pa f a, (∀ i, 0 ≤ i < Z.of_nat n → a ≠ pa + i * PGSIZE) →
  clear_frames n pa f !! a = f !! a.
Proof.
  induction n as [|n IH]; intros pa f a Ha; [done|]. cbn [clear_frames]. rewrite IH.
  - apply lookup_insert_ne. intros E. apply (Ha 0); lia.
  - intros i Hi E. apply (Ha (i + 1)); lia.
Qed.

Lemma clear_frames_eq n : ∀ pa f i, 0 ≤ i < Z.of_nat n →
  clear_frames n pa f !! (pa + i * PGSIZE) = Some zero_frame.
Proof.
  induction n as [|n IH]; intros pa f i Hi; [lia|]. cbn [clear_frames].
  destruct (decide (i = 0)) as [->|].
  - rewrite clear_frames_ne; [|unfold PGSIZE; lia]. by rewrite Z.mul_0_l, Z.add_0_r, lookup_insert_eq.
  - replace (pa + i * PGSIZE) with (pa + PGSIZE + (i - 1) * PGSIZE) by lia. apply IH. lia.
Qed.

Lemma clear_frames_ok n pa (f : gmap Z (list Z)) a :
  (∃ ws, f !! a = Some ws ∧ length ws = page_words) →
  ∃ ws, clear_frames n pa f !! a = Some ws ∧ length ws = page_words.
Proof.
  revert pa f. induction n as [|n IH]; intros pa f Hf; [done|]. cbn [clear_frames]. apply IH.
  destruct (decide (a = pa)) as [->|]; [exists zero_frame; by rewrite lookup_insert_eq|].
  by rewrite lookup_insert_ne.
Qed.

Lemma FreshBlock_frames m m' o n f : FreshBlock m m' o n →
  (∀ a, managed m' a → ∃ ws, f !! a = Some ws ∧ length ws = page_words) →
  FreshBlock m (with_frames m' f) o n.
Proof.
  intros [HO Hl Hr Hu Hf Hb He] Hfr. split; [|done..]. destruct HO. split; done.
Qed.

(** ** Contiguous allocation *)

(** [try_alloc_pages] refuses only if no aligned range is free; otherwise it
    returns the address of a new block whose first [count] pages are zero. *)
Lemma try_alloc_pages_spec m count : PmmOk m → 0 < count < 2 ^ 31 →
  (try_alloc_pages m count = Ret (m, nullptr) ∧
   PageAlloc.exhausted (page_count (pmm m)) (block_map (_buddy (pmm m))) count) ∨
  ∃ m' o, try_alloc_pages m count = Ret (m', addr_of m o) ∧ FreshBlock m m' o (pages_for count) ∧
    (∀ i, 0 ≤ i < count → frames m' !! (addr_of m o + i * PGSIZE) = Some zero_frame) ∧
    (∀ a, (∀ i, 0 ≤ i < count → a ≠ addr_of m o + i * PGSIZE) → frames m' !! a = frames m !! a).
Proof.
  intros HO Hc. pose proof (page_count_bound m HO). unfold try_alloc_pages.
  rewrite (proj2 (Z.leb_gt count 0)) by lia.
  destruct (Alloc_blocks (_buddy (pmm m)) count (ok_buddy _ HO) ltac:(lia)) as [[E Hx]|Hal].
  { left. rewrite E. cbn. rewrite (ok_count _ HO). split; [by destruct m as [[]]|done]. }
  destruct Hal as (o & b & E & Hb & Hbpc & _ & Ho & Hlim & Hperm & Hnew). right.
  assert (Z.max 1 count ≤ pages_for count) as Hk
    by (destruct (pages_for_exp count ltac:(lia)) as (k & -> & _ & Hk); done).
  rewrite <- (ok_count _ HO) in *.
  destruct (claim_block_spec m b o (pages_for count) (frames m) HO Hb Hbpc Ho ltac:(lia) Hlim Hperm Hnew eq_refl)
    as (rs & Ecl & HF).
  rewrite E. cbn [obind]. rewrite (proj2 (Z.leb_le 0 o)) by lia. rewrite Ecl. cbn [obind].
  rewrite (proj2 (Z.ltb_ge o 0)) by lia. unfold page_index_in_range. rewrite u64_small by lia.
  cbn [with_refs with_buddy with_pmm pmm page_count]. rewrite (proj2 (Z.ltb_lt _ _)) by lia. cbn [negb].
  match goal with |- context [pgnm2pa ?m1 o] => change (pgnm2pa m1 o) with (pgnm2pa m o) end.
  rewrite pgnm2pa_index by (done || lia).
  eexists _, o. split; [reflexivity|]. split_and!.
  - apply (FreshBlock_frames m (with_refs (with_buddy m b) rs)); [done|].
    intros a Ha. apply clear_frames_ok. by apply (ok_frames _ (fb_ok _ _ _ _ HF)).
  - intros i Hi. apply clear_frames_eq. lia.
  - intros a Ha. apply clear_frames_ne. intros i Hi. apply Ha. lia.
Qed.

(** ** Release of a block *)

Record FreedBlock (m m' : Machine) (o n : Z) : Prop := {
  fd_ok : PmmOk m';
  fd_layout : same_layout m m';
  fd_filled : filled (k_page_refcounts (pmm m)) (k_page_refcounts (pmm m')) o n 0;
  fd_blocks : blocks_of m ≡ₚ (o, n) :: blocks_of m';
  fd_frames : frames m' = frames m;
  fd_events : events m' = events m ++ [BuddyFree o]
}.

Lemma query_block_start m a n : PmmOk m → managed m a → (index_of m a, n) ∈ blocks_of m →
  ∃ q, Buddy.query_page (_buddy (pmm m)) (u32 (index_of m a)) = Ret q ∧ Buddy.in_range q = true ∧
    Buddy.is_free q = false ∧ Buddy.block_offset q = index_of m a ∧ Buddy.block_pages q = n.
Proof.
  intros HO Ha Hb. destruct (query_managed m a HO Ha) as (q & Hq & Hr & Hf). exists q.
  pose proof (block_range m _ _ HO Hb).
  assert (0 < rc m a) by (apply rc_covered; [done..|]; eexists _, _; split; [exact Hb|lia]).
  destruct (Buddy.is_free q); [lia|]. destruct Hf as (Hin & _ & Hon).
  assert ((Buddy.block_offset q, Buddy.block_pages q) = (index_of m a, n)) as [= E1 E2]
    by (eapply block_unique; [done..|lia]). done.
Qed.

(** The block is released if every page of it has one reference; otherwise the
    kernel stops. *)
Lemma free_pages_spec m a n : PmmOk m → managed m a → (index_of m a, n) ∈ blocks_of m →
  (∀ i, index_of m a ≤ i < index_of m a + n → ref m i = 1) →
  ∃ m', free_pages m a = Ret m' ∧ FreedBlock m m' (index_of m a) n.
Proof.
  intros HO Hm Hb Hone. pose proof (block_range m _ _ HO Hb) as (Ho & Hn & Hon). pose proof (page_count_bound m HO).
  destruct (managed_range m a HO Hm) as (H0 & _ & Hal). unfold free_pages. unfold page_aligned in Hal.
  rewrite (proj2 (Z.eqb_neq a nullptr)), Hal, Z.eqb_refl by (unfold nullptr; lia). cbn [negb].
  rewrite pa2pgnm_managed by done. cbn [obind].
  destruct (query_block_start m a n HO Hm Hb) as (q & -> & Er & Ef & Eo & En). cbn [obind].
  rewrite Er, Ef, Eo, En, Z.eqb_refl. cbn [negb orb].
  destruct (set_block_refs_ok m (index_of m a) n 1 0 HO Ho Hn Hon Hone) as (rs & -> & Hfill). cbn [obind].
  unfold buddy_free. rewrite i32_small by lia. cbn [with_refs with_pmm pmm _buddy].
  destruct (Free_spec (_buddy (pmm m)) (index_of m a) (ok_buddy _ HO) ltac:(lia))
    as [(n' & b & Hin & -> & Hi' & Hperm & _ & Hpc & _)|[Hno _]]; [|by destruct (Hno n)].
  assert ((index_of m a, n') = (index_of m a, n)) as [= ->].
  { pose proof (block_range m _ _ HO Hin). eapply (block_unique m _ _ _ _ (index_of m a)); try done; lia. }
  eexists. split; [reflexivity|]. split; [|done..].
  split; cbn; [done|by rewrite Hpc, (ok_count _ HO)|apply HO|rewrite (proj1 Hfill); apply HO| |apply (ok_frames _ HO)].
  intros i Hi. unfold ref, covered, blocks_of. cbn. rewrite (ref_filled m rs (index_of m a) n 0 i) by done.
  destruct (decide (index_of m a ≤ i < index_of m a + n)) as [Hir|Hout].
  - unfold UINT16_MAX. split; [lia|]. split; [lia|]. intros (o' & n' & Hin' & Hon').
    assert ((o', n') = (index_of m a, n)) as [= -> ->].
    { eapply block_unique; [done| |done|done|done]. unfold blocks_of. rewrite Hperm. by right. }
    pose proof (allocated_NoDup _ (ok_buddy _ HO)) as Hnd. rewrite Hperm in Hnd.
    apply NoDup_cons in Hnd as [Hnd _]. destruct Hnd. apply list_elem_of_fmap. by exists (index_of m a, n).
  - destruct (ok_refs _ HO i Hi) as [Hr Hc]. split; [done|]. rewrite Hc. unfold covered, blocks_of.
    setoid_rewrite Hperm. split.
    + intros (o' & n' & [[= -> ->]|Hin']%elem_of_cons & ?); [lia|]. by exists o', n'.
    + intros (o' & n' & Hin' & ?). exists o', n'. split; [by right|done].
Qed.

Lemma free_pages_shared m a n : PmmOk m → managed m a → (index_of m a, n) ∈ blocks_of m →
  (∃ i, index_of m a ≤ i < index_of m a + n ∧ ref m i ≠ 1) → free_pages m a = Panic.
Proof.
  intros HO Hm Hb Hex. pose proof (block_range m _ _ HO Hb) as (Ho & Hn & Hon).
  destruct (managed_range m a HO Hm) as (H0 & _ & Hal). unfold free_pages. unfold page_aligned in Hal.
  rewrite (proj2 (Z.eqb_neq a nullptr)), Hal, Z.eqb_refl by (unfold nullptr; lia). cbn [negb].
  rewrite pa2pgnm_managed by done. cbn [obind].
  destruct (query_block_start m a n HO Hm Hb) as (q & -> & Er & Ef & Eo & En). cbn [obind].
  rewrite Er, Ef, Eo, En, Z.eqb_refl. cbn [negb orb]. by rewrite set_block_refs_panic.
Qed.

End PmmBlocks.
