(* ===== verification/PmmInit.v ===== *)
(** * The physical memory layout (kernel/mem/physical_memory_manager.cc)

    At boot the memory manager picks the largest interval of RAM that no firmware,
    kernel image or initial disk occupies, and divides it into the metadata of the
    page allocator, the managed pages, the kernel heap and the shared memory. *)
From S2P Require Import Prelude Page Buddy Pmm.
Import Page Pmm.

Module PmmInit.

(** ** Constants *)

Definition UINT32_MAX : Z := 0xFFFFFFFF.
Definition _1M : Z := Z.shiftl 1 20.
Definition vm_kernel_heap_size : Z := _1M * 256.
Definition SHM_SIZE : Z := _1M * 64.
Definition k_max_reserved_regions : Z := 32.
Definition k_max_reserved_ranges : nat := Z.to_nat (k_max_reserved_regions + 3).
(* Two [uint32], a [uint64], an [int] with its padding and two pointers. *)
Definition sizeof_BuddySystem : Z := 40.
Definition k_unlimited_physical_top : Z := 2 ^ 64 - 1.

Definition align_up (value alignment : Z) : Z :=
  Z.land (u64 (value + alignment - 1)) (u64 (Z.lnot (alignment - 1))).

(** The end of a region, unless it is empty or leaves the address space. *)
Definition checked_region_top (base size : Z) : option Z :=
  if (size =? 0) || (2 ^ 64 - 1 - size <? base) then None else Some (base + size).

(** ** The largest usable interval *)

Record ReservedRange := mkReserved { r_start : Z; r_end : Z }.
Record UsableInterval := mkUsable { u_start : Z; u_top : Z }.
Definition no_interval : UsableInterval := mkUsable 0 0.

Definition bytes (u : UsableInterval) : Z :=
  if u_start u <? u_top u then u_top u - u_start u else 0.

(** One turn of the outer loop of the sort: the entry of the left index is exchanged
    with every entry to the right that starts below it. *)
Fixpoint sort_pass (x : ReservedRange) (l : list ReservedRange) : ReservedRange * list ReservedRange :=
  match l with
  | [] => (x, [])
  | y :: l =>
      if r_start y <? r_start x then let (z, l') := sort_pass y l in (z, x :: l')
      else let (z, l') := sort_pass x l in (z, y :: l')
  end.

Fixpoint sort_ranges (n : nat) (l : list ReservedRange) : list ReservedRange :=
  match n, l with
  | S n, x :: l => let (z, l') := sort_pass x l in z :: sort_ranges n l'
  | _, _ => l
  end.

Definition consider (best : UsableInterval) (gap_start gap_top : Z) : UsableInterval :=
  let gap_start := PGROUNDUP gap_start in
  let gap_top := PGROUNDDOWN gap_top in
  if (gap_start <? gap_top) && (bytes best <? gap_top - gap_start) then mkUsable gap_start gap_top else best.

Fixpoint sweep (sorted : list ReservedRange) (top cursor : Z) (best : UsableInterval) : Z * UsableInterval :=
  match sorted with
  | [] => (cursor, best)
  | r :: sorted =>
      if (r_end r <=? cursor) || (top <=? r_start r) then sweep sorted top cursor best else
      let reserved_start := PGROUNDDOWN (r_start r) in
      let reserved_end := PGROUNDUP (r_end r) in
      let best := if cursor <? reserved_start
        then consider best cursor (if reserved_start <? top then reserved_start else top) else best in
      let cursor := if cursor <? reserved_end then reserved_end else cursor in
      if top <=? cursor then (cursor, best) else sweep sorted top cursor best
  end.

Definition largest_usable_interval (raw_start raw_top : Z) (reserved : list ReservedRange) : UsableInterval :=
  let start := PGROUNDUP raw_start in
  let top := PGROUNDDOWN raw_top in
  if top <=? start then no_interval else
  let sorted := take k_max_reserved_ranges reserved in
  let sorted := sort_ranges (length sorted) sorted in
  let (cursor, best) := sweep sorted top start no_interval in
  consider best cursor top.

(** ** The allocator's metadata *)

Record PmmMetadataLayout := mkLayout {
  metadata_start : Z; metadata_end : Z;
  tree_start : Z; tree_bytes : Z;
  refcount_start : Z; refcount_bytes : Z;
  managed_start : Z; managed_pages : Z
}.

Fixpoint layout_loop (iterations : nat) (metadata_start managed_limit managed_pages : Z) : outcome PmmMetadataLayout :=
  match iterations with
  | O => Panic
  | S iterations =>
      let tree_start := align_up (u64 (metadata_start + sizeof_BuddySystem)) 8 in
      let tree_bytes := Buddy.required_tree_bytes managed_pages in
      let refcount_start := align_up (u64 (tree_start + tree_bytes)) 2 in
      let refcount_bytes := managed_pages * 2 in
      if 2 ^ 64 - 1 - refcount_bytes <? refcount_start then Panic else
      let metadata_end := PGROUNDUP (refcount_start + refcount_bytes) in
      if managed_limit <=? metadata_end then Panic else
      let next_pages64 := (managed_limit - metadata_end) / PGSIZE in
      if UINT32_MAX <? next_pages64 then Panic else
      let next_pages := u32 next_pages64 in
      if next_pages =? managed_pages then
        Ret (mkLayout metadata_start metadata_end tree_start tree_bytes refcount_start refcount_bytes metadata_end managed_pages)
      else layout_loop iterations metadata_start managed_limit next_pages
  end.

Definition calculate_pmm_layout (metadata_start managed_limit : Z) : outcome PmmMetadataLayout :=
  if managed_limit <=? u64 (metadata_start + PGSIZE * 16) then Panic else
  let candidate_pages := u64 (managed_limit - metadata_start) / PGSIZE in
  if UINT32_MAX <? candidate_pages then Panic else
  layout_loop 16 metadata_start managed_limit (u32 candidate_pages).

(** ** The heap *)

Record HeapLayout := mkHeap {
  metadata_bytes : Z; allocator_bytes : Z; shm_bytes : Z; allocator_pages : Z
}.

Definition maximum_heap_pages : Z := u32 (vm_kernel_heap_size / PGSIZE).

Fixpoint heap_loop (iterations : nat) (area_bytes heap_budget heap_pages : Z) : outcome HeapLayout :=
  match iterations with
  | O => Panic
  | S iterations =>
      let metadata_bytes := PGROUNDUP (Buddy.required_storage_bytes sizeof_BuddySystem heap_pages) in
      let next_pages64 := if metadata_bytes <? heap_budget then (heap_budget - metadata_bytes) / PGSIZE else 0 in
      let next_pages64 := if maximum_heap_pages <? next_pages64 then maximum_heap_pages else next_pages64 in
      let next_pages := u32 next_pages64 in
      if next_pages =? heap_pages then
        let allocator_bytes := heap_pages * PGSIZE in
        let remaining := u64 (area_bytes - metadata_bytes - allocator_bytes) in
        Ret (mkHeap metadata_bytes allocator_bytes (PGROUNDDOWN (if SHM_SIZE <? remaining then SHM_SIZE else remaining)) heap_pages)
      else heap_loop iterations area_bytes heap_budget next_pages
  end.

Definition calculate_heap_layout (area_bytes : Z) : outcome HeapLayout :=
  let desired_shm := area_bytes / 3 in
  let desired_shm := if SHM_SIZE <? desired_shm then SHM_SIZE else desired_shm in
  let desired_shm := PGROUNDDOWN desired_shm in
  let heap_budget := if desired_shm <? area_bytes then area_bytes - desired_shm else 0 in
  let heap_pages := u32 (heap_budget / PGSIZE) in
  let heap_pages := if maximum_heap_pages <? heap_pages then maximum_heap_pages else heap_pages in
  heap_loop 16 area_bytes heap_budget heap_pages.

(** ** Initialisation *)

(** What the boot code and the device tree say: the initial disk of the boot path
    and of the device tree, the linker's symbols, the device tree itself, the
    firmware's reserved regions, the RAM regions (base and size) and the platform's
    limit. *)
Record BootInfo := mkBoot {
  k_initrd_start : Z; k_initrd_end : Z;
  dtb_initrd : Z * Z;
  kernel_start : Z; end_ : Z;
  k_dtb_addr : Z; dtb_size : Z;
  reserved_regions : list (Z * Z);
  memory_regions : list (Z * Z);
  managed_physical_top : Z
}.

(** The static members of the memory manager. *)
Record PmmState := mkPmmState {
  initrd : Z * Z;
  phys_top : Z; kernel_linear_top : Z;
  heap_area_start : Z; heap_area_size : Z;
  heap_allocator_size : Z; heap_page_count : Z;
  shm_start : Z; shm_size : Z;
  layout : PmmMetadataLayout;
  manager : PhysicalMemoryManager
}.

Definition boot_initrd (b : BootInfo) : Z * Z :=
  if (k_initrd_start b =? 0) || (k_initrd_end b <=? k_initrd_start b) then dtb_initrd b
  else (k_initrd_start b, k_initrd_end b).

Definition has_initrd (i : Z * Z) : bool := negb (i.1 =? 0) && (i.1 <? i.2).

Fixpoint firmware_ranges (room : nat) (regions : list (Z * Z)) : list ReservedRange :=
  match room, regions with
  | S room', (base, size) :: regions =>
      match checked_region_top base size with
      | None => firmware_ranges room regions
      | Some reserved_end => mkReserved base reserved_end :: firmware_ranges room' regions
      end
  | _, _ => []
  end.

Definition reserved_ranges (b : BootInfo) : outcome (list ReservedRange) :=
  let kernel_image_start := PGROUNDDOWN (kernel_start b) in
  let kernel_image_end := PGROUNDUP (end_ b) in
  if kernel_image_end <=? kernel_image_start then Panic else
  let! dtb := (if k_dtb_addr b =? 0 then Ret [] else
    if dtb_size b =? 0 then Panic else
    match checked_region_top (k_dtb_addr b) (dtb_size b) with
    | None => Panic
    | Some dtb_end => Ret [mkReserved (k_dtb_addr b) dtb_end]
    end) in
  let i := boot_initrd b in
  let rs := mkReserved kernel_image_start kernel_image_end :: dtb ++
    (if has_initrd i then [mkReserved i.1 i.2] else []) in
  Ret (rs ++ firmware_ranges (k_max_reserved_ranges - length rs) (reserved_regions b)).

(** The RAM regions, cut off at the platform's limit. *)
Definition limit_region (limit : Z) (r : Z * Z) : Z * Z :=
  match checked_region_top r.1 r.2 with
  | None => (r.1, 0)
  | Some raw_top =>
      if limit <=? r.1 then (r.1, 0)
      else if limit <? raw_top then (r.1, limit - r.1) else r
  end.

Definition limited_regions (b : BootInfo) : list (Z * Z) :=
  if managed_physical_top b =? k_unlimited_physical_top then memory_regions b
  else limit_region (managed_physical_top b) <$> memory_regions b.

(** The choice of the region: the kernel's region, the top of its RAM and of the
    selected one, and the best interval. *)
Record Choice := mkChoice {
  kernel_found : bool; kernel_region_top : Z; selected_region_top : Z; best_interval : UsableInterval
}.

Definition choose_region (kernel_end_phys : Z) (reserved : list ReservedRange) (c : Choice) (r : Z * Z) : Choice :=
  match checked_region_top r.1 r.2 with
  | None => c
  | Some region_top =>
      let contains_kernel := (r.1 <? kernel_end_phys) && (kernel_end_phys <=? region_top) in
      let candidate := largest_usable_interval (if contains_kernel then kernel_end_phys else r.1) region_top reserved in
      let better := bytes (best_interval c) <? bytes candidate in
      mkChoice (kernel_found c || contains_kernel)
        (if contains_kernel then PGROUNDDOWN region_top else kernel_region_top c)
        (if better then PGROUNDDOWN region_top else selected_region_top c)
        (if better then candidate else best_interval c)
  end.

(** How much of the selected interval goes to the heap and the shared memory. *)
Definition heap_region_bytes (available_bytes : Z) : Z :=
  let max_heap_metadata := PGROUNDUP (Buddy.required_storage_bytes sizeof_BuddySystem maximum_heap_pages) in
  let max_heap_region := max_heap_metadata + vm_kernel_heap_size + SHM_SIZE in
  let min_heap_pages := u32 (_1M * 8 / PGSIZE) in
  let min_heap_metadata := PGROUNDUP (Buddy.required_storage_bytes sizeof_BuddySystem min_heap_pages) in
  let min_heap_region := min_heap_metadata + _1M * 8 + _1M * 2 in
  let h := available_bytes / 3 in
  let h := if h <? min_heap_region then min_heap_region else h in
  let h := if max_heap_region <? h then max_heap_region else h in
  if available_bytes <? u64 (h + PGSIZE * 64) then available_bytes / 3 else h.

Definition init (b : BootInfo) : outcome PmmState :=
  let! reserved := reserved_ranges b in
  let kernel_end_phys := PGROUNDUP (end_ b) in
  let c := foldl (choose_region kernel_end_phys reserved) (mkChoice false 0 0 no_interval) (limited_regions b) in
  if negb (kernel_found c) then Panic else
  if bytes (best_interval c) =? 0 then Panic else
  let kernel_linear_top := if selected_region_top c <? kernel_region_top c then kernel_region_top c else selected_region_top c in
  let allocator_start := PGROUNDUP (u_start (best_interval c)) in
  let allocator_top := PGROUNDDOWN (u_top (best_interval c)) in
  if allocator_top <=? u64 (allocator_start + PGSIZE * 64) then Panic else
  let available_bytes := allocator_top - allocator_start in
  let heap_area_start := PGROUNDDOWN (allocator_top - heap_region_bytes available_bytes) in
  let heap_area_size := allocator_top - heap_area_start in
  let! l := calculate_pmm_layout allocator_start heap_area_start in
  let! h := calculate_heap_layout heap_area_size in
  let shm_start := u64 (heap_area_start + metadata_bytes h + allocator_bytes h) in
  if (allocator_pages h =? 0) || (shm_bytes h =? 0) then Panic else
  let! buddy := Buddy.Initialize (managed_start l) (managed_pages l)
    (Some (replicate (Z.to_nat (tree_bytes l)) Buddy.NODE_UNUSED)) (tree_bytes l) in
  Ret (mkPmmState (if has_initrd (boot_initrd b) then boot_initrd b else (k_initrd_start b, k_initrd_end b))
    allocator_top kernel_linear_top heap_area_start (metadata_bytes h + allocator_bytes h + shm_bytes h)
    (allocator_bytes h) (allocator_pages h) shm_start (shm_bytes h) l
    (mkPmm buddy (managed_start l) (managed_pages l) (replicate (Z.to_nat (managed_pages l)) 0))).

End PmmInit.
