(* ===== verification/PmmBoot.v ===== *)
(** * The memory layout is sound

    The interval chosen at boot is the longest that avoids every reserved range, its
    parts do not overlap, and the allocator starts with every managed page free. *)
From S2P Require Import Prelude Page Buddy BuddySpec BuddyCorrect Pmm PmmSpec PmmInit.
Import Page Pmm PmmSpec PmmInit.

Module PmmBoot.

(** ** Sorting *)

Definition starts_below (x y : ReservedRange) : Prop := r_start x ≤ r_start y.

Lemma sort_pass_spec l : ∀ x, let (z, l') := sort_pass x l in
  x :: l ≡ₚ z :: l' ∧ Forall (starts_below z) l' ∧ r_start z ≤ r_start x ∧ length l' = length l.
Proof.
  induction l as [|y l IH]; intros x; cbn [sort_pass]; [by split_and!|].
  destruct (Z.ltb_spec (r_start y) (r_start x)).
  - specialize (IH y). destruct (sort_pass y l) as [z l']. destruct IH as (Hp & Hf & Hz & Hl). split_and!; [|constructor; [|done]|lia|cbn; lia].
    + rewrite Hp. apply perm_swap.
    + unfold starts_below. lia.
  - specialize (IH x). destruct (sort_pass x l) as [z l']. destruct IH as (Hp & Hf & Hz & Hl). split_and!; [|constructor; [|done]|lia|cbn; lia].
    + rewrite perm_swap, Hp. apply perm_swap.
    + unfold starts_below. lia.
Qed.

Lemma sort_ranges_spec n : ∀ l, (length l ≤ n)%nat → sort_ranges n l ≡ₚ l ∧ StronglySorted starts_below (sort_ranges n l).
Proof.
  induction n as [|n IH]; intros [|x l] Hl; cbn in *; [by split; [|apply SSorted_nil]|lia|by split; [|apply SSorted_nil]|].
  pose proof (sort_pass_spec l x) as Hs. destruct (sort_pass x l) as [z l']. destruct Hs as (Hp & Hf & _ & Hl').
  destruct (IH l' ltac:(lia)) as [Hp' Hs']. split; [by rewrite Hp', <- Hp|]. constructor; [done|].
  rewrite Forall_forall in Hf |- *. intros y Hy. apply Hf. by rewrite <- Hp'.
Qed.

(** ** The largest interval *)

Definition valid_range (r : ReservedRange) : Prop := 0 ≤ r_start r < r_end r ∧ r_end r + PGSIZE - 1 < 2 ^ 64.

(** [[s, t)] is clear of a range, and of its pages. *)
Definition avoids (s t : Z) (r : ReservedRange) : Prop := t ≤ r_start r ∨ r_end r ≤ s.

Lemma aligned_le a b : page_aligned a → page_aligned b → a < b + PGSIZE → a ≤ b.
Proof.
  unfold page_aligned, PGSIZE. intros Ha Hb Hlt. apply Z.mod_divide in Ha as [x ->]; [|done]. apply Z.mod_divide in Hb as [y ->]; [|done]. lia.
Qed.

Lemma avoids_pages s t r : page_aligned s → page_aligned t → valid_range r →
  avoids s t r ↔ t ≤ PGROUNDDOWN (r_start r) ∨ PGROUNDUP (r_end r) ≤ s.
Proof.
  intros Hs Ht [Hr Hb]. unfold avoids.
  destruct (PGROUNDDOWN_spec (r_start r) ltac:(unfold PGSIZE in *; lia)) as (Hd & Hd' & _).
  destruct (PGROUNDUP_spec (r_end r) ltac:(lia) Hb) as (Hu & Hu'). split; intros [?|?]; [left|right|left|right]; try lia.
  - apply aligned_le; [done..|lia].
  - apply aligned_le; [done..|lia].
Qed.

Section interval.
Context (start top : Z) (rs : list ReservedRange).
Context (Hs : page_aligned start) (Ht : page_aligned top) (Hst : 0 ≤ start) (Hrs : ∀ r, r ∈ rs → valid_range r).
Context (Htop : top + PGSIZE - 1 < 2 ^ 64).

(** An interval of pages that may be used. *)
Definition usable_pages (s t : Z) : Prop :=
  page_aligned s ∧ page_aligned t ∧ start ≤ s < t ∧ t ≤ top ∧ ∀ r, r ∈ rs → avoids s t r.

Definition good (u : UsableInterval) : Prop := bytes u = 0 ∨ usable_pages (u_start u) (u_top u).

Lemma bytes_nonneg u : 0 ≤ bytes u.
Proof. unfold bytes. case_match; lia. Qed.

Lemma consider_spec best s t : page_aligned s → page_aligned t → 0 ≤ s → t ≤ top → s + PGSIZE - 1 < 2 ^ 64 → 0 ≤ t →
  bytes (consider best s t) = Z.max (bytes best) (t - s) ∧
  (good best → (s < t → usable_pages s t) → good (consider best s t)).
Proof using Htop.
  intros Has Hat Hs0 Htt Hsb Ht0. unfold consider. rewrite PGROUNDUP_aligned, PGROUNDDOWN_aligned by (done || unfold PGSIZE in *; lia).
  pose proof (bytes_nonneg best). destruct (Z.ltb_spec s t); cbn [andb]; [|split; [lia|auto]].
  destruct (Z.ltb_spec (bytes best) (t - s)); [|split; [lia|auto]].
  split; [unfold bytes; cbn; rewrite (proj2 (Z.ltb_lt _ _)) by done; unfold bytes in *; lia|]. intros _ Hu. right. by apply Hu.
Qed.

(** Ranges that end at the cursor or start at the top do not matter any more. *)
Definition passed (cursor : Z) (r : ReservedRange) : Prop := r_end r ≤ cursor ∨ top ≤ r_start r.

Lemma sweep_spec l : ∀ cursor best,
  StronglySorted starts_below l → (∀ r, r ∈ l → r ∈ rs) → (∀ r, r ∈ rs → r ∈ l ∨ passed cursor r) →
  page_aligned cursor → start ≤ cursor → cursor + PGSIZE - 1 < 2 ^ 64 → 0 ≤ top → good best →
  let u := (let (cursor, best) := sweep l top cursor best in consider best cursor top) in
  good u ∧ bytes best ≤ bytes u ∧ ∀ s t, usable_pages s t → cursor ≤ s → t - s ≤ bytes u.
Proof using Hs Ht Hst Hrs Htop.
  induction l as [|r l IH]; intros cursor best Hsort Hin Hcov Hc Hsc Hcb Ht0 Hg; cbn [sweep].
  { destruct (consider_spec best cursor top Hc Ht ltac:(lia) ltac:(lia) Hcb Ht0) as [Eb Hgood]. split; [|split; [lia|]].
    - apply Hgood; [done|]. intros Hlt. split_and!; try done. intros r Hr. destruct (Hcov r Hr) as [?%not_elem_of_nil|[?|?]]; [done|by right|by left].
    - intros s t (_ & _ & ? & ? & _) ?. lia. }
  apply StronglySorted_inv in Hsort as [Hsort Hhd]. assert (r ∈ rs) as Hr by (apply Hin; by left). pose proof (Hrs r Hr) as Hv.
  assert (∀ r', r' ∈ l → r' ∈ rs) as Hin' by (intros; apply Hin; by right).
  destruct ((r_end r <=? cursor) || (top <=? r_start r)) eqn:Eskip.
  { apply IH; try done. intros r' Hr'. destruct (Hcov r' Hr') as [[->|?]%elem_of_cons|?]; [right|by left|by right].
    apply orb_prop in Eskip as [?%Z.leb_le|?%Z.leb_le]; [by left|by right]. }
  apply orb_false_iff in Eskip as [He%Z.leb_gt Hl%Z.leb_gt].
  destruct Hv as [Hv0 Hvb]. destruct (PGROUNDDOWN_spec (r_start r) ltac:(unfold PGSIZE in *; lia)) as (Hd & Hd' & Hd0).
  destruct (PGROUNDUP_spec (r_end r) ltac:(lia) Hvb) as (Hu & Hu').
  assert (PGROUNDDOWN (r_start r) < top) as Hdt by lia. rewrite (proj2 (Z.ltb_lt _ _) Hdt).
  assert (cursor < PGROUNDUP (r_end r)) as Hcu by lia. rewrite (proj2 (Z.ltb_lt _ _) Hcu).
  set (a := PGROUNDDOWN (r_start r)) in *. set (b := PGROUNDUP (r_end r)) in *.
  set (best1 := if cursor <? a then consider best cursor a else best).
  assert (good best1 ∧ bytes best ≤ bytes best1 ∧ a - cursor ≤ bytes best1) as (Hg1 & Hb1 & Ha1).
  { unfold best1. destruct (Z.ltb_spec cursor a); [|split_and!; [done|lia|pose proof (bytes_nonneg best); lia]].
    destruct (consider_spec best cursor a Hc Hd ltac:(lia) ltac:(lia) Hcb ltac:(lia)) as [Eb Hgood]. split; [|lia].
    apply Hgood; [done|]. intros _. split_and!; try done; [lia|]. intros r' Hr'. destruct (Hcov r' Hr') as [[->|Hl']%elem_of_cons|[?|?]].
    - left. lia.
    - rewrite Forall_forall in Hhd. specialize (Hhd r' Hl'). unfold starts_below in Hhd. left. lia.
    - by right.
    - left. lia. }
  assert (∀ s t, usable_pages s t → cursor ≤ s → t - s ≤ bytes best1 ∨ b ≤ s) as Hstep.
  { intros s t (Hs1 & Ht1 & ? & ? & Hav) Hcs. specialize (Hav r Hr). apply (avoids_pages s t r Hs1 Ht1 (conj Hv0 Hvb)) in Hav.
    fold a b in Hav. destruct Hav as [?|?]; [left; lia|by right]. }
  assert (b + PGSIZE - 1 < 2 ^ 64) as Hbb.
  { pose proof (aligned_le b (2 ^ 64 - PGSIZE) Hu eq_refl ltac:(unfold PGSIZE in *; lia)). unfold PGSIZE in *. lia. }
  assert (∀ r', r' ∈ rs → r' ∈ l ∨ passed b r') as Hcov'.
  { intros r' Hr'. destruct (Hcov r' Hr') as [[->|?]%elem_of_cons|[?|?]]; [right; left; lia|by left|right; left; lia|right; by right]. }
  destruct (Z.leb_spec top b) as [Htb|Htb].
  - destruct (consider_spec best1 b top Hu Ht ltac:(lia) ltac:(lia) Hbb Ht0) as [Eb Hgood]. split; [|split; [lia|]].
    + apply Hgood; [done|lia].
    + intros s t Hst' Hcs. destruct (Hstep s t Hst' Hcs); [lia|]. destruct Hst' as (_ & _ & ? & ? & _). lia.
  - destruct (IH b best1 Hsort Hin' Hcov' Hu ltac:(lia) Hbb Ht0 Hg1) as (Hg' & Hb' & Hmax). split; [done|]. split; [lia|].
    intros s t Hst' Hcs. destruct (Hstep s t Hst' Hcs); [lia|]. by apply Hmax.
Qed.
End interval.

Lemma largest_interval_spec raw_start raw_top reserved :
  0 ≤ raw_start → raw_start + PGSIZE - 1 < 2 ^ 64 → 0 ≤ raw_top → raw_top + PGSIZE - 1 < 2 ^ 64 →
  (length reserved ≤ k_max_reserved_ranges)%nat → (∀ r, r ∈ reserved → valid_range r) →
  let u := largest_usable_interval raw_start raw_top reserved in
  good (PGROUNDUP raw_start) (PGROUNDDOWN raw_top) reserved u ∧
  ∀ s t, usable_pages (PGROUNDUP raw_start) (PGROUNDDOWN raw_top) reserved s t → t - s ≤ bytes u.
Proof.
  intros Hs0 Hsb Ht0 Htb Hlen Hv. unfold largest_usable_interval.
  destruct (PGROUNDUP_spec raw_start Hs0 Hsb) as [Hsa Hs1].
  destruct (PGROUNDDOWN_spec raw_top ltac:(unfold PGSIZE in *; lia)) as (Hta & Ht1 & Ht2).
  destruct (Z.leb_spec (PGROUNDDOWN raw_top) (PGROUNDUP raw_start)); cbn zeta.
  { split; [by left|]. intros s t (_ & _ & ? & ? & _). lia. }
  rewrite take_ge by done. destruct (sort_ranges_spec (length reserved) reserved ltac:(done)) as [Hp Hsort].
  destruct (sweep_spec (PGROUNDUP raw_start) (PGROUNDDOWN raw_top) reserved Hsa Hta ltac:(lia) Hv ltac:(lia)
    (sort_ranges (length reserved) reserved) (PGROUNDUP raw_start) no_interval Hsort) as (Hg & _ & Hmax).
  - intros r. by rewrite Hp.
  - intros r Hr. left. by rewrite Hp.
  - done.
  - lia.
  - pose proof (aligned_le (PGROUNDUP raw_start) (2 ^ 64 - PGSIZE) Hsa eq_refl ltac:(unfold PGSIZE in *; lia)). unfold PGSIZE in *. lia.
  - lia.
  - by left.
  - split; [done|]. intros s t Hu. apply Hmax; [done|apply Hu].
Qed.

(** ** The metadata of the page allocator *)

Lemma round_up_spec k v : 0 ≤ k < 12 → 0 ≤ v → v + 2 ^ k - 1 < 2 ^ 64 → align_up v (2 ^ k) = (v + 2 ^ k - 1) / 2 ^ k * 2 ^ k.
Proof.
  intros Hk Hv Hb. unfold align_up. pose proof (pow2_pos k ltac:(lia)). rewrite u64_small by lia.
  assert (2 ^ k ≤ 2 ^ 12) by (apply Z.pow_le_mono_r; lia).
  assert (u64 (Z.lnot (2 ^ k - 1)) = 2 ^ 64 - 2 ^ k) as ->.
  { unfold u64, Z.lnot. replace (Z.pred (- (2 ^ k - 1))) with (2 ^ 64 - 2 ^ k + (-1) * 2 ^ 64) by lia.
    rewrite Z.mod_add by done. apply Z.mod_small. lia. }
  rewrite land_clear_low by lia. pose proof (Z.div_mod (v + 2 ^ k - 1) (2 ^ k) ltac:(lia)). lia.
Qed.

Definition cap (pages : Z) : Z := Buddy.capacity_pages_for pages.

(** Pages of metadata that [pages] managed pages need. *)
Definition meta_pages (pages : Z) : Z := (sizeof_BuddySystem + 2 * cap pages + 2 * pages + PGSIZE - 1) / PGSIZE.

Lemma cap_spec p : 0 ≤ p ≤ 2 ^ 29 → p ≤ cap p ≤ 2 ^ 29 ∧ 1 ≤ cap p ∧ cap p ≤ Z.max 1 (2 * p).
Proof.
  intros Hp. unfold cap, Buddy.capacity_pages_for. destruct (Z.eqb_spec p 0) as [->|]; [by vm_compute|].
  rewrite BuddySpec.NextPowerOfTwo_log2_up by lia. pose proof (Z.log2_up_nonneg p).
  assert (Z.log2_up p ≤ 29) by (apply Z.log2_up_le_pow2; lia).
  assert (2 ^ Z.log2_up p ≤ 2 ^ 29) by (apply Z.pow_le_mono_r; lia). pose proof (pow2_pos (Z.log2_up p)).
  destruct (decide (p = 1)) as [->|]; [by vm_compute|]. destruct (Z.log2_up_spec p ltac:(lia)) as [Hlo Hhi].
  split_and!; try lia. pose proof (Z.log2_up_pos p ltac:(lia)).
  replace (Z.log2_up p) with (Z.succ (Z.pred (Z.log2_up p))) by lia. rewrite Z.pow_succ_r by lia. lia.
Qed.

Lemma layout_step n ms lim p : page_aligned ms → page_aligned lim → 0 ≤ ms → lim ≤ 2 ^ 48 → 0 ≤ p ≤ 2 ^ 29 →
  0 ≤ lim - ms ≤ 2 ^ 29 * PGSIZE →
  let N := (lim - ms) / PGSIZE in
  layout_loop (S n) ms lim p =
    if N <=? meta_pages p then Panic else if N - meta_pages p =? p
    then Ret (mkLayout ms (ms + meta_pages p * PGSIZE) (ms + sizeof_BuddySystem) (2 * cap p - 1)
      (ms + sizeof_BuddySystem + 2 * cap p) (2 * p) (ms + meta_pages p * PGSIZE) p)
    else layout_loop n ms lim (N - meta_pages p).
Proof.
  intros Hms Hlim Hm0 Hl0 Hp Hd N. destruct (cap_spec p Hp) as (Hc & Hc1 & _).
  assert (0 ≤ meta_pages p) as HM by (apply Z.div_pos; unfold sizeof_BuddySystem, PGSIZE; lia).
  apply Z.mod_divide in Hms as [x Ex]; [|done]. apply Z.mod_divide in Hlim as [y Ey]; [|done].
  assert (N = y - x) as EN by (unfold N; rewrite Ex, Ey, <- Z.mul_sub_distr_r; by apply Z.div_mul).
  cbn [layout_loop]. rewrite (u64_small (ms + sizeof_BuddySystem)) by (unfold sizeof_BuddySystem; lia).
  change (align_up (ms + sizeof_BuddySystem) 8) with (align_up (ms + sizeof_BuddySystem) (2 ^ 3)).
  rewrite (round_up_spec 3) by (unfold sizeof_BuddySystem; lia).
  assert ((ms + sizeof_BuddySystem + 2 ^ 3 - 1) / 2 ^ 3 * 2 ^ 3 = ms + sizeof_BuddySystem) as ->.
  { unfold PGSIZE, sizeof_BuddySystem in *. pose proof (Z.div_mod (ms + 40 + 2 ^ 3 - 1) (2 ^ 3)). pose proof (Z.mod_pos_bound (ms + 40 + 2 ^ 3 - 1) (2 ^ 3)). lia. }
  assert (Buddy.required_tree_bytes p = 2 * cap p - 1) as -> by (unfold Buddy.required_tree_bytes; fold (cap p); rewrite u64_small; lia).
  rewrite (u64_small (_ + (2 * cap p - 1))) by (unfold sizeof_BuddySystem; lia).
  set (ts := ms + sizeof_BuddySystem) in *. change (align_up (ts + (2 * cap p - 1)) 2) with (align_up (ts + (2 * cap p - 1)) (2 ^ 1)).
  rewrite (round_up_spec 1) by (unfold ts, sizeof_BuddySystem; lia).
  assert ((ts + (2 * cap p - 1) + 2 ^ 1 - 1) / 2 ^ 1 * 2 ^ 1 = ts + 2 * cap p) as ->.
  { unfold ts, PGSIZE, sizeof_BuddySystem in *. pose proof (Z.div_mod (ms + 40 + (2 * cap p - 1) + 2 ^ 1 - 1) (2 ^ 1)).
    pose proof (Z.mod_pos_bound (ms + 40 + (2 * cap p - 1) + 2 ^ 1 - 1) (2 ^ 1)). lia. }
  rewrite (Z.mul_comm p 2), (proj2 (Z.ltb_ge _ _)) by (unfold ts, sizeof_BuddySystem; lia).
  rewrite PGROUNDUP_mod by (unfold ts, sizeof_BuddySystem, PGSIZE; lia).
  assert ((ts + 2 * cap p + 2 * p + PGSIZE - 1) / PGSIZE * PGSIZE = ms + meta_pages p * PGSIZE) as ->.
  { unfold meta_pages, ts. rewrite Ex. replace (x * PGSIZE + sizeof_BuddySystem + 2 * cap p + 2 * p + PGSIZE - 1)
      with (sizeof_BuddySystem + 2 * cap p + 2 * p + PGSIZE - 1 + x * PGSIZE) by lia. rewrite Z.div_add by done. lia. }
  set (M := meta_pages p) in *.
  assert ((lim <=? ms + M * PGSIZE) = (N <=? M)) as ->.
  { destruct (Z.leb_spec N M), (Z.leb_spec lim (ms + M * PGSIZE)); unfold PGSIZE in *; done || lia. }
  destruct (Z.leb_spec N M); [done|].
  assert ((lim - (ms + M * PGSIZE)) / PGSIZE = N - M) as ->.
  { rewrite EN, Ex, Ey. replace (y * PGSIZE - (x * PGSIZE + M * PGSIZE)) with ((y - x - M) * PGSIZE) by lia. by apply Z.div_mul. }
  assert (N ≤ 2 ^ 29) by (unfold PGSIZE in *; lia).
  rewrite (proj2 (Z.ltb_ge _ _)), u32_small by (unfold UINT32_MAX; lia). done.
Qed.

(** The parts of the allocator's region: the [BuddySystem] object, its tree, the
    reference counts and the managed pages, in this order and up to the limit. *)
Record LayoutOk (ms lim : Z) (l : PmmMetadataLayout) : Prop := {
  lo_start : metadata_start l = ms;
  lo_tree : ms + sizeof_BuddySystem ≤ tree_start l ∧ tree_bytes l = Buddy.required_tree_bytes (managed_pages l);
  lo_refs : tree_start l + tree_bytes l ≤ refcount_start l ∧ refcount_bytes l = 2 * managed_pages l;
  lo_end : refcount_start l + refcount_bytes l ≤ metadata_end l;
  lo_managed : managed_start l = metadata_end l ∧ page_aligned (managed_start l);
  lo_limit : managed_start l + managed_pages l * PGSIZE = lim;
  lo_pages : 0 < managed_pages l ≤ (lim - ms) / PGSIZE
}.

Section layout.
Context (ms lim : Z) (Hms : page_aligned ms) (Hlim : page_aligned lim) (Hm0 : 0 ≤ ms) (Hl0 : lim ≤ 2 ^ 48).
Context (Hd : 0 ≤ lim - ms ≤ 2 ^ 29 * PGSIZE).

Local Abbreviation N := ((lim - ms) / PGSIZE).

Lemma pages_bound : 0 ≤ N ≤ 2 ^ 29.
Proof using Hd. split; [apply Z.div_pos; unfold PGSIZE; lia|]. apply Z.div_le_upper_bound; unfold PGSIZE in *; lia. Qed.

Lemma meta_pos p : 0 ≤ p ≤ 2 ^ 29 → 1 ≤ meta_pages p.
Proof using.
  intros Hp. destruct (cap_spec p Hp) as (? & ? & _). apply Z.div_le_lower_bound; unfold sizeof_BuddySystem, PGSIZE; lia.
Qed.

Lemma layout_loop_ok n : ∀ p l, 0 ≤ p ≤ 2 ^ 29 → layout_loop n ms lim p = Ret l →
  LayoutOk ms lim l ∧ managed_pages l + meta_pages (managed_pages l) = N.
Proof using Hms Hlim Hm0 Hl0 Hd.
  pose proof pages_bound. induction n as [|n IH]; intros p l Hp E; [done|]. rewrite layout_step in E by done.
  pose proof (meta_pos p Hp). destruct (cap_spec p Hp) as (Hc & Hc1 & _).
  destruct (Z.leb_spec N (meta_pages p)); [done|]. destruct (Z.eqb_spec (N - meta_pages p) p) as [Ep|Ep].
  2: { apply (IH (N - meta_pages p)); [lia|done]. }
  injection E as <-. split; [|cbn; lia]. split; cbn; try done.
  - split; [lia|]. unfold Buddy.required_tree_bytes. fold (cap p). rewrite u64_small; lia.
  - lia.
  - unfold meta_pages. set (A := sizeof_BuddySystem + 2 * cap p + 2 * p).
    replace (ms + sizeof_BuddySystem + 2 * cap p + 2 * p) with (ms + A) by (unfold A; lia).
    pose proof (Z.div_mod (A + PGSIZE - 1) PGSIZE ltac:(done)). pose proof (Z.mod_pos_bound (A + PGSIZE - 1) PGSIZE ltac:(done)). lia.
  - split; [done|]. unfold page_aligned. rewrite Z.mod_add by done. exact Hms.
  - apply Z.mod_divide in Hms as [x Ex]; [|done]. apply Z.mod_divide in Hlim as [y Ey]; [|done].
    assert (N = y - x) as EN by (rewrite Ex, Ey, <- Z.mul_sub_distr_r; by apply Z.div_mul). unfold PGSIZE in *. lia.
  - lia.
Qed.

#[local] Opaque layout_loop.

(** Near a fixed point of the same tree size, the iteration reaches it. *)
Section converge.
Context (q : Z) (Hq : 0 ≤ q ≤ 2 ^ 29) (Hfix : q + meta_pages q = N).
Context (lo : Z) (Hlo : 0 ≤ lo ≤ q).
Context (Hcls : ∀ x, lo ≤ x ≤ N → cap x = cap q ∧ meta_pages x < N ∧ lo ≤ N - meta_pages x).

Lemma meta_close p : cap p = cap q → Z.abs (meta_pages p - meta_pages q) ≤ (2 * Z.abs (p - q) + PGSIZE - 1) / PGSIZE.
Proof using.
  clear. intros Ec. unfold meta_pages. rewrite Ec. unfold sizeof_BuddySystem, PGSIZE. generalize (cap q). intros c.
  Z.to_euclidean_division_equations; lia.
Qed.

Lemma fixed_unique p : cap p = cap q → N - meta_pages p = p → p = q.
Proof using Hfix.
  intros Ec Ep. destruct (Z.lt_trichotomy p q) as [Hlt|[?|Hlt]]; [|done|].
  - assert (meta_pages p ≤ meta_pages q); [|lia]. unfold meta_pages. rewrite Ec. apply Z.div_le_mono; unfold PGSIZE; lia.
  - assert (meta_pages q ≤ meta_pages p); [|lia]. unfold meta_pages. rewrite Ec. apply Z.div_le_mono; unfold PGSIZE; lia.
Qed.

Lemma loop_step n p d : lo ≤ p ≤ N → Z.abs (p - q) ≤ d →
  (∃ l, layout_loop (S n) ms lim p = Ret l ∧ managed_pages l = q) ∨
  (layout_loop (S n) ms lim p = layout_loop n ms lim (N - meta_pages p) ∧ lo ≤ N - meta_pages p ≤ N ∧
   Z.abs (N - meta_pages p - q) ≤ (2 * d + PGSIZE - 1) / PGSIZE).
Proof using Hms Hlim Hm0 Hl0 Hd Hfix Hcls Hlo Hq.
  intros Hp Hpd. pose proof pages_bound. destruct (Hcls p Hp) as (Ec & Hlt & Hnext). pose proof (meta_pos p ltac:(lia)).
  rewrite layout_step by (done || lia). rewrite (proj2 (Z.leb_gt _ _)) by done.
  pose proof (meta_close p Ec) as Hcl.
  assert ((2 * Z.abs (p - q) + PGSIZE - 1) / PGSIZE ≤ (2 * d + PGSIZE - 1) / PGSIZE) by (apply Z.div_le_mono; unfold PGSIZE; lia).
  destruct (Z.eqb_spec (N - meta_pages p) p) as [Ep|Ep]; [|right; split; [done|lia]].
  left. eexists. split; [done|]. cbn. by apply (fixed_unique p).
Qed.

(** From one side of the fixed point to the other, and from there to it. *)
Lemma meta_neighbour p : cap p = cap q → N - meta_pages p ≠ q → Z.abs (p - q) = 1 →
  N - meta_pages p = 2 * q - p ∧ (cap (2 * q - p) = cap q → meta_pages (2 * q - p) = meta_pages q).
Proof using Hfix.
  intros Ec Hne Hp. unfold meta_pages in *. rewrite Ec in *. clear -Hne Hp Hfix. revert Hfix Hne. generalize ((lim - ms) / PGSIZE). intros n.
  destruct (decide (cap (2 * q - p) = cap q)) as [->|Hc]; [|intros ?? ; split; [|done]; revert Hfix Hne].
  all: generalize (cap q); unfold sizeof_BuddySystem, PGSIZE; intros c Hfix Hne; assert (p = q + 1 ∨ p = q - 1) as [->| ->] by lia.
  all: Z.to_euclidean_division_equations; lia.
Qed.

Lemma loop_near n p : lo ≤ p ≤ N → Z.abs (p - q) ≤ 1 →
  ∃ l, layout_loop (S (S (S n))) ms lim p = Ret l ∧ managed_pages l = q.
Proof using Hms Hlim Hm0 Hl0 Hd Hfix Hcls Hlo Hq.
  intros Hp H1. destruct (loop_step (S (S n)) p 1 Hp H1) as [?|(-> & Hp' & _)]; [done|]. set (p' := N - meta_pages p) in *.
  assert (∀ n, ∃ l, layout_loop (S n) ms lim q = Ret l ∧ managed_pages l = q) as Hat.
  { intros n'. pose proof (meta_pos q Hq). destruct (Hcls q ltac:(lia)) as (_ & ? & _). rewrite layout_step by done.
    rewrite (proj2 (Z.leb_gt _ _)), (proj2 (Z.eqb_eq _ _)) by lia. eauto. }
  destruct (decide (p' = q)) as [->|Hne]; [apply Hat|]. destruct (decide (p = q)) as [->|]; [lia|].
  destruct (Hcls p Hp) as (Ec & _). destruct (meta_neighbour p Ec Hne ltac:(lia)) as [E1 E2]. fold p' in E1.
  rewrite <- E1 in E2. specialize (E2 (proj1 (Hcls p' Hp'))).
  destruct (loop_step (S n) p' 1 Hp' ltac:(lia)) as [?|(-> & _)]; [done|].
  rewrite E2. replace (N - meta_pages q) with q by lia. apply Hat.
Qed.

(** From a distance of [2 ^ 29] pages three turns lead to a distance of one. *)
Lemma loop_converges n p : lo ≤ p ≤ N → ∃ l, layout_loop (6 + n) ms lim p = Ret l ∧ managed_pages l = q.
Proof using Hms Hlim Hm0 Hl0 Hd Hfix Hcls Hlo Hq.
  intros Hp. pose proof pages_bound.
  destruct (loop_step (5 + n) p (2 ^ 29) Hp ltac:(lia)) as [?|(E1 & Hp1 & Hd1)]; [done|].
  change (6 + n)%nat with (S (5 + n)). rewrite E1.
  destruct (loop_step (4 + n) _ _ Hp1 Hd1) as [?|(E2 & Hp2 & Hd2)]; [done|]. change (5 + n)%nat with (S (4 + n)). rewrite E2.
  destruct (loop_step (3 + n) _ _ Hp2 Hd2) as [?|(E3 & Hp3 & Hd3)]; [done|]. change (4 + n)%nat with (S (3 + n)). rewrite E3.
  change ((2 * ((2 * ((2 * 2 ^ 29 + PGSIZE - 1) / PGSIZE) + PGSIZE - 1) / PGSIZE) + PGSIZE - 1) / PGSIZE) with 1 in Hd3.
  exact (loop_near n _ Hp3 Hd3).
Qed.
End converge.

Lemma cap_mono p p' : 0 ≤ p ≤ p' → p' ≤ 2 ^ 29 → cap p ≤ cap p'.
Proof using.
  intros Hp Hp'. destruct (decide (p = 0)) as [->|]; [apply (cap_spec p' ltac:(lia))|].
  unfold cap, Buddy.capacity_pages_for. rewrite !(proj2 (Z.eqb_neq _ _)) by lia.
  rewrite !BuddySpec.NextPowerOfTwo_log2_up by lia. apply Z.pow_le_mono_r; [done|]. apply Z.log2_up_le_mono. lia.
Qed.

Lemma meta_mono p p' : 0 ≤ p ≤ p' → p' ≤ 2 ^ 29 → meta_pages p ≤ meta_pages p'.
Proof using. intros Hp Hp'. pose proof (cap_mono p p' Hp Hp'). apply Z.div_le_mono; unfold PGSIZE; lia. Qed.

Lemma layout_converges q : 16 < N → 0 ≤ q ≤ N → q + meta_pages q = N → cap (N - meta_pages N) = cap N →
  ∃ l, calculate_pmm_layout ms lim = Ret l ∧ managed_pages l = q.
Proof using Hms Hlim Hm0 Hl0 Hd.
  intros HN Hq Hfix Hcap. pose proof pages_bound as HNb. destruct (cap_spec N HNb) as (Hc & Hc1 & Hc2).
  assert (lim = ms + N * PGSIZE) as El.
  { apply Z.mod_divide in Hms as [x Ex]; [|done]. apply Z.mod_divide in Hlim as [y Ey]; [|done].
    rewrite Ex, Ey, <- Z.mul_sub_distr_r, Z.div_mul by done. lia. }
  set (n := N) in *. clearbody n. assert (meta_pages n < n) as HMN by (apply Z.div_lt_upper_bound; unfold sizeof_BuddySystem, PGSIZE; lia).
  pose proof (meta_pos q ltac:(lia)). pose proof (meta_mono q n ltac:(lia) ltac:(lia)).
  unfold calculate_pmm_layout. rewrite u64_small by (unfold PGSIZE in *; lia). rewrite (proj2 (Z.leb_gt _ _)) by (unfold PGSIZE in *; lia).
  rewrite (u64_small (lim - ms)) by (unfold PGSIZE in *; lia). assert ((lim - ms) / PGSIZE = n) as En.
  { rewrite El, Z.add_simpl_l. by apply Z.div_mul. }
  rewrite En, (proj2 (Z.ltb_ge _ _)), u32_small by (unfold UINT32_MAX; lia). rewrite <- En in Hfix.
  apply (loop_converges q ltac:(lia) Hfix (n - meta_pages n)) with (n := 10%nat); rewrite ?En; [lia| |lia].
  intros x Hx. pose proof (cap_mono (n - meta_pages n) x ltac:(lia) ltac:(lia)). pose proof (cap_mono x n ltac:(lia) ltac:(lia)).
  pose proof (cap_mono (n - meta_pages n) q ltac:(lia) ltac:(lia)). pose proof (cap_mono q n ltac:(lia) ltac:(lia)).
  pose proof (meta_mono x n ltac:(lia) ltac:(lia)). split_and!; lia.
Qed.
End layout.

Lemma layout_ok ms lim l : page_aligned ms → page_aligned lim → 0 ≤ ms ≤ 2 ^ 48 → lim ≤ 2 ^ 48 → lim - ms ≤ 2 ^ 29 * PGSIZE →
  calculate_pmm_layout ms lim = Ret l →
  LayoutOk ms lim l ∧ managed_pages l + meta_pages (managed_pages l) = (lim - ms) / PGSIZE.
Proof.
  intros Hms Hlim Hm0 Hl0 Hd E. unfold calculate_pmm_layout in E.
  rewrite u64_small in E by (unfold PGSIZE; lia). destruct (Z.leb_spec lim (ms + PGSIZE * 16)) as [|Hlt]; [done|].
  assert (ms < lim) as Hml by (unfold PGSIZE in Hlt; lia). rewrite u64_small in E by lia. pose proof (pages_bound ms lim ltac:(lia)).
  rewrite (proj2 (Z.ltb_ge _ _)), u32_small in E by (unfold UINT32_MAX; lia).
  by apply (layout_loop_ok ms lim Hms Hlim ltac:(lia) Hl0 ltac:(lia) 16 _ l) in E.
Qed.

(** ** The heap *)

(** The allocator object with its tree, the heap pages and the shared memory fit in
    the area, in this order. *)
Record HeapOk (area : Z) (h : HeapLayout) : Prop := {
  ho_meta : Buddy.required_storage_bytes sizeof_BuddySystem (allocator_pages h) ≤ metadata_bytes h ∧ page_aligned (metadata_bytes h);
  ho_heap : allocator_bytes h = allocator_pages h * PGSIZE ∧ 0 < allocator_pages h ≤ maximum_heap_pages;
  ho_shm : 0 ≤ shm_bytes h ≤ SHM_SIZE ∧ page_aligned (shm_bytes h);
  ho_fits : metadata_bytes h + allocator_bytes h + shm_bytes h ≤ area
}.

Lemma heap_pages_max : maximum_heap_pages = 65536.
Proof. by vm_compute. Qed.

Lemma storage_bytes p : 0 ≤ p ≤ maximum_heap_pages →
  0 ≤ Buddy.required_storage_bytes sizeof_BuddySystem p ≤ 2 ^ 32.
Proof.
  rewrite heap_pages_max. intros Hp. unfold Buddy.required_storage_bytes, Buddy.required_tree_bytes. fold (cap p).
  destruct (cap_spec p ltac:(lia)) as (_ & ? & ?). rewrite (u64_small (cap p * 2 - 1)), u64_small by (unfold sizeof_BuddySystem; lia).
  unfold sizeof_BuddySystem. lia.
Qed.

#[local] Opaque maximum_heap_pages.

Lemma heap_loop_ok n area budget : ∀ p h, 0 ≤ budget ≤ area → area < 2 ^ 48 → 0 ≤ p ≤ maximum_heap_pages →
  heap_loop n area budget p = Ret h → allocator_pages h ≠ 0 → HeapOk area h.
Proof.
  induction n as [|n IH]; intros p h Hb Ha Hp E Hne; cbn [heap_loop] in E; [done|].
  pose proof (storage_bytes p Hp) as Hst. destruct (PGROUNDUP_spec (Buddy.required_storage_bytes sizeof_BuddySystem p) ltac:(lia)) as [Hal Hr];
    [unfold PGSIZE; lia|]. set (meta := PGROUNDUP _) in *. pose proof heap_pages_max as Hmax.
  set (next := if maximum_heap_pages <? _ then _ else _) in E.
  assert (0 ≤ next ≤ maximum_heap_pages ∧ (next ≠ 0 → meta + next * PGSIZE ≤ budget)) as [Hn Hfit].
  { unfold next. destruct (Z.ltb_spec meta budget); [|rewrite (proj2 (Z.ltb_ge _ _)) by lia; split; lia].
    pose proof (Z.div_mod (budget - meta) PGSIZE ltac:(done)). pose proof (Z.mod_pos_bound (budget - meta) PGSIZE ltac:(done)).
    pose proof (Z.div_pos (budget - meta) PGSIZE ltac:(lia) ltac:(done)).
    destruct (Z.ltb_spec maximum_heap_pages ((budget - meta) / PGSIZE)); unfold PGSIZE in *; split; lia. }
  clearbody next. rewrite u32_small in E by lia. destruct (Z.eqb_spec next p) as [Ep|Ep]; [|by apply (IH next h)]. subst p.
  injection E as <-. cbn in Hne. specialize (Hfit Hne).
  rewrite u64_small by (unfold PGSIZE in *; lia). set (rem := area - meta - next * PGSIZE) in *.
  assert (0 ≤ (if SHM_SIZE <? rem then SHM_SIZE else rem) ≤ SHM_SIZE ∧ (if SHM_SIZE <? rem then SHM_SIZE else rem) ≤ rem) as [Hs Hs'].
  { destruct (Z.ltb_spec SHM_SIZE rem); (split; [|lia]); split; (lia || done). }
  destruct (PGROUNDDOWN_spec (if SHM_SIZE <? rem then SHM_SIZE else rem)) as (Hsa & Hsr & Hs0).
  { split; [lia|]. apply Z.le_lt_trans with SHM_SIZE; [lia|by vm_compute]. }
  split; cbn [metadata_bytes allocator_bytes shm_bytes allocator_pages].
  - split; [lia|done].
  - split; [done|]. clear -Hn Hne. lia.
  - split; [clear -Hs Hsr Hs0; lia|done].
  - clear -Hsr Hs'. unfold rem in *. lia.
Qed.

#[local] Opaque heap_loop.

Lemma heap_layout_ok area h : 0 ≤ area < 2 ^ 48 → calculate_heap_layout area = Ret h → allocator_pages h ≠ 0 → HeapOk area h.
Proof.
  intros Ha E Hne. unfold calculate_heap_layout in E.
  set (shm := PGROUNDDOWN _) in E. set (budget := if shm <? area then _ else _) in E.
  assert (0 ≤ area / 3 ≤ area) as H3 by (split; [apply Z.div_pos; lia|apply Z.div_le_upper_bound; lia]).
  assert (0 ≤ shm) as Hs.
  { unfold shm. destruct (Z.ltb_spec SHM_SIZE (area / 3)); [by vm_compute|]. apply PGROUNDDOWN_spec. lia. }
  assert (0 ≤ budget ≤ area) as Hb by (unfold budget; destruct (Z.ltb_spec shm area); lia).
  refine (heap_loop_ok _ _ _ _ h Hb ltac:(lia) _ E Hne). rewrite heap_pages_max.
  pose proof (Z.mod_pos_bound (budget / PGSIZE) (2 ^ 32) ltac:(done)). unfold u32.
  destruct (Z.ltb_spec 65536 ((budget / PGSIZE) mod 2 ^ 32)); lia.
Qed.

(** ** The whole layout *)

(** Physical addresses and sizes below 2 TiB, and at most as many reserved regions
    as the device tree reader reports. *)
Definition boot_limit : Z := 2 ^ 41.
Definition fits (r : Z * Z) : Prop := 0 ≤ r.1 ∧ 0 ≤ r.2 ∧ r.1 + r.2 ≤ boot_limit.

Record BootOk (b : BootInfo) : Prop := {
  bo_kernel : 0 ≤ kernel_start b < end_ b ∧ end_ b ≤ boot_limit;
  bo_dtb : fits (k_dtb_addr b, dtb_size b);
  bo_initrd : 0 ≤ (boot_initrd b).1 ≤ boot_limit ∧ 0 ≤ (boot_initrd b).2 ≤ boot_limit;
  bo_reserved : Forall fits (reserved_regions b) ∧ Z.of_nat (length (reserved_regions b)) ≤ k_max_reserved_regions;
  bo_memory : Forall fits (memory_regions b) ∧ 0 ≤ managed_physical_top b
}.

(** What must not be handed out: the kernel image, the device tree, the initial disk
    and the firmware's regions. *)
Inductive occupied (b : BootInfo) : ReservedRange → Prop :=
  | occ_kernel : occupied b (mkReserved (kernel_start b) (end_ b))
  | occ_dtb : k_dtb_addr b ≠ 0 → occupied b (mkReserved (k_dtb_addr b) (k_dtb_addr b + dtb_size b))
  | occ_initrd : has_initrd (boot_initrd b) = true → occupied b (mkReserved (boot_initrd b).1 (boot_initrd b).2)
  | occ_firmware base size : (base, size) ∈ reserved_regions b → size ≠ 0 → occupied b (mkReserved base (base + size)).

Lemma checked_top base size : fits (base, size) → checked_region_top base size = if size =? 0 then None else Some (base + size).
Proof.
  intros (Hb & Hs & Hl). unfold boot_limit in *. cbn in *. unfold checked_region_top. destruct (size =? 0); [done|].
  by rewrite (proj2 (Z.ltb_ge _ _)) by lia.
Qed.

Lemma firmware_ranges_spec l : ∀ room, Forall fits l → (length l ≤ room)%nat →
  (length (firmware_ranges room l) ≤ length l)%nat ∧
  ∀ r, r ∈ firmware_ranges room l ↔ ∃ base size, r = mkReserved base (base + size) ∧ (base, size) ∈ l ∧ size ≠ 0.
Proof.
  induction l as [|[base size] l IH]; intros room Hf Hl.
  { destruct room; cbn; (split; [lia|]); intros r; (split; [by intros ?%not_elem_of_nil|]); by intros (? & ? & _ & ?%not_elem_of_nil & _). }
  apply Forall_cons in Hf as [Hh Hf]. cbn in Hl. destruct room as [|room]; [lia|]. cbn [firmware_ranges]. rewrite checked_top by done.
  destruct (Z.eqb_spec size 0) as [->|Hne].
  - destruct (IH (S room) Hf ltac:(lia)) as [Hlen Hr]. split; [cbn [length]; lia|]. intros r. rewrite Hr.
    split; intros (b & z & -> & Hin & Hz); exists b, z; (split; [done|split; [|done]]); [by right|].
    apply elem_of_cons in Hin as [[= _ ?]|?]; done.
  - destruct (IH room Hf ltac:(lia)) as [Hlen Hr]. split; [cbn [length]; lia|]. intros r. rewrite elem_of_cons, Hr. split.
    + intros [->|(b & z & -> & Hin & Hz)]; [exists base, size|exists b, z]; (split; [done|split; [|done]]); [by left|by right].
    + intros (b & z & -> & [[= -> ->]|Hin]%elem_of_cons & Hz); [by left|right; eauto].
Qed.

Lemma reserved_ranges_spec b rs : BootOk b → reserved_ranges b = Ret rs →
  (length rs ≤ k_max_reserved_ranges)%nat ∧ (∀ r, r ∈ rs → valid_range r) ∧
  ∀ r, occupied b r → ∃ r', r' ∈ rs ∧ r_start r' ≤ r_start r ∧ r_end r ≤ r_end r'.
Proof.
  intros [[Hk0 Hk1] Hdtb [Hi1 Hi2] [Hr Hrl] _] E. unfold reserved_ranges in E. unfold boot_limit in *.
  destruct (PGROUNDDOWN_spec (kernel_start b) ltac:(lia)) as (_ & Hks & Hks0).
  destruct (PGROUNDUP_spec (end_ b) ltac:(lia) ltac:(unfold PGSIZE; lia)) as (_ & Hke).
  rewrite (proj2 (Z.leb_gt _ _)) in E by lia. rewrite checked_top in E by done.
  assert (∃ dtb, (k_dtb_addr b = 0 ∧ dtb = [] ∨ k_dtb_addr b ≠ 0 ∧ dtb_size b ≠ 0 ∧ dtb = [mkReserved (k_dtb_addr b) (k_dtb_addr b + dtb_size b)]) ∧
    rs = (mkReserved (PGROUNDDOWN (kernel_start b)) (PGROUNDUP (end_ b)) :: dtb ++
      (if has_initrd (boot_initrd b) then [mkReserved (boot_initrd b).1 (boot_initrd b).2] else [])) ++
      firmware_ranges (k_max_reserved_ranges - length (mkReserved (PGROUNDDOWN (kernel_start b)) (PGROUNDUP (end_ b)) :: dtb ++
        (if has_initrd (boot_initrd b) then [mkReserved (boot_initrd b).1 (boot_initrd b).2] else []))) (reserved_regions b)) as (dtb & Hd & ->).
  { destruct (Z.eqb_spec (k_dtb_addr b) 0); [|destruct (Z.eqb_spec (dtb_size b) 0)]; cbn beta iota delta [obind] in E; [|done|]; injection E as <-.
    - exists []. split; [by left|reflexivity].
    - exists [mkReserved (k_dtb_addr b) (k_dtb_addr b + dtb_size b)]. split; [by right|reflexivity]. }
  clear E. set (ini := if has_initrd _ then _ else _).
  assert (length dtb ≤ 1 ∧ length ini ≤ 1)%nat as [Hld Hli].
  { split; [destruct Hd as [[_ ->]|(_ & _ & ->)]; cbn; lia|unfold ini; destruct (has_initrd _); cbn; lia]. }
  set (rs := _ :: dtb ++ ini). assert (length rs = S (length dtb + length ini)) as Hlr by (unfold rs; cbn; by rewrite length_app).
  destruct (firmware_ranges_spec (reserved_regions b) (k_max_reserved_ranges - length rs) Hr) as [Hlf Hfr].
  { unfold k_max_reserved_ranges, k_max_reserved_regions in *. lia. }
  split; [rewrite length_app; unfold k_max_reserved_ranges, k_max_reserved_regions in *; lia|]. unfold fits, boot_limit in Hdtb. cbn in Hdtb.
  assert (∀ r, r ∈ ini ↔ has_initrd (boot_initrd b) = true ∧ r = mkReserved (boot_initrd b).1 (boot_initrd b).2) as Hini.
  { intros r. unfold ini. destruct (has_initrd (boot_initrd b)); [rewrite list_elem_of_singleton; naive_solver|].
    split; [by intros ?%not_elem_of_nil|by intros [? _]]. }
  split.
  - intros r [Hin|Hin]%elem_of_app; unfold valid_range.
    + apply elem_of_cons in Hin as [->|[Hin|Hin]%elem_of_app]; cbn.
      * unfold PGSIZE in *. lia.
      * destruct Hd as [[_ ->]|(_ & ? & ->)]; [by apply not_elem_of_nil in Hin|]. apply list_elem_of_singleton in Hin as ->. cbn. unfold PGSIZE. lia.
      * apply Hini in Hin as [Hin ->]. apply andb_prop in Hin as [_ Hin%Z.ltb_lt]. cbn. unfold PGSIZE. lia.
    + apply Hfr in Hin as (base & size & -> & Hin & Hne). rewrite Forall_forall in Hr. destruct (Hr _ Hin) as (? & ? & ?).
      unfold boot_limit in *. cbn in *. unfold PGSIZE. lia.
  - intros r Hocc. destruct Hocc as [|Hn|Hh|base size Hin Hne].
    + exists (mkReserved (PGROUNDDOWN (kernel_start b)) (PGROUNDUP (end_ b))). split; [by left|cbn; lia].
    + eexists. split; [|done]. apply elem_of_app. left. right. apply elem_of_app. left.
      destruct Hd as [[? _]|(_ & _ & ->)]; [done|by left].
    + eexists. split; [|done]. apply elem_of_app. left. right. apply elem_of_app. right. by apply Hini.
    + eexists. split; [|done]. apply elem_of_app. right. apply Hfr. eauto.
Qed.

Lemma limited_regions_spec b r : BootOk b → r ∈ limited_regions b →
  fits r ∧ ∃ size, (r.1, size) ∈ memory_regions b ∧ r.2 ≤ size.
Proof.
  intros [_ _ _ _ [Hm Hl]] Hin. rewrite Forall_forall in Hm. unfold limited_regions in Hin. destruct (managed_physical_top b =? _).
  { destruct r as [base size]. split; [by apply Hm|]. exists size. split; [done|cbn; lia]. }
  apply list_elem_of_fmap in Hin as ([base size] & -> & Hin). pose proof (Hm _ Hin) as Hf. pose proof Hf as (? & ? & ?). cbn in *.
  unfold limit_region. cbn. rewrite checked_top by done. destruct (Z.eqb_spec size 0) as [->|].
  { split; [done|]. exists 0. done. }
  destruct (Z.leb_spec (managed_physical_top b) base); [cbn; split; [split_and!; cbn; lia|exists size; split; [done|lia]]|].
  destruct (Z.ltb_spec (managed_physical_top b) (base + size)); cbn; (split; [split_and!; cbn; lia|exists size; split; [done|lia]]).
Qed.

(** The interval chosen so far is usable and lies in one RAM region. *)
Definition chosen_ok (b : BootInfo) (rs : list ReservedRange) (u : UsableInterval) : Prop :=
  bytes u = 0 ∨ ∃ base size, (base, size) ∈ memory_regions b ∧ usable_pages base (base + size) rs (u_start u) (u_top u).

Lemma choose_spec b rs kernel_end l : BootOk b → (length rs ≤ k_max_reserved_ranges)%nat → (∀ r, r ∈ rs → valid_range r) →
  0 ≤ kernel_end ≤ boot_limit → (∀ r, r ∈ l → r ∈ limited_regions b) → ∀ c, chosen_ok b rs (best_interval c) →
  chosen_ok b rs (best_interval (foldl (choose_region kernel_end rs) c l)).
Proof.
  intros Hb Hlen Hv Hke. induction l as [|r l IH]; intros Hl c Hc; [done|]. cbn [foldl]. apply IH; [intros; apply Hl; by right|].
  destruct (limited_regions_spec b r Hb ltac:(apply Hl; by left)) as [(Hr1 & Hr2 & Hr3) (size & Hin & Hsz)].
  unfold choose_region. rewrite checked_top by (by split_and!). destruct (Z.eqb_spec r.2 0); [done|]. cbn [best_interval].
  set (raw := if _ && _ then kernel_end else r.1). destruct (bytes (best_interval c) <? _) eqn:Eb; [|done].
  unfold boot_limit in *.
  assert (r.1 ≤ raw ∧ 0 ≤ raw ≤ 2 ^ 41) as [Hraw Hraw'].
  { unfold raw. destruct (Z.ltb_spec r.1 kernel_end), (Z.leb_spec kernel_end (r.1 + r.2)); cbn; lia. }
  destruct (largest_interval_spec raw (r.1 + r.2) rs) as [[H0|Hu] _]; try done; try (unfold PGSIZE; lia); [by left|right].
  exists r.1, size. split; [done|]. destruct Hu as (Hsa & Hta & Hs & Ht & Hav).
  destruct (PGROUNDUP_spec raw ltac:(lia) ltac:(unfold PGSIZE; lia)) as [_ ?].
  destruct (PGROUNDDOWN_spec (r.1 + r.2) ltac:(lia)) as (_ & ? & _). split_and!; (done || lia).
Qed.

(** What [init] promises. *)
Record InitOk (b : BootInfo) (s : PmmState) : Prop := {
  io_ram : ∃ base size, (base, size) ∈ memory_regions b ∧ base ≤ metadata_start (layout s) ∧ phys_top s ≤ base + size;
  io_free : ∀ r, occupied b r → avoids (metadata_start (layout s)) (phys_top s) r;
  io_layout : LayoutOk (metadata_start (layout s)) (heap_area_start s) (layout s);
  io_heap : Buddy.required_storage_bytes sizeof_BuddySystem (heap_page_count s) ≤
      shm_start s - heap_allocator_size s - heap_area_start s ∧
    heap_allocator_size s = heap_page_count s * PGSIZE ∧ 0 < heap_page_count s;
  io_shm : shm_start s + shm_size s = heap_area_start s + heap_area_size s ∧ 0 < shm_size s ∧
    heap_area_start s + heap_area_size s ≤ phys_top s;
  io_pmm : ∀ f, (∀ a, managed (mkMachine (manager s) f []) a → ∃ ws, f !! a = Some ws ∧ length ws = page_words) →
    PmmOk (mkMachine (manager s) f []) ∧ ∀ a, rc (mkMachine (manager s) f []) a = 0
}.

Lemma storage_pos p : 0 < p ≤ 2 ^ 29 → 0 < Buddy.required_tree_bytes p.
Proof.
  intros Hp. unfold Buddy.required_tree_bytes. fold (cap p). destruct (cap_spec p ltac:(lia)) as (? & ? & _). rewrite u64_small; lia.
Qed.

(** A manager with a fresh buddy system: every managed page is free. *)
Lemma fresh_manager_ok start pages storage size buddy f : page_aligned start → 0 < start → 0 < pages ≤ 2 ^ 29 →
  start + pages * PGSIZE ≤ 2 ^ 48 → size ≤ Z.of_nat (length storage) → Buddy.required_tree_bytes pages ≤ size →
  Buddy.Initialize start pages (Some storage) size = Ret buddy →
  let m := mkMachine (mkPmm buddy start pages (replicate (Z.to_nat pages) 0)) f [] in
  (∀ a, managed m a → ∃ ws, f !! a = Some ws ∧ length ws = page_words) → PmmOk m ∧ ∀ a, rc m a = 0.
Proof.
  intros Hal Hs0 Hp Hend Hst Hsz Ei m Hf.
  destruct (BuddyCorrect.Initialize_spec start pages storage size) as (b & Eb & HI & Hal' & Hpc & _ & _); [lia|done..|].
  rewrite Ei in Eb. injection Eb as <-.
  assert (∀ i, 0 ≤ i < pages → ref m i = 0) as Href.
  { intros i Hi. unfold ref. cbn. by rewrite lookup_total_replicate_2 by lia. }
  split; [split; cbn|].
  - done.
  - lia.
  - done.
  - rewrite length_replicate. lia.
  - intros i Hi. rewrite Href by done. split; [unfold UINT16_MAX; lia|]. split; [lia|]. intros (o & n & Ho & _).
    unfold blocks_of in Ho. cbn in Ho. rewrite Hal' in Ho. by apply not_elem_of_nil in Ho.
  - done.
  - intros a. unfold rc. case_decide as Ha; [|done]. apply Href. by apply (managed_index m a Ha).
Qed.

Lemma manager_ok l f buddy ms lim : LayoutOk ms lim l → 0 ≤ ms → lim ≤ 2 ^ 41 → managed_pages l ≤ 2 ^ 29 →
  Buddy.Initialize (managed_start l) (managed_pages l) (Some (replicate (Z.to_nat (tree_bytes l)) Buddy.NODE_UNUSED)) (tree_bytes l) = Ret buddy →
  let m := mkMachine (mkPmm buddy (managed_start l) (managed_pages l) (replicate (Z.to_nat (managed_pages l)) 0)) f [] in
  (∀ a, managed m a → ∃ ws, f !! a = Some ws ∧ length ws = page_words) → PmmOk m ∧ ∀ a, rc m a = 0.
Proof.
  intros [Hst [Ht1 Ht2] [Hr1 Hr2] He [Hm1 Hm2] Hlim Hp] Hms Hl Hpg Ei. pose proof (storage_pos (managed_pages l) ltac:(lia)).
  unfold sizeof_BuddySystem in *. refine (fresh_manager_ok _ _ _ _ _ _ Hm2 _ _ _ _ _ Ei); rewrite ?length_replicate; lia.
Qed.

Lemma heap_region_bounds avail : PGSIZE * 64 < avail ≤ 2 ^ 41 → 0 ≤ heap_region_bytes avail ≤ avail.
Proof.
  intros Ha. unfold PGSIZE in Ha. unfold heap_region_bytes.
  change (PGROUNDUP (Buddy.required_storage_bytes sizeof_BuddySystem maximum_heap_pages)) with 135168.
  change (PGROUNDUP (Buddy.required_storage_bytes sizeof_BuddySystem (u32 (_1M * 8 / PGSIZE)))) with 8192.
  change (135168 + vm_kernel_heap_size + SHM_SIZE) with 335679488. change (8192 + _1M * 8 + _1M * 2) with 10493952.
  pose proof (Z.div_pos avail 3 ltac:(lia) ltac:(lia)). assert (avail / 3 ≤ avail) by (apply Z.div_le_upper_bound; lia).
  set (h := if 335679488 <? _ then _ else _). assert (0 ≤ h ≤ 2 ^ 41) as Hh.
  { unfold h. destruct (Z.ltb_spec (avail / 3) 10493952); case_match; lia. }
  clearbody h. rewrite u64_small by (unfold PGSIZE; lia). destruct (Z.ltb_spec avail (h + PGSIZE * 64)); [lia|]. unfold PGSIZE in *. lia.
Qed.

Lemma init_spec b s : BootOk b → init b = Ret s → InitOk b s.
Proof.
  intros Hb E. unfold init in E. apply obind_Ret in E as (rs & Ers & E).
  destruct (reserved_ranges_spec b rs Hb Ers) as (Hlen & Hv & Hocc).
  pose proof (bo_kernel _ Hb) as [Hk1 Hk2]. unfold boot_limit in *.
  destruct (PGROUNDUP_spec (end_ b) ltac:(lia) ltac:(unfold PGSIZE; lia)) as [Hka Hke].
  pose proof (aligned_le (PGROUNDUP (end_ b)) (2 ^ 41) Hka eq_refl ltac:(lia)) as Hkl.
  assert (0 ≤ PGROUNDUP (end_ b) ≤ 2 ^ 41) as Hkb by lia.
  pose proof (choose_spec b rs (PGROUNDUP (end_ b)) (limited_regions b) Hb Hlen Hv Hkb (λ _ H, H)
    (mkChoice false 0 0 no_interval) (or_introl eq_refl)) as Hch.
  set (c := foldl _ _ _) in *. clearbody c.
  destruct (negb (kernel_found c)); [done|]. destruct (Z.eqb_spec (bytes (best_interval c)) 0) as [|Hne]; [done|].
  destruct Hch as [?|(base & size & Hreg & Hsa & Hta & Hst & Htop & Hav)]; [done|].
  pose proof (bo_memory _ Hb) as [Hm _]. rewrite Forall_forall in Hm. destruct (Hm _ Hreg) as (Hb0 & Hb1 & Hb2). unfold boot_limit in *. cbn in Hb0, Hb1, Hb2.
  set (u := best_interval c) in *. rewrite PGROUNDUP_aligned in E by (done || unfold PGSIZE; lia). rewrite PGROUNDDOWN_aligned in E by (done || lia).
  rewrite u64_small in E by (unfold PGSIZE; lia). destruct (Z.leb_spec (u_top u) (u_start u + PGSIZE * 64)); [done|].
  destruct (heap_region_bounds (u_top u - u_start u) ltac:(lia)) as [Hh1 Hh2].
  set (raw := u_top u - heap_region_bytes (u_top u - u_start u)) in *.
  destruct (PGROUNDDOWN_spec raw ltac:(lia)) as (Hha & Hhr & Hh0). set (has := PGROUNDDOWN raw) in *. clearbody has.
  apply obind_Ret in E as (l & El & E). apply obind_Ret in E as (h & Eh & E).
  destruct (layout_ok (u_start u) has l Hsa Hha ltac:(lia) ltac:(lia) ltac:(unfold PGSIZE; lia) El) as [HL _].
  destruct (Z.eqb_spec (allocator_pages h) 0) as [|Hp]; [done|]. destruct (Z.eqb_spec (shm_bytes h) 0) as [|Hs]; [done|].
  cbn [orb] in E. apply obind_Ret in E as (buddy & Ebu & E). injection E as <-.
  destruct (heap_layout_ok (u_top u - has) h ltac:(lia) Eh Hp) as [[Hm1 Hm2] [Hn1 Hn2] [Hs1 Hs2] Hfit].
  pose proof (lo_start _ _ _ HL) as Els. pose proof (storage_bytes (allocator_pages h) ltac:(lia)).
  rewrite u64_small by (unfold PGSIZE in *; lia).
  split; cbn [layout phys_top heap_area_start heap_area_size heap_allocator_size heap_page_count shm_start shm_size manager]; rewrite ?Els.
  - exists base, size. split; [done|lia].
  - intros r Hr. destruct (Hocc r Hr) as (r' & Hr' & Hr1 & Hr2). destruct (Hav r' Hr') as [?|?]; [left|right]; lia.
  - done.
  - split_and!; (done || lia).
  - lia.
  - intros f Hf. apply (manager_ok l f buddy (u_start u) has); try done; [lia|lia|].
    pose proof (lo_pages _ _ _ HL). assert ((has - u_start u) / PGSIZE ≤ 2 ^ 29); [|lia]. apply Z.div_le_upper_bound; unfold PGSIZE; lia.
Qed.

End PmmBoot.
