(* ===== verification/PmmCorrect.v ===== *)
(** * The physical memory manager is correct

    Single pages are a store of reference counts, blocks come and go whole, the
    boot code chooses the longest usable interval and divides it soundly. *)
From S2P Require Import Prelude Page Buddy BuddySpec BuddyCorrect Pmm PmmSpec PmmInit PmmBoot.
Import Page Pmm PmmSpec PmmBlocks PmmInit PmmBoot.

Module PmmCorrect.

(** ** Single pages as reference counts *)

Inductive PmmOp :=
  | OpAlloc (clear : bool)
  | OpRetain (a : Z)
  | OpFree (a : Z).

Definition pmm_exec (m : Machine) (op : PmmOp) : outcome (Machine * Z) :=
  match op with
  | OpAlloc clear => try_alloc_page_impl m clear
  | OpRetain a => let! (m, ok) := retain_page m a in Ret (m, if ok : bool then 1 else 0)
  | OpFree a => let! m := free_page m a in Ret (m, 0)
  end.

Fixpoint pmm_run (m : Machine) (ops : list PmmOp) : outcome (Machine * list Z) :=
  match ops with
  | [] => Ret (m, [])
  | op :: ops => let! (m, r) := pmm_exec m op in let! (m, rs) := pmm_run m ops in Ret (m, r :: rs)
  end.

Definition op_ok (op : PmmOp) : Prop :=
  match op with OpAlloc _ => True | OpRetain a | OpFree a => page_aligned a ∧ 0 ≤ a < 2 ^ 64 end.

(** The specification: a count per managed address. *)
Definition set_count (C : Z → Z) (a v : Z) : Z → Z := λ x, if decide (x = a) then v else C x.

Inductive count_step (man : Z → Prop) (C : Z → Z) : PmmOp → (Z → Z) → Z → Prop :=
  | cs_alloc clear a : man a → C a = 0 → count_step man C (OpAlloc clear) (set_count C a 1) a
  | cs_full clear : (∀ a, man a → 0 < C a) → count_step man C (OpAlloc clear) C 0
  | cs_retain a : 0 < C a < UINT16_MAX → count_step man C (OpRetain a) (set_count C a (C a + 1)) 1
  | cs_refuse a : ¬ 0 < C a < UINT16_MAX → count_step man C (OpRetain a) C 0
  | cs_free a : 0 < C a → count_step man C (OpFree a) (set_count C a (C a - 1)) 0
  | cs_foreign a : ¬ man a → count_step man C (OpFree a) C 0.

Inductive count_run (man : Z → Prop) : (Z → Z) → list PmmOp → (Z → Z) → list Z → Prop :=
  | cr_nil C C' : (∀ a, C' a = C a) → count_run man C [] C' []
  | cr_cons C op C1 r D ops C2 rs : count_step man C op C1 r → (∀ a, D a = C1 a) →
      count_run man D ops C2 rs → count_run man C (op :: ops) C2 (r :: rs).

(** Every page in use is a block of its own. *)
Definition all_single (m : Machine) : Prop := PmmOk m ∧ ∀ a, 0 < rc m a → single m a.

Lemma exec_counts m op : all_single m → op_ok op →
  match pmm_exec m op with
  | Ret (m', r) => ∃ C', count_step (managed m) (rc m) op C' r ∧ (∀ a, rc m' a = C' a) ∧ all_single m' ∧ same_layout m m'
  | Panic => ∃ a, op = OpFree a ∧ managed m a ∧ rc m a = 0
  | _ => False
  end.
Proof.
  intros [HO Hs] Hop. destruct op as [clear|a|a]; cbn [pmm_exec].
  - destruct (try_alloc_spec m clear HO) as (m' & pa & -> & [(-> & -> & Hfull)|[[[HO' Hl Hr] Hm Hu Hsi _] _]]).
    + exists (rc m). split; [by constructor|]. done.
    + exists (set_count (rc m) pa 1). split; [by constructor|]. split; [done|]. split; [|done]. split; [done|].
      intros a Ha. apply Hsi. rewrite Hr in Ha. case_decide; [by left|right; auto].
  - destruct Hop as [Hal Ha]. pose proof (retain_spec m a HO Hal Ha) as H. case_bool_decide as Hc.
    + destruct H as (m' & -> & [HO' Hl Hr] & Hsi & _). cbn [obind]. exists (set_count (rc m) a (rc m a + 1)).
      split; [by constructor|]. split; [done|]. split; [|done]. split; [done|]. intros x Hx. apply Hsi, Hs. rewrite Hr in Hx. case_decide; [subst; lia|done].
    + rewrite H. cbn [obind]. exists (rc m). split; [by constructor|]. done.
  - destruct Hop as [Hal Ha]. pose proof (free_page_spec m a HO Hal Ha) as H.
    destruct (decide (managed m a)) as [Hm|Hm]; cycle 1.
    { rewrite decide_False in H by (by intros [? _]). rewrite H by (by intros ?). cbn [obind]. exists (rc m). split; [by constructor|]. done. }
    pose proof (rc_range m a HO). destruct (decide (rc m a = 0)) as [E0|E0].
    { rewrite decide_False in H by (intros Hx; pose proof (single_rc m a HO Hx); lia). rewrite H by (intros ?; by left). cbn [obind]. eauto. }
    rewrite decide_True in H by (apply Hs; lia). destruct H as (m' & -> & [[HO' Hl Hr] Hsi _ _]); [intros _; right; apply Hs; lia|].
    cbn [obind]. exists (set_count (rc m) a (rc m a - 1)). split; [constructor; lia|]. split; [done|]. split; [|done]. split; [done|].
    intros x Hx. apply Hsi. rewrite Hr in Hx. case_decide; [subst; split; [apply Hs; lia|intros _; lia]|split; [auto|done]].
Qed.

Lemma count_run_man man man' C ops C' rs : (∀ a, man a ↔ man' a) → count_run man C ops C' rs → count_run man' C ops C' rs.
Proof.
  intros Hm. induction 1 as [|C op C1 r D ops C2 rs Hs E _ IH]; [by constructor|]. apply (cr_cons _ _ _ C1 _ D); [|done..].
  destruct Hs; constructor; try done; by setoid_rewrite <- Hm || by rewrite <- Hm.
Qed.

(** C4. Any sequence of page allocations, retains and releases behaves as a store of
    reference counts: an allocation finds an address with count zero or all are
    positive, a retain adds one unless the count is zero or full, a release takes one
    away, and addresses outside the managed range are ignored.  Only the release of
    a managed page without references stops the kernel. *)
Theorem pmm_refines_reference_counts m ops : all_single m → Forall op_ok ops →
  match pmm_run m ops with
  | Ret (m', rs) => count_run (managed m) (rc m) ops (rc m') rs ∧ all_single m'
  | Panic => ∃ pre a post C rs, ops = pre ++ OpFree a :: post ∧ count_run (managed m) (rc m) pre C rs ∧ managed m a ∧ C a = 0
  | _ => False
  end.
Proof.
  intros Hm Hops. revert m Hm. induction Hops as [|op ops Hop Hops IH]; intros m Hm; cbn [pmm_run]; [by split; [constructor|]|].
  pose proof (exec_counts m op Hm Hop) as H. destruct (pmm_exec m op) as [[m1 r]| | |]; cbn [obind]; [|..|done|done].
  - destruct H as (C1 & Hs & E & Hm1 & Hl). specialize (IH m1 Hm1).
    assert (∀ a, managed m1 a ↔ managed m a) as Hman by (intros a; by apply managed_layout).
    destruct (pmm_run m1 ops) as [[m2 rs]| | |]; cbn [obind]; [|..|done|done].
    + destruct IH as [Hr Hm2]. split; [|done]. by apply (cr_cons _ _ _ C1 _ (rc m1)); [..|apply (count_run_man (managed m1))].
    + destruct IH as (pre & a & post & C & rs & -> & Hr & Ha & H0). exists (op :: pre), a, post, C, (r :: rs).
      split_and!; [done| |by apply Hman|done]. by apply (cr_cons _ _ _ C1 _ (rc m1)); [..|apply (count_run_man (managed m1))].
  - destruct H as (a & -> & Ha & H0). exists [], a, ops, (rc m), []. split_and!; [done|by constructor|done|done].
Qed.

(** ** A machine of sixteen free pages *)

Definition ram (start pages : Z) : gmap Z (list Z) :=
  list_to_map ((λ i, (start + i * PGSIZE, zero_frame)) <$> seqZ 0 pages).

Lemma ram_lookup start pages i : 0 ≤ i < pages → ram start pages !! (start + i * PGSIZE) = Some zero_frame.
Proof.
  intros Hi. unfold ram. apply elem_of_list_to_map_1.
  - rewrite <- list_fmap_compose. apply NoDup_fmap_2_strong; [|apply NoDup_seqZ]. intros x y _ _ E. cbn in E. unfold PGSIZE in *. lia.
  - apply list_elem_of_fmap. exists i. split; [done|]. apply elem_of_seqZ. lia.
Qed.

Definition demo_machine : Machine :=
  mkMachine (mkPmm (Buddy.mkBuddy 16 16 16 4 (replicate 31 Buddy.NODE_UNUSED) 0x80000000) 0x80000000 16 (replicate 16 0))
    (ram 0x80000000 16) [].

Lemma demo_ok : PmmOk demo_machine ∧ ∀ a, rc demo_machine a = 0.
Proof.
  refine (fresh_manager_ok 0x80000000 16 (replicate 31 Buddy.NODE_UNUSED) 31 _ (ram 0x80000000 16) _ _ _ _ _ _ _ _); [done|lia|lia|done|done|done|by vm_compute|].
  intros a Ha. destruct (managed_index _ a Ha ltac:(done)) as [Hi Ea]. exists zero_frame. split; [|done].
  rewrite Ea. apply (ram_lookup 0x80000000 16). done.
Qed.

Lemma demo_single : all_single demo_machine.
Proof. destruct demo_ok as [HO H0]. split; [done|]. intros a Ha. rewrite H0 in Ha. lia. Qed.

Definition demo_ops : list PmmOp := [OpAlloc true; OpRetain 0x80000000; OpFree 0x80000000; OpFree 0x80000000; OpRetain 0x80000000].

Lemma pmm_refines_reference_counts_witness :
  ∃ m', pmm_run demo_machine demo_ops = Ret (m', [0x80000000; 1; 0; 0; 0]) ∧
    count_run (managed demo_machine) (rc demo_machine) demo_ops (rc m') [0x80000000; 1; 0; 0; 0] ∧ all_single m'.
Proof.
  assert (∃ m', pmm_run demo_machine demo_ops = Ret (m', [0x80000000; 1; 0; 0; 0])) as [m' E] by (eexists; by vm_compute).
  exists m'. split; [done|]. assert (Forall op_ok demo_ops) as Hops by (repeat constructor; done).
  pose proof (pmm_refines_reference_counts demo_machine demo_ops demo_single Hops) as H. by rewrite E in H.
Defined.

(** ** Blocks *)

(** A block of pages that [try_alloc_pages] hands out can be given back with
    [free_pages]; then the reference counts and the blocks in use are those from
    before. *)
Theorem try_alloc_pages_free_pages m count m' a : PmmOk m → 0 < count < 2 ^ 31 →
  try_alloc_pages m count = Ret (m', a) → a ≠ nullptr →
  ∃ m'', free_pages m' a = Ret m'' ∧ PmmOk m'' ∧ (∀ x, rc m'' x = rc m x) ∧ blocks_of m'' ≡ₚ blocks_of m.
Proof.
  intros HO Hc E Hne. destruct (try_alloc_pages_spec m count HO Hc) as [[E' _]|(m1 & o & E' & HF & _ & _)];
    rewrite E in E'; [by injection E' as -> ->|injection E' as <- ->]. pose proof HF as [HO1 Hl Hr Hu Hf Hb _].
  destruct Hr as (Ho & Hn & Hon). pose proof (page_count_bound m HO).
  assert (managed m' (addr_of m o)) as Hm by (apply (managed_layout m); [done|]; apply addr_managed; [apply HO|lia]).
  assert (index_of m' (addr_of m o) = o) as Ei by (rewrite (index_of_layout m) by done; apply index_of_addr).
  assert (∀ i, 0 ≤ i < page_count (pmm m) → ref m' i = if decide (o ≤ i < o + BuddyCorrect.pages_for count) then 1 else ref m i) as Hr1.
  { intros i Hi. by apply (ref_filled m). }
  destruct (free_pages_spec m' (addr_of m o) (BuddyCorrect.pages_for count) HO1 Hm) as (m2 & E2 & [HO2 Hl2 Hf2 Hb2 _ _]).
  { rewrite Ei, Hb. by left. }
  { rewrite Ei. intros i Hi. rewrite Hr1, decide_True by lia. done. }
  exists m2. split; [done|]. split; [done|]. rewrite Ei in *. split.
  - assert (∀ i, 0 ≤ i < page_count (pmm m) → ref m2 i = ref m i) as Href.
    { intros i Hi. unfold ref at 1. rewrite (ref_filled m' _ o (BuddyCorrect.pages_for count) 0); [|done|done|by rewrite (proj2 Hl)].
      rewrite Hr1 by done. case_decide; [|done]. symmetry. by apply Hu. }
    assert (same_layout m m2) as Hl' by (by etrans). intros x. unfold rc. rewrite (index_of_layout m) by done.
    destruct (decide (managed m x)) as [Hx|Hx].
    + rewrite decide_True by (by apply (managed_layout m)). apply Href. by apply (managed_index m x Hx), HO.
    + by rewrite decide_False by (by rewrite (managed_layout m)).
  - apply (Permutation_cons_inv (a := (o, BuddyCorrect.pages_for count))). by rewrite <- Hb2, Hb.
Qed.

Lemma try_alloc_pages_free_pages_witness :
  ∃ m', try_alloc_pages demo_machine 3 = Ret (m', 0x80000000) ∧
  ∃ m'', free_pages m' 0x80000000 = Ret m'' ∧ PmmOk m'' ∧ (∀ x, rc m'' x = rc demo_machine x) ∧ blocks_of m'' ≡ₚ blocks_of demo_machine.
Proof.
  assert (∃ m', try_alloc_pages demo_machine 3 = Ret (m', 0x80000000)) as [m' E] by (eexists; by vm_compute).
  exists m'. split; [done|]. apply (try_alloc_pages_free_pages demo_machine 3); [apply demo_ok|lia|done|done].
Defined.

(** Releasing a batch of page addresses under one lock is releasing them one by
    one, null entries apart; a page of the batch may occur in it more than once. *)
Theorem release_pages_batch_equivalent m pages : PmmOk m →
  Forall (λ a, page_aligned a ∧ 0 ≤ a < 2 ^ 64 ∧ single_or_free m a) pages →
  release_pages_batch m pages = free_each m pages.
Proof. intros HO Hp. by apply release_batch_eq. Qed.

Lemma release_pages_batch_equivalent_witness :
  release_pages_batch demo_machine [0x80000000; 0; 0x80003000] = free_each demo_machine [0x80000000; 0; 0x80003000].
Proof.
  apply release_pages_batch_equivalent; [apply demo_ok|].
  repeat constructor; try lia; intros _; left; apply demo_ok.
Defined.

(** ** The layout at boot *)

(** [largest_usable_interval] returns an interval of whole pages inside the region
    that no reserved range touches, and no such interval is longer; it returns an
    empty one only if there is none. *)
Theorem largest_usable_interval_correct raw_start raw_top reserved :
  0 ≤ raw_start → raw_start + PGSIZE - 1 < 2 ^ 64 → 0 ≤ raw_top → raw_top + PGSIZE - 1 < 2 ^ 64 →
  (length reserved ≤ k_max_reserved_ranges)%nat → Forall valid_range reserved →
  let u := largest_usable_interval raw_start raw_top reserved in
  (bytes u ≠ 0 → page_aligned (u_start u) ∧ page_aligned (u_top u) ∧ raw_start ≤ u_start u < u_top u ∧ u_top u ≤ raw_top ∧
    Forall (avoids (u_start u) (u_top u)) reserved) ∧
  ∀ s t, page_aligned s → page_aligned t → raw_start ≤ s < t → t ≤ raw_top → Forall (avoids s t) reserved → t - s ≤ bytes u.
Proof.
  intros Hs Hsb Ht Htb Hl Hv u. rewrite Forall_forall in Hv. destruct (largest_interval_spec raw_start raw_top reserved Hs Hsb Ht Htb Hl Hv) as [Hg Hmax].
  destruct (PGROUNDUP_spec raw_start Hs Hsb) as [Hua Hu]. destruct (PGROUNDDOWN_spec raw_top ltac:(unfold PGSIZE in *; lia)) as (Hda & Hd & _).
  split.
  - intros Hne. destruct Hg as [?|(Hsa & Hta & Hst & Htt & Hav)]; [done|]. fold u in Hsa, Hta, Hst, Htt, Hav.
    split_and!; [done|done|lia|lia|lia|]. by apply Forall_forall.
  - intros s t Hsa Hta Hst Htt Hav. apply Hmax. split_and!; [done|done| |lia| |by apply Forall_forall].
    + apply aligned_le; [done..|lia].
    + apply aligned_le; [done..|lia].
Qed.

Lemma largest_usable_interval_correct_witness :
  let u := largest_usable_interval 0x80000000 0x80010000 [mkReserved 0x80004000 0x80005001; mkReserved 0x80000000 0x80002000] in
  u_start u = 0x80006000 ∧ u_top u = 0x80010000 ∧
  ∀ s t, page_aligned s → page_aligned t → 0x80000000 ≤ s < t → t ≤ 0x80010000 →
    Forall (avoids s t) [mkReserved 0x80004000 0x80005001; mkReserved 0x80000000 0x80002000] → t - s ≤ 0xA000.
Proof.
  split; [by vm_compute|]. split; [by vm_compute|].
  apply (largest_usable_interval_correct 0x80000000 0x80010000 [mkReserved 0x80004000 0x80005001; mkReserved 0x80000000 0x80002000]);
    [done..|vm_compute; lia|]. repeat constructor; done.
Defined.

(** The iteration of [calculate_pmm_layout] reaches the number of pages that fills
    the region together with its metadata, if there is one and the metadata does not
    cross a power of two: sixteen turns are enough. *)
Theorem calculate_pmm_layout_converges ms lim q : page_aligned ms → page_aligned lim → 0 ≤ ms → lim ≤ 2 ^ 48 →
  16 * PGSIZE < lim - ms ≤ 2 ^ 29 * PGSIZE →
  let n := (lim - ms) / PGSIZE in
  0 ≤ q ≤ n → q + meta_pages q = n → cap (n - meta_pages n) = cap n →
  ∃ l, calculate_pmm_layout ms lim = Ret l ∧ LayoutOk ms lim l ∧ managed_pages l = q.
Proof.
  intros Hms Hlim Hm0 Hl0 Hd n Hq Hfix Hcap.
  destruct (layout_converges ms lim Hms Hlim Hm0 Hl0 ltac:(unfold PGSIZE in *; lia) q) as (l & E & El); try done.
  { apply Z.lt_le_trans with ((17 * PGSIZE) / PGSIZE); [done|]. apply Z.div_le_mono; [done|].
    apply Z.mod_divide in Hms as [x Ex]; [|done]. apply Z.mod_divide in Hlim as [y Ey]; [|done]. unfold PGSIZE in *. lia. }
  exists l. split; [done|]. split; [|done]. by apply (layout_ok ms lim l Hms Hlim ltac:(unfold PGSIZE in *; lia) Hl0 ltac:(lia) E).
Qed.

Lemma calculate_pmm_layout_converges_witness :
  ∃ l, calculate_pmm_layout 0x80200000 0x85000000 = Ret l ∧ LayoutOk 0x80200000 0x85000000 l ∧ managed_pages l = 19942.
Proof. apply (calculate_pmm_layout_converges 0x80200000 0x85000000 19942); done || (vm_compute; split; done). Defined.

(** Some regions have no such number of pages: one page more needs a further page of
    metadata, so the iteration alternates between two candidates and the kernel
    stops, although all but one page could be used.  Here a machine with 1 GiB of RAM
    and its device tree at 0xbfe00000. *)
Definition gap_boot : BootInfo :=
  mkBoot 0 0 (0, 0) 0x80200000 0x8051b000 0xbfe00000 0x2000 [] [(0x80000000, 0x40000000)] k_unlimited_physical_top.

Theorem init_panics_on_layout_gap :
  init gap_boot = Panic ∧ calculate_pmm_layout 0x8051b000 0xabddf000 = Panic ∧
  ∃ pages, 0x8051b000 + (meta_pages pages + pages + 1) * PGSIZE = 0xabddf000.
Proof. split; [by vm_compute|]. split; [by vm_compute|]. exists 178156. by vm_compute. Qed.

(** C14. If [init] returns, the kernel image, the device tree, the initial disk and the
    firmware's regions are outside the chosen interval, which lies in one RAM
    region; the allocator's object, tree, counts and managed pages, the heap's
    metadata and pages and the shared memory follow each other in it without
    overlap; and the page manager starts well-formed with every managed page free. *)
Theorem init_correct b s : BootOk b → init b = Ret s → InitOk b s.
Proof. apply init_spec. Qed.

Definition demo_boot : BootInfo :=
  mkBoot 0 0 (0x80300000, 0x80310000) 0x80200000 0x80202800 0x80240000 0x2000 [(0x80210000, 0x1000); (0x80000000, 0)]
    [(0x80000000, 0x400000); (0x90000000, 0x1000)] k_unlimited_physical_top.

Lemma init_correct_witness : ∃ s, init demo_boot = Ret s ∧ InitOk demo_boot s ∧ managed_pages (layout s) = 159.
Proof.
  assert (∃ s, init demo_boot = Ret s ∧ managed_pages (layout s) = 159) as (s & E & Ep) by (eexists; split; [by vm_compute|done]).
  exists s. split; [done|]. split; [|done]. apply init_correct; [|done].
  split; cbn; unfold fits, boot_limit; repeat constructor; cbn; done || lia.
Defined.

End PmmCorrect.
