(* ===== verification/PageTable.v ===== *)
(** * Page tables of RISC-V (kernel/mem/riscv/pte.cc, pagetable.cc)

    Sv39 tables live in page frames.  A [Pte] is the address of an entry, null for
    none; its member functions read and write the entry in memory after checking
    that the address is an aligned address in a managed page.  A [PageTable] is
    the address of its root.  Messages are omitted. *)
From S2P Require Import Prelude Page Pmm.
Import Page Pmm.

Module PageTable.

(** ** Entry format (page_table_defs.hh) *)

Definition pte_valid_m : Z := 1.
Definition pte_readable_m : Z := 2.
Definition pte_writable_m : Z := 4.
Definition pte_executable_m : Z := 8.
Definition pte_user_m : Z := 16.
Definition pte_accessed_m : Z := 64.
Definition pte_dirty_m : Z := 128.

Definition k_physical_address_mask : Z := 0x0000ffffffffffff.
Definition virt_to_phy_address (address : Z) : Z := Z.land address k_physical_address_mask.

Definition PGSHIFT : Z := 12.
Definition PA2PTE (address : Z) : Z := u64 (Z.shiftl (Z.shiftr address PGSHIFT) 10).
Definition PTE2PA (pte : Z) : Z := u64 (Z.shiftl (Z.shiftr pte 10) PGSHIFT).
Definition PTE_FLAGS (pte : Z) : Z := Z.land pte 0x3ff.
Definition PXMASK : Z := 0x1ff.
Definition PXSHIFT (level : Z) : Z := PGSHIFT + 9 * level.
Definition PX (level address : Z) : Z := Z.land (Z.shiftr address (PXSHIFT level)) PXMASK.
Definition MAXVA : Z := Z.shiftl 1 38.

(** ** Entries in memory (pte.cc) *)

Definition load_word (m : Machine) (addr : Z) : outcome Z :=
  match frames m !! PGROUNDDOWN addr with
  | Some ws => aget ws ((addr - PGROUNDDOWN addr) / 8)
  | None => Fault
  end.

Definition store_word (m : Machine) (addr data : Z) : outcome Machine :=
  match frames m !! PGROUNDDOWN addr with
  | Some ws =>
      let! ws := aset ws ((addr - PGROUNDDOWN addr) / 8) data in
      Ret (with_frames m (<[PGROUNDDOWN addr := ws]> (frames m)))
  | None => Fault
  end.

Definition is_sane_pte_ptr (m : Machine) (addr : Z) : bool :=
  if addr =? nullptr then false
  else if negb (Z.land addr 7 =? 0) then false
  else is_managed_page m (PGROUNDDOWN addr).

Definition is_null (pte : Z) : bool := pte =? nullptr.

(** The tests of single bits: false for an address that is not an entry. *)
Definition test_bit (m : Machine) (pte mask : Z) : outcome bool :=
  if negb (is_sane_pte_ptr m pte) then Ret false else
  let! d := load_word m pte in Ret (negb (Z.land d mask =? 0)).

Definition is_valid (m : Machine) (pte : Z) : outcome bool := test_bit m pte pte_valid_m.
Definition is_writable (m : Machine) (pte : Z) : outcome bool := test_bit m pte pte_writable_m.
Definition is_readable (m : Machine) (pte : Z) : outcome bool := test_bit m pte pte_readable_m.
Definition is_executable (m : Machine) (pte : Z) : outcome bool := test_bit m pte pte_executable_m.
Definition is_user (m : Machine) (pte : Z) : outcome bool := test_bit m pte pte_user_m.

Definition get_flags (m : Machine) (pte : Z) : outcome Z :=
  if negb (is_sane_pte_ptr m pte) then Ret 0 else
  let! d := load_word m pte in Ret (Z.land d 0x3ff).

Definition is_leaf (m : Machine) (pte : Z) : outcome bool :=
  let! f := get_flags m pte in Ret (negb (f =? pte_valid_m)).

Definition get_data (m : Machine) (pte : Z) : outcome Z :=
  if negb (is_sane_pte_ptr m pte) then Ret 0 else load_word m pte.

Definition set_data (m : Machine) (pte data : Z) : outcome Machine :=
  if negb (is_sane_pte_ptr m pte) then Ret m else store_word m pte data.

Definition clear_data (m : Machine) (pte : Z) : outcome Machine := set_data m pte 0.

(** [*_data_addr |= mask] of the single-bit setters. *)
Definition set_bits (m : Machine) (pte mask : Z) : outcome Machine :=
  if negb (is_sane_pte_ptr m pte) then Ret m else
  let! d := load_word m pte in store_word m pte (Z.lor d mask).

Definition set_valid (m : Machine) (pte : Z) : outcome Machine := set_bits m pte pte_valid_m.
Definition set_writable (m : Machine) (pte : Z) : outcome Machine := set_bits m pte pte_writable_m.
Definition set_readable (m : Machine) (pte : Z) : outcome Machine := set_bits m pte pte_readable_m.
Definition set_executable (m : Machine) (pte : Z) : outcome Machine := set_bits m pte pte_executable_m.
Definition set_user (m : Machine) (pte : Z) : outcome Machine := set_bits m pte pte_user_m.

Definition pa (m : Machine) (pte : Z) : outcome Z :=
  let! d := get_data m pte in Ret (PTE2PA d).

(** ** Tables (pagetable.cc) *)

Definition get_pte (base index : Z) : Z := u64 (base + 8 * index).

Definition reset_pte_data (m : Machine) (base index : Z) : outcome Machine :=
  store_word m (get_pte base index) 0.

Definition is_page_align (addr : Z) : bool := Z.land addr (PGSIZE - 1) =? 0.

Definition is_sane_pagetable_base (m : Machine) (base : Z) : bool :=
  is_page_align base && is_managed_page m base.

(** One turn of the loop of [walk]: the table one level down, allocated if asked
    for; [None] if there is none. *)
Definition walk_level (m : Machine) (base level va : Z) (alloc : bool) : outcome (Machine * option Z) :=
  let pte := get_pte base (PX level va) in
  let! valid := is_valid m pte in
  if valid then
    let! leaf := is_leaf m pte in
    if (leaf : bool) then Ret (m, None) else
    let! d := get_data m pte in
    let next_base := PTE2PA d in
    if negb (is_sane_pagetable_base m next_base) then Ret (m, None) else Ret (m, Some next_base)
  else
    if negb alloc then Ret (m, None) else
    let! (m, new_base) := try_alloc_page m in
    if new_base =? 0 then Ret (m, None) else
    let! m := set_data m pte (Z.lor (PA2PTE new_base) pte_valid_m) in
    Ret (m, Some new_base).

Fixpoint walk_loop (levels : list Z) (m : Machine) (base va : Z) (alloc : bool) : outcome (Machine * Z) :=
  match levels with
  | [] =>
      if negb (is_sane_pagetable_base m base) then Ret (m, nullptr)
      else Ret (m, u64 (base + 8 * PX 0 va))
  | level :: levels =>
      let! (m, next) := walk_level m base level va alloc in
      match next with
      | Some base => walk_loop levels m base va alloc
      | None => Ret (m, nullptr)
      end
  end.

(** [for (int level = 2; level > 0; level--)] *)
Definition walk (m : Machine) (base va : Z) (alloc : bool) : outcome (Machine * Z) :=
  walk_loop [2; 1] m base va alloc.

Definition walk_addr (m : Machine) (base va : Z) : outcome (Machine * Z) :=
  let! (m, pte) := walk m base va false in
  if is_null pte then Ret (m, nullptr) else
  let! valid := is_valid m pte in
  if negb valid then Ret (m, nullptr) else
  let! user := is_user m pte in
  if negb user then Ret (m, nullptr) else
  let! pa := pa m pte in
  Ret (m, Z.lor pa (Z.land va (PGSIZE - 1))).

(** [kwalkaddr] and [kwalk_addr] walk the kernel's table, given by its root. *)
Definition kwalkaddr (m : Machine) (k_pagetable va : Z) : outcome (Machine * Z) :=
  let! (m, pte) := walk m k_pagetable va false in
  if is_null pte then Ret (m, nullptr) else
  let! d := get_data m pte in
  if d =? 0 then Ret (m, nullptr) else Ret (m, pte).

Definition kwalk_addr (m : Machine) (k_pagetable va : Z) : outcome (Machine * Z) :=
  let! (m, pte) := walk m k_pagetable va false in
  if is_null pte then Ret (m, 0) else
  let! valid := is_valid m pte in
  if negb valid then Ret (m, 0) else
  let! d := get_data m pte in
  Ret (m, Z.lor (PTE2PA d) (Z.land va (PGSIZE - 1))).

Definition dir_num (level va : Z) : Z := PX level va.

(** [freewalk] recurses into tables; [fuel] bounds the depth. *)
Fixpoint freewalk (fuel : nat) (m : Machine) (base : Z) : outcome Machine :=
  match fuel with
  | O => Stuck
  | S fuel' =>
      let! m := for_up (λ i m,
          let pte := get_pte base i in
          let! valid := is_valid m pte in
          if negb valid then Ret m else
          let! leaf := is_leaf m pte in
          if (leaf : bool) then Ret m else
          let! d := get_data m pte in
          let! m := freewalk fuel' m (PTE2PA d) in
          reset_pte_data m base i)
        0 512 m in
      free_page m base
  end.

End PageTable.
