(* ===== verification/Vmm.v ===== *)
(** * The virtual memory manager (kernel/mem/virtual_memory_manager.cc, RISC-V)

    Mapping, unmapping, copy-on-write copying and resolution over the page tables
    of [PageTable] and the pages of [Pmm].  The root of the kernel's page table and
    that of the current process are given by an [Env]. *)
From S2P Require Import Prelude Page Pmm PageTable.
Import Page Pmm PageTable.

Module Vmm.

(** ** Address layout (memlayout.hh) *)

Definition NPROC : Z := 512.
Definition KSTACK_PAGES : Z := 4.
Definition KSTACK_GUARD_PAGES : Z := 1.
Definition KSTACK_TOTAL_PAGES : Z := KSTACK_PAGES + KSTACK_GUARD_PAGES.
Definition TRAMPOLINE : Z := Z.shiftr MAXVA 1 - PGSIZE.
Definition SIG_TRAMPOLINE : Z := TRAMPOLINE - PGSIZE.
Definition TRAPFRAME : Z := SIG_TRAMPOLINE - PGSIZE.
Definition KSTACK_REGION_BOTTOM : Z :=
  TRAPFRAME - (NPROC * KSTACK_TOTAL_PAGES - KSTACK_GUARD_PAGES) * PGSIZE.
Definition USER_TRAPFRAME_TOP : Z := KSTACK_REGION_BOTTOM.
Definition USER_TRAPFRAME_BASE : Z := USER_TRAPFRAME_TOP - NPROC * PGSIZE.
Definition USER_MEMORY_TOP : Z := USER_TRAPFRAME_BASE.

Definition k_riscv_pte_cow : Z := 256.

(** ** Environment *)

(** [k_pagetable] is the root of the kernel's table, 0 before it exists; [current]
    the root of the current process, if there is one with an address space. *)
Record Env := mkEnv { k_pagetable : Z; current : option Z }.

(** [flush_user_pt_range]: a flush of the current address space if the table is
    its table, otherwise a flush on all processors. *)
Definition flush_user_pt_range (e : Env) (m : Machine) (base start size : Z) : Machine :=
  emit m (TlbFlush (if bool_decide (current e = Some base) then Some base else None) start size).

Definition flush_riscv_user_page (e : Env) (m : Machine) (va : Z) : Machine :=
  match current e with
  | Some base => flush_user_pt_range e m base (PGROUNDDOWN va) PGSIZE
  | None => emit m (TlbFlush None (PGROUNDDOWN va) PGSIZE)
  end.

Definition pte_is_cow (m : Machine) (pte : Z) : outcome bool :=
  if is_null pte then Ret false else
  let! valid := is_valid m pte in
  if negb valid then Ret false else
  let! d := get_data m pte in Ret (negb (Z.land d k_riscv_pte_cow =? 0)).

(** [~mask] at 64 bits *)
Definition not64 (mask : Z) : Z := u64 (Z.lnot mask).

(** ** Mapping *)

Fixpoint map_loop (fuel : nat) (e : Env) (m : Machine) (base a last pa flags : Z) : outcome (Machine * bool) :=
  match fuel with
  | O => Stuck
  | S fuel' =>
      let! (m, pte) := walk m base a true in
      if is_null pte then Ret (m, false) else
      let! valid := is_valid m pte in
      if (valid : bool) then
        let is_kernel_pt := negb (k_pagetable e =? 0) && (base =? k_pagetable e) in
        let is_user_va := a <? USER_MEMORY_TOP in
        if negb is_kernel_pt && is_user_va then Ret (m, false) else Panic
      else
        let! m := set_data m pte
          (Z.lor (Z.lor (Z.lor (Z.lor (PA2PTE (PGROUNDDOWN (virt_to_phy_address pa))) flags)
             pte_valid_m) pte_accessed_m) pte_dirty_m) in
        if a =? last then Ret (m, true) else
        map_loop fuel' e m base (u64 (a + PGSIZE)) last (u64 (pa + PGSIZE)) flags
  end.

(** [a] reaches [last] after this many pages. *)
Definition map_pages (e : Env) (m : Machine) (base va size pa flags : Z) : outcome (Machine * bool) :=
  if size =? 0 then Panic else
  let a := PGROUNDDOWN va in
  let last := PGROUNDDOWN (u64 (va + size - 1)) in
  map_loop (S (Z.to_nat (u64 (last - a) / PGSIZE))) e m base a last pa flags.

Definition kvmmap (e : Env) (m : Machine) (base va pa sz perms : Z) : outcome Machine :=
  let! (m, ok) := map_pages e m base va sz pa perms in
  if negb ok then Panic else Ret m.

(** ** Unmapping *)

Inductive UnmapTlbMode := Invalidate | SkipInactiveFinalTeardown.

#[export] Instance UnmapTlbMode_eq_dec : EqDecision UnmapTlbMode.
Proof. solve_decision. Defined.

Definition k_unmap_batch_pages : nat := 256.

(** The pages of the batch, in order, and the address range they were mapped in. *)
Record Pending := mkPending { pending : list Z; pending_start : Z; pending_end : Z }.
Definition no_pending : Pending := mkPending [] 0 0.

Definition flush_pending (e : Env) (m : Machine) (base : Z) (tlb_mode : UnmapTlbMode) (p : Pending)
    : outcome (Machine * Pending) :=
  if (length (pending p) =? 0)%nat then Ret (m, p) else
  let m := if bool_decide (tlb_mode = Invalidate)
           then flush_user_pt_range e m base (pending_start p) (u64 (pending_end p - pending_start p)) else m in
  let! m := release_pages_batch m (pending p) in
  Ret (m, mkPending [] (pending_start p) (pending_end p)).

Definition is_fixed_special_page (a : Z) : bool :=
  (a =? TRAMPOLINE) || (a =? SIG_TRAMPOLINE) || (a =? TRAPFRAME).
Definition is_user_trapframe_page (a : Z) : bool :=
  (USER_TRAPFRAME_BASE <=? a) && (a <? USER_TRAPFRAME_TOP).
Definition is_reserved_page (a : Z) : bool := is_fixed_special_page a || is_user_trapframe_page a.

(** One turn of the loop of [vmunmap]. *)
Definition unmap_step (e : Env) (m : Machine) (base a npages : Z) (do_free : bool) (tlb_mode : UnmapTlbMode)
    (p : Pending) : outcome (Machine * Pending) :=
  let explicit_reserved_cleanup := (npages =? 1) && negb do_free && is_reserved_page a in
  if is_reserved_page a && negb explicit_reserved_cleanup then Ret (m, p) else
  let! (m, pte) := walk m base a false in
  if is_null pte then Ret (m, p) else
  let! valid := is_valid m pte in
  if negb valid then Ret (m, p) else
  let! old_page := (if do_free then PageTable.pa m pte else Ret nullptr) in
  let! m := clear_data m pte in
  let p := mkPending (pending p ++ [old_page])
    (if (length (pending p) =? 0)%nat then a else pending_start p) (u64 (a + PGSIZE)) in
  if (length (pending p) =? k_unmap_batch_pages)%nat then flush_pending e m base tlb_mode p else Ret (m, p).

Fixpoint unmap_loop (fuel : nat) (e : Env) (m : Machine) (base a end_ npages : Z) (do_free : bool)
    (tlb_mode : UnmapTlbMode) (p : Pending) : outcome (Machine * Pending) :=
  if a <? end_ then
    match fuel with
    | O => Stuck
    | S fuel' =>
        let! (m, p) := unmap_step e m base a npages do_free tlb_mode p in
        unmap_loop fuel' e m base (u64 (a + PGSIZE)) end_ npages do_free tlb_mode p
    end
  else Ret (m, p).

Definition vmunmap (e : Env) (m : Machine) (base va npages : Z) (do_free : bool) (tlb_mode : UnmapTlbMode)
    : outcome Machine :=
  if negb (va mod PGSIZE =? 0) then Panic else
  let! (m, p) := unmap_loop (Z.to_nat npages) e m base va (u64 (va + u64 (npages * PGSIZE))) npages do_free
    tlb_mode no_pending in
  let! (m, _) := flush_pending e m base tlb_mode p in
  Ret m.

(** The loop of [vmunmap_sparse]; a reserved page is always skipped. *)
Fixpoint sparse_loop (addresses : list Z) (m : Machine) (base : Z) (do_free : bool) (pend : list Z)
    (flush_start flush_end : Z) : outcome (Machine * (list Z * Z * Z)) :=
  match addresses with
  | [] => Ret (m, (pend, flush_start, flush_end))
  | va :: addresses =>
      if negb (va mod PGSIZE =? 0) then Panic else
      if is_reserved_page va then sparse_loop addresses m base do_free pend flush_start flush_end else
      let! (m, pte) := walk m base va false in
      if is_null pte then sparse_loop addresses m base do_free pend flush_start flush_end else
      let! valid := is_valid m pte in
      if negb valid then sparse_loop addresses m base do_free pend flush_start flush_end else
      let! old_page := (if do_free then PageTable.pa m pte else Ret nullptr) in
      let! m := clear_data m pte in
      sparse_loop addresses m base do_free (pend ++ [old_page])
        (if va <? flush_start then va else flush_start)
        (if flush_end <? u64 (va + PGSIZE) then u64 (va + PGSIZE) else flush_end)
  end.

Definition vmunmap_sparse (e : Env) (m : Machine) (base : Z) (addresses : list Z) (do_free : bool)
    (tlb_mode : UnmapTlbMode) : outcome Machine :=
  if (length addresses =? 0)%nat then Ret m else
  if (k_unmap_batch_pages <? length addresses)%nat then Panic else
  let! (m, (pend, flush_start, flush_end)) := sparse_loop addresses m base do_free [] (2 ^ 64 - 1) 0 in
  if (length pend =? 0)%nat then Ret m else
  let m := if bool_decide (tlb_mode = Invalidate)
           then flush_user_pt_range e m base flush_start (u64 (flush_end - flush_start)) else m in
  release_pages_batch m pend.

(** ** Creating and growing *)

(** The root of a new table, 0 if there was no page for it. *)
Definition vm_create (m : Machine) : outcome (Machine * Z) := try_alloc_page m.

Definition vmdealloc (e : Env) (m : Machine) (base old_sz new_sz : Z) : outcome (Machine * Z) :=
  if old_sz <=? new_sz then Ret (m, old_sz) else
  let! m := (if PGROUNDUP new_sz <? PGROUNDUP old_sz
             then vmunmap e m base (PGROUNDUP new_sz)
                    (u64 (i32 (u64 (PGROUNDUP old_sz - PGROUNDUP new_sz) / PGSIZE))) true Invalidate
             else Ret m) in
  Ret (m, new_sz).

Definition uvmdealloc (e : Env) (m : Machine) (base oldsz newsz : Z) : outcome (Machine * Z) :=
  if oldsz <=? newsz then Ret (m, oldsz) else
  let! m := (if PGROUNDUP newsz <? PGROUNDUP oldsz
             then vmunmap e m base (PGROUNDUP newsz)
                    (u64 (PGROUNDUP oldsz - PGROUNDUP newsz) / PGSIZE) true Invalidate
             else Ret m) in
  Ret (m, newsz).

(** The loops of [vmalloc] and [uvmalloc]: a zeroed page for every page from [a]
    below [newsz]; [dealloc a] undoes the pages below [a] on failure. *)
Fixpoint alloc_loop (fuel : nat) (e : Env) (m : Machine) (base a newsz flags : Z)
    (dealloc : Machine → Z → outcome (Machine * Z)) : outcome (Machine * Z) :=
  if a <? newsz then
    match fuel with
    | O => Stuck
    | S fuel' =>
        let! (m, mem) := try_alloc_page m in
        if mem =? 0 then
          let! (m, _) := dealloc m a in Ret (m, 0)
        else
          let! (m, ok) := map_pages e m base a PGSIZE mem flags in
          if negb ok then
            let! m := free_page m mem in
            let! (m, _) := dealloc m a in Ret (m, 0)
          else alloc_loop fuel' e m base (u64 (a + PGSIZE)) newsz flags dealloc
    end
  else Ret (m, newsz).

Definition vmalloc (e : Env) (m : Machine) (base old_sz new_sz flags : Z) : outcome (Machine * Z) :=
  if new_sz <? old_sz then Ret (m, old_sz) else
  let old_sz := PGROUNDUP old_sz in
  alloc_loop (S (Z.to_nat ((new_sz - old_sz) / PGSIZE))) e m base old_sz new_sz (Z.lor pte_readable_m flags)
    (λ m a, vmdealloc e m base a old_sz).

Definition uvmalloc (e : Env) (m : Machine) (base oldsz newsz flags : Z) : outcome (Machine * Z) :=
  if newsz <? oldsz then Ret (m, oldsz) else
  let a := PGROUNDUP oldsz in
  alloc_loop (S (Z.to_nat ((newsz - a) / PGSIZE))) e m base a newsz
    (Z.lor (Z.lor pte_readable_m pte_user_m) flags)
    (λ m a, uvmdealloc e m base a oldsz).

Definition uvmclear (e : Env) (m : Machine) (base va : Z) : outcome Machine :=
  let! (m, pte) := walk m base va false in
  let! valid := is_valid m pte in
  let! m := (if (valid : bool) then
               let! d := get_data m pte in set_data m pte (Z.land d (not64 pte_user_m))
             else Ret m) in
  Ret (flush_user_pt_range e m base (PGROUNDDOWN va) PGSIZE).

(** ** Copying an address range copy-on-write *)

(** [proc::CowRollbackRange]: parent pages whose write permission was taken. *)
Record CowRollbackRange := mkRange { range_start : Z; range_end : Z }.

Definition append_range (ranges : list CowRollbackRange) (changed_va : Z) : list CowRollbackRange :=
  match last ranges with
  | Some r =>
      if range_end r =? changed_va
      then take (length ranges - 1) ranges ++ [mkRange (range_start r) (u64 (range_end r + PGSIZE))]
      else ranges ++ [mkRange changed_va (u64 (changed_va + PGSIZE))]
  | None => ranges ++ [mkRange changed_va (u64 (changed_va + PGSIZE))]
  end.

Record CowCopyCandidate := mkCand { c_pte : Z; c_va : Z; c_pa : Z; c_flags : Z }.

(** The progress of a copy: the machine, whether a parent entry was changed, the
    ranges changed by this call and those of the caller. *)
Record Copy := mkCopy {
  cp_m : Machine;
  parent_cow_changed : bool;
  local_rollback_ranges : list CowRollbackRange;
  rollback_ranges : option (list CowRollbackRange)
}.

Definition with_cp (c : Copy) (m : Machine) : Copy :=
  mkCopy m (parent_cow_changed c) (local_rollback_ranges c) (rollback_ranges c).

Definition record_parent_cow_change (c : Copy) (changed_va : Z) : Copy :=
  mkCopy (cp_m c) (parent_cow_changed c) (append_range (local_rollback_ranges c) changed_va)
    ((λ r, append_range r changed_va) <$> rollback_ranges c).

Definition set_changed (c : Copy) : Copy :=
  mkCopy (cp_m c) true (local_rollback_ranges c) (rollback_ranges c).

(** [fail_copy]: give the write permission back. *)
Fixpoint rollback_range (fuel : nat) (m : Machine) (old_base va end_ : Z) (restored : bool)
    : outcome (Machine * bool) :=
  if va <? end_ then
    match fuel with
    | O => Stuck
    | S fuel' =>
        let! (m, pte) := walk m old_base va false in
        let! valid := (if is_null pte then Ret false else is_valid m pte) in
        if negb valid then rollback_range fuel' m old_base (u64 (va + PGSIZE)) end_ restored else
        let! d := get_data m pte in
        if negb (Z.land d k_riscv_pte_cow =? 0) then
          let! m := set_data m pte (Z.land (Z.lor d pte_writable_m) (not64 k_riscv_pte_cow)) in
          rollback_range fuel' m old_base (u64 (va + PGSIZE)) end_ true
        else rollback_range fuel' m old_base (u64 (va + PGSIZE)) end_ restored
    end
  else Ret (m, restored).

Fixpoint rollback_all (ranges : list CowRollbackRange) (m : Machine) (old_base : Z) (restored : bool)
    : outcome (Machine * bool) :=
  match ranges with
  | [] => Ret (m, restored)
  | r :: ranges =>
      let! (m, restored) := rollback_range (Z.to_nat ((range_end r - range_start r) / PGSIZE)) m old_base
        (range_start r) (range_end r) restored in
      rollback_all ranges m old_base restored
  end.

Definition fail_copy (e : Env) (c : Copy) (old_base copy_start va_end : Z) : outcome (Copy * Z) :=
  let! (m, restored) := rollback_all (local_rollback_ranges c) (cp_m c) old_base false in
  let m := if restored : bool then flush_user_pt_range e m old_base copy_start (u64 (va_end - copy_start)) else m in
  Ret (with_cp c m, -1).

(** The valid entries of a batch, in order. *)
Fixpoint scan_batch (fuel : nat) (m : Machine) (old_base scan_va batch_end : Z) : outcome (list CowCopyCandidate) :=
  if scan_va <? batch_end then
    match fuel with
    | O => Stuck
    | S fuel' =>
        let! (m, pte) := walk m old_base scan_va false in
        let! valid := (if is_null pte then Ret false else is_valid m pte) in
        if negb valid then scan_batch fuel' m old_base (u64 (scan_va + PGSIZE)) batch_end else
        let! pa := PageTable.pa m pte in
        let! flags := get_flags m pte in
        let! rest := scan_batch fuel' m old_base (u64 (scan_va + PGSIZE)) batch_end in
        Ret (mkCand pte scan_va pa flags :: rest)
    end
  else Ret [].

(** The loop of single [retain_page] calls. *)
Fixpoint retain_each (pages : list Z) (index : Z) (m : Machine) (retained_mask : Z) : outcome (Machine * Z) :=
  match pages with
  | [] => Ret (m, retained_mask)
  | pa :: pages =>
      let! (m, ok) := retain_page m pa in
      retain_each pages (index + 1) m
        (if ok : bool then Z.lor retained_mask (u64 (Z.shiftl 1 index)) else retained_mask)
  end.

Definition retained (mask index : Z) : bool := negb (Z.land mask (u64 (Z.shiftl 1 index)) =? 0).

Fixpoint release_unconsumed_retains (cands : list CowCopyCandidate) (index mask : Z) (m : Machine) : outcome Machine :=
  match cands with
  | [] => Ret m
  | c :: cands =>
      let! m := (if retained mask index then free_page m (c_pa c) else Ret m) in
      release_unconsumed_retains cands (index + 1) mask m
  end.

(** What every failure does after its own page was dealt with; [rest] are the
    candidates after the one that failed, the first of them at [index]. *)
Definition abort_copy (e : Env) (c : Copy) (old_base new_base copy_start va_end va : Z)
    (rest : list CowCopyCandidate) (index mask : Z) : outcome (Copy * Z) :=
  let! m := release_unconsumed_retains rest index mask (cp_m c) in
  let! m := vmunmap e m new_base 0 (va / PGSIZE) true Invalidate in
  fail_copy e (with_cp c m) old_base copy_start va_end.

(** The loop over the candidates of a batch; [inr] is the value the whole call
    returns early. *)
Fixpoint copy_batch (e : Env) (old_base new_base copy_start va_end : Z) (defer_parent_tlb_flush : bool)
    (cands : list CowCopyCandidate) (index mask : Z) (c : Copy) : outcome (Copy * option Z) :=
  match cands with
  | [] => Ret (c, None)
  | k :: rest =>
      let abort c := let! (c, r) := abort_copy e c old_base new_base copy_start va_end (c_va k) rest (index + 1) mask in
                     Ret (c, Some r) in
      if retained mask index then
        let! original_data := get_data (cp_m c) (c_pte k) in
        let writable := negb (Z.land (c_flags k) pte_writable_m =? 0) in
        let cow := negb (Z.land (c_flags k) k_riscv_pte_cow =? 0) in
        let child_flags := if writable || cow
          then Z.lor (Z.land (c_flags k) (not64 pte_writable_m)) k_riscv_pte_cow else c_flags k in
        let! c := (if writable then
            let c := record_parent_cow_change c (c_va k) in
            let! m := set_data (cp_m c) (c_pte k)
              (Z.lor (Z.land original_data (not64 pte_writable_m)) k_riscv_pte_cow) in
            let c := set_changed (with_cp c m) in
            Ret (if defer_parent_tlb_flush then c
                 else with_cp c (flush_user_pt_range e (cp_m c) old_base (c_va k) PGSIZE))
          else Ret c) in
        let! (m, ok) := map_pages e (cp_m c) new_base (c_va k) PGSIZE (c_pa k) child_flags in
        if negb ok then
          let! m := free_page m (c_pa k) in
          let! m := set_data m (c_pte k) original_data in
          abort (with_cp c m)
        else copy_batch e old_base new_base copy_start va_end defer_parent_tlb_flush rest (index + 1) mask (with_cp c m)
      else if is_managed_page (cp_m c) (c_pa k) then abort c
      else
        let! (m, new_page) := try_alloc_page_uninitialized (cp_m c) in
        if new_page =? nullptr then abort (with_cp c m) else
        let! m := copy_page m new_page (c_pa k) in
        let! (m, ok) := map_pages e m new_base (c_va k) PGSIZE new_page (c_flags k) in
        if negb ok then
          let! m := free_page m new_page in
          abort (with_cp c m)
        else copy_batch e old_base new_base copy_start va_end defer_parent_tlb_flush rest (index + 1) mask (with_cp c m)
  end.

Definition k_cow_retain_batch_pages : Z := 32.

Fixpoint copy_loop (fuel : nat) (e : Env) (old_base new_base copy_start va_end batch_start : Z)
    (defer_parent_tlb_flush : bool) (c : Copy) : outcome (Copy * Z) :=
  if batch_start <? va_end then
    match fuel with
    | O => Stuck
    | S fuel' =>
        let pages_left := (va_end - batch_start) / PGSIZE in
        let batch_pages := if k_cow_retain_batch_pages <? pages_left then k_cow_retain_batch_pages else pages_left in
        let batch_end := u64 (batch_start + batch_pages * PGSIZE) in
        let! cands := scan_batch (Z.to_nat batch_pages) (cp_m c) old_base batch_start batch_end in
        let pages := c_pa <$> cands in
        let! (m, mask) := (if defer_parent_tlb_flush then retain_pages_batch (cp_m c) pages
                           else retain_each pages 0 (cp_m c) 0) in
        let! (c, r) := copy_batch e old_base new_base copy_start va_end defer_parent_tlb_flush cands 0 mask
          (with_cp c m) in
        match r with
        | Some r => Ret (c, r)
        | None => copy_loop fuel' e old_base new_base copy_start va_end batch_end defer_parent_tlb_flush c
        end
    end
  else Ret (c, if parent_cow_changed c then 1 else 0).

Definition vm_copy (e : Env) (m : Machine) (old_base new_base start size : Z) (defer_parent_tlb_flush : bool)
    (rollback_ranges : option (list CowRollbackRange)) : outcome (Copy * Z) :=
  let c := mkCopy m false [] rollback_ranges in
  if size =? 0 then Ret (c, 0) else
  let copy_start := PGROUNDDOWN start in
  let va_end := PGROUNDUP (u64 (start + size)) in
  if va_end <? copy_start then Ret (c, -1) else
  copy_loop (Z.to_nat ((va_end - copy_start) / PGSIZE)) e old_base new_base copy_start va_end copy_start
    defer_parent_tlb_flush c.

(** ** Resolving a copy-on-write page *)

(** What [resolve_cow_page] uses of the area that covers the address: whether it
    is a private mapping of an object, the page's index in it, and its overlay of
    private pages (index to page address), if it has one. *)
Record CowArea := mkCowArea {
  object_private_mapping : bool;
  cow_page_index : Z;
  private_page_overlay : option (gmap Z Z)
}.

Definition no_area : CowArea := mkCowArea false 0 None.

(** The overlay map is created on first use; [new_overlay] tells whether the kernel
    heap had room for it. *)
Definition resolve_cow_page (e : Env) (m : Machine) (base va : Z) (area : CowArea) (new_overlay : bool)
    : outcome (Machine * CowArea * Z) :=
  let page_va := PGROUNDDOWN va in
  let! (m, pte) := walk m base page_va false in
  if is_null pte then Ret (m, area, -1) else
  let! valid := is_valid m pte in
  let! user := is_user m pte in
  let! cow := pte_is_cow m pte in
  if negb valid || negb user || negb cow then Ret (m, area, -1) else
  let! old_pa := PageTable.pa m pte in
  if negb (is_managed_page m old_pa) then Ret (m, area, -1) else
  let! flags := get_flags m pte in
  let new_flags := Z.land (Z.lor flags pte_writable_m) (not64 k_riscv_pte_cow) in
  let! refcount := page_ref_count m old_pa in
  if refcount =? 0 then Ret (m, area, -1) else
  let overlay_owned_by_area := object_private_mapping area &&
    match private_page_overlay area with
    | Some o => bool_decide (o !! cow_page_index area = Some old_pa)
    | None => false
    end in
  if (negb (object_private_mapping area) && (refcount =? 1)) ||
     (object_private_mapping area && overlay_owned_by_area && (refcount <=? 2)) then
    let! m := set_data m pte (Z.lor (Z.lor (PA2PTE (PGROUNDDOWN old_pa)) new_flags) pte_valid_m) in
    Ret (flush_riscv_user_page e m page_va, area, 0)
  else
  let! (m, new_page) := try_alloc_page_uninitialized m in
  if new_page =? nullptr then Ret (m, area, -1) else
  let! m := copy_page m new_page old_pa in
  let! (m, area, ok) := (if object_private_mapping area then
      if negb (bool_decide (is_Some (private_page_overlay area))) && negb new_overlay then
        let! m := free_page m new_page in Ret (m, area, false)
      else
      let o := default ∅ (private_page_overlay area) in
      let! (m, kept) := retain_page m new_page in
      if negb kept then
        let! m := free_page m new_page in
        Ret (m, mkCowArea true (cow_page_index area) (Some o), false)
      else
        let! m := (if overlay_owned_by_area then free_page m old_pa else Ret m) in
        Ret (m, mkCowArea true (cow_page_index area)
          (Some (<[cow_page_index area := virt_to_phy_address new_page]> o)), true)
    else Ret (m, area, true)) in
  if negb ok then Ret (m, area, -1) else
  let! m := set_data m pte
    (Z.lor (Z.lor (PA2PTE (PGROUNDDOWN (virt_to_phy_address new_page))) new_flags) pte_valid_m) in
  let m := flush_riscv_user_page e m page_va in
  let! m := free_page m old_pa in
  Ret (m, area, 0).

(** ** Changing permissions *)

Definition PROT_READ : Z := 1.
Definition PROT_WRITE : Z := 2.
Definition PROT_EXEC : Z := 4.

(** What [protectpages] uses of the area that covers an address: whether its
    object, if any, is a shared mapping, and the kind of mapping of the area. *)
Record AreaKind := mkAreaKind {
  object_shared : option bool;
  is_shared_mapping : bool;
  is_private_mapping : bool
}.

Definition vma_has_shared_write_semantics (vm : option AreaKind) : bool :=
  match vm with
  | None => false
  | Some vm => match object_shared vm with Some true => true | _ => is_shared_mapping vm end
  end.

Definition vma_has_private_cow_semantics (vm : option AreaKind) : bool :=
  match vm with
  | None => false
  | Some v =>
      if vma_has_shared_write_semantics vm then false
      else is_private_mapping v || match object_shared v with Some s => negb s | None => false end
  end.

(** [vm] is the area of the active address space that covers the page. *)
Definition should_preserve_cow_without_write (m : Machine) (pte : Z) (vm : option AreaKind) (is_vma : bool)
    : outcome bool :=
  let! cow := pte_is_cow m pte in
  if negb is_vma || negb cow then Ret false else Ret (vma_has_private_cow_semantics vm).

Definition should_write_protect_as_cow (m : Machine) (pte : Z) (vm : option AreaKind) (is_vma : bool)
    : outcome bool :=
  let! page := PageTable.pa m pte in
  if negb (is_managed_page m page) then Ret false else
  let shared_page := let! n := page_ref_count m page in Ret (1 <? n) in
  if negb is_vma then shared_page else
  if vma_has_shared_write_semantics vm then Ret false else
  if vma_has_private_cow_semantics vm then
    let! cow := pte_is_cow m pte in if cow : bool then Ret true else shared_page
  else shared_page.

Definition protect_entry (m : Machine) (pte prot : Z) (vm : option AreaKind) (is_vma : bool) (old_data : Z)
    : outcome Z :=
  let new_data := Z.land old_data (not64 (Z.lor (Z.lor pte_readable_m pte_writable_m) pte_executable_m)) in
  let! keep := should_preserve_cow_without_write m pte vm is_vma in
  let new_data := if keep : bool then new_data else Z.land new_data (not64 k_riscv_pte_cow) in
  let new_data := if Z.land prot PROT_READ =? 0 then new_data else Z.lor new_data pte_readable_m in
  let! new_data := (if Z.land prot PROT_WRITE =? 0 then Ret new_data else
      let new_data := Z.land new_data (not64 k_riscv_pte_cow) in
      let! as_cow := should_write_protect_as_cow m pte vm is_vma in
      Ret (Z.lor new_data (if as_cow : bool then k_riscv_pte_cow else pte_writable_m))) in
  let new_data := if Z.land prot PROT_EXEC =? 0 then new_data else Z.lor new_data pte_executable_m in
  Ret (Z.lor new_data (Z.lor pte_valid_m pte_user_m)).

(** [vma_at] gives the area of the active address space at an address. *)
Fixpoint protect_loop (fuel : nat) (m : Machine) (base a stop prot : Z) (vma_at : Z → option AreaKind)
    (is_vma changed : bool) : outcome (Machine * Z * bool) :=
  if a =? stop then Ret (m, 0, changed) else
  match fuel with
  | O => Stuck
  | S fuel' =>
      let next m changed := protect_loop fuel' m base (u64 (a + PGSIZE)) stop prot vma_at is_vma changed in
      let! (m, pte) := walk m base a (negb is_vma) in
      if is_null pte then (if is_vma then next m changed else Ret (m, -1, changed)) else
      let! d := get_data m pte in
      if d =? 0 then (if is_vma then next m changed else Ret (m, -1, changed)) else
      if negb (Z.land d pte_valid_m =? 0) then
        let! new_data := protect_entry m pte prot (vma_at a) is_vma d in
        if negb (new_data =? d) then
          let! m := set_data m pte new_data in next m true
        else next m changed
      else
        let! m := set_data m pte (Z.lor d pte_user_m) in next m changed
  end.

Definition protectpages (m : Machine) (base va size prot : Z) (vma_at : Z → option AreaKind) (is_vma : bool)
    : outcome (Machine * Z * bool) :=
  let last := PGROUNDDOWN (u64 (va + size - 1)) in
  let a := PGROUNDDOWN va in
  protect_loop (S (Z.to_nat (u64 (last - a) / PGSIZE))) m base a (u64 (last + PGSIZE)) prot vma_at is_vma false.

End Vmm.
