(* ===== verification/PtRep.v ===== *)
(** * Address spaces stored in page tables

    [Space] is an address space as its page table stores it: the addresses of the
    tables of the three levels and the leaf entries by page number.  [World] says
    that a machine stores a list of address spaces, and that the reference count
    of every page is the number of entries that map it plus the references held
    outside the tables. *)
From S2P Require Import Prelude Page Buddy Pmm PmmSpec PageTable.
Import Page Pmm PmmSpec PageTable.

Module PtRep.

(** ** Entries as numbers *)

(** A valid entry of a table: an aligned address below [2^48] and ten flags. *)
Definition leaf_ok (d : Z) : Prop := 0 ≤ d < 2 ^ 46 ∧ Z.testbit d 0 = true.

Lemma PTE2PA_small d : 0 ≤ d < 2 ^ 46 → PTE2PA d = d / 2 ^ 10 * 2 ^ 12.
Proof.
  intros Hd. unfold PTE2PA, PGSHIFT. rewrite Z.shiftl_mul_pow2, Z.shiftr_div_pow2 by lia.
  apply u64_small. pose proof (Z.div_lt_upper_bound d (2 ^ 10) (2 ^ 36)).
  pose proof (Z.div_pos d (2 ^ 10)). lia.
Qed.

Lemma PTE2PA_range d : 0 ≤ d < 2 ^ 46 → page_aligned (PTE2PA d) ∧ 0 ≤ PTE2PA d < 2 ^ 48.
Proof.
  intros Hd. rewrite PTE2PA_small by done. pose proof (Z.div_lt_upper_bound d (2 ^ 10) (2 ^ 36)).
  pose proof (Z.div_pos d (2 ^ 10)). split; [apply Z_mod_mult|lia].
Qed.

Lemma PA2PTE_small a : page_aligned a → 0 ≤ a < 2 ^ 48 → PA2PTE a = a / 4 ∧ a / 4 mod 2 ^ 10 = 0 ∧ 0 ≤ a / 4 < 2 ^ 46.
Proof.
  unfold page_aligned, PA2PTE, PGSHIFT, PGSIZE. intros Hal Ha.
  apply Z.mod_divide in Hal as [x ->]; [|done].
  replace (x * 4096) with (x * 2 ^ 10 * 4) by lia. rewrite Z.div_mul by done.
  rewrite Z.shiftl_mul_pow2, Z.shiftr_div_pow2 by lia.
  replace (x * 2 ^ 10 * 4 / 2 ^ 12) with x by (replace (x * 2 ^ 10 * 4) with (x * 2 ^ 12) by lia; by rewrite Z.div_mul).
  split; [apply u64_small; lia|]. split; [apply Z_mod_mult|lia].
Qed.

(** An address and flags put together. *)
Lemma pte_join a f : page_aligned a → 0 ≤ a < 2 ^ 48 → 0 ≤ f < 2 ^ 10 →
  0 ≤ Z.lor (PA2PTE a) f < 2 ^ 46 ∧ PTE2PA (Z.lor (PA2PTE a) f) = a ∧ Z.land (Z.lor (PA2PTE a) f) 0x3ff = f ∧
  ∀ n, 0 ≤ n < 10 → Z.testbit (Z.lor (PA2PTE a) f) n = Z.testbit f n.
Proof.
  intros Hal Ha Hf. destruct (PA2PTE_small a Hal Ha) as (-> & Hm & Hr).
  assert (∀ n, 0 ≤ n < 10 → Z.testbit (a / 4) n = false) as Hlow.
  { intros n Hn. rewrite <- (Z.mod_pow2_bits_low _ 10) by lia. rewrite Hm. apply Z.bits_0. }
  assert (Z.lor (a / 4) f = a / 4 + f) as E.
  { symmetry. apply Z.add_nocarry_lor, Z.bits_inj'. intros n Hn. rewrite Z.land_spec, Z.bits_0.
    destruct (Z.lt_ge_cases n 10); [by rewrite Hlow by lia|].
    rewrite <- (Z.mod_small f (2 ^ 10)), Z.mod_pow2_bits_high by lia. apply andb_false_r. }
  apply Z.mod_divide in Hm as [x Hx]; [|done].
  assert (0 ≤ Z.lor (a / 4) f < 2 ^ 46) as Hb by (rewrite E, Hx in *; lia).
  split; [done|]. split; [|split].
  - rewrite PTE2PA_small by done. rewrite E, Hx, Z.div_add_l, (Z.div_small f) by lia.
    unfold page_aligned, PGSIZE in Hal. apply Z.mod_divide in Hal as [y ->]; [|done].
    replace (y * 4096) with (y * 2 ^ 10 * 4) in Hx by lia. rewrite Z.div_mul in Hx by done. lia.
  - change 0x3ff with (Z.ones 10). rewrite Z.land_ones, E, Hx, Z.add_comm, Z_mod_plus_full by done. by apply Z.mod_small.
  - intros n Hn. by rewrite Z.lor_spec, Hlow.
Qed.

Lemma land_bit d k : 0 ≤ k → negb (Z.land d (2 ^ k) =? 0) = Z.testbit d k.
Proof.
  intros Hk. destruct (Z.testbit d k) eqn:E.
  - apply negb_true_iff, Z.eqb_neq. intros H. apply (f_equal (λ x, Z.testbit x k)) in H.
    rewrite Z.land_spec, E, Z.pow2_bits_true, Z.bits_0 in H by done. done.
  - apply negb_false_iff, Z.eqb_eq, Z.bits_inj'. intros n Hn. rewrite Z.land_spec, Z.bits_0.
    rewrite Z.pow2_bits_eqb by done. destruct (Z.eqb_spec k n) as [<-|]; [by rewrite E|apply andb_false_r].
Qed.

(** Changing flags leaves the address alone. *)
Lemma flags_keep d d' : 0 ≤ d < 2 ^ 46 → Z.shiftr d' 10 = Z.shiftr d 10 → 0 ≤ d' < 2 ^ 46 ∧ PTE2PA d' = PTE2PA d.
Proof.
  intros Hd E. split; [|unfold PTE2PA; by rewrite E].
  rewrite !Z.shiftr_div_pow2 in E by lia. pose proof (Z.div_mod d (2 ^ 10)). pose proof (Z.div_mod d' (2 ^ 10)).
  pose proof (Z.mod_pos_bound d (2 ^ 10)). pose proof (Z.mod_pos_bound d' (2 ^ 10)). lia.
Qed.

Lemma lor_keep d f : 0 ≤ d < 2 ^ 46 → 0 ≤ f < 2 ^ 10 → 0 ≤ Z.lor d f < 2 ^ 46 ∧ PTE2PA (Z.lor d f) = PTE2PA d.
Proof.
  intros Hd Hf. apply flags_keep; [done|]. rewrite Z.shiftr_lor, (Z.shiftr_div_pow2 f) by lia.
  by rewrite (Z.div_small f), Z.lor_0_r by lia.
Qed.

Lemma ldiff_keep d f : 0 ≤ d < 2 ^ 46 → 0 ≤ f < 2 ^ 10 → 0 ≤ Z.ldiff d f < 2 ^ 46 ∧ PTE2PA (Z.ldiff d f) = PTE2PA d.
Proof.
  intros Hd Hf. apply flags_keep; [done|]. rewrite Z.shiftr_ldiff, (Z.shiftr_div_pow2 f) by lia.
  by rewrite (Z.div_small f), Z.ldiff_0_r by lia.
Qed.

(** [d & ~f] at 64 bits *)
Lemma land_not64 d f : 0 ≤ d < 2 ^ 64 → Z.land d (u64 (Z.lnot f)) = Z.ldiff d f.
Proof.
  intros Hd. apply Z.bits_inj'. intros n Hn. rewrite Z.land_spec, Z.ldiff_spec. unfold u64.
  destruct (Z.lt_ge_cases n 64).
  - by rewrite Z.mod_pow2_bits_low, Z.lnot_spec by lia.
  - rewrite <- (Z.mod_small d (2 ^ 64)) by done. by rewrite Z.mod_pow2_bits_high by lia.
Qed.

(** ** Words of a page *)

Definition frame (m : Machine) (b : Z) : list Z := default [] (frames m !! b).
Definition word (m : Machine) (b i : Z) : Z := frame m b !!! Z.to_nat i.
Definition set_word (m : Machine) (b i d : Z) : Machine :=
  with_frames m (<[b := <[Z.to_nat i := d]> (frame m b)]> (frames m)).
Definition slot (b i : Z) : Z := b + 8 * i.

Lemma frame_length m b : PmmOk m → managed m b → frames m !! b = Some (frame m b) ∧ length (frame m b) = page_words.
Proof.
  intros HO Hb. destruct (ok_frames _ HO b Hb) as (ws & E & Hl). unfold frame. by rewrite E.
Qed.

(** A state that differs only in the contents of frames. *)
Lemma PmmOk_frames m f : PmmOk m →
  (∀ a, managed m a → ∃ ws, f !! a = Some ws ∧ length ws = page_words) → PmmOk (with_frames m f).
Proof. intros [] Hf. by split. Qed.

Lemma set_word_ok m b i d : PmmOk m → managed m b → PmmOk (set_word m b i d).
Proof.
  intros HO Hb. apply PmmOk_frames; [done|]. intros a Ha. destruct (decide (a = b)) as [->|].
  - rewrite lookup_insert_eq. eexists. split; [done|]. rewrite length_insert. by apply frame_length.
  - rewrite lookup_insert_ne by done. by apply (ok_frames _ HO).
Qed.

Lemma frame_set_word_ne m b i d a : a ≠ b → frames (set_word m b i d) !! a = frames m !! a.
Proof. intros Hne. unfold set_word. cbn. by apply lookup_insert_ne. Qed.

Lemma word_set_word m b i d b' i' : PmmOk m → managed m b → 0 ≤ i < 512 → 0 ≤ i' →
  word (set_word m b i d) b' i' = if decide (b' = b ∧ i' = i) then d else word m b' i'.
Proof.
  intros HO Hb Hi Hi'. destruct (frame_length m b HO Hb) as [_ Hl]. unfold word, frame at 1, set_word. cbn.
  destruct (decide (b' = b)) as [->|Hne]; cycle 1.
  { rewrite lookup_insert_ne, decide_False by naive_solver. done. }
  rewrite lookup_insert_eq. cbn. destruct (decide (i' = i)) as [->|Hne].
  - rewrite decide_True, lookup_total_aset_eq by (done || unfold page_words in *; lia). done.
  - rewrite decide_False, lookup_total_aset_ne by (naive_solver || lia). done.
Qed.

Lemma slot_spec m b i : PmmOk m → managed m b → 0 ≤ i < 512 →
  is_sane_pte_ptr m (slot b i) = true ∧ PGROUNDDOWN (slot b i) = b ∧ (slot b i - b) / 8 = i ∧
  slot b i ≠ nullptr ∧ u64 (slot b i) = slot b i.
Proof.
  intros HO Hb Hi. destruct (managed_range m b HO Hb) as (H0 & H48 & Hal). unfold slot, PGSIZE in *.
  assert (PGROUNDDOWN (b + 8 * i) = b) as E.
  { rewrite PGROUNDDOWN_mod by lia. unfold page_aligned, PGSIZE in *.
    rewrite Z.add_mod, Hal, Z.add_0_l, Z.mod_mod, Z.mod_small by lia. lia. }
  split_and!; [|done| |unfold nullptr; lia|apply u64_small; lia].
  - unfold is_sane_pte_ptr. rewrite (proj2 (Z.eqb_neq _ nullptr)) by (unfold nullptr; lia).
    change 7 with (Z.ones 3). rewrite Z.land_ones by lia. change (2 ^ 3) with 8.
    replace ((b + 8 * i) mod 8) with 0; [cbn [Z.eqb negb]; rewrite E, is_managed_page_spec by (done || lia);
      by apply bool_decide_eq_true_2|].
    unfold page_aligned, PGSIZE in Hal. apply Z.mod_divide in Hal as [x ->]; [|done].
    replace (x * 4096 + 8 * i) with ((x * 512 + i) * 8) by lia. by rewrite Z_mod_mult.
  - replace (b + 8 * i - b) with (i * 8) by lia. by apply Z.div_mul.
Qed.

Section slots.
Context (m : Machine) (b i : Z) (HO : PmmOk m) (Hb : managed m b) (Hi : 0 ≤ i < 512).

Lemma load_slot : load_word m (slot b i) = Ret (word m b i).
Proof.
  destruct (slot_spec m b i HO Hb Hi) as (_ & E1 & E2 & _). unfold load_word. rewrite E1, E2.
  destruct (frame_length m b HO Hb) as [-> Hl]. apply aget_total. unfold page_words in *. lia.
Qed.

Lemma get_slot : get_data m (slot b i) = Ret (word m b i).
Proof. unfold get_data. destruct (slot_spec m b i HO Hb Hi) as (-> & _). apply load_slot. Qed.

Lemma flags_slot : get_flags m (slot b i) = Ret (Z.land (word m b i) 0x3ff).
Proof. unfold get_flags. destruct (slot_spec m b i HO Hb Hi) as (-> & _). cbn [negb]. by rewrite load_slot. Qed.

Lemma pa_slot : PageTable.pa m (slot b i) = Ret (PTE2PA (word m b i)).
Proof. unfold PageTable.pa. by rewrite get_slot. Qed.

Lemma test_slot k : 0 ≤ k → test_bit m (slot b i) (2 ^ k) = Ret (Z.testbit (word m b i) k).
Proof.
  intros Hk. unfold test_bit. destruct (slot_spec m b i HO Hb Hi) as (-> & _). cbn [negb].
  rewrite load_slot. cbn [obind]. by rewrite land_bit.
Qed.

Lemma valid_slot : is_valid m (slot b i) = Ret (Z.testbit (word m b i) 0).
Proof. apply (test_slot 0). lia. Qed.

Lemma user_slot : is_user m (slot b i) = Ret (Z.testbit (word m b i) 4).
Proof. apply (test_slot 4). lia. Qed.

Lemma set_slot d : set_data m (slot b i) d = Ret (set_word m b i d).
Proof.
  unfold set_data, store_word. destruct (slot_spec m b i HO Hb Hi) as (-> & -> & -> & _). cbn [negb].
  destruct (frame_length m b HO Hb) as [-> Hl]. unfold page_words in *. by rewrite aset_in_range by lia.
Qed.

Lemma slot_not_null : is_null (slot b i) = false.
Proof. unfold is_null. apply Z.eqb_neq. by destruct (slot_spec m b i HO Hb Hi) as (_ & _ & _ & ? & _). Qed.
End slots.

(** ** Address spaces *)

(** [mid] has the tables of the second level by index, [low] those of the last
    level by the number of the 2M range, [leaf] the entries by page number. *)
Record Space := mkSpace { root : Z; mid : gmap Z Z; low : gmap Z Z; leaf : gmap Z Z }.

Definition vals (f : gmap Z Z) : list Z := (map_to_list f).*2.

(** The pages used for tables, and the pages mapped. *)
Definition tables (sp : Space) : list Z := root sp :: vals (mid sp) ++ vals (low sp).
Definition pages (sp : Space) : list Z := PTE2PA <$> vals (leaf sp).

(** The entry for the next table. *)
Definition dir (o : option Z) : Z := match o with Some b => Z.lor (PA2PTE b) pte_valid_m | None => 0 end.

Record Tables (m : Machine) (sp : Space) : Prop := {
  t_root : ∀ i, 0 ≤ i < 512 → word m (root sp) i = dir (mid sp !! i);
  t_mid : ∀ i b, mid sp !! i = Some b →
    0 ≤ i < 512 ∧ ∀ j, 0 ≤ j < 512 → word m b j = dir (low sp !! (i * 512 + j));
  t_low : ∀ k b, low sp !! k = Some b →
    0 ≤ k < 2 ^ 18 ∧ is_Some (mid sp !! (k / 512)) ∧
    ∀ j, 0 ≤ j < 512 → word m b j = default 0 (leaf sp !! (k * 512 + j));
  t_leaf : ∀ v d, leaf sp !! v = Some d → is_Some (low sp !! (v / 512)) ∧ leaf_ok d
}.

Definition all_tables (ss : list Space) : list Z := flat_map tables ss.
Definition all_pages (ss : list Space) : list Z := flat_map pages ss.

(** [own a]: the references to page [a] held outside the page tables. *)
Record World (m : Machine) (ss : list Space) (own : Z → Z) : Prop := {
  w_ok : PmmOk m;
  w_tables : ∀ sp, sp ∈ ss → Tables m sp;
  w_nodup : NoDup (all_tables ss);
  w_table : ∀ b, b ∈ all_tables ss → single m b ∧ rc m b = 1 ∧ own b = 0;
  w_page : ∀ a, a ∈ all_pages ss → managed m a → single m a ∧ a ∉ all_tables ss;
  w_own : ∀ a, managed m a → 0 ≤ own a;
  w_rc : ∀ a, managed m a → a ∉ all_tables ss → rc m a = occ a (all_pages ss) + own a
}.

(** ** Maps and lists *)

Lemma vals_insert f k v : f !! k = None → vals (<[k := v]> f) ≡ₚ v :: vals f.
Proof. intros Hk. unfold vals. by rewrite map_to_list_insert. Qed.

Lemma vals_delete f k v : f !! k = Some v → vals f ≡ₚ v :: vals (delete k f).
Proof. intros Hk. unfold vals. by rewrite <- (map_to_list_delete f k v). Qed.

Lemma elem_of_vals f v : v ∈ vals f ↔ ∃ k, f !! k = Some v.
Proof.
  unfold vals. rewrite list_elem_of_fmap. split.
  - intros ([k w] & -> & Hin%elem_of_map_to_list). by exists k.
  - intros [k Hk%elem_of_map_to_list]. by exists (k, v).
Qed.

Lemma all_tables_cons sp ss : all_tables (sp :: ss) = tables sp ++ all_tables ss.
Proof. done. Qed.

Lemma all_pages_cons sp ss : all_pages (sp :: ss) = pages sp ++ all_pages ss.
Proof. done. Qed.

Lemma occ_nil a : occ a [] = 0.
Proof. done. Qed.

#[export] Instance occ_proper a : Proper ((≡ₚ) ==> (=)) (occ a).
Proof. intros l l' Hp. unfold occ. by rewrite Hp. Qed.

#[export] Instance all_tables_proper : Proper ((≡ₚ) ==> (≡ₚ)) all_tables.
Proof. intros l l' Hp. unfold all_tables. by apply Permutation_flat_map. Qed.

#[export] Instance all_pages_proper : Proper ((≡ₚ) ==> (≡ₚ)) all_pages.
Proof. intros l l' Hp. unfold all_pages. by apply Permutation_flat_map. Qed.

Lemma World_perm m ss ss' own : ss ≡ₚ ss' → World m ss own → World m ss' own.
Proof.
  intros Hp []. split; [done|intros sp; rewrite <- Hp; auto|by rewrite <- Hp|
    intros b; rewrite <- Hp; auto|intros a; rewrite <- Hp; auto|done|intros a; rewrite <- Hp; auto].
Qed.

#[export] Instance World_proper m : Proper ((≡ₚ) ==> pointwise_relation Z (=) ==> iff) (World m).
Proof.
  assert (∀ ss ss' own own', ss ≡ₚ ss' → (∀ a, own a = own' a) → World m ss own → World m ss' own') as H.
  { intros ss ss' own own' Hp Ho HW. apply (World_perm _ ss); [done|]. destruct HW.
    split; [done..| |done|intros; rewrite <- Ho; auto|intros; rewrite <- Ho; auto].
    intros b Hb. rewrite <- Ho. auto. }
  intros ss ss' Hp own own' Ho. split; apply H; done.
Qed.

Lemma tables_in sp ss b : sp ∈ ss → b ∈ tables sp → b ∈ all_tables ss.
Proof. intros ??. apply elem_of_flat_map. eauto. Qed.

Lemma root_in sp : root sp ∈ tables sp.
Proof. by left. Qed.

Lemma mid_in sp i b : mid sp !! i = Some b → b ∈ tables sp.
Proof. intros E. right. apply elem_of_app. left. apply elem_of_vals. eauto. Qed.

Lemma low_in sp k b : low sp !! k = Some b → b ∈ tables sp.
Proof. intros E. right. apply elem_of_app. right. apply elem_of_vals. eauto. Qed.

Lemma leaf_in sp ss v d : sp ∈ ss → leaf sp !! v = Some d → PTE2PA d ∈ all_pages ss.
Proof.
  intros Hs E. apply elem_of_flat_map. exists sp. split; [done|]. apply list_elem_of_fmap.
  exists d. split; [done|]. apply elem_of_vals. eauto.
Qed.

#[export] Hint Resolve tables_in root_in mid_in low_in leaf_in : kernel.

(** Only the pages of its tables matter to an address space. *)
Lemma Tables_frames m m' sp : (∀ b, b ∈ tables sp → frames m' !! b = frames m !! b) →
  Tables m sp → Tables m' sp.
Proof.
  intros Hf []. assert (∀ b i, b ∈ tables sp → word m' b i = word m b i) as Hw
    by (intros b i Hb; unfold word, frame; by rewrite Hf).
  split; [..|done].
  - intros i Hi. rewrite Hw by eauto with kernel. auto.
  - intros i b E. destruct (t_mid0 i b E) as [? Hj]. split; [done|]. intros j ?.
    rewrite Hw by eauto with kernel. auto.
  - intros k b E. destruct (t_low0 k b E) as (? & ? & Hj). split_and!; [lia|lia|done|].
    intros j ?. rewrite Hw by eauto with kernel. auto.
Qed.

(** Facts about the pages of a world. *)
Section world_facts.
Context (m : Machine) (ss : list Space) (own : Z → Z) (HW : World m ss own).

Lemma table_managed b : b ∈ all_tables ss → managed m b.
Proof. intros Hb. by destruct (w_table _ _ _ HW b Hb) as [[? _] _]. Qed.

Lemma table_not_page b : b ∈ all_tables ss → b ∉ all_pages ss.
Proof. intros Hb Hp. destruct (w_page _ _ _ HW b Hp); [by apply table_managed|done]. Qed.

(** A page without references is neither a table nor mapped. *)
Lemma unused_page a : managed m a → rc m a = 0 → a ∉ all_tables ss ∧ occ a (all_pages ss) = 0 ∧ own a = 0.
Proof.
  intros Hm E0. assert (a ∉ all_tables ss) as Ht.
  { intros Hb. destruct (w_table _ _ _ HW a Hb) as (_ & ? & _). lia. }
  pose proof (w_rc _ _ _ HW a Hm Ht). pose proof (occ_nonneg a (all_pages ss)).
  pose proof (w_own _ _ _ HW a Hm). split; [done|lia].
Qed.
End world_facts.

(** A world only depends on the counts and on the frames of the tables. *)
Lemma World_change m m' ss own own' :
  World m ss own → PmmOk m' → same_layout m m' →
  (∀ b, b ∈ all_tables ss → frames m' !! b = frames m !! b ∧ rc m' b = rc m b ∧ single m' b ∧ own' b = own b) →
  (∀ a, a ∈ all_pages ss → managed m a → single m' a) →
  (∀ a, managed m a → 0 ≤ own' a) →
  (∀ a, managed m a → a ∉ all_tables ss → rc m' a - rc m a = own' a - own a) →
  World m' ss own'.
Proof.
  intros HW HO' Hl Ht Hp Ho Hrc. split; [done|..].
  - intros sp Hs. eapply Tables_frames; [|by apply (w_tables _ _ _ HW)].
    intros b Hb. by apply Ht, (tables_in sp).
  - apply HW.
  - intros b Hb. destruct (Ht b Hb) as (_ & -> & ? & ->). split; [done|]. by apply HW.
  - intros a Ha. rewrite (managed_layout m m') by done. intros Hm. split; [by apply Hp|].
    by apply (w_page _ _ _ HW).
  - intros a. rewrite (managed_layout m m') by done. apply Ho.
  - intros a. rewrite (managed_layout m m') by done. intros Hm Hn.
    pose proof (w_rc _ _ _ HW a Hm Hn). specialize (Hrc a Hm Hn). lia.
Qed.

Definition add_own (own : Z → Z) (pa n : Z) : Z → Z := λ a, if decide (a = pa) then own a + n else own a.

(** A fresh page is owned by who asked for it. *)
Lemma World_fresh m m' ss own pa (clear : bool) : World m ss own → Fresh m m' pa →
  frames m' = (if clear then <[pa := zero_frame]> (frames m) else frames m) →
  World m' ss (add_own own pa 1).
Proof.
  intros HW [[HO' Hl Hrc] Hm Hu Hs _] Hf. destruct (unused_page _ _ _ HW pa Hm Hu) as (Hnt & Hnp & Hno).
  apply (World_change m _ _ own); [done..| | | |].
  - intros b Hb. assert (b ≠ pa) by congruence. unfold add_own. rewrite Hrc, !decide_False by done.
    split; [rewrite Hf; destruct clear; [by rewrite lookup_insert_ne|done]|].
    split_and!; [done| |done]. apply Hs. right. by apply (w_table _ _ _ HW).
  - intros a Ha Hma. apply Hs. right. by apply (w_page _ _ _ HW).
  - intros a Ha. unfold add_own. pose proof (w_own _ _ _ HW a Ha). case_decide; lia.
  - intros a _ _. unfold add_own. rewrite Hrc. case_decide; subst; lia.
Qed.

Lemma World_retained m m' ss own a : World m ss own → a ∉ all_tables ss →
  SetRc m m' a (rc m a + 1) → (∀ x, single m' x ↔ single m x) → frames m' = frames m →
  World m' ss (add_own own a 1).
Proof.
  intros HW Hnt [HO' Hl Hrc] Hs Hf. apply (World_change m _ _ own); [done..| | | |].
  - intros b Hb. assert (b ≠ a) by congruence. unfold add_own. rewrite Hrc, !decide_False, Hf, Hs by done.
    split_and!; try done. by apply (w_table _ _ _ HW).
  - intros x Hx Hm. apply Hs. by apply (w_page _ _ _ HW).
  - intros x Hx. unfold add_own. pose proof (w_own _ _ _ HW x Hx). case_decide; lia.
  - intros x _ _. unfold add_own. rewrite Hrc. case_decide; subst; lia.
Qed.

(** References given back must have been owned. *)
Lemma World_released m m' ss own ps : World m ss own → Released m m' ps →
  (∀ a, managed m a → a ∈ ps → occ a ps ≤ own a) →
  World m' ss (λ a, own a - occ a ps).
Proof.
  intros HW [HO' Hl Hrc Hs Hf _] Hps.
  assert (∀ a, managed m a → occ a ps ≤ own a) as Hle.
  { intros a Ha. destruct (decide (a ∈ ps)) as [Hin|Hin]; [by apply Hps|].
    pose proof (w_own _ _ _ HW a Ha). pose proof (occ_nonneg a ps). rewrite <- occ_pos in Hin. lia. }
  assert (∀ b, b ∈ all_tables ss → occ b ps = 0) as Htab.
  { intros b Hb. pose proof (Hle b (table_managed _ _ _ HW b Hb)). pose proof (occ_nonneg b ps).
    destruct (w_table _ _ _ HW b Hb) as (_ & _ & ?). lia. }
  apply (World_change m _ _ own); [done..| | | |].
  - intros b Hb. rewrite Hf, Hs, Hrc, (Htab b Hb) by (by eapply table_managed).
    destruct (w_table _ _ _ HW b Hb) as (? & ? & _). split_and!; (done || lia).
  - intros a Ha Hm. rewrite Hs, Hrc by done. destruct (w_page _ _ _ HW a Ha Hm) as [? Hnt]. split; [done|].
    pose proof (w_rc _ _ _ HW a Hm Hnt). specialize (Hle a Hm). apply occ_pos in Ha. lia.
  - intros a Ha. specialize (Hle a Ha). lia.
  - intros a Ha _. rewrite Hrc by done. lia.
Qed.

(** ** Updating a leaf entry *)

Definition with_leaf (sp : Space) (f : gmap Z Z) : Space := mkSpace (root sp) (mid sp) (low sp) f.

Definition put_leaf (sp : Space) (v : Z) (o : option Z) : Space :=
  with_leaf sp (partial_alter (λ _, o) v (leaf sp)).

Definition pg (o : option Z) : list Z := match o with Some d => [PTE2PA d] | None => [] end.

Lemma pages_put sp v o : pages (put_leaf sp v o) ++ pg (leaf sp !! v) ≡ₚ pg o ++ pages sp.
Proof.
  unfold pages, put_leaf. cbn [leaf with_leaf]. set (f := leaf sp).
  assert (vals (partial_alter (λ _, o) v f) ++ option_list (f !! v) ≡ₚ option_list o ++ vals f) as Hv.
  { assert (partial_alter (λ _, o) v f = partial_alter (λ _, o) v (delete v f)) as ->
      by (apply map_eq; intros j; destruct (decide (v = j)) as [<-|];
          rewrite ?lookup_partial_alter_eq, ?lookup_partial_alter_ne, ?lookup_delete_ne by done; done).
    assert (vals f ≡ₚ option_list (f !! v) ++ vals (delete v f)) as ->.
    { destruct (f !! v) as [d|] eqn:E; [by apply vals_delete|by rewrite delete_id]. }
    destruct o as [d|]; cbn [option_list app].
    - change (partial_alter (λ _, Some d) v (delete v f)) with (<[v := d]> (delete v f)).
      rewrite vals_insert by apply lookup_delete_eq. cbn. f_equiv. apply Permutation_app_comm.
    - change (partial_alter (λ _, None) v (delete v f)) with (delete v (delete v f)).
      rewrite delete_delete_eq. cbn. apply Permutation_app_comm. }
  apply (fmap_Permutation PTE2PA) in Hv. rewrite !fmap_app in Hv.
  assert (∀ o, PTE2PA <$> option_list o = pg o) as Hpg by (by intros []).
  by rewrite !Hpg in Hv.
Qed.

Lemma occ_put sp v o a : occ a (pages (put_leaf sp v o)) = occ a (pages sp) + occ a (pg o) - occ a (pg (leaf sp !! v)).
Proof. pose proof (f_equal (λ x, x) (occ_proper a _ _ (pages_put sp v o))) as H. rewrite !occ_app in H. lia. Qed.

Lemma vals_inj f k k' b : NoDup (vals f) → f !! k = Some b → f !! k' = Some b → k = k'.
Proof.
  intros Hnd E E'. destruct (decide (k = k')) as [|Hne]; [done|].
  rewrite (vals_delete f k b E), NoDup_cons in Hnd. destruct Hnd as [Hn _]. destruct Hn.
  apply elem_of_vals. exists k'. by rewrite lookup_delete_ne.
Qed.

Lemma tables_distinct sp : NoDup (tables sp) →
  (∀ i, mid sp !! i ≠ Some (root sp)) ∧ (∀ k, low sp !! k ≠ Some (root sp)) ∧
  (∀ i k b, mid sp !! i = Some b → low sp !! k ≠ Some b) ∧
  (∀ i i' b, mid sp !! i = Some b → mid sp !! i' = Some b → i = i') ∧
  (∀ k k' b, low sp !! k = Some b → low sp !! k' = Some b → k = k').
Proof.
  unfold tables. rewrite NoDup_cons, NoDup_app, not_elem_of_app. intros ((Hr1 & Hr2) & H1 & H2 & H3).
  split_and!.
  - intros i E. apply Hr1, elem_of_vals. eauto.
  - intros k E. apply Hr2, elem_of_vals. eauto.
  - intros i k b Em El. apply (H2 b); apply elem_of_vals; eauto.
  - intros i i' b. by apply vals_inj.
  - intros k k' b. by apply vals_inj.
Qed.

Lemma world_nodup m sp ss own : World m (sp :: ss) own → NoDup (tables sp) ∧
  ∀ sp', sp' ∈ ss → ∀ b, b ∈ tables sp → b ∉ tables sp'.
Proof.
  intros HW. pose proof (w_nodup _ _ _ HW) as Hnd. rewrite all_tables_cons in Hnd.
  apply NoDup_app in Hnd as (H1 & H2 & _). split; [done|]. intros sp' Hs b Hb Hb'. apply (H2 b Hb).
  apply elem_of_flat_map. eauto.
Qed.

(** The tables after one entry of a last-level table was written. *)
Lemma Tables_put m sp v b o : PmmOk m → managed m b → Tables m sp → NoDup (tables sp) →
  low sp !! (v / 512) = Some b → (∀ d, o = Some d → leaf_ok d) →
  Tables (set_word m b (v mod 512) (default 0 o)) (put_leaf sp v o).
Proof.
  intros HO Hb HT Hnd Eb Ho. destruct (tables_distinct sp Hnd) as (Hd1 & Hd2 & Hd3 & Hd4 & Hd5).
  pose proof (Z.mod_pos_bound v 512 ltac:(lia)). pose proof (Z.div_mod v 512 ltac:(lia)).
  split; unfold put_leaf; cbn [root mid low leaf with_leaf].
  - intros i Hi. rewrite word_set_word, decide_False by (done || lia || intros [E _]; by destruct (Hd2 (v / 512)); rewrite E).
    by apply (t_root _ _ HT).
  - intros i c E. destruct (t_mid _ _ HT i c E) as [Hi Hj]. split; [done|]. intros j Hjr.
    rewrite word_set_word, decide_False by (done || lia || intros [-> _]; by destruct (Hd3 i (v / 512) b)). by apply Hj.
  - intros k c E. destruct (t_low _ _ HT k c E) as (Hk & Hm & Hj). split_and!; [lia|lia|done|].
    intros j Hjr. rewrite word_set_word by (done || lia).
    destruct (decide (k * 512 + j = v)) as [<-|Hne].
    + rewrite lookup_partial_alter_eq. rewrite decide_True; [done|].
      rewrite Z.div_add_l, (Z.div_small j), Z.add_0_r in Eb by lia. split; [congruence|].
      rewrite Z.add_comm, Z_mod_plus_full. symmetry. by apply Z.mod_small.
    + rewrite lookup_partial_alter_ne by done. rewrite decide_False; [by apply Hj|].
      intros [-> ->]. destruct Hne. rewrite (Hd5 k (v / 512) b) by done. lia.
  - intros v' d. destruct (decide (v = v')) as [<-|Hne].
    + rewrite lookup_partial_alter_eq. intros ->. eauto.
    + rewrite lookup_partial_alter_ne by done. apply HT.
Qed.

(** Writing an entry moves references between the table and their owner. *)
Lemma World_put m sp ss own own' v b o : World m (sp :: ss) own → low sp !! (v / 512) = Some b →
  (∀ d, o = Some d → leaf_ok d ∧
    (managed m (PTE2PA d) → single m (PTE2PA d) ∧ PTE2PA d ∉ all_tables (sp :: ss))) →
  (∀ a, managed m a → own' a = own a + occ a (pg (leaf sp !! v)) - occ a (pg o) ∧ 0 ≤ own' a) →
  World (set_word m b (v mod 512) (default 0 o)) (put_leaf sp v o :: ss) own'.
Proof.
  intros HW Eb Ho Hown. destruct (world_nodup _ _ _ _ HW) as [Hnd Hdis].
  assert (b ∈ all_tables (sp :: ss)) as Hbt by (apply (tables_in sp); [by left|eauto with kernel]).
  pose proof (table_managed _ _ _ HW b Hbt) as Hbm. pose proof (w_ok _ _ _ HW) as HO.
  assert (∀ a, a ∈ all_pages (put_leaf sp v o :: ss) → a ∈ pg o ∨ a ∈ all_pages (sp :: ss)) as Hin.
  { intros a. rewrite !all_pages_cons, !elem_of_app. intros [Ha|?]; [|by auto].
    assert (a ∈ pg o ++ pages sp) as Ha' by (rewrite <- (pages_put sp v o); apply elem_of_app; by left).
    apply elem_of_app in Ha'. tauto. }
  split.
  - by apply set_word_ok.
  - intros s [->|Hs]%elem_of_cons.
    + apply Tables_put; [done|done|apply (w_tables _ _ _ HW); by left|done|done|]. intros d E. by apply Ho.
    + eapply Tables_frames; [|apply (w_tables _ _ _ HW); by right]. intros c Hc.
      apply frame_set_word_ne. intros ->. apply (Hdis s Hs b); [eauto with kernel|done].
  - apply HW.
  - intros c Hc. destruct (w_table _ _ _ HW c Hc) as (Hs & Hr & Hoc). split; [done|]. split; [done|].
    destruct (Hown c (table_managed _ _ _ HW c Hc)) as [-> Hnn].
    pose proof (table_not_page _ _ _ HW c Hc) as Hnp. rewrite Hoc in *.
    assert (occ c (pg (leaf sp !! v)) = 0) as E.
    { destruct (leaf sp !! v) as [d|] eqn:Ed; [|done]. cbn. rewrite occ_cons, decide_False; [done|].
      intros ->. apply Hnp. eapply leaf_in; [by left|done]. }
    pose proof (occ_nonneg c (pg o)). lia.
  - intros a Ha Hm. destruct (Hin a Ha) as [Hpg|Hp]; [|by apply (w_page _ _ _ HW)].
    destruct o as [d|]; [|by apply not_elem_of_nil in Hpg]. apply list_elem_of_singleton in Hpg as ->.
    by apply (Ho d).
  - intros a Ha. by apply Hown.
  - intros a Ha Hn. destruct (Hown a Ha) as [-> _]. pose proof (w_rc _ _ _ HW a Ha Hn) as Hr.
    rewrite all_pages_cons, occ_app in *. rewrite occ_put.
    change (rc (set_word m b (v mod 512) (default 0 o)) a) with (rc m a). lia.
Qed.

(** Only the ownership of managed pages matters. *)
Lemma World_own m ss own own' : World m ss own → (∀ a, managed m a → own' a = own a) → World m ss own'.
Proof.
  intros HW Ho. apply (World_change m _ _ own); [done|apply HW|done|..].
  - intros b Hb. rewrite Ho by (by eapply table_managed). destruct (w_table _ _ _ HW b Hb) as (? & ? & _). done.
  - intros a Ha Hm. by apply (w_page _ _ _ HW).
  - intros a Ha. rewrite Ho by done. by apply (w_own _ _ _ HW).
  - intros a Ha _. rewrite Ho by done. lia.
Qed.

Lemma PmmOk_emit m ev : PmmOk m → PmmOk (emit m ev).
Proof. intros []. by split. Qed.

Lemma World_emit m ss own ev : World m ss own → World (emit m ev) ss own.
Proof.
  intros HW. apply (World_change m _ _ own); [done|apply PmmOk_emit, HW|done|..].
  - intros b Hb. destruct (w_table _ _ _ HW b Hb) as (? & ? & _). done.
  - intros a Ha Hm. by apply (w_page _ _ _ HW).
  - intros a Ha. by apply (w_own _ _ _ HW).
  - intros a Ha _. change (rc (emit m ev) a) with (rc m a). lia.
Qed.

(** Owned references can be given back. *)
Lemma World_release m ss own ps : World m ss own →
  Forall (λ a, page_aligned a ∧ 0 ≤ a < 2 ^ 64) ps →
  (∀ a, managed m a → a ∈ ps → single m a ∧ occ a ps ≤ own a) →
  ∃ m', release_pages_batch m ps = Ret m' ∧ Released m m' ps ∧ World m' ss (λ a, own a - occ a ps).
Proof.
  intros HW Hps Hown. destruct (release_spec ps m (w_ok _ _ _ HW) Hps) as (m' & E & HR).
  - intros a Ha Hin. destruct (Hown a Ha Hin) as [Hs Ho]. split; [done|].
    apply occ_pos in Hin. assert (a ∉ all_tables ss) as Hn.
    { intros Ht. destruct (w_table _ _ _ HW a Ht) as (_ & _ & ?). lia. }
    rewrite (w_rc _ _ _ HW a Ha Hn). pose proof (occ_nonneg a (all_pages ss)). lia.
  - exists m'. split_and!; [done..|]. apply (World_released m); [done..|]. intros a Ha Hin. by apply Hown.
Qed.

(** Giving back one owned reference. *)
Lemma World_free m ss own pa : World m ss own → managed m pa → single m pa → 0 < own pa →
  ∃ m', free_page m pa = Ret m' ∧ Dropped m m' pa ∧ World m' ss (add_own own pa (-1)).
Proof.
  intros HW Hm Hs Ho. pose proof (w_ok _ _ _ HW) as HO. destruct (managed_range m pa HO Hm) as (H0 & H48 & Hal).
  pose proof (free_page_spec m pa HO Hal ltac:(unfold PGSIZE in *; lia) ltac:(by intros _; right)) as Hf.
  rewrite decide_True in Hf by done. destruct Hf as (m' & E & HD). exists m'. split_and!; [done..|].
  pose proof HD as [[HO' Hl Hrc] Hsin Hfr _].
  assert (pa ∉ all_tables ss) as Hnt by (intros Ht; destruct (w_table _ _ _ HW pa Ht) as (_ & _ & ?); lia).
  pose proof (w_rc _ _ _ HW pa Hm Hnt) as Erc.
  apply (World_change m _ _ own); [done..| | | |].
  - intros b Hb. assert (b ≠ pa) by congruence. unfold add_own. rewrite Hrc, !decide_False, Hfr, Hsin by done.
    split_and!; try done. by apply (w_table _ _ _ HW).
  - intros a Ha Hma. apply Hsin. split; [by apply (w_page _ _ _ HW)|]. intros ->. apply occ_pos in Ha. lia.
  - intros a Ha. unfold add_own. pose proof (w_own _ _ _ HW a Ha). case_decide; [subst; lia|done].
  - intros a _ _. unfold add_own. rewrite Hrc. case_decide; subst; lia.
Qed.

(** Writing to a page that is not a table. *)
Lemma World_page m ss own a ws : World m ss own → a ∉ all_tables ss → length ws = page_words →
  World (with_frames m (<[a := ws]> (frames m))) ss own.
Proof.
  intros HW Hn Hl. apply (World_change m _ _ own); [done| |done|..].
  - apply PmmOk_frames; [apply HW|]. intros x Hx. destruct (decide (x = a)) as [->|].
    + rewrite lookup_insert_eq. eauto.
    + rewrite lookup_insert_ne by done. by apply (ok_frames _ (w_ok _ _ _ HW)).
  - intros b Hb. cbn. rewrite lookup_insert_ne by congruence. destruct (w_table _ _ _ HW b Hb) as (? & ? & _). done.
  - intros x Hx Hm. by apply (w_page _ _ _ HW).
  - intros x Hx. by apply (w_own _ _ _ HW).
  - intros x _ _. change (rc (with_frames m _) x) with (rc m x). lia.
Qed.

End PtRep.
