(* ===== verification/PtWalk.v ===== *)
(** * Walking page tables

    [PageTable.walk] finds the slot of an address in an address space stored in
    page tables, and creates the missing tables if asked to. *)
From S2P Require Import Prelude Page Buddy Pmm PmmSpec PageTable PtRep.
Import Page Pmm PmmSpec PageTable PtRep.

Module PtWalk.

(** ** Page numbers *)

(** The page number of an address among the [2^27] pages of a table. *)
Definition vpn (va : Z) : Z := va / PGSIZE mod 2 ^ 27.

Lemma vpn_range va : 0 ≤ vpn va < 2 ^ 27.
Proof. by apply Z.mod_pos_bound. Qed.

Lemma PX_div l va : 0 ≤ l → PX l va = va / 2 ^ (12 + 9 * l) mod 512.
Proof.
  intros Hl. unfold PX, PXSHIFT, PGSHIFT. change PXMASK with (Z.ones 9).
  by rewrite Z.land_ones, Z.shiftr_div_pow2 by lia.
Qed.

Lemma mod_mul_div a b c : 0 < b → 0 < c → a mod (b * c) / b = a / b mod c.
Proof.
  intros Hb Hc. rewrite Z.rem_mul_r by lia. pose proof (Z.mod_pos_bound a b Hb).
  rewrite Z.add_comm, (Z.mul_comm b), Z.div_add_l, (Z.div_small (a mod b)) by lia. lia.
Qed.

Lemma mod_mul_mod a b c : 0 < b → 0 < c → a mod (b * c) mod b = a mod b.
Proof.
  intros Hb Hc. rewrite Z.rem_mul_r by lia. rewrite (Z.mul_comm b), Z_mod_plus_full. by apply Z.mod_mod; lia.
Qed.

Lemma PX_vpn va : PX 2 va = vpn va / 512 / 512 ∧ PX 1 va = vpn va / 512 mod 512 ∧ PX 0 va = vpn va mod 512.
Proof.
  rewrite !PX_div by lia. unfold vpn, PGSIZE.
  change (2 ^ (12 + 9 * 0)) with 4096. change (2 ^ (12 + 9 * 1)) with (4096 * 512).
  change (2 ^ (12 + 9 * 2)) with (4096 * (512 * 512)). rewrite <- !Zdiv_Zdiv by lia.
  set (x := va / 4096). change (2 ^ 27) with (512 * 512 * 512).
  rewrite <- !Z.mul_assoc, !mod_mul_div, !mod_mul_mod by lia. done.
Qed.

(** The indices of an address at the three levels. *)
Lemma vpn_parts va :
  0 ≤ vpn va / 512 / 512 < 512 ∧ 0 ≤ vpn va / 512 mod 512 < 512 ∧ 0 ≤ vpn va mod 512 < 512 ∧
  vpn va / 512 / 512 * 512 + vpn va / 512 mod 512 = vpn va / 512 ∧ 0 ≤ vpn va / 512 < 2 ^ 18.
Proof.
  pose proof (vpn_range va). pose proof (Z.div_mod (vpn va) 512). pose proof (Z.div_mod (vpn va / 512) 512).
  pose proof (Z.mod_pos_bound (vpn va) 512). pose proof (Z.mod_pos_bound (vpn va / 512) 512). lia.
Qed.

(** ** Directory entries *)

Lemma dir_some b : page_aligned b → 0 ≤ b < 2 ^ 48 →
  PTE2PA (dir (Some b)) = b ∧ Z.testbit (dir (Some b)) 0 = true ∧ Z.land (dir (Some b)) 0x3ff = 1.
Proof.
  intros Hal Hb. destruct (pte_join b 1 Hal Hb ltac:(lia)) as (_ & E1 & E2 & E3). cbn [dir].
  unfold pte_valid_m. rewrite E1, E2, (E3 0) by lia. done.
Qed.

Lemma sane_base m b : PmmOk m → managed m b → is_sane_pagetable_base m b = true.
Proof.
  intros HO Hb. destruct (managed_range m b HO Hb) as (H0 & H48 & Hal). unfold is_sane_pagetable_base, is_page_align.
  change (PGSIZE - 1) with (Z.ones 12). rewrite Z.land_ones by lia. unfold page_aligned, PGSIZE in *.
  change (2 ^ 12) with 4096. rewrite Hal, is_managed_page_spec by (done || lia). cbn. by apply bool_decide_eq_true_2.
Qed.

(** One level: the table below, if there is one. *)
Lemma walk_level_some m b level va alloc c : PmmOk m → managed m b → managed m c →
  0 ≤ PX level va < 512 → word m b (PX level va) = dir (Some c) →
  walk_level m b level va alloc = Ret (m, Some c).
Proof.
  intros HO Hb Hc Hi Hw. destruct (managed_range m c HO Hc) as (H0 & H48 & Hal).
  destruct (dir_some c Hal ltac:(unfold PGSIZE in *; lia)) as (E1 & E2 & E3).
  destruct (slot_spec m b (PX level va) HO Hb Hi) as (_ & _ & _ & _ & Es).
  unfold walk_level, get_pte. change (b + 8 * PX level va) with (slot b (PX level va)). rewrite Es.
  rewrite valid_slot, Hw, E2 by done. cbn [obind]. unfold is_leaf. rewrite flags_slot, Hw, E3 by done. cbn [obind].
  rewrite Z.eqb_refl. cbn [negb]. rewrite get_slot, Hw by done. cbn [obind]. rewrite E1. by rewrite sane_base.
Qed.

Lemma walk_level_none m b level va : PmmOk m → managed m b →
  0 ≤ PX level va < 512 → word m b (PX level va) = dir None →
  walk_level m b level va false = Ret (m, None).
Proof.
  intros HO Hb Hi Hw. destruct (slot_spec m b (PX level va) HO Hb Hi) as (_ & _ & _ & _ & Es).
  unfold walk_level, get_pte. change (b + 8 * PX level va) with (slot b (PX level va)). rewrite Es.
  by rewrite valid_slot, Hw by done.
Qed.

Lemma walk_level_new m b level va : PmmOk m → managed m b → 0 < rc m b →
  0 ≤ PX level va < 512 → word m b (PX level va) = dir None →
  (walk_level m b level va true = Ret (m, None) ∧ ∀ a, managed m a → 0 < rc m a) ∨
  ∃ m' c, walk_level m b level va true = Ret (set_word m' b (PX level va) (dir (Some c)), Some c) ∧
    Fresh m m' c ∧ frames m' = <[c := zero_frame]> (frames m).
Proof.
  intros HO Hb Hrc Hi Hw. destruct (slot_spec m b (PX level va) HO Hb Hi) as (_ & _ & _ & _ & Es).
  unfold walk_level, get_pte. change (b + 8 * PX level va) with (slot b (PX level va)). rewrite Es.
  rewrite valid_slot, Hw by done. cbn [obind dir Z.testbit negb].
  destruct (try_alloc_spec m true HO) as (m' & c & E & Hc). unfold try_alloc_page. rewrite E. cbn [obind].
  destruct Hc as [(-> & -> & Hfull)|[HF Hf]]; [left; by split|right].
  pose proof (fr_set _ _ _ HF) as [HO' Hl Hr]. pose proof (managed_range m c HO (fr_managed _ _ _ HF)) as (H0 & _).
  rewrite (proj2 (Z.eqb_neq c 0)) by lia.
  rewrite set_slot by (done || by apply (managed_layout m m')). cbn [obind]. by exists m', c.
Qed.

(** ** Finding a slot *)

Section lookup.
Context (m : Machine) (ss : list Space) (own : Z → Z) (sp : Space) (HW : World m ss own) (Hsp : sp ∈ ss).

Let tbl b : b ∈ tables sp → managed m b.
Proof. intros Hb. by eapply table_managed, tables_in. Qed.

(** Up to the last level. *)
Lemma walk_mid va alloc c : mid sp !! PX 2 va = Some c →
  walk m (root sp) va alloc = walk_loop [1] m c va alloc.
Proof using HW Hsp tbl.
  intros Ec. pose proof (w_tables _ _ _ HW sp Hsp) as HT. destruct (vpn_parts va) as (H2 & _).
  destruct (PX_vpn va) as (E2 & _). unfold walk. cbn [walk_loop].
  rewrite (walk_level_some m (root sp) 2 va alloc c); [done|apply HW|auto with kernel|eauto with kernel|by rewrite E2|].
  rewrite (t_root _ _ HT), Ec by (by rewrite E2). done.
Qed.

Lemma walk_found va alloc b : low sp !! (vpn va / 512) = Some b →
  walk m (root sp) va alloc = Ret (m, slot b (vpn va mod 512)).
Proof using HW Hsp tbl.
  intros Eb. pose proof (w_tables _ _ _ HW sp Hsp) as HT. pose proof (w_ok _ _ _ HW) as HO.
  destruct (vpn_parts va) as (H2 & H1 & H0 & Ej & _). destruct (PX_vpn va) as (E2 & E1 & E0).
  destruct (t_low _ _ HT _ _ Eb) as (_ & [c Ec] & _). rewrite <- E2 in Ec.
  rewrite (walk_mid va alloc c Ec). cbn [walk_loop].
  rewrite (walk_level_some m c 1 va alloc b); [|done|eauto with kernel|eauto with kernel|by rewrite E1|].
  - cbn [obind]. rewrite sane_base by (done || eauto with kernel). cbn [negb]. rewrite E0.
    change (b + 8 * (vpn va mod 512)) with (slot b (vpn va mod 512)).
    destruct (slot_spec m b (vpn va mod 512) HO) as (_ & _ & _ & _ & ->); [eauto with kernel|done|done].
  - destruct (t_mid _ _ HT _ _ Ec) as [_ Hj]. rewrite Hj by (by rewrite E1). by rewrite E1, E2, Ej, Eb.
Qed.

Lemma walk_missing va : low sp !! (vpn va / 512) = None → walk m (root sp) va false = Ret (m, nullptr).
Proof using HW Hsp tbl.
  intros Eb. pose proof (w_tables _ _ _ HW sp Hsp) as HT. pose proof (w_ok _ _ _ HW) as HO.
  destruct (vpn_parts va) as (H2 & H1 & H0 & Ej & _). destruct (PX_vpn va) as (E2 & E1 & E0).
  destruct (mid sp !! PX 2 va) as [c|] eqn:Ec.
  - rewrite (walk_mid va false c Ec). cbn [walk_loop].
    rewrite (walk_level_none m c 1 va); [done|done|eauto with kernel|by rewrite E1|].
    destruct (t_mid _ _ HT _ _ Ec) as [_ Hj]. rewrite Hj by (by rewrite E1). by rewrite E1, E2, Ej, Eb.
  - unfold walk. cbn [walk_loop].
    rewrite (walk_level_none m (root sp) 2 va); [done|done|auto with kernel|by rewrite E2|].
    rewrite (t_root _ _ HT), Ec by (by rewrite E2). done.
Qed.

(** What the slot holds. *)
Lemma word_leaf v b : low sp !! (v / 512) = Some b → word m b (v mod 512) = default 0 (leaf sp !! v).
Proof using HW Hsp.
  intros Eb. destruct (t_low _ _ (w_tables _ _ _ HW sp Hsp) _ _ Eb) as (_ & _ & Hj).
  pose proof (Z.mod_pos_bound v 512). pose proof (Z.div_mod v 512).
  rewrite Hj by lia. do 2 f_equal. lia.
Qed.

Lemma leaf_low v d : leaf sp !! v = Some d → ∃ b, low sp !! (v / 512) = Some b.
Proof using HW Hsp. intros E. by apply (t_leaf _ _ (w_tables _ _ _ HW sp Hsp) v d E). Qed.

Lemma leaf_data v d : leaf sp !! v = Some d → leaf_ok d.
Proof using HW Hsp. intros E. by apply (t_leaf _ _ (w_tables _ _ _ HW sp Hsp) v d E). Qed.

Lemma low_managed k b : low sp !! k = Some b → managed m b.
Proof using HW Hsp tbl. eauto with kernel. Qed.
End lookup.

(** ** Creating tables *)

(** [sp'] is [sp] with more tables and other leaf entries; no reference count of a
    page in use changed and no frame but those of its tables and of unused pages. *)
Record Grown (m m' : Machine) (sp sp' : Space) : Prop := {
  gr_root : root sp' = root sp;
  gr_low : low sp ⊆ low sp';
  gr_layout : same_layout m m';
  gr_rc : ∀ a, 0 < rc m a → rc m' a = rc m a;
  gr_single : ∀ a, single m a → single m' a;
  gr_frames : ∀ a, (managed m a → 0 < rc m a) → a ∉ tables sp → frames m' !! a = frames m !! a;
  gr_tables : ∀ a, a ∈ tables sp' → a ∈ tables sp ∨ (managed m a ∧ rc m a = 0);
  gr_more : ∀ a, a ∈ tables sp → a ∈ tables sp'
}.

Lemma Grown_refl m sp : Grown m m sp sp.
Proof. split; auto. reflexivity. Qed.

Lemma Grown_trans m1 m2 m3 sp1 sp2 sp3 : PmmOk m1 →
  Grown m1 m2 sp1 sp2 → Grown m2 m3 sp2 sp3 → Grown m1 m3 sp1 sp3.
Proof.
  intros HO [Hr Hlo Hly Hrc Hs Hf Ht He] [Hr' Hlo' Hly' Hrc' Hs' Hf' Ht' He'].
  split; [congruence|by etrans|by etrans|..|by auto].
  - intros a Ha. rewrite Hrc'; [auto|]. by rewrite Hrc.
  - auto.
  - intros a Ha Hn. rewrite Hf', Hf; [done|done|done| |].
    + rewrite (managed_layout m1 m2) by done. intros Hm. rewrite Hrc; auto.
    + intros Hin. destruct (Ht a Hin) as [|[Hm E0]]; [done|]. specialize (Ha Hm). lia.
  - intros a Ha. destruct (Ht' a Ha) as [?|[Hm E]]; [auto|]. apply (managed_layout m1) in Hm; [|done].
    destruct (decide (0 < rc m1 a)) as [Hp|]; [rewrite Hrc in E by done; lia|].
    right. pose proof (rc_range m1 a HO). split; [done|lia].
Qed.

(** An unmapped page that holds zeros becomes a table of [sp']. *)
Lemma World_adopt m sp sp' ss own b i d c : World m (sp :: ss) own → b ∈ tables sp →
  single m c → c ∉ all_tables (sp :: ss) → own c = 1 → rc m c = 1 →
  tables sp' ≡ₚ c :: tables sp → pages sp' = pages sp → Tables (set_word m b i d) sp' →
  World (set_word m b i d) (sp' :: ss) (add_own own c (-1)).
Proof.
  intros HW Hb Hsc Hnt Hoc Hrc Hperm Hpg HT. destruct (world_nodup _ _ _ _ HW) as [Hnd Hdis].
  assert (all_tables (sp' :: ss) ≡ₚ c :: all_tables (sp :: ss)) as Hat
    by (by rewrite !all_tables_cons, Hperm).
  assert (all_pages (sp' :: ss) = all_pages (sp :: ss)) as Hap by (by rewrite !all_pages_cons, Hpg).
  assert (managed m b) as Hbm by (eapply table_managed; [done|]; apply (tables_in sp); [by left|done]).
  assert (c ∉ all_pages (sp :: ss)) as Hcp.
  { pose proof (w_rc _ _ _ HW c (proj1 Hsc) Hnt). rewrite <- occ_pos. lia. }
  split.
  - apply set_word_ok; [apply HW|done].
  - intros s [->|Hs]%elem_of_cons; [done|]. eapply Tables_frames; [|apply (w_tables _ _ _ HW); by right].
    intros x Hx. apply frame_set_word_ne. intros ->. by apply (Hdis s Hs b).
  - rewrite Hat. constructor; [done|apply HW].
  - intros x. rewrite Hat, elem_of_cons. unfold add_own. intros [->|Hx].
    + rewrite decide_True by done. split_and!; [done|done|lia].
    + rewrite decide_False by congruence. by apply (w_table _ _ _ HW).
  - intros a. rewrite Hap, Hat, not_elem_of_cons. intros Ha Hm.
    destruct (w_page _ _ _ HW a Ha Hm) as [? ?]. split; [done|]. split; [congruence|done].
  - intros a Ha. unfold add_own. pose proof (w_own _ _ _ HW a Ha). case_decide; [subst; lia|done].
  - intros a Ha. rewrite Hat, Hap, not_elem_of_cons. intros [Hne Hn]. unfold add_own.
    rewrite decide_False by done. by apply (w_rc _ _ _ HW).
Qed.

Definition with_mid (sp : Space) (i c : Z) : Space := mkSpace (root sp) (<[i := c]> (mid sp)) (low sp) (leaf sp).
Definition with_low (sp : Space) (k c : Z) : Space := mkSpace (root sp) (mid sp) (<[k := c]> (low sp)) (leaf sp).

Definition zero_page (m : Machine) (c : Z) : Prop := ∀ i, 0 ≤ i < 512 → word m c i = 0.

Lemma zero_frame_page m c : frames m !! c = Some zero_frame → zero_page m c.
Proof.
  intros E i Hi. unfold word, frame, zero_frame, page_words. rewrite E. cbn [default].
  apply lookup_total_replicate_2. unfold page_words. lia.
Qed.

Lemma Tables_mid m sp i c : PmmOk m → Tables m sp → managed m (root sp) → NoDup (tables sp) →
  c ∉ tables sp → 0 ≤ i < 512 → mid sp !! i = None → zero_page m c →
  Tables (set_word m (root sp) i (dir (Some c))) (with_mid sp i c).
Proof.
  intros HO HT Hr Hnd Hc Hi Ei Hz. destruct (tables_distinct sp Hnd) as (Hd1 & Hd2 & Hd3 & Hd4 & Hd5).
  assert (c ≠ root sp) by (intros ->; apply Hc; auto with kernel).
  split; cbn [with_mid root mid low leaf].
  - intros j Hj. rewrite word_set_word by (done || lia). destruct (decide (j = i)) as [->|].
    + by rewrite decide_True, lookup_insert_eq.
    + rewrite decide_False, lookup_insert_ne by naive_solver. by apply (t_root _ _ HT).
  - intros i' b. destruct (decide (i' = i)) as [->|].
    + rewrite lookup_insert_eq. intros [= <-]. split; [done|]. intros j Hj.
      rewrite word_set_word, decide_False, Hz by (done || lia || naive_solver).
      destruct (low sp !! (i * 512 + j)) as [x|] eqn:El; [|done].
      destruct (t_low _ _ HT _ _ El) as (_ & [y Hy] & _).
      rewrite Z.div_add_l, (Z.div_small j), Z.add_0_r, Ei in Hy by lia. done.
    + rewrite lookup_insert_ne by done. intros Eb. destruct (t_mid _ _ HT i' b Eb) as [? Hj]. split; [done|].
      intros j Hjr. rewrite word_set_word, decide_False by (done || lia || intros [-> _]; by destruct (Hd1 i')).
      by apply Hj.
  - intros k b Eb. destruct (t_low _ _ HT k b Eb) as (Hk & Hm & Hj). split_and!; [lia|lia| |].
    + destruct (decide (k / 512 = i)) as [->|]; [by rewrite lookup_insert_eq|by rewrite lookup_insert_ne].
    + intros j Hjr. rewrite word_set_word, decide_False by (done || lia || intros [-> _]; by destruct (Hd2 k)).
      by apply Hj.
  - apply HT.
Qed.

Lemma Tables_low m sp k c b : PmmOk m → Tables m sp → mid sp !! (k / 512) = Some b → managed m b →
  NoDup (tables sp) → c ∉ tables sp → 0 ≤ k < 2 ^ 18 → low sp !! k = None → zero_page m c →
  Tables (set_word m b (k mod 512) (dir (Some c))) (with_low sp k c).
Proof.
  intros HO HT Eb Hb Hnd Hc Hk Ek Hz. destruct (tables_distinct sp Hnd) as (Hd1 & Hd2 & Hd3 & Hd4 & Hd5).
  assert (c ≠ b) by (intros ->; apply Hc; eauto with kernel).
  pose proof (Z.mod_pos_bound k 512 ltac:(lia)). pose proof (Z.div_mod k 512 ltac:(lia)).
  split; cbn [with_low root mid low leaf].
  - intros j Hj. rewrite word_set_word, decide_False by (done || lia || intros [E _]; by destruct (Hd1 (k / 512)); rewrite E).
    by apply (t_root _ _ HT).
  - intros i x Ex. destruct (t_mid _ _ HT i x Ex) as [Hi Hj]. split; [done|]. intros j Hjr.
    rewrite word_set_word by (done || lia). destruct (decide (i * 512 + j = k)) as [E|Hne].
    + rewrite E, lookup_insert_eq. subst k. rewrite Z.div_add_l, (Z.div_small j), Z.add_0_r in Eb by lia.
      rewrite decide_True; [done|]. split; [congruence|].
      rewrite Z.add_comm, Z_mod_plus_full. symmetry. by apply Z.mod_small.
    + rewrite lookup_insert_ne by done. rewrite decide_False; [by apply Hj|].
      intros [-> ->]. destruct Hne. rewrite (Hd4 i (k / 512) b) by done. lia.
  - intros k' x. destruct (decide (k' = k)) as [->|].
    + rewrite lookup_insert_eq. intros [= <-]. split_and!; [lia|lia|by eauto|]. intros j Hj.
      rewrite word_set_word, decide_False, Hz by (done || lia || naive_solver).
      destruct (leaf sp !! (k * 512 + j)) as [d|] eqn:Ed; [|done].
      destruct (t_leaf _ _ HT _ _ Ed) as [[y Hy] _].
      rewrite Z.div_add_l, (Z.div_small j), Z.add_0_r, Ek in Hy by lia. done.
    + rewrite lookup_insert_ne by done. intros Ex. destruct (t_low _ _ HT k' x Ex) as (? & ? & Hj).
      split_and!; [lia|lia|done|]. intros j Hjr.
      rewrite word_set_word, decide_False by (done || lia || intros [-> _]; by destruct (Hd3 (k / 512) k' b)).
      by apply Hj.
  - intros v d Ed. destruct (t_leaf _ _ HT v d Ed) as [? ?]. split; [|done].
    destruct (decide (v / 512 = k)) as [->|]; [by rewrite lookup_insert_eq|by rewrite lookup_insert_ne].
Qed.

(** A fresh page, entered in table [b], extends the space to [sp']. *)
Lemma grow_step m m1 sp sp' ss own b i d c : World m (sp :: ss) own → Fresh m m1 c →
  frames m1 = <[c := zero_frame]> (frames m) → b ∈ tables sp →
  root sp' = root sp → leaf sp' = leaf sp → low sp ⊆ low sp' → tables sp' ≡ₚ c :: tables sp →
  (PmmOk m1 → Tables m1 sp → managed m1 b → NoDup (tables sp) → c ∉ tables sp → zero_page m1 c →
   Tables (set_word m1 b i d) sp') →
  World (set_word m1 b i d) (sp' :: ss) own ∧ Grown m (set_word m1 b i d) sp sp'.
Proof.
  intros HW HF Hf Hb Hroot Hleaf Hlow Hperm HT. pose proof (World_fresh m m1 _ own c true HW HF Hf) as HW1.
  pose proof HF as [[HO1 Hl1 Hr1] Hcm Hcu Hs1 He1].
  destruct (unused_page _ _ _ HW c Hcm Hcu) as (Hct & Hcp & Hco).
  destruct (world_nodup _ _ _ _ HW1) as [Hnd _].
  assert (c ∉ tables sp) as Hcs by (rewrite all_tables_cons, not_elem_of_app in Hct; tauto).
  assert (managed m1 b) as Hbm by (eapply table_managed; [done|]; apply (tables_in sp); [by left|done]).
  split.
  - assert (World (set_word m1 b i d) (sp' :: ss) (add_own (add_own own c 1) c (-1))) as HW'.
    { apply (World_adopt m1 sp); try done.
      - apply Hs1. by left.
      - unfold add_own. rewrite decide_True by done. lia.
      - by rewrite Hr1, decide_True.
      - unfold pages. by rewrite Hleaf.
      - apply HT; try done; [apply (w_tables _ _ _ HW1); by left|].
        apply zero_frame_page. by rewrite Hf, lookup_insert_eq. }
    eapply (World_proper _ _ _ (reflexivity _)); [|exact HW'].
    intros a. unfold add_own. case_decide; lia.
  - split; [done|done|by rewrite Hl1|..].
    + intros a Ha. change (rc (set_word m1 b i d) a) with (rc m1 a). rewrite Hr1.
      rewrite decide_False; [done|]. intros ->. lia.
    + intros a Ha. apply Hs1. by right.
    + intros a Ha Hn. rewrite frame_set_word_ne by congruence. rewrite Hf, lookup_insert_ne; [done|].
      intros ->. specialize (Ha Hcm). lia.
    + intros a. rewrite Hperm, elem_of_cons. intros [->|?]; [by right|by left].
    + intros a Ha. rewrite Hperm. by right.
Qed.

Lemma grow_mid m m1 sp ss own i c : World m (sp :: ss) own → Fresh m m1 c →
  frames m1 = <[c := zero_frame]> (frames m) → mid sp !! i = None → 0 ≤ i < 512 →
  World (set_word m1 (root sp) i (dir (Some c))) (with_mid sp i c :: ss) own ∧
  Grown m (set_word m1 (root sp) i (dir (Some c))) sp (with_mid sp i c).
Proof.
  intros HW HF Hf Ei Hi. apply (grow_step m m1 sp _ _ _ _ _ _ c); auto with kernel; try done.
  - unfold tables, with_mid. cbn [root mid low]. rewrite vals_insert by done. cbn. by rewrite perm_swap.
  - intros. by apply Tables_mid.
Qed.

Lemma grow_low m m1 sp ss own k c b : World m (sp :: ss) own → Fresh m m1 c →
  frames m1 = <[c := zero_frame]> (frames m) → mid sp !! (k / 512) = Some b → low sp !! k = None → 0 ≤ k < 2 ^ 18 →
  World (set_word m1 b (k mod 512) (dir (Some c))) (with_low sp k c :: ss) own ∧
  Grown m (set_word m1 b (k mod 512) (dir (Some c))) sp (with_low sp k c).
Proof.
  intros HW HF Hf Eb Ek Hk. apply (grow_step m m1 sp _ _ _ _ _ _ c); eauto with kernel.
  - by apply insert_subseteq.
  - unfold tables, with_low. cbn [root mid low]. rewrite vals_insert by done. solve_Permutation.
  - intros. by eapply Tables_low.
Qed.

(** The step from the second level to the slot, creating the last table. *)
Lemma walk_alloc_last m sp ss own va c : World m (sp :: ss) own →
  low sp !! (vpn va / 512) = None → mid sp !! PX 2 va = Some c →
  ∃ m' sp' pte, walk_loop [1] m c va true = Ret (m', pte) ∧ World m' (sp' :: ss) own ∧ Grown m m' sp sp' ∧
    leaf sp' = leaf sp ∧ free_count m ≤ free_count m' + 1 ∧
    ((pte = nullptr ∧ ∀ a, managed m a → 0 < rc m' a) ∨
     ∃ b, low sp' !! (vpn va / 512) = Some b ∧ pte = slot b (vpn va mod 512)).
Proof.
  intros HW El Ec. assert (sp ∈ sp :: ss) as Hin by (by left).
  destruct (vpn_parts va) as (H2 & H1 & H0 & Ej & Hk). destruct (PX_vpn va) as (E2 & E1 & E0).
  pose proof (w_tables _ _ _ HW sp Hin) as HT. pose proof (w_ok _ _ _ HW) as HO.
  destruct (w_table _ _ _ HW c ltac:(eapply tables_in; eauto with kernel)) as ((Hcm & _) & Hrc & _).
  rewrite E2 in Ec. cbn [walk_loop].
  destruct (walk_level_new m c 1 va HO Hcm) as [[-> Hfull]|(m2 & x & -> & HF & Hf)]; [lia|by rewrite E1| | |].
  - destruct (t_mid _ _ HT _ _ Ec) as [_ Hj]. rewrite Hj by (by rewrite E1). by rewrite E1, Ej, El.
  - cbn [obind]. exists m, sp, nullptr. split_and!; [done..|apply Grown_refl|done|lia|by left].
  - cbn [obind]. destruct (grow_low m m2 sp ss own _ x c HW HF Hf Ec El Hk) as [HW' HG]. rewrite E1.
    pose proof (w_ok _ _ _ HW') as HO'.
    assert (low (with_low sp (vpn va / 512) x) !! (vpn va / 512) = Some x) as Ex by apply lookup_insert_eq.
    pose proof (low_managed _ _ _ _ HW' ltac:(by left) _ _ Ex) as Hmx.
    rewrite sane_base, E0 by done. cbn [negb]. change (x + 8 * (vpn va mod 512)) with (slot x (vpn va mod 512)).
    destruct (slot_spec _ x (vpn va mod 512) HO' Hmx H0) as (_ & _ & _ & _ & ->).
    eexists _, _, _. split; [reflexivity|]. split; [exact HW'|]. split; [exact HG|]. split; [done|].
    split; [rewrite (free_count_fresh _ _ _ HO HF); unfold free_count, ref; cbn; lia|]. right. exists x. split; [exact Ex|reflexivity].
Qed.

(** [walk] with allocation either runs out of pages or returns the slot. *)
Lemma walk_alloc m sp ss own va : World m (sp :: ss) own →
  ∃ m' sp' pte, walk m (root sp) va true = Ret (m', pte) ∧ World m' (sp' :: ss) own ∧ Grown m m' sp sp' ∧
    leaf sp' = leaf sp ∧ free_count m ≤ free_count m' + 2 ∧
    ((pte = nullptr ∧ low sp !! (vpn va / 512) = None ∧ ∀ a, managed m a → 0 < rc m' a) ∨
     ∃ b, low sp' !! (vpn va / 512) = Some b ∧ pte = slot b (vpn va mod 512)).
Proof.
  intros HW. pose proof (w_ok _ _ _ HW) as HO. assert (sp ∈ sp :: ss) as Hin by (by left).
  destruct (low sp !! (vpn va / 512)) as [b|] eqn:Eb.
  { exists m, sp, (slot b (vpn va mod 512)). rewrite (walk_found _ _ _ _ HW Hin _ _ _ Eb).
    split_and!; [done..|apply Grown_refl|done|lia|right; eauto]. }
  destruct (vpn_parts va) as (H2 & _). destruct (PX_vpn va) as (E2 & _).
  destruct (mid sp !! PX 2 va) as [c|] eqn:Ec.
  { rewrite (walk_mid _ _ _ _ HW Hin va true c Ec).
    destruct (walk_alloc_last m sp ss own va c HW Eb Ec) as (m' & sp' & pte & -> & HW' & HG & Hle & Hfc & Hp).
    exists m', sp', pte. split_and!; [done..|lia|]. destruct Hp as [[-> ?]|?]; [left; by split_and!|by right]. }
  pose proof (w_tables _ _ _ HW sp Hin) as HT. unfold walk. cbn [walk_loop].
  destruct (w_table _ _ _ HW (root sp) ltac:(eapply tables_in; eauto with kernel)) as ((Hrm & _) & Hrc & _).
  destruct (walk_level_new m (root sp) 2 va HO Hrm) as [[-> Hfull]|(m1 & x & -> & HF & Hf)]; [lia|by rewrite E2| | |].
  - rewrite (t_root _ _ HT), Ec by (by rewrite E2). done.
  - cbn [obind]. exists m, sp, nullptr. split_and!; [done..|apply Grown_refl|done|lia|by left].
  - cbn [obind]. destruct (grow_mid m m1 sp ss own (PX 2 va) x HW HF Hf Ec ltac:(by rewrite E2)) as [HW1 HG1].
    destruct (walk_alloc_last _ (with_mid sp (PX 2 va) x) ss own va x HW1 Eb) as (m' & sp' & pte & E & HW' & HG & Hle & Hfc & Hp).
    { cbn. by rewrite lookup_insert_eq. }
    exists m', sp', pte. split_and!; [exact E|done|by eapply Grown_trans|done| |].
    { rewrite (free_count_fresh _ _ _ HO HF). unfold free_count, ref in *. cbn in *. lia. }
    destruct Hp as [[-> Hfull]|?]; [left|by right]. split_and!; [done..|].
    intros a Ha. apply Hfull. by apply (managed_layout m _ a (gr_layout _ _ _ _ HG1)).
Qed.

(** Writing a leaf entry is such a change. *)
Lemma Grown_put m sp v b d o : low sp !! (v / 512) = Some b →
  Grown m (set_word m b (v mod 512) d) sp (put_leaf sp v o).
Proof.
  intros Eb. split; try done; [|by left].
  intros a _ Hn. apply frame_set_word_ne. intros ->. apply Hn. eauto with kernel.
Qed.

(** The page number of an aligned address. *)
Lemma vpn_page v : 0 ≤ v < 2 ^ 27 → vpn (v * PGSIZE) = v.
Proof. intros Hv. unfold vpn. rewrite Z.div_mul by done. by apply Z.mod_small. Qed.

Lemma Grown_fresh m m' sp pa (clear : bool) : Fresh m m' pa →
  frames m' = (if clear then <[pa := zero_frame]> (frames m) else frames m) → Grown m m' sp sp.
Proof.
  intros [[HO Hl Hrc] Hm Hu Hs He] Hf. split; try done; [..|by left].
  - intros a Ha. rewrite Hrc, decide_False; [done|]. intros ->. lia.
  - intros a Ha. apply Hs. by right.
  - intros a Ha _. rewrite Hf. destruct clear; [|done]. rewrite lookup_insert_ne; [done|]. intros ->. specialize (Ha Hm). lia.
Qed.

(** Dropping the reference to a page that was not in use before. *)
Lemma Grown_dropped m m1 m2 sp sp' pa : Grown m m1 sp sp' → Dropped m1 m2 pa → rc m pa = 0 → PmmOk m →
  Grown m m2 sp sp'.
Proof.
  intros [Hr Hlo Hly Hrc Hs Hf Ht He] [[HO Hl Hrc'] Hs' Hf' _] E0 HO0.
  assert (∀ a, 0 < rc m a → a ≠ pa) as Hne by (intros a Ha ->; lia).
  split; try done; [by etrans|..].
  - intros a Ha. rewrite Hrc', decide_False by auto. auto.
  - intros a Ha. apply Hs'. split; [auto|]. intros ->. pose proof (single_rc m pa HO0 Ha). lia.
  - intros a Ha Hn. rewrite Hf'. auto.
Qed.

(** The counts of two worlds that map the same pages. *)
Lemma world_rc_same m m' sp sp' ss own : World m (sp :: ss) own → World m' (sp' :: ss) own →
  pages sp' = pages sp → same_layout m m' → (∀ a, a ∈ tables sp → a ∈ tables sp') →
  (∀ a, a ∈ tables sp' → a ∈ tables sp ∨ (managed m a ∧ rc m a = 0)) → ∀ a, 0 < rc m a → rc m' a = rc m a.
Proof.
  intros HW HW' Hp Hl Hin Hout a Ha. assert (managed m a) as Hm by (by apply rc_pos_managed).
  assert (managed m' a) as Hm' by (by apply (managed_layout m)).
  destruct (decide (a ∈ all_tables (sp :: ss))) as [Ht|Ht]; rewrite all_tables_cons, elem_of_app in Ht.
  - destruct (w_table _ _ _ HW a) as (_ & -> & _); [by rewrite all_tables_cons, elem_of_app|].
    apply (w_table _ _ _ HW'). rewrite all_tables_cons, elem_of_app. naive_solver.
  - rewrite (w_rc _ _ _ HW), (w_rc _ _ _ HW'); try done.
    + by rewrite !all_pages_cons, Hp.
    + rewrite all_tables_cons, elem_of_app. intros [H|?]; [destruct (Hout a H) as [|[_ ?]]; [tauto|lia]|tauto].
    + by rewrite all_tables_cons, elem_of_app.
Qed.

End PtWalk.
