(* ===== verification/VmmMap.v ===== *)
(** * Mapping pages

    What [map_pages], [vmalloc] and [uvmalloc] do to the address spaces of a
    world. *)
From S2P Require Import Prelude Page Buddy Pmm PmmSpec PageTable Vmm PtRep PtWalk.
Import Page Pmm PmmSpec PageTable Vmm PtRep PtWalk.

Module VmmMap.

(** ** The entry of a mapping *)

Definition entry (pa flags : Z) : Z :=
  Z.lor (Z.lor (Z.lor (Z.lor (PA2PTE (PGROUNDDOWN (virt_to_phy_address pa))) flags)
    pte_valid_m) pte_accessed_m) pte_dirty_m.

Lemma virt_to_phy_small a : 0 ≤ a < 2 ^ 48 → virt_to_phy_address a = a.
Proof.
  intros Ha. unfold virt_to_phy_address. change k_physical_address_mask with (Z.ones 48).
  rewrite Z.land_ones by lia. by apply Z.mod_small.
Qed.

Lemma lor_flags f g n : 0 ≤ n → 0 ≤ f < 2 ^ n → 0 ≤ g < 2 ^ n → 0 ≤ Z.lor f g < 2 ^ n.
Proof.
  intros Hn Hf Hg. split; [apply Z.lor_nonneg; lia|]. destruct (decide (Z.lor f g = 0)) as [->|]; [lia|].
  apply Z.log2_lt_pow2; [pose proof (proj2 (Z.lor_nonneg f g)); lia|]. rewrite Z.log2_lor by lia.
  assert (∀ x, 0 ≤ x < 2 ^ n → x ≠ 0 → Z.log2 x < n) as H by (intros; apply Z.log2_lt_pow2; lia).
  destruct (decide (f = 0)) as [->|], (decide (g = 0)) as [->|]; cbn [Z.log2]; rewrite ?Z.lor_0_l in *.
  - done.
  - pose proof (Z.log2_nonneg g). specialize (H g). lia.
  - pose proof (Z.log2_nonneg f). specialize (H f). lia.
  - pose proof (H f). pose proof (H g). lia.
Qed.

Lemma entry_spec pa flags : page_aligned pa → 0 ≤ pa < 2 ^ 48 → 0 ≤ flags < 2 ^ 10 →
  leaf_ok (entry pa flags) ∧ PTE2PA (entry pa flags) = pa ∧
  ∀ n, 0 ≤ n < 10 → Z.testbit (entry pa flags) n = Z.testbit (Z.lor flags 193) n.
Proof.
  intros Hal Hpa Hf. unfold entry. rewrite virt_to_phy_small, PGROUNDDOWN_aligned by (done || lia).
  rewrite <- !Z.lor_assoc. change (Z.lor pte_valid_m (Z.lor pte_accessed_m pte_dirty_m)) with 193.
  destruct (pte_join pa (Z.lor flags 193) Hal Hpa) as (Hr & E & _ & Hb); [apply lor_flags; lia|].
  split; [|by split]. split; [done|]. rewrite Hb, Z.lor_spec by lia. by rewrite orb_true_r.
Qed.

(** ** Mapping a range *)

(** The leaf entries after [k] pages from page [v] on were mapped to the pages from
    [pa] on. *)
Fixpoint mapped (f : gmap Z Z) (v pa flags : Z) (k : nat) : gmap Z Z :=
  match k with
  | O => f
  | S k => mapped (<[v := entry pa flags]> f) (v + 1) (pa + PGSIZE) flags k
  end.

Fixpoint page_range (pa : Z) (k : nat) : list Z :=
  match k with O => [] | S k => pa :: page_range (pa + PGSIZE) k end.

Lemma mapped_lookup k : ∀ f v pa flags x, mapped f v pa flags k !! x =
  if decide (v ≤ x < v + Z.of_nat k) then Some (entry (pa + (x - v) * PGSIZE) flags) else f !! x.
Proof.
  induction k as [|k IH]; intros f v pa flags x; cbn [mapped]; [by rewrite decide_False by lia|].
  rewrite IH. destruct (decide (x = v)) as [->|].
  - rewrite decide_False, decide_True, lookup_insert_eq by lia. do 2 f_equal. lia.
  - rewrite lookup_insert_ne by done. destruct (decide (v + 1 ≤ x < v + 1 + Z.of_nat k)).
    + rewrite decide_True by lia. do 2 f_equal. lia.
    + by rewrite decide_False by lia.
Qed.

Lemma elem_of_page_range k : ∀ pa a, a ∈ page_range pa k ↔ ∃ i, 0 ≤ i < Z.of_nat k ∧ a = pa + i * PGSIZE.
Proof.
  induction k as [|k IH]; intros pa a; cbn [page_range].
  - split; [by intros ?%not_elem_of_nil|]. intros (i & ? & _). lia.
  - rewrite elem_of_cons, IH. split.
    + intros [->|(i & Hi & ->)]; [exists 0; lia|]. exists (i + 1). unfold PGSIZE. lia.
    + intros (i & Hi & ->). destruct (decide (i = 0)) as [->|]; [left; lia|right].
      exists (i - 1). unfold PGSIZE. lia.
Qed.

Lemma occ_page_range k : ∀ pa a, occ a (page_range pa k) ≤ 1.
Proof.
  induction k as [|k IH]; intros pa a; cbn [page_range]; [unfold occ; cbn; lia|]. rewrite occ_cons.
  destruct (decide (a = pa)) as [->|]; [|specialize (IH (pa + PGSIZE) a); lia].
  assert (¬ 0 < occ pa (page_range (pa + PGSIZE) k)); [|lia].
  rewrite occ_pos, elem_of_page_range. intros (i & Hi & E). unfold PGSIZE in E. lia.
Qed.

(** Why a mapping stops early. *)
Definition in_the_way (e : Env) (base a : Z) : outcome bool :=
  if negb (negb (k_pagetable e =? 0) && (base =? k_pagetable e)) && (a <? USER_MEMORY_TOP)
  then Ret false else Panic.

(** The pages to map are owned by the caller. *)
Definition mappable (m : Machine) (ss : list Space) (own : Z → Z) (a : Z) : Prop :=
  managed m a → single m a ∧ a ∉ all_tables ss ∧ 0 < own a.

Lemma mappable_grown m m' sp sp' ss own a : World m (sp :: ss) own → Grown m m' sp sp' →
  mappable m (sp :: ss) own a → mappable m' (sp' :: ss) own a.
Proof.
  intros HW HG Ha Hm. apply (managed_layout m) in Hm; [|apply HG]. destruct (Ha Hm) as (Hs & Hn & Ho).
  split_and!; [by apply HG| |done]. rewrite all_tables_cons, elem_of_app in *.
  intros [Hin|Hin]; [|tauto]. destruct (gr_tables _ _ _ _ HG a Hin) as [|[_ E]]; [tauto|].
  pose proof (single_rc m a (w_ok _ _ _ HW) Hs). lia.
Qed.

Definition take_own (own : Z → Z) (l : list Z) : Z → Z := λ a, own a - occ a l.

(** The entry of a page that is not mapped yet. *)
Lemma map_one m sp ss own v b pa flags : World m (sp :: ss) own →
  low sp !! (v / 512) = Some b → leaf sp !! v = None → page_aligned pa → 0 ≤ pa < 2 ^ 48 → 0 ≤ flags < 2 ^ 10 →
  mappable m (sp :: ss) own pa →
  World (set_word m b (v mod 512) (entry pa flags)) (put_leaf sp v (Some (entry pa flags)) :: ss) (take_own own [pa]).
Proof.
  intros HW Eb En Hal Hpa Hf Hmap. destruct (entry_spec pa flags Hal Hpa Hf) as (Hok & Epa & _).
  apply (World_put _ _ _ own _ _ _ (Some (entry pa flags))); [done..| |].
  - intros d [= <-]. split; [done|]. rewrite Epa. intros Hm. by destruct (Hmap Hm) as (? & ? & _).
  - intros a Ha. rewrite En. cbn [pg]. rewrite Epa. unfold take_own. split; [unfold occ; cbn; lia|].
    rewrite occ_cons. pose proof (w_own _ _ _ HW a Ha). change (occ a []) with 0.
    case_decide; [subst|lia]. destruct (Hmap Ha) as (_ & _ & ?). lia.
Qed.

(** One page: it stops because of an entry or for lack of memory, or goes on. *)
Lemma map_step e fuel m sp ss own v last pa flags : World m (sp :: ss) own → 0 ≤ v < 2 ^ 27 →
  page_aligned pa → 0 ≤ pa < 2 ^ 48 → 0 ≤ flags < 2 ^ 10 → mappable m (sp :: ss) own pa →
  ∃ m1 sp1 o, World m1 (sp1 :: ss) (take_own own o) ∧ Grown m m1 sp sp1 ∧ free_count m ≤ free_count m1 + 2 ∧
    (o = [] ∧ leaf sp1 = leaf sp ∧
       (is_Some (leaf sp !! v) ∧ map_loop (S fuel) e m (root sp) (v * PGSIZE) last pa flags =
          (let! ok := in_the_way e (root sp) (v * PGSIZE) in Ret (m1, ok)) ∨
        leaf sp !! v = None ∧ map_loop (S fuel) e m (root sp) (v * PGSIZE) last pa flags = Ret (m1, false) ∧
          ∀ a, managed m a → 0 < rc m1 a) ∨
     o = [pa] ∧ leaf sp !! v = None ∧ leaf sp1 = <[v := entry pa flags]> (leaf sp) ∧
       map_loop (S fuel) e m (root sp) (v * PGSIZE) last pa flags =
         if v * PGSIZE =? last then Ret (m1, true)
         else map_loop fuel e m1 (root sp) (u64 (v * PGSIZE + PGSIZE)) last (u64 (pa + PGSIZE)) flags).
Proof.
  intros HW Hv Hal Hpa Hfl Hmap. pose proof (vpn_page v Hv) as Ev. pose proof (Z.mod_pos_bound v 512 ltac:(lia)) as Hvm.
  destruct (walk_alloc m sp ss own (v * PGSIZE) HW) as (m1 & sp1 & pte & E & HW1 & HG & El & Hfc & Hp).
  rewrite Ev in Hp. cbn [map_loop]. rewrite E. cbn [obind].
  assert (sp1 ∈ sp1 :: ss) as Hin by (by left).
  assert (World m1 (sp1 :: ss) (take_own own [])) as HW1'
    by (eapply (World_proper _ _ _ (reflexivity _)); [|exact HW1]; intros a; unfold take_own; change (occ a []) with 0; lia).
  destruct Hp as [(-> & Elow & Hfull)|(b & Eb & ->)].
  { exists m1, sp1, []. split; [done|]. split; [done|]. split; [done|]. left. split_and!; [done..|right]. split_and!; [|done|done].
    destruct (leaf sp !! v) as [d|] eqn:Ed; [|done].
    destruct (leaf_low _ _ _ _ HW ltac:(by left) v d Ed) as [b Hb]. congruence. }
  pose proof (low_managed _ _ _ _ HW1 Hin _ _ Eb) as Hbm. pose proof (w_ok _ _ _ HW1) as HO1.
  rewrite (slot_not_null m1), valid_slot, (word_leaf _ _ _ _ HW1 Hin v b Eb), El by done. cbn [obind].
  destruct (leaf sp !! v) as [d|] eqn:Ed.
  - change (default 0 (Some d)) with d. destruct (leaf_data _ _ _ _ HW ltac:(by left) v d Ed) as [_ ->].
    exists m1, sp1, []. split; [done|]. split; [done|]. split; [done|]. left. split_and!; [done..|left]. split; [by eauto|].
    unfold in_the_way. by destruct (_ && _).
  - change (Z.testbit (default 0 None) 0) with false. rewrite set_slot by done. cbn [obind].
    exists (set_word m1 b (v mod 512) (entry pa flags)), (put_leaf sp1 v (Some (entry pa flags))), [pa].
    split; [apply map_one; try done; [by rewrite El|by apply (mappable_grown m m1 sp sp1)]|].
    split; [eapply Grown_trans; [apply HW|done|by apply Grown_put]|].
    split; [exact Hfc|]. right. split_and!; [done|done| |done]. unfold put_leaf. cbn [leaf with_leaf]. by rewrite El.
Qed.

(** How a mapping of [n] pages from page [v] on ends after [k] of them. *)
Definition map_end (e : Env) (m m' : Machine) (sp : Space) (v : Z) (n k : nat) (r : outcome (Machine * bool)) : Prop :=
  (k = n ∧ r = Ret (m', true)) ∨
  (k < n)%nat ∧
  ((is_Some (leaf sp !! (v + Z.of_nat k)) ∧
    r = let! ok := in_the_way e (root sp) ((v + Z.of_nat k) * PGSIZE) in Ret (m', ok)) ∨
   (leaf sp !! (v + Z.of_nat k) = None ∧ r = Ret (m', false) ∧ ∀ a, managed m a → 0 < rc m' a)).

Lemma map_loop_spec e ss flags n : 0 ≤ flags < 2 ^ 10 → ∀ m sp own v pa, World m (sp :: ss) own →
  0 ≤ v → v + Z.of_nat (S n) ≤ 2 ^ 27 → page_aligned pa → 0 ≤ pa → pa + Z.of_nat (S n) * PGSIZE ≤ 2 ^ 48 →
  (∀ a, a ∈ page_range pa (S n) → mappable m (sp :: ss) own a) →
  ∃ m' sp' k, World m' (sp' :: ss) (take_own own (page_range pa k)) ∧ Grown m m' sp sp' ∧
    leaf sp' = mapped (leaf sp) v pa flags k ∧ free_count m ≤ free_count m' + 2 * Z.of_nat (S n) ∧
    map_end e m m' sp v (S n) k
      (map_loop (S n) e m (root sp) (v * PGSIZE) ((v + Z.of_nat n) * PGSIZE) pa flags).
Proof.
  intros Hfl. induction n as [|n IH]; intros m sp own v pa HW Hv Hvn Hal Hpa Hpn Hmap.
  all: match goal with |- context [map_end _ _ _ _ _ (S ?f) _ _] =>
    destruct (map_step e f m sp ss own v ((v + Z.of_nat f) * PGSIZE) pa flags HW)
      as (m1 & sp1 & o & HW1 & HG1 & Hfc & Hr) end; [lia|done|unfold PGSIZE in *; lia|done|apply Hmap; by left|].
  all: destruct Hr as [(-> & El & Hr)|(-> & En & El & Hr)].
  - exists m1, sp1, O. split_and!; [done..|lia|]. right. split; [lia|]. cbn [Z.of_nat]. rewrite !Z.add_0_r in *. naive_solver.
  - exists m1, sp1, 1%nat. split_and!; [done..|lia|]. left. split; [done|]. rewrite Hr. cbn [Z.of_nat].
    by rewrite Z.add_0_r, Z.eqb_refl.
  - exists m1, sp1, O. split_and!; [done..|lia|]. right. split; [lia|]. cbn [Z.of_nat]. rewrite !Z.add_0_r in *. naive_solver.
  - rewrite Hr. rewrite (proj2 (Z.eqb_neq _ _)) by (unfold PGSIZE; lia).
    rewrite !u64_small by (unfold PGSIZE in *; lia).
    replace (v * PGSIZE + PGSIZE) with ((v + 1) * PGSIZE) by lia.
    replace (v + Z.of_nat (S n)) with (v + 1 + Z.of_nat n) by lia.
    rewrite <- (gr_root _ _ _ _ HG1).
    destruct (IH m1 sp1 (take_own own [pa]) (v + 1) (pa + PGSIZE) HW1) as (m' & sp' & k & HW' & HG' & El' & Hfc' & He);
      [lia|lia| |unfold PGSIZE; lia|unfold PGSIZE in *; lia| |].
    + unfold page_aligned, PGSIZE in *. rewrite <- Z.add_mod_idemp_l, Hal by done. done.
    + intros a Ha. assert (mappable m1 (sp1 :: ss) own a) as Hm.
      { eapply mappable_grown; [done|done|]. apply Hmap. by right. }
      intros Hma. destruct (Hm Hma) as (? & ? & ?). split_and!; [done..|]. unfold take_own.
      rewrite occ_cons, decide_False; [change (occ a []) with 0; lia|].
      apply elem_of_page_range in Ha as (i & ? & ->). unfold PGSIZE. lia.
    + exists m', sp', (S k). split_and!.
      * eapply (World_proper _ _ _ (reflexivity _)); [|exact HW']. intros a. unfold take_own. cbn [page_range].
        rewrite !occ_cons. change (occ a []) with 0. lia.
      * eapply Grown_trans; [apply HW|done..].
      * cbn [mapped]. by rewrite El', El.
      * lia.
      * replace (v + 1 + Z.of_nat k) with (v + Z.of_nat (S k)) in He by lia.
        destruct He as [[-> ->]|[Hk He]]; [by left|right]. split; [lia|].
        rewrite El, (lookup_insert_ne _ v) in He by lia. rewrite (gr_root _ _ _ _ HG1) in He |- *.
        replace (v + 1 + Z.of_nat k) with (v + Z.of_nat (S k)) in He by lia.
        destruct He as [[? ->]|(? & -> & Hfull)]; [left; done|right]. split_and!; [done..|].
        intros a Ha. apply Hfull. by apply (managed_layout m m1 a (gr_layout _ _ _ _ HG1)).
Qed.

(** The number of pages that [size] bytes from [va] on touch. *)
Definition page_span (va size : Z) : nat := Z.to_nat ((va + size - 1) / PGSIZE - va / PGSIZE + 1).

Lemma PGROUNDDOWN_div a : 0 ≤ a < 2 ^ 64 → PGROUNDDOWN a = a / PGSIZE * PGSIZE.
Proof.
  intros Ha. rewrite PGROUNDDOWN_mod by done. pose proof (Z.div_mod a PGSIZE). unfold PGSIZE in *. lia.
Qed.

Lemma map_pages_spec e m sp ss own va size pa flags : World m (sp :: ss) own →
  0 ≤ va → 0 < size → va + size ≤ 2 ^ 39 → page_aligned pa → 0 ≤ pa →
  pa + Z.of_nat (page_span va size) * PGSIZE ≤ 2 ^ 48 → 0 ≤ flags < 2 ^ 10 →
  (∀ a, a ∈ page_range pa (page_span va size) → mappable m (sp :: ss) own a) →
  ∃ m' sp' k, World m' (sp' :: ss) (take_own own (page_range pa k)) ∧ Grown m m' sp sp' ∧
    leaf sp' = mapped (leaf sp) (va / PGSIZE) pa flags k ∧
    free_count m ≤ free_count m' + 2 * Z.of_nat (page_span va size) ∧
    map_end e m m' sp (va / PGSIZE) (page_span va size) k (map_pages e m (root sp) va size pa flags).
Proof.
  intros HW Hva Hsz Hend Hal Hpa Hpn Hfl Hmap. unfold map_pages.
  rewrite (proj2 (Z.eqb_neq size 0)), (u64_small (va + size - 1)), !PGROUNDDOWN_div by lia.
  assert (va / PGSIZE ≤ (va + size - 1) / PGSIZE) as Hle by (apply Z.div_le_mono; unfold PGSIZE; lia).
  assert ((va + size - 1) / PGSIZE < 2 ^ 27) as Hlt by (apply Z.div_lt_upper_bound; unfold PGSIZE; lia).
  pose proof (Z.div_pos va PGSIZE Hva ltac:(done)) as Hv0.
  unfold page_span in *. set (v := va / PGSIZE) in *. set (l := (va + size - 1) / PGSIZE) in *.
  replace (Z.to_nat (l - v + 1)) with (S (Z.to_nat (l - v))) in * by lia.
  rewrite <- Z.mul_sub_distr_r, u64_small, Z.div_mul by (unfold PGSIZE; lia).
  replace (l * PGSIZE) with ((v + Z.of_nat (Z.to_nat (l - v))) * PGSIZE) by (rewrite Z2Nat.id by lia; lia).
  apply map_loop_spec; (done || lia).
Qed.

(** One page *)
Lemma map_page_spec e m sp ss own v pa flags : World m (sp :: ss) own → 0 ≤ v < 2 ^ 27 →
  page_aligned pa → 0 ≤ pa < 2 ^ 48 → 0 ≤ flags < 2 ^ 10 → mappable m (sp :: ss) own pa →
  ∃ m' sp', Grown m m' sp sp' ∧ free_count m ≤ free_count m' + 2 ∧
    ((World m' (sp' :: ss) (take_own own [pa]) ∧ leaf sp !! v = None ∧ leaf sp' = <[v := entry pa flags]> (leaf sp) ∧
      map_pages e m (root sp) (v * PGSIZE) PGSIZE pa flags = Ret (m', true)) ∨
     (World m' (sp' :: ss) own ∧ leaf sp' = leaf sp ∧
      ((is_Some (leaf sp !! v) ∧ map_pages e m (root sp) (v * PGSIZE) PGSIZE pa flags =
          let! ok := in_the_way e (root sp) (v * PGSIZE) in Ret (m', ok)) ∨
       (leaf sp !! v = None ∧ map_pages e m (root sp) (v * PGSIZE) PGSIZE pa flags = Ret (m', false) ∧
        ∀ a, managed m a → 0 < rc m' a)))).
Proof.
  intros HW Hv Hal Hpa Hfl Hmap.
  assert (map_pages e m (root sp) (v * PGSIZE) PGSIZE pa flags =
    map_loop 1 e m (root sp) (v * PGSIZE) (v * PGSIZE) pa flags) as ->.
  { unfold map_pages. change (PGSIZE =? 0) with false. cbv iota. rewrite (u64_small (v * PGSIZE + PGSIZE - 1)) by (unfold PGSIZE; lia).
    rewrite !PGROUNDDOWN_div by (unfold PGSIZE; lia). rewrite Z.div_mul by done.
    replace ((v * PGSIZE + PGSIZE - 1) / PGSIZE) with v; [by rewrite Z.sub_diag|].
    unfold PGSIZE. apply (Z.div_unique_pos _ _ _ 4095); lia. }
  destruct (map_step e 0 m sp ss own v (v * PGSIZE) pa flags HW Hv Hal Hpa Hfl Hmap)
    as (m1 & sp1 & o & HW1 & HG1 & Hfc & [(-> & El & Hr)|(-> & En & El & ->)]).
  - exists m1, sp1. split; [done|]. split; [done|]. right. split; [|split; [done|]].
    + eapply (World_proper _ _ _ (reflexivity _)); [|exact HW1]. intros a. unfold take_own. change (occ a []) with 0. lia.
    + naive_solver.
  - exists m1, sp1. split; [done|]. split; [done|]. left. by rewrite Z.eqb_refl.
Qed.

End VmmMap.
