(* ===== verification/VmmUnmap.v ===== *)
(** * Unmapping pages

    What [vmunmap] does to an address space, and the order in which it flushes
    translations and gives pages back. *)
From S2P Require Import Prelude Page Buddy Pmm PmmSpec PageTable Vmm PtRep PtWalk VmmMap.
Import Page Pmm PmmSpec PageTable Vmm PtRep PtWalk VmmMap.

Module VmmUnmap.

(** ** Which entries go *)

(** Reserved pages stay, unless a single one is to be unmapped but not freed. *)
Definition kept (npages : Z) (do_free : bool) (v : Z) : bool :=
  is_reserved_page (v * PGSIZE) && negb ((npages =? 1) && negb do_free).

Fixpoint range_pages (f : gmap Z Z) (keep : Z → bool) (v : Z) (k : nat) : list Z :=
  match k with
  | O => []
  | S k => range_pages f keep v k ++ (if keep (v + Z.of_nat k) then [] else pg (f !! (v + Z.of_nat k)))
  end.

Lemma range_pages_app f keep v n k :
  range_pages f keep v (n + k) = range_pages f keep v n ++ range_pages f keep (v + Z.of_nat n) k.
Proof.
  induction k as [|k IH]; cbn [range_pages]; [by rewrite Nat.add_0_r, app_nil_r|].
  rewrite Nat.add_succ_r. cbn [range_pages]. rewrite IH, <- app_assoc.
  by replace (v + Z.of_nat (n + k)) with (v + Z.of_nat n + Z.of_nat k) by lia.
Qed.

(** A page number is in a flushed range of the log. *)
Definition flush_target (e : Env) (base : Z) : option Z :=
  if bool_decide (current e = Some base) then Some base else None.

Definition flushed (e : Env) (base : Z) (ev : list Event) (x : Z) : Prop :=
  ∃ s n, TlbFlush (flush_target e base) s n ∈ ev ∧ s ≤ x * PGSIZE ∧ x * PGSIZE + PGSIZE ≤ s + n.

Lemma flushed_app e base ev ev' x : flushed e base ev x → flushed e base (ev ++ ev') x.
Proof. intros (s & n & H & ?). exists s, n. rewrite elem_of_app. auto. Qed.

(** Before a page is given back, every address it was mapped at is flushed. *)
Definition flush_first (e : Env) (m : Machine) (sp : Space) (ev : list Event) : Prop :=
  ∀ i a, ev !! i = Some (BuddyFree (index_of m a)) → managed m a →
  ∀ v d, leaf sp !! v = Some d → PTE2PA d = a → flushed e (root sp) (take i ev) v.

(** A batch: a flush, then pages given back. *)
Lemma flush_first_batch e m sp ev s n fr : PmmOk m → flush_first e m sp ev →
  (∀ x, x ∈ fr → ∃ a, x = BuddyFree (index_of m a) ∧ managed m a ∧
    ∀ v d, leaf sp !! v = Some d → PTE2PA d = a →
      flushed e (root sp) (ev ++ [TlbFlush (flush_target e (root sp)) s n]) v) →
  flush_first e m sp (ev ++ TlbFlush (flush_target e (root sp)) s n :: fr).
Proof.
  intros HO Hev Hfr i a E Ha v d Ed Ep. set (fl := TlbFlush _ _ _) in *.
  apply lookup_app_Some in E as [E|[Hi E]].
  - pose proof (lookup_lt_Some _ _ _ E). rewrite take_app_le by lia. by eapply Hev.
  - rewrite take_app_ge by lia. destruct (i - length ev)%nat as [|j]; [done|]. cbn in E |- *.
    apply list_elem_of_lookup_2 in E. destruct (Hfr _ E) as (a' & [= Ei] & Ha' & Hv).
    rewrite cons_middle, app_assoc. apply flushed_app, (Hv v d Ed). rewrite Ep. by apply (index_of_inj m).
Qed.

(** ** The loop *)

Section unmap.
Context (e : Env) (m0 : Machine) (sp0 : Space) (ss : list Space) (own0 : Z → Z).
Context (v0 npages : Z) (do_free : bool) (mode : UnmapTlbMode).
Context (HW0 : World m0 (sp0 :: ss) own0) (Hv0 : 0 ≤ v0).

Local Abbreviation keep := (kept npages do_free).

(** After [k] pages, with leaf entries [f] and the batch [p]. *)
Record UInv (m : Machine) (f : gmap Z Z) (p : Pending) (k : nat) : Prop := {
  ui_world : World m (with_leaf sp0 f :: ss)
    (λ a, own0 a + occ a (if do_free then pending p else range_pages (leaf sp0) keep v0 k));
  ui_leaf : ∀ x, f !! x = if decide (v0 ≤ x < v0 + Z.of_nat k ∧ keep x = false) then None else leaf sp0 !! x;
  ui_layout : same_layout m0 m;
  ui_single : ∀ a, single m a ↔ single m0 a ∧ 0 < rc m a;
  ui_frames : ∀ a, a ∉ tables sp0 → frames m !! a = frames m0 !! a;
  ui_pending : ∀ a, a ∈ pending p →
    if do_free then page_aligned a ∧ 0 ≤ a < 2 ^ 64 ∧ (managed m a → single m a) else a = nullptr;
  ui_range : pending p ≠ [] → 0 ≤ pending_start p ≤ pending_end p ∧ pending_end p ≤ (v0 + Z.of_nat k) * PGSIZE;
  ui_events : ∃ ev, events m = events m0 ++ ev ∧ (mode = Invalidate → flush_first e m0 sp0 ev ∧
    ∀ x d, v0 ≤ x < v0 + Z.of_nat k → keep x = false → leaf sp0 !! x = Some d →
      flushed e (root sp0) ev x ∨
      (pending p ≠ [] ∧ pending_start p ≤ x * PGSIZE ∧ x * PGSIZE + PGSIZE ≤ pending_end p))
}.

Lemma UInv_start : UInv m0 (leaf sp0) no_pending 0.
Proof using HW0.
  split; try done.
  - apply (World_own m0 _ own0); [by destruct sp0|]. intros a Ha. destruct do_free; cbn; change (occ a []) with 0; lia.
  - intros x. by rewrite decide_False by lia.
  - intros a. split; [intros Ha; split; [done|apply single_rc; [apply HW0|done]]|by intros [? _]].
  - intros a Ha. by apply not_elem_of_nil in Ha.
  - exists []. rewrite app_nil_r. split; [done|]. intros _. split; [done|]. intros x d ?. lia.
Qed.

(** The log after a flush and the pages given back. *)
Lemma flush_log m m' f p k own ev fr : World m' (with_leaf sp0 f :: ss) own → same_layout m0 m → same_layout m m' →
  (∀ x, f !! x = if decide (v0 ≤ x < v0 + Z.of_nat k ∧ keep x = false) then None else leaf sp0 !! x) →
  (∀ x d, v0 ≤ x < v0 + Z.of_nat k → keep x = false → leaf sp0 !! x = Some d → flushed e (root sp0) ev x ∨
    (pending p ≠ [] ∧ pending_start p ≤ x * PGSIZE ∧ x * PGSIZE + PGSIZE ≤ pending_end p)) →
  Forall (λ x, ∃ a, x = BuddyFree (index_of m a) ∧ a ∈ pending p ∧ managed m a ∧ rc m' a = 0) fr →
  flush_first e m0 sp0 ev →
  let ev' := ev ++ TlbFlush (flush_target e (root sp0)) (pending_start p) (pending_end p - pending_start p) :: fr in
  flush_first e m0 sp0 ev' ∧
  ∀ x d, v0 ≤ x < v0 + Z.of_nat k → keep x = false → leaf sp0 !! x = Some d → flushed e (root sp0) ev' x.
Proof using HW0.
  intros HW' Hl0 Hlm Hl Hcov Hfree Hff. set (fl := TlbFlush _ _ _). cbv zeta.
  assert (∀ x d, v0 ≤ x < v0 + Z.of_nat k → keep x = false → leaf sp0 !! x = Some d →
    flushed e (root sp0) (ev ++ [fl]) x) as Hnow.
  { intros x d Hx Hkx Ed. destruct (Hcov x d Hx Hkx Ed) as [?|(_ & ? & ?)]; [by apply flushed_app|].
    eexists _, _. split; [apply elem_of_app; right; by left|]. lia. }
  split; [|intros x d Hx Hkx Ed; rewrite cons_middle, app_assoc; apply flushed_app; by eapply Hnow].
  apply flush_first_batch; [apply HW0|done|]. intros x Hx. rewrite Forall_forall in Hfree.
  destruct (Hfree x Hx) as (a & -> & Hin & Ha & Hz). exists a.
  split; [by rewrite (index_of_layout m0 m)|]. split; [by apply (managed_layout m0 m)|].
  intros v d Ed Ep. assert (f !! v = None) as Ef.
  { destruct (f !! v) as [d'|] eqn:Ef; [|done]. exfalso. pose proof Ef as Ef'. rewrite Hl in Ef'.
    case_decide; [done|]. rewrite Ed in Ef'. injection Ef' as <-.
    destruct (unused_page _ _ _ HW' a) as (_ & Ho & _); [by apply (managed_layout m)|done|].
    assert (0 < occ a (all_pages (with_leaf sp0 f :: ss))); [|lia].
    apply occ_pos. rewrite <- Ep. apply (leaf_in (with_leaf sp0 f) _ v); [by left|done]. }
  specialize (Hl v). rewrite Ef in Hl. case_decide as Hx'; [|congruence]. destruct Hx' as [??]. by apply (Hnow v d).
Qed.

(** Giving the batch back. *)
Lemma flush_spec m f p k : UInv m f p k → v0 + Z.of_nat k ≤ 2 ^ 27 → pending p ≠ [] →
  ∃ m' p', flush_pending e m (root sp0) mode p = Ret (m', p') ∧ UInv m' f p' k ∧ pending p' = [].
Proof using HW0 Hv0.
  intros [HW Hl Hly Hsg Hfr Hp Hr (ev & Ee & Hev)] Hk Hne. destruct (Hr Hne) as [Hr1 Hr2].
  unfold flush_pending. rewrite (proj2 (Nat.eqb_neq _ 0)) by (by destruct (pending p)).
  rewrite u64_small by (unfold PGSIZE in *; lia).
  set (fl := TlbFlush (flush_target e (root sp0)) (pending_start p) (pending_end p - pending_start p)).
  set (m1 := if bool_decide (mode = Invalidate) then emit m fl else m).
  change (if bool_decide (mode = Invalidate) then _ else m) with m1.
  set (o := λ a, own0 a + occ a (if do_free then pending p else range_pages (leaf sp0) keep v0 k)) in *.
  assert (World m1 (with_leaf sp0 f :: ss) o ∧ same_layout m m1 ∧ (∀ a, single m1 a ↔ single m a) ∧
    frames m1 = frames m ∧ ∀ a, rc m1 a = rc m a) as (HW1 & Hl1 & Hs1 & Hf1 & Hr1') by (unfold m1; case_bool_decide; [split; [by apply World_emit|done]|done]).
  assert (∀ a, a ∈ pending p → do_free = false → ¬ managed m a) as Hnull.
  { intros a Ha Ed. specialize (Hp a Ha). rewrite Ed in Hp. subst a. apply nullptr_unmanaged, HW. }
  destruct (World_release m1 _ o (pending p) HW1) as (m' & E & HR & HW').
  { apply Forall_forall. intros a Ha. specialize (Hp a Ha). destruct do_free; [by destruct Hp as (? & ? & _)|].
    subst a. unfold nullptr, page_aligned. split; [done|lia]. }
  { intros a Ha Hin. apply (managed_layout m) in Ha; [|done]. pose proof (Hp a Hin) as Hpa. unfold o.
    destruct do_free eqn:Ed; [|by destruct (Hnull a)]. rewrite Hs1. split; [by apply Hpa|].
    apply (managed_layout m0) in Ha; [|done]. pose proof (w_own _ _ _ HW0 a Ha). lia. }
  rewrite E. cbn [obind]. eexists m', _. split; [done|]. split; [|done].
  destruct HR as [HO' Hl' Hrc Hsin Hf' (fr & Efr & Hfree)].
  assert (same_layout m m') as Hlm by (by etrans).
  split; cbn [pending pending_start pending_end]; [|done|by etrans| | | |done|].
  - apply (World_own _ _ _ _ HW'). intros a Ha. unfold o. apply (managed_layout m) in Ha; [|done].
    destruct do_free eqn:Ed; [change (occ a []) with 0; lia|].
    assert (¬ 0 < occ a (pending p)); [|pose proof (occ_nonneg a (pending p)); lia].
    rewrite occ_pos. intros Hin. by destruct (Hnull a).
  - intros a. rewrite Hsin, Hs1, Hsg. split; [tauto|]. intros [Ha Hpos]. split_and!; [done| |done].
    pose proof (occ_nonneg a (pending p)). rewrite Hrc, Hr1' in Hpos; [lia|].
    apply (managed_layout m m1 _ Hl1), (managed_layout m0 m _ Hly). by destruct Ha.
  - intros a Ha. by rewrite Hf', Hf1, Hfr.
  - intros a Ha. by apply not_elem_of_nil in Ha.
  - unfold m1 in *. case_bool_decide as Hmode; [|exists (ev ++ fr); split; [by rewrite Efr, Ee, app_assoc|done]].
    destruct (Hev Hmode) as [Hff Hcov].
    destruct (flush_log m m' f p k _ ev fr HW' Hly Hlm Hl Hcov) as [Hff' Hcov']; [exact Hfree|done|].
    exists (ev ++ fl :: fr). split; [rewrite Efr; cbn; by rewrite Ee, <- !app_assoc|].
    intros _. split; [done|]. intros x d ???. left. by eapply Hcov'.
Qed.
(** A page that is kept or not mapped. *)
Lemma UInv_skip m f p k : UInv m f p k →
  (keep (v0 + Z.of_nat k) = true ∨ leaf sp0 !! (v0 + Z.of_nat k) = None) → UInv m f p (S k).
Proof.
  intros [HW Hl Hly Hsg Hfr Hp Hr (ev & Ee & Hev)] Hs. split; [..|exists ev; split; [done|]]; try done.
  - apply (World_own _ _ _ _ HW). intros a _. do 2 f_equal. destruct do_free eqn:Ed; [done|]. cbn [range_pages].
    destruct Hs as [->| ->]; [|case_match]; by rewrite app_nil_r.
  - intros x. rewrite Hl. destruct (decide (x = v0 + Z.of_nat k)) as [->|].
    + rewrite decide_False by lia. case_decide as Hx; [|done]. destruct Hx as [_ Hx]. destruct Hs; congruence.
    + apply decide_ext. split; intros [? ?]; (split; [lia|done]).
  - intros Hne. specialize (Hr Hne). unfold PGSIZE in *. lia.
  - intros Hm. destruct (Hev Hm) as [Hff Hcov]. split; [done|]. intros x d Hx Hkx Ed. apply (Hcov x d); [|done..].
    destruct (decide (x = v0 + Z.of_nat k)) as [->|]; [|lia]. destruct Hs; congruence.
Qed.

(** An entry that is removed and put in the batch. *)
Lemma UInv_remove m f p k b d : UInv m f p k → v0 + Z.of_nat k < 2 ^ 27 → keep (v0 + Z.of_nat k) = false →
  leaf sp0 !! (v0 + Z.of_nat k) = Some d → low sp0 !! ((v0 + Z.of_nat k) / 512) = Some b →
  UInv (set_word m b ((v0 + Z.of_nat k) mod 512) 0) (delete (v0 + Z.of_nat k) f)
    (mkPending (pending p ++ [if do_free then PTE2PA d else nullptr])
       (if (length (pending p) =? 0)%nat then (v0 + Z.of_nat k) * PGSIZE else pending_start p)
       ((v0 + Z.of_nat k) * PGSIZE + PGSIZE)) (S k).
Proof using HW0 Hv0.
  set (v := v0 + Z.of_nat k). intros [HW Hl Hly Hsg Hfr Hp Hr (ev & Ee & Hev)] Hk Hkeep Ed Eb.
  assert (f !! v = Some d) as Ef by (rewrite Hl, decide_False; [done|lia]).
  assert (leaf_ok d) as Hd by (by eapply (leaf_data _ _ _ _ HW0 ltac:(by left))).
  destruct (PTE2PA_range d (proj1 Hd)) as [Hal Hpa].
  assert (managed m (PTE2PA d) → single m (PTE2PA d)) as Hsin.
  { intros Hm. apply (w_page _ _ _ HW); [|done]. apply (leaf_in (with_leaf sp0 f) _ v); [by left|done]. }
  assert (pending_start p ≤ v * PGSIZE ∨ pending p = []) as Hst.
  { destruct (pending p); [by right|left]. specialize (Hr ltac:(done)). unfold v. lia. }
  split; cbn [pending pending_start pending_end].
  - refine (World_put m (with_leaf sp0 f) ss _ _ v b None HW Eb _ _); [done|]. intros a Ha. cbn [leaf with_leaf pg].
    rewrite Ef. cbn [pg]. change (occ a []) with 0. rewrite (managed_layout m0 m) in Ha by done.
    pose proof (w_own _ _ _ HW0 a Ha).
    assert (∀ l, 0 ≤ own0 a + occ a l) as Hnn by (intros l; pose proof (occ_nonneg a l); lia).
    destruct do_free eqn:Edf; (split; [|apply Hnn]).
    + rewrite occ_app. lia.
    + cbn [range_pages]. fold v. rewrite occ_app, Hkeep, Ed. cbn [pg]. lia.
  - intros x. destruct (decide (x = v)) as [->|].
    + rewrite lookup_delete_eq, decide_True; [done|]. split; [lia|done].
    + rewrite lookup_delete_ne, Hl by done. apply decide_ext. split; intros [? ?]; (split; [lia|done]).
  - done.
  - done.
  - intros a Ha. rewrite frame_set_word_ne; [by apply Hfr|]. intros ->. apply Ha. eauto with kernel.
  - intros a [Ha|Ha]%elem_of_app; [by apply Hp|]. apply list_elem_of_singleton in Ha as ->.
    destruct do_free; [|done]. split_and!; [done|lia|lia|done].
  - intros _. unfold v, PGSIZE in *. destruct (pending p) as [|? ?] eqn:Epp; cbn [length Nat.eqb]; [lia|].
    specialize (Hr ltac:(done)). lia.
  - exists ev. split; [done|]. intros Hm. destruct (Hev Hm) as [Hff Hcov]. split; [done|].
    assert (pending p ++ [if do_free then PTE2PA d else nullptr] ≠ []) as Hne by (by destruct (pending p)).
    intros x d' Hx Hkx Ed'. destruct (decide (x = v)) as [->|].
    + right. split; [done|]. destruct (pending p); cbn [length Nat.eqb]; [lia|]. destruct Hst; [lia|done].
    + destruct (Hcov x d') as [?|(Hne' & ? & ?)]; [lia|done|done|by left|right]. split; [done|].
      destruct (pending p) eqn:Epp; [done|]. cbn [length Nat.eqb]. unfold v, PGSIZE in *. lia.
Qed.

Lemma step_spec m f p k : UInv m f p k → v0 + Z.of_nat k < 2 ^ 27 → (length (pending p) < k_unmap_batch_pages)%nat →
  ∃ m' f' p', unmap_step e m (root sp0) ((v0 + Z.of_nat k) * PGSIZE) npages do_free mode p = Ret (m', p') ∧
    UInv m' f' p' (S k) ∧ (length (pending p') < k_unmap_batch_pages)%nat.
Proof using HW0 Hv0.
  intros HI Hk Hlen. set (v := v0 + Z.of_nat k). unfold unmap_step.
  assert (is_reserved_page (v * PGSIZE) && negb ((npages =? 1) && negb do_free && is_reserved_page (v * PGSIZE)) = keep v)
    as -> by (unfold kept; by destruct (is_reserved_page _), (npages =? 1), do_free).
  destruct (keep v) eqn:Hkeep; [exists m, f, p; split_and!; [done|apply UInv_skip; auto|done]|].
  pose proof HI as [HW Hl _ _ _ _ _ _]. assert (f !! v = leaf sp0 !! v) as Ef by (rewrite Hl, decide_False; [done|lia]).
  assert (with_leaf sp0 f ∈ with_leaf sp0 f :: ss) as Hin by (by left).
  pose proof (vpn_page v ltac:(lia)) as Ev. pose proof (Z.mod_pos_bound v 512 ltac:(lia)) as Hvm.
  change (root sp0) with (root (with_leaf sp0 f)).
  destruct (low sp0 !! (v / 512)) as [b|] eqn:Eb; cycle 1.
  { rewrite (walk_missing _ _ _ _ HW Hin) by (by rewrite Ev). cbn [obind]. exists m, f, p. split_and!; [done| |done].
    apply UInv_skip; [done|]. right. destruct (leaf sp0 !! v) as [d|] eqn:Ed; [|done].
    destruct (leaf_low _ _ _ _ HW0 ltac:(by left) v d Ed). congruence. }
  rewrite (walk_found _ _ _ _ HW Hin _ _ b) by (by rewrite Ev). cbn [obind]. rewrite Ev.
  pose proof (low_managed _ _ _ _ HW Hin _ b Eb) as Hbm. pose proof (w_ok _ _ _ HW) as HO.
  rewrite (slot_not_null m), valid_slot, (word_leaf _ _ _ _ HW Hin v b Eb) by done. cbn [obind leaf with_leaf].
  rewrite Ef. destruct (leaf sp0 !! v) as [d|] eqn:Ed; cycle 1.
  { exists m, f, p. split_and!; [done|apply UInv_skip; auto|done]. }
  change (default 0 (Some d)) with d. destruct (leaf_data _ _ _ _ HW0 ltac:(by left) v d Ed) as [Hd0 ->]. cbn [negb].
  assert ((if do_free then PageTable.pa m (slot b (v mod 512)) else Ret nullptr) =
    Ret (if do_free then PTE2PA d else nullptr)) as ->.
  { destruct do_free; [|done]. rewrite pa_slot, (word_leaf _ _ _ _ HW Hin v b Eb) by done. cbn. by rewrite Ef. }
  cbn [obind]. unfold clear_data. rewrite set_slot by done. cbn [obind]. rewrite u64_small by (unfold v, PGSIZE in *; lia).
  pose proof (UInv_remove m f p k b d HI Hk Hkeep Ed Eb) as HI'. fold v in HI'.
  set (p' := mkPending _ _ _) in *. change (pending p ++ _) with (pending p').
  assert (length (pending p') = S (length (pending p))) as Hlen' by (cbn; rewrite length_app; cbn; lia).
  destruct (Nat.eqb_spec (length (pending p')) k_unmap_batch_pages) as [Efull|].
  - destruct (flush_spec _ _ p' (S k) HI') as (m' & p'' & E' & HI'' & Ep''); [lia|by destruct (pending p')|].
    exists m', (delete v f), p''. split_and!; [exact E'|done|rewrite Ep''; unfold k_unmap_batch_pages; cbn; lia].
  - eexists _, _, _. split_and!; [done|exact HI'|lia].
Qed.

Lemma unmap_loop_spec n : ∀ m f p k, UInv m f p k → v0 + Z.of_nat (k + n) ≤ 2 ^ 27 →
  (length (pending p) < k_unmap_batch_pages)%nat →
  ∃ m' f' p', unmap_loop n e m (root sp0) ((v0 + Z.of_nat k) * PGSIZE) ((v0 + Z.of_nat (k + n)) * PGSIZE) npages
      do_free mode p = Ret (m', p') ∧ UInv m' f' p' (k + n).
Proof using HW0 Hv0.
  induction n as [|n IH]; intros m f p k HI Hk Hlen.
  - rewrite Nat.add_0_r. cbn [unmap_loop]. rewrite Z.ltb_irrefl. by exists m, f, p.
  - cbn [unmap_loop]. rewrite (proj2 (Z.ltb_lt _ _)) by (unfold PGSIZE; lia).
    destruct (step_spec m f p k HI ltac:(lia) Hlen) as (m1 & f1 & p1 & -> & HI1 & Hlen1). cbn [obind].
    rewrite u64_small by (unfold PGSIZE; lia).
    replace ((v0 + Z.of_nat k) * PGSIZE + PGSIZE) with ((v0 + Z.of_nat (S k)) * PGSIZE) by lia.
    replace (k + S n)%nat with (S k + n)%nat in * by lia. by apply (IH m1 f1 p1).
Qed.
End unmap.

(** ** [vmunmap] *)

(** The pages of the range leave the address space, their references go to the
    allocator or, without [do_free], to the caller. *)
Record Unmapped (e : Env) (m m' : Machine) (sp sp' : Space) (ss : list Space) (own : Z → Z)
    (v npages : Z) (do_free : bool) (mode : UnmapTlbMode) : Prop := {
  um_world : World m' (sp' :: ss)
    (λ a, own a + (if do_free then 0 else occ a (range_pages (leaf sp) (kept npages do_free) v (Z.to_nat npages))));
  um_space : sp' = with_leaf sp (leaf sp');
  um_leaf : ∀ x, leaf sp' !! x =
    if decide (v ≤ x < v + npages ∧ kept npages do_free x = false) then None else leaf sp !! x;
  um_layout : same_layout m m';
  um_single : ∀ a, single m' a ↔ single m a ∧ 0 < rc m' a;
  um_frames : ∀ a, a ∉ tables sp → frames m' !! a = frames m !! a;
  um_events : ∃ ev, events m' = events m ++ ev ∧ (mode = Invalidate → flush_first e m sp ev)
}.

Lemma vmunmap_spec e m sp ss own v npages do_free mode : World m (sp :: ss) own →
  0 ≤ v → 0 ≤ npages → v + npages ≤ 2 ^ 27 →
  ∃ m' sp', vmunmap e m (root sp) (v * PGSIZE) npages do_free mode = Ret m' ∧
    Unmapped e m m' sp sp' ss own v npages do_free mode.
Proof.
  intros HW Hv Hn Hvn. unfold vmunmap. rewrite Z_mod_mult. cbn [Z.eqb negb].
  rewrite (u64_small (npages * PGSIZE)) by (unfold PGSIZE; lia).
  rewrite (u64_small (_ + _)) by (unfold PGSIZE; lia).
  pose proof (UInv_start e m sp ss own v npages do_free mode HW) as HI.
  destruct (unmap_loop_spec e m sp ss own v npages do_free mode HW Hv (Z.to_nat npages) m _ no_pending 0 HI)
    as (m1 & f1 & p1 & E & HI1); [lia|unfold k_unmap_batch_pages; cbn; lia|].
  rewrite Z.add_0_r in E. cbn [Nat.add] in E, HI1.
  replace (v * PGSIZE + npages * PGSIZE) with ((v + Z.of_nat (Z.to_nat npages)) * PGSIZE) by (rewrite Z2Nat.id by lia; lia).
  rewrite E. cbn [obind].
  assert (∃ m' p', flush_pending e m1 (root sp) mode p1 = Ret (m', p') ∧
    UInv e m sp ss own v npages do_free mode m' f1 p' (Z.to_nat npages) ∧ pending p' = []) as (m' & p' & -> & HI' & Ep).
  { destruct (decide (pending p1 = [])) as [Ep|Ep]; [|by apply flush_spec; [done|done|done|lia|]].
    exists m1, p1. unfold flush_pending. by rewrite Ep. }
  cbn [obind]. exists m', (with_leaf sp f1). split; [done|]. destruct HI' as [HW' Hl Hly Hsg Hfr _ _ (ev & Ee & Hev)].
  split; [|done| |done|done|done|].
  - apply (World_own _ _ _ _ HW'). intros a _. rewrite Ep. by destruct do_free.
  - intros x. cbn [leaf with_leaf]. rewrite Hl. apply decide_ext. split; intros [? ?]; (split; [lia|done]).
  - exists ev. split; [done|]. intros Hm. by apply Hev.
Qed.

End VmmUnmap.
