(* ===== verification/VmmAlloc.v ===== *)
(** * Growing an address space

    [uvmalloc] and [vmalloc] map a zeroed page of its own for every page of a
    range, or leave the address space as it was. *)
From S2P Require Import Prelude Page Buddy Pmm PmmSpec PageTable Vmm PtRep PtWalk VmmMap VmmUnmap.
Import Page Pmm PmmSpec PageTable Vmm PtRep PtWalk VmmMap VmmUnmap.

Module VmmAlloc.

Lemma below_top_not_reserved a : 0 ≤ a < USER_MEMORY_TOP → is_reserved_page a = false.
Proof.
  intros Ha. unfold is_reserved_page, is_fixed_special_page, is_user_trapframe_page.
  change USER_TRAPFRAME_BASE with USER_MEMORY_TOP.
  assert (USER_MEMORY_TOP < TRAPFRAME ∧ USER_MEMORY_TOP < SIG_TRAMPOLINE ∧ USER_MEMORY_TOP < TRAMPOLINE)
    as (? & ? & ?) by (vm_compute; done).
  rewrite !(proj2 (Z.eqb_neq _ _)), (proj2 (Z.leb_gt _ _)) by lia. done.
Qed.

Lemma top_small : USER_MEMORY_TOP < 2 ^ 38.
Proof. by vm_compute. Qed.

(** Page [x] got a page that nobody used before, filled with zeros. *)
Definition fresh_page (m m' : Machine) (flags : Z) (o : option Z) : Prop :=
  ∃ pa, o = Some (entry pa flags) ∧ managed m pa ∧ rc m pa = 0 ∧ rc m' pa = 1 ∧ frames m' !! pa = Some zero_frame.

Section alloc.
Context (e : Env) (m0 : Machine) (sp0 : Space) (ss : list Space) (own : Z → Z) (v0 newsz flags : Z).
Context (dealloc : Machine → Z → outcome (Machine * Z)).
Context (HW0 : World m0 (sp0 :: ss) own) (Hv0 : 0 ≤ v0) (Htop : newsz ≤ USER_MEMORY_TOP).
Context (Hfl : 0 ≤ flags < 2 ^ 10) (Hk : root sp0 ≠ k_pagetable e ∨ k_pagetable e = 0).
(* [dealloc] unmaps what the loop has mapped. *)
Context (Hde : ∀ m k, 0 ≤ k → v0 + k ≤ 2 ^ 27 → ∃ r, dealloc m ((v0 + k) * PGSIZE) =
  if k =? 0 then Ret (m, r)
  else let! m' := vmunmap e m (root sp0) (v0 * PGSIZE) k true Invalidate in Ret (m', r)).

(** After [k] pages. *)
Record AInv (m : Machine) (sp : Space) (k : Z) : Prop := {
  ai_world : World m (sp :: ss) own;
  ai_grown : Grown m0 m sp0 sp;
  ai_free : ∀ x, v0 ≤ x < v0 + k → leaf sp0 !! x = None;
  ai_leaf : ∀ x, ¬ v0 ≤ x < v0 + k → leaf sp !! x = leaf sp0 !! x;
  ai_new : ∀ x, v0 ≤ x < v0 + k → fresh_page m0 m flags (leaf sp !! x);
  ai_count : free_count m0 ≤ free_count m + 3 * k
}.

Lemma AInv_start : AInv m0 sp0 0.
Proof using HW0. split; [done|apply Grown_refl|lia|done|lia|lia]. Qed.

(** Nothing is left of a failed attempt but tables. *)
Definition undone (m' : Machine) (sp' : Space) : Prop :=
  World m' (sp' :: ss) own ∧ leaf sp' = leaf sp0 ∧ Grown m0 m' sp0 sp'.

Lemma undo_spec m sp k : World m (sp :: ss) own → Grown m0 m sp0 sp →
  (∀ x, v0 ≤ x < v0 + k → leaf sp0 !! x = None) → (∀ x, ¬ v0 ≤ x < v0 + k → leaf sp !! x = leaf sp0 !! x) →
  0 ≤ k → (v0 + k) * PGSIZE ≤ USER_MEMORY_TOP →
  ∃ m' sp' r, dealloc m ((v0 + k) * PGSIZE) = Ret (m', r) ∧ undone m' sp'.
Proof using Hde Hv0 HW0.
  intros HW HG Hfree Hleaf Hk0 Hkt. pose proof top_small.
  destruct (Hde m k Hk0 ltac:(unfold PGSIZE in *; lia)) as (r & ->). destruct (Z.eqb_spec k 0) as [->|].
  { exists m, sp, r. split; [done|]. split_and!; try done. apply map_eq. intros x. apply Hleaf. lia. }
  rewrite <- (gr_root _ _ _ _ HG).
  destruct (vmunmap_spec e m sp ss own v0 k true Invalidate HW Hv0 Hk0 ltac:(unfold PGSIZE in *; lia))
    as (m' & sp' & -> & [HW' Hsp Hl Hly Hsg Hfr _]). cbn [obind]. exists m', sp', r. split; [done|].
  assert (leaf sp' = leaf sp0) as El.
  { apply map_eq. intros x. rewrite Hl. case_decide as Hx; [symmetry; apply Hfree; lia|].
    apply Hleaf. intros Hin. destruct Hx. split; [done|]. unfold kept.
    rewrite below_top_not_reserved; [done|unfold PGSIZE in *; lia]. }
  assert (World m' (sp' :: ss) own) as HW1 by (apply (World_own _ _ _ _ HW'); intros a _; lia).
  split_and!; [done..|]. pose proof HG as [Hr Hlo Hly0 Hrc Hs Hf Ht Hmo].
  assert (root sp' = root sp ∧ low sp' = low sp ∧ tables sp' = tables sp) as (Er & Elo & Et) by (rewrite Hsp; done).
  assert (∀ a, 0 < rc m0 a → rc m' a = rc m0 a) as Hrc'.
  { apply (world_rc_same m0 m' sp0 sp' ss own); [done|done|unfold pages; by rewrite El|by etrans|..]; rewrite Et; auto. }
  split; rewrite ?Er, ?Elo, ?Et; try done; [by etrans|..].
  - intros a Ha. apply Hsg. split; [auto|]. pose proof (single_rc m0 a (w_ok _ _ _ HW0) Ha). by rewrite Hrc'.
  - intros a Ha Hn. rewrite Hfr; [auto|]. intros Hin. destruct (Ht a Hin) as [|[Hm ?]]; [done|]. specialize (Ha Hm). lia.
Qed.

(** Why an attempt fails: a page of the range is mapped, or memory is short. *)
Definition refused : Prop :=
  (∃ x d, v0 ≤ x ∧ x * PGSIZE < newsz ∧ leaf sp0 !! x = Some d) ∨
  free_count m0 ≤ 3 * ((newsz + PGSIZE - 1) / PGSIZE - v0).

Lemma no_way_user m a : a < USER_MEMORY_TOP → m = root sp0 → in_the_way e m a = Ret false.
Proof using Hk.
  intros Ha ->. unfold in_the_way. rewrite (proj2 (Z.ltb_lt _ _)) by done.
  destruct Hk as [Hne| ->]; [|done]. rewrite (proj2 (Z.eqb_neq (root sp0) (k_pagetable e))) by done. by rewrite andb_false_r.
Qed.

(** A page that was mapped stays as it was. *)
Lemma fresh_page_grown m m' sp sp' x : World m (sp :: ss) own → Grown m0 m sp0 sp → Grown m m' sp sp' →
  leaf sp' !! x = leaf sp !! x → fresh_page m0 m flags (leaf sp !! x) → fresh_page m0 m' flags (leaf sp' !! x).
Proof using Hfl HW0.
  intros HW HG0 HG El (pa & E & Hm & Hu & Hr & Hf). exists pa. rewrite El. split_and!; [done..| |].
  - rewrite (gr_rc _ _ _ _ HG); lia.
  - rewrite (gr_frames _ _ _ _ HG); [done|intros _; lia|]. intros Hin.
    destruct (managed_range m0 pa (w_ok _ _ _ HW0) Hm) as (? & ? & Hal).
    destruct (entry_spec pa flags Hal ltac:(unfold PGSIZE in *; lia) Hfl) as (_ & Ep & _).
    apply (table_not_page _ _ _ HW pa); [by apply (tables_in sp); [left|]|].
    rewrite <- Ep. apply (leaf_in sp _ x); [by left|done].
Qed.

(** One page more. *)
Lemma alloc_step fuel m sp k : AInv m sp k → 0 ≤ k → (v0 + k) * PGSIZE < newsz →
  (∃ m' sp', alloc_loop (S fuel) e m (root sp0) ((v0 + k) * PGSIZE) newsz flags dealloc =
     alloc_loop fuel e m' (root sp0) ((v0 + (k + 1)) * PGSIZE) newsz flags dealloc ∧ AInv m' sp' (k + 1)) ∨
  (∃ m' sp', alloc_loop (S fuel) e m (root sp0) ((v0 + k) * PGSIZE) newsz flags dealloc = Ret (m', 0) ∧
     undone m' sp' ∧ refused).
Proof using Hde Hfl HW0 Hk Htop Hv0.
  intros [HW HG Hfree Hleaf Hnew Hcnt] Hk0 Hlt. pose proof top_small as Hts. pose proof (w_ok _ _ _ HW) as HO.
  assert (v0 + k < (newsz + PGSIZE - 1) / PGSIZE) as Hn.
  { apply Z.lt_le_trans with (((v0 + k) * PGSIZE + PGSIZE) / PGSIZE); [|apply Z.div_le_mono; unfold PGSIZE in *; lia].
    replace ((v0 + k) * PGSIZE + PGSIZE) with ((v0 + k + 1) * PGSIZE) by lia. rewrite Z.div_mul by done. lia. }
  cbn [alloc_loop]. rewrite (proj2 (Z.ltb_lt _ _)) by done.
  destruct (try_alloc_spec m true HO) as (m1 & mem & E & Hal). unfold try_alloc_page. rewrite E. cbn [obind].
  destruct Hal as [(-> & -> & Hfull)|[HF Hfr]].
  { rewrite Z.eqb_refl. right.
    destruct (undo_spec m sp k HW HG Hfree Hleaf Hk0 ltac:(lia)) as (m' & sp' & r & -> & Hu). cbn [obind].
    exists m', sp'. split_and!; [done..|right]. rewrite (free_count_full m HO Hfull) in Hcnt. lia. }
  pose proof (fr_managed _ _ _ HF) as Hmm. destruct (managed_range m mem HO Hmm) as (Hmp & Hm48 & Hma).
  rewrite (proj2 (Z.eqb_neq mem 0)) by lia. set (v := v0 + k).
  pose proof (World_fresh m m1 _ own mem true HW HF Hfr) as HW1.
  pose proof (Grown_fresh m m1 sp mem true HF Hfr) as HG1. pose proof (free_count_fresh m m1 mem HO HF) as Hfc1.
  assert (rc m0 mem = 0) as Hu0.
  { pose proof (rc_range m0 mem (w_ok _ _ _ HW0)). destruct (decide (rc m0 mem = 0)); [done|].
    pose proof (gr_rc _ _ _ _ HG mem ltac:(lia)). pose proof (fr_unused _ _ _ HF). lia. }
  destruct (unused_page _ _ _ HW mem Hmm (fr_unused _ _ _ HF)) as (Hnt & Hnp & Hno).
  destruct (fr_set _ _ _ HF) as [HO1 Hl1 Hrc1].
  rewrite <- (gr_root _ _ _ _ HG).
  destruct (map_page_spec e m1 sp ss _ v mem flags HW1) as (m2 & sp2 & HG2 & Hfc2 & Hr).
  { unfold v, PGSIZE in *. lia. } { done. } { unfold PGSIZE in *. lia. } { done. }
  { intros _. split_and!; [apply HF; by left|done|]. unfold add_own. rewrite decide_True by done. lia. }
  pose proof (Grown_trans _ _ _ _ _ _ (w_ok _ _ _ HW) HG1 HG2) as HG12.
  pose proof (Grown_trans _ _ _ _ _ _ (w_ok _ _ _ HW0) HG HG12) as HG02.
  destruct Hr as [(HW2 & En & El & ->)|(HW2 & El & Hr)].
  - left. exists m2, sp2. cbn [obind negb]. rewrite u64_small by (unfold v, PGSIZE in *; lia). split.
    { unfold v. f_equal. lia. }
    assert (leaf sp0 !! v = None) as En0 by (rewrite <- Hleaf; [done|unfold v; lia]).
    split; [|done|..|lia].
    + apply (World_own _ _ _ _ HW2). intros a _. unfold take_own, add_own. rewrite occ_cons. change (occ a []) with 0.
      repeat case_decide; lia.
    + intros x Hx. destruct (decide (x = v)) as [->|]; [done|]. apply Hfree. unfold v in *. lia.
    + intros x Hx. rewrite El, lookup_insert_ne by (unfold v; lia). apply Hleaf. lia.
    + intros x Hx. destruct (decide (x = v)) as [->|].
      * exists mem. rewrite El, lookup_insert_eq. split_and!; [done|by apply (managed_layout m0 m _ (gr_layout _ _ _ _ HG))|done|..].
        -- by rewrite (gr_rc _ _ _ _ HG2), Hrc1, decide_True by (rewrite ?Hrc1, ?decide_True by done; lia).
        -- rewrite (gr_frames _ _ _ _ HG2); [by rewrite Hfr, lookup_insert_eq|intros _; rewrite Hrc1, decide_True by done; lia|].
           intros Hin. apply Hnt. apply (tables_in sp); [by left|done].
      * apply (fresh_page_grown m m2 sp sp2 x); [done..| |apply Hnew; unfold v in *; lia].
        by rewrite El, lookup_insert_ne.
  - right. assert (map_pages e m1 (root sp) (v * PGSIZE) PGSIZE mem flags = Ret (m2, false) ∧ refused) as [-> Href].
    { destruct Hr as [[[d Hd] ->]|(En & -> & Hfull)].
      - rewrite no_way_user; [|lia|apply HG]. split; [done|]. left. exists v, d. split_and!; [unfold v; lia|lia|].
        rewrite <- Hleaf; [done|unfold v; lia].
      - split; [done|]. right. rewrite (free_count_full m2) in Hfc2; [lia|apply HW2|].
        intros a Ha. apply Hfull. by apply (managed_layout m1 m2 _ (gr_layout _ _ _ _ HG2)). }
    cbn [obind negb].
    destruct (World_free m2 _ _ mem HW2) as (m3 & -> & HD & HW3).
    { apply (managed_layout m1 m2 _ (gr_layout _ _ _ _ HG2)). by apply (managed_layout m m1). }
    { apply HG2, HF. by left. } { unfold add_own. rewrite decide_True by done. lia. }
    cbn [obind]. unfold v. destruct (undo_spec m3 sp2 k) as (m' & sp' & r & -> & Hu); [| |done|..].
    + apply (World_own _ _ _ _ HW3). intros a _. unfold add_own. case_decide; lia.
    + eapply Grown_dropped; [exact HG02|done|done|apply HW0].
    + intros x Hx. rewrite El. by apply Hleaf.
    + done.
    + lia.
    + cbn [obind]. by exists m', sp'.
Qed.
Lemma uvm_loop_spec n : ∀ m sp k, AInv m sp k → 0 ≤ k → newsz ≤ (v0 + k + Z.of_nat n) * PGSIZE →
  (∃ m' sp' k', alloc_loop n e m (root sp0) ((v0 + k) * PGSIZE) newsz flags dealloc = Ret (m', newsz) ∧
     AInv m' sp' k' ∧ k ≤ k' ∧ newsz ≤ (v0 + k') * PGSIZE ∧ (k' = k ∨ (v0 + k') * PGSIZE < newsz + PGSIZE)) ∨
  (∃ m' sp', alloc_loop n e m (root sp0) ((v0 + k) * PGSIZE) newsz flags dealloc = Ret (m', 0) ∧
     undone m' sp' ∧ refused).
Proof using Hde Hfl HW0 Hk Htop Hv0.
  induction n as [|n IH]; intros m sp k HI Hk0 Hn.
  all: destruct (Z.lt_ge_cases ((v0 + k) * PGSIZE) newsz) as [Hlt|Hge].
  all: try (left; exists m, sp, k; cbn [alloc_loop]; rewrite (proj2 (Z.ltb_ge _ _)) by lia; split_and!; (done || lia || by left)).
  destruct (alloc_step n m sp k HI Hk0 Hlt) as [(m1 & sp1 & -> & HI1)|?]; [|by right].
    destruct (IH m1 sp1 (k + 1) HI1 ltac:(lia)) as [(m' & sp' & k' & -> & HI' & ? & ? & ?)|?]; [unfold PGSIZE in *; lia| |by right].
    left. exists m', sp', k'. split_and!; [done|done|lia|lia|right]. unfold PGSIZE in *. lia.
Qed.
End alloc.

(** ** [uvmalloc] *)

(** The pages of a range that ends at [newsz]. *)
Lemma PGROUNDUP_div a : 0 ≤ a < 2 ^ 63 → PGROUNDUP a = (a + PGSIZE - 1) / PGSIZE * PGSIZE.
Proof. intros Ha. apply PGROUNDUP_mod; unfold PGSIZE; lia. Qed.

Lemma uvmdealloc_pages e m base oldsz k : 0 ≤ oldsz < 2 ^ 38 → 0 ≤ k → PGROUNDUP oldsz / PGSIZE + k ≤ 2 ^ 27 →
  ∃ r, uvmdealloc e m base ((PGROUNDUP oldsz / PGSIZE + k) * PGSIZE) oldsz =
    if k =? 0 then Ret (m, r)
    else let! m' := vmunmap e m base (PGROUNDUP oldsz / PGSIZE * PGSIZE) k true Invalidate in Ret (m', r).
Proof.
  intros Ho Hk Hb. destruct (PGROUNDUP_spec oldsz) as [Hal Hr]; [lia|unfold PGSIZE; lia|].
  assert (PGROUNDUP oldsz / PGSIZE * PGSIZE = PGROUNDUP oldsz) as E.
  { unfold page_aligned, PGSIZE in *. pose proof (Z.div_mod (PGROUNDUP oldsz) 4096). lia. }
  set (v := PGROUNDUP oldsz / PGSIZE) in *. unfold uvmdealloc.
  assert (PGROUNDUP ((v + k) * PGSIZE) = (v + k) * PGSIZE) as Er.
  { apply PGROUNDUP_aligned; [unfold PGSIZE in *; lia..|apply Z_mod_mult]. }
  destruct (Z.eqb_spec k 0) as [->|Hne].
  - rewrite Z.add_0_r in *. destruct (Z.leb_spec (v * PGSIZE) oldsz); [by eexists|].
    rewrite Er, E, Z.ltb_irrefl. by eexists.
  - rewrite (proj2 (Z.leb_gt _ _)), Er, (proj2 (Z.ltb_lt _ _)), <- E by (unfold PGSIZE in *; lia).
    rewrite <- Z.mul_sub_distr_r, u64_small, Z.div_mul by (unfold PGSIZE in *; lia).
    replace (v + k - v) with k by lia. by eexists.
Qed.

Lemma uvmalloc_spec e m sp ss own oldsz newsz flags : World m (sp :: ss) own →
  (root sp ≠ k_pagetable e ∨ k_pagetable e = 0) → 0 ≤ oldsz ≤ newsz → newsz ≤ USER_MEMORY_TOP → 0 ≤ flags < 2 ^ 10 →
  let v := PGROUNDUP oldsz / PGSIZE in
  let fl := Z.lor (Z.lor pte_readable_m pte_user_m) flags in
  (∃ m' sp', uvmalloc e m (root sp) oldsz newsz flags = Ret (m', newsz) ∧ World m' (sp' :: ss) own ∧
     Grown m m' sp sp' ∧ ∀ x, if decide (v ≤ x ∧ x * PGSIZE < newsz)
       then leaf sp !! x = None ∧ fresh_page m m' fl (leaf sp' !! x) else leaf sp' !! x = leaf sp !! x) ∨
  (∃ m' sp', uvmalloc e m (root sp) oldsz newsz flags = Ret (m', 0) ∧
     undone m sp ss own m' sp' ∧ refused m sp v newsz).
Proof.
  intros HW Hroot Hsz Htop Hfl v fl. pose proof top_small.
  destruct (PGROUNDUP_spec oldsz) as [Hal Hr]; [lia|unfold PGSIZE; lia|].
  assert (v * PGSIZE = PGROUNDUP oldsz) as E.
  { unfold v, page_aligned, PGSIZE in *. pose proof (Z.div_mod (PGROUNDUP oldsz) 4096). lia. }
  unfold uvmalloc. rewrite (proj2 (Z.ltb_ge _ _)) by lia. rewrite <- E. fold fl.
  set (n := S (Z.to_nat ((newsz - v * PGSIZE) / PGSIZE))).
  pose proof (Z.div_mod (newsz - v * PGSIZE) PGSIZE ltac:(done)). pose proof (Z.mod_pos_bound (newsz - v * PGSIZE) PGSIZE ltac:(done)).
  destruct (uvm_loop_spec e m sp ss own v newsz fl (λ m a, uvmdealloc e m (root sp) a oldsz) HW) with (n := n) (m := m) (sp := sp) (k := 0)
    as [(m' & sp' & k & Er & [HW' HG Hf Hl Hn _] & Hk0 & Hke & Hkl)|Hfail].
  - unfold v. apply Z.div_pos; unfold PGSIZE in *; lia.
  - done.
  - apply lor_flags; [lia|split; vm_compute; done|done].
  - done.
  - intros m1 k Hk Hb. apply uvmdealloc_pages; [lia|done|done].
  - by apply AInv_start.
  - lia.
  - unfold n, PGSIZE in *. lia.
  - left. rewrite Z.add_0_r in Er. exists m', sp'. split_and!; [done..|]. intros x. case_decide as Hx.
    + assert (v ≤ x < v + k) as Hxk by (unfold PGSIZE in *; lia). auto.
    + apply Hl. unfold PGSIZE in *. lia.
  - right. rewrite Z.add_0_r in Hfail. done.
Qed.

End VmmAlloc.
