(* ===== verification/VmmFork.v ===== *)
(** * Copying an address space

    The parts of [vm_copy]: the flags of a page shared copy-on-write, the batch of
    references taken in advance, and the record of the parent's entries that lost
    their write permission, from which a failed copy restores them. *)
From S2P Require Import Prelude Page Buddy Pmm PmmSpec PageTable Vmm PtRep PtWalk VmmMap VmmUnmap VmmAlloc.
Import Page Pmm PmmSpec PageTable Vmm PtRep PtWalk VmmMap VmmUnmap VmmAlloc.

Module VmmFork.

(** ** Flags *)

Definition writable (d : Z) : bool := Z.testbit d 2.
Definition is_cow (d : Z) : bool := Z.testbit d 8.

(** Taking the write permission away and giving it back. *)
Definition cow (d : Z) : Z := Z.lor (Z.land d (not64 pte_writable_m)) k_riscv_pte_cow.
Definition uncow (d : Z) : Z := Z.land (Z.lor d pte_writable_m) (not64 k_riscv_pte_cow).
Definition restore (d : Z) : Z := if is_cow d then uncow d else d.

Lemma testbit_pow2 k n : 0 ≤ k → 0 ≤ n → Z.testbit (2 ^ k) n = bool_decide (n = k).
Proof. intros ??. rewrite Z.pow2_bits_eqb by done. destruct (Z.eqb_spec k n); by case_bool_decide; subst. Qed.

Lemma cow_spec d : 0 ≤ d < 2 ^ 46 → 0 ≤ cow d < 2 ^ 46 ∧ PTE2PA (cow d) = PTE2PA d ∧
  ∀ n, 0 ≤ n → Z.testbit (cow d) n = if decide (n = 8) then true else if decide (n = 2) then false else Z.testbit d n.
Proof.
  intros Hd. unfold cow, not64. rewrite land_not64 by lia.
  destruct (ldiff_keep d pte_writable_m Hd ltac:(unfold pte_writable_m; lia)) as [H1 E1].
  destruct (lor_keep _ k_riscv_pte_cow H1 ltac:(unfold k_riscv_pte_cow; lia)) as [H2 E2].
  split; [done|]. split; [by rewrite E2|]. intros n Hn. rewrite Z.lor_spec, Z.ldiff_spec.
  change pte_writable_m with (2 ^ 2). change k_riscv_pte_cow with (2 ^ 8). rewrite !testbit_pow2 by lia.
  repeat case_decide; repeat case_bool_decide; try lia; rewrite ?andb_true_r, ?andb_false_r, ?orb_false_r, ?orb_true_r; done.
Qed.

Lemma uncow_spec d : 0 ≤ d < 2 ^ 46 → 0 ≤ uncow d < 2 ^ 46 ∧ PTE2PA (uncow d) = PTE2PA d ∧
  ∀ n, 0 ≤ n → Z.testbit (uncow d) n = if decide (n = 2) then true else if decide (n = 8) then false else Z.testbit d n.
Proof.
  intros Hd. destruct (lor_keep d pte_writable_m Hd ltac:(unfold pte_writable_m; lia)) as [H1 E1].
  unfold uncow, not64. rewrite land_not64 by lia.
  destruct (ldiff_keep _ k_riscv_pte_cow H1 ltac:(unfold k_riscv_pte_cow; lia)) as [H2 E2].
  split; [done|]. split; [by rewrite E2|]. intros n Hn. rewrite Z.ldiff_spec, Z.lor_spec.
  change pte_writable_m with (2 ^ 2). change k_riscv_pte_cow with (2 ^ 8). rewrite !testbit_pow2 by lia.
  repeat case_decide; repeat case_bool_decide; try lia; rewrite ?andb_true_r, ?andb_false_r, ?orb_false_r, ?orb_true_r; done.
Qed.

Lemma cow_ok d : leaf_ok d → leaf_ok (cow d).
Proof.
  intros [Hd Hv]. destruct (cow_spec d Hd) as (? & _ & Hb). split; [done|]. by rewrite Hb by lia.
Qed.

Lemma uncow_ok d : leaf_ok d → leaf_ok (uncow d).
Proof.
  intros [Hd Hv]. destruct (uncow_spec d Hd) as (? & _ & Hb). split; [done|]. by rewrite Hb by lia.
Qed.

(** A writable entry comes back as it was. *)
Lemma restore_cow d : leaf_ok d → writable d = true → is_cow d = false → restore (cow d) = d.
Proof.
  intros [Hd _] Hw Hc. destruct (cow_spec d Hd) as (Hr & _ & Hb). unfold restore, is_cow.
  rewrite Hb, decide_True by lia. destruct (uncow_spec (cow d) Hr) as (_ & _ & Hb').
  apply Z.bits_inj'. intros n Hn. rewrite Hb', Hb by done.
  destruct (decide (n = 2)) as [->|]; [done|]. by destruct (decide (n = 8)) as [->|].
Qed.

Lemma restore_same d : is_cow d = false → restore d = d.
Proof. unfold restore. by intros ->. Qed.

Lemma restore_restore d : leaf_ok d → restore (restore d) = restore d.
Proof.
  intros [Hd _]. apply restore_same. unfold restore. destruct (is_cow d) eqn:E; [|done].
  destruct (uncow_spec d Hd) as (_ & _ & Hb). unfold is_cow. by rewrite Hb.
Qed.

Lemma restore_ok d : leaf_ok d → leaf_ok (restore d) ∧ PTE2PA (restore d) = PTE2PA d.
Proof.
  intros Hd. unfold restore. destruct (is_cow d); [|done]. split; [by apply uncow_ok|].
  by destruct (uncow_spec d (proj1 Hd)) as (_ & ? & _).
Qed.

(** The flags of the child's entry. *)
Definition flags_of (d : Z) : Z := Z.land d 0x3ff.
Definition child_flags (d : Z) : Z :=
  let flags := flags_of d in
  if negb (Z.land flags pte_writable_m =? 0) || negb (Z.land flags k_riscv_pte_cow =? 0)
  then Z.lor (Z.land flags (not64 pte_writable_m)) k_riscv_pte_cow else flags.

Lemma flags_of_spec d : 0 ≤ flags_of d < 2 ^ 10 ∧ ∀ n, 0 ≤ n < 10 → Z.testbit (flags_of d) n = Z.testbit d n.
Proof.
  unfold flags_of. change 0x3ff with (Z.ones 10). rewrite Z.land_ones by lia.
  split; [by apply Z.mod_pos_bound|]. intros n Hn. apply Z.mod_pow2_bits_low; lia.
Qed.

Lemma child_flags_spec d : 0 ≤ child_flags d < 2 ^ 10 ∧
  ∀ n, 0 ≤ n < 10 → Z.testbit (child_flags d) n =
    if writable d || is_cow d then if decide (n = 8) then true else if decide (n = 2) then false else Z.testbit d n
    else Z.testbit d n.
Proof.
  destruct (flags_of_spec d) as [Hf Hb]. unfold child_flags.
  change pte_writable_m with (2 ^ 2). change k_riscv_pte_cow with (2 ^ 8).
  rewrite !land_bit, !Hb by lia. change (Z.testbit d 2) with (writable d). change (Z.testbit d 8) with (is_cow d).
  destruct (writable d || is_cow d); [|done]. change (2 ^ 2) with pte_writable_m. change (2 ^ 8) with k_riscv_pte_cow.
  change (Z.lor _ _) with (cow (flags_of d)). destruct (cow_spec (flags_of d) ltac:(lia)) as (Hr & _ & Hc).
  split.
  - unfold cow, not64. rewrite land_not64 by lia. apply lor_flags; [lia| |unfold k_riscv_pte_cow; lia].
    assert (Z.ldiff (flags_of d) pte_writable_m ≤ flags_of d).
    { apply Z.ldiff_le; [lia|]. apply Z.bits_inj'. intros n Hn. rewrite Z.bits_0, !Z.ldiff_spec.
      destruct (Z.testbit (flags_of d) n); by rewrite ?andb_false_r. }
    pose proof (proj2 (Z.ldiff_nonneg (flags_of d) pte_writable_m) ltac:(lia)). lia.
  - intros n Hn. rewrite Hc by lia. by rewrite Hb.
Qed.

(** ** Taking references in advance *)

(** The pages of the batch that got a reference. *)
Fixpoint chosen (pages : list Z) (bs : list bool) : list Z :=
  match pages, bs with
  | p :: pages, b :: bs => (if b : bool then [p] else []) ++ chosen pages bs
  | _, _ => []
  end.

Lemma elem_of_chosen ps : ∀ bs a, a ∈ chosen ps bs → ∃ j, ps !! j = Some a ∧ bs !! j = Some true.
Proof.
  induction ps as [|p ps IH]; intros [|b bs] a; cbn; try by intros ?%not_elem_of_nil.
  intros [Ha|Ha]%elem_of_app.
  - exists O. destruct b; [|by apply not_elem_of_nil in Ha]. by apply list_elem_of_singleton in Ha as ->.
  - destruct (IH bs a Ha) as (j & ? & ?). by exists (S j).
Qed.

Lemma occ_chosen ps : ∀ bs a j, ps !! j = Some a → bs !! j = Some false → occ a (chosen ps bs) + 1 ≤ occ a ps.
Proof.
  assert (∀ ps bs a, occ a (chosen ps bs) ≤ occ a ps) as Hle.
  { clear ps. induction ps as [|p ps IH]; intros [|b bs] a; cbn [chosen]; rewrite ?occ_cons, ?occ_nil; try (pose proof (occ_nonneg a ps); case_decide; lia || done).
    - done.
    - done.
    - rewrite occ_app. specialize (IH bs a). destruct b; rewrite ?occ_cons, ?occ_nil; case_decide; lia. }
  induction ps as [|p ps IH]; intros [|b bs] a [|j]; cbn; try done.
  - intros [= ->] [= ->]. cbn [app]. rewrite occ_cons, decide_True by done. specialize (Hle ps bs a). lia.
  - intros Hp Hb. specialize (IH bs a j Hp Hb). rewrite occ_app, occ_cons. destruct b; rewrite ?occ_cons, ?occ_nil; case_decide; lia.
Qed.

Definition give_own (own : Z → Z) (l : list Z) : Z → Z := λ a, own a + occ a l.

(** The locked loop over a batch is the loop of single calls. *)
Lemma retain_loop_each pages : ∀ i m mask, retain_loop pages i m mask = retain_each pages i m mask.
Proof.
  induction pages as [|p pages IH]; intros i m mask; [done|]. cbn [retain_loop retain_each]. unfold retain_page.
  destruct (pa2pgnm m p) as [idx| | |]; [|done..]. cbn [obind].
  destruct (negb (page_index_in_range m idx)); cbn [obind]; [apply IH|].
  destruct (aget _ idx) as [r| | |]; [|done..]. cbn [obind]. destruct ((r =? 0) || (r =? UINT16_MAX)); cbn [obind]; [apply IH|].
  destruct (aset _ idx _) as [rs| | |]; [|done..]. cbn [obind]. apply IH.
Qed.

Lemma retain_batch_each m pages : (length pages ≤ 64)%nat → retain_pages_batch m pages = retain_each pages 0 m 0.
Proof.
  intros Hl. unfold retain_pages_batch. destruct (Nat.eqb_spec (length pages) 0); [by destruct pages|].
  rewrite (proj2 (Nat.ltb_ge _ _)) by done. apply retain_loop_each.
Qed.

Lemma lor_bit mask i n : 0 ≤ i < 64 → 0 ≤ n →
  Z.testbit (Z.lor mask (u64 (Z.shiftl 1 i))) n = Z.testbit mask n || bool_decide (n = i).
Proof.
  intros Hi Hn. rewrite Z.shiftl_1_l, u64_small, Z.lor_spec, testbit_pow2 by
    (try lia; pose proof (Z.pow_lt_mono_r 2 i 64); lia). done.
Qed.

(** Pages that are in use and not tables of the world. *)
Definition usable (m : Machine) (ss : list Space) (p : Z) : Prop :=
  page_aligned p ∧ 0 ≤ p < 2 ^ 64 ∧ p ∉ all_tables ss ∧ (managed m p → 0 < rc m p).

Lemma retain_each_spec ss pages : ∀ i m own mask, World m ss own → Forall (usable m ss) pages →
  0 ≤ i → i + Z.of_nat (length pages) ≤ 64 →
  ∃ m' mask' bs, retain_each pages i m mask = Ret (m', mask') ∧ length bs = length pages ∧
    World m' ss (give_own own (chosen pages bs)) ∧ same_layout m m' ∧ frames m' = frames m ∧
    (∀ a, single m' a ↔ single m a) ∧ (∀ a, rc m' a = rc m a + occ a (chosen pages bs)) ∧
    (∀ n, 0 ≤ n → Z.testbit mask' n = Z.testbit mask n || bool_decide (bs !! Z.to_nat (n - i) = Some true ∧ i ≤ n)) ∧
    (∀ j p b, pages !! j = Some p → bs !! j = Some b →
      if b : bool then managed m p else managed m p → rc m' p = UINT16_MAX).
Proof.
  induction pages as [|p pages IH]; intros i m own mask HW Hp Hi Hlen.
  - exists m, mask, []. cbn [retain_each chosen]. split_and!; try done.
    + apply (World_own _ _ _ _ HW). intros a _. unfold give_own. change (occ a []) with 0. lia.
    + intros a. change (occ a []) with 0. lia.
    + intros n Hn. rewrite bool_decide_eq_false_2; [by rewrite orb_false_r|]. by intros [? _].
  - apply Forall_cons in Hp as [(Hal & Hpr & Hnt & Hpos) Hp]. cbn [retain_each length] in *.
    pose proof (w_ok _ _ _ HW) as HO. pose proof (retain_spec m p HO Hal Hpr) as Hr.
    assert (managed m p ∨ rc m p = 0) as Hmp.
    { destruct (decide (managed m p)); [by left|right]. by apply rc_unmanaged. }
    case_bool_decide as Hrc.
    + destruct Hr as (m1 & E & HS & Hs1 & Hf1 & _). rewrite E. cbn [obind]. pose proof HS as [HO1 Hl1 Hr1].
      destruct (IH (i + 1) m1 (add_own own p 1) (Z.lor mask (u64 (Z.shiftl 1 i))))
        as (m' & mask' & bs & E' & Hb & HW' & Hl' & Hf' & Hs' & Hr' & Hm' & Hj'); [by apply (World_retained m)| |lia|lia|].
      { eapply Forall_impl; [exact Hp|]. intros x (? & ? & ? & Hx). unfold usable. split_and!; try done; try lia.
        rewrite (managed_layout m m1), Hr1 by done. intros Hmx. specialize (Hx Hmx). case_decide; [subst; lia|done]. }
      exists m', mask', (true :: bs). cbn [length chosen app]. split_and!; [done|lia|..].
      * apply (World_own _ _ _ _ HW'). intros a _. unfold give_own, add_own. rewrite occ_cons.
        repeat case_decide; congruence || lia.
      * by etrans.
      * congruence.
      * intros a. by rewrite Hs', Hs1.
      * intros a. rewrite Hr', Hr1, occ_cons. repeat case_decide; subst; congruence || lia.
      * intros n Hn. rewrite Hm', lor_bit by lia. rewrite <- orb_assoc. f_equal.
        destruct (decide (n = i)) as [->|Hne].
        -- rewrite (bool_decide_eq_true_2 (i = i)) by done. cbn [orb]. symmetry. apply bool_decide_eq_true.
           by rewrite Z.sub_diag.
        -- rewrite (bool_decide_eq_false_2 (n = i)) by done. cbn [orb]. apply bool_decide_ext.
           destruct (decide (i < n)); [|split; intros [? ?]; lia].
           replace (Z.to_nat (n - i)) with (S (Z.to_nat (n - (i + 1)))) by lia. cbn. intuition lia.
      * intros [|j] q b; cbn; [intros [= <-] [= <-]; by destruct Hmp; [|lia]|]. intros Hq Hbj.
        specialize (Hj' j q b Hq Hbj). destruct b; by rewrite (managed_layout m m1) in Hj' by done.
    + rewrite Hr. cbn [obind].
      destruct (IH (i + 1) m own mask HW Hp) as (m' & mask' & bs & E' & Hb & HW' & Hl' & Hf' & Hs' & Hr' & Hm' & Hj'); [lia|lia|].
      exists m', mask', (false :: bs). cbn [length chosen app]. split_and!; try done; [lia|..].
      * intros n Hn. rewrite Hm' by done. f_equal. apply bool_decide_ext.
        destruct (decide (n = i)) as [->|]; [rewrite Z.sub_diag; cbn; split; [lia|by intros [? _]]|].
        destruct (decide (i < n)); [|split; intros [? ?]; lia].
        replace (Z.to_nat (n - i)) with (S (Z.to_nat (n - (i + 1)))) by lia. cbn. intuition lia.
      * intros [|j] q b; cbn; [intros [= <-] [= <-]|by apply Hj'].
        intros Hm. specialize (Hpos Hm). pose proof (rc_range m p HO). pose proof (rc_range m' p (w_ok _ _ _ HW')).
        pose proof (occ_nonneg p (chosen pages bs)). rewrite Hr' in *. lia.
Qed.

Lemma retained_bit mask i : 0 ≤ i < 64 → retained mask i = Z.testbit mask i.
Proof.
  intros Hi. unfold retained. rewrite Z.shiftl_1_l, u64_small by (pose proof (Z.pow_lt_mono_r 2 i 64); lia).
  apply land_bit. lia.
Qed.

(** ** The record of changed pages *)

Definition range_ok (r : CowRollbackRange) : Prop :=
  page_aligned (range_start r) ∧ page_aligned (range_end r) ∧ 0 ≤ range_start r ≤ range_end r ∧ range_end r ≤ 2 ^ 39.

Definition in_ranges (rs : list CowRollbackRange) (x : Z) : Prop :=
  ∃ r, r ∈ rs ∧ range_start r ≤ x * PGSIZE < range_end r.

#[export] Instance in_ranges_dec rs x : Decision (in_ranges rs x).
Proof.
  refine (cast_if (decide (Exists (λ r, range_start r ≤ x * PGSIZE < range_end r) rs)));
    unfold in_ranges; by rewrite <- Exists_exists.
Defined.

Lemma in_ranges_cons r rs x : in_ranges (r :: rs) x ↔ range_start r ≤ x * PGSIZE < range_end r ∨ in_ranges rs x.
Proof. unfold in_ranges. setoid_rewrite elem_of_cons. naive_solver. Qed.

Lemma in_ranges_app rs rs' x : in_ranges (rs ++ rs') x ↔ in_ranges rs x ∨ in_ranges rs' x.
Proof. unfold in_ranges. setoid_rewrite elem_of_app. naive_solver. Qed.

(** Recording a page adds it and nothing else. *)
Lemma append_range_spec rs x : 0 ≤ x < 2 ^ 27 → Forall range_ok rs →
  Forall range_ok (append_range rs (x * PGSIZE)) ∧
  ∀ y, in_ranges (append_range rs (x * PGSIZE)) y ↔ in_ranges rs y ∨ y = x.
Proof.
  intros Hx Hrs. set (new := mkRange (x * PGSIZE) (x * PGSIZE + PGSIZE)).
  assert (range_ok new) as Hnew.
  { unfold range_ok, page_aligned. cbn. rewrite Z_mod_mult. replace (x * PGSIZE + PGSIZE) with ((x + 1) * PGSIZE) by lia.
    rewrite Z_mod_mult. unfold PGSIZE. split_and!; (done || lia). }
  assert (∀ y, range_start new ≤ y * PGSIZE < range_end new ↔ y = x) as Hy by (intros y; cbn; unfold PGSIZE; lia).
  assert (Forall range_ok (rs ++ [new]) ∧ ∀ y, in_ranges (rs ++ [new]) y ↔ in_ranges rs y ∨ y = x) as Hpush.
  { split; [by apply Forall_app; split; [|constructor]|]. intros y. rewrite in_ranges_app, in_ranges_cons, Hy.
    unfold in_ranges at 2. setoid_rewrite elem_of_nil. naive_solver. }
  unfold append_range. rewrite (u64_small (x * PGSIZE + PGSIZE)) by (unfold PGSIZE; lia). fold new.
  destruct rs as [|r rs _] using rev_ind; [exact Hpush|]. rewrite last_snoc.
  destruct (Z.eqb_spec (range_end r) (x * PGSIZE)) as [E|]; [|exact Hpush].
  rewrite length_app, Nat.add_sub, take_app_length, E, (u64_small (x * PGSIZE + PGSIZE)) by (unfold PGSIZE; lia).
  apply Forall_app in Hrs as [Hrs Hr]. apply Forall_cons in Hr as [(? & ? & ? & ?) _]. destruct Hnew as (? & ? & ? & ?).
  split.
  - apply Forall_app. split; [done|]. repeat constructor; cbn in *; (done || lia).
  - intros y. rewrite !in_ranges_app, !in_ranges_cons. cbn. rewrite E. unfold in_ranges at 2 4. setoid_rewrite elem_of_nil.
    assert (range_start r ≤ y * PGSIZE < x * PGSIZE + PGSIZE ↔ range_start r ≤ y * PGSIZE < x * PGSIZE ∨ y = x) as ->.
    { unfold PGSIZE in *. lia. }
    naive_solver.
Qed.

(** ** Giving write permission back *)

(** Changing flags of a mapped page. *)
Lemma World_flags m sp ss own v b d d' : World m (sp :: ss) own → low sp !! (v / 512) = Some b →
  leaf sp !! v = Some d → leaf_ok d' → PTE2PA d' = PTE2PA d →
  World (set_word m b (v mod 512) d') (put_leaf sp v (Some d') :: ss) own.
Proof.
  intros HW Eb Ed Hok Epa. refine (World_put m sp ss own own v b (Some d') HW Eb _ _).
  - intros d0 [= <-]. split; [done|]. rewrite Epa. intros Hm. apply (w_page _ _ _ HW); [|done].
    by apply (leaf_in sp _ v); [left|].
  - intros a Ha. rewrite Ed. cbn [pg]. rewrite Epa. split; [lia|]. by apply (w_own _ _ _ HW).
Qed.

(** Entries outside [P] are as they were, those in [P] restored. *)
Definition restored_leaf (f f' : gmap Z Z) (P : Z → Prop) : Prop :=
  ∀ x, (P x → f' !! x = restore <$> f !! x) ∧ (¬ P x → f' !! x = f !! x).

(** The machines of a rollback differ in tables of the space only. *)
Definition same_but_tables (m m' : Machine) (sp : Space) : Prop :=
  pmm m' = pmm m ∧ events m' = events m ∧ ∀ a, a ∉ tables sp → frames m' !! a = frames m !! a.

Lemma rollback_step n m sp ss own v end_ res : World m (sp :: ss) own → 0 ≤ v < 2 ^ 27 → v * PGSIZE < end_ →
  ∃ m1 f1 res1, rollback_range (S n) m (root sp) (v * PGSIZE) end_ res =
      rollback_range n m1 (root sp) ((v + 1) * PGSIZE) end_ res1 ∧
    World m1 (with_leaf sp f1 :: ss) own ∧ same_but_tables m m1 sp ∧ restored_leaf (leaf sp) f1 (λ x, x = v).
Proof.
  intros HW Hv He. cbn [rollback_range]. rewrite (proj2 (Z.ltb_lt _ _)), u64_small by (unfold PGSIZE in *; lia).
  replace (v * PGSIZE + PGSIZE) with ((v + 1) * PGSIZE) by lia.
  assert (sp ∈ sp :: ss) as Hin by (by left). pose proof (vpn_page v ltac:(lia)) as Ev.
  pose proof (Z.mod_pos_bound v 512 ltac:(lia)) as Hvm. pose proof (w_ok _ _ _ HW) as HO.
  assert (World m (with_leaf sp (leaf sp) :: ss) own) as HWs by (by destruct sp).
  destruct (low sp !! (v / 512)) as [b|] eqn:Eb.
  2: { rewrite (walk_missing _ _ _ _ HW Hin) by (by rewrite Ev). exists m, (leaf sp), res. split_and!; [done..|].
       intros x. split; [|done]. intros ->. destruct (leaf sp !! v) as [d|] eqn:Ed; [|done].
       destruct (leaf_low _ _ _ _ HW Hin v d Ed). congruence. }
  rewrite (walk_found _ _ _ _ HW Hin _ _ b) by (by rewrite Ev). cbn [obind]. rewrite Ev.
  pose proof (low_managed _ _ _ _ HW Hin _ b Eb) as Hbm.
  rewrite (slot_not_null m), valid_slot, (word_leaf _ _ _ _ HW Hin v b Eb) by done. cbn [obind].
  destruct (leaf sp !! v) as [d|] eqn:Ed.
  2: { exists m, (leaf sp), res. split_and!; [done..|]. intros x. split; [|done]. intros ->. by rewrite Ed. }
  change (default 0 (Some d)) with d. pose proof (leaf_data _ _ _ _ HW Hin v d Ed) as Hd. rewrite (proj2 Hd). cbn [negb].
  rewrite get_slot, (word_leaf _ _ _ _ HW Hin v b Eb), Ed by done. cbn [obind]. change (default 0 (Some d)) with d.
  change k_riscv_pte_cow with (2 ^ 8) at 1. rewrite land_bit by lia. change (Z.testbit d 8) with (is_cow d).
  destruct (is_cow d) eqn:Ec.
  - rewrite set_slot by done. cbn [obind]. change (Z.land (Z.lor d pte_writable_m) (not64 k_riscv_pte_cow)) with (uncow d).
    exists (set_word m b (v mod 512) (uncow d)), (<[v := uncow d]> (leaf sp)), true. split; [done|]. split_and!.
    + apply (World_flags m sp ss own v b d); [done..|by apply uncow_ok|]. by destruct (uncow_spec d (proj1 Hd)) as (_ & ? & _).
    + split_and!; [done..|]. intros a Ha. apply frame_set_word_ne. intros ->. apply Ha. eauto with kernel.
    + intros x. split; [intros ->; rewrite lookup_insert_eq, Ed; cbn; unfold restore; by rewrite Ec|].
      intros Hx. by rewrite lookup_insert_ne.
  - exists m, (leaf sp), res. split_and!; [done..|]. intros x. split; [|done]. intros ->. rewrite Ed. cbn. by rewrite restore_same.
Qed.

Lemma same_but_tables_trans m1 m2 m3 sp : same_but_tables m1 m2 sp → same_but_tables m2 m3 sp → same_but_tables m1 m3 sp.
Proof. intros (? & ? & Hf) (? & ? & Hf'). split_and!; [congruence..|]. intros a Ha. by rewrite Hf', Hf. Qed.

Lemma rollback_range_spec n : ∀ m sp ss own v res, World m (sp :: ss) own → 0 ≤ v → v + Z.of_nat n ≤ 2 ^ 27 →
  ∃ m' f' res', rollback_range n m (root sp) (v * PGSIZE) ((v + Z.of_nat n) * PGSIZE) res = Ret (m', res') ∧
    World m' (with_leaf sp f' :: ss) own ∧ same_but_tables m m' sp ∧
    restored_leaf (leaf sp) f' (λ x, v ≤ x < v + Z.of_nat n).
Proof.
  induction n as [|n IH]; intros m sp ss own v res HW Hv Hn.
  { exists m, (leaf sp), res. cbn [rollback_range]. rewrite Z.add_0_r, Z.ltb_irrefl. split_and!; [done|by destruct sp|done|].
    intros x. split; [lia|done]. }
  destruct (rollback_step n m sp ss own v ((v + Z.of_nat (S n)) * PGSIZE) res HW ltac:(lia) ltac:(unfold PGSIZE; lia))
    as (m1 & f1 & res1 & -> & HW1 & Hb1 & Hl1).
  replace (v + Z.of_nat (S n)) with (v + 1 + Z.of_nat n) by lia.
  destruct (IH m1 (with_leaf sp f1) ss own (v + 1) res1 HW1) as (m' & f' & res' & E & HW' & Hb' & Hl'); [lia|lia|].
  exists m', f', res'. split_and!; [done|done|by eapply same_but_tables_trans|].
  intros x. destruct (Hl' x) as [H1 H2], (Hl1 x) as [H3 H4]. cbn [leaf with_leaf] in *. split; intros Hx.
  - destruct (decide (x = v)) as [->|]; [rewrite H2, H3 by lia; done|rewrite H1, H4 by lia; done].
  - by rewrite H2, H4 by lia.
Qed.

Lemma rollback_all_spec rs : ∀ m sp ss own res, World m (sp :: ss) own → Forall range_ok rs →
  ∃ m' f' res', rollback_all rs m (root sp) res = Ret (m', res') ∧
    World m' (with_leaf sp f' :: ss) own ∧ same_but_tables m m' sp ∧ restored_leaf (leaf sp) f' (in_ranges rs).
Proof.
  induction rs as [|r rs IH]; intros m sp ss own res HW Hrs.
  { exists m, (leaf sp), res. split_and!; [done|by destruct sp|done|]. intros x. split; [|done].
    intros (r & Hr & _). by apply not_elem_of_nil in Hr. }
  apply Forall_cons in Hrs as [(Ha1 & Ha2 & Hr1 & Hr2) Hrs]. cbn [rollback_all].
  apply Z.mod_divide in Ha1 as [v Ev]; [|done]. apply Z.mod_divide in Ha2 as [w Ew]; [|done].
  rewrite Ev, Ew, <- Z.mul_sub_distr_r, Z.div_mul by done.
  replace (w * PGSIZE) with ((v + Z.of_nat (Z.to_nat (w - v))) * PGSIZE)
    by (rewrite Z2Nat.id by (unfold PGSIZE in *; lia); lia).
  destruct (rollback_range_spec (Z.to_nat (w - v)) m sp ss own v res HW) as (m1 & f1 & res1 & -> & HW1 & Hb1 & Hl1).
  { unfold PGSIZE in *. lia. } { unfold PGSIZE in *. lia. }
  cbn [obind]. destruct (IH m1 (with_leaf sp f1) ss own res1 HW1 Hrs) as (m' & f' & res' & E & HW' & Hb' & Hl').
  exists m', f', res'. split_and!; [exact E|done|by eapply same_but_tables_trans|].
  intros x. rewrite in_ranges_cons. destruct (Hl' x) as [H1 H2], (Hl1 x) as [H3 H4]. cbn [leaf with_leaf] in *.
  assert (range_start r ≤ x * PGSIZE < range_end r ↔ v ≤ x < v + Z.of_nat (Z.to_nat (w - v))) as ->
    by (unfold PGSIZE in *; lia).
  split; [intros Hor|intros Hn; by rewrite H2, H4 by tauto].
  destruct (decide (in_ranges rs x)) as [Hy|Hy]; [rewrite H1 by done|destruct Hor; [|done]; by rewrite H2, H3].
  destruct (decide (v ≤ x < v + Z.of_nat (Z.to_nat (w - v)))) as [Hx|Hx]; [rewrite H3 by done|by rewrite H4].
  destruct (leaf sp !! x) as [d|] eqn:Ed; [|done]. cbn. f_equal.
  apply restore_restore. by apply (leaf_data _ _ _ _ HW ltac:(by left) x).
Qed.

(** ** A copy of a page *)

Record PageCopy (m m' : Machine) (ss : list Space) (own : Z → Z) (new : Z) (ws : list Z) : Prop := {
  pc_world : World m' ss (add_own own new 1);
  pc_layout : same_layout m m';
  pc_managed : managed m new;
  pc_unused : rc m new = 0;
  pc_own : own new = 0;
  pc_table : new ∉ all_tables ss;
  pc_rc : ∀ a, rc m' a = if decide (a = new) then 1 else rc m a;
  pc_single : ∀ a, single m' a ↔ a = new ∨ single m a;
  pc_frames : frames m' = <[new := ws]> (frames m);
  pc_count : free_count m = free_count m' + 1
}.

Lemma fresh_copy m ss own pa ws : World m ss own → frames m !! pa = Some ws → length ws = page_words →
  (try_alloc_page_uninitialized m = Ret (m, nullptr) ∧ free_count m = 0) ∨
  ∃ m1 new m2, try_alloc_page_uninitialized m = Ret (m1, new) ∧ (new =? nullptr) = false ∧
    copy_page m1 new pa = Ret m2 ∧ PageCopy m m2 ss own new ws.
Proof.
  intros HW Ef Hl. pose proof (w_ok _ _ _ HW) as HO. unfold try_alloc_page_uninitialized.
  destruct (try_alloc_spec m false HO) as (m1 & new & E & [(-> & -> & Hfull)|[HF Hf1]]); rewrite E.
  { left. split; [done|]. by apply free_count_full. }
  right. pose proof HF as [[HO1 Hl1 Hr1] Hnm Hnu Hs1 _]. destruct (unused_page _ _ _ HW new Hnm Hnu) as (Hnt & _ & Hno).
  destruct (managed_range m new HO Hnm) as (? & _).
  exists m1, new, (with_frames m1 (<[new := ws]> (frames m1))).
  split_and!; [done|apply Z.eqb_neq; unfold nullptr; lia|unfold copy_page; by rewrite Hf1, Ef|].
  split; try done.
  - apply World_page; [|done|done]. by apply (World_fresh m m1 _ _ _ false).
  - cbn. by rewrite Hf1.
  - change (free_count (with_frames m1 _)) with (free_count m1). by apply (free_count_fresh m m1 new).
Qed.

End VmmFork.
