(* ===== verification/VmmCopy.v ===== *)
(** * [vm_copy]

    The child gets an entry for every page of the range that the parent maps:
    managed pages are shared copy-on-write, others are copied.  If the copy fails
    the parent is as it was, the child has lost all its pages below the one that failed,
    and the references taken are given back. *)
From S2P Require Import Prelude Page Buddy Pmm PmmSpec PageTable Vmm PtRep PtWalk VmmMap VmmUnmap VmmAlloc VmmFork.
Import Page Pmm PmmSpec PageTable Vmm PtRep PtWalk VmmMap VmmUnmap VmmAlloc VmmFork.

Module VmmCopy.

Definition any_page (_ : Z) : bool := false.

Section copy.
Context (e : Env) (m0 : Machine) (c0 p0 : Space) (ss : list Space) (own : Z → Z).
Context (v0 vN : Z) (rb0 : option (list CowRollbackRange)).
Context (HW0 : World m0 (c0 :: p0 :: ss) own).
Context (Hk : root c0 ≠ k_pagetable e ∨ k_pagetable e = 0).
Context (Hv : 0 ≤ v0 ≤ vN) (Htop : vN * PGSIZE ≤ USER_MEMORY_TOP).
(* an entry that is marked copy-on-write is not writable *)
Context (Hcow : ∀ x d, v0 ≤ x < vN → leaf p0 !! x = Some d → writable d = true → is_cow d = false).
(* pages outside the managed range can be read *)
Context (Hframe : ∀ x d, v0 ≤ x < vN → leaf p0 !! x = Some d → ¬ managed m0 (PTE2PA d) →
  ∃ ws, frames m0 !! PTE2PA d = Some ws ∧ length ws = page_words).
Context (Hrb : ∀ rs, rb0 = Some rs → Forall range_ok rs).

(** ** What a step may change *)

Record CRel (m m' : Machine) (c c' : Space) : Prop := {
  cr_layout : same_layout m m';
  cr_pos : ∀ a, 0 < rc m a → 0 < rc m' a;
  cr_rc : ∀ a, a ∉ pages p0 → 0 < rc m a → rc m' a = rc m a;
  cr_single : ∀ a, single m a → single m' a;
  cr_frames : ∀ a, (managed m a → 0 < rc m a) → a ∉ tables c → a ∉ tables p0 → frames m' !! a = frames m !! a;
  cr_tables : ∀ a, a ∈ tables c' → a ∈ tables c ∨ (managed m a ∧ rc m a = 0)
}.

Lemma CRel_refl m c : CRel m m c c.
Proof. split; auto. reflexivity. Qed.

Lemma CRel_trans m1 m2 m3 c1 c2 c3 : PmmOk m1 → CRel m1 m2 c1 c2 → CRel m2 m3 c2 c3 → CRel m1 m3 c1 c3.
Proof.
  intros HO [Hl Hp Hr Hs Hf Ht] [Hl' Hp' Hr' Hs' Hf' Ht']. split; [by etrans|by auto|..|by auto| |].
  - intros a Hn Ha. rewrite Hr', Hr; auto.
  - intros a Ha Hc Hn. rewrite Hf', Hf; try done.
    + rewrite (managed_layout m1 m2) by done. auto.
    + intros Hin. destruct (Ht a Hin) as [|[Hm E]]; [done|]. specialize (Ha Hm). lia.
  - intros a Ha. destruct (Ht' a Ha) as [?|[Hm E]]; [auto|]. apply (managed_layout m1) in Hm; [|done].
    right. split; [done|]. pose proof (rc_range m1 a HO). destruct (decide (0 < rc m1 a)) as [Hpos|]; [|lia].
    specialize (Hp a Hpos). lia.
Qed.

Lemma CRel_grown m m' c c' : Grown m m' c c' → CRel m m' c c'.
Proof. intros [Hr Hlo Hl Hrc Hs Hf Ht Hm]. split; auto. intros a Ha. by rewrite Hrc. Qed.

Lemma CRel_emit m m' c c' ev : CRel m m' c c' → CRel m (emit m' ev) c c'.
Proof. intros []. by split. Qed.

(** Writing an entry of the parent. *)
Lemma CRel_parent m c p b i d : tables p = tables p0 → b ∈ tables p → CRel m (set_word m b i d) c c.
Proof.
  intros Ht Hb. split; try done; [|by left]. intros a _ _ Hn. apply frame_set_word_ne. intros ->.
  by rewrite <- Ht in Hn.
Qed.

(** Dropping a reference that was taken on the way. *)
Lemma CRel_dropped m m1 m2 c c' a : PmmOk m → CRel m m1 c c' → Dropped m1 m2 a →
  (rc m a = 0 ∨ (a ∈ pages p0 ∧ 1 < rc m1 a)) → CRel m m2 c c'.
Proof.
  intros HO [Hl Hp Hr Hs Hf Ht] [[HO2 Hl2 Hr2] Hs2 Hf2 _] Ha.
  assert (∀ x, 0 < rc m x → x ≠ a ∨ (a ∈ pages p0 ∧ 1 < rc m1 a)) as Hx.
  { intros x Hpos. destruct (decide (x = a)) as [->|]; [|by left]. destruct Ha; [lia|by right]. }
  split; [by etrans|..|done].
  - intros x Hpos. rewrite Hr2. case_decide; [subst|auto]. destruct (Hx a Hpos) as [|[_ ?]]; [done|lia].
  - intros x Hn Hpos. rewrite Hr2, decide_False; [auto|]. intros ->. destruct (Hx a Hpos) as [|[? _]]; done.
  - intros x Hsx. apply Hs2. split; [auto|]. intros ->. destruct (Hx a (single_rc m a HO Hsx)) as [|[_ ?]]; done.
  - intros x. rewrite Hf2. apply Hf.
Qed.

(** ** Progress *)

(** The parent's entry after the copy. *)
Definition pentry (d : Z) : Z := if decide (managed m0 (PTE2PA d)) then if writable d then cow d else d else d.

Lemma pentry_pa d : leaf_ok d → leaf_ok (pentry d) ∧ PTE2PA (pentry d) = PTE2PA d.
Proof.
  intros Hd. unfold pentry. case_decide; [|done]. destruct (writable d); [|done]. split; [by apply cow_ok|].
  by destruct (cow_spec d (proj1 Hd)) as (_ & ? & _).
Qed.

(** The child's entry for an entry [d] of the parent. *)
Definition copied (m : Machine) (d : Z) (o : option Z) : Prop :=
  if decide (managed m0 (PTE2PA d)) then o = Some (entry (PTE2PA d) (child_flags d))
  else ∃ new, o = Some (entry new (flags_of d)) ∧ managed m0 new ∧ rc m0 new = 0 ∧ rc m new = 1 ∧
    frames m !! new = frames m0 !! PTE2PA d.

(** The entries of the parent that lose the write permission, below page [y]. *)
Definition changed (y x : Z) : Prop :=
  v0 ≤ x < y ∧ ∃ d, leaf p0 !! x = Some d ∧ managed m0 (PTE2PA d) ∧ writable d = true.

Definition recorded (rs : list CowRollbackRange) (old : Z → Prop) (y : Z) : Prop :=
  Forall range_ok rs ∧ ∀ x, in_ranges rs x ↔ old x ∨ changed y x.

(** The entries of the parent are done below page [yp], the child below page [y];
    the references of [pend] are taken for the pages to come. *)
Record CInv (cp : Copy) (c p : Space) (yp y : Z) (pend : list Z) : Prop := {
  ci_world : World (cp_m cp) (c :: p :: ss) (give_own own pend);
  ci_parent : p = with_leaf p0 (leaf p);
  ci_pleaf : ∀ x, leaf p !! x = if decide (v0 ≤ x < yp) then pentry <$> leaf p0 !! x else leaf p0 !! x;
  ci_root : root c = root c0;
  ci_cleaf : ∀ x, ¬ v0 ≤ x < y → leaf c !! x = leaf c0 !! x;
  ci_new : ∀ x, v0 ≤ x < y → match leaf p0 !! x with
    | Some d => leaf c0 !! x = None ∧ copied (cp_m cp) d (leaf c !! x)
    | None => leaf c !! x = leaf c0 !! x end;
  ci_rel : CRel m0 (cp_m cp) c0 c;
  ci_rcs : ∀ a, 0 < rc m0 a → a ∈ pages p0 →
    rc (cp_m cp) a = rc m0 a + occ a (range_pages (leaf p0) any_page v0 (Z.to_nat (y - v0))) + occ a pend;
  ci_local : recorded (local_rollback_ranges cp) (λ _, False) yp;
  ci_out : match rollback_ranges cp, rb0 with
    | Some rs, Some rs0 => recorded rs (in_ranges rs0) yp
    | None, None => True
    | _, _ => False end;
  ci_flag : parent_cow_changed cp = true ↔ ∃ x, changed yp x;
  ci_count : free_count m0 ≤ free_count (cp_m cp) + 3 * (y - v0)
}.

Lemma in_ranges_nil x : ¬ in_ranges [] x.
Proof. intros (r & Hr & _). by apply not_elem_of_nil in Hr. Qed.

Lemma CInv_start : CInv (mkCopy m0 false [] rb0) c0 p0 v0 v0 [].
Proof using HW0 Hrb.
  clear Hk Hv Htop Hcow Hframe. assert (∀ x, ¬ changed v0 x) as Hno by (intros x [? _]; lia).
  split; cbn [cp_m local_rollback_ranges rollback_ranges parent_cow_changed]; try done.
  - apply (World_own _ _ _ _ HW0). intros a _. unfold give_own. change (occ a []) with 0. lia.
  - by destruct p0.
  - intros x. by rewrite decide_False by lia.
  - intros x ?. lia.
  - apply CRel_refl.
  - intros a _ _. rewrite Z.sub_diag. cbn [Z.to_nat range_pages]. rewrite !occ_nil. lia.
  - split; [done|]. intros x. split; [by intros ?%in_ranges_nil|intros [[]|?]; by destruct (Hno x)].
  - destruct rb0 as [rs|]; [|done]. split; [by apply Hrb|]. intros x. specialize (Hno x). tauto.
  - split; [done|]. intros [x Hx]. by destruct (Hno x).
  - lia.
Qed.

(** A page of the child that was copied stays as it is. *)
Lemma copied_rel m m' c c' p own' x d : World m (c :: p :: ss) own' → tables p = tables p0 →
  CRel m0 m c0 c → CRel m m' c c' → leaf c' !! x = leaf c !! x →
  copied m d (leaf c !! x) → copied m' d (leaf c' !! x).
Proof.
  intros HW Ht HR0 HR El. unfold copied. rewrite El. case_decide as Hd; [done|].
  intros (new & En & Hm & Hz & H1 & Hf). exists new. split_and!; [done..| |].
  - rewrite (cr_rc _ _ _ _ HR); [done| |lia]. intros Hin.
    destruct (unused_page _ _ _ HW0 new Hm Hz) as (_ & Ho & _).
    assert (0 < occ new (all_pages (c0 :: p0 :: ss))); [|lia]. apply occ_pos. rewrite !all_pages_cons. in_list.
  - destruct (managed_range m0 new (w_ok _ _ _ HW0) Hm) as (? & ? & Hal).
    destruct (entry_spec new (flags_of d) Hal ltac:(unfold PGSIZE in *; lia) (proj1 (flags_of_spec d))) as (_ & Ep & _).
    assert (new ∉ all_tables (c :: p :: ss)) as Hn.
    { intros Hin. apply (table_not_page _ _ _ HW new Hin). rewrite <- Ep. apply (leaf_in c _ x); [by left|done]. }
    rewrite !all_tables_cons, Ht in Hn. rewrite (cr_frames _ _ _ _ HR); [done|intros _; lia|in_list|in_list].
Qed.
Lemma recorded_same rs old y : (∀ d, leaf p0 !! y = Some d → ¬ (managed m0 (PTE2PA d) ∧ writable d = true)) →
  recorded rs old y → recorded rs old (y + 1).
Proof.
  intros Hno [Hok Hin]. split; [done|]. intros x. rewrite Hin. unfold changed. split.
  - intros [?|[? ?]]; [by left|right]. split; [lia|done].
  - intros [?|[Hx (d & Ed & Hd)]]; [by left|right]. split; [|by exists d].
    destruct (decide (x = y)) as [->|]; [|lia]. by destruct (Hno d Ed).
Qed.

Lemma recorded_new rs old y d : v0 ≤ y < vN → leaf p0 !! y = Some d → managed m0 (PTE2PA d) → writable d = true →
  recorded rs old y → recorded (append_range rs (y * PGSIZE)) old (y + 1).
Proof.
  intros Hy Ed Hm Hw [Hok Hin]. pose proof top_small.
  destruct (append_range_spec rs y ltac:(unfold PGSIZE in *; lia) Hok) as [Hok' Hin'].
  split; [done|]. intros x. rewrite Hin', Hin. unfold changed. split.
  - intros [[?|[? ?]]| ->]; [by left|right|right]; (split; [lia|]); [done|by exists d].
  - intros [?|[Hx (d' & Ed' & Hd)]]; [by left; left|].
    destruct (decide (x = y)) as [->|]; [by right|]. left. right. split; [lia|by exists d'].
Qed.

Lemma changed_flag y : (∀ d, leaf p0 !! y = Some d → ¬ (managed m0 (PTE2PA d) ∧ writable d = true)) →
  (∃ x, changed y x) ↔ ∃ x, changed (y + 1) x.
Proof.
  intros Hno. unfold changed. split; intros (x & Hx & d & Ed & Hd).
  - exists x. split; [lia|by exists d].
  - exists x. split; [|by exists d]. destruct (decide (x = y)) as [->|]; [|lia]. by destruct (Hno d Ed).
Qed.

Lemma range_pages_next f y : v0 ≤ y →
  range_pages f any_page v0 (Z.to_nat (y + 1 - v0)) = range_pages f any_page v0 (Z.to_nat (y - v0)) ++ pg (f !! y).
Proof.
  intros Hy. replace (Z.to_nat (y + 1 - v0)) with (S (Z.to_nat (y - v0))) by lia. cbn [range_pages].
  replace (v0 + Z.of_nat (Z.to_nat (y - v0))) with y by lia. done.
Qed.

(** An entry of the parent that keeps its permissions. *)
Lemma CInv_parent_same cp c p y pend : CInv cp c p y y pend →
  (∀ d, leaf p0 !! y = Some d → ¬ (managed m0 (PTE2PA d) ∧ writable d = true)) → CInv cp c p (y + 1) y pend.
Proof.
  intros [HW Hp Hpl Hr Hcl Hn HR Hrc Hl Ho Hf Hc] Hno. split; try done.
  - intros x. rewrite Hpl. destruct (decide (x = y)) as [->|]; [|apply decide_ext; lia].
    rewrite decide_False by lia. case_decide; [|done]. destruct (leaf p0 !! y) as [d|]; [|done]. cbn. f_equal.
    unfold pentry. case_decide; [|done]. destruct (writable d) eqn:Ew; [|done]. by destruct (Hno d).
  - by apply recorded_same.
  - destruct (rollback_ranges cp), rb0; try done. by apply recorded_same.
  - rewrite Hf. by apply changed_flag.
Qed.

(** A page the parent does not map. *)
Lemma CInv_skip cp c p y pend : CInv cp c p y y pend → v0 ≤ y → leaf p0 !! y = None → CInv cp c p (y + 1) (y + 1) pend.
Proof.
  intros HI Hy En. apply CInv_parent_same in HI; [|congruence].
  destruct HI as [HW Hp Hpl Hr Hcl Hn HR Hrc Hl Ho Hf Hc]. split; try done.
  - intros x Hx. apply Hcl. lia.
  - intros x Hx. destruct (decide (x = y)) as [->|]; [rewrite En; apply Hcl; lia|apply Hn; lia].
  - intros a Ha Hin. rewrite range_pages_next, En, app_nil_r by done. by apply Hrc.
  - lia.
Qed.

(** ** Scanning *)

Fixpoint leaf_list (f : gmap Z Z) (y : Z) (n : nat) : list Z :=
  match n with
  | O => []
  | S n => (if f !! y then [y] else []) ++ leaf_list f (y + 1) n
  end.

Lemma elem_of_leaf_list f n : ∀ y x, x ∈ leaf_list f y n → y ≤ x < y + Z.of_nat n ∧ is_Some (f !! x).
Proof.
  induction n as [|n IH]; intros y x; cbn [leaf_list]; [by intros ?%not_elem_of_nil|].
  intros [Hx|Hx]%elem_of_app.
  - destruct (f !! y) eqn:E; [|by apply not_elem_of_nil in Hx]. apply list_elem_of_singleton in Hx as ->. split; [lia|by eauto].
  - destruct (IH (y + 1) x Hx). split; [lia|done].
Qed.

Definition mk_cand (x : Z) : CowCopyCandidate :=
  let d := default 0 (leaf p0 !! x) in
  mkCand (slot (default 0 (low p0 !! (x / 512))) (x mod 512)) (x * PGSIZE) (PTE2PA d) (flags_of d).

Lemma scan_spec n : ∀ m ss' own' p y, World m (p :: ss') own' → p = with_leaf p0 (leaf p) →
  (∀ x, y ≤ x → leaf p !! x = leaf p0 !! x) → 0 ≤ y → y + Z.of_nat n ≤ 2 ^ 27 →
  scan_batch n m (root p0) (y * PGSIZE) ((y + Z.of_nat n) * PGSIZE) = Ret (mk_cand <$> leaf_list (leaf p0) y n).
Proof.
  induction n as [|n IH]; intros m ss' own' p y HW Hp Hl Hy Hn; cbn [scan_batch leaf_list].
  { by rewrite Z.add_0_r, Z.ltb_irrefl. }
  rewrite (proj2 (Z.ltb_lt _ _)), u64_small by (unfold PGSIZE; lia).
  replace (y * PGSIZE + PGSIZE) with ((y + 1) * PGSIZE) by lia.
  replace (y + Z.of_nat (S n)) with (y + 1 + Z.of_nat n) by lia.
  specialize (IH m ss' own' p (y + 1) HW Hp ltac:(intros; apply Hl; lia) ltac:(lia) ltac:(lia)).
  assert (p ∈ p :: ss') as Hin by (by left). pose proof (vpn_page y ltac:(lia)) as Ev.
  pose proof (Z.mod_pos_bound y 512 ltac:(lia)) as Hvm. pose proof (w_ok _ _ _ HW) as HO.
  assert (root p = root p0 ∧ low p = low p0) as [Er Elo] by (rewrite Hp; done).
  rewrite <- Er in IH |- *. rewrite <- (Hl y) by lia.
  destruct (low p !! (y / 512)) as [b|] eqn:Eb.
  2: { rewrite (walk_missing _ _ _ _ HW Hin) by (by rewrite Ev). cbn [obind]. change (is_null nullptr) with true.
       cbv iota. cbn [obind negb]. destruct (leaf p !! y) as [d|] eqn:Ed; [|done].
       destruct (leaf_low _ _ _ _ HW Hin y d Ed). congruence. }
  rewrite (walk_found _ _ _ _ HW Hin _ _ b) by (by rewrite Ev). cbn [obind]. rewrite Ev.
  pose proof (low_managed _ _ _ _ HW Hin _ b Eb) as Hbm.
  rewrite (slot_not_null m), valid_slot, (word_leaf _ _ _ _ HW Hin y b Eb) by done. cbn [obind].
  destruct (leaf p !! y) as [d|] eqn:Ed; [|done].
  change (default 0 (Some d)) with d. rewrite (proj2 (leaf_data _ _ _ _ HW Hin y d Ed)). cbn [negb].
  rewrite pa_slot, flags_slot, (word_leaf _ _ _ _ HW Hin y b Eb), Ed by done. cbn [obind]. rewrite IH. cbn [obind app fmap list_fmap].
  unfold mk_cand at 2. by rewrite <- (Hl y), Ed, <- Elo, Eb by lia.
Qed.
(** ** Giving up *)

Definition bits (mask i : Z) (bs : list bool) : Prop :=
  0 ≤ i ∧ i + Z.of_nat (length bs) ≤ 64 ∧ ∀ j b, bs !! j = Some b → Z.testbit mask (i + Z.of_nat j) = b.

Lemma bits_cons mask i b bs : bits mask i (b :: bs) → retained mask i = b ∧ bits mask (i + 1) bs.
Proof.
  intros (Hi & Hl & Hb). cbn [length] in Hl. split; [rewrite retained_bit by lia; rewrite <- (Hb O b) by done; f_equal; lia|].
  split_and!; [lia|lia|]. intros j b' Hj. rewrite <- (Hb (S j) b') by done. f_equal. lia.
Qed.

Lemma release_unconsumed_spec ss' cands : ∀ bs i mask m, bits mask i bs → length bs = length cands →
  World m ss' (give_own own (chosen (c_pa <$> cands) bs)) → (∀ a, managed m a → 0 ≤ own a) →
  (∀ a, a ∈ chosen (c_pa <$> cands) bs → managed m a ∧ a ∈ all_pages ss') →
  ∃ m', release_unconsumed_retains cands i mask m = Ret m' ∧ World m' ss' own ∧ frames m' = frames m ∧ same_layout m m'.
Proof.
  induction cands as [|k cands IH]; intros [|b bs] i mask m Hb Hl HW Ho Hin; try done.
  { exists m. split_and!; [done| |done|done]. apply (World_own _ _ _ _ HW). intros a _. unfold give_own. cbn. rewrite occ_nil. lia. }
  cbn [release_unconsumed_retains]. destruct (bits_cons _ _ _ _ Hb) as [-> Hb']. cbn in Hl, HW, Hin. destruct b.
  - destruct (Hin (c_pa k)) as [Hm Hp]; [by left|]. destruct (w_page _ _ _ HW _ Hp Hm) as [Hs _].
    destruct (World_free m ss' _ (c_pa k) HW Hm Hs) as (m1 & -> & HD & HW1).
    { unfold give_own. cbn [app]. rewrite occ_cons, decide_True by done. specialize (Ho _ Hm).
      pose proof (occ_nonneg (c_pa k) (chosen (c_pa <$> cands) bs)). lia. }
    cbn [obind]. destruct HD as [[_ Hl1 _] _ Hf1 _].
    destruct (IH bs (i + 1) mask m1 Hb' ltac:(lia)) as (m' & E & HW' & Hf' & Hl').
    + apply (World_own _ _ _ _ HW1). intros a _. unfold give_own, add_own. cbn [app]. rewrite occ_cons. case_decide; lia.
    + intros a. rewrite (managed_layout m m1) by done. apply Ho.
    + intros a Ha. rewrite (managed_layout m m1) by done. apply Hin. by right.
    + exists m'. split_and!; [done..|congruence|by etrans].
  - cbn [obind]. apply (IH bs); [done|lia|done|done|done].
Qed.

(** The mappings below page [n] are dropped. *)
Lemma pages_below a (c : Space) n : ∀ f, (∀ x, f !! x = if decide (0 ≤ x < Z.of_nat n) then None else leaf c !! x) →
  occ a (pages (with_leaf c f)) + occ a (range_pages (leaf c) any_page 0 n) = occ a (pages c).
Proof.
  induction n as [|n IH]; intros f Hf.
  - cbn [range_pages]. rewrite occ_nil. assert (f = leaf c) as ->; [|unfold pages; cbn; lia].
    apply map_eq. intros x. by rewrite Hf, decide_False by lia.
  - set (g := partial_alter (λ _, leaf c !! Z.of_nat n) (Z.of_nat n) f).
    rewrite <- (IH g). 2: { intros x. unfold g. destruct (decide (x = Z.of_nat n)) as [->|Hx].
      - by rewrite lookup_partial_alter_eq, decide_False by lia.
      - rewrite lookup_partial_alter_ne, Hf by done. destruct (decide (0 ≤ x < Z.of_nat n)); [by rewrite decide_True by lia|].
        by rewrite decide_False by lia. }
    pose proof (occ_put (with_leaf c f) (Z.of_nat n) (leaf c !! Z.of_nat n) a) as H. unfold put_leaf in H. cbn [leaf with_leaf] in H.
    rewrite (Hf (Z.of_nat n)), decide_True in H by lia. cbn [pg] in H. rewrite occ_nil in H.
    change (with_leaf (with_leaf c f) (partial_alter (λ _, leaf c !! Z.of_nat n) (Z.of_nat n) f)) with (with_leaf c g) in H.
    cbn [range_pages any_page]. rewrite occ_app. replace (0 + Z.of_nat n) with (Z.of_nat n) by lia. lia.
Qed.

(** Everything taken is given back, the parent is as it was, and the child has lost
    its pages below the one that could not be copied, with their references. *)
Definition copy_failed (m' : Machine) : Prop :=
  ∃ c' y, v0 ≤ y < vN ∧ World m' (c' :: p0 :: ss) own ∧ root c' = root c0 ∧ same_layout m0 m' ∧
    (∀ x, leaf c' !! x = if decide (0 ≤ x < y) then None else leaf c0 !! x) ∧
    (∀ a, (managed m0 a → 0 < rc m0 a) → a ∉ tables c0 → a ∉ tables p0 → frames m' !! a = frames m0 !! a) ∧
    (∀ a, managed m0 a → 0 < rc m0 a → a ∉ tables c0 →
       rc m' a = rc m0 a - occ a (range_pages (leaf c0) any_page 0 (Z.to_nat y))).

Lemma failed_counts m' c' y a : 0 ≤ y → World m' (c' :: p0 :: ss) own → same_layout m0 m' →
  (∀ x, leaf c' !! x = if decide (0 ≤ x < y) then None else leaf c0 !! x) →
  (∀ b, b ∈ tables c' → b ∈ tables c0 ∨ (managed m0 b ∧ rc m0 b = 0)) →
  managed m0 a → 0 < rc m0 a → a ∉ tables c0 →
  rc m' a = rc m0 a - occ a (range_pages (leaf c0) any_page 0 (Z.to_nat y)).
Proof.
  intros Hy HW Hl Hleaf Ht Hm Hpos Hnc. assert (managed m' a) as Hm' by (by apply (managed_layout m0)).
  assert (occ a (pages c') + occ a (range_pages (leaf c0) any_page 0 (Z.to_nat y)) = occ a (pages c0)) as Hocc.
  { apply (pages_below a c0 (Z.to_nat y) (leaf c')). intros x. rewrite Hleaf. by rewrite Z2Nat.id by lia. }
  pose proof (occ_nonneg a (range_pages (leaf c0) any_page 0 (Z.to_nat y))).
  destruct (decide (a ∈ all_tables (p0 :: ss))) as [Hin|Hin].
  - assert (a ∈ all_tables (c0 :: p0 :: ss)) as Hin0 by (rewrite all_tables_cons; apply elem_of_app; by right).
    assert (a ∈ all_tables (c' :: p0 :: ss)) as Hin1 by (rewrite all_tables_cons; apply elem_of_app; by right).
    destruct (w_table _ _ _ HW0 a Hin0) as (_ & -> & _). destruct (w_table _ _ _ HW a Hin1) as (_ & -> & _).
    destruct (decide (a ∈ pages c0)) as [Hp|Hp]; [|rewrite <- occ_pos in Hp; pose proof (occ_nonneg a (pages c')); lia].
    destruct (w_page _ _ _ HW0 a) as [_ Hn]; [rewrite all_pages_cons; apply elem_of_app; by left|done|]. done.
  - assert (a ∉ all_tables (c0 :: p0 :: ss)) as Hn0 by (rewrite all_tables_cons, elem_of_app; tauto).
    assert (a ∉ all_tables (c' :: p0 :: ss)) as Hn1.
    { rewrite all_tables_cons, elem_of_app. intros [Ha|]; [|done]. destruct (Ht a Ha) as [|[_ ?]]; [done|lia]. }
    rewrite (w_rc _ _ _ HW0 a Hm Hn0), (w_rc _ _ _ HW a Hm' Hn1). rewrite !all_pages_cons, !occ_app. lia.
Qed.

Lemma abort_spec cp c p y rest bs i mask copy_start va_end :
  v0 ≤ y < vN → World (cp_m cp) (c :: p :: ss) (give_own own (chosen (c_pa <$> rest) bs)) →
  p = with_leaf p0 (leaf p) → root c = root c0 → CRel m0 (cp_m cp) c0 c →
  (∀ x, y ≤ x → leaf c !! x = leaf c0 !! x) → (∀ x, x < v0 → leaf c !! x = leaf c0 !! x) →
  Forall range_ok (local_rollback_ranges cp) →
  (∀ x, if decide (in_ranges (local_rollback_ranges cp) x) then restore <$> leaf p !! x = leaf p0 !! x
        else leaf p !! x = leaf p0 !! x) →
  bits mask i bs → length bs = length rest →
  (∀ a, a ∈ chosen (c_pa <$> rest) bs → managed m0 a ∧ a ∈ pages p) →
  ∃ cp', abort_copy e cp (root p0) (root c0) copy_start va_end (y * PGSIZE) rest i mask = Ret (cp', -1) ∧
    copy_failed (cp_m cp').
Proof.
  intros Hy HW Hp Hr HR Hc Hc' Hok Hback Hb Hl Hin. unfold abort_copy. pose proof top_small as Hts.
  pose proof HR as [Hly _ _ _ Hfr Htb].
  destruct (release_unconsumed_spec (c :: p :: ss) rest bs i mask (cp_m cp) Hb Hl HW) as (m1 & -> & HW1 & Hf1 & Hl1).
  { intros a Ha. apply (w_own _ _ _ HW0). by apply (managed_layout m0 (cp_m cp)). }
  { intros a Ha. destruct (Hin a Ha) as [Hm Hpg]. split; [by apply (managed_layout m0)|]. rewrite !all_pages_cons. in_list. }
  cbn [obind]. rewrite Z.div_mul, <- Hr by done. change 0 with (0 * PGSIZE) at 1.
  destruct (vmunmap_spec e m1 c (p :: ss) own 0 y true Invalidate HW1) as (m2 & c2 & -> & [HW2 Hsp Hl2 Hly2 _ Hf2 _]);
    [lia|lia|unfold PGSIZE in *; lia|]. cbn [obind].
  assert (World m2 (p :: c2 :: ss) own) as HW2'.
  { apply (World_perm _ (c2 :: p :: ss)); [constructor|]. apply (World_own _ _ _ _ HW2). intros a _. lia. }
  unfold fail_copy. cbn [with_cp cp_m local_rollback_ranges].
  assert (root p = root p0) as Erp by (rewrite Hp; done). rewrite <- Erp.
  destruct (rollback_all_spec (local_rollback_ranges cp) m2 p (c2 :: ss) own false HW2' Hok)
    as (m3 & f & res & -> & HW3 & (Hp3 & He3 & Hf3) & Hres). cbn [obind].
  assert (with_leaf p f = p0) as Ep.
  { rewrite Hp. cbn. transitivity (with_leaf p0 (leaf p0)); [|by destruct p0]. unfold with_leaf. cbn. f_equal.
    apply map_eq. intros x. destruct (Hres x) as [H1 H2]. specialize (Hback x). case_decide as Hx; [by rewrite H1|by rewrite H2]. }
  rewrite Ep in HW3. assert (same_layout m2 m3) as Hl3 by (unfold same_layout; by rewrite Hp3).
  assert (∀ x, leaf c2 !! x = if decide (0 ≤ x < y) then None else leaf c0 !! x) as Hcleaf.
  { intros x. rewrite Hl2. cbn [Z.add]. unfold kept. destruct (decide (0 ≤ x < y)) as [Hx|Hx].
    - rewrite decide_True; [done|]. split; [lia|]. rewrite below_top_not_reserved; [done|unfold PGSIZE in *; lia].
    - rewrite decide_False by (intros [? _]; lia). destruct (decide (x < v0)); [by apply Hc'|apply Hc; lia]. }
  assert (copy_failed m3) as Hfail.
  { exists c2, y. split_and!; [lia|lia|apply (World_perm _ (p0 :: c2 :: ss)); [constructor|done]|by rewrite Hsp|..].
    - by rewrite Hly, Hl1, Hly2.
    - done.
    - intros a Ha Hnc Hnp. assert (a ∉ tables p) as Hnp' by (rewrite Hp; done).
      rewrite Hf3, Hf2, Hf1; [by apply Hfr| |done]. intros Hin'. destruct (Htb a Hin') as [|[Hm E]]; [done|].
      specialize (Ha Hm). lia.
    - intros a. apply (failed_counts m3 c2 y a); [lia|apply (World_perm _ (p0 :: c2 :: ss)); [constructor|done]| |done|].
      + by rewrite Hly, Hl1, Hly2.
      + intros b Hb'. rewrite Hsp in Hb'. by apply (Htb b). }
  destruct res; eexists; (split; [reflexivity|]); [|exact Hfail].
  destruct Hfail as (c' & y' & ? & HWf & Hrest). exists c', y'. split; [done|]. split; [by apply World_emit|]. exact Hrest.
Qed.
(** ** One page *)

Lemma ci_tables cp c p yp y pend : CInv cp c p yp y pend → tables p = tables p0 ∧ root p = root p0 ∧ low p = low p0.
Proof. intros HI. rewrite (ci_parent _ _ _ _ _ _ HI). done. Qed.

(** The pages the parent maps do not change. *)
Lemma parent_pages cp c p yp y pend x d : CInv cp c p yp y pend → leaf p0 !! x = Some d →
  PTE2PA d ∈ pages p ∧ leaf_ok d.
Proof.
  intros HI Ed. assert (leaf_ok d) as Hd by (apply (leaf_data _ _ _ p0 HW0 ltac:(right; by left) x d Ed)). split; [|done].
  assert (∃ d', leaf p !! x = Some d' ∧ PTE2PA d' = PTE2PA d) as (d' & Ed' & Ep).
  { rewrite (ci_pleaf _ _ _ _ _ _ HI). case_decide; rewrite Ed; [|by exists d]. exists (pentry d). split; [done|].
    by apply pentry_pa. }
  rewrite <- Ep. apply list_elem_of_fmap. exists d'. split; [done|]. apply elem_of_vals. eauto.
Qed.

(** Write permission is taken from the parent's entry and the page recorded. *)
Lemma parent_step cp c p y pend d (defer : bool) : CInv cp c p y y pend → v0 ≤ y < vN →
  leaf p0 !! y = Some d → managed m0 (PTE2PA d) → writable d = true →
  ∃ m1 p1, set_data (cp_m cp) (c_pte (mk_cand y)) (cow d) = Ret m1 ∧
    CInv (set_changed (with_cp (record_parent_cow_change cp (y * PGSIZE)) m1)) c p1 (y + 1) y pend ∧
    ∃ b, low p !! (y / 512) = Some b ∧ m1 = set_word (cp_m cp) b (y mod 512) (cow d) ∧ p1 = put_leaf p y (Some (cow d)).
Proof.
  intros HI Hy Ed Hm Hw. destruct (ci_tables _ _ _ _ _ _ HI) as (Et & Er & Elo).
  pose proof HI as [HW Hp Hpl Hr Hcl Hn HR Hrc Hl Ho Hf Hc]. pose proof (Z.mod_pos_bound y 512 ltac:(lia)) as Hvm.
  assert (leaf p !! y = Some d) as Ep by (by rewrite Hpl, decide_False by lia).
  assert (p ∈ c :: p :: ss) as Hin by (right; by left).
  pose proof (leaf_data _ _ _ _ HW Hin y d Ep) as Hd. destruct (leaf_low _ _ _ _ HW Hin y d Ep) as [b Eb].
  pose proof (low_managed _ _ _ _ HW Hin _ b Eb) as Hbm. pose proof (w_ok _ _ _ HW) as HO.
  exists (set_word (cp_m cp) b (y mod 512) (cow d)), (put_leaf p y (Some (cow d))). split; [|split; [|by exists b]].
  { unfold mk_cand. cbn [c_pte]. rewrite <- Elo, Eb. change (default 0 (Some b)) with b. by rewrite set_slot. }
  assert (CRel (cp_m cp) (set_word (cp_m cp) b (y mod 512) (cow d)) c c) as HR1.
  { apply (CRel_parent _ c p); [done|]. eauto with kernel. }
  split; cbn [set_changed with_cp record_parent_cow_change cp_m local_rollback_ranges rollback_ranges parent_cow_changed]; try done.
  - apply (World_perm _ (put_leaf p y (Some (cow d)) :: c :: ss)); [constructor|].
    apply (World_flags _ _ _ _ _ _ d); [by apply (World_perm _ (c :: p :: ss)); [constructor|]|done|done|by apply cow_ok|].
    by destruct (cow_spec d (proj1 Hd)) as (_ & ? & _).
  - unfold put_leaf. cbn [leaf with_leaf]. rewrite Hp. done.
  - intros x. unfold put_leaf. cbn [leaf with_leaf]. destruct (decide (x = y)) as [->|].
    + rewrite lookup_partial_alter_eq, decide_True, Ed by lia. cbn. unfold pentry. by rewrite decide_True, Hw.
    + rewrite lookup_partial_alter_ne, Hpl by done. apply decide_ext. lia.
  - intros x Hx. specialize (Hn x Hx). destruct (leaf p0 !! x) as [d'|]; [|done]. destruct Hn as [? Hcp]. split; [done|].
    by apply (copied_rel (cp_m cp) _ c c p (give_own own pend) x).
  - by eapply CRel_trans; [apply HW0|..].
  - by apply (recorded_new _ _ _ d).
  - destruct (rollback_ranges cp), rb0; try done. by apply (recorded_new _ _ _ d).
  - split; [|done]. intros _. exists y. split; [lia|by exists d].
Qed.
(** Why a copy fails: a page of the child is in the way, a reference count would
    overflow, or memory is short. *)
Definition copy_refused : Prop :=
  (∃ x d, v0 ≤ x < vN ∧ leaf p0 !! x = Some d ∧ is_Some (leaf c0 !! x)) ∨
  (∃ a, managed m0 a ∧ UINT16_MAX < rc m0 a + occ a (range_pages (leaf p0) any_page v0 (Z.to_nat (vN - v0)))) ∨
  free_count m0 ≤ 3 * (vN - v0).

(** The child's page [y] is mapped to page [pa], of which a reference is at hand, or
    it cannot be. *)
Lemma child_map cp c p y pa fl pend : CInv cp c p (y + 1) y pend → v0 ≤ y < vN → is_Some (leaf p0 !! y) →
  page_aligned pa → 0 ≤ pa < 2 ^ 48 → 0 ≤ fl < 2 ^ 10 →
  ∀ m ow, World m (c :: p :: ss) ow → CRel (cp_m cp) m c c → free_count (cp_m cp) ≤ free_count m + 1 →
  mappable m (c :: p :: ss) ow pa →
  ∃ m2 c2, Grown m m2 c c2 ∧ free_count m ≤ free_count m2 + 2 ∧
    ((map_pages e m (root c0) (y * PGSIZE) PGSIZE pa fl = Ret (m2, true) ∧ leaf c0 !! y = None ∧
      World m2 (c2 :: p :: ss) (take_own ow [pa]) ∧ leaf c2 = <[y := entry pa fl]> (leaf c)) ∨
     (map_pages e m (root c0) (y * PGSIZE) PGSIZE pa fl = Ret (m2, false) ∧ copy_refused ∧
      World m2 (c2 :: p :: ss) ow ∧ leaf c2 = leaf c)).
Proof.
  intros HI Hy [d Ed] Hal Hpa Hfl m ow HW HR Hfc Hmap. pose proof top_small.
  pose proof (ci_root _ _ _ _ _ _ HI) as Er. pose proof (ci_cleaf _ _ _ _ _ _ HI y ltac:(lia)) as Ec.
  destruct (map_page_spec e m c (p :: ss) ow y pa fl HW) as (m2 & c2 & HG & Hfc2 & Hr); try done.
  { unfold PGSIZE in *. lia. }
  rewrite Er in Hr. exists m2, c2. split; [done|]. split; [done|].
  destruct Hr as [(HW2 & En & El & ->)|(HW2 & El & Hr)]; [left; split_and!; try done; congruence|right].
  destruct Hr as [[Hs ->]|(En & -> & Hfull)].
  - rewrite (no_way_user e c0 Hk) by (done || unfold PGSIZE in *; lia). split_and!; try done.
    left. exists y, d. rewrite <- Ec. split_and!; (done || lia).
  - split_and!; try done. right. right.
    rewrite (free_count_full m2) in Hfc2; [pose proof (ci_count _ _ _ _ _ _ HI); lia|apply HW2|].
    intros a Ha. apply Hfull. by apply (managed_layout m m2 _ (gr_layout _ _ _ _ HG)).
Qed.

(** The copy of page [y] is complete. *)
Lemma CInv_next cp c p y pend m2 c2 d d' pend' : CInv cp c p (y + 1) y pend → v0 ≤ y < vN → leaf p0 !! y = Some d →
  leaf c0 !! y = None → World m2 (c2 :: p :: ss) (give_own own pend') → root c2 = root c → CRel (cp_m cp) m2 c c2 →
  leaf c2 = <[y := d']> (leaf c) → copied m2 d (Some d') → free_count (cp_m cp) ≤ free_count m2 + 3 →
  (∀ a, 0 < rc m0 a → a ∈ pages p0 → rc m2 a + occ a pend = rc (cp_m cp) a + occ a (pg (Some d)) + occ a pend') →
  CInv (with_cp cp m2) c2 p (y + 1) (y + 1) pend'.
Proof.
  intros HI Hy Ed Ec0 HW2 Hr2 HR2 El Hcp Hfc Hrcs. destruct (ci_tables _ _ _ _ _ _ HI) as (Et & _ & _).
  destruct HI as [HW Hp Hpl Hr Hcl Hn HR Hrc Hl Ho Hf Hc].
  split; cbn [with_cp cp_m local_rollback_ranges rollback_ranges parent_cow_changed];
    [exact HW2|exact Hp|exact Hpl|congruence|..|exact Hl|exact Ho|exact Hf|].
  - intros x Hx. rewrite El, lookup_insert_ne by lia. apply Hcl. lia.
  - intros x Hx. destruct (decide (x = y)) as [->|].
    + rewrite Ed, El, lookup_insert_eq. by split.
    + specialize (Hn x ltac:(lia)). destruct (leaf p0 !! x) as [d1|]; [|by rewrite El, lookup_insert_ne].
      destruct Hn as [? Hn]. split; [done|]. apply (copied_rel (cp_m cp) m2 c c2 p (give_own own pend) x); try assumption.
      by rewrite El, lookup_insert_ne.
  - by eapply CRel_trans; [apply HW0|..].
  - intros a Ha Hin. rewrite range_pages_next, Ed, occ_app by lia. specialize (Hrc a Ha Hin). specialize (Hrcs a Ha Hin). lia.
  - lia.
Qed.
Lemma CInv_emit cp c p yp y pend ev : CInv cp c p yp y pend → CInv (with_cp cp (emit (cp_m cp) ev)) c p yp y pend.
Proof.
  intros [HW Hp Hpl Hr Hcl Hn HR Hrc Hl Ho Hf Hc].
  split; cbn [with_cp cp_m local_rollback_ranges rollback_ranges parent_cow_changed];
    [by apply World_emit|exact Hp|exact Hpl|exact Hr|exact Hcl|exact Hn|by apply CRel_emit|exact Hrc|exact Hl|exact Ho|exact Hf|exact Hc].
Qed.

(** The record of changed entries is enough to restore the parent. *)
Lemma back_spec p rs y yp : (∀ x, leaf p !! x = if decide (v0 ≤ x < y) then pentry <$> leaf p0 !! x else leaf p0 !! x) →
  recorded rs (λ _, False) yp → y ≤ yp ≤ vN →
  ∀ x, if decide (in_ranges rs x) then restore <$> leaf p !! x = leaf p0 !! x else leaf p !! x = leaf p0 !! x.
Proof.
  intros Hl [_ Hin] Hy x. specialize (Hin x). rewrite Hl. case_decide as Hx.
  - destruct (proj1 Hin Hx) as [[]|[Hxr (d & Ed & Hm & Hw)]].
    pose proof (Hcow x d ltac:(lia) Ed Hw) as Hc.
    assert (leaf_ok d) as Hd by (apply (leaf_data _ _ _ p0 HW0 ltac:(right; by left) x d Ed)).
    case_decide; rewrite Ed; cbn; f_equal; [|by apply restore_same]. unfold pentry. rewrite decide_True, Hw by done.
    by apply restore_cow.
  - case_decide; [|done]. destruct (leaf p0 !! x) as [d|] eqn:Ed; [|done]. cbn. f_equal. unfold pentry.
    case_decide; [|done]. destruct (writable d) eqn:Hw; [|done]. destruct Hx. apply Hin. right. split; [lia|by exists d].
Qed.

(** A failure before or after the child's page [y] was tried. *)
Lemma abort_copying cp c p yp y rest bs i mask copy_start va_end :
  v0 ≤ y < vN → y ≤ yp ≤ vN → World (cp_m cp) (c :: p :: ss) (give_own own (chosen (c_pa <$> rest) bs)) →
  p = with_leaf p0 (leaf p) → root c = root c0 → CRel m0 (cp_m cp) c0 c →
  (∀ x, ¬ v0 ≤ x < y → leaf c !! x = leaf c0 !! x) →
  (∀ x, leaf p !! x = if decide (v0 ≤ x < y) then pentry <$> leaf p0 !! x else leaf p0 !! x) →
  recorded (local_rollback_ranges cp) (λ _, False) yp → bits mask i bs → length bs = length rest →
  (∀ a, a ∈ chosen (c_pa <$> rest) bs → managed m0 a ∧ a ∈ pages p) →
  ∃ cp', abort_copy e cp (root p0) (root c0) copy_start va_end (y * PGSIZE) rest i mask = Ret (cp', -1) ∧
    copy_failed (cp_m cp').
Proof.
  intros Hy Hyp HW Hp Hr HR Hc Hl Hrec Hb Hlen Hin.
  apply (abort_spec cp c p y rest bs); try assumption.
  - intros x Hx. apply Hc. lia.
  - intros x Hx. apply Hc. lia.
  - apply Hrec.
  - by apply (back_spec p _ y yp).
Qed.
(** ** The candidates of a batch *)

Section batch.
Context (copy_start va_end : Z) (defer : bool) (mask : Z).

Local Abbreviation go := (copy_batch e (root p0) (root c0) copy_start va_end defer).

(** A candidate is done, or the copy fails. *)
Definition step_or_fail (cp : Copy) (y i : Z) (rest : list CowCopyCandidate) (bs : list bool) : Prop :=
  (∃ cp' c' p', go (mk_cand y :: rest) i mask cp = go rest (i + 1) mask cp' ∧
     CInv cp' c' p' (y + 1) (y + 1) (chosen (c_pa <$> rest) bs)) ∨
  (∃ cp', go (mk_cand y :: rest) i mask cp = Ret (cp', Some (-1)) ∧ copy_failed (cp_m cp') ∧ copy_refused).

(** The pages of which references were taken are mapped by the parent. *)
Definition good_pages (l : list Z) : Prop := ∀ a, a ∈ l → managed m0 a ∧ a ∈ pages p0.

Lemma pages_p0 cp c p yp y pend a : CInv cp c p yp y pend → a ∈ pages p0 → a ∈ pages p.
Proof.
  intros HI (d & -> & Hin)%list_elem_of_fmap. apply elem_of_vals in Hin as [x Hx].
  by destruct (parent_pages _ _ _ _ _ _ x d HI Hx).
Qed.

Lemma good_pages_parent cp c p yp y pend l : CInv cp c p yp y pend → good_pages l →
  ∀ a, a ∈ l → managed m0 a ∧ a ∈ pages p.
Proof. intros HI Hg a Ha. destruct (Hg a Ha). split; [done|]. by eapply pages_p0. Qed.

(** The child cannot map the shared page: its reference and the parent's entry are
    given back. *)
Lemma shared_fails cp c p y d rest bs i m2 c2 : CInv cp c p (y + 1) y (PTE2PA d :: chosen (c_pa <$> rest) bs) →
  v0 ≤ y < vN → leaf p0 !! y = Some d → managed m0 (PTE2PA d) → bits mask i bs → length bs = length rest →
  good_pages (chosen (c_pa <$> rest) bs) →
  Grown (cp_m cp) m2 c c2 → World m2 (c2 :: p :: ss) (give_own own (PTE2PA d :: chosen (c_pa <$> rest) bs)) →
  leaf c2 = leaf c →
  ∃ cp', (let! m := free_page m2 (PTE2PA d) in
          let! m := set_data m (c_pte (mk_cand y)) d in
          abort_copy e (with_cp cp m) (root p0) (root c0) copy_start va_end (y * PGSIZE) rest i mask) = Ret (cp', -1) ∧
    copy_failed (cp_m cp').
Proof.
  intros HI Hy Ed Hm Hb Hl Hg HG HW2 El. destruct (ci_tables _ _ _ _ _ _ HI) as (Et & Er & Elo).
  destruct (parent_pages _ _ _ _ _ _ y d HI Ed) as [Hpg Hd]. pose proof (Z.mod_pos_bound y 512 ltac:(lia)) as Hvm.
  pose proof (good_pages_parent _ _ _ _ _ _ _ HI Hg) as Hg'.
  pose proof (CRel_grown _ _ _ _ HG) as HR2. destruct (pentry_pa d Hd) as [Hpk Hpp].
  destruct HI as [HW Hp Hpl Hr Hcl Hn HR Hrc Hlo Ho Hf Hc].
  assert (same_layout m0 m2) as Hl2 by (etrans; [apply HR|apply HG]).
  assert (managed m2 (PTE2PA d)) as Hm2 by (by apply (managed_layout m0)).
  assert (PTE2PA d ∈ all_pages (c2 :: p :: ss)) as Hpa by (rewrite !all_pages_cons; in_list).
  destruct (World_free m2 _ _ (PTE2PA d) HW2 Hm2) as (m3 & -> & HD & HW3).
  { by apply (w_page _ _ _ HW2). }
  { unfold give_own. rewrite occ_cons, decide_True by done. pose proof (w_own _ _ _ HW0 _ Hm).
    pose proof (occ_nonneg (PTE2PA d) (chosen (c_pa <$> rest) bs)). lia. }
  cbn [obind]. assert (leaf p !! y = Some (pentry d)) as Ep by (by rewrite Hpl, decide_True, Ed by lia).
  assert (p ∈ c2 :: p :: ss) as Hin by (right; by left).
  destruct (leaf_low _ _ _ _ HW3 Hin y _ Ep) as [b Eb]. pose proof (low_managed _ _ _ _ HW3 Hin _ b Eb) as Hbm.
  pose proof (w_ok _ _ _ HW3) as HO3. unfold mk_cand. cbn [c_pte]. rewrite <- Elo, Eb. change (default 0 (Some b)) with b.
  rewrite set_slot by done. cbn [obind].
  eapply (abort_copying _ c2 (put_leaf p y (Some d)) (y + 1) y rest bs); cbn [with_cp cp_m local_rollback_ranges]; [done|lia|..].
  - apply (World_perm _ (put_leaf p y (Some d) :: c2 :: ss)); [constructor|].
    apply (World_flags _ _ _ _ _ _ (pentry d)); [|done|done|done|done].
    apply (World_perm _ (c2 :: p :: ss)); [constructor|]. apply (World_own _ _ _ _ HW3). intros a _.
    unfold give_own, add_own. rewrite occ_cons. case_decide; lia.
  - unfold put_leaf. rewrite Hp. done.
  - rewrite (gr_root _ _ _ _ HG). done.
  - eapply CRel_trans; [apply HW0|exact HR|]. eapply CRel_trans; [apply HW| |apply (CRel_parent _ c2 p); [done|eauto with kernel]].
    apply (CRel_dropped _ m2 _ _ _ (PTE2PA d)); [apply HW|done|done|]. right.
    split; [apply list_elem_of_fmap; exists d; split; [done|apply elem_of_vals; eauto]|].
    rewrite (w_rc _ _ _ HW2) by (done || by apply (w_page _ _ _ HW2)). apply occ_pos in Hpa.
    unfold give_own. rewrite occ_cons, decide_True by done. pose proof (w_own _ _ _ HW0 _ Hm).
    pose proof (occ_nonneg (PTE2PA d) (chosen (c_pa <$> rest) bs)). lia.
  - intros x Hx. rewrite El. by apply Hcl.
  - intros x. unfold put_leaf. cbn [leaf with_leaf]. destruct (decide (x = y)) as [->|].
    + rewrite lookup_partial_alter_eq, decide_False, Ed by lia. done.
    + rewrite lookup_partial_alter_ne, Hpl by done. apply decide_ext. lia.
  - exact Hlo.
  - done.
  - done.
  - intros a Ha. destruct (Hg' a Ha) as [? Hap]. split; [done|].
    assert (a ∈ pages (put_leaf p y (Some d)) ++ pg (leaf p !! y)) as Hor.
    { rewrite pages_put. apply elem_of_app. by right. }
    apply elem_of_app in Hor as [?|Hor]; [done|]. rewrite Ep in Hor. apply list_elem_of_singleton in Hor as ->.
    rewrite Hpp. apply list_elem_of_fmap. exists d. split; [done|]. apply elem_of_vals. exists y. apply lookup_partial_alter_eq.
Qed.
(** What the scan read about page [y] still holds when its turn comes. *)
Lemma cand_data cp c p y pend d : CInv cp c p y y pend → 0 ≤ y → leaf p0 !! y = Some d →
  get_data (cp_m cp) (c_pte (mk_cand y)) = Ret d ∧ c_va (mk_cand y) = y * PGSIZE ∧ c_pa (mk_cand y) = PTE2PA d ∧
  c_flags (mk_cand y) = flags_of d.
Proof.
  intros HI Hy Ed. destruct (ci_tables _ _ _ _ _ _ HI) as (Et & Er & Elo). unfold mk_cand. rewrite Ed.
  split_and!; [|done..]. cbn [c_pte]. pose proof (ci_world _ _ _ _ _ _ HI) as HW. pose proof (Z.mod_pos_bound y 512 ltac:(lia)).
  assert (leaf p !! y = Some d) as Ep by (rewrite (ci_pleaf _ _ _ _ _ _ HI), decide_False by lia; done).
  assert (p ∈ c :: p :: ss) as Hin by (right; by left). destruct (leaf_low _ _ _ _ HW Hin y d Ep) as [b Eb].
  rewrite <- Elo, Eb. change (default 0 (Some b)) with b.
  rewrite get_slot, (word_leaf _ _ _ _ HW Hin y b Eb), Ep; [done|apply HW|by eapply low_managed|done].
Qed.

(** A page of which a reference was taken is shared. *)
Lemma step_shared cp c p y d rest bs i : CInv cp c p y y (PTE2PA d :: chosen (c_pa <$> rest) bs) →
  v0 ≤ y < vN → leaf p0 !! y = Some d → managed m0 (PTE2PA d) → retained mask i = true →
  bits mask (i + 1) bs → length bs = length rest → good_pages (chosen (c_pa <$> rest) bs) →
  step_or_fail cp y i rest bs.
Proof.
  intros HI Hy Ed Hm Hret Hb Hl Hg. destruct (cand_data _ _ _ _ _ _ HI ltac:(lia) Ed) as (Eg & Eva & Epa & Efl).
  destruct (parent_pages _ _ _ _ _ _ y d HI Ed) as [_ Hd]. destruct (PTE2PA_range d (proj1 Hd)) as [Hal Hpr].
  destruct (child_flags_spec d) as [Hcf _]. destruct (flags_of_spec d) as [_ Hfb].
  unfold step_or_fail. cbn [copy_batch]. rewrite Hret, Eg, Eva, Epa, Efl. cbn [obind].
  change (if _ || _ then _ else flags_of d) with (child_flags d).
  change pte_writable_m with (2 ^ 2) at 1 3. rewrite land_bit, Hfb by lia. change (Z.testbit d 2) with (writable d).
  assert (∃ cp1 p1, (if writable d then
      let! m := set_data (cp_m (record_parent_cow_change cp (y * PGSIZE))) (c_pte (mk_cand y))
        (Z.lor (Z.land d (not64 pte_writable_m)) k_riscv_pte_cow) in
      Ret (if defer then set_changed (with_cp (record_parent_cow_change cp (y * PGSIZE)) m)
           else with_cp (set_changed (with_cp (record_parent_cow_change cp (y * PGSIZE)) m))
             (flush_user_pt_range e (cp_m (set_changed (with_cp (record_parent_cow_change cp (y * PGSIZE)) m)))
               (root p0) (y * PGSIZE) PGSIZE)) else Ret cp) = Ret cp1 ∧
    CInv cp1 c p1 (y + 1) y (PTE2PA d :: chosen (c_pa <$> rest) bs)) as (cp1 & p1 & E1 & HI1).
  { destruct (writable d) eqn:Hw.
    - destruct (parent_step cp c p y _ d defer HI Hy Ed Hm Hw) as (m1 & p1 & E & HI1 & _).
      change (Z.lor _ _) with (cow d). cbn [record_parent_cow_change cp_m]. rewrite E. cbn [obind].
      eexists _, p1. split; [done|]. destruct defer; [done|]. by apply CInv_emit.
    - exists cp, p. split; [done|]. apply CInv_parent_same; [done|]. intros d' Ed'. rewrite Ed in Ed'. injection Ed' as <-.
      rewrite Hw. by intros [_ ?]. }
  change (2 ^ 2) with pte_writable_m. rewrite E1. cbn [obind]. clear HI.
  pose proof (ci_world _ _ _ _ _ _ HI1) as HW1.
  destruct (parent_pages _ _ _ _ _ _ y d HI1 Ed) as [Hpg _].
  assert (managed (cp_m cp1) (PTE2PA d)) as Hm1 by (apply (managed_layout m0); [apply (ci_rel _ _ _ _ _ _ HI1)|done]).
  assert (PTE2PA d ∈ all_pages (c :: p1 :: ss)) as Hpa by (rewrite !all_pages_cons; in_list).
  assert (PTE2PA d ∈ pages p0) as Hp0 by (apply list_elem_of_fmap; exists d; split; [done|apply elem_of_vals; eauto]).
  destruct (child_map cp1 c p1 y (PTE2PA d) (child_flags d) _ HI1 Hy ltac:(by eauto) Hal Hpr Hcf (cp_m cp1) _ HW1)
    as (m2 & c2 & HG & Hfc & [(-> & Ec0 & HW2 & El)|(-> & Href & HW2 & El)]).
  { apply CRel_refl. } { lia. }
  { intros _. destruct (w_page _ _ _ HW1 _ Hpa Hm1) as [? ?]. split_and!; [done..|]. unfold give_own.
    rewrite occ_cons, decide_True by done. pose proof (w_own _ _ _ HW0 _ Hm).
    pose proof (occ_nonneg (PTE2PA d) (chosen (c_pa <$> rest) bs)). lia. }
  - cbn [obind negb]. left. exists (with_cp cp1 m2), c2, p1. split; [done|].
    apply (CInv_next cp1 c p1 y (PTE2PA d :: chosen (c_pa <$> rest) bs) m2 c2 d (entry (PTE2PA d) (child_flags d))); try assumption.
    + apply (World_own _ _ _ _ HW2). intros a _. unfold take_own, give_own. rewrite !occ_cons, occ_nil. lia.
    + apply HG.
    + by apply CRel_grown.
    + unfold copied. by rewrite decide_True.
    + lia.
    + intros a Ha Hap. cbn [pg]. rewrite !occ_cons, occ_nil.
      rewrite (gr_rc _ _ _ _ HG); [lia|]. apply (cr_pos _ _ _ _ (ci_rel _ _ _ _ _ _ HI1)). done.
  - cbn [obind negb]. right.
    destruct (shared_fails cp1 c p1 y d rest bs (i + 1) m2 c2 HI1 Hy Ed Hm Hb Hl Hg HG HW2 El) as (cp' & E & Hfail).
    exists cp'. split; [|done]. revert E. destruct (free_page m2 (PTE2PA d)); [|done..]. cbn [obind].
    destruct (set_data _ _ d); [|done..]. cbn [obind]. by intros ->.
Qed.
(** Giving up before the child's page [y]. *)
Lemma abort_before cp m c c' p y rest bs i : CInv cp c p y y (chosen (c_pa <$> rest) bs) → v0 ≤ y < vN →
  World m (c' :: p :: ss) (give_own own (chosen (c_pa <$> rest) bs)) → CRel (cp_m cp) m c c' →
  root c' = root c → leaf c' = leaf c →
  bits mask i bs → length bs = length rest → good_pages (chosen (c_pa <$> rest) bs) →
  ∃ cp', abort_copy e (with_cp cp m) (root p0) (root c0) copy_start va_end (y * PGSIZE) rest i mask = Ret (cp', -1) ∧
    copy_failed (cp_m cp').
Proof.
  intros HI Hy HW2 HR2 Er El Hb Hl Hg. pose proof (good_pages_parent _ _ _ _ _ _ _ HI Hg) as Hg'.
  destruct HI as [HW Hp Hpl Hr Hcl Hn HR Hrc Hlo Ho Hf Hc].
  apply (abort_copying (with_cp cp m) c' p y y rest bs); cbn [with_cp cp_m local_rollback_ranges]; try assumption.
  - lia.
  - congruence.
  - eapply CRel_trans; [apply HW0|exact HR|done].
  - intros x Hx. rewrite El. by apply Hcl.
Qed.

(** A managed page whose count is full. *)
Lemma step_full cp c p y d rest bs i : CInv cp c p y y (chosen (c_pa <$> rest) bs) → v0 ≤ y < vN →
  leaf p0 !! y = Some d → managed m0 (PTE2PA d) → retained mask i = false → copy_refused →
  bits mask (i + 1) bs → length bs = length rest → good_pages (chosen (c_pa <$> rest) bs) →
  step_or_fail cp y i rest bs.
Proof.
  intros HI Hy Ed Hm Hret Href Hb Hl Hg. destruct (cand_data _ _ _ _ _ _ HI ltac:(lia) Ed) as (_ & Eva & Epa & _).
  destruct (parent_pages _ _ _ _ _ _ y d HI Ed) as [_ Hd]. destruct (PTE2PA_range d (proj1 Hd)) as [_ Hpr].
  right. cbn [copy_batch]. rewrite Hret, Epa, Eva.
  rewrite is_managed_page_spec, bool_decide_eq_true_2 by
    (try lia; try apply (w_ok _ _ _ (ci_world _ _ _ _ _ _ HI)); by apply (managed_layout m0); [apply (ci_rel _ _ _ _ _ _ HI)|]).
  destruct (abort_before cp (cp_m cp) c c p y rest bs (i + 1) HI Hy) as (cp' & E & Hfail); try done.
  { apply HI. } { apply CRel_refl. }
  exists cp'. split; [|done]. replace (with_cp cp (cp_m cp)) with cp in E by (by destruct cp). by rewrite E.
Qed.

Lemma CRel_copy m m2 c ss' own' new ws : PageCopy m m2 ss' own' new ws → CRel m m2 c c.
Proof.
  intros [HW Hl Hm Hu Ho Ht Hr Hs Hf Hc]. split; [done|..].
  - intros a Ha. rewrite Hr. case_decide; lia.
  - intros a _ Ha. rewrite Hr, decide_False; [done|]. intros ->. lia.
  - intros a Ha. apply Hs. by right.
  - intros a Ha _ _. rewrite Hf, lookup_insert_ne; [done|]. intros ->. specialize (Ha Hm). lia.
  - by left.
Qed.

(** A page that is not managed is copied. *)
Lemma step_private cp c p y d rest bs i : CInv cp c p y y (chosen (c_pa <$> rest) bs) → v0 ≤ y < vN →
  leaf p0 !! y = Some d → ¬ managed m0 (PTE2PA d) → retained mask i = false →
  bits mask (i + 1) bs → length bs = length rest → good_pages (chosen (c_pa <$> rest) bs) →
  step_or_fail cp y i rest bs.
Proof.
  intros HI Hy Ed Hnm Hret Hb Hl Hg. destruct (cand_data _ _ _ _ _ _ HI ltac:(lia) Ed) as (_ & Eva & Epa & Efl).
  destruct (ci_tables _ _ _ _ _ _ HI) as (Et & _ & _).
  destruct (parent_pages _ _ _ _ _ _ y d HI Ed) as [_ Hd]. destruct (PTE2PA_range d (proj1 Hd)) as [Hal Hpr].
  pose proof (ci_world _ _ _ _ _ _ HI) as HW. pose proof (ci_rel _ _ _ _ _ _ HI) as HR. pose proof (w_ok _ _ _ HW) as HO.
  destruct (flags_of_spec d) as [Hfl _]. destruct (Hframe y d Hy Ed Hnm) as (ws & Ef & Hlen).
  assert (frames (cp_m cp) !! PTE2PA d = Some ws) as Ef1.
  { rewrite (cr_frames _ _ _ _ HR); [done|done|..]; intros Hin; apply Hnm; apply (table_managed _ _ _ HW0);
      rewrite !all_tables_cons; in_list. }
  unfold step_or_fail. cbn [copy_batch]. rewrite Hret, Epa, Eva, Efl.
  rewrite is_managed_page_spec, bool_decide_eq_false_2 by
    (try lia; try done; by rewrite (managed_layout m0) by apply HR).
  destruct (fresh_copy (cp_m cp) _ _ (PTE2PA d) ws HW Ef1 Hlen) as [[-> Hfull]|(m1 & new & m2 & -> & Hnn & Ecp & HP)].
  { cbn [obind]. rewrite Z.eqb_refl. right.
    destruct (abort_before cp (cp_m cp) c c p y rest bs (i + 1) HI Hy) as (cp' & E & Hfail); try done; [apply CRel_refl|].
    exists cp'. rewrite E. split; [done|]. split; [done|]. right. right. pose proof (ci_count _ _ _ _ _ _ HI). lia. }
  cbn [obind]. rewrite Hnn, Ecp. cbn [obind]. pose proof (CRel_copy _ _ c _ _ _ _ HP) as HR2.
  destruct HP as [HW2 _ Hnew Hnu Hno Hnt Hrc2 Hs2 Hf2 Hfc].
  assert (managed m0 new) as Hnew0 by (by apply (managed_layout m0 (cp_m cp)); [apply HR|]).
  assert (rc m0 new = 0) as Hu0.
  { pose proof (rc_range m0 new (w_ok _ _ _ HW0)). destruct (decide (0 < rc m0 new)) as [Hp|]; [|lia].
    pose proof (cr_pos _ _ _ _ HR new Hp). lia. }
  destruct (managed_range (cp_m cp) new HO Hnew) as (Hn0 & Hn48 & Hnal).
  assert (CInv cp c p (y + 1) y (chosen (c_pa <$> rest) bs)) as HI1.
  { apply CInv_parent_same; [done|]. intros d' Ed'. rewrite Ed in Ed'. injection Ed' as <-. tauto. }
  destruct (child_map cp c p y new (flags_of d) _ HI1 Hy ltac:(by eauto) Hnal ltac:(unfold PGSIZE in *; lia) Hfl m2 _ HW2 HR2)
    as (m3 & c3 & HG & Hfc3 & [(-> & Ec0 & HW3 & El)|(-> & Href & HW3 & El)]).
  { lia. } { intros _. split_and!; [apply Hs2; by left|done|]. unfold add_own. rewrite decide_True by done. lia. }
  all: pose proof (CRel_trans _ _ _ _ _ _ HO HR2 (CRel_grown _ _ _ _ HG)) as HR3.
  all: assert (0 < rc m2 new) as Hpos2 by (rewrite Hrc2, decide_True by done; lia).
  - cbn [obind negb]. left. exists (with_cp cp m3), c3, p. split; [done|].
    apply (CInv_next cp c p y (chosen (c_pa <$> rest) bs) m3 c3 d (entry new (flags_of d))); try assumption.
    + apply (World_own _ _ _ _ HW3). intros a _. unfold take_own, add_own. rewrite occ_cons, occ_nil. repeat case_decide; lia.
    + apply HG.
    + unfold copied. rewrite decide_False by done. exists new. split_and!; try done.
      * by rewrite (gr_rc _ _ _ _ HG), Hrc2, decide_True.
      * rewrite (gr_frames _ _ _ _ HG), Hf2, lookup_insert_eq; [done|done|]. intros Hin. apply Hnt. apply (tables_in c); [by left|done].
    + lia.
    + intros a Ha Hap. assert (a ≠ PTE2PA d) by (intros ->; apply rc_pos_managed in Ha; done).
      assert (a ≠ new) by (intros ->; lia). cbn [pg]. rewrite occ_cons, occ_nil, decide_False by done.
      pose proof (cr_pos _ _ _ _ HR a Ha). rewrite (gr_rc _ _ _ _ HG), Hrc2, decide_False by (try rewrite Hrc2, decide_False by done; done). lia.
  - cbn [obind negb]. right.
    destruct (World_free m3 _ _ new HW3) as (m4 & -> & HD & HW4).
    { apply (managed_layout m2 m3); [apply HG|]. apply (managed_layout (cp_m cp) m2); [apply HR2|done]. }
    { apply HG, Hs2. by left. } { unfold add_own. rewrite decide_True by done. lia. }
    cbn [obind].
    destruct (abort_before cp m4 c c3 p y rest bs (i + 1) HI Hy) as (cp' & E & Hfail); try assumption.
    { apply (World_own _ _ _ _ HW4). intros a _. unfold add_own. case_decide; lia. }
    { apply (CRel_dropped _ m3 _ _ _ new); [done..|by left]. }
    { apply HG. }
    exists cp'. by rewrite E.
Qed.

(** All candidates of [n] pages. *)
Lemma copy_batch_spec n : ∀ cp c p y i bs, let xs := leaf_list (leaf p0) y n in
  CInv cp c p y y (chosen (c_pa <$> (mk_cand <$> xs)) bs) → v0 ≤ y → y + Z.of_nat n ≤ vN →
  bits mask i bs → length bs = length xs →
  (∀ j x b, xs !! j = Some x → bs !! j = Some b →
    if b : bool then managed m0 (c_pa (mk_cand x)) else managed m0 (c_pa (mk_cand x)) → copy_refused) →
  (∃ cp' c' p', go (mk_cand <$> xs) i mask cp = Ret (cp', None) ∧ CInv cp' c' p' (y + Z.of_nat n) (y + Z.of_nat n) []) ∨
  (∃ cp', go (mk_cand <$> xs) i mask cp = Ret (cp', Some (-1)) ∧ copy_failed (cp_m cp') ∧ copy_refused).
Proof.
  induction n as [|n IH]; intros cp c p y i bs xs HI Hy Hn Hb Hl Hbs; subst xs; cbn [leaf_list] in *.
  { left. exists cp, c, p. split; [done|]. by rewrite Z.add_0_r. }
  replace (y + Z.of_nat (S n)) with (y + 1 + Z.of_nat n) by lia.
  destruct (leaf p0 !! y) as [d|] eqn:Ed; cbn [app] in *.
  2: { apply (IH cp c p (y + 1) i bs); [by apply CInv_skip|lia|lia|done..]. }
  destruct bs as [|b bs]; [done|]. cbn in Hl. destruct (bits_cons _ _ _ _ Hb) as [Hret Hb'].
  set (rest := mk_cand <$> leaf_list (leaf p0) (y + 1) n) in *.
  assert (good_pages (chosen (c_pa <$> rest) bs)) as Hg.
  { intros a (j & Ha & Hj)%elem_of_chosen. unfold rest in Ha. rewrite !list_lookup_fmap in Ha.
    destruct (leaf_list (leaf p0) (y + 1) n !! j) as [x|] eqn:Ex; [|done]. injection Ha as <-.
    split; [by apply (Hbs (S j) x true)|]. apply list_elem_of_lookup_2 in Ex.
    destruct (elem_of_leaf_list _ _ _ _ Ex) as (_ & d' & Ed'). unfold mk_cand. rewrite Ed'. cbn.
    apply list_elem_of_fmap. exists d'. split; [done|]. apply elem_of_vals. eauto. }
  pose proof (Hbs O y b eq_refl eq_refl) as Hb0. unfold mk_cand in Hb0. rewrite Ed in Hb0. cbn in Hb0.
  assert (length bs = length rest) as Hlr by (unfold rest; rewrite length_fmap; lia).
  assert (step_or_fail cp y i rest bs) as Hstep.
  { cbn in HI. unfold mk_cand in HI at 1. rewrite Ed in HI. cbn in HI.
    destruct b; [apply (step_shared cp c p y d); try done; lia|]. destruct (decide (managed m0 (PTE2PA d))) as [Hm|Hm].
    - apply (step_full cp c p y d); try done; try lia. by apply Hb0.
    - apply (step_private cp c p y d); try done; lia. }
  change (mk_cand <$> y :: leaf_list (leaf p0) (y + 1) n) with (mk_cand y :: rest).
  destruct Hstep as [(cp' & c' & p' & -> & HI')|Hfail]; [|by right].
  apply (IH cp' c' p' (y + 1) (i + 1) bs); [done|lia|lia|done|lia|]. intros j x b' Hx Hb1. by apply (Hbs (S j) x b').
Qed.
End batch.
(** ** Batches *)

(** The candidates are the pages of the range, in order. *)
Lemma cand_pages n : ∀ y, c_pa <$> (mk_cand <$> leaf_list (leaf p0) y n) = range_pages (leaf p0) any_page y n.
Proof.
  induction n as [|n IH]; intros y; [done|]. change (S n) with (1 + n)%nat at 2. rewrite range_pages_app.
  cbn [leaf_list range_pages app any_page]. rewrite !fmap_app, Z.add_0_r, <- IH. f_equal.
  unfold mk_cand. destruct (leaf p0 !! y) eqn:E; cbn; [by rewrite E|done].
Qed.

Lemma length_leaf_list n : ∀ y, (length (leaf_list (leaf p0) y n) ≤ n)%nat.
Proof.
  induction n as [|n IH]; intros y; cbn [leaf_list length]; [done|]. rewrite length_app. specialize (IH (y + 1)).
  destruct (leaf p0 !! y); cbn; lia.
Qed.

Lemma range_pages_in n y : ∀ a, a ∈ range_pages (leaf p0) any_page y n → a ∈ pages p0.
Proof.
  intros a. rewrite <- cand_pages. intros (k & -> & Hkc)%list_elem_of_fmap.
  apply list_elem_of_fmap in Hkc as (x & -> & Hx). destruct (elem_of_leaf_list _ _ _ _ Hx) as (_ & d & Ed).
  unfold mk_cand. rewrite Ed. cbn. apply list_elem_of_fmap. exists d. split; [done|]. apply elem_of_vals. eauto.
Qed.

(** Pages of the parent can be retained. *)
Lemma parent_usable cp c p y n : CInv cp c p y y [] →
  Forall (usable (cp_m cp) (c :: p :: ss)) (range_pages (leaf p0) any_page y n).
Proof.
  intros HI. apply Forall_forall. intros a Ha. pose proof (range_pages_in n y a Ha) as Hp.
  pose proof (ci_world _ _ _ _ _ _ HI) as HW. pose proof (pages_p0 _ _ _ _ _ _ _ HI Hp) as Hpp.
  assert (a ∈ all_pages (c :: p :: ss)) as Hin by (rewrite !all_pages_cons; in_list).
  apply list_elem_of_fmap in Hp as (d & -> & (x & Ed)%elem_of_vals).
  pose proof (leaf_data _ _ _ p0 HW0 ltac:(right; by left) x d Ed) as Hd. destruct (PTE2PA_range d (proj1 Hd)).
  unfold usable. split_and!; [done|lia|lia| |].
  - intros Ht. by apply (table_not_page _ _ _ HW _ Ht).
  - intros Hm. destruct (w_page _ _ _ HW _ Hin Hm) as [Hs _]. apply single_rc; [apply HW|done].
Qed.

(** The references of a batch are taken. *)
Lemma CInv_retain cp c p y n m1 bs : CInv cp c p y y [] →
  let ps := range_pages (leaf p0) any_page y n in
  World m1 (c :: p :: ss) (give_own (give_own own []) (chosen ps bs)) → same_layout (cp_m cp) m1 →
  frames m1 = frames (cp_m cp) → (∀ a, single m1 a ↔ single (cp_m cp) a) →
  (∀ a, rc m1 a = rc (cp_m cp) a + occ a (chosen ps bs)) →
  CInv (with_cp cp m1) c p y y (chosen ps bs).
Proof.
  intros HI ps HW1 Hl1 Hf1 Hs1 Hr1. pose proof (parent_usable _ _ _ _ n HI) as Hus. rewrite Forall_forall in Hus.
  destruct (ci_tables _ _ _ _ _ _ HI) as (Et & _ & _).
  destruct HI as [HW Hp Hpl Hr Hcl Hn HR Hrc Hlo Ho Hf Hc].
  assert (∀ a, a ∈ chosen ps bs → a ∈ ps) as Hch.
  { intros a (j & Hj & _)%elem_of_chosen. by eapply list_elem_of_lookup_2. }
  assert (∀ a, a ∉ ps → occ a (chosen ps bs) = 0) as Hocc.
  { intros a Ha. pose proof (occ_nonneg a (chosen ps bs)). destruct (decide (0 < occ a (chosen ps bs))) as [Hpos|]; [|lia].
    apply occ_pos in Hpos. by destruct (Ha (Hch a Hpos)). }
  assert (CRel (cp_m cp) m1 c c) as HR1.
  { split; try done.
    - intros a Ha. rewrite Hr1. pose proof (occ_nonneg a (chosen ps bs)). lia.
    - intros a Ha _. rewrite Hr1, Hocc; [lia|]. intros Hin. apply Ha. by eapply range_pages_in.
    - intros a. by rewrite Hs1.
    - intros a _ _ _. by rewrite Hf1.
    - by left. }
  split; cbn [with_cp cp_m local_rollback_ranges rollback_ranges parent_cow_changed];
    [|exact Hp|exact Hpl|exact Hr|exact Hcl|..|exact Hlo|exact Ho|exact Hf|].
  - apply (World_own _ _ _ _ HW1). intros a _. unfold give_own. rewrite occ_nil. lia.
  - intros x Hx. specialize (Hn x Hx). destruct (leaf p0 !! x) as [d|]; [|done]. destruct Hn as [? Hcp]. split; [done|].
    by apply (copied_rel (cp_m cp) _ c c p (give_own own []) x).
  - by eapply CRel_trans; [apply HW0|..].
  - intros a Ha Hin. rewrite Hr1, Hrc, occ_nil by done. lia.
  - rewrite (free_count_same (cp_m cp) m1); [done|apply HW|apply HW1|done|]. intros a Ha. rewrite Hr1.
    destruct (decide (a ∈ ps)) as [Hin|Hin]; [|rewrite Hocc by done; lia].
    destruct (Hus a Hin) as (_ & _ & _ & Hpos). specialize (Hpos Ha). pose proof (occ_nonneg a (chosen ps bs)). lia.
Qed.

(** A page of the batch that could not be retained has no room for its references. *)
Lemma overflow cp c p y n m1 bs j a : CInv cp c p y y [] → v0 ≤ y → y + Z.of_nat n ≤ vN →
  let ps := range_pages (leaf p0) any_page y n in
  (∀ a, rc m1 a = rc (cp_m cp) a + occ a (chosen ps bs)) →
  ps !! j = Some a → bs !! j = Some false → rc m1 a = UINT16_MAX → managed m0 a → copy_refused.
Proof.
  intros HI Hy Hn ps Hr1 Hj Hb Hmax Hm. right. left. exists a. split; [done|].
  pose proof (occ_chosen ps bs a j Hj Hb) as Ho.
  assert (a ∈ pages p0) as Hap by (eapply range_pages_in, list_elem_of_lookup_2, Hj).
  assert (0 < rc m0 a) as Hpos.
  { destruct (w_page _ _ _ HW0 a) as [Hs _]; [rewrite !all_pages_cons; in_list|done|]. apply single_rc; [apply HW0|done]. }
  rewrite Hr1, (ci_rcs _ _ _ _ _ _ HI a Hpos Hap), occ_nil in Hmax.
  replace (Z.to_nat (vN - v0)) with (Z.to_nat (y - v0) + (n + Z.to_nat (vN - (y + Z.of_nat n))))%nat by lia.
  rewrite !range_pages_app, !occ_app. replace (v0 + Z.of_nat (Z.to_nat (y - v0))) with y by lia. fold ps.
  match goal with |- context [occ a (range_pages ?f ?k ?w ?l)] => pose proof (occ_nonneg a (range_pages f k w l)) end.
  pose proof (occ_nonneg a (range_pages (leaf p0) any_page (y + Z.of_nat n) (Z.to_nat (vN - (y + Z.of_nat n))))).
  lia.
Qed.

Lemma copy_loop_spec copy_start defer fuel : ∀ cp c p y, CInv cp c p y y [] → v0 ≤ y ≤ vN →
  vN - y ≤ Z.of_nat fuel →
  (∃ cp' c' p', copy_loop fuel e (root p0) (root c0) copy_start (vN * PGSIZE) (y * PGSIZE) defer cp =
     Ret (cp', if parent_cow_changed cp' then 1 else 0) ∧ CInv cp' c' p' vN vN []) ∨
  (∃ cp', copy_loop fuel e (root p0) (root c0) copy_start (vN * PGSIZE) (y * PGSIZE) defer cp = Ret (cp', -1) ∧
     copy_failed (cp_m cp') ∧ copy_refused).
Proof.
  pose proof top_small as Hts.
  induction fuel as [|fuel IH]; intros cp c p y HI Hy Hfuel; cbn [copy_loop].
  { assert (y = vN) as -> by lia. rewrite Z.ltb_irrefl. left. by exists cp, c, p. }
  destruct (Z.ltb_spec (y * PGSIZE) (vN * PGSIZE)) as [Hlt|Hge]; cycle 1.
  { assert (y = vN) as -> by (unfold PGSIZE in *; lia). left. by exists cp, c, p. }
  rewrite <- Z.mul_sub_distr_r, Z.div_mul by done.
  set (nb := if k_cow_retain_batch_pages <? vN - y then k_cow_retain_batch_pages else vN - y).
  assert (0 < nb ≤ 32 ∧ y + nb ≤ vN) as Hnb.
  { unfold nb, k_cow_retain_batch_pages. destruct (Z.ltb_spec 32 (vN - y)); unfold PGSIZE in *; lia. }
  rewrite u64_small by (unfold PGSIZE in *; lia). rewrite <- Z.mul_add_distr_r.
  set (n := Z.to_nat nb). replace (y + nb) with (y + Z.of_nat n) by (unfold n; lia).
  pose proof (ci_world _ _ _ _ _ _ HI) as HW. destruct (ci_tables _ _ _ _ _ _ HI) as (Et & Erp & _).
  rewrite (scan_spec n (cp_m cp) (c :: ss) (give_own own []) p y);
    [|by apply (World_perm _ (c :: p :: ss)); [constructor|]|apply HI| |lia|unfold n, PGSIZE in *; lia].
  2: { intros x Hx. rewrite (ci_pleaf _ _ _ _ _ _ HI), decide_False by lia. done. }
  cbn [obind]. rewrite cand_pages. set (ps := range_pages (leaf p0) any_page y n).
  assert (length ps = length (leaf_list (leaf p0) y n)) as Hlps by (unfold ps; rewrite <- cand_pages, !length_fmap; done).
  pose proof (length_leaf_list n y) as Hlen.
  assert ((if defer then retain_pages_batch (cp_m cp) ps else retain_each ps 0 (cp_m cp) 0) = retain_each ps 0 (cp_m cp) 0) as ->
    by (destruct defer; [apply retain_batch_each; unfold n in *; lia|done]).
  destruct (retain_each_spec (c :: p :: ss) ps 0 (cp_m cp) (give_own own []) 0 HW)
    as (m1 & mask & bs & -> & Hlb & HW1 & Hl1 & Hf1 & Hs1 & Hr1 & Hmask & Hbs);
    [by eapply parent_usable|lia|unfold n in *; lia|].
  cbn [obind]. pose proof (CInv_retain cp c p y n m1 bs HI HW1 Hl1 Hf1 Hs1 Hr1) as HI1. fold ps in HI1.
  destruct (copy_batch_spec copy_start (vN * PGSIZE) defer mask n (with_cp cp m1) c p y 0 bs)
    as [(cp' & c' & p' & E & HI')|(cp' & E & Hfail)].
  - by rewrite cand_pages.
  - lia.
  - unfold n. lia.
  - split_and!; [lia|unfold n in *; lia|]. intros j b Hj. rewrite Hmask, Z.bits_0 by lia. cbn [orb].
    replace (Z.to_nat (0 + Z.of_nat j - 0)) with j by lia. rewrite Hj. destruct b; [apply bool_decide_eq_true_2; split; [done|lia]|].
    apply bool_decide_eq_false_2. intros [? _]. done.
  - lia.
  - intros j x b Hx Hb. assert (ps !! j = Some (c_pa (mk_cand x))) as Hps.
    { unfold ps. rewrite <- cand_pages, !list_lookup_fmap, Hx. done. }
    specialize (Hbs j _ b Hps Hb). pose proof (managed_layout m0 (cp_m cp) (c_pa (mk_cand x)) (cr_layout _ _ _ _ (ci_rel _ _ _ _ _ _ HI))) as Hml.
    destruct b; [by apply Hml|]. intros Hm. apply Hml in Hm as Hm'. specialize (Hbs Hm'). apply (overflow cp c p y n m1 bs j (c_pa (mk_cand x))); try done; [lia|unfold n; lia].
  - rewrite E. cbn [obind]. apply (IH cp' c' p'); [done|unfold n; lia|unfold n; lia].
  - rewrite E. cbn [obind]. right. by exists cp'.
Qed.
End copy.

(** ** The whole call *)

(** The range of [size] bytes from [start] on, in pages. *)
Definition first_page (start : Z) : Z := start / PGSIZE.
Definition end_page (start size : Z) : Z := (start + size + PGSIZE - 1) / PGSIZE.

Lemma vm_copy_spec e m c p ss own start size defer rb : World m (c :: p :: ss) own →
  (root c ≠ k_pagetable e ∨ k_pagetable e = 0) → 0 ≤ start → 0 < size →
  end_page start size * PGSIZE ≤ USER_MEMORY_TOP →
  let v := first_page start in let n := end_page start size in
  (∀ x d, v ≤ x < n → leaf p !! x = Some d → writable d = true → is_cow d = false) →
  (∀ x d, v ≤ x < n → leaf p !! x = Some d → ¬ managed m (PTE2PA d) →
    ∃ ws, frames m !! PTE2PA d = Some ws ∧ length ws = page_words) →
  (∀ rs, rb = Some rs → Forall range_ok rs) →
  (∃ cp c' p', vm_copy e m (root p) (root c) start size defer rb = Ret (cp, if parent_cow_changed cp then 1 else 0) ∧
     CInv m c p ss own v rb cp c' p' n n []) ∨
  (∃ cp, vm_copy e m (root p) (root c) start size defer rb = Ret (cp, -1) ∧
     copy_failed m c p ss own v n (cp_m cp) ∧ copy_refused m c p v n).
Proof.
  intros HW Hk Hst Hsz Htop v n Hcow Hfr Hrb. pose proof top_small.
  assert (start + size ≤ n * PGSIZE) as Hse.
  { unfold n, end_page, PGSIZE in *. pose proof (Z.div_mod (start + size + 4096 - 1) 4096). pose proof (Z.mod_pos_bound (start + size + 4096 - 1) 4096). lia. }
  unfold vm_copy. rewrite (proj2 (Z.eqb_neq size 0)), (u64_small (start + size)) by lia.
  rewrite PGROUNDDOWN_div, PGROUNDUP_div by lia. change (start / PGSIZE) with v.
  change ((start + size + PGSIZE - 1) / PGSIZE) with n.
  assert (0 ≤ v < n) as Hvn.
  { unfold v, n, first_page, end_page. split; [apply Z.div_pos; unfold PGSIZE; lia|].
    apply Z.lt_le_trans with ((start + PGSIZE) / PGSIZE); [|apply Z.div_le_mono; unfold PGSIZE; lia].
    rewrite <- (Z.mul_1_l PGSIZE) at 2. rewrite Z.div_add by done. lia. }
  rewrite (proj2 (Z.ltb_ge _ _)) by (unfold PGSIZE; lia).
  rewrite <- Z.mul_sub_distr_r, Z.div_mul by done.
  destruct (copy_loop_spec e m c p ss own v n rb HW Hk ltac:(lia) Htop Hcow Hfr Hrb (v * PGSIZE) defer (Z.to_nat (n - v))
    (mkCopy m false [] rb) c p v) as [H1|H1]; [by apply CInv_start|lia|lia|by left|by right].
Qed.

End VmmCopy.
