(* ===== verification/VmmFree.v ===== *)
(** * Freeing the tables of an address space

    [freewalk] gives every page of the page tables back and touches nothing else;
    the pages that are still mapped keep their references. *)
From S2P Require Import Prelude Page Buddy Pmm PmmSpec PageTable Vmm PtRep PtWalk VmmMap VmmFork.
Import Page Pmm PmmSpec PageTable Vmm PtRep PtWalk VmmMap VmmFork.

Module VmmFree.

(** ** Pages given back *)

(** The pages of [fs] are free again, the contents of those of [ts] may have changed. *)
Record Freed (m m' : Machine) (fs ts : list Z) : Prop := {
  fd_ok : PmmOk m';
  fd_layout : same_layout m m';
  fd_rc : ∀ a, rc m' a = if decide (a ∈ fs) then 0 else rc m a;
  fd_single : ∀ a, single m' a ↔ single m a ∧ a ∉ fs;
  fd_frames : ∀ a, a ∉ ts → frames m' !! a = frames m !! a
}.

Lemma Freed_refl m : PmmOk m → Freed m m [] [].
Proof.
  intros HO. split; [done|reflexivity|..].
  - intros a. by rewrite decide_False by apply not_elem_of_nil.
  - intros a. split; [|by intros [? _]]. intros ?. split; [done|apply not_elem_of_nil].
  - done.
Qed.

Lemma Freed_trans m1 m2 m3 fs1 fs2 ts1 ts2 : Freed m1 m2 fs1 ts1 → Freed m2 m3 fs2 ts2 → Freed m1 m3 (fs1 ++ fs2) (ts1 ++ ts2).
Proof.
  intros [_ Hl Hr Hs Hf] [HO Hl' Hr' Hs' Hf']. split; [done|by etrans|..].
  - intros a. rewrite Hr', Hr. repeat case_decide; rewrite ?elem_of_app, ?not_elem_of_app in *; tauto || done.
  - intros a. rewrite Hs', Hs, not_elem_of_app. tauto.
  - intros a [H1 H2]%not_elem_of_app. by rewrite Hf', Hf.
Qed.

Lemma Freed_proper m m' fs fs' ts ts' : (∀ a, a ∈ fs ↔ a ∈ fs') → (∀ a, a ∈ ts → a ∈ ts') → Freed m m' fs ts → Freed m m' fs' ts'.
Proof.
  intros E Et [HO Hl Hr Hs Hf]. split; [done|done|..].
  - intros a. rewrite Hr. apply decide_ext, E.
  - intros a. rewrite Hs. by rewrite E.
  - intros a Ha. apply Hf. auto.
Qed.

Lemma Freed_word m b i d : PmmOk m → managed m b → Freed m (set_word m b i d) [] [b].
Proof.
  intros HO Hb. split; [by apply set_word_ok|done|..].
  - intros a. by rewrite decide_False by apply not_elem_of_nil.
  - intros a. change (single (set_word m b i d) a) with (single m a). split; [|by intros [? _]]. intros ?. split; [done|apply not_elem_of_nil].
  - intros a Ha%not_elem_of_cons. apply frame_set_word_ne. apply Ha.
Qed.

(** A table: a page of its own with one reference. *)
Definition owned_page (m : Machine) (b : Z) : Prop := single m b ∧ rc m b = 1.

Lemma free_table m b : PmmOk m → owned_page m b → ∃ m', free_page m b = Ret m' ∧ Freed m m' [b] [].
Proof.
  intros HO [Hs Hr]. pose proof Hs as [Hm _]. destruct (managed_range m b HO Hm) as (? & ? & Hal).
  pose proof (free_page_spec m b HO Hal ltac:(unfold PGSIZE in *; lia) ltac:(by right)) as Hf. rewrite decide_True in Hf by done.
  destruct Hf as (m' & E & [[HO' Hl Hrc] Hsi Hfr _]). exists m'. split; [done|]. split; [done|done|..].
  - intros a. rewrite Hrc. rewrite Hr. destruct (decide (a = b)) as [->|Hne].
    + by rewrite decide_True by (by left).
    + by rewrite decide_False by (by rewrite list_elem_of_singleton).
  - intros a. rewrite Hsi, list_elem_of_singleton, Hr. split; intros [? Hx]; (split; [done|]); [intros ->; specialize (Hx eq_refl); lia|done].
  - intros a _. by rewrite Hfr.
Qed.

(** Two machines agree on some pages. *)
Definition agree (m m' : Machine) (ts : list Z) : Prop :=
  same_layout m m' ∧ ∀ a, a ∈ ts → frames m' !! a = frames m !! a ∧ (owned_page m a → owned_page m' a).

Lemma Freed_agree m m' fs ts us : Freed m m' fs ts → (∀ a, a ∈ us → a ∉ fs ∧ a ∉ ts) → agree m m' us.
Proof.
  intros [HO Hl Hr Hs Hf] Hd. split; [done|]. intros a Ha. destruct (Hd a Ha) as [H1 H2]. split; [by apply Hf|]. intros [H3 H4].
  split; [by apply Hs|]. by rewrite Hr, decide_False.
Qed.

Lemma agree_word m m' ts b i : agree m m' ts → b ∈ ts → word m' b i = word m b i.
Proof. intros [_ H] Hb. destruct (H b Hb) as [E _]. unfold word, frame. by rewrite E. Qed.

(** One turn of the loop of [freewalk]. *)
Definition free_entry (n : nat) (b i : Z) (m : Machine) : outcome Machine :=
  let! valid := is_valid m (get_pte b i) in
  if negb valid then Ret m else
  let! leaf := is_leaf m (get_pte b i) in
  if (leaf : bool) then Ret m else
  let! d := get_data m (get_pte b i) in
  let! m := freewalk n m (PTE2PA d) in
  reset_pte_data m b i.

Lemma freewalk_eq n m b : freewalk (S n) m b = let! m := for_up (free_entry n b) 0 512 m in free_page m b.
Proof. reflexivity. Qed.

Lemma get_pte_slot m b i : PmmOk m → managed m b → 0 ≤ i < 512 → get_pte b i = slot b i.
Proof. intros HO Hm Hi. by destruct (slot_spec m b i HO Hm Hi) as (_ & _ & _ & _ & E). Qed.

Lemma reset_slot m b i : PmmOk m → managed m b → 0 ≤ i < 512 → reset_pte_data m b i = Ret (set_word m b i 0).
Proof.
  intros HO Hm Hi. unfold reset_pte_data. rewrite (get_pte_slot m) by done. rewrite <- (set_slot m b i HO Hm Hi 0).
  unfold set_data. by destruct (slot_spec m b i HO Hm Hi) as (-> & _).
Qed.

(** ** The lowest tables *)

(** An entry that [freewalk] does not descend into. *)
Definition no_table (d : Z) : Prop := Z.testbit d 0 = false ∨ flags_of d ≠ pte_valid_m.

Lemma freewalk_low n m b : PmmOk m → owned_page m b → (∀ j, 0 ≤ j < 512 → no_table (word m b j)) →
  ∃ m', freewalk (S n) m b = Ret m' ∧ Freed m m' [b] [].
Proof.
  intros HO Hb Hno. pose proof Hb as [[Hm _] _]. rewrite freewalk_eq.
  destruct (for_up_inv (free_entry n b) (λ _ s, s = m) 0 512 m) as (m1 & -> & ->); [lia|done| |by apply free_table].
  intros j s Hj ->. exists m. split; [|done]. unfold free_entry. rewrite (get_pte_slot m), valid_slot by done. cbn [obind].
  destruct (Hno j Hj) as [->|Hf]; [done|]. destruct (Z.testbit (word m b j) 0); [|done]. cbn [negb].
  unfold is_leaf. rewrite flags_slot by done. cbn [obind]. change (Z.land (word m b j) 0x3ff) with (flags_of (word m b j)).
  by rewrite (proj2 (Z.eqb_neq _ _)) by done.
Qed.

(** ** Directories *)

Section directory.
Context (n : nat) (m : Machine) (b : Z) (cs : Z → option Z) (sub : Z → Z → list Z).
Context (HO : PmmOk m) (Hb : owned_page m b) (Hw : ∀ i, 0 ≤ i < 512 → word m b i = dir (cs i)).

(** The tables below the first [k] entries. *)
Definition below (k : Z) : list Z := flat_map (λ i, match cs i with Some c => sub i c | None => [] end) (seqZ 0 k).

Context (Hnb : b ∉ below 512) (Hnd : ∀ i j c d, 0 ≤ i < j → j < 512 → cs i = Some c → cs j = Some d → ∀ a, a ∈ sub i c → a ∉ sub j d).
Context (Hsub : ∀ i c m1, 0 ≤ i < 512 → cs i = Some c → PmmOk m1 → agree m m1 (sub i c) →
  ∃ m2, freewalk n m1 c = Ret m2 ∧ Freed m1 m2 (sub i c) (sub i c)).
Context (Hc : ∀ i c, 0 ≤ i < 512 → cs i = Some c → managed m c).

Lemma below_in k a : a ∈ below k ↔ ∃ i c, 0 ≤ i < k ∧ cs i = Some c ∧ a ∈ sub i c.
Proof using.
  unfold below. rewrite elem_of_flat_map. setoid_rewrite elem_of_seqZ. split.
  - intros (i & Hi & Ha). destruct (cs i) as [c|] eqn:E; [|by apply not_elem_of_nil in Ha]. exists i, c. split_and!; (done || lia).
  - intros (i & c & Hi & E & Ha). exists i. rewrite E. split; [|done]. lia.
Qed.

(** The state after the first [k] entries: their tables are free and the entries
    from [k] on are as they were. *)
Definition partly (k : Z) (s : Machine) : Prop :=
  Freed m s (below k) (b :: below k) ∧ ∀ i, k ≤ i < 512 → word s b i = dir (cs i).

Lemma directory_step k s : 0 ≤ k < 512 → partly k s → ∃ s', free_entry n b k s = Ret s' ∧ partly (k + 1) s'.
Proof using HO Hb Hw Hnb Hnd Hsub Hc.
  intros Hk [HF Hws]. pose proof Hb as [[Hm _] _]. pose proof (fd_ok _ _ _ _ HF) as HOs.
  assert (managed s b) as Hms by (by apply (managed_layout m s _ (fd_layout _ _ _ _ HF))).
  assert (∀ l : list Z, (∀ a, a ∈ l ↔ a ∈ below k ∨ ∃ c, cs k = Some c ∧ a ∈ sub k c) → ∀ a, a ∈ l ↔ a ∈ below (k + 1)) as Hnext.
  { intros l Hl' a. rewrite Hl', !below_in. split.
    - intros [(i & c & ? & ? & ?)|(c & ? & ?)]; [exists i, c|exists k, c]; split_and!; (done || lia).
    - intros (i & c & Hi & E & Ha). destruct (decide (i = k)) as [->|]; [right; eauto|left; exists i, c; split_and!; (done || lia)]. }
  unfold free_entry. rewrite (get_pte_slot s), valid_slot, Hws by (done || lia). cbn [obind].
  destruct (cs k) as [c|] eqn:Ek; cycle 1.
  { exists s. split; [done|]. split; [|intros; apply Hws; lia].
    assert (∀ a, a ∈ below k ↔ a ∈ below (k + 1)) as Hsame by (apply Hnext; intros a; split; [by left|by intros [?|(? & ? & _)]]).
    apply (Freed_proper m s (below k) _ (b :: below k)); [done| |done]. intros a. rewrite !elem_of_cons, Hsame. done. }
  destruct (managed_range m c HO (Hc k c Hk Ek)) as (? & ? & Hal). destruct (dir_some c Hal ltac:(unfold PGSIZE in *; lia)) as (Ed1 & Ed2 & Ed3).
  rewrite Ed2. cbn [negb]. unfold is_leaf. rewrite flags_slot, Hws by (done || lia). cbn [obind]. rewrite Ek, Ed3. cbn [Z.eqb negb Pos.eqb pte_valid_m].
  rewrite get_slot, Hws, Ek by (done || lia). cbn [obind]. rewrite Ed1.
  assert (∀ a, a ∈ sub k c → a ∉ below k ∧ a ∉ b :: below k) as Hdis.
  { intros a Ha. assert (a ∉ below k) as Hn by (rewrite below_in; intros (i & c' & Hi & Ei & Ha'); by apply (Hnd i k c' c ltac:(lia) ltac:(lia) Ei Ek a)).
    split; [done|]. apply not_elem_of_cons. split; [|done]. intros ->. apply Hnb. rewrite below_in. exists k, c. split_and!; (done || lia). }
  destruct (Hsub k c s Hk Ek HOs (Freed_agree m s _ _ _ HF Hdis)) as (s2 & -> & HF2). cbn [obind]. pose proof (fd_ok _ _ _ _ HF2) as HO2.
  assert (managed s2 b) as Hm2 by (by apply (managed_layout s s2 _ (fd_layout _ _ _ _ HF2))).
  rewrite reset_slot by done. eexists. split; [done|]. pose proof (Freed_word s2 b k 0 HO2 Hm2) as HF3. split.
  - refine (Freed_proper m _ _ _ _ _ _ _ (Freed_trans _ _ _ _ _ _ _ HF (Freed_trans _ _ _ _ _ _ _ HF2 HF3))).
    + apply Hnext. intros a. rewrite app_nil_r, elem_of_app. split; (intros [?|Hx]; [by left|right]); [eauto|]. destruct Hx as (? & [= <-] & ?). done.
    + assert (∀ a, a ∈ below k ∨ a ∈ sub k c → a ∈ below (k + 1)) as Hb1.
      { intros a. rewrite !below_in. intros [(i & c' & ? & ? & ?)|?]; [exists i, c'|exists k, c]; split_and!; (done || lia). }
      intros a. rewrite !elem_of_app, !elem_of_cons. intros [[->|?]|[?|[->|?%not_elem_of_nil]]]; auto || done.
  - intros i Hi. rewrite word_set_word, decide_False by (done || lia). rewrite <- Hws by lia. unfold word, frame.
    rewrite (fd_frames _ _ _ _ HF2); [done|]. intros Hin. apply Hnb. rewrite below_in. exists k, c. split_and!; (done || lia).
Qed.

Lemma freewalk_dir : ∃ m', freewalk (S n) m b = Ret m' ∧ Freed m m' (b :: below 512) (b :: below 512).
Proof using HO Hb Hw Hnb Hnd Hsub Hc.
  rewrite freewalk_eq. destruct (for_up_inv (free_entry n b) partly 0 512 m) as (m1 & -> & [HF1 _]); [lia| |by apply directory_step|].
  { split; [|intros; by apply Hw]. apply (Freed_proper m m [] _ [] _); [by intros|by intros a ?%not_elem_of_nil|by apply Freed_refl]. }
  cbn [obind]. destruct (free_table m1 b) as (m2 & -> & HF2).
  { apply HF1. }
  { destruct Hb as [Hs Hr]. split; [by apply (fd_single _ _ _ _ HF1)|]. by rewrite (fd_rc _ _ _ _ HF1), decide_False. }
  exists m2. split; [done|]. apply (Freed_proper m m2 (below 512 ++ [b]) _ ((b :: below 512) ++ [])).
  - intros a. rewrite elem_of_app, list_elem_of_singleton, elem_of_cons. tauto.
  - intros a. by rewrite app_nil_r.
  - by apply (Freed_trans m m1).
Qed.
End directory.

(** ** An address space *)

Lemma agree_sub m m1 m2 ts us : agree m m1 ts → agree m1 m2 us → (∀ a, a ∈ us → a ∈ ts) → agree m m2 us.
Proof.
  intros [Hl H] [Hl' H'] Hs. split; [by etrans|]. intros a Ha. destruct (H a (Hs a Ha)) as [E1 E2], (H' a Ha) as [E3 E4].
  split; [congruence|auto].
Qed.

Section space.
Context (m : Machine) (sp : Space) (ss : list Space) (own : Z → Z) (HW : World m (sp :: ss) own).
Context (Hleaf : ∀ v d, leaf sp !! v = Some d → flags_of d ≠ pte_valid_m).

Lemma table_owned b : b ∈ tables sp → owned_page m b.
Proof using HW.
  intros Hb. destruct (w_table _ _ _ HW b (tables_in sp _ b ltac:(by left) Hb)) as (? & ? & _). done.
Qed.

Lemma space_tables : Tables m sp.
Proof using HW. apply (w_tables _ _ _ HW). by left. Qed.

Lemma free_low k c m1 : low sp !! k = Some c → PmmOk m1 → agree m m1 [c] → ∃ m2, freewalk 1 m1 c = Ret m2 ∧ Freed m1 m2 [c] [c].
Proof using HW Hleaf.
  intros Ek HO1 Hag. assert (c ∈ [c]) as Hc by (by left).
  destruct (freewalk_low 0 m1 c HO1) as (m2 & E & HF); [apply (proj2 Hag c Hc), table_owned; eauto with kernel| |].
  - intros j Hj. rewrite (agree_word m m1 [c]) by done. destruct (t_low _ _ space_tables k c Ek) as (_ & _ & Hw). rewrite Hw by done.
    destruct (leaf sp !! (k * 512 + j)) as [d|] eqn:Ed; [right; by apply (Hleaf _ d Ed)|by left].
  - exists m2. split; [done|]. apply (Freed_proper m1 m2 [c] _ [] _); [done|by intros ? ?%not_elem_of_nil|done].
Qed.

(** The tables below entry [i] of the root table. *)
Definition lows (i : Z) : list Z := below (λ j, low sp !! (i * 512 + j)) (λ _ c, [c]) 512.

Lemma lows_in i a : a ∈ lows i ↔ ∃ j, 0 ≤ j < 512 ∧ low sp !! (i * 512 + j) = Some a.
Proof using.
  unfold lows. rewrite below_in. split.
  - intros (j & c & Hj & E & ->%list_elem_of_singleton). eauto.
  - intros (j & Hj & E). exists j, a. split_and!; [lia..|done|by left].
Qed.

Lemma free_mid i c m1 : mid sp !! i = Some c → PmmOk m1 → agree m m1 (c :: lows i) →
  ∃ m2, freewalk 2 m1 c = Ret m2 ∧ Freed m1 m2 (c :: lows i) (c :: lows i).
Proof using HW Hleaf.
  intros Ei HO1 Hag. destruct (tables_distinct sp (proj1 (world_nodup _ _ _ _ HW))) as (_ & _ & Hml & _ & Hll).
  assert (∀ a, a ∈ c :: lows i → owned_page m1 a) as Hown.
  { intros a Ha. apply (proj2 Hag a Ha), table_owned. apply elem_of_cons in Ha as [->|(j & _ & E)%lows_in]; [by eapply mid_in|eauto with kernel]. }
  apply (freewalk_dir 1 m1 c (λ j, low sp !! (i * 512 + j)) (λ _ c, [c])); [done|apply Hown; by left|..].
  - intros j Hj. rewrite (agree_word m m1 (c :: lows i)) by (done || by left). by apply (t_mid _ _ space_tables i c Ei).
  - intros (j & _ & E)%lows_in. by apply (Hml i _ c Ei E).
  - intros j j' c1 c2 Hj Hj' E1 E2 a ->%list_elem_of_singleton ->%list_elem_of_singleton. pose proof (Hll _ _ _ E1 E2). lia.
  - intros j c1 m2 Hj E HO2 Hag2. apply (free_low _ _ _ E HO2). apply (agree_sub m m1 m2 _ _ Hag Hag2).
    intros a ->%list_elem_of_singleton. right. apply lows_in. eauto.
  - intros j c1 Hj E. apply (Hown c1). right. apply lows_in. eauto.
Qed.

Lemma tables_below a : a ∈ root sp :: below (λ i, mid sp !! i) (λ i c, c :: lows i) 512 ↔ a ∈ tables sp.
Proof using HW.
  unfold tables. rewrite !elem_of_cons, below_in, elem_of_app, !elem_of_vals. split.
  - intros [->|(i & c & Hi & E & [->|(j & _ & E')%lows_in]%elem_of_cons)]; eauto.
  - intros [->|[(i & E)|(k & E)]]; [by left|right..].
    + destruct (t_mid _ _ space_tables i a E) as [Hi _]. exists i, a. split_and!; [lia..|done|by left].
    + destruct (t_low _ _ space_tables k a E) as (Hk & [c Ec] & _). exists (k / 512), c.
      pose proof (Z.mod_pos_bound k 512 ltac:(lia)). pose proof (Z.div_mod k 512 ltac:(lia)).
      split_and!; [apply Z.div_pos; lia|apply Z.div_lt_upper_bound; lia|done|]. right. apply lows_in. exists (k mod 512).
      split; [done|]. by replace (k / 512 * 512 + k mod 512) with k by lia.
Qed.

Lemma freewalk_spec : ∃ m', freewalk 3 m (root sp) = Ret m' ∧ Freed m m' (tables sp) (tables sp).
Proof using HW Hleaf.
  destruct (tables_distinct sp (proj1 (world_nodup _ _ _ _ HW))) as (Hrm & Hrl & Hml & Hmm & Hll).
  destruct (freewalk_dir 2 m (root sp) (λ i, mid sp !! i) (λ i c, c :: lows i)) as (m' & E & HF); [apply HW|apply table_owned, root_in|..].
  - intros i Hi. by apply (t_root _ _ space_tables).
  - rewrite below_in. intros (i & c & _ & E & [Eq|(j & _ & E')%lows_in]%elem_of_cons); [apply (Hrm i); congruence|by apply (Hrl _ E')].
  - intros i j c d Hij Hj Ei Ej a [->|(x & Hx & Ex)%lows_in]%elem_of_cons [Eq|(y & Hy & Ey)%lows_in]%elem_of_cons.
    + subst. pose proof (Hmm _ _ _ Ei Ej). lia.
    + by apply (Hml _ _ _ Ei Ey).
    + subst. by apply (Hml _ _ _ Ej Ex).
    + pose proof (Hll _ _ _ Ex Ey). lia.
  - intros i c m1 _ Ei HO1 Hag. by apply (free_mid i c).
  - intros i c _ Ei. apply (table_managed _ _ _ HW). apply (tables_in sp); [by left|by eapply mid_in].
  - exists m'. split; [done|]. refine (Freed_proper m m' _ _ _ _ tables_below _ HF). intros a. apply tables_below.
Qed.
End space.

(** The other address spaces stay; the pages still mapped keep their references,
    which nobody will give back. *)
Lemma World_freed m m' sp ss own : World m (sp :: ss) own → Freed m m' (tables sp) (tables sp) →
  World m' ss (λ a, own a + occ a (pages sp)).
Proof.
  intros HW [HO Hl Hr Hs Hf]. destruct (world_nodup _ _ _ _ HW) as [_ Hd].
  assert (∀ b, b ∈ all_tables ss → b ∉ tables sp ∧ b ∈ all_tables (sp :: ss)) as Ht.
  { intros b Hb. split; [|rewrite all_tables_cons; apply elem_of_app; by right].
    apply elem_of_flat_map in Hb as (s & Hs' & Hb). intros Hb'. by apply (Hd s Hs' b). }
  assert (∀ a, a ∈ tables sp ∨ a ∈ all_tables ss → occ a (pages sp) = 0 ∧ occ a (all_pages ss) = 0) as Hocc.
  { intros a Ha. assert (a ∈ all_tables (sp :: ss)) as Ha' by (rewrite all_tables_cons; by apply elem_of_app).
    pose proof (table_not_page _ _ _ HW a Ha') as Hn. rewrite <- occ_pos, all_pages_cons, occ_app in Hn.
    pose proof (occ_nonneg a (pages sp)). pose proof (occ_nonneg a (all_pages ss)). lia. }
  assert (∀ a, managed m' a ↔ managed m a) as Hman by (intros a; by apply (managed_layout m)).
  split.
  - done.
  - intros s Hs'. apply (Tables_frames m m' s); [|by apply (w_tables _ _ _ HW); right]. intros b Hb. apply Hf. by apply Ht, (tables_in s).
  - pose proof (w_nodup _ _ _ HW) as Hnd. rewrite all_tables_cons in Hnd. by apply NoDup_app in Hnd as (_ & _ & ?).
  - intros b Hb. destruct (Ht b Hb) as [Hn Hb']. destruct (w_table _ _ _ HW b Hb') as (? & ? & ?). split_and!.
    + by apply Hs.
    + by rewrite Hr, decide_False.
    + rewrite (proj1 (Hocc b (or_intror Hb))). lia.
  - intros a Ha Hm. apply Hman in Hm. assert (a ∈ all_pages (sp :: ss)) as Ha' by (rewrite all_pages_cons; apply elem_of_app; by right).
    destruct (w_page _ _ _ HW a Ha' Hm) as [H1 H2]. rewrite all_tables_cons, not_elem_of_app in H2. split; [apply Hs; tauto|tauto].
  - intros a Hm. apply Hman in Hm. pose proof (w_own _ _ _ HW a Hm). pose proof (occ_nonneg a (pages sp)). lia.
  - intros a Hm Hn. apply Hman in Hm. rewrite Hr. case_decide as Hin.
    + destruct (Hocc a (or_introl Hin)) as [-> ->]. destruct (w_table _ _ _ HW a) as (_ & _ & ->); [rewrite all_tables_cons; apply elem_of_app; by left|done].
    + rewrite (w_rc _ _ _ HW) by (done || rewrite all_tables_cons, not_elem_of_app; tauto). rewrite all_pages_cons, occ_app. lia.
Qed.

End VmmFree.
