(* ===== verification/VmmCow.v ===== *)
(** * Resolving a copy-on-write page

    [resolve_cow_page] makes a shared page writable: in place if nobody else
    refers to it, otherwise in a copy of its own. *)
From S2P Require Import Prelude Page Buddy Pmm PmmSpec PageTable Vmm PtRep PtWalk VmmMap VmmUnmap VmmAlloc VmmFork.
Import Page Pmm PmmSpec PageTable Vmm PtRep PtWalk VmmMap VmmUnmap VmmAlloc VmmFork.

Module VmmCow.

(** ** The new entry *)

Definition is_user_entry (d : Z) : bool := Z.testbit d 4.

Definition new_entry (d pa : Z) : Z :=
  Z.lor (Z.lor (PA2PTE (PGROUNDDOWN pa)) (Z.land (Z.lor (flags_of d) pte_writable_m) (not64 k_riscv_pte_cow))) pte_valid_m.

(** The same flags, with write permission instead of the copy-on-write mark. *)
Definition unshared_flags (d nd : Z) : Prop :=
  ∀ n, 0 ≤ n < 10 → Z.testbit nd n = if decide (n = 2) then true else if decide (n = 8) then false else Z.testbit d n.

Lemma new_entry_spec d pa : leaf_ok d → page_aligned pa → 0 ≤ pa < 2 ^ 48 →
  leaf_ok (new_entry d pa) ∧ PTE2PA (new_entry d pa) = pa ∧ unshared_flags d (new_entry d pa).
Proof.
  intros [Hd Hv] Hal Hpa. destruct (flags_of_spec d) as [Hf Hfb]. unfold new_entry. rewrite PGROUNDDOWN_aligned by (done || lia).
  change (Z.land _ _) with (uncow (flags_of d)). destruct (uncow_spec (flags_of d) ltac:(lia)) as (Hr & _ & Hb).
  assert (0 ≤ uncow (flags_of d) < 2 ^ 10) as Hu.
  { unfold uncow, not64. assert (0 ≤ Z.lor (flags_of d) pte_writable_m < 2 ^ 10) as Ho by (apply lor_flags; unfold pte_writable_m; lia).
    rewrite land_not64 by lia. split; [apply Z.ldiff_nonneg; lia|].
    assert (Z.ldiff (Z.lor (flags_of d) pte_writable_m) k_riscv_pte_cow ≤ Z.lor (flags_of d) pte_writable_m); [|lia].
    apply Z.ldiff_le; [lia|]. apply Z.bits_inj'. intros n Hn. rewrite Z.bits_0, !Z.ldiff_spec.
    by destruct (Z.testbit (Z.lor _ _) n); rewrite ?andb_false_r. }
  rewrite <- Z.lor_assoc. destruct (pte_join pa (Z.lor (uncow (flags_of d)) pte_valid_m) Hal Hpa) as (H1 & H2 & _ & H3);
    [apply lor_flags; unfold pte_valid_m; lia|].
  assert (unshared_flags d (Z.lor (PA2PTE pa) (Z.lor (uncow (flags_of d)) pte_valid_m))) as Hun.
  { intros n Hn. rewrite H3, Z.lor_spec, Hb by lia. change pte_valid_m with (2 ^ 0). rewrite testbit_pow2 by lia.
    case_bool_decide as E; [subst n; rewrite orb_true_r; by repeat case_decide|]. rewrite orb_false_r, Hfb by lia. done. }
  split; [|done]. split; [done|]. by rewrite (Hun 0) by lia.
Qed.

Lemma new_entry_same d : leaf_ok d → new_entry d (PTE2PA d) = uncow d.
Proof.
  intros [Hd Hv]. destruct (PTE2PA_range d Hd) as [Hal Hpa].
  destruct (new_entry_spec d (PTE2PA d) (conj Hd Hv) Hal Hpa) as ([Hr _] & Ep & Hb).
  destruct (uncow_spec d Hd) as (Hr' & Ep' & Hb'). apply Z.bits_inj'. intros n Hn.
  destruct (Z.lt_ge_cases n 10) as [Hlt|Hge]; [rewrite Hb, Hb' by lia; done|].
  assert (∀ x, 0 ≤ x < 2 ^ 46 → Z.testbit x n = Z.testbit (PTE2PA x / 2 ^ 12) (n - 10)) as Hx.
  { intros x Hxr. rewrite PTE2PA_small, Z.div_mul by done. rewrite Z.div_pow2_bits by lia. f_equal. lia. }
  rewrite (Hx (new_entry d (PTE2PA d))), (Hx (uncow d)) by done. by rewrite Ep, Ep'.
Qed.

(** ** The page is resolved *)

Record Resolved (m m' : Machine) (sp : Space) (ss : list Space) (own' : Z → Z) (v d nd : Z) : Prop := {
  rs_world : World m' (put_leaf sp v (Some nd) :: ss) own';
  rs_layout : same_layout m m';
  rs_flags : unshared_flags d nd;
  rs_page : frames m' !! PTE2PA nd = frames m !! PTE2PA d;
  rs_rc : ∀ a, 0 < rc m a → a ≠ PTE2PA d → rc m' a = rc m a;
  rs_frames : ∀ a, (managed m a → 0 < rc m a) → a ∉ tables sp → frames m' !! a = frames m !! a
}.

(** The area's overlay holds the page at its index, with a reference of its own. *)
Definition owned_by_area (area : CowArea) (pa : Z) : bool :=
  object_private_mapping area &&
  match private_page_overlay area with
  | Some o => bool_decide (o !! cow_page_index area = Some pa)
  | None => false
  end.

(** Nobody else refers to the page. *)
Definition alone (m : Machine) (area : CowArea) (pa : Z) : bool :=
  (negb (object_private_mapping area) && (rc m pa =? 1)) ||
  (object_private_mapping area && owned_by_area area pa && (rc m pa <=? 2)).

Lemma ref_count_spec m pa : PmmOk m → page_aligned pa → 0 ≤ pa < 2 ^ 64 → page_ref_count m pa = Ret (rc m pa).
Proof.
  intros HO Hal Hpa. unfold page_ref_count. destruct (decide (managed m pa)) as [Hm|Hm].
  - rewrite pa2pgnm_managed by done. cbn [obind]. by rewrite in_range_managed, get_ref by done.
  - destruct (pa2pgnm_unmanaged m pa HO Hal Hpa Hm) as (i & -> & Hi). cbn [obind]. by rewrite Hi, rc_unmanaged.
Qed.

(** Making an entry writable in place. *)
Lemma resolve_in_place m sp ss own v d b : World m (sp :: ss) own → leaf sp !! v = Some d →
  low sp !! (v / 512) = Some b → Resolved m (set_word m b (v mod 512) (uncow d)) sp ss own v d (uncow d).
Proof.
  intros HW Ed Eb. pose proof (leaf_data _ _ _ _ HW ltac:(by left) v d Ed) as Hd.
  destruct (uncow_spec d (proj1 Hd)) as (_ & Ep & Hb).
  assert (b ∈ all_tables (sp :: ss)) as Hbt by (apply (tables_in sp); [by left|eauto with kernel]).
  split; [|done| | |done|].
  - apply (World_flags m sp ss own v b d); [done..|by apply uncow_ok|done].
  - intros n Hn. apply Hb. lia.
  - rewrite Ep. apply frame_set_word_ne. intros <-. apply (table_not_page _ _ _ HW _ Hbt).
    apply (leaf_in sp _ v); [by left|done].
  - intros a _ Hn. apply frame_set_word_ne. intros ->. apply Hn. eauto with kernel.
Qed.

(** The entry moves from page [PTE2PA d] to the page [new], unused in [m], that has
    its contents in [m2]; the reference to the old page is left with the caller. *)
Lemma resolve_copy m m2 sp ss own ow v d b new : World m (sp :: ss) own → leaf sp !! v = Some d →
  low sp !! (v / 512) = Some b → managed m new → rc m new = 0 → same_layout m m2 → single m2 new →
  frames m2 !! new = frames m !! PTE2PA d → (∀ a, a ≠ new → frames m2 !! a = frames m !! a) →
  (∀ a, 0 < rc m a → a ≠ PTE2PA d → rc m2 a = rc m a) →
  World m2 (sp :: ss) ow → 0 < ow new → (∀ a, managed m a → 0 ≤ ow a) →
  Resolved m (set_word m2 b (v mod 512) (new_entry d new)) sp ss
    (λ a, ow a + occ a [PTE2PA d] - occ a [new]) v d (new_entry d new).
Proof.
  intros HW Ed Eb Hnm Hnu Hl Hs Hf Hfo Hr HW2 How Hnn. destruct (unused_page _ _ _ HW new Hnm Hnu) as (Hnt & _ & _).
  pose proof (leaf_data _ _ _ _ HW ltac:(by left) v d Ed) as Hd.
  destruct (managed_range m new (w_ok _ _ _ HW) Hnm) as (? & ? & Hal).
  destruct (new_entry_spec d new Hd Hal ltac:(unfold PGSIZE in *; lia)) as (Hok & Ep & Hfl).
  assert (b ∈ all_tables (sp :: ss)) as Hbt by (apply (tables_in sp); [by left|eauto with kernel]).
  split; [|done|done|..].
  - refine (World_put m2 sp ss ow _ v b (Some (new_entry d new)) HW2 Eb _ _).
    + intros d' [= <-]. split; [done|]. rewrite Ep. intros _. done.
    + intros a Ha. rewrite Ed. cbn [pg]. rewrite Ep. split; [done|]. apply (managed_layout m) in Ha; [|done].
      specialize (Hnn a Ha). pose proof (occ_nonneg a [PTE2PA d]). rewrite (occ_cons a new), occ_nil.
      case_decide; [subst|]; lia.
  - by rewrite Ep, frame_set_word_ne by congruence.
  - intros a Ha Hne. change (rc m2 a = rc m a). by apply Hr.
  - intros a Ha Hn. rewrite frame_set_word_ne by (intros ->; apply Hn; eauto with kernel).
    apply Hfo. intros ->. specialize (Ha Hnm). lia.
Qed.

(** Dropping the reference to the old page. *)
Lemma resolve_drop m m1 sp ss own v d nd : PmmOk m → Resolved m m1 sp ss own v d nd → managed m (PTE2PA d) →
  single m1 (PTE2PA d) → 0 < own (PTE2PA d) →
  ∃ m2, free_page m1 (PTE2PA d) = Ret m2 ∧ Resolved m m2 sp ss (add_own own (PTE2PA d) (-1)) v d nd ∧
    ∀ a, a ≠ PTE2PA d → rc m2 a = rc m1 a.
Proof.
  intros HO [HW Hl Hfl Hpg Hrc Hfr] Hm Hs Ho.
  destruct (World_free m1 _ own (PTE2PA d) HW) as (m2 & E & [[HO2 Hl2 Hr2] _ Hf2 _] & HW2); [by apply (managed_layout m)|done..|].
  exists m2. split; [done|]. split; [|intros a Hne; by rewrite Hr2, decide_False].
  split; [done|by etrans|done|by rewrite Hf2| |].
  - intros a Ha Hne. rewrite Hr2, decide_False by done. by apply Hrc.
  - intros a. rewrite Hf2. apply Hfr.
Qed.

Lemma Resolved_own m m' sp ss own own' v d nd : Resolved m m' sp ss own v d nd →
  (∀ a, managed m a → own' a = own a) → Resolved m m' sp ss own' v d nd.
Proof.
  intros [HW Hl Hfl Hpg Hrc Hfr] Ho. split; try done. apply (World_own _ _ _ _ HW).
  intros a Ha. apply Ho. by apply (managed_layout m m').
Qed.

Lemma Resolved_emit m m' sp ss own v d nd ev : Resolved m m' sp ss own v d nd → Resolved m (emit m' ev) sp ss own v d nd.
Proof. intros [HW Hl Hfl Hpg Hrc Hfr]. split; [by apply World_emit|exact Hl|exact Hfl|exact Hpg|exact Hrc|exact Hfr]. Qed.

(** ** [resolve_cow_page] *)

Section resolve.
Context (e : Env) (m : Machine) (sp : Space) (ss : list Space) (own : Z → Z) (va : Z) (area : CowArea) (new_overlay : bool).
Context (HW : World m (sp :: ss) own) (Hva : 0 ≤ va < 2 ^ 39).

Local Abbreviation v := (va / PGSIZE).

Lemma page_of : PGROUNDDOWN va = v * PGSIZE ∧ vpn (PGROUNDDOWN va) = v ∧ 0 ≤ v < 2 ^ 27.
Proof using Hva.
  assert (0 ≤ v < 2 ^ 27) as Hv by (split; [apply Z.div_pos; unfold PGSIZE; lia|apply Z.div_lt_upper_bound; unfold PGSIZE; lia]).
  rewrite PGROUNDDOWN_div by lia. split; [done|]. split; [by apply vpn_page|done].
Qed.

(** Entries that are not a user's copy-on-write entry for a managed page. *)
Lemma resolve_refused :
  (∀ d, leaf sp !! v = Some d → is_user_entry d = false ∨ is_cow d = false ∨ ¬ managed m (PTE2PA d)) →
  resolve_cow_page e m (root sp) va area new_overlay = Ret (m, area, -1).
Proof using HW Hva.
  intros Hno. destruct page_of as (E1 & E2 & Hv). assert (sp ∈ sp :: ss) as Hin by (by left).
  pose proof (Z.mod_pos_bound v 512 ltac:(lia)) as Hvm. pose proof (w_ok _ _ _ HW) as HO.
  unfold resolve_cow_page. destruct (low sp !! (v / 512)) as [b|] eqn:Eb.
  2: { rewrite (walk_missing _ _ _ _ HW Hin) by (by rewrite E2). done. }
  pose proof (low_managed _ _ _ _ HW Hin _ b Eb) as Hbm. pose proof (word_leaf _ _ _ _ HW Hin v b Eb) as Ew.
  rewrite (walk_found _ _ _ _ HW Hin _ _ b) by (by rewrite E2). cbn [obind]. rewrite E2.
  rewrite (slot_not_null m), valid_slot, user_slot by done. cbn [obind]. unfold pte_is_cow.
  rewrite (slot_not_null m), valid_slot, get_slot, Ew by done. cbn [obind].
  destruct (leaf sp !! v) as [d|] eqn:Ed; [|done]. change (default 0 (Some d)) with d.
  pose proof (leaf_data _ _ _ _ HW Hin v d Ed) as [Hd Hd0]. rewrite Hd0. cbn [negb orb].
  change k_riscv_pte_cow with (2 ^ 8) at 1. rewrite land_bit by lia. cbn [obind].
  change (Z.testbit d 4) with (is_user_entry d). change (Z.testbit d 8) with (is_cow d).
  destruct (Hno d eq_refl) as [->|[->|Hm]]; [done|by rewrite orb_true_r|].
  destruct (negb (is_user_entry d) || negb (is_cow d)); [done|]. rewrite pa_slot, Ew by done. cbn [obind].
  change (default 0 (Some d)) with d. destruct (PTE2PA_range d Hd). rewrite is_managed_page_spec, bool_decide_eq_false_2 by (done || lia). done.
Qed.
(** The path that needs a page of its own. *)
Definition resolve_rest (b d : Z) : outcome (Machine * CowArea * Z) :=
  let! (m, new_page) := try_alloc_page_uninitialized m in
  if new_page =? nullptr then Ret (m, area, -1) else
  let! m := copy_page m new_page (PTE2PA d) in
  let! (m, area, ok) := (if object_private_mapping area then
      if negb (bool_decide (is_Some (private_page_overlay area))) && negb new_overlay then
        let! m := free_page m new_page in Ret (m, area, false)
      else
      let o := default ∅ (private_page_overlay area) in
      let! (m, kept) := retain_page m new_page in
      if negb kept then
        let! m := free_page m new_page in
        Ret (m, mkCowArea true (cow_page_index area) (Some o), false)
      else
        let! m := (if owned_by_area area (PTE2PA d) then free_page m (PTE2PA d) else Ret m) in
        Ret (m, mkCowArea true (cow_page_index area)
          (Some (<[cow_page_index area := virt_to_phy_address new_page]> o)), true)
    else Ret (m, area, true)) in
  if negb ok then Ret (m, area, -1) else
  let! m := set_data m (slot b (v mod 512)) (new_entry d (virt_to_phy_address new_page)) in
  let m := flush_riscv_user_page e m (PGROUNDDOWN va) in
  let! m := free_page m (PTE2PA d) in
  Ret (m, area, 0).

(** A user's copy-on-write entry for a managed page. *)
Definition shared_entry (d : Z) : Prop :=
  leaf sp !! v = Some d ∧ is_user_entry d = true ∧ is_cow d = true ∧ managed m (PTE2PA d).

Lemma resolve_head d : shared_entry d → ∃ b, low sp !! (v / 512) = Some b ∧
  resolve_cow_page e m (root sp) va area new_overlay =
  if alone m area (PTE2PA d)
  then Ret (flush_riscv_user_page e (set_word m b (v mod 512) (uncow d)) (PGROUNDDOWN va), area, 0)
  else resolve_rest b d.
Proof using HW Hva.
  intros (Ed & Hu & Hc & Hm). destruct page_of as (E1 & E2 & Hv). assert (sp ∈ sp :: ss) as Hin by (by left).
  pose proof (Z.mod_pos_bound v 512 ltac:(lia)) as Hvm. pose proof (w_ok _ _ _ HW) as HO.
  destruct (leaf_low _ _ _ _ HW Hin v d Ed) as [b Eb]. exists b. split; [done|].
  pose proof (low_managed _ _ _ _ HW Hin _ b Eb) as Hbm. pose proof (word_leaf _ _ _ _ HW Hin v b Eb) as Ew.
  rewrite Ed in Ew. change (default 0 (Some d)) with d in Ew.
  pose proof (leaf_data _ _ _ _ HW Hin v d Ed) as Hdk. pose proof Hdk as [Hd Hd0]. destruct (PTE2PA_range d Hd) as [Hal Hpa].
  unfold resolve_cow_page. rewrite (walk_found _ _ _ _ HW Hin _ _ b) by (by rewrite E2). cbn [obind]. rewrite E2.
  rewrite (slot_not_null m), valid_slot, user_slot by done. cbn [obind]. unfold pte_is_cow.
  rewrite (slot_not_null m), valid_slot, get_slot, Ew, Hd0 by done. cbn [obind negb orb].
  change k_riscv_pte_cow with (2 ^ 8) at 1. rewrite land_bit by lia. cbn [obind].
  change (Z.testbit d 4) with (is_user_entry d). change (Z.testbit d 8) with (is_cow d). rewrite Hu, Hc. cbn [negb orb].
  rewrite pa_slot, Ew by done. cbn [obind]. rewrite is_managed_page_spec, bool_decide_eq_true_2 by (done || lia). cbn [negb].
  rewrite flags_slot, ref_count_spec, Ew by (done || lia). cbn [obind].
  assert (0 < rc m (PTE2PA d)) as Hpos.
  { apply single_rc; [done|]. apply (w_page _ _ _ HW); [|done]. by apply (leaf_in sp _ v). }
  rewrite (proj2 (Z.eqb_neq (rc m (PTE2PA d)) 0)) by lia.
  change (Z.land d 0x3ff) with (flags_of d).
  rewrite set_slot by done. cbn [obind].
  change (Z.lor (Z.lor (PA2PTE (PGROUNDDOWN (PTE2PA d))) (Z.land (Z.lor (flags_of d) pte_writable_m) (not64 k_riscv_pte_cow)))
    pte_valid_m) with (new_entry d (PTE2PA d)).
  rewrite new_entry_same by done. reflexivity.
Qed.

Lemma flush_page_emit m1 : ∃ ev, flush_riscv_user_page e m1 (PGROUNDDOWN va) = emit m1 ev.
Proof. unfold flush_riscv_user_page, flush_user_pt_range. destruct (current e); eauto. Qed.

(** In place *)
Lemma resolve_alone d : shared_entry d → alone m area (PTE2PA d) = true →
  ∃ m', resolve_cow_page e m (root sp) va area new_overlay = Ret (m', area, 0) ∧
    Resolved m m' sp ss own v d (uncow d) ∧ ∀ a, rc m' a = rc m a.
Proof using HW Hva.
  intros Hd Ha. destruct (resolve_head d Hd) as (b & Eb & ->). rewrite Ha. eexists. split; [done|].
  destruct (flush_page_emit (set_word m b (v mod 512) (uncow d))) as [ev ->]. split; [|done]. apply Resolved_emit.
  apply resolve_in_place; [done|apply Hd|done].
Qed.
(** The end of the copying path: the entry is moved, the translation flushed and
    the reference to the old page dropped. *)
Lemma move_entry d b m2 ow new : shared_entry d → low sp !! (v / 512) = Some b →
  managed m new → rc m new = 0 → same_layout m m2 → single m2 new → single m2 (PTE2PA d) →
  frames m2 !! new = frames m !! PTE2PA d → (∀ a, a ≠ new → frames m2 !! a = frames m !! a) →
  (∀ a, 0 < rc m a → a ≠ PTE2PA d → rc m2 a = rc m a) →
  World m2 (sp :: ss) ow → 0 < ow new → (∀ a, managed m a → 0 ≤ ow a) →
  ∃ m', (let! m2 := set_data m2 (slot b (v mod 512)) (new_entry d (virt_to_phy_address new)) in
         let m2 := flush_riscv_user_page e m2 (PGROUNDDOWN va) in
         free_page m2 (PTE2PA d)) = Ret m' ∧
    Resolved m m' sp ss (λ a, ow a - occ a [new]) v d (new_entry d new) ∧ rc m' new = rc m2 new ∧
    PTE2PA (new_entry d new) = new.
Proof using HW Hva.
  intros Hd Eb Hnm Hnu Hl Hs Hso Hf Hfo Hr HW2 How Hnn. pose proof Hd as (Ed & _ & _ & Hm). pose proof (w_ok _ _ _ HW) as HO.
  destruct (managed_range m new HO Hnm) as (? & ? & Hal). pose proof (Z.mod_pos_bound v 512 ltac:(lia)) as Hvm.
  pose proof (leaf_data _ _ _ _ HW ltac:(by left) v d Ed) as Hdk.
  destruct (new_entry_spec d new Hdk Hal ltac:(unfold PGSIZE in *; lia)) as (_ & Ep & _).
  assert (0 < rc m (PTE2PA d)) as Hpos.
  { apply single_rc; [done|]. apply (w_page _ _ _ HW); [|done]. by apply (leaf_in sp _ v); [left|]. }
  assert (new ≠ PTE2PA d) as Hne by (intros ->; lia).
  pose proof (resolve_copy m m2 sp ss own ow v d b new HW Ed Eb Hnm Hnu Hl Hs Hf Hfo Hr HW2 How Hnn) as HR.
  rewrite virt_to_phy_small by (unfold PGSIZE in *; lia).
  rewrite set_slot; [|apply HW2|by eapply (low_managed _ _ _ _ HW2 ltac:(by left))|done]. cbn [obind].
  destruct (flush_page_emit (set_word m2 b (v mod 512) (new_entry d new))) as [ev ->].
  apply (Resolved_emit _ _ _ _ _ _ _ _ ev) in HR.
  destruct (resolve_drop m _ sp ss _ v d _ HO HR Hm) as (m' & -> & HR' & Hrc').
  { exact Hso. }
  { rewrite !occ_cons, occ_nil, decide_True, decide_False by done. specialize (Hnn _ Hm). lia. }
  exists m'. split; [done|]. split; [|split; [rewrite Hrc' by done; done|done]].
  apply (Resolved_own _ _ _ _ _ _ _ _ _ HR'). intros a _. unfold add_own. rewrite !occ_cons, !occ_nil. repeat case_decide; lia.
Qed.

(** A page of an anonymous area that others refer to. *)
Lemma resolve_anonymous d : shared_entry d → object_private_mapping area = false → rc m (PTE2PA d) ≠ 1 →
  (resolve_cow_page e m (root sp) va area new_overlay = Ret (m, area, -1) ∧ free_count m = 0) ∨
  ∃ m' nd, resolve_cow_page e m (root sp) va area new_overlay = Ret (m', area, 0) ∧
    Resolved m m' sp ss own v d nd ∧ rc m' (PTE2PA nd) = 1 ∧ rc m (PTE2PA nd) = 0.
Proof using HW Hva.
  intros Hd Hop Hrc. destruct (resolve_head d Hd) as (b & Eb & ->). pose proof Hd as (Ed & _ & _ & Hm).
  assert (alone m area (PTE2PA d) = false) as ->.
  { unfold alone. rewrite Hop. cbn. by rewrite (proj2 (Z.eqb_neq _ _)). }
  destruct (ok_frames _ (w_ok _ _ _ HW) _ Hm) as (ws & Ef & Hl). unfold resolve_rest.
  destruct (fresh_copy m _ _ (PTE2PA d) ws HW Ef Hl) as [[-> Hfull]|(m1 & new & m2 & -> & Hnn & Ecp & HP)].
  { left. by cbn. }
  right. cbn [obind]. rewrite Hnn, Ecp. cbn [obind]. rewrite Hop. cbn [obind negb].
  destruct HP as [HW2 Hl2 Hnm Hnu Hno Hnt Hrc2 Hs2 Hf2 _].
  destruct (move_entry d b m2 (add_own own new 1) new) as (m' & E & HR & Hrn & Ep); try done.
  - apply Hs2. by left.
  - apply Hs2. right. apply (w_page _ _ _ HW); [|done]. by apply (leaf_in sp _ v); [left|].
  - by rewrite Hf2, lookup_insert_eq.
  - intros a Ha. by rewrite Hf2, lookup_insert_ne.
  - intros a Ha _. rewrite Hrc2, decide_False; [done|]. intros ->. lia.
  - unfold add_own. rewrite decide_True by done. lia.
  - intros a Ha. unfold add_own. pose proof (w_own _ _ _ HW a Ha). case_decide; lia.
  - exists m', (new_entry d new). split.
    { revert E. destruct (set_data m2 _ _) as [m3| | |]; [|done..]. cbn [obind]. by intros ->. }
    rewrite Ep, Hrn, Hrc2, decide_True by done. split_and!; [|done..].
    apply (Resolved_own _ _ _ _ _ _ _ _ _ HR). intros a _. unfold add_own. rewrite occ_cons, occ_nil. case_decide; lia.
Qed.
(** The references of a private page after the copy: the overlay's own moves from the
    old page, if it was there, to the new one. *)
Definition overlay_own (old new : Z) : Z → Z :=
  λ a, own a + occ a [new] - occ a (if owned_by_area area old then [old] else []).

(** The overlay's references: the new page gets one more, the old one may lose its. *)
Lemma overlay_refs m2 d new ws : shared_entry d → PageCopy m m2 (sp :: ss) own new ws →
  (owned_by_area area (PTE2PA d) = true → 0 < own (PTE2PA d)) →
  ∃ m3 m4, retain_page m2 new = Ret (m3, true) ∧
    (if owned_by_area area (PTE2PA d) then free_page m3 (PTE2PA d) else Ret m3) = Ret m4 ∧
    World m4 (sp :: ss) (λ a, overlay_own (PTE2PA d) new a + occ a [new]) ∧ same_layout m m4 ∧
    single m4 new ∧ single m4 (PTE2PA d) ∧ frames m4 = frames m2 ∧ rc m4 new = 2 ∧
    ∀ a, 0 < rc m a → a ≠ PTE2PA d → rc m4 a = rc m a.
Proof using HW.
  intros (Ed & _ & _ & Hm) [HW2 Hl2 Hnm Hnu Hno Hnt Hrc2 Hs2 Hf2 _] Hown.
  destruct (managed_range m new (w_ok _ _ _ HW) Hnm) as (? & ? & Hal).
  assert (PTE2PA d ∈ all_pages (sp :: ss)) as Hpg by (by apply (leaf_in sp _ v); [left|]).
  destruct (w_page _ _ _ HW _ Hpg Hm) as [Hso Hnto]. pose proof (single_rc m _ (w_ok _ _ _ HW) Hso) as Hpos.
  assert (new ≠ PTE2PA d) as Hne by (intros ->; lia).
  pose proof (retain_spec m2 new (w_ok _ _ _ HW2) Hal ltac:(unfold PGSIZE in *; lia)) as Hr.
  rewrite Hrc2, decide_True in Hr by done. rewrite bool_decide_eq_true_2 in Hr by (unfold UINT16_MAX; lia).
  destruct Hr as (m3 & -> & HS & Hs3 & Hf3 & _). pose proof HS as [HO3 Hl3 Hr3]. exists m3.
  assert (rc m2 new + 1 = 2) as E2 by (rewrite Hrc2, decide_True by done; lia).
  pose proof (World_retained m2 m3 _ _ new HW2 Hnt ltac:(by rewrite E2) Hs3 Hf3) as HW3.
  assert (∀ a, 0 < rc m a → a ≠ PTE2PA d → rc m3 a = rc m a) as Hr3'.
  { intros a Ha _. rewrite Hr3, Hrc2, !decide_False; [done|..]; intros ->; lia. }
  assert (single m3 new ∧ single m3 (PTE2PA d)) as [Hsn Hso3] by (split; apply Hs3, Hs2; [by left|by right]).
  assert (rc m3 new = 2) as Hn3 by (by rewrite Hr3, decide_True).
  destruct (owned_by_area area (PTE2PA d)) eqn:Eo.
  - destruct (World_free m3 _ _ (PTE2PA d) HW3) as (m4 & E4 & [[HO4 Hl4 Hr4] Hs4 Hf4 _] & HW4).
    { apply (managed_layout m2 m3); [done|]. by apply (managed_layout m m2). } { done. }
    { unfold add_own. rewrite !decide_False by done. auto. }
    exists m4. split; [done|]. split; [done|]. split_and!.
    + apply (World_own _ _ _ _ HW4). intros a _. unfold overlay_own, add_own. rewrite Eo, !occ_cons, !occ_nil.
      repeat case_decide; congruence || lia.
    + by rewrite Hl2, Hl3, Hl4.
    + apply Hs4. split; [done|]. intros ?. done.
    + apply Hs4. split; [done|]. intros _. rewrite Hr3, decide_False, Hrc2, decide_False by done.
      rewrite (w_rc _ _ _ HW) by done. apply occ_pos in Hpg. specialize (Hown eq_refl). lia.
    + congruence.
    + by rewrite Hr4, decide_False.
    + intros a Ha Hna. rewrite Hr4, decide_False by done. by apply Hr3'.
  - exists m3. split; [done|]. split; [done|]. split_and!; try done.
    + apply (World_own _ _ _ _ HW3). intros a _. unfold overlay_own, add_own. rewrite Eo, !occ_cons, !occ_nil.
      repeat case_decide; congruence || lia.
    + by rewrite Hl2, Hl3.
Qed.

(** A page of a private mapping of an object. *)
Lemma resolve_object d : shared_entry d → object_private_mapping area = true → alone m area (PTE2PA d) = false →
  (owned_by_area area (PTE2PA d) = true → 0 < own (PTE2PA d)) →
  let r := resolve_cow_page e m (root sp) va area new_overlay in
  (r = Ret (m, area, -1) ∧ free_count m = 0) ∨
  (private_page_overlay area = None ∧ new_overlay = false ∧ ∃ m', r = Ret (m', area, -1) ∧ World m' (sp :: ss) own) ∨
  ∃ m' new nd, r = Ret (m', mkCowArea true (cow_page_index area)
      (Some (<[cow_page_index area := new]> (default ∅ (private_page_overlay area)))), 0) ∧
    PTE2PA nd = new ∧ rc m new = 0 ∧ rc m' new = 2 ∧
    Resolved m m' sp ss (overlay_own (PTE2PA d) new) v d nd.
Proof using HW Hva.
  intros Hd Hop Hal Hown r. subst r. destruct (resolve_head d Hd) as (b & Eb & ->). rewrite Hal. pose proof Hd as (Ed & _ & _ & Hm).
  destruct (ok_frames _ (w_ok _ _ _ HW) _ Hm) as (ws & Ef & Hl). unfold resolve_rest.
  destruct (fresh_copy m _ _ (PTE2PA d) ws HW Ef Hl) as [[-> Hfull]|(m1 & new & m2 & -> & Hnn & Ecp & HP)].
  { left. by cbn. }
  right. cbn [obind]. rewrite Hnn, Ecp. cbn [obind]. rewrite Hop.
  pose proof HP as [HW2 Hl2 Hnm Hnu Hno Hnt Hrc2 Hs2 Hf2 _]. destruct (managed_range m new (w_ok _ _ _ HW) Hnm) as (? & ? & Haln).
  destruct (negb (bool_decide (is_Some (private_page_overlay area))) && negb new_overlay) eqn:Eno.
  { left. apply andb_prop in Eno as [E1 E2]. apply negb_true_iff, bool_decide_eq_false, eq_None_not_Some in E1.
    apply negb_true_iff in E2. split_and!; [done..|].
    destruct (World_free m2 _ _ new HW2) as (m3 & -> & _ & HW3).
    { by apply (managed_layout m m2). } { apply Hs2. by left. } { unfold add_own. rewrite decide_True by done. lia. }
    exists m3. split; [done|]. apply (World_own _ _ _ _ HW3). intros a _. unfold add_own. case_decide; lia. }
  right. destruct (overlay_refs m2 d new ws Hd HP Hown) as (m3 & m4 & -> & E4 & HW4 & Hl4 & Hs4 & Hso4 & Hf4 & Hn4 & Hr4).
  cbn [obind negb]. rewrite E4. cbn [obind negb].
  destruct (move_entry d b m4 (λ a, overlay_own (PTE2PA d) new a + occ a [new]) new Hd Eb Hnm Hnu Hl4 Hs4 Hso4)
    as (m' & E & HR & Hrn & Ep); try done.
  - by rewrite Hf4, Hf2, lookup_insert_eq.
  - intros a Ha. by rewrite Hf4, Hf2, lookup_insert_ne.
  - pose proof (w_own _ _ _ HW4 new ltac:(by apply (managed_layout m m4))). unfold overlay_own in *.
    rewrite occ_cons, occ_nil, decide_True in * by done.
    assert (occ new (if owned_by_area area (PTE2PA d) then [PTE2PA d] else []) = 0); [|lia].
    destruct (owned_by_area area (PTE2PA d)); [|done]. rewrite occ_cons, decide_False; [done|]. intros ->.
    assert (0 < rc m (PTE2PA d)); [|lia]. apply single_rc; [apply HW|]. apply (w_page _ _ _ HW); [|done].
    by apply (leaf_in sp _ v); [left|].
  - intros a Ha. apply (w_own _ _ _ HW4). by apply (managed_layout m m4).
  - exists m', new, (new_entry d new). rewrite virt_to_phy_small in E |- * by (unfold PGSIZE in *; lia). split.
    { revert E. destruct (set_data m4 _ _) as [m5| | |]; [|done..]. cbn [obind]. by intros ->. }
    split_and!; [done|done|congruence|]. apply (Resolved_own _ _ _ _ _ _ _ _ _ HR). intros a _. lia.
Qed.
End resolve.

End VmmCow.

(** * Changing permissions

    [protectpages] on the pages of an area changes flags only, and never makes a
    page writable in place that a private mapping shares with another. *)
Import Page Pmm PmmSpec PageTable Vmm PtRep PtWalk VmmMap VmmUnmap VmmAlloc VmmFork VmmCow.

Module VmmProtect.

(** ** The new entry *)

(** A write must copy first. *)
Definition as_cow (m : Machine) (vm : option AreaKind) (d : Z) : bool :=
  bool_decide (managed m (PTE2PA d)) && negb (vma_has_shared_write_semantics vm) &&
  ((vma_has_private_cow_semantics vm && is_cow d) || (1 <? rc m (PTE2PA d))).

(** The flags of the entry [d] for the permissions [prot]. *)
Definition new_flag (m : Machine) (prot : Z) (vm : option AreaKind) (d n : Z) : bool :=
  if decide (n = 0 ∨ n = 4) then true
  else if decide (n = 1) then Z.testbit prot 0
  else if decide (n = 2) then Z.testbit prot 1 && negb (as_cow m vm d)
  else if decide (n = 3) then Z.testbit prot 2
  else if decide (n = 8) then if Z.testbit prot 1 then as_cow m vm d else is_cow d && vma_has_private_cow_semantics vm
  else Z.testbit d n.

Ltac ground_bits := repeat match goal with
  | |- context [Z.testbit (Zpos ?c) ?k] => let r := eval vm_compute in (Z.testbit (Zpos c) k) in change (Z.testbit (Zpos c) k) with r
  end.

Lemma land_prot prot k : 0 ≤ k → (Z.land prot (2 ^ k) =? 0) = negb (Z.testbit prot k).
Proof. intros Hk. rewrite <- (land_bit prot k Hk). by rewrite negb_involutive. Qed.

Lemma testbit_if (c : bool) x y n : Z.testbit (if c then x else y) n = if c then Z.testbit x n else Z.testbit y n.
Proof. by destruct c. Qed.

(** Entries for the same page. *)
Definition same_page (d x : Z) : Prop := 0 ≤ x < 2 ^ 46 ∧ PTE2PA x = PTE2PA d.

Lemma same_page_lor d x f : same_page d x → 0 ≤ f < 2 ^ 10 → same_page d (Z.lor x f).
Proof. intros [Hx E] Hf. destruct (lor_keep x f Hx Hf). split; [done|congruence]. Qed.

Lemma same_page_clear d x f : same_page d x → 0 ≤ f < 2 ^ 10 →
  same_page d (Z.land x (u64 (Z.lnot f))) ∧ Z.land x (u64 (Z.lnot f)) = Z.ldiff x f.
Proof. intros [Hx E] Hf. rewrite land_not64 by lia. destruct (ldiff_keep x f Hx Hf). split; [split; [done|congruence]|done]. Qed.

Lemma same_page_if d (c : bool) x y : same_page d x → same_page d y → same_page d (if c then x else y).
Proof. by destruct c. Qed.

Section entry.
Context (m : Machine) (b i prot d : Z) (vm : option AreaKind).
Context (HO : PmmOk m) (Hb : managed m b) (Hi : 0 ≤ i < 512) (Hw : word m b i = d) (Hd : leaf_ok d).

Lemma cow_entry : pte_is_cow m (slot b i) = Ret (is_cow d).
Proof using HO Hb Hi Hw Hd.
  unfold pte_is_cow. rewrite (slot_not_null m), valid_slot, get_slot, Hw, (proj2 Hd) by done. cbn [obind negb orb].
  change k_riscv_pte_cow with (2 ^ 8). by rewrite land_bit by lia.
Qed.

Lemma as_cow_spec : should_write_protect_as_cow m (slot b i) vm true = Ret (as_cow m vm d).
Proof using HO Hb Hi Hw Hd.
  destruct (PTE2PA_range d (proj1 Hd)) as [Hal Hpa]. unfold should_write_protect_as_cow, as_cow.
  rewrite pa_slot, Hw by done. cbn [obind negb]. rewrite is_managed_page_spec by (done || lia).
  case_bool_decide as Hm; cbn [negb andb]; [|done]. destruct (vma_has_shared_write_semantics vm); cbn [negb andb]; [done|].
  rewrite ref_count_spec by (done || lia). cbn [obind]. rewrite cow_entry. cbn [obind].
  destruct (vma_has_private_cow_semantics vm), (is_cow d); done.
Qed.

Lemma protect_entry_spec : ∃ nd, protect_entry m (slot b i) prot vm true d = Ret nd ∧ leaf_ok nd ∧ PTE2PA nd = PTE2PA d ∧
  ∀ n, 0 ≤ n < 10 → Z.testbit nd n = new_flag m prot vm d n.
Proof using HO Hb Hi Hw Hd.
  unfold protect_entry, should_preserve_cow_without_write, not64. rewrite cow_entry, as_cow_spec. cbn [obind negb orb].
  change PROT_READ with (2 ^ 0). change PROT_WRITE with (2 ^ 1). change PROT_EXEC with (2 ^ 2). rewrite !land_prot by lia.
  assert (same_page d d) as Hs by (split; [apply Hd|done]).
  destruct (same_page_clear d d 14 Hs ltac:(lia)) as [Hs1 E1].
  change (Z.lor (Z.lor pte_readable_m pte_writable_m) pte_executable_m) with 14. set (d1 := Z.land d _) in *.
  assert ((if negb (is_cow d) then Ret false else Ret (vma_has_private_cow_semantics vm)) =
    Ret (is_cow d && vma_has_private_cow_semantics vm)) as -> by (by destruct (is_cow d)). cbn [obind].
  set (keep := is_cow d && _). change k_riscv_pte_cow with 256. change pte_writable_m with 4.
  destruct (same_page_clear d d1 256 Hs1 ltac:(lia)) as [Hs2 E2]. set (d2 := Z.land d1 _) in *.
  set (d3 := if keep then d1 else d2). assert (same_page d d3) as Hs3 by (by apply same_page_if).
  rewrite !if_negb. set (d4 := if Z.testbit prot 0 then _ else _).
  assert (same_page d d4) as Hs4 by (apply same_page_if; [|done]; apply same_page_lor; [done|unfold pte_readable_m; lia]).
  destruct (same_page_clear d d4 256 Hs4 ltac:(lia)) as [Hs5 E5].
  set (c := as_cow m vm d). set (d5 := Z.land d4 _) in *.
  set (d6 := if Z.testbit prot 1 then Z.lor d5 (if c then 256 else 4) else d4).
  assert (same_page d d6) as Hs6 by (apply same_page_if; [|done]; apply same_page_lor; [done|destruct c; lia]).
  set (nd := Z.lor (if Z.testbit prot 2 then Z.lor d6 pte_executable_m else d6) 17).
  assert (same_page d nd) as [Hn En].
  { apply same_page_lor; [|lia]. apply same_page_if; [|done]. apply same_page_lor; [done|unfold pte_executable_m; lia]. }
  exists nd. split; [unfold nd, d6; by destruct (Z.testbit prot 1), (Z.testbit prot 2)|].
  assert (∀ n, 0 ≤ n → Z.testbit nd n =
    ((if Z.testbit prot 1
      then (Z.testbit d n && negb (Z.testbit 14 n) && (keep || negb (Z.testbit 256 n)) || (Z.testbit prot 0 && Z.testbit 2 n)) &&
        negb (Z.testbit 256 n) || (if c then Z.testbit 256 n else Z.testbit 4 n)
      else Z.testbit d n && negb (Z.testbit 14 n) && (keep || negb (Z.testbit 256 n)) || (Z.testbit prot 0 && Z.testbit 2 n)) ||
    (Z.testbit prot 2 && Z.testbit 8 n)) || Z.testbit 17 n) as Hn'.
  { intros n Hn0. assert (Z.testbit d3 n = Z.testbit d n && negb (Z.testbit 14 n) && (keep || negb (Z.testbit 256 n))) as B3.
    { unfold d3. rewrite testbit_if, E2, Z.ldiff_spec, E1, Z.ldiff_spec. destruct keep; cbn; by rewrite ?andb_true_r. }
    assert (Z.testbit d4 n = Z.testbit d3 n || (Z.testbit prot 0 && Z.testbit 2 n)) as B4.
    { unfold d4. rewrite testbit_if, Z.lor_spec. unfold pte_readable_m. destruct (Z.testbit prot 0); cbn; by rewrite ?orb_false_r. }
    unfold nd, d6. rewrite Z.lor_spec, testbit_if, Z.lor_spec, testbit_if, Z.lor_spec, E5, Z.ldiff_spec, B4, B3, testbit_if.
    unfold pte_executable_m. destruct (Z.testbit prot 2); cbn [andb]; by rewrite ?orb_false_r. }
  assert (∀ n, 0 ≤ n < 10 → Z.testbit nd n = new_flag m prot vm d n) as Hbits.
  { intros n Hn10. rewrite Hn' by lia. clear Hn'. unfold new_flag. fold c. unfold keep, is_cow. clear -Hn10.
    generalize (Z.testbit prot 0), (Z.testbit prot 1), (Z.testbit prot 2), c, (vma_has_private_cow_semantics vm).
    assert (n = 0 ∨ n = 1 ∨ n = 2 ∨ n = 3 ∨ n = 4 ∨ n = 5 ∨ n = 6 ∨ n = 7 ∨ n = 8 ∨ n = 9) as Hcases by lia.
    destruct_or! Hcases; subst n; repeat (rewrite decide_True by lia || rewrite decide_False by lia); ground_bits.
    all: destruct (Z.testbit d 8); match goal with |- context [Z.testbit d ?k] => destruct (Z.testbit d k) | _ => idtac end.
    all: by intros [] [] [] [] []. }
  split; [|done]. split; [done|]. by rewrite Hbits by lia.
Qed.
End entry.

(** ** The pages of an area *)

(** The entry [nd] is [d] with the new permissions. *)
Definition protected (m : Machine) (prot : Z) (vm : option AreaKind) (d nd : Z) : Prop :=
  leaf_ok nd ∧ PTE2PA nd = PTE2PA d ∧ ∀ n, 0 ≤ n < 10 → Z.testbit nd n = new_flag m prot vm d n.

Definition protected_leaf (m : Machine) (prot : Z) (vma_at : Z → option AreaKind) (f f' : gmap Z Z) (P : Z → Prop) : Prop :=
  ∀ x, (P x → match f !! x with
               | Some d => ∃ nd, f' !! x = Some nd ∧ protected m prot (vma_at (x * PGSIZE)) d nd
               | None => f' !! x = None end) ∧ (¬ P x → f' !! x = f !! x).

Lemma new_flag_pmm m m' prot vm d n : pmm m' = pmm m → new_flag m' prot vm d n = new_flag m prot vm d n.
Proof. destruct m, m'. cbn. intros ->. reflexivity. Qed.

Section protect.
Context (prot : Z) (vma_at : Z → option AreaKind).

Lemma protect_step n m sp ss own v stop ch : World m (sp :: ss) own → 0 ≤ v < 2 ^ 27 → v * PGSIZE ≠ stop →
  ∃ m1 f1 ch1, protect_loop (S n) m (root sp) (v * PGSIZE) stop prot vma_at true ch =
      protect_loop n m1 (root sp) ((v + 1) * PGSIZE) stop prot vma_at true ch1 ∧
    World m1 (with_leaf sp f1 :: ss) own ∧ same_but_tables m m1 sp ∧ protected_leaf m prot vma_at (leaf sp) f1 (λ x, x = v).
Proof.
  intros HW Hv He. cbn [protect_loop]. rewrite (proj2 (Z.eqb_neq _ _)), u64_small by (done || unfold PGSIZE in *; lia).
  replace (v * PGSIZE + PGSIZE) with ((v + 1) * PGSIZE) by lia. cbn [negb].
  assert (sp ∈ sp :: ss) as Hin by (by left). pose proof (vpn_page v ltac:(lia)) as Ev.
  pose proof (Z.mod_pos_bound v 512 ltac:(lia)) as Hvm. pose proof (w_ok _ _ _ HW) as HO.
  assert (World m (with_leaf sp (leaf sp) :: ss) own) as HWs by (by destruct sp).
  assert (leaf sp !! v = None → protected_leaf m prot vma_at (leaf sp) (leaf sp) (λ x, x = v)) as Hnone.
  { intros E x. split; [|done]. intros ->. by rewrite E. }
  destruct (low sp !! (v / 512)) as [b|] eqn:Eb.
  2: { rewrite (walk_missing _ _ _ _ HW Hin) by (by rewrite Ev). exists m, (leaf sp), ch. split_and!; [done..|]. apply Hnone.
       destruct (leaf sp !! v) as [d|] eqn:Ed; [|done]. destruct (leaf_low _ _ _ _ HW Hin v d Ed). congruence. }
  rewrite (walk_found _ _ _ _ HW Hin _ _ b) by (by rewrite Ev). cbn [obind]. rewrite Ev.
  pose proof (low_managed _ _ _ _ HW Hin _ b Eb) as Hbm. pose proof (word_leaf _ _ _ _ HW Hin v b Eb) as Ew.
  rewrite (slot_not_null m), get_slot, Ew by done. cbn [obind].
  destruct (leaf sp !! v) as [d|] eqn:Ed; [|exists m, (leaf sp), ch; split_and!; [done..|by apply Hnone]].
  change (default 0 (Some d)) with d in *. pose proof (leaf_data _ _ _ _ HW Hin v d Ed) as Hd.
  assert (d ≠ 0) as Hd0 by (intros ->; by destruct Hd). rewrite (proj2 (Z.eqb_neq d 0)) by done.
  change pte_valid_m with (2 ^ 0) at 1. rewrite land_bit, (proj2 Hd) by lia.
  destruct (protect_entry_spec m b (v mod 512) prot d (vma_at (v * PGSIZE)) HO Hbm Hvm Ew Hd) as (nd & -> & Hok & Ep & Hbits). cbn [obind].
  destruct (Z.eqb_spec nd d) as [->|Hne]; cbn [negb].
  - exists m, (leaf sp), ch. split_and!; [done..|]. intros x. split; [|done]. intros ->. rewrite Ed. by exists d.
  - rewrite set_slot by done. cbn [obind]. exists (set_word m b (v mod 512) nd), (<[v := nd]> (leaf sp)), true. split; [done|]. split_and!.
    + by apply (World_flags m sp ss own v b d).
    + split_and!; [done..|]. intros a Ha. apply frame_set_word_ne. intros ->. apply Ha. eauto with kernel.
    + intros x. split; [intros ->; rewrite Ed; exists nd; by rewrite lookup_insert_eq|]. intros Hx. by rewrite lookup_insert_ne.
Qed.

Lemma protect_loop_spec n : ∀ m sp ss own v ch, World m (sp :: ss) own → 0 ≤ v → v + Z.of_nat n ≤ 2 ^ 27 →
  ∃ m' f' ch', protect_loop n m (root sp) (v * PGSIZE) ((v + Z.of_nat n) * PGSIZE) prot vma_at true ch = Ret (m', 0, ch') ∧
    World m' (with_leaf sp f' :: ss) own ∧ same_but_tables m m' sp ∧
    protected_leaf m prot vma_at (leaf sp) f' (λ x, v ≤ x < v + Z.of_nat n).
Proof.
  induction n as [|n IH]; intros m sp ss own v ch HW Hv Hn.
  { exists m, (leaf sp), ch. cbn [protect_loop]. rewrite Z.add_0_r, Z.eqb_refl. split_and!; [done|by destruct sp|done|].
    intros x. split; [lia|done]. }
  destruct (protect_step n m sp ss own v ((v + Z.of_nat (S n)) * PGSIZE) ch HW ltac:(lia) ltac:(unfold PGSIZE; lia))
    as (m1 & f1 & ch1 & -> & HW1 & Hb1 & Hl1).
  replace (v + Z.of_nat (S n)) with (v + 1 + Z.of_nat n) by lia.
  destruct (IH m1 (with_leaf sp f1) ss own (v + 1) ch1 HW1) as (m' & f' & ch' & E & HW' & Hb' & Hl'); [lia|lia|].
  exists m', f', ch'. split_and!; [exact E|done|by eapply same_but_tables_trans|].
  intros x. destruct (Hl' x) as [H1 H2], (Hl1 x) as [H3 H4]. cbn [leaf with_leaf] in *. split; intros Hx.
  - destruct (decide (x = v)) as [->|]; [rewrite H2 by lia; by apply H3|]. rewrite H4 in H1 by lia. specialize (H1 ltac:(lia)).
    destruct (leaf sp !! x) as [d|]; [|done]. destruct H1 as (nd & E1 & Hok & Ep & Hbits). exists nd. unfold protected. split_and!; [done..|].
    intros k Hk. rewrite Hbits by done. apply new_flag_pmm, Hb1.
  - by rewrite H2, H4 by lia.
Qed.

Lemma protectpages_spec m sp ss own v npages : World m (sp :: ss) own → 0 ≤ v → 0 < npages → v + npages ≤ 2 ^ 27 →
  ∃ m' f' ch, protectpages m (root sp) (v * PGSIZE) (npages * PGSIZE) prot vma_at true = Ret (m', 0, ch) ∧
    World m' (with_leaf sp f' :: ss) own ∧ same_but_tables m m' sp ∧
    protected_leaf m prot vma_at (leaf sp) f' (λ x, v ≤ x < v + npages).
Proof.
  intros HW Hv Hn Hvn. unfold protectpages.
  rewrite (PGROUNDDOWN_aligned (v * PGSIZE)) by (unfold PGSIZE; lia || apply Z_mod_mult).
  assert (PGROUNDDOWN (u64 (v * PGSIZE + npages * PGSIZE - 1)) = (v + npages - 1) * PGSIZE) as ->.
  { rewrite u64_small by (unfold PGSIZE; lia). rewrite PGROUNDDOWN_div by (unfold PGSIZE; lia). f_equal.
    symmetry. apply Z.div_unique with (r := PGSIZE - 1); unfold PGSIZE; lia. }
  rewrite (u64_small (_ - _)) by (unfold PGSIZE; lia). rewrite u64_small by (unfold PGSIZE; lia).
  rewrite <- Z.mul_sub_distr_r, Z.div_mul by done.
  replace (S (Z.to_nat (v + npages - 1 - v))) with (Z.to_nat npages) by lia.
  replace ((v + npages - 1) * PGSIZE + PGSIZE) with ((v + npages) * PGSIZE) by lia.
  replace (v + npages) with (v + Z.of_nat (Z.to_nat npages)) by lia. apply protect_loop_spec; [done..|lia].
Qed.
End protect.

End VmmProtect.
