(* ===== verification/VmmSystem.v ===== *)
(** * Address spaces that share pages copy-on-write

    Processes create, grow, copy, unmap and write to address spaces.  In every
    reachable state a page that can be written through some page table has no
    other reference, so a write is seen at one address of one address space
    only. *)
From S2P Require Import Prelude Page Buddy Pmm PmmSpec PageTable Vmm PtRep PtWalk VmmMap VmmUnmap VmmAlloc VmmFork VmmCopy VmmFree VmmCow.
Import Page Pmm PmmSpec PageTable Vmm PtRep PtWalk VmmMap VmmUnmap VmmAlloc VmmFork VmmCopy VmmCow VmmFree VmmProtect.

Module VmmSystem.

(** ** Counting mappings *)

Lemma occ_submseteq a l l' : l ⊆+ l' → occ a l ≤ occ a l'.
Proof. intros [k ->]%submseteq_Permutation. rewrite occ_app. pose proof (occ_nonneg a k). lia. Qed.

Lemma pages_sub sp sp' a : leaf sp' ⊆ leaf sp → occ a (pages sp') ≤ occ a (pages sp).
Proof.
  intros Hs. apply occ_submseteq. unfold pages, vals. do 2 apply fmap_submseteq. by apply map_to_list_submseteq.
Qed.

Lemma occ_leaf sp v d : leaf sp !! v = Some d → 0 < occ (PTE2PA d) (pages sp).
Proof. intros E. apply occ_pos, list_elem_of_fmap. exists d. split; [done|]. apply elem_of_vals. eauto. Qed.

Lemma occ_two sp v v' d d' : leaf sp !! v = Some d → leaf sp !! v' = Some d' → v ≠ v' → PTE2PA d' = PTE2PA d →
  2 ≤ occ (PTE2PA d) (pages sp).
Proof.
  intros E E' Hne Ep. pose proof (occ_put sp v None (PTE2PA d)) as H. rewrite E in H. cbn [pg] in H.
  rewrite occ_nil, occ_cons, occ_nil, decide_True in H by done.
  pose proof (occ_leaf (put_leaf sp v None) v' d') as H'. rewrite Ep in H'.
  enough (leaf (put_leaf sp v None) !! v' = Some d') by (specialize (H' ltac:(done)); lia).
  unfold put_leaf. cbn. by rewrite lookup_partial_alter_ne.
Qed.

(** A managed page with one reference is mapped once. *)
Lemma mapped_once m sp ss own v d : World m (sp :: ss) own → leaf sp !! v = Some d → managed m (PTE2PA d) →
  rc m (PTE2PA d) = 1 →
  own (PTE2PA d) = 0 ∧ (∀ v' d', leaf sp !! v' = Some d' → PTE2PA d' = PTE2PA d → v' = v) ∧
  ∀ sp', sp' ∈ ss → PTE2PA d ∉ pages sp'.
Proof.
  intros HW E Hm Hr. pose proof (leaf_in sp (sp :: ss) v d ltac:(by left) E) as Hin.
  destruct (w_page _ _ _ HW _ Hin Hm) as [_ Hnt]. pose proof (w_rc _ _ _ HW _ Hm Hnt) as Hrc.
  pose proof (w_own _ _ _ HW _ Hm). pose proof (occ_leaf sp v d E). rewrite all_pages_cons, occ_app in Hrc.
  pose proof (occ_nonneg (PTE2PA d) (all_pages ss)). split; [lia|]. split.
  - intros v' d' E' Ep. destruct (decide (v' = v)); [done|]. pose proof (occ_two sp v v' d d' E E' ltac:(done) Ep). lia.
  - intros sp' Hs Hp. assert (0 < occ (PTE2PA d) (all_pages ss)); [|lia]. apply occ_pos, elem_of_flat_map. eauto.
Qed.

(** Fewer mappings, fewer references. *)
Lemma rc_fewer m m' sp sp' ss own a : World m (sp :: ss) own → World m' (sp' :: ss) own → same_layout m m' →
  leaf sp' ⊆ leaf sp → a ∈ all_pages (sp' :: ss) → managed m a → 0 < rc m' a ≤ rc m a.
Proof.
  intros HW HW' Hl Hs Ha Hm. assert (managed m' a) as Hm' by (by apply (managed_layout m)).
  assert (a ∈ all_pages (sp :: ss)) as Ha0.
  { rewrite <- occ_pos in Ha |- *. rewrite all_pages_cons, occ_app in Ha |- *. pose proof (pages_sub sp sp' a Hs). lia. }
  rewrite (w_rc _ _ _ HW), (w_rc _ _ _ HW'); try done; [|by apply (w_page _ _ _ HW')|by apply (w_page _ _ _ HW)].
  pose proof (w_own _ _ _ HW a Hm). rewrite <- occ_pos in Ha. rewrite !all_pages_cons, !occ_app in *.
  pose proof (pages_sub sp sp' a Hs). lia.
Qed.

(** ** The invariant *)

(** Every mapped page is managed and the user's, and one that can be written has no
    other reference. *)
Definition private_entry (m : Machine) (d : Z) : Prop :=
  (managed m (PTE2PA d) ∧ is_user_entry d = true) ∧ (writable d = true → is_cow d = false ∧ rc m (PTE2PA d) = 1).

Record SysInv (m : Machine) (ss : list Space) (own : Z → Z) : Prop := {
  si_world : World m ss own;
  si_private : ∀ sp v d, sp ∈ ss → leaf sp !! v = Some d → private_entry m d
}.

Lemma SysInv_perm m ss ss' own : ss ≡ₚ ss' → SysInv m ss own → SysInv m ss' own.
Proof.
  intros Hp [HW Hd]. split; [by apply (World_perm _ ss)|]. intros sp v d. rewrite <- Hp. apply Hd.
Qed.

Lemma private_rc m m' d : same_layout m m' → (writable d = true → rc m (PTE2PA d) = 1 → rc m' (PTE2PA d) = 1) →
  private_entry m d → private_entry m' d.
Proof.
  intros Hl Hr [[Hm Hu] Hw]. split; [split; [by apply (managed_layout m)|done]|]. intros Hwd. destruct (Hw Hwd). auto.
Qed.

(** Contents of page [v] of a space. *)
Definition view (m : Machine) (sp : Space) (v : Z) : option (list Z) := leaf sp !! v ≫= λ d, frames m !! PTE2PA d.

(** The same pages with the same contents. *)
Definition same_view (m m' : Machine) (sp sp' : Space) : Prop := root sp' = root sp ∧ ∀ x, view m' sp' x = view m sp x.

(** [m'] has the contents of the pages mapped in [m]. *)
Definition keeps (m m' : Machine) (ss : list Space) : Prop :=
  ∀ a, (managed m a → 0 < rc m a) → a ∉ all_tables ss → frames m' !! a = frames m !! a.

Lemma keeps_page m m' ss own sp v d : World m ss own → keeps m m' ss → sp ∈ ss → leaf sp !! v = Some d →
  frames m' !! PTE2PA d = frames m !! PTE2PA d.
Proof.
  intros HW Hk Hs Ed. pose proof (leaf_in sp ss v d Hs Ed) as Hin. apply Hk.
  - intros Hm. apply single_rc; [apply HW|]. by apply (w_page _ _ _ HW).
  - intros Ht. by apply (table_not_page _ _ _ HW (PTE2PA d)).
Qed.

Lemma keeps_view m m' ss own sp sp' v v' d d' : World m ss own → keeps m m' ss → sp ∈ ss →
  leaf sp !! v = Some d → leaf sp' !! v' = Some d' → PTE2PA d' = PTE2PA d → view m' sp' v' = view m sp v.
Proof.
  intros HW Hk Hs Ed Ed' Ep. unfold view. rewrite Ed, Ed'. cbn. rewrite Ep. by apply (keeps_page m m' ss own sp v).
Qed.

Lemma keeps_same m m' ss own sp sp' v : World m ss own → keeps m m' ss → sp ∈ ss →
  leaf sp' !! v = leaf sp !! v → view m' sp' v = view m sp v.
Proof.
  intros HW Hk Hs E. destruct (leaf sp !! v) as [d|] eqn:Ed; [by apply (keeps_view m m' ss own _ _ v v d d)|].
  unfold view. by rewrite E, Ed.
Qed.

Lemma keeps_others m m' ss own sp : World m ss own → keeps m m' ss → sp ∈ ss → same_view m m' sp sp.
Proof. intros HW Hk Hs. split; [done|]. intros x. by apply (keeps_same m m' ss own). Qed.

(** ** Operations *)

(** A new address space. *)
Lemma World_create m m' ss own pa : World m ss own → Fresh m m' pa → frames m' = <[pa := zero_frame]> (frames m) →
  World m' (mkSpace pa ∅ ∅ ∅ :: ss) own.
Proof.
  intros HW HF Hf. pose proof HF as [[HO' Hl Hr] Hm Hu Hs _]. destruct (unused_page _ _ _ HW pa Hm Hu) as (Hnt & Hnp & Hno).
  pose proof (World_fresh m m' ss own pa true HW HF Hf) as HW1.
  assert (zero_page m' pa) as Hz by (apply zero_frame_page; by rewrite Hf, lookup_insert_eq).
  assert (all_pages (mkSpace pa ∅ ∅ ∅ :: ss) = all_pages ss) as Ep by (rewrite all_pages_cons; done).
  assert (all_tables (mkSpace pa ∅ ∅ ∅ :: ss) = pa :: all_tables ss) as Et by (rewrite all_tables_cons; done).
  split.
  - done.
  - intros sp [->|Hin]%elem_of_cons; [|by apply (w_tables _ _ _ HW1)]. split; cbn; try done.
  - rewrite Et. constructor; [done|apply HW].
  - intros b. rewrite Et, elem_of_cons. intros [->|Hb]; [split_and!; [apply Hs; by left|by rewrite Hr, decide_True|done]|].
    destruct (w_table _ _ _ HW1 b Hb) as (? & ? & _). split_and!; [done..|]. by apply (w_table _ _ _ HW).
  - intros a. rewrite Ep, Et, not_elem_of_cons. intros Ha Hma. destruct (w_page _ _ _ HW1 a Ha Hma). split; [done|].
    split; [|done]. intros ->. apply occ_pos in Ha. lia.
  - intros a Ha. apply (w_own _ _ _ HW). by apply (managed_layout m m').
  - intros a Ha. rewrite Ep, Et, not_elem_of_cons. intros [Hne Hn]. rewrite (w_rc _ _ _ HW1) by done.
    unfold add_own. by rewrite decide_False.
Qed.

Lemma create_inv m ss own : SysInv m ss own →
  ∃ m' b, vm_create m = Ret (m', b) ∧
    ((b = 0 ∧ m' = m ∧ free_count m = 0) ∨
     (b ≠ 0 ∧ SysInv m' (mkSpace b ∅ ∅ ∅ :: ss) own ∧ same_layout m m' ∧ ∀ sp, sp ∈ ss → same_view m m' sp sp)).
Proof.
  intros [HW Hp]. unfold vm_create, try_alloc_page.
  destruct (try_alloc_spec m true (w_ok _ _ _ HW)) as (m' & b & -> & Hb). exists m', b. split; [done|].
  destruct Hb as [(-> & -> & Hfull)|[HF Hf]]; [left; split_and!; [done..|by apply free_count_full; [apply HW|]]|right].
  pose proof (managed_range m b (w_ok _ _ _ HW) (fr_managed _ _ _ HF)) as (? & _).
  assert (keeps m m' ss) as Hk.
  { intros a Ha _. rewrite Hf. apply lookup_insert_ne. intros <-. pose proof (fr_unused _ _ _ HF). specialize (Ha (fr_managed _ _ _ HF)). lia. }
  split; [pose proof (ok_base _ (w_ok _ _ _ HW)); lia|]. split; [|split; [apply HF|intros sp Hs; by apply (keeps_others m m' ss own)]].
  split; [by apply (World_create m)|]. intros sp v d [->|Hs]%elem_of_cons E; [by cbn in E; rewrite lookup_empty in E|].
  destruct (fr_set _ _ _ HF) as [_ Hl Hr]. apply (private_rc m); [done| |by apply (Hp sp v)].
  intros _ H1. rewrite Hr, decide_False; [done|]. intros E1. pose proof (fr_unused _ _ _ HF). rewrite <- E1 in *. lia.
Qed.

(** Growing: the new pages are private. *)
Lemma grow_inv e m sp ss own oldsz newsz flags : SysInv m (sp :: ss) own →
  (root sp ≠ k_pagetable e ∨ k_pagetable e = 0) → 0 ≤ oldsz ≤ newsz → newsz ≤ USER_MEMORY_TOP →
  0 ≤ flags < 2 ^ 10 → is_cow flags = false →
  ∃ m' sp' r, uvmalloc e m (root sp) oldsz newsz flags = Ret (m', r) ∧ SysInv m' (sp' :: ss) own ∧
    same_layout m m' ∧ (∀ s, s ∈ ss → same_view m m' s s) ∧
    ((r = newsz ∧ root sp' = root sp ∧ ∀ x, view m' sp' x =
        if decide (PGROUNDUP oldsz / PGSIZE ≤ x ∧ x * PGSIZE < newsz) then Some zero_frame else view m sp x) ∨
     (r = 0 ∧ same_view m m' sp sp')).
Proof.
  intros [HW Hp] Hroot Hsz Htop Hfl Hcow.
  destruct (uvmalloc_spec e m sp ss own oldsz newsz flags HW Hroot Hsz Htop Hfl)
    as [(m' & sp' & E & HW' & HG & Hleaf)|(m' & sp' & E & (HW' & El & HG) & _)]; exists m', sp'; eexists; (split; [exact E|]).
  all: assert (keeps m m' (sp :: ss)) as Hk by (intros a Ha Hn; apply (gr_frames _ _ _ _ HG a Ha); contradict Hn; by apply (tables_in sp); [left|]).
  all: split; [|split; [apply HG|split; [intros s Hs; apply (keeps_others m m' (sp :: ss) own); [done..|by right]|]]].
  2: { left. split; [done|]. split; [apply HG|]. intros x. specialize (Hleaf x). case_decide.
    - destruct Hleaf as [_ (pa & E1 & Hm & _ & _ & Hz)]. destruct (managed_range m pa (w_ok _ _ _ HW) Hm) as (? & ? & Hal).
      unfold view. rewrite E1. cbn [mbind option_bind]. set (fl := Z.lor (Z.lor _ _) flags).
      assert (0 ≤ fl < 2 ^ 10) as Hf by (apply lor_flags; [lia|split; vm_compute; done|done]).
      by destruct (entry_spec pa fl Hal ltac:(unfold PGSIZE in *; lia) Hf) as (_ & -> & _).
    - apply (keeps_same m m' (sp :: ss) own); [done..|by left|done]. }
  3: { right. split; [done|]. split; [apply HG|]. intros x. apply (keeps_same m m' (sp :: ss) own); [done..|by left|congruence]. }
  all: split; [done|]; intros s v d Hs Ed.
  all: assert (∀ s v, s ∈ sp :: ss → leaf s !! v = Some d → private_entry m' d) as Hold by
    (intros s' v' Hs' Ed'; apply (private_rc m); [apply HG| |by apply (Hp s' v')]; intros _ H1; rewrite (gr_rc _ _ _ _ HG); lia).
  - apply elem_of_cons in Hs as [->|Hs]; [|apply (Hold s v); [by right|done]].
    specialize (Hleaf v). case_decide; [|apply (Hold sp v); [by left|congruence]].
    destruct Hleaf as [_ (pa & E1 & Hm & _ & Hr & _)]. rewrite Ed in E1. injection E1 as ->.
    destruct (managed_range m pa (w_ok _ _ _ HW) Hm) as (? & ? & Hal). set (fl := Z.lor (Z.lor _ _) flags).
    assert (0 ≤ fl < 2 ^ 10) as Hf by (apply lor_flags; [lia|split; vm_compute; done|done]).
    destruct (entry_spec pa fl Hal ltac:(unfold PGSIZE in *; lia) Hf) as (_ & Ep & Hb).
    assert (is_user_entry (entry pa fl) = true) as Hus by (unfold is_user_entry; rewrite Hb by lia; unfold fl; by rewrite !Z.lor_spec, !orb_true_r).
    split; rewrite Ep; [by rewrite (managed_layout m m' _ (gr_layout _ _ _ _ HG))|]. intros _. split; [|done].
    unfold is_cow. rewrite Hb by lia. unfold fl. rewrite !Z.lor_spec. unfold is_cow in Hcow. by rewrite Hcow.
  - apply elem_of_cons in Hs as [->|Hs]; [|apply (Hold s v); [by right|done]]. apply (Hold sp v); [by left|congruence].
Qed.

(** Fewer mappings of one space. *)
Lemma fewer_inv m m' sp sp' ss own : SysInv m (sp :: ss) own → World m' (sp' :: ss) own → same_layout m m' →
  leaf sp' ⊆ leaf sp → SysInv m' (sp' :: ss) own.
Proof.
  intros [HW Hp] HW' Hl Hsub. split; [done|]. intros s v d Hs Ed.
  assert (∃ s', s' ∈ sp :: ss ∧ leaf s' !! v = Some d) as (s' & Hs' & Ed').
  { apply elem_of_cons in Hs as [->|Hs]; [exists sp|exists s]; (split; [in_list|]); [by eapply lookup_weaken|done]. }
  pose proof (Hp s' v d Hs' Ed') as Hpr. apply (private_rc m); [done| |done]. intros _ H1.
  pose proof (rc_fewer m m' sp sp' ss own (PTE2PA d) HW HW' Hl Hsub (leaf_in s _ v d Hs Ed) (proj1 (proj1 Hpr))). lia.
Qed.

Lemma unmap_inv e m sp ss own v npages mode : SysInv m (sp :: ss) own → 0 ≤ v → 0 ≤ npages → v + npages ≤ 2 ^ 27 →
  ∃ m' sp', vmunmap e m (root sp) (v * PGSIZE) npages true mode = Ret m' ∧ SysInv m' (sp' :: ss) own ∧
    same_layout m m' ∧ (∀ s, s ∈ ss → same_view m m' s s) ∧ root sp' = root sp ∧
    ∀ x, view m' sp' x = if decide (v ≤ x < v + npages ∧ kept npages true x = false) then None else view m sp x.
Proof.
  intros HI Hv Hn Hvn. pose proof (si_world _ _ _ HI) as HW.
  destruct (vmunmap_spec e m sp ss own v npages true mode HW Hv Hn Hvn) as (m' & sp' & E & [HW' Hsp Hl Hly _ Hf _]).
  assert (keeps m m' (sp :: ss)) as Hk by (intros a _ Ha; apply Hf; contradict Ha; by apply (tables_in sp); [left|]).
  exists m', sp'. split; [done|]. split; cycle 1.
  { split; [done|]. split; [intros s Hs; apply (keeps_others m m' (sp :: ss) own); [done..|by right]|]. split; [by rewrite Hsp|].
    intros x. specialize (Hl x). case_decide; [unfold view; by rewrite Hl|]. apply (keeps_same m m' (sp :: ss) own); [done..|by left|done]. }
  apply (fewer_inv m m' sp); [done|apply (World_own _ _ _ _ HW'); intros; lia|done|].
  apply map_subseteq_spec. intros x d. rewrite Hl. by case_decide.
Qed.

(** Copying: a page that stays writable is not one that was shared. *)
Lemma range_pages_elem f y n a : a ∈ range_pages f any_page y n →
  ∃ x d, y ≤ x < y + Z.of_nat n ∧ f !! x = Some d ∧ PTE2PA d = a.
Proof.
  induction n as [|n IH]; cbn [range_pages]; [by intros ?%not_elem_of_nil|]. intros [Ha|Ha]%elem_of_app.
  - destruct (IH Ha) as (x & d & ? & ? & ?). exists x, d. split_and!; (done || lia).
  - cbn in Ha. destruct (f !! (y + Z.of_nat n)) as [d|] eqn:E; [|by apply not_elem_of_nil in Ha].
    apply list_elem_of_singleton in Ha as ->. exists (y + Z.of_nat n), d. split_and!; (done || lia).
Qed.

Section fork.
Context (m : Machine) (c p : Space) (ss : list Space) (own : Z → Z) (v n : Z) (rb : option (list CowRollbackRange)).
Context (HI : SysInv m (c :: p :: ss) own) (Hvn : v ≤ n).

Lemma fork_rc cp c' p' s x d : CInv m c p ss own v rb cp c' p' n n [] → s ∈ c :: p :: ss → leaf s !! x = Some d →
  writable d = true → (s = p → ¬ v ≤ x < n) → rc (cp_m cp) (PTE2PA d) = 1.
Proof using HI Hvn.
  intros HC Hs Ed Hw Hout. pose proof (si_world _ _ _ HI) as HW.
  destruct (si_private _ _ _ HI s x d Hs Ed) as [[Hm Husr] Hpr]. destruct (Hpr Hw) as [_ Hr].
  assert (∃ rest, c :: p :: ss ≡ₚ s :: rest) as [rest Hperm] by (apply elem_of_Permutation; done).
  destruct (mapped_once m s rest own x d) as (_ & Hu & Hno); [by apply (World_perm _ (c :: p :: ss))|done..|].
  destruct (decide (PTE2PA d ∈ pages p)) as [Hin|Hin]; cycle 1.
  { rewrite (cr_rc _ _ _ _ _ (ci_rel _ _ _ _ _ _ _ _ _ _ _ _ _ HC)); [done|done|lia]. }
  rewrite (ci_rcs _ _ _ _ _ _ _ _ _ _ _ _ _ HC), Hr, occ_nil by (done || lia).
  assert (¬ 0 < occ (PTE2PA d) (range_pages (leaf p) any_page v (Z.to_nat (n - v)))) as H0; [|pose proof (occ_nonneg (PTE2PA d) (range_pages (leaf p) any_page v (Z.to_nat (n - v)))); lia].
  rewrite occ_pos. intros (x' & d' & Hx' & Ed' & Ep)%range_pages_elem.
  assert (p ∈ s :: rest) as Hp by (rewrite <- Hperm; right; by left). apply elem_of_cons in Hp as [->|Hp]; [|by apply (Hno p)].
  specialize (Hu x' d' Ed' Ep). subst x'. apply Hout; [done|lia].
Qed.

Lemma fork_success cp c' p' : CInv m c p ss own v rb cp c' p' n n [] → SysInv (cp_m cp) (c' :: p' :: ss) own.
Proof using HI Hvn.
  intros HC. pose proof (si_world _ _ _ HI) as HW. pose proof HC as [HWc Hp Hpl Hr Hcl Hn HR _ _ _ _ _].
  assert (same_layout m (cp_m cp)) as Hl by apply HR. assert (p ∈ c :: p :: ss) as Hpin by (right; by left).
  assert (NoDup (all_tables (c :: p :: ss))) as Hnd by apply HW.
  assert (c ≠ p) as Hcp.
  { intros ->. rewrite !all_tables_cons, NoDup_app in Hnd. destruct Hnd as (_ & Hd & _). apply (Hd (root p)); [apply root_in|].
    apply elem_of_app. left. apply root_in. }
  assert (∀ s x d, s ∈ c :: p :: ss → leaf s !! x = Some d → (s = p → ¬ v ≤ x < n) → private_entry (cp_m cp) d) as Hold.
  { intros s x d Hs Ed Hout. destruct (si_private _ _ _ HI s x d Hs Ed) as [[Hm Husr] Hpr].
    split; [by rewrite (managed_layout m)|]. intros Hw. split; [by apply Hpr|]. by apply (fork_rc cp c' p' s x). }
  split; [apply (World_own _ _ _ _ HWc); intros a _; unfold give_own; rewrite occ_nil; lia|].
  intros s x d Hs Ed. rewrite !elem_of_cons in Hs. destruct Hs as [->|[->|Hs]].
  - destruct (decide (v ≤ x < n)) as [Hx|Hx]; [|apply (Hold c x d); [by left|by rewrite <- Hcl|done]].
    specialize (Hn x Hx). destruct (leaf p !! x) as [d0|] eqn:E0; [|apply (Hold c x d); [by left|congruence|done]].
    destruct Hn as [_ Hcopy]. destruct (si_private _ _ _ HI p x d0 Hpin E0) as [[Hm0 Hu0] _].
    unfold copied in Hcopy. rewrite decide_True, Ed in Hcopy by done. injection Hcopy as ->.
    pose proof (leaf_data _ _ _ _ HW Hpin x d0 E0) as Hd0. destruct (PTE2PA_range d0 (proj1 Hd0)) as [Hal Hpa].
    destruct (child_flags_spec d0) as [Hcf Hcb]. destruct (entry_spec (PTE2PA d0) (child_flags d0) Hal Hpa Hcf) as (_ & Ep & Hb).
    split; rewrite Ep; [rewrite (managed_layout m) by done; split; [done|]|].
    { unfold is_user_entry in *. rewrite Hb, Z.lor_spec, Hcb by lia. rewrite Hu0. by destruct (_ || _). }
    unfold writable at 1. rewrite Hb, Z.lor_spec, Hcb by lia.
    destruct (writable d0 || is_cow d0) eqn:E; [done|]. apply orb_false_iff in E as [E _]. unfold writable in E. by rewrite E.
  - rewrite Hpl in Ed. case_decide as Hx; [|by apply (Hold p x d)].
    destruct (leaf p !! x) as [d0|] eqn:E0; [|done]. injection Ed as <-.
    destruct (si_private _ _ _ HI p x d0 Hpin E0) as [[Hm0 Hu0] _].
    pose proof (leaf_data _ _ _ _ HW Hpin x d0 E0) as Hd0. destruct (pentry_pa m d0 Hd0) as [_ Ep].
    split; rewrite Ep; [rewrite (managed_layout m) by done; split; [done|]|]; unfold pentry; rewrite decide_True by done.
    { destruct (writable d0); [|done]. destruct (cow_spec d0 (proj1 Hd0)) as (_ & _ & Hb). unfold is_user_entry in *. by rewrite Hb. }
    destruct (writable d0) eqn:E; [|by rewrite E]. destruct (cow_spec d0 (proj1 Hd0)) as (_ & _ & Hb). unfold writable. by rewrite Hb.
  - apply (Hold s x d); [in_list|done|]. intros ->. assert (World m (p :: c :: ss) own) as HWp by (apply (World_perm _ (c :: p :: ss)); [constructor|done]).
    destruct (world_nodup _ _ _ _ HWp) as [_ Hd].
    destruct (Hd p ltac:(in_list) (root p) (root_in p)). apply root_in.
Qed.

End fork.

(** The views after a copy. *)
Lemma fork_views m c p ss own v n rb cp c' p' : SysInv m (c :: p :: ss) own → CInv m c p ss own v rb cp c' p' n n [] →
  (∀ s, s ∈ ss → same_view m (cp_m cp) s s) ∧ same_view m (cp_m cp) p p' ∧ root c' = root c ∧
  ∀ x, view (cp_m cp) c' x = if decide (v ≤ x < n ∧ is_Some (view m p x)) then view m p x else view m c x.
Proof.
  intros HI HC. pose proof (si_world _ _ _ HI) as HW. pose proof HC as [_ Hp Hpl Hr Hcl Hn HR _ _ _ _ _].
  assert (keeps m (cp_m cp) (c :: p :: ss)) as Hk.
  { intros a Ha Hnt. apply (cr_frames _ _ _ _ _ HR a Ha); contradict Hnt; [apply (tables_in c)|apply (tables_in p)]; (done || in_list). }
  assert (c ∈ c :: p :: ss ∧ p ∈ c :: p :: ss) as [Hci Hpi] by (split; in_list).
  split; [intros s Hs; apply (keeps_others m _ (c :: p :: ss) own); [done..|in_list]|].
  split; [split; [by rewrite Hp|]|split; [done|]]; intros x.
  - specialize (Hpl x). destruct (leaf p !! x) as [d|] eqn:Ed; [|unfold view; rewrite Hpl, Ed; by case_decide].
    destruct (pentry_pa m d (leaf_data _ _ _ _ HW Hpi x d Ed)) as [_ Ep].
    case_decide; apply (keeps_view m _ (c :: p :: ss) own p p' x x d _ HW Hk Hpi Ed Hpl); done.
  - case_decide as Hd; [destruct Hd as [Hx Hs]|destruct (decide (v ≤ x < n)) as [Hx|Hx]].
    + specialize (Hn x Hx). destruct (leaf p !! x) as [d|] eqn:Ed; [|unfold view in Hs; rewrite Ed in Hs; by destruct Hs].
      destruct Hn as [_ Hcopy]. destruct (si_private _ _ _ HI p x d Hpi Ed) as [[Hm Husr] _]. unfold copied in Hcopy. rewrite decide_True in Hcopy by done.
      destruct (PTE2PA_range d (proj1 (leaf_data _ _ _ _ HW Hpi x d Ed))) as [Hal Hpa].
      apply (keeps_view m _ (c :: p :: ss) own p c' x x d _ HW Hk Hpi Ed Hcopy). by apply entry_spec; [..|apply child_flags_spec].
    + apply (keeps_same m _ (c :: p :: ss) own); [done..|]. specialize (Hn x Hx). destruct (leaf p !! x) as [d|] eqn:Ed; [|done].
      destruct Hd. split; [done|]. destruct (si_private _ _ _ HI p x d Hpi Ed) as [[Hm Husr] _].
      destruct (ok_frames _ (w_ok _ _ _ HW) _ Hm) as (ws & E & _). unfold view. rewrite Ed. cbn. eauto.
    + apply (keeps_same m _ (c :: p :: ss) own); [done..|]. by apply Hcl.
Qed.

Lemma fork_failed_views m c p ss own v n m' : SysInv m (c :: p :: ss) own → copy_failed m c p ss own v n m' →
  ∃ c' y, SysInv m' (c' :: p :: ss) own ∧ same_layout m m' ∧ (∀ s, s ∈ p :: ss → same_view m m' s s) ∧
    root c' = root c ∧ v ≤ y < n ∧ ∀ x, view m' c' x = if decide (0 ≤ x < y) then None else view m c x.
Proof.
  intros HI (c' & y & Hy & HW' & Hr & Hl & Hleaf & Hf & _). pose proof (si_world _ _ _ HI) as HW. exists c', y.
  assert (keeps m m' (c :: p :: ss)) as Hk.
  { intros a Ha Hnt. apply (Hf a Ha); contradict Hnt; [apply (tables_in c)|apply (tables_in p)]; (done || in_list). }
  split_and!; try done; try lia.
  - apply (fewer_inv m m' c); [done|done|done|]. apply map_subseteq_spec. intros x d. rewrite Hleaf. by case_decide.
  - intros s Hs. apply (keeps_others m m' (c :: p :: ss) own); [done..|in_list].
  - intros x. specialize (Hleaf x). case_decide; [unfold view; by rewrite Hleaf|].
    apply (keeps_same m m' (c :: p :: ss) own); [done..|by left|done].
Qed.

Lemma fork_inv e m c p ss own start size defer rb : SysInv m (c :: p :: ss) own →
  (root c ≠ k_pagetable e ∨ k_pagetable e = 0) → 0 ≤ start → 0 < size → end_page start size * PGSIZE ≤ USER_MEMORY_TOP →
  (∀ rs, rb = Some rs → Forall range_ok rs) →
  let v := first_page start in let n := end_page start size in
  ∃ cp r c' p', vm_copy e m (root p) (root c) start size defer rb = Ret (cp, r) ∧
    SysInv (cp_m cp) (c' :: p' :: ss) own ∧ same_layout m (cp_m cp) ∧ root c' = root c ∧
    (∀ s, s ∈ ss → same_view m (cp_m cp) s s) ∧ same_view m (cp_m cp) p p' ∧
    (((r = 0 ∨ r = 1) ∧ ∀ x, view (cp_m cp) c' x = if decide (v ≤ x < n ∧ is_Some (view m p x)) then view m p x else view m c x) ∨
     (r = -1 ∧ ∃ y, v ≤ y < n ∧ ∀ x, view (cp_m cp) c' x = if decide (0 ≤ x < y) then None else view m c x)).
Proof.
  intros HI Hk Hst Hsz Htop Hrb v n. pose proof (si_world _ _ _ HI) as HW.
  assert (v ≤ n) as Hvn by (unfold v, n, first_page, end_page; apply Z.div_le_mono; unfold PGSIZE; lia).
  destruct (vm_copy_spec e m c p ss own start size defer rb HW Hk Hst Hsz Htop) as [(cp & c' & p' & E & HC)|(cp & E & Hf & _)].
  - intros x d _ Ed Hw. by apply (si_private _ _ _ HI p x d ltac:(right; by left) Ed).
  - intros x d _ Ed Hn. by destruct (si_private _ _ _ HI p x d ltac:(right; by left) Ed) as [[? _] _].
  - done.
  - destruct (fork_views m c p ss own _ _ rb cp c' p' HI HC) as (Hs & Hp & Hr & Hx). exists cp. eexists. exists c', p'.
    split; [exact E|]. split; [by eapply fork_success|]. split; [apply (ci_rel _ _ _ _ _ _ _ _ _ _ _ _ _ HC)|].
    split_and!; [done..|]. left. split; [destruct (parent_cow_changed cp); auto|done].
  - destruct (fork_failed_views m c p ss own _ _ _ HI Hf) as (c' & y & HI' & Hl & Hs & Hr & Hy & Hx).
    exists cp, (-1), c', p. split_and!; [done..| |apply Hs; by left|right; eauto]. intros s Hin. apply Hs. by right.
Qed.

(** Freeing the tables: the references of pages still mapped stay behind. *)
Lemma destroy_inv m sp ss own : SysInv m (sp :: ss) own →
  ∃ m', freewalk 3 m (root sp) = Ret m' ∧ SysInv m' ss (λ a, own a + occ a (pages sp)) ∧ same_layout m m' ∧
    ∀ s, s ∈ ss → same_view m m' s s.
Proof.
  intros [HW Hp]. destruct (freewalk_spec m sp ss own HW) as (m' & E & HF).
  { intros v d Ed. destruct (Hp sp v d ltac:(by left) Ed) as [[_ Hu] _]. intros E. destruct (flags_of_spec d) as [_ Hb].
    unfold is_user_entry in Hu. rewrite <- Hb, E in Hu by lia. done. }
  exists m'. split; [done|]. split; [split; [by apply (World_freed m)|]|split; [apply HF|]].
  - intros s v d Hs Ed. destruct (Hp s v d ltac:(by right) Ed) as [[Hm Hu] Hw]. apply (private_rc m); [apply HF| |by split].
    intros _ H1. rewrite (fd_rc _ _ _ _ HF), decide_False; [done|]. intros Hin.
    apply (table_not_page _ _ _ HW (PTE2PA d)); [by apply (tables_in sp); [left|]|]. by apply (leaf_in s _ v); [right|].
  - intros s Hs. apply (keeps_others m m' (sp :: ss) own); [done| |by right]. intros a _ Ha. apply (fd_frames _ _ _ _ HF).
    contradict Ha. by apply (tables_in sp); [left|].
Qed.

(** Changing the permissions of private pages. *)
Lemma protect_inv m sp ss own v npages prot vma_at : SysInv m (sp :: ss) own → 0 ≤ v → 0 < npages → v + npages ≤ 2 ^ 27 →
  (∀ a, vma_has_shared_write_semantics (vma_at a) = false) →
  ∃ m' sp' ch, protectpages m (root sp) (v * PGSIZE) (npages * PGSIZE) prot vma_at true = Ret (m', 0, ch) ∧
    SysInv m' (sp' :: ss) own ∧ same_layout m m' ∧ same_view m m' sp sp' ∧ ∀ s, s ∈ ss → same_view m m' s s.
Proof.
  intros [HW Hp] Hv Hn Hvn Hpriv.
  destruct (protectpages_spec prot vma_at m sp ss own v npages HW Hv Hn Hvn) as (m' & f & ch & E & HW' & (Epm & _ & Hf) & Hleaf).
  exists m', (with_leaf sp f), ch. split; [done|].
  assert (keeps m m' (sp :: ss)) as Hk by (intros a _ Ha; apply Hf; contradict Ha; by apply (tables_in sp); [left|]).
  assert (same_layout m m') as Hl by (unfold same_layout; by rewrite Epm).
  assert (∀ a, managed m' a ↔ managed m a) as Hman by (intros a; by apply managed_layout).
  assert (∀ a, rc m' a = rc m a) as Hrc by (intros a; unfold rc, ref, index_of; rewrite Epm; by apply decide_ext).
  assert (∀ x nd, f !! x = Some nd → ∃ d, leaf sp !! x = Some d ∧ PTE2PA nd = PTE2PA d ∧
    (nd = d ∨ protected m prot (vma_at (x * PGSIZE)) d nd)) as Hent.
  { intros x nd Ex. destruct (Hleaf x) as [H1 H2]. destruct (decide (v ≤ x < v + npages)) as [Hx|Hx].
    - specialize (H1 Hx). destruct (leaf sp !! x) as [d|]; [|congruence]. destruct H1 as (nd' & E' & HP).
      rewrite Ex in E'. injection E' as <-. exists d. pose proof HP as (_ & ? & _). auto.
    - rewrite H2 in Ex by done. eauto. }
  split; [split; [done|]|split; [done|split]].
  - intros s x nd [->|Hs]%elem_of_cons Ex; cycle 1.
    { apply (private_rc m); [done|by rewrite Hrc|]. by apply (Hp s x nd ltac:(by right)). }
    destruct (Hent x nd Ex) as (d & Ed & Ep & HP). destruct (Hp sp x d ltac:(by left) Ed) as [[Hm Hu] Hw].
    destruct HP as [->|(_ & _ & Hb)]; [apply (private_rc m); [done|by rewrite Hrc|by split]|].
    split; [split; [rewrite Ep; by apply Hman|unfold is_user_entry; by rewrite Hb by lia]|].
    unfold writable, is_cow. rewrite !Hb, Hrc, Ep by lia. unfold new_flag. cbn [decide]. intros [Hwr Hc]%andb_prop.
    assert (0 < rc m (PTE2PA d)).
    { apply single_rc; [apply HW|]. apply (w_page _ _ _ HW); [by apply (leaf_in sp _ x); [left|]|done]. }
    apply negb_true_iff in Hc. rewrite Hwr. split; [done|].
    unfold as_cow in Hc. rewrite Hpriv, bool_decide_eq_true_2 in Hc by done. apply orb_false_iff in Hc as [_ Hc%Z.ltb_ge]. lia.
  - split; [done|]. intros x. destruct (Hleaf x) as [H1 H2]. destruct (decide (v ≤ x < v + npages)) as [Hx|Hx].
    + specialize (H1 Hx). destruct (leaf sp !! x) as [d|] eqn:Ed; [|unfold view; cbn [leaf with_leaf]; by rewrite H1, Ed].
      destruct H1 as (nd & Ex & _ & Ep & _). apply (keeps_view m m' (sp :: ss) own _ _ x x d nd); (done || by left).
    + apply (keeps_same m m' (sp :: ss) own); [done..|by left|by apply H2].
  - intros s Hs. apply (keeps_others m m' (sp :: ss) own); [done..|by right].
Qed.

(** ** Reads and writes of a process *)

(** The contents of page [v] of the address space with root [base]. *)
Definition page_view (m : Machine) (base v : Z) : outcome (option (list Z)) :=
  let! (m, pte) := walk m base (v * PGSIZE) false in
  if is_null pte then Ret None else
  let! valid := is_valid m pte in
  if negb valid then Ret None else
  let! pa := PageTable.pa m pte in Ret (frames m !! pa).

(** The entry of page [v]. *)
Definition leaf_entry (m : Machine) (base v : Z) : outcome (option Z) :=
  let! (m, pte) := walk m base (v * PGSIZE) false in
  if is_null pte then Ret None else
  let! d := get_data m pte in
  Ret (if Z.testbit d 0 then Some d else None).

(** A store the processor translates: the entry must allow the user to write. *)
Definition try_store (m : Machine) (base va val : Z) : outcome (option Machine) :=
  let! (m, pte) := walk m base va false in
  if is_null pte then Ret None else
  let! d := get_data m pte in
  if Z.testbit d 0 && is_user_entry d && writable d
  then let! m := store_word m (PTE2PA d + va mod PGSIZE) val in Ret (Some m)
  else Ret None.

(** [fault_page] for a write, up to and including [resolve_cow_page]; [vm] is the area
    that covers the address, if there is one, by its [prot] and what [resolve_cow_page]
    uses of it.  The growth of a stack area and the population of a page that is not
    there, which the code tries next, are not part of it. *)
Definition fault_page_write (e : Env) (m : Machine) (base va : Z) (vm : option (Z * CowArea)) (new_overlay : bool)
    : outcome (Machine * Z) :=
  let page_va := PGROUNDDOWN va in
  match vm with
  | None => Ret (m, -1)
  | Some (prot, area) =>
      if Z.land prot PROT_WRITE =? 0 then Ret (m, -1) else
      let! (m, _, res) := resolve_cow_page e m base page_va area new_overlay in Ret (m, res)
  end.

(** A store that faults is tried again after [fault_page] succeeded; the result tells
    whether it was done. *)
Definition user_store (e : Env) (m : Machine) (base va val : Z) (vm : option (Z * CowArea)) (new_overlay : bool)
    : outcome (Machine * bool) :=
  let! r := try_store m base va val in
  match r with
  | Some m => Ret (m, true)
  | None =>
      let! (m, ok) := fault_page_write e m base va vm new_overlay in
      if negb (ok =? 0) then Ret (m, false) else
      let! r := try_store m base va val in
      match r with Some m => Ret (m, true) | None => Ret (m, false) end
  end.

Lemma page_view_spec m ss own sp v : World m ss own → sp ∈ ss → 0 ≤ v < 2 ^ 27 →
  page_view m (root sp) v = Ret (leaf sp !! v ≫= λ d, frames m !! PTE2PA d).
Proof.
  intros HW Hs Hv. unfold page_view. pose proof (vpn_page v Hv) as Ev. pose proof (Z.mod_pos_bound v 512 ltac:(lia)) as Hvm.
  destruct (low sp !! (v / 512)) as [b|] eqn:Eb; cycle 1.
  { rewrite (walk_missing _ _ _ _ HW Hs) by (by rewrite Ev). cbn.
    destruct (leaf sp !! v) as [d|] eqn:Ed; [|done]. destruct (leaf_low _ _ _ _ HW Hs v d Ed). congruence. }
  pose proof (low_managed _ _ _ _ HW Hs _ b Eb) as Hbm. pose proof (w_ok _ _ _ HW) as HO.
  rewrite (walk_found _ _ _ _ HW Hs _ _ b) by (by rewrite Ev). cbn [obind]. rewrite Ev.
  rewrite (slot_not_null m), valid_slot, pa_slot, (word_leaf _ _ _ _ HW Hs v b Eb) by done. cbn [obind].
  destruct (leaf sp !! v) as [d|] eqn:Ed; [|done]. change (default 0 (Some d)) with d.
  by rewrite (proj2 (leaf_data _ _ _ _ HW Hs v d Ed)).
Qed.

Lemma leaf_entry_spec m ss own sp v : World m ss own → sp ∈ ss → 0 ≤ v < 2 ^ 27 → leaf_entry m (root sp) v = Ret (leaf sp !! v).
Proof.
  intros HW Hs Hv. unfold leaf_entry. pose proof (vpn_page v Hv) as Ev. pose proof (Z.mod_pos_bound v 512 ltac:(lia)) as Hvm.
  destruct (low sp !! (v / 512)) as [b|] eqn:Eb; cycle 1.
  { rewrite (walk_missing _ _ _ _ HW Hs) by (by rewrite Ev). cbn.
    destruct (leaf sp !! v) as [d|] eqn:Ed; [|done]. destruct (leaf_low _ _ _ _ HW Hs v d Ed). congruence. }
  pose proof (low_managed _ _ _ _ HW Hs _ b Eb) as Hbm. pose proof (w_ok _ _ _ HW) as HO.
  rewrite (walk_found _ _ _ _ HW Hs _ _ b) by (by rewrite Ev). cbn [obind]. rewrite Ev.
  rewrite (slot_not_null m), get_slot, (word_leaf _ _ _ _ HW Hs v b Eb) by done. cbn [obind].
  destruct (leaf sp !! v) as [d|] eqn:Ed; [|done]. change (default 0 (Some d)) with d.
  by rewrite (proj2 (leaf_data _ _ _ _ HW Hs v d Ed)).
Qed.

(** Two spaces of a world with the same root are the same. *)
Lemma root_inj m ss own sp sp' : World m ss own → sp ∈ ss → sp' ∈ ss → root sp = root sp' → sp = sp'.
Proof.
  intros HW Hs Hs' Er. assert (∃ rest, ss ≡ₚ sp :: rest) as [rest Hp] by (apply elem_of_Permutation; done).
  rewrite Hp in Hs'. apply elem_of_cons in Hs' as [->|Hs']; [done|]. apply (World_perm _ _ _ _ Hp) in HW.
  destruct (world_nodup _ _ _ _ HW) as [_ Hd]. destruct (Hd sp' Hs' (root sp) (root_in sp)). rewrite Er. apply root_in.
Qed.

(** ** A store *)

(** What a store does when the entry allows it. *)
Definition stored (m m' : Machine) (pa i val : Z) : Prop :=
  m' = with_frames m (<[pa := <[Z.to_nat i := val]> (frame m pa)]> (frames m)).

Lemma try_store_spec m sp ss own va val : World m (sp :: ss) own → 0 ≤ va < 2 ^ 39 → va mod 8 = 0 →
  (∀ v d, leaf sp !! v = Some d → managed m (PTE2PA d)) →
  match leaf sp !! (va / PGSIZE) with
  | Some d => if is_user_entry d && writable d
      then ∃ m', try_store m (root sp) va val = Ret (Some m') ∧ stored m m' (PTE2PA d) (va mod PGSIZE / 8) val
      else try_store m (root sp) va val = Ret None
  | None => try_store m (root sp) va val = Ret None
  end.
Proof.
  intros HW Hva H8 Hman. assert (sp ∈ sp :: ss) as Hs by (by left). set (v := va / PGSIZE).
  assert (0 ≤ v < 2 ^ 27) as Hv by (split; [apply Z.div_pos; unfold PGSIZE; lia|apply Z.div_lt_upper_bound; unfold PGSIZE; lia]).
  assert (vpn va = v) as Ev by (apply Z.mod_small; done). pose proof (Z.mod_pos_bound v 512 ltac:(lia)) as Hvm.
  unfold try_store. destruct (low sp !! (v / 512)) as [b|] eqn:Eb; cycle 1.
  { rewrite (walk_missing _ _ _ _ HW Hs) by (by rewrite Ev). cbn.
    destruct (leaf sp !! v) as [d|] eqn:Ed; [|done]. destruct (leaf_low _ _ _ _ HW Hs v d Ed). congruence. }
  pose proof (low_managed _ _ _ _ HW Hs _ b Eb) as Hbm. pose proof (w_ok _ _ _ HW) as HO.
  rewrite (walk_found _ _ _ _ HW Hs _ _ b) by (by rewrite Ev). cbn [obind]. rewrite Ev.
  rewrite (slot_not_null m), get_slot, (word_leaf _ _ _ _ HW Hs v b Eb) by done. cbn [obind].
  destruct (leaf sp !! v) as [d|] eqn:Ed; [|done]. change (default 0 (Some d)) with d.
  pose proof (leaf_data _ _ _ _ HW Hs v d Ed) as [Hd Hd0]. rewrite Hd0. cbn [andb].
  destruct (is_user_entry d && writable d); [|done].
  pose proof (Hman v d Ed) as Hm. pose proof (Z.mod_pos_bound va PGSIZE ltac:(done)) as Hmod.
  set (i := va mod PGSIZE / 8). assert (va mod PGSIZE = 8 * i) as Ei.
  { unfold i. rewrite (Z.div_mod va PGSIZE), Z.add_mod in H8 by done.
    assert ((PGSIZE * (va / PGSIZE)) mod 8 = 0) as E8 by (unfold PGSIZE; rewrite <- (Z.mul_assoc 8 512), Z.mul_comm; by apply Z_mod_mult).
    rewrite E8, Z.add_0_l, Z.mod_mod in H8 by done. pose proof (Z.div_mod (va mod PGSIZE) 8). lia. }
  rewrite Ei. change (PTE2PA d + 8 * i) with (slot (PTE2PA d) i).
  assert (0 ≤ i < 512) as Hi by (unfold PGSIZE in *; lia).
  pose proof (set_slot m (PTE2PA d) i HO Hm Hi val) as Hset. unfold set_data in Hset.
  destruct (slot_spec m (PTE2PA d) i HO Hm Hi) as (Hsane & _). rewrite Hsane in Hset. cbn [negb] in Hset. rewrite Hset.
  eexists. split; [done|done].
Qed.

(** A store through a writable entry changes one page of one space. *)
Lemma stored_inv m m' sp ss own v d i val : SysInv m (sp :: ss) own → leaf sp !! v = Some d → writable d = true →
  stored m m' (PTE2PA d) i val →
  SysInv m' (sp :: ss) own ∧ (∀ x, x ≠ v → view m' sp x = view m sp x) ∧
  (∀ s x, s ∈ ss → view m' s x = view m s x) ∧
  view m sp v = Some (frame m (PTE2PA d)) ∧ view m' sp v = Some (<[Z.to_nat i := val]> (frame m (PTE2PA d))).
Proof.
  intros [HW Hp] Ed Hw ->. destruct (Hp sp v d ltac:(by left) Ed) as [[Hm Husr] Hpr]. destruct (Hpr Hw) as [_ Hr].
  destruct (mapped_once m sp ss own v d HW Ed Hm Hr) as (_ & Hu & Hno). pose proof (w_ok _ _ _ HW) as HO.
  assert (∀ s x, (∀ dx, leaf s !! x = Some dx → PTE2PA dx ≠ PTE2PA d) →
    view (with_frames m (<[PTE2PA d := <[Z.to_nat i := val]> (frame m (PTE2PA d))]> (frames m))) s x = view m s x) as Hv.
  { intros s x Hx. unfold view. destruct (leaf s !! x) as [dx|]; [|done]. cbn.
    rewrite lookup_insert_ne; [done|]. intros E. by apply (Hx dx). }
  split_and!.
  - split; [|done]. apply World_page; [done| |rewrite length_insert; by apply frame_length].
    apply (w_page _ _ _ HW); [|done]. by apply (leaf_in sp _ v); [left|].
  - intros x Hx. apply Hv. intros dx Edx Ep. apply Hx. by apply (Hu x dx).
  - intros s x Hs. apply Hv. intros dx Edx Ep. apply (Hno s Hs). rewrite <- Ep. apply list_elem_of_fmap. exists dx.
    split; [done|]. apply elem_of_vals. eauto.
  - unfold view. rewrite Ed. cbn. destruct (ok_frames _ HO _ Hm) as (ws & E & _). by unfold frame; rewrite E.
  - unfold view. rewrite Ed. cbn. by rewrite lookup_insert_eq.
Qed.

(** A resolved entry refers to a page of its own; no contents change. *)
Lemma resolved_inv m m' sp ss own v d nd : SysInv m (sp :: ss) own → leaf sp !! v = Some d →
  Resolved m m' sp ss own v d nd → rc m' (PTE2PA nd) = 1 →
  SysInv m' (put_leaf sp v (Some nd) :: ss) own ∧
  (∀ x, view m' (put_leaf sp v (Some nd)) x = view m sp x) ∧ (∀ s x, s ∈ ss → view m' s x = view m s x).
Proof.
  intros [HW Hp] Ed [HW' Hl Hfl Hpg Hrc Hfr] H1.
  assert (∀ x, leaf (put_leaf sp v (Some nd)) !! x = if decide (x = v) then Some nd else leaf sp !! x) as Hput.
  { intros x. unfold put_leaf. cbn. case_decide as E; [subst; apply lookup_partial_alter_eq|by apply lookup_partial_alter_ne]. }
  assert (∀ s x dx, s ∈ sp :: ss → leaf s !! x = Some dx → (s = sp → x ≠ v) → PTE2PA dx = PTE2PA d → rc m (PTE2PA dx) ≠ 1) as Htwice.
  { intros s x dx Hs Edx Hne Ep Hr. apply elem_of_Permutation in Hs as [rest Hperm].
    destruct (Hp s x dx ltac:(rewrite Hperm; by left) Edx) as [[Hm Husr] _].
    destruct (mapped_once m s rest own x dx) as (_ & Hu & Hno); [by apply (World_perm _ (sp :: ss))|done..|].
    assert (sp ∈ s :: rest) as Hsp by (rewrite <- Hperm; by left). apply elem_of_cons in Hsp as [<-|Hsp].
    - apply Hne; [done|]. symmetry. by apply (Hu v d).
    - apply (Hno sp Hsp). rewrite Ep. apply list_elem_of_fmap. exists d. split; [done|]. apply elem_of_vals. eauto. }
  assert (∀ s x dx, s ∈ sp :: ss → leaf s !! x = Some dx → (s = sp → x ≠ v) → private_entry m' dx) as Hold.
  { intros s x dx Hs Edx Hne. destruct (Hp s x dx Hs Edx) as [[Hm Husr] Hpr]. split; [by rewrite (managed_layout m)|].
    intros Hw. destruct (Hpr Hw) as [Hc Hr]. split; [done|]. rewrite Hrc; [done|lia|]. intros Ep. by apply (Htwice s x dx). }
  assert (∀ s x dx, s ∈ sp :: ss → leaf s !! x = Some dx → frames m' !! PTE2PA dx = frames m !! PTE2PA dx) as Hfs.
  { intros s x dx Hs Edx. pose proof (leaf_in s _ x dx Hs Edx) as Hin. apply Hfr.
    - intros Hm. apply single_rc; [apply HW|]. by apply (w_page _ _ _ HW).
    - intros Ht. apply (table_not_page _ _ _ HW (PTE2PA dx)); [|done]. by apply (tables_in sp); [left|]. }
  destruct (world_nodup _ _ _ _ HW) as [_ Hd].
  assert (sp ∉ ss) as Hnew by (intros Hs; apply (Hd sp Hs (root sp)); apply root_in).
  split; [split; [done|]|split].
  - intros s x dx [->|Hs]%elem_of_cons Edx; [|apply (Hold s x dx); [by right|done|by intros ->]].
    rewrite Hput in Edx. case_decide; [injection Edx as <-|by apply (Hold sp x dx); [left|..]].
    split; [split|].
    { destruct (decide (managed m' (PTE2PA nd))); [done|]; rewrite rc_unmanaged in H1 by done; lia. }
    { destruct (Hp sp v d ltac:(by left) Ed) as [[_ Husr] _]. unfold is_user_entry in *. by rewrite Hfl by lia. }
    intros _. split; [|done]. unfold is_cow. by rewrite Hfl by lia.
  - intros x. unfold view. rewrite Hput. case_decide; [subst; by rewrite Ed|].
    destruct (leaf sp !! x) as [dx|] eqn:E; [|done]. cbn. by apply (Hfs sp x); [left|].
  - intros s x Hs. unfold view. destruct (leaf s !! x) as [dx|] eqn:E; [|done]. cbn. by apply (Hfs s x); [right|].
Qed.

(** Resolving a fault of a process in an area without an object. *)
Lemma resolve_inv e m sp ss own va area nov : SysInv m (sp :: ss) own → 0 ≤ va < 2 ^ 39 →
  object_private_mapping area = false →
  let v := va / PGSIZE in
  (resolve_cow_page e m (root sp) va area nov = Ret (m, area, -1) ∧
    ((∀ d, leaf sp !! v = Some d → is_user_entry d && is_cow d = false) ∨ free_count m = 0)) ∨
  ∃ m' d nd, resolve_cow_page e m (root sp) va area nov = Ret (m', area, 0) ∧
    leaf sp !! v = Some d ∧ is_user_entry nd = true ∧ writable nd = true ∧
    Resolved m m' sp ss own v d nd ∧ rc m' (PTE2PA nd) = 1.
Proof.
  intros [HW Hp] Hva Harea v.
  assert (∀ d, leaf sp !! v = Some d → is_user_entry d && is_cow d = false →
    resolve_cow_page e m (root sp) va area nov = Ret (m, area, -1)) as Hno.
  { intros d Ed H. apply (resolve_refused e m sp ss own); [done..|]. intros d' Ed'. unfold v in Ed. rewrite Ed in Ed'. injection Ed' as <-.
    apply andb_false_iff in H as [->| ->]; auto. }
  destruct (leaf sp !! v) as [d|] eqn:Ed; cycle 1.
  { left. split; [|left; congruence]. apply (resolve_refused e m sp ss own); [done..|]. unfold v in Ed. intros d'. by rewrite Ed. }
  destruct (is_user_entry d && is_cow d) eqn:Hd; [|left; split; [by apply (Hno d)|left; congruence]].
  apply andb_prop in Hd as [Hu Hc]. destruct (Hp sp v d ltac:(by left) Ed) as [[Hm Husr] Hpr].
  assert (shared_entry m sp va d) as Hsh by done.
  assert (∀ nd, unshared_flags d nd → is_user_entry nd = true ∧ writable nd = true) as Hfl.
  { intros nd Hfl. unfold is_user_entry, writable. rewrite !Hfl by lia. done. }
  destruct (decide (rc m (PTE2PA d) = 1)) as [H1|H1].
  - right. destruct (resolve_alone e m sp ss own va area nov HW Hva d Hsh) as (m' & E & HR & Hrc).
    { unfold alone. by rewrite Harea, H1. }
    exists m', d, (uncow d). destruct (Hfl _ (rs_flags _ _ _ _ _ _ _ _ HR)). split_and!; try done. rewrite Hrc.
    by rewrite (proj1 (proj2 (uncow_spec d (proj1 (leaf_data _ _ _ _ HW ltac:(by left) v d Ed))))).
  - destruct (resolve_anonymous e m sp ss own va area nov HW Hva d Hsh Harea H1) as [[E ?]|(m' & nd & E & HR & H & _)];
      [left; auto|right]. exists m', d, nd. by destruct (Hfl _ (rs_flags _ _ _ _ _ _ _ _ HR)).
Qed.

(** A page the user may write, directly or after a copy. *)
Definition may_write (d : Z) : bool := is_user_entry d && (writable d || is_cow d).

(** The area allows writes. *)
Definition write_area (vm : option (Z * CowArea)) : bool :=
  match vm with Some (prot, _) => negb (Z.land prot PROT_WRITE =? 0) | None => false end.

(** The area, if any, is no private mapping of an object. *)
Definition object_less (vm : option (Z * CowArea)) : Prop :=
  ∀ prot area, vm = Some (prot, area) → object_private_mapping area = false.

Lemma fault_inv e m sp ss own va vm nov : SysInv m (sp :: ss) own → 0 ≤ va < 2 ^ 39 → object_less vm →
  let v := va / PGSIZE in
  (fault_page_write e m (root sp) va vm nov = Ret (m, -1) ∧
    (write_area vm = false ∨ (∀ d, leaf sp !! v = Some d → is_user_entry d && is_cow d = false) ∨ free_count m = 0)) ∨
  ∃ m' d nd, fault_page_write e m (root sp) va vm nov = Ret (m', 0) ∧ write_area vm = true ∧
    leaf sp !! v = Some d ∧ is_user_entry nd = true ∧ writable nd = true ∧
    Resolved m m' sp ss own v d nd ∧ rc m' (PTE2PA nd) = 1.
Proof.
  intros HI Hva Hvm v. unfold fault_page_write. destruct vm as [[prot area]|]; [|left; auto].
  unfold write_area. destruct (Z.land prot PROT_WRITE =? 0) eqn:Ew; [left; auto|]. cbn [negb].
  rewrite PGROUNDDOWN_div by lia. fold v.
  assert (0 ≤ v * PGSIZE ≤ va) as Hpg by (unfold v; pose proof (Z.mul_div_le va PGSIZE ltac:(done)); split; [apply Z.mul_nonneg_nonneg; [apply Z.div_pos; [lia|done]|done]|lia]).
  destruct (resolve_inv e m sp ss own (v * PGSIZE) area nov HI ltac:(lia) (Hvm _ _ eq_refl)) as [[E H]|(m' & d & nd & E & H)];
    rewrite Z.div_mul in H by done; rewrite E; cbn [obind].
  - left. split; [done|by right].
  - right. exists m', d, nd. done.
Qed.

(** What a store of a process does. *)
Record Stored (m m' : Machine) (sp sp' : Space) (ss : list Space) (own : Z → Z) (va val : Z) (may_fault ok : bool) : Prop := {
  st_inv : SysInv m' (sp' :: ss) own;
  st_root : root sp' = root sp;
  st_layout : same_layout m m';
  st_other : ∀ s x, s ∈ ss → view m' s x = view m s x;
  st_same : ∀ x, x ≠ va / PGSIZE → view m' sp' x = view m sp x;
  st_allowed : ok = true → ∃ d, leaf sp !! (va / PGSIZE) = Some d ∧ (is_user_entry d && writable d = true ∨ may_fault = true);
  st_page : if ok
    then ∃ ws, view m sp (va / PGSIZE) = Some ws ∧
      view m' sp' (va / PGSIZE) = Some (<[Z.to_nat (va mod PGSIZE / 8) := val]> ws)
    else m' = m ∧ sp' = sp ∧
      (may_fault = false ∨ (∀ d, leaf sp !! (va / PGSIZE) = Some d → may_write d = false) ∨ free_count m = 0)
}.

Lemma store_inv e m sp ss own va val vm nov : SysInv m (sp :: ss) own → 0 ≤ va < 2 ^ 39 → va mod 8 = 0 → object_less vm →
  ∃ m' sp' ok, user_store e m (root sp) va val vm nov = Ret (m', ok) ∧ Stored m m' sp sp' ss own va val (write_area vm) ok.
Proof.
  intros HI Hva H8 Hvm. pose proof HI as [HW Hp]. unfold user_store.
  assert (∀ m sp, SysInv m (sp :: ss) own → ∀ v d, leaf sp !! v = Some d → managed m (PTE2PA d)) as Hman.
  { intros m1 sp1 [_ Hp1] v d Ed. by apply (Hp1 sp1 v d ltac:(by left)). }
  pose proof (try_store_spec m sp ss own va val HW Hva H8 (Hman _ _ HI)) as Hts.
  assert ((∃ d m', leaf sp !! (va / PGSIZE) = Some d ∧ is_user_entry d && writable d = true ∧ try_store m (root sp) va val = Ret (Some m') ∧
      stored m m' (PTE2PA d) (va mod PGSIZE / 8) val) ∨
    (try_store m (root sp) va val = Ret None ∧
      ∀ d, leaf sp !! (va / PGSIZE) = Some d → is_user_entry d && writable d = false)) as Hcases.
  { destruct (leaf sp !! (va / PGSIZE)) as [d|]; [|by right]. destruct (is_user_entry d && writable d) eqn:E.
    - destruct Hts as (m' & ? & ?). left. eauto 10.
    - right. split; [done|]. by intros ? [= <-]. }
  clear Hts. destruct Hcases as [(d & m' & Ed & Huw & -> & Hst)|[-> Hnw]].
  - exists m', sp, true. split; [done|]. pose proof (proj2 (andb_prop _ _ Huw)) as Hw.
    destruct (stored_inv m m' sp ss own _ d _ _ HI Ed Hw Hst) as (HI' & Hx & Hs & Hv & Hv'). split; eauto. by rewrite Hst.
  - cbn [obind].
    destruct (fault_inv e m sp ss own va vm nov HI Hva Hvm) as [[-> Hno]|(m1 & d & nd & -> & Hwa & Ed & Hun & Hwn & HR & H1)]; cbn [obind Z.eqb negb].
    { exists m, sp, false. split; [done|]. split; try done. split_and!; [done..|]. destruct Hno as [?|[Hno|?]]; [by left|right; left|by right; right].
      intros d Ed. specialize (Hno d Ed). specialize (Hnw d Ed). unfold may_write.
      destruct (is_user_entry d), (writable d), (is_cow d); done. }
    destruct (resolved_inv m m1 sp ss own _ d nd HI Ed HR H1) as (HI1 & Hv1 & Hs1). set (sp1 := put_leaf sp _ _) in *.
    pose proof (try_store_spec m1 sp1 ss own va val (si_world _ _ _ HI1) Hva H8 (Hman _ _ HI1)) as Hts.
    assert (leaf sp1 !! (va / PGSIZE) = Some nd) as E1 by apply lookup_partial_alter_eq.
    rewrite E1, Hun, Hwn in Hts. destruct Hts as (m' & Ets & Hst). change (root sp1) with (root sp) in Ets. rewrite Ets.
    exists m', sp1, true. split; [done|].
    destruct (stored_inv m1 m' sp1 ss own _ nd _ _ HI1 E1 Hwn Hst) as (HI' & Hx & Hs & Hv & Hv').
    split; [done|done|rewrite Hst; apply HR|..].
    + intros s x Hss. by rewrite Hs, Hs1.
    + intros x Hne. by rewrite Hx, Hv1.
    + eauto.
    + eexists. by rewrite <- Hv1, Hv, Hv'.
Qed.

End VmmSystem.
