(* ===== verification/VmmProcs.v ===== *)
(** * Processes with separate memories

    Processes create, grow, unmap, copy and write their address spaces in any
    order.  Although the copies share pages, every process sees a memory of its
    own: the kernel's operations refine a specification in which no page is
    shared. *)
From S2P Require Import Prelude Page Buddy Pmm PmmSpec PageTable Vmm PtRep PtWalk VmmMap VmmUnmap VmmAlloc VmmFork VmmCopy VmmFree VmmCow VmmSystem.
Import Page Pmm PmmSpec PageTable Vmm PtRep PtWalk VmmMap VmmUnmap VmmAlloc VmmFork VmmCopy VmmCow VmmFree VmmProtect VmmSystem.

Module VmmProcs.

(** ** Operations *)

(** Address spaces are named by their root tables. *)
Inductive Op :=
  | Create
  | Grow (r oldsz newsz flags : Z)
  | Unmap (r v npages : Z)
  | Fork (p c start size : Z) (defer_flush : bool)
  | Write_word (r va val : Z) (vm : option (Z * CowArea)) (new_overlay : bool)
  | Protect (r v npages prot : Z) (vma_at : Z → option AreaKind)
  | Destroy (r : Z).

Definition drop_root (r : Z) (rs : list Z) : list Z := base.filter (λ r', r' ≠ r) rs.

Definition exec (e : Env) (m : Machine) (rs : list Z) (op : Op) : outcome (Machine * list Z * Z) :=
  match op with
  | Create => let! (m, b) := vm_create m in Ret (m, if b =? 0 then rs else b :: rs, b)
  | Grow r oldsz newsz flags => let! (m, sz) := uvmalloc e m r oldsz newsz flags in Ret (m, rs, sz)
  | Unmap r v npages => let! m := vmunmap e m r (v * PGSIZE) npages true Invalidate in Ret (m, rs, 0)
  | Fork p c start size defer_flush =>
      let! (cp, res) := vm_copy e m p c start size defer_flush None in Ret (cp_m cp, rs, res)
  | Write_word r va val vm new_overlay =>
      let! (m, ok) := user_store e m r va val vm new_overlay in Ret (m, rs, if ok then 1 else 0)
  | Protect r v npages prot vma_at =>
      let! (m, res, _) := protectpages m r (v * PGSIZE) (npages * PGSIZE) prot vma_at true in Ret (m, rs, res)
  | Destroy r => let! m := freewalk 3 m r in Ret (m, drop_root r rs, 0)
  end.

(** What the callers observe: existing address spaces, ranges in user memory, flags
    without the copy-on-write mark, aligned words, areas that are neither shared mappings
    nor private mappings of an object. *)
Definition allowed (rs : list Z) (op : Op) : Prop :=
  match op with
  | Create => True
  | Grow r oldsz newsz flags =>
      r ∈ rs ∧ 0 ≤ oldsz ≤ newsz ∧ newsz ≤ USER_MEMORY_TOP ∧ 0 ≤ flags < 2 ^ 10 ∧ is_cow flags = false
  | Unmap r v npages => r ∈ rs ∧ 0 ≤ v ∧ 0 ≤ npages ∧ v + npages ≤ 2 ^ 27
  | Fork p c start size _ =>
      p ∈ rs ∧ c ∈ rs ∧ p ≠ c ∧ 0 ≤ start ∧ 0 < size ∧ end_page start size * PGSIZE ≤ USER_MEMORY_TOP
  | Write_word r va val vm _ => r ∈ rs ∧ 0 ≤ va < 2 ^ 39 ∧ va mod 8 = 0 ∧ object_less vm
  | Protect r v npages _ vma_at =>
      r ∈ rs ∧ 0 ≤ v ∧ 0 < npages ∧ v + npages ≤ 2 ^ 27 ∧ ∀ a, vma_has_shared_write_semantics (vma_at a) = false
  | Destroy r => r ∈ rs
  end.

(** ** Separate memories *)

Definition Mem := Z → Z → option (list Z).

Definition upd (A : Mem) (r : Z) (f : Z → option (list Z)) : Mem := λ r' x, if decide (r' = r) then f x else A r' x.

(** The contents of the pages of all address spaces after an operation. *)
Inductive mem_step (rs : list Z) (A : Mem) : Op → list Z → Mem → Z → Prop :=
  | ms_create b : b ∉ rs → b ≠ 0 → mem_step rs A Create (b :: rs) (upd A b (λ _, None)) b
  | ms_create_full : mem_step rs A Create rs A 0
  | ms_grow r oldsz newsz flags : mem_step rs A (Grow r oldsz newsz flags) rs
      (upd A r (λ x, if decide (PGROUNDUP oldsz / PGSIZE ≤ x ∧ x * PGSIZE < newsz) then Some zero_frame else A r x)) newsz
  | ms_grow_failed r oldsz newsz flags : mem_step rs A (Grow r oldsz newsz flags) rs A 0
  | ms_unmap r v npages : mem_step rs A (Unmap r v npages) rs
      (upd A r (λ x, if decide (v ≤ x < v + npages ∧ kept npages true x = false) then None else A r x)) 0
  | ms_fork p c start size defer res : res = 0 ∨ res = 1 → mem_step rs A (Fork p c start size defer) rs
      (upd A c (λ x, if decide (first_page start ≤ x < end_page start size ∧ is_Some (A p x)) then A p x else A c x)) res
  | ms_fork_failed p c start size defer y : first_page start ≤ y < end_page start size →
      mem_step rs A (Fork p c start size defer) rs (upd A c (λ x, if decide (0 ≤ x < y) then None else A c x)) (-1)
  | ms_write r va val vm nov ws : A r (va / PGSIZE) = Some ws → mem_step rs A (Write_word r va val vm nov) rs
      (upd A r (λ x, if decide (x = va / PGSIZE) then Some (<[Z.to_nat (va mod PGSIZE / 8) := val]> ws) else A r x)) 1
  | ms_write_refused r va val vm nov : mem_step rs A (Write_word r va val vm nov) rs A 0
  | ms_protect r v npages prot vma_at : mem_step rs A (Protect r v npages prot vma_at) rs A 0
  | ms_destroy r : mem_step rs A (Destroy r) (drop_root r rs) A 0.

(** The processes of machine [m] see the memory [A]. *)
Definition sees (m : Machine) (rs : list Z) (A : Mem) : Prop :=
  ∀ r x, r ∈ rs → 0 ≤ x < 2 ^ 27 → page_view m r x = Ret (A r x).

(** ** Reachable states *)

(** The kernel's own page table is not a process's: it lies outside the managed
    memory or its page has a reference of the kernel. *)
Definition kernel_table (e : Env) (m0 : Machine) : Prop :=
  k_pagetable e = 0 ∨ ¬ managed m0 (k_pagetable e) ∨ 0 < rc m0 (k_pagetable e).

Inductive reachable (e : Env) (m0 : Machine) : Machine → list Z → Prop :=
  | reach_start : reachable e m0 m0 []
  | reach_step m rs op m' rs' res :
      reachable e m0 m rs → allowed rs op → exec e m rs op = Ret (m', rs', res) → reachable e m0 m' rs'.

(** ** The invariant *)

Section procs.
Context (e : Env) (m0 : Machine) (HO : PmmOk m0) (Hk : kernel_table e m0).

(** References that are not a page table's: those of the start, and those that
    destroyed spaces left behind. *)
Definition keeps_refs (own : Z → Z) : Prop := ∀ a, managed m0 a → rc m0 a ≤ own a.

Definition ProcInv (m : Machine) (rs : list Z) (ss : list Space) : Prop :=
  rs ≡ₚ root <$> ss ∧ (∃ own, SysInv m ss own ∧ keeps_refs own) ∧ same_layout m0 m.

Lemma start_inv : ProcInv m0 [] [].
Proof using HO.
  split; [done|]. split; [|reflexivity]. exists (rc m0). split; [|by intros ??]. split; [|by intros ??? ?%not_elem_of_nil]. split; try done.
  - by intros ? ?%not_elem_of_nil.
  - constructor.
  - by intros ? ?%not_elem_of_nil.
  - by intros ? ?%not_elem_of_nil.
  - intros a _. by apply rc_range.
Qed.

(** A space of the state, and the others. *)
Lemma pick_space m rs ss r : ProcInv m rs ss → r ∈ rs →
  ∃ sp rest own, ss ≡ₚ sp :: rest ∧ root sp = r ∧ SysInv m (sp :: rest) own ∧ keeps_refs own.
Proof using.
  intros (Hrs & (own & HI & Ho) & _). rewrite Hrs. intros (sp & -> & Hs)%list_elem_of_fmap. apply elem_of_Permutation in Hs as [rest Hp].
  exists sp, rest, own. split_and!; [done..|by apply (SysInv_perm m ss)|done].
Qed.

Lemma inv_world m rs ss : ProcInv m rs ss → ∃ own, World m ss own.
Proof using. intros (_ & (own & HI & _) & _). exists own. apply HI. Qed.

Lemma not_kernel m rs ss sp : ProcInv m rs ss → sp ∈ ss → root sp ≠ k_pagetable e ∨ k_pagetable e = 0.
Proof using Hk.
  intros (_ & (own & [HW _] & Hown) & Hl) Hs. destruct Hk as [E|Hk']; [by right|left; intros E].
  assert (root sp ∈ all_tables ss) as Ht by (by apply (tables_in sp); [|apply root_in]).
  destruct (w_table _ _ _ HW _ Ht) as (_ & _ & Ho). rewrite E in *. pose proof (table_managed _ _ _ HW _ Ht) as Hm.
  apply (managed_layout m0 m) in Hm; [|done]. specialize (Hown _ Hm). destruct Hk' as [?|?]; [done|lia].
Qed.

Lemma sees_view m rs ss A sp x : ProcInv m rs ss → sees m rs A → sp ∈ ss → 0 ≤ x < 2 ^ 27 → A (root sp) x = view m sp x.
Proof using.
  intros (Hrs & (own & [HW _] & _) & _) HA Hs Hx. assert (root sp ∈ rs) as Hr by (rewrite Hrs; apply list_elem_of_fmap; eauto).
  specialize (HA (root sp) x Hr Hx). rewrite (page_view_spec m ss own) in HA by done. by injection HA as <-.
Qed.

Lemma view_sees m rs ss A : ProcInv m rs ss → (∀ sp x, sp ∈ ss → 0 ≤ x < 2 ^ 27 → A (root sp) x = view m sp x) → sees m rs A.
Proof using.
  intros (Hrs & (own & [HW _] & _) & _) HA r x. rewrite Hrs. intros (sp & -> & Hs)%list_elem_of_fmap Hx.
  by rewrite (page_view_spec m ss own), HA by done.
Qed.

(** One space changes to [f], the others are seen as before. *)
Lemma change_space m m' rs ss own A sp sp' rest rest' f : ProcInv m rs ss → sees m rs A → ss ≡ₚ sp :: rest →
  SysInv m' (sp' :: rest') own → keeps_refs own → same_layout m m' → root sp' = root sp → Forall2 (same_view m m') rest rest' →
  (∀ x, 0 ≤ x < 2 ^ 27 → view m' sp' x = f x) →
  ProcInv m' rs (sp' :: rest') ∧ sees m' rs (upd A (root sp) f).
Proof using.
  intros HP HA Hss HI' Ho Hl Hr Hrest Hf. pose proof HP as (Hrs & (own0 & HI & _) & Hl0).
  assert (root <$> rest' = root <$> rest) as Er.
  { clear -Hrest. induction Hrest as [|s s' ? ? [E _] _ IH]; [done|]. cbn. by rewrite E, IH. }
  assert (ProcInv m' rs (sp' :: rest')) as HP'.
  { split; [|split; [by exists own|by etrans]]. rewrite Hrs, Hss. cbn. by rewrite Hr, Er. }
  split; [done|]. apply (view_sees m' rs _ _ HP'). intros s x [->|Hs]%elem_of_cons Hx; unfold upd.
  - rewrite decide_True by done. by rewrite Hf.
  - apply list_elem_of_lookup in Hs as [i Ei]. destruct (Forall2_lookup_r _ _ _ _ _ Hrest Ei) as (s0 & E0 & Es & Hv).
    apply list_elem_of_lookup_2 in E0 as Hs0. rewrite Hv, decide_False.
    + rewrite Es. apply (sees_view m rs ss); [done..|rewrite Hss; by right|done].
    + rewrite Es. intros Eq. apply (SysInv_perm _ _ _ _ Hss) in HI. destruct (world_nodup _ _ _ _ (si_world _ _ _ HI)) as [_ Hd].
      apply (Hd s0 Hs0 (root sp) (root_in sp)). rewrite <- Eq. apply root_in.
Qed.

Lemma Forall2_same m m' rest : (∀ s, s ∈ rest → same_view m m' s s) → Forall2 (same_view m m') rest rest.
Proof using. intros H. apply Forall_Forall2_diag, Forall_forall. done. Qed.

(** Nothing is seen to change. *)
Lemma keep_space m m' rs ss own A sp sp' rest : ProcInv m rs ss → sees m rs A → ss ≡ₚ sp :: rest →
  SysInv m' (sp' :: rest) own → keeps_refs own → same_layout m m' → same_view m m' sp sp' → (∀ s, s ∈ rest → same_view m m' s s) →
  ProcInv m' rs (sp' :: rest) ∧ sees m' rs A.
Proof using.
  intros HP HA Hss HI' Ho Hl [Hr Hv] Hs. assert (sp ∈ ss) as Hin by (rewrite Hss; by left).
  destruct (change_space m m' rs ss own A sp sp' rest rest (A (root sp))) as [HP' HA']; [done..|by apply Forall2_same| |].
  { intros x Hx. by rewrite Hv, <- (sees_view m rs ss A sp x) by done. }
  split; [done|]. intros r x Hr' Hx. rewrite HA' by done. unfold upd. by case_decide; subst.
Qed.

Definition simulated (m : Machine) (rs : list Z) (A : Mem) (op : Op) : Prop :=
  ∃ m' rs' res ss' A', exec e m rs op = Ret (m', rs', res) ∧ ProcInv m' rs' ss' ∧ mem_step rs A op rs' A' res ∧ sees m' rs' A'.

Lemma create_step m rs ss A : ProcInv m rs ss → sees m rs A → simulated m rs A Create.
Proof using.
  intros HP HA. pose proof HP as (Hrs & (own & HI & Ho) & Hl). unfold simulated. cbn [exec].
  destruct (create_inv m ss _ HI) as (m' & b & -> & [(-> & -> & _)|(Hb & HI' & Hl' & Hs)]); cbn [obind].
  { exists m, rs, 0, ss, A. split_and!; [done..|constructor|done]. }
  rewrite (proj2 (Z.eqb_neq _ _)) by done. pose proof (si_world _ _ _ HI') as HW'.
  assert (ProcInv m' (b :: rs) (mkSpace b ∅ ∅ ∅ :: ss)) as HP'.
  { split; [cbn; by rewrite Hrs|]. split; [by exists own|by etrans]. }
  exists m', (b :: rs), b, (mkSpace b ∅ ∅ ∅ :: ss), (upd A b (λ _, None)). destruct (world_nodup _ _ _ _ HW') as [_ Hd].
  assert (∀ s, s ∈ ss → root s ≠ b) as Hne.
  { intros s Hin Eq. apply (Hd s Hin b); [apply (root_in (mkSpace b ∅ ∅ ∅))|]. rewrite <- Eq. apply root_in. }
  split_and!; [done|done|..].
  - constructor; [|done]. rewrite Hrs. intros (s & -> & Hin)%list_elem_of_fmap. by apply (Hne s).
  - apply (view_sees m' _ _ _ HP'). intros s x [->|Hin]%elem_of_cons Hx; unfold upd; cbn [root].
    + rewrite decide_True by done. unfold view. cbn. by rewrite lookup_empty.
    + rewrite decide_False by auto. rewrite (sees_view m rs ss) by done. symmetry. by apply Hs.
Qed.

Lemma proc_grow m rs ss A r oldsz newsz flags : ProcInv m rs ss → sees m rs A → allowed rs (Grow r oldsz newsz flags) →
  simulated m rs A (Grow r oldsz newsz flags).
Proof using Hk.
  intros HP HA (Hr & Hsz & Htop & Hfl & Hcow). destruct (pick_space m rs ss r HP Hr) as (sp & rest & own & Hss & <- & HI & Ho).
  assert (sp ∈ ss) as Hin by (rewrite Hss; by left). unfold simulated. cbn [exec].
  destruct (grow_inv e m sp rest _ oldsz newsz flags HI) as (m' & sp' & res & -> & HI' & Hl & Hs & Hres); [by eapply not_kernel|done..|].
  cbn [obind]. destruct Hres as [(-> & Er & Hv)|(-> & Hsame)].
  - destruct (change_space m m' rs ss own A sp sp' rest rest
      (λ x, if decide (PGROUNDUP oldsz / PGSIZE ≤ x ∧ x * PGSIZE < newsz) then Some zero_frame else A (root sp) x))
      as [HP' HA']; [done..|by apply Forall2_same| |].
    { intros x Hx. by rewrite Hv, (sees_view m rs ss A sp x). }
    do 5 eexists. split_and!; [done..|constructor|done].
  - destruct (keep_space m m' rs ss own A sp sp' rest) as [HP' HA']; [done..|].
    do 5 eexists. split_and!; [done..|constructor|done].
Qed.

Lemma proc_unmap m rs ss A r v npages : ProcInv m rs ss → sees m rs A → allowed rs (Unmap r v npages) →
  simulated m rs A (Unmap r v npages).
Proof using.
  intros HP HA (Hr & Hv0 & Hn & Hvn). destruct (pick_space m rs ss r HP Hr) as (sp & rest & own & Hss & <- & HI & Ho).
  assert (sp ∈ ss) as Hin by (rewrite Hss; by left). unfold simulated. cbn [exec].
  destruct (unmap_inv e m sp rest _ v npages Invalidate HI Hv0 Hn Hvn) as (m' & sp' & -> & HI' & Hl & Hs & Er & Hv). cbn [obind].
  destruct (change_space m m' rs ss own A sp sp' rest rest
      (λ x, if decide (v ≤ x < v + npages ∧ kept npages true x = false) then None else A (root sp) x))
      as [HP' HA']; [done..|by apply Forall2_same| |].
  { intros x Hx. by rewrite Hv, (sees_view m rs ss A sp x). }
  do 5 eexists. split_and!; [done..|constructor|done].
Qed.

Lemma fork_step m rs ss A p c start size defer : ProcInv m rs ss → sees m rs A → allowed rs (Fork p c start size defer) →
  simulated m rs A (Fork p c start size defer).
Proof using Hk.
  intros HP HA (Hp & Hc & Hne & Hst & Hsz & Htop). destruct (pick_space m rs ss c HP Hc) as (cs & rest0 & own & Hss & <- & HI0 & Ho).
  assert (∃ ps rest, rest0 ≡ₚ ps :: rest ∧ root ps = p) as (ps & rest & Hrest & <-).
  { destruct HP as (Hrs & _). rewrite Hrs, Hss in Hp. cbn in Hp. apply elem_of_cons in Hp as [?|(ps & -> & Hps)%list_elem_of_fmap]; [done|].
    apply elem_of_Permutation in Hps as [rest ?]. eauto. }
  assert (SysInv m (cs :: ps :: rest) own) as HI by (apply (SysInv_perm m (cs :: rest0)); [by rewrite Hrest|done]).
  rewrite Hrest in Hss.
  assert (cs ∈ ss ∧ ps ∈ ss) as [Hci Hpi] by (rewrite Hss; split; in_list). unfold simulated. cbn [exec].
  destruct (fork_inv e m cs ps rest _ start size defer None HI) as (cp & res & c' & p' & -> & HI' & Hl & Hrc & Hs & Hsp & Hres);
    [by eapply not_kernel|done..|]. cbn [obind].
  assert (Forall2 (same_view m (cp_m cp)) (ps :: rest) (p' :: rest)) as Hall by (constructor; [done|by apply Forall2_same]).
  destruct Hres as [[Hres Hv]|(-> & y & Hy & Hv)].
  - destruct (change_space m (cp_m cp) rs ss own A cs c' (ps :: rest) (p' :: rest)
      (λ x, if decide (first_page start ≤ x < end_page start size ∧ is_Some (A (root ps) x)) then A (root ps) x else A (root cs) x))
      as [HP' HA']; [done..| |].
    { intros x Hx. rewrite Hv. by rewrite !(sees_view m rs ss A _ x). }
    do 5 eexists. split_and!; [done..|by constructor|done].
  - destruct (change_space m (cp_m cp) rs ss own A cs c' (ps :: rest) (p' :: rest) (λ x, if decide (0 ≤ x < y) then None else A (root cs) x))
      as [HP' HA']; [done..| |].
    { intros x Hx. by rewrite Hv, (sees_view m rs ss A _ x). }
    do 5 eexists. split_and!; [done..|by constructor|done].
Qed.

Lemma write_step m rs ss A r va val vm nov : ProcInv m rs ss → sees m rs A →
  allowed rs (Write_word r va val vm nov) → simulated m rs A (Write_word r va val vm nov).
Proof using.
  intros HP HA (Hr & Hva & H8 & Hvm). destruct (pick_space m rs ss r HP Hr) as (sp & rest & own & Hss & <- & HI & Ho).
  assert (sp ∈ ss) as Hin by (rewrite Hss; by left). unfold simulated. cbn [exec].
  assert (0 ≤ va / PGSIZE < 2 ^ 27) as Hpg by (split; [apply Z.div_pos; unfold PGSIZE; lia|apply Z.div_lt_upper_bound; unfold PGSIZE; lia]).
  destruct (store_inv e m sp rest _ va val vm nov HI Hva H8 Hvm) as (m' & sp' & ok & -> & [HI' Er Hl Hs Hx _ Hok]). cbn [obind].
  assert (∀ s, s ∈ rest → same_view m m' s s) as Hsame by (intros s Hsr; split; [done|auto]).
  destruct ok; [destruct Hok as (ws & Hws & Hws')|destruct Hok as (-> & -> & _)].
  - destruct (change_space m m' rs ss own A sp sp' rest rest
      (λ x, if decide (x = va / PGSIZE) then Some (<[Z.to_nat (va mod PGSIZE / 8) := val]> ws) else A (root sp) x))
      as [HP' HA']; [done..|by apply Forall2_same| |].
    { intros x Hxr. case_decide; [by subst|]. by rewrite Hx, (sees_view m rs ss A sp x). }
    do 5 eexists. split_and!; [done..| |done]. constructor. by rewrite (sees_view m rs ss A sp).
  - do 5 eexists. split_and!; [done..|constructor|done].
Qed.

Lemma proc_protect m rs ss A r v npages prot vma_at : ProcInv m rs ss → sees m rs A →
  allowed rs (Protect r v npages prot vma_at) → simulated m rs A (Protect r v npages prot vma_at).
Proof using.
  intros HP HA (Hr & Hv & Hn & Hvn & Hpriv). destruct (pick_space m rs ss r HP Hr) as (sp & rest & own & Hss & <- & HI & Ho).
  unfold simulated. cbn [exec].
  destruct (protect_inv m sp rest own v npages prot vma_at HI Hv Hn Hvn Hpriv) as (m' & sp' & ch & -> & HI' & Hl & Hsp & Hs). cbn [obind].
  destruct (keep_space m m' rs ss own A sp sp' rest) as [HP' HA']; [done..|].
  do 5 eexists. split_and!; [done..|constructor|done].
Qed.

Lemma destroy_step m rs ss A r : ProcInv m rs ss → sees m rs A → allowed rs (Destroy r) → simulated m rs A (Destroy r).
Proof using.
  intros HP HA Hr. destruct (pick_space m rs ss r HP Hr) as (sp & rest & own & Hss & <- & HI & Ho).
  unfold simulated. cbn [exec]. destruct (destroy_inv m sp rest own HI) as (m' & -> & HI' & Hl & Hs). cbn [obind].
  destruct (world_nodup _ _ _ _ (si_world _ _ _ HI)) as [_ Hd].
  assert (∀ s, s ∈ rest → root s ≠ root sp) as Hne by (intros s Hin E; apply (Hd s Hin (root sp)); [apply root_in|rewrite <- E; apply root_in]).
  assert (ProcInv m' (drop_root (root sp) rs) rest) as HP'.
  { destruct HP as (Hrs & _ & Hl0). split; [|split; [eexists; split; [exact HI'|]|by etrans]].
    - unfold drop_root. rewrite Hrs, Hss, fmap_cons, filter_cons_False by auto.
      apply reflexive_eq. clear -Hne. induction rest as [|s rest IH]; [done|].
      rewrite fmap_cons, filter_cons_True, IH; [done|intros s' Hs'; apply Hne; by right|apply Hne; by left].
    - intros a Ha. specialize (Ho a Ha). pose proof (occ_nonneg a (pages sp)). lia. }
  do 5 eexists. split_and!; [done|exact HP'|constructor|]. apply (view_sees m' _ rest _ HP'). intros s x Hin Hx.
  destruct (Hs s Hin) as [_ ->]. apply (sees_view m rs ss); [done..|rewrite Hss; by right|done].
Qed.

Lemma proc_step m rs ss A op : ProcInv m rs ss → sees m rs A → allowed rs op → simulated m rs A op.
Proof using Hk.
  intros HP HA. destruct op; intros Ha; [by eapply create_step|by eapply proc_grow|by eapply proc_unmap|by eapply fork_step|by eapply write_step|by eapply proc_protect|by eapply destroy_step].
Qed.

(** Every process of a state of the invariant sees a memory. *)
Lemma inv_sees m rs ss : ProcInv m rs ss → ∃ A, sees m rs A.
Proof using.
  intros HP. destruct (inv_world m rs ss HP) as [own HW]. exists (λ r x, match page_view m r x with Ret o => o | _ => None end). apply (view_sees m rs ss); [done|].
  intros sp x Hs Hx. by rewrite (page_view_spec m ss own) by done.
Qed.

Lemma proc_reachable_inv m rs : reachable e m0 m rs → ∃ ss, ProcInv m rs ss.
Proof using HO Hk.
  induction 1 as [|m rs op m' rs' res _ (ss & HP) Ha E]; [exists []; by apply start_inv|].
  destruct (inv_sees m rs ss HP) as [A HA]. destruct (proc_step m rs ss A op HP HA Ha) as (? & ? & ? & ss' & ? & E' & HP' & _).
  rewrite E in E'. injection E' as <- <- <-. eauto.
Qed.
End procs.

End VmmProcs.
