(* ===== verification/VmmCorrect.v ===== *)
(** * Virtual memory is correct

    What the operations on page tables do, and that processes that share pages
    copy-on-write have separate memories. *)
From S2P Require Import Prelude Page Buddy Pmm PmmSpec PmmCorrect PageTable Vmm PtRep PtWalk VmmMap VmmUnmap VmmAlloc VmmFork VmmCopy VmmFree VmmCow VmmSystem VmmProcs.
Import Page Pmm PmmSpec PmmCorrect PageTable Vmm PtRep PtWalk VmmMap VmmUnmap VmmAlloc VmmFork VmmCopy VmmCow VmmFree VmmProtect VmmSystem VmmProcs.

Module VmmCorrect.

(** ** Processes *)

(** What the address space with root [r] has at page [x]. *)
Definition memory (m : Machine) : Mem := λ r x, match page_view m r x with Ret o => o | _ => None end.

Section procs.
Context (e : Env) (m0 : Machine) (HO : PmmOk m0) (Hk : kernel_table e m0).

Lemma reachable_memory m rs : reachable e m0 m rs → sees m rs (memory m).
Proof using HO Hk.
  intros Hr. destruct (proc_reachable_inv e m0 HO Hk m rs Hr) as [ss HP]. destruct (inv_sees m0 m rs ss HP) as [A HA].
  intros r x Hin Hx. unfold memory. by rewrite (HA r x Hin Hx).
Qed.

(** C1. For memory without objects (anonymous areas and the program's own segments), its
    pages mapped by the operations themselves (no demand paging, no stack growth): in every reachable state every operation on address spaces that
    callers may issue returns, and what the processes see of their memories afterwards is what a
    system without shared pages would show: a new space is empty, growing adds zero
    pages, unmapping removes pages, a fork copies the parent's pages to the child and
    leaves the parent as it was, a write changes one word of one page of one space,
    and changed permissions or the destruction of a space change no contents. *)
Theorem processes_have_separate_memories m rs op : reachable e m0 m rs → allowed rs op →
  ∃ m' rs' res A', exec e m rs op = Ret (m', rs', res) ∧ mem_step rs (memory m) op rs' A' res ∧
    ∀ r x, r ∈ rs' → 0 ≤ x < 2 ^ 27 → page_view m' r x = Ret (A' r x).
Proof using HO Hk.
  intros Hr Ha. destruct (proc_reachable_inv e m0 HO Hk m rs Hr) as [ss HP].
  destruct (proc_step e m0 Hk m rs ss (memory m) op HP (reachable_memory m rs Hr) Ha) as (m' & rs' & res & ss' & A' & E & _ & Hs & HA).
  by exists m', rs', res, A'.
Qed.

(** C34. Every state that operations on memory without objects reach is well-formed: the
    page manager's invariant holds, the address spaces have disjoint page tables of pages
    with one reference, the count of every other page is the number of its mappings plus
    the references held outside, and a page that a user may write in place has no other
    reference.  Private mappings of an object, whose overlay holds a second reference to
    a page that is writable in place, are not among the operations. *)
Theorem reachable_well_formed m rs : reachable e m0 m rs →
  ∃ ss own, rs ≡ₚ root <$> ss ∧ World m ss own ∧ (∀ a, managed m0 a → rc m0 a ≤ own a) ∧
    ∀ sp v d, sp ∈ ss → leaf sp !! v = Some d → managed m (PTE2PA d) ∧ (writable d = true → rc m (PTE2PA d) = 1).
Proof using HO Hk.
  intros Hr. destruct (proc_reachable_inv e m0 HO Hk m rs Hr) as (ss & Hrs & (own & [HW Hp] & Ho) & _).
  exists ss, own. split_and!; [done..|]. intros sp v d Hs Ed. destruct (Hp sp v d Hs Ed) as [[Hm _] Hw]. split; [done|]. apply Hw.
Qed.

(** C3. A store of a process, in an area that is no private mapping of an object, into a
    reachable state either changes the word in its own page, after a copy if the page was
    shared, and nothing that any process sees elsewhere, and then the entry let the user
    write in place or the area allows writes; or it is refused and changes nothing, and
    then the entry does not let the user write, or the store faults where no area allows
    writes, or no page was left for the copy. *)
Theorem user_store_isolated m rs r va val vm new_overlay :
  reachable e m0 m rs → r ∈ rs → 0 ≤ va < 2 ^ 39 → va mod 8 = 0 → object_less vm →
  ∃ m' ok, user_store e m r va val vm new_overlay = Ret (m', ok) ∧
    (∀ r' x, r' ∈ rs → 0 ≤ x < 2 ^ 27 → (r', x) ≠ (r, va / PGSIZE) → page_view m' r' x = page_view m r' x) ∧
    if ok
    then (∃ d, leaf_entry m r (va / PGSIZE) = Ret (Some d) ∧ (is_user_entry d && writable d = true ∨ write_area vm = true)) ∧
      ∃ ws, page_view m r (va / PGSIZE) = Ret (Some ws) ∧
        page_view m' r (va / PGSIZE) = Ret (Some (<[Z.to_nat (va mod PGSIZE / 8) := val]> ws))
    else m' = m ∧ (free_count m = 0 ∨ write_area vm = false ∨ ∃ o, leaf_entry m r (va / PGSIZE) = Ret o ∧ ∀ d, o = Some d → may_write d = false).
Proof using HO Hk.
  intros Hr Hin Hva H8 Hvm. destruct (proc_reachable_inv e m0 HO Hk m rs Hr) as [ss HP].
  destruct (pick_space m0 m rs ss r HP Hin) as (sp & rest & own & Hss & <- & HI & _).
  destruct (store_inv e m sp rest own va val vm new_overlay HI Hva H8 Hvm) as (m' & sp' & ok & E & [HI' Er Hl Hs Hx Hal Hok]). exists m', ok. split; [done|].
  pose proof (si_world _ _ _ HI) as HW. pose proof (si_world _ _ _ HI') as HW'.
  assert (0 ≤ va / PGSIZE < 2 ^ 27) as Hpg by (split; [apply Z.div_pos; unfold PGSIZE; lia|apply Z.div_lt_upper_bound; unfold PGSIZE; lia]).
  assert (∀ x, 0 ≤ x < 2 ^ 27 → page_view m (root sp) x = Ret (view m sp x) ∧ page_view m' (root sp) x = Ret (view m' sp' x)) as Hpv.
  { intros x Hx'. split; [apply (page_view_spec m (sp :: rest) own)|rewrite <- Er; apply (page_view_spec m' (sp' :: rest) own)]; (done || by left). }
  split.
  - intros r' x Hr' Hx' Hne. destruct HP as (Hrs & _). rewrite Hrs, Hss in Hr'. cbn in Hr'.
    apply elem_of_cons in Hr' as [->|(s & -> & Hs')%list_elem_of_fmap].
    + destruct (Hpv x Hx') as [-> ->]. f_equal. apply Hx. intros ->. done.
    + rewrite (page_view_spec m (sp :: rest) own), (page_view_spec m' (sp' :: rest) own) by (done || by right). f_equal. by apply Hs.
  - destruct ok.
    + split.
      { destruct (Hal eq_refl) as (d & Ed & Hd). exists d. split; [|done].
        rewrite (leaf_entry_spec m (sp :: rest) own), Ed; (done || by left). }
      destruct Hok as (ws & E1 & E2). exists ws. destruct (Hpv (va / PGSIZE) Hpg) as [-> ->]. by rewrite E1, E2.
    + destruct Hok as (-> & _ & [?|[Hno|?]]); (split; [done|]); [by right; left|right; right|by left]. exists (leaf sp !! (va / PGSIZE)).
      split; [|done]. apply (leaf_entry_spec m (sp :: rest) own); (done || by left).
Qed.
End procs.

(** ** A run

    Two spaces, one page in the second, a fork to the first and writes on both sides. *)
Definition demo_env : Env := mkEnv 0 (Some 0x80001000).

Definition demo_run : list Op :=
  [Create; Create; Grow 0x80001000 0 4096 pte_writable_m; Fork 0x80001000 0x80000000 0 4096 false].

Definition next (e : Env) (st : Machine * list Z) (op : Op) : Machine * list Z :=
  match exec e st.1 st.2 op with Ret (m, rs, _) => (m, rs) | _ => st end.

Lemma next_reachable e m0 st op : PmmOk m0 → kernel_table e m0 → reachable e m0 st.1 st.2 → allowed st.2 op →
  reachable e m0 (next e st op).1 (next e st op).2.
Proof.
  intros HO Hk Hr Ha. destruct (proc_reachable_inv e m0 HO Hk _ _ Hr) as [ss HP].
  destruct (proc_step e m0 Hk _ _ ss _ op HP (reachable_memory e m0 HO Hk _ _ Hr) Ha) as (m' & rs' & res & _ & _ & E & _).
  unfold next. rewrite E. by eapply reach_step.
Qed.

Definition demo_state (k : nat) : Machine * list Z := foldl (next demo_env) (demo_machine, []) (take k demo_run).

Lemma demo_kernel_table : kernel_table demo_env demo_machine.
Proof. by left. Qed.

Lemma demo_step k op : demo_run !! k = Some op → reachable demo_env demo_machine (demo_state k).1 (demo_state k).2 →
  allowed (demo_state k).2 op → reachable demo_env demo_machine (demo_state (S k)).1 (demo_state (S k)).2.
Proof.
  intros E Hr Ha. assert (demo_state (S k) = next demo_env (demo_state k) op) as ->.
  { unfold demo_state. rewrite (take_S_r _ _ op) by done. by rewrite foldl_app. }
  by apply next_reachable; [apply demo_ok|apply demo_kernel_table|..].
Qed.

Lemma demo_start : reachable demo_env demo_machine (demo_state 0).1 (demo_state 0).2.
Proof. apply reach_start. Qed.

#[local] Opaque demo_state.

Lemma demo_reachable : ∀ k, (k ≤ 4)%nat → reachable demo_env demo_machine (demo_state k).1 (demo_state k).2.
Proof.
  pose proof demo_start as H0. pose proof (demo_step 0 Create eq_refl H0 I) as H1. pose proof (demo_step 1 Create eq_refl H1 I) as H2.
  assert ((demo_state 2).2 = [0x80001000; 0x80000000]) as E2 by (by vm_compute).
  assert ((demo_state 3).2 = [0x80001000; 0x80000000]) as E3 by (by vm_compute).
  assert (allowed (demo_state 2).2 (Grow 0x80001000 0 4096 pte_writable_m)) as A2 by (rewrite E2; split_and!; [by left|done..]).
  pose proof (demo_step 2 _ eq_refl H2 A2) as H3.
  assert (allowed (demo_state 3).2 (Fork 0x80001000 0x80000000 0 4096 false)) as A3 by (rewrite E3; split_and!; [by left|right; by left|done..]).
  pose proof (demo_step 3 _ eq_refl H3 A3) as H4.
  intros k Hk. destruct k as [|[|[|[|[|k]]]]]; [exact H0|exact H1|exact H2|exact H3|exact H4|lia].
Qed.

Lemma demo_roots : (demo_state 4).2 = [0x80001000; 0x80000000].
Proof. by vm_compute. Qed.

(** A private anonymous area that can be read and written. *)
Definition demo_area : option (Z * CowArea) := Some (Z.lor PROT_READ PROT_WRITE, no_area).

Lemma processes_have_separate_memories_witness :
  ∃ m' rs' res A', exec demo_env (demo_state 4).1 (demo_state 4).2 (Write_word 0x80000000 8 77 demo_area false) = Ret (m', rs', res) ∧
    mem_step (demo_state 4).2 (memory (demo_state 4).1) (Write_word 0x80000000 8 77 demo_area false) rs' A' res ∧
    ∀ r x, r ∈ rs' → 0 ≤ x < 2 ^ 27 → page_view m' r x = Ret (A' r x).
Proof.
  apply (processes_have_separate_memories demo_env demo_machine (proj1 demo_ok) demo_kernel_table); [by apply demo_reachable|].
  rewrite demo_roots. split_and!; [right; by left|done|done|done|]. by intros prot area [= <- <-].
Defined.

Lemma reachable_well_formed_witness :
  ∃ ss own, (demo_state 4).2 ≡ₚ root <$> ss ∧ World (demo_state 4).1 ss own ∧
    (∀ a, managed demo_machine a → rc demo_machine a ≤ own a) ∧
    ∀ sp v d, sp ∈ ss → leaf sp !! v = Some d →
      managed (demo_state 4).1 (PTE2PA d) ∧ (writable d = true → rc (demo_state 4).1 (PTE2PA d) = 1).
Proof.
  apply (reachable_well_formed demo_env demo_machine (proj1 demo_ok) demo_kernel_table). by apply demo_reachable.
Defined.

(** The child's write: the page is copied and the parent keeps its zeros. *)
Lemma user_store_isolated_witness :
  ∃ m', user_store demo_env (demo_state 4).1 0x80000000 8 77 demo_area false = Ret (m', true) ∧
    page_view m' 0x80001000 0 = page_view (demo_state 4).1 0x80001000 0 ∧
    ∃ ws, page_view (demo_state 4).1 0x80000000 0 = Ret (Some ws) ∧ page_view m' 0x80000000 0 = Ret (Some (<[1%nat := 77]> ws)).
Proof.
  destruct (user_store_isolated demo_env demo_machine (proj1 demo_ok) demo_kernel_table (demo_state 4).1 (demo_state 4).2 0x80000000 8 77 demo_area false)
    as (m' & ok & E & Hother & Hok); [by apply demo_reachable|rewrite demo_roots; right; by left|done|done|by intros prot area [= <- <-]|].
  assert (ok = true) as ->.
  { assert (match user_store demo_env (demo_state 4).1 0x80000000 8 77 demo_area false with Ret (_, b) => b | _ => false end = true) as H by (by vm_compute).
    by rewrite E in H. }
  exists m'. split; [done|]. split; [|exact (proj2 Hok)].
  refine (Hother 0x80001000 0 _ _ _); [rewrite demo_roots; by left|lia|by intros [=]].
Defined.

(** ** Copying an address space *)

(** C6. [vm_copy] either maps every page of the range in the child, the managed ones
    shared with the parent and without write permission on either side (the
    copy-on-write mark stands for it), the others copied, with one more reference for
    every shared page and every changed entry of the parent recorded for a rollback;
    or it fails because the child's range was in use, a count was full or memory ran
    out, and then the parent's entries are those from before and the child has lost every
    mapping below the page that failed, the ones it had before the call included: each
    page in use, the child's own tables aside, has as many references fewer as the child
    mapped it there, and no others. *)
Theorem vm_copy_correct e m c p ss own start size defer rb : World m (c :: p :: ss) own →
  (root c ≠ k_pagetable e ∨ k_pagetable e = 0) → 0 ≤ start → 0 < size → end_page start size * PGSIZE ≤ USER_MEMORY_TOP →
  let v := first_page start in let n := end_page start size in
  (∀ x d, v ≤ x < n → leaf p !! x = Some d → writable d = true → is_cow d = false) →
  (∀ x d, v ≤ x < n → leaf p !! x = Some d → ¬ managed m (PTE2PA d) → ∃ ws, frames m !! PTE2PA d = Some ws ∧ length ws = page_words) →
  (∀ rs, rb = Some rs → Forall range_ok rs) →
  ∃ cp r, vm_copy e m (root p) (root c) start size defer rb = Ret (cp, r) ∧
    ((r = (if parent_cow_changed cp then 1 else 0) ∧ ∃ c' p', World (cp_m cp) (c' :: p' :: ss) own ∧
      root c' = root c ∧ p' = with_leaf p (leaf p') ∧
      (∀ x, leaf p' !! x = if decide (v ≤ x < n) then pentry m <$> leaf p !! x else leaf p !! x) ∧
      (∀ x, match leaf p !! x with
        | Some d => if decide (v ≤ x < n) then leaf c !! x = None ∧ copied m (cp_m cp) d (leaf c' !! x) else leaf c' !! x = leaf c !! x
        | None => leaf c' !! x = leaf c !! x end) ∧
      (∀ a, 0 < rc m a → a ∈ pages p → rc (cp_m cp) a = rc m a + occ a (range_pages (leaf p) any_page v (Z.to_nat (n - v)))) ∧
      (parent_cow_changed cp = true ↔ ∃ x, changed m p v n x) ∧
      match rollback_ranges cp, rb with
      | Some rs, Some rs0 => ∀ x, in_ranges rs x ↔ in_ranges rs0 x ∨ changed m p v n x
      | None, None => True
      | _, _ => False end) ∨
     (r = -1 ∧ copy_failed m c p ss own v n (cp_m cp) ∧ copy_refused m c p v n)).
Proof.
  intros HW Hk Hst Hsz Htop v n Hcow Hfr Hrb.
  destruct (vm_copy_spec e m c p ss own start size defer rb HW Hk Hst Hsz Htop Hcow Hfr Hrb) as [(cp & c' & p' & E & HC)|(cp & E & Hf & Hn)].
  2: { exists cp, (-1). split; [done|]. by right. }
  fold v n in HC. destruct HC as [HWc Hp Hpl Hr Hcl Hnew HR Hrc _ Hout Hflag _].
  exists cp, (if parent_cow_changed cp then 1 else 0). split; [done|]. left. split; [done|]. exists c', p'. split_and!; try done.
  - apply (World_own _ _ _ _ HWc). intros a _. unfold give_own. rewrite occ_nil. lia.
  - intros x. destruct (decide (v ≤ x < n)) as [Hx|Hx]; [specialize (Hnew x Hx)|specialize (Hcl x Hx)]; by destruct (leaf p !! x).
  - intros a Ha Hin. rewrite Hrc, occ_nil by done. lia.
  - destruct (rollback_ranges cp) as [rs|], rb as [rs0|]; try done. by apply Hout.
Qed.

(** The spaces of the run. *)
Lemma demo_spaces k : (2 ≤ k ≤ 4)%nat →
  ∃ c p own, SysInv (demo_state k).1 [c; p] own ∧ root c = 0x80000000 ∧ root p = 0x80001000.
Proof.
  intros Hk. destruct (proc_reachable_inv demo_env demo_machine (proj1 demo_ok) demo_kernel_table _ _ (demo_reachable k ltac:(lia))) as [ss HP].
  assert ((demo_state k).2 = [0x80001000; 0x80000000]) as Ek.
  { destruct k as [|[|[|[|[|k]]]]]; try lia; by vm_compute. }
  destruct HP as (Hrs & (own & HI & _) & _). rewrite Ek in Hrs.
  apply Permutation_length_2_inv in Hrs as [E|E].
  - destruct ss as [|p [|c [|? ?]]]; try done. cbn in E. injection E as Ep Ec. exists c, p, own. split; [|done].
    apply (SysInv_perm _ [p; c]); [constructor|done].
  - destruct ss as [|c [|p [|? ?]]]; try done. cbn in E. injection E as Ec Ep. exists c, p, own. done.
Qed.

Lemma vm_copy_correct_witness :
  ∃ m c p own cp r, World m [c; p] own ∧ root p = 0x80001000 ∧ vm_copy demo_env m (root p) (root c) 0 4096 false None = Ret (cp, r) ∧
    ((r = (if parent_cow_changed cp then 1 else 0) ∧ ∃ c' p', World (cp_m cp) [c'; p'] own ∧ root c' = root c ∧ p' = with_leaf p (leaf p')) ∨
     (r = -1 ∧ copy_failed m c p [] own 0 1 (cp_m cp) ∧ copy_refused m c p 0 1)).
Proof.
  destruct (demo_spaces 3 ltac:(lia)) as (c & p & own & HI & Ec & Ep). pose proof (si_world _ _ _ HI) as HW.
  destruct (vm_copy_correct demo_env (demo_state 3).1 c p [] own 0 4096 false None HW) as (cp & r & E & Hr); [by right|done..| | |done|].
  - intros x d _ Ed Hw. by apply (si_private _ _ _ HI p x d ltac:(right; by left) Ed).
  - intros x d _ Ed Hn. by destruct (si_private _ _ _ HI p x d ltac:(right; by left) Ed) as [[? _] _].
  - exists (demo_state 3).1, c, p, own, cp, r. split; [done|]. split; [done|]. split; [done|].
    destruct Hr as [(-> & c' & p' & HW' & Hc & Hp & _)|?]; [left; eauto 10|by right].
Defined.

(** C36. Taking references to a batch of at most 64 pages under one lock returns the
    same mask and the same counts as taking them one by one. *)
Theorem retain_pages_batch_equivalent m pages : (length pages ≤ 64)%nat →
  retain_pages_batch m pages = retain_each pages 0 m 0.
Proof. apply retain_batch_each. Qed.

Lemma retain_pages_batch_equivalent_witness :
  retain_pages_batch (demo_state 4).1 [0x80000000; 0x80002000] = retain_each [0x80000000; 0x80002000] 0 (demo_state 4).1 0.
Proof. apply retain_pages_batch_equivalent. cbn. lia. Defined.

(** ** Page faults on shared pages *)

Lemma shared_or_not m sp va : (∃ d, shared_entry m sp va d) ∨
  ∀ d, leaf sp !! (va / PGSIZE) = Some d → is_user_entry d = false ∨ is_cow d = false ∨ ¬ managed m (PTE2PA d).
Proof.
  destruct (leaf sp !! (va / PGSIZE)) as [d|] eqn:Ed; [|by right].
  destruct (is_user_entry d) eqn:Eu; [|right; intros ? [= <-]; by left].
  destruct (is_cow d) eqn:Ec; [|right; intros ? [= <-]; right; by left].
  destruct (decide (managed m (PTE2PA d))); [|right; intros ? [= <-]; tauto]. left. by exists d.
Qed.

(** A copy-on-write fault in an anonymous area: an entry that is no user's
    copy-on-write entry of a managed page is refused and nothing changes; otherwise
    the entry becomes writable, in place when nobody else refers to the page and for
    a fresh page with the same contents when somebody does, which then has one
    reference less; without a free page nothing changes. *)
Theorem resolve_cow_page_anonymous_correct e m sp ss own va area new_overlay : World m (sp :: ss) own → 0 ≤ va < 2 ^ 39 →
  object_private_mapping area = false →
  ∃ m' r, resolve_cow_page e m (root sp) va area new_overlay = Ret (m', area, r) ∧
    ((r = -1 ∧ m' = m ∧ ((∀ d, ¬ shared_entry m sp va d) ∨ free_count m = 0)) ∨
     (r = 0 ∧ ∃ d nd, shared_entry m sp va d ∧ Resolved m m' sp ss own (va / PGSIZE) d nd ∧ rc m' (PTE2PA nd) = 1 ∧
       if decide (rc m (PTE2PA d) = 1) then PTE2PA nd = PTE2PA d else rc m (PTE2PA nd) = 0)).
Proof.
  intros HW Hva Ha. destruct (shared_or_not m sp va) as [[d Hd]|Hno]; cycle 1.
  { exists m, (-1). rewrite (resolve_refused e m sp ss own va area new_overlay HW Hva Hno). split; [done|]. left.
    split_and!; [done..|]. left. intros d (Ed & ? & ? & ?). destruct (Hno d Ed) as [?|[?|?]]; congruence. }
  destruct (decide (rc m (PTE2PA d) = 1)) as [E1|E1].
  - destruct (resolve_alone e m sp ss own va area new_overlay HW Hva d Hd) as (m' & E & HR & Hrc).
    { unfold alone. by rewrite Ha, E1. }
    destruct (uncow_spec d) as (_ & Ep & _); [apply (leaf_data m (sp :: ss) own sp HW ltac:(by left) _ d (proj1 Hd))|].
    exists m', 0. split; [done|]. right. split; [done|]. exists d, (uncow d). rewrite decide_True, Ep, Hrc by done. done.
  - destruct (resolve_anonymous e m sp ss own va area new_overlay HW Hva d Hd Ha E1) as [[E Hf]|(m' & nd & E & HR & Hn & Hz)].
    + exists m, (-1). split; [done|]. left. split_and!; [done..|]. by right.
    + exists m', 0. split; [done|]. right. split; [done|]. exists d, nd. by rewrite decide_False.
Qed.

Lemma resolve_cow_page_anonymous_correct_witness :
  ∃ c p own m' r, World (demo_state 4).1 [c; p] own ∧ resolve_cow_page demo_env (demo_state 4).1 0x80000000 24 no_area false = Ret (m', no_area, r) ∧
    r = 0 ∧ ∃ d nd, shared_entry (demo_state 4).1 c 24 d ∧ Resolved (demo_state 4).1 m' c [p] own 0 d nd.
Proof.
  destruct (demo_spaces 4 ltac:(lia)) as (c & p & own & HI & Ec & Ep). pose proof (si_world _ _ _ HI) as HW.
  destruct (resolve_cow_page_anonymous_correct demo_env _ _ _ _ 24 no_area false HW ltac:(lia) eq_refl) as (m' & r & E & Hr).
  rewrite Ec in E. exists c, p, own, m', r. split; [done|]. split; [done|].
  assert (∃ m1, resolve_cow_page demo_env (demo_state 4).1 0x80000000 24 no_area false = Ret (m1, no_area, 0)) as [m1 E1] by (eexists; by vm_compute).
  rewrite E in E1. injection E1 as _ ->. destruct Hr as [[? _]|(_ & d & nd & H1 & H2 & _)]; [lia|].
  split; [reflexivity|]. exists d, nd. split; [exact H1|exact H2].
Defined.

(** A copy-on-write fault in a private mapping of an object: the page is made
    writable in place only when the area's overlay holds it and nobody else does;
    otherwise the entry moves to a fresh copy that the overlay holds at the area's
    index with a reference of its own, and the overlay's reference to the old page is
    given back.  Without a page or an overlay nothing is left of the attempt. *)
Theorem resolve_cow_page_object_correct e m sp ss own va area new_overlay d : World m (sp :: ss) own → 0 ≤ va < 2 ^ 39 →
  shared_entry m sp va d → object_private_mapping area = true →
  (owned_by_area area (PTE2PA d) = true → 0 < own (PTE2PA d)) →
  ∃ m' area' r, resolve_cow_page e m (root sp) va area new_overlay = Ret (m', area', r) ∧
    ((r = -1 ∧ area' = area ∧ World m' (sp :: ss) own ∧ (free_count m = 0 ∨ (private_page_overlay area = None ∧ new_overlay = false))) ∨
     (r = 0 ∧ if owned_by_area area (PTE2PA d) && (rc m (PTE2PA d) <=? 2)
       then area' = area ∧ Resolved m m' sp ss own (va / PGSIZE) d (uncow d)
       else ∃ new nd, PTE2PA nd = new ∧ rc m new = 0 ∧ rc m' new = 2 ∧
         area' = mkCowArea true (cow_page_index area) (Some (<[cow_page_index area := new]> (default ∅ (private_page_overlay area)))) ∧
         Resolved m m' sp ss (overlay_own own area (PTE2PA d) new) (va / PGSIZE) d nd)).
Proof.
  intros HW Hva Hd Ha Hown. assert (alone m area (PTE2PA d) = owned_by_area area (PTE2PA d) && (rc m (PTE2PA d) <=? 2)) as El.
  { unfold alone. by rewrite Ha. }
  rewrite <- El. destruct (alone m area (PTE2PA d)) eqn:Eal.
  - destruct (resolve_alone e m sp ss own va area new_overlay HW Hva d Hd Eal) as (m' & E & HR & _).
    exists m', area, 0. split; [done|]. by right.
  - destruct (resolve_object e m sp ss own va area new_overlay HW Hva d Hd Ha Eal Hown) as [[E Hf]|[(H1 & H2 & m' & E & HW')|(m' & new & nd & E & H1 & H2 & H3 & HR)]].
    + exists m, area, (-1). split; [done|]. left. tauto.
    + exists m', area, (-1). split; [done|]. left. tauto.
    + eexists m', _, 0. split; [exact E|]. right. split; [done|]. by exists new, nd.
Qed.

Lemma resolve_cow_page_object_correct_witness :
  ∃ c own d m' area' r, shared_entry (demo_state 4).1 c 24 d ∧
    resolve_cow_page demo_env (demo_state 4).1 0x80000000 24 (mkCowArea true 3 None) true = Ret (m', area', r) ∧
    (r = 0 → ∃ p new nd, area' = mkCowArea true 3 (Some (<[3 := new]> ∅)) ∧
      Resolved (demo_state 4).1 m' c [p] (overlay_own own (mkCowArea true 3 None) (PTE2PA d) new) 0 d nd).
Proof.
  destruct (demo_spaces 4 ltac:(lia)) as (c & p & own & HI & Ec & Ep). pose proof (si_world _ _ _ HI) as HW.
  assert (∃ d, leaf_entry (demo_state 4).1 0x80000000 0 = Ret (Some d) ∧ is_user_entry d = true ∧ is_cow d = true) as (d & E & Hu & Hc).
  { eexists. split_and!; by vm_compute. }
  rewrite <- Ec, (leaf_entry_spec _ _ _ c 0 HW ltac:(by left) ltac:(lia)) in E. injection E as Ed.
  assert (shared_entry (demo_state 4).1 c 24 d) as Hd.
  { split_and!; [exact Ed|done..|]. by destruct (si_private _ _ _ HI c 0 d ltac:(by left) Ed) as [[? _] _]. }
  destruct (resolve_cow_page_object_correct demo_env _ _ _ _ 24 (mkCowArea true 3 None) true d HW ltac:(lia) Hd eq_refl ltac:(done))
    as (m' & area' & r & E & Hr).
  rewrite Ec in E. exists c, own, d, m', area', r. split; [done|]. split; [done|]. intros ->.
  destruct Hr as [[? _]|(_ & new & nd & _ & _ & _ & Harea & HR)]; [lia|]. exists p, new, nd. split; [exact Harea|exact HR].
Defined.

(** ** Mapping and unmapping *)

(** [map_pages] maps the pages of the range in order up to the first page that is
    mapped already, where it panics or returns false, or up to the point where no page
    is left for a table; the caller's references to the mapped pages become the
    references of the new entries, and no other entry changes. *)
Theorem map_pages_correct e m sp ss own va size pa flags : World m (sp :: ss) own →
  0 ≤ va → 0 < size → va + size ≤ 2 ^ 39 → page_aligned pa → 0 ≤ pa →
  pa + Z.of_nat (page_span va size) * PGSIZE ≤ 2 ^ 48 → 0 ≤ flags < 2 ^ 10 →
  (∀ a, a ∈ page_range pa (page_span va size) → mappable m (sp :: ss) own a) →
  ∃ m' sp' k, World m' (sp' :: ss) (take_own own (page_range pa k)) ∧ Grown m m' sp sp' ∧
    (∀ x, leaf sp' !! x = if decide (va / PGSIZE ≤ x < va / PGSIZE + Z.of_nat k)
                          then Some (entry (pa + (x - va / PGSIZE) * PGSIZE) flags) else leaf sp !! x) ∧
    map_end e m m' sp (va / PGSIZE) (page_span va size) k (map_pages e m (root sp) va size pa flags).
Proof.
  intros HW H1 H2 H3 H4 H5 H6 H7 H8.
  destruct (map_pages_spec e m sp ss own va size pa flags HW H1 H2 H3 H4 H5 H6 H7 H8) as (m' & sp' & k & HW' & HG & El & _ & HE).
  exists m', sp', k. split_and!; [done..| |done]. intros x. by rewrite El, mapped_lookup.
Qed.

Lemma demo_layout k : (k ≤ 4)%nat → same_layout demo_machine (demo_state k).1.
Proof.
  intros Hk. destruct (proc_reachable_inv demo_env demo_machine (proj1 demo_ok) demo_kernel_table _ _ (demo_reachable k Hk)) as [ss HP]. apply HP.
Qed.

Lemma map_pages_correct_witness :
  ∃ m c p own m' p' k, World m [p; c] own ∧ root p = 0x80001000 ∧ Grown m m' p p' ∧
    map_end demo_env m m' p 5 2 k (map_pages demo_env m (root p) 0x5000 8192 0x10000000 6).
Proof.
  destruct (demo_spaces 4 ltac:(lia)) as (c & p & own & HI & Ec & Ep).
  assert (World (demo_state 4).1 [p; c] own) as HW by (apply (World_perm _ [c; p]); [constructor|apply HI]).
  destruct (map_pages_correct demo_env (demo_state 4).1 p [c] own 0x5000 8192 0x10000000 6 HW) as (m' & p' & k & HW' & HG & _ & HE);
    [lia|lia|lia|done|lia|by vm_compute|lia|..].
  - intros a Ha%elem_of_page_range Hm. rewrite (managed_layout _ _ _ (demo_layout 4 ltac:(lia))) in Hm.
    destruct Ha as (i & Hi & ->). destruct Hm as [_ Hm]. change (pa_start (pmm demo_machine)) with 0x80000000 in Hm.
    change (Z.of_nat (page_span 0x5000 8192)) with 2 in Hi. unfold PGSIZE in Hm. lia.
  - exists (demo_state 4).1, c, p, own, m', p', k. split_and!; [exact HW|exact Ep|exact HG|exact HE].
Defined.

(** C13. [vmunmap] removes exactly the mapped pages of the range that are not reserved;
    their references go back to the page manager or, when the pages are not to be
    freed, to the caller, and with [Invalidate] every address a page was mapped at is
    flushed before the page is given to anybody else. *)
Theorem vmunmap_correct e m sp ss own v npages do_free mode : World m (sp :: ss) own →
  0 ≤ v → 0 ≤ npages → v + npages ≤ 2 ^ 27 →
  ∃ m' sp', vmunmap e m (root sp) (v * PGSIZE) npages do_free mode = Ret m' ∧
    Unmapped e m m' sp sp' ss own v npages do_free mode.
Proof. apply vmunmap_spec. Qed.

Lemma vmunmap_correct_witness :
  ∃ m c p own m' c', World m [c; p] own ∧ vmunmap demo_env m (root c) 0 3 true Invalidate = Ret m' ∧
    Unmapped demo_env m m' c c' [p] own 0 3 true Invalidate.
Proof.
  destruct (demo_spaces 4 ltac:(lia)) as (c & p & own & HI & _). pose proof (si_world _ _ _ HI) as HW.
  destruct (vmunmap_correct demo_env (demo_state 4).1 c [p] own 0 3 true Invalidate HW ltac:(lia) ltac:(lia) ltac:(lia)) as (m' & c' & E & HU).
  exists (demo_state 4).1, c, p, own, m', c'. split_and!; [exact HW|exact E|exact HU].
Defined.

(** C35. [uvmalloc] either maps a fresh zeroed page with one reference at every page
    between the two sizes, all of which were unmapped, and changes no other entry; or
    it returns 0 and leaves no entry behind, and then a page of the range was mapped
    or memory was short. *)
Theorem uvmalloc_correct e m sp ss own oldsz newsz flags : World m (sp :: ss) own →
  (root sp ≠ k_pagetable e ∨ k_pagetable e = 0) → 0 ≤ oldsz ≤ newsz → newsz ≤ USER_MEMORY_TOP → 0 ≤ flags < 2 ^ 10 →
  let v := PGROUNDUP oldsz / PGSIZE in
  ∃ m' sp' r, uvmalloc e m (root sp) oldsz newsz flags = Ret (m', r) ∧ World m' (sp' :: ss) own ∧ Grown m m' sp sp' ∧
    ((r = newsz ∧ ∀ x, if decide (v ≤ x ∧ x * PGSIZE < newsz)
        then leaf sp !! x = None ∧ fresh_page m m' (Z.lor (Z.lor pte_readable_m pte_user_m) flags) (leaf sp' !! x)
        else leaf sp' !! x = leaf sp !! x) ∨
     (r = 0 ∧ leaf sp' = leaf sp ∧ refused m sp v newsz)).
Proof.
  intros HW Hk Hsz Ht Hf v. destruct (uvmalloc_spec e m sp ss own oldsz newsz flags HW Hk Hsz Ht Hf) as [(m' & sp' & E & HW' & HG & Hx)|(m' & sp' & E & (HW' & El & HG) & Hr)].
  - exists m', sp', newsz. split_and!; [done..|]. by left.
  - exists m', sp', 0. split_and!; [done..|]. by right.
Qed.

Lemma uvmalloc_correct_witness :
  ∃ m c p own m' c' r, World m [c; p] own ∧ uvmalloc demo_env m (root c) 100 9000 pte_writable_m = Ret (m', r) ∧
    World m' [c'; p] own ∧ Grown m m' c c' ∧ (r = 9000 ∨ r = 0).
Proof.
  destruct (demo_spaces 4 ltac:(lia)) as (c & p & own & HI & _). pose proof (si_world _ _ _ HI) as HW.
  destruct (uvmalloc_correct demo_env (demo_state 4).1 c [p] own 100 9000 pte_writable_m HW) as (m' & c' & r & E & HW' & HG & Hr); [by right|lia|done|done|].
  exists (demo_state 4).1, c, p, own, m', c', r. split_and!; [exact HW|exact E|exact HW'|exact HG|]. destruct Hr as [[? _]|[? _]]; [by left|by right].
Defined.

(** Shrinking a space to the size it had before it grew removes exactly the pages
    that growing mapped: every entry is the one from before, and so is every count of
    a page that was in use. *)
Theorem uvmalloc_uvmdealloc e m sp ss own oldsz newsz flags m1 : World m (sp :: ss) own →
  (root sp ≠ k_pagetable e ∨ k_pagetable e = 0) → 0 ≤ oldsz → oldsz < newsz → newsz ≤ USER_MEMORY_TOP → 0 ≤ flags < 2 ^ 10 →
  uvmalloc e m (root sp) oldsz newsz flags = Ret (m1, newsz) →
  ∃ m2 sp2, uvmdealloc e m1 (root sp) newsz oldsz = Ret (m2, oldsz) ∧ World m2 (sp2 :: ss) own ∧
    leaf sp2 = leaf sp ∧ Grown m m2 sp sp2.
Proof.
  intros HW Hk Ho Hn Ht Hf E. pose proof top_small.
  destruct (uvmalloc_spec e m sp ss own oldsz newsz flags HW Hk ltac:(lia) Ht Hf) as [(m' & sp' & E' & HW' & HG & Hx)|(m' & sp' & E' & _)];
    rewrite E in E'; injection E' as ->; [|lia].
  set (v := PGROUNDUP oldsz / PGSIZE) in *. set (k := PGROUNDUP newsz / PGSIZE - v).
  assert (0 ≤ v ∧ 0 ≤ k ∧ (v + k) * PGSIZE = PGROUNDUP newsz ∧ v * PGSIZE = PGROUNDUP oldsz ∧ newsz ≤ (v + k) * PGSIZE < newsz + PGSIZE ∧ PGROUNDUP newsz ≤ USER_MEMORY_TOP) as (Hv & Hk0 & Ek & Ev & Hkn & Hkt).
  { assert (PGROUNDUP newsz ≤ PGROUNDUP USER_MEMORY_TOP) as Hu.
    { rewrite !PGROUNDUP_div by (unfold USER_MEMORY_TOP in *; lia). apply Z.mul_le_mono_nonneg_r; [done|]. apply Z.div_le_mono; [done|lia]. }
    change (PGROUNDUP USER_MEMORY_TOP) with USER_MEMORY_TOP in Hu. unfold k, v. rewrite !PGROUNDUP_div in * by lia. rewrite !Z.div_mul by done.
    pose proof (Z.div_mod (newsz + PGSIZE - 1) PGSIZE ltac:(done)). pose proof (Z.mod_pos_bound (newsz + PGSIZE - 1) PGSIZE ltac:(done)).
    pose proof (Z.div_le_mono (oldsz + PGSIZE - 1) (newsz + PGSIZE - 1) PGSIZE ltac:(done) ltac:(lia)).
    pose proof (Z.div_pos (oldsz + PGSIZE - 1) PGSIZE ltac:(unfold PGSIZE; lia) ltac:(done)). lia. }
  destruct (undo_spec e m sp ss own v (λ m a, uvmdealloc e m (root sp) a oldsz) HW Hv) with (m := m') (sp := sp') (k := k)
    as (m2 & sp2 & r & E2 & (HW2 & El & HG2)); try done.
  - intros m3 k3 Hk3 Hb. apply uvmdealloc_pages; [lia|done|done].
  - intros x Hxk. specialize (Hx x). rewrite decide_True in Hx by (unfold PGSIZE in *; lia). apply Hx.
  - intros x Hxk. specialize (Hx x). by rewrite decide_False in Hx by (unfold PGSIZE in *; lia).
  - by rewrite Ek.
  - exists m2, sp2. split_and!; try done. revert E2. unfold uvmdealloc. rewrite Ek.
    rewrite !(proj2 (Z.leb_gt _ _)) by (rewrite <- ?Ek; lia). rewrite (PGROUNDUP_aligned (PGROUNDUP newsz)); [|rewrite <- Ek; unfold PGSIZE in *; lia..|rewrite <- Ek; apply Z_mod_mult].
    destruct (if PGROUNDUP oldsz <? PGROUNDUP newsz then _ else _); cbn; [|done..]. by intros [= -> _].
Qed.

Lemma uvmalloc_uvmdealloc_witness :
  ∃ m c p own m1 m2 c2, World m [c; p] own ∧ uvmalloc demo_env m (root c) 4096 9000 pte_writable_m = Ret (m1, 9000) ∧
    uvmdealloc demo_env m1 (root c) 9000 4096 = Ret (m2, 4096) ∧ World m2 [c2; p] own ∧ leaf c2 = leaf c.
Proof.
  destruct (demo_spaces 4 ltac:(lia)) as (c & p & own & HI & Ec & _). pose proof (si_world _ _ _ HI) as HW.
  assert (9000 ≤ USER_MEMORY_TOP) as Ht by done.
  assert (∃ m1, uvmalloc demo_env (demo_state 4).1 0x80000000 4096 9000 pte_writable_m = Ret (m1, 9000)) as [m1 E1] by (eexists; by vm_compute).
  rewrite <- Ec in E1.
  destruct (uvmalloc_uvmdealloc demo_env (demo_state 4).1 c [p] own 4096 9000 pte_writable_m m1 HW) as (m2 & c2 & E2 & HW2 & El & _);
    [right; reflexivity|lia|lia|exact Ht|unfold pte_writable_m; lia|exact E1|].
  exists (demo_state 4).1, c, p, own, m1, m2, c2. split_and!; [exact HW|exact E1|exact E2|exact HW2|exact El].
Defined.

(** [freewalk] gives back every page of the page table and nothing else; the other
    address spaces stay as they were, and pages still mapped keep their references. *)
Theorem freewalk_correct m sp ss own : World m (sp :: ss) own →
  (∀ v d, leaf sp !! v = Some d → flags_of d ≠ pte_valid_m) →
  ∃ m', freewalk 3 m (root sp) = Ret m' ∧ World m' ss (λ a, own a + occ a (pages sp)) ∧
    (∀ a, rc m' a = if decide (a ∈ tables sp) then 0 else rc m a) ∧
    ∀ a, a ∉ tables sp → frames m' !! a = frames m !! a.
Proof.
  intros HW Hl. destruct (freewalk_spec m sp ss own HW Hl) as (m' & E & HF). exists m'.
  split_and!; [done|by apply World_freed with m|apply HF..].
Qed.

Lemma freewalk_correct_witness : ∃ m c p own m', World m [c; p] own ∧ freewalk 3 m (root c) = Ret m' ∧
  World m' [p] (λ a, own a + occ a (pages c)).
Proof.
  destruct (demo_spaces 4 ltac:(lia)) as (c & p & own & HI & _). pose proof (si_world _ _ _ HI) as HW.
  destruct (freewalk_correct (demo_state 4).1 c [p] own HW) as (m' & E & HW' & _).
  - intros v d Ed Ef. destruct (si_private _ _ _ HI c v d ltac:(by left) Ed) as [[_ Hu] _].
    unfold is_user_entry in Hu. rewrite <- (proj2 (flags_of_spec d) 4 ltac:(lia)), Ef in Hu. discriminate Hu.
  - exists (demo_state 4).1, c, p, own, m'. split_and!; [exact HW|exact E|exact HW'].
Defined.

(** [protectpages] gives every mapped page of the range the flags of its new
    permissions, where a page that a private area shares or marks copy-on-write gets
    the mark instead of write permission, and changes no address, no count, no
    contents and no other entry. *)
Theorem protectpages_correct m sp ss own v npages prot vma_at : World m (sp :: ss) own → 0 ≤ v → 0 < npages → v + npages ≤ 2 ^ 27 →
  ∃ m' f' ch, protectpages m (root sp) (v * PGSIZE) (npages * PGSIZE) prot vma_at true = Ret (m', 0, ch) ∧
    World m' (with_leaf sp f' :: ss) own ∧ same_but_tables m m' sp ∧
    protected_leaf m prot vma_at (leaf sp) f' (λ x, v ≤ x < v + npages).
Proof. apply protectpages_spec. Qed.

Lemma protectpages_correct_witness : ∃ m c p own m' f' ch, World m [c; p] own ∧
  protectpages m (root c) 0 4096 3 (λ _, None) true = Ret (m', 0, ch) ∧ World m' [with_leaf c f'; p] own ∧
  protected_leaf m 3 (λ _, None) (leaf c) f' (λ x, 0 ≤ x < 0 + 1).
Proof.
  destruct (demo_spaces 4 ltac:(lia)) as (c & p & own & HI & _). pose proof (si_world _ _ _ HI) as HW.
  destruct (protectpages_correct (demo_state 4).1 c [p] own 0 1 3 (λ _, None) HW ltac:(lia) ltac:(lia) ltac:(lia)) as (m' & f' & ch & E & HW' & _ & Hl).
  exists (demo_state 4).1, c, p, own, m', f', ch. split_and!; [exact HW|exact E|exact HW'|exact Hl].
Defined.

End VmmCorrect.
