(* ===== verification/VmArea.v ===== *)
(** * Virtual memory areas (kernel/proc/vm_area.hh)

    The [VmArea] struct with its range predicates.  Areas live in a store
    indexed by pointer; the index of [VmaMapleTree] and the address space of
    [VMASpace] hold pointers into that store, so a field assigned through one
    pointer is seen through every other. *)
From S2P Require Import Prelude Page.
Import Page.

Module VmArea.

(** ** Data *)

Inductive VmAreaKind := ElfLoad | InterpreterLoad | Heap | UserStack | Mmap | SysvShm.
Inductive VmGrowPolicy := GrowNone | GrowUp | GrowDown.
Inductive VmAdviceState := AdviceNone | WipeOnFork.

#[export] Instance VmAreaKind_eq_dec : EqDecision VmAreaKind.
Proof. solve_decision. Defined.
#[export] Instance VmGrowPolicy_eq_dec : EqDecision VmGrowPolicy.
Proof. solve_decision. Defined.
#[export] Instance VmAdviceState_eq_dec : EqDecision VmAdviceState.
Proof. solve_decision. Defined.

Definition VMA_BACKING_NONE : Z := 0.
Definition MAP_SHARED : Z := 1.
Definition MAP_PRIVATE : Z := 2.
Definition MAP_ANONYMOUS : Z := 0x20.

Record VmArea := mkVmArea {
  used : Z;
  addr : Z;
  len : Z;
  prot : Z;
  flags : Z;
  vfd : Z;
  vfile : ptr;
  offset : Z;
  max_len : Z;
  is_expandable : bool;
  backing_kind : Z;
  backing_shmid : Z;
  backing_base : Z;
  has_resident_pages : bool;
  wipe_on_fork : bool;
  owner_mm : ptr;
  object : ptr;
  page_offset : Z;
  area_kind : VmAreaKind;
  grow_policy : VmGrowPolicy;
  advice_state : VmAdviceState;
  guard_pages : Z;
  zero_fill_past_file : bool;
  file_backed_bytes : Z;
  debug_name : ptr;
  private_page_overlay : ptr
}.

(** The default member initialisers. *)
Definition VmArea_default : VmArea := {|
  used := 0; addr := 0; len := 0; prot := 0; flags := 0; vfd := -1;
  vfile := nullptr; offset := 0; max_len := 0; is_expandable := false;
  backing_kind := VMA_BACKING_NONE; backing_shmid := -1; backing_base := 0;
  has_resident_pages := false; wipe_on_fork := false; owner_mm := nullptr;
  object := nullptr; page_offset := 0; area_kind := Mmap; grow_policy := GrowNone;
  advice_state := AdviceNone; guard_pages := 0; zero_fill_past_file := false;
  file_backed_bytes := 0; debug_name := nullptr; private_page_overlay := nullptr |}.

#[export] Instance VmArea_inhabited : Inhabited VmArea := populate VmArea_default.

(** The store of areas. *)
Abbreviation store := (gmap ptr VmArea).

(** ** Range predicates *)

Definition end_addr (a : VmArea) : Z := u64 (addr a + len a).

Definition valid_range (a : VmArea) : bool :=
  negb (used a =? 0) && negb (len a =? 0) && (addr a <? end_addr a).

Definition covers (a : VmArea) (target : Z) : bool :=
  valid_range a && (addr a <=? target) && (target <? end_addr a).

Definition overlaps (a : VmArea) (start end_ : Z) : bool :=
  valid_range a && (start <? end_addr a) && (addr a <? end_).

Definition overlaps_area (a other : VmArea) : bool :=
  overlaps a (addr other) (end_addr other).

Definition is_private_mapping (a : VmArea) : bool :=
  if bool_decide (area_kind a = Heap ∨ area_kind a = UserStack) then true
  else negb (Z.land (flags a) MAP_PRIVATE =? 0).

Definition is_shared_mapping (a : VmArea) : bool :=
  bool_decide (area_kind a = SysvShm) || negb (Z.land (flags a) MAP_SHARED =? 0).

Definition grows_down (a : VmArea) : bool := bool_decide (grow_policy a = GrowDown).
Definition grows_up (a : VmArea) : bool := bool_decide (grow_policy a = GrowUp).

Definition page_index_for_va (a : VmArea) (va : Z) : Z :=
  u64 (PGROUNDDOWN va - PGROUNDDOWN (addr a)) / PGSIZE.

Definition mapped_page_offset (a : VmArea) (va : Z) : Z :=
  u64 (page_offset a + u64 (page_index_for_va a va * PGSIZE)).

(** ** Machine ranges *)

(** The fields hold 64-bit values. *)
Definition sized (a : VmArea) : Prop := 0 ≤ addr a < 2 ^ 64 ∧ 0 ≤ len a < 2 ^ 64.

(** A valid area is a non-empty interval that does not wrap. *)
Lemma valid_end a :
  sized a → valid_range a = true →
  end_addr a = addr a + len a ∧ addr a < end_addr a ∧ end_addr a < 2 ^ 64.
Proof.
  intros [Ha Hl] H. unfold valid_range in H.
  apply andb_true_iff in H as [H He]. apply andb_true_iff in H as [_ Hl0].
  apply negb_true_iff, Z.eqb_neq in Hl0. apply Z.ltb_lt in He.
  unfold end_addr in *. pose proof (u64_range (addr a + len a)).
  destruct (decide (addr a + len a < 2 ^ 64)).
  - rewrite u64_small in * by lia. lia.
  - replace (u64 (addr a + len a)) with (addr a + len a - 2 ^ 64) in *; [lia|].
    unfold u64. symmetry. rewrite (Z.mod_eq _ (2^64)) by lia.
    replace ((addr a + len a) / 2 ^ 64) with 1; [lia|].
    apply (Z.div_unique _ _ _ (addr a + len a - 2 ^ 64)); lia.
Qed.

Lemma covers_spec a x :
  valid_range a = true → covers a x = true ↔ addr a ≤ x < end_addr a.
Proof. intros H. unfold covers. rewrite H. cbn. rewrite andb_true_iff. lia. Qed.

Lemma overlaps_spec a s e :
  valid_range a = true → overlaps a s e = true ↔ s < end_addr a ∧ addr a < e.
Proof. intros H. unfold overlaps. rewrite H. cbn. rewrite andb_true_iff. lia. Qed.

End VmArea.
