(* ===== verification/AreaIndex.v ===== *)
(** * Ordered areas and the interface of an area index

    What it means for a list of area pointers to be valid, disjoint and in
    address order in a store, and the class [AreaIndex]: the operations
    [VMASpace] uses of its index with their laws.  [VmaMapleTree] is an
    instance ([MapleCorrect]). *)
From S2P Require Import Prelude VmArea.
Import VmArea.

Module AreaIndex.

Definition valid_entry (m : store) (p : ptr) : Prop :=
  p ≠ nullptr ∧ sized (m !!! p) ∧ valid_range (m !!! p) = true.

(** [p] lies wholly below [q]. *)
Definition below (m : store) (p q : ptr) : Prop := end_addr (m !!! p) ≤ addr (m !!! q).

Definition ordered (m : store) (l : list ptr) : Prop :=
  Forall (valid_entry m) l ∧ StronglySorted (below m) l.

(** Entries in address order. *)
Definition by_addr (m : store) (p q : ptr) : Prop := addr (m !!! p) ≤ addr (m !!! q).

Lemma valid_entry_end m p :
  valid_entry m p → addr (m !!! p) < end_addr (m !!! p).
Proof. intros (_ & Hs & Hv). by apply valid_end. Qed.

Lemma ordered_app m l l' :
  ordered m (l ++ l') ↔
  ordered m l ∧ ordered m l' ∧ ∀ p q, p ∈ l → q ∈ l' → below m p q.
Proof. unfold ordered. rewrite Forall_app, StronglySorted_app. naive_solver. Qed.

Lemma ordered_by_addr m l : ordered m l → StronglySorted (by_addr m) l.
Proof.
  intros [Hv Hs]. induction Hs as [|p l Hs IH Hp]; constructor.
  - apply IH. by apply Forall_cons_iff in Hv as [_ ?].
  - apply Forall_cons_iff in Hv as [Hv _]. eapply Forall_impl; [exact Hp|].
    unfold below, by_addr. intros q ?. pose proof (valid_entry_end m p Hv). lia.
Qed.

Lemma ordered_NoDup m l : ordered m l → NoDup l.
Proof.
  intros [Hv Hs]. induction Hs as [|p l Hs IH Hp]; constructor.
  - intros Hin. rewrite Forall_forall in Hp. specialize (Hp p Hin). unfold below in Hp.
    apply Forall_cons_iff in Hv as [Hv _]. pose proof (valid_entry_end m p Hv). lia.
  - apply IH. by apply Forall_cons_iff in Hv as [_ ?].
Qed.

Lemma ordered_nonnull m l : ordered m l → Forall (.≠ nullptr) l.
Proof. intros [Hv _]. eapply Forall_impl; [exact Hv|]. by intros p [? _]. Qed.

(** From a bound on its first element to a bound on all of an ordered list. *)
Lemma ordered_from m l k (P : Z → Z → Prop) :
  ordered m l → (∀ a b, P k a → a ≤ b → P k b) →
  (∀ p, head l = Some p → P k (addr (m !!! p))) → ∀ p, p ∈ l → P k (addr (m !!! p)).
Proof.
  intros Ho%ordered_by_addr HP Hh p Hp. destruct l as [|e l]; [by apply elem_of_nil in Hp|].
  apply StronglySorted_inv in Ho as [_ Ho]. rewrite Forall_forall in Ho.
  specialize (Hh e eq_refl). apply elem_of_cons in Hp as [->|Hp]; [done|].
  eapply HP; [exact Hh|]. by apply Ho.
Qed.

Definition hits (m : store) (e p : ptr) : bool :=
  negb (p =? nullptr) && overlaps_area (m !!! p) (m !!! e).

Lemma hits_spec m e p :
  valid_entry m p →
  hits m e p = true ↔ addr (m !!! e) < end_addr (m !!! p) ∧ addr (m !!! p) < end_addr (m !!! e).
Proof.
  intros (Hp & _ & Hv). unfold hits, overlaps_area.
  rewrite (proj2 (Z.eqb_neq p nullptr)) by done. cbn [negb andb]. by rewrite overlaps_spec.
Qed.

Lemma hits_last m e A :
  ordered m A → valid_entry m e → (∀ p, p ∈ A → addr (m !!! p) < addr (m !!! e)) →
  if hits m e (last_or nullptr A) then ∃ p, p ∈ A ∧ hits m e p = true
  else ∀ p, p ∈ A → below m p e.
Proof.
  intros Ho He%valid_entry_end Hlt.
  destruct A as [|w A _] using rev_ind; [cbn; by intros ? ?%elem_of_nil|].
  rewrite last_or_snoc. destruct (hits m e w) eqn:Hw; [exists w; set_solver|].
  apply ordered_app in Ho as (_ & Hw1 & Hb). destruct Hw1 as [Hv%Forall_inv _].
  assert (end_addr (m !!! w) ≤ addr (m !!! e)) as Hbw.
  { apply not_true_iff_false in Hw. rewrite hits_spec in Hw by done.
    specialize (Hlt w ltac:(set_solver)). lia. }
  intros p [Hp|Hp%list_elem_of_singleton]%elem_of_app; [|by subst p].
  specialize (Hb p w Hp ltac:(by left)). unfold below in *.
  apply valid_entry_end in Hv. lia.
Qed.

Lemma hits_first m e B :
  ordered m B → valid_entry m e → (∀ p, p ∈ B → addr (m !!! e) ≤ addr (m !!! p)) →
  if hits m e (hd nullptr B) then ∃ p, p ∈ B ∧ hits m e p = true
  else ∀ p, p ∈ B → below m e p.
Proof.
  intros Ho He%valid_entry_end Hge. destruct B as [|w B]; [cbn; by intros ? ?%elem_of_nil|].
  cbn [hd]. destruct (hits m e w) eqn:Hw; [exists w; set_solver|].
  pose proof Ho as [Hv%Forall_inv _].
  apply (ordered_from m (w :: B) (end_addr (m !!! e)) Z.le); [done|lia|].
  intros p [= <-]. apply not_true_iff_false in Hw. rewrite hits_spec in Hw by done.
  specialize (Hge w ltac:(by left)). apply valid_entry_end in Hv. lia.
Qed.

Lemma ordered_insert m A e B :
  ordered m (A ++ B) → valid_entry m e →
  (∀ p, p ∈ A → below m p e) → (∀ p, p ∈ B → below m e p) → ordered m (A ++ e :: B).
Proof.
  rewrite !ordered_app. intros (HA & HB & HAB) He Hlo Hhi. split_and!; [done| |].
  - destruct HB as [Hv Hs]. split; [by constructor|]. constructor; [done|]. by apply Forall_forall.
  - intros p q Hp [->|Hq]%elem_of_cons; auto.
Qed.

(** Two stores agree on the areas [l]. *)
Definition agree (m m' : store) (l : list ptr) : Prop := ∀ p, p ∈ l → m !!! p = m' !!! p.

Lemma ordered_agree m m' l : agree m m' l → ordered m l → ordered m' l.
Proof.
  intros Ha [Hv Hs]. split.
  - rewrite Forall_forall in Hv |- *. intros p Hp. unfold valid_entry.
    rewrite <- (Ha p Hp). by apply Hv.
  - clear Hv. induction Hs as [|p l Hs IH Hp]; constructor.
    + apply IH. intros q Hq. apply Ha. by right.
    + rewrite Forall_forall in Hp |- *. intros q Hq. unfold below.
      rewrite <- (Ha p), <- (Ha q); [by apply Hp|by right|by left].
Qed.

Lemma ordered_cmp m l p q :
  ordered m l → p ∈ l → q ∈ l → p ≠ q → below m p q ∨ below m q p.
Proof.
  intros Ho Hp Hq Hne. apply list_elem_of_split in Hp as (A & B & ->).
  pose proof Ho as (_ & [_ Hs] & Hb)%ordered_app. apply StronglySorted_cons in Hs as [Hs _].
  rewrite Forall_forall in Hs. rewrite elem_of_app, elem_of_cons in Hq.
  destruct Hq as [Hq|[->|Hq]]; [right; apply Hb; [done|by left]|done|left; by apply Hs].
Qed.

Lemma covers_unique m l p q a :
  ordered m l → p ∈ l → q ∈ l →
  covers (m !!! p) a = true → covers (m !!! q) a = true → p = q.
Proof.
  intros Ho Hp Hq Hcp Hcq. destruct (decide (p = q)) as [|Hne]; [done|].
  pose proof Ho as [Hv _]. rewrite Forall_forall in Hv.
  rewrite covers_spec in Hcp, Hcq by (by apply Hv).
  destruct (ordered_cmp m l p q Ho Hp Hq Hne); unfold below in *; lia.
Qed.

(** The entries that meet the range, in address order. *)
Definition in_range (m : store) (start end_ : Z) (l : list ptr) : list ptr :=
  base.filter (λ p, overlaps (m !!! p) start end_ = true) l.

Definition aligned (alignment a : Z) : Prop := alignment = 0 ∨ a mod alignment = 0.

(** [a] is a place for [size] bytes at or above [lo], below [max_addr]. *)
Definition fits (m : store) (l : list ptr) (lo max_addr size alignment a : Z) : Prop :=
  lo ≤ a ∧ a + size ≤ max_addr ∧ aligned alignment a ∧
  ∀ p, p ∈ l → end_addr (m !!! p) ≤ a ∨ a + size ≤ addr (m !!! p).

(** [r] is the least place, or zero when there is none. *)
Definition first_fit (m : store) (l : list ptr) (lo max_addr size alignment r : Z) : Prop :=
  (fits m l lo max_addr size alignment r ∧
   ∀ a, fits m l lo max_addr size alignment a → r ≤ a) ∨
  (r = 0 ∧ ∀ a, ¬ fits m l lo max_addr size alignment a).

Lemma ordered_remove m A e B : ordered m (A ++ e :: B) → ordered m (A ++ B).
Proof.
  rewrite !ordered_app. intros (H1 & [Hv Hs] & H3). apply Forall_cons_iff in Hv as [_ Hv].
  apply StronglySorted_cons in Hs as [_ Hs]. split_and!; [done|done|].
  intros p q Hp Hq. apply H3; [done|by right].
Qed.

(** The order of a list of areas is determined by the areas. *)
Lemma ordered_unique m l l' : ordered m l → ordered m l' → l ≡ₚ l' → l = l'.
Proof.
  intros [Hv Hs] [Hv' Hs'] Hp. apply (StronglySorted_unique_strong (below m)); [|done..].
  intros p q Hp' Hq Hpq Hqp. unfold below in *. rewrite Forall_forall in Hv, Hv'.
  pose proof (valid_entry_end m p (Hv p Hp')). pose proof (valid_entry_end m q (Hv' q Hq)). lia.
Qed.

(** ** The interface *)

(** [ix_rep m i l]: the index [i] holds the areas [l], in address order. *)
Class AreaIndex (I : Type) := {
  ix_empty : I;
  ix_insert : store → I → ptr → outcome (I * bool);
  ix_erase : store → I → ptr → Z → outcome I;
  ix_clear : I → outcome I;
  ix_find : store → I → Z → outcome ptr;
  ix_lower_bound : store → I → Z → outcome ptr;
  ix_prev_by_start : store → I → Z → outcome ptr;
  ix_next : store → I → ptr → outcome ptr;
  ix_has_conflict : store → I → Z → Z → ptr → outcome bool;
  ix_find_gap : store → I → Z → Z → Z → Z → Z → outcome Z;
  ix_size : I → Z;
  ix_rep : store → I → list ptr → Prop;

  ix_rep_ordered m i l : ix_rep m i l → ordered m l;
  ix_rep_agree m m' i l : ix_rep m i l → agree m m' l → ix_rep m' i l;
  ix_rep_size m i l : ix_rep m i l → ix_size i = Z.of_nat (length l);
  ix_empty_law m : ix_rep m ix_empty [];
  ix_insert_law m i l e :
    ix_rep m i l → e ≠ nullptr → sized (m !!! e) →
    ∃ i' b, ix_insert m i e = Ret (i', b) ∧
      if b then valid_range (m !!! e) = true ∧ (∀ p, p ∈ l → hits m e p = false) ∧
           ∃ A B, l = A ++ B ∧ ix_rep m i' (A ++ e :: B)
      else i' = i ∧ (valid_range (m !!! e) = false ∨ ∃ p, p ∈ l ∧ hits m e p = true);
  ix_erase_law m m' i A e B :
    ix_rep m i (A ++ e :: B) → agree m m' (A ++ B) →
    ∃ i', ix_erase m' i e (addr (m !!! e)) = Ret i' ∧ ix_rep m' i' (A ++ B);
  ix_erase_absent m m' i l e k : ix_rep m i l → e ∉ l → ix_erase m' i e k = Ret i;
  ix_clear_law m i l : ix_rep m i l → ∃ i', ix_clear i = Ret i' ∧ ∀ m', ix_rep m' i' [];
  ix_find_law m i l a :
    ix_rep m i l →
    ∃ p, ix_find m i a = Ret p ∧
      ((p ∈ l ∧ covers (m !!! p) a = true) ∨
       (p = nullptr ∧ ∀ q, q ∈ l → covers (m !!! q) a = false));
  ix_lower_bound_law m i l start :
    ix_rep m i l →
    ∃ A B, l = A ++ B ∧ (∀ p, p ∈ A → addr (m !!! p) < start) ∧
      (∀ p, p ∈ B → start ≤ addr (m !!! p)) ∧
      ix_lower_bound m i start = Ret (hd nullptr B) ∧
      ix_prev_by_start m i start = Ret (last_or nullptr A);
  ix_next_law m i A p B :
    ix_rep m i (A ++ p :: B) → ix_next m i p = Ret (hd nullptr B);
  ix_has_conflict_law m i l start end_ ignore :
    ix_rep m i l → start < end_ → (ignore ∈ l → addr (m !!! ignore) < start) →
    ∃ b, ix_has_conflict m i start end_ ignore = Ret b ∧
      (b = true ↔ ∃ p, p ∈ l ∧ p ≠ ignore ∧ overlaps (m !!! p) start end_ = true);
  ix_find_gap_law m i l hint min_addr max_addr size alignment :
    ix_rep m i l → 0 ≤ hint → 0 ≤ min_addr → 0 ≤ max_addr < 2 ^ 64 → 0 < size → 0 ≤ alignment →
    Z.max hint min_addr + alignment ≤ 2 ^ 64 →
    (∀ p, p ∈ l → end_addr (m !!! p) + alignment ≤ 2 ^ 64) →
    ∃ r, ix_find_gap m i hint min_addr max_addr size alignment = Ret r ∧
      first_fit m l (Z.max hint min_addr) max_addr size alignment r
}.

End AreaIndex.
