(* ===== verification/MapleTree.v ===== *)
(** * The VMA index (kernel/proc/vma_maple_tree.cc)

    A B+ tree of [VmArea] pointers ordered by start address, whose leaves form
    a doubly linked list.  Node memory is modelled field by field: one map per
    struct field from node pointer to field value, so that the parent, previous
    and next pointers, the cached keys and the node arrays are each assigned
    where the code assigns them.  A [delete]d node is in none of the maps and
    using it is a [Fault].

    The arrays [entries], [keys] and [children] are represented by their live
    prefix, of length [count]; storing beyond the capacity of thirteen slots is
    a [Fault].  The store [m] of areas is an argument of every operation that
    reads an area. *)
From S2P Require Import Prelude VmArea.
Import VmArea.

Module VmaMapleTree.

Definition k_leaf_capacity : Z := 12.
Definition k_internal_capacity : Z := 12.

(** [Node::kind] with the array the kind selects. *)
Inductive Node :=
  | LeafNode (entries : list ptr)
  | InternalNode (children : list ptr).

Record VmaMapleTree := mkMaple {
  nodes : gmap ptr Node;
  keys : gmap ptr (list Z);
  parent : gmap ptr ptr;
  prev_ : gmap ptr ptr;
  next_ : gmap ptr ptr;
  brk : ptr;                 (* the next address [new] returns *)
  root_ : ptr;
  head_ : ptr;
  tail_ : ptr;
  size_ : Z
}.

Definition with_nodes (t : VmaMapleTree) f := mkMaple (f (nodes t)) (keys t) (parent t)
  (prev_ t) (next_ t) (brk t) (root_ t) (head_ t) (tail_ t) (size_ t).
Definition with_keys (t : VmaMapleTree) f := mkMaple (nodes t) (f (keys t)) (parent t)
  (prev_ t) (next_ t) (brk t) (root_ t) (head_ t) (tail_ t) (size_ t).
Definition with_parent (t : VmaMapleTree) f := mkMaple (nodes t) (keys t) (f (parent t))
  (prev_ t) (next_ t) (brk t) (root_ t) (head_ t) (tail_ t) (size_ t).
Definition with_prev (t : VmaMapleTree) f := mkMaple (nodes t) (keys t) (parent t)
  (f (prev_ t)) (next_ t) (brk t) (root_ t) (head_ t) (tail_ t) (size_ t).
Definition with_next (t : VmaMapleTree) f := mkMaple (nodes t) (keys t) (parent t)
  (prev_ t) (f (next_ t)) (brk t) (root_ t) (head_ t) (tail_ t) (size_ t).
Definition with_root (t : VmaMapleTree) r := mkMaple (nodes t) (keys t) (parent t)
  (prev_ t) (next_ t) (brk t) r (head_ t) (tail_ t) (size_ t).
Definition with_head (t : VmaMapleTree) h := mkMaple (nodes t) (keys t) (parent t)
  (prev_ t) (next_ t) (brk t) (root_ t) h (tail_ t) (size_ t).
Definition with_tail (t : VmaMapleTree) l := mkMaple (nodes t) (keys t) (parent t)
  (prev_ t) (next_ t) (brk t) (root_ t) (head_ t) l (size_ t).
Definition with_size (t : VmaMapleTree) n := mkMaple (nodes t) (keys t) (parent t)
  (prev_ t) (next_ t) (brk t) (root_ t) (head_ t) (tail_ t) n.

(** The constructor. *)
Definition maple_empty : VmaMapleTree :=
  mkMaple ∅ ∅ ∅ ∅ ∅ 1 nullptr nullptr nullptr 0.

(** ** Node memory *)

Definition load_node (t : VmaMapleTree) (p : ptr) : outcome Node :=
  match nodes t !! p with Some n => Ret n | None => Fault end.

Definition load_leaf (t : VmaMapleTree) (p : ptr) : outcome (list ptr) :=
  match nodes t !! p with Some (LeafNode es) => Ret es | _ => Fault end.

Definition load_internal (t : VmaMapleTree) (p : ptr) : outcome (list ptr) :=
  match nodes t !! p with Some (InternalNode cs) => Ret cs | _ => Fault end.

(** [p->field] for the pointer fields and the key array. *)
Definition fld {A} (f : gmap ptr A) (p : ptr) : outcome A :=
  match f !! p with Some q => Ret q | None => Fault end.

Definition store_leaf (t : VmaMapleTree) (p : ptr) (es : list ptr) : outcome VmaMapleTree :=
  if Z.of_nat (length es) <=? k_leaf_capacity + 1
  then Ret (with_nodes t (<[p := LeafNode es]>)) else Fault.

Definition store_internal (t : VmaMapleTree) (p : ptr) (cs : list ptr) : outcome VmaMapleTree :=
  if Z.of_nat (length cs) <=? k_internal_capacity + 1
  then Ret (with_nodes t (<[p := InternalNode cs]>)) else Fault.

(** [new LeafNode()], [new InternalNode()] and [delete]. *)
Definition new_leaf (t : VmaMapleTree) : VmaMapleTree * ptr :=
  let p := brk t in
  (mkMaple (<[p := LeafNode []]> (nodes t)) (keys t) (<[p := nullptr]> (parent t))
     (<[p := nullptr]> (prev_ t)) (<[p := nullptr]> (next_ t)) (p + 1)
     (root_ t) (head_ t) (tail_ t) (size_ t), p).

Definition new_internal (t : VmaMapleTree) : VmaMapleTree * ptr :=
  let p := brk t in
  (mkMaple (<[p := InternalNode []]> (nodes t)) (<[p := []]> (keys t))
     (<[p := nullptr]> (parent t)) (prev_ t) (next_ t) (p + 1)
     (root_ t) (head_ t) (tail_ t) (size_ t), p).

Definition delete_node (t : VmaMapleTree) (p : ptr) : outcome VmaMapleTree :=
  let! _ := load_node t p in
  Ret (mkMaple (delete p (nodes t)) (delete p (keys t)) (delete p (parent t))
     (delete p (prev_ t)) (delete p (next_ t)) (brk t)
     (root_ t) (head_ t) (tail_ t) (size_ t)).

(** The bound on walks through node memory: no walk visits a node twice. *)
Definition fuel (t : VmaMapleTree) : nat := S (size (nodes t)).
Arguments fuel : simpl never.

(** ** Arrays of entries *)

Definition align_up (value alignment : Z) : Z :=
  if alignment =? 0 then value else
  let remainder := value mod alignment in
  if remainder =? 0 then value else u64 (value + (alignment - remainder)).

(** The first and the last non-null slot, null when there is none. *)
Fixpoint first_nonnull (l : list ptr) : ptr :=
  match l with
  | [] => nullptr
  | e :: r => if e =? nullptr then first_nonnull r else e
  end.

Definition last_nonnull (l : list ptr) : ptr := first_nonnull (rev l).

(** The index of the first slot holding [p]. *)
Fixpoint index_of (p : ptr) (l : list ptr) : option nat :=
  match l with
  | [] => None
  | e :: r => if e =? p then Some O else S <$> index_of p r
  end.

Definition insert_at (i : nat) (p : ptr) (l : list ptr) : list ptr :=
  take i l ++ p :: drop i l.

Definition remove_at (i : nat) (l : list ptr) : list ptr :=
  take i l ++ drop (S i) l.

(** The loop of [child_slot] with its [best] and the [break]. *)
Fixpoint child_slot_loop (children : list ptr) (ks : list Z) (key : Z) (i best : Z) : Z :=
  match children with
  | [] => best
  | c :: cs =>
      if c =? nullptr then child_slot_loop cs (tail ks) key (i + 1) best
      else if hd 0 ks <=? key then child_slot_loop cs (tail ks) key (i + 1) i
      else best
  end.

Fixpoint first_child_slot (children : list ptr) (i : Z) : Z :=
  match children with
  | [] => 0
  | c :: cs => if c =? nullptr then first_child_slot cs (i + 1) else i
  end.

Definition child_slot (children : list ptr) (ks : list Z) (key : Z) : Z :=
  let best := child_slot_loop children ks key 0 (-1) in
  if 0 <=? best then best else first_child_slot children 0.

Definition find_child_index (t : VmaMapleTree) (node child : ptr) : outcome (option nat) :=
  if (node =? nullptr) || (child =? nullptr) then Ret None else
  let! cs := load_internal t node in Ret (index_of child cs).

(** [last_entry], the same as [last_entry_mut]. *)
Definition last_entry (t : VmaMapleTree) (leaf : ptr) : outcome ptr :=
  if leaf =? nullptr then Ret nullptr else
  let! es := load_leaf t leaf in Ret (last_nonnull es).

(** The first entry of [leaf->next], null when there is no next leaf. *)
Definition next_leaf_first (t : VmaMapleTree) (leaf : ptr) : outcome ptr :=
  let! nx := fld (next_ t) leaf in
  if nx =? nullptr then Ret nullptr else
  let! es := load_leaf t nx in Ret (first_nonnull es).

(** ** Descent from the root *)

Fixpoint find_leaf_loop (fuel : nat) (t : VmaMapleTree) (node : ptr) (key : Z) : outcome ptr :=
  match fuel with
  | O => Stuck
  | S f =>
      let! n := load_node t node in
      match n with
      | LeafNode _ => Ret node
      | InternalNode cs =>
          let! ks := fld (keys t) node in
          let slot := child_slot cs ks key in
          let node := if (0 <=? slot) && (slot <? Z.of_nat (length cs))
                      then cs !!! Z.to_nat slot else nullptr in
          if node =? nullptr then Ret nullptr else find_leaf_loop f t node key
      end
  end.

Definition find_leaf (t : VmaMapleTree) (key : Z) : outcome ptr :=
  if root_ t =? nullptr then Ret nullptr else find_leaf_loop (fuel t) t (root_ t) key.

Section with_store.
Context (m : store).

Fixpoint find_entry_slot_loop (es : list ptr) (key : Z) (i : nat) : nat :=
  match es with
  | [] => i
  | e :: r =>
      if e =? nullptr then find_entry_slot_loop r key (S i)
      else if key <=? addr (m !!! e) then i else find_entry_slot_loop r key (S i)
  end.
Definition find_entry_slot (es : list ptr) (key : Z) : nat := find_entry_slot_loop es key 0.

Fixpoint upper_bound_slot_loop (es : list ptr) (key : Z) (i : nat) : nat :=
  match es with
  | [] => i
  | e :: r =>
      if e =? nullptr then upper_bound_slot_loop r key (S i)
      else if key <? addr (m !!! e) then i else upper_bound_slot_loop r key (S i)
  end.
Definition upper_bound_slot (es : list ptr) (key : Z) : nat := upper_bound_slot_loop es key 0.

Fixpoint first_key (fuel : nat) (t : VmaMapleTree) (node : ptr) : outcome Z :=
  match fuel with
  | O => Stuck
  | S f =>
      if node =? nullptr then Ret 0 else
      let! n := load_node t node in
      match n with
      | LeafNode es =>
          let e := first_nonnull es in
          if e =? nullptr then Ret 0 else Ret (addr (m !!! e))
      | InternalNode cs =>
          let c := first_nonnull cs in
          if c =? nullptr then Ret 0 else first_key f t c
      end
  end.

(** ** Cached keys *)

Fixpoint first_keys (t : VmaMapleTree) (cs : list ptr) : outcome (list Z) :=
  match cs with
  | [] => Ret []
  | c :: r =>
      let! k := first_key (fuel t) t c in
      let! ks := first_keys t r in Ret (k :: ks)
  end.

Definition refresh_keys (t : VmaMapleTree) (node : ptr) : outcome VmaMapleTree :=
  if node =? nullptr then Ret t else
  let! cs := load_internal t node in
  let! ks := first_keys t cs in
  Ret (with_keys t (<[node := ks]>)).

Fixpoint refresh_ancestors_loop (fuel : nat) (t : VmaMapleTree) (cursor : ptr)
    : outcome VmaMapleTree :=
  match fuel with
  | O => Stuck
  | S f =>
      if cursor =? nullptr then Ret t else
      let! t := refresh_keys t cursor in
      let! up := fld (parent t) cursor in
      refresh_ancestors_loop f t up
  end.

Definition refresh_ancestors (t : VmaMapleTree) (node : ptr) : outcome VmaMapleTree :=
  if node =? nullptr then Ret t else
  let! cursor := fld (parent t) node in
  refresh_ancestors_loop (fuel t) t cursor.

Definition nonnull (l : list ptr) : list ptr := base.filter (λ e, e ≠ nullptr) l.

Definition compact_leaf (t : VmaMapleTree) (leaf : ptr) : outcome VmaMapleTree :=
  if leaf =? nullptr then Ret t else
  let! es := load_leaf t leaf in
  let write := nonnull es in
  if (length write <? length es)%nat then
    let size := size_ t - (Z.of_nat (length es) - Z.of_nat (length write)) in
    let t := with_size t (if size <? 0 then 0 else size) in
    refresh_ancestors (with_nodes t (<[leaf := LeafNode write]>)) leaf
  else Ret t.

(** ** Insertion *)

(** [split_internal], with the sibling insertion it ends in as an argument. *)
Definition split_internal (insert_right_sibling : VmaMapleTree → ptr → ptr → outcome VmaMapleTree)
    (t : VmaMapleTree) (node : ptr) : outcome VmaMapleTree :=
  let (t, right_) := new_internal t in
  let! cs := load_internal t node in
  let left_count := (length cs / 2)%nat in
  let moved := drop left_count cs in
  let! t := store_internal t right_ moved in
  let t := with_parent t (λ par,
    foldr (λ c par, if c =? nullptr then par else <[c := right_]> par) par moved) in
  let! t := store_internal t node (take left_count cs) in
  let! t := refresh_keys t node in
  let! t := refresh_keys t right_ in
  insert_right_sibling t node right_.

Fixpoint insert_right_sibling (fuel : nat) (t : VmaMapleTree) (left_ right_ : ptr)
    : outcome VmaMapleTree :=
  match fuel with
  | O => Stuck
  | S f =>
      let! par := (if left_ =? nullptr then Ret nullptr else fld (parent t) left_) in
      let t := with_parent t (<[right_ := par]>) in
      if par =? nullptr then
        let (t, new_root) := new_internal t in
        let! t := store_internal t new_root [left_; right_] in
        let t := with_parent t (<[left_ := new_root]>) in
        let t := with_parent t (<[right_ := new_root]>) in
        let! t := refresh_keys t new_root in
        Ret (with_root t new_root)
      else
        let! idx := find_child_index t par left_ in
        match idx with
        | None => Ret t
        | Some left_index =>
            let! cs := load_internal t par in
            let cs := insert_at (S left_index) right_ cs in
            let! t := store_internal t par cs in
            let! t := refresh_keys t par in
            if k_internal_capacity <? Z.of_nat (length cs)
            then split_internal (insert_right_sibling f) t par
            else refresh_ancestors t par
        end
  end.

Definition split_leaf (t : VmaMapleTree) (leaf : ptr) : outcome VmaMapleTree :=
  let! t := compact_leaf t leaf in
  let (t, right_) := new_leaf t in
  let! es := load_leaf t leaf in
  let left_count := (length es / 2)%nat in
  let! t := store_leaf t right_ (drop left_count es) in
  let! t := store_leaf t leaf (take left_count es) in
  let! nx := fld (next_ t) leaf in
  let t := with_next t (<[right_ := nx]>) in
  let t := with_prev t (<[right_ := leaf]>) in
  let t := if nx =? nullptr then with_tail t right_ else with_prev t (<[nx := right_]>) in
  let t := with_next t (<[leaf := right_]>) in
  insert_right_sibling (fuel t) t leaf right_.

Definition insert (t : VmaMapleTree) (entry : ptr) : outcome (VmaMapleTree * bool) :=
  if (entry =? nullptr) || (used (m !!! entry) =? 0) || negb (valid_range (m !!! entry))
  then Ret (t, false) else
  if root_ t =? nullptr then
    let (t, leaf) := new_leaf t in
    let! t := store_leaf t leaf [entry] in
    Ret (with_size (with_tail (with_head (with_root t leaf) leaf) leaf) 1, true)
  else
    let! leaf := find_leaf t (addr (m !!! entry)) in
    if leaf =? nullptr then Ret (t, false) else
    let! t := compact_leaf t leaf in
    let! es := load_leaf t leaf in
    let slot := find_entry_slot es (addr (m !!! entry)) in
    let! prev_entry :=
      (if (0 <? slot)%nat then Ret (es !!! (slot - 1)%nat)
       else let! pv := fld (prev_ t) leaf in last_entry t pv) in
    let! next_entry :=
      (if (slot <? length es)%nat then Ret (es !!! slot) else next_leaf_first t leaf) in
    if (negb (prev_entry =? nullptr) && overlaps_area (m !!! prev_entry) (m !!! entry)) ||
       (negb (next_entry =? nullptr) && overlaps_area (m !!! next_entry) (m !!! entry))
    then Ret (t, false) else
    let es := insert_at slot entry es in
    let! t := store_leaf t leaf es in
    let t := with_size t (size_ t + 1) in
    let! t := (if k_leaf_capacity <? Z.of_nat (length es)
               then split_leaf t leaf else refresh_ancestors t leaf) in
    Ret (t, true).

(** ** Locating an entry *)

(** The forward walk: [Some leaf] when a leaf holding [entry] was met before
    the walk left the range that can hold [key_hint]. *)
Fixpoint locate_forward (fuel : nat) (t : VmaMapleTree) (candidate : ptr) (entry : ptr)
    (key_hint : Z) : outcome (option ptr) :=
  match fuel with
  | O => Stuck
  | S f =>
      if candidate =? nullptr then Ret None else
      let! es := load_leaf t candidate in
      match index_of entry es with
      | Some _ => Ret (Some candidate)
      | None =>
          let! first := first_key f t candidate in
          if (length es =? 0)%nat || (negb (first =? 0) && (key_hint <? first)) then Ret None
          else let! nx := fld (next_ t) candidate in locate_forward f t nx entry key_hint
      end
  end.

Fixpoint locate_backward (fuel : nat) (t : VmaMapleTree) (candidate : ptr) (entry : ptr)
    (key_hint : Z) : outcome (option ptr) :=
  match fuel with
  | O => Stuck
  | S f =>
      if candidate =? nullptr then Ret None else
      let! es := load_leaf t candidate in
      let! pv := fld (prev_ t) candidate in
      if (length es =? 0)%nat then locate_backward f t pv entry key_hint else
      let last := last_nonnull es in
      if negb (last =? nullptr) && (addr (m !!! last) <? key_hint) then Ret None else
      match index_of entry es with
      | Some _ => Ret (Some candidate)
      | None => locate_backward f t pv entry key_hint
      end
  end.

Definition locate_leaf_for_entry (t : VmaMapleTree) (entry : ptr) (key_hint : Z) : outcome ptr :=
  if entry =? nullptr then Ret nullptr else
  let! leaf := find_leaf t key_hint in
  if leaf =? nullptr then Ret nullptr else
  let! found := locate_forward (S (fuel t)) t leaf entry key_hint in
  match found with
  | Some candidate => Ret candidate
  | None =>
      let! pv := fld (prev_ t) leaf in
      let! found := locate_backward (fuel t) t pv entry key_hint in
      Ret (default nullptr found)
  end.

(** ** Removal *)

Definition unlink_leaf (t : VmaMapleTree) (leaf : ptr) : outcome VmaMapleTree :=
  let! pv := fld (prev_ t) leaf in
  let! nx := fld (next_ t) leaf in
  let t := if pv =? nullptr then with_head t nx else with_next t (<[pv := nx]>) in
  Ret (if nx =? nullptr then with_tail t pv else with_prev t (<[nx := pv]>)).

Fixpoint compress_root_loop (fuel : nat) (t : VmaMapleTree) : outcome VmaMapleTree :=
  match fuel with
  | O => Stuck
  | S f =>
      if root_ t =? nullptr then Ret t else
      let! n := load_node t (root_ t) in
      match n with
      | LeafNode _ => Ret t
      | InternalNode cs =>
          if negb (length cs =? 1)%nat then refresh_keys t (root_ t) else
          let internal := root_ t in
          let t := with_root t (cs !!! O) in
          let t := if root_ t =? nullptr then t
                   else with_parent t (<[root_ t := nullptr]>) in
          let! t := delete_node t internal in
          compress_root_loop f t
      end
  end.

Definition compress_root (t : VmaMapleTree) : outcome VmaMapleTree :=
  compress_root_loop (fuel t) t.

(** The branch of [remove_child] for a node left with one child: the child
    takes the node's place. *)
Definition splice_only_child (t : VmaMapleTree) (par only_child : ptr) : outcome VmaMapleTree :=
  let! grand := fld (parent t) par in
  let! idx := find_child_index t grand par in
  match idx with
  | None => Ret t
  | Some parent_slot =>
      let! gcs := load_internal t grand in
      let! t := store_internal t grand (<[parent_slot := only_child]> gcs) in
      let t := with_parent t (<[only_child := grand]>) in
      let! t := refresh_keys t grand in
      let! t := delete_node t par in
      if grand =? root_ t then compress_root t else refresh_ancestors t grand
  end.

Fixpoint remove_child (fuel : nat) (t : VmaMapleTree) (child : ptr) : outcome VmaMapleTree :=
  match fuel with
  | O => Stuck
  | S f =>
      if child =? nullptr then Ret t else
      let! par := fld (parent t) child in
      if par =? nullptr then
        if child =? root_ t
        then Ret (with_tail (with_head (with_root t nullptr) nullptr) nullptr)
        else Ret t
      else
        let! idx := find_child_index t par child in
        match idx with
        | None => Ret t
        | Some slot =>
            let! cs := load_internal t par in
            let cs := remove_at slot cs in
            let! t := store_internal t par cs in
            let! t := refresh_keys t par in
            if (length cs =? 0)%nat then
              let! t := remove_child f t par in delete_node t par
            else if par =? root_ t then compress_root t
            else if (length cs =? 1)%nat then splice_only_child t par (cs !!! O)
            else refresh_ancestors t par
        end
  end.

(** [erase(entry, key_hint)] and [erase(entry)]. *)
Definition erase_hint (t : VmaMapleTree) (entry : ptr) (key_hint : Z) : outcome VmaMapleTree :=
  if (entry =? nullptr) || (root_ t =? nullptr) then Ret t else
  let! leaf := locate_leaf_for_entry t entry key_hint in
  if leaf =? nullptr then Ret t else
  let! t := compact_leaf t leaf in
  let! es := load_leaf t leaf in
  match index_of entry es with
  | None => Ret t
  | Some slot =>
      let es := remove_at slot es in
      let! t := store_leaf t leaf es in
      let t := with_size t (size_ t - 1) in
      if (length es =? 0)%nat then
        let! t := unlink_leaf t leaf in
        let! t := remove_child (fuel t) t leaf in
        delete_node t leaf
      else refresh_ancestors t leaf
  end.

Definition erase (t : VmaMapleTree) (entry : ptr) : outcome VmaMapleTree :=
  erase_hint t entry (if entry =? nullptr then 0 else addr (m !!! entry)).

(** ** Queries *)

(** The first entry, from the last one back, that covers [a]. *)
Fixpoint find_covering (es : list ptr) (a : Z) : ptr :=
  match es with
  | [] => nullptr
  | e :: r =>
      if negb (e =? nullptr) && covers (m !!! e) a then e else find_covering r a
  end.

Definition find (t : VmaMapleTree) (a : Z) : outcome ptr :=
  let! leaf := find_leaf t a in
  if leaf =? nullptr then Ret nullptr else
  let! es := load_leaf t leaf in
  let slot := Z.of_nat (upper_bound_slot es a) - 1 in
  let e := find_covering (rev (take (upper_bound_slot es a) es)) a in
  if negb (e =? nullptr) then Ret e else
  let! pv := fld (prev_ t) leaf in
  if (slot <? 0) && negb (pv =? nullptr) then
    let! entry := last_entry t pv in
    if negb (entry =? nullptr) && covers (m !!! entry) a then Ret entry else Ret nullptr
  else Ret nullptr.

Definition lower_bound (t : VmaMapleTree) (start : Z) : outcome ptr :=
  let! leaf := find_leaf t start in
  if leaf =? nullptr then Ret nullptr else
  let! es := load_leaf t leaf in
  let e := first_nonnull (drop (find_entry_slot es start) es) in
  if negb (e =? nullptr) then Ret e else next_leaf_first t leaf.

Definition prev_by_start (t : VmaMapleTree) (start : Z) : outcome ptr :=
  let! leaf := find_leaf t start in
  if leaf =? nullptr then Ret nullptr else
  let! es := load_leaf t leaf in
  let e := last_nonnull (take (find_entry_slot es start) es) in
  if negb (e =? nullptr) then Ret e else
  let! pv := fld (prev_ t) leaf in last_entry t pv.

Definition next (t : VmaMapleTree) (entry : ptr) : outcome ptr :=
  if entry =? nullptr then Ret nullptr else
  let! leaf := locate_leaf_for_entry t entry (addr (m !!! entry)) in
  if leaf =? nullptr then Ret nullptr else
  let! es := load_leaf t leaf in
  match index_of entry es with
  | None => Ret nullptr
  | Some i =>
      let e := first_nonnull (drop (S i) es) in
      if negb (e =? nullptr) then Ret e else next_leaf_first t leaf
  end.

Definition prev (t : VmaMapleTree) (entry : ptr) : outcome ptr :=
  if entry =? nullptr then Ret nullptr else
  let! leaf := locate_leaf_for_entry t entry (addr (m !!! entry)) in
  if leaf =? nullptr then Ret nullptr else
  let! es := load_leaf t leaf in
  match index_of entry es with
  | None => Ret nullptr
  | Some i =>
      let e := last_nonnull (take i es) in
      if negb (e =? nullptr) then Ret e else
      let! pv := fld (prev_ t) leaf in last_entry t pv
  end.

Definition has_conflict (t : VmaMapleTree) (start end_ : Z) (ignore : ptr) : outcome bool :=
  if end_ <=? start then Ret false else
  let! entry := find t start in
  if negb (entry =? nullptr) && negb (entry =? ignore) then Ret true else
  let! entry := lower_bound t start in
  Ret (negb (entry =? nullptr) && negb (entry =? ignore) && (addr (m !!! entry) <? end_)).

(** The scan of [find_gap] from the candidate [cursor] on. *)
Fixpoint find_gap_loop (fuel : nat) (t : VmaMapleTree) (covering : ptr) (cursor : Z)
    (max_addr size alignment : Z) : outcome Z :=
  match fuel with
  | O => Stuck
  | S f =>
      let done_ := Ret (if size <=? u64 (max_addr - cursor) then cursor else 0) in
      if covering =? nullptr then done_ else
      let c := m !!! covering in
      if max_addr <? addr c then done_ else
      if (cursor <? addr c) && (cursor <=? addr c) && (size <=? u64 (addr c - cursor))
      then Ret cursor else
      if cursor <? end_addr c then
        let cursor := align_up (end_addr c) alignment in
        if (max_addr <? cursor) || (u64 (max_addr - cursor) <? size) then Ret 0 else
        let! nx := next t covering in
        find_gap_loop f t nx cursor max_addr size alignment
      else
        let! nx := next t covering in
        find_gap_loop f t nx cursor max_addr size alignment
  end.

Definition find_gap (t : VmaMapleTree) (start_hint min_addr max_addr size alignment : Z)
    : outcome Z :=
  if (size =? 0) || (max_addr <=? min_addr) then Ret 0 else
  let cursor := if min_addr <? start_hint then start_hint else min_addr in
  let cursor := align_up cursor alignment in
  if cursor <? min_addr then Ret 0 else
  if (max_addr <? cursor) || (u64 (max_addr - cursor) <? size) then Ret 0 else
  let! covering := find t cursor in
  if negb (covering =? nullptr) then
    let cursor := align_up (end_addr (m !!! covering)) alignment in
    if (max_addr <? cursor) || (u64 (max_addr - cursor) <? size) then Ret 0 else
    let! covering := next t covering in
    find_gap_loop (S (Z.to_nat (size_ t))) t covering cursor max_addr size alignment
  else
    let! prev_entry := prev_by_start t cursor in
    if negb (prev_entry =? nullptr) && (cursor <? end_addr (m !!! prev_entry)) then
      let cursor := align_up (end_addr (m !!! prev_entry)) alignment in
      if (max_addr <? cursor) || (u64 (max_addr - cursor) <? size) then Ret 0 else
      let! covering := lower_bound t cursor in
      find_gap_loop (S (Z.to_nat (size_ t))) t covering cursor max_addr size alignment
    else
      let! covering := lower_bound t cursor in
      find_gap_loop (S (Z.to_nat (size_ t))) t covering cursor max_addr size alignment.

(** ** Traversals

    The callback [fn] works on a state of its own and tells whether to go on. *)
Section traversal.
Context {St : Type} (fn : ptr → St → St * bool).

Fixpoint visit_entries (es : list ptr) (s : St) : St * bool :=
  match es with
  | [] => (s, true)
  | e :: r =>
      if e =? nullptr then visit_entries r s else
      let (s, go) := fn e s in if go then visit_entries r s else (s, false)
  end.

Fixpoint for_each_loop (fuel : nat) (t : VmaMapleTree) (leaf : ptr) (s : St)
    : outcome (St * bool) :=
  match fuel with
  | O => Stuck
  | S f =>
      if leaf =? nullptr then Ret (s, true) else
      let! es := load_leaf t leaf in
      let (s, go) := visit_entries es s in
      if go then let! nx := fld (next_ t) leaf in for_each_loop f t nx s
      else Ret (s, false)
  end.

Definition for_each (t : VmaMapleTree) (s : St) : outcome (St * bool) :=
  for_each_loop (fuel t) t (head_ t) s.

Fixpoint for_each_in_range_loop (fuel : nat) (t : VmaMapleTree) (entry : ptr)
    (start end_ : Z) (s : St) : outcome (St * bool) :=
  match fuel with
  | O => Stuck
  | S f =>
      if negb (entry =? nullptr) && (addr (m !!! entry) <? end_) then
        let (s, go) := if overlaps (m !!! entry) start end_ then fn entry s else (s, true) in
        if go then
          let! nx := next t entry in for_each_in_range_loop f t nx start end_ s
        else Ret (s, false)
      else Ret (s, true)
  end.

Definition for_each_in_range (t : VmaMapleTree) (start end_ : Z) (s : St)
    : outcome (St * bool) :=
  if end_ <=? start then Ret (s, true) else
  let! entry := find t start in
  let! entry := (if entry =? nullptr then lower_bound t start else Ret entry) in
  for_each_in_range_loop (S (Z.to_nat (size_ t))) t entry start end_ s.
End traversal.
End with_store.

(** ** Destruction *)

Fixpoint destroy_subtree (fuel : nat) (t : VmaMapleTree) (node : ptr) : outcome VmaMapleTree :=
  match fuel with
  | O => Stuck
  | S f =>
      if node =? nullptr then Ret t else
      let! n := load_node t node in
      match n with
      | InternalNode cs =>
          let! t := foldl (λ acc c, let! t := acc in destroy_subtree f t c) (Ret t) cs in
          delete_node t node
      | LeafNode _ => delete_node t node
      end
  end.

Definition clear (t : VmaMapleTree) : outcome VmaMapleTree :=
  let! t := destroy_subtree (fuel t) t (root_ t) in
  Ret (with_size (with_tail (with_head (with_root t nullptr) nullptr) nullptr) 0).

Definition empty (t : VmaMapleTree) : bool := root_ t =? nullptr.

End VmaMapleTree.
