(* ===== verification/MapleSpec.v ===== *)
(** * What the node memory of the VMA index represents

    A logical B+ tree [ltree], the cells of node memory that store it, and its
    decomposition into a subtree and the path above it.  The operations of
    [MapleTree] that walk parent pointers are specified by induction on that
    path. *)
From S2P Require Import Prelude VmArea AreaIndex MapleTree.
Import VmArea AreaIndex VmaMapleTree.

Module MapleSpec.

(** ** Logical trees *)

Inductive ltree :=
  | LLeaf (id : ptr) (es : list ptr)
  | LNode (id : ptr) (cs : list ltree).

Definition ltree_rect' (P : ltree → Prop) (Hleaf : ∀ id es, P (LLeaf id es))
    (Hnode : ∀ id cs, Forall P cs → P (LNode id cs)) : ∀ t, P t :=
  fix go t :=
    match t with
    | LLeaf id es => Hleaf id es
    | LNode id cs =>
        Hnode id cs ((fix gos cs : Forall P cs :=
          match cs with
          | [] => List.Forall_nil _
          | c :: r => List.Forall_cons _ _ _ (go c) (gos r)
          end) cs)
    end.

Definition tid (t : ltree) : ptr :=
  match t with LLeaf id _ => id | LNode id _ => id end.

(** The cells of each field map. *)
Fixpoint ncells (t : ltree) : list (ptr * Node) :=
  match t with
  | LLeaf id es => [(id, LeafNode es)]
  | LNode id cs => (id, InternalNode (tid <$> cs)) :: flat_map ncells cs
  end.

Fixpoint pcells (par : ptr) (t : ltree) : list (ptr * ptr) :=
  match t with
  | LLeaf id _ => [(id, par)]
  | LNode id cs => (id, par) :: flat_map (pcells id) cs
  end.

(** The least start address below a node, from the first entry. *)
Fixpoint lkey (m : store) (t : ltree) : Z :=
  match t with
  | LLeaf _ es => addr (m !!! hd nullptr es)
  | LNode _ cs => match cs with [] => 0 | c :: _ => lkey m c end
  end.

Fixpoint kcells (m : store) (t : ltree) : list (ptr * list Z) :=
  match t with
  | LLeaf _ _ => []
  | LNode id cs => (id, lkey m <$> cs) :: flat_map (kcells m) cs
  end.

(** The leaves in order, and the entries in order. *)
Fixpoint leaves (t : ltree) : list (ptr * list ptr) :=
  match t with
  | LLeaf id es => [(id, es)]
  | LNode _ cs => flat_map leaves cs
  end.

Definition entries_of (ls : list (ptr * list ptr)) : list ptr := flat_map snd ls.
Definition elems (t : ltree) : list ptr := entries_of (leaves t).

(** Every node has something below it and no slot is null. *)
Inductive ok : ltree → Prop :=
  | ok_leaf id es : es ≠ [] → Forall (.≠ nullptr) es → ok (LLeaf id es)
  | ok_node id cs : cs ≠ [] → Forall ok cs → ok (LNode id cs).

(** The occupancy the operations maintain: one to twelve entries in a leaf,
    two to twelve children in an internal node. *)
Inductive wf : ltree → Prop :=
  | wf_leaf id es :
      (1 ≤ length es ≤ 12)%nat → Forall (.≠ nullptr) es → wf (LLeaf id es)
  | wf_node id cs : (2 ≤ length cs ≤ 12)%nat → Forall wf cs → wf (LNode id cs).

(** Memory holds the cells of [l], among others. *)
Definition sub {A} (f : gmap ptr A) (l : list (ptr * A)) : Prop :=
  ∀ i x, (i, x) ∈ l → f !! i = Some x.

Lemma repl_sub {A} (f : gmap ptr A) l : repl f l → sub f l.
Proof. intros H i x. by apply repl_lookup. Qed.

Lemma fld_sub {A} (f : gmap ptr A) l i x : sub f l → (i, x) ∈ l → fld f i = Ret x.
Proof. intros H Hi. unfold fld. by rewrite (H i x Hi). Qed.

Lemma load_node_sub T l i n : sub (nodes T) l → (i, n) ∈ l → load_node T i = Ret n.
Proof. intros H Hi. unfold load_node. by rewrite (H i n Hi). Qed.

Lemma load_leaf_sub T l i es :
  sub (nodes T) l → (i, LeafNode es) ∈ l → load_leaf T i = Ret es.
Proof. intros H Hi. unfold load_leaf. by rewrite (H i _ Hi). Qed.

Lemma load_internal_sub T l i cs :
  sub (nodes T) l → (i, InternalNode cs) ∈ l → load_internal T i = Ret cs.
Proof. intros H Hi. unfold load_internal. by rewrite (H i _ Hi). Qed.

Lemma sub_app {A} (f : gmap ptr A) l l' : sub f (l ++ l') ↔ sub f l ∧ sub f l'.
Proof. unfold sub. setoid_rewrite elem_of_app. naive_solver. Qed.

Lemma sub_cons {A} (f : gmap ptr A) i x l : sub f ((i, x) :: l) ↔ f !! i = Some x ∧ sub f l.
Proof. unfold sub. setoid_rewrite elem_of_cons. naive_solver. Qed.

Lemma sub_flat_map {A B} (f : gmap ptr A) (g : B → list (ptr * A)) bs b :
  sub f (flat_map g bs) → b ∈ bs → sub f (g b).
Proof.
  intros Hs Hb i x Hx. apply Hs, elem_of_flat_map. by exists b.
Qed.

(** ** Paths *)

Record frame := mkFrame { fid : ptr; before : list ltree; after : list ltree }.
Abbreviation ctx := (list frame).

(** [plug t c]: the tree whose subtree at the end of the path [c], innermost
    frame first, is [t]. *)
Fixpoint plug (t : ltree) (c : ctx) : ltree :=
  match c with
  | [] => t
  | f :: c => plug (LNode (fid f) (before f ++ t :: after f)) c
  end.

Definition ctx_par (c : ctx) : ptr := match c with [] => nullptr | f :: _ => fid f end.

Fixpoint ctx_ncells (hole : ptr) (c : ctx) : list (ptr * Node) :=
  match c with
  | [] => []
  | f :: c =>
      (fid f, InternalNode ((tid <$> before f) ++ hole :: (tid <$> after f))) ::
      flat_map ncells (before f) ++ flat_map ncells (after f) ++ ctx_ncells (fid f) c
  end.

Fixpoint ctx_pcells (c : ctx) : list (ptr * ptr) :=
  match c with
  | [] => []
  | f :: c =>
      (fid f, ctx_par c) ::
      flat_map (pcells (fid f)) (before f) ++ flat_map (pcells (fid f)) (after f) ++
      ctx_pcells c
  end.

(** The keys on the path, for a subtree whose key is [k], and beside it. *)
Fixpoint ctx_kpath (m : store) (k : Z) (c : ctx) : list (ptr * list Z) :=
  match c with
  | [] => []
  | f :: c =>
      let ks := (lkey m <$> before f) ++ k :: (lkey m <$> after f) in
      (fid f, ks) :: ctx_kpath m (hd 0 ks) c
  end.

Fixpoint ctx_ksib (m : store) (c : ctx) : list (ptr * list Z) :=
  match c with
  | [] => []
  | f :: c => flat_map (kcells m) (before f) ++ flat_map (kcells m) (after f) ++ ctx_ksib m c
  end.

Fixpoint ctx_lbefore (c : ctx) : list (ptr * list ptr) :=
  match c with
  | [] => []
  | f :: c => ctx_lbefore c ++ flat_map leaves (before f)
  end.

Fixpoint ctx_lafter (c : ctx) : list (ptr * list ptr) :=
  match c with
  | [] => []
  | f :: c => flat_map leaves (after f) ++ ctx_lafter c
  end.

Lemma lkey_node m id cs : lkey m (LNode id cs) = hd 0 (lkey m <$> cs).
Proof. by destruct cs. Qed.

Lemma ncells_plug t c : ncells (plug t c) ≡ₚ ncells t ++ ctx_ncells (tid t) c.
Proof.
  revert t. induction c as [|f c IH]; intros t; cbn; [by rewrite app_nil_r|].
  rewrite IH. cbn. rewrite flat_map_app, fmap_app. cbn. solve_Permutation.
Qed.

Lemma pcells_plug t c : pcells nullptr (plug t c) ≡ₚ pcells (ctx_par c) t ++ ctx_pcells c.
Proof.
  revert t. induction c as [|f c IH]; intros t; cbn; [by rewrite app_nil_r|].
  rewrite IH. cbn. rewrite flat_map_app. cbn. solve_Permutation.
Qed.

Lemma kcells_plug m t c :
  kcells m (plug t c) ≡ₚ kcells m t ++ ctx_kpath m (lkey m t) c ++ ctx_ksib m c.
Proof.
  revert t. induction c as [|f c IH]; intros t; cbn; [by rewrite app_nil_r|].
  rewrite IH, lkey_node. cbn. rewrite flat_map_app, fmap_app. cbn. solve_Permutation.
Qed.

Lemma leaves_plug t c : leaves (plug t c) = ctx_lbefore c ++ leaves t ++ ctx_lafter c.
Proof.
  revert t. induction c as [|f c IH]; intros t; cbn; [by rewrite app_nil_r|].
  rewrite IH. cbn. rewrite flat_map_app. cbn. by rewrite <- !app_assoc.
Qed.

(** ** Identities of nodes *)

Lemma pcells_ids par t : (pcells par t).*1 = (ncells t).*1.
Proof.
  revert par. induction t as [|id cs IH] using ltree_rect'; intros par; cbn; [done|].
  f_equal. induction IH as [|c cs Hc _ IHcs]; cbn; [done|].
  by rewrite !fmap_app, Hc, IHcs.
Qed.

Lemma kcells_ids m t i : i ∈ (kcells m t).*1 → i ∈ (ncells t).*1.
Proof.
  revert i. induction t as [|id cs IH] using ltree_rect'; intros i; cbn; [by intros ?%elem_of_nil|].
  rewrite !elem_of_cons. intros [->|Hi]; [by left|]. right. revert Hi.
  induction IH as [|c cs Hc _ IHcs]; cbn; [done|].
  rewrite !fmap_app, !elem_of_app. intros [?|?]; auto.
Qed.

Lemma ncells_head t : ∃ n r, ncells t = (tid t, n) :: r.
Proof. destruct t; cbn; eauto. Qed.

Lemma tid_in t : tid t ∈ (ncells t).*1.
Proof. destruct (ncells_head t) as (n & r & ->). cbn. by left. Qed.

Lemma tids_in cs : tid <$> cs ⊆ (flat_map ncells cs).*1.
Proof.
  induction cs as [|c cs IH]; cbn; [done|]. rewrite fmap_app. pose proof (tid_in c). set_solver.
Qed.

Lemma tids_nonnull cs :
  Forall (.≠ nullptr) (flat_map ncells cs).*1 → Forall (.≠ nullptr) (tid <$> cs).
Proof. rewrite !Forall_forall. intros H x Hx. by apply H, tids_in. Qed.

Lemma pcells_list_ids par cs : (flat_map (pcells par) cs).*1 = (flat_map ncells cs).*1.
Proof. induction cs as [|c cs IH]; cbn; [done|]. by rewrite !fmap_app, pcells_ids, IH. Qed.

Lemma kcells_list_ids m cs i : i ∈ (flat_map (kcells m) cs).*1 → i ∈ (flat_map ncells cs).*1.
Proof.
  induction cs as [|c cs IH]; cbn; [done|]. rewrite !fmap_app, !elem_of_app.
  intros [?%kcells_ids|?]; auto.
Qed.

Lemma ctx_pcells_ids c hole : (ctx_pcells c).*1 = (ctx_ncells hole c).*1.
Proof.
  revert hole. induction c as [|f c IH]; intros hole; cbn; [done|]. f_equal.
  by rewrite !fmap_app, (IH (fid f)), !pcells_list_ids.
Qed.

Lemma fids_in c hole : fid <$> c ⊆ (ctx_ncells hole c).*1.
Proof.
  revert hole. induction c as [|f c IH]; intros hole; cbn; [done|].
  rewrite !fmap_app. specialize (IH (fid f)). set_solver.
Qed.

(** ** Stored trees *)

(** Node memory is exactly [l], with no node at the null address and none at
    or above the address the next allocation returns. *)
Definition stores (T : VmaMapleTree) (l : list (ptr * Node)) : Prop :=
  repl (nodes T) l ∧ Forall (λ i, nullptr < i < brk T) l.*1 ∧ nullptr < brk T.

#[export] Instance stores_proper T : Proper ((≡ₚ) ==> iff) (stores T).
Proof. intros l l' Hp. unfold stores. by rewrite Hp. Qed.

Lemma stores_move T T' l l' :
  stores T l → nodes T' = nodes T → brk T' = brk T → l ≡ₚ l' → stores T' l'.
Proof. intros H En Eb Hp. unfold stores. rewrite En, Eb. revert H. by apply stores_proper. Qed.

Lemma stores_nonnull T l : stores T l → Forall (.≠ nullptr) l.*1.
Proof. intros (_ & H & _). eapply Forall_impl; [exact H|]. cbn. lia. Qed.

Lemma stores_tid T t l : stores T (ncells t ++ l) → tid t ≠ nullptr.
Proof.
  intros H%stores_nonnull. rewrite fmap_app, Forall_app, Forall_forall in H.
  apply (proj1 H), tid_in.
Qed.

Lemma stores_brk T l : stores T l → brk T ∉ l.*1.
Proof. intros (_ & H & _) Hin. rewrite Forall_forall in H. specialize (H _ Hin). lia. Qed.

Lemma wf_ok t : wf t → ok t.
Proof.
  induction t as [|id cs IH] using ltree_rect'; intros H; inversion_clear H; constructor.
  - intros ->. cbn in *. lia.
  - done.
  - intros ->. cbn in *. lia.
  - eapply Forall_impl; [apply Forall_and; split; [exact IH|eassumption]|]. naive_solver.
Qed.

Lemma first_nonnull_hd l : Forall (.≠ nullptr) l → first_nonnull l = hd nullptr l.
Proof. destruct 1; cbn; [done|]. by case_test. Qed.

Lemma first_nonnull_cons e l : e ≠ nullptr → first_nonnull (e :: l) = e.
Proof. intros. cbn. by case_test. Qed.

Lemma first_key_sub m T t n :
  sub (nodes T) (ncells t) → Forall (.≠ nullptr) (ncells t).*1 → ok t →
  (length (ncells t) ≤ n)%nat → first_key m n T (tid t) = Ret (lkey m t).
Proof.
  revert n. induction t as [id es|id cs IH] using ltree_rect'; intros n Hs Hnn Hok Hn;
    inversion_clear Hok; (destruct n as [|n]; [cbn in Hn; lia|]).
  all: cbn [ncells] in *; apply sub_cons in Hs as [Hid Hs].
  all: cbn in Hnn; apply Forall_cons_iff in Hnn as [Hn0 Hnn].
  all: cbn [first_key tid]; destruct (Z.eqb_spec id nullptr); [done|].
  all: unfold load_node; rewrite Hid; cbn [obind].
  - rewrite first_nonnull_hd by done. destruct es as [|e es]; [done|]. cbn in *.
    case_test; [|done]. apply Forall_cons_iff in H0. tauto.
  - destruct cs as [|c cs]; [done|]. cbn in *. rewrite fmap_app in Hnn.
    apply sub_app in Hs as [Hs _]. apply Forall_app in Hnn as [Hnn _].
    inversion_clear IH. inversion_clear H0. rewrite length_app in Hn.
    assert (tid c ≠ nullptr) by (rewrite Forall_forall in Hnn; apply Hnn, tid_in).
    rewrite !(proj2 (Z.eqb_neq (tid c) nullptr)) by done. apply H1; [done..|lia].
Qed.

Lemma stores_size T l : stores T l → size (nodes T) = length l.
Proof. intros [H _]. by apply repl_size. Qed.

Lemma first_key_stores m T t r :
  stores T (ncells t ++ r) → ok t → first_key m (fuel T) T (tid t) = Ret (lkey m t).
Proof.
  intros Hs Hok. apply first_key_sub; [| |done|].
  - apply proj1, repl_sub, sub_app in Hs. tauto.
  - apply stores_nonnull in Hs. rewrite fmap_app in Hs. apply Forall_app in Hs. tauto.
  - unfold fuel. apply stores_size in Hs. rewrite length_app in Hs. lia.
Qed.

Lemma first_keys_stores m T cs r :
  stores T (flat_map ncells cs ++ r) → Forall ok cs →
  first_keys m T (tid <$> cs) = Ret (lkey m <$> cs).
Proof.
  revert r. induction cs as [|c cs IH]; intros r Hs Hok; cbn; [done|].
  inversion_clear Hok. cbn in Hs. rewrite (first_key_stores m T c (flat_map ncells cs ++ r));
    [cbn|by rewrite app_assoc|done].
  rewrite (IH (ncells c ++ r)); [done| |done].
  revert Hs. apply stores_proper. solve_Permutation.
Qed.

Lemma refresh_keys_stores m T id cs r :
  stores T ((id, InternalNode (tid <$> cs)) :: flat_map ncells cs ++ r) → Forall ok cs →
  refresh_keys m T id = Ret (with_keys T (<[id := lkey m <$> cs]>)).
Proof.
  intros Hs Hok. unfold refresh_keys, load_internal. pose proof Hs as [Hr _]. pose proof (stores_nonnull _ _ Hs) as Hnn.
  cbn in Hnn. apply Forall_cons_iff in Hnn as [Hid _].
  destruct (Z.eqb_spec id nullptr); [done|].
  rewrite (repl_lookup _ _ _ _ Hr) by (by left). cbn.
  rewrite (first_keys_stores m T cs ((id, InternalNode (tid <$> cs)) :: r)); [done| |done].
  revert Hs. apply stores_proper. solve_Permutation.
Qed.

(** ** Positions in an array *)

Lemma index_of_fresh p l r : p ∉ l → index_of p (l ++ p :: r) = Some (length l).
Proof.
  induction l as [|e l IH]; cbn; intros H.
  - by rewrite Z.eqb_refl.
  - apply not_elem_of_cons in H as [??]. rewrite (proj2 (Z.eqb_neq e p)) by done.
    by rewrite IH.
Qed.

Lemma index_of_none p l : p ∉ l → index_of p l = None.
Proof.
  induction l as [|e l IH]; cbn; intros H; [done|]. apply not_elem_of_cons in H as [??].
  rewrite (proj2 (Z.eqb_neq e p)) by done. by rewrite IH.
Qed.

Lemma drop_middle {A} (l : list A) x r : drop (S (length l)) (l ++ x :: r) = r.
Proof. by induction l. Qed.

Lemma remove_at_middle l (p : ptr) r : remove_at (length l) (l ++ p :: r) = l ++ r.
Proof. unfold remove_at. by rewrite take_app_length, drop_middle. Qed.

(** ** Refreshing the keys on a path *)

Definition ctx_ok (c : ctx) : Prop :=
  Forall (λ f, Forall ok (before f) ∧ Forall ok (after f)) c.

Lemma refresh_ancestors_loop_spec m c T t L kpre stale n :
  stores T (ncells t ++ ctx_ncells (tid t) c ++ L) →
  sub (parent T) (ctx_pcells c) →
  ok t → ctx_ok c →
  repl (keys T) (kpre ++ stale) → stale.*1 = fid <$> c → (length c < n)%nat →
  ∃ ks, refresh_ancestors_loop m n T (ctx_par c) = Ret (with_keys T (λ _, ks)) ∧
    repl ks (kpre ++ ctx_kpath m (lkey m t) c).
Proof.
  revert T t kpre stale n. induction c as [|f c IH];
    intros T t kpre stale n Hs Hp Hok Hcok Hk Hst Hn; (destruct n as [|n]; [lia|]).
  - destruct stale; [|done]. exists (keys T). split; [by destruct T|done].
  - destruct stale as [|[i ks] stale]; [done|]. cbn in Hst. injection Hst as -> Hst.
    apply Forall_cons_iff in Hcok as [[Hb Ha] Hcok]. cbn in Hp. apply sub_cons in Hp as [Hpar Hp].
    set (t' := LNode (fid f) (before f ++ t :: after f)).
    assert (Forall ok (before f ++ t :: after f)) as Hokc
      by (apply Forall_app; split; [done|by constructor]).
    assert (stores T (ncells t' ++ ctx_ncells (tid t') c ++ L)) as Hs'.
    { revert Hs. apply stores_proper. cbn. rewrite flat_map_app, fmap_app. cbn. solve_Permutation. }
    assert (fid f ≠ nullptr) as Hf0.
    { apply stores_nonnull in Hs' as Hnn. cbn in Hnn. by apply Forall_cons_iff in Hnn as [? _]. }
    cbn [refresh_ancestors_loop ctx_par]. destruct (Z.eqb_spec (fid f) nullptr); [done|].
    rewrite (refresh_keys_stores m T (fid f) (before f ++ t :: after f) (ctx_ncells (fid f) c ++ L));
      [cbn [obind]|exact Hs'|done].
    cbn [parent with_keys]. unfold fld at 1. rewrite Hpar. cbn [obind].
    edestruct (IH (with_keys T (<[fid f:=lkey m <$> before f ++ t :: after f]>)) t'
      ((fid f, lkey m <$> before f ++ t :: after f) :: kpre) stale n) as (ks' & Hrun & Hks).
    + exact Hs'.
    + rewrite !sub_app in Hp. tauto.
    + constructor; [by destruct (before f)|done].
    + done.
    + cbn. apply (repl_update _ _ _ ks). revert Hk. apply repl_proper. solve_Permutation.
    + done.
    + cbn in Hn. lia.
    + exists ks'. split; [exact Hrun|]. revert Hks. apply repl_proper.
      unfold t'. rewrite (lkey_node m). cbn. rewrite fmap_app. cbn. solve_Permutation.
Qed.

Lemma ctx_length hole c : (length c ≤ length (ctx_ncells hole c))%nat.
Proof.
  revert hole. induction c as [|f c IH]; intros hole; cbn; [lia|].
  rewrite !length_app. specialize (IH (fid f)). lia.
Qed.

Lemma refresh_ancestors_frame m c T t L P kpre stale :
  stores T (ncells t ++ ctx_ncells (tid t) c ++ L) →
  repl (parent T) (pcells (ctx_par c) t ++ ctx_pcells c ++ P) →
  ok t → ctx_ok c →
  repl (keys T) (kpre ++ stale) → stale.*1 = fid <$> c →
  ∃ ks, refresh_ancestors m T (tid t) = Ret (with_keys T (λ _, ks)) ∧
    repl ks (kpre ++ ctx_kpath m (lkey m t) c).
Proof.
  intros Hs Hp Hok Hcok Hk Hst. unfold refresh_ancestors.
  rewrite (proj2 (Z.eqb_neq (tid t) nullptr)) by (by eapply stores_tid).
  rewrite (fld_sub (parent T) _ (tid t) (ctx_par c) (repl_sub _ _ Hp)).
  2: { apply elem_of_app. left. destruct t; cbn; by left. }
  eapply refresh_ancestors_loop_spec; try done.
  - apply repl_sub in Hp. rewrite !sub_app in Hp. tauto.
  - unfold fuel. rewrite (stores_size T _ Hs), !length_app.
    pose proof (ctx_length (tid t) c). lia.
Qed.

Lemma refresh_ancestors_spec m c T t kpre stale :
  stores T (ncells t ++ ctx_ncells (tid t) c) →
  repl (parent T) (pcells (ctx_par c) t ++ ctx_pcells c) →
  ok t → ctx_ok c →
  repl (keys T) (kpre ++ stale) → stale.*1 = fid <$> c →
  ∃ ks, refresh_ancestors m T (tid t) = Ret (with_keys T (λ _, ks)) ∧
    repl ks (kpre ++ ctx_kpath m (lkey m t) c).
Proof.
  intros Hs Hp. apply (refresh_ancestors_frame m c T t [] []); by rewrite app_nil_r.
Qed.

(** ** Descent *)

(** [child_slot] picks the last child whose key is at most [key], or the
    first child. *)
Lemma child_slot_loop_spec cs ks key i best :
  Forall (.≠ nullptr) cs → length ks = length cs → 0 ≤ i →
  ∃ j, (j ≤ length cs)%nat ∧
    child_slot_loop cs ks key i best = (if (j =? 0)%nat then best else i + Z.of_nat j - 1) ∧
    (∀ n k, ks !! n = Some k → (n < j)%nat → k ≤ key) ∧
    (∀ k, ks !! j = Some k → key < k).
Proof.
  revert ks i best. induction cs as [|c cs IH]; intros [|k ks] i best Hnn Hlen Hi; try done; cbn.
  { exists O. naive_solver lia. }
  apply Forall_cons_iff in Hnn as [Hc Hnn]. rewrite (proj2 (Z.eqb_neq c nullptr)) by done.
  case_test.
  - destruct (IH ks (i + 1) i Hnn ltac:(cbn in Hlen; lia) ltac:(lia)) as (j & Hj & -> & Hle & Hgt).
    exists (S j). split_and!; [lia| | |done].
    + cbn [Nat.eqb]. destruct (Nat.eqb_spec j 0); lia.
    + intros [|n] k' Hn ?; cbn in Hn; [by injection Hn as <-|]. apply (Hle n); [done|lia].
  - exists O. split_and!; [lia|done|lia|]. by intros ? [= <-].
Qed.

Lemma child_slot_spec cs ks key :
  cs ≠ [] → Forall (.≠ nullptr) cs → length ks = length cs →
  (∀ a b, ks !! 0%nat = Some a → ks !! 1%nat = Some b → a ≤ b) →
  ∃ j, (j < length cs)%nat ∧ child_slot cs ks key = Z.of_nat j ∧
    (j = O ∨ ∀ k, ks !! j = Some k → k ≤ key) ∧
    (∀ k, ks !! S j = Some k → key < k).
Proof.
  intros Hne Hnn Hlen Hmono. unfold child_slot.
  destruct (child_slot_loop_spec cs ks key 0 (-1) Hnn Hlen) as (j & Hj & -> & Hle & Hgt); [lia|].
  destruct (Nat.eqb_spec j 0) as [->|Hj0].
  - exists O. destruct cs as [|c cs]; [done|]. apply Forall_cons_iff in Hnn as [? _].
    cbn. rewrite (proj2 (Z.eqb_neq c nullptr)) by done. split_and!; [lia|done|by left|].
    intros k Hk. destruct ks as [|k0 ks]; [done|].
    specialize (Hmono k0 k eq_refl Hk). specialize (Hgt k0 eq_refl). lia.
  - exists (j - 1)%nat. destruct (Z.leb_spec 0 (0 + Z.of_nat j - 1)); [|lia].
    split_and!; [lia|lia| |].
    + right. intros k Hk. eapply Hle; [exact Hk|lia].
    + intros k. replace (S (j - 1)) with j by lia. apply Hgt.
Qed.

Definition fkey (m : store) (es : list ptr) : Z := addr (m !!! hd nullptr es).

Lemma entries_of_app l l' : entries_of (l ++ l') = entries_of l ++ entries_of l'.
Proof. apply flat_map_app. Qed.

Lemma elems_node id cs : elems (LNode id cs) = flat_map elems cs.
Proof.
  unfold elems. cbn [leaves]. induction cs as [|c cs IH]; cbn [flat_map]; [done|].
  by rewrite entries_of_app, IH.
Qed.

Lemma leaves_head m t :
  ok t → ∃ id es r, leaves t = (id, es) :: r ∧ es ≠ [] ∧ lkey m t = fkey m es.
Proof.
  induction t as [id es|id cs IH] using ltree_rect'; intros Hok; inversion_clear Hok; cbn.
  - by exists id, es, [].
  - destruct cs as [|c cs]; [done|]. apply Forall_cons_iff in IH as [IH _], H0 as [Hc _].
    destruct (IH Hc) as (i & es & r & Hlv & Hne & ->). cbn. rewrite Hlv. by exists i, es, (r ++ flat_map leaves cs).
Qed.

Lemma elems_head m t : ok t → ∃ e r, elems t = e :: r ∧ lkey m t = addr (m !!! e).
Proof.
  intros Hok. destruct (leaves_head m t Hok) as (id & es & r & Hl & Hne & ->).
  unfold elems. rewrite Hl. destruct es as [|e es]; [done|]. by exists e, (es ++ entries_of r).
Qed.

(** The keys of the first two children of a node are in order. *)
Lemma first_keys_sorted m id cs a b :
  Forall ok cs → StronglySorted (by_addr m) (elems (LNode id cs)) →
  (lkey m <$> cs) !! 0%nat = Some a → (lkey m <$> cs) !! 1%nat = Some b → a ≤ b.
Proof.
  intros Hok Hsort. rewrite !list_lookup_fmap. destruct cs as [|c0 [|c1 cs]]; [done..|].
  cbn. intros [= <-] [= <-]. rewrite !Forall_cons_iff in Hok. destruct Hok as (Hok0 & Hok1 & _).
  destruct (elems_head m c0 Hok0) as (e0 & r0 & E0 & ->).
  destruct (elems_head m c1 Hok1) as (e1 & r1 & E1 & ->).
  rewrite elems_node in Hsort. cbn in Hsort. rewrite E0, E1 in Hsort. cbn in Hsort.
  apply StronglySorted_inv in Hsort as [_ Hsort]. rewrite Forall_forall in Hsort.
  apply Hsort. set_solver.
Qed.

Lemma find_leaf_loop_spec m T t n key :
  sub (nodes T) (ncells t) → sub (keys T) (kcells m t) →
  Forall (.≠ nullptr) (ncells t).*1 → ok t → StronglySorted (by_addr m) (elems t) →
  (length (ncells t) ≤ n)%nat →
  ∃ L1 id es L2, find_leaf_loop n T (tid t) key = Ret id ∧
    leaves t = L1 ++ (id, es) :: L2 ∧
    (L1 = [] ∨ fkey m es ≤ key) ∧ (∀ x, head L2 = Some x → key < fkey m x.2).
Proof.
  revert n. induction t as [id es|id cs IH] using ltree_rect'; intros n Hs Hk Hnn Hok Hsort Hn;
    inversion_clear Hok; (destruct n as [|n]; [cbn in Hn; lia|]).
  all: cbn [ncells kcells] in *; apply sub_cons in Hs as [Hid Hs].
  { exists [], id, es, []. cbn. unfold load_node. rewrite Hid. cbn. naive_solver. }
  cbn [find_leaf_loop tid]. unfold load_node. rewrite Hid. cbn [obind].
  apply sub_cons in Hk as [Hki Hk]. unfold fld. rewrite Hki. cbn [obind].
  cbn in Hnn. apply Forall_cons_iff in Hnn as [_ Hnn].
  pose proof (tids_nonnull cs Hnn) as Htid.
  destruct (child_slot_spec (tid <$> cs) (lkey m <$> cs) key) as (j & Hj & -> & Hle & Hgt).
  { by destruct cs. } { done. } { by rewrite !length_fmap. }
  { intros a b. by apply (first_keys_sorted m id). }
  rewrite length_fmap in Hj.
  destruct (lookup_lt_is_Some_2 cs j Hj) as [c Hc].
  assert (cs = take j cs ++ c :: drop (S j) cs) as Hsplit by (by rewrite take_drop_middle).
  rewrite (proj2 (Z.leb_le 0 (Z.of_nat j))) by lia.
  rewrite (proj2 (Z.ltb_lt _ _)) by (rewrite length_fmap; lia). cbn [andb].
  rewrite Nat2Z.id, (list_lookup_total_correct _ j (tid c)) by (by rewrite list_lookup_fmap, Hc).
  rewrite Forall_forall in IH, H0. pose proof (list_elem_of_lookup_2 _ _ _ Hc) as Hin.
  assert (tid c ≠ nullptr) by (rewrite Forall_fmap, Forall_forall in Htid; by apply Htid).
  rewrite (proj2 (Z.eqb_neq (tid c) nullptr)) by done.
  destruct (IH c Hin n) as (L1 & i & es & L2 & Hrun & Hlv & Hlo & Hhi).
  - by eapply sub_flat_map.
  - by eapply sub_flat_map.
  - rewrite Hsplit, flat_map_app, fmap_app in Hnn. cbn in Hnn.
    rewrite fmap_app, !Forall_app in Hnn. tauto.
  - by apply H0.
  - rewrite elems_node, Hsplit, flat_map_app in Hsort. cbn in Hsort.
    rewrite !StronglySorted_app in Hsort. tauto.
  - rewrite Hsplit, flat_map_app in Hn. cbn in Hn. rewrite !length_app in Hn. lia.
  - exists (flat_map leaves (take j cs) ++ L1), i, es, (L2 ++ flat_map leaves (drop (S j) cs)).
    split_and!; [done| | |].
    + cbn. rewrite Hsplit at 1. rewrite flat_map_app. cbn. by rewrite Hlv, <- !app_assoc.
    + destruct (leaves_head m c) as (i' & es' & r' & Hlh & _ & Hlk); [by apply H0|].
      destruct Hlo as [->|Hlo]; [|by right]. cbn in Hlv. rewrite Hlv in Hlh.
      injection Hlh as <- <- <-. destruct Hle as [->|Hle]; [by left|]. right.
      rewrite <- Hlk. apply Hle. rewrite list_lookup_fmap, Hc. done.
    + intros x Hx. destruct L2 as [|y L2]; [|by apply Hhi]. cbn in Hx.
      destruct (drop (S j) cs) as [|c' cs'] eqn:Hd; [done|].
      assert (cs !! S j = Some c') as Hc'.
      { rewrite <- (Nat.add_0_r (S j)), <- lookup_drop, Hd. done. }
      destruct (leaves_head m c') as (i' & es' & r' & Hlh & _ & Hlk).
      { apply H0. by eapply list_elem_of_lookup_2. }
      cbn in Hx. rewrite Hlh in Hx. injection Hx as <-. cbn. rewrite <- Hlk. apply Hgt.
      by rewrite list_lookup_fmap, Hc'.
Qed.

(** ** Memory updates on stored cells *)

Lemma stores_update T i x y l :
  stores T ((i, x) :: l) → stores (with_nodes T (<[i := y]>)) ((i, y) :: l).
Proof. intros (Hr & H & ?). split; [|done]. by eapply repl_update. Qed.

Lemma store_internal_ok T p cs :
  (length cs ≤ 13)%nat → store_internal T p cs = Ret (with_nodes T (<[p := InternalNode cs]>)).
Proof. intros. unfold store_internal, k_internal_capacity. case_test; [done|lia]. Qed.

Lemma store_leaf_ok T p es :
  (length es ≤ 13)%nat → store_leaf T p es = Ret (with_nodes T (<[p := LeafNode es]>)).
Proof. intros. unfold store_leaf, k_leaf_capacity. case_test; [done|lia]. Qed.

(** A fresh cell at the allocation pointer. *)
Lemma stores_new T T' l n :
  stores T l → nodes T' = <[brk T := n]> (nodes T) → brk T' = brk T + 1 →
  stores T' ((brk T, n) :: l).
Proof.
  intros Hs Hn Hb. pose proof (stores_brk T l Hs) as Hf. destruct Hs as (Hr & H & ?).
  unfold stores. rewrite Hn, Hb. split_and!.
  - by apply repl_fresh.
  - cbn. constructor; [lia|]. eapply Forall_impl; [exact H|]. cbn. lia.
  - lia.
Qed.

Lemma stores_delete T i x l :
  stores T ((i, x) :: l) →
  ∃ T', delete_node T i = Ret T' ∧ stores T' l ∧
    keys T' = delete i (keys T) ∧ parent T' = delete i (parent T) ∧
    prev_ T' = delete i (prev_ T) ∧ next_ T' = delete i (next_ T) ∧
    root_ T' = root_ T ∧ head_ T' = head_ T ∧ tail_ T' = tail_ T ∧ size_ T' = size_ T.
Proof.
  intros (Hr & H & Hb). unfold delete_node.
  rewrite (load_node_sub T _ i x (repl_sub _ _ Hr)) by (by left). cbn [obind].
  eexists. split; [done|]. cbn in H. apply Forall_cons_iff in H as [_ H]. split_and!; try done.
  cbn. by apply repl_delete in Hr.
Qed.

Lemma pcells_head t : ∃ r, ∀ p, pcells p t = (tid t, p) :: r.
Proof. destruct t as [id es|id cs]; cbn; eauto. Qed.

Lemma repl_pcells f p q t l :
  repl f (pcells p t ++ l) → repl (<[tid t := q]> f) (pcells q t ++ l).
Proof.
  destruct (pcells_head t) as [r Hr]. rewrite !Hr. cbn. apply repl_update.
Qed.

(** Moving the children [cs] under another parent. *)
Lemma repl_reparent f p q cs l :
  Forall (.≠ nullptr) (tid <$> cs) →
  repl f (flat_map (pcells p) cs ++ l) →
  repl (foldr (λ c par, if c =? nullptr then par else <[c := q]> par) f (tid <$> cs))
    (flat_map (pcells q) cs ++ l).
Proof.
  revert l. induction cs as [|c cs IH]; intros l Hnn H; cbn; [done|].
  cbn in Hnn. apply Forall_cons_iff in Hnn as [Hc Hnn].
  rewrite (proj2 (Z.eqb_neq (tid c) nullptr)) by done. cbn in H.
  rewrite <- app_assoc. apply (repl_pcells _ p).
  apply (repl_perm _ (flat_map (pcells q) cs ++ (pcells p c ++ l))); [solve_Permutation|].
  apply IH; [done|]. revert H. apply repl_perm. solve_Permutation.
Qed.

(** ** Represented trees *)

(** The node fields, the parent pointers and the cached keys represent [t]. *)
Record Tree (m : store) (T : VmaMapleTree) (t : ltree) : Prop := {
  tree_nodes : stores T (ncells t);
  tree_parent : repl (parent T) (pcells nullptr t);
  tree_keys : repl (keys T) (kcells m t);
  tree_root : root_ T = tid t;
  tree_wf : wf t
}.

(** The leaf list and the fields that only insertion and removal change. *)
Definition same_chain (T T' : VmaMapleTree) : Prop :=
  prev_ T' = prev_ T ∧ next_ T' = next_ T ∧ head_ T' = head_ T ∧ tail_ T' = tail_ T ∧
  size_ T' = size_ T.

#[export] Instance same_chain_preorder : PreOrder same_chain.
Proof. split; [done|]. unfold same_chain. intros ???. naive_solver congruence. Qed.

(** Occupancy along a path: a node on it has one to eleven other children. *)
Definition ctx_wf (c : ctx) : Prop :=
  Forall (λ f, (1 ≤ length (before f) + length (after f) ≤ 11)%nat ∧
    Forall wf (before f) ∧ Forall wf (after f)) c.

Lemma Forall_wf_ok cs : Forall wf cs → Forall ok cs.
Proof. intros H. eapply Forall_impl; [exact H|apply wf_ok]. Qed.

Lemma ctx_wf_ok c : ctx_wf c → ctx_ok c.
Proof.
  intros H. eapply Forall_impl; [exact H|]. intros f (_ & ? & ?). eauto using Forall_wf_ok.
Qed.

Lemma wf_plug t c : wf t → ctx_wf c → wf (plug t c).
Proof.
  revert t. induction c as [|f c IH]; intros t Ht Hc; cbn; [done|].
  apply Forall_cons_iff in Hc as [(Hlen & Hb & Ha) Hc]. apply IH; [|done].
  constructor; [rewrite length_app; cbn; lia|]. apply Forall_app. split; [done|by constructor].
Qed.

Lemma wf_plug_inv t c : wf (plug t c) → wf t.
Proof.
  revert t. induction c as [|f c IH]; intros t; cbn; [done|]. intros H%IH. inversion_clear H.
  rewrite Forall_app, Forall_cons_iff in H1. tauto.
Qed.

Lemma ksib_ids m hole c i : i ∈ (ctx_ksib m c).*1 → i ∈ (ctx_ncells hole c).*1.
Proof.
  revert hole. induction c as [|f c IH]; intros hole; cbn; [done|].
  rewrite elem_of_cons, !fmap_app, !elem_of_app.
  intros [?%kcells_list_ids|[?%kcells_list_ids|?]]; eauto.
Qed.

Lemma tid_plug t t' c : tid t = tid t' → tid (plug t c) = tid (plug t' c).
Proof. revert t t'. induction c as [|f c IH]; intros t t' H; cbn; [done|]. by apply IH. Qed.

End MapleSpec.
