(* ===== verification/MapleRep.v ===== *)
(** * The represented index: leaf list, size and address order

    [Index m T l]: the tree object [T] is a well-formed index of the areas
    [l], which are valid, disjoint and in address order in the store [m].  The
    lemmas here read a leaf and its neighbours out of node memory. *)
From S2P Require Import Prelude VmArea AreaIndex MapleTree MapleSpec.
Import VmArea AreaIndex VmaMapleTree MapleSpec.

Module MapleRep.

(** ** The leaf list *)

Fixpoint nxcells (ids : list ptr) (nx : ptr) : list (ptr * ptr) :=
  match ids with
  | [] => []
  | x :: r => (x, hd nx r) :: nxcells r nx
  end.

Fixpoint pvcells (pv : ptr) (ids : list ptr) : list (ptr * ptr) :=
  match ids with
  | [] => []
  | x :: r => (x, pv) :: pvcells x r
  end.

Record Chain (T : VmaMapleTree) (ids : list ptr) : Prop := {
  chain_next : repl (next_ T) (nxcells ids nullptr);
  chain_prev : repl (prev_ T) (pvcells nullptr ids);
  chain_head : head_ T = hd nullptr ids;
  chain_tail : tail_ T = last_or nullptr ids
}.

Lemma nxcells_app l l' nx : nxcells (l ++ l') nx = nxcells l (hd nx l') ++ nxcells l' nx.
Proof. induction l as [|x l IH]; cbn; [done|]. rewrite IH. by destruct l. Qed.

Lemma pvcells_app pv l l' : pvcells pv (l ++ l') = pvcells pv l ++ pvcells (last_or pv l) l'.
Proof.
  revert pv. induction l as [|x l IH]; intros pv; cbn; [done|].
  by rewrite IH, last_or_cons.
Qed.

Lemma nxcells_ids l nx : (nxcells l nx).*1 = l.
Proof. induction l; cbn; congruence. Qed.

Lemma pvcells_ids pv l : (pvcells pv l).*1 = l.
Proof. revert pv. induction l; intros; cbn; [done|]. by f_equal. Qed.

(** ** Representation and order *)

Record Rep (m : store) (T : VmaMapleTree) (t : ltree) : Prop := {
  rep_tree : Tree m T t;
  rep_chain : Chain T (leaves t).*1;
  rep_size : size_ T = Z.of_nat (length (elems t))
}.

Record Empty (T : VmaMapleTree) : Prop := {
  empty_nodes : nodes T = ∅;
  empty_keys : keys T = ∅;
  empty_parent : parent T = ∅;
  empty_prev : prev_ T = ∅;
  empty_next : next_ T = ∅;
  empty_brk : nullptr < brk T;
  empty_root : root_ T = nullptr;
  empty_head : head_ T = nullptr;
  empty_tail : tail_ T = nullptr;
  empty_size : size_ T = 0
}.

Definition Index (m : store) (T : VmaMapleTree) (l : list ptr) : Prop :=
  ordered m l ∧ ((l = [] ∧ Empty T) ∨ ∃ t, Rep m T t ∧ elems t = l).

(** ** Reading a leaf and its neighbours *)

Lemma last_nonnull_last l : Forall (.≠ nullptr) l → last_nonnull l = last_or nullptr l.
Proof.
  unfold last_nonnull. destruct l as [|x l _] using rev_ind; [done|].
  rewrite Forall_app, Forall_cons_iff. intros (_ & Hx & _).
  rewrite rev_app_distr, last_or_snoc. cbn. by case_test.
Qed.

Lemma leaves_nonempty t id es : wf t → (id, es) ∈ leaves t → es ≠ [] ∧ Forall (.≠ nullptr) es.
Proof.
  induction t as [id' es'|id' cs IH] using ltree_rect'; intros Hwf Hin; inversion_clear Hwf.
  - cbn in Hin. apply list_elem_of_singleton in Hin. injection Hin as -> ->.
    split; [|done]. intros ->. cbn in *. lia.
  - cbn in Hin. apply elem_of_flat_map in Hin as (c & Hc & Hin).
    rewrite Forall_forall in IH, H0. by apply (IH c); auto.
Qed.

Lemma leaves_ncells t id es : (id, es) ∈ leaves t → (id, LeafNode es) ∈ ncells t.
Proof.
  induction t as [id' es'|id' cs IH] using ltree_rect'; cbn; intros Hin.
  - apply list_elem_of_singleton in Hin. injection Hin as -> ->. by left.
  - right. apply elem_of_flat_map in Hin as (c & Hc & Hin).
    apply elem_of_flat_map. exists c. split; [done|]. rewrite Forall_forall in IH. by apply IH.
Qed.

Lemma leaves_id_nonnull T t id es : stores T (ncells t) → (id, es) ∈ leaves t → id ≠ nullptr.
Proof.
  intros Hs%stores_nonnull Hin%leaves_ncells. rewrite Forall_forall in Hs. apply Hs.
  apply list_elem_of_fmap. by exists (id, LeafNode es).
Qed.

Lemma elems_entry_last L id es :
  es ≠ [] → last_or nullptr (entries_of (L ++ [(id, es)])) = last_or nullptr es.
Proof.
  intros Hne. rewrite entries_of_app. cbn. rewrite app_nil_r, last_or_app.
  destruct es as [|e es _] using rev_ind; [done|]. by rewrite !last_or_snoc.
Qed.

(** The neighbours of a leaf [id] whose place in the leaf list is known. *)
Section neighbours.
Context (m : store) (T : VmaMapleTree) (t : ltree) (HR : Rep m T t).
Context (L1 L2 : list (ptr * list ptr)) (id : ptr) (es : list ptr).
Context (Hlv : leaves t = L1 ++ (id, es) :: L2).

Lemma rep_load : load_leaf T id = Ret es.
Proof.
  eapply load_leaf_sub; [apply repl_sub; apply (tree_nodes _ _ _ (rep_tree _ _ _ HR))|].
  apply leaves_ncells. rewrite Hlv. set_solver.
Qed.

Lemma rep_leaf_nonnull : id ≠ nullptr.
Proof.
  eapply (leaves_id_nonnull T t id es); [apply (tree_nodes _ _ _ (rep_tree _ _ _ HR))|].
  rewrite Hlv. set_solver.
Qed.

Lemma rep_leaf_entries : es ≠ [] ∧ Forall (.≠ nullptr) es.
Proof.
  apply (leaves_nonempty t id); [apply (tree_wf _ _ _ (rep_tree _ _ _ HR))|].
  rewrite Hlv. set_solver.
Qed.

Lemma rep_next : fld (next_ T) id = Ret (hd nullptr L2.*1).
Proof.
  eapply fld_sub; [apply repl_sub, (chain_next _ _ (rep_chain _ _ _ HR))|].
  rewrite Hlv, fmap_app, nxcells_app, elem_of_app. right. cbn. by left.
Qed.

Lemma rep_prev : fld (prev_ T) id = Ret (last_or nullptr L1.*1).
Proof.
  eapply fld_sub; [apply repl_sub, (chain_prev _ _ (rep_chain _ _ _ HR))|].
  rewrite Hlv, fmap_app, pvcells_app, elem_of_app. right. cbn. by left.
Qed.

Lemma rep_load_in i es' : (i, es') ∈ leaves t →
  load_leaf T i = Ret es' ∧ i ≠ nullptr ∧ es' ≠ [] ∧ Forall (.≠ nullptr) es'.
Proof.
  intros Hin. pose proof (rep_tree _ _ _ HR) as HT. split_and!.
  - eapply load_leaf_sub; [apply repl_sub; apply (tree_nodes _ _ _ HT)|].
    by apply leaves_ncells.
  - eapply leaves_id_nonnull; [apply (tree_nodes _ _ _ HT)|done].
  - eapply leaves_nonempty; [apply (tree_wf _ _ _ HT)|done].
  - eapply leaves_nonempty; [apply (tree_wf _ _ _ HT)|done].
Qed.

Lemma rep_next_first : next_leaf_first T id = Ret (hd nullptr (entries_of L2)).
Proof.
  unfold next_leaf_first. rewrite rep_next. cbn [obind].
  destruct L2 as [|[i es'] L2']; [done|]. cbn.
  destruct (rep_load_in i es') as (Hl & Hi & Hne & Hnn); [rewrite Hlv; set_solver|].
  rewrite (proj2 (Z.eqb_neq i nullptr)) by done. rewrite Hl. cbn.
  rewrite first_nonnull_hd by done. by destruct es'.
Qed.

Lemma rep_prev_last :
  last_entry T (last_or nullptr L1.*1) = Ret (last_or nullptr (entries_of L1)).
Proof.
  unfold last_entry. destruct L1 as [|[i es'] L1' _] using rev_ind; [done|].
  rewrite fmap_app. cbn [fmap list_fmap fst]. rewrite last_or_snoc.
  destruct (rep_load_in i es') as (Hl & Hi & Hne & Hnn); [rewrite Hlv; set_solver|].
  rewrite (proj2 (Z.eqb_neq i nullptr)) by done. rewrite Hl. cbn [obind].
  by rewrite last_nonnull_last, elems_entry_last.
Qed.
End neighbours.

(** ** The place of a key *)

Lemma elems_leaves t L1 id es L2 :
  leaves t = L1 ++ (id, es) :: L2 → elems t = entries_of L1 ++ es ++ entries_of L2.
Proof. intros H. unfold elems. rewrite H, entries_of_app. done. Qed.

Lemma find_leaf_spec m T t key :
  Rep m T t → ordered m (elems t) →
  ∃ L1 id es L2, find_leaf T key = Ret id ∧ id ≠ nullptr ∧ leaves t = L1 ++ (id, es) :: L2 ∧
    (L1 = [] ∨ fkey m es ≤ key) ∧
    (∀ p, p ∈ entries_of L1 → end_addr (m !!! p) ≤ key) ∧
    (∀ p, p ∈ entries_of L2 → key < addr (m !!! p)).
Proof.
  intros HR Hord. destruct (rep_tree _ _ _ HR) as [Hn Hp Hk Hr Hwf].
  destruct (find_leaf_loop_spec m T t (fuel T) key)
    as (L1 & id & es & L2 & Hrun & Hlv & Hlo & Hhi).
  { apply repl_sub, Hn. } { by apply repl_sub. } { by apply stores_nonnull in Hn. }
  { by apply wf_ok. } { by apply ordered_by_addr. }
  { unfold fuel. rewrite (stores_size _ _ Hn). lia. }
  pose proof (rep_leaf_nonnull m T t HR L1 L2 id es Hlv) as Hid.
  destruct (rep_leaf_entries m T t HR L1 L2 id es Hlv) as [Hne _].
  pose proof (elems_leaves _ _ _ _ _ Hlv) as He. rewrite He in Hord.
  exists L1, id, es, L2. split_and!; [|done|done|done| |].
  - unfold find_leaf. rewrite Hr, (proj2 (Z.eqb_neq (tid t) nullptr)); [done|].
    apply (stores_tid T t []). by rewrite app_nil_r.
  - intros p Hp1. destruct Hlo as [->|Hlo]; [by apply elem_of_nil in Hp1|].
    destruct es as [|e es]; [done|].
    apply ordered_app in Hord as (_ & _ & Hb).
    specialize (Hb p e Hp1 ltac:(set_solver)). unfold below in Hb. unfold fkey in Hlo. cbn in Hlo. lia.
  - intros p Hp2. destruct L2 as [|[i es2] L2]; [by apply elem_of_nil in Hp2|].
    specialize (Hhi _ eq_refl). cbn in Hhi. unfold fkey in Hhi.
    destruct (leaves_nonempty t i es2) as [Hne2 _]; [done|rewrite Hlv; set_solver|].
    destruct es2 as [|e2 es2]; [done|]. cbn in Hhi, Hp2.
    rewrite !ordered_app in Hord. destruct Hord as (_ & (_ & Hord & _) & _).
    apply ordered_by_addr in Hord. cbn in Hord. apply StronglySorted_inv in Hord as [_ Hord].
    apply elem_of_cons in Hp2 as [->|Hp2]; [done|]. rewrite Forall_forall in Hord.
    specialize (Hord p Hp2). unfold by_addr in Hord. lia.
Qed.

(** ** The path to a leaf *)

Lemma plug_app t c1 c2 : plug t (c1 ++ c2) = plug (plug t c1) c2.
Proof. revert t. induction c1 as [|f c1 IH]; intros t; cbn; [done|]. apply IH. Qed.

Lemma ctx_leaves_app c1 c2 :
  ctx_lbefore (c1 ++ c2) = ctx_lbefore c2 ++ ctx_lbefore c1 ∧
  ctx_lafter (c1 ++ c2) = ctx_lafter c1 ++ ctx_lafter c2.
Proof.
  induction c1 as [|f c1 [IH1 IH2]]; cbn; [by rewrite app_nil_r|].
  by rewrite IH1, IH2, <- !app_assoc.
Qed.

Lemma flat_map_split {A B} (f : A → list B) l L1 x L2 :
  flat_map f l = L1 ++ x :: L2 →
  ∃ l1 a l2 M1 M2, l = l1 ++ a :: l2 ∧ f a = M1 ++ x :: M2 ∧
    L1 = flat_map f l1 ++ M1 ∧ L2 = M2 ++ flat_map f l2.
Proof.
  revert L1. induction l as [|a l IH]; intros L1; cbn; [by destruct L1|].
  intros H. apply app_eq_app in H as (k & [[Ha Hk]|[-> Hk]]).
  - destruct k as [|y k].
    + cbn in Hk. rewrite app_nil_r in Ha. subst L1. destruct (IH [] (eq_sym Hk))
        as (l1 & a' & l2 & M1 & M2 & -> & Hf & HM & ->).
      exists (a :: l1), a', l2, M1, M2.
      split_and!; [done|done|cbn; by rewrite <- app_assoc, <- HM, app_nil_r|done].
    + injection Hk as <- ->. by exists [], a, l, L1, k.
  - destruct (IH k Hk) as (l1 & a' & l2 & M1 & M2 & -> & Hf & -> & ->).
    exists (a :: l1), a', l2, M1, M2. cbn. by rewrite <- app_assoc.
Qed.

Lemma leaf_ctx t L1 id es L2 :
  wf t → leaves t = L1 ++ (id, es) :: L2 →
  ∃ c, t = plug (LLeaf id es) c ∧ ctx_lbefore c = L1 ∧ ctx_lafter c = L2 ∧ ctx_wf c.
Proof.
  revert L1 L2. induction t as [id' es'|id' cs IH] using ltree_rect'; intros L1 L2 Hwf Hlv;
    inversion_clear Hwf; cbn in Hlv.
  - destruct L1 as [|? [|]]; try done. injection Hlv as -> -> <-. exists []. by repeat constructor.
  - apply flat_map_split in Hlv as (l1 & a & l2 & M1 & M2 & -> & Hlv & -> & ->).
    rewrite Forall_app, Forall_cons_iff in IH, H0. destruct IH as (_ & IH & _), H0 as (H1 & Ha & H2).
    destruct (IH M1 M2 Ha Hlv) as (c & -> & <- & <- & Hc).
    exists (c ++ [mkFrame id' l1 l2]). rewrite plug_app.
    destruct (ctx_leaves_app c [mkFrame id' l1 l2]) as [-> ->]. cbn. rewrite app_nil_r.
    split_and!; [done|done|done|]. apply Forall_app. split; [done|].
    constructor; [cbn|done]. rewrite length_app in H. cbn in H. split_and!; [lia|lia|done|done].
Qed.

Lemma ctx_kpath_ids m k c : (ctx_kpath m k c).*1 = fid <$> c.
Proof. revert k. induction c as [|f c IH]; intros k; cbn; [done|]. by rewrite IH. Qed.

(** ** Changing one leaf *)

Lemma lkey_agree m m' t : ok t → agree m m' (elems t) → lkey m t = lkey m' t.
Proof.
  intros Hok Ha. destruct (leaves_head m t Hok) as (id & es & r & Hlv & Hne & ->).
  destruct (leaves_head m' t Hok) as (id' & es' & r' & Hlv' & _ & ->).
  rewrite Hlv in Hlv'. injection Hlv' as <- <- <-. unfold fkey. f_equal. apply Ha.
  unfold elems. rewrite Hlv. destruct es; [done|]. by left.
Qed.

Lemma kcells_agree m m' t : ok t → agree m m' (elems t) → kcells m t = kcells m' t.
Proof.
  induction t as [|id cs IH] using ltree_rect'; intros Hok Ha; cbn; [done|].
  inversion_clear Hok. rewrite elems_node in Ha.
  assert (∀ c, c ∈ cs → ok c ∧ agree m m' (elems c)) as Hc.
  { intros c Hc. rewrite Forall_forall in H0. split; [by apply H0|].
    intros p Hp. apply Ha, elem_of_flat_map. by exists c. }
  f_equal.
  - f_equal. apply list_fmap_ext. intros i c Hi%list_elem_of_lookup_2. by apply lkey_agree; apply Hc.
  - clear Ha H H0. induction IH as [|c cs Hi _ IHcs]; cbn; [done|].
    rewrite Hi by (apply Hc; by left). rewrite IHcs; [done|]. intros c' ?. apply Hc. by right.
Qed.

Lemma kcells_list_agree m m' cs :
  Forall ok cs → agree m m' (entries_of (flat_map leaves cs)) →
  flat_map (kcells m) cs = flat_map (kcells m') cs.
Proof.
  induction 1 as [|c cs Hc _ IH]; cbn [flat_map]; intros Ha; [done|].
  rewrite entries_of_app in Ha. rewrite IH by (intros p Hp; apply Ha; set_solver).
  rewrite (kcells_agree m m' c); [done|done|]. intros p Hp; apply Ha. apply elem_of_app. by left.
Qed.

Lemma ctx_ksib_agree m m' c :
  ctx_ok c → agree m m' (entries_of (ctx_lbefore c ++ ctx_lafter c)) →
  ctx_ksib m c = ctx_ksib m' c.
Proof.
  induction 1 as [|f c [Hb Ha] _ IH]; cbn; intros Hag; [done|].
  rewrite !entries_of_app in Hag.
  rewrite (kcells_list_agree m m' (before f)), (kcells_list_agree m m' (after f)), IH; try done.
  all: intros p Hp; apply Hag; rewrite ?entries_of_app in Hp; set_solver.
Qed.

(** A leaf whose entries changed, and the refresh of the keys above it. *)
Lemma refresh_leaf m m' T id es es' c :
  Tree m T (plug (LLeaf id es) c) → ctx_wf c → wf (LLeaf id es') →
  agree m m' (entries_of (ctx_lbefore c ++ ctx_lafter c)) →
  ∃ ks, refresh_ancestors m' (with_nodes T (<[id := LeafNode es']>)) id =
      Ret (with_keys (with_nodes T (<[id := LeafNode es']>)) (λ _, ks)) ∧
    Tree m' (with_keys (with_nodes T (<[id := LeafNode es']>)) (λ _, ks)) (plug (LLeaf id es') c).
Proof.
  intros [Hn Hp Hk Hr Hwf] Hc Hl Hag. set (T1 := with_nodes T _).
  assert (stores T1 (ncells (LLeaf id es') ++ ctx_ncells id c)) as Hs.
  { apply (stores_update _ _ (LeafNode es)). by rewrite ncells_plug in Hn. }
  rewrite pcells_plug in Hp. rewrite kcells_plug in Hk. cbn in Hk.
  destruct (refresh_ancestors_spec m' c T1 (LLeaf id es') (ctx_ksib m' c)
    (ctx_kpath m (lkey m (LLeaf id es)) c)) as (ks & Hrun & Hks).
  { done. } { done. } { by apply wf_ok. } { by apply ctx_wf_ok. }
  { rewrite <- (ctx_ksib_agree m m') by (done || by apply ctx_wf_ok).
    revert Hk. apply repl_perm. solve_Permutation. }
  { apply ctx_kpath_ids. }
  exists ks. split; [exact Hrun|]. split.
  - rewrite ncells_plug. exact Hs.
  - rewrite pcells_plug. exact Hp.
  - rewrite kcells_plug. cbn. revert Hks. apply repl_perm. solve_Permutation.
  - cbn. rewrite Hr. by apply tid_plug.
  - by apply wf_plug.
Qed.

(** ** Changing the leaf list *)

Lemma next_insert f l1 x y l2 :
  repl f (nxcells (l1 ++ x :: l2) nullptr) → y ∉ l1 ++ x :: l2 →
  repl (<[x := y]> (<[y := hd nullptr l2]> f)) (nxcells (l1 ++ x :: y :: l2) nullptr).
Proof.
  intros Hf Hy. rewrite nxcells_app in Hf |- *. cbn in Hf |- *.
  rewrite <- Permutation_middle. apply (repl_update _ _ _ (hd nullptr l2)).
  apply (repl_perm _ ((y, hd nullptr l2) :: nxcells l1 x ++ (x, hd nullptr l2) :: nxcells l2 nullptr)).
  { solve_Permutation. }
  apply repl_fresh; [|done]. rewrite fmap_app. cbn. by rewrite !nxcells_ids.
Qed.

Lemma prev_insert f l1 x y l2 :
  repl f (pvcells nullptr (l1 ++ x :: l2)) → y ∉ l1 ++ x :: l2 →
  repl (match l2 with [] => <[y := x]> f | z :: _ => <[z := y]> (<[y := x]> f) end)
    (pvcells nullptr (l1 ++ x :: y :: l2)).
Proof.
  intros Hf Hy. rewrite pvcells_app in Hf |- *. cbn in Hf |- *.
  assert (repl (<[y := x]> f)
    ((y, x) :: pvcells nullptr l1 ++ (x, last_or nullptr l1) :: pvcells x l2)) as Hf1.
  { apply repl_fresh; [|done]. rewrite fmap_app. cbn. by rewrite !pvcells_ids. }
  destruct l2 as [|z l2]; cbn in *; [revert Hf1; apply repl_perm; solve_Permutation|].
  apply (repl_perm _ ((z, y) :: (y, x) :: pvcells nullptr l1 ++
    (x, last_or nullptr l1) :: pvcells z l2)); [solve_Permutation|].
  apply (repl_update _ _ _ x). revert Hf1. apply repl_perm. solve_Permutation.
Qed.

(** The assignments by which [unlink_leaf] and [delete] take [x] out. *)
Lemma next_remove f l1 x l2 :
  repl f (nxcells (l1 ++ x :: l2) nullptr) →
  repl (delete x (match last l1 with None => f | Some w => <[w := hd nullptr l2]> f end))
    (nxcells (l1 ++ l2) nullptr).
Proof.
  intros Hf. rewrite nxcells_app in Hf |- *. cbn in Hf.
  destruct l1 as [|w l1 _] using rev_ind; cbn in *; [by eapply repl_delete|].
  rewrite last_snoc. rewrite nxcells_app in Hf |- *. cbn in Hf |- *.
  apply (repl_delete _ _ _ (hd nullptr l2)).
  apply (repl_perm _ ((w, hd nullptr l2) :: nxcells l1 w ++ (x, hd nullptr l2) :: nxcells l2 nullptr)).
  { solve_Permutation. }
  apply (repl_update _ _ _ x). revert Hf. apply repl_perm. solve_Permutation.
Qed.

Lemma prev_remove f l1 x l2 :
  repl f (pvcells nullptr (l1 ++ x :: l2)) →
  repl (delete x (match l2 with [] => f | z :: _ => <[z := last_or nullptr l1]> f end))
    (pvcells nullptr (l1 ++ l2)).
Proof.
  intros Hf. rewrite pvcells_app in Hf |- *. cbn in Hf.
  apply (repl_delete _ _ _ (last_or nullptr l1)). destruct l2 as [|z l2]; cbn in *.
  { revert Hf. apply repl_perm. solve_Permutation. }
  apply (repl_perm _ ((z, last_or nullptr l1) :: (x, last_or nullptr l1) ::
    pvcells nullptr l1 ++ pvcells z l2)); [solve_Permutation|].
  apply (repl_update _ _ _ x). revert Hf. apply repl_perm. solve_Permutation.
Qed.

Lemma chain_insert T T' pre x y post :
  Chain T (pre ++ x :: post) → y ∉ pre ++ x :: post → Forall (.≠ nullptr) post →
  next_ T' = <[x := y]> (<[y := hd nullptr post]> (next_ T)) →
  prev_ T' = (if hd nullptr post =? nullptr then <[y := x]> (prev_ T)
              else <[hd nullptr post := y]> (<[y := x]> (prev_ T))) →
  head_ T' = head_ T → tail_ T' = (if hd nullptr post =? nullptr then y else tail_ T) →
  Chain T' (pre ++ x :: y :: post).
Proof.
  intros [Hnx Hpv Hh Ht] Hy Hnn En Ep Eh Et. split.
  - rewrite En. by apply next_insert.
  - rewrite Ep. pose proof (prev_insert _ pre x y post Hpv Hy) as H.
    destruct Hnn as [|z post Hz _]; cbn in *; [done|].
    by rewrite (proj2 (Z.eqb_neq z nullptr)).
  - rewrite Eh, Hh. by destruct pre.
  - rewrite Et. destruct Hnn as [|z post Hz _]; cbn in *.
    + by rewrite !last_or_app.
    + rewrite (proj2 (Z.eqb_neq z nullptr)) by done. by rewrite Ht, !last_or_app.
Qed.

Lemma chain_remove T T' pre x post :
  Chain T (pre ++ x :: post) → Forall (.≠ nullptr) (pre ++ post) →
  next_ T' = delete x (if last_or nullptr pre =? nullptr then next_ T
    else <[last_or nullptr pre := hd nullptr post]> (next_ T)) →
  prev_ T' = delete x (if hd nullptr post =? nullptr then prev_ T
    else <[hd nullptr post := last_or nullptr pre]> (prev_ T)) →
  head_ T' = (if last_or nullptr pre =? nullptr then hd nullptr post else head_ T) →
  tail_ T' = (if hd nullptr post =? nullptr then last_or nullptr pre else tail_ T) →
  Chain T' (pre ++ post).
Proof.
  intros [Hnx Hpv Hh Ht] [Hn1 Hn2]%Forall_app En Ep Eh Et.
  assert (last pre = if last_or nullptr pre =? nullptr then None else Some (last_or nullptr pre)) as Hl.
  { destruct pre as [|w pre _] using rev_ind; [done|]. rewrite last_snoc, last_or_snoc.
    rewrite Forall_app, Forall_cons_iff in Hn1. by rewrite (proj2 (Z.eqb_neq w nullptr)) by tauto. }
  split.
  - pose proof (next_remove _ pre x post Hnx) as H. rewrite En.
    rewrite Hl in H. by destruct (_ =? _).
  - pose proof (prev_remove _ pre x post Hpv) as H. rewrite Ep.
    destruct Hn2 as [|z post Hz _]; cbn in *; [done|]. by rewrite (proj2 (Z.eqb_neq z nullptr)).
  - rewrite Eh, Hh. destruct pre as [|w pre]; [done|]. clear -Hl. cbn.
    destruct (_ =? _); [|done]. by rewrite last_cons in Hl; destruct (last pre).
  - rewrite Et, Ht. destruct Hn2 as [|z post Hz _]; cbn in *; [by rewrite app_nil_r|].
    rewrite (proj2 (Z.eqb_neq z nullptr)) by done. by rewrite !last_or_app.
Qed.

End MapleRep.
