(* ===== verification/MapleQuery.v ===== *)
(** * The queries of the VMA index

    What [find], [lower_bound], [prev_by_start], [next], [prev] and the search
    for the leaf of an entry return on a represented index. *)
From S2P Require Import Prelude VmArea AreaIndex MapleTree MapleSpec MapleRep.
Import VmArea AreaIndex VmaMapleTree MapleSpec MapleRep.

Module MapleQuery.

(** ** Slots *)

Lemma find_entry_slot_spec m es key :
  Forall (.≠ nullptr) es →
  ∃ e1 e2, es = e1 ++ e2 ∧ find_entry_slot m es key = length e1 ∧
    (∀ p, p ∈ e1 → addr (m !!! p) < key) ∧ (∀ p, head e2 = Some p → key ≤ addr (m !!! p)).
Proof.
  intros Hnn. unfold find_entry_slot.
  assert (∀ i, ∃ e1 e2, es = e1 ++ e2 ∧ find_entry_slot_loop m es key i = (i + length e1)%nat ∧
    (∀ p, p ∈ e1 → addr (m !!! p) < key) ∧ (∀ p, head e2 = Some p → key ≤ addr (m !!! p))) as H.
  { induction Hnn as [|e es He _ IH]; intros i; cbn [find_entry_slot_loop].
    - exists [], []. split_and!; [done|cbn; lia|by intros ? ?%elem_of_nil|done].
    - rewrite (proj2 (Z.eqb_neq e nullptr)) by done. case_test.
      + exists [], (e :: es). split_and!; [done|cbn; lia|by intros ? ?%elem_of_nil|].
        by intros ? [= <-].
      + destruct (IH (S i)) as (e1 & e2 & -> & -> & Hlt & Hge). exists (e :: e1), e2.
        split_and!; [done|cbn; lia| |done]. intros p [->|?]%elem_of_cons; [lia|by apply Hlt]. }
  destruct (H O) as (e1 & e2 & ? & ? & ? & ?). by exists e1, e2.
Qed.

Lemma upper_bound_slot_spec m es key :
  Forall (.≠ nullptr) es →
  ∃ e1 e2, es = e1 ++ e2 ∧ upper_bound_slot m es key = length e1 ∧
    (∀ p, p ∈ e1 → addr (m !!! p) ≤ key) ∧ (∀ p, head e2 = Some p → key < addr (m !!! p)).
Proof.
  intros Hnn. unfold upper_bound_slot.
  assert (∀ i, ∃ e1 e2, es = e1 ++ e2 ∧ upper_bound_slot_loop m es key i = (i + length e1)%nat ∧
    (∀ p, p ∈ e1 → addr (m !!! p) ≤ key) ∧ (∀ p, head e2 = Some p → key < addr (m !!! p))) as H.
  { induction Hnn as [|e es He _ IH]; intros i; cbn [upper_bound_slot_loop].
    - exists [], []. split_and!; [done|cbn; lia|by intros ? ?%elem_of_nil|done].
    - rewrite (proj2 (Z.eqb_neq e nullptr)) by done. case_test.
      + exists [], (e :: es). split_and!; [done|cbn; lia|by intros ? ?%elem_of_nil|].
        by intros ? [= <-].
      + destruct (IH (S i)) as (e1 & e2 & -> & -> & Hlt & Hge). exists (e :: e1), e2.
        split_and!; [done|cbn; lia| |done]. intros p [->|?]%elem_of_cons; [lia|by apply Hlt]. }
  destruct (H O) as (e1 & e2 & ? & ? & ? & ?). by exists e1, e2.
Qed.

(** The place of [key] in the index: the leaf [find_leaf] reaches splits, at
    the slot [find_entry_slot] returns, the entries that start below [key]
    from the others. *)
Lemma key_place m T t key :
  Rep m T t → ordered m (elems t) →
  ∃ L1 id e1 e2 L2, find_leaf T key = Ret id ∧ id ≠ nullptr ∧
    leaves t = L1 ++ (id, e1 ++ e2) :: L2 ∧
    find_entry_slot m (e1 ++ e2) key = length e1 ∧
    (∀ p, p ∈ entries_of L1 ++ e1 → addr (m !!! p) < key) ∧
    (∀ p, p ∈ e2 ++ entries_of L2 → key ≤ addr (m !!! p)).
Proof.
  intros HR Ho. destruct (find_leaf_spec m T t key HR Ho)
    as (L1 & id & es & L2 & Hrun & Hid & Hlv & _ & Hlo & Hhi).
  destruct (rep_leaf_entries m T t HR L1 L2 id es Hlv) as [_ Hnn].
  destruct (find_entry_slot_spec m es key Hnn) as (e1 & e2 & -> & Hslot & Hlt & Hge).
  rewrite (elems_leaves _ _ _ _ _ Hlv), !ordered_app in Ho.
  destruct Ho as (Ho1 & ((_ & Ho2 & _) & Ho3 & _) & _).
  exists L1, id, e1, e2, L2. split_and!; try done.
  - intros p [Hp|Hp]%elem_of_app; [|by apply Hlt].
    specialize (Hlo p Hp). destruct Ho1 as [Ho1 _]. rewrite Forall_forall in Ho1.
    pose proof (valid_entry_end m p (Ho1 p Hp)). lia.
  - intros p [Hp|Hp]%elem_of_app; [|specialize (Hhi p Hp); lia].
    apply (ordered_from m e2 key Z.le); [done|lia|done|done].
Qed.

Lemma take_drop_app_length (e1 e2 : list ptr) :
  take (length e1) (e1 ++ e2) = e1 ∧ drop (length e1) (e1 ++ e2) = e2.
Proof. split; [apply take_app_length|apply drop_app_length]. Qed.

Lemma find_leaf_empty T key : Empty T → find_leaf T key = Ret nullptr.
Proof. intros [????????]. unfold find_leaf. by rewrite empty_root0. Qed.

(** A leaf slot followed by the next leaf, or preceded by the previous one. *)
Lemma or_next_first m T t L1 id es L2 e2 :
  Rep m T t → leaves t = L1 ++ (id, es) :: L2 → Forall (.≠ nullptr) e2 →
  (let e := first_nonnull e2 in
   if negb (e =? nullptr) then Ret e else next_leaf_first T id) =
  Ret (hd nullptr (e2 ++ entries_of L2)).
Proof.
  intros HR Hlv Hnn. cbv zeta. rewrite first_nonnull_hd by done.
  destruct Hnn as [|e e2 He _]; cbn; [by apply (rep_next_first m T t HR L1 L2 id es)|].
  by rewrite (proj2 (Z.eqb_neq e nullptr)).
Qed.

Lemma or_prev_last m T t L1 id es L2 e1 :
  Rep m T t → leaves t = L1 ++ (id, es) :: L2 → Forall (.≠ nullptr) e1 →
  (let e := last_nonnull e1 in
   if negb (e =? nullptr) then Ret e else
   let! pv := fld (prev_ T) id in last_entry T pv) =
  Ret (last_or nullptr (entries_of L1 ++ e1)).
Proof.
  intros HR Hlv Hnn. cbv zeta. rewrite last_nonnull_last, last_or_app by done.
  destruct e1 as [|e e1 _] using rev_ind.
  - cbn. rewrite (rep_prev m T t HR L1 L2 id es Hlv). cbn.
    by rewrite (rep_prev_last m T t HR L1 L2 id es Hlv).
  - rewrite !last_or_snoc. rewrite Forall_app, Forall_cons_iff in Hnn.
    by rewrite (proj2 (Z.eqb_neq e nullptr)) by tauto.
Qed.

Lemma lower_bound_spec m T l start :
  Index m T l →
  ∃ A B, l = A ++ B ∧ (∀ p, p ∈ A → addr (m !!! p) < start) ∧
    (∀ p, p ∈ B → start ≤ addr (m !!! p)) ∧
    lower_bound m T start = Ret (hd nullptr B) ∧
    prev_by_start m T start = Ret (last_or nullptr A).
Proof.
  intros [Ho [[-> HE]|(t & HR & <-)]].
  { exists [], []. unfold lower_bound, prev_by_start. rewrite find_leaf_empty by done.
    split_and!; [done|by intros ? ?%elem_of_nil|by intros ? ?%elem_of_nil|done|done]. }
  destruct (key_place m T t start HR Ho)
    as (L1 & id & e1 & e2 & L2 & Hrun & Hid & Hlv & Hslot & Hlo & Hhi).
  destruct (rep_leaf_entries m T t HR _ _ _ _ Hlv) as [_ Hnn].
  destruct (take_drop_app_length e1 e2) as [Ht Hd].
  apply Forall_app in Hnn as [Hn1 Hn2].
  exists (entries_of L1 ++ e1), (e2 ++ entries_of L2). split_and!; [|done|done| |].
  - rewrite (elems_leaves _ _ _ _ _ Hlv). by rewrite <- !app_assoc.
  - unfold lower_bound. rewrite Hrun. cbn [obind]. rewrite (proj2 (Z.eqb_neq id nullptr)) by done.
    rewrite (rep_load m T t HR _ _ _ _ Hlv). cbn [obind]. rewrite Hslot, Hd.
    by eapply or_next_first.
  - unfold prev_by_start. rewrite Hrun. cbn [obind]. rewrite (proj2 (Z.eqb_neq id nullptr)) by done.
    rewrite (rep_load m T t HR _ _ _ _ Hlv). cbn [obind]. rewrite Hslot, Ht.
    by eapply or_prev_last.
Qed.

(** ** Covering entries *)

Lemma elem_of_rev (l : list ptr) x : x ∈ rev l ↔ x ∈ l.
Proof. by rewrite !list_elem_of_In, <- in_rev. Qed.

Lemma find_covering_spec m l a :
  Forall (.≠ nullptr) l →
  (find_covering m l a ∈ l ∧ covers (m !!! find_covering m l a) a = true) ∨
  (find_covering m l a = nullptr ∧ ∀ q, q ∈ l → covers (m !!! q) a = false).
Proof.
  induction 1 as [|e l He _ IH]; cbn; [right; split; [done|by intros ? ?%elem_of_nil]|].
  rewrite (proj2 (Z.eqb_neq e nullptr)) by done. cbn.
  destruct (covers (m !!! e) a) eqn:Hc; [left; set_solver|].
  destruct IH as [[??]|[? Hn]]; [left; set_solver|right; split; [done|]].
  intros q [->|?]%elem_of_cons; auto.
Qed.

Lemma find_spec m T l a :
  Index m T l →
  ∃ p, find m T a = Ret p ∧
    ((p ∈ l ∧ covers (m !!! p) a = true) ∨
     (p = nullptr ∧ ∀ q, q ∈ l → covers (m !!! q) a = false)).
Proof.
  intros [Ho [[-> HE]|(t & HR & <-)]].
  { exists nullptr. unfold find. rewrite find_leaf_empty by done.
    split; [done|right; split; [done|by intros ? ?%elem_of_nil]]. }
  destruct (find_leaf_spec m T t a HR Ho)
    as (L1 & id & es & L2 & Hrun & Hid & Hlv & Hfk & Hlo & Hhi).
  destruct (rep_leaf_entries m T t HR _ _ _ _ Hlv) as [Hne Hnn].
  destruct (upper_bound_slot_spec m es a Hnn) as (e1 & e2 & -> & Hslot & Hlt & Hge).
  destruct (take_drop_app_length e1 e2) as [Ht _]. apply Forall_app in Hnn as [Hn1 Hn2].
  pose proof (elems_leaves _ _ _ _ _ Hlv) as Hel. rewrite Hel in Ho |- *.
  assert (∀ q, valid_entry m q → end_addr (m !!! q) ≤ a ∨ a < addr (m !!! q) →
    covers (m !!! q) a = false) as Hnc.
  { intros q (_ & _ & Hv) H. apply not_true_iff_false. rewrite covers_spec by done. lia. }
  destruct Ho as [Hv Hs]. rewrite !StronglySorted_app in Hs.
  assert (∀ q, q ∈ (e1 ++ e2) ++ entries_of L2 → q ∉ e1 → covers (m !!! q) a = false) as Hout.
  { intros q Hq Hq1. rewrite Forall_forall in Hv. apply Hnc; [apply Hv; set_solver|].
    right. rewrite !elem_of_app in Hq. destruct Hq as [[?|Hq]|Hq]; [done| |by apply Hhi].
    apply (ordered_from m e2 a Z.lt); [|lia|done|done]. split; [|tauto].
    apply Forall_forall. intros x Hx. apply Hv. set_solver. }
  assert (∀ q, q ∈ entries_of L1 → covers (m !!! q) a = false) as Hin1.
  { intros q Hq. rewrite Forall_forall in Hv. apply Hnc; [apply Hv; set_solver|].
    left. by apply Hlo. }
  unfold find. rewrite Hrun. cbn [obind]. rewrite (proj2 (Z.eqb_neq id nullptr)) by done.
  rewrite (rep_load m T t HR _ _ _ _ Hlv). cbn [obind]. rewrite Hslot, Ht.
  destruct (find_covering_spec m (rev e1) a) as [[Hi Hc]|[-> Hn]].
  { by apply Forall_rev. }
  - assert (find_covering m (rev e1) a ≠ nullptr) as Hp0.
    { rewrite Forall_forall in Hn1. apply Hn1. by rewrite <- elem_of_rev. }
    rewrite (proj2 (Z.eqb_neq _ nullptr)) by done. cbn [negb]. eexists. split; [done|].
    left. split; [|done]. rewrite elem_of_rev in Hi. set_solver.
  - cbn [negb Z.eqb nullptr]. rewrite (rep_prev m T t HR _ _ _ _ Hlv). cbn [obind].
    exists nullptr. split.
    + destruct (_ && _) eqn:Hb; [|done]. rewrite (rep_prev_last m T t HR _ _ _ _ Hlv). cbn [obind].
      destruct (decide (entries_of L1 = [])) as [->|HL1]; [done|].
      rewrite (Hin1 (last_or nullptr (entries_of L1))), andb_false_r; [done|].
      destruct (entries_of L1) as [|x lx _] using rev_ind; [done|]. rewrite last_or_snoc. set_solver.
    + right. split; [done|]. intros q [Hq|Hq]%elem_of_app; [by apply Hin1|].
      destruct (decide (q ∈ e1)) as [Hq1|Hq1]; [|by apply Hout]. apply Hn. by rewrite elem_of_rev.
Qed.

(** ** The leaf of an entry *)

(** With the entry's own start address as the hint, the first leaf visited
    holds it.  The store [m'] may differ from the one the keys come from. *)
Lemma locate_spec m m' T t p :
  Rep m T t → ordered m (elems t) → p ∈ elems t →
  ∃ L1 id e1 e2 L2,
    locate_leaf_for_entry m' T p (addr (m !!! p)) = Ret id ∧ id ≠ nullptr ∧
    leaves t = L1 ++ (id, e1 ++ p :: e2) :: L2 ∧
    index_of p (e1 ++ p :: e2) = Some (length e1).
Proof.
  intros HR Ho Hp. destruct (find_leaf_spec m T t (addr (m !!! p)) HR Ho)
    as (L1 & id & es & L2 & Hrun & Hid & Hlv & _ & Hlo & Hhi).
  pose proof (elems_leaves _ _ _ _ _ Hlv) as Hel.
  assert (p ∈ es) as Hin.
  { rewrite Hel in Hp. destruct Ho as [Hv _]. rewrite Hel, Forall_forall in Hv.
    pose proof (valid_entry_end m p (Hv p Hp)). apply elem_of_app in Hp as [Hp|Hp].
    - specialize (Hlo p Hp). lia.
    - apply elem_of_app in Hp as [Hp|Hp]; [done|]. specialize (Hhi p Hp). lia. }
  assert (p ≠ nullptr) as Hp0.
  { apply ordered_nonnull in Ho. rewrite Forall_forall in Ho. by apply Ho. }
  apply list_elem_of_split_l in Hin as (e1 & e2 & -> & Hfresh).
  exists L1, id, e1, e2, L2. pose proof (index_of_fresh p e1 e2 Hfresh) as Hidx.
  split_and!; try done. unfold locate_leaf_for_entry.
  rewrite (proj2 (Z.eqb_neq p nullptr)) by done. rewrite Hrun. cbn [obind].
  rewrite (proj2 (Z.eqb_neq id nullptr)) by done. cbn [locate_forward].
  rewrite (proj2 (Z.eqb_neq id nullptr)) by done.
  by rewrite (rep_load m T t HR _ _ _ _ Hlv); cbn [obind]; rewrite Hidx.
Qed.

Lemma locate_forward_none m m' T t p key L1 L2 n :
  Rep m T t → leaves t = L1 ++ L2 → p ∉ elems t → (length L2 + 1 < n)%nat →
  locate_forward m' n T (hd nullptr L2.*1) p key = Ret None.
Proof.
  intros HR. revert L1 n. induction L2 as [|[id es] L2 IH]; intros L1 n Hlv Hp Hn;
    (destruct n as [|n]; [lia|]); [done|]. cbn [locate_forward hd fmap list_fmap fst].
  rewrite (proj2 (Z.eqb_neq id nullptr)) by (by eapply rep_leaf_nonnull).
  rewrite (rep_load m T t HR _ _ _ _ Hlv). cbn [obind].
  rewrite index_of_none; cycle 1.
  { rewrite (elems_leaves _ _ _ _ _ Hlv) in Hp. set_solver. }
  destruct n as [|n]; [cbn in Hn; lia|]. cbn [first_key].
  rewrite (proj2 (Z.eqb_neq id nullptr)) by (by eapply rep_leaf_nonnull).
  rewrite (load_node_sub T _ id (LeafNode es)
    (repl_sub _ _ (proj1 (tree_nodes _ _ _ (rep_tree _ _ _ HR)))));
    [|apply leaves_ncells; rewrite Hlv; set_solver].
  cbn [obind]. rewrite (rep_next m T t HR _ _ _ _ Hlv).
  assert (locate_forward m' (S n) T (hd nullptr L2.*1) p key = Ret None) as Hrec.
  { apply (IH (L1 ++ [(id, es)])); [by rewrite <- app_assoc|done|cbn in Hn; lia]. }
  destruct (first_nonnull es =? nullptr); cbn [obind]; destruct (_ || _); done.
Qed.

Lemma locate_backward_none m m' T t p key L1 L2 n :
  Rep m T t → leaves t = L1 ++ L2 → p ∉ elems t → (length L1 < n)%nat →
  locate_backward m' n T (last_or nullptr L1.*1) p key = Ret None.
Proof.
  intros HR. revert L2 n. induction L1 as [|[id es] L1 IH] using rev_ind; intros L2 n Hlv Hp Hn;
    (destruct n as [|n]; [lia|]); [done|].
  rewrite <- app_assoc in Hlv. cbn [app] in Hlv. rewrite fmap_app. cbn [fmap list_fmap fst].
  rewrite last_or_snoc. cbn [locate_backward].
  rewrite (proj2 (Z.eqb_neq id nullptr)) by (by eapply rep_leaf_nonnull).
  rewrite (rep_load m T t HR _ _ _ _ Hlv). cbn [obind].
  rewrite (rep_prev m T t HR _ _ _ _ Hlv). cbn [obind].
  rewrite length_app in Hn. cbn in Hn.
  rewrite !(IH ((id, es) :: L2) n) by (done || lia).
  rewrite index_of_none; [destruct (length es =? 0)%nat; [done|]; cbv zeta; by destruct (negb _ && _)|].
  rewrite (elems_leaves _ _ _ _ _ Hlv) in Hp. set_solver.
Qed.

Lemma leaves_ncells_length t : (length (leaves t) ≤ length (ncells t))%nat.
Proof.
  induction t as [id es|id cs IH] using ltree_rect'; cbn; [lia|].
  induction IH as [|c cs Hc _ IHcs]; cbn; [lia|]. rewrite !length_app. lia.
Qed.

Lemma locate_absent m m' T t p key :
  Rep m T t → ordered m (elems t) → p ∉ elems t →
  locate_leaf_for_entry m' T p key = Ret nullptr.
Proof.
  intros HR Ho Hp. unfold locate_leaf_for_entry. destruct (Z.eqb_spec p nullptr); [done|].
  destruct (find_leaf_spec m T t key HR Ho) as (L1 & id & es & L2 & -> & Hid & Hlv & _).
  cbn [obind]. rewrite (proj2 (Z.eqb_neq id nullptr)) by done.
  pose proof (leaves_ncells_length t) as Hlen. rewrite Hlv, length_app in Hlen. cbn in Hlen.
  assert (fuel T = S (length (ncells t))) as Hfuel.
  { unfold fuel. by rewrite (stores_size T _ (tree_nodes _ _ _ (rep_tree _ _ _ HR))). }
  pose proof (locate_forward_none m m' T t p key L1 ((id, es) :: L2) (S (fuel T)) HR Hlv Hp) as Hf.
  cbn [hd fmap list_fmap fst] in Hf. rewrite Hf by (cbn; lia). cbn [obind].
  rewrite (rep_prev m T t HR _ _ _ _ Hlv). cbn [obind].
  by rewrite (locate_backward_none m m' T t p key L1 ((id, es) :: L2)) by (done || lia).
Qed.

(** ** Neighbours of an entry *)

Lemma entry_position m t A p B L1 id e1 e2 L2 :
  ordered m (elems t) → elems t = A ++ p :: B → leaves t = L1 ++ (id, e1 ++ p :: e2) :: L2 →
  A = entries_of L1 ++ e1 ∧ B = e2 ++ entries_of L2.
Proof.
  intros Ho HAB Hlv. pose proof (elems_leaves _ _ _ _ _ Hlv) as Hel.
  rewrite <- app_assoc in Hel. cbn in Hel.
  rewrite app_assoc in Hel. apply ordered_NoDup in Ho. pose proof Ho as Ho'.
  rewrite HAB in Ho. rewrite Hel in Ho'. rewrite HAB in Hel.
  apply NoDup_app in Ho as (_ & Ho & _), Ho' as (_ & Ho' & _).
  apply not_elem_of_app_cons_inv_l in Hel; [tauto| |].
  - intros Hx. apply (Ho' p Hx). by left.
  - intros Hx. apply (Ho p Hx). by left.
Qed.

Lemma next_prev_spec m T l A p B :
  Index m T l → l = A ++ p :: B →
  next m T p = Ret (hd nullptr B) ∧ prev m T p = Ret (last_or nullptr A).
Proof.
  intros [Ho [[-> HE]|(t & HR & <-)]] HAB; [by destruct A|].
  assert (p ∈ elems t) as Hp by (rewrite HAB; set_solver).
  destruct (locate_spec m m T t p HR Ho Hp) as (L1 & id & e1 & e2 & L2 & Hrun & Hid & Hlv & Hidx).
  destruct (rep_leaf_entries m T t HR _ _ _ _ Hlv) as [_ Hnn].
  rewrite Forall_app, Forall_cons_iff in Hnn. destruct Hnn as (Hn1 & Hp0 & Hn2).
  destruct (entry_position m t A p B L1 id e1 e2 L2 Ho HAB Hlv) as [-> ->].
  unfold next, prev. rewrite (proj2 (Z.eqb_neq p nullptr)) by done. rewrite Hrun. cbn [obind].
  rewrite (proj2 (Z.eqb_neq id nullptr)) by done. rewrite (rep_load m T t HR _ _ _ _ Hlv).
  cbn [obind]. rewrite Hidx.
  rewrite take_app_length, drop_middle. split.
  - by eapply or_next_first.
  - by eapply or_prev_last.
Qed.

(** ** The neighbours decide *)

End MapleQuery.
