(* ===== verification/MapleInsert.v ===== *)
(** * Splitting nodes of the VMA index

    [split_internal] and [insert_right_sibling]: a node that split in two is
    put back into the path above it, up to a new root when every node on the
    path is full. *)
From S2P Require Import Prelude VmArea AreaIndex MapleTree MapleSpec MapleRep MapleQuery.
Import VmArea AreaIndex VmaMapleTree MapleSpec MapleRep MapleQuery.

Module MapleInsert.

Lemma split_internal_spec m k T id cs (L : list (ptr * Node)) par (P : list (ptr * ptr)) ks
    (K : list (ptr * list Z)) :
  stores T ((id, InternalNode (tid <$> cs)) :: flat_map ncells cs ++ L) →
  repl (parent T) ((id, par) :: flat_map (pcells id) cs ++ P) →
  repl (keys T) ((id, ks) :: flat_map (kcells m) cs ++ K) →
  length cs = 13%nat → Forall wf cs → brk T ∉ K.*1 → brk T ∉ P.*1 →
  let l := LNode id (take 6 cs) in let r := LNode (brk T) (drop 6 cs) in
  wf l ∧ wf r ∧
  ∃ T', split_internal m k T id = k T' (tid l) (tid r) ∧
    stores T' (ncells l ++ ncells r ++ L) ∧
    repl (parent T') (pcells par l ++ pcells nullptr r ++ P) ∧
    repl (keys T') (kcells m l ++ kcells m r ++ K) ∧
    same_chain T T' ∧ root_ T' = root_ T.
Proof.
  intros Hs Hp Hk Hlen Hwf HbK HbP l r.
  pose proof (stores_brk _ _ Hs) as Hb. pose proof (take_drop 6 cs) as Hcs.
  assert (Forall wf (take 6 cs) ∧ Forall wf (drop 6 cs)) as [Hwl Hwr].
  { rewrite <- Hcs in Hwf. by apply Forall_app in Hwf. }
  split. { constructor; [rewrite length_take; lia|done]. }
  split. { constructor; [rewrite length_drop; lia|done]. }
  unfold split_internal. destruct (new_internal T) as [T1 b] eqn:Hnew.
  injection Hnew as HT1 <-.
  assert (stores T1 ((brk T, InternalNode []) ::
    (id, InternalNode (tid <$> cs)) :: flat_map ncells cs ++ L)) as Hs1.
  { subst T1. by apply (stores_new T). }
  rewrite (load_internal_sub T1 _ id (tid <$> cs) (repl_sub _ _ (proj1 Hs1)))
    by (right; by left). cbn [obind].
  rewrite length_fmap, Hlen. change (13 / 2)%nat with 6%nat. rewrite <- fmap_drop, <- fmap_take.
  set (lo := take 6 cs) in *. set (hi := drop 6 cs) in *.
  assert (length lo = 6%nat ∧ length hi = 7%nat) as [Hlo Hhi].
  { unfold lo, hi. rewrite length_take, length_drop. lia. }
  rewrite store_internal_ok by (rewrite length_fmap; lia). cbn [obind].
  set (T2 := with_nodes T1 _). set (T3 := with_parent T2 _).
  rewrite store_internal_ok by (rewrite length_fmap; lia). cbn [obind].
  set (T4 := with_nodes T3 _).
  assert (stores T3 ((id, InternalNode (tid <$> cs)) :: (brk T, InternalNode (tid <$> hi)) ::
    flat_map ncells cs ++ L)) as Hs3.
  { change (stores T2 ((id, InternalNode (tid <$> cs)) :: (brk T, InternalNode (tid <$> hi)) ::
      flat_map ncells cs ++ L)).
    rewrite perm_swap. exact (stores_update _ _ _ _ _ Hs1). }
  assert (stores T4 ((id, InternalNode (tid <$> lo)) :: flat_map ncells lo ++ ncells r ++ L)) as Hs4.
  { apply (stores_update _ _ _ (InternalNode (tid <$> lo))) in Hs3. revert Hs3. apply stores_proper.
    rewrite <- Hcs, flat_map_app. cbn. fold lo hi. solve_Permutation. }
  rewrite (refresh_keys_stores m T4 id lo (ncells r ++ L) Hs4) by (by apply Forall_wf_ok).
  cbn [obind]. set (T5 := with_keys T4 _).
  rewrite (refresh_keys_stores m T5 (brk T) hi (ncells l ++ L)); [cbn [obind]| |by apply Forall_wf_ok].
  2: { change (stores T4 ((brk T, InternalNode (tid <$> hi)) :: flat_map ncells hi ++ ncells l ++ L)).
       revert Hs4. apply stores_proper. cbn. solve_Permutation. }
  eexists. split; [reflexivity|]. split_and!.
  - exact Hs4.
  - subst T1. cbn. fold lo hi.
    apply (repl_perm _ (flat_map (pcells (brk T)) hi ++
      (brk T, nullptr) :: (id, par) :: flat_map (pcells id) lo ++ P)); [solve_Permutation|].
    apply (repl_reparent _ id).
    { apply tids_nonnull. apply stores_nonnull in Hs4. cbn in Hs4.
      rewrite Forall_cons_iff, !fmap_app in Hs4.
      cbn in Hs4. rewrite fmap_app, Forall_app, Forall_cons_iff, !Forall_app in Hs4. tauto. }
    apply (repl_perm _ ((brk T, nullptr) :: (id, par) :: flat_map (pcells id) cs ++ P)).
    { rewrite <- Hcs, flat_map_app. fold lo hi. solve_Permutation. }
    apply repl_fresh; [|done]. cbn in Hb |- *. rewrite fmap_app, pcells_list_ids in *. set_solver.
  - subst T1. cbn. fold lo hi.
    apply (repl_perm _ ((brk T, lkey m <$> hi) :: (id, lkey m <$> lo) ::
      flat_map (kcells m) cs ++ K)).
    { rewrite <- Hcs, flat_map_app. fold lo hi. solve_Permutation. }
    apply (repl_update _ _ _ []). rewrite perm_swap. apply (repl_update _ _ _ ks).
    rewrite perm_swap. apply repl_fresh; [|done].
    cbn in Hb |- *. rewrite fmap_app in *. pose proof (kcells_list_ids m cs (brk T)). set_solver.
  - by subst T1.
  - by subst T1.
Qed.
Lemma insert_at_app i p l r : i = length l → insert_at i p (l ++ r) = l ++ p :: r.
Proof. intros ->. unfold insert_at. by rewrite take_app_length, drop_app_length. Qed.

Lemma insert_at_middle i p l e r :
  i = S (length l) → insert_at i p (l ++ e :: r) = l ++ e :: p :: r.
Proof.
  intros ->. change (e :: r) with ([e] ++ r). rewrite app_assoc, insert_at_app.
  - by rewrite <- app_assoc.
  - rewrite length_app. cbn. lia.
Qed.

(** A new root above [l] and [r]. *)
Lemma insert_right_sibling_root m T l r X n :
  stores T (ncells l ++ ncells r) →
  repl (parent T) (pcells nullptr l ++ pcells X r) →
  repl (keys T) (kcells m l ++ kcells m r) → wf l → wf r →
  ∃ T', insert_right_sibling m (S n) T (tid l) (tid r) = Ret T' ∧
    Tree m T' (LNode (brk T) [l; r]) ∧ same_chain T T'.
Proof.
  intros Hs Hp Hk Hl Hr. cbn [insert_right_sibling].
  rewrite (proj2 (Z.eqb_neq (tid l) nullptr)) by (by eapply stores_tid).
  rewrite (fld_sub _ _ (tid l) nullptr (repl_sub _ _ Hp)).
  2: { apply elem_of_app. left. destruct (pcells_head l) as [q ->]. by left. }
  cbn [obind Z.eqb nullptr]. unfold new_internal. rewrite store_internal_ok by (cbn; lia).
  cbn [obind]. pose proof (stores_brk _ _ Hs) as Hb. rewrite fmap_app in Hb.
  change (brk (with_parent T <[tid r := nullptr]>)) with (brk T).
  match goal with |- context [refresh_keys m ?t _] => set (T1 := t) end.
  assert (stores T1 ((brk T, InternalNode (tid <$> [l; r])) :: flat_map ncells [l; r] ++ [])) as Hs1.
  { cbn. rewrite !app_nil_r. apply (stores_new T); [done|cbn|done]. by rewrite insert_insert_eq. }
  assert (Forall ok [l; r]) by (repeat constructor; by apply wf_ok).
  rewrite (refresh_keys_stores m T1 (brk T) [l; r] [] Hs1) by done. cbn [obind].
  eexists. split; [reflexivity|]. split; [|done]. split.
  - cbn [ncells]. rewrite app_nil_r in Hs1. exact Hs1.
  - cbn. rewrite app_nil_r.
    apply (repl_perm _ (pcells (brk T) r ++ (brk T, nullptr) :: pcells (brk T) l));
      [solve_Permutation|].
    apply (repl_pcells _ nullptr).
    apply (repl_perm _ (pcells (brk T) l ++ (brk T, nullptr) :: pcells nullptr r));
      [solve_Permutation|].
    apply (repl_pcells _ nullptr).
    apply (repl_perm _ ((brk T, nullptr) :: pcells nullptr r ++ pcells nullptr l));
      [solve_Permutation|].
    apply repl_fresh; [rewrite fmap_app, !pcells_ids; set_solver|].
    apply (repl_pcells _ X). revert Hp. apply repl_perm. solve_Permutation.
  - cbn. rewrite app_nil_r. rewrite insert_insert_eq. apply repl_fresh; [|done].
    rewrite fmap_app, elem_of_app. intros [?%kcells_ids|?%kcells_ids]; set_solver.
  - done.
  - constructor; [cbn; lia|]. by repeat constructor.
Qed.

(** One level: [r] becomes the right sibling of [l] below the node of [f]. *)
Lemma insert_right_sibling_step m f c T l r ks K X n :
  stores T (ncells l ++ ncells r ++ ctx_ncells (tid l) (f :: c)) →
  repl (parent T) (pcells (fid f) l ++ pcells X r ++ ctx_pcells (f :: c)) →
  repl (keys T) ((fid f, ks) :: kcells m l ++ kcells m r ++
    flat_map (kcells m) (before f) ++ flat_map (kcells m) (after f) ++ K) →
  (length (before f) + length (after f) ≤ 11)%nat →
  let cs := before f ++ l :: r :: after f in Forall wf cs →
  ∃ T', insert_right_sibling m (S n) T (tid l) (tid r) =
      (if 12 <? Z.of_nat (length cs)
       then split_internal m (insert_right_sibling m n) T' (fid f)
       else refresh_ancestors m T' (fid f)) ∧
    stores T' (ncells (LNode (fid f) cs) ++ ctx_ncells (fid f) c) ∧
    repl (parent T') (pcells (ctx_par c) (LNode (fid f) cs) ++ ctx_pcells c) ∧
    repl (keys T') (kcells m (LNode (fid f) cs) ++ K) ∧
    same_chain T T' ∧ root_ T' = root_ T.
Proof.
  intros Hs Hp Hk Hlen cs Hwcs. cbn [insert_right_sibling].
  rewrite (proj2 (Z.eqb_neq (tid l) nullptr)) by (by eapply stores_tid).
  rewrite (fld_sub _ _ (tid l) (fid f) (repl_sub _ _ Hp)).
  2: { apply elem_of_app. left. destruct (pcells_head l) as [q ->]. by left. }
  cbn [obind]. set (T1 := with_parent T _).
  assert (fid f ≠ nullptr) as Hf0.
  { apply stores_nonnull in Hs. rewrite !fmap_app, !Forall_app in Hs. cbn in Hs.
    rewrite Forall_cons_iff in Hs. tauto. }
  rewrite (proj2 (Z.eqb_neq (fid f) nullptr)) by done.
  unfold find_child_index. rewrite (proj2 (Z.eqb_neq (fid f) nullptr)) by done.
  rewrite (proj2 (Z.eqb_neq (tid l) nullptr)) by (by eapply stores_tid). cbn [orb].
  rewrite (load_internal_sub T1 _ (fid f)
    ((tid <$> before f) ++ tid l :: (tid <$> after f)) (repl_sub _ _ (proj1 Hs))).
  2: { rewrite !elem_of_app. right; right. by left. }
  cbn [obind]. rewrite index_of_fresh; cycle 1.
  { destruct Hs as [[_ Hnd] _]. rewrite !fmap_app in Hnd. cbn in Hnd. rewrite !fmap_app in Hnd.
    intros Hin%tids_in. apply NoDup_app in Hnd as (_ & Hd & _). apply (Hd (tid l)); [apply tid_in|].
    set_solver. }
  rewrite insert_at_middle by (by rewrite length_fmap).
  replace ((tid <$> before f) ++ tid l :: tid r :: (tid <$> after f)) with (tid <$> cs)
    by (unfold cs; by rewrite fmap_app).
  assert (length cs = (2 + (length (before f) + length (after f)))%nat) as Hcs.
  { unfold cs. rewrite length_app. cbn. lia. }
  rewrite store_internal_ok by (rewrite length_fmap; lia). cbn [obind].
  set (T2 := with_nodes T1 _).
  assert (stores T2 ((fid f, InternalNode (tid <$> cs)) :: flat_map ncells cs ++
    ctx_ncells (fid f) c)) as Hs2.
  { unfold T2. apply (stores_update _ _ (InternalNode ((tid <$> before f) ++ tid l :: (tid <$> after f)))).
    change (stores T ((fid f, InternalNode ((tid <$> before f) ++ tid l :: (tid <$> after f))) ::
      flat_map ncells cs ++ ctx_ncells (fid f) c)).
    revert Hs. apply stores_proper. unfold cs. rewrite flat_map_app. cbn. solve_Permutation. }
  rewrite (refresh_keys_stores m T2 (fid f) cs (ctx_ncells (fid f) c) Hs2)
    by (by apply Forall_wf_ok).
  cbn [obind]. set (T3 := with_keys T2 _).
  assert (repl (parent T3) ((fid f, ctx_par c) :: flat_map (pcells (fid f)) cs ++ ctx_pcells c)) as Hp3.
  { cbn. apply (repl_perm _ (pcells (fid f) r ++ pcells (fid f) l ++ ctx_pcells (f :: c))).
    { unfold cs. rewrite flat_map_app. cbn. solve_Permutation. }
    apply (repl_pcells _ X). revert Hp. apply repl_perm. solve_Permutation. }
  assert (repl (keys T3) ((fid f, lkey m <$> cs) :: flat_map (kcells m) cs ++ K)) as Hk3.
  { cbn. apply (repl_update _ _ _ ks). revert Hk. apply repl_perm.
    unfold cs. rewrite flat_map_app. cbn. solve_Permutation. }
  rewrite length_fmap. exists T3. split_and!; [done|exact Hs2|exact Hp3|exact Hk3|done|done].
Qed.

Lemma insert_right_sibling_spec m c T l r stale X n :
  stores T (ncells l ++ ncells r ++ ctx_ncells (tid l) c) →
  repl (parent T) (pcells (ctx_par c) l ++ pcells X r ++ ctx_pcells c) →
  repl (keys T) (kcells m l ++ kcells m r ++ stale ++ ctx_ksib m c) → stale.*1 = fid <$> c →
  root_ T = tid (plug l c) → wf l → wf r → ctx_wf c → (length c < n)%nat →
  ∃ T' t', insert_right_sibling m n T (tid l) (tid r) = Ret T' ∧ Tree m T' t' ∧
    leaves t' = ctx_lbefore c ++ (leaves l ++ leaves r) ++ ctx_lafter c ∧ same_chain T T'.
Proof.
  revert T l r stale X n. induction c as [|f c IH];
    intros T l r stale X n Hs Hp Hk Hst Hroot Hl Hr Hc Hn; (destruct n as [|n]; [lia|]).
  { destruct stale; [|done]. cbn in Hs, Hp, Hk. rewrite !app_nil_r in Hs, Hp, Hk.
    destruct (insert_right_sibling_root m T l r X n) as (T' & Hrun & HT & Hch); [done..|].
    exists T', (LNode (brk T) [l; r]). cbn. by rewrite !app_nil_r. }
  destruct stale as [|[i ks] stale]; [done|]. cbn in Hst. injection Hst as -> Hst.
  apply Forall_cons_iff in Hc as [(Hlen & Hwb & Hwa) Hc]. cbn [ctx_par] in Hp.
  set (cs := before f ++ l :: r :: after f).
  assert (Forall wf cs) as Hwcs by (apply Forall_app; split; [done|by repeat constructor]).
  assert (length cs = (2 + (length (before f) + length (after f)))%nat) as Hcs.
  { unfold cs. rewrite length_app. cbn. lia. }
  destruct (insert_right_sibling_step m f c T l r ks (stale ++ ctx_ksib m c) X n)
    as (T1 & -> & Hs1 & Hp1 & Hk1 & Hch1 & Hr1); [done|done| |lia|done|].
  { revert Hk. apply repl_perm. cbn. solve_Permutation. }
  fold cs in Hs1, Hp1, Hk1 |- *. case_test.
  - destruct (split_internal_spec m (insert_right_sibling m n) T1 (fid f) cs
      (ctx_ncells (fid f) c) (ctx_par c) (ctx_pcells c) (lkey m <$> cs) (stale ++ ctx_ksib m c))
      as (Hwl & Hwr & T2 & -> & Hs2 & Hp2 & Hk2 & Hch2 & Hr2); [done..|lia|done| | |].
    { apply stores_brk in Hs1. rewrite !fmap_app, Hst, not_elem_of_app in *.
      pose proof (fids_in c (fid f)). pose proof (ksib_ids m (fid f) c (brk T1)). set_solver. }
    { apply stores_brk in Hs1. rewrite fmap_app, (ctx_pcells_ids c (fid f)) in *. set_solver. }
    edestruct (IH T2 _ _ stale nullptr n Hs2 Hp2) as (T' & t' & Hrun & HT & Hlv & Hch); try done.
    { rewrite Hr2, Hr1, Hroot. cbn. by apply tid_plug. }
    { cbn in Hn. lia. }
    exists T', t'. split_and!; [exact Hrun|done| |].
    + rewrite Hlv. cbn. rewrite <- flat_map_app, take_drop. unfold cs. rewrite flat_map_app. cbn.
      by rewrite <- !app_assoc.
    + by rewrite Hch1, Hch2.
  - destruct (refresh_ancestors_spec m c T1 (LNode (fid f) cs) (kcells m (LNode (fid f) cs) ++ ctx_ksib m c) stale)
      as (ks' & Hrun & Hk'); try done.
    { constructor; [by destruct (before f)|by apply Forall_wf_ok]. } { by apply ctx_wf_ok. }
    { revert Hk1. apply repl_perm. solve_Permutation. }
    eexists _, (plug (LNode (fid f) cs) c). split; [exact Hrun|]. split_and!.
    + split; cbn [nodes parent keys root_ with_keys].
      * rewrite ncells_plug. exact Hs1.
      * rewrite pcells_plug. exact Hp1.
      * rewrite kcells_plug. revert Hk'. apply repl_perm. solve_Permutation.
      * rewrite Hr1, Hroot. cbn. by apply tid_plug.
      * apply wf_plug; [|done]. constructor; [lia|done].
    + rewrite leaves_plug. cbn. unfold cs. rewrite flat_map_app. cbn. by rewrite <- !app_assoc.
    + exact Hch1.
Qed.

(** ** Splitting a leaf *)

Lemma nonnull_id es : Forall (.≠ nullptr) es → nonnull es = es.
Proof.
  unfold nonnull. induction 1 as [|e es He _ IH]; [done|]. by rewrite filter_cons_True, IH.
Qed.

Lemma compact_leaf_id m T leaf es :
  load_leaf T leaf = Ret es → Forall (.≠ nullptr) es → compact_leaf m T leaf = Ret T.
Proof.
  intros Hl Hnn. unfold compact_leaf. rewrite Hl. cbn [obind]. rewrite nonnull_id by done.
  rewrite Nat.ltb_irrefl. by destruct (leaf =? nullptr).
Qed.

(** Leaf ids are node ids. *)
Lemma leaf_ids_in t : (leaves t).*1 ⊆ (ncells t).*1.
Proof.
  intros i Hi. apply list_elem_of_fmap in Hi as ([j es] & -> & Hin%leaves_ncells).
  apply list_elem_of_fmap. by exists (j, LeafNode es).
Qed.

Lemma split_leaf_spec m T id es c stale :
  stores T (ncells (LLeaf id es) ++ ctx_ncells id c) →
  repl (parent T) (pcells (ctx_par c) (LLeaf id es) ++ ctx_pcells c) →
  repl (keys T) (stale ++ ctx_ksib m c) → stale.*1 = fid <$> c →
  root_ T = tid (plug (LLeaf id es) c) → ctx_wf c →
  Chain T (leaves (plug (LLeaf id es) c)).*1 →
  length es = 13%nat → Forall (.≠ nullptr) es →
  ∃ T' t', split_leaf m T id = Ret T' ∧ Tree m T' t' ∧
    leaves t' = ctx_lbefore c ++ [(id, take 6 es); (brk T, drop 6 es)] ++ ctx_lafter c ∧
    Chain T' (leaves t').*1 ∧ size_ T' = size_ T.
Proof.
  intros Hs Hp Hk Hst Hroot Hc Hch Hlen Hnn.
  rewrite leaves_plug in *. rewrite !fmap_app in *. cbn [fmap list_fmap fst leaves app] in *.
  assert (brk T ∉ (ctx_lbefore c).*1 ++ id :: (ctx_lafter c).*1) as Hfresh.
  { apply stores_brk in Hs. rewrite <- ncells_plug in Hs.
    intros Hin. apply Hs, leaf_ids_in. rewrite leaves_plug, !fmap_app. exact Hin. }
  assert (Forall (.≠ nullptr) ((ctx_lbefore c).*1 ++ id :: (ctx_lafter c).*1)) as Hids.
  { rewrite <- (ncells_plug (LLeaf id es)) in Hs. apply stores_nonnull in Hs.
    rewrite Forall_forall in Hs |- *. intros i Hi. apply Hs, leaf_ids_in.
    rewrite leaves_plug, !fmap_app. exact Hi. }
  pose proof (load_leaf_sub T _ id es (repl_sub _ _ (proj1 Hs)) ltac:(by left)) as Hld.
  unfold split_leaf. rewrite (compact_leaf_id m T id es) by done. cbn [obind].
  destruct (new_leaf T) as [T1 b] eqn:Hnew. injection Hnew as HT1 <-.
  assert (stores T1 ((brk T, LeafNode []) :: (id, LeafNode es) :: ctx_ncells id c)) as Hs1.
  { subst T1. by apply (stores_new T). }
  rewrite (load_leaf_sub T1 _ id es (repl_sub _ _ (proj1 Hs1))) by (right; by left).
  cbn [obind]. rewrite Hlen. change (13 / 2)%nat with 6%nat.
  rewrite store_leaf_ok by (rewrite length_drop; lia). cbn [obind]. set (T2 := with_nodes T1 _).
  rewrite store_leaf_ok by (rewrite length_take; lia). cbn [obind]. set (T3 := with_nodes T2 _).
  assert (stores T3 (ncells (LLeaf id (take 6 es)) ++ ncells (LLeaf (brk T) (drop 6 es)) ++
    ctx_ncells id c)) as Hs3.
  { apply (stores_update _ _ (LeafNode es)). cbn [ncells app]. rewrite perm_swap.
    by apply (stores_update _ _ (LeafNode [])). }
  assert (repl (next_ T3) ((brk T, nullptr) ::
    nxcells ((ctx_lbefore c).*1 ++ id :: (ctx_lafter c).*1) nullptr)) as Hnx3.
  { subst T1. apply repl_fresh; [by rewrite nxcells_ids|exact (chain_next _ _ Hch)]. }
  rewrite (fld_sub _ _ id (hd nullptr (ctx_lafter c).*1) (repl_sub _ _ Hnx3)); cycle 1.
  { right. rewrite nxcells_app, elem_of_app. right. by left. }
  cbn [obind]. match goal with |- context [insert_right_sibling m _ ?t] => set (T4 := t) end.
  assert (Chain T4 ((ctx_lbefore c).*1 ++ id :: brk T :: (ctx_lafter c).*1)) as Hch4.
  { rewrite Forall_app, Forall_cons_iff in Hids. apply (chain_insert T); [done|done|tauto|..];
      subst T4 T3 T2 T1; destruct (hd nullptr (ctx_lafter c).*1 =? nullptr); cbn;
      by rewrite ?insert_insert_eq. }
  assert (nodes T4 = nodes T3 ∧ brk T4 = brk T3 ∧ parent T4 = parent T3 ∧ keys T4 = keys T3 ∧
    root_ T4 = root_ T3 ∧ size_ T4 = size_ T3) as (En & Eb & Ep & Ek & Er & Es).
  { unfold T4. by destruct (hd nullptr (ctx_lafter c).*1 =? nullptr). }
  destruct (insert_right_sibling_spec m c T4 (LLeaf id (take 6 es)) (LLeaf (brk T) (drop 6 es))
    stale nullptr (fuel T4)) as (T' & t' & Hrun & HT & Hlv & Hch').
  - unfold stores. rewrite En, Eb. exact Hs3.
  - rewrite Ep. subst T1. cbn.
    apply (repl_perm _ ((brk T, nullptr) :: (id, ctx_par c) :: ctx_pcells c)); [apply perm_swap|].
    apply repl_fresh; [|exact Hp]. apply stores_brk in Hs.
    change (brk T ∉ id :: (ctx_pcells c).*1). by rewrite (ctx_pcells_ids c id).
  - rewrite Ek. by subst T1.
  - done.
  - rewrite Er. subst T1. cbn. rewrite Hroot. by apply tid_plug.
  - constructor; [rewrite length_take; lia|by apply Forall_take].
  - constructor; [rewrite length_drop; lia|by apply Forall_drop].
  - done.
  - unfold fuel. rewrite En, (stores_size T3 _ Hs3), !length_app. pose proof (ctx_length id c). lia.
  - exists T', t'. split_and!; [exact Hrun|done|by rewrite Hlv| |].
    + rewrite Hlv, !fmap_app. destruct Hch' as (Hpv & Hnx & Hh & Ht & _). destruct Hch4.
      split; rewrite ?Hpv, ?Hnx, ?Hh, ?Ht; done.
    + destruct Hch' as (_ & _ & _ & _ & ->). rewrite Es. by subst T1.
Qed.

(** ** Insertion *)

(** The leaf with the new entry, split when it overflows. *)
Lemma insert_in_leaf m T t L1 id e1 e2 L2 e :
  Rep m T t → leaves t = L1 ++ (id, e1 ++ e2) :: L2 → e ≠ nullptr →
  let es := e1 ++ e :: e2 in
  ∃ T' t', (let! t := store_leaf T id es in
    let t := with_size t (size_ t + 1) in
    if k_leaf_capacity <? Z.of_nat (length es) then split_leaf m t id else refresh_ancestors m t id) =
      Ret T' ∧ Rep m T' t' ∧ elems t' = entries_of L1 ++ es ++ entries_of L2.
Proof.
  intros [HT Hch Hsz] Hlv He es. pose proof HT as [Hn Hp Hk Hr Hwf].
  destruct (leaf_ctx t L1 id (e1 ++ e2) L2 Hwf Hlv) as (c & -> & <- & <- & Hc).
  pose proof (wf_plug_inv _ _ Hwf) as Hwl. inversion Hwl as [? ? Hlen Hnn0|]. subst id0 es0.
  assert (Forall (.≠ nullptr) es) as Hnn.
  { apply Forall_app in Hnn0 as [??]. apply Forall_app. split; [done|by constructor]. }
  assert (length es = S (length (e1 ++ e2))) as Hles.
  { unfold es. rewrite !length_app. cbn. lia. }
  assert (elems (plug (LLeaf id (e1 ++ e2)) c) =
    entries_of (ctx_lbefore c) ++ (e1 ++ e2) ++ entries_of (ctx_lafter c)) as Hel.
  { exact (elems_leaves _ _ _ _ _ Hlv). }
  rewrite Hel, !length_app in Hsz. rewrite ncells_plug in Hn. rewrite kcells_plug in Hk.
  rewrite pcells_plug in Hp. rewrite leaves_plug in Hch.
  rewrite store_leaf_ok by lia. cbn [obind]. unfold k_leaf_capacity. case_test.
  - set (T1 := with_size _ _).
    destruct (split_leaf_spec m T1 id es c (ctx_kpath m (lkey m (LLeaf id (e1 ++ e2))) c))
      as (T' & t' & Hrun & HT' & Hlv' & Hch' & Hsz').
    + exact (stores_update _ _ _ (LeafNode es) _ Hn).
    + done.
    + done.
    + apply ctx_kpath_ids.
    + cbn. rewrite Hr. by apply tid_plug.
    + done.
    + rewrite leaves_plug. rewrite !fmap_app in Hch |- *. by destruct Hch.
    + lia.
    + done.
    + assert (elems t' = entries_of (ctx_lbefore c) ++ es ++ entries_of (ctx_lafter c)) as Hel'.
      { unfold elems. rewrite Hlv', !entries_of_app. cbn. by rewrite app_nil_r, take_drop. }
      exists T', t'. split_and!; [done| |done]. split; [done|done|].
      rewrite Hel', Hsz'. cbn. rewrite length_app in Hles. rewrite Hsz, !length_app. lia.
  - destruct (refresh_leaf m m (with_size T (size_ T + 1)) id (e1 ++ e2) es c) as (ks & Hrun & HT').
    { by destruct HT. } { done. } { constructor; [lia|done]. } { done. }
    eexists _, (plug (LLeaf id es) c).
    assert (leaves (plug (LLeaf id es) c) = ctx_lbefore c ++ (id, es) :: ctx_lafter c) as Hlv'
      by apply leaves_plug.
    split_and!.
    + exact Hrun.
    + split; [exact HT'|..].
      * rewrite Hlv', fmap_app. rewrite !fmap_app in Hch. by destruct Hch.
      * rewrite (elems_leaves _ _ _ _ _ Hlv'), !length_app. cbn.
        rewrite length_app in Hles. rewrite Hsz. lia.
    + exact (elems_leaves _ _ _ _ _ Hlv').
Qed.

Lemma insert_empty m T e :
  Empty T → valid_entry m e →
  ∃ T', insert m T e = Ret (T', true) ∧ Index m T' [e].
Proof.
  intros [Hn Hk Hp Hpv Hnx Hb Hr Hh Ht Hs] (He & Hse & Hv).
  assert (used (m !!! e) ≠ 0) as Hu.
  { intros E. unfold valid_range in Hv. by rewrite E in Hv. }
  unfold insert. rewrite Hr, Hv. rewrite (proj2 (Z.eqb_neq e nullptr)), (proj2 (Z.eqb_neq (used _) 0)) by done.
  cbn [orb negb Z.eqb nullptr]. unfold new_leaf. rewrite store_leaf_ok by (cbn; lia). cbn [obind].
  eexists. split; [done|]. split.
  { split; [by apply Forall_singleton|]. by apply SSorted_cons; [apply SSorted_nil|]. }
  right. exists (LLeaf (brk T) [e]).
  rewrite Hn, Hk, Hp, Hpv, Hnx. split; [|done]. split; [split|split|done]; cbn; try done.
  - split_and!; cbn; [|by apply Forall_singleton; lia|lia].
    split; [apply insert_insert_eq|apply NoDup_singleton].
  - split; [done|apply NoDup_singleton].
  - split; [done|apply NoDup_nil_2].
  - constructor; [cbn; lia|by apply Forall_singleton].
  - split; [done|apply NoDup_singleton].
  - split; [done|apply NoDup_singleton].
Qed.

(** [insert] once the place of the entry is known. *)
Lemma insert_at_place m T t L1 id e1 e2 L2 e :
  Rep m T t → valid_entry m e → find_leaf T (addr (m !!! e)) = Ret id → id ≠ nullptr →
  leaves t = L1 ++ (id, e1 ++ e2) :: L2 →
  find_entry_slot m (e1 ++ e2) (addr (m !!! e)) = length e1 →
  insert m T e =
    if hits m e (last_or nullptr (entries_of L1 ++ e1)) ||
       hits m e (hd nullptr (e2 ++ entries_of L2))
    then Ret (T, false) else
    let! t := (let! t := store_leaf T id (e1 ++ e :: e2) in
      let t := with_size t (size_ t + 1) in
      if k_leaf_capacity <? Z.of_nat (length (e1 ++ e :: e2)) then split_leaf m t id
      else refresh_ancestors m t id) in Ret (t, true).
Proof.
  intros HR (He & Hse & Hv) Hrun Hid Hlv Hslot.
  assert (used (m !!! e) ≠ 0) as Hu.
  { intros E. unfold valid_range in Hv. by rewrite E in Hv. }
  assert (root_ T ≠ nullptr) as Hr.
  { destruct (rep_tree _ _ _ HR) as [Hn _ _ -> _]. apply (stores_tid T t []). by rewrite app_nil_r. }
  destruct (rep_leaf_entries m T t HR _ _ _ _ Hlv) as [_ Hnn].
  unfold insert. rewrite Hv, (proj2 (Z.eqb_neq e nullptr)), (proj2 (Z.eqb_neq (used _) 0)),
    (proj2 (Z.eqb_neq (root_ T) nullptr)) by done. cbn [orb negb].
  rewrite Hrun. cbn [obind]. rewrite (proj2 (Z.eqb_neq id nullptr)) by done.
  pose proof (rep_load m T t HR _ _ _ _ Hlv) as Hld.
  rewrite (compact_leaf_id m T id _ Hld Hnn). cbn [obind]. rewrite Hld. cbn [obind]. rewrite Hslot.
  assert ((if (0 <? length e1)%nat then Ret ((e1 ++ e2) !!! (length e1 - 1)%nat)
    else let! pv := fld (prev_ T) id in last_entry T pv) =
    Ret (last_or nullptr (entries_of L1 ++ e1))) as ->.
  { rewrite last_or_app. destruct e1 as [|w e1 _] using rev_ind; cbn [length Nat.ltb Nat.leb].
    - rewrite (rep_prev m T t HR _ _ _ _ Hlv). cbn [obind].
      by rewrite (rep_prev_last m T t HR _ _ _ _ Hlv).
    - rewrite last_or_snoc, length_app, Nat.add_comm. cbn [length Nat.add Nat.ltb Nat.leb].
      rewrite <- app_assoc, Nat.sub_succ, Nat.sub_0_r. cbn [app]. f_equal.
      apply list_lookup_total_correct, list_lookup_middle. done. }
  assert ((if (length e1 <? length (e1 ++ e2))%nat then Ret ((e1 ++ e2) !!! length e1)
    else next_leaf_first T id) = Ret (hd nullptr (e2 ++ entries_of L2))) as ->.
  { rewrite length_app. destruct e2 as [|w e2]; cbn [length].
    - rewrite (proj2 (Nat.ltb_ge _ _)) by lia. by rewrite (rep_next_first m T t HR _ _ _ _ Hlv).
    - rewrite (proj2 (Nat.ltb_lt _ _)) by lia. f_equal.
      apply list_lookup_total_correct, list_lookup_middle. done. }
  cbn [obind]. rewrite (insert_at_app (length e1)) by done. unfold hits.
  destruct (_ || _); [done|]. by destruct (store_leaf T id (e1 ++ e :: e2)).
Qed.

Lemma insert_spec m T l e :
  Index m T l → e ≠ nullptr → sized (m !!! e) →
  ∃ T' b, insert m T e = Ret (T', b) ∧
    if b then valid_range (m !!! e) = true ∧ (∀ p, p ∈ l → hits m e p = false) ∧
         ∃ A B, l = A ++ B ∧ Index m T' (A ++ e :: B)
    else T' = T ∧ (valid_range (m !!! e) = false ∨ ∃ p, p ∈ l ∧ hits m e p = true).
Proof.
  intros HI He Hse. destruct (valid_range (m !!! e)) eqn:Hv; cycle 1.
  { exists T, false. split; [|by eauto]. unfold insert. by rewrite Hv, !orb_true_r. }
  assert (valid_entry m e) as Hve by done.
  destruct HI as [Ho [[-> HE]|(t & HR & <-)]].
  { destruct (insert_empty m T e HE Hve) as (T' & -> & HI). exists T', true. split; [done|].
    split_and!; [done|by intros ? ?%elem_of_nil|]. by exists [], []. }
  destruct (key_place m T t (addr (m !!! e)) HR Ho)
    as (L1 & id & e1 & e2 & L2 & Hrun & Hid & Hlv & Hslot & Hlo & Hhi).
  pose proof (elems_leaves _ _ _ _ _ Hlv) as Hel. rewrite <- app_assoc, app_assoc in Hel.
  rewrite Hel in Ho |- *. set (A := entries_of L1 ++ e1) in *. set (B := e2 ++ entries_of L2) in *.
  pose proof Ho as (HoA & HoB & _)%ordered_app.
  pose proof (hits_last m e A HoA Hve Hlo) as HlA. pose proof (hits_first m e B HoB Hve Hhi) as HlB.
  rewrite (insert_at_place m T t L1 id e1 e2 L2 e) by done. fold A B.
  destruct (hits m e (last_or nullptr A)) eqn:HhA; cbn [orb].
  { destruct HlA as (p & Hp & Hh). exists T, false. split; [done|split; [done|right]].
    exists p. set_solver. }
  destruct (hits m e (hd nullptr B)) eqn:HhB.
  { destruct HlB as (p & Hp & Hh). exists T, false. split; [done|split; [done|right]].
    exists p. set_solver. }
  destruct (insert_in_leaf m T t L1 id e1 e2 L2 e HR Hlv He) as (T' & t' & Hins & HR' & Hel').
  cbv zeta in Hins. rewrite Hins. exists T', true. split; [done|]. split_and!; [done| |].
  - destruct Ho as [Hv' _]. rewrite Forall_forall in Hv'. apply valid_entry_end in Hve.
    intros p Hp. apply not_true_iff_false. rewrite hits_spec by (by apply Hv').
    apply elem_of_app in Hp as [Hp|Hp]; [specialize (HlA p Hp)|specialize (HlB p Hp)];
      unfold below in *; lia.
  - exists A, B. split; [done|]. split; [by apply ordered_insert|].
    right. exists t'. split; [done|]. rewrite Hel'. unfold A, B. by rewrite <- !app_assoc.
Qed.

End MapleInsert.
