(* ===== verification/MapleErase.v ===== *)
(** * Removing an area from the VMA index

    [remove_child] takes an emptied leaf out of the path above it: a node left
    with one child is replaced by that child, and the root by its only child. *)
From S2P Require Import Prelude VmArea AreaIndex MapleTree MapleSpec MapleRep MapleQuery MapleInsert.
Import VmArea AreaIndex VmaMapleTree MapleSpec MapleRep MapleQuery MapleInsert.

Module MapleErase.

(** Keys that are current are left as they are. *)
Lemma with_keys_id T i ks : keys T !! i = Some ks → with_keys T (<[i := ks]>) = T.
Proof. intros H. destruct T. unfold with_keys. cbn in *. by rewrite insert_id. Qed.

(** A root with several children stays the root. *)
Lemma compress_root_wf m T t L K n :
  stores T (ncells t ++ L) → repl (keys T) (kcells m t ++ K) → root_ T = tid t → wf t →
  compress_root_loop m (S n) T = Ret T.
Proof.
  intros Hs Hk Hr Hwf. cbn [compress_root_loop]. rewrite Hr.
  rewrite (proj2 (Z.eqb_neq (tid t) nullptr)) by (by eapply stores_tid).
  destruct t as [id es|id cs]; cbn [tid].
  - by rewrite (load_node_sub T _ id (LeafNode es) (repl_sub _ _ (proj1 Hs))) by (by left).
  - rewrite (load_node_sub T _ id (InternalNode (tid <$> cs)) (repl_sub _ _ (proj1 Hs)))
      by (by left). cbn [obind]. inversion_clear Hwf. rewrite length_fmap.
    destruct (Nat.eqb_spec (length cs) 1); [lia|]. cbn [negb].
    rewrite (refresh_keys_stores m T id cs L Hs) by (by apply Forall_wf_ok).
    f_equal. apply with_keys_id. apply (repl_sub _ _ Hk). by left.
Qed.

(** What [remove_child] establishes: the tree [t] is represented, and the
    emptied leaf [id] is still allocated. *)
Record Detached (m : store) (T : VmaMapleTree) (id : ptr) (t : ltree) : Prop := {
  det_nodes : stores T ((id, LeafNode []) :: ncells t);
  det_parent : ∃ par, repl (parent T) ((id, par) :: pcells nullptr t);
  det_keys : repl (keys T) (kcells m t);
  det_root : root_ T = tid t;
  det_wf : wf t
}.

(** An internal node is not in the leaf list. *)
Definition unlinked (T : VmaMapleTree) (i : ptr) : Prop :=
  prev_ T !! i = None ∧ next_ T !! i = None.

(** The first step: the leaf leaves the children of the node above it. *)
Lemma remove_child_step m f c T id ks K n :
  stores T ((id, LeafNode []) :: ctx_ncells id (f :: c)) →
  repl (parent T) ((id, fid f) :: ctx_pcells (f :: c)) →
  repl (keys T) ((fid f, ks) :: flat_map (kcells m) (before f) ++ flat_map (kcells m) (after f) ++ K) →
  let cs := before f ++ after f in cs ≠ [] → (length cs ≤ 12)%nat → Forall wf cs →
  ∃ T', remove_child m (S n) T id =
      (if fid f =? root_ T' then compress_root m T'
       else if (length cs =? 1)%nat then splice_only_child m T' (fid f) ((tid <$> cs) !!! O)
       else refresh_ancestors m T' (fid f)) ∧
    stores T' ((id, LeafNode []) :: ncells (LNode (fid f) cs) ++ ctx_ncells (fid f) c) ∧
    repl (parent T') ((id, fid f) :: pcells (ctx_par c) (LNode (fid f) cs) ++ ctx_pcells c) ∧
    repl (keys T') (kcells m (LNode (fid f) cs) ++ K) ∧
    same_chain T T' ∧ root_ T' = root_ T.
Proof.
  intros Hs Hp Hk cs Hne Hlen Hwf. pose proof (stores_nonnull _ _ Hs) as Hnn.
  cbn in Hnn. rewrite !Forall_cons_iff in Hnn. destruct Hnn as (Hid & Hf & _).
  cbn [remove_child]. rewrite (proj2 (Z.eqb_neq id nullptr)) by done.
  rewrite (fld_sub _ _ id (fid f) (repl_sub _ _ Hp)) by (by left). cbn [obind].
  rewrite (proj2 (Z.eqb_neq (fid f) nullptr)) by done. unfold find_child_index.
  rewrite (proj2 (Z.eqb_neq (fid f) nullptr)), (proj2 (Z.eqb_neq id nullptr)) by done. cbn [orb].
  rewrite (load_internal_sub T _ (fid f) ((tid <$> before f) ++ id :: (tid <$> after f))
    (repl_sub _ _ (proj1 Hs))) by (right; by left). cbn [obind].
  rewrite index_of_fresh; cycle 1.
  { destruct Hs as [[_ Hnd] _]. cbn in Hnd. apply NoDup_cons in Hnd as [Hnd _].
    rewrite !fmap_app in Hnd. intros Hin%tids_in. set_solver. }
  replace (length (before f)) with (length (tid <$> before f)) by (by rewrite length_fmap).
  rewrite remove_at_middle, <- fmap_app. fold cs.
  rewrite store_internal_ok by (rewrite length_fmap; lia). cbn [obind]. set (T1 := with_nodes T _).
  assert (stores T1 ((fid f, InternalNode (tid <$> cs)) :: flat_map ncells cs ++
    (id, LeafNode []) :: ctx_ncells (fid f) c)) as Hs1.
  { apply (stores_update _ _ (InternalNode ((tid <$> before f) ++ id :: (tid <$> after f)))).
    revert Hs. apply stores_proper. unfold cs. cbn. rewrite flat_map_app. solve_Permutation. }
  rewrite (refresh_keys_stores m T1 (fid f) cs _ Hs1) by (by apply Forall_wf_ok). cbn [obind].
  rewrite length_fmap. destruct (Nat.eqb_spec (length cs) 0) as [E|_].
  { by apply nil_length_inv in E. }
  eexists. split; [reflexivity|]. split_and!; [..|done|done].
  - apply (stores_move T1 _ _ _ Hs1); [done|done|]. cbn. solve_Permutation.
  - cbn. revert Hp. apply repl_perm. unfold cs. cbn. rewrite flat_map_app. solve_Permutation.
  - cbn. apply (repl_update _ _ _ ks). revert Hk. apply repl_perm. unfold cs.
    rewrite flat_map_app. solve_Permutation.
Qed.

(** Refreshing the keys above a subtree completes the removal. *)
Lemma refresh_detached m T id t c par stale :
  stores T ((id, LeafNode []) :: ncells t ++ ctx_ncells (tid t) c) →
  repl (parent T) ((id, par) :: pcells (ctx_par c) t ++ ctx_pcells c) →
  repl (keys T) (kcells m t ++ stale ++ ctx_ksib m c) → stale.*1 = fid <$> c →
  root_ T = tid (plug t c) → wf t → ctx_wf c →
  ∃ T', refresh_ancestors m T (tid t) = Ret T' ∧ Detached m T' id (plug t c) ∧ same_chain T T'.
Proof.
  intros Hs Hp Hk Hst Hr Hwf Hc.
  destruct (refresh_ancestors_frame m c T t [(id, LeafNode [])] [(id, par)]
    (kcells m t ++ ctx_ksib m c) stale) as (ks & Hrun & Hks).
  { revert Hs. apply stores_proper. solve_Permutation. }
  { revert Hp. apply repl_perm. solve_Permutation. }
  { by apply wf_ok. } { by apply ctx_wf_ok. }
  { revert Hk. apply repl_perm. solve_Permutation. } { done. }
  eexists. split; [exact Hrun|]. split; [|done]. split.
  - by rewrite ncells_plug.
  - exists par. by rewrite pcells_plug.
  - rewrite kcells_plug. revert Hks. apply repl_perm. solve_Permutation.
  - done.
  - by apply wf_plug.
Qed.

(** The root replaced by its only child. *)
Lemma compress_root_only m T id q par t ks :
  stores T ((id, LeafNode []) :: ncells (LNode q [t])) →
  repl (parent T) ((id, par) :: pcells nullptr (LNode q [t])) →
  repl (keys T) ((q, ks) :: kcells m t) → root_ T = q → wf t → unlinked T q →
  ∃ T', compress_root m T = Ret T' ∧ Detached m T' id t ∧ same_chain T T'.
Proof.
  intros Hs Hp Hk Hr Hwf [Hupv Hunx]. cbn in Hs, Hp. rewrite app_nil_r in Hs, Hp.
  pose proof (stores_nonnull _ _ Hs) as Hnn. cbn in Hnn. rewrite !Forall_cons_iff in Hnn.
  destruct Hnn as (_ & Hq & Hnt).
  assert (tid t ≠ nullptr) as Ht by (rewrite Forall_forall in Hnt; apply Hnt, tid_in).
  assert (fuel T = S (S (S (length (ncells t))))) as Hfuel.
  { unfold fuel. by rewrite (stores_size T _ Hs). }
  unfold compress_root. rewrite Hfuel. set (n := length (ncells t)).
  remember (S (S n)) as n1. cbn [compress_root_loop]. subst n1. rewrite Hr. rewrite (proj2 (Z.eqb_neq q nullptr)) by done.
  rewrite (load_node_sub T _ q (InternalNode [tid t]) (repl_sub _ _ (proj1 Hs)))
    by (right; by left). cbn [obind length Nat.eqb negb lookup_total list_lookup_total root_ with_root].
  rewrite (proj2 (Z.eqb_neq (tid t) nullptr)) by done. cbn [with_parent].
  match goal with |- context [delete_node ?t _] => set (T1 := t) end.
  assert (stores T1 ((q, InternalNode [tid t]) :: (id, LeafNode []) :: ncells t)) as Hs1.
  { apply (stores_move T _ _ _ Hs); [done|done|]. apply perm_swap. }
  destruct (stores_delete T1 q _ _ Hs1)
    as (T2 & -> & Hs2 & Ek & Ep & Epv & Enx & Er & Eh & Et & Esz). cbn [obind].
  assert (repl (keys T2) (kcells m t)) as Hk2.
  { rewrite Ek. by apply repl_delete in Hk. }
  rewrite (compress_root_wf m T2 t [(id, LeafNode [])] []); cycle 1.
  { revert Hs2. apply stores_proper. solve_Permutation. } { by rewrite app_nil_r. }
  { by rewrite Er. } { done. }
  exists T2. split; [done|]. split.
  - split; [done| |done|by rewrite Er|done]. exists par. rewrite Ep.
    apply (repl_delete _ _ _ nullptr). cbn.
    apply (repl_perm _ (pcells nullptr t ++ [(id, par); (q, nullptr)])); [solve_Permutation|].
    apply (repl_pcells _ q). revert Hp. apply repl_perm. solve_Permutation.
  - unfold same_chain. rewrite Epv, Enx, Eh, Et, Esz. cbn. by rewrite !delete_id.
Qed.

Lemma plug_root t c : c ≠ [] → tid (plug t c) ∈ fid <$> c.
Proof.
  revert t. induction c as [|f c IH]; intros t H; [done|]. cbn.
  destruct c as [|g c]; [by left|]. right. by apply IH.
Qed.

(** The end of [remove_child] at a node that keeps several children. *)
Lemma finish_detached m T id t c par stale :
  stores T ((id, LeafNode []) :: ncells t ++ ctx_ncells (tid t) c) →
  repl (parent T) ((id, par) :: pcells (ctx_par c) t ++ ctx_pcells c) →
  repl (keys T) (kcells m t ++ stale ++ ctx_ksib m c) → stale.*1 = fid <$> c →
  root_ T = tid (plug t c) → wf t → ctx_wf c →
  ∃ T', (if tid t =? root_ T then compress_root m T else refresh_ancestors m T (tid t)) = Ret T' ∧
    Detached m T' id (plug t c) ∧ same_chain T T'.
Proof.
  intros Hs Hp Hk Hst Hr Hwf Hc. destruct (Z.eqb_spec (tid t) (root_ T)) as [E|_];
    [|by eapply refresh_detached].
  destruct c as [|g c].
  - destruct stale; [|done]. cbn in Hs, Hp, Hk. rewrite app_nil_r in Hs, Hp, Hk.
    exists T. split; [|by split; [split; eauto|done]].
    apply (compress_root_wf m T t [(id, LeafNode [])] []); [|by rewrite app_nil_r|done|done].
    revert Hs. apply stores_proper. solve_Permutation.
  - destruct Hs as [[_ Hnd] _]. cbn [fmap list_fmap fst] in Hnd. apply NoDup_cons in Hnd as [_ Hnd].
    rewrite fmap_app in Hnd. apply NoDup_app in Hnd as (_ & Hd & _).
    destruct (Hd (tid t)); [apply tid_in|]. apply fids_in. rewrite E, Hr. by apply plug_root.
Qed.

(** An internal node with one child replaced by that child. *)
Lemma splice_spec m T id q par t g c ks stale :
  stores T ((id, LeafNode []) :: ncells (LNode q [t]) ++ ctx_ncells q (g :: c)) →
  repl (parent T) ((id, par) :: pcells (fid g) (LNode q [t]) ++ ctx_pcells (g :: c)) →
  repl (keys T) ((q, ks) :: kcells m t ++ stale ++ ctx_ksib m (g :: c)) →
  stale.*1 = fid <$> g :: c → root_ T = tid (plug t (g :: c)) →
  wf t → ctx_wf (g :: c) → unlinked T q →
  ∃ T', splice_only_child m T q (tid t) = Ret T' ∧ Detached m T' id (plug t (g :: c)) ∧
    same_chain T T'.
Proof.
  intros Hs Hp Hk Hst Hr Hwf Hc [Hupv Hunx].
  destruct stale as [|[i gks] stale]; [done|]. cbn in Hst. injection Hst as -> Hst.
  pose proof Hc as Hc0. apply Forall_cons_iff in Hc as [(Hlen & Hb & Ha) Hc].
  set (cs := before g ++ t :: after g).
  assert (Forall wf cs) as Hwcs by (apply Forall_app; split; [done|by constructor]).
  assert (length cs = S (length (before g) + length (after g))) as Hcs.
  { unfold cs. rewrite length_app. cbn. lia. }
  assert (q ≠ nullptr ∧ fid g ≠ nullptr) as [Hq Hg].
  { apply stores_nonnull in Hs. cbn in Hs. rewrite !Forall_cons_iff, !fmap_app in Hs.
    cbn in Hs. rewrite !Forall_app, Forall_cons_iff in Hs. tauto. }
  assert (q ∉ tid <$> before g) as Hqb.
  { destruct Hs as [[_ Hnd] _]. cbn in Hnd. rewrite !NoDup_cons in Hnd.
    destruct Hnd as (_ & Hnd & _). rewrite !fmap_app in Hnd. cbn in Hnd. rewrite !fmap_app in Hnd.
    intros Hin%tids_in. set_solver. }
  unfold splice_only_child.
  rewrite (fld_sub _ _ q (fid g) (repl_sub _ _ Hp)) by (right; by left). cbn [obind].
  unfold find_child_index.
  rewrite (proj2 (Z.eqb_neq (fid g) nullptr)), (proj2 (Z.eqb_neq q nullptr)) by done. cbn [orb].
  rewrite (load_internal_sub T _ (fid g) ((tid <$> before g) ++ q :: (tid <$> after g))
    (repl_sub _ _ (proj1 Hs))); cycle 1.
  { right. apply elem_of_app. right. by left. }
  cbn [obind]. rewrite index_of_fresh by done. rewrite insert_app_r_alt, Nat.sub_diag by done.
  replace ((tid <$> before g) ++ <[O := tid t]> (q :: (tid <$> after g))) with (tid <$> cs)
    by (unfold cs; by rewrite fmap_app).
  rewrite store_internal_ok by (rewrite length_fmap; lia). cbn [obind].
  match goal with |- context [refresh_keys m ?t _] => set (T1 := t) end.
  assert (stores T1 ((fid g, InternalNode (tid <$> cs)) :: flat_map ncells cs ++
    (id, LeafNode []) :: (q, InternalNode [tid t]) :: ctx_ncells (fid g) c)) as Hs1.
  { apply (stores_move (with_nodes T (<[fid g := InternalNode (tid <$> cs)]>)) _
      ((fid g, InternalNode (tid <$> cs)) :: flat_map ncells cs ++
       (id, LeafNode []) :: (q, InternalNode [tid t]) :: ctx_ncells (fid g) c)); [|done..].
    apply (stores_update _ _ (InternalNode ((tid <$> before g) ++ q :: (tid <$> after g)))).
    revert Hs. apply stores_proper. unfold cs. cbn. rewrite flat_map_app. cbn. solve_Permutation. }
  rewrite (refresh_keys_stores m T1 (fid g) cs _ Hs1) by (by apply Forall_wf_ok). cbn [obind].
  set (T2 := with_keys T1 _).
  destruct (stores_delete T2 q (InternalNode [tid t])
    ((id, LeafNode []) :: ncells (LNode (fid g) cs) ++ ctx_ncells (fid g) c))
    as (T3 & -> & Hs3 & Ek & Ep & Epv & Enx & Er & Eh & Et & Esz).
  { apply (stores_move T1 _ _ _ Hs1); [done|done|]. cbn. solve_Permutation. }
  cbn [obind].
  assert (repl (parent T3) ((id, par) :: pcells (ctx_par c) (LNode (fid g) cs) ++ ctx_pcells c)) as Hp3.
  { rewrite Ep. apply (repl_delete _ _ _ (fid g)). cbn.
    apply (repl_perm _ (pcells (fid g) t ++ (id, par) :: (q, fid g) :: ctx_pcells (g :: c))).
    { unfold cs. cbn. rewrite flat_map_app. cbn. solve_Permutation. }
    apply (repl_pcells _ q). revert Hp. apply repl_perm. cbn. solve_Permutation. }
  assert (repl (keys T3) (kcells m (LNode (fid g) cs) ++ stale ++ ctx_ksib m c)) as Hk3.
  { rewrite Ek. apply (repl_delete _ _ _ ks). cbn.
    apply (repl_perm _ ((fid g, lkey m <$> cs) :: (q, ks) :: flat_map (kcells m) cs ++
      stale ++ ctx_ksib m c)); [solve_Permutation|].
    apply (repl_update _ _ _ gks). revert Hk. apply repl_perm. unfold cs.
    cbn. rewrite flat_map_app. cbn. solve_Permutation. }
  assert (same_chain T T3) as Hch.
  { unfold same_chain. rewrite Epv, Enx, Eh, Et, Esz. cbn. by rewrite !delete_id. }
  assert (wf (LNode (fid g) cs)) as Hwg by (constructor; [lia|done]).
  assert (root_ T3 = tid (plug (LNode (fid g) cs) c)) as Hr3 by (by rewrite Er).
  destruct (finish_detached m T3 id (LNode (fid g) cs) c par stale)
    as (T' & Hrun & HD & Hch'); [done..|].
  exists T'. split_and!; [exact Hrun|exact HD|by rewrite Hch].
Qed.

Lemma remove_child_spec m f c T id stale n :
  stores T ((id, LeafNode []) :: ctx_ncells id (f :: c)) →
  repl (parent T) ((id, fid f) :: ctx_pcells (f :: c)) →
  repl (keys T) (stale ++ ctx_ksib m (f :: c)) → stale.*1 = fid <$> f :: c →
  root_ T = tid (plug (LLeaf id []) (f :: c)) → ctx_wf (f :: c) → unlinked T (fid f) →
  ∃ T' t', remove_child m (S n) T id = Ret T' ∧ Detached m T' id t' ∧
    leaves t' = ctx_lbefore (f :: c) ++ ctx_lafter (f :: c) ∧ same_chain T T'.
Proof.
  intros Hs Hp Hk Hst Hr Hc Hu.
  destruct stale as [|[i ks] stale]; [done|]. cbn in Hst. injection Hst as -> Hst.
  apply Forall_cons_iff in Hc as [(Hlen & Hb & Ha) Hc].
  set (cs := before f ++ after f).
  assert (Forall wf cs) as Hwcs by (by apply Forall_app).
  assert (length cs = (length (before f) + length (after f))%nat) as Hcs by apply length_app.
  assert (flat_map leaves cs = flat_map leaves (before f) ++ flat_map leaves (after f)) as Hlcs
    by apply flat_map_app.
  destruct (remove_child_step m f c T id ks (stale ++ ctx_ksib m c) n)
    as (T1 & -> & Hs1 & Hp1 & Hk1 & Hch1 & Hr1); try done.
  { revert Hk. apply repl_perm. cbn. solve_Permutation. }
  { fold cs. intros E. rewrite E in Hcs. cbn in Hcs. lia. } { fold cs. lia. }
  fold cs in Hs1, Hp1, Hk1 |- *. rewrite Hr in Hr1.
  assert (unlinked T1 (fid f)) as Hu1.
  { destruct Hch1 as (E1 & E2 & _). unfold unlinked. by rewrite E1, E2. }
  destruct (Nat.eqb_spec (length cs) 1) as [E|E].
  - destruct cs as [|t [|]] eqn:Ecs; [done| |done]. apply Forall_inv in Hwcs as Hwt.
    cbn in Hlcs. rewrite app_nil_r in Hlcs. destruct c as [|g c].
    + cbn in Hr1. rewrite Hr1, Z.eqb_refl. destruct stale; [|done].
      cbn [ctx_ncells ctx_pcells ctx_ksib ctx_par] in Hs1, Hp1, Hk1. rewrite app_nil_r in Hs1, Hp1, Hk1.
      destruct (compress_root_only m T1 id (fid f) (fid f) t [lkey m t])
        as (T' & Hrun & HD & Hch); try done.
      { cbn in Hk1. rewrite !app_nil_r in Hk1. exact Hk1. }
      exists T', t. split_and!; [done|done| |by rewrite Hch1]. cbn. by rewrite app_nil_r.
    + rewrite (proj2 (Z.eqb_neq (fid f) (root_ T1))); cycle 1.
      { rewrite Hr1. intros Ef. destruct Hs1 as [[_ Hnd] _]. cbn [fmap list_fmap fst] in Hnd.
        rewrite fmap_app in Hnd. apply NoDup_cons in Hnd as [_ Hnd].
        apply NoDup_app in Hnd as (_ & Hd & _).
        destruct (Hd (fid f)); [by left|]. apply fids_in. rewrite Ef. by apply (plug_root _ (g :: c)). }
      destruct (splice_spec m T1 id (fid f) (fid f) t g c [lkey m t] stale)
        as (T' & Hrun & HD & Hch); try done.
      { cbn in Hk1. rewrite app_nil_r in Hk1. exact Hk1. }
      { rewrite Hr1. cbn. by apply tid_plug. }
      exists T', (plug t (g :: c)). split_and!; [done|done| |by rewrite Hch1].
      rewrite leaves_plug. cbn. rewrite Hlcs. by rewrite <- !app_assoc.
  - destruct (finish_detached m T1 id (LNode (fid f) cs) c (fid f) stale)
      as (T' & Hrun & HD & Hch); try done.
    { rewrite Hr1. cbn. by apply tid_plug. } { constructor; [lia|done]. }
    exists T', (plug (LNode (fid f) cs) c). split_and!; [exact Hrun|done| |by rewrite Hch1].
    rewrite leaves_plug. cbn. rewrite Hlcs. by rewrite <- !app_assoc.
Qed.

(** ** Emptying a leaf *)

Lemma unlink_leaf_spec T id pv nx :
  fld (prev_ T) id = Ret pv → fld (next_ T) id = Ret nx →
  ∃ T', unlink_leaf T id = Ret T' ∧
    nodes T' = nodes T ∧ keys T' = keys T ∧ parent T' = parent T ∧ brk T' = brk T ∧
    root_ T' = root_ T ∧ size_ T' = size_ T ∧
    next_ T' = (if pv =? nullptr then next_ T else <[pv := nx]> (next_ T)) ∧
    prev_ T' = (if nx =? nullptr then prev_ T else <[nx := pv]> (prev_ T)) ∧
    head_ T' = (if pv =? nullptr then nx else head_ T) ∧
    tail_ T' = (if nx =? nullptr then pv else tail_ T).
Proof.
  intros Hp Hn. unfold unlink_leaf. rewrite Hp, Hn. cbn [obind].
  eexists. split; [done|]. by destruct (pv =? nullptr), (nx =? nullptr).
Qed.

(** The nodes on the path to a leaf are not in the leaf list. *)
Lemma fid_not_leaf T t f c :
  stores T (ncells (plug t (f :: c))) → fid f ∉ (leaves (plug t (f :: c))).*1.
Proof.
  intros [Hr _] Hin. apply list_elem_of_fmap in Hin as ([i es] & E & Hin%leaves_ncells).
  cbn [fst] in E. subst i. rewrite ncells_plug in Hr.
  pose proof (repl_sub _ _ Hr) as Hs. rewrite <- ncells_plug in Hr.
  pose proof (repl_sub _ _ Hr (fid f) _ Hin) as E1. apply sub_app in Hs as [_ Hs].
  cbn in Hs. apply sub_cons in Hs as [E2 _]. congruence.
Qed.

Lemma repl_none {A} (f : gmap ptr A) l i : repl f l → i ∉ l.*1 → f !! i = None.
Proof. intros [-> _]. apply not_elem_of_list_to_map_1. Qed.

Lemma unlinked_after_unlink T T1 pre x post i :
  Chain T (pre ++ x :: post) → i ∉ pre ++ x :: post →
  next_ T1 = (if last_or nullptr pre =? nullptr then next_ T
    else <[last_or nullptr pre := hd nullptr post]> (next_ T)) →
  prev_ T1 = (if hd nullptr post =? nullptr then prev_ T
    else <[hd nullptr post := last_or nullptr pre]> (prev_ T)) →
  unlinked T1 i.
Proof.
  intros [Hn Hp _ _] Hi En Ep.
  assert (next_ T !! i = None) by (apply (repl_none _ _ _ Hn); by rewrite nxcells_ids).
  assert (prev_ T !! i = None) by (apply (repl_none _ _ _ Hp); by rewrite pvcells_ids).
  apply not_elem_of_app in Hi as [H1 [_ H2]%not_elem_of_cons].
  unfold unlinked. rewrite En, Ep. split.
  - destruct post as [|z post]; cbn; [done|]. apply not_elem_of_cons in H2 as [H2 _].
    case_test; [done|]. by rewrite lookup_insert_ne.
  - destruct pre as [|w pre _] using rev_ind; cbn; [done|]. rewrite last_or_snoc.
    rewrite not_elem_of_app, not_elem_of_cons in H1. destruct H1 as (_ & H1 & _).
    case_test; [done|]. by rewrite lookup_insert_ne.
Qed.

(** A leaf of a larger tree that lost its last entry. *)
Lemma erase_leaf_inner m m' T id e f c :
  Rep m T (plug (LLeaf id [e]) (f :: c)) → ctx_wf (f :: c) →
  agree m m' (entries_of (ctx_lbefore (f :: c) ++ ctx_lafter (f :: c))) →
  ∃ T' t', (let! T1 := unlink_leaf (with_size (with_nodes T (<[id := LeafNode []]>)) (size_ T - 1)) id in
      let! T2 := remove_child m' (fuel T1) T1 id in delete_node T2 id) = Ret T' ∧
    Rep m' T' t' ∧ leaves t' = ctx_lbefore (f :: c) ++ ctx_lafter (f :: c).
Proof.
  intros HR Hc Hag. pose proof HR as [HT Hch Hsz]. destruct HT as [Hn Hp Hk Hr Hwf].
  pose proof (fid_not_leaf T _ f c Hn) as Hfl.
  pose proof (leaves_plug (LLeaf id [e]) (f :: c)) as Hlv. cbn [leaves] in Hlv.
  rewrite (elems_leaves _ _ _ _ _ Hlv), !length_app in Hsz.
  rewrite Hlv, fmap_app in Hch, Hfl. cbn [fmap list_fmap fst] in Hch, Hfl.
  set (L1 := ctx_lbefore (f :: c)) in *. set (L2 := ctx_lafter (f :: c)) in *.
  assert (Forall (.≠ nullptr) (L1.*1 ++ L2.*1)) as Hnn.
  { apply stores_nonnull in Hn. rewrite Forall_forall in Hn |- *. intros i Hi.
    apply Hn, leaf_ids_in. rewrite Hlv, fmap_app. cbn.
    rewrite elem_of_app, elem_of_cons. apply elem_of_app in Hi as [?|?]; auto. }
  rewrite ncells_plug in Hn. rewrite pcells_plug in Hp. rewrite kcells_plug in Hk.
  set (T0 := with_size _ _).
  destruct (unlink_leaf_spec T0 id (last_or nullptr L1.*1) (hd nullptr L2.*1))
    as (T1 & -> & En & Ek & Ep & Eb & Er & Es & Enx & Epv & Eh & Et).
  { exact (rep_prev m T _ HR L1 L2 id [e] Hlv). } { exact (rep_next m T _ HR L1 L2 id [e] Hlv). }
  cbn [obind].
  destruct (remove_child_spec m' f c T1 id (ctx_kpath m (lkey m (LLeaf id [e])) (f :: c)) (size (nodes T1)))
    as (T2 & t' & Hrun & HD & Hlv' & Hch').
  - apply (stores_move T0 _ ((id, LeafNode []) :: ctx_ncells id (f :: c))); [|done..].
    exact (stores_update _ _ _ (LeafNode []) _ Hn).
  - rewrite Ep. exact Hp.
  - rewrite Ek, <- (ctx_ksib_agree m m' (f :: c) (ctx_wf_ok _ Hc) Hag). exact Hk.
  - apply ctx_kpath_ids.
  - rewrite Er. change (root_ T0) with (root_ T). rewrite Hr. by apply (tid_plug _ _ (f :: c)).
  - done.
  - by apply (unlinked_after_unlink T T1 L1.*1 id L2.*1).
  - unfold fuel. rewrite Hrun. cbn [obind].
    destruct HD as [Hs2 [par Hp2] Hk2 Hr2 Hwf2].
    destruct (stores_delete T2 id _ _ Hs2)
      as (T3 & -> & Hs3 & Ek3 & Ep3 & Epv3 & Enx3 & Er3 & Eh3 & Et3 & Es3).
    destruct Hch' as (Cpv & Cnx & Ch & Ct & Cs).
    exists T3, t'. split_and!; [done| |done]. split.
    + split; [done| | |by rewrite Er3|done].
      * rewrite Ep3. by apply repl_delete in Hp2.
      * rewrite Ek3. apply repl_delete_none; [|done]. intros Hin%kcells_ids.
        destruct Hs2 as [[_ Hnd] _]. cbn in Hnd. by apply NoDup_cons in Hnd as [? _].
    + rewrite Hlv', fmap_app. apply (chain_remove T T3 _ id); [done|done|..].
      * rewrite Enx3, Cnx, Enx. done.
      * rewrite Epv3, Cpv, Epv. done.
      * rewrite Eh3, Ch, Eh. done.
      * rewrite Et3, Ct, Et. done.
    + unfold elems. rewrite Hlv', entries_of_app, length_app, Es3, Cs, Es. cbn in *. lia.
Qed.

(** The last leaf of the tree. *)
Lemma erase_leaf_root m m' T id e :
  Rep m T (LLeaf id [e]) →
  ∃ T', (let! T1 := unlink_leaf (with_size (with_nodes T (<[id := LeafNode []]>)) (size_ T - 1)) id in
      let! T2 := remove_child m' (fuel T1) T1 id in delete_node T2 id) = Ret T' ∧ Empty T'.
Proof.
  intros HR. pose proof HR as [HT [Hcn Hcp _ _] Hsz]. destruct HT as [Hn Hp Hk Hr Hwf].
  set (T0 := with_size _ _).
  destruct (unlink_leaf_spec T0 id nullptr nullptr)
    as (T1 & -> & En & Ek & Ep & Eb & Er & Es & Enx & Epv & Eh & Et).
  { exact (rep_prev m T _ HR [] [] id [e] eq_refl). } { exact (rep_next m T _ HR [] [] id [e] eq_refl). }
  cbn in En, Ek, Ep, Eb, Er, Es, Enx, Epv, Eh, Et. cbn [obind]. unfold fuel. cbn [remove_child].
  assert (id ≠ nullptr) as Hid by (apply (stores_tid T (LLeaf id [e]) []); by rewrite app_nil_r).
  rewrite (proj2 (Z.eqb_neq id nullptr)) by done. rewrite Ep.
  rewrite (fld_sub _ _ id nullptr (repl_sub _ _ Hp)) by (by left). cbn [obind Z.eqb nullptr].
  rewrite Er, Hr. cbn [tid]. rewrite Z.eqb_refl. cbn [obind].
  set (T2 := with_tail _ _).
  assert (stores T2 [(id, LeafNode [])]) as Hs2.
  { apply (stores_move T0 _ [(id, LeafNode [])]); [|done..].
    exact (stores_update _ _ _ (LeafNode []) _ Hn). }
  destruct (stores_delete T2 id _ _ Hs2)
    as (T3 & -> & [[Hs3 _] [_ Hb3]] & Ek3 & Ep3 & Epv3 & Enx3 & Er3 & Eh3 & Et3 & Es3).
  exists T3. split; [done|]. cbn in Ek3, Ep3, Epv3, Enx3, Er3, Eh3, Et3, Es3.
  destruct Hk as [Hk _], Hp as [Hp _], Hcn as [Hcn _], Hcp as [Hcp _]. cbn in Hk, Hp, Hcn, Hcp.
  split; [done| | | | | |done|done|done|rewrite Es3, Es, Hsz; done].
  - by rewrite Ek3, Ek, Hk, delete_empty.
  - by rewrite Ep3, Ep, Hp, delete_insert_id.
  - by rewrite Epv3, Epv, Hcp, delete_insert_id.
  - by rewrite Enx3, Enx, Hcn, delete_insert_id.
  - done.
Qed.

(** Removal of an entry by the start address it was inserted with.  The store
    may have changed at that entry in the meantime. *)
Lemma erase_spec m m' T l A e B :
  Index m T l → l = A ++ e :: B → agree m m' (A ++ B) →
  ∃ T', erase_hint m' T e (addr (m !!! e)) = Ret T' ∧ Index m' T' (A ++ B).
Proof.
  intros [Ho [[-> HE]|(t & HR & <-)]] HAB Hag; [by destruct A|].
  assert (e ∈ elems t) as He by (rewrite HAB; set_solver).
  assert (ordered m (A ++ B)) as HoAB.
  { rewrite HAB in Ho. by apply ordered_remove in Ho. }
  destruct (locate_spec m m' T t e HR Ho He) as (L1 & id & e1 & e2 & L2 & Hrun & Hid & Hlv & Hidx).
  destruct (entry_position m t A e B L1 id e1 e2 L2 Ho HAB Hlv) as [-> ->].
  destruct (rep_leaf_entries m T t HR _ _ _ _ Hlv) as [_ Hnn].
  pose proof (rep_load m T t HR _ _ _ _ Hlv) as Hld. pose proof (rep_tree _ _ _ HR) as HT.
  destruct (leaf_ctx t L1 id _ L2 (tree_wf _ _ _ HT) Hlv) as (c & -> & <- & <- & Hc).
  pose proof (wf_plug_inv _ _ (tree_wf _ _ _ HT)) as Hwl.
  inversion Hwl as [? ? Hlen _|]. subst id0 es. rewrite length_app in Hlen. cbn in Hlen.
  assert (agree m m' (entries_of (ctx_lbefore c ++ ctx_lafter c))) as Hag'.
  { intros p. rewrite entries_of_app, elem_of_app. intros Hp. apply Hag.
    rewrite !elem_of_app. tauto. }
  pose proof (ordered_agree _ _ _ Hag HoAB) as Ho'.
  unfold erase_hint. rewrite (proj2 (Z.eqb_neq e nullptr)), (tree_root _ _ _ HT); cycle 1.
  { rewrite Forall_app, Forall_cons_iff in Hnn. tauto. }
  rewrite (proj2 (Z.eqb_neq (tid _) nullptr)); cycle 1.
  { apply (stores_tid T _ []). rewrite app_nil_r. apply (tree_nodes _ _ _ HT). }
  cbn [orb]. rewrite Hrun. cbn [obind]. rewrite (proj2 (Z.eqb_neq id nullptr)) by done.
  rewrite (compact_leaf_id m' T id _ Hld Hnn). cbn [obind]. rewrite Hld. cbn [obind].
  rewrite Hidx, remove_at_middle. rewrite store_leaf_ok by (rewrite length_app; lia). cbn [obind].
  destruct (Nat.eqb_spec (length (e1 ++ e2)) 0) as [E|E].
  - apply nil_length_inv, app_eq_nil in E as [-> ->]. cbn [app] in *. rewrite app_nil_r in *.
    destruct c as [|f c].
    + destruct (erase_leaf_root m m' T id e HR) as (T' & Hrun' & HE).
      exists T'. split; [exact Hrun'|]. split; [done|left; done].
    + destruct (erase_leaf_inner m m' T id e f c HR Hc Hag') as (T' & t' & Hrun' & HR' & Hlv').
      exists T'. split; [exact Hrun'|]. split; [done|right]. exists t'. split; [done|].
      unfold elems. by rewrite Hlv', entries_of_app.
  - destruct (refresh_leaf m m' (with_size T (size_ T - 1)) id (e1 ++ e :: e2) (e1 ++ e2) c)
      as (ks & Hrun' & HT').
    { by destruct HT. } { done. }
    { rewrite length_app in E. constructor; [rewrite length_app; lia|].
      rewrite Forall_app, Forall_cons_iff in Hnn. apply Forall_app. tauto. } { done. }
    eexists. split; [exact Hrun'|]. split; [done|right].
    exists (plug (LLeaf id (e1 ++ e2)) c).
    pose proof (leaves_plug (LLeaf id (e1 ++ e2)) c) as Hlv'.
    pose proof (elems_leaves _ _ _ _ _ Hlv') as Hel'. split.
    + split; [exact HT'| |].
      * rewrite Hlv'. destruct HR as [_ Hch _]. rewrite Hlv in Hch.
        rewrite !fmap_app in Hch |- *. by destruct Hch.
      * rewrite Hel'. destruct HR as [_ _ Hsz]. rewrite HAB in Hsz. cbn. rewrite Hsz.
        rewrite !length_app. cbn. rewrite !length_app. lia.
    + rewrite Hel'. by rewrite <- !app_assoc.
Qed.

(** An entry that is not in the index is left alone. *)
Lemma erase_absent m m' T l e k :
  Index m T l → e ∉ l → erase_hint m' T e k = Ret T.
Proof.
  intros [Ho [[-> HE]|(t & HR & <-)]] He; unfold erase_hint.
  - rewrite (empty_root _ HE). by rewrite orb_true_r.
  - destruct (_ || _); [done|]. by rewrite (locate_absent m m' T t e k).
Qed.

End MapleErase.
