(* ===== verification/MapleCorrect.v ===== *)
(** * Correctness of the VMA index

    The operations of [VmaMapleTree] on a represented index: traversals,
    conflict and gap search, destruction, and the theorems about the public
    interface. *)
From S2P Require Import Prelude VmArea AreaIndex MapleTree MapleSpec MapleRep MapleQuery MapleInsert MapleErase.
Import VmArea AreaIndex VmaMapleTree MapleSpec MapleRep MapleQuery MapleInsert MapleErase.

Module MapleCorrect.

(** ** Destruction *)

(** [f'] is [f] without the keys [ids]. *)
Definition without {A} (ids : list ptr) (f f' : gmap ptr A) : Prop :=
  ∀ i, f' !! i = if bool_decide (i ∈ ids) then None else f !! i.

Lemma without_nil {A} (f : gmap ptr A) : without [] f f.
Proof. intros i. by rewrite bool_decide_eq_false_2 by apply not_elem_of_nil. Qed.

Lemma without_app {A} ids ids' (f f' f'' : gmap ptr A) :
  without ids f f' → without ids' f' f'' → without (ids ++ ids') f f''.
Proof.
  intros H H' i. rewrite H', H. repeat case_bool_decide; set_solver.
Qed.

Lemma without_delete {A} ids (f f' : gmap ptr A) i :
  without ids f f' → without (i :: ids) f (delete i f').
Proof.
  intros H j. destruct (decide (i = j)) as [->|Hne].
  - rewrite lookup_delete_eq, bool_decide_eq_true_2; [done|by left].
  - rewrite lookup_delete_ne, H by done.
    repeat case_bool_decide; set_solver.
Qed.

Record Cleared (ids : list ptr) (T T' : VmaMapleTree) : Prop := {
  cl_nodes : without ids (nodes T) (nodes T');
  cl_keys : without ids (keys T) (keys T');
  cl_parent : without ids (parent T) (parent T');
  cl_prev : without ids (prev_ T) (prev_ T');
  cl_next : without ids (next_ T) (next_ T');
  cl_brk : brk T' = brk T
}.

Lemma Cleared_nil T : Cleared [] T T.
Proof. split; [apply without_nil..|done]. Qed.

Lemma Cleared_app ids ids' T T' T'' :
  Cleared ids T T' → Cleared ids' T' T'' → Cleared (ids ++ ids') T T''.
Proof. intros [] []. split; [by eapply without_app..|congruence]. Qed.

Lemma delete_node_cleared ids T T' i :
  Cleared ids T T' → is_Some (nodes T' !! i) →
  ∃ T'', delete_node T' i = Ret T'' ∧ Cleared (i :: ids) T T''.
Proof.
  intros [] [n Hn]. unfold delete_node, load_node. rewrite Hn. cbn [obind].
  eexists. split; [done|]. split; [by apply without_delete..|done].
Qed.

Lemma sub_without {A} ids (f f' : gmap ptr A) l :
  sub f l → without ids f f' → (∀ i, i ∈ l.*1 → i ∉ ids) → sub f' l.
Proof.
  intros Hs Hw Hd i x Hx. rewrite Hw, bool_decide_eq_false_2; [by apply Hs|].
  apply Hd, list_elem_of_fmap. by exists (i, x).
Qed.

Lemma destroy_subtree_spec t T n :
  sub (nodes T) (ncells t) → NoDup (ncells t).*1 → Forall (.≠ nullptr) (ncells t).*1 →
  (length (ncells t) ≤ n)%nat →
  ∃ T', destroy_subtree n T (tid t) = Ret T' ∧ Cleared (ncells t).*1 T T'.
Proof.
  revert T n. induction t as [id es|id cs IH] using ltree_rect'; intros T n Hs Hnd Hnn Hn;
    (destruct n as [|n]; [cbn in Hn; lia|]); cbn [ncells fmap list_fmap fst] in *;
    apply sub_cons in Hs as [Hid Hs]; apply Forall_cons_iff in Hnn as [Hid0 Hnn];
    apply NoDup_cons in Hnd as [Hidn Hnd]; cbn [destroy_subtree tid];
    rewrite (proj2 (Z.eqb_neq id nullptr)) by done; unfold load_node; rewrite Hid; cbn [obind].
  { destruct (delete_node_cleared [] T T id) as (T' & Hrun & HC);
      [apply Cleared_nil|by rewrite Hid|by exists T']. }
  assert (∀ T0, sub (nodes T0) (flat_map ncells cs) → NoDup (flat_map ncells cs).*1 →
    Forall (.≠ nullptr) (flat_map ncells cs).*1 → (length (flat_map ncells cs) ≤ n)%nat →
    ∃ T', foldl (λ acc c, let! t := acc in destroy_subtree n t c) (Ret T0) (tid <$> cs) = Ret T' ∧
      Cleared (flat_map ncells cs).*1 T0 T') as Hfold.
  { clear Hid Hidn Hid0 Hs Hnd Hnn Hn.
    induction IH as [|c cs Hc _ IHcs]; intros T0 Hs Hnd Hnn Hn; cbn in *.
    { exists T0. split; [done|apply Cleared_nil]. }
    rewrite length_app in Hn. rewrite fmap_app in Hnd, Hnn. apply sub_app in Hs as [Hs1 Hs2].
    apply Forall_app in Hnn as [Hn1 Hn2]. apply NoDup_app in Hnd as (Hd1 & Hd & Hd2).
    destruct (Hc T0 n) as (T1 & -> & HC1); [done..|lia|].
    destruct (IHcs T1) as (T2 & -> & HC2); [|done|done|lia|].
    { eapply sub_without; [exact Hs2|apply HC1|]. intros i Hi Hi'. by apply (Hd i). }
    exists T2. split; [done|]. rewrite fmap_app. by eapply Cleared_app. }
  destruct (Hfold T Hs Hnd Hnn) as (T1 & -> & HC1); [cbn in Hn; lia|]. cbn [obind].
  destruct (delete_node_cleared _ T T1 id HC1) as (T' & Hrun & HC).
  - rewrite (cl_nodes _ _ _ HC1), bool_decide_eq_false_2, Hid; [eauto|done].
  - by exists T'.
Qed.

Lemma without_all {A} ids (f f' : gmap ptr A) l :
  without ids f f' → repl f l → (∀ i, i ∈ l.*1 → i ∈ ids) → f' = ∅.
Proof.
  intros Hw Hr Hin. apply map_eq. intros i. rewrite Hw, lookup_empty. case_bool_decide; [done|].
  apply (repl_none _ _ _ Hr). auto.
Qed.

Lemma clear_spec m T l : Index m T l → ∃ T', clear T = Ret T' ∧ Empty T'.
Proof.
  intros [_ [[-> HE]|(t & [[Hn Hp Hk Hr _] [Hcn Hcp _ _] _] & _)]]; unfold clear.
  - rewrite (empty_root _ HE). unfold fuel. cbn. eexists. split; [done|]. by destruct HE.
  - pose proof Hn as Hn'. destruct Hn as ([Hnl Hnd] & _ & Hb). rewrite Hr.
    destruct (destroy_subtree_spec t T (fuel T)) as (T' & -> & [C1 C2 C3 C4 C5 C6]).
    { by apply repl_sub. } { done. } { by apply stores_nonnull in Hn'. }
    { unfold fuel. rewrite (stores_size _ _ Hn'). lia. }
    cbn [obind]. eexists. split; [done|]. split; cbn; [..|by rewrite C6|done|done|done|done].
    + by eapply (without_all _ _ _ _ C1).
    + eapply (without_all _ _ _ _ C2); [exact Hk|]. intros i. apply kcells_ids.
    + eapply (without_all _ _ _ _ C3); [exact Hp|]. intros i. by rewrite pcells_ids.
    + eapply (without_all _ _ _ _ C4); [exact Hcp|]. intros i. rewrite pvcells_ids. apply leaf_ids_in.
    + eapply (without_all _ _ _ _ C5); [exact Hcn|]. intros i. rewrite nxcells_ids. apply leaf_ids_in.
Qed.

(** ** Traversals *)

Lemma visit_entries_app {St} (fn : ptr → St → St * bool) l l' s :
  visit_entries fn (l ++ l') s =
    let (s, go) := visit_entries fn l s in if go then visit_entries fn l' s else (s, false).
Proof.
  revert s. induction l as [|e l IH]; intros s; cbn; [done|].
  case_test; [apply IH|]. destruct (fn e s) as [s' [|]]; [apply IH|done].
Qed.

Lemma for_each_loop_spec {St} (fn : ptr → St → St * bool) m T t L1 L2 n s :
  Rep m T t → leaves t = L1 ++ L2 → (length L2 < n)%nat →
  for_each_loop fn n T (hd nullptr L2.*1) s = Ret (visit_entries fn (entries_of L2) s).
Proof.
  intros HR. revert L1 n s. induction L2 as [|[id es] L2 IH]; intros L1 n s Hlv Hn;
    (destruct n as [|n]; [lia|]); [done|]. cbn [for_each_loop hd fmap list_fmap fst].
  rewrite (proj2 (Z.eqb_neq id nullptr)) by (by eapply rep_leaf_nonnull).
  rewrite (rep_load m T t HR _ _ _ _ Hlv). cbn [obind entries_of flat_map snd].
  rewrite visit_entries_app. destruct (visit_entries fn es s) as [s' [|]]; [|done].
  rewrite (rep_next m T t HR _ _ _ _ Hlv). cbn [obind].
  apply (IH (L1 ++ [(id, es)])); [by rewrite <- app_assoc|cbn in Hn; lia].
Qed.

Lemma for_each_spec {St} (fn : ptr → St → St * bool) m T l s :
  Index m T l → for_each fn T s = Ret (visit_entries fn l s).
Proof.
  intros [_ [[-> HE]|(t & HR & <-)]]; unfold for_each.
  - by rewrite (empty_head _ HE).
  - rewrite (chain_head _ _ (rep_chain _ _ _ HR)). apply (for_each_loop_spec fn m T t []); [done..|].
    unfold fuel. rewrite (stores_size T _ (tree_nodes _ _ _ (rep_tree _ _ _ HR))).
    pose proof (leaves_ncells_length t). lia.
Qed.

Lemma index_size m T l : Index m T l → size_ T = Z.of_nat (length l).
Proof. intros [_ [[-> HE]|(t & HR & <-)]]; [by apply empty_size|by apply rep_size in HR]. Qed.

Lemma for_each_in_range_loop_spec {St} (fn : ptr → St → St * bool) m T l A B start end_ n s :
  Index m T l → l = A ++ B → (length B < n)%nat →
  for_each_in_range_loop m fn n T (hd nullptr B) start end_ s =
    Ret (visit_entries fn (in_range m start end_ B) s).
Proof.
  intros HI. revert A n s. induction B as [|p B IH]; intros A n s HAB Hn;
    (destruct n as [|n]; [lia|]); [done|]. cbn [for_each_in_range_loop hd].
  pose proof HI as [Ho _]. rewrite HAB in Ho. pose proof Ho as (_ & HoB & _)%ordered_app.
  pose proof (proj1 HoB) as Hv. apply Forall_cons_iff in Hv as [Hp _].
  rewrite (proj2 (Z.eqb_neq p nullptr)) by apply Hp. cbn [negb andb].
  unfold in_range. rewrite filter_cons. fold (in_range m start end_ B).
  destruct (next_prev_spec m T l A p B HI HAB) as [-> _]. cbn [obind].
  assert (∀ s, for_each_in_range_loop m fn n T (hd nullptr B) start end_ s =
    Ret (visit_entries fn (in_range m start end_ B) s)) as IHB.
  { intros s'. apply (IH (A ++ [p])); [by rewrite <- app_assoc|cbn in Hn; lia]. }
  case_test.
  - destruct (decide (overlaps (m !!! p) start end_ = true)) as [E|E].
    + rewrite E. cbn [visit_entries]. rewrite (proj2 (Z.eqb_neq p nullptr)) by apply Hp.
      destruct (fn p s) as [s' [|]]; [apply IHB|done].
    + apply not_true_is_false in E. rewrite E. apply IHB.
  - assert (in_range m start end_ (p :: B) = []) as E.
    { unfold in_range. apply elem_of_nil_inv. intros q [Hq Hin]%list_elem_of_filter.
      apply (ordered_from m (p :: B) end_ Z.le HoB) in Hin; [|lia|by intros ? [= <-]].
      destruct HoB as [Hv _]. unfold overlaps in Hq. apply andb_true_iff in Hq as [_ Hq]. lia. }
    unfold in_range in E. rewrite filter_cons in E. fold (in_range m start end_ B) in E. by rewrite E.
Qed.

(** Where a traversal of a range starts: what lies before does not meet it. *)
Lemma range_start m T l start end_ :
  Index m T l → start < end_ →
  ∃ A B, l = A ++ B ∧ in_range m start end_ A = [] ∧
    (let! entry := find m T start in
     if entry =? nullptr then lower_bound m T start else Ret entry) = Ret (hd nullptr B).
Proof.
  intros HI Hlt. pose proof HI as [Ho _]. pose proof Ho as [Hv _]. rewrite Forall_forall in Hv.
  assert (∀ A, A ⊆ l → (∀ p, p ∈ A → end_addr (m !!! p) ≤ start) → in_range m start end_ A = []) as Hnil.
  { intros A HA Hend. apply elem_of_nil_inv. intros q [Hq Hin]%list_elem_of_filter.
    specialize (Hend q Hin). rewrite overlaps_spec in Hq by (apply Hv; auto). lia. }
  destruct (find_spec m T l start HI) as (p & -> & [[Hp Hc]|[-> Hnone]]); cbn [obind].
  - rewrite (proj2 (Z.eqb_neq p nullptr)) by (by apply Hv).
    apply list_elem_of_split in Hp as (A & B & ->). exists A, (p :: B). split_and!; [done| |done].
    apply Hnil; [set_solver|]. intros q Hq. apply ordered_app in Ho as (_ & _ & Hb).
    specialize (Hb q p Hq ltac:(by left)). unfold below in Hb.
    rewrite covers_spec in Hc by (apply Hv; set_solver). lia.
  - cbn [Z.eqb nullptr]. destruct (lower_bound_spec m T l start HI) as (A & B & -> & HA & HB & -> & _).
    exists A, B. split_and!; [done| |done]. apply Hnil; [set_solver|]. intros q Hq.
    specialize (HA q Hq). specialize (Hnone q ltac:(set_solver)).
    apply not_true_iff_false in Hnone. rewrite covers_spec in Hnone by (apply Hv; set_solver). lia.
Qed.

Lemma for_each_in_range_spec {St} (fn : ptr → St → St * bool) m T l start end_ s :
  Index m T l → start < end_ →
  for_each_in_range m fn T start end_ s = Ret (visit_entries fn (in_range m start end_ l) s).
Proof.
  intros HI Hlt. unfold for_each_in_range. rewrite (proj2 (Z.leb_gt end_ start)) by done.
  destruct (range_start m T l start end_ HI Hlt) as (A & B & HAB & HA & Hrun).
  destruct (find m T start) as [entry| | |]; try done. cbn [obind] in *. rewrite Hrun. cbn [obind].
  rewrite (for_each_in_range_loop_spec fn m T l A B) by
    (try done; rewrite (index_size m T l HI), HAB, length_app; lia).
  rewrite HAB. unfold in_range in *. by rewrite filter_app, HA.
Qed.

(** ** Conflicts *)

Lemma has_conflict_spec m T l start end_ ignore :
  Index m T l → start < end_ →
  (ignore ∈ l → addr (m !!! ignore) < start) →
  ∃ b, has_conflict m T start end_ ignore = Ret b ∧
    (b = true ↔ ∃ p, p ∈ l ∧ p ≠ ignore ∧ overlaps (m !!! p) start end_ = true).
Proof.
  intros HI Hlt Hign. pose proof HI as [Ho _]. pose proof Ho as [Hv _]. rewrite Forall_forall in Hv.
  assert (∀ p, p ∈ l → overlaps (m !!! p) start end_ = true ↔
    covers (m !!! p) start = true ∨ start ≤ addr (m !!! p) < end_) as Hov.
  { intros p Hp. specialize (Hv p Hp). pose proof (valid_entry_end m p Hv).
    destruct Hv as (_ & _ & Hv). rewrite overlaps_spec, covers_spec by done. lia. }
  unfold has_conflict. rewrite (proj2 (Z.leb_gt end_ start)) by done.
  destruct (find_spec m T l start HI) as (p & -> & Hp). cbn [obind].
  destruct (lower_bound_spec m T l start HI) as (A & B & HAB & HA & HB & -> & _). cbn [obind].
  destruct (negb (p =? nullptr) && negb (p =? ignore)) eqn:Hc.
  { exists true. split; [done|]. split; [intros _|done].
    apply andb_true_iff in Hc as [Hc1 Hc2]. apply negb_true_iff, Z.eqb_neq in Hc1, Hc2.
    destruct Hp as [[Hp Hcov]|[? _]]; [|done]. exists p. rewrite Hov; auto. }
  assert (∀ q, q ∈ l → q ≠ ignore → covers (m !!! q) start = false) as Hnc.
  { intros q Hq Hqi. destruct Hp as [[Hp Hcov]|[_ Hn]]; [|by apply Hn].
    apply not_true_iff_false. intros Hq'.
    assert (p = ignore) as ->.
    { destruct (Z.eqb_spec p nullptr), (Z.eqb_spec p ignore); try done.
      subst p. by destruct (Hv nullptr Hp). }
    destruct Hqi. by apply (covers_unique m l _ _ start). }
  eexists. split; [done|]. rewrite !andb_true_iff, !negb_true_iff, !Z.eqb_neq, Z.ltb_lt. split.
  - intros [[H0 Hi] Ha]. destruct B as [|q B]; [done|]. cbn in *. exists q.
    assert (q ∈ l) as Hq by (rewrite HAB; set_solver). split_and!; [done|done|].
    rewrite Hov by done. right. split; [apply HB; by left|done].
  - intros (q & Hq & Hqi & Hoq). rewrite Hov in Hoq by done.
    destruct Hoq as [Hoq|Hoq]; [by rewrite (Hnc q Hq Hqi) in Hoq|].
    assert (q ∈ B) as HqB.
    { rewrite HAB in Hq. apply elem_of_app in Hq as [Hq|?]; [|done]. specialize (HA q Hq). lia. }
    destruct B as [|x B]; [by apply elem_of_nil in HqB|]. cbn [hd].
    assert (x ∈ l) as Hx by (rewrite HAB; set_solver). split_and!.
    + by apply Hv.
    + intros ->. specialize (Hign Hx). specialize (HB ignore ltac:(by left)). lia.
    + rewrite HAB in Ho. apply ordered_app in Ho as (_ & Ho & _).
      apply (ordered_from m (x :: B) (addr (m !!! x)) Z.le Ho) in HqB; [lia|lia|].
      intros ? [= <-]. lia.
Qed.

(** ** Gaps *)

Lemma align_up_spec v a :
  0 ≤ v → 0 ≤ a → v + a ≤ 2 ^ 64 →
  v ≤ align_up v a ∧ aligned a (align_up v a) ∧ ∀ c, v ≤ c → aligned a c → align_up v a ≤ c.
Proof.
  intros Hv Ha Hb. unfold align_up, aligned. case_test; [split_and!; [lia|by left|lia]|].
  pose proof (Z.mod_pos_bound v a ltac:(lia)) as Hr. pose proof (Z.div_mod v a ltac:(lia)) as Hd.
  case_test; [split_and!; [lia|by right|lia]|].
  destruct (decide (v + (a - v mod a) = 2 ^ 64)) as [E|E].
  { exfalso. lia. }
  rewrite u64_small by lia. split_and!; [lia| |].
  - right. replace (v + (a - v mod a)) with ((v / a + 1) * a) by lia. by apply Z.mod_mul.
  - intros c Hc [?|Hm]; [done|]. pose proof (Z.div_mod c a ltac:(lia)) as Hdc.
    rewrite Hm in Hdc. assert (v / a < c / a) by nia. nia.
Qed.

Section find_gap.
Context (m : store) (T : VmaMapleTree) (l : list ptr) (HI : Index m T l).
Context (max_addr size alignment : Z) (Hmax : 0 ≤ max_addr < 2 ^ 64) (Hsize : 0 < size).
Context (Hal : 0 ≤ alignment).
Context (Hends : ∀ p, p ∈ l → end_addr (m !!! p) + alignment ≤ 2 ^ 64).
Context (lo : Z) (Hlo : 0 ≤ lo).
Local Abbreviation fits_ := (fits m l lo max_addr size alignment).

(** The scan has passed the entries [A]; [cursor] is still a candidate. *)
Definition scanned (A : list ptr) (cursor : Z) : Prop :=
  lo ≤ cursor ∧ cursor + size ≤ max_addr ∧ aligned alignment cursor ∧
  (∀ p, p ∈ A → end_addr (m !!! p) ≤ cursor) ∧ (∀ a, fits_ a → cursor ≤ a).

Lemma scanned_fits A B cursor :
  l = A ++ B → scanned A cursor → (∀ p, p ∈ B → cursor + size ≤ addr (m !!! p)) →
  first_fit m l lo max_addr size alignment cursor.
Proof.
  intros HAB (H1 & H2 & H3 & H4 & H5) HB. left. split; [|done]. split_and!; [done..|].
  intros p Hp. rewrite HAB in Hp. apply elem_of_app in Hp as [Hp|Hp]; auto.
Qed.

(** Past an entry that every later candidate has to clear. *)
Lemma scanned_skip A p B cursor c' :
  l = A ++ p :: B → lo ≤ cursor → (∀ q, q ∈ A → end_addr (m !!! q) ≤ cursor) →
  cursor ≤ end_addr (m !!! p) →
  (∀ a, fits_ a → end_addr (m !!! p) ≤ a) →
  c' = align_up (end_addr (m !!! p)) alignment →
  if (max_addr <? c') || (u64 (max_addr - c') <? size)
  then first_fit m l lo max_addr size alignment 0
  else scanned (A ++ [p]) c'.
Proof.
  intros HAB Hc HA Hcur Hall ->.
  assert (p ∈ l) as Hp by (rewrite HAB; set_solver).
  pose proof (u64_range (addr (m !!! p) + len (m !!! p))) as Hu. fold (end_addr (m !!! p)) in Hu.
  destruct (align_up_spec (end_addr (m !!! p)) alignment) as (Hge & Hal' & Hleast);
    [lia|lia|by apply Hends|].
  assert (∀ a, fits_ a → align_up (end_addr (m !!! p)) alignment ≤ a) as Hnew.
  { intros a Hf. pose proof (Hall a Hf). destruct Hf as (_ & _ & Hf & _). auto. }
  destruct (Z.ltb_spec max_addr (align_up (end_addr (m !!! p)) alignment)); cbn [orb].
  { right. split; [done|]. intros a Hf. pose proof (Hnew a Hf). destruct Hf as (_ & Hf & _). lia. }
  rewrite u64_small by lia. case_test.
  { right. split; [done|]. intros a Hf. pose proof (Hnew a Hf). destruct Hf as (_ & Hf & _). lia. }
  split_and!; [lia|lia|done| |done].
  intros q Hq. apply elem_of_app in Hq as [Hq|Hq]; [specialize (HA q Hq); lia|].
  apply list_elem_of_singleton in Hq as ->. lia.
Qed.

Lemma find_gap_loop_spec A B n cursor :
  l = A ++ B → (length B < n)%nat → scanned A cursor →
  ∃ r, find_gap_loop m n T (hd nullptr B) cursor max_addr size alignment = Ret r ∧
    first_fit m l lo max_addr size alignment r.
Proof.
  revert A n cursor. induction B as [|p B IH]; intros A n cursor HAB Hn Hsc;
    (destruct n as [|n]; [lia|]); cbn [find_gap_loop hd]; cbv zeta.
  all: pose proof Hsc as (H1 & H2 & H3 & H4 & H5).
  - exists cursor. cbn [Z.eqb nullptr]. rewrite u64_small, (proj2 (Z.leb_le size (max_addr - cursor))) by lia.
    split; [done|]. apply (scanned_fits A []); [done|done|by intros ? ?%elem_of_nil].
  - pose proof HI as [Ho _]. rewrite HAB in Ho. apply ordered_app in Ho as (_ & Ho & _).
    pose proof (proj1 Ho) as Hv. apply Forall_cons_iff in Hv as [Hp _].
    assert (∀ q, q ∈ p :: B → addr (m !!! p) ≤ addr (m !!! q)) as Hq.
    { apply (ordered_from m (p :: B) _ Z.le Ho); [lia|]. intros ? [= <-]. lia. }
    rewrite (proj2 (Z.eqb_neq p nullptr)) by apply Hp.
    destruct (Z.ltb_spec max_addr (addr (m !!! p))).
    { exists cursor. rewrite (u64_small (max_addr - cursor)), (proj2 (Z.leb_le size (max_addr - cursor))) by lia. split; [done|].
      apply (scanned_fits A (p :: B)); [done|done|]. intros q ?. specialize (Hq q ltac:(done)). lia. }
    destruct (next_prev_spec m T l A p B HI HAB) as [-> _]. cbn [obind].
    destruct (decide (cursor + size ≤ addr (m !!! p))) as [Hfit|Hfit].
    { rewrite u64_small by lia.
      rewrite (proj2 (Z.ltb_lt _ _)), !(proj2 (Z.leb_le _ _)) by lia. exists cursor. split; [done|].
      apply (scanned_fits A (p :: B)); [done|done|]. intros q ?. specialize (Hq q ltac:(done)). lia. }
    replace ((cursor <? addr (m !!! p)) && (cursor <=? addr (m !!! p)) &&
      (size <=? u64 (addr (m !!! p) - cursor))) with false; cycle 1.
    { destruct (Z.ltb_spec cursor (addr (m !!! p))); [|done]. rewrite u64_small by lia.
      by rewrite (proj2 (Z.leb_gt size _)), andb_false_r by lia. }
    assert (l = (A ++ [p]) ++ B) as HAB' by (by rewrite <- app_assoc).
    case_test.
    + assert (∀ a, fits_ a → end_addr (m !!! p) ≤ a) as Hclear.
      { intros a Hf. pose proof (H5 a Hf). destruct Hf as (_ & _ & _ & Hf).
        destruct (Hf p); [rewrite HAB; set_solver|lia|lia]. }
      pose proof (scanned_skip A p B cursor _ HAB H1 H4 ltac:(lia) Hclear eq_refl) as Hskip.
      destruct (_ || _); [by exists 0|].
      apply (IH (A ++ [p])); [done|cbn in Hn; lia|done].
    + apply (IH (A ++ [p])); [done|cbn in Hn; lia|]. split_and!; [done..| |done].
      intros q Hq'. apply elem_of_app in Hq' as [?|Hq']; [auto|].
      apply list_elem_of_singleton in Hq' as ->. lia.
Qed.

Lemma find_gap_scan A B cursor :
  l = A ++ B → scanned A cursor →
  ∃ r, find_gap_loop m (S (Z.to_nat (size_ T))) T (hd nullptr B) cursor max_addr size alignment =
      Ret r ∧ first_fit m l lo max_addr size alignment r.
Proof.
  intros HAB Hsc. apply (find_gap_loop_spec A B); [done| |done].
  rewrite (index_size m T l HI), HAB, length_app. lia.
Qed.
End find_gap.

Lemma find_gap_spec m T l start_hint min_addr max_addr size alignment :
  Index m T l → 0 ≤ start_hint → 0 ≤ min_addr → 0 ≤ max_addr < 2 ^ 64 → 0 < size → 0 ≤ alignment →
  Z.max start_hint min_addr + alignment ≤ 2 ^ 64 →
  (∀ p, p ∈ l → end_addr (m !!! p) + alignment ≤ 2 ^ 64) →
  ∃ r, find_gap m T start_hint min_addr max_addr size alignment = Ret r ∧
    first_fit m l (Z.max start_hint min_addr) max_addr size alignment r.
Proof.
  intros HI Hh Hmin Hmax Hsize Hal Hov Hends. unfold find_gap. cbv zeta.
  set (lo := Z.max start_hint min_addr) in *.
  replace (if min_addr <? start_hint then start_hint else min_addr) with lo
    by (unfold lo; case_test; lia).
  destruct (align_up_spec lo alignment) as (Hge & Hal' & Hleast); [lia..|].
  set (cursor := align_up lo alignment) in *.
  assert (∀ a, fits m l lo max_addr size alignment a → cursor ≤ a) as Hfst.
  { intros a (? & _ & ? & _). auto. }
  assert (max_addr < cursor + size → first_fit m l lo max_addr size alignment 0) as Hbig.
  { intros Hb. right. split; [done|]. intros a Hf. pose proof (Hfst a Hf).
    destruct Hf as (_ & Hf & _). lia. }
  rewrite (proj2 (Z.eqb_neq size 0)) by lia. cbn [orb].
  case_test; [exists 0; split; [done|apply Hbig; lia]|].
  rewrite (proj2 (Z.ltb_ge cursor min_addr)) by lia.
  destruct (Z.ltb_spec max_addr cursor); cbn [orb]; [exists 0; split; [done|apply Hbig; lia]|].
  rewrite (u64_small (max_addr - cursor)) by lia.
  case_test; [exists 0; split; [done|apply Hbig; lia]|].
  pose proof HI as [Ho _]. pose proof Ho as [Hv _]. rewrite Forall_forall in Hv.
  destruct (find_spec m T l cursor HI) as (p & -> & [[Hp Hc]|[-> Hnone]]); cbn [obind].
  - rewrite (proj2 (Z.eqb_neq p nullptr)) by (by apply Hv). cbn [negb].
    rewrite covers_spec in Hc by (by apply Hv). pose proof Hp as HAB.
    apply list_elem_of_split in HAB as (A & B & HAB).
    destruct (next_prev_spec m T l A p B HI HAB) as [-> _]. cbn [obind].
    assert (∀ a, fits m l lo max_addr size alignment a → end_addr (m !!! p) ≤ a) as Hclear.
    { intros a Hf. pose proof (Hfst a Hf). destruct Hf as (_ & _ & _ & Hf).
      destruct (Hf p Hp); lia. }
    assert (∀ q, q ∈ A → end_addr (m !!! q) ≤ cursor) as HA.
    { intros q Hq. rewrite HAB in Ho. apply ordered_app in Ho as (_ & _ & Hb).
      specialize (Hb q p Hq ltac:(by left)). unfold below in Hb. lia. }
    pose proof (scanned_skip m T l HI max_addr size alignment Hmax Hsize Hal Hends lo ltac:(lia)
      A p B cursor _ HAB ltac:(lia) HA ltac:(lia) Hclear eq_refl) as Hskip.
    destruct (_ || _); [by exists 0|].
    apply (find_gap_scan m T l HI max_addr size alignment Hmax Hsize Hal Hends lo ltac:(lia)
      (A ++ [p])); [by rewrite <- app_assoc|done].
  - cbn [negb Z.eqb nullptr].
    destruct (lower_bound_spec m T l cursor HI) as (A & B & HAB & HA & HB & -> & ->). cbn [obind].
    assert (∀ q, q ∈ A → end_addr (m !!! q) ≤ cursor) as HA'.
    { intros q Hq. specialize (HA q Hq). assert (q ∈ l) as Hql by (rewrite HAB; set_solver).
      specialize (Hnone q Hql). apply not_true_iff_false in Hnone.
      rewrite covers_spec in Hnone by (by apply Hv). lia. }
    replace (negb (last_or nullptr A =? nullptr) && (cursor <? end_addr (m !!! last_or nullptr A)))
      with false; cycle 1.
    { destruct A as [|w A _] using rev_ind; [done|]. rewrite last_or_snoc.
      rewrite (proj2 (Z.ltb_ge _ _)), andb_false_r; [done|]. apply HA'. set_solver. }
    apply (find_gap_scan m T l HI max_addr size alignment Hmax Hsize Hal Hends lo ltac:(lia) A);
      [done|]. split_and!; [lia|lia|done|done|done].
Qed.

(** ** The instance *)

Lemma Index_agree m m' T l : Index m T l → agree m m' l → Index m' T l.
Proof.
  intros [Ho H] Ha. split; [by eapply ordered_agree|]. destruct H as [?|(t & HR & <-)]; [by left|right].
  exists t. split; [|done]. destruct HR as [[Hn Hp Hk Hr Hwf] Hch Hsz].
  split; [split; [done|done| |done|done]|done|done].
  by rewrite <- (kcells_agree m m') by (done || by apply wf_ok).
Qed.

Lemma Index_empty m : Index m maple_empty [].
Proof. split; [split; [done|constructor]|]. by left. Qed.

#[export] Instance VmaMapleTree_AreaIndex : AreaIndex VmaMapleTree := {
  ix_empty := maple_empty;
  ix_insert := insert;
  ix_erase := erase_hint;
  ix_clear := clear;
  ix_find := find;
  ix_lower_bound := lower_bound;
  ix_prev_by_start := prev_by_start;
  ix_next := next;
  ix_has_conflict := has_conflict;
  ix_find_gap := find_gap;
  ix_size := size_;
  ix_rep := Index;
  ix_rep_ordered m i l := @proj1 _ _;
  ix_rep_agree := Index_agree;
  ix_rep_size := index_size;
  ix_empty_law := Index_empty;
  ix_insert_law := insert_spec;
  ix_erase_law m m' i A e B H := erase_spec m m' i _ A e B H eq_refl;
  ix_erase_absent := erase_absent;
  ix_clear_law m i l H :=
    match clear_spec m i l H with
    | ex_intro _ i' (conj Hr He) =>
        ex_intro _ i' (conj Hr (λ m', conj (proj1 (Index_empty m')) (or_introl (conj eq_refl He))))
    end;
  ix_find_law := find_spec;
  ix_lower_bound_law := lower_bound_spec;
  ix_next_law m i A p B H := proj1 (next_prev_spec m i _ A p B H eq_refl);
  ix_has_conflict_law := has_conflict_spec;
  ix_find_gap_law := find_gap_spec
}.

(** ** Theorems *)

(** C12. [insert] always returns on a well-formed index.  It accepts exactly the
    valid areas that overlap no indexed area and puts them at their place in
    address order, rebalancing included; every other area is refused and the
    index is unchanged. *)
Theorem insert_correct m T l e :
  Index m T l → e ≠ nullptr → sized (m !!! e) →
  ∃ T' b, insert m T e = Ret (T', b) ∧
    if b then valid_range (m !!! e) = true ∧
         (∀ p, p ∈ l → overlaps_area (m !!! p) (m !!! e) = false) ∧
         ∃ A B, l = A ++ B ∧ Index m T' (A ++ e :: B)
    else T' = T ∧
         (valid_range (m !!! e) = false ∨
          ∃ p, p ∈ l ∧ overlaps_area (m !!! p) (m !!! e) = true).
Proof.
  intros HI He Hs. destruct (insert_spec m T l e HI He Hs) as (T' & b & Hrun & H).
  assert (∀ p, p ∈ l → hits m e p = overlaps_area (m !!! p) (m !!! e)) as Hh.
  { intros p Hp. destruct HI as [[Hv _] _]. rewrite Forall_forall in Hv. destruct (Hv p Hp) as [Hp0 _].
    unfold hits. by rewrite (proj2 (Z.eqb_neq p nullptr)). }
  exists T', b. split; [done|]. destruct b.
  - destruct H as (Hv & Hn & HAB). split_and!; [done| |done].
    intros p Hp. rewrite <- Hh by done. by apply Hn.
  - destruct H as (-> & [Hv|(p & Hp & Hov)]); [by auto|]. split; [done|right].
    exists p. by rewrite <- Hh.
Qed.

(** C28. [erase] with the start address an area was indexed under removes
    exactly that area, even when the area's own fields have changed since, and
    keeps the index of the others well formed; the emptied nodes are freed. *)
Theorem erase_correct m m' T A e B :
  Index m T (A ++ e :: B) → agree m m' (A ++ B) →
  ∃ T', erase_hint m' T e (addr (m !!! e)) = Ret T' ∧ Index m' T' (A ++ B).
Proof. intros HI. by apply (erase_spec m m' T (A ++ e :: B)). Qed.

(** [erase] of an area that is not indexed changes nothing, whatever the
    hint. *)
Theorem erase_not_indexed m T l e key_hint :
  Index m T l → e ∉ l → erase_hint m T e key_hint = Ret T ∧ erase m T e = Ret T.
Proof. intros HI He. split; by eapply erase_absent. Qed.

(** Inserting an area and erasing it again leaves an index of the same
    areas in the same order. *)
Theorem erase_insert m T l e T' :
  Index m T l → e ≠ nullptr → sized (m !!! e) → insert m T e = Ret (T', true) →
  ∃ T'', erase m T' e = Ret T'' ∧ Index m T'' l.
Proof.
  intros HI He Hs Hins. destruct (insert_spec m T l e HI He Hs) as (T1 & b & Hrun & H).
  rewrite Hins in Hrun. injection Hrun as <- <-. destruct H as (_ & _ & A & B & -> & HI').
  unfold erase. rewrite (proj2 (Z.eqb_neq e nullptr)) by done.
  by apply (erase_spec m m T' (A ++ e :: B)).
Qed.

(** [find] returns the indexed area that covers the address, and null
    exactly when there is none; at most one area covers an address. *)
Theorem find_correct m T l a :
  Index m T l →
  ∃ p, find m T a = Ret p ∧
    if p =? nullptr then ∀ q, q ∈ l → covers (m !!! q) a = false
    else p ∈ l ∧ covers (m !!! p) a = true ∧ ∀ q, q ∈ l → covers (m !!! q) a = true → q = p.
Proof.
  intros HI. pose proof HI as [Ho _]. destruct (find_spec m T l a HI) as (p & -> & [[Hp Hc]|[-> Hn]]).
  - exists p. split; [done|]. rewrite (proj2 (Z.eqb_neq p nullptr)).
    + split_and!; [done..|]. intros q Hq Hcq. by apply (covers_unique m l q p a).
    + destruct Ho as [Hv _]. rewrite Forall_forall in Hv. by apply Hv.
  - exists nullptr. split; [done|]. cbn. done.
Qed.

(** [lower_bound] returns the first indexed area that starts at or after
    the address and [prev_by_start] the last one that starts before it. *)
Theorem lower_bound_correct m T l start :
  Index m T l →
  ∃ A B, l = A ++ B ∧ (∀ p, p ∈ A → addr (m !!! p) < start) ∧
    (∀ p, p ∈ B → start ≤ addr (m !!! p)) ∧
    lower_bound m T start = Ret (hd nullptr B) ∧
    prev_by_start m T start = Ret (last_or nullptr A).
Proof. apply lower_bound_spec. Qed.

(** [next] and [prev] of an indexed area are its neighbours in address
    order, across leaf boundaries. *)
Theorem next_prev_correct m T A p B :
  Index m T (A ++ p :: B) →
  next m T p = Ret (hd nullptr B) ∧ prev m T p = Ret (last_or nullptr A).
Proof. intros HI. by apply (next_prev_spec m T _ A p B HI). Qed.

(** C33. [find_gap] is a first fit: it returns the least aligned address at or
    above the hint and the minimum where [size] bytes lie below the maximum
    and meet no indexed area, and zero when there is no such address, as long
    as rounding up cannot overflow 64 bits. *)
Theorem find_gap_correct m T l start_hint min_addr max_addr size alignment :
  Index m T l → 0 ≤ start_hint → 0 ≤ min_addr → 0 ≤ max_addr < 2 ^ 64 → 0 < size → 0 ≤ alignment →
  Z.max start_hint min_addr + alignment ≤ 2 ^ 64 →
  (∀ p, p ∈ l → end_addr (m !!! p) + alignment ≤ 2 ^ 64) →
  ∃ r, find_gap m T start_hint min_addr max_addr size alignment = Ret r ∧
    first_fit m l (Z.max start_hint min_addr) max_addr size alignment r.
Proof. apply find_gap_spec. Qed.

(** [has_conflict] tells whether an indexed area other than [ignore] meets
    the range, provided [ignore] does not itself start inside or after it. *)
Theorem has_conflict_correct m T l start end_ ignore :
  Index m T l → start < end_ → (ignore ∈ l → addr (m !!! ignore) < start) →
  ∃ b, has_conflict m T start end_ ignore = Ret b ∧
    (b = true ↔ ∃ p, p ∈ l ∧ p ≠ ignore ∧ overlaps (m !!! p) start end_ = true).
Proof. apply has_conflict_spec. Qed.

(** [for_each] visits every indexed area once, in address order, and
    [for_each_in_range] exactly those that meet the range, in the same order;
    both stop when the callback says so. *)
Theorem for_each_correct {St} (fn : ptr → St → St * bool) m T l start end_ s :
  Index m T l → start < end_ →
  for_each fn T s = Ret (visit_entries fn l s) ∧
  for_each_in_range m fn T start end_ s = Ret (visit_entries fn (in_range m start end_ l) s).
Proof.
  intros HI Hlt. split; [by apply (for_each_spec fn m)|by apply for_each_in_range_spec].
Qed.

(** [clear] frees every node: no cell of any field of node memory is left,
    and the object is empty. *)
Theorem clear_correct m T l :
  Index m T l →
  ∃ T', clear T = Ret T' ∧ nodes T' = ∅ ∧ keys T' = ∅ ∧ parent T' = ∅ ∧ prev_ T' = ∅ ∧
    next_ T' = ∅ ∧ empty T' = true ∧ size_ T' = 0.
Proof.
  intros HI. destruct (clear_spec m T l HI) as (T' & -> & []). exists T'.
  split_and!; try done. unfold empty. by rewrite empty_root0.
Qed.

(** ** A concrete index *)

(** Fourteen areas [0x1000] bytes long, [0x2000] apart: two leaves. *)
Definition example_area (i : nat) : VmArea := {|
  used := 1; addr := 0x10000 + 0x2000 * Z.of_nat i; len := 0x1000; prot := 3;
  flags := 0x22; vfd := -1; vfile := nullptr; offset := 0; max_len := 0x1000;
  is_expandable := false; backing_kind := VMA_BACKING_NONE; backing_shmid := -1;
  backing_base := 0; has_resident_pages := false; wipe_on_fork := false; owner_mm := 1;
  object := nullptr; page_offset := 0; area_kind := Mmap; grow_policy := GrowNone;
  advice_state := AdviceNone; guard_pages := 0; zero_fill_past_file := false;
  file_backed_bytes := 0; debug_name := nullptr; private_page_overlay := nullptr |}.

Definition example_store : store :=
  list_to_map ((λ i, (Z.of_nat i + 1, example_area i)) <$> seq 0 15).

Definition example_list : list ptr := [1; 2; 3; 4; 5; 6; 7; 8; 9; 10; 11; 12; 13; 14].

(** Insert every area of [l], which has to succeed. *)
Fixpoint insert_all (m : store) (T : VmaMapleTree) (l : list ptr) : option VmaMapleTree :=
  match l with
  | [] => Some T
  | e :: l => match insert m T e with Ret (T, true) => insert_all m T l | _ => None end
  end.

Lemma insert_all_Index m T l es T' :
  Index m T l → Forall (λ e, e ≠ nullptr ∧ sized (m !!! e)) es → insert_all m T es = Some T' →
  ∃ l', Index m T' l' ∧ l' ≡ₚ l ++ es.
Proof.
  revert T l. induction es as [|e es IH]; intros T l HI Hes Hrun; cbn in Hrun.
  { injection Hrun as <-. exists l. by rewrite app_nil_r. }
  apply Forall_cons_iff in Hes as [[He Hs] Hes].
  destruct (insert_spec m T l e HI He Hs) as (T1 & b & Hins & H). rewrite Hins in Hrun.
  destruct b; [|done]. destruct H as (_ & _ & A & B & -> & HI').
  destruct (IH T1 _ HI' Hes Hrun) as (l' & HI'' & Hp). exists l'. split; [done|].
  rewrite Hp. solve_Permutation.
Qed.

Fixpoint ordered_check (m : store) (l : list ptr) : bool :=
  match l with
  | [] => true
  | e :: l =>
      negb (e =? nullptr) && bool_decide (sized (m !!! e)) && valid_range (m !!! e) &&
      forallb (λ p, end_addr (m !!! e) <=? addr (m !!! p)) l && ordered_check m l
  end.

Lemma ordered_check_sound m l : ordered_check m l = true → ordered m l.
Proof.
  induction l as [|e l IH]; cbn; intros H; [split; constructor|].
  rewrite !andb_true_iff in H. destruct H as [[[[He Hs] Hv] Hb] Hl].
  apply negb_true_iff, Z.eqb_neq in He. apply bool_decide_eq_true in Hs.
  apply IH in Hl as [Hl1 Hl2]. split; constructor; try done.
  apply Forall_forall. intros p Hp. rewrite forallb_forall in Hb.
  apply Z.leb_le, Hb. by apply list_elem_of_In.
Qed.

Lemma built_Index m es l T :
  insert_all m maple_empty es = Some T → forallb (λ e, negb (e =? nullptr) && bool_decide (sized (m !!! e))) es = true →
  ordered_check m l = true → bool_decide (es ≡ₚ l) = true → Index m T l.
Proof.
  intros Hrun Hes Hl%ordered_check_sound Hp%bool_decide_eq_true.
  destruct (insert_all_Index m maple_empty [] es T) as (l' & HI & Hp').
  - apply Index_empty.
  - apply Forall_forall. intros e He. rewrite forallb_forall in Hes.
    apply list_elem_of_In, Hes in He. apply andb_true_iff in He as [He Hs].
    by apply negb_true_iff, Z.eqb_neq in He; apply bool_decide_eq_true in Hs.
  - done.
  - replace l with l'; [done|]. apply (ordered_unique m); [apply HI|done|]. by rewrite Hp', Hp.
Qed.

Definition example_tree : VmaMapleTree :=
  default maple_empty (insert_all example_store maple_empty (rev example_list)).

Lemma example_Index : Index example_store example_tree example_list.
Proof. apply (built_Index example_store (rev example_list)); by vm_compute. Qed.

Lemma insert_correct_witness :
  ∃ T' b, insert example_store example_tree 15 = Ret (T', b) ∧
    if b then valid_range (example_store !!! 15) = true ∧
         (∀ p, p ∈ example_list → overlaps_area (example_store !!! p) (example_store !!! 15) = false) ∧
         ∃ A B, example_list = A ++ B ∧ Index example_store T' (A ++ 15 :: B)
    else T' = example_tree ∧
         (valid_range (example_store !!! 15) = false ∨
          ∃ p, p ∈ example_list ∧ overlaps_area (example_store !!! p) (example_store !!! 15) = true).
Proof. apply (insert_correct example_store example_tree example_list 15 example_Index); [done|by vm_compute]. Defined.

(** The store in which area 7 was moved after it was indexed. *)
Definition moved_store : store := <[7 := example_area 14]> example_store.

Lemma erase_correct_witness :
  ∃ T', erase_hint moved_store example_tree 7 0x1c000 = Ret T' ∧
    Index moved_store T' [1; 2; 3; 4; 5; 6; 8; 9; 10; 11; 12; 13; 14].
Proof.
  apply (erase_correct example_store moved_store example_tree [1; 2; 3; 4; 5; 6] 7
    [8; 9; 10; 11; 12; 13; 14] example_Index).
  intros p Hp. repeat (apply elem_of_cons in Hp as [->|Hp]; [by vm_compute|]).
  by apply elem_of_nil in Hp.
Defined.

Lemma erase_not_indexed_witness :
  erase_hint example_store example_tree 15 0x12000 = Ret example_tree ∧
  erase example_store example_tree 15 = Ret example_tree.
Proof.
  apply (erase_not_indexed example_store example_tree example_list 15 0x12000 example_Index).
  unfold example_list. set_solver.
Defined.

Lemma erase_insert_witness :
  ∃ T', insert example_store example_tree 15 = Ret (T', true) ∧
    ∃ T'', erase example_store T' 15 = Ret T'' ∧ Index example_store T'' example_list.
Proof.
  destruct (insert example_store example_tree 15) as [[T' [|]]| | |] eqn:E; try (by vm_compute in E).
  exists T'. split; [reflexivity|].
  refine (erase_insert example_store example_tree example_list 15 T' example_Index _ _ E);
    clear; [discriminate|by vm_compute].
Defined.

Lemma find_correct_witness :
  ∃ p, find example_store example_tree 0x1c010 = Ret p ∧
    if p =? nullptr then ∀ q, q ∈ example_list → covers (example_store !!! q) 0x1c010 = false
    else p ∈ example_list ∧ covers (example_store !!! p) 0x1c010 = true ∧
      ∀ q, q ∈ example_list → covers (example_store !!! q) 0x1c010 = true → q = p.
Proof. apply (find_correct example_store example_tree example_list 0x1c010 example_Index). Defined.

Lemma lower_bound_correct_witness :
  ∃ A B, example_list = A ++ B ∧ (∀ p, p ∈ A → addr (example_store !!! p) < 0x1b000) ∧
    (∀ p, p ∈ B → 0x1b000 ≤ addr (example_store !!! p)) ∧
    lower_bound example_store example_tree 0x1b000 = Ret (hd nullptr B) ∧
    prev_by_start example_store example_tree 0x1b000 = Ret (last_or nullptr A).
Proof. apply (lower_bound_correct example_store example_tree example_list 0x1b000 example_Index). Defined.

Lemma next_prev_correct_witness :
  next example_store example_tree 7 = Ret 8 ∧ prev example_store example_tree 7 = Ret 6.
Proof.
  apply (next_prev_correct example_store example_tree [1; 2; 3; 4; 5; 6] 7
    [8; 9; 10; 11; 12; 13; 14] example_Index).
Defined.

Lemma find_gap_correct_witness :
  ∃ r, find_gap example_store example_tree 0x10000 0x1000 0x100000 0x2000 0x1000 = Ret r ∧
    first_fit example_store example_list 0x10000 0x100000 0x2000 0x1000 r.
Proof.
  apply (find_gap_correct example_store example_tree example_list 0x10000 0x1000 0x100000 0x2000 0x1000
    example_Index); [lia..|].
  apply Forall_forall. unfold example_list. repeat constructor; by vm_compute.
Defined.

Lemma has_conflict_correct_witness :
  ∃ b, has_conflict example_store example_tree 0x11000 0x13000 1 = Ret b ∧
    (b = true ↔ ∃ p, p ∈ example_list ∧ p ≠ 1 ∧
       overlaps (example_store !!! p) 0x11000 0x13000 = true).
Proof.
  apply (has_conflict_correct example_store example_tree example_list 0x11000 0x13000 1 example_Index);
    [lia|by vm_compute].
Defined.

Lemma for_each_correct_witness :
  for_each (λ p s, (s ++ [p], true)) example_tree [] = Ret (example_list, true) ∧
  for_each_in_range example_store (λ p s, (s ++ [p], true)) example_tree 0x11000 0x15000 [] =
    Ret ([2; 3], true).
Proof.
  apply (for_each_correct (λ p s, (s ++ [p], true)) example_store example_tree example_list
    0x11000 0x15000 [] example_Index). lia.
Defined.

Lemma clear_correct_witness :
  ∃ T', clear example_tree = Ret T' ∧ nodes T' = ∅ ∧ keys T' = ∅ ∧ parent T' = ∅ ∧ prev_ T' = ∅ ∧
    next_ T' = ∅ ∧ empty T' = true ∧ size_ T' = 0.
Proof. apply (clear_correct example_store example_tree example_list example_Index). Defined.

End MapleCorrect.
