(* ===== verification/VmaMeta.v ===== *)
(** * Metadata of areas (kernel/proc/vma_metadata_utils.cc)

    The references an area holds beside its address range: a file, a
    [VmObject] and the pages of its private overlay.  The overlay maps and the
    object reference counts are modelled; the page allocator, files, the
    shared-file registry and object destructors are the class [MetaEnv]. *)
From S2P Require Import Prelude Page VmArea.
Import Page VmArea.

Module VmaMeta.

(** What this code calls elsewhere.  Page addresses are physical; the
    conversion to a kernel pointer is part of [retain_page] and [free_page]. *)
Class MetaEnv (W : Type) := {
  retain_page : Z → W → W * bool;
  free_page : Z → W → W;
  file_dup : ptr → W → W;
  file_free : ptr → W → W;
  release_shared_file_object_if_unused : ptr → W → W;
  object_delete : ptr → W → W
}.

(** The page operations count references: a refused retain changes nothing,
    a free undoes a retain, and frees commute. *)
Class PageCounts (W : Type) `{MetaEnv W} : Prop := {
  retain_refused pa w w' : retain_page pa w = (w', false) → w' = w;
  free_retain pa w w' : retain_page pa w = (w', true) → free_page pa w' = w;
  free_comm pa pa' w : free_page pa (free_page pa' w) = free_page pa' (free_page pa w)
}.

(** An overlay maps page indices to page addresses, in the order the hash map
    iterates. *)
Abbreviation overlay := (list (Z * Z)).

Section with_env.
Context {W : Type} `{MetaEnv W}.

Record Meta := mkMeta {
  env : W;
  refs : gmap ptr Z;           (* VmObject::ref_count_ *)
  overlays : gmap ptr overlay; (* the heap of overlay maps *)
  ov_brk : ptr
}.

Definition with_env (s : Meta) (w : W) : Meta := mkMeta w (refs s) (overlays s) (ov_brk s).
Definition with_refs (s : Meta) r : Meta := mkMeta (env s) r (overlays s) (ov_brk s).
Definition with_overlays (s : Meta) o : Meta := mkMeta (env s) (refs s) o (ov_brk s).

(** VmObject::get and VmObject::put. *)
Definition object_get (s : Meta) (o : ptr) : Meta :=
  with_refs s (<[o := refs s !!! o + 1]> (refs s)).

Definition object_put (s : Meta) (o : ptr) : Meta * bool :=
  (with_refs s (<[o := refs s !!! o - 1]> (refs s)), refs s !!! o =? 1).

(** [if (object->put()) delete object;] *)
Definition put_or_delete (s : Meta) (o : ptr) : Meta :=
  let (s, last_) := object_put s o in
  if last_ then with_env s (object_delete o (env s)) else s.

Definition page_count_for_vma (a : VmArea) : Z :=
  if negb (valid_range a) then 0 else PGROUNDUP (len a) / PGSIZE.

Definition page_index_in_range (page_index start_page page_count : Z) : bool :=
  (start_page <=? page_index) && (page_index <? u64 (start_page + page_count)).

Definition load_overlay (s : Meta) (p : ptr) : outcome overlay :=
  match overlays s !! p with Some o => Ret o | None => Fault end.

(** Free every page of an overlay. *)
Fixpoint free_pages_of (o : overlay) (w : W) : W :=
  match o with
  | [] => w
  | (_, pa) :: r => free_pages_of r (if pa =? 0 then w else free_page pa w)
  end.

(** The assignment [subset[k] = pa] of the hash map. *)
Definition overlay_set (k pa : Z) (o : overlay) : overlay :=
  if bool_decide (k ∈ o.*1) then (λ e, if e.1 =? k then (k, pa) else e) <$> o
  else o ++ [(k, pa)].

(** The copy loop: [None] when a page could not be retained, after the
    pages retained so far were freed again. *)
Fixpoint clone_loop (src : overlay) (start_page page_count : Z) (retain_pages : bool)
    (subset : overlay) (w : W) : W * option overlay :=
  match src with
  | [] => (w, Some subset)
  | (k, pa) :: r =>
      if negb (page_index_in_range k start_page page_count)
      then clone_loop r start_page page_count retain_pages subset w
      else if retain_pages && negb (pa =? 0) then
        let (w, ok) := retain_page pa w in
        if ok then clone_loop r start_page page_count retain_pages
                     (overlay_set (u64 (k - start_page)) pa subset) w
        else (free_pages_of subset w, None)
      else clone_loop r start_page page_count retain_pages
             (overlay_set (u64 (k - start_page)) pa subset) w
  end.

Definition clone_overlay_subset (s : Meta) (src : VmArea) (start_page page_count : Z)
    (retain_pages : bool) : outcome (Meta * ptr) :=
  if (private_page_overlay src =? nullptr) || (page_count =? 0) then Ret (s, nullptr) else
  let! o := load_overlay s (private_page_overlay src) in
  let (w, r) := clone_loop o start_page page_count retain_pages [] (env s) in
  let s := with_env s w in
  match r with
  | Some ((_ :: _) as subset) =>
      let p := ov_brk s in
      Ret (mkMeta (env s) (refs s) (<[p := subset]> (overlays s)) (p + 1), p)
  | _ => Ret (s, nullptr)
  end.

Definition set_overlay (a : VmArea) (p : ptr) : VmArea :=
  mkVmArea (used a) (addr a) (len a) (prot a) (flags a) (vfd a) (vfile a) (offset a) (max_len a)
    (is_expandable a) (backing_kind a) (backing_shmid a) (backing_base a) (has_resident_pages a)
    (wipe_on_fork a) (owner_mm a) (object a) (page_offset a) (area_kind a) (grow_policy a)
    (advice_state a) (guard_pages a) (zero_fill_past_file a) (file_backed_bytes a) (debug_name a) p.

Definition set_vfile (a : VmArea) (p : ptr) : VmArea :=
  mkVmArea (used a) (addr a) (len a) (prot a) (flags a) (vfd a) p (offset a) (max_len a)
    (is_expandable a) (backing_kind a) (backing_shmid a) (backing_base a) (has_resident_pages a)
    (wipe_on_fork a) (owner_mm a) (object a) (page_offset a) (area_kind a) (grow_policy a)
    (advice_state a) (guard_pages a) (zero_fill_past_file a) (file_backed_bytes a) (debug_name a)
    (private_page_overlay a).

Definition set_object (a : VmArea) (p : ptr) : VmArea :=
  mkVmArea (used a) (addr a) (len a) (prot a) (flags a) (vfd a) (vfile a) (offset a) (max_len a)
    (is_expandable a) (backing_kind a) (backing_shmid a) (backing_base a) (has_resident_pages a)
    (wipe_on_fork a) (owner_mm a) p (page_offset a) (area_kind a) (grow_policy a)
    (advice_state a) (guard_pages a) (zero_fill_past_file a) (file_backed_bytes a) (debug_name a)
    (private_page_overlay a).

(** [dst = src] with its own overlay and its own references; [None] when the
    overlay could not be copied. *)
Definition clone_snapshot (s : Meta) (src : VmArea) : outcome (Meta * VmArea * bool) :=
  let! (s, p) := clone_overlay_subset s src 0 (page_count_for_vma src) true in
  let dst := set_overlay src p in
  let! nonempty := (if private_page_overlay src =? nullptr then Ret false else
    let! o := load_overlay s (private_page_overlay src) in Ret (negb (length o =? 0)%nat)) in
  if nonempty && (p =? nullptr) then Ret (s, dst, false) else
  let s := if object dst =? nullptr then s else object_get s (object dst) in
  let s := if vfile dst =? nullptr then s else with_env s (file_dup (vfile dst) (env s)) in
  Ret (s, dst, true).

(** Free the pages of the overlay of [a] and the map: [on_area_destroy] and
    the last part of [release_metadata]. *)
Definition drop_overlay (s : Meta) (a : VmArea) : outcome (Meta * VmArea) :=
  let p := private_page_overlay a in
  if p =? nullptr then Ret (s, a) else
  let! o := load_overlay s p in
  let s := with_env s (free_pages_of o (env s)) in
  Ret (with_overlays s (delete p (overlays s)), set_overlay a nullptr).

Definition release_metadata (s : Meta) (a : VmArea) : outcome (Meta * VmArea) :=
  let (s, a) := if vfile a =? nullptr then (s, a)
    else (with_env s (file_free (vfile a) (env s)), set_vfile a nullptr) in
  if negb (object a =? nullptr) then
    let! (s, a) := drop_overlay s a in
    let s := with_env s (release_shared_file_object_if_unused (object a) (env s)) in
    let s := put_or_delete s (object a) in
    Ret (s, set_object a nullptr)
  else drop_overlay s a.

Definition release_overlay_pages_in_range (s : Meta) (src : VmArea) (start_page page_count : Z)
    : outcome Meta :=
  if (private_page_overlay src =? nullptr) || (page_count =? 0) then Ret s else
  let! o := load_overlay s (private_page_overlay src) in
  Ret (with_env s (free_pages_of
    (base.filter (λ e, page_index_in_range e.1 start_page page_count = true) o) (env s))).

Definition discard_overlay_container (s : Meta) (a : VmArea) : outcome (Meta * VmArea) :=
  let p := private_page_overlay a in
  if p =? nullptr then Ret (s, a) else
  let! _ := load_overlay s p in
  Ret (with_overlays s (delete p (overlays s)), set_overlay a nullptr).

End with_env.
Arguments Meta : clear implicits.

(** ** Page references *)

Section references.
Context {W : Type} `{MetaEnv W} `{!PageCounts W}.

Lemma free_pages_comm o pa (w : W) :
  free_page pa (free_pages_of o w) = free_pages_of o (free_page pa w).
Proof.
  revert w. induction o as [|[k pa'] o IH]; intros w; cbn; [done|]. rewrite IH.
  case_test; [done|]. by rewrite free_comm.
Qed.

Lemma free_pages_snoc o k pa (w : W) :
  free_pages_of (o ++ [(k, pa)]) w =
    if pa =? 0 then free_pages_of o w else free_page pa (free_pages_of o w).
Proof. revert w. induction o as [|[k' pa'] o IH]; intros w; cbn; [by destruct (pa =? 0)|]. apply IH. Qed.

(** The entries of an overlay in a page range, renumbered from its start. *)
Definition subset_of (start_page page_count : Z) (o : overlay) : overlay :=
  (λ e, (e.1 - start_page, e.2)) <$>
    base.filter (λ e, page_index_in_range e.1 start_page page_count = true) o.

Lemma overlay_set_fresh k pa o : k ∉ o.*1 → overlay_set k pa o = o ++ [(k, pa)].
Proof. intros Hk. unfold overlay_set. by rewrite bool_decide_eq_false_2. Qed.

Definition keyed (o : overlay) : Prop := NoDup o.*1 ∧ Forall (λ e, 0 ≤ e.1 < 2 ^ 64) o.

Lemma clone_loop_spec start_page page_count retain src done_ (w0 w : W) :
  0 ≤ start_page → keyed (done_ ++ src) →
  (retain = true → free_pages_of (subset_of start_page page_count done_) w = w0) →
  (retain = false → w = w0) →
  let r := clone_loop src start_page page_count retain (subset_of start_page page_count done_) w in
  match r.2 with
  | Some subset => subset = subset_of start_page page_count (done_ ++ src) ∧
      (retain = true → free_pages_of subset r.1 = w0) ∧ (retain = false → r.1 = w0)
  | None => retain = true ∧ r.1 = w0
  end.
Proof.
  intros Hst. revert done_ w. induction src as [|[k pa] src IH]; intros done_ w Hk Hr Hn; cbn.
  { by rewrite app_nil_r. }
  set (sub0 := subset_of start_page page_count done_) in *.
  assert (subset_of start_page page_count (done_ ++ [(k, pa)]) =
    if page_index_in_range k start_page page_count then sub0 ++ [(k - start_page, pa)] else sub0) as Hsub.
  { unfold sub0, subset_of. rewrite filter_app, fmap_app. f_equal. rewrite filter_cons. cbn.
    destruct (page_index_in_range k start_page page_count); cbn; [done|by rewrite app_nil_r]. }
  assert (done_ ++ (k, pa) :: src = (done_ ++ [(k, pa)]) ++ src) as Happ by (by rewrite <- app_assoc).
  rewrite Happ. pose proof Hk as Hk'. rewrite Happ in Hk'.
  destruct (page_index_in_range k start_page page_count) eqn:Hin; cbn [negb].
  2: { rewrite <- Hsub. apply IH; rewrite ?Hsub; done. }
  assert (overlay_set (u64 (k - start_page)) pa sub0 = sub0 ++ [(k - start_page, pa)]) as Hset.
  { apply andb_true_iff in Hin as [Hin _]. apply Z.leb_le in Hin.
    destruct Hk as [Hnd Hb]. rewrite fmap_app in Hnd. cbn in Hnd.
    apply NoDup_app in Hnd as (_ & Hd & _). rewrite Forall_app, Forall_cons_iff in Hb.
    destruct Hb as (_ & Hb & _). cbn in Hb. rewrite u64_small by lia.
    apply overlay_set_fresh. unfold sub0, subset_of. rewrite !list_elem_of_fmap.
    intros (y & E & ([k' pa'] & -> & Hf)%list_elem_of_fmap). cbn in E.
    apply list_elem_of_filter in Hf as [_ Hf]. assert (k' = k) as -> by lia.
    apply (Hd k); [|by left]. apply list_elem_of_fmap. by exists (k, pa'). }
  rewrite Hset, <- Hsub.
  destruct (retain && negb (pa =? 0)) eqn:Hret.
  - apply andb_true_iff in Hret as [-> Hpa]. apply negb_true_iff in Hpa.
    destruct (retain_page pa w) as [w' [|]] eqn:Hrp.
    + apply IH; [done| |done]. intros _. rewrite Hsub, free_pages_snoc, Hpa, free_pages_comm.
      rewrite (free_retain pa w w' Hrp). auto.
    + apply retain_refused in Hrp as ->. cbn. auto.
  - apply IH; [done| |done]. intros ->. cbn in Hret. apply negb_false_iff in Hret.
    rewrite Hsub, free_pages_snoc, Hret. auto.
Qed.
End references.

(** [clone_overlay_subset] either returns a new overlay that holds exactly
    the pages of the range, renumbered from its start, or null.  When it
    retains pages, freeing the pages of the new overlay undoes every retain,
    and a copy that fails half-way has released every page it retained. *)
Theorem clone_overlay_subset_correct {W} `{MetaEnv W} `{!PageCounts W} (s : Meta W) src o
    start_page page_count retain_pages :
  overlays s !! private_page_overlay src = Some o → private_page_overlay src ≠ nullptr →
  keyed o → 0 ≤ start_page → page_count ≠ 0 → overlays s !! ov_brk s = None →
  ∃ s' p, clone_overlay_subset s src start_page page_count retain_pages = Ret (s', p) ∧
    refs s' = refs s ∧
    ((p = ov_brk s ∧
      overlays s' = <[p := subset_of start_page page_count o]> (overlays s) ∧
      (if retain_pages then free_pages_of (subset_of start_page page_count o) (env s') = env s
       else env s' = env s)) ∨
     (p = nullptr ∧ s' = s ∧ (retain_pages = true ∨ subset_of start_page page_count o = []))).
Proof.
  intros Ho Hp Hk Hst Hc Hfresh. unfold clone_overlay_subset.
  rewrite (proj2 (Z.eqb_neq _ nullptr)), (proj2 (Z.eqb_neq page_count 0)) by done. cbn [orb].
  unfold load_overlay. rewrite Ho. cbn [obind].
  pose proof (clone_loop_spec start_page page_count retain_pages o [] (env s) (env s) Hst) as HL.
  specialize (HL ltac:(done) ltac:(done) ltac:(done)). cbv zeta in HL.
  change (subset_of start_page page_count []) with (@nil (Z * Z)) in HL. cbn [app] in HL.
  destruct (clone_loop o start_page page_count retain_pages [] (env s)) as [w r]. cbn [fst snd] in HL.
  destruct r as [subset|].
  - destruct HL as (-> & Hr & Hn). destruct (subset_of start_page page_count o) as [|e r] eqn:E.
    + exists (with_env s w), nullptr. split; [done|]. split; [done|]. right. split; [done|].
      assert (w = env s) as -> by (destruct retain_pages; [by apply Hr|by apply Hn]).
      split; [by destruct s|by right].
    + eexists _, (ov_brk s). split; [done|]. split; [done|]. left. split; [done|]. split; [done|].
      destruct retain_pages; [by apply Hr|by apply Hn].
  - destruct HL as [-> ->]. exists (with_env s (env s)), nullptr. split; [done|]. split; [done|].
    right. split; [done|]. split; [by destruct s|by left].
Qed.

(** ** Counted pages: an instance *)

(** An environment of page reference counts; files and objects are no-ops. *)
Abbreviation Counts := (gmap Z Z).

#[export] Instance Counts_env : MetaEnv Counts := {
  retain_page pa w :=
    match w !! pa with
    | Some c => if 0 <? c then (<[pa := c + 1]> w, true) else (w, false)
    | None => (w, false)
    end;
  free_page pa w := alter (λ c, c - 1) pa w;
  file_dup _ w := w;
  file_free _ w := w;
  release_shared_file_object_if_unused _ w := w;
  object_delete _ w := w
}.

#[export] Instance Counts_laws : PageCounts Counts.
Proof.
  split.
  - intros pa w w'. cbn. destruct (w !! pa); [case_test|]; congruence.
  - intros pa w w'. cbn. destruct (w !! pa) as [c|] eqn:E; [case_test|]; try congruence.
    intros [= <-]. apply map_eq. intros i. destruct (decide (i = pa)) as [->|Hne].
    + rewrite lookup_alter_eq, lookup_insert_eq, E. cbn. f_equal. lia.
    + by rewrite lookup_alter_ne, lookup_insert_ne by done.
  - intros pa pa' w. cbn. destruct (decide (pa = pa')) as [->|Hne]; [done|].
    apply map_eq. intros i. rewrite !lookup_alter. repeat case_decide; by subst.
Qed.

Definition example_meta : Meta Counts :=
  mkMeta (<[0x1000 := 1]> (<[0x2000 := 1]> ∅)) ∅ {[ 1 := [(0, 0x1000); (1, 0); (2, 0x2000)] ]} 2.

Definition overlaid : VmArea := set_overlay VmArea_default 1.

Lemma clone_overlay_subset_correct_witness :
  ∃ s' p, clone_overlay_subset example_meta overlaid 1 2 true = Ret (s', p) ∧
    refs s' = refs example_meta ∧
    ((p = ov_brk example_meta ∧
      overlays s' = <[p := [(0, 0); (1, 0x2000)]]> (overlays example_meta) ∧
      free_pages_of [(0, 0); (1, 0x2000)] (env s') = env example_meta) ∨
     (p = nullptr ∧ s' = example_meta ∧ (true = true ∨ [(0, 0); (1, 0x2000)] = []))).
Proof.
  apply (clone_overlay_subset_correct example_meta overlaid
    [(0, 0x1000); (1, 0); (2, 0x2000)] 1 2 true); try done.
  split; [apply (bool_decide_unpack _); by vm_compute|]. repeat constructor; cbn; lia.
Defined.

End VmaMeta.
