(* ===== verification/VmaSpace.v ===== *)
(** * The address space (kernel/proc/vma_space.cc)

    [VMASpace] owns the areas, in a list whose nodes are the cells of the store
    [mem], and keeps the valid ones in an index.  It is written against the
    interface [AreaIndex]; [VmaMapleTree] is the index the kernel uses. *)
From S2P Require Import Prelude VmArea AreaIndex VmaMeta.
Import VmArea AreaIndex VmaMeta.

Module VmaSpace.

(** ** Field updates of an area *)

Definition set_len (a : VmArea) (n : Z) : VmArea :=
  mkVmArea (used a) (addr a) n (prot a) (flags a) (vfd a) (vfile a) (offset a) (max_len a)
    (is_expandable a) (backing_kind a) (backing_shmid a) (backing_base a) (has_resident_pages a)
    (wipe_on_fork a) (owner_mm a) (object a) (page_offset a) (area_kind a) (grow_policy a)
    (advice_state a) (guard_pages a) (zero_fill_past_file a) (file_backed_bytes a) (debug_name a)
    (private_page_overlay a).

Definition set_resident (a : VmArea) (b : bool) : VmArea :=
  mkVmArea (used a) (addr a) (len a) (prot a) (flags a) (vfd a) (vfile a) (offset a) (max_len a)
    (is_expandable a) (backing_kind a) (backing_shmid a) (backing_base a) b
    (wipe_on_fork a) (owner_mm a) (object a) (page_offset a) (area_kind a) (grow_policy a)
    (advice_state a) (guard_pages a) (zero_fill_past_file a) (file_backed_bytes a) (debug_name a)
    (private_page_overlay a).

Definition set_owner (a : VmArea) (mm : ptr) : VmArea :=
  mkVmArea (used a) (addr a) (len a) (prot a) (flags a) (vfd a) (vfile a) (offset a) (max_len a)
    (is_expandable a) (backing_kind a) (backing_shmid a) (backing_base a) (has_resident_pages a)
    (wipe_on_fork a) mm (object a) (page_offset a) (area_kind a) (grow_policy a)
    (advice_state a) (guard_pages a) (zero_fill_past_file a) (file_backed_bytes a) (debug_name a)
    (private_page_overlay a).

Section space.
Context {I : Type} `{AreaIndex I} {W : Type} `{MetaEnv W}.

Record VMASpace := mkSpace {
  owner_mm_ : ptr;
  mem : store;
  areas_ : list ptr;
  index_ : I;
  mmap_cursor_ : Z;
  area_brk : ptr;
  meta : Meta W
}.

Definition with_mem (s : VMASpace) m := mkSpace (owner_mm_ s) m (areas_ s) (index_ s)
  (mmap_cursor_ s) (area_brk s) (meta s).
Definition with_areas (s : VMASpace) l := mkSpace (owner_mm_ s) (mem s) l (index_ s)
  (mmap_cursor_ s) (area_brk s) (meta s).
Definition with_index (s : VMASpace) i := mkSpace (owner_mm_ s) (mem s) (areas_ s) i
  (mmap_cursor_ s) (area_brk s) (meta s).
Definition with_meta (s : VMASpace) w := mkSpace (owner_mm_ s) (mem s) (areas_ s) (index_ s)
  (mmap_cursor_ s) (area_brk s) w.

(** The area a pointer points to, and an assignment through it. *)
Definition area (s : VMASpace) (p : ptr) : VmArea := mem s !!! p.
Definition set_area (s : VMASpace) (p : ptr) (a : VmArea) : VMASpace :=
  with_mem s (<[p := a]> (mem s)).

(** [areas_.push_back(a)], [areas_.pop_back()] and [areas_.clear()]. *)
Definition push_back (s : VMASpace) (a : VmArea) : VMASpace * ptr :=
  let p := area_brk s in
  (mkSpace (owner_mm_ s) (<[p := a]> (mem s)) (areas_ s ++ [p]) (index_ s)
     (mmap_cursor_ s) (p + 1) (meta s), p).

Definition pop_back (s : VMASpace) : VMASpace :=
  match last (areas_ s) with
  | Some p => with_mem (with_areas s (removelast (areas_ s))) (delete p (mem s))
  | None => s
  end.

Definition clear_areas (s : VMASpace) : VMASpace := with_mem (with_areas s []) ∅.

(** ** Index maintenance *)

Definition insert_area (s : VMASpace) (p : ptr) : outcome (VMASpace * bool) :=
  if negb (valid_range (area s p)) then Ret (s, false) else
  let! (i, b) := ix_insert (mem s) (index_ s) p in Ret (with_index s i, b).

Definition erase_area (s : VMASpace) (p : ptr) (old_addr : Z) : outcome VMASpace :=
  let! i := ix_erase (mem s) (index_ s) p
    (if old_addr =? 0 then addr (area s p) else old_addr) in
  Ret (with_index s i).

Fixpoint rebuild_loop (m : store) (i : I) (l : list ptr) : outcome (I * bool) :=
  match l with
  | [] => Ret (i, true)
  | p :: l =>
      if negb (valid_range (m !!! p)) then rebuild_loop m i l else
      let! (i, b) := ix_insert m i p in
      if b then rebuild_loop m i l else Ret (i, false)
  end.

Definition rebuild_index (s : VMASpace) : outcome (VMASpace * bool) :=
  let! i := ix_clear (index_ s) in
  let! (i, b) := rebuild_loop (mem s) i (areas_ s) in
  Ret (with_index s i, b).

Definition reindex_area (s : VMASpace) (p : ptr) (old_addr : Z) : outcome (VMASpace * bool) :=
  let! i := ix_erase (mem s) (index_ s) p old_addr in
  let! (i, b) := ix_insert (mem s) i p in
  if b then Ret (with_index s i, true) else rebuild_index (with_index s i).

(** ** Creation and destruction *)

Definition init (s : VMASpace) (owner : ptr) : outcome VMASpace :=
  let s := clear_areas (mkSpace owner (mem s) (areas_ s) (index_ s) 0 (area_brk s) (meta s)) in
  let! i := ix_clear (index_ s) in Ret (with_index s i).

Fixpoint release_all (w : Meta W) (m : store) (l : list ptr) : outcome (Meta W) :=
  match l with
  | [] => Ret w
  | p :: l => let! (w, _) := release_metadata w (m !!! p) in release_all w m l
  end.

Definition clear (s : VMASpace) : outcome VMASpace :=
  let! w := release_all (meta s) (mem s) (areas_ s) in
  let s := clear_areas (with_meta s w) in
  let! i := ix_clear (index_ s) in Ret (with_index s i).

(** The area [create_area] fills in. *)
Definition fresh_area (owner : ptr) (addr length prot flags : Z) (object : ptr)
    (page_offset : Z) (kind : VmAreaKind) (grow_policy : VmGrowPolicy) (guard_pages : Z)
    (debug_name : ptr) : VmArea := {|
  used := 1; VmArea.addr := addr; len := length; VmArea.prot := prot; VmArea.flags := flags;
  vfd := -1; vfile := nullptr; offset := 0; max_len := length;
  is_expandable := bool_decide (grow_policy ≠ GrowNone);
  backing_kind := VMA_BACKING_NONE; backing_shmid := -1; backing_base := 0;
  has_resident_pages := false; wipe_on_fork := false; owner_mm := owner;
  VmArea.object := object; VmArea.page_offset := page_offset; area_kind := kind;
  VmArea.grow_policy := grow_policy; advice_state := AdviceNone;
  VmArea.guard_pages := guard_pages; zero_fill_past_file := false; file_backed_bytes := 0;
  VmArea.debug_name := debug_name; private_page_overlay := nullptr |}.

Definition create_area (s : VMASpace) (addr length prot flags : Z) (object : ptr)
    (page_offset : Z) (kind : VmAreaKind) (grow_policy : VmGrowPolicy) (guard_pages : Z)
    (debug_name : ptr) : outcome (VMASpace * ptr) :=
  if length =? 0 then Ret (s, nullptr) else
  let (s, inserted) := push_back s
    (fresh_area (owner_mm_ s) addr length prot flags object page_offset kind grow_policy
       guard_pages debug_name) in
  let! (s, ok) := insert_area s inserted in
  if ok then Ret (s, inserted) else
  let s := if VmArea.object (area s inserted) =? nullptr then s
           else with_meta s (put_or_delete (meta s) (VmArea.object (area s inserted))) in
  Ret (pop_back s, nullptr).

Definition clone_area_from (s : VMASpace) (src : VmArea) : outcome (VMASpace * ptr) :=
  let (s, inserted) := push_back s VmArea_default in
  let! (w, dst, ok) := clone_snapshot (meta s) src in
  let s := set_area (with_meta s w) inserted dst in
  if negb ok then Ret (pop_back s, nullptr) else
  let s := set_area s inserted (set_owner (area s inserted) (owner_mm_ s)) in
  if valid_range (area s inserted) then
    let! (s, ok) := insert_area s inserted in
    if ok then Ret (s, inserted) else
    let! (w, a) := release_metadata (meta s) (area s inserted) in
    Ret (pop_back (set_area (with_meta s w) inserted a), nullptr)
  else Ret (s, inserted).

Definition destroy_area (s : VMASpace) (p : ptr) : outcome VMASpace :=
  if p =? nullptr then Ret s else
  let! s := erase_area s p (addr (area s p)) in
  if bool_decide (p ∈ areas_ s) then
    let! (w, _) := release_metadata (meta s) (area s p) in
    Ret (with_mem (with_areas (with_meta s w) (base.filter (.≠ p) (areas_ s))) (delete p (mem s)))
  else Ret s.

(** ** Queries *)

Definition find_vma_covering (s : VMASpace) (a : Z) := ix_find (mem s) (index_ s) a.
Definition find_first_vma_at_or_after (s : VMASpace) (a : Z) := ix_lower_bound (mem s) (index_ s) a.
Definition find_prev_vma (s : VMASpace) (a : Z) := ix_prev_by_start (mem s) (index_ s) a.
Definition find_next_vma (s : VMASpace) (p : ptr) := ix_next (mem s) (index_ s) p.
Definition has_conflict (s : VMASpace) (start_addr end_addr : Z) (ignore : ptr) :=
  ix_has_conflict (mem s) (index_ s) start_addr end_addr ignore.
Definition find_gap (s : VMASpace) (start_hint min_addr max_addr size alignment : Z) :=
  ix_find_gap (mem s) (index_ s) start_hint min_addr max_addr size alignment.

(** The first area of a kind, in list order. *)
Definition find_kind (k : VmAreaKind) (s : VMASpace) : ptr :=
  hd nullptr (base.filter (λ p, area_kind (area s p) = k) (areas_ s)).
Definition find_heap_area : VMASpace → ptr := find_kind Heap.
Definition find_stack_area : VMASpace → ptr := find_kind UserStack.

(** ** Coalescing of private anonymous areas *)

Definition UINT64_MAX : Z := 2 ^ 64 - 1.

Definition can_coalesce_private_anonymous (s : VMASpace) (left_ right_ : VmArea) : bool :=
  if negb (valid_range left_) || negb (valid_range right_) ||
     negb (end_addr left_ =? addr right_) || (u64 (UINT64_MAX - len right_) <? len left_) ||
     negb (owner_mm left_ =? owner_mm_ s) || negb (owner_mm right_ =? owner_mm_ s)
  then false else
  if (Z.land (flags left_) MAP_PRIVATE =? 0) || (Z.land (flags left_) MAP_ANONYMOUS =? 0) ||
     negb (vfd left_ =? -1) || negb (vfd right_ =? -1) ||
     negb (vfile left_ =? nullptr) || negb (vfile right_ =? nullptr) ||
     negb (object left_ =? nullptr) || negb (object right_ =? nullptr) ||
     negb (private_page_overlay left_ =? nullptr) || negb (private_page_overlay right_ =? nullptr) ||
     negb (backing_kind left_ =? VMA_BACKING_NONE) || negb (backing_kind right_ =? VMA_BACKING_NONE)
  then false else
  (prot left_ =? prot right_) && (flags left_ =? flags right_) &&
  bool_decide (area_kind left_ = area_kind right_) &&
  bool_decide (grow_policy left_ = grow_policy right_) &&
  bool_decide (advice_state left_ = advice_state right_) &&
  (guard_pages left_ =? guard_pages right_) &&
  Bool.eqb (wipe_on_fork left_) (wipe_on_fork right_) &&
  Bool.eqb (zero_fill_past_file left_) (zero_fill_past_file right_) &&
  (debug_name left_ =? debug_name right_) && (max_len left_ =? max_len right_) &&
  Bool.eqb (is_expandable left_) (is_expandable right_) &&
  (file_backed_bytes left_ =? 0) && (file_backed_bytes right_ =? 0) &&
  (page_offset left_ <=? u64 (UINT64_MAX - len left_)) &&
  (offset left_ <=? u64 (UINT64_MAX - len left_)) &&
  (u64 (page_offset left_ + len left_) =? page_offset right_) &&
  (u64 (offset left_ + len left_) =? offset right_).

Definition merge_private_anonymous (s : VMASpace) (left_ right_ : ptr) : outcome (VMASpace * bool) :=
  if negb (can_coalesce_private_anonymous s (area s left_) (area s right_)) then Ret (s, false) else
  let old_len := len (area s left_) in
  let old_has_resident_pages := has_resident_pages (area s left_) in
  let! s := erase_area s left_ (addr (area s left_)) in
  let! s := erase_area s right_ (addr (area s right_)) in
  let s := set_area s left_
    (set_len (area s left_) (u64 (len (area s left_) + len (area s right_)))) in
  let s := set_area s left_
    (set_resident (area s left_)
       (has_resident_pages (area s left_) || has_resident_pages (area s right_))) in
  let! (s, ok) := insert_area s left_ in
  if negb ok then
    let s := set_area s left_ (set_len (area s left_) old_len) in
    let s := set_area s left_ (set_resident (area s left_) old_has_resident_pages) in
    let! (s, ok) := insert_area s left_ in
    if negb ok then Panic else
    let! (s, ok) := insert_area s right_ in
    if negb ok then Panic else Ret (s, false)
  else
    let! s := destroy_area s right_ in Ret (s, true).

(** The loop that absorbs the areas after [p]. *)
Fixpoint coalesce_next (fuel : nat) (s : VMASpace) (p : ptr) : outcome VMASpace :=
  match fuel with
  | O => Stuck
  | S f =>
      let! next_area := find_next_vma s p in
      if next_area =? nullptr then Ret s else
      let! (s, merged) := merge_private_anonymous s p next_area in
      if merged then coalesce_next f s p else Ret s
  end.

Definition coalesce_private_anonymous_around (s : VMASpace) (p : ptr) : outcome (VMASpace * ptr) :=
  if p =? nullptr then Ret (s, nullptr) else
  let! previous := find_prev_vma s (addr (area s p)) in
  let! (s, merged) := (if previous =? nullptr then Ret (s, false)
    else merge_private_anonymous s previous p) in
  let p := if merged then previous else p in
  let! s := coalesce_next (S (length (areas_ s))) s p in
  Ret (s, p).

Fixpoint coalesce_range_loop (fuel : nat) (s : VMASpace) (p : ptr) (end_addr : Z)
    : outcome VMASpace :=
  match fuel with
  | O => Stuck
  | S f =>
      if negb (p =? nullptr) && (addr (area s p) <? end_addr) then
        let! (s, p) := coalesce_private_anonymous_around s p in
        let! next_area := find_next_vma s p in
        if (next_area =? nullptr) || (end_addr <=? addr (area s next_area)) then Ret s
        else coalesce_range_loop f s next_area end_addr
      else Ret s
  end.

Definition coalesce_private_anonymous_range (s : VMASpace) (start_addr end_addr : Z)
    : outcome VMASpace :=
  if end_addr <=? start_addr then Ret s else
  let! p := find_vma_covering s start_addr in
  let! p := (if p =? nullptr then find_first_vma_at_or_after s start_addr else Ret p) in
  coalesce_range_loop (S (length (areas_ s))) s p end_addr.

End space.
Arguments VMASpace : clear implicits.

End VmaSpace.
