(* ===== verification/VmaSpaceCorrect.v ===== *)
(** * Correctness of the address space

    The invariant [Space s l]: the index holds exactly the valid areas of the
    space, [l] in address order.  Creation, destruction, rebuilding and
    coalescing preserve it; coalescing changes no address's attributes.
    Everything is proved against the interface [AreaIndex]. *)
From S2P Require Import Prelude VmArea AreaIndex MapleTree MapleSpec MapleRep MapleCorrect VmaMeta VmaSpace.
Import VmArea AreaIndex VmaMeta VmaSpace.

Module VmaSpaceCorrect.

Section space.
Context {I : Type} `{AreaIndex I} {W : Type} `{MetaEnv W}.
Implicit Types s : VMASpace I W.

Record Space s (l : list ptr) : Prop := {
  sp_index : ix_rep (mem s) (index_ s) l;
  sp_sub : ∀ p, p ∈ l → p ∈ areas_ s;
  sp_valid : ∀ p, p ∈ areas_ s → valid_range (area s p) = true → p ∈ l;
  sp_nodup : NoDup (areas_ s);
  sp_dom : ∀ p, is_Some (mem s !! p) ↔ p ∈ areas_ s;
  sp_bound : Forall (λ p, nullptr < p < area_brk s) (areas_ s);
  sp_sized : ∀ p, p ∈ areas_ s → sized (area s p);
  sp_offsets : ∀ p, p ∈ areas_ s → 0 ≤ page_offset (area s p) ∧ 0 ≤ offset (area s p);
  sp_brk : nullptr < area_brk s
}.

Lemma space_ordered s l : Space s l → ordered (mem s) l.
Proof. intros HS. eapply ix_rep_ordered, sp_index, HS. Qed.

Lemma space_entry s l p : Space s l → p ∈ l → valid_entry (mem s) p.
Proof. intros [Ho _]%space_ordered Hp. rewrite Forall_forall in Ho. by apply Ho. Qed.

(** The store changed only outside the index. *)
Lemma agree_insert (m : store) p a l : p ∉ l → agree m (<[p := a]> m) l.
Proof. intros Hp q Hq. rewrite lookup_total_insert_ne; [done|]. by intros ->. Qed.

Lemma agree_delete (m : store) p l : p ∉ l → agree m (delete p m) l.
Proof. intros Hp q Hq. rewrite lookup_total_delete_ne; [done|]. by intros ->. Qed.

(** ** Insertion and removal of one area *)

Lemma erase_area_spec s p A B old_addr :
  ix_rep (mem s) (index_ s) (A ++ p :: B) → old_addr = addr (area s p) →
  ∃ i, erase_area s p old_addr = Ret (with_index s i) ∧ ix_rep (mem s) i (A ++ B).
Proof.
  intros HI ->. unfold erase_area.
  replace (if addr (area s p) =? 0 then addr (area s p) else addr (area s p))
    with (addr (area s p)) by (by destruct (_ =? _)).
  destruct (ix_erase_law (mem s) (mem s) (index_ s) A p B HI) as (i & Hrun & HI'); [done|].
  unfold area. rewrite Hrun. by exists i.
Qed.

(** An area that hits nothing goes to its place. *)
Lemma insert_area_accepts s p A B :
  ix_rep (mem s) (index_ s) (A ++ B) → valid_entry (mem s) p →
  (∀ q, q ∈ A → below (mem s) q p) → (∀ q, q ∈ B → below (mem s) p q) →
  ∃ i, insert_area s p = Ret (with_index s i, true) ∧ ix_rep (mem s) i (A ++ p :: B).
Proof.
  intros HI Hp HA HB. pose proof Hp as (Hp0 & Hsz & Hv). unfold insert_area, area. rewrite Hv.
  pose proof (ix_rep_ordered _ _ _ HI) as Ho. pose proof (valid_entry_end _ _ Hp) as He.
  destruct (ix_insert_law _ _ _ p HI Hp0 Hsz) as (i & b & -> & Hb). cbn [negb obind].
  destruct b.
  - destruct Hb as (_ & _ & A' & B' & E & HI'). exists i. split; [done|].
    replace (A ++ p :: B) with (A' ++ p :: B'); [done|].
    apply (ordered_unique (mem s)); [by eapply ix_rep_ordered|by apply ordered_insert|].
    rewrite <- !Permutation_middle. by rewrite E.
  - destruct Hb as (_ & [?|(q & Hq & Hh)]); [congruence|].
    destruct Ho as [Ho _]. rewrite Forall_forall in Ho. rewrite hits_spec in Hh by (by apply Ho).
    apply elem_of_app in Hq as [Hq|Hq]; [specialize (HA q Hq)|specialize (HB q Hq)];
      unfold below in *; lia.
Qed.

(** ** What an address space says about an address *)

(** The shared memory segment behind an area; the two fields have no meaning
    in an area that no segment backs. *)
Definition segment (a : VmArea) : option (Z * Z) :=
  if backing_kind a =? VMA_BACKING_NONE then None else Some (backing_shmid a, backing_base a).

Lemma segment_none a : backing_kind a = VMA_BACKING_NONE → segment a = None.
Proof. intros E. unfold segment. by rewrite E. Qed.

(** The attributes of an area that do not depend on the address. *)
Definition attrs (a : VmArea) :=
  (prot a, flags a, area_kind a, grow_policy a, advice_state a, guard_pages a,
   wipe_on_fork a, zero_fill_past_file a, debug_name a, max_len a, is_expandable a,
   (vfd a, vfile a, object a, private_page_overlay a, backing_kind a, segment a,
    file_backed_bytes a, owner_mm a)).

(** The address [x] is mapped with attributes [v] and, counted from the start
    of the backing, at the offsets [po] and [o]. *)
Definition mapped (m : store) (l : list ptr) (x : Z) v (po o : Z) : Prop :=
  ∃ p, p ∈ l ∧ covers (m !!! p) x = true ∧ v = attrs (m !!! p) ∧
    po = page_offset (m !!! p) + (x - addr (m !!! p)) ∧
    o = offset (m !!! p) + (x - addr (m !!! p)).

(** The area [a] lies within the area [b]. *)
Definition inside (a b : VmArea) : Prop := addr b ≤ addr a ∧ end_addr a ≤ end_addr b.

Lemma inside_trans a b c : inside a b → inside b c → inside a c.
Proof. unfold inside. lia. Qed.

(** Every area of [l] lies within one of [l'], which is marked as having
    resident pages if the area was; and an area of [l'] is marked only if
    one of the areas it consists of was. *)
Definition marks_kept (m : store) (l : list ptr) (m' : store) (l' : list ptr) : Prop :=
  (∀ q, q ∈ l → ∃ p, p ∈ l' ∧ inside (m !!! q) (m' !!! p) ∧
     (has_resident_pages (m !!! q) = true → has_resident_pages (m' !!! p) = true)) ∧
  (∀ p, p ∈ l' → has_resident_pages (m' !!! p) = true →
     ∃ q, q ∈ l ∧ inside (m !!! q) (m' !!! p) ∧ has_resident_pages (m !!! q) = true).

Lemma marks_kept_refl m l : marks_kept m l m l.
Proof. split; intros p Hp; [|intros Hr]; exists p; unfold inside; (split_and!; [done|lia|lia|done]). Qed.

Lemma marks_kept_trans m l m' l' m'' l'' :
  marks_kept m l m' l' → marks_kept m' l' m'' l'' → marks_kept m l m'' l''.
Proof.
  intros [K1 M1] [K2 M2]. split.
  - intros q Hq. destruct (K1 q Hq) as (p & Hp & Hi & Hr). destruct (K2 p Hp) as (o & Ho & Hi' & Hr').
    exists o. split_and!; [done|by eapply inside_trans|auto].
  - intros p Hp Hr. destruct (M2 p Hp Hr) as (q & Hq & Hi & Hr').
    destruct (M1 q Hq Hr') as (o & Ho & Hi' & Hr''). exists o.
    split_and!; [done|by eapply inside_trans|done].
Qed.

Lemma can_coalesce_inv s a b :
  sized a → sized b → can_coalesce_private_anonymous s a b = true →
  valid_range a = true ∧ valid_range b = true ∧ end_addr a = addr b ∧ attrs a = attrs b ∧
  vfile b = nullptr ∧ object b = nullptr ∧ private_page_overlay b = nullptr ∧
  ((0 ≤ page_offset a → page_offset a + len a = page_offset b) ∧
   (0 ≤ offset a → offset a + len a = offset b)).
Proof.
  intros Hsa Hsb. unfold can_coalesce_private_anonymous.
  destruct (negb (valid_range a) || _ || _ || _ || _ || _) eqn:E1; [done|].
  destruct ((Z.land (flags a) MAP_PRIVATE =? 0) || _ || _ || _ || _ || _ || _ || _ || _ || _ || _ || _) eqn:E2; [done|].
  intros HC. bool_facts.
  split_and!; try done; [unfold attrs; rewrite !segment_none by done; congruence|..].
  all: intros Hp; unfold UINT64_MAX in *; destruct Hsa as [_ Hla];
    rewrite (u64_small (2 ^ 64 - 1 - len a)) in * by lia; rewrite u64_small in * by lia; done.
Qed.

(** ** Merging two areas *)

(** The left area after a merge. *)
Definition merged_area (a b : VmArea) : VmArea :=
  set_resident (set_len a (u64 (len a + len b))) (has_resident_pages a || has_resident_pages b).

Lemma merged_area_spec a b :
  sized a → sized b → valid_range a = true → valid_range b = true → end_addr a = addr b →
  sized (merged_area a b) ∧ valid_range (merged_area a b) = true ∧
  end_addr (merged_area a b) = end_addr b ∧ len (merged_area a b) = len a + len b.
Proof.
  intros Hsa Hsb Hva Hvb He. pose proof Hsa as [Haa Hla]. pose proof Hsb as [Hab Hlb].
  destruct (valid_end a Hsa Hva) as (Ea & ? & ?). destruct (valid_end b Hsb Hvb) as (Eb & ? & ?).
  assert (end_addr (merged_area a b) = end_addr b) as E.
  { unfold end_addr at 1. cbn. rewrite (u64_small (len a + len b)) by lia.
    replace (addr a + (len a + len b)) with (end_addr b) by lia. apply u64_small. lia. }
  split_and!; [|unfold valid_range; rewrite E|done|].
  - unfold sized. cbn. rewrite u64_small by lia. lia.
  - unfold valid_range in Hva. bool_facts. cbn. rewrite u64_small by lia.
    rewrite !andb_true_iff, !negb_true_iff, !Z.eqb_neq, Z.ltb_lt. lia.
  - cbn. apply u64_small. lia.
Qed.

Lemma area_set_eq s p a : area (set_area s p a) p = a.
Proof. unfold area, set_area. cbn. by rewrite lookup_total_insert_eq. Qed.

Lemma area_set_ne s p q a : p ≠ q → area (set_area s p a) q = area s q.
Proof. intros. unfold area, set_area. cbn. by rewrite lookup_total_insert_ne. Qed.

Lemma set_area_twice s p a b : set_area (set_area s p a) p b = set_area s p b.
Proof. unfold set_area, with_mem. cbn. by rewrite insert_insert_eq. Qed.

Lemma release_metadata_plain (w : Meta W) a :
  vfile a = nullptr → object a = nullptr → private_page_overlay a = nullptr →
  release_metadata w a = Ret (w, a).
Proof.
  intros Hv Ho Hp. unfold release_metadata, drop_overlay.
  rewrite Hv. cbn [Z.eqb nullptr]. rewrite Ho. cbn [Z.eqb nullptr negb]. by rewrite Hp.
Qed.

Lemma merge_spec s A p q B :
  Space s (A ++ p :: q :: B) →
  ∃ s' b, merge_private_anonymous s p q = Ret (s', b) ∧
    if b then
      can_coalesce_private_anonymous s (area s p) (area s q) = true ∧
      mem s' = delete q (<[p := merged_area (area s p) (area s q)]> (mem s)) ∧
      areas_ s' = base.filter (.≠ q) (areas_ s) ∧ owner_mm_ s' = owner_mm_ s ∧
      mmap_cursor_ s' = mmap_cursor_ s ∧ area_brk s' = area_brk s ∧ meta s' = meta s ∧
      ix_rep (mem s') (index_ s') (A ++ p :: B)
    else s' = s ∧ can_coalesce_private_anonymous s (area s p) (area s q) = false.
Proof.
  intros HS. unfold merge_private_anonymous.
  destruct (can_coalesce_private_anonymous s (area s p) (area s q)) eqn:Hcc; cbn [negb];
    [|by exists s, false].
  pose proof (space_entry s _ p HS ltac:(in_list)) as Hp.
  pose proof (space_entry s _ q HS ltac:(in_list)) as Hq.
  pose proof Hp as (Hp0 & Hsp & Hvp). pose proof Hq as (Hq0 & Hsq & Hvq).
  destruct (can_coalesce_inv s (area s p) (area s q) Hsp Hsq Hcc)
    as (_ & _ & He & _ & Hvf & Hob & Hov & _).
  destruct (merged_area_spec (area s p) (area s q) Hsp Hsq Hvp Hvq He) as (Hsm & Hvm & Hem & Hlm).
  pose proof (space_ordered _ _ HS) as Ho. pose proof (ordered_NoDup _ _ Ho) as Hnd.
  destruct (NoDup_middle2 _ _ _ _ Hnd) as (Hpq & HpAB & _ & HqAB).
  destruct (erase_area_spec s p A (q :: B) (addr (area s p)) (sp_index _ _ HS)) as (i1 & -> & HI1);
    [done|]. cbn [obind].
  destruct (erase_area_spec (with_index s i1) q A B (addr (area s q)) HI1) as (i2 & Hr2 & HI2); [done|].
  change (area (with_index s i1) q) with (area s q). rewrite Hr2. cbn [obind].
  set (s2 := with_index (with_index s i1) i2) in *.
  rewrite area_set_eq, area_set_ne, set_area_twice by done.
  match goal with |- context [set_area s2 p ?a] =>
    change (set_area s2 p a) with (set_area s2 p (merged_area (area s p) (area s q))) end.
  set (s3 := set_area s2 p _).
  assert (area s3 p = merged_area (area s p) (area s q)) as Hap by apply area_set_eq.
  assert (∀ r, r ∈ A ++ B → area s3 r = area s r) as Har.
  { intros r Hr. change (area s r) with (area s2 r). apply area_set_ne. by intros ->. }
  destruct (insert_area_accepts s3 p A B) as (i3 & -> & HI3).
  { eapply ix_rep_agree; [exact HI2|]. by apply agree_insert. }
  { unfold valid_entry. change (mem s3 !!! p) with (area s3 p). by rewrite Hap. }
  { intros r Hr. unfold below. change (mem s3 !!! p) with (area s3 p).
    change (mem s3 !!! r) with (area s3 r). rewrite Hap, Har by in_list.
    apply ordered_app in Ho as (_ & _ & Hb). apply (Hb r p); [done|by left]. }
  { intros r Hr. unfold below. change (mem s3 !!! p) with (area s3 p).
    change (mem s3 !!! r) with (area s3 r). rewrite Hap, Har, Hem by in_list.
    apply ordered_app in Ho as (_ & [_ Hs] & _). rewrite !StronglySorted_cons in Hs.
    destruct Hs as (_ & Hs & _). rewrite Forall_forall in Hs. by apply Hs. }
  cbn [obind negb]. unfold destroy_area. rewrite (proj2 (Z.eqb_neq q nullptr)) by done.
  unfold erase_area. cbn [mem index_ with_index].
  rewrite (ix_erase_absent (mem s3) (mem s3) i3 (A ++ p :: B)) by done. cbn [obind].
  rewrite bool_decide_eq_true_2; [|apply (sp_sub _ _ HS); in_list].
  assert (area (with_index (with_index s3 i3) i3) q = area s q) as Eq
    by (change (area s3 q = area s2 q); by apply area_set_ne).
  rewrite release_metadata_plain by (by rewrite Eq). cbn [obind].
  eexists _, true. split; [reflexivity|]. split_and!; try done.
  cbn. eapply ix_rep_agree; [exact HI3|]. by apply agree_delete.
Qed.

(** What a pass of coalescing may change. *)
Record Coalesced s (l : list ptr) s' (l' : list ptr) : Prop := {
  co_mapped : ∀ x v po o, mapped (mem s) l x v po o ↔ mapped (mem s') l' x v po o;
  co_marks : marks_kept (mem s) l (mem s') l';
  co_owner : owner_mm_ s' = owner_mm_ s;
  co_cursor : mmap_cursor_ s' = mmap_cursor_ s;
  co_meta : meta s' = meta s;
  co_length : (length (areas_ s') + length l ≤ length (areas_ s) + length l')%nat
}.

Lemma Coalesced_refl s l : Coalesced s l s l.
Proof. split; apply marks_kept_refl || done || lia. Qed.

Lemma Coalesced_trans s l s' l' s'' l'' :
  Coalesced s l s' l' → Coalesced s' l' s'' l'' → Coalesced s l s'' l''.
Proof.
  intros [M1 K1 O1 C1 E1 L1] [M2 K2 O2 C2 E2 L2].
  split; [|by eapply marks_kept_trans|congruence..|lia]. intros x v po o. by rewrite M1, M2.
Qed.

Lemma filter_ne_length (l : list ptr) q :
  q ∈ l → (S (length (base.filter (.≠ q) l)) ≤ length l)%nat.
Proof.
  intros Hq. induction l as [|x l IH]; [by apply elem_of_nil in Hq|].
  rewrite filter_cons. apply elem_of_cons in Hq as [->|Hq].
  - rewrite decide_False by (intros Hn; by apply Hn). cbn. apply le_n_S, length_filter.
  - specialize (IH Hq). destruct (decide (x ≠ q)); cbn; lia.
Qed.

Lemma merge_mapped s A p q B m' :
  Space s (A ++ p :: q :: B) →
  can_coalesce_private_anonymous s (area s p) (area s q) = true →
  m' = delete q (<[p := merged_area (area s p) (area s q)]> (mem s)) →
  ∀ x v po o, mapped (mem s) (A ++ p :: q :: B) x v po o ↔ mapped m' (A ++ p :: B) x v po o.
Proof.
  intros HS Hcc -> x v po o.
  pose proof (space_entry s _ p HS ltac:(in_list)) as (_ & Hsp & Hvp).
  pose proof (space_entry s _ q HS ltac:(in_list)) as (_ & Hsq & Hvq).
  pose proof (ordered_NoDup _ _ (space_ordered _ _ HS)) as Hnd.
  destruct (can_coalesce_inv s (area s p) (area s q) Hsp Hsq Hcc)
    as (_ & _ & He & Hat & _ & _ & _ & Hpo & Ho).
  destruct (sp_offsets _ _ HS p) as [Hp1 Hp2]; [apply (sp_sub _ _ HS); in_list|].
  specialize (Hpo Hp1). specialize (Ho Hp2).
  destruct (merged_area_spec (area s p) (area s q) Hsp Hsq Hvp Hvq He) as (Hsm & Hvm & Hem & Hlm).
  destruct (valid_end (area s p) Hsp Hvp) as (Ep & ? & ?).
  destruct (valid_end (area s q) Hsq Hvq) as (Eq & ? & ?).
  set (m' := delete q _).
  destruct (NoDup_middle2 _ _ _ _ Hnd) as (Hpq & HpAB & HqAB & _).
  assert (m' !!! p = merged_area (area s p) (area s q)) as Emp.
  { unfold m'. rewrite lookup_total_delete_ne, lookup_total_insert_eq; done. }
  assert (∀ r, r ∈ A ++ B → m' !!! r = mem s !!! r) as Er.
  { intros r Hr. unfold m'. rewrite lookup_total_delete_ne, lookup_total_insert_ne; [done|..];
      by intros ->. }
  assert (covers (m' !!! p) x = true ↔ covers (area s p) x = true ∨ covers (area s q) x = true) as Hcov.
  { rewrite Emp, !covers_spec, Hem by done. cbn. unfold area in *. lia. }
  split.
  - intros (r & Hr & Hc & -> & -> & ->).
    assert (r = p ∨ r = q ∨ r ∈ A ++ B) as [->|[->|HrAB]] by in_list.
    + exists p. split_and!; [in_list|rewrite Hcov; by left|by rewrite Emp..].
    + exists p. split_and!; [in_list| |rewrite Emp; exact (eq_sym Hat)| |].
      * rewrite Hcov. by right.
      * rewrite Emp. cbn. unfold area in *. lia.
      * rewrite Emp. cbn. unfold area in *. lia.
    + exists r. rewrite !(Er r HrAB). split_and!; [in_list|done..].
  - intros (r & Hr & Hc & -> & -> & ->).
    assert (r = p ∨ r ∈ A ++ B) as [->|HrAB] by in_list.
    + apply Hcov in Hc as Hc'. rewrite Emp. destruct Hc' as [Hc'|Hc'].
      * exists p. split_and!; [in_list|done..].
      * exists q. split_and!; [in_list|done|exact Hat| |]; cbn; unfold area in *; lia.
    + exists r. rewrite !(Er r HrAB) in *. split_and!; [in_list|done..].
Qed.

Lemma merge_marks s A p q B m' :
  Space s (A ++ p :: q :: B) →
  can_coalesce_private_anonymous s (area s p) (area s q) = true →
  m' = delete q (<[p := merged_area (area s p) (area s q)]> (mem s)) →
  marks_kept (mem s) (A ++ p :: q :: B) m' (A ++ p :: B).
Proof.
  intros HS Hcc ->.
  pose proof (space_entry s _ p HS ltac:(in_list)) as (_ & Hsp & Hvp).
  pose proof (space_entry s _ q HS ltac:(in_list)) as (_ & Hsq & Hvq).
  destruct (can_coalesce_inv s (area s p) (area s q) Hsp Hsq Hcc) as (_ & _ & He & _).
  destruct (merged_area_spec (area s p) (area s q) Hsp Hsq Hvp Hvq He) as (_ & _ & Hem & _).
  destruct (valid_end (area s p) Hsp Hvp) as (_ & ? & ?).
  destruct (valid_end (area s q) Hsq Hvq) as (_ & ? & ?).
  destruct (NoDup_middle2 _ _ _ _ (ordered_NoDup _ _ (space_ordered _ _ HS))) as (Hpq & HpAB & HqAB & _).
  set (m' := delete q _).
  assert (m' !!! p = merged_area (area s p) (area s q)) as Emp.
  { unfold m'. rewrite lookup_total_delete_ne, lookup_total_insert_eq; done. }
  assert (∀ r, r ∈ A ++ B → m' !!! r = mem s !!! r) as Er.
  { intros r Hr. unfold m'. rewrite lookup_total_delete_ne, lookup_total_insert_ne; [done|..];
      by intros ->. }
  assert (inside (area s p) (m' !!! p) ∧ inside (area s q) (m' !!! p)) as [Hip Hiq].
  { unfold inside. rewrite Emp, Hem. cbn. unfold area in *. lia. }
  split.
  - intros r Hr. assert (r = p ∨ r = q ∨ r ∈ A ++ B) as [->|[->|HrAB]] by in_list.
    + exists p. split_and!; [in_list|apply Hip..|]. rewrite Emp. cbn. unfold area. by intros ->.
    + exists p. split_and!; [in_list|apply Hiq..|]. rewrite Emp. cbn. unfold area. intros ->. apply orb_true_r.
    + exists r. rewrite (Er r HrAB). unfold inside. split_and!; [in_list|lia|lia|done].
  - intros r Hr Hres. assert (r = p ∨ r ∈ A ++ B) as [->|HrAB] by in_list.
    + rewrite Emp in Hres. cbn in Hres. apply orb_true_iff in Hres as [Hres|Hres].
      * exists p. split_and!; [in_list|apply Hip..|done].
      * exists q. split_and!; [in_list|apply Hiq..|done].
    + exists r. rewrite (Er r HrAB) in *. unfold inside. split_and!; [in_list|lia|lia|done].
Qed.

Lemma merge_space s A p q B s' :
  Space s (A ++ p :: q :: B) →
  can_coalesce_private_anonymous s (area s p) (area s q) = true →
  mem s' = delete q (<[p := merged_area (area s p) (area s q)]> (mem s)) →
  areas_ s' = base.filter (.≠ q) (areas_ s) → area_brk s' = area_brk s →
  ix_rep (mem s') (index_ s') (A ++ p :: B) → Space s' (A ++ p :: B).
Proof.
  intros HS Hcc Em Ea Eb HI.
  pose proof (space_entry s _ p HS ltac:(in_list)) as (_ & Hsp & Hvp).
  pose proof (space_entry s _ q HS ltac:(in_list)) as (_ & Hsq & Hvq).
  pose proof (ordered_NoDup _ _ (space_ordered _ _ HS)) as Hnd.
  destruct (can_coalesce_inv s (area s p) (area s q) Hsp Hsq Hcc) as (_ & _ & He & _).
  destruct (merged_area_spec (area s p) (area s q) Hsp Hsq Hvp Hvq He) as (Hsm & _).
  destruct (NoDup_middle2 _ _ _ _ Hnd) as (Hpq & _ & _ & Hq).
  assert (p ∈ areas_ s) as Hpa by (apply (sp_sub _ _ HS); in_list).
  assert (∀ r, r ≠ q → area s' r = if decide (r = p) then merged_area (area s p) (area s q)
    else area s r) as Har.
  { intros r Hr. unfold area at 1. rewrite Em, lookup_total_delete_ne by done.
    case_decide; [subst r; by rewrite lookup_total_insert_eq|].
    by rewrite lookup_total_insert_ne. }
  assert (∀ r, r ∈ areas_ s' ↔ r ≠ q ∧ r ∈ areas_ s) as Hin.
  { intros r. by rewrite Ea, list_elem_of_filter. }
  split.
  - done.
  - intros r Hr. rewrite Hin. split; [by intros ->|]. apply (sp_sub _ _ HS). in_list.
  - intros r [Hrq Hr]%Hin Hv. rewrite Har in Hv by done. case_decide; [subst r; in_list|].
    pose proof (sp_valid _ _ HS r Hr Hv). in_list.
  - rewrite Ea. apply NoDup_filter, HS.
  - intros r. rewrite Em, Hin, <- (sp_dom _ _ HS), lookup_delete_is_Some, lookup_insert_is_Some.
    split; intros [Hr Hs]; (split; [done|]).
    + destruct Hs as [->|[_ ?]]; [|done]. by apply (sp_dom _ _ HS).
    + destruct (decide (p = r)); [by left|by right].
  - rewrite Ea, Eb, Forall_forall. intros r [_ Hr]%list_elem_of_filter.
    pose proof (sp_bound _ _ HS) as Hb. rewrite Forall_forall in Hb. by apply Hb.
  - intros r [Hrq Hr]%Hin. rewrite Har by done. case_decide; [done|]. by apply (sp_sized _ _ HS).
  - intros r [Hrq Hr]%Hin. rewrite Har by done.
    case_decide; [subst r; by apply (sp_offsets _ _ HS p)|]. by apply (sp_offsets _ _ HS).
  - rewrite Eb. apply HS.
Qed.

(** An area that absorbed its successors. *)
Definition grown (a b : VmArea) : Prop :=
  attrs b = attrs a ∧ addr b = addr a ∧ page_offset b = page_offset a ∧ offset b = offset a ∧
  len a ≤ len b.

Lemma grown_trans a b c : grown a b → grown b c → grown a c.
Proof. intros (E1 & ? & ? & ? & ?) (E2 & ? & ? & ? & ?). split_and!; [congruence..|lia]. Qed.

(** An area that cannot be absorbed cannot be absorbed after it grew. *)
Lemma can_coalesce_grown s s' a b b' :
  owner_mm_ s' = owner_mm_ s → sized a → sized b → sized b' → valid_range b = true → grown b b' →
  can_coalesce_private_anonymous s' a b' = true → can_coalesce_private_anonymous s a b = true.
Proof.
  intros Eo Hsa Hsb Hsb' Hvb (Ea & E1 & E2 & E3 & Hlen) Hc. unfold attrs in Ea.
  injection Ea; intros; clear Ea. revert Hc.
  destruct Hsa as [_ Hla], Hsb as [_ Hlb], Hsb' as [_ Hlb'].
  unfold can_coalesce_private_anonymous, UINT64_MAX. rewrite Eo, Hvb.
  rewrite (u64_small (_ - len b)), (u64_small (_ - len b')) by lia.
  repeat match goal with H : _ b' = _ b |- _ => rewrite H; clear H end.
  destruct (valid_range b'); cbn [negb orb]; [|by rewrite orb_true_r].
  destruct (Z.ltb_spec (2 ^ 64 - 1 - len b') (len a)); [by rewrite !orb_true_r|].
  by rewrite (proj2 (Z.ltb_ge (2 ^ 64 - 1 - len b) (len a))) by lia.
Qed.

(** One merge: nothing, or the right area absorbed into the left one. *)
Lemma merge_step s A p q B :
  Space s (A ++ p :: q :: B) →
  ∃ s' b, merge_private_anonymous s p q = Ret (s', b) ∧
    b = can_coalesce_private_anonymous s (area s p) (area s q) ∧
    if b then Space s' (A ++ p :: B) ∧ Coalesced s (A ++ p :: q :: B) s' (A ++ p :: B) ∧
      (∀ r, r ∈ A → area s' r = area s r) ∧ grown (area s p) (area s' p)
    else s' = s.
Proof.
  intros HS. destruct (merge_spec s A p q B HS) as (s' & b & Hrun & Hb). exists s', b.
  split; [done|]. destruct b; [|by destruct Hb as [-> ->]].
  destruct Hb as (Hcc & Em & Ea & Eo & Ec & Eb & Ew & HI). split; [done|].
  split; [by eapply merge_space|].
  destruct (NoDup_middle2 _ _ _ _ (ordered_NoDup _ _ (space_ordered _ _ HS))) as (Hpq & HpAB & _ & HqAB).
  split; [split; [by eapply merge_mapped|by eapply merge_marks|done|done|done|]|].
  { rewrite Ea. pose proof (filter_ne_length (areas_ s) q) as Hl.
    rewrite !length_app. cbn. specialize (Hl ltac:(apply (sp_sub _ _ HS); in_list)). lia. }
  split.
  - intros r Hr. unfold area. rewrite Em, lookup_total_delete_ne, lookup_total_insert_ne; [done|..].
    + intros ->. apply HpAB. in_list.
    + intros ->. apply HqAB. in_list.
  - unfold area at 2. rewrite Em, lookup_total_delete_ne, lookup_total_insert_eq by done.
    pose proof (space_entry s _ p HS ltac:(in_list)) as (_ & Hsp & Hvp).
    pose proof (space_entry s _ q HS ltac:(in_list)) as (_ & Hsq & Hvq).
    destruct (can_coalesce_inv s (area s p) (area s q) Hsp Hsq Hcc) as (_ & _ & He & _).
    destruct (merged_area_spec (area s p) (area s q) Hsp Hsq Hvp Hvq He) as (_ & _ & _ & Hl).
    split_and!; try done. rewrite Hl. destruct Hsq. unfold area in *. lia.
Qed.

(** [p] absorbed what it could of the areas after it. *)
Record Absorbed s (A : list ptr) p s' (B' : list ptr) : Prop := {
  ab_left : ∀ r, r ∈ A → area s' r = area s r;
  ab_grown : grown (area s p) (area s' p);
  ab_stop : ∀ q, head B' = Some q →
    can_coalesce_private_anonymous s' (area s' p) (area s' q) = false
}.

Lemma coalesce_next_spec n s A p B :
  Space s (A ++ p :: B) → (length B < n)%nat →
  ∃ s' B', coalesce_next n s p = Ret s' ∧ Space s' (A ++ p :: B') ∧
    Coalesced s (A ++ p :: B) s' (A ++ p :: B') ∧ (length B' ≤ length B)%nat ∧
    Absorbed s A p s' B'.
Proof.
  revert s B. induction n as [|n IH]; intros s B HS Hn; [lia|]. cbn [coalesce_next].
  unfold find_next_vma. rewrite (ix_next_law _ _ A p B (sp_index _ _ HS)). cbn [obind].
  destruct B as [|q B].
  { exists s, []. split_and!; [done|done|apply Coalesced_refl|done|done]. }
  cbn [hd]. rewrite (proj2 (Z.eqb_neq q nullptr)) by (eapply (space_entry s _ q HS); in_list).
  destruct (merge_step s A p q B HS) as (s1 & b & -> & Eb & Hb). cbn [obind]. destruct b.
  - destruct Hb as (HS1 & HC1 & HA1 & Hg1).
    destruct (IH s1 B HS1 ltac:(cbn in Hn; lia)) as (s' & B' & -> & HS' & HC & Hl & [HA Hg Hst]).
    exists s', B'. split_and!; [done|done|by eapply Coalesced_trans|cbn; lia|].
    split; [|by eapply grown_trans|done]. intros r Hr. by rewrite HA, HA1.
  - subst s1. exists s, (q :: B). split_and!; [done|done|apply Coalesced_refl|done|].
    split; [done|done|]. by intros ? [= <-].
Qed.

Lemma space_length s l : Space s l → (length l ≤ length (areas_ s))%nat.
Proof.
  intros HS. apply submseteq_length, NoDup_submseteq; [|apply (sp_sub _ _ HS)].
  by eapply ordered_NoDup, space_ordered.
Qed.

(** The area before [p] in the index. *)
Lemma find_prev_spec s A p B :
  Space s (A ++ p :: B) → find_prev_vma s (addr (area s p)) = Ret (last_or nullptr A).
Proof.
  intros HS. pose proof (space_ordered _ _ HS) as Ho. unfold find_prev_vma.
  destruct (ix_lower_bound_law _ _ _ (addr (area s p)) (sp_index _ _ HS))
    as (A1 & B1 & E & HA1 & HB1 & _ & ->).
  assert (A1 = A ∧ B1 = p :: B) as [-> _]; [|done].
  apply (app_split_unique (λ q, addr (mem s !!! q) < addr (area s p))); [done|done| | |].
  - intros x Hx. specialize (HB1 x Hx). lia.
  - intros x Hx. apply ordered_app in Ho as ([Hv _] & _ & Hb). rewrite Forall_forall in Hv.
    specialize (Hb x p Hx ltac:(by left)). pose proof (valid_entry_end _ _ (Hv x Hx)).
    unfold below, area in *. lia.
  - intros x Hx. apply ordered_app in Ho as (_ & Ho & _).
    apply (ordered_from (mem s) (p :: B) (addr (area s p)) Z.le Ho) in Hx; [lia|lia|].
    intros ? [= <-]. unfold area. lia.
Qed.

(** The previous area is absorbed first, once, and then the following ones. *)
Lemma coalesce_around_spec s A p B :
  Space s (A ++ p :: B) →
  ∃ s' p' A' B', coalesce_private_anonymous_around s p = Ret (s', p') ∧
    Space s' (A' ++ p' :: B') ∧ Coalesced s (A ++ p :: B) s' (A' ++ p' :: B') ∧
    (length B' ≤ length B)%nat ∧
    ((A' = A ∧ p' = p ∧ Absorbed s A p s' B' ∧ ∀ q, last A = Some q →
        can_coalesce_private_anonymous s (area s q) (area s p) = false) ∨
     (A = A' ++ [p'] ∧ Absorbed s A' p' s' B' ∧
      can_coalesce_private_anonymous s (area s p') (area s p) = true)).
Proof.
  intros HS. pose proof (space_entry s _ p HS ltac:(in_list)) as Hp.
  unfold coalesce_private_anonymous_around. rewrite (proj2 (Z.eqb_neq p nullptr)) by apply Hp.
  rewrite (find_prev_spec s A p B HS). cbn [obind].
  destruct A as [|q A _] using rev_ind.
  - cbn [last_or last default from_option Z.eqb nullptr obind].
    destruct (coalesce_next_spec (S (length (areas_ s))) s [] p B HS) as (s' & B' & -> & HS' & HC & Hl & Hab).
    { apply space_length in HS. cbn in HS. lia. }
    exists s', p, [], B'. split_and!; [done..|]. left. by split_and!.
  - rewrite last_or_snoc. rewrite <- app_assoc in HS |- *. cbn [app] in HS |- *.
    rewrite (proj2 (Z.eqb_neq q nullptr)) by (eapply (space_entry s _ q HS); in_list).
    destruct (merge_step s A q p B HS) as (s1 & b & -> & Eb & Hb). cbn [obind]. destruct b.
    + destruct Hb as (HS1 & HC1 & HA1 & Hg1).
      destruct (coalesce_next_spec (S (length (areas_ s1))) s1 A q B HS1)
        as (s' & B' & -> & HS' & HC & Hl & [HA Hg Hst]).
      { apply space_length in HS1. rewrite length_app in HS1. cbn in HS1. lia. }
      exists s', q, A, B'. split_and!; [done|done|by eapply Coalesced_trans|done|]. right.
      split_and!; [done| |done]. split; [|by eapply grown_trans|done].
      intros r Hr. by rewrite HA, HA1.
    + subst s1. destruct (coalesce_next_spec (S (length (areas_ s))) s (A ++ [q]) p B)
        as (s' & B' & -> & HS' & HC & Hl & Hab).
      { by rewrite <- app_assoc. }
      { apply space_length in HS. rewrite length_app in HS. cbn in HS. lia. }
      rewrite <- app_assoc in HC. exists s', p, (A ++ [q]), B'. split_and!; [done|done|done|done|].
      left. split_and!; [done|done|done|]. rewrite last_snoc. by intros ? [= <-].
Qed.

(** No area of [l] that ends after [start] can absorb the next one of [l]. *)
Definition settled s (start : Z) (l : list ptr) : Prop :=
  ∀ k x y, l !! k = Some x → l !! S k = Some y → start < end_addr (area s x) →
    can_coalesce_private_anonymous s (area s x) (area s y) = false.

Lemma settled_snoc s start A p q :
  settled s start (A ++ [p]) →
  can_coalesce_private_anonymous s (area s p) (area s q) = false →
  settled s start ((A ++ [p]) ++ [q]).
Proof.
  intros HA Hq k x y Hx Hy He. pose proof (lookup_lt_Some _ _ _ Hy) as Hk.
  rewrite !length_app in Hk. cbn in Hk.
  rewrite lookup_app_l in Hx by (rewrite length_app; cbn; lia).
  destruct (decide (k = length A)) as [->|].
  - rewrite lookup_app_r, Nat.sub_diag in Hx by lia.
    rewrite lookup_app_r in Hy by (rewrite length_app; cbn; lia).
    rewrite length_app in Hy. cbn in Hx, Hy.
    replace (S (length A) - (length A + 1))%nat with O in Hy by lia. by simplify_eq/=.
  - rewrite lookup_app_l in Hy by (rewrite length_app; cbn; lia). by eapply HA.
Qed.

(** Every area of [A] ends before [p] does. *)
Lemma space_before s A p B r :
  Space s (A ++ p :: B) → r ∈ A → end_addr (area s r) < end_addr (area s p).
Proof.
  intros HS Hr. pose proof (valid_entry_end _ _ (space_entry s _ p HS ltac:(in_list))).
  apply space_ordered, ordered_app in HS as (_ & _ & Hb).
  specialize (Hb r p Hr ltac:(by left)). unfold below, area in *. lia.
Qed.

(** A pass around the last area of a settled prefix leaves it settled. *)
Lemma settled_around s A p B s' p' A' B' start :
  Space s (A ++ p :: B) → Space s' (A' ++ p' :: B') → owner_mm_ s' = owner_mm_ s →
  settled s start (A ++ [p]) →
  ((A' = A ∧ p' = p ∧ Absorbed s A p s' B') ∨
   (A = A' ++ [p'] ∧ Absorbed s A' p' s' B' ∧
    can_coalesce_private_anonymous s (area s p') (area s p) = true)) →
  settled s' start (A' ++ [p']).
Proof.
  intros HS HS' Eo Hset [(-> & -> & [HA Hg _])|(-> & [HA _ _] & Hcc)] k x y Hx Hy He.
  - assert (x ∈ A) as HxA.
    { pose proof (lookup_lt_Some _ _ _ Hy) as Hk. rewrite length_app in Hk. cbn in Hk.
      rewrite lookup_app_l in Hx by lia. by eapply list_elem_of_lookup_2. }
    pose proof (space_entry s _ x HS ltac:(in_list)) as (_ & Hsx & _).
    rewrite HA in He |- * by done. specialize (Hset k x y Hx Hy He).
    apply list_elem_of_lookup_2 in Hy. apply elem_of_app in Hy as [Hy|Hy].
    2: apply list_elem_of_singleton in Hy as ->.
    + rewrite HA by done. revert Hset. unfold can_coalesce_private_anonymous. by rewrite Eo.
    + pose proof (space_entry s _ p HS ltac:(in_list)) as (_ & Hsp & Hvp).
      pose proof (space_entry s' _ p HS' ltac:(in_list)) as (_ & Hsp' & _).
      apply not_true_is_false. intros Hc.
      apply (can_coalesce_grown s s' _ (area s p)) in Hc; [congruence|done..].
  - assert (x ∈ A') as HxA.
    { pose proof (lookup_lt_Some _ _ _ Hy) as Hk. rewrite length_app in Hk. cbn in Hk.
      rewrite lookup_app_l in Hx by lia. by eapply list_elem_of_lookup_2. }
    rewrite HA in He by done. rewrite <- app_assoc in HS.
    pose proof (space_before s A' p' _ x HS HxA).
    specialize (Hset (length A') p' p). rewrite Hset in Hcc; [done| | |lia].
    + by rewrite <- app_assoc, lookup_app_r, Nat.sub_diag by lia.
    + rewrite lookup_app_r by (rewrite length_app; cbn; lia). rewrite length_app. cbn.
      by replace (S (length A') - (length A' + 1))%nat with O by lia.
Qed.

(** The areas that start before [end_] and end after [start] are settled. *)
Definition range_settled s (l : list ptr) (start end_ : Z) : Prop :=
  ∀ k x y, l !! k = Some x → l !! S k = Some y → start < end_addr (area s x) →
    addr (area s x) < end_ → can_coalesce_private_anonymous s (area s x) (area s y) = false.

Lemma settled_range s A q B start end_ :
  Space s (A ++ q :: B) → settled s start (A ++ [q]) → end_ ≤ addr (area s q) →
  range_settled s (A ++ q :: B) start end_.
Proof.
  intros HS Hset Hq k x y Hx Hy He Ha. apply (Hset k); [..|done].
  all: assert (S k ≤ length A)%nat as Hk.
  1,3: destruct (decide (S k ≤ length A)%nat) as [|Hk]; [done|];
    rewrite lookup_app_r in Hx by lia; apply list_elem_of_lookup_2 in Hx;
    apply space_ordered, ordered_app in HS as (_ & Ho & _);
    apply (ordered_from (mem s) (q :: B) end_ Z.le Ho) in Hx; [unfold area in *; lia|lia|];
    intros ? [= <-]; exact Hq.
  - rewrite lookup_app_l in Hx |- * by lia. done.
  - destruct (decide (S k = length A)) as [E|].
    + rewrite E in Hy |- *. rewrite lookup_app_r, Nat.sub_diag in Hy |- * by lia. done.
    + rewrite lookup_app_l in Hy |- * by lia. done.
Qed.

Lemma coalesce_range_loop_spec n s A p B start e :
  Space s (A ++ p :: B) → (length B < n)%nat → settled s start (A ++ [p]) →
  ∃ s' l', coalesce_range_loop n s p e = Ret s' ∧ Space s' l' ∧
    Coalesced s (A ++ p :: B) s' l' ∧ range_settled s' l' start e.
Proof.
  revert s A p B. induction n as [|n IH]; intros s A p B HS Hn Hset; [lia|].
  cbn [coalesce_range_loop].
  rewrite (proj2 (Z.eqb_neq p nullptr)) by (eapply (space_entry s _ p HS); in_list). cbn [negb andb].
  case_test; [|exists s, (A ++ p :: B); split_and!; [done|done|apply Coalesced_refl|]].
  2: { apply settled_range; [done|done|]. unfold area in *. lia. }
  destruct (coalesce_around_spec s A p B HS) as (s1 & p1 & A1 & B1 & -> & HS1 & HC1 & Hl & Hcase).
  cbn [obind]. assert (settled s1 start (A1 ++ [p1])) as Hset1.
  { eapply (settled_around s A p B); [done|done|apply HC1|done|naive_solver]. }
  assert (∀ q, head B1 = Some q →
    can_coalesce_private_anonymous s1 (area s1 p1) (area s1 q) = false) as Hstop
    by (by destruct Hcase as [(-> & -> & Hab & _)|(_ & Hab & _)]; apply Hab).
  unfold find_next_vma. rewrite (ix_next_law _ _ A1 p1 B1 (sp_index _ _ HS1)). cbn [obind].
  destruct B1 as [|q B1]; cbn [hd].
  { exists s1, (A1 ++ [p1]). split_and!; [done..|]. intros k x y Hx Hy He _. by eapply Hset1. }
  rewrite (proj2 (Z.eqb_neq q nullptr)) by (eapply (space_entry s1 _ q HS1); in_list). cbn [orb].
  pose proof (settled_snoc _ _ _ _ _ Hset1 (Hstop q eq_refl)) as Hset2.
  assert (Space s1 ((A1 ++ [p1]) ++ q :: B1)) as HS2 by (by rewrite <- app_assoc).
  case_test.
  - exists s1, (A1 ++ p1 :: q :: B1). split_and!; [done..|].
    replace (A1 ++ p1 :: q :: B1) with ((A1 ++ [p1]) ++ q :: B1) by (by rewrite <- app_assoc).
    by apply settled_range.
  - destruct (IH s1 (A1 ++ [p1]) q B1 HS2) as (s' & l' & Hrun & HS' & HC & Hr); [cbn in Hl; lia|done|].
    rewrite <- app_assoc in HC. exists s', l'. split_and!; [done|done|by eapply Coalesced_trans|done].
Qed.

(** The first area a pass over a range looks at. *)
Lemma coalesce_start s l start :
  Space s l →
  ∃ A B, l = A ++ B ∧ (∀ r, r ∈ A → end_addr (area s r) ≤ start) ∧
    (let! p := find_vma_covering s start in
     if p =? nullptr then find_first_vma_at_or_after s start else Ret p) = Ret (hd nullptr B).
Proof.
  intros HS. pose proof (space_ordered _ _ HS) as Ho.
  unfold find_vma_covering, find_first_vma_at_or_after.
  destruct (ix_find_law _ _ _ start (sp_index _ _ HS)) as (p & -> & [[Hp Hc]|[-> Hno]]); cbn [obind].
  - pose proof (space_entry s _ p HS Hp) as (Hp0 & Hs & Hv). rewrite (proj2 (Z.eqb_neq p nullptr)) by done.
    apply list_elem_of_split in Hp as (A & B & ->). exists A, (p :: B). split_and!; [done| |done].
    intros r Hr. apply ordered_app in Ho as (_ & _ & Hb). specialize (Hb r p Hr ltac:(by left)).
    rewrite covers_spec in Hc by done. unfold below, area in *. lia.
  - destruct (ix_lower_bound_law _ _ _ start (sp_index _ _ HS)) as (A & B & -> & HA & _ & -> & _).
    exists A, B. split_and!; [done| |done]. intros r Hr. specialize (HA r Hr).
    specialize (Hno r ltac:(in_list)).
    pose proof (space_entry s _ r HS ltac:(in_list)) as (_ & Hs & Hv).
    destruct (decide (end_addr (area s r) ≤ start)); [done|].
    assert (covers (mem s !!! r) start = true) by (rewrite covers_spec by done; unfold area in *; lia).
    congruence.
Qed.

Lemma coalesce_range_spec s l start end_ :
  Space s l →
  ∃ s' l', coalesce_private_anonymous_range s start end_ = Ret s' ∧
    Space s' l' ∧ Coalesced s l s' l' ∧ (start < end_ → range_settled s' l' start end_).
Proof.
  intros HS. unfold coalesce_private_anonymous_range.
  case_test; [exists s, l; split_and!; [done|done|apply Coalesced_refl|lia]|].
  destruct (coalesce_start s l start HS) as (A & B & -> & HA & Hp).
  destruct (find_vma_covering s start) as [p0| | |]; try done. cbn [obind] in *.
  rewrite Hp. cbn [obind]. destruct B as [|p B].
  - exists s, (A ++ []). split_and!; [done|done|apply Coalesced_refl|].
    intros _ k x y Hx _ He _. rewrite app_nil_r in Hx. apply list_elem_of_lookup_2, HA in Hx. lia.
  - cbn [hd]. destruct (coalesce_range_loop_spec (S (length (areas_ s))) s A p B start end_ HS)
      as (s' & l' & ? & ? & ? & ?).
    + apply space_length in HS. rewrite length_app in HS. cbn in HS. lia.
    + intros k x y Hx Hy He. pose proof (lookup_lt_Some _ _ _ Hy) as Hk.
      rewrite length_app in Hk. cbn in Hk. rewrite lookup_app_l in Hx by lia.
      apply list_elem_of_lookup_2, HA in Hx. lia.
    + exists s', l'. by split_and!.
Qed.

(** ** Creation and destruction *)

(** A fresh area appended to the list, before it is indexed. *)
Lemma push_back_fresh s l : Space s l → area_brk s ∉ areas_ s ∧ mem s !! area_brk s = None.
Proof.
  intros HS. assert (area_brk s ∉ areas_ s) as Hf.
  { intros Hin. pose proof (sp_bound _ _ HS) as Hb. rewrite Forall_forall in Hb.
    specialize (Hb _ Hin). lia. }
  split; [done|]. destruct (mem s !! area_brk s) eqn:E; [|done].
  destruct Hf. apply (sp_dom _ _ HS). by rewrite E.
Qed.

Lemma pop_push_back s l a w i :
  Space s l →
  pop_back (with_meta (with_index (push_back s a).1 i) w) =
    mkSpace (owner_mm_ s) (mem s) (areas_ s) i (mmap_cursor_ s) (area_brk s + 1) w.
Proof.
  intros HS. destruct (push_back_fresh s l HS) as [_ Hf].
  unfold pop_back, push_back. cbn. rewrite last_snoc, removelast_last.
  unfold with_mem, with_areas. cbn. by rewrite delete_insert_id.
Qed.

Lemma space_push s l a A B i :
  Space s l → l = A ++ B → sized a → 0 ≤ page_offset a → 0 ≤ offset a →
  ix_rep (<[area_brk s := a]> (mem s)) i (A ++ area_brk s :: B) →
  Space (with_index (push_back s a).1 i) (A ++ area_brk s :: B).
Proof.
  intros HS -> Hsz Hpo Ho HI. destruct (push_back_fresh s _ HS) as [Hf Hm].
  assert (∀ r, r ∈ areas_ s → (<[area_brk s := a]> (mem s)) !!! r = mem s !!! r) as Hold
    by (intros r Hr; apply lookup_total_insert_ne; by intros <-).
  split; cbn.
  - done.
  - intros r Hr. rewrite elem_of_app, list_elem_of_singleton.
    assert (r = area_brk s ∨ r ∈ A ++ B) as [->|?] by in_list; [by right|].
    left. by apply (sp_sub _ _ HS).
  - intros r [Hr| ->%list_elem_of_singleton]%elem_of_app Hv; [|in_list].
    unfold area in Hv. cbn in Hv. rewrite Hold in Hv by done.
    pose proof (sp_valid _ _ HS r Hr Hv). in_list.
  - rewrite NoDup_app. split_and!; [apply HS| |apply NoDup_singleton].
    intros r Hr ->%list_elem_of_singleton. done.
  - intros r. rewrite lookup_insert_is_Some, elem_of_app, list_elem_of_singleton, (sp_dom _ _ HS).
    destruct (decide (area_brk s = r)); naive_solver.
  - rewrite Forall_app, Forall_singleton. pose proof (sp_brk _ _ HS). split; [|lia].
    eapply Forall_impl; [apply HS|]. cbn. lia.
  - intros r Hr. unfold area. cbn. apply elem_of_app in Hr as [Hr|Hr].
    + rewrite Hold by done. by apply (sp_sized _ _ HS).
    + apply list_elem_of_singleton in Hr as ->. by rewrite lookup_total_insert_eq.
  - intros r Hr. unfold area. cbn. apply elem_of_app in Hr as [Hr|Hr].
    + rewrite Hold by done. by apply (sp_offsets _ _ HS).
    + apply list_elem_of_singleton in Hr as ->. by rewrite lookup_total_insert_eq.
  - pose proof (sp_brk _ _ HS). lia.
Qed.

(** Indexing an area that was just appended. *)
Lemma insert_pushed s l a :
  Space s l → sized a → 0 ≤ page_offset a → 0 ≤ offset a →
  ∃ i b, insert_area (push_back s a).1 (area_brk s) = Ret (with_index (push_back s a).1 i, b) ∧
    if b then valid_range a = true ∧
      (∀ q, q ∈ l → overlaps (area s q) (addr a) (end_addr a) = false) ∧
      ∃ A B, l = A ++ B ∧ Space (with_index (push_back s a).1 i) (A ++ area_brk s :: B)
    else i = index_ s ∧ (valid_range a = false ∨
      ∃ q, q ∈ l ∧ overlaps (area s q) (addr a) (end_addr a) = true).
Proof.
  intros HS Hsz Hpo Ho. destruct (push_back_fresh s l HS) as [Hf Hm].
  unfold insert_area, area, push_back. cbn. rewrite lookup_total_insert_eq.
  destruct (valid_range a) eqn:Hv; cbn [negb];
    [|exists (index_ s), false; split; [done|]; split; [done|by left]].
  assert (∀ q, q ∈ l → hits (<[area_brk s := a]> (mem s)) (area_brk s) q =
    overlaps (mem s !!! q) (addr a) (end_addr a)) as Hh.
  { intros q Hq. unfold hits, overlaps_area. pose proof (sp_sub _ _ HS q Hq).
    rewrite lookup_total_insert_eq, lookup_total_insert_ne by (by intros <-).
    rewrite (proj2 (Z.eqb_neq q nullptr)); [done|]. by eapply (space_entry s l q HS). }
  destruct (ix_insert_law (<[area_brk s := a]> (mem s)) (index_ s) l (area_brk s))
    as (i & b & -> & Hb).
  { eapply ix_rep_agree; [apply HS|]. apply agree_insert. intros Hin. by apply Hf, (sp_sub _ _ HS). }
  { pose proof (sp_brk _ _ HS). lia. }
  { by rewrite lookup_total_insert_eq. }
  cbn [obind]. exists i, b. split; [done|]. destruct b.
  - destruct Hb as (_ & Hno & A & B & E & HI). split_and!; [done| |].
    + intros q Hq. rewrite <- Hh by done. by apply Hno.
    + exists A, B. split; [done|]. by eapply space_push.
  - destruct Hb as (-> & [Hiv|(q & Hq & Hhit)]).
    + rewrite lookup_total_insert_eq in Hiv. congruence.
    + split; [done|]. right. exists q. split; [done|]. by rewrite <- Hh.
Qed.

(** A space whose list and index are those of another has the same areas. *)
Lemma space_same s l cursor brk w :
  Space s l → area_brk s ≤ brk →
  Space (mkSpace (owner_mm_ s) (mem s) (areas_ s) (index_ s) cursor brk w) l.
Proof.
  intros [] Hb. split; try done; cbn; [|lia].
  eapply Forall_impl; [done|]. cbn. lia.
Qed.

(** ** Removal *)

Lemma space_remove s l l' p i w :
  Space s l → p ∉ l' → (∀ q, q ∈ l → q ≠ p → q ∈ l') → (∀ q, q ∈ l' → q ∈ l) →
  ix_rep (mem s) i l' →
  Space (with_mem (with_areas (with_meta (with_index s i) w) (base.filter (.≠ p) (areas_ s)))
    (delete p (mem s))) l'.
Proof.
  intros HS Hp Hl Hl' HI.
  assert (∀ q, q ≠ p → delete p (mem s) !!! q = mem s !!! q) as Hm
    by (intros; by rewrite lookup_total_delete_ne).
  split; cbn; unfold area; cbn.
  - eapply ix_rep_agree; [exact HI|]. by apply agree_delete.
  - intros q Hq. apply list_elem_of_filter. split; [by intros ->|]. by apply (sp_sub _ _ HS), Hl'.
  - intros q [Hq Hin]%list_elem_of_filter Hv. rewrite Hm in Hv by done.
    apply Hl; [|done]. by apply (sp_valid _ _ HS).
  - apply NoDup_filter, HS.
  - intros q. rewrite list_elem_of_filter, <- (sp_dom _ _ HS), lookup_delete_is_Some. naive_solver.
  - apply Forall_forall. intros q [_ Hq]%list_elem_of_filter.
    pose proof (sp_bound _ _ HS) as Hb. rewrite Forall_forall in Hb. by apply Hb.
  - intros q [Hq Hin]%list_elem_of_filter. rewrite Hm by done. by apply (sp_sized _ _ HS).
  - intros q [Hq Hin]%list_elem_of_filter. rewrite Hm by done. by apply (sp_offsets _ _ HS).
  - apply HS.
Qed.

Lemma destroy_area_spec s l p w a :
  Space s l → p ∈ areas_ s → release_metadata (meta s) (area s p) = Ret (w, a) →
  ∃ s', destroy_area s p = Ret s' ∧ Space s' (base.filter (.≠ p) l) ∧
    areas_ s' = base.filter (.≠ p) (areas_ s) ∧ mem s' = delete p (mem s) ∧ meta s' = w.
Proof.
  intros HS Hp Hw. unfold destroy_area.
  assert (p ≠ nullptr) as Hp0.
  { pose proof (sp_bound _ _ HS) as Hb. rewrite Forall_forall in Hb. specialize (Hb _ Hp). lia. }
  rewrite (proj2 (Z.eqb_neq p nullptr)) by done.
  assert (∃ i, erase_area s p (addr (area s p)) = Ret (with_index s i) ∧
    ix_rep (mem s) i (base.filter (.≠ p) l)) as (i & -> & HI).
  { destruct (decide (p ∈ l)) as [Hl|Hl].
    - pose proof (ordered_NoDup _ _ (space_ordered _ _ HS)) as Hnd.
      apply list_elem_of_split in Hl as (A & B & ->).
      rewrite (filter_ne_middle A p B Hnd). apply erase_area_spec; [apply HS|done].
    - unfold erase_area. rewrite (ix_erase_absent (mem s) _ _ l) by (apply HS || done).
      exists (index_ s). split; [done|]. rewrite filter_ne_absent by done. apply HS. }
  cbn [obind areas_ with_index]. rewrite bool_decide_eq_true_2 by done.
  change (area (with_index s i) p) with (area s p). cbn [meta with_index]. rewrite Hw. cbn [obind].
  eexists. split; [reflexivity|]. split; [|done].
  apply (space_remove s l); [done| | | |done].
  - rewrite list_elem_of_filter. naive_solver.
  - intros q ??. by rewrite list_elem_of_filter.
  - intros q. rewrite list_elem_of_filter. naive_solver.
Qed.

(** ** Rebuilding the index *)

(** The areas a rebuild enters, and that no two of them overlap. *)
Definition valid_areas (m : store) (l : list ptr) : list ptr :=
  base.filter (λ p, valid_range (m !!! p) = true) l.

Definition disjoint_from (m : store) (p : ptr) (l : list ptr) : Prop :=
  ∀ q, q ∈ l → hits m p q = false.

Fixpoint disjoint (m : store) (before l : list ptr) : Prop :=
  match l with
  | [] => True
  | p :: l => disjoint_from m p before ∧ disjoint m (before ++ [p]) l
  end.

Lemma rebuild_loop_spec (m : store) i acc before l :
  ix_rep m i acc → acc ≡ₚ before → (∀ p, p ∈ l → p ≠ nullptr ∧ sized (m !!! p)) →
  ∃ i' b acc', rebuild_loop m i l = Ret (i', b) ∧ ix_rep m i' acc' ∧
    (if b then disjoint m before (valid_areas m l) ∧ acc' ≡ₚ before ++ valid_areas m l
     else ¬ disjoint m before (valid_areas m l)).
Proof.
  revert i acc before. induction l as [|p l IH]; intros i acc before HI Hacc Hl; cbn [rebuild_loop].
  { exists i, true, acc. split_and!; [done..|]. by rewrite app_nil_r. }
  destruct (Hl p ltac:(by left)) as [Hp0 Hsz].
  unfold valid_areas. rewrite filter_cons. fold (valid_areas m l).
  destruct (valid_range (m !!! p)) eqn:Hv; cbn [negb];
    [rewrite decide_True by done|rewrite decide_False by done].
  2: { apply (IH i acc before); [done|done|]. intros q Hq. apply Hl. by right. }
  destruct (ix_insert_law m i acc p HI Hp0 Hsz) as (i1 & b & -> & Hb). cbn [obind]. destruct b.
  - destruct Hb as (_ & Hno & A & B & -> & HI1).
    destruct (IH i1 (A ++ p :: B) (before ++ [p])) as (i' & b & acc' & -> & HI' & Hb); [done| | |].
    + rewrite <- Permutation_middle, Hacc. solve_Permutation.
    + intros q Hq. apply Hl. by right.
    + exists i', b, acc'. split_and!; [done..|]. cbn [disjoint]. destruct b.
      * destruct Hb as [Hd Hp]. rewrite <- app_assoc in Hp. split; [|done]. split; [|done].
        intros q Hq. apply Hno. by rewrite Hacc.
      * by intros [_ ?].
  - destruct Hb as (-> & [?|(q & Hq & Hh)]); [congruence|].
    exists i, false, acc. split_and!; [done..|]. cbn [disjoint]. intros [Hd _].
    rewrite Hacc in Hq. specialize (Hd q Hq). congruence.
Qed.

Lemma rebuild_index_spec s m0 l0 :
  ix_rep m0 (index_ s) l0 → (∀ p, p ∈ areas_ s → p ≠ nullptr ∧ sized (area s p)) →
  ∃ i b l, rebuild_index s = Ret (with_index s i, b) ∧ ix_rep (mem s) i l ∧
    (if b then disjoint (mem s) [] (valid_areas (mem s) (areas_ s)) ∧
       l ≡ₚ valid_areas (mem s) (areas_ s)
     else ¬ disjoint (mem s) [] (valid_areas (mem s) (areas_ s))).
Proof.
  intros HI Hl. unfold rebuild_index.
  destruct (ix_clear_law _ _ _ HI) as (i & -> & Hc). cbn [obind].
  destruct (rebuild_loop_spec (mem s) i [] [] (areas_ s) (Hc _)) as (i' & b & acc & -> & HI' & Hb);
    [done|done|]. by exists i', b, acc.
Qed.

Lemma disjoint_pairwise (m : store) before l :
  NoDup (before ++ l) →
  (∀ x y, x ∈ before ++ l → y ∈ before ++ l → x ≠ y → hits m x y = false) →
  disjoint m before l.
Proof.
  revert before. induction l as [|p l IH]; intros before Hnd Hd; cbn [disjoint]; [done|]. split.
  - intros q Hq. apply Hd; [in_list|in_list|]. intros ->.
    rewrite NoDup_app in Hnd. destruct Hnd as (_ & Hnd & _). apply (Hnd q Hq). by left.
  - apply IH; rewrite <- app_assoc; done.
Qed.

Lemma ordered_disjoint m l x y : ordered m l → x ∈ l → y ∈ l → x ≠ y → hits m x y = false.
Proof.
  intros Ho Hx Hy Hne. apply not_true_is_false. pose proof Ho as [Hv _]. rewrite Forall_forall in Hv.
  rewrite hits_spec by (by apply Hv).
  destruct (ordered_cmp m l x y Ho Hx Hy Hne) as [Hb|Hb]; unfold below in Hb; lia.
Qed.

(** Writing an area leaves a space once the index holds the valid areas. *)
Lemma space_write s l p a i l' :
  Space s l → p ∈ areas_ s → sized a → 0 ≤ page_offset a → 0 ≤ offset a →
  ix_rep (<[p := a]> (mem s)) i l' →
  (∀ q, q ∈ l' ↔ q ∈ areas_ s ∧ valid_range (area (set_area s p a) q) = true) →
  Space (with_index (set_area s p a) i) l'.
Proof.
  intros HS Hp Hsz Hpo Ho HI Hl'.
  split; [done| | |apply HS| |apply HS| | |apply HS].
  - intros q Hq. by apply Hl'.
  - intros q Hq Hv. by apply Hl'.
  - intros q. cbn. rewrite lookup_insert_is_Some, (sp_dom _ _ HS).
    destruct (decide (p = q)); naive_solver.
  - intros q Hq. change (sized (area (set_area s p a) q)). destruct (decide (p = q)) as [<-|].
    + by rewrite area_set_eq.
    + rewrite area_set_ne by done. by apply (sp_sized _ _ HS).
  - intros q Hq.
    change (0 ≤ page_offset (area (set_area s p a) q) ∧ 0 ≤ offset (area (set_area s p a) q)).
    destruct (decide (p = q)) as [<-|].
    + by rewrite area_set_eq.
    + rewrite area_set_ne by done. by apply (sp_offsets _ _ HS).
Qed.

(** The valid areas after [p] was written. *)
Lemma written_valid s A p B a q :
  Space s (A ++ p :: B) →
  q ∈ areas_ s ∧ valid_range (area (set_area s p a) q) = true ↔
  q ∈ A ++ B ∨ (q = p ∧ valid_range a = true).
Proof.
  intros HS. pose proof (ordered_NoDup _ _ (space_ordered _ _ HS)) as Hnd.
  rewrite <- Permutation_middle, NoDup_cons in Hnd. destruct Hnd as [Hp _].
  destruct (decide (p = q)) as [<-|Hne].
  - rewrite area_set_eq. pose proof (sp_sub _ _ HS p ltac:(in_list)). tauto.
  - rewrite area_set_ne by done. split.
    + intros [Hq Hv]. left. pose proof (sp_valid _ _ HS q Hq Hv).
      assert (q ≠ p) by congruence. in_list.
    + intros [Hq|[-> _]]; [|done]. split; [apply (sp_sub _ _ HS); in_list|].
      apply (space_entry s _ q HS). in_list.
Qed.

(** Rebuilding after [p] was written and taken out of the index. *)
Lemma rebuild_written s A p B a i1 :
  Space s (A ++ p :: B) → sized a → 0 ≤ page_offset a → 0 ≤ offset a →
  ix_rep (<[p := a]> (mem s)) i1 (A ++ B) →
  ∃ i b, rebuild_index (with_index (set_area s p a) i1) = Ret (with_index (set_area s p a) i, b) ∧
    if b then ∃ l', Space (with_index (set_area s p a) i) l' ∧
      l' ≡ₚ (if valid_range a then [p] else []) ++ A ++ B
    else valid_range a = true.
Proof.
  intros HS Hsz Hpo Ho HI1.
  pose proof (ordered_NoDup _ _ (space_ordered _ _ HS)) as Hnd.
  rewrite <- Permutation_middle, NoDup_cons in Hnd. destruct Hnd as [HpAB Hnd].
  pose proof (sp_sub _ _ HS p ltac:(in_list)) as Hpa.
  assert (∀ q, q ∈ valid_areas (<[p:=a]> (mem s)) (areas_ s) ↔
    q ∈ A ++ B ∨ (q = p ∧ valid_range a = true)) as Hva.
  { intros q. unfold valid_areas. rewrite list_elem_of_filter, <- (written_valid s A p B a q HS).
    unfold area, set_area. cbn. naive_solver. }
  destruct (rebuild_index_spec (with_index (set_area s p a) i1) _ _ HI1)
    as (i & b & l & -> & HI & Hl).
  { intros q Hq. cbn in Hq. pose proof (sp_bound _ _ HS) as Hbd. rewrite Forall_forall in Hbd.
    specialize (Hbd q Hq). split; [lia|]. change (sized (area (set_area s p a) q)).
    destruct (decide (p = q)) as [<-|]; [by rewrite area_set_eq|].
    rewrite area_set_ne by done. by apply (sp_sized _ _ HS). }
  exists i, b. split; [done|]. cbn [mem areas_ with_index set_area with_mem] in Hl, HI. destruct b.
  - destruct Hl as [_ Hl]. exists l. split.
    + eapply space_write; [done|done|done|done|done|exact HI|].
      intros q. by rewrite (written_valid s A p B a q HS), Hl, Hva.
    + rewrite Hl. apply NoDup_Permutation; [apply NoDup_filter, HS| |].
      * destruct (valid_range a); [by apply NoDup_cons|done].
      * intros q. rewrite Hva. destruct (valid_range a); cbn; rewrite ?elem_of_cons; naive_solver.
  - destruct (valid_range a) eqn:Hv; [done|]. destruct Hl.
    apply disjoint_pairwise; [apply NoDup_filter, HS|]. intros x y Hx Hy Hne.
    apply (ordered_disjoint _ (A ++ B)); [by eapply ix_rep_ordered| | |done].
    + apply Hva in Hx. by destruct Hx as [?|[_ ?]].
    + apply Hva in Hy. by destruct Hy as [?|[_ ?]].
Qed.

(** An indexed area whose fields were written is indexed again. *)
Lemma reindex_area_spec s A p B a :
  Space s (A ++ p :: B) → sized a → 0 ≤ page_offset a → 0 ≤ offset a →
  ∃ i b, reindex_area (set_area s p a) p (addr (area s p)) = Ret (with_index (set_area s p a) i, b) ∧
    if b then ∃ l', Space (with_index (set_area s p a) i) l' ∧
      l' ≡ₚ (if valid_range a then [p] else []) ++ A ++ B
    else valid_range a = true ∧
      ∃ q, q ∈ A ++ B ∧ overlaps (area s q) (addr a) (end_addr a) = true.
Proof.
  intros HS Hsz Hpo Ho. pose proof (space_entry s _ p HS ltac:(in_list)) as (Hp0 & _).
  pose proof (ordered_NoDup _ _ (space_ordered _ _ HS)) as Hnd.
  rewrite <- Permutation_middle, NoDup_cons in Hnd. destruct Hnd as [HpAB _].
  pose proof (sp_sub _ _ HS p ltac:(in_list)) as Hpa. unfold reindex_area.
  destruct (ix_erase_law (mem s) (<[p := a]> (mem s)) (index_ s) A p B (sp_index _ _ HS))
    as (i1 & Hr1 & HI1); [by apply agree_insert|]. unfold area.
  cbn [index_ mem set_area with_mem]. rewrite Hr1. cbn [obind].
  destruct (ix_insert_law (<[p := a]> (mem s)) i1 (A ++ B) p HI1 Hp0) as (i2 & b & -> & Hb);
    [by rewrite lookup_total_insert_eq|].
  cbn [obind]. rewrite lookup_total_insert_eq in Hb. destruct b.
  - destruct Hb as (Hv & _ & A' & B' & E & HI2). exists i2, true. split; [done|].
    rewrite Hv. exists (A' ++ p :: B'). split; [|by rewrite <- Permutation_middle, E].
    eapply space_write; [done|done|done|done|done|exact HI2|].
    intros q. rewrite (written_valid s A p B a q HS), E, Hv, !elem_of_app, elem_of_cons. naive_solver.
  - destruct Hb as (-> & Hb).
    destruct (rebuild_written s A p B a i1 HS Hsz Hpo Ho HI1) as (i & b & Hrun & Hres).
    exists i, b. split; [exact Hrun|]. destruct b; [done|]. split; [done|].
    destruct Hb as [?|(q & Hq & Hh)]; [congruence|]. exists q. split; [done|].
    unfold hits, overlaps_area in Hh.
    rewrite lookup_total_insert_eq, lookup_total_insert_ne in Hh by (by intros ->).
    by apply andb_true_iff in Hh as [_ ?].
Qed.

End space.

(** ** Properties *)

Section claims.
Context {I : Type} `{AreaIndex I} {W : Type} `{MetaEnv W}.
Implicit Types s : VMASpace I W.

(** [create_area] on a consistent space always returns.  Either it appends
    the requested area, indexed in address order and meeting no other area, and
    leaves the others as they were; or it returns null for a reason (an empty
    or wrapping range, or a conflict), the areas and the index are those from
    before, and the reference to the object is dropped. *)
Theorem create_area_correct s l a n prot flags object po kind grow guard name :
  Space s l → 0 ≤ a < 2 ^ 64 → 0 ≤ n < 2 ^ 64 → 0 ≤ po →
  ∃ s' p, create_area s a n prot flags object po kind grow guard name = Ret (s', p) ∧
    ((p = area_brk s ∧ n ≠ 0 ∧ a < u64 (a + n) ∧
      (∀ q, q ∈ l → overlaps (area s q) a (u64 (a + n)) = false) ∧
      area s' p = fresh_area (owner_mm_ s) a n prot flags object po kind grow guard name ∧
      areas_ s' = areas_ s ++ [p] ∧ (∀ q, q ∈ areas_ s → area s' q = area s q) ∧
      meta s' = meta s ∧ ∃ A B, l = A ++ B ∧ Space s' (A ++ p :: B)) ∨
     (p = nullptr ∧ mem s' = mem s ∧ areas_ s' = areas_ s ∧ Space s' l ∧
      ((n = 0 ∧ meta s' = meta s) ∨
       (meta s' = (if object =? nullptr then meta s else put_or_delete (meta s) object) ∧
        (u64 (a + n) ≤ a ∨ ∃ q, q ∈ l ∧ overlaps (area s q) a (u64 (a + n)) = true))))).
Proof.
  intros HS Ha Hn Hpo. unfold create_area.
  destruct (Z.eqb_spec n 0) as [->|Hn0]; [exists s, nullptr; split; [done|]; right; naive_solver|].
  set (v := fresh_area _ _ _ _ _ _ _ _ _ _ _).
  destruct (insert_pushed s l v HS) as (i & b & Hrun & Hb); [done|done|done|].
  destruct (push_back_fresh s l HS) as [Hf _].
  rewrite (surjective_pairing (push_back s v)). cbn [snd push_back]. rewrite Hrun. cbn [obind].
  assert (valid_range v = true ↔ a < u64 (a + n)) as Hv.
  { unfold valid_range, end_addr. cbn. rewrite !andb_true_iff, !negb_true_iff, Z.eqb_neq. lia. }
  destruct b.
  - destruct Hb as (Hval & Hno & A & B & E & HS'). exists (with_index (push_back s v).1 i), (area_brk s).
    split; [done|]. left. split_and!; [done|done|by apply Hv|done| |done| |done|by exists A, B].
    + unfold area. cbn. by rewrite lookup_total_insert_eq.
    + intros q Hq. unfold area. cbn. rewrite lookup_total_insert_ne; [done|]. by intros <-.
  - destruct Hb as (-> & Hb). unfold area at 1 2. cbn [mem with_index push_back fst].
    rewrite !lookup_total_insert_eq. cbn [VmArea.object fresh_area v].
    match goal with |- context [pop_back ?x] =>
      replace (pop_back x) with (mkSpace (owner_mm_ s) (mem s) (areas_ s) (index_ s) (mmap_cursor_ s)
        (area_brk s + 1) (if object =? nullptr then meta s else put_or_delete (meta s) object)) end.
    2: { destruct (object =? nullptr); by rewrite <- (pop_push_back s l v _ _ HS). }
    eexists _, nullptr. split; [reflexivity|]. right. split_and!; [done..|apply space_same; [done|lia]|].
    right. split; [done|]. destruct Hb as [Hval|?]; [left|by right].
    destruct (decide (a < u64 (a + n))) as [Hlt|]; [|lia]. apply Hv in Hlt. congruence.
Qed.

(** [destroy_area] of an area of the space whose metadata can be released
    removes exactly that area from the list and from the index, frees its node
    and leaves every other area in place. *)
Theorem destroy_area_correct s l p w a :
  Space s l → p ∈ areas_ s → release_metadata (meta s) (area s p) = Ret (w, a) →
  ∃ s', destroy_area s p = Ret s' ∧ Space s' (base.filter (.≠ p) l) ∧
    areas_ s' = base.filter (.≠ p) (areas_ s) ∧ mem s' = delete p (mem s) ∧ meta s' = w.
Proof. apply destroy_area_spec. Qed.

(** After an indexed area was written, [reindex_area] gives a consistent
    space again, with the area in its new place (or out of the index when its
    range is no longer valid); it answers false only if the new range overlaps
    another indexed area. *)
Theorem reindex_area_correct s A p B a :
  Space s (A ++ p :: B) → sized a → 0 ≤ page_offset a → 0 ≤ offset a →
  ∃ i b, reindex_area (set_area s p a) p (addr (area s p)) = Ret (with_index (set_area s p a) i, b) ∧
    if b then ∃ l', Space (with_index (set_area s p a) i) l' ∧
      l' ≡ₚ (if valid_range a then [p] else []) ++ A ++ B
    else valid_range a = true ∧
      ∃ q, q ∈ A ++ B ∧ overlaps (area s q) (addr a) (end_addr a) = true.
Proof. apply reindex_area_spec. Qed.

(** C23. Coalescing the areas of a range terminates without a panic, gives a
    consistent space in which every address is mapped exactly as before (same
    attributes, same offsets into the backing), marks an area as having
    resident pages exactly when one of the areas it consists of was so
    marked, destroys the metadata of no area, and is complete: no area that
    meets the range can absorb the area after it any more. *)
Theorem coalesce_range_correct s l start end_ :
  Space s l →
  ∃ s' l', coalesce_private_anonymous_range s start end_ = Ret s' ∧ Space s' l' ∧
    (∀ x v po o, mapped (mem s) l x v po o ↔ mapped (mem s') l' x v po o) ∧
    marks_kept (mem s) l (mem s') l' ∧
    owner_mm_ s' = owner_mm_ s ∧ mmap_cursor_ s' = mmap_cursor_ s ∧ meta s' = meta s ∧
    (start < end_ → range_settled s' l' start end_).
Proof.
  intros HS. destruct (coalesce_range_spec s l start end_ HS) as (s' & l' & ? & ? & [] & ?).
  by exists s', l'.
Qed.

(** Coalescing around an indexed area absorbs the area before it if these
    two can be merged, then every area after it that can be; the mapping of
    every address is unchanged. *)
Theorem coalesce_around_correct s A p B :
  Space s (A ++ p :: B) →
  ∃ s' p' A' B', coalesce_private_anonymous_around s p = Ret (s', p') ∧ Space s' (A' ++ p' :: B') ∧
    (∀ x v po o, mapped (mem s) (A ++ p :: B) x v po o ↔ mapped (mem s') (A' ++ p' :: B') x v po o) ∧
    (if default false ((λ q, can_coalesce_private_anonymous s (area s q) (area s p)) <$> last A)
     then A = A' ++ [p'] else A' = A ∧ p' = p) ∧
    (∀ q, head B' = Some q → can_coalesce_private_anonymous s' (area s' p') (area s' q) = false).
Proof.
  intros HS. destruct (coalesce_around_spec s A p B HS)
    as (s' & p' & A' & B' & Hrun & HS' & [] & _ & [(-> & -> & [_ _ Hst] & Hl)|(-> & [_ _ Hst] & Hl)]).
  - exists s', p, A, B'. split_and!; [done..| |done].
    destruct (last A) as [q|] eqn:E; cbn; [by rewrite (Hl q eq_refl)|done].
  - exists s', p', A', B'. split_and!; [done..| |done]. by rewrite last_snoc; cbn; rewrite Hl.
Qed.

End claims.

(** ** A concrete address space *)

(** Three private anonymous areas side by side, and a fourth further up. *)
Definition anon (a off : Z) : VmArea := {|
  used := 1; addr := a; len := 0x1000; prot := 3; flags := Z.lor MAP_PRIVATE MAP_ANONYMOUS;
  vfd := -1; vfile := nullptr; offset := off; max_len := 0x1000;
  is_expandable := false; backing_kind := VMA_BACKING_NONE; backing_shmid := -1;
  backing_base := 0; has_resident_pages := false; wipe_on_fork := false; owner_mm := 1;
  object := nullptr; page_offset := off; area_kind := Mmap; grow_policy := GrowNone;
  advice_state := AdviceNone; guard_pages := 0; zero_fill_past_file := false;
  file_backed_bytes := 0; debug_name := nullptr; private_page_overlay := nullptr |}.

Definition anon_store : store :=
  list_to_map [(1, anon 0x10000 0); (2, anon 0x11000 0x1000); (3, anon 0x12000 0x2000);
    (4, anon 0x20000 0)].

#[local] Existing Instance MapleCorrect.VmaMapleTree_AreaIndex.

Definition anon_space : VMASpace VmaMapleTree.VmaMapleTree Counts :=
  mkSpace 1 anon_store [2; 4; 1; 3]
    (default VmaMapleTree.maple_empty
       (MapleCorrect.insert_all anon_store VmaMapleTree.maple_empty [2; 4; 1; 3]))
    0 5 (mkMeta ∅ ∅ ∅ 1).

Lemma anon_Space : Space anon_space [1; 2; 3; 4].
Proof.
  split.
  - apply (MapleCorrect.built_Index anon_store [2; 4; 1; 3]); by vm_compute.
  - cbn. set_solver.
  - cbn. set_solver.
  - apply (bool_decide_unpack _). by vm_compute.
  - intros p. rewrite <- elem_of_dom. change (dom (mem anon_space)) with (dom anon_store).
    unfold anon_store. rewrite dom_list_to_map. cbn. set_solver.
  - apply (bool_decide_unpack _). by vm_compute.
  - intros p Hp. cbn in Hp. repeat (apply elem_of_cons in Hp as [->|Hp]; [by vm_compute|]).
    by apply elem_of_nil in Hp.
  - intros p Hp. cbn in Hp. repeat (apply elem_of_cons in Hp as [->|Hp]; [by vm_compute|]).
    by apply elem_of_nil in Hp.
  - by vm_compute.
Qed.

Lemma create_area_correct_witness :
  ∃ s' p, create_area anon_space 0x13000 0x1000 3 0x22 nullptr 0 Mmap GrowNone 0 nullptr = Ret (s', p) ∧
    p = 5 ∧ ∃ A B, [1; 2; 3; 4] = A ++ B ∧ Space s' (A ++ p :: B).
Proof.
  destruct (create_area_correct anon_space [1; 2; 3; 4] 0x13000 0x1000 3 0x22 nullptr 0 Mmap GrowNone 0
    nullptr anon_Space) as (s' & p & Hrun & [Hok|Hbad]); [lia|lia|lia|..].
  - exists s', p. split; [exact Hrun|]. split; [apply Hok|]. apply Hok.
  - destruct Hbad as (-> & _). exfalso. revert Hrun. clear. by vm_compute.
Defined.

Lemma destroy_area_correct_witness :
  ∃ s', destroy_area anon_space 2 = Ret s' ∧ Space s' [1; 3; 4] ∧ areas_ s' = [4; 1; 3] ∧
    mem s' = delete 2 anon_store ∧ meta s' = meta anon_space.
Proof.
  apply (destroy_area_correct anon_space [1; 2; 3; 4] 2 (meta anon_space) (anon 0x11000 0x1000) anon_Space);
    [cbn; set_solver|by vm_compute].
Defined.

Lemma reindex_area_correct_witness :
  ∃ i b, reindex_area (set_area anon_space 4 (anon 0x8000 0)) 4 0x20000 =
      Ret (with_index (set_area anon_space 4 (anon 0x8000 0)) i, b) ∧
    if b then ∃ l', Space (with_index (set_area anon_space 4 (anon 0x8000 0)) i) l' ∧ l' ≡ₚ [4; 1; 2; 3]
    else true = true ∧ ∃ q, q ∈ [1; 2; 3] ∧ overlaps (area anon_space q) 0x8000 0x9000 = true.
Proof.
  apply (reindex_area_correct anon_space [1; 2; 3] 4 [] (anon 0x8000 0) anon_Space); by vm_compute.
Defined.

Lemma coalesce_range_correct_witness :
  ∃ s' l', coalesce_private_anonymous_range anon_space 0x10000 0x21000 = Ret s' ∧ Space s' l' ∧
    areas_ s' = [4; 1] ∧
    ∀ x v po o, mapped (mem anon_space) [1; 2; 3; 4] x v po o ↔ mapped (mem s') l' x v po o.
Proof.
  destruct (coalesce_range_correct anon_space [1; 2; 3; 4] 0x10000 0x21000 anon_Space)
    as (s' & l' & Hrun & HS & Hm & _).
  exists s', l'. split_and!; [exact Hrun|exact HS| |exact Hm].
  assert (areas_ <$> (match coalesce_private_anonymous_range anon_space 0x10000 0x21000 with
    Ret s => Some s | _ => None end) = Some [4; 1]) as E by (clear; by vm_compute).
  rewrite Hrun in E. cbn in E. by injection E.
Defined.

Lemma coalesce_around_correct_witness :
  ∃ s' p' A' B', coalesce_private_anonymous_around anon_space 2 = Ret (s', p') ∧
    Space s' (A' ++ p' :: B') ∧ [1] = A' ++ [p'].
Proof.
  destruct (coalesce_around_correct anon_space [1] 2 [3; 4] anon_Space)
    as (s' & p' & A' & B' & Hrun & HS & _ & Hp & _).
  exists s', p', A', B'. split; [exact Hrun|]. split; [exact HS|].
  revert Hp. clear. by vm_compute.
Defined.

End VmaSpaceCorrect.
