(* ===== verification/Pipe.v ===== *)
(** * Pipes (kernel/proc/pipe.{hh,cc})

    A pipe is a ring buffer behind a spin lock.  A call on it runs in critical
    sections: it holds the lock, then gives it up to sleep or to page in a user
    range, and continues later.  Each section is a function from the state of
    the pipe to the new state, the events it causes (wakeups, signals, bytes
    moved) and either the return value of the call or the point where it will
    resume; other calls run between two sections of one call. *)
From S2P Require Import Prelude.

Module Pipe.

(** ** Constants and data *)

Definition default_pipe_size : Z := 4096.
Definition privileged_default_pipe_size : Z := 65536.
Definition min_pipe_size : Z := 256.
Definition max_pipe_size : Z := 65536.
Definition pipe_epollet_write_threshold : Z := 4096.

Definition PIPE_ASYNC_OWNER_NONE : Z := 0.
Definition PIPE_ASYNC_OWNER_TID : Z := 1.
Definition PIPE_ASYNC_OWNER_PID : Z := 2.
Definition PIPE_ASYNC_OWNER_PGRP : Z := 3.
Definition k_pipe_async_flag : Z := 0x2000.

Definition SYS_EINTR : Z := -4.
Definition SYS_EAGAIN : Z := -11.
Definition SYS_EFAULT : Z := -14.
Definition SYS_EPIPE : Z := -32.
Definition SIGPIPE : Z := 13.
Definition SIGPOLL : Z := 29.

Record Pipe := mkPipe {
  _buffer : list Z;
  _pipe_size : Z;
  _head : Z;
  _tail : Z;
  _count : Z;
  _read_is_open : bool;
  _write_is_open : bool;
  _read_waiter : ptr;
  _write_waiter : ptr;
  _read_waiter_count : Z;
  _write_waiter_count : Z;
  pipe_flags : Z;
  _async_owner_type : Z;
  _async_owner_id : Z;
  _async_signal : Z
}.

Definition with_ring (p : Pipe) (buffer : list Z) (size head tail count : Z) : Pipe :=
  mkPipe buffer size head tail count (_read_is_open p) (_write_is_open p) (_read_waiter p)
    (_write_waiter p) (_read_waiter_count p) (_write_waiter_count p) (pipe_flags p)
    (_async_owner_type p) (_async_owner_id p) (_async_signal p).

Definition with_open (p : Pipe) (r w : bool) : Pipe :=
  mkPipe (_buffer p) (_pipe_size p) (_head p) (_tail p) (_count p) r w (_read_waiter p)
    (_write_waiter p) (_read_waiter_count p) (_write_waiter_count p) (pipe_flags p)
    (_async_owner_type p) (_async_owner_id p) (_async_signal p).

Definition with_waiters (p : Pipe) (rw ww : ptr) (rc wc : Z) : Pipe :=
  mkPipe (_buffer p) (_pipe_size p) (_head p) (_tail p) (_count p) (_read_is_open p)
    (_write_is_open p) rw ww rc wc (pipe_flags p)
    (_async_owner_type p) (_async_owner_id p) (_async_signal p).

Definition with_async (p : Pipe) (flags type_ id_ sig_ : Z) : Pipe :=
  mkPipe (_buffer p) (_pipe_size p) (_head p) (_tail p) (_count p) (_read_is_open p)
    (_write_is_open p) (_read_waiter p) (_write_waiter p) (_read_waiter_count p)
    (_write_waiter_count p) flags type_ id_ sig_.

(** The constructor; [buffer] is the storage [new] returned. *)
Definition Pipe_new (buffer : list Z) : Pipe :=
  mkPipe buffer default_pipe_size 0 0 0 false false nullptr nullptr 0 0 0
    PIPE_ASYNC_OWNER_NONE 0 0.

Definition set_pipe_flags (p : Pipe) (flags : Z) : Pipe :=
  with_async p flags (_async_owner_type p) (_async_owner_id p) (_async_signal p).
Definition set_async_owner (p : Pipe) (type_ id_ : Z) : Pipe :=
  with_async p (pipe_flags p) type_ id_ (_async_signal p).
Definition set_async_signal (p : Pipe) (sig_ : Z) : Pipe :=
  with_async p (pipe_flags p) (_async_owner_type p) (_async_owner_id p) sig_.

(** What a section does outside the pipe. *)
Inductive Event :=
  | WakeOne (waiter : ptr) (readers : bool)
  | WakeAll (readers : bool)
  | Tkill (tid sig_ : Z)
  | KillSignal (pid sig_ : Z)
  | AddSignal (pr : ptr) (sig_ : Z)
  | Yield
  | Put (bytes : list Z)
  | Got (dest : Z) (bytes : list Z).

(** ** The ring *)

Definition is_full (p : Pipe) : bool := _pipe_size p <=? _count p.
Definition is_empty (p : Pipe) : bool := _count p =? 0.

Definition push (p : Pipe) (data : Z) : outcome Pipe :=
  if is_full p then Ret p else
  let! b := aset (_buffer p) (_tail p) data in
  Ret (with_ring p b (_pipe_size p) (_head p) (u32 (_tail p + 1) mod _pipe_size p)
         (u32 (_count p + 1))).

Definition pop (p : Pipe) : outcome (Pipe * Z) :=
  if is_empty p then Ret (p, 0) else
  let! data := aget (_buffer p) (_head p) in
  Ret (with_ring p (_buffer p) (_pipe_size p) (u32 (_head p + 1) mod _pipe_size p) (_tail p)
         (u32 (_count p - 1)), data).

(** The length of the next copy into, and out of, the ring: what is asked for,
    what the ring has, and what lies before the end of the storage. *)
Definition write_chunk (p : Pipe) (remaining : Z) : Z :=
  let writable := u32 (_pipe_size p - _count p) in
  let chunk := if remaining <? writable then remaining else writable in
  let tail_room := u32 (_pipe_size p - _tail p) in
  if tail_room <? chunk then tail_room else chunk.

Definition read_chunk (p : Pipe) (remaining : Z) : Z :=
  let readable := _count p in
  let chunk := if remaining <? readable then remaining else readable in
  let head_room := u32 (_pipe_size p - _head p) in
  if head_room <? chunk then head_room else chunk.

(** Bytes stored at the write position, and the positions moved. *)
Definition store_chunk (p : Pipe) (bs : list Z) : outcome Pipe :=
  let! b := store_range (_buffer p) (_tail p) bs in
  Ret (with_ring p b (_pipe_size p) (_head p) (_tail p) (_count p)).

Definition advance_tail (p : Pipe) (chunk : Z) : Pipe :=
  with_ring p (_buffer p) (_pipe_size p) (_head p) (u32 (_tail p + chunk) mod _pipe_size p)
    (u32 (_count p + chunk)).

Definition advance_head (p : Pipe) (chunk : Z) : Pipe :=
  with_ring p (_buffer p) (_pipe_size p) (u32 (_head p + chunk) mod _pipe_size p) (_tail p)
    (u32 (_count p - chunk)).

(** ** Waiters and notification *)

Definition notify_async_reader_locked (p : Pipe) : list Event :=
  if (Z.land (pipe_flags p) k_pipe_async_flag =? 0) ||
     (_async_owner_type p =? PIPE_ASYNC_OWNER_NONE) then []
  else
    let signo := if 0 <? _async_signal p then _async_signal p else SIGPOLL in
    if _async_owner_type p =? PIPE_ASYNC_OWNER_TID then [Tkill (_async_owner_id p) signo]
    else if _async_owner_type p =? PIPE_ASYNC_OWNER_PID then [KillSignal (_async_owner_id p) signo]
    else if _async_owner_type p =? PIPE_ASYNC_OWNER_PGRP then [KillSignal (- _async_owner_id p) signo]
    else [].

Definition note_one (single : ptr) (count : Z) (waiter : ptr) : ptr * Z :=
  (if count =? 0 then waiter else if negb (single =? waiter) then nullptr else single,
   u32 (count + 1)).

Definition note_waiter_locked (p : Pipe) (waiting_for_read : bool) (waiter : ptr) : Pipe :=
  if waiting_for_read then
    let (single, count) := note_one (_read_waiter p) (_read_waiter_count p) waiter in
    with_waiters p single (_write_waiter p) count (_write_waiter_count p)
  else
    let (single, count) := note_one (_write_waiter p) (_write_waiter_count p) waiter in
    with_waiters p (_read_waiter p) single (_read_waiter_count p) count.

Definition forget_one (single : ptr) (count : Z) (waiter : ptr) : ptr * Z :=
  if count =? 0 then (nullptr, count)
  else (if (count - 1 =? 0) || (single =? waiter) then nullptr else single, count - 1).

Definition forget_waiter_locked (p : Pipe) (waiting_for_read : bool) (waiter : ptr) : Pipe :=
  if waiting_for_read then
    let (single, count) := forget_one (_read_waiter p) (_read_waiter_count p) waiter in
    with_waiters p single (_write_waiter p) count (_write_waiter_count p)
  else
    let (single, count) := forget_one (_write_waiter p) (_write_waiter_count p) waiter in
    with_waiters p (_read_waiter p) single (_read_waiter_count p) count.

Definition wake_waiters_locked (p : Pipe) (wake_readers : bool) : bool * list Event :=
  let single := if wake_readers then _read_waiter p else _write_waiter p in
  let count := if wake_readers then _read_waiter_count p else _write_waiter_count p in
  if count =? 0 then (false, [])
  else if (count =? 1) && negb (single =? nullptr) then (true, [WakeOne single wake_readers])
  else (true, [WakeAll wake_readers]).

(** ** Calls *)

(** The arguments of a call and the process that makes it. *)
Record Call := mkCall { pr : ptr; addr : Z; n : Z; nonblock : bool }.

(** What the call observes of the rest of the kernel during a section: the
    state of its process, kernel memory, and the user memory routines.
    [copy_in] gives the bytes it stored, all of them if it succeeds. *)
Record Obs := mkObs {
  is_killed : bool;
  has_unmasked_signal_pending : bool;
  kmem : Z → Z;
  ensure_user_read_range : Z → Z → bool;
  ensure_user_write_range : Z → Z → bool;
  copy_in : Z → Z → list Z * bool;
  copy_out : Z → Z → bool
}.

(** [Paused l]: the lock was given up, the call resumes at [l]. *)
Inductive Status (L : Type) :=
  | Paused (l : L)
  | Done (r : Z).
Arguments Paused {L} _.
Arguments Done {L} _.

Abbreviation result L := (outcome (Pipe * list Event * Status L)).

(** Events of the earlier part of the section go first. *)
Definition after {L} (ev : list Event) (r : result L) : result L :=
  let! (p, ev', st) := r in Ret (p, ev ++ ev', st).

(** *** Writing *)

(** The return on a closed read end or a killed writer. *)
Definition write_refused {L} (c : Call) (o : Obs) (p : Pipe) : result L :=
  if negb (_read_is_open p) && negb (is_killed o)
  then Ret (p, [AddSignal (pr c) SIGPIPE], Done SYS_EPIPE)
  else Ret (p, [], Done (-1)).

(** The common end of the three write routines. *)
Definition write_return {L} (c : Call) (p : Pipe) (i : Z) : result L :=
  let (woke_reader, ev) := wake_waiters_locked p true in
  let should_handoff_reader := (n c <=? 8) && woke_reader in
  Ret (p, ev ++ (if 0 <? i then notify_async_reader_locked p else []) ++
          (if (0 <? i) && should_handoff_reader then [Yield] else []), Done i).

(** Going to sleep for room. *)
Definition write_sleep {L} (c : Call) (p : Pipe) (l : L) : result L :=
  let (_, ev) := wake_waiters_locked p true in
  Ret (note_waiter_locked p false (pr c), ev, Paused l).

Definition or_errno (i errno : Z) : Z := if 0 <? i then i else errno.

(** Where a write resumes: after a sleep, or after paging in [chunk] bytes. *)
Inductive WritePoint :=
  | WSlept (i : Z)
  | WEnsured (i chunk : Z).

Fixpoint write_loop (fuel : nat) (c : Call) (o : Obs) (p : Pipe) (i : Z) : result WritePoint :=
  match fuel with
  | O => Stuck
  | S f =>
      if negb (i <? n c) then write_return c p i else
      if negb (_read_is_open p) || is_killed o then write_refused c o p else
      if _pipe_size p <=? _count p then
        if nonblock c then Ret (p, [], Done (or_errno i SYS_EAGAIN))
        else write_sleep c p (WSlept i)
      else
        match copy_in o (u64 (addr c + i)) 1 with
        | ([ch], true) =>
            let! p := push p ch in
            after [Put [ch]] (write_loop f c o p (i + 1))
        | _ => write_return c p i
        end
  end.

Fixpoint write_in_kernel_loop (fuel : nat) (c : Call) (o : Obs) (p : Pipe) (i : Z)
    : result WritePoint :=
  match fuel with
  | O => Stuck
  | S f =>
      if negb (i <? n c) then write_return c p i else
      if negb (_read_is_open p) || is_killed o then write_refused c o p else
      if _pipe_size p <=? _count p then
        if has_unmasked_signal_pending o then Ret (p, [], Done (or_errno i SYS_EINTR)) else
        if nonblock c then Ret (p, [], Done (or_errno i SYS_EAGAIN))
        else write_sleep c p (WSlept i)
      else
        let chunk := write_chunk p (u32 (n c - i)) in
        let bs := kmem o <$> seqZ (u64 (addr c + i)) chunk in
        let! p := store_chunk p bs in
        after [Put bs] (write_in_kernel_loop f c o (advance_tail p chunk) (i32 (i + chunk)))
  end.

(** Enough iterations for one section: every pass but one moves a byte. *)
Definition write_fuel (c : Call) (i : Z) : nat := S (S (Z.to_nat (n c - i))).

Definition write (c : Call) (o : Obs) (p : Pipe) (l : option WritePoint) : result WritePoint :=
  match l with
  | None => write_loop (write_fuel c 0) c o p 0
  | Some (WSlept i) | Some (WEnsured i _) =>
      write_loop (write_fuel c i) c o (forget_waiter_locked p false (pr c)) i
  end.

Definition write_in_kernel (c : Call) (o : Obs) (p : Pipe) (l : option WritePoint)
    : result WritePoint :=
  match l with
  | None => write_in_kernel_loop (write_fuel c 0) c o p 0
  | Some (WSlept i) | Some (WEnsured i _) =>
      write_in_kernel_loop (write_fuel c i) c o (forget_waiter_locked p false (pr c)) i
  end.

(** The head of the loop of [write_from_user], up to the next release. *)
Definition write_from_user_head (c : Call) (o : Obs) (p : Pipe) (i : Z) : result WritePoint :=
  if negb (i <? n c) then write_return c p i else
  if negb (_read_is_open p) || is_killed o then write_refused c o p else
  if _pipe_size p <=? _count p then
    if has_unmasked_signal_pending o then Ret (p, [], Done (or_errno i SYS_EINTR)) else
    if nonblock c then Ret (p, [], Done (or_errno i SYS_EAGAIN))
    else write_sleep c p (WSlept i)
  else Ret (p, [], Paused (WEnsured i (write_chunk p (u32 (n c - i))))).

Definition write_from_user (c : Call) (o : Obs) (p : Pipe) (l : option WritePoint)
    : result WritePoint :=
  match l with
  | None => write_from_user_head c o p 0
  | Some (WSlept i) => write_from_user_head c o (forget_waiter_locked p false (pr c)) i
  | Some (WEnsured i chunk) =>
      if negb (ensure_user_read_range o (u64 (addr c + i)) chunk) then
        if 0 <? i then
          let (_, ev) := wake_waiters_locked p true in
          Ret (p, ev ++ notify_async_reader_locked p, Done i)
        else Ret (p, [], Done SYS_EFAULT)
      else if negb (_read_is_open p) || is_killed o || (_pipe_size p <=? _count p)
      then write_from_user_head c o p i
      else
        let chunk := write_chunk p (u32 (n c - i)) in
        let (bs, ok) := copy_in o (u64 (addr c + i)) chunk in
        let! p := store_chunk p bs in
        if negb ok then Ret (p, [], Done (or_errno i SYS_EFAULT)) else
        after [Put bs] (write_from_user_head c o (advance_tail p chunk) (i32 (i + chunk)))
  end.

(** *** Reading *)

(** Where a read resumes: after a sleep in the first or in the second waiting
    loop, or after paging in [chunk] bytes of the destination. *)
Inductive ReadPoint :=
  | RSlept
  | RSleptAgain
  | REnsured (i chunk : Z).

Definition read_sleep {L} (c : Call) (p : Pipe) (l : L) : result L :=
  Ret (note_waiter_locked p true (pr c), [], Paused l).

(** The end of a read: the writers are woken. *)
Definition read_return {L} (p : Pipe) (i : Z) : result L :=
  let (_, ev) := wake_waiters_locked p false in Ret (p, ev, Done i).

Fixpoint read_loop (fuel : nat) (c : Call) (p : Pipe) (i : Z) : result ReadPoint :=
  match fuel with
  | O => Stuck
  | S f =>
      if (i <? n c) && (0 <? _count p) then
        let chunk := read_chunk p (u32 (n c - i)) in
        let! bs := load_range (_buffer p) (_head p) chunk in
        after [Got (u64 (addr c + i)) bs] (read_loop f c (advance_head p chunk) (i32 (i + chunk)))
      else read_return p i
  end.

Definition read_head (c : Call) (o : Obs) (p : Pipe) : result ReadPoint :=
  if (_count p =? 0) && _write_is_open p then
    if is_killed o then Ret (p, [], Done (-1)) else
    if nonblock c then Ret (p, [], Done SYS_EAGAIN) else
    if has_unmasked_signal_pending o then Ret (p, [], Done SYS_EINTR) else
    read_sleep c p RSlept
  else read_loop (S (S (Z.to_nat (n c)))) c p 0.

Definition read (c : Call) (o : Obs) (p : Pipe) (l : option ReadPoint) : result ReadPoint :=
  match l with
  | None => read_head c o p
  | Some _ => read_head c o (forget_waiter_locked p true (pr c))
  end.

(** The [for] loop of [read_to_user], up to the next release. *)
Definition read_to_user_head (c : Call) (o : Obs) (p : Pipe) (i : Z) : result ReadPoint :=
  if negb (i <? n c) then read_return p i else
  if (_count p =? 0) && _write_is_open p && negb (0 <? i) then
    if is_killed o then Ret (p, [], Done (-1)) else
    if nonblock c then Ret (p, [], Done SYS_EAGAIN) else
    if has_unmasked_signal_pending o then Ret (p, [], Done SYS_EINTR) else
    read_sleep c p RSleptAgain
  else if _count p =? 0 then read_return p i
  else Ret (p, [], Paused (REnsured i (read_chunk p (u32 (n c - i))))).

Definition read_to_user_wait (c : Call) (o : Obs) (p : Pipe) : result ReadPoint :=
  if (_count p =? 0) && _write_is_open p then
    if is_killed o then Ret (p, [], Done (-1)) else
    if nonblock c then Ret (p, [], Done SYS_EAGAIN) else
    if has_unmasked_signal_pending o then Ret (p, [], Done SYS_EINTR) else
    read_sleep c p RSlept
  else read_to_user_head c o p 0.

Definition read_to_user (c : Call) (o : Obs) (p : Pipe) (l : option ReadPoint)
    : result ReadPoint :=
  match l with
  | None => read_to_user_wait c o p
  | Some RSlept => read_to_user_wait c o (forget_waiter_locked p true (pr c))
  | Some RSleptAgain => read_to_user_head c o (forget_waiter_locked p true (pr c)) 0
  | Some (REnsured i chunk) =>
      if negb (ensure_user_write_range o (u64 (addr c + i)) chunk)
      then Ret (p, [], Done (or_errno i SYS_EFAULT))
      else if _count p =? 0 then read_to_user_head c o p i
      else
        let chunk := read_chunk p (u32 (n c - i)) in
        let! bs := load_range (_buffer p) (_head p) chunk in
        if negb (copy_out o (u64 (addr c + i)) chunk)
        then Ret (p, [], Done (or_errno i SYS_EFAULT))
        else
          after [Got (u64 (addr c + i)) bs]
            (read_to_user_head c o (advance_head p chunk) (i32 (i + chunk)))
  end.

(** ** Opening, polling, closing and resizing *)

(** [new_buffer] is what [new uint8[...]] returned, if it did. *)
Definition alloc (p : Pipe) (euid : option Z) (new_buffer : option (list Z)) : Pipe :=
  let p :=
    if bool_decide (euid = Some 0) && (_pipe_size p <? privileged_default_pipe_size) then
      match new_buffer with
      | Some b => with_ring p b privileged_default_pipe_size (_head p) (_tail p) (_count p)
      | None => p
      end
    else p in
  with_ring (with_open p true true) (_buffer p) (_pipe_size p) 0 0 0.

Definition can_read_without_blocking (p : Pipe) : bool :=
  (0 <? _count p) || negb (_write_is_open p).

Definition can_write_without_blocking (p : Pipe) : bool :=
  negb (_read_is_open p) || (_count p <? _pipe_size p).

Definition can_write_for_epollet (p : Pipe) : bool :=
  let free_space := u32 (_pipe_size p - _count p) in
  let writable_threshold :=
    if _pipe_size p <? pipe_epollet_write_threshold then _pipe_size p
    else pipe_epollet_write_threshold in
  negb (_read_is_open p) || (writable_threshold <=? free_space).

(** [None] is the deleted pipe. *)
Definition close (p : Pipe) (is_write : bool) : option Pipe * list Event :=
  let p := if is_write then with_open p (_read_is_open p) false
           else with_open p false (_write_is_open p) in
  let (_, ev) := wake_waiters_locked p is_write in
  (if negb (_read_is_open p) && negb (_write_is_open p) then None else Some p, ev).

(** The copy loop of [set_pipe_size]. *)
Fixpoint copy_ring (fuel : nat) (p : Pipe) (new_buffer : list Z) (copied temp_head : Z)
    : outcome (list Z) :=
  match fuel with
  | O => Stuck
  | S f =>
      if copied <? _count p then
        let! x := aget (_buffer p) temp_head in
        let! new_buffer := aset new_buffer copied x in
        copy_ring f p new_buffer (u32 (copied + 1)) (u32 (temp_head + 1) mod _pipe_size p)
      else Ret new_buffer
  end.

Definition set_pipe_size (p : Pipe) (new_size : Z) (new_buffer : option (list Z))
    : outcome (Pipe * Z) :=
  if (new_size <? min_pipe_size) || (max_pipe_size <? new_size) then Ret (p, -1) else
  if new_size <? _count p then Ret (p, -1) else
  match new_buffer with
  | None => Ret (p, -1)
  | Some new_buffer =>
      if 0 <? _count p then
        let! b := copy_ring (S (Z.to_nat (_count p))) p new_buffer 0 (_head p) in
        Ret (with_ring p b new_size 0 (_count p) (_count p), new_size)
      else Ret (with_ring p new_buffer new_size 0 0 (_count p), new_size)
  end.

End Pipe.
