(* ===== verification/PipeRing.v ===== *)
(** * The ring buffer of a pipe as a queue

    [Ring p] is the invariant of the storage, [contents p] the bytes it holds
    in order.  Copies at the write position append to the contents, copies at
    the read position take from their front. *)
From S2P Require Import Prelude Pipe.
Import Pipe.

Module PipeRing.

(** [_tail] may equal [_pipe_size]: [set_pipe_size] leaves it there when the new
    size is the number of bytes held. *)
Record Ring (p : Pipe) : Prop := {
  ring_size : 0 < _pipe_size p < 2 ^ 31;
  ring_buffer : Z.of_nat (length (_buffer p)) = _pipe_size p;
  ring_head : 0 ≤ _head p < _pipe_size p;
  ring_tail : 0 ≤ _tail p ≤ _pipe_size p;
  ring_count : 0 ≤ _count p ≤ _pipe_size p;
  ring_place : _tail p mod _pipe_size p = (_head p + _count p) mod _pipe_size p
}.

(** The byte [k] places after the read position. *)
Definition ring_at (p : Pipe) (k : Z) : Z :=
  _buffer p !!! Z.to_nat ((_head p + k) mod _pipe_size p).

Definition contents (p : Pipe) : list Z := ring_at p <$> seqZ 0 (_count p).

Lemma length_contents p : 0 ≤ _count p → Z.of_nat (length (contents p)) = _count p.
Proof. intros. unfold contents. rewrite length_fmap, length_seqZ. lia. Qed.

(** Everything but the ring. *)
Definition control (p : Pipe) :=
  (_read_is_open p, _write_is_open p, _read_waiter p, _write_waiter p,
   _read_waiter_count p, _write_waiter_count p,
   (pipe_flags p, _async_owner_type p, _async_owner_id p, _async_signal p)).

(** ** Reading from the ring *)

Lemma load_head p k :
  Ring p → 0 ≤ k ≤ _pipe_size p - _head p →
  load_range (_buffer p) (_head p) k = Ret (ring_at p <$> seqZ 0 k).
Proof.
  intros [Hs Hb Hh Ht Hc _] Hk. unfold load_range.
  rewrite bool_decide_eq_true_2 by lia. f_equal. apply list_eq. intros j.
  rewrite list_lookup_fmap. destruct (decide (Z.of_nat j < k)) as [Hj|Hj].
  - rewrite lookup_take_lt, lookup_drop, lookup_seqZ_lt by lia. cbn. unfold ring_at.
    rewrite list_lookup_lookup_total_lt by lia. do 2 f_equal. rewrite Z.mod_small; lia.
  - rewrite lookup_take_ge, lookup_seqZ_ge by lia. done.
Qed.

Lemma contents_split p k :
  0 ≤ k ≤ _count p →
  contents p = (ring_at p <$> seqZ 0 k) ++ ((λ j, ring_at p (k + j)) <$> seqZ 0 (_count p - k)).
Proof.
  intros Hk. unfold contents. replace (_count p) with (k + (_count p - k)) at 1 by lia.
  rewrite seqZ_app, fmap_app by lia. f_equal.
  replace (0 + k) with (k + 0) by lia. rewrite <- fmap_add_seqZ, <- list_fmap_compose. done.
Qed.

Lemma advance_head_ring p k :
  Ring p → 0 ≤ k ≤ _count p → 0 ≤ k ≤ _pipe_size p - _head p →
  Ring (advance_head p k) ∧ contents p = (ring_at p <$> seqZ 0 k) ++ contents (advance_head p k) ∧
  control (advance_head p k) = control p ∧ _pipe_size (advance_head p k) = _pipe_size p.
Proof.
  intros HR Hk Hk'. pose proof HR as [Hs Hb Hh Ht Hc Hp].
  assert (_head (advance_head p k) = (_head p + k) mod _pipe_size p) as Eh
    by (cbn; by rewrite u32_small by lia).
  assert (_count (advance_head p k) = _count p - k) as Ec by (cbn; by rewrite u32_small by lia).
  split_and!; [|rewrite (contents_split p k) by done; f_equal|done|done].
  - split; rewrite ?Eh, ?Ec; cbn; try done; [apply Z.mod_pos_bound; lia|lia|].
    rewrite Zplus_mod_idemp_l, Hp. f_equal. lia.
  - unfold contents. rewrite Ec. apply list_fmap_ext. intros j x _. unfold ring_at. rewrite Eh. cbn.
    rewrite Zplus_mod_idemp_l. do 3 f_equal. lia.
Qed.

(** ** Writing to the ring *)

(** The storage after bytes were stored at [t]. *)
Lemma stored_lookup (l bs : list Z) (t : Z) (j : nat) :
  0 ≤ t → t + Z.of_nat (length bs) ≤ Z.of_nat (length l) →
  (take (Z.to_nat t) l ++ bs ++ drop (Z.to_nat t + length bs) l) !!! j =
    if decide (t ≤ Z.of_nat j < t + Z.of_nat (length bs)) then bs !!! (j - Z.to_nat t)%nat
    else l !!! j.
Proof.
  intros Ht Hl. rewrite !list_lookup_total_alt. case_decide as Hj.
  - rewrite lookup_app_r, length_take by (rewrite length_take; lia).
    rewrite lookup_app_l by lia. do 2 f_equal. lia.
  - destruct (decide (Z.of_nat j < t)).
    + by rewrite lookup_app_l, lookup_take_lt by (rewrite ?length_take; lia).
    + rewrite lookup_app_r, lookup_app_r, lookup_drop by (rewrite ?length_take; lia).
      do 2 f_equal. rewrite length_take. lia.
Qed.

Section store.
Context (p : Pipe) (bs : list Z).
Context (HR : Ring p).
Context (Hroom : Z.of_nat (length bs) ≤ _pipe_size p - _count p).
Context (Htail : Z.of_nat (length bs) ≤ _pipe_size p - _tail p).

Definition stored : Pipe :=
  with_ring p (take (Z.to_nat (_tail p)) (_buffer p) ++ bs ++
    drop (Z.to_nat (_tail p) + length bs) (_buffer p)) (_pipe_size p) (_head p) (_tail p) (_count p).

Lemma store_chunk_stored : store_chunk p bs = Ret stored.
Proof.
  destruct HR as [Hs Hb Hh Ht Hc _]. unfold store_chunk, store_range.
  by rewrite bool_decide_eq_true_2 by lia.
Qed.

Lemma stored_ring : Ring stored.
Proof.
  destruct HR as [Hs Hb Hh Ht Hc Hp]. split; cbn; try done.
  rewrite !length_app, length_take, length_drop. lia.
Qed.

(** The places of the contents are not the ones written. *)
Lemma stored_at k :
  0 ≤ k < _count p + Z.of_nat (length bs) →
  ring_at stored k = if decide (k < _count p) then ring_at p k else bs !!! Z.to_nat (k - _count p).
Proof.
  intros Hk. destruct HR as [Hs Hb Hh Ht Hc Hp].
  unfold ring_at. cbn. rewrite stored_lookup by lia.
  assert (_tail p < _pipe_size p ∨ length bs = 0%nat) as Hlt by lia.
  assert (length bs ≠ 0%nat → _tail p = (_head p + _count p) mod _pipe_size p) as Et
    by (intros; rewrite <- Hp, Z.mod_small by lia; done).
  pose proof (mod_wrap (_head p + k) (_pipe_size p)) as Ek.
  pose proof (mod_wrap (_head p + _count p) (_pipe_size p)) as Ew.
  destruct (decide (k < _count p)).
  - rewrite decide_False by lia. done.
  - rewrite decide_True by lia. f_equal. lia.
Qed.

Lemma stored_contents : contents stored = contents p.
Proof.
  destruct HR as [Hs Hb Hh Ht Hc Hp]. unfold contents. cbn. apply list_fmap_ext.
  intros j x Hx. apply lookup_seqZ in Hx as [-> Hj].
  rewrite stored_at by lia. by rewrite decide_True by lia.
Qed.

Lemma advance_tail_stored :
  Ring (advance_tail stored (Z.of_nat (length bs))) ∧
  contents (advance_tail stored (Z.of_nat (length bs))) = contents p ++ bs.
Proof.
  pose proof stored_ring as HS. destruct HR as [Hs Hb Hh Ht Hc Hp].
  set (k := Z.of_nat (length bs)) in *.
  assert (_count (advance_tail stored k) = _count p + k) as Ec by (cbn; by rewrite u32_small by lia).
  split.
  - destruct HS as [_ Hb' _ _ _ _]. split; rewrite ?Ec; cbn; rewrite ?u32_small by lia; try done.
    + pose proof (Z.mod_pos_bound (_tail p + k) (_pipe_size p)). lia.
    + lia.
    + rewrite Zmod_mod, Z.add_assoc, <- Zplus_mod_idemp_l, Hp. by rewrite Zplus_mod_idemp_l.
  - unfold contents at 1. rewrite Ec, seqZ_app, fmap_app by lia. f_equal.
    + rewrite <- stored_contents. unfold contents. done.
    + apply list_eq. intros j. rewrite list_lookup_fmap. destruct (decide (Z.of_nat j < k)) as [Hj|Hj].
      * rewrite lookup_seqZ_lt by lia. cbn [fmap option_fmap option_map].
        change (ring_at (advance_tail stored k)) with (ring_at stored). rewrite stored_at by lia.
        rewrite decide_False by lia. rewrite list_lookup_lookup_total_lt by lia. do 2 f_equal. lia.
      * rewrite lookup_seqZ_ge by lia. cbn. symmetry. apply lookup_ge_None. lia.
Qed.
End store.

(** ** One byte at a time *)

Lemma push_contents p x :
  Ring p → _tail p < _pipe_size p → _count p < _pipe_size p →
  ∃ p', push p x = Ret p' ∧ Ring p' ∧ _tail p' < _pipe_size p' ∧ contents p' = contents p ++ [x] ∧
    control p' = control p ∧ _pipe_size p' = _pipe_size p.
Proof.
  intros HR Ht Hc. unfold push, is_full. rewrite (proj2 (Z.leb_gt _ _)) by lia.
  destruct (advance_tail_stored p [x] HR) as [HR' HC]; [cbn; lia..|].
  assert (aset (_buffer p) (_tail p) x = Ret (_buffer (stored p [x]))) as ->.
  { destruct HR as [Hs Hb Hh Ht' _ _]. unfold aset. rewrite bool_decide_eq_true_2 by lia. f_equal.
    cbn. rewrite insert_take_drop by lia. do 2 f_equal. cbn. f_equal. lia. }
  eexists. split; [reflexivity|]. split_and!; [exact HR'| |exact HC|done|done].
  cbn. destruct HR. apply Z.mod_pos_bound. lia.
Qed.

(** ** Resizing *)

Lemma copy_ring_spec fuel p nb copied :
  Ring p → _count p ≤ Z.of_nat (length nb) → 0 ≤ copied ≤ _count p →
  (∀ j, 0 ≤ j < copied → nb !! Z.to_nat j = Some (ring_at p j)) →
  (Z.to_nat (_count p - copied) < fuel)%nat →
  ∃ b, copy_ring fuel p nb copied ((_head p + copied) mod _pipe_size p) = Ret b ∧
    length b = length nb ∧ ∀ j, 0 ≤ j < _count p → b !! Z.to_nat j = Some (ring_at p j).
Proof.
  intros HR. pose proof HR as [Hs Hb Hh _ Hc _]. revert nb copied.
  induction fuel as [|fuel IH]; intros nb copied Hl Hk Hnb Hf; [lia|]. cbn [copy_ring].
  case_test; [|exists nb; split_and!; [done|done|intros; apply Hnb; lia]].
  pose proof (Z.mod_pos_bound (_head p + copied) (_pipe_size p)).
  rewrite (aget_total (_buffer p)) by lia. cbn [obind]. unfold aset.
  rewrite bool_decide_eq_true_2 by lia. cbn [obind]. rewrite (u32_small (copied + 1)) by lia.
  rewrite u32_small, Zplus_mod_idemp_l, <- Z.add_assoc by lia.
  destruct (IH (<[Z.to_nat copied := ring_at p copied]> nb) (copied + 1)) as (b & Hrun & Hlen & Hj).
  - by rewrite length_insert.
  - lia.
  - intros j Hj. destruct (decide (j = copied)) as [->|].
    + rewrite list_lookup_insert_eq by lia. done.
    + rewrite list_lookup_insert_ne by lia. apply Hnb. lia.
  - lia.
  - exists b. split; [exact Hrun|]. by rewrite Hlen, length_insert.
Qed.

Lemma set_pipe_size_spec p new_size nb :
  Ring p → (∀ b, nb = Some b → Z.of_nat (length b) = new_size) →
  ∃ p' r, set_pipe_size p new_size nb = Ret (p', r) ∧ Ring p' ∧ contents p' = contents p ∧
    control p' = control p ∧ _count p' = _count p ∧
    ((r = new_size ∧ _pipe_size p' = new_size ∧ min_pipe_size ≤ new_size ≤ max_pipe_size) ∨
     (r = -1 ∧ p' = p ∧ (new_size < min_pipe_size ∨ max_pipe_size < new_size ∨
        new_size < _count p ∨ nb = None))).
Proof.
  intros HR Hnb. pose proof HR as [Hs Hb Hh _ Hc _]. unfold set_pipe_size.
  assert (∀ P : Prop, P → ∃ p' r, Ret (p, -1) = Ret (p', r) ∧ Ring p' ∧ contents p' = contents p ∧
    control p' = control p ∧ _count p' = _count p ∧
    ((r = new_size ∧ _pipe_size p' = new_size ∧ min_pipe_size ≤ new_size ≤ max_pipe_size) ∨
     (r = -1 ∧ p' = p ∧ P))) as Hfail by (intros P HP; exists p, (-1); naive_solver).
  destruct (Z.ltb_spec new_size min_pipe_size); cbn [orb]; [apply Hfail; by left|].
  case_test; [apply Hfail; right; by left|]. case_test; [apply Hfail; right; right; by left|].
  destruct nb as [nb|]; [|apply Hfail; by do 3 right].
  specialize (Hnb nb eq_refl). unfold min_pipe_size, max_pipe_size in *.
  case_test.
  - destruct (copy_ring_spec (S (Z.to_nat (_count p))) p nb 0) as (b & Hrun & Hlen & Hj);
      [done|lia|lia|lia|lia|].
    rewrite Z.add_0_r, Z.mod_small in Hrun by lia. rewrite Hrun. cbn [obind].
    eexists _, _. split; [reflexivity|]. split_and!; [|..|done|done|left; done || lia].
    + split; cbn; lia || done.
    + unfold contents. cbn. apply list_fmap_ext. intros k x Hx. apply lookup_seqZ in Hx as [-> Hk].
      rewrite Z.add_0_l. unfold ring_at at 1. cbn [_buffer _head _pipe_size with_ring].
      rewrite Z.add_0_l, Z.mod_small by lia. rewrite list_lookup_total_alt.
      by rewrite (Hj (Z.of_nat k)) by lia.
  - eexists _, _. split; [reflexivity|]. split_and!; [|..|done|done|left; done || lia].
    + assert (_count p = 0) as Ec by lia. split; cbn; rewrite ?Ec; try done; lia.
    + unfold contents. cbn. by replace (_count p) with 0 by lia.
Qed.

End PipeRing.
