(* ===== verification/PipeCalls.v ===== *)
(** * The critical sections of pipe reads and writes

    Every section of a read or write call returns, keeps the ring, moves bytes
    at the ends of the contents only, counts what it moved, and registers the
    caller as a waiter exactly if it goes to sleep. *)
From S2P Require Import Prelude Pipe PipeRing.
Import Pipe PipeRing.

Module PipeCalls.

(** ** Reading an event list *)

Fixpoint puts (ev : list Event) : list Z :=
  match ev with [] => [] | Put bs :: ev => bs ++ puts ev | _ :: ev => puts ev end.

Fixpoint gots (ev : list Event) : list Z :=
  match ev with [] => [] | Got _ bs :: ev => bs ++ gots ev | _ :: ev => gots ev end.

Definition is_wake (e : Event) : bool :=
  match e with WakeOne _ _ | WakeAll _ => true | _ => false end.

Definition wakes (ev : list Event) : list Event := base.filter (λ e, is_wake e = true) ev.

(** An event that moves no bytes. *)
Definition is_quiet (e : Event) : bool := match e with Put _ | Got _ _ => false | _ => true end.

Lemma quiet_moves ev : Forall (λ e, is_quiet e = true) ev → puts ev = [] ∧ gots ev = [].
Proof. induction 1 as [|e ev He _ [IH1 IH2]]; [done|]. by destruct e. Qed.

Lemma notify_quiet p :
  Forall (λ e, is_quiet e = true) (notify_async_reader_locked p) ∧
  wakes (notify_async_reader_locked p) = [].
Proof.
  unfold notify_async_reader_locked. repeat case_match; split; try done; repeat constructor.
Qed.

Lemma wake_quiet p b :
  Forall (λ e, is_quiet e = true) (wake_waiters_locked p b).2 ∧
  wakes (wake_waiters_locked p b).2 = (wake_waiters_locked p b).2.
Proof. unfold wake_waiters_locked. repeat case_match; split; try done; repeat constructor. Qed.

Lemma wakes_app ev ev' : wakes (ev ++ ev') = wakes ev ++ wakes ev'.
Proof. apply filter_app. Qed.

(** Equal control gives equal fields. *)
Ltac by_control E :=
  unfold control in E; injection E; intros;
  repeat match goal with H : ?f ?p = ?f ?q |- context [?f ?p] => rewrite H end.

(** Waking depends on the registered waiters only. *)
Lemma wake_control p q b :
  control p = control q → wake_waiters_locked p b = wake_waiters_locked q b.
Proof. intros E. unfold wake_waiters_locked. by_control E. done. Qed.

Lemma note_control p q b w :
  control p = control q → control (note_waiter_locked p b w) = control (note_waiter_locked q b w).
Proof.
  intros E. unfold note_waiter_locked, note_one, control at 1 2.
  destruct b; cbn; by_control E; done.
Qed.

(** Registration does not touch the ring. *)
Lemma note_ring p b w : Ring p → Ring (note_waiter_locked p b w).
Proof. intros []. unfold note_waiter_locked. destruct b, (note_one _ _ _); by split. Qed.

Lemma forget_ring p b w : Ring p → Ring (forget_waiter_locked p b w).
Proof. intros []. unfold forget_waiter_locked. destruct b, (forget_one _ _ _); by split. Qed.

Lemma note_contents p b w : contents (note_waiter_locked p b w) = contents p.
Proof. unfold note_waiter_locked. by destruct b, (note_one _ _ _). Qed.

Lemma forget_contents p b w : contents (forget_waiter_locked p b w) = contents p.
Proof. unfold forget_waiter_locked. by destruct b, (forget_one _ _ _). Qed.

Lemma note_fields p b w :
  _read_is_open (note_waiter_locked p b w) = _read_is_open p ∧
  _write_is_open (note_waiter_locked p b w) = _write_is_open p ∧
  _pipe_size (note_waiter_locked p b w) = _pipe_size p ∧
  _count (note_waiter_locked p b w) = _count p.
Proof. unfold note_waiter_locked. by destruct b, (note_one _ _ _). Qed.

(** The contracts of the user memory routines that the code relies on: a copy
    stores at most what was asked for, and all of it when it succeeds. *)
Definition ObsOk (o : Obs) : Prop :=
  ∀ a k, 0 ≤ k → Z.of_nat (length (copy_in o a k).1) ≤ k ∧
    ((copy_in o a k).2 = true → Z.of_nat (length (copy_in o a k).1) = k).

Definition CallOk (c : Call) : Prop := - 2 ^ 31 ≤ n c < 2 ^ 31.

Lemma write_chunk_spec p r :
  Ring p → 0 ≤ r →
  0 ≤ write_chunk p r ≤ r ∧ write_chunk p r ≤ _pipe_size p - _count p ∧
  write_chunk p r ≤ _pipe_size p - _tail p ∧
  (_tail p < _pipe_size p → _count p < _pipe_size p → 0 < r → 0 < write_chunk p r).
Proof.
  intros [Hs Hb Hh Ht Hc _] Hr. unfold write_chunk.
  rewrite !u32_small by lia. destruct (Z.ltb_spec r (_pipe_size p - _count p)); case_test; lia.
Qed.

Lemma read_chunk_spec p r :
  Ring p → 0 ≤ r →
  0 ≤ read_chunk p r ≤ r ∧ read_chunk p r ≤ _count p ∧ read_chunk p r ≤ _pipe_size p - _head p ∧
  (0 < _count p → 0 < r → 0 < read_chunk p r).
Proof.
  intros [Hs Hb Hh Ht Hc _] Hr. unfold read_chunk.
  rewrite !u32_small by lia. destruct (Z.ltb_spec r (_count p)); case_test; lia.
Qed.

(** ** Writing *)

(** A write that moved [moved] bytes returns their number, or an error; only a
    write that finds the read end closed or its process killed drops the count. *)
Definition write_result (c : Call) (p : Pipe) (moved r : Z) : Prop :=
  (r = moved ∧ 0 ≤ moved ≤ Z.max 0 (n c)) ∨ r = -1 ∨ (r = SYS_EPIPE ∧ _read_is_open p = false) ∨
  (moved = 0 ∧ (r = SYS_EINTR ∨ r = SYS_EAGAIN ∧ nonblock c = true ∨ r = SYS_EFAULT)).

(** What one section of a write may do, from pipe [p] with [i] bytes moved. *)
Record write_section (c : Call) (i : Z) (p p' : Pipe) (ev : list Event) (st : Status WritePoint)
    : Prop := {
  ws_ring : Ring p';
  ws_contents : contents p' = contents p ++ puts ev;
  ws_gots : gots ev = [];
  ws_size : _pipe_size p' = _pipe_size p;
  ws_control : control p' =
    control (match st with Paused (WSlept _) => note_waiter_locked p false (pr c) | _ => p end);
  ws_status : match st with
    | Paused (WSlept j) => j = i + Z.of_nat (length (puts ev)) ∧ 0 ≤ j < n c ∧
        _count p' = _pipe_size p' ∧ _read_is_open p = true ∧ nonblock c = false
    | Paused (WEnsured j _) => j = i + Z.of_nat (length (puts ev)) ∧ 0 ≤ j < n c
    | Done r => write_result c p (i + Z.of_nat (length (puts ev))) r
    end;
  ws_wakes : match st with
    | Paused (WSlept _) => wakes ev = (wake_waiters_locked p true).2
    | Done r => Z.max 0 (n c) ≤ r → wakes ev = (wake_waiters_locked p true).2
    | _ => True
    end
}.

Definition WSpec c i p (r : result WritePoint) : Prop :=
  ∃ p' ev st, r = Ret (p', ev, st) ∧ write_section c i p p' ev st.

Lemma write_return_eq {L} c p i :
  ∃ ev, write_return (L := L) c p i = Ret (p, ev, Done i) ∧ puts ev = [] ∧ gots ev = [] ∧
    wakes ev = (wake_waiters_locked p true).2.
Proof.
  unfold write_return. destruct (wake_waiters_locked p true) as [w ev] eqn:E.
  destruct (wake_quiet p true) as [Hq Hw]. rewrite E in Hq, Hw. cbn [snd] in Hq, Hw |- *.
  destruct (notify_quiet p) as [Hnq Hnw]. eexists. split; [reflexivity|].
  match goal with |- puts ?e = _ ∧ _ => assert (Forall (λ x, is_quiet x = true) e) as Hall end.
  { rewrite !Forall_app. split_and!; [done|by case_match|]. case_match; by repeat constructor. }
  destruct (quiet_moves _ Hall) as [-> ->]. split_and!; [done..|]. rewrite !wakes_app, Hw.
  replace (wakes (if 0 <? i then notify_async_reader_locked p else [])) with (@nil Event)
    by (by destruct (0 <? i)).
  destruct ((0 <? i) && _); by rewrite app_nil_r.
Qed.

Lemma write_return_spec c p i :
  Ring p → 0 ≤ i ≤ Z.max 0 (n c) → WSpec c i p (write_return c p i).
Proof.
  intros HR Hi. destruct (write_return_eq (L := WritePoint) c p i) as (ev & -> & Ep & Eg & Ew).
  eexists _, _, _. split; [reflexivity|].
  split; [done|by rewrite Ep, app_nil_r|done|done|done| |done]. rewrite Ep. cbn. left. lia.
Qed.

Lemma write_refused_spec c o p i :
  Ring p → negb (_read_is_open p) || is_killed o = true → 0 < n c → 0 ≤ i →
  WSpec c i p (write_refused c o p).
Proof.
  intros HR Hg Hn Hi. unfold write_refused. case_match eqn:E.
  - eexists _, _, _. split; [reflexivity|]. split; try done; [by rewrite app_nil_r| |].
    + right. right. left. split; [done|]. by apply andb_true_iff in E as [E%negb_true_iff _].
    + unfold SYS_EPIPE. lia.
  - eexists _, _, _. split; [reflexivity|]. split; try done; [by rewrite app_nil_r| |lia].
    right. by left.
Qed.

Lemma write_full_spec c p i r :
  Ring p → 0 ≤ i < n c →
  (r = SYS_EINTR ∨ r = SYS_EAGAIN ∧ nonblock c = true ∨ r = SYS_EFAULT) →
  WSpec c i p (Ret (p, [], Done (or_errno i r))).
Proof.
  intros HR Hi Hr. eexists _, _, _. split; [reflexivity|].
  assert (or_errno i r < Z.max 0 (n c)) by
    (unfold or_errno, SYS_EINTR, SYS_EAGAIN, SYS_EFAULT in *; case_test; lia).
  split; try done; [by rewrite app_nil_r| |lia].
  unfold write_result, or_errno. cbn. rewrite Z.add_0_r. case_test; [left; lia|].
  right. right. right. split; [lia|done].
Qed.

Lemma write_sleep_spec c p i :
  Ring p → 0 ≤ i < n c → _pipe_size p ≤ _count p → _read_is_open p = true → nonblock c = false →
  WSpec c i p (write_sleep c p (WSlept i)).
Proof.
  intros HR Hi Hf Ho Hnb. unfold write_sleep.
  destruct (wake_waiters_locked p true) as [w ev] eqn:E.
  destruct (wake_quiet p true) as [Hq Hw]. rewrite E in Hq, Hw. cbn [snd] in Hq, Hw.
  destruct (quiet_moves _ Hq) as [Ep Eg]. destruct (note_fields p false (pr c)) as (_ & _ & Es & Ec).
  eexists _, _, _. split; [reflexivity|].
  split; [by apply note_ring|by rewrite Ep, app_nil_r, note_contents|done|done|done| |by rewrite E].
  rewrite Ep, Es, Ec. cbn. destruct HR. repeat split; done || lia.
Qed.

(** Bytes put before the rest of a section. *)
Lemma write_after c i p p1 bs r :
  contents p1 = contents p ++ bs → control p1 = control p → _pipe_size p1 = _pipe_size p →
  WSpec c (i + Z.of_nat (length bs)) p1 r → WSpec c i p (after [Put bs] r).
Proof.
  intros HC Hctl Hsz (p' & ev & st & -> & []). eexists _, _, _. split; [reflexivity|].
  assert (_read_is_open p1 = _read_is_open p) as Ho by (unfold control in Hctl; congruence).
  split; cbn [puts gots app]; try done.
  - by rewrite ws_contents0, HC, app_assoc.
  - congruence.
  - rewrite ws_control0. destruct st as [[]|]; try done. by apply note_control.
  - rewrite length_app, Nat2Z.inj_add, Z.add_assoc. unfold write_result in *. by rewrite <- Ho.
  - rewrite <- (wake_control p1 p) by done. exact ws_wakes0.
Qed.

(** A chunk stored and counted, then the rest of the section. *)
Lemma write_chunk_step c i p bs (k : Pipe → Z → result WritePoint) :
  Ring p → CallOk c → 0 ≤ i < n c →
  Z.of_nat (length bs) = write_chunk p (u32 (n c - i)) →
  (∀ p', Ring p' → _tail p' < _pipe_size p' → _read_is_open p' = _read_is_open p →
     0 ≤ Z.of_nat (length bs) ≤ n c - i →
     WSpec c (i + Z.of_nat (length bs)) p' (k p' (i + Z.of_nat (length bs)))) →
  WSpec c i p (let! q := store_chunk p bs in
    after [Put bs] (k (advance_tail q (write_chunk p (u32 (n c - i))))
      (i32 (i + write_chunk p (u32 (n c - i)))))).
Proof.
  intros HR Hc Hi Hl Hk. unfold CallOk in Hc.
  rewrite u32_small in * by lia.
  destruct (write_chunk_spec p (n c - i) HR) as ([H1 H2] & H3 & H4 & _); [lia|].
  rewrite store_chunk_stored by (done || lia). cbn [obind].
  destruct (advance_tail_stored p bs HR) as [HR' HC]; [lia..|].
  rewrite <- Hl, i32_small by lia.
  apply (write_after c i p (advance_tail (stored p bs) (Z.of_nat (length bs)))); [done..|].
  apply Hk; [done| |done|lia]. cbn. destruct HR. apply Z.mod_pos_bound. lia.
Qed.

(** The tests at the head of the two chunked loops, with a free place left. *)
Lemma write_head_spec c o p i (k : result WritePoint) :
  Ring p → 0 ≤ i ≤ Z.max 0 (n c) →
  (i < n c → _count p < _pipe_size p → WSpec c i p k) →
  WSpec c i p
    (if negb (i <? n c) then write_return c p i else
     if negb (_read_is_open p) || is_killed o then write_refused c o p else
     if _pipe_size p <=? _count p then
       if has_unmasked_signal_pending o then Ret (p, [], Done (or_errno i SYS_EINTR)) else
       if nonblock c then Ret (p, [], Done (or_errno i SYS_EAGAIN))
       else write_sleep c p (WSlept i)
     else k).
Proof.
  intros HR Hi Hk. destruct (Z.ltb_spec i (n c)); cbn [negb]; [|by apply write_return_spec].
  destruct (negb (_read_is_open p) || is_killed o) eqn:Hg; [apply write_refused_spec; done || lia|].
  apply orb_false_iff in Hg as [Ho%negb_false_iff _]. case_test; [|by apply Hk].
  case_match; [apply write_full_spec; [done|lia|by left]|]. case_match.
  - apply write_full_spec; [done|lia|]. right. by left.
  - by apply write_sleep_spec; try lia.
Qed.

Lemma write_in_kernel_loop_spec fuel c o p i :
  Ring p → CallOk c → 0 ≤ i ≤ Z.max 0 (n c) →
  (Z.to_nat (n c - i) + (if bool_decide (_tail p < _pipe_size p)%Z then 0 else 1) < fuel)%nat →
  WSpec c i p (write_in_kernel_loop fuel c o p i).
Proof.
  revert p i. induction fuel as [|fuel IH]; intros p i HR Hc Hi Hf; [lia|].
  cbn [write_in_kernel_loop]. apply write_head_spec; [done|done|]. intros Hlt Hroom.
  set (bs := kmem o <$> _).
  assert (Z.of_nat (length bs) = write_chunk p (u32 (n c - i))) as Hl.
  { unfold bs. rewrite length_fmap, length_seqZ. unfold CallOk in Hc.
    pose proof (write_chunk_spec p (u32 (n c - i)) HR (proj1 (u32_range _))). lia. }
  apply (write_chunk_step c i p bs (λ p i, write_in_kernel_loop fuel c o p i)); [done|done|lia|done|].
  intros p' HR' Ht' _ Hb. apply IH; [done|done|lia|]. rewrite bool_decide_eq_true_2 by done.
  unfold CallOk in Hc. rewrite u32_small in Hl by lia.
  destruct (write_chunk_spec p (n c - i) HR) as (_ & _ & _ & Hpos); [lia|].
  case_bool_decide; [specialize (Hpos ltac:(lia) ltac:(lia) ltac:(lia))|]; lia.
Qed.

Lemma write_from_user_head_spec c o p i :
  Ring p → 0 ≤ i ≤ Z.max 0 (n c) → WSpec c i p (write_from_user_head c o p i).
Proof.
  intros HR Hi. apply write_head_spec; [done|done|]. intros Hlt Hroom.
  eexists _, _, _. split; [reflexivity|]. split; try done; [by rewrite app_nil_r|]. cbn. lia.
Qed.

(** Where a write stands when a section starts: the bytes moved before, and the
    pipe once a sleeper took itself off the waiters. *)
Definition write_moved (l : option WritePoint) : Z :=
  match l with None => 0 | Some (WSlept i) | Some (WEnsured i _) => i end.

Definition write_entry (c : Call) (p : Pipe) (l : option WritePoint) : Pipe :=
  match l with Some (WSlept _) => forget_waiter_locked p false (pr c) | _ => p end.

Definition write_point_ok (c : Call) (l : option WritePoint) : Prop :=
  match l with None => True | Some _ => 0 ≤ write_moved l < n c end.

Lemma write_moved_range c l :
  write_point_ok c l → 0 ≤ write_moved l ≤ Z.max 0 (n c).
Proof. destruct l as [[]|]; cbn; lia. Qed.

Lemma write_in_kernel_spec c o p l :
  Ring p → CallOk c → write_point_ok c l → (∀ i k, l ≠ Some (WEnsured i k)) →
  WSpec c (write_moved l) (write_entry c p l) (write_in_kernel c o p l).
Proof.
  intros HR Hc Hl Hw. pose proof (write_moved_range c l Hl).
  destruct l as [[i|i k]|]; [|by destruct (Hw i k)|].
  - apply write_in_kernel_loop_spec; [by apply forget_ring|done|done|].
    unfold write_fuel. cbn. case_bool_decide; lia.
  - apply write_in_kernel_loop_spec; [done|done|done|]. unfold write_fuel. cbn. case_bool_decide; lia.
Qed.

Lemma write_from_user_spec c o p l :
  Ring p → CallOk c → ObsOk o → write_point_ok c l →
  WSpec c (write_moved l) (write_entry c p l) (write_from_user c o p l).
Proof.
  intros HR Hc Ho Hl. pose proof (write_moved_range c l Hl) as Hr.
  destruct l as [[i|i k]|]; [by apply write_from_user_head_spec; [apply forget_ring|]| |
    by apply write_from_user_head_spec].
  cbn [write_from_user write_entry write_moved] in *. cbn in Hl.
  destruct (negb (ensure_user_read_range o _ k)).
  { case_test.
    - destruct (wake_waiters_locked p true) as [w ev] eqn:E.
      destruct (wake_quiet p true) as [Hq _]. rewrite E in Hq. destruct (notify_quiet p) as [Hnq _].
      destruct (quiet_moves (ev ++ notify_async_reader_locked p)) as [Ep Eg]; [by apply Forall_app|].
      eexists _, _, _. split; [reflexivity|].
      split; try done; [by rewrite Ep, app_nil_r| |lia]. rewrite Ep. left. cbn. lia.
    - replace SYS_EFAULT with (or_errno i SYS_EFAULT)
        by (unfold or_errno; by rewrite (proj2 (Z.ltb_ge 0 i)) by lia).
      apply write_full_spec; [done|done|]. right. by right. }
  destruct (negb (_read_is_open p) || is_killed o || _) eqn:Hg; [by apply write_from_user_head_spec|].
  destruct (copy_in o _ _) as [bs ok] eqn:Ec.
  pose proof (write_chunk_spec p (u32 (n c - i)) HR (proj1 (u32_range _))) as ([H1 H2] & H3 & H4 & _).
  destruct (Ho (u64 (addr c + i)) (write_chunk p (u32 (n c - i))) H1) as [Hle Heq].
  rewrite Ec in Hle, Heq. cbn [fst snd] in Hle, Heq. destruct ok; cbn [negb].
  - apply (write_chunk_step c i p bs (λ p i, write_from_user_head c o p i)); [done|done|done|by apply Heq|].
    intros p' HR' _ _ Hb. apply write_from_user_head_spec; [done|lia].
  - rewrite store_chunk_stored by (done || lia). cbn [obind].
    destruct (write_full_spec c (stored p bs) i SYS_EFAULT) as (p' & ev & st & E & HS);
      [by apply stored_ring; try lia|done|right; by right|].
    eexists _, _, _. split; [exact E|]. injection E as <- <- <-.
    destruct HS. split; try done. by rewrite stored_contents, app_nil_r by (done || lia).
Qed.

(** ** Reading *)

(** A read that moved [moved] bytes returns their number; it fails only if it
    moved none, and returns 0 only at the end of the stream. *)
Definition read_result (c : Call) (p p' : Pipe) (moved r : Z) : Prop :=
  (r = moved ∧ 0 ≤ moved ≤ Z.max 0 (n c) ∧
   (0 < n c → r = 0 → contents p' = [] ∧ _write_is_open p = false)) ∨
  (moved = 0 ∧ (r = -1 ∨ r = SYS_EINTR ∨ r = SYS_EAGAIN ∧ nonblock c = true ∨ r = SYS_EFAULT)).

(** The user range can be written. *)
Definition writable_range (o : Obs) : Prop :=
  ∀ a k, ensure_user_write_range o a k = true ∧ copy_out o a k = true.

Definition slept (l : ReadPoint) : bool :=
  match l with RSlept | RSleptAgain => true | REnsured _ _ => false end.

Definition read_at (l : ReadPoint) : Z :=
  match l with RSlept | RSleptAgain => 0 | REnsured i _ => i end.

(** What one section of a read may do, from pipe [p] with [i] bytes moved. *)
Record read_section (c : Call) (o : Obs) (i : Z) (p p' : Pipe) (ev : list Event)
    (st : Status ReadPoint) : Prop := {
  rs_ring : Ring p';
  rs_contents : contents p = gots ev ++ contents p';
  rs_puts : puts ev = [];
  rs_size : _pipe_size p' = _pipe_size p;
  rs_control : control p' = control (match st with
    | Paused l => if slept l then note_waiter_locked p true (pr c) else p
    | _ => p end);
  rs_status : match st with
    | Paused l => read_at l = i + Z.of_nat (length (gots ev)) ∧ 0 ≤ read_at l ∧
        (slept l = true → contents p' = [] ∧ _write_is_open p = true ∧ nonblock c = false) ∧
        (slept l = false → read_at l < n c)
    | Done r => read_result c p p' (i + Z.of_nat (length (gots ev))) r
    end;
  rs_wakes : match st with
    | Done r => 0 ≤ r → writable_range o → wakes ev = (wake_waiters_locked p false).2
    | _ => True
    end
}.

Definition RSpec c o i p (r : result ReadPoint) : Prop :=
  ∃ p' ev st, r = Ret (p', ev, st) ∧ read_section c o i p p' ev st.

Lemma contents_nil p : Ring p → _count p = 0 → contents p = [].
Proof. intros _ E. unfold contents. by rewrite E. Qed.

Lemma read_return_spec c o p i :
  Ring p → 0 ≤ i ≤ Z.max 0 (n c) →
  (0 < n c → i = 0 → _count p = 0 ∧ _write_is_open p = false) →
  RSpec c o i p (read_return p i).
Proof.
  intros HR Hi He. unfold read_return. destruct (wake_waiters_locked p false) as [w ev] eqn:E.
  destruct (wake_quiet p false) as [Hq Hw]. rewrite E in Hq, Hw. cbn [snd] in Hq, Hw.
  destruct (quiet_moves _ Hq) as [Ep Eg]. eexists _, _, _. split; [reflexivity|].
  split; try done; [by rewrite Eg| |by rewrite E].
  rewrite Eg. left. cbn. split_and!; [lia|lia|lia|]. intros Hn Hr.
  destruct (He Hn Hr). split; [by apply contents_nil|done].
Qed.

Lemma read_error_spec c o p r :
  Ring p → (r = -1 ∨ r = SYS_EINTR ∨ r = SYS_EAGAIN ∧ nonblock c = true ∨ r = SYS_EFAULT) →
  RSpec c o 0 p (Ret (p, [], Done r)).
Proof.
  intros HR Hr. eexists _, _, _. split; [reflexivity|]. split; try done; [by right|].
  unfold SYS_EINTR, SYS_EAGAIN, SYS_EFAULT in Hr. lia.
Qed.

(** The tests of the two waiting loops. *)
Lemma read_wait_spec c o p l :
  Ring p → _count p = 0 → _write_is_open p = true → slept l = true →
  RSpec c o 0 p
    (if is_killed o then Ret (p, [], Done (-1)) else
     if nonblock c then Ret (p, [], Done SYS_EAGAIN) else
     if has_unmasked_signal_pending o then Ret (p, [], Done SYS_EINTR) else read_sleep c p l).
Proof.
  intros HR Hc Hw Hl. case_match; [apply read_error_spec; [done|by left]|].
  destruct (nonblock c) eqn:Hnb; [apply read_error_spec; [done|]; naive_solver|].
  case_match; [apply read_error_spec; [done|]; naive_solver|].
  eexists _, _, _. split; [reflexivity|].
  assert (read_at l = 0) as El by (by destruct l).
  split; [by apply note_ring|by rewrite note_contents|done|by apply note_fields|by rewrite Hl| |done].
  rewrite El, note_contents, contents_nil by done. cbn. split_and!; try done. congruence.
Qed.

(** Bytes taken before the rest of a section. *)
Lemma read_after c o i p p1 dest bs r :
  contents p = bs ++ contents p1 → control p1 = control p → _pipe_size p1 = _pipe_size p →
  RSpec c o (i + Z.of_nat (length bs)) p1 r → RSpec c o i p (after [Got dest bs] r).
Proof.
  intros HC Hctl Hsz (p' & ev & st & -> & []). eexists _, _, _. split; [reflexivity|].
  assert (_write_is_open p1 = _write_is_open p) as Ho by (unfold control in Hctl; congruence).
  split; cbn [puts gots app]; try done.
  - by rewrite HC, rs_contents0, app_assoc.
  - congruence.
  - rewrite rs_control0. destruct st as [l|]; [|done]. destruct (slept l); [|done].
    by apply note_control.
  - rewrite length_app, Nat2Z.inj_add, Z.add_assoc. unfold read_result in *. by rewrite <- Ho.
  - rewrite <- (wake_control p1 p) by done. exact rs_wakes0.
Qed.

(** A chunk taken and counted, then the rest of the section. *)
Lemma read_chunk_step c o i p dest (k : Pipe → Z → result ReadPoint) :
  Ring p → CallOk c → 0 ≤ i < n c → 0 < _count p →
  (∀ p' j, Ring p' → control p' = control p → i < j ≤ n c → RSpec c o j p' (k p' j)) →
  ∃ bs, load_range (_buffer p) (_head p) (read_chunk p (u32 (n c - i))) = Ret bs ∧
    RSpec c o i p (after [Got dest bs]
      (k (advance_head p (read_chunk p (u32 (n c - i)))) (i32 (i + read_chunk p (u32 (n c - i)))))).
Proof.
  intros HR Hc Hi Hpos Hk. unfold CallOk in Hc. rewrite u32_small in * by lia.
  destruct (read_chunk_spec p (n c - i) HR) as ([H1 H2] & H3 & H4 & H5); [lia|].
  specialize (H5 Hpos ltac:(lia)). set (j := read_chunk p (n c - i)) in *.
  exists (ring_at p <$> seqZ 0 j). split; [by apply load_head|].
  destruct (advance_head_ring p j HR) as (HR' & HC & Hctl & Hsz); [lia..|].
  rewrite i32_small by lia. eapply read_after; [exact HC|done|done|].
  rewrite length_fmap, length_seqZ, Z2Nat.id by lia. apply Hk; [done|done|lia].
Qed.

Lemma read_loop_spec fuel c o p i :
  Ring p → CallOk c → 0 ≤ i ≤ Z.max 0 (n c) → (Z.to_nat (n c - i) < fuel)%nat →
  (0 < n c → i = 0 → _count p = 0 → _write_is_open p = false) →
  RSpec c o i p (read_loop fuel c p i).
Proof.
  revert p i. induction fuel as [|fuel IH]; intros p i HR Hc Hi Hf He; [lia|]. cbn [read_loop].
  destruct ((i <? n c) && (0 <? _count p)) eqn:Hg.
  - bool_facts. destruct (read_chunk_step c o i p (u64 (addr c + i)) (λ p i, read_loop fuel c p i))
      as (bs & -> & HS); [done|done|lia|done| |exact HS].
    intros p' j HR' _ Hj. apply IH; [done|done|lia|lia|lia].
  - apply read_return_spec; [done|done|]. intros Hn Hz. apply andb_false_iff in Hg.
    destruct HR. assert (_count p = 0) by (destruct Hg as [?%Z.ltb_ge|?%Z.ltb_ge]; lia).
    split; [done|by apply He].
Qed.

Lemma read_to_user_head_spec c o p i :
  Ring p → 0 ≤ i ≤ Z.max 0 (n c) → RSpec c o i p (read_to_user_head c o p i).
Proof.
  intros HR Hi. unfold read_to_user_head.
  destruct (Z.ltb_spec i (n c)); cbn [negb]; [|apply read_return_spec; done || lia].
  destruct ((_count p =? 0) && _write_is_open p && negb (0 <? i)) eqn:Hg.
  { bool_facts. assert (i = 0) as -> by lia. by apply read_wait_spec. }
  case_test.
  - apply read_return_spec; [done|done|]. intros _ ->. split; [done|].
    by destruct (_write_is_open p).
  - eexists _, _, _. split; [reflexivity|]. split; try done. cbn. split_and!; try done; lia.
Qed.

(** Where a read stands when a section starts. *)
Definition read_moved (l : option ReadPoint) : Z := match l with None => 0 | Some l => read_at l end.

Definition read_entry (c : Call) (p : Pipe) (l : option ReadPoint) : Pipe :=
  match l with
  | Some l => if slept l then forget_waiter_locked p true (pr c) else p
  | None => p
  end.

Definition read_point_ok (c : Call) (l : option ReadPoint) : Prop :=
  match l with Some (REnsured i _) => 0 ≤ i < n c | _ => True end.

Lemma read_head_spec c o p : Ring p → CallOk c → RSpec c o 0 p (read_head c o p).
Proof.
  intros HR Hc. unfold read_head. destruct ((_count p =? 0) && _write_is_open p) eqn:Hg.
  - bool_facts. by apply read_wait_spec.
  - apply read_loop_spec; [done|done|lia|lia|]. intros _ _ E.
    rewrite (proj2 (Z.eqb_eq _ _)) in Hg by done. done.
Qed.

Lemma read_spec c o p l :
  Ring p → CallOk c → (∀ i k, l ≠ Some (REnsured i k)) →
  RSpec c o (read_moved l) (read_entry c p l) (read c o p l).
Proof.
  intros HR Hc Hl. destruct l as [[| |i k]|]; [..|by apply read_head_spec].
  1,2: by apply read_head_spec; [apply forget_ring|]. by destruct (Hl i k).
Qed.

Lemma read_to_user_wait_spec c o p : Ring p → RSpec c o 0 p (read_to_user_wait c o p).
Proof.
  intros HR. unfold read_to_user_wait. destruct ((_count p =? 0) && _write_is_open p) eqn:Hg.
  - bool_facts. by apply read_wait_spec.
  - apply read_to_user_head_spec; [done|lia].
Qed.

Lemma read_fault_spec c o p i :
  Ring p → 0 ≤ i < n c → ¬ writable_range o →
  RSpec c o i p (Ret (p, [], Done (or_errno i SYS_EFAULT))).
Proof.
  intros HR Hi Hw. eexists _, _, _. split; [reflexivity|]. split; try done.
  unfold read_result, or_errno. cbn. rewrite Z.add_0_r. case_test; [left; lia|].
  right. split; [lia|]. naive_solver.
Qed.

Lemma read_to_user_spec c o p l :
  Ring p → CallOk c → read_point_ok c l →
  RSpec c o (read_moved l) (read_entry c p l) (read_to_user c o p l).
Proof.
  intros HR Hc Hl. destruct l as [[| |i k]|]; [..|by apply read_to_user_wait_spec].
  { by apply read_to_user_wait_spec, forget_ring. }
  { apply read_to_user_head_spec; [by apply forget_ring|cbn; lia]. }
  cbn in Hl. cbn [read_to_user read_entry read_moved read_at slept].
  destruct (ensure_user_write_range o _ k) eqn:He; cbn [negb].
  2: { apply read_fault_spec; [done|done|]. intros Hw.
       destruct (Hw (u64 (addr c + i)) k). congruence. }
  case_test; [apply read_to_user_head_spec; done || lia|].
  destruct (read_chunk_step c o i p (u64 (addr c + i)) (λ p i, read_to_user_head c o p i))
    as (bs & -> & HS); [done|done|done|destruct HR; lia| |].
  { intros p' j HR' _ Hj. apply read_to_user_head_spec; [done|lia]. }
  cbn [obind]. destruct (copy_out o _ _) eqn:Ho; cbn [negb]; [exact HS|].
  apply read_fault_spec; [done|done|]. intros Hw. by edestruct Hw as [_ Hw2]; erewrite Hw2 in Ho.
Qed.

(** ** The kernel variants never page anything in *)

Lemma write_in_kernel_no_window c o p l p' ev j k :
  write_in_kernel c o p l ≠ Ret (p', ev, Paused (WEnsured j k)).
Proof.
  assert (∀ fuel p i p' ev, write_in_kernel_loop fuel c o p i ≠ Ret (p', ev, Paused (WEnsured j k))) as Hl.
  { clear. induction fuel as [|fuel IH]; intros p i p' ev; cbn [write_in_kernel_loop]; [done|].
    unfold write_return, write_refused, write_sleep. repeat case_match; try done.
    intros E. apply obind_Ret in E as (q & _ & E).
    unfold after in E. apply obind_Ret in E as ([[p1 ev1] st1] & E1 & [= <- <- ->]).
    by apply IH in E1. }
  destruct l as [[]|]; apply Hl.
Qed.

Lemma read_no_window c o p l p' ev j k : read c o p l ≠ Ret (p', ev, Paused (REnsured j k)).
Proof.
  assert (∀ fuel p i p' ev, read_loop fuel c p i ≠ Ret (p', ev, Paused (REnsured j k))) as Hl.
  { clear. induction fuel as [|fuel IH]; intros p i p' ev; cbn [read_loop]; [done|].
    unfold read_return. repeat case_match; try done.
    intros E. apply obind_Ret in E as (q & _ & E).
    unfold after in E. apply obind_Ret in E as ([[p1 ev1] st1] & E1 & [= <- <- ->]).
    by apply IH in E1. }
  destruct l as [l|]; unfold read, read_head, read_sleep; repeat case_match; done || apply Hl.
Qed.

End PipeCalls.
