(* ===== verification/PipeSystem.v ===== *)
(** * Processes sharing a pipe

    Any number of processes run read and write calls on one pipe, section by
    section and interleaved in any order; sections of [close], [set_pipe_size]
    and the flag setters come in between.  A process that went to sleep runs
    again after a wakeup or a signal. *)
From S2P Require Import Prelude Pipe PipeRing PipeCalls.
Import Pipe PipeRing PipeCalls.

Module PipeSystem.

(** The processes of the process table. *)
Definition NPROC : Z := 512.

(** ** Configurations *)

(** A call in progress: which routine, and where it resumes.  [user] tells
    [write_from_user] and [read_to_user] from [write_in_kernel] and [read]. *)
Inductive Running :=
  | Writing (user : bool) (l : WritePoint)
  | Reading (user : bool) (l : ReadPoint).

Definition lift {L} (f : L → Running) (r : result L) : result Running :=
  let! (p, ev, st) := r in
  Ret (p, ev, match st with Paused l => Paused (f l) | Done r => Done r end).

Definition write_op (user : bool) := if user then write_from_user else write_in_kernel.
Definition read_op (user : bool) := if user then read_to_user else read.

Definition start_section (is_write user : bool) (c : Call) (o : Obs) (p : Pipe) : result Running :=
  if is_write then lift (Writing user) (write_op user c o p None)
  else lift (Reading user) (read_op user c o p None).

Definition resume_section (at_ : Running) (c : Call) (o : Obs) (p : Pipe) : result Running :=
  match at_ with
  | Writing user l => lift (Writing user) (write_op user c o p (Some l))
  | Reading user l => lift (Reading user) (read_op user c o p (Some l))
  end.

Definition is_writing (at_ : Running) : bool :=
  match at_ with Writing _ _ => true | Reading _ _ => false end.

(** The end a call is registered as a waiter of: [true] for the readers. *)
Definition waits_on (at_ : Running) : option bool :=
  match at_ with
  | Writing _ (WSlept _) => Some false
  | Reading _ l => if slept l then Some true else None
  | _ => None
  end.

(** [moved] records the bytes the call moved so far. *)
Record Thread := mkThread { t_call : Call; t_at : Running; t_asleep : bool; t_moved : list Z }.

(** [c_pipe] is [None] once the pipe was deleted; [c_put] and [c_got] record all
    bytes that went in and came out. *)
Record Config := mkConfig {
  c_pipe : option Pipe;
  c_threads : gmap ptr Thread;
  c_put : list Z;
  c_got : list Z
}.

(** ** Wakeups *)

Definition wakes_thread (t : ptr) (at_ : Running) (e : Event) : bool :=
  match e with
  | WakeOne w b => (w =? t) && bool_decide (waits_on at_ = Some b)
  | WakeAll b => bool_decide (waits_on at_ = Some b)
  | _ => false
  end.

Definition wake_thread (ev : list Event) (t : ptr) (th : Thread) : Thread :=
  mkThread (t_call th) (t_at th) (t_asleep th && negb (existsb (wakes_thread t (t_at th)) ev))
    (t_moved th).

Definition apply_wakes (ev : list Event) (ths : gmap ptr Thread) : gmap ptr Thread :=
  map_imap (λ t th, Some (wake_thread ev t th)) ths.

(** ** Steps *)

(** The configuration after a section of the call [c] of process [t], which had
    moved [moved]. *)
Definition after_section (cfg : Config) (t : ptr) (c : Call) (moved : list Z) (p : Pipe)
    (ev : list Event) (st : Status Running) : Config :=
  let ths := apply_wakes ev (delete t (c_threads cfg)) in
  mkConfig (Some p)
    (match st with
     | Paused at_ => <[t := mkThread c at_ (bool_decide (is_Some (waits_on at_)))
                              (moved ++ puts ev ++ gots ev)]> ths
     | Done _ => ths
     end)
    (c_put cfg ++ puts ev) (c_got cfg ++ gots ev).

(** A call returned [r], having moved [moved]. *)
Inductive Label :=
  | Silent
  | Returned (t : ptr) (is_write : bool) (c : Call) (o : Obs) (r : Z) (moved : list Z)
  | Closed (is_write : bool).

Definition label_of (t : ptr) (is_write : bool) (c : Call) (o : Obs) (moved : list Z)
    (ev : list Event) (st : Status Running) : Label :=
  match st with
  | Paused _ => Silent
  | Done r => Returned t is_write c o r (moved ++ puts ev ++ gots ev)
  end.

Inductive step (cfg : Config) : Label → Config → Prop :=
  | step_start t is_write user c o p p' ev st :
      c_pipe cfg = Some p → pr c = t → t ≠ nullptr → c_threads cfg !! t = None →
      Z.of_nat (size (c_threads cfg)) < NPROC → CallOk c → ObsOk o →
      start_section is_write user c o p = Ret (p', ev, st) →
      step cfg (label_of t is_write c o [] ev st) (after_section cfg t c [] p' ev st)
  | step_resume t th o p p' ev st :
      c_pipe cfg = Some p → c_threads cfg !! t = Some th → t_asleep th = false → ObsOk o →
      resume_section (t_at th) (t_call th) o p = Ret (p', ev, st) →
      step cfg (label_of t (is_writing (t_at th)) (t_call th) o (t_moved th) ev st)
        (after_section cfg t (t_call th) (t_moved th) p' ev st)
  | step_signal t th :
      c_threads cfg !! t = Some th →
      step cfg Silent (mkConfig (c_pipe cfg)
        (<[t := mkThread (t_call th) (t_at th) false (t_moved th)]> (c_threads cfg))
        (c_put cfg) (c_got cfg))
  | step_close p q ev is_write :
      c_pipe cfg = Some p → close p is_write = (q, ev) →
      step cfg (Closed is_write)
        (mkConfig q (apply_wakes ev (c_threads cfg)) (c_put cfg) (c_got cfg))
  | step_resize p p' new_size new_buffer r :
      c_pipe cfg = Some p → (∀ b, new_buffer = Some b → Z.of_nat (length b) = new_size) →
      set_pipe_size p new_size new_buffer = Ret (p', r) →
      step cfg Silent (mkConfig (Some p') (c_threads cfg) (c_put cfg) (c_got cfg))
  | step_async p flags type_ id_ sig_ :
      c_pipe cfg = Some p →
      step cfg Silent
        (mkConfig (Some (with_async p flags type_ id_ sig_)) (c_threads cfg) (c_put cfg) (c_got cfg)).

(** The pipe [alloc] leaves, no process on it. *)
Definition initial (p : Pipe) : Config := mkConfig (Some p) ∅ [] [].

Definition fresh_pipe (p : Pipe) : Prop :=
  ∃ b euid new_buffer, Z.of_nat (length b) = default_pipe_size ∧
    (∀ b', new_buffer = Some b' → Z.of_nat (length b') = privileged_default_pipe_size) ∧
    p = alloc (Pipe_new b) euid new_buffer.

Inductive reachable : Config → Prop :=
  | reachable_initial p : fresh_pipe p → reachable (initial p)
  | reachable_step cfg lbl cfg' : reachable cfg → step cfg lbl cfg' → reachable cfg'.

(** ** The invariant *)

(** The processes registered as waiters of an end. *)
Definition registered (b : bool) (ths : gmap ptr Thread) : gset ptr :=
  dom (base.filter (λ '(_, th), waits_on (t_at th) = Some b) ths).

(** The pipe's two fields for an end describe the set of its waiters. *)
Definition waiters_ok (single : ptr) (count : Z) (X : gset ptr) : Prop :=
  count = Z.of_nat (size X) ∧ (single ≠ nullptr → X = {[single]}).

Definition Registered (p : Pipe) (ths : gmap ptr Thread) : Prop :=
  waiters_ok (_read_waiter p) (_read_waiter_count p) (registered true ths) ∧
  waiters_ok (_write_waiter p) (_write_waiter_count p) (registered false ths).

Definition point_ok (c : Call) (at_ : Running) : Prop :=
  match at_ with
  | Writing user l => write_point_ok c (Some l) ∧ (user = false → ∀ i k, l ≠ WEnsured i k)
  | Reading user l => read_point_ok c (Some l) ∧ (user = false → ∀ i k, l ≠ REnsured i k)
  end.

Definition moved_at (at_ : Running) : Z :=
  match at_ with Writing _ l => write_moved (Some l) | Reading _ l => read_moved (Some l) end.

Record thread_ok (t : ptr) (th : Thread) : Prop := {
  th_pr : pr (t_call th) = t;
  th_nonnull : t ≠ nullptr;
  th_call : CallOk (t_call th);
  th_point : point_ok (t_call th) (t_at th);
  th_moved : Z.of_nat (length (t_moved th)) = moved_at (t_at th);
  th_asleep : t_asleep th = true → is_Some (waits_on (t_at th))
}.

Record Inv (p : Pipe) (cfg : Config) : Prop := {
  inv_ring : Ring p;
  inv_fifo : c_put cfg = c_got cfg ++ contents p;
  inv_threads : map_Forall thread_ok (c_threads cfg);
  inv_size : Z.of_nat (size (c_threads cfg)) ≤ NPROC;
  inv_waiters : Registered p (c_threads cfg)
}.

(** ** Registration *)

Lemma note_waiters_ok single count X t :
  waiters_ok single count X → t ∉ X → t ≠ nullptr → Z.of_nat (size X) < 2 ^ 32 - 1 →
  waiters_ok (note_one single count t).1 (note_one single count t).2 ({[t]} ∪ X).
Proof.
  intros [-> Hs] Ht Ht0 Hlt. split; cbn.
  - rewrite size_union by set_solver. rewrite size_singleton, u32_small by lia. lia.
  - case_test.
    + intros _. assert (X = ∅) as -> by (apply leibniz_equiv, size_empty_inv; lia). set_solver.
    + destruct (Z.eqb_spec single t) as [->|]; cbn; [|done]. intros _. rewrite (Hs Ht0) in Ht. set_solver.
Qed.

Lemma forget_waiters_ok single count X t :
  waiters_ok single count X → t ∈ X →
  waiters_ok (forget_one single count t).1 (forget_one single count t).2 (X ∖ {[t]}).
Proof.
  intros [-> Hs] Ht. unfold forget_one.
  assert (size (X ∖ {[t]}) = size X - 1)%nat as Esz.
  { rewrite size_difference by set_solver. by rewrite size_singleton. }
  assert (size X ≠ 0%nat) by (intros E%size_empty_inv; set_solver).
  rewrite (proj2 (Z.eqb_neq _ _)) by lia. split; cbn; [lia|].
  case_match eqn:E; [done|]. apply orb_false_iff in E as [_ E%Z.eqb_neq]. intros Hne.
  specialize (Hs Hne). set_solver.
Qed.

(** Every registered waiter is woken. *)
Lemma wake_complete p (b : bool) X t at_ :
  waiters_ok (if b then _read_waiter p else _write_waiter p)
    (if b then _read_waiter_count p else _write_waiter_count p) X →
  t ∈ X → waits_on at_ = Some b →
  existsb (wakes_thread t at_) (wake_waiters_locked p b).2 = true.
Proof.
  intros [Ec Hs] Ht Hw. unfold wake_waiters_locked. rewrite Ec.
  set (single := if b then _read_waiter p else _write_waiter p) in *.
  assert (size X ≠ 0%nat) by (intros E%size_empty_inv; set_solver).
  rewrite (proj2 (Z.eqb_neq _ _)) by lia.
  destruct ((_ =? 1) && negb (single =? nullptr)) eqn:E; cbn; rewrite Hw.
  - apply andb_true_iff in E as [_ E%negb_true_iff%Z.eqb_neq]. rewrite (Hs E) in Ht.
    apply elem_of_singleton in Ht as ->. by rewrite Z.eqb_refl, bool_decide_eq_true_2.
  - by rewrite bool_decide_eq_true_2.
Qed.

(** ** The set of waiters under updates *)

Lemma elem_of_registered b ths t :
  t ∈ registered b ths ↔ ∃ th, ths !! t = Some th ∧ waits_on (t_at th) = Some b.
Proof.
  unfold registered. rewrite elem_of_dom. unfold is_Some. setoid_rewrite map_lookup_filter_Some. done.
Qed.

Lemma registered_size b ths : (size (registered b ths) ≤ size ths)%nat.
Proof. unfold registered. rewrite size_dom. apply map_size_filter. Qed.

Lemma lookup_wakes ev ths t : apply_wakes ev ths !! t = wake_thread ev t <$> ths !! t.
Proof. unfold apply_wakes. rewrite map_lookup_imap. by destruct (ths !! t). Qed.

Lemma registered_wakes b ev ths : registered b (apply_wakes ev ths) = registered b ths.
Proof.
  apply leibniz_equiv. intros t. rewrite !elem_of_registered. setoid_rewrite lookup_wakes.
  destruct (ths !! t) as [th|]; cbn; naive_solver.
Qed.

Lemma size_wakes ev ths : size (apply_wakes ev ths) = size ths.
Proof.
  rewrite <- !size_dom. f_equal. apply leibniz_equiv. intros t.
  rewrite !elem_of_dom, lookup_wakes. by rewrite fmap_is_Some.
Qed.

Lemma registered_delete b t ths : registered b (delete t ths) = registered b ths ∖ {[t]}.
Proof.
  apply leibniz_equiv. intros t'. rewrite elem_of_difference, !elem_of_registered, elem_of_singleton.
  setoid_rewrite lookup_delete_Some. naive_solver.
Qed.

Lemma registered_insert b t th ths :
  ths !! t = None →
  registered b (<[t := th]> ths) =
    if bool_decide (waits_on (t_at th) = Some b) then {[t]} ∪ registered b ths else registered b ths.
Proof.
  intros Hf. apply leibniz_equiv. intros t'.
  assert (t' ∈ registered b (<[t := th]> ths) ↔
    (t' = t ∧ waits_on (t_at th) = Some b) ∨ t' ∈ registered b ths) as ->.
  { rewrite !elem_of_registered. setoid_rewrite lookup_insert_Some. naive_solver. }
  case_bool_decide; set_solver.
Qed.

Lemma threads_wakes ev ths : map_Forall thread_ok ths → map_Forall thread_ok (apply_wakes ev ths).
Proof.
  intros Hf t th. rewrite lookup_wakes. intros (th0 & Hth & ->)%fmap_Some.
  destruct (Hf t th0 Hth). split; try done. cbn. intros [? _]%andb_true_iff. by apply th_asleep0.
Qed.

Lemma Registered_ext p q ths ths' :
  control p = control q → (∀ b, registered b ths = registered b ths') →
  Registered p ths → Registered q ths'.
Proof.
  intros E Hr [H1 H2]. unfold Registered. rewrite <- !Hr.
  unfold control in E. injection E; intros. split; congruence.
Qed.

Lemma registered_not_in b t ths : t ∉ registered b ths → registered b (delete t ths) = registered b ths.
Proof. intros. rewrite registered_delete. set_solver. Qed.

(** The pipe when a call that resumes took itself off the waiters. *)
Definition entry (c : Call) (p : Pipe) (at_ : Running) : Pipe :=
  match waits_on at_ with Some b => forget_waiter_locked p b (pr c) | None => p end.

Lemma forget_fields p b w :
  _read_waiter (forget_waiter_locked p b w) =
    (if b then (forget_one (_read_waiter p) (_read_waiter_count p) w).1 else _read_waiter p) ∧
  _read_waiter_count (forget_waiter_locked p b w) =
    (if b then (forget_one (_read_waiter p) (_read_waiter_count p) w).2 else _read_waiter_count p) ∧
  _write_waiter (forget_waiter_locked p b w) =
    (if b then _write_waiter p else (forget_one (_write_waiter p) (_write_waiter_count p) w).1) ∧
  _write_waiter_count (forget_waiter_locked p b w) =
    (if b then _write_waiter_count p else (forget_one (_write_waiter p) (_write_waiter_count p) w).2).
Proof. unfold forget_waiter_locked. by destruct b, (forget_one _ _ _). Qed.

Lemma note_waiter_fields p b w :
  _read_waiter (note_waiter_locked p b w) =
    (if b then (note_one (_read_waiter p) (_read_waiter_count p) w).1 else _read_waiter p) ∧
  _read_waiter_count (note_waiter_locked p b w) =
    (if b then (note_one (_read_waiter p) (_read_waiter_count p) w).2 else _read_waiter_count p) ∧
  _write_waiter (note_waiter_locked p b w) =
    (if b then _write_waiter p else (note_one (_write_waiter p) (_write_waiter_count p) w).1) ∧
  _write_waiter_count (note_waiter_locked p b w) =
    (if b then _write_waiter_count p else (note_one (_write_waiter p) (_write_waiter_count p) w).2).
Proof. unfold note_waiter_locked. by destruct b, (note_one _ _ _). Qed.

Lemma entry_registered p ths t th :
  Registered p ths → ths !! t = Some th → pr (t_call th) = t →
  Registered (entry (t_call th) p (t_at th)) (delete t ths).
Proof.
  intros [H1 H2] Hth Hpr. unfold entry. rewrite Hpr.
  assert (∀ b, waits_on (t_at th) ≠ Some b → registered b (delete t ths) = registered b ths) as Hno.
  { intros b Hb. apply registered_not_in. rewrite elem_of_registered. naive_solver. }
  destruct (waits_on (t_at th)) as [b|] eqn:Hw; [|by split; rewrite Hno].
  assert (t ∈ registered b ths) as Hin by (apply elem_of_registered; eauto).
  destruct (forget_fields p b t) as (E1 & E2 & E3 & E4). unfold Registered.
  rewrite E1, E2, E3, E4. destruct b; rewrite (Hno (negb _)) || idtac; cbn.
  - rewrite (Hno false) by done. split; [|done]. rewrite registered_delete. by apply forget_waiters_ok.
  - rewrite (Hno true) by done. split; [done|]. rewrite registered_delete. by apply forget_waiters_ok.
Qed.

Lemma note_registered p ths t th :
  Registered p ths → ths !! t = None → t ≠ nullptr → Z.of_nat (size ths) < NPROC →
  Registered (match waits_on (t_at th) with Some b => note_waiter_locked p b t | None => p end)
    (<[t := th]> ths).
Proof.
  intros [H1 H2] Hth Ht0 Hsz. unfold Registered. rewrite !registered_insert by done.
  assert (∀ b, t ∉ registered b ths) as Hnot
    by (intros b Hb; apply elem_of_registered in Hb as (? & ? & _); congruence).
  pose proof (registered_size true ths). pose proof (registered_size false ths).
  unfold NPROC in Hsz. destruct (waits_on (t_at th)) as [b|]; [|done].
  destruct (note_waiter_fields p b t) as (E1 & E2 & E3 & E4). rewrite E1, E2, E3, E4.
  destruct b; cbn.
  - split; [|done]. apply note_waiters_ok; done || lia.
  - split; [done|]. apply note_waiters_ok; done || lia.
Qed.

(** ** Sections in the system *)

Definition result_ok (c : Call) (is_write : bool) (q p' : Pipe) (moved r : Z) : Prop :=
  if is_write then write_result c q moved r else read_result c q p' moved r.

(** The contract both kinds of sections meet, from the entry pipe [q]. *)
Record section_ok (c : Call) (o : Obs) (is_write : bool) (i : Z) (q p' : Pipe) (ev : list Event)
    (st : Status Running) : Prop := {
  so_ring : Ring p';
  so_fifo : contents q ++ puts ev = gots ev ++ contents p';
  so_control : control p' = control (match st with
    | Paused at_ => match waits_on at_ with Some b => note_waiter_locked q b (pr c) | None => q end
    | Done _ => q end);
  so_status : match st with
    | Paused at_ => point_ok c at_ ∧ is_writing at_ = is_write ∧
        moved_at at_ = i + Z.of_nat (length (puts ev ++ gots ev)) ∧
        (waits_on at_ = Some true → contents p' = [] ∧ _write_is_open q = true) ∧
        (waits_on at_ = Some false → _count p' = _pipe_size p' ∧ _read_is_open q = true)
    | Done r => result_ok c is_write q p' (i + Z.of_nat (length (puts ev ++ gots ev))) r
    end;
  so_wakes : match st with
    | Paused at_ => waits_on at_ = Some false → wakes ev = (wake_waiters_locked q true).2
    | Done r => if is_write then Z.max 0 (n c) ≤ r → wakes ev = (wake_waiters_locked q true).2
        else 0 ≤ r → writable_range o → wakes ev = (wake_waiters_locked q false).2
    end
}.

Lemma write_section_ok user c o i q r :
  WSpec c i q r → (user = false → ∀ p' ev j k, r ≠ Ret (p', ev, Paused (WEnsured j k))) →
  ∃ p' ev st, lift (Writing user) r = Ret (p', ev, st) ∧ section_ok c o true i q p' ev st.
Proof.
  intros (p' & ev & st & -> & []) Hu. eexists _, _, _. split; [reflexivity|].
  split; rewrite ?ws_gots0, ?app_nil_r; try done.
  - rewrite ws_control0. by destruct st as [[]|].
  - destruct st as [[j|j k]|r']; [| |done].
    + destruct ws_status0 as (-> & ? & ? & ? & ?). cbn. split_and!; done || lia.
    + destruct ws_status0 as (-> & ?). cbn. split_and!; try done || lia.
      intros Eu. by destruct (Hu Eu p' ev (i + Z.of_nat (length (puts ev))) k).
  - by destruct st as [[]|].
Qed.

Lemma read_section_ok user c o i q r :
  RSpec c o i q r → (user = false → ∀ p' ev j k, r ≠ Ret (p', ev, Paused (REnsured j k))) →
  ∃ p' ev st, lift (Reading user) r = Ret (p', ev, st) ∧ section_ok c o false i q p' ev st.
Proof.
  intros (p' & ev & st & -> & []) Hu. eexists _, _, _. split; [reflexivity|].
  split; rewrite ?rs_puts0, ?app_nil_r; try done.
  - rewrite rs_control0. destruct st as [l|]; [|done]. cbn. by destruct (slept l).
  - destruct st as [l|r']; [|done]. destruct rs_status0 as (E & H0 & Hs & Hn).
    cbn. split_and!; [destruct l; [done..|]; cbn in *; lia| |done|done| |by destruct (slept l)].
    + intros Eu j k ->. by destruct (Hu Eu p' ev j k).
    + destruct (slept l); [|done]. intros _. naive_solver.
  - destruct st as [l|r']; [|done]. cbn. by destruct (slept l).
Qed.

Lemma start_section_ok is_write user c o p :
  Ring p → CallOk c → ObsOk o →
  ∃ p' ev st, start_section is_write user c o p = Ret (p', ev, st) ∧
    section_ok c o is_write 0 p p' ev st.
Proof.
  intros HR Hc Ho. unfold start_section. destruct is_write.
  - apply write_section_ok.
    + destruct user; [by apply (write_from_user_spec c o p None)|by apply (write_in_kernel_spec c o p None)].
    + intros -> p' ev j k. apply write_in_kernel_no_window.
  - apply read_section_ok.
    + destruct user; [by apply (read_to_user_spec c o p None)|by apply (read_spec c o p None)].
    + intros -> p' ev j k. apply read_no_window.
Qed.

Lemma resume_section_ok at_ c o p :
  Ring p → CallOk c → ObsOk o → point_ok c at_ →
  ∃ p' ev st, resume_section at_ c o p = Ret (p', ev, st) ∧
    section_ok c o (is_writing at_) (moved_at at_) (entry c p at_) p' ev st.
Proof.
  intros HR Hc Ho. destruct at_ as [user l|user l]; intros [Hl Hu]; cbn [resume_section is_writing moved_at].
  - replace (entry c p (Writing user l)) with (write_entry c p (Some l)) by (by destruct l).
    apply write_section_ok.
    + destruct user; [by apply write_from_user_spec|]. apply write_in_kernel_spec; [done..|].
      intros i k [= ->]. by apply (Hu eq_refl i k).
    + intros -> p' ev j k. apply write_in_kernel_no_window.
  - replace (entry c p (Reading user l)) with (read_entry c p (Some l))
      by (unfold entry; cbn; by destruct (slept l)).
    apply read_section_ok.
    + destruct user; [by apply read_to_user_spec|]. apply read_spec; [done..|].
      intros i k [= ->]. by apply (Hu eq_refl i k).
    + intros -> p' ev j k. apply read_no_window.
Qed.

(** ** Preservation *)

(** A section of a call of [t], from the threads without [t]. *)
Lemma section_inv cfg t c o is_write i moved q p' ev st :
  section_ok c o is_write i q p' ev st → Registered q (delete t (c_threads cfg)) →
  map_Forall thread_ok (c_threads cfg) → Z.of_nat (size (delete t (c_threads cfg))) < NPROC →
  pr c = t → t ≠ nullptr → CallOk c → Z.of_nat (length moved) = i →
  c_put cfg = c_got cfg ++ contents q →
  Inv p' (after_section cfg t c moved p' ev st).
Proof.
  intros [] Hreg Hths Hsz Hpr Ht0 Hc Hm Hfifo. unfold after_section.
  set (ths := apply_wakes ev (delete t (c_threads cfg))).
  assert (ths !! t = None) as Hnone by (unfold ths; by rewrite lookup_wakes, lookup_delete_eq).
  assert (map_Forall thread_ok ths) as Hths'
    by (apply threads_wakes; intros t' th [_ ?]%lookup_delete_Some; by apply Hths).
  assert (size ths = size (delete t (c_threads cfg))) as Esz by apply size_wakes.
  assert (Registered q ths) as Hreg'
    by (eapply Registered_ext; [done| |done]; intros b; unfold ths; by rewrite registered_wakes).
  split; cbn.
  - done.
  - by rewrite Hfifo, <- !app_assoc, so_fifo0.
  - destruct st as [at_|r]; [|done]. apply map_Forall_insert_2; [|done].
    destruct so_status0 as (Hp & _ & Em & _). split; cbn; try done.
    + rewrite length_app, Em, Nat2Z.inj_add. lia.
    + by intros ?%bool_decide_eq_true.
  - destruct st as [at_|r]; [|lia]. rewrite map_size_insert_None by done. lia.
  - destruct st as [at_|r]; [|by eapply Registered_ext].
    eapply Registered_ext; [symmetry; exact so_control0|done|]. rewrite Hpr.
    apply (note_registered q ths t (mkThread c at_ _ _)); [done|done|done|lia].
Qed.

Lemma with_async_ring p flags type_ id_ sig_ : Ring p → Ring (with_async p flags type_ id_ sig_).
Proof. intros []. by split. Qed.

(** A step of the pipe that leaves the contents alone. *)
Lemma quiet_inv cfg p p' ev :
  Inv p cfg → Ring p' → contents p' = contents p → _read_waiter p' = _read_waiter p →
  _write_waiter p' = _write_waiter p → _read_waiter_count p' = _read_waiter_count p →
  _write_waiter_count p' = _write_waiter_count p →
  Inv p' (mkConfig (Some p') (apply_wakes ev (c_threads cfg)) (c_put cfg) (c_got cfg)).
Proof.
  intros [] HR HC E1 E2 E3 E4. split; cbn.
  - done.
  - by rewrite HC.
  - by apply threads_wakes.
  - by rewrite size_wakes.
  - unfold Registered. rewrite !registered_wakes, E1, E2, E3, E4. done.
Qed.

Lemma apply_wakes_nil ths : apply_wakes [] ths = ths.
Proof.
  apply map_eq. intros t. rewrite lookup_wakes. destruct (ths !! t) as [[? ? [] ?]|]; done.
Qed.

Lemma close_ring p b p' ev :
  Ring p → close p b = (Some p', ev) →
  Ring p' ∧ contents p' = contents p ∧ ev = (wake_waiters_locked p b).2 ∧
  _read_is_open p' = (if b then _read_is_open p else false) ∧
  _write_is_open p' = (if b then false else _write_is_open p) ∧
  _read_waiter p' = _read_waiter p ∧ _write_waiter p' = _write_waiter p ∧
  _read_waiter_count p' = _read_waiter_count p ∧ _write_waiter_count p' = _write_waiter_count p.
Proof.
  intros [] E. unfold close in E.
  assert (∀ q, q = (if b then with_open p (_read_is_open p) false else with_open p false (_write_is_open p)) →
    wake_waiters_locked q b = wake_waiters_locked p b) as Hw by (intros q ->; by destruct b).
  rewrite (Hw _ eq_refl) in E. destruct (wake_waiters_locked p b) as [w ev'].
  destruct b; cbn in E; case_match; simplify_eq; cbn; split_and!; try done; by split.
Qed.

(** Two results of the same run are equal. *)
Ltac same_result :=
  match goal with
  | E : ?x = Ret _, E' : ?x = Ret _ |- _ => rewrite E in E'; simplify_eq
  end.

Lemma step_inv cfg lbl cfg' p :
  c_pipe cfg = Some p → Inv p cfg → step cfg lbl cfg' →
  ∀ p', c_pipe cfg' = Some p' → Inv p' cfg'.
Proof.
  intros Ep HI Hs p' Ep'. pose proof HI as []. destruct Hs; simplify_eq/=.
  - destruct (start_section_ok is_write user c o p) as (p1 & ev1 & st1 & E & HS); [done..|].
    same_result. eapply section_inv; [exact HS|..]; rewrite ?delete_id by done; done.
  - destruct (inv_threads0 t th) as []; [done|].
    destruct (resume_section_ok (t_at th) (t_call th) o p) as (p1 & ev1 & st1 & E & HS); [done..|].
    same_result. eapply section_inv; [exact HS|by apply entry_registered|done| |done..|].
    + erewrite map_size_delete_Some by done. unfold NPROC in *.
      assert (size (c_threads cfg) ≠ 0%nat) by (apply map_size_ne_0_lookup; eauto). lia.
    + unfold entry. destruct (waits_on (t_at th)); [by rewrite forget_contents|done].
  - destruct (inv_threads0 t th) as []; [done|]. split; cbn; try done.
    + apply map_Forall_insert_2; [|done]. by split.
    + by rewrite map_size_insert_Some by (by rewrite H).
    + eapply Registered_ext; [done| |done]. intros b. apply leibniz_equiv. intros t'.
      rewrite !elem_of_registered. destruct (decide (t' = t)) as [->|Hne].
      * rewrite lookup_insert_eq. naive_solver.
      * by rewrite lookup_insert_ne.
  - destruct (close_ring p is_write p' ev) as (HR & HC & -> & _ & _ & E1 & E2 & E3 & E4); [done..|].
    by eapply quiet_inv.
  - destruct (set_pipe_size_spec p new_size new_buffer) as (p2 & r2 & E & HR & HC & Hctl & _); [done..|].
    same_result. rewrite <- (apply_wakes_nil (c_threads cfg)). unfold control in Hctl.
    eapply quiet_inv; [done|done|done|congruence..].
  - rewrite <- (apply_wakes_nil (c_threads cfg)). eapply quiet_inv; [done|by apply with_async_ring|done..].
Qed.

Lemma fresh_ring p : fresh_pipe p → Ring p ∧ contents p = [] ∧
  _read_waiter p = nullptr ∧ _write_waiter p = nullptr ∧
  _read_waiter_count p = 0 ∧ _write_waiter_count p = 0.
Proof.
  intros (b & euid & nb & Hb & Hnb & ->). unfold alloc, Pipe_new. cbn.
  unfold default_pipe_size, privileged_default_pipe_size in *.
  destruct (bool_decide _ && _); [destruct nb as [nb|]|]; cbn; split_and!; try done;
    split; cbn; try done; by apply Hnb.
Qed.

Lemma fresh_inv p : fresh_pipe p → Inv p (initial p).
Proof.
  intros (HR & HC & E1 & E2 & E3 & E4)%fresh_ring. by split.
Qed.

Lemma close_wakes p b q ev : close p b = (q, ev) → wakes ev = (wake_waiters_locked p b).2.
Proof.
  unfold close. intros E. destruct (wake_quiet p b) as [_ <-].
  destruct b; cbn in E;
    match type of E with (let (_, _) := wake_waiters_locked ?q ?b in _) = _ =>
      change (wake_waiters_locked q b) with (wake_waiters_locked p b) in E end;
    destruct (wake_waiters_locked p _); by injection E as _ <-.
Qed.

Lemma step_alive cfg lbl cfg' : step cfg lbl cfg' → is_Some (c_pipe cfg') → is_Some (c_pipe cfg).
Proof. destruct 1; cbn; intros; eauto. Qed.

Lemma reachable_inv cfg p : reachable cfg → c_pipe cfg = Some p → Inv p cfg.
Proof.
  intros Hr. revert p. induction Hr as [p0 Hp0|cfg lbl cfg' Hr IH Hs]; intros p Hp.
  - injection Hp as <-. by apply fresh_inv.
  - destruct (step_alive _ _ _ Hs) as [q Hq]; [by eexists|]. by eapply step_inv; eauto.
Qed.

(** ** What a return and a close leave behind *)

(** Nobody waiting for the end [b] is asleep. *)
Definition no_sleeper (b : bool) (ths : gmap ptr Thread) : Prop :=
  ∀ t th, ths !! t = Some th → waits_on (t_at th) = Some b → t_asleep th = false.

Lemma existsb_wakes t at_ ev :
  existsb (wakes_thread t at_) (wakes ev) = true → existsb (wakes_thread t at_) ev = true.
Proof.
  rewrite !existsb_exists. intros (e & He & Hw). exists e. split; [|done].
  apply list_elem_of_In, list_elem_of_filter in He as [_ He]. by apply list_elem_of_In.
Qed.

Lemma wakes_no_sleeper q b ev ths :
  Registered q ths → wakes ev = (wake_waiters_locked q b).2 → no_sleeper b (apply_wakes ev ths).
Proof.
  intros [Hr Hw] Hev t th. rewrite lookup_wakes. intros (th0 & Hth & ->)%fmap_Some Hb. cbn in *.
  rewrite existsb_wakes; [by rewrite andb_false_r|]. rewrite Hev.
  apply (wake_complete q b (registered b ths)); [by destruct b| |done].
  apply elem_of_registered. eauto.
Qed.

(** The section in which a call returned. *)
Lemma returned_section cfg t w c o r moved cfg' p :
  Inv p cfg → c_pipe cfg = Some p → step cfg (Returned t w c o r moved) cfg' →
  ∃ q p' ev moved0, section_ok c o w (Z.of_nat (length moved0)) q p' ev (Done r) ∧
    moved = moved0 ++ puts ev ++ gots ev ∧ Registered q (delete t (c_threads cfg)) ∧
    cfg' = after_section cfg t c moved0 p' ev (Done r) ∧
    _read_is_open q = _read_is_open p ∧ _write_is_open q = _write_is_open p.
Proof.
  intros [HR Hf Hths Hsz Hreg] Hp Hs. inversion Hs as
    [t' w' user c' o' p1 p' ev st Hp1 Hpr Ht0 Hnone Hlt Hc Ho Hrun El Ecfg
    |t' th o' p1 p' ev st Hp1 Hth Haw Ho Hrun El Ecfg| | | |]; subst.
  - destruct st as [|r']; [done|]. injection El as <- <- <- <- <- <-. simplify_eq.
    destruct (start_section_ok w' user c' o' p) as (p2 & ev2 & st2 & E & HS); [done..|]. same_result.
    eexists _, _, _, []. split_and!; [done|done|by rewrite delete_id|done..].
  - destruct st as [|r']; [done|]. injection El as <- <- <- <- <- <-. simplify_eq.
    destruct (Hths t' th Hth) as [Hpr Ht0 Hc Hpt Hm _].
    destruct (resume_section_ok (t_at th) (t_call th) o' p) as (p2 & ev2 & st2 & E & HS); [done..|].
    same_result. eexists _, _, _, _. split_and!; [by rewrite Hm|done|by apply entry_registered|done|..];
      unfold entry; (destruct (waits_on (t_at th)) as [b|]; [|done]);
      unfold forget_waiter_locked; by destruct b, (forget_one _ _ _).
Qed.

End PipeSystem.
