(* ===== verification/PipeCorrect.v ===== *)
(** * Correctness of pipes

    The system of processes on a pipe is a first-in first-out stream; calls
    return what they moved; a full write, a read and a close wake everyone they
    should; the chunked copies agree with byte-by-byte ones; polling agrees
    with the non-blocking calls. *)
From S2P Require Import Prelude Pipe PipeRing PipeCalls PipeSystem.
Import Pipe PipeRing PipeCalls PipeSystem.

Module PipeCorrect.

(** ** Runs without interruption *)

(** What a writer in a single section meets: the read end open, its process
    alive and not signalled. *)
Definition undisturbed (o : Obs) : Prop :=
  is_killed o = false ∧ has_unmasked_signal_pending o = false.

Definition source (c : Call) (o : Obs) (i k : Z) : list Z := kmem o <$> seqZ (addr c + i) k.

Lemma source_app c o i j k :
  0 ≤ j → 0 ≤ k → source c o i j ++ source c o (i + j) k = source c o i (j + k).
Proof. intros. unfold source. rewrite seqZ_app, fmap_app, Z.add_assoc by lia. done. Qed.

Lemma length_source c o i k : 0 ≤ k → Z.of_nat (length (source c o i k)) = k.
Proof. intros. unfold source. rewrite length_fmap, length_seqZ. lia. Qed.

(** Where a write section stops that has room for [room] of its bytes. *)
Definition write_stop (c : Call) (i room : Z) : Status WritePoint :=
  if n c - i <=? room then Done (n c)
  else if nonblock c then Done (or_errno (i + room) SYS_EAGAIN) else Paused (WSlept (i + room)).

Record write_run (c : Call) (o : Obs) (i : Z) (p p' : Pipe) (ev : list Event)
    (st : Status WritePoint) : Prop := {
  wr_puts : puts ev = source c o i (Z.min (n c - i) (_pipe_size p - _count p));
  wr_contents : contents p' = contents p ++ puts ev;
  wr_status : st = write_stop c i (_pipe_size p - _count p)
}.

(** The end of such a section: all moved, or the ring full. *)
Lemma write_run_end c o p i k :
  Ring p → _read_is_open p = true → undisturbed o → 0 ≤ i ≤ n c →
  (i < n c → _count p < _pipe_size p →
     ∃ p' ev st, k = Ret (p', ev, st) ∧ write_run c o i p p' ev st) →
  ∃ p' ev st,
    (if negb (i <? n c) then write_return c p i else
     if negb (_read_is_open p) || is_killed o then write_refused c o p else
     if _pipe_size p <=? _count p then
       if nonblock c then Ret (p, [], Done (or_errno i SYS_EAGAIN)) else write_sleep c p (WSlept i)
     else k) = Ret (p', ev, st) ∧ write_run c o i p p' ev st.
Proof.
  intros HR Ho [Hk Hs] Hi Hgo. pose proof HR as [Hsz _ _ _ Hc _]. rewrite Ho, Hk. cbn [negb orb].
  destruct (Z.ltb_spec i (n c)); cbn [negb].
  - case_test; [|by apply Hgo]. assert (_pipe_size p - _count p = 0) as E0 by lia.
    assert (source c o i (Z.min (n c - i) 0) = []) as Es by (by rewrite Z.min_r by lia).
    destruct (nonblock c) eqn:Hn.
    + eexists _, _, _. split; [reflexivity|]. split; rewrite ?E0, ?Es, ?app_nil_r; try done.
      unfold write_stop. rewrite (proj2 (Z.leb_gt _ _)), Hn, Z.add_0_r by lia. done.
    + unfold write_sleep. destruct (wake_waiters_locked p true) as [w ev] eqn:E.
      destruct (wake_quiet p true) as [Hq _]. rewrite E in Hq. destruct (quiet_moves _ Hq) as [Ep _].
      cbn [snd] in Ep. eexists _, _, _. split; [reflexivity|].
      split; rewrite ?Ep, ?E0, ?Es, ?app_nil_r, ?note_contents; try done.
      unfold write_stop. rewrite (proj2 (Z.leb_gt _ _)), Hn, Z.add_0_r by lia. done.
  - assert (i = n c) as -> by lia.
    destruct (write_return_eq (L := WritePoint) c p (n c)) as (ev & -> & Ep & _).
    eexists _, _, _. split; [reflexivity|]. split; rewrite ?Ep, ?app_nil_r; try done.
    + rewrite Z.sub_diag, Z.min_l by lia. done.
    + unfold write_stop. by rewrite (proj2 (Z.leb_le _ _)) by lia.
Qed.

(** Bytes put before the rest of such a section. *)
Lemma write_run_after c o p p1 i j r :
  0 ≤ i → 0 ≤ j → i + j ≤ n c → Ring p → _count p1 = _count p + j → _pipe_size p1 = _pipe_size p →
  contents p1 = contents p ++ source c o i j → j ≤ _pipe_size p - _count p →
  (∃ p' ev st, r = Ret (p', ev, st) ∧ write_run c o (i + j) p1 p' ev st) →
  ∃ p' ev st, after [Put (source c o i j)] r = Ret (p', ev, st) ∧ write_run c o i p p' ev st.
Proof.
  intros Hi Hj Hij HR Ec Es HC Hroom (p' & ev & st & -> & []). eexists _, _, _.
  split; [reflexivity|]. cbn [app]. rewrite Ec, Es in *. split; cbn [puts].
  - rewrite wr_puts0, source_app by lia. f_equal. lia.
  - by rewrite wr_contents0, HC, app_assoc.
  - rewrite wr_status0. unfold write_stop.
    replace (n c - (i + j) <=? _pipe_size p - (_count p + j)) with (n c - i <=? _pipe_size p - _count p)
      by (apply Bool.eq_iff_eq_true; rewrite !Z.leb_le; lia).
    by replace (i + j + (_pipe_size p - (_count p + j))) with (i + (_pipe_size p - _count p)) by lia.
Qed.

Lemma write_in_kernel_run fuel c o p i :
  Ring p → CallOk c → _read_is_open p = true → undisturbed o → 0 ≤ i ≤ n c →
  0 ≤ addr c → addr c + n c ≤ 2 ^ 64 →
  (Z.to_nat (n c - i) + (if bool_decide (_tail p < _pipe_size p)%Z then 0 else 1) < fuel)%nat →
  ∃ p' ev st, write_in_kernel_loop fuel c o p i = Ret (p', ev, st) ∧ write_run c o i p p' ev st.
Proof.
  revert p i. induction fuel as [|fuel IH]; intros p i HR Hc Ho Hun Hi Ha Han Hf; [lia|].
  cbn [write_in_kernel_loop]. pose proof Hun as [_ ->].
  apply write_run_end; [done..|]. intros Hlt Hroom. pose proof HR as [Hsz _ _ Ht Hcnt _].
  unfold CallOk in Hc. rewrite (u32_small (n c - i)), (u64_small (addr c + i)) by lia.
  destruct (write_chunk_spec p (n c - i) HR) as ([H1 H2] & H3 & H4 & Hpos); [lia|].
  set (j := write_chunk p (n c - i)) in *. fold (source c o i j).
  pose proof (length_source c o i j ltac:(lia)) as Hl.
  rewrite store_chunk_stored by (done || lia). cbn [obind].
  destruct (advance_tail_stored p (source c o i j) HR) as [HR' HC]; [lia..|]. rewrite Hl in HR', HC.
  rewrite i32_small by lia. eapply write_run_after; [| | |done| | |exact HC|..]; try done; try lia.
  - cbn. by rewrite u32_small by lia.
  - apply IH; [done|done|done|done|lia|done|done|].
    rewrite bool_decide_eq_true_2 by (cbn; apply Z.mod_pos_bound; lia).
    case_bool_decide; [specialize (Hpos ltac:(lia) ltac:(lia) ltac:(lia))|]; lia.
Qed.

(** The byte-by-byte writer, on user memory that reads like [kmem]. *)
Lemma write_run_bytes fuel c o p i :
  Ring p → _tail p < _pipe_size p → CallOk c → _read_is_open p = true → undisturbed o →
  0 ≤ i ≤ n c → 0 ≤ addr c → addr c + n c ≤ 2 ^ 64 →
  (∀ a, copy_in o a 1 = ([kmem o a], true)) → (Z.to_nat (n c - i) < fuel)%nat →
  ∃ p' ev st, write_loop fuel c o p i = Ret (p', ev, st) ∧ write_run c o i p p' ev st.
Proof.
  revert p i. induction fuel as [|fuel IH]; intros p i HR Ht Hc Ho Hun Hi Ha Han Hcp Hf; [lia|].
  cbn [write_loop]. apply write_run_end; [done..|]. intros Hlt Hroom.
  rewrite Hcp, u64_small by lia.
  destruct (push_contents p (kmem o (addr c + i)) HR Ht Hroom) as (p' & -> & HR' & Ht' & HC & Hctl & Hsz).
  cbn [obind]. change [kmem o (addr c + i)] with (source c o i 1) in HC |- *.
  assert (_count p' = _count p + 1) as Ec.
  { destruct HR as [_ _ _ _ Hcnt _], HR' as [_ _ _ _ Hcnt' _].
    rewrite <- (length_contents p'), HC, length_app by lia. rewrite Nat2Z.inj_add, length_contents by lia.
    by rewrite length_source. }
  eapply write_run_after; [| | |done|exact Ec|exact Hsz|exact HC|..]; try lia.
  apply IH; try done; try lia. unfold control in Hctl. congruence.
Qed.

(** A read that finds data takes what it asked for, as far as there is data. *)
Fixpoint delivered (ev : list Event) : list (Z * Z) :=
  match ev with
  | [] => []
  | Got dest bs :: ev => zip (seqZ dest (Z.of_nat (length bs))) bs ++ delivered ev
  | _ :: ev => delivered ev
  end.

Lemma wake_delivered p b : delivered (wake_waiters_locked p b).2 = [].
Proof. unfold wake_waiters_locked. by repeat case_match. Qed.

Lemma read_run fuel c p i :
  Ring p → CallOk c → 0 ≤ i ≤ n c → 0 ≤ addr c → addr c + n c ≤ 2 ^ 64 →
  (Z.to_nat (n c - i) < fuel)%nat →
  let k := Z.min (n c - i) (_count p) in
  ∃ p' ev, read_loop fuel c p i = Ret (p', ev, Done (i + k)) ∧
    contents p' = drop (Z.to_nat k) (contents p) ∧
    delivered ev = zip (seqZ (addr c + i) k) (take (Z.to_nat k) (contents p)).
Proof.
  revert p i. induction fuel as [|fuel IH]; intros p i HR Hc Hi Ha Han Hf; [lia|].
  cbn [read_loop]. pose proof HR as [Hsz _ _ _ Hcnt _]. unfold CallOk in Hc.
  destruct ((i <? n c) && (0 <? _count p)) eqn:Hg.
  - bool_facts. rewrite (u32_small (n c - i)), (u64_small (addr c + i)) by lia.
    destruct (read_chunk_spec p (n c - i) HR) as ([H1 H2] & H3 & H4 & Hpos); [lia|].
    specialize (Hpos ltac:(lia) ltac:(lia)). set (j := read_chunk p (n c - i)) in *.
    rewrite load_head by done. cbn [obind].
    destruct (advance_head_ring p j HR) as (HR' & HC & _ & _); [lia..|]. rewrite i32_small by lia.
    assert (_count (advance_head p j) = _count p - j) as Ec by (cbn; by rewrite u32_small by lia).
    destruct (IH (advance_head p j) (i + j)) as (p' & ev & -> & HC' & Hd); [done|done|lia|done|done|lia|].
    rewrite Ec in *. set (k' := Z.min (n c - (i + j)) (_count p - j)) in *.
    assert (Z.min (n c - i) (_count p) = j + k') as -> by lia.
    rewrite (Z.add_assoc i). eexists _, _. split; [reflexivity|].
    assert (length (ring_at p <$> seqZ 0 j) = Z.to_nat j) as Hl by (by rewrite length_fmap, length_seqZ).
    cbn [app delivered]. rewrite HC, HC', Hd, Z2Nat.inj_add by lia. split.
    + rewrite drop_app_ge, Hl by lia. f_equal. lia.
    + rewrite take_app_ge, Hl, seqZ_app by lia. rewrite zip_with_app by (rewrite length_seqZ, Hl; lia).
      rewrite Z2Nat.id by lia. do 2 f_equal; [f_equal; lia|f_equal; lia].
  - assert (Z.min (n c - i) (_count p) = 0) as ->.
    { apply andb_false_iff in Hg as [?%Z.ltb_ge|?%Z.ltb_ge]; lia. }
    unfold read_return. destruct (wake_waiters_locked p false) as [w ev] eqn:E.
    pose proof (wake_delivered p false) as Hd. rewrite E in Hd. cbn [snd] in Hd.
    eexists _, _. split; [by rewrite Z.add_0_r|]. by rewrite Hd.
Qed.

(** ** Running scripts *)

Inductive Action :=
  | AStart (is_write user : bool) (c : Call) (o : Obs)
  | AResume (t : ptr) (o : Obs)
  | ASignal (t : ptr)
  | AClose (is_write : bool)
  | AResize (new_buffer : list Z).

Definition CallOk_check (c : Call) : bool := (- 2 ^ 31 <=? n c) && (n c <? 2 ^ 31).

(** The configuration after an action, [None] if it is not enabled. *)
Definition exec (cfg : Config) (a : Action) : option Config :=
  match c_pipe cfg, a with
  | Some p, AStart is_write user c o =>
      match c_threads cfg !! pr c, start_section is_write user c o p with
      | None, Ret (p', ev, st) =>
          if negb (pr c =? nullptr) && (Z.of_nat (size (c_threads cfg)) <? NPROC) && CallOk_check c
          then Some (after_section cfg (pr c) c [] p' ev st) else None
      | _, _ => None
      end
  | Some p, AResume t o =>
      match c_threads cfg !! t with
      | Some th =>
          if t_asleep th then None else
          match resume_section (t_at th) (t_call th) o p with
          | Ret (p', ev, st) => Some (after_section cfg t (t_call th) (t_moved th) p' ev st)
          | _ => None
          end
      | None => None
      end
  | Some p, ASignal t =>
      match c_threads cfg !! t with
      | Some th => Some (mkConfig (c_pipe cfg)
          (<[t := mkThread (t_call th) (t_at th) false (t_moved th)]> (c_threads cfg))
          (c_put cfg) (c_got cfg))
      | None => None
      end
  | Some p, AClose is_write =>
      let (q, ev) := close p is_write in
      Some (mkConfig q (apply_wakes ev (c_threads cfg)) (c_put cfg) (c_got cfg))
  | Some p, AResize new_buffer =>
      match set_pipe_size p (Z.of_nat (length new_buffer)) (Some new_buffer) with
      | Ret (p', _) => Some (mkConfig (Some p') (c_threads cfg) (c_put cfg) (c_got cfg))
      | _ => None
      end
  | None, _ => None
  end.

Fixpoint exec_all (cfg : Config) (l : list Action) : option Config :=
  match l with
  | [] => Some cfg
  | a :: l => match exec cfg a with Some cfg => exec_all cfg l | None => None end
  end.

Definition action_obs (a : Action) : Prop :=
  match a with AStart _ _ _ o | AResume _ o => ObsOk o | _ => True end.

Lemma exec_step cfg a cfg' :
  exec cfg a = Some cfg' → action_obs a → ∃ lbl, step cfg lbl cfg'.
Proof.
  unfold exec. destruct (c_pipe cfg) as [p|] eqn:Ep; [|done]. destruct a; intros E Ho.
  - destruct (c_threads cfg !! pr c) eqn:Et; [done|].
    destruct (start_section is_write user c o p) as [[[p' ev] st]| | |] eqn:Es; try done.
    destruct (negb _ && _ && _) eqn:Hg; [|done]. unfold CallOk_check in Hg. bool_facts.
    injection E as <-. eexists. by eapply step_start.
  - destruct (c_threads cfg !! t) as [th|] eqn:Et; [|done].
    destruct (t_asleep th) eqn:Ha; [done|].
    destruct (resume_section (t_at th) (t_call th) o p) as [[[p' ev] st]| | |] eqn:Es; try done.
    injection E as <-. eexists. by eapply step_resume.
  - destruct (c_threads cfg !! t) as [th|] eqn:Et; [|done]. injection E as <-.
    eexists. rewrite <- Ep. by apply step_signal.
  - destruct (close p is_write) as [q ev] eqn:Ec. injection E as <-. eexists. by eapply step_close.
  - destruct (set_pipe_size p _ _) as [[p' r]| | |] eqn:Er; try done. injection E as <-. eexists.
    eapply step_resize; [exact Ep| |exact Er]. by intros ? [= <-].
Qed.

Lemma exec_all_reachable cfg l cfg' :
  reachable cfg → Forall action_obs l → exec_all cfg l = Some cfg' → reachable cfg'.
Proof.
  revert cfg. induction l as [|a l IH]; intros cfg Hr Hl E; cbn in E; [by injection E as <-|].
  apply Forall_cons_iff in Hl as [Ha Hl]. destruct (exec cfg a) as [cfg1|] eqn:E1; [|done].
  destruct (exec_step _ _ _ E1 Ha) as [lbl Hs]. eapply IH; [by eapply reachable_step|done|done].
Qed.

(** ** Properties *)

(** C9. In every state the system of readers, writers, closers and resizers of a
    pipe can reach, in any interleaving of their sections, the bytes that went
    in are the bytes that came out followed by the bytes in the ring, in order;
    the ring is well-formed and holds [_count] bytes, at most its size. *)
Theorem pipe_fifo cfg p :
  reachable cfg → c_pipe cfg = Some p →
  c_put cfg = c_got cfg ++ contents p ∧ Ring p ∧
  Z.of_nat (length (contents p)) = _count p ∧ _count p ≤ _pipe_size p.
Proof.
  intros Hr Hp. destruct (reachable_inv cfg p Hr Hp) as [HR Hf _ _ _]. pose proof HR as [_ _ _ _ Hc _].
  split_and!; [done|done|by apply length_contents; lia|lia].
Qed.

(** C29. No section of a read or write call ever faults or loops: in every
    reachable state a new call, and every call in progress, runs its next
    section to its end. *)
Theorem pipe_sections_return cfg p o :
  reachable cfg → c_pipe cfg = Some p → ObsOk o →
  (∀ is_write user c, CallOk c → ∃ r, start_section is_write user c o p = Ret r) ∧
  (∀ t th, c_threads cfg !! t = Some th → ∃ r, resume_section (t_at th) (t_call th) o p = Ret r).
Proof.
  intros Hr Hp Ho. destruct (reachable_inv cfg p Hr Hp) as [HR _ Hths _ _]. split.
  - intros is_write user c Hc.
    destruct (start_section_ok is_write user c o p HR Hc Ho) as (p' & ev & st & -> & _). by eexists.
  - intros t th Hth. destruct (Hths t th Hth) as [_ _ Hc Hpt _ _].
    destruct (resume_section_ok (t_at th) (t_call th) o p HR Hc Ho Hpt) as (p' & ev & st & -> & _).
    by eexists.
Qed.

(** What a call returns is what it did.  A write returns the number of bytes
    it put into the pipe, or -1 if its process was killed, or EPIPE if the read
    end is closed, or EINTR, EAGAIN (non-blocking) or EFAULT having put none.  A
    read returns the number of bytes it took; it returns 0 for a positive count
    only at the end of the stream, with the ring empty and the write end closed;
    a read that fails has taken nothing. *)
Theorem pipe_returns cfg p t w c o r moved cfg' :
  reachable cfg → c_pipe cfg = Some p → step cfg (Returned t w c o r moved) cfg' →
  if w then
    (r = Z.of_nat (length moved) ∧ r ≤ Z.max 0 (n c)) ∨ r = -1 ∨
    (r = SYS_EPIPE ∧ _read_is_open p = false) ∨
    (moved = [] ∧ (r = SYS_EINTR ∨ r = SYS_EAGAIN ∧ nonblock c = true ∨ r = SYS_EFAULT))
  else
    (r = Z.of_nat (length moved) ∧ r ≤ Z.max 0 (n c) ∧
     (0 < n c → r = 0 → _write_is_open p = false ∧ c_put cfg' = c_got cfg')) ∨
    (moved = [] ∧ (r = -1 ∨ r = SYS_EINTR ∨ r = SYS_EAGAIN ∧ nonblock c = true ∨ r = SYS_EFAULT)).
Proof.
  intros Hr Hp Hs. pose proof (reachable_inv cfg p Hr Hp) as HI.
  destruct (returned_section cfg t w c o r moved cfg' p HI Hp Hs)
    as (q & p' & ev & moved0 & [] & -> & Hreg & Ecfg & Hq).
  assert (Inv p' cfg') as [_ Hf _ _ _]
    by (eapply (reachable_inv cfg'); [by eapply reachable_step|by subst]).
  unfold result_ok in so_status0. rewrite (length_app moved0), Nat2Z.inj_add.
  destruct Hq as [Eo1 Eo2]. destruct w.
  - destruct so_status0 as [Hok|[?|[[? ?]|[Hz ?]]]]; [left; lia|right; by left|do 2 right; left; split; congruence|].
    do 3 right. split; [|done]. apply length_zero_iff_nil. rewrite length_app. lia.
  - destruct so_status0 as [(E & Hle & He)|[Hz ?]].
    + left. split_and!; [lia|lia|]. intros Hn E0. destruct (He Hn E0) as [HC Hw].
      split; [congruence|]. by rewrite Hf, HC, app_nil_r.
    + right. split; [|done]. apply length_zero_iff_nil. rewrite length_app. lia.
Qed.

(** C25. Wakeups.  When a write that moved all its bytes returns no reader is left
    asleep; when a read whose destination is writable returns a count no writer
    is; when an end is closed nobody waiting for that end's data is. *)
Theorem pipe_wakeups cfg p lbl cfg' :
  reachable cfg → c_pipe cfg = Some p → step cfg lbl cfg' →
  match lbl with
  | Returned t true c o r moved => Z.max 0 (n c) ≤ r → no_sleeper true (c_threads cfg')
  | Returned t false c o r moved =>
      0 ≤ r → writable_range o → no_sleeper false (c_threads cfg')
  | Closed is_write => no_sleeper is_write (c_threads cfg')
  | Silent => True
  end.
Proof.
  intros Hr Hp Hs. pose proof (reachable_inv cfg p Hr Hp) as HI.
  destruct lbl as [|t w c o r moved|is_write]; [done|..].
  - destruct (returned_section cfg t w c o r moved cfg' p HI Hp Hs)
      as (q & p' & ev & moved0 & [] & _ & Hreg & -> & _).
    destruct w; intros; (eapply wakes_no_sleeper; [exact Hreg|]); by apply so_wakes0.
  - inversion Hs as [? ? ? ? ? ? ? ? st ? ? ? ? ? ? ? ? El|? ? ? ? ? ? st ? ? ? ? ? El|
      |p1 q ev w Hp1 Hc El Ecfg| |]; subst; try by destruct st. simplify_eq.
    eapply (wakes_no_sleeper p is_write); [apply HI|]. by eapply close_wakes.
Qed.

(** A byte goes through the pipe unchanged: writing [n] bytes that fit into an
    open pipe returns [n] and appends exactly the [n] bytes at the source, and
    reading [n] bytes from the result of writing into an empty pipe returns [n],
    empties the pipe and stores byte by byte at the destination what the source
    held. *)
Theorem write_read_roundtrip c c' o o' p :
  Ring p → CallOk c → 0 < n c → n c ≤ _pipe_size p - _count p → _read_is_open p = true →
  undisturbed o → 0 ≤ addr c → addr c + n c ≤ 2 ^ 64 →
  n c' = n c → 0 ≤ addr c' → addr c' + n c' ≤ 2 ^ 64 →
  ∃ p1 ev, write_in_kernel c o p None = Ret (p1, ev, Done (n c)) ∧
    contents p1 = contents p ++ (kmem o <$> seqZ (addr c) (n c)) ∧
    (contents p = [] →
     ∃ p2 ev', read c' o' p1 None = Ret (p2, ev', Done (n c)) ∧ contents p2 = [] ∧
       delivered ev' = zip (seqZ (addr c') (n c)) (kmem o <$> seqZ (addr c) (n c))).
Proof.
  intros HR Hc Hn Hroom Ho Hun Ha Han En Ha' Han'.
  destruct (write_in_kernel_spec c o p None HR Hc I) as (p1 & ev & st & E & HS); [done|].
  destruct (write_in_kernel_run (write_fuel c 0) c o p 0) as (p1' & ev' & st' & E' & []);
    [done..|lia|done|done|unfold write_fuel; case_bool_decide; lia|].
  cbn [write_in_kernel] in E. rewrite E in E'. injection E' as <- <- <-.
  unfold write_stop in wr_status0. rewrite (proj2 (Z.leb_le _ _)) in wr_status0 by lia. subst st.
  rewrite Z.sub_0_r, Z.min_l in wr_puts0 by lia. unfold source in wr_puts0. rewrite Z.add_0_r in wr_puts0.
  exists p1, ev. split_and!; [exact E|by rewrite wr_contents0, wr_puts0|]. intros HC0.
  destruct HS as [HR1 _ _ _ _ _ _]. rewrite HC0, wr_puts0 in wr_contents0. cbn in wr_contents0.
  assert (_count p1 = n c) as Ec.
  { destruct HR1 as [_ _ _ _ Hc1 _]. rewrite <- length_contents, wr_contents0 by lia.
    rewrite length_fmap, length_seqZ. lia. }
  unfold CallOk in Hc. unfold read, read_head. rewrite Ec, (proj2 (Z.eqb_neq _ _)) by lia. cbn [andb].
  destruct (read_run (S (S (Z.to_nat (n c')))) c' p1 0) as (p2 & ev2 & -> & HC2 & Hd);
    [done|unfold CallOk; lia|lia|done|done|lia|].
  rewrite Z.sub_0_r, Ec, En, Z.min_id, Z.add_0_r in *. rewrite wr_contents0 in HC2, Hd.
  assert (length (kmem o <$> seqZ (addr c) (n c)) = Z.to_nat (n c)) as Hl
    by (by rewrite length_fmap, length_seqZ).
  exists p2, ev2. split_and!; [done| |].
  - rewrite HC2. apply drop_ge. lia.
  - rewrite Hd, take_ge by lia. done.
Qed.

(** Polling tells the truth: for an undisturbed process a non-blocking read
    would fail with EAGAIN exactly if the pipe is not ready for reading, and a
    non-blocking write of at least one byte exactly if it is not ready for
    writing. *)
Theorem poll_correct c o p :
  Ring p → CallOk c → undisturbed o → nonblock c = true → 0 < n c →
  0 ≤ addr c → addr c + n c ≤ 2 ^ 64 →
  ((∃ p' ev, read c o p None = Ret (p', ev, Done SYS_EAGAIN)) ↔ can_read_without_blocking p = false) ∧
  ((∃ p' ev, write_in_kernel c o p None = Ret (p', ev, Done SYS_EAGAIN)) ↔
   can_write_without_blocking p = false).
Proof.
  intros HR Hc Hun Hnb Hn Ha Han. pose proof HR as [Hsz _ _ _ Hcnt _]. split.
  - unfold read, read_head, can_read_without_blocking. destruct Hun as [-> _]. rewrite Hnb.
    destruct (Z.eqb_spec (_count p) 0) as [->|]; [destruct (_write_is_open p)|]; cbn [andb negb orb].
    + split; [done|by eexists _, _].
    + split; [|done]. intros (p' & ev & E).
      destruct (read_run (S (S (Z.to_nat (n c)))) c p 0) as (? & ? & E' & _); [done|done|lia|done|done|lia|].
      rewrite E in E'. injection E' as _ _ E'. unfold SYS_EAGAIN in E'. lia.
    + rewrite (proj2 (Z.ltb_lt _ _)) by lia. split; [|done]. intros (p' & ev & E).
      destruct (read_run (S (S (Z.to_nat (n c)))) c p 0) as (? & ? & E' & _); [done|done|lia|done|done|lia|].
      rewrite E in E'. injection E' as _ _ E'. unfold SYS_EAGAIN in E'. lia.
  - unfold can_write_without_blocking. destruct (_read_is_open p) eqn:Ho; cbn [negb orb].
    + destruct (write_in_kernel_run (write_fuel c 0) c o p 0) as (p' & ev & st & E & []);
        [done..|lia|done|done|unfold write_fuel; case_bool_decide; lia|].
      cbn [write_in_kernel]. rewrite E, wr_status0. unfold write_stop, or_errno. rewrite Hnb, Z.ltb_ge.
      rewrite Z.sub_0_r, Z.add_0_l. unfold SYS_EAGAIN. repeat case_test.
      * split; [|lia]. intros (? & ? & [= _ _ ?]). lia.
      * split; [|lia]. intros (? & ? & [= _ _ ?]). lia.
      * split; [lia|by eexists _, _].
    + split; [|done]. cbn [write_in_kernel write_in_kernel_loop write_fuel]. unfold write_fuel.
      cbn [write_in_kernel_loop]. rewrite (proj2 (Z.ltb_lt _ _)), Ho by lia. cbn [negb orb].
      unfold write_refused. rewrite Ho. destruct Hun as [-> _]. by intros (? & ? & [= _ _ ?]).
Qed.

(** The chunked kernel write is the byte-by-byte write: on a pipe whose
    write position is inside the storage, and for user memory that reads like
    the kernel's, both stop at the same point with the same contents. *)
Theorem write_chunks_equivalent c o p :
  Ring p → _tail p < _pipe_size p → CallOk c → _read_is_open p = true → undisturbed o →
  0 ≤ n c → 0 ≤ addr c → addr c + n c ≤ 2 ^ 64 →
  (∀ a, copy_in o a 1 = ([kmem o a], true)) →
  ∃ p1 ev1 p2 ev2 st, write c o p None = Ret (p1, ev1, st) ∧
    write_in_kernel c o p None = Ret (p2, ev2, st) ∧
    puts ev1 = puts ev2 ∧ contents p1 = contents p2.
Proof.
  intros HR Ht Hc Ho Hun Hn Ha Han Hcp.
  destruct (write_run_bytes (write_fuel c 0) c o p 0) as (p1 & ev1 & st1 & E1 & []);
    [done..|lia|done|done|done|unfold write_fuel; lia|].
  destruct (write_in_kernel_run (write_fuel c 0) c o p 0) as (p2 & ev2 & st2 & E2 & []);
    [done..|lia|done|done|unfold write_fuel; case_bool_decide; lia|].
  exists p1, ev1, p2, ev2, st1. cbn [write write_in_kernel]. rewrite E1, E2.
  split_and!; congruence.
Qed.

(** [set_pipe_size] keeps the bytes in the pipe, in order.  It refuses sizes
    outside the limits or below the number of bytes held, and failed
    allocations, changing nothing; otherwise the pipe has the new size. *)
Theorem set_pipe_size_correct p new_size nb :
  Ring p → (∀ b, nb = Some b → Z.of_nat (length b) = new_size) →
  ∃ p' r, set_pipe_size p new_size nb = Ret (p', r) ∧ Ring p' ∧ contents p' = contents p ∧
    control p' = control p ∧
    if (min_pipe_size <=? new_size) && (new_size <=? max_pipe_size) && (_count p <=? new_size) &&
       bool_decide (is_Some nb)
    then r = new_size ∧ _pipe_size p' = new_size else r = -1 ∧ p' = p.
Proof.
  intros HR Hnb. destruct (set_pipe_size_spec p new_size nb HR Hnb)
    as (p' & r & E & HR' & HC & Hctl & Ec & Hcase). exists p', r. split_and!; [done..|].
  pose proof HR' as [_ _ _ _ Hcnt _].
  destruct Hcase as [(-> & Es & H1 & H2)|(-> & -> & Hbad)].
  - rewrite !(proj2 (Z.leb_le _ _)) by lia. cbn [andb]. case_bool_decide as Hs; [done|].
    destruct nb; [by destruct Hs|]. unfold set_pipe_size in E.
    destruct (_ || _); [|destruct (_ <? _)]; injection E as <- E; unfold min_pipe_size in *; lia.
  - destruct (_ && _ && _ && _) eqn:Hg; [|done]. bool_facts. destruct Hbad as [?|[?|[?| ->]]]; try lia.
    match goal with H : is_Some None |- _ => by destruct H end.
Qed.

(** ** Concrete runs *)

(** An unprivileged pipe, processes 1 and 2, memory that holds its addresses. *)
Definition pipe0 : Pipe := alloc (Pipe_new (replicate 4096 0)) (Some 1000) None.

Definition calm : Obs := {|
  is_killed := false; has_unmasked_signal_pending := false; kmem := λ a, a mod 256;
  ensure_user_read_range _ _ := true; ensure_user_write_range _ _ := true;
  copy_in a k := ((λ a, a mod 256) <$> seqZ a k, true); copy_out _ _ := true |}.

Definition reader : Call := mkCall 1 0x1000 16 false.
Definition writer (size : Z) (nonblock : bool) : Call := mkCall 2 0x2000 size nonblock.

Lemma pipe0_reachable : reachable (initial pipe0).
Proof.
  apply reachable_initial. exists (replicate 4096 0), (Some 1000), None. by split_and!.
Qed.

Lemma calm_ok : ObsOk calm.
Proof. intros a k Hk. cbn. rewrite length_fmap, length_seqZ. lia. Qed.

(** The pipe is made small and the reader sleeps on it. *)
Definition waiting : Config :=
  default (initial pipe0) (exec_all (initial pipe0) [AResize (replicate 256 0); AStart false true reader calm]).

Lemma waiting_reachable : reachable waiting.
Proof.
  apply (exec_all_reachable (initial pipe0) [AResize (replicate 256 0); AStart false true reader calm]);
    [apply pipe0_reachable|repeat (apply Forall_cons; split); done || apply calm_ok|by vm_compute].
Qed.

(** A writer, then the woken reader up to its first copy. *)
Definition served : Config :=
  default waiting (exec_all waiting [AStart true false (writer 3 false) calm; AResume 1 calm]).

Lemma served_reachable : reachable served.
Proof.
  apply (exec_all_reachable waiting [AStart true false (writer 3 false) calm; AResume 1 calm]);
    [apply waiting_reachable|repeat (apply Forall_cons; split); done || apply calm_ok|by vm_compute].
Qed.

Definition served_pipe : Pipe := default pipe0 (c_pipe served).

Lemma served_pipe_Ring : Ring served_pipe.
Proof. apply (reachable_inv served served_pipe served_reachable). by vm_compute. Qed.

(** A non-blocking write of more than the pipe holds, while the reader sleeps. *)
Definition waiting_pipe : Pipe := default pipe0 (c_pipe waiting).

Definition filled : Pipe * list Event :=
  match start_section true false (writer 300 true) calm waiting_pipe with
  | Ret (p, ev, _) => (p, ev)
  | _ => (pipe0, [])
  end.

Lemma filled_eq :
  start_section true false (writer 300 true) calm waiting_pipe = Ret (filled.1, filled.2, Done 256).
Proof. by vm_compute. Qed.

Definition stalled : Config :=
  after_section waiting 2 (writer 300 true) [] filled.1 filled.2 (Done 256).

Lemma stalled_step :
  step waiting (Returned 2 true (writer 300 true) calm 256 (puts filled.2 ++ gots filled.2)) stalled.
Proof.
  apply (step_start waiting 2 true false (writer 300 true) calm waiting_pipe filled.1 filled.2 (Done 256));
    [by vm_compute|done|done|by vm_compute|by vm_compute|by vm_compute|apply calm_ok|apply filled_eq].
Qed.

(** A non-blocking write that fills the pipe returns without waking the
    reader that sleeps for data: the reader is asleep, the pipe holds data, and
    no other process is on it. *)
Theorem partial_write_leaves_reader_asleep :
  ∃ cfg cfg' p th c o r moved, reachable cfg ∧ step cfg (Returned 2 true c o r moved) cfg' ∧ 0 < r ∧
    c_threads cfg' = {[ 1 := th ]} ∧ waits_on (t_at th) = Some true ∧ t_asleep th = true ∧
    c_pipe cfg' = Some p ∧ 0 < _count p.
Proof.
  eexists waiting, stalled, filled.1, (mkThread reader (Reading true RSlept) true []),
    (writer 300 true), calm, 256, _.
  split; [apply waiting_reachable|]. split; [apply stalled_step|]. split_and!; by vm_compute.
Qed.

Lemma waiting_pipe_Ring : Ring waiting_pipe.
Proof. apply (reachable_inv waiting waiting_pipe waiting_reachable). by vm_compute. Qed.

(** *** Witnesses *)

Lemma pipe_fifo_witness :
  c_put served = [0; 1; 2] ∧ c_put served = c_got served ++ contents served_pipe ∧
  Z.of_nat (length (contents served_pipe)) = 3.
Proof.
  destruct (pipe_fifo served served_pipe served_reachable ltac:(by vm_compute)) as (H1 & _ & H2 & _).
  split; [by vm_compute|]. split; [exact H1|]. rewrite H2. by vm_compute.
Defined.

Lemma pipe_sections_return_witness :
  ∃ r, start_section true true (writer 5 false) calm served_pipe = Ret r.
Proof.
  destruct (pipe_sections_return served served_pipe calm served_reachable ltac:(by vm_compute) calm_ok)
    as [H _].
  apply (H true true (writer 5 false)). by vm_compute.
Defined.

Lemma pipe_returns_witness :
  256 = Z.of_nat (length (puts filled.2 ++ gots filled.2)).
Proof.
  destruct (pipe_returns waiting waiting_pipe 2 true (writer 300 true) calm 256 _ stalled
    waiting_reachable ltac:(by vm_compute) stalled_step) as [[H _]|[H|[[H _]|[_ [H|[[H _]|H]]]]]];
    [exact H|discriminate H..].
Defined.

Lemma pipe_wakeups_witness :
  ∃ cfg', step waiting (Closed true) cfg' ∧ no_sleeper true (c_threads cfg').
Proof.
  destruct (close waiting_pipe true) as [q ev] eqn:E.
  pose proof (step_close waiting waiting_pipe q ev true ltac:(by vm_compute) E) as Hs.
  eexists. split; [exact Hs|].
  exact (pipe_wakeups waiting waiting_pipe (Closed true) _ waiting_reachable ltac:(by vm_compute) Hs).
Defined.

Lemma write_read_roundtrip_witness :
  ∃ p1 ev, write_in_kernel (writer 3 false) calm waiting_pipe None = Ret (p1, ev, Done 3) ∧
    ∃ p2 ev', read (mkCall 1 0x1000 3 false) calm p1 None = Ret (p2, ev', Done 3) ∧ contents p2 = [] ∧
      delivered ev' = [(0x1000, 0); (0x1001, 1); (0x1002, 2)].
Proof.
  destruct (write_read_roundtrip (writer 3 false) (mkCall 1 0x1000 3 false) calm calm waiting_pipe
    waiting_pipe_Ring) as (p1 & ev & E & _ & H); [by vm_compute..|].
  exists p1, ev. split; [exact E|]. apply H. by vm_compute.
Defined.

Lemma poll_correct_witness :
  (∃ p' ev, read (writer 3 true) calm waiting_pipe None = Ret (p', ev, Done SYS_EAGAIN)) ∧
  ¬ ∃ p' ev, write_in_kernel (writer 3 true) calm waiting_pipe None = Ret (p', ev, Done SYS_EAGAIN).
Proof.
  destruct (poll_correct (writer 3 true) calm waiting_pipe waiting_pipe_Ring) as [H1 H2];
    [by vm_compute..|].
  split; [apply H1; by vm_compute|]. rewrite H2. by vm_compute.
Defined.

Lemma write_chunks_equivalent_witness :
  ∃ p1 ev1 p2 ev2 st, write (writer 300 true) calm waiting_pipe None = Ret (p1, ev1, st) ∧
    write_in_kernel (writer 300 true) calm waiting_pipe None = Ret (p2, ev2, st) ∧
    puts ev1 = puts ev2 ∧ contents p1 = contents p2.
Proof.
  apply (write_chunks_equivalent (writer 300 true) calm waiting_pipe waiting_pipe_Ring);
    by vm_compute.
Defined.

Lemma set_pipe_size_correct_witness :
  ∃ p', set_pipe_size served_pipe 512 (Some (replicate 512 0)) = Ret (p', 512) ∧
    contents p' = contents served_pipe.
Proof.
  destruct (set_pipe_size_correct served_pipe 512 (Some (replicate 512 0)) served_pipe_Ring)
    as (p' & r & E & _ & HC & _ & Hr); [by intros ? [= <-]|].
  exists p'. split; [|exact HC]. rewrite E. f_equal. f_equal. revert Hr. clear. vm_compute. by intros [-> _].
Defined.

(** The write position [set_pipe_size] leaves when the new size is the number of
    bytes held is one past the storage, and [push] then writes there. *)
Definition resized : outcome Pipe :=
  let! (p, _) := set_pipe_size filled.1 256 (Some (replicate 256 0)) in
  let! (p, _) := pop p in push p 7.

Example push_after_resize_faults : resized = Fault.
Proof. by vm_compute. Qed.

End PipeCorrect.
