(* ===== verification/IoSched.v ===== *)
(** * Block requests and the scheduler interface

    [IoRequest] (kernel/fs/drivers/virtio_io_request.hh) with the store its
    pointers point into, and what the virtio queue expects of its scheduler. *)
From S2P Require Import Prelude.

Module IoSched.

Inductive IoCompletionType := BufferCache | CallerWait.

#[export] Instance IoCompletionType_eq_dec : EqDecision IoCompletionType.
Proof. solve_decision. Defined.

Record IoRequest := mkIoRequest {
  data : ptr;
  data_len : Z;
  start_sector : Z;
  write : bool;
  request_bytes : Z;
  submit_pid : Z;
  submit_nice : Z;
  wait_channel : ptr;
  completion_type : IoCompletionType;
  owner_buf : ptr;
  completed : bool;
  io_status : Z;
  service_class : Z;
  enqueue_us : Z;
  r_tag_us : Z;
  w_tag_us : Z;
  l_tag_us : Z;
  flow_next : ptr
}.

Definition IoRequest_zero : IoRequest :=
  mkIoRequest nullptr 0 0 false 0 0 0 nullptr BufferCache nullptr false 0 0 0 0 0 0 nullptr.

#[export] Instance IoRequest_inhabited : Inhabited IoRequest := populate IoRequest_zero.

(** The requests, by address. *)
Abbreviation requests := (gmap ptr IoRequest).

Definition with_flow_next (r : IoRequest) (p : ptr) : IoRequest :=
  mkIoRequest (data r) (data_len r) (start_sector r) (write r) (request_bytes r) (submit_pid r)
    (submit_nice r) (wait_channel r) (completion_type r) (owner_buf r) (completed r) (io_status r)
    (service_class r) (enqueue_us r) (r_tag_us r) (w_tag_us r) (l_tag_us r) p.

Definition with_schedule (r : IoRequest) (class_ enq rt wt lt : Z) : IoRequest :=
  mkIoRequest (data r) (data_len r) (start_sector r) (write r) (request_bytes r) (submit_pid r)
    (submit_nice r) (wait_channel r) (completion_type r) (owner_buf r) (completed r) (io_status r)
    class_ enq rt wt lt nullptr.

Definition with_completion (r : IoRequest) (status : Z) : IoRequest :=
  mkIoRequest (data r) (data_len r) (start_sector r) (write r) (request_bytes r) (submit_pid r)
    (submit_nice r) (wait_channel r) (completion_type r) (owner_buf r) true status
    (service_class r) (enqueue_us r) (r_tag_us r) (w_tag_us r) (l_tag_us r) (flow_next r).

(** The fields a scheduler does not touch. *)
Definition transfer (r : IoRequest) :=
  (data r, data_len r, start_sector r, write r, request_bytes r,
   (submit_pid r, submit_nice r, wait_channel r, completion_type r, owner_buf r, completed r, io_status r)).

Record DispatchDecision := mkDecision { request : ptr; next_gate_us : Z }.

(** What the queue relies on of its scheduler: [pending t rq l] says that the
    scheduler holds exactly the requests of [l]. *)
Class IoScheduler (T : Type) := {
  sched_reset : T → T;
  sched_enqueue : T → requests → ptr → Z → Z → outcome (T * requests);
  sched_dequeue : T → requests → Z → outcome (T * requests * DispatchDecision);
  sched_default_ewma : Z;
  sched_capacity : nat
}.

(** The request is the one submitted, apart from what schedulers keep in it. *)
Definition same_transfers (rq rq' : requests) : Prop :=
  dom rq' = dom rq ∧ ∀ r, transfer (rq' !!! r) = transfer (rq !!! r).

Class IoSchedulerLaws (T : Type) `{IoScheduler T} := {
  pending : T → requests → list ptr → Prop;
  pending_reset t rq : pending (sched_reset t) rq [];
  pending_perm t rq l l' : l ≡ₚ l' → pending t rq l → pending t rq l';
  pending_nodup t rq l : pending t rq l → NoDup l ∧ nullptr ∉ l ∧ ∀ r, r ∈ l → is_Some (rq !! r);
  pending_frame t rq rq' l : (∀ r, r ∈ l → rq' !! r = rq !! r) → pending t rq l → pending t rq' l;
  enqueue_law t rq l r now_us ewma :
    pending t rq l → is_Some (rq !! r) → r ∉ l → r ≠ nullptr → (length l < sched_capacity)%nat →
    ∃ t' rq', sched_enqueue t rq r now_us ewma = Ret (t', rq') ∧ pending t' rq' (r :: l) ∧
      same_transfers rq rq' ∧ (∀ k, k ∉ r :: l → rq' !! k = rq !! k) ∧
      l_tag_us (rq' !!! r) = now_us ∧ ∀ k, k ≠ r → l_tag_us (rq' !!! k) = l_tag_us (rq !!! k);
  dequeue_law t rq l now_us :
    pending t rq l → 0 ≤ now_us →
    ∃ t' rq' d, sched_dequeue t rq now_us = Ret (t', rq', d) ∧ same_transfers rq rq' ∧
      (∀ k, l_tag_us (rq' !!! k) = l_tag_us (rq !!! k)) ∧
      (∀ k, k ∉ l → rq' !! k = rq !! k) ∧
      if request d =? nullptr
      then pending t' rq' l ∧ (l = [] ∨ ∃ r, r ∈ l ∧ now_us < l_tag_us (rq !!! r))
      else ∃ l', l ≡ₚ request d :: l' ∧ pending t' rq' l'
}.

End IoSched.
