(* ===== verification/MClock.v ===== *)
(** * The mClock scheduler (kernel/fs/drivers/virtio_mclock_scheduler.{hh,cc})

    Requests wait in per-process flows; the flows of a service class form a
    doubly linked list in the pool [flow_pool_], the requests of a flow a singly
    linked list through [flow_next].  A [FlowState *] is the index of the flow in
    the pool, [None] for null. *)
From S2P Require Import Prelude IoSched.
Import IoSched.

Module MClock.

(** ** Constants and data *)

Definition k_class_count : nat := 8.
Definition num_process : nat := 512.
Definition k_max_flows : nat := num_process * 2.
Definition k_unlimited_bps : Z := 0.
Definition k_usec_per_sec : Z := 1000000.
Definition k_default_ewma_bps_value : Z := 64 * 1024 * 1024.
Definition k_class_weight : list Z := [256; 192; 128; 96; 64; 32; 16; 8].
Definition k_class_reservation_bps : list Z :=
  [24 * 1024 * 1024; 16 * 1024 * 1024; 8 * 1024 * 1024; 4 * 1024 * 1024; 2 * 1024 * 1024;
   1024 * 1024; 512 * 1024; 256 * 1024].
Definition k_class_limit_bps : list Z := replicate 8 k_unlimited_bps.
Definition k_total_weight : Z := 792.
Definition default_proc_prio : Z := 0.
Definition lowest_proc_prio : Z := 19.
Definition highest_proc_prio : Z := -20.

Record ClassState := mkClass {
  flow_head : option nat;
  flow_tail : option nat;
  rr_hint : option nat;
  last_r_tag_us : Z;
  last_w_tag_us : Z;
  last_l_tag_us : Z
}.

Record FlowState := mkFlow {
  in_use : bool;
  pid : Z;
  fs_class : Z;
  fs_nice : Z;
  fhead : ptr;
  ftail : ptr;
  fnext : option nat;
  fprev : option nat
}.

Definition empty_class : ClassState := mkClass None None None 0 0 0.
Definition empty_flow : FlowState := mkFlow false 0 0 default_proc_prio nullptr nullptr None None.

#[export] Instance ClassState_inhabited : Inhabited ClassState := populate empty_class.
#[export] Instance FlowState_inhabited : Inhabited FlowState := populate empty_flow.

Record MClock := mkClock { class_state_ : list ClassState; flow_pool_ : list FlowState }.

Definition with_next (f : FlowState) n := mkFlow (in_use f) (pid f) (fs_class f) (fs_nice f)
  (fhead f) (ftail f) n (fprev f).
Definition with_prev (f : FlowState) n := mkFlow (in_use f) (pid f) (fs_class f) (fs_nice f)
  (fhead f) (ftail f) (fnext f) n.
Definition with_nice (f : FlowState) x := mkFlow (in_use f) (pid f) (fs_class f) x
  (fhead f) (ftail f) (fnext f) (fprev f).
Definition with_queue (f : FlowState) h t := mkFlow (in_use f) (pid f) (fs_class f) (fs_nice f)
  h t (fnext f) (fprev f).

Definition with_ends (c : ClassState) h t := mkClass h t (rr_hint c) (last_r_tag_us c)
  (last_w_tag_us c) (last_l_tag_us c).
Definition with_hint (c : ClassState) h := mkClass (flow_head c) (flow_tail c) h (last_r_tag_us c)
  (last_w_tag_us c) (last_l_tag_us c).
Definition with_tags (c : ClassState) r w l := mkClass (flow_head c) (flow_tail c) (rr_hint c) r w l.

(** Loads and stores through a pointer to a flow or to a class. *)
Definition get_flow (s : MClock) (j : nat) : outcome FlowState :=
  match flow_pool_ s !! j with Some f => Ret f | None => Fault end.
Definition get_class (s : MClock) (i : nat) : outcome ClassState :=
  match class_state_ s !! i with Some c => Ret c | None => Fault end.
Definition set_flow (s : MClock) (j : nat) (f : FlowState) : MClock :=
  mkClock (class_state_ s) (<[j := f]> (flow_pool_ s)).
Definition set_class (s : MClock) (i : nat) (c : ClassState) : MClock :=
  mkClock (<[i := c]> (class_state_ s)) (flow_pool_ s).
Definition get_request (rq : requests) (r : ptr) : outcome IoRequest :=
  match rq !! r with Some x => Ret x | None => Fault end.

(** [if (p != nullptr) update *p else s]. *)
Definition on_flow (s : MClock) (p : option nat) (f : FlowState → FlowState) : outcome MClock :=
  match p with
  | Some j => let! x := get_flow s j in Ret (set_flow s j (f x))
  | None => Ret s
  end.

(** ** Tags *)

Definition default_ewma_bps : Z := k_default_ewma_bps_value.

Definition reset (s : MClock) : MClock :=
  mkClock (replicate k_class_count empty_class) (replicate k_max_flows empty_flow).

Definition nice_to_service_class (nice : Z) : Z :=
  let clamped :=
    if nice <? highest_proc_prio then highest_proc_prio
    else if lowest_proc_prio <? nice then lowest_proc_prio else nice in
  let service_class := Z.quot (clamped - highest_proc_prio) 5 in
  if Z.of_nat k_class_count <=? service_class then Z.of_nat k_class_count - 1 else service_class.

Definition ceil_div_u64 (numerator denominator : Z) : Z :=
  if denominator =? 0 then 0 else u64 (numerator + denominator - 1) / denominator.

Definition bytes_to_service_us (bytes bps : Z) : Z :=
  if bps =? 0 then 0 else
  let usec := ceil_div_u64 (u64 (bytes * k_usec_per_sec)) bps in
  if usec =? 0 then 1 else usec.

Definition weighted_service_us (bytes weight ewma_bps : Z) : Z :=
  let scaled_bytes := ceil_div_u64 (u64 (bytes * k_total_weight)) (if weight =? 0 then 1 else weight) in
  bytes_to_service_us scaled_bytes (if ewma_bps =? 0 then k_default_ewma_bps_value else ewma_bps).

(** ** Flows *)

(** The walk over the flows of a class. *)
Fixpoint find_flow (fuel : nat) (s : MClock) (cursor : option nat) (p : Z) : outcome (option nat) :=
  match fuel, cursor with
  | O, _ => Stuck
  | S _, None => Ret None
  | S n, Some j =>
      let! f := get_flow s j in
      if pid f =? p then Ret (Some j) else find_flow n s (fnext f) p
  end.

Definition flow_fuel (s : MClock) : nat := S (length (flow_pool_ s)).

Definition find_or_alloc_flow (s : MClock) (service_class : nat) (p submit_nice : Z)
    : outcome (MClock * nat) :=
  let! c := get_class s service_class in
  let! found := find_flow (flow_fuel s) s (flow_head c) p in
  match found with
  | Some j =>
      let! f := get_flow s j in Ret (set_flow s j (with_nice f submit_nice), j)
  | None =>
      match list_find (λ f, in_use f = false) (flow_pool_ s) with
      | None => Panic
      | Some (j, _) =>
          let s := set_flow s j
            (mkFlow true p (Z.of_nat service_class) submit_nice nullptr nullptr None (flow_tail c)) in
          let! s := on_flow s (flow_tail c) (λ f, with_next f (Some j)) in
          let head_ := match flow_tail c with Some _ => flow_head c | None => Some j end in
          let c := with_ends c head_ (Some j) in
          let c := match rr_hint c with None => with_hint c (Some j) | Some _ => c end in
          Ret (set_class s service_class c, j)
      end
  end.

Definition release_flow (s : MClock) (service_class : nat) (flow : option nat) : outcome MClock :=
  match flow with
  | None => Ret s
  | Some j =>
      let! f := get_flow s j in
      let! c := get_class s service_class in
      let! s := on_flow s (fprev f) (λ g, with_next g (fnext f)) in
      let c := match fprev f with Some _ => c | None => with_ends c (fnext f) (flow_tail c) end in
      let! s := on_flow s (fnext f) (λ g, with_prev g (fprev f)) in
      let c := match fnext f with Some _ => c | None => with_ends c (flow_head c) (fprev f) end in
      let c := if bool_decide (rr_hint c = Some j)
               then with_hint c (match fnext f with Some _ => fnext f | None => flow_head c end)
               else c in
      Ret (set_flow (set_class s service_class c) j empty_flow)
  end.

Definition next_flow (s : MClock) (c : ClassState) (flow : option nat) : outcome (option nat) :=
  match flow_head c with
  | None => Ret None
  | Some _ =>
      match flow with
      | None => Ret (flow_head c)
      | Some j =>
          let! f := get_flow s j in
          Ret (match fnext f with Some _ => fnext f | None => flow_head c end)
      end
  end.

Definition pop_flow_head (s : MClock) (rq : requests) (flow : option nat)
    : outcome (MClock * requests * ptr) :=
  match flow with
  | None => Ret (s, rq, nullptr)
  | Some j =>
      let! f := get_flow s j in
      if fhead f =? nullptr then Ret (s, rq, nullptr) else
      let! x := get_request rq (fhead f) in
      let h := flow_next x in
      let s := set_flow s j (with_queue f h (if h =? nullptr then nullptr else ftail f)) in
      Ret (s, <[fhead f := with_flow_next x nullptr]> rq, fhead f)
  end.

Definition finish_flow_dispatch (s : MClock) (flow : option nat) : outcome MClock :=
  match flow with
  | None => Ret s
  | Some j =>
      let! f := get_flow s j in
      let i := Z.to_nat (fs_class f) in
      let! c := get_class s i in
      let! h := next_flow s c (Some j) in
      let s := set_class s i (with_hint c h) in
      if fhead f =? nullptr then release_flow s i (Some j) else Ret s
  end.

(** ** Dispatch *)

(** The only class with flows, if there is exactly one. *)
Fixpoint active_class (cs : list ClassState) (active : option ClassState) : option ClassState :=
  match cs with
  | [] => active
  | c :: cs =>
      match flow_head c, active with
      | None, _ => active_class cs active
      | Some _, None => active_class cs (Some c)
      | Some _, Some _ => None
      end
  end.

(** The flow the rotation of a class starts at. *)
Definition start_flow (c : ClassState) : option nat :=
  match rr_hint c with Some h => Some h | None => flow_head c end.

(** Take the selected request off its flow. *)
Definition dispatch (s : MClock) (rq : requests) (flow : option nat) (selected : ptr)
    : outcome (MClock * requests * DispatchDecision) :=
  let! (s, rq, queued) := pop_flow_head s rq flow in
  if negb (queued =? selected) then Panic else
  let! s := finish_flow_dispatch s flow in
  Ret (s, rq, mkDecision selected 0).

Definition dequeue_single_active_class (s : MClock) (rq : requests) (now_us : Z)
    : outcome (MClock * requests * DispatchDecision) :=
  match active_class (class_state_ s) None with
  | None => Ret (s, rq, mkDecision nullptr 0)
  | Some c =>
      match start_flow c with
      | None => Ret (s, rq, mkDecision nullptr 0)
      | Some j =>
          let! f := get_flow s j in
          if fhead f =? nullptr then Ret (s, rq, mkDecision nullptr 0) else
          let! x := get_request rq (fhead f) in
          if now_us <? l_tag_us x then Ret (s, rq, mkDecision nullptr (l_tag_us x))
          else dispatch s rq (Some j) (fhead f)
      end
  end.

Definition enqueue (s : MClock) (rq : requests) (r : ptr) (now_us ewma_bps : Z)
    : outcome (MClock * requests) :=
  let! x := get_request rq r in
  let service_class := nice_to_service_class (submit_nice x) in
  let i := Z.to_nat service_class in
  let! (s, j) := find_or_alloc_flow s i (submit_pid x) (submit_nice x) in
  let! c := get_class s i in
  let reservation_start := if now_us <? last_r_tag_us c then last_r_tag_us c else now_us in
  let last_r := u64 (reservation_start +
    bytes_to_service_us (request_bytes x) (k_class_reservation_bps !!! i)) in
  let weight_start := if now_us <? last_w_tag_us c then last_w_tag_us c else now_us in
  let last_w := u64 (weight_start +
    weighted_service_us (request_bytes x) (k_class_weight !!! i) ewma_bps) in
  let (limit_start, last_l) :=
    if (k_class_limit_bps !!! i) =? k_unlimited_bps then (now_us, now_us)
    else
      let limit_start := if now_us <? last_l_tag_us c then last_l_tag_us c else now_us in
      (limit_start, u64 (limit_start + bytes_to_service_us (request_bytes x) (k_class_limit_bps !!! i))) in
  let s := set_class s i (with_tags c last_r last_w last_l) in
  let rq := <[r := with_schedule x service_class now_us reservation_start weight_start limit_start]> rq in
  let! f := get_flow s j in
  if ftail f =? nullptr then Ret (set_flow s j (with_queue f r r), rq)
  else
    let! t := get_request rq (ftail f) in
    Ret (set_flow s j (with_queue f (fhead f) r), <[ftail f := with_flow_next t r]> rq).

Record PickState := mkPick {
  best_reservation : ptr;
  best_reservation_flow : option nat;
  best_weight : ptr;
  best_weight_flow : option nat;
  earliest_gate : Z
}.

Definition UINT64_MAX : Z := 2 ^ 64 - 1.

(** One candidate: the head [r] of flow [j]. *)
Definition consider (rq : requests) (now_us : Z) (j : nat) (r : ptr) (pick : PickState)
    : outcome PickState :=
  let! x := get_request rq r in
  if now_us <? l_tag_us x then
    Ret (if l_tag_us x <? earliest_gate pick
         then mkPick (best_reservation pick) (best_reservation_flow pick) (best_weight pick)
                (best_weight_flow pick) (l_tag_us x)
         else pick)
  else if r_tag_us x <=? now_us then
    let better := mkPick r (Some j) (best_weight pick) (best_weight_flow pick) (earliest_gate pick) in
    if best_reservation pick =? nullptr then Ret better else
    let! b := get_request rq (best_reservation pick) in
    Ret (if (r_tag_us x <? r_tag_us b) || ((r_tag_us x =? r_tag_us b) && (w_tag_us x <? w_tag_us b))
         then better else pick)
  else
    let better := mkPick (best_reservation pick) (best_reservation_flow pick) r (Some j)
                    (earliest_gate pick) in
    if best_weight pick =? nullptr then Ret better else
    let! b := get_request rq (best_weight pick) in
    Ret (if (w_tag_us x <? w_tag_us b) || ((w_tag_us x =? w_tag_us b) && (r_tag_us x <? r_tag_us b))
         then better else pick).

(** The rotation over the flows of a class, until it is back at [start]. *)
Fixpoint pick_class (fuel : nat) (s : MClock) (rq : requests) (now_us : Z) (c : ClassState)
    (start flow : nat) (pick : PickState) : outcome PickState :=
  match fuel with
  | O => Stuck
  | S n =>
      let! f := get_flow s flow in
      let! pick := (if fhead f =? nullptr then Ret pick else consider rq now_us flow (fhead f) pick) in
      let! next := next_flow s c (Some flow) in
      match next with
      | Some j => if bool_decide (j = start) then Ret pick else pick_class n s rq now_us c start j pick
      | None => Ret pick
      end
  end.

Fixpoint pick_classes (s : MClock) (rq : requests) (now_us : Z) (cs : list ClassState)
    (pick : PickState) : outcome PickState :=
  match cs with
  | [] => Ret pick
  | c :: cs =>
      let! pick := match flow_head c, start_flow c with
        | Some _, Some start => pick_class (flow_fuel s) s rq now_us c start start pick
        | _, _ => Ret pick
        end in
      pick_classes s rq now_us cs pick
  end.

Definition pick_locked (s : MClock) (rq : requests) (now_us : Z) : outcome PickState :=
  pick_classes s rq now_us (class_state_ s) (mkPick nullptr None nullptr None UINT64_MAX).

Definition dequeue_next (s : MClock) (rq : requests) (now_us : Z)
    : outcome (MClock * requests * DispatchDecision) :=
  let! (s, rq, d) := dequeue_single_active_class s rq now_us in
  if negb (request d =? nullptr) || negb (next_gate_us d =? 0) then Ret (s, rq, d) else
  let! pick := pick_locked s rq now_us in
  let reserved := negb (best_reservation pick =? nullptr) in
  let selected_flow := if reserved then best_reservation_flow pick else best_weight_flow pick in
  let selected_request := if reserved then best_reservation pick else best_weight pick in
  if selected_request =? nullptr
  then Ret (s, rq, mkDecision nullptr
              (if earliest_gate pick =? UINT64_MAX then 0 else earliest_gate pick))
  else dispatch s rq selected_flow selected_request.

End MClock.
