(* ===== verification/MClockRep.v ===== *)
(** * What the scheduler's pools and links represent

    [Rep s rq C]: the classes of [C], each the list of its flows in list order, a
    flow being its slot in the pool and the requests queued on it, are what the
    links of the scheduler [s] and of the requests [rq] spell out. *)
From S2P Require Import Prelude IoSched MClock.
Import IoSched MClock.

Module MClockRep.

(** ** Doubly linked flows *)

Definition head_or {A} (d : option A) (l : list A) : option A :=
  match l with [] => d | x :: _ => Some x end.
Definition tail_or {A} (d : option A) (l : list A) : option A :=
  match last l with None => d | Some x => Some x end.

Fixpoint dll (pool : list FlowState) (p : option nat) (l : list nat) (n : option nat) : Prop :=
  match l with
  | [] => True
  | j :: l' => fprev (pool !!! j) = p ∧ fnext (pool !!! j) = head_or n l' ∧ dll pool (Some j) l' n
  end.

Lemma tail_or_cons {A} (d : option A) x l : tail_or d (x :: l) = tail_or (Some x) l.
Proof. unfold tail_or. destruct l as [|y l]; [done|]. rewrite last_cons_cons. by destruct (last (y :: l)) eqn:E; [|apply last_None in E]. Qed.

Lemma tail_or_last {A} (l : list A) : tail_or None l = last l.
Proof. unfold tail_or. by destruct (last l). Qed.

Lemma head_or_head {A} (l : list A) : head_or None l = head l.
Proof. by destruct l. Qed.

Lemma head_or_app {A} (d : option A) l l' : head_or d (l ++ l') = head_or (head_or d l') l.
Proof. by destruct l. Qed.

Lemma dll_app pool p l l' n :
  dll pool p (l ++ l') n ↔ dll pool p l (head_or n l') ∧ dll pool (tail_or p l) l' n.
Proof.
  revert p. induction l as [|j l IH]; intros p; cbn [app dll]; [naive_solver|].
  rewrite IH, tail_or_cons, head_or_app. naive_solver.
Qed.

Lemma dll_frame pool pool' p l n :
  (∀ j, j ∈ l → fnext (pool' !!! j) = fnext (pool !!! j) ∧ fprev (pool' !!! j) = fprev (pool !!! j)) →
  dll pool p l n → dll pool' p l n.
Proof.
  revert p. induction l as [|j l IH]; intros p Hf; cbn; [done|]. intros (Hp & Hn & Hl).
  destruct (Hf j) as [-> ->]; [by left|]. split_and!; [done..|]. apply IH; [|done].
  intros k Hk. apply Hf. by right.
Qed.

(** ** Queues of requests *)

Fixpoint qseg (rq : requests) (l : list ptr) (e : ptr) : Prop :=
  match l with
  | [] => True
  | r :: l' => is_Some (rq !! r) ∧ flow_next (rq !!! r) = hd e l' ∧ qseg rq l' e
  end.

Lemma qseg_frame rq rq' l e :
  (∀ r, r ∈ l → rq' !! r = rq !! r) → qseg rq l e → qseg rq' l e.
Proof.
  induction l as [|r l IH]; intros Hf; cbn; [done|]. intros (Hs & Hn & Hl).
  rewrite lookup_total_alt, (Hf r) by (by left). rewrite lookup_total_alt in Hn.
  split_and!; [done..|]. apply IH; [|done]. intros k Hk. apply Hf. by right.
Qed.

Lemma hd_app_r {A} (e : A) l l' : hd e (l ++ l') = hd (hd e l') l.
Proof. by destruct l. Qed.

Lemma qseg_app rq l l' e : qseg rq (l ++ l') e ↔ qseg rq l (hd e l') ∧ qseg rq l' e.
Proof.
  induction l as [|r l IH]; cbn; [naive_solver|]. rewrite IH, hd_app_r. naive_solver.
Qed.

(** ** The representation *)

(** A class: its flows, by slot, with their queues. *)
Abbreviation flows := (list (nat * list ptr)).

Definition slots (L : flows) : list nat := L.*1.
Definition queued (L : flows) : list ptr := flat_map snd L.

Record ClassOk (pool : list FlowState) (c : ClassState) (L : flows) : Prop := {
  co_head : flow_head c = head (slots L);
  co_tail : flow_tail c = last (slots L);
  co_hint : match rr_hint c with Some h => h ∈ slots L | None => L = [] end;
  co_dll : dll pool None (slots L) None;
  co_pids : NoDup ((λ j, pid (pool !!! j)) <$> slots L)
}.

(** A request queued on the flow of process [p] in class [i]. *)
Definition belongs (x : IoRequest) (i : nat) (p : Z) : Prop :=
  submit_pid x = p ∧ nice_to_service_class (submit_nice x) = Z.of_nat i ∧ service_class x = Z.of_nat i.

Record FlowOk (pool : list FlowState) (rq : requests) (i j : nat) (q : list ptr) : Prop := {
  fo_range : (j < length pool)%nat;
  fo_use : in_use (pool !!! j) = true;
  fo_class : fs_class (pool !!! j) = Z.of_nat i;
  fo_head : fhead (pool !!! j) = hd nullptr q;
  fo_tail : ftail (pool !!! j) = last_or nullptr q;
  fo_queue : qseg rq q nullptr;
  fo_owner : ∀ r, r ∈ q → belongs (rq !!! r) i (pid (pool !!! j))
}.

Record Rep (s : MClock) (rq : requests) (C : list flows) : Prop := {
  r_count : length (class_state_ s) = k_class_count;
  r_classes : length C = k_class_count;
  r_pool : length (flow_pool_ s) = k_max_flows;
  r_class : ∀ i L, C !! i = Some L → ClassOk (flow_pool_ s) (class_state_ s !!! i) L;
  r_flow : ∀ i L j q, C !! i = Some L → (j, q) ∈ L → FlowOk (flow_pool_ s) rq i j q;
  r_slots : NoDup (slots (concat C));
  r_used : ∀ j, (j < k_max_flows)%nat → in_use (flow_pool_ s !!! j) = true → j ∈ slots (concat C);
  r_reqs : NoDup (queued (concat C));
  r_null : nullptr ∉ queued (concat C)
}.

(** Between calls no flow is empty. *)
Definition busy (C : list flows) : Prop := ∀ L j q, L ∈ C → (j, q) ∈ L → q ≠ [].

(** ** Updating one class *)

Lemma concat_insert {A} (C : list (list A)) i L :
  C !! i = Some L → ∃ R, concat C ≡ₚ L ++ R ∧ ∀ L', concat (<[i := L']> C) ≡ₚ L' ++ R.
Proof.
  intros Hi. exists (concat (take i C) ++ concat (drop (S i) C)). split.
  - rewrite <- (take_drop_middle C i L Hi) at 1. rewrite concat_app. cbn. solve_Permutation.
  - intros L'. rewrite insert_take_drop by (by eapply lookup_lt_Some). rewrite concat_app. cbn.
    solve_Permutation.
Qed.

Lemma slots_app L L' : slots (L ++ L') = slots L ++ slots L'.
Proof. apply fmap_app. Qed.

Lemma queued_app L L' : queued (L ++ L') = queued L ++ queued L'.
Proof. apply flat_map_app. Qed.

Lemma queued_cons j q L : queued ((j, q) :: L) = q ++ queued L.
Proof. done. Qed.

#[export] Instance slots_proper : Proper ((≡ₚ) ==> (≡ₚ)) slots.
Proof. intros ?? H. unfold slots. by rewrite H. Qed.

#[export] Instance queued_proper : Proper ((≡ₚ) ==> (≡ₚ)) queued.
Proof.
  intros L L' H. unfold queued. induction H as [|[j q] L L' _ IH|[j q] [j' q'] L|L1 L2 L3 _ IH1 _ IH2]; cbn.
  - done.
  - by rewrite IH.
  - solve_Permutation.
  - by rewrite IH1.
Qed.

Lemma elem_of_slots j L : j ∈ slots L ↔ ∃ q, (j, q) ∈ L.
Proof.
  unfold slots. rewrite list_elem_of_fmap. split.
  - intros ([k q] & -> & H). by exists q.
  - intros [q H]. by exists (j, q).
Qed.

Lemma elem_of_queued r L : r ∈ queued L ↔ ∃ j q, (j, q) ∈ L ∧ r ∈ q.
Proof.
  unfold queued. rewrite elem_of_flat_map. split.
  - intros ([j q] & H & Hr). by exists j, q.
  - intros (j & q & H & Hr). by exists (j, q).
Qed.

Lemma elem_of_concat {A} (x : A) C : x ∈ concat C ↔ ∃ i l, C !! i = Some l ∧ x ∈ l.
Proof.
  rewrite list_elem_of_In, in_concat. split.
  - intros (l & Hl & Hx). apply list_elem_of_In, list_elem_of_lookup in Hl as [i Hi].
    exists i, l. by rewrite list_elem_of_In.
  - intros (i & l & Hi & Hx). exists l. rewrite <- !list_elem_of_In. split; [|done].
    by eapply list_elem_of_lookup_2.
Qed.

(** What of a flow its queue depends on: all but links and niceness. *)
Definition payload (f : FlowState) := (in_use f, pid f, fs_class f, fhead f, ftail f).

Lemma FlowOk_frame pool pool' rq rq' i j q :
  length pool' = length pool → payload (pool' !!! j) = payload (pool !!! j) →
  (∀ r, r ∈ q → rq' !! r = rq !! r) →
  FlowOk pool rq i j q → FlowOk pool' rq' i j q.
Proof.
  intros Hl Hj Hr [? ? ? ? ? Hq Ho]. injection Hj as E1 E2 E3 E4 E5.
  split; rewrite ?Hl, ?E1, ?E2, ?E3, ?E4, ?E5; try done; [by eapply qseg_frame|].
  intros r Hin. rewrite lookup_total_alt, Hr by done. rewrite <- lookup_total_alt. by apply Ho.
Qed.

Lemma ClassOk_frame pool pool' c L :
  (∀ j, j ∈ slots L → pool' !! j = pool !! j) → ClassOk pool c L → ClassOk pool' c L.
Proof.
  intros Hf [? ? ? Hd Hp]. assert (∀ j, j ∈ slots L → pool' !!! j = pool !!! j) as Ht.
  { intros j Hj. by rewrite !list_lookup_total_alt, Hf. }
  split; [done..| |].
  - eapply dll_frame; [|exact Hd]. intros j Hj. by rewrite Ht.
  - erewrite list_fmap_ext; [exact Hp|]. intros n j Hj. cbn. rewrite Ht; [done|].
    by eapply list_elem_of_lookup_2.
Qed.

(** Disjointness of two classes, of slots as of requests. *)
Lemma other_class (C : list flows) i L k M R :
  C !! i = Some L → C !! k = Some M → k ≠ i → (∀ L', concat (<[i := L']> C) ≡ₚ L' ++ R) →
  ∀ f, f ∈ M → f ∈ R.
Proof.
  intros Hi Hk Hki HR f Hf. rewrite <- (app_nil_l R), <- (HR []), elem_of_concat.
  exists k, M. by rewrite list_lookup_insert_ne.
Qed.

(** The representation after an update that touches one class: its state, its
    slots and its requests. *)
Lemma Rep_update s rq C i L (R : flows) L' s' rq' c' :
  Rep s rq C → C !! i = Some L → concat C ≡ₚ L ++ R → (∀ M, concat (<[i := M]> C) ≡ₚ M ++ R) →
  class_state_ s' = <[i := c']> (class_state_ s) →
  length (flow_pool_ s') = length (flow_pool_ s) →
  (∀ j, j ∈ slots R → flow_pool_ s' !! j = flow_pool_ s !! j) →
  (∀ r, r ∈ queued R → rq' !! r = rq !! r) →
  ClassOk (flow_pool_ s') c' L' →
  (∀ j q, (j, q) ∈ L' → FlowOk (flow_pool_ s') rq' i j q) →
  NoDup (slots L' ++ slots R) → NoDup (queued L' ++ queued R) → nullptr ∉ queued L' →
  (∀ j, (j < k_max_flows)%nat → in_use (flow_pool_ s' !!! j) = true → j ∈ slots L' ++ slots R) →
  Rep s' rq' (<[i := L']> C).
Proof.
  intros [H1 H2 H3 Hc Hf Hs Hu Hr Hn] Hi HC HR Ecs Hlen Hpool Hrq HcL HfL Hs' Hr' Hn' Hu'.
  assert (i < length C)%nat as Hlt by (by eapply lookup_lt_Some).
  split; rewrite ?Ecs, ?length_insert; try done; [lia| | | | | |].
  - intros k M Hk. destruct (decide (k = i)) as [->|Hki].
    + rewrite list_lookup_insert_eq in Hk by done. simplify_eq.
      by rewrite list_lookup_total_insert_eq by lia.
    + rewrite list_lookup_insert_ne in Hk by done. rewrite list_lookup_total_insert_ne by done.
      eapply ClassOk_frame; [|by apply Hc]. intros j Hj. apply Hpool.
      apply elem_of_slots in Hj as [q Hq]. apply elem_of_slots. exists q.
      by eapply (other_class C i L k M R).
  - intros k M j q Hk Hjq. destruct (decide (k = i)) as [->|Hki].
    + rewrite list_lookup_insert_eq in Hk by done. simplify_eq. by apply HfL.
    + rewrite list_lookup_insert_ne in Hk by done.
      assert ((j, q) ∈ R) as HjR by (by eapply (other_class C i L k M R)).
      eapply FlowOk_frame; [done| | |by eapply Hf].
      * rewrite !list_lookup_total_alt, Hpool; [done|]. apply elem_of_slots. by exists q.
      * intros r Hin. apply Hrq, elem_of_queued. by exists j, q.
  - by rewrite HR, slots_app.
  - intros j Hj Huse. rewrite HR, slots_app. by apply Hu'.
  - by rewrite HR, queued_app.
  - rewrite HR, queued_app, elem_of_app. rewrite HC, queued_app, elem_of_app in Hn. tauto.
Qed.

End MClockRep.
