(* ===== verification/MClockOps.v ===== *)
(** * The scheduler's operations on what it represents

    Each operation on flows and queues, as a change of the represented classes. *)
From S2P Require Import Prelude IoSched MClock MClockRep.
Import IoSched MClock MClockRep.

Module MClockOps.

(** ** Linking flows *)

Definition link_next (pool : list FlowState) (o v : option nat) : list FlowState :=
  match o with Some t => <[t := with_next (pool !!! t) v]> pool | None => pool end.
Definition link_prev (pool : list FlowState) (o v : option nat) : list FlowState :=
  match o with Some t => <[t := with_prev (pool !!! t) v]> pool | None => pool end.

Lemma get_flow_spec s j :
  (j < length (flow_pool_ s))%nat → get_flow s j = Ret (flow_pool_ s !!! j).
Proof. intros Hj. unfold get_flow. by rewrite list_lookup_lookup_total_lt. Qed.

Lemma get_class_spec s i :
  (i < length (class_state_ s))%nat → get_class s i = Ret (class_state_ s !!! i).
Proof. intros Hi. unfold get_class. by rewrite list_lookup_lookup_total_lt. Qed.

Definition in_pool (pool : list FlowState) (o : option nat) : Prop :=
  match o with Some t => (t < length pool)%nat | None => True end.

Lemma on_flow_next s o v :
  in_pool (flow_pool_ s) o →
  on_flow s o (λ f, with_next f v) = Ret (mkClock (class_state_ s) (link_next (flow_pool_ s) o v)).
Proof. destruct o as [t|]; cbn; [|by destruct s]. intros Ht. by rewrite get_flow_spec. Qed.

Lemma on_flow_prev s o v :
  in_pool (flow_pool_ s) o →
  on_flow s o (λ f, with_prev f v) = Ret (mkClock (class_state_ s) (link_prev (flow_pool_ s) o v)).
Proof. destruct o as [t|]; cbn; [|by destruct s]. intros Ht. by rewrite get_flow_spec. Qed.

Lemma length_link_next pool o v : length (link_next pool o v) = length pool.
Proof. destruct o; cbn; by rewrite ?length_insert. Qed.

Lemma length_link_prev pool o v : length (link_prev pool o v) = length pool.
Proof. destruct o; cbn; by rewrite ?length_insert. Qed.

Lemma lookup_total_insert_at (pool : list FlowState) j f k :
  (j < length pool)%nat → <[j := f]> pool !!! k = if bool_decide (k = j) then f else pool !!! k.
Proof.
  intros Hj. case_bool_decide as E; [subst; by apply list_lookup_total_insert_eq|].
  by apply list_lookup_total_insert_ne.
Qed.

Lemma payload_link_next pool o v k :
  in_pool pool o → payload (link_next pool o v !!! k) = payload (pool !!! k).
Proof.
  destruct o as [t|]; cbn; [|done]. intros Ht. rewrite lookup_total_insert_at by done.
  by case_bool_decide; subst.
Qed.

Lemma payload_link_prev pool o v k :
  in_pool pool o → payload (link_prev pool o v !!! k) = payload (pool !!! k).
Proof.
  destruct o as [t|]; cbn; [|done]. intros Ht. rewrite lookup_total_insert_at by done.
  by case_bool_decide; subst.
Qed.

Lemma link_next_ne pool o v k : o ≠ Some k → link_next pool o v !! k = pool !! k.
Proof. destruct o as [t|]; cbn; [|done]. intros Hk. apply list_lookup_insert_ne. naive_solver. Qed.

Lemma link_prev_ne pool o v k : o ≠ Some k → link_prev pool o v !! k = pool !! k.
Proof. destruct o as [t|]; cbn; [|done]. intros Hk. apply list_lookup_insert_ne. naive_solver. Qed.

Lemma dll_frame_ne pool pool' p l n :
  (∀ j, j ∈ l → pool' !! j = pool !! j) → dll pool p l n → dll pool' p l n.
Proof.
  intros H. apply dll_frame. intros j Hj. by rewrite !list_lookup_total_alt, H.
Qed.

(** Setting the link of the last flow of a list to what follows. *)
Lemma link_next_dll pool p l n v :
  dll pool p l n → NoDup l → (∀ j, j ∈ l → (j < length pool)%nat) →
  dll (link_next pool (last l) v) p l v.
Proof.
  intros Hd Hnd Hr. destruct l as [|t l _] using rev_ind; [done|]. rewrite last_snoc. cbn [link_next].
  apply NoDup_app in Hnd as (_ & Hnd & _). apply dll_app in Hd as [Hl [Hp _]].
  apply dll_app. split.
  - eapply dll_frame_ne; [|exact Hl]. intros j Hj. apply list_lookup_insert_ne.
    intros ->. apply (Hnd j Hj). by left.
  - cbn. rewrite list_lookup_total_insert_eq by (apply Hr; set_solver). by rewrite <- Hp.
Qed.

(** Setting the link of the first flow of a list to what precedes. *)
Lemma link_prev_dll pool p l n v :
  dll pool p l n → NoDup l → (∀ j, j ∈ l → (j < length pool)%nat) →
  dll (link_prev pool (head l) v) v l n.
Proof.
  intros Hd Hnd Hr. destruct l as [|t l]; [done|]. cbn [link_prev head].
  apply NoDup_cons in Hnd as [Ht _]. destruct Hd as (Hp & Hn & Hl). cbn [dll].
  rewrite list_lookup_total_insert_eq by (apply Hr; by left). split_and!; [done|by rewrite <- Hn|].
  eapply dll_frame_ne; [|exact Hl]. intros j Hj. apply list_lookup_insert_ne. naive_solver.
Qed.

(** ** Facts of a represented class *)
Section class.
Context (s : MClock) (rq : requests) (C : list flows) (HR : Rep s rq C).

Lemma rep_class_range i L : C !! i = Some L → (i < length (class_state_ s))%nat.
Proof. destruct HR as [-> <- _ _ _ _ _ _ _]. intros. by eapply lookup_lt_Some. Qed.

Lemma rep_slot_range i L j : C !! i = Some L → j ∈ slots L → (j < length (flow_pool_ s))%nat.
Proof.
  intros Hi Hj. apply elem_of_slots in Hj as [q Hq]. by destruct (r_flow _ _ _ HR i L j q Hi Hq).
Qed.

Lemma rep_slots_class i L : C !! i = Some L → NoDup (slots L).
Proof.
  intros Hi. destruct (concat_insert C i L Hi) as (R & HC & _). pose proof (r_slots _ _ _ HR) as H.
  rewrite HC, slots_app in H. by apply NoDup_app in H as [? _].
Qed.

Lemma rep_slots_bound : (length (concat C) ≤ k_max_flows)%nat.
Proof.
  rewrite <- (length_fmap fst). fold (slots (concat C)). rewrite <- (length_seq k_max_flows 0).
  apply submseteq_length, NoDup_submseteq; [apply (r_slots _ _ _ HR)|]. intros j Hj.
  apply elem_of_slots in Hj as [q Hq]. apply elem_of_concat in Hq as (i & L & Hi & Hq).
  rewrite elem_of_seq. rewrite <- (r_pool _ _ _ HR). split; [lia|].
  eapply rep_slot_range; [done|]. apply elem_of_slots. by exists q.
Qed.

Lemma rep_class_bound i L : C !! i = Some L → (length L ≤ k_max_flows)%nat.
Proof.
  intros Hi. destruct (concat_insert C i L Hi) as (R & HC & _). pose proof rep_slots_bound as H.
  rewrite HC, length_app in H. lia.
Qed.

(** The walk finds the flow of the process if the class has one. *)
Lemma find_flow_spec l p : ∀ fuel prev,
  dll (flow_pool_ s) prev l None → (∀ j, j ∈ l → (j < length (flow_pool_ s))%nat) →
  (length l < fuel)%nat →
  ∃ res, find_flow fuel s (head l) p = Ret res ∧
    match res with
    | Some j => j ∈ l ∧ pid (flow_pool_ s !!! j) = p
    | None => ∀ j, j ∈ l → pid (flow_pool_ s !!! j) ≠ p
    end.
Proof.
  induction l as [|j l IH]; intros [|fuel] prev Hd Hr Hf; cbn in Hf; [lia| |lia|].
  - exists None. split; [done|]. intros j Hj. by apply not_elem_of_nil in Hj.
  - cbn [head find_flow]. rewrite get_flow_spec by (apply Hr; by left). cbn [obind].
    destruct Hd as (_ & Hn & Hd). destruct (Z.eqb_spec (pid (flow_pool_ s !!! j)) p) as [E|E].
    + exists (Some j). split; [done|]. split; [by left|done].
    + rewrite Hn, head_or_head.
      destruct (IH fuel (Some j) Hd) as (res & -> & Hres); [intros; apply Hr; by right|lia|].
      exists res. split; [done|]. destruct res as [k|].
      * destruct Hres. split; [by right|done].
      * intros k Hk. apply elem_of_cons in Hk as [->|Hk]; [done|by apply Hres].
Qed.
End class.

(** ** Operations *)

Lemma NoDup_app_disjoint {A} (l l' : list A) x : NoDup (l ++ l') → x ∈ l → x ∈ l' → False.
Proof. intros (_ & H & _)%NoDup_app. by apply H. Qed.

(** A change of a class's own fields that still describes its flows. *)
Lemma Rep_set_class s rq C i L c' :
  Rep s rq C → C !! i = Some L → ClassOk (flow_pool_ s) c' L → Rep (set_class s i c') rq C.
Proof.
  intros HR Hi Hc. destruct (concat_insert C i L Hi) as (R & HC & HI).
  rewrite <- (list_insert_id C i L Hi).
  pose proof HR as [_ _ _ _ Hf Hs Hu Hr Hn]. rewrite HC, ?slots_app, ?queued_app in *.
  eapply (Rep_update s rq C i L R L); try done.
  - intros j q Hq. by eapply Hf.
  - intros Hin. apply Hn. apply elem_of_app. by left.
  - intros j Hj Hj'. rewrite <- slots_app, <- HC. by apply Hu.
Qed.

(** A new, empty flow at the end of a class. *)
Definition new_flow (c : ClassState) (i : nat) (p nice : Z) : FlowState :=
  mkFlow true p (Z.of_nat i) nice nullptr nullptr None (flow_tail c).

Definition append_class (c : ClassState) (j : nat) : ClassState :=
  let c := with_ends c (match flow_tail c with Some _ => flow_head c | None => Some j end) (Some j) in
  match rr_hint c with None => with_hint c (Some j) | Some _ => c end.

Definition append_flow (s : MClock) (i j : nat) (p nice : Z) : MClock :=
  let c := class_state_ s !!! i in
  mkClock (<[i := append_class c j]> (class_state_ s))
    (link_next (<[j := new_flow c i p nice]> (flow_pool_ s)) (flow_tail c) (Some j)).

Lemma pids_frame (pool pool' : list FlowState) (l : list nat) :
  (∀ k, k ∈ l → payload (pool !!! k) = payload (pool' !!! k)) →
  (λ k, pid (pool !!! k)) <$> l = (λ k, pid (pool' !!! k)) <$> l.
Proof.
  intros H. apply list_fmap_ext. intros n k Hk. apply list_elem_of_lookup_2 in Hk.
  by injection (H k Hk) as _ ->.
Qed.

Lemma append_class_ok pool pool' c L j q :
  ClassOk pool c L → dll pool' None (slots L ++ [j]) None →
  NoDup ((λ k, pid (pool' !!! k)) <$> slots L ++ [j]) →
  ClassOk pool' (append_class c j) (L ++ [(j, q)]).
Proof.
  intros [Hh Ht Hi _ _] Hd Hp. unfold append_class.
  assert (∀ c', flow_head c' = head (slots L ++ [j]) → flow_tail c' = Some j →
    match rr_hint c' with Some h => h ∈ slots L ++ [j] | None => False end →
    ClassOk pool' c' (L ++ [(j, q)])) as Hok.
  { intros c' H1 H2 H3. split; rewrite ?slots_app; try done.
    - rewrite H2. cbn. by rewrite last_snoc.
    - destruct (rr_hint c'); [done|by destruct H3]. }
  assert ((match flow_tail c with Some _ => flow_head c | None => Some j end) = head (slots L ++ [j])) as E.
  { rewrite Ht, Hh. destruct L as [|x L _] using rev_ind; [done|].
    rewrite slots_app. cbn. rewrite last_snoc. by destruct (slots L). }
  cbn. destruct (rr_hint c) as [h|] eqn:Eh; apply Hok; cbn; try done; rewrite ?Eh;
    apply elem_of_app; [by left|right; by left].
Qed.

Lemma Rep_append s rq C i L j p nice :
  Rep s rq C → C !! i = Some L → (j < k_max_flows)%nat → in_use (flow_pool_ s !!! j) = false →
  (∀ k, k ∈ slots L → pid (flow_pool_ s !!! k) ≠ p) →
  Rep (append_flow s i j p nice) rq (<[i := L ++ [(j, [])]]> C).
Proof.
  intros HR Hi Hj Hfree Hpid. destruct (concat_insert C i L Hi) as (R & HC & HI).
  pose proof HR as [_ _ Hlp Hc Hf Hs Hu Hr Hn]. rewrite HC, ?slots_app, ?queued_app in *.
  assert (j ∉ slots L ++ slots R) as Hnew.
  { rewrite <- slots_app, <- HC, elem_of_slots. intros [q Hq].
    apply elem_of_concat in Hq as (i' & L' & Hi' & Hq). destruct (Hf i' L' j q Hi' Hq). congruence. }
  rewrite not_elem_of_app in Hnew. destruct Hnew as [HjL HjR].
  pose proof (Hc i L Hi) as HcL. pose proof HcL as [Hh Ht Hhint Hd Hp].
  set (c := class_state_ s !!! i) in *. set (pool1 := <[j := new_flow c i p nice]> (flow_pool_ s)).
  assert (in_pool pool1 (flow_tail c)) as Hin.
  { rewrite Ht. destruct (last (slots L)) eqn:El; [|done]. cbn. unfold pool1. rewrite length_insert.
    apply last_Some_elem_of in El. by eapply rep_slot_range. }
  assert (flow_tail c ≠ Some j) as Htj.
  { rewrite Ht. intros El%last_Some_elem_of. done. }
  assert (∀ k, k ≠ j → payload (link_next pool1 (flow_tail c) (Some j) !!! k) = payload (flow_pool_ s !!! k)) as Hpay.
  { intros k Hk. rewrite payload_link_next by done. unfold pool1. by rewrite list_lookup_total_insert_ne. }
  assert (link_next pool1 (flow_tail c) (Some j) !!! j = new_flow c i p nice) as Ej.
  { rewrite list_lookup_total_alt, link_next_ne, <- list_lookup_total_alt by done. unfold pool1.
    apply list_lookup_total_insert_eq. lia. }
  eapply (Rep_update s rq C i L R); try done; unfold append_flow; cbn [flow_pool_ class_state_]; fold c pool1.
  - unfold pool1. by rewrite length_link_next, length_insert.
  - intros k Hk. rewrite link_next_ne.
    + unfold pool1. apply list_lookup_insert_ne. by intros ->.
    + rewrite Ht. intros El%last_Some_elem_of. by apply NoDup_app in Hs as (_ & Hs & _); apply (Hs k).
  - eapply append_class_ok; [exact HcL| |].
    + apply dll_app. rewrite Ht. split; [|cbn; rewrite <- Ht, Ej; by rewrite tail_or_last].
      cbn [head_or]. apply (link_next_dll _ _ _ None).
      * eapply dll_frame_ne; [|exact Hd]. intros k Hk. apply list_lookup_insert_ne. by intros ->.
      * by eapply rep_slots_class.
      * intros k Hk. unfold pool1. rewrite length_insert. by eapply rep_slot_range.
    + rewrite fmap_app. cbn. rewrite Ej. cbn. rewrite (pids_frame _ (flow_pool_ s)).
      * apply NoDup_app. split_and!; [done| |apply NoDup_singleton].
        intros x Hx ->%list_elem_of_singleton. apply list_elem_of_fmap in Hx as (k & -> & Hk).
        by apply (Hpid k).
      * intros k Hk. apply Hpay. by intros ->.
  - intros k q Hkq. apply elem_of_app in Hkq as [Hkq|[= -> ->]%list_elem_of_singleton].
    + eapply FlowOk_frame; [| |done|by eapply Hf].
      * unfold pool1. by rewrite length_link_next, length_insert.
      * apply Hpay. intros ->. apply HjL, elem_of_slots. by exists q.
    + split; rewrite ?Ej; try done.
      * unfold pool1. rewrite length_link_next, length_insert. lia.
      * intros r Hr'. by apply not_elem_of_nil in Hr'.
  - rewrite slots_app. rewrite <- app_assoc. cbn. rewrite <- Permutation_middle.
    apply NoDup_cons. split; [|done]. rewrite not_elem_of_app. done.
  - by rewrite queued_app, app_nil_r.
  - rewrite queued_app, app_nil_r. intros Hin'. apply Hn. apply elem_of_app. by left.
  - intros k Hk Hk'. rewrite slots_app. destruct (decide (k = j)) as [->|Hkj].
    + rewrite !elem_of_app. left. right. by left.
    + assert (k ∈ slots L ++ slots R) as Hin'.
      { rewrite <- slots_app, <- HC. apply Hu; [done|]. pose proof (Hpay k Hkj) as [= <- _ _ _ _]. done. }
      rewrite !elem_of_app in *. tauto.
Qed.

(** Where the rotation continues after flow [j], between [A] and [B]. *)
Definition after_flow (A B : list nat) : option nat := head (B ++ A).

Definition released_class (c : ClassState) (j : nat) (A B : list nat) : ClassState :=
  mkClass (head (A ++ B)) (last (A ++ B))
    (if bool_decide (rr_hint c = Some j) then after_flow A B else rr_hint c)
    (last_r_tag_us c) (last_w_tag_us c) (last_l_tag_us c).

Definition released_pool (pool : list FlowState) (j : nat) (A B : list nat) : list FlowState :=
  <[j := empty_flow]> (link_prev (link_next pool (last A) (head B)) (head B) (last A)).

Lemma in_pool_last pool (l : list nat) : (∀ k, k ∈ l → (k < length pool)%nat) → in_pool pool (last l).
Proof. intros H. destruct (last l) eqn:E; [|done]. by apply H, last_Some_elem_of. Qed.

Lemma in_pool_head pool (l : list nat) : (∀ k, k ∈ l → (k < length pool)%nat) → in_pool pool (head l).
Proof. intros H. destruct l; [done|]. apply H. by left. Qed.

Lemma last_app_None {A} (l l' : list A) : l' = [] → last (l ++ l') = last l.
Proof. intros ->. by rewrite app_nil_r. Qed.

Lemma last_app_ne {A} (l l' : list A) : l' ≠ [] → last (l ++ l') = last l'.
Proof. intros H. destruct l' as [|x l' _] using rev_ind; [done|]. by rewrite app_assoc, !last_snoc. Qed.

Lemma release_flow_runs s i c (A B : list nat) j :
  class_state_ s !! i = Some c → flow_head c = head (A ++ j :: B) → flow_tail c = last (A ++ j :: B) →
  dll (flow_pool_ s) None (A ++ j :: B) None →
  (∀ k, k ∈ A ++ j :: B → (k < length (flow_pool_ s))%nat) →
  release_flow s i (Some j) =
    Ret (mkClock (<[i := released_class c j A B]> (class_state_ s)) (released_pool (flow_pool_ s) j A B)).
Proof.
  intros Hc Hh Ht Hd Hr. apply dll_app in Hd as [_ (Hp & Hn & _)].
  rewrite tail_or_last in Hp. rewrite head_or_head in Hn.
  unfold release_flow. rewrite get_flow_spec by (apply Hr; set_solver). cbn [obind]. rewrite Hp, Hn.
  unfold get_class. rewrite Hc. cbn [obind].
  rewrite on_flow_next by (apply in_pool_last; intros; apply Hr; set_solver). cbn [obind].
  rewrite on_flow_prev by (cbn; apply in_pool_head; intros; rewrite length_link_next; apply Hr; set_solver).
  cbn [obind flow_pool_ class_state_]. do 2 f_equal.
  set (c2 := match head B with Some _ => _ | None => _ end).
  assert (c2 = mkClass (head (A ++ B)) (last (A ++ B)) (rr_hint c) (last_r_tag_us c) (last_w_tag_us c)
    (last_l_tag_us c)) as ->.
  { subst c2. destruct c as [ch ct hint r w l]; cbn in *; subst ch ct.
    destruct A as [|a A _] using rev_ind; destruct B as [|b B]; cbn -[last]; try done;
      rewrite ?last_snoc, ?app_nil_r; cbn -[last].
    - unfold with_ends. cbn -[last]. rewrite last_snoc. by destruct A.
    - rewrite !(last_app_ne (A ++ [a])), last_cons_cons by done. by destruct A. }
  unfold released_class, after_flow, set_class, set_flow, with_hint. cbn. do 2 f_equal.
  case_bool_decide; [|done]. by destruct B; rewrite ?app_nil_r.
Qed.

Section released.
Context (pool : list FlowState) (A B : list nat) (j : nat).
Context (Hd : dll pool None (A ++ j :: B) None) (Hnd : NoDup (A ++ j :: B)).
Context (Hr : ∀ k, k ∈ A ++ j :: B → (k < length pool)%nat).

Lemma length_released : length (released_pool pool j A B) = length pool.
Proof using. unfold released_pool. by rewrite length_insert, length_link_prev, length_link_next. Qed.

Lemma released_payload k : k ≠ j → payload (released_pool pool j A B !!! k) = payload (pool !!! k).
Proof using Hr. clear Hd Hnd.
  intros Hk. unfold released_pool. rewrite list_lookup_total_insert_ne by done.
  rewrite payload_link_prev, payload_link_next; [done| |].
  - apply in_pool_last. intros. apply Hr. set_solver.
  - apply in_pool_head. intros. rewrite length_link_next. apply Hr. set_solver.
Qed.

Lemma released_self : released_pool pool j A B !!! j = empty_flow.
Proof using Hr. clear Hd Hnd.
  apply list_lookup_total_insert_eq. rewrite length_link_prev, length_link_next. apply Hr. set_solver.
Qed.

Lemma released_other k : k ∉ A ++ j :: B → released_pool pool j A B !! k = pool !! k.
Proof using. clear Hd Hnd Hr.
  intros Hk. unfold released_pool. rewrite list_lookup_insert_ne by set_solver.
  rewrite link_prev_ne, link_next_ne; [done| |].
  - intros El%last_Some_elem_of. set_solver.
  - intros El%head_Some_elem_of. set_solver.
Qed.

Lemma released_dll : dll (released_pool pool j A B) None (A ++ B) None.
Proof using All.
  apply dll_app in Hd as [HA (_ & _ & HB)]. cbn [head_or] in HA.
  apply NoDup_app in Hnd as (HnA & HAB & HnB). apply NoDup_cons in HnB as [HjB HnB].
  assert (∀ k, k ∈ A → k ≠ j ∧ k ∉ B) as HA'.
  { intros k Hk. pose proof (HAB k Hk). set_solver. }
  apply dll_app. rewrite tail_or_last, head_or_head. split.
  - eapply dll_frame_ne; [|eapply (link_next_dll pool None A (Some j) (head B)); [done..|]].
    + intros k Hk. unfold released_pool. destruct (HA' k Hk).
      rewrite list_lookup_insert_ne by done. apply link_prev_ne. by intros ?%head_Some_elem_of.
    + intros k Hk. apply Hr. set_solver.
  - eapply dll_frame_ne; [|eapply (link_prev_dll (link_next pool (last A) (head B)) (Some j) B None (last A))].
    + intros k Hk. unfold released_pool. rewrite list_lookup_insert_ne by set_solver. done.
    + eapply dll_frame_ne; [|exact HB]. intros k Hk. apply link_next_ne.
      intros El%last_Some_elem_of. by destruct (HA' k El).
    + done.
    + intros k Hk. rewrite length_link_next. apply Hr. set_solver.
Qed.
End released.

Lemma released_class_ok pool c LA j q LB :
  ClassOk pool c (LA ++ (j, q) :: LB) → NoDup (slots LA ++ j :: slots LB) →
  (∀ k, k ∈ slots LA ++ j :: slots LB → (k < length pool)%nat) →
  ClassOk (released_pool pool j (slots LA) (slots LB)) (released_class c j (slots LA) (slots LB)) (LA ++ LB).
Proof.
  intros [_ _ Hhint Hd Hp] Hnd Hr. rewrite !slots_app in *. cbn [slots fmap list_fmap fst] in *.
  fold (slots LB) in *.
  assert (j ∉ slots LA ++ slots LB) as Hj.
  { rewrite <- Permutation_middle in Hnd. by apply NoDup_cons in Hnd as [? _]. }
  split; rewrite ?slots_app; try done.
  - cbn. case_bool_decide as Ej.
    + unfold after_flow. destruct (head (slots LB ++ slots LA)) as [h|] eqn:Eh.
      * apply head_Some_elem_of in Eh. set_solver.
      * apply head_None, app_nil in Eh as [E1%fmap_nil_inv E2%fmap_nil_inv]. by subst.
    + destruct (rr_hint c) as [h|] eqn:Eh; [|by destruct LA]. set_solver.
  - by apply released_dll.
  - rewrite (pids_frame _ pool).
    + rewrite fmap_app in *. cbn in Hp. rewrite <- Permutation_middle in Hp. by apply NoDup_cons in Hp as [_ ?].
    + intros k Hk. apply released_payload; [done|]. by intros ->.
Qed.

Lemma Rep_release s rq C i LA j LB :
  Rep s rq C → C !! i = Some (LA ++ (j, []) :: LB) →
  ∃ s', release_flow s i (Some j) = Ret s' ∧ Rep s' rq (<[i := LA ++ LB]> C) ∧
    class_state_ s' = <[i := released_class (class_state_ s !!! i) j (slots LA) (slots LB)]> (class_state_ s).
Proof.
  intros HR Hi. set (L := LA ++ (j, []) :: LB) in *.
  destruct (concat_insert C i L Hi) as (R & HC & HI).
  pose proof HR as [_ _ _ Hc Hf Hs Hu Hr Hn]. rewrite HC, ?slots_app, ?queued_app in *.
  pose proof (Hc i L Hi) as HcL. pose proof HcL as [Hh Ht _ Hd _].
  pose proof (rep_slots_class _ _ _ HR i L Hi) as Hnd.
  assert (∀ k, k ∈ slots L → (k < length (flow_pool_ s))%nat) as Hrange.
  { intros k. by apply (rep_slot_range _ _ _ HR i L). }
  assert (slots L = slots LA ++ j :: slots LB) as EL by (unfold L; by rewrite slots_app).
  assert (queued L = queued LA ++ queued LB) as EQ by (unfold L; by rewrite queued_app).
  rewrite EL in *. rewrite EQ in *.
  assert (NoDup (j :: slots LA ++ slots LB ++ slots R)) as Hs'.
  { rewrite <- app_assoc in Hs. cbn in Hs. by rewrite <- Permutation_middle in Hs. }
  apply NoDup_cons in Hs' as [Hj Hs'].
  exists (mkClock (<[i := released_class (class_state_ s !!! i) j (slots LA) (slots LB)]> (class_state_ s))
    (released_pool (flow_pool_ s) j (slots LA) (slots LB))). split_and!; [| |done].
  - eapply release_flow_runs; try done. apply list_lookup_lookup_total_lt.
    by eapply rep_class_range.
  - eapply (Rep_update s rq C i L R); try done; cbn [flow_pool_ class_state_];
      rewrite ?slots_app, ?queued_app, <- ?app_assoc in *; try done.
    + apply length_released.
    + intros k Hk. apply released_other. intros HkL.
      apply (NoDup_app_disjoint (slots LA ++ j :: slots LB) (slots R) k); [|done..]. by rewrite <- app_assoc.
    + by apply released_class_ok with [].
    + intros k q Hkq. eapply FlowOk_frame; [apply length_released| |done|apply (Hf i L k q Hi)].
      * apply released_payload; [done|]. intros ->. apply Hj. rewrite app_assoc, <- slots_app.
        apply elem_of_app. left. apply elem_of_slots. by exists q.
      * unfold L. in_list.
    + set_solver.
    + intros k Hk Hk'. destruct (decide (k = j)) as [->|Hkj]; [by rewrite released_self in Hk'|].
      pose proof (released_payload (flow_pool_ s) (slots LA) (slots LB) j Hrange k Hkj) as [= E _ _ _ _].
      rewrite E in Hk'. pose proof (Hu k Hk Hk') as Hin. rewrite HC, slots_app, EL in Hin.
      rewrite !elem_of_app, elem_of_cons in *. tauto.
Qed.

Lemma ClassOk_same pool pool' c L L' :
  slots L' = slots L →
  (∀ k, k ∈ slots L → (fnext (pool' !!! k), fprev (pool' !!! k), pid (pool' !!! k)) =
                      (fnext (pool !!! k), fprev (pool !!! k), pid (pool !!! k))) →
  ClassOk pool c L → ClassOk pool' c L'.
Proof.
  intros Es Hk [? ? Hh Hd Hp]. split; rewrite ?Es; try done.
  - destruct (rr_hint c); [done|]. subst. by apply fmap_nil_inv in Es.
  - eapply dll_frame; [|exact Hd]. intros k Hin. by injection (Hk k Hin) as -> -> _.
  - erewrite list_fmap_ext; [exact Hp|]. intros n k Hin. apply list_elem_of_lookup_2 in Hin.
    by injection (Hk k Hin) as _ _ ->.
Qed.

Lemma in_middle_slot (LA : flows) j q LB f :
  NoDup (slots LA ++ j :: slots LB) → f ∈ LA ++ (j, q) :: LB →
  f = (j, q) ∨ f.1 ≠ j ∧ f ∈ LA ++ LB.
Proof.
  intros Hnd Hf. destruct (decide (f = (j, q))) as [->|Hne]; [by left|]. right.
  assert (f ∈ LA ++ LB) as Hin by (rewrite !elem_of_app, elem_of_cons in *; tauto).
  split; [|done]. intros E. rewrite <- Permutation_middle, <- slots_app in Hnd.
  apply NoDup_cons in Hnd as [Hj _]. apply Hj, elem_of_slots. exists f.2. rewrite <- E. by destruct f.
Qed.

(** Replacing the queue of one flow. *)
Lemma Rep_queue s rq C i LA j q LB q' rq' f' nice :
  Rep s rq C → C !! i = Some (LA ++ (j, q) :: LB) →
  f' = with_nice (with_queue (flow_pool_ s !!! j) (hd nullptr q') (last_or nullptr q')) nice →
  qseg rq' q' nullptr → (∀ r, r ∈ q' → belongs (rq' !!! r) i (pid (flow_pool_ s !!! j))) →
  (∀ r, r ∈ queued (concat C) → r ∉ q → rq' !! r = rq !! r) →
  (∀ r, r ∈ q' → r ∈ q ∨ r ∉ queued (concat C)) → NoDup q' → nullptr ∉ q' →
  Rep (set_flow s j f') rq' (<[i := LA ++ (j, q') :: LB]> C).
Proof.
  intros HR Hi Ef Hseg Hown Hrq Hin Hndq Hnull. set (L := LA ++ (j, q) :: LB) in *.
  destruct (concat_insert C i L Hi) as (R & HC & HI).
  pose proof HR as [_ _ _ Hc Hf Hs Hu Hr Hn]. pose proof (Hc i L Hi) as HcL.
  assert ((j, q) ∈ L) as HjL by (unfold L; in_list).
  destruct (Hf i L j q Hi HjL) as [Hjr Hju Hjc _ _ _ _].
  assert (∀ k, flow_pool_ (set_flow s j f') !!! k = if bool_decide (k = j) then f' else flow_pool_ s !!! k) as Ek.
  { intros k. by apply lookup_total_insert_at. }
  assert (NoDup ((slots LA ++ j :: slots LB) ++ slots R)) as Hs2.
  { rewrite HC, slots_app in Hs. unfold L in Hs. by rewrite slots_app in Hs. }
  assert (queued (concat C) ≡ₚ q ++ queued LA ++ queued LB ++ queued R) as EQ.
  { rewrite HC, queued_app. unfold L. rewrite queued_app, queued_cons. solve_Permutation. }
  rewrite EQ in Hr. pose proof Hr as (_ & Hdis & Hr')%NoDup_app.
  assert (∀ r, r ∈ queued LA ++ queued LB ++ queued R → rq' !! r = rq !! r) as Hrq'.
  { intros r H. apply Hrq; [rewrite EQ; by apply elem_of_app; right|]. intros Hq. by apply (Hdis r). }
  eapply (Rep_update s rq C i L R _ _ _ (class_state_ s !!! i)); try done.
  - cbn. by rewrite list_insert_id by (apply list_lookup_lookup_total_lt; by eapply rep_class_range).
  - cbn. apply length_insert.
  - intros k Hk. cbn. apply list_lookup_insert_ne. intros ->.
    eapply (NoDup_app_disjoint _ _ k Hs2); [|done]. in_list.
  - intros r H. apply Hrq'. rewrite !elem_of_app. tauto.
  - eapply ClassOk_same; [| |exact HcL].
    + unfold L. by rewrite !slots_app.
    + intros k _. rewrite Ek, Ef. by case_bool_decide; subst.
  - intros k q0 Hk. assert ((k, q0) = (j, q') ∨ k ≠ j ∧ (k, q0) ∈ LA ++ LB) as [[= -> ->]|[Hkj Hk']].
    { apply (in_middle_slot LA j q' LB); [|done]. by apply NoDup_app in Hs2 as [? _]. }
    + split; rewrite ?Ek, ?bool_decide_eq_true_2, ?Ef by done; try done.
      cbn. by rewrite length_insert.
    + eapply FlowOk_frame; [cbn; apply length_insert| | |apply (Hf i L k q0 Hi)].
      * by rewrite Ek, bool_decide_eq_false_2.
      * intros r H. apply Hrq'. assert (r ∈ queued (LA ++ LB)) as H' by (apply elem_of_queued; eauto).
        rewrite queued_app in H'. rewrite !elem_of_app in *. tauto.
      * unfold L. in_list.
  - by rewrite slots_app.
  - rewrite queued_app, queued_cons. assert (queued LA ++ q' ++ queued LB ≡ₚ q' ++ queued LA ++ queued LB) as ->
      by solve_Permutation.
    rewrite <- !app_assoc. apply NoDup_app. split_and!; [done| |done].
    intros r H H'. destruct (Hin r H) as [Hq|Hq]; [by apply (Hdis r)|].
    apply Hq. rewrite EQ. by apply elem_of_app; right.
  - rewrite EQ in Hn. rewrite queued_app, queued_cons. rewrite !elem_of_app in *. tauto.
  - intros k Hk Hk'. rewrite slots_app. cbn. fold (slots LB).
    assert (in_use (flow_pool_ s !!! k) = true) as Huse.
    { rewrite Ek, Ef in Hk'. by case_bool_decide; subst. }
    pose proof (Hu k Hk Huse) as Hin'. rewrite HC, slots_app in Hin'. unfold L in Hin'.
    by rewrite slots_app in Hin'.
Qed.

End MClockOps.
