(* ===== verification/MClockCalls.v ===== *)
(** * The scheduler's calls on what it represents

    [enqueue] and the two ways [dequeue_next] selects a request, as changes of the
    represented classes. *)
From S2P Require Import Prelude IoSched MClock MClockRep MClockOps.
Import IoSched MClock MClockRep MClockOps.

Module MClockCalls.

(** ** Taking the head of a flow *)

(** The class after the head of flow [j] is taken: the flow goes when empty. *)
Definition keep (j : nat) (q : list ptr) : flows := match q with [] => [] | _ => [(j, q)] end.

Lemma rep_queue_null s rq C i L j q :
  Rep s rq C → C !! i = Some L → (j, q) ∈ L → nullptr ∉ q.
Proof.
  intros HR Hi Hq Hn. apply (r_null _ _ _ HR), elem_of_queued. exists j, q. split; [|done].
  apply elem_of_concat. eauto.
Qed.

Lemma rep_queue_nodup s rq C i L j q :
  Rep s rq C → C !! i = Some L → (j, q) ∈ L → NoDup q.
Proof.
  intros HR Hi Hq. destruct (concat_insert C i L Hi) as (R & HC & _).
  apply list_elem_of_split in Hq as (LA & LB & ->). pose proof (r_reqs _ _ _ HR) as H.
  rewrite HC, !queued_app, queued_cons in H. apply NoDup_app in H as [H _].
  apply NoDup_app in H as (_ & _ & H). by apply NoDup_app in H as [? _].
Qed.

Lemma hd_null (q : list ptr) : nullptr ∉ q → (hd nullptr q =? nullptr) = bool_decide (q = []).
Proof.
  intros H. destruct q as [|r q]; [done|]. rewrite bool_decide_eq_false_2 by done. cbn [hd].
  apply Z.eqb_neq. intros ->. apply H. by left.
Qed.

Lemma pop_flow_head_spec s rq C i LA j r q LB :
  Rep s rq C → C !! i = Some (LA ++ (j, r :: q) :: LB) →
  ∃ s', pop_flow_head s rq (Some j) = Ret (s', <[r := with_flow_next (rq !!! r) nullptr]> rq, r) ∧
    Rep s' (<[r := with_flow_next (rq !!! r) nullptr]> rq) (<[i := LA ++ (j, q) :: LB]> C) ∧
    class_state_ s' = class_state_ s.
Proof.
  intros HR Hi. set (L := LA ++ (j, r :: q) :: LB) in *.
  assert ((j, r :: q) ∈ L) as HjL by (unfold L; in_list).
  pose proof (rep_queue_null _ _ _ _ _ _ _ HR Hi HjL) as Hnull.
  pose proof (rep_queue_nodup _ _ _ _ _ _ _ HR Hi HjL) as Hnd.
  apply NoDup_cons in Hnd as [Hrq Hnd]. apply not_elem_of_cons in Hnull as [Hr0 Hnull].
  destruct (r_flow _ _ _ HR i L j _ Hi HjL) as [Hjr _ _ Hh Ht (Hx & Hn & Hseg) Hown].
  cbn [hd] in *. exists (set_flow s j (with_queue (flow_pool_ s !!! j) (hd nullptr q) (last_or nullptr q))).
  split_and!; [| |done].
  - unfold pop_flow_head. rewrite get_flow_spec by done. cbn [obind].
    rewrite Hh, (proj2 (Z.eqb_neq _ _)) by done. unfold get_request.
    destruct Hx as [x Hx]. rewrite lookup_total_alt, Hx in *. cbn [obind default from_option] in *.
    cbn in Hn |- *. rewrite Hn, hd_null, Ht by done. do 4 f_equal.
    by destruct q as [|r' q]; rewrite ?last_or_cons.
  - eapply (Rep_queue s rq C i LA j (r :: q) LB q _ _ (fs_nice (flow_pool_ s !!! j))); try done.
    + eapply qseg_frame; [|exact Hseg]. intros r' Hr'. apply lookup_insert_ne. by intros ->.
    + intros r' Hr'. rewrite lookup_total_insert_ne by (by intros ->). apply Hown. by right.
    + intros r' _ Hr'. apply lookup_insert_ne. intros ->. apply Hr'. by left.
    + intros r' Hr'. left. by right.
Qed.

Lemma next_flow_spec s c LA j q LB :
  ClassOk (flow_pool_ s) c (LA ++ (j, q) :: LB) → (j < length (flow_pool_ s))%nat →
  next_flow s c (Some j) = Ret (head (slots LB ++ slots LA ++ [j])).
Proof.
  intros [Hh _ _ Hd _] Hj. rewrite slots_app in Hh, Hd. cbn in Hh, Hd. fold (slots LB) in *.
  apply dll_app in Hd as [_ (_ & Hn & _)]. rewrite head_or_head in Hn.
  unfold next_flow. rewrite get_flow_spec by done. cbn [obind]. rewrite Hn, Hh.
  destruct (slots LB); destruct (slots LA); done.
Qed.

Definition hint_of (s : MClock) (i : nat) : option nat := rr_hint (class_state_ s !!! i).

(** The tags of the classes. *)
Definition tags (s : MClock) : list (Z * Z * Z) :=
  (λ c, (last_r_tag_us c, last_w_tag_us c, last_l_tag_us c)) <$> class_state_ s.

Lemma tags_insert s s' i c :
  class_state_ s' = <[i := c]> (class_state_ s) →
  (last_r_tag_us c, last_w_tag_us c, last_l_tag_us c) =
    (last_r_tag_us (class_state_ s !!! i), last_w_tag_us (class_state_ s !!! i),
     last_l_tag_us (class_state_ s !!! i)) →
  tags s' = tags s.
Proof.
  intros Es E. unfold tags. rewrite Es, list_fmap_insert, E.
  destruct (decide (i < length (class_state_ s))%nat) as [Hi|Hi].
  - apply list_insert_id. by rewrite list_lookup_fmap, list_lookup_lookup_total_lt.
  - apply list_insert_ge. rewrite length_fmap. lia.
Qed.

Lemma finish_flow_dispatch_spec s rq C i LA j q LB :
  Rep s rq C → C !! i = Some (LA ++ (j, q) :: LB) →
  ∃ s', finish_flow_dispatch s (Some j) = Ret s' ∧
    Rep s' rq (<[i := LA ++ keep j q ++ LB]> C) ∧
    hint_of s' i = head (slots (LB ++ LA ++ keep j q)) ∧ tags s' = tags s ∧
    (∀ k, k ≠ i → class_state_ s' !!! k = class_state_ s !!! k).
Proof.
  intros HR Hi. set (L := LA ++ (j, q) :: LB) in *.
  assert ((j, q) ∈ L) as HjL by (unfold L; in_list).
  pose proof (rep_queue_null _ _ _ _ _ _ _ HR Hi HjL) as Hnull.
  destruct (r_flow _ _ _ HR i L j _ Hi HjL) as [Hjr _ Hc Hh _ _ _].
  pose proof (r_class _ _ _ HR i L Hi) as HcL.
  pose proof (rep_class_range _ _ _ HR i L Hi) as Hir.
  unfold finish_flow_dispatch. rewrite get_flow_spec by done. cbn [obind]. rewrite Hc, Nat2Z.id.
  rewrite get_class_spec by done. cbn [obind]. rewrite (next_flow_spec s _ LA j q LB) by done. cbn [obind].
  set (h := head (slots LB ++ slots LA ++ [j])).
  set (s1 := set_class s i (with_hint (class_state_ s !!! i) h)).
  assert (Rep s1 rq C) as HR1.
  { eapply Rep_set_class; [done..|]. destruct HcL as [H1 H2 _ H4 H5]. split; try done.
    cbn. destruct h as [k|] eqn:Ek; subst h.
    - apply head_Some_elem_of in Ek. unfold L. rewrite slots_app. cbn. fold (slots LB).
      clear -Ek. set_solver.
    - by destruct (slots LB); destruct (slots LA). }
  assert (tags s1 = tags s) as Et1.
  { by eapply tags_insert. }
  assert (class_state_ s1 !!! i = with_hint (class_state_ s !!! i) h) as Ec1.
  { by apply list_lookup_total_insert_eq. }
  rewrite Hh, hd_null by done. case_bool_decide as Eq.
  - subst q. destruct (Rep_release s1 rq C i LA j LB HR1 Hi) as (s' & -> & HR' & Ecs).
    exists s'. unfold hint_of. rewrite Ecs, Ec1. split_and!; [done|done| | |].
    + rewrite list_lookup_total_insert_eq by (unfold s1; cbn; by rewrite length_insert). cbn.
      rewrite app_nil_r, slots_app. unfold h, after_flow.
      destruct (slots LB) as [|b B], (slots LA) as [|a A]; cbn; try by case_bool_decide.
      all: case_bool_decide as E; [|done]. all: by simplify_eq.
    + rewrite <- Et1. eapply tags_insert; [exact Ecs|done].
    + intros k Hk. rewrite list_lookup_total_insert_ne by done. by apply list_lookup_total_insert_ne.
  - exists s1. split_and!; [done| | |done|].
    + replace (LA ++ keep j q ++ LB) with L by (unfold L; by destruct q). by rewrite list_insert_id.
    + unfold hint_of. rewrite Ec1. cbn. unfold h. destruct q; [done|]. by rewrite !slots_app.
    + intros k Hk. by apply list_lookup_total_insert_ne.
Qed.

(** Dispatching the head of flow [j] of class [i]. *)
Lemma dispatch_spec s rq C i LA j r q LB :
  Rep s rq C → C !! i = Some (LA ++ (j, r :: q) :: LB) →
  ∃ s' rq', dispatch s rq (Some j) r = Ret (s', rq', mkDecision r 0) ∧
    rq' = <[r := with_flow_next (rq !!! r) nullptr]> rq ∧
    Rep s' rq' (<[i := LA ++ keep j q ++ LB]> C) ∧
    hint_of s' i = head (slots (LB ++ LA ++ keep j q)) ∧ tags s' = tags s.
Proof.
  intros HR Hi. destruct (pop_flow_head_spec _ _ _ _ _ _ _ _ _ HR Hi) as (s1 & E1 & HR1 & Ecs).
  assert (<[i := LA ++ (j, q) :: LB]> C !! i = Some (LA ++ (j, q) :: LB)) as Hi1.
  { apply list_lookup_insert_eq. by eapply lookup_lt_Some. }
  destruct (finish_flow_dispatch_spec _ _ _ _ _ _ _ _ HR1 Hi1) as (s2 & E2 & HR2 & Hh & Ht & _).
  exists s2, (<[r := with_flow_next (rq !!! r) nullptr]> rq). unfold dispatch. rewrite E1. cbn [obind].
  rewrite Z.eqb_refl. cbn [negb]. rewrite E2. cbn [obind]. rewrite list_insert_insert_eq in HR2.
  split_and!; [done..|]. rewrite Ht. unfold tags. by rewrite Ecs.
Qed.

(** ** Finding a flow *)

Lemma free_slot s rq C :
  Rep s rq C → (length (concat C) < k_max_flows)%nat →
  ∃ j f, list_find (λ f, in_use f = false) (flow_pool_ s) = Some (j, f) ∧
    (j < k_max_flows)%nat ∧ in_use (flow_pool_ s !!! j) = false.
Proof.
  intros HR Hlt. destruct (list_find _ _) as [[j f]|] eqn:E.
  - exists j, f. apply list_find_Some in E as (Hj & Hf & _). split; [done|].
    rewrite <- (r_pool _ _ _ HR). split; [by eapply lookup_lt_Some|].
    by rewrite list_lookup_total_alt, Hj.
  - exfalso. apply list_find_None in E. rewrite Forall_lookup in E.
    assert (seq 0 k_max_flows ⊆+ slots (concat C)) as Hsub.
    { apply NoDup_submseteq; [apply NoDup_seq|]. intros j [_ Hj]%elem_of_seq. apply (r_used _ _ _ HR); [lia|].
      rewrite <- (r_pool _ _ _ HR) in Hj. apply list_lookup_lookup_total_lt in Hj.
      apply not_false_is_true. by eapply E. }
    apply submseteq_length in Hsub. unfold slots in Hsub. rewrite length_seq, length_fmap in Hsub. lia.
Qed.

(** What [find_or_alloc_flow] does to the class: nothing, or a new flow at its end. *)
Definition located (L LA : flows) (j : nat) (q : list ptr) (LB : flows) : Prop :=
  L = LA ++ (j, q) :: LB ∨ (L = LA ∧ q = [] ∧ LB = []).

Lemma find_or_alloc_flow_spec s rq C i L p nice :
  Rep s rq C → C !! i = Some L → (length (concat C) < k_max_flows)%nat →
  ∃ s' LA j q LB, find_or_alloc_flow s i p nice = Ret (s', j) ∧
    Rep s' rq (<[i := LA ++ (j, q) :: LB]> C) ∧ located L LA j q LB ∧
    pid (flow_pool_ s' !!! j) = p ∧ tags s' = tags s ∧
    (L = LA → ∀ k, k ∈ slots L → pid (flow_pool_ s !!! k) ≠ p).
Proof.
  intros HR Hi Hlt. pose proof (r_class _ _ _ HR i L Hi) as HcL. pose proof HcL as [Hh _ _ Hd _].
  unfold find_or_alloc_flow. rewrite get_class_spec by (by eapply rep_class_range). cbn [obind].
  destruct (find_flow_spec s (slots L) p (flow_fuel s) None Hd) as (res & Eres & Hres).
  { intros j. by eapply rep_slot_range. }
  { pose proof (rep_class_bound _ _ _ HR i L Hi). unfold flow_fuel, slots.
    rewrite (r_pool _ _ _ HR), length_fmap. lia. }
  rewrite <- Hh in Eres. rewrite Eres. cbn [obind]. destruct res as [j|].
  - destruct Hres as [Hj Hp]. rewrite get_flow_spec by (by eapply rep_slot_range). cbn [obind].
    apply elem_of_slots in Hj as [q Hq]. pose proof (r_flow _ _ _ HR i L j q Hi Hq) as [Hjr _ _ Hfh Hft Hseg Hown].
    pose proof (rep_queue_nodup _ _ _ _ _ _ _ HR Hi Hq) as Hnd.
    pose proof (rep_queue_null _ _ _ _ _ _ _ HR Hi Hq) as Hnull.
    apply list_elem_of_split in Hq as (LA & LB & ->).
    eexists _, LA, j, q, LB. split_and!; [done| |by left| |done|].
    + eapply (Rep_queue s rq C i LA j q LB q rq _ nice); try done; [|by left].
      rewrite <- Hfh, <- Hft. by destruct (flow_pool_ s !!! j).
    + cbn. by rewrite list_lookup_total_insert_eq.
    + intros E%(f_equal length). rewrite length_app in E. cbn in E. lia.
  - destruct (free_slot s rq C HR Hlt) as (j & f & -> & Hj & Hfree).
    pose proof (Rep_append s rq C i L j p nice HR Hi Hj Hfree Hres) as HR'.
    assert (in_pool (<[j := new_flow (class_state_ s !!! i) i p nice]> (flow_pool_ s))
      (flow_tail (class_state_ s !!! i))) as Hin.
    { rewrite (co_tail _ _ _ HcL). apply in_pool_last. intros k Hk. rewrite length_insert.
      by eapply rep_slot_range. }
    fold (new_flow (class_state_ s !!! i) i p nice).
    rewrite on_flow_next by done. cbn [obind].
    eexists _, L, j, [], []. split_and!; [reflexivity|exact HR'|by right| | |done].
    + pose proof (payload_link_next _ _ (Some j) j Hin) as E.
      rewrite list_lookup_total_insert_eq in E by (rewrite (r_pool _ _ _ HR); lia).
      injection E as _ E' _ _ _. exact E'.
    + eapply (tags_insert s _ i); [reflexivity|]. cbn. by destruct (rr_hint _).
Qed.

(** ** Enqueueing *)

Lemma nice_class_range nice : 0 ≤ nice_to_service_class nice < 8.
Proof.
  unfold nice_to_service_class, highest_proc_prio, lowest_proc_prio, k_class_count.
  assert (∀ c, -20 ≤ c ≤ 19 → 0 ≤ Z.quot (c - -20) 5 < 8) as Hc.
  { intros c Hc. split; [apply Z.quot_pos; lia|apply Z.quot_lt_upper_bound; lia]. }
  pose proof (Hc (-20)). pose proof (Hc 19). pose proof (Hc nice).
  repeat case_test; lia.
Qed.

Lemma class_unlimited i : (i < 8)%nat → k_class_limit_bps !!! i = k_unlimited_bps.
Proof. intros Hi. apply lookup_total_replicate_2. exact Hi. Qed.

(** The same request, wherever it is queued. *)
Definition same_request (x y : IoRequest) : Prop := with_flow_next x nullptr = with_flow_next y nullptr.

Lemma qseg_snoc rq l e r x :
  qseg rq l e → NoDup l → r ∉ l → rq !! r = Some x → flow_next x = nullptr → l ≠ [] → 
  qseg (<[last_or nullptr l := with_flow_next (rq !!! last_or nullptr l) r]> rq) (l ++ [r]) nullptr.
Proof.
  intros Hq Hnd Hr Hx Hn Hl. destruct l as [|t l _] using rev_ind; [done|]. clear Hl.
  rewrite last_or_snoc. apply NoDup_app in Hnd as (_ & Hd & _). apply qseg_app in Hq as [Hq [Ht _]].
  assert (r ≠ t ∧ r ∉ l) as [Hrt _] by set_solver.
  rewrite <- app_assoc. apply qseg_app. split.
  - eapply qseg_frame; [|exact Hq]. intros k Hk. apply lookup_insert_ne. intros ->. apply (Hd k Hk). by left.
  - cbn. rewrite lookup_insert_eq, lookup_total_insert_eq. split_and!; [done|done| | |done].
    + by rewrite lookup_insert_ne, Hx.
    + rewrite lookup_total_insert_ne by done. by rewrite lookup_total_alt, Hx.
Qed.

Definition scheduled (x : IoRequest) (s : MClock) (now_us : Z) : IoRequest :=
  let c := nice_to_service_class (submit_nice x) in
  let cs := class_state_ s !!! Z.to_nat c in
  with_schedule x c now_us (Z.max (last_r_tag_us cs) now_us) (Z.max (last_w_tag_us cs) now_us) now_us.

Lemma qseg_dom rq l e r : qseg rq l e → r ∈ l → is_Some (rq !! r).
Proof.
  induction l as [|k l IH]; intros Hq Hr; [by apply not_elem_of_nil in Hr|]. destruct Hq as (Hk & _ & Hq).
  apply elem_of_cons in Hr as [->|Hr]; [done|by apply IH].
Qed.

#[export] Instance same_request_equiv : Equivalence same_request.
Proof. split; [by intros ?|by intros ?? ?|]. intros ??? H1 H2. by etrans. Qed.

Lemma same_belongs x y i p : same_request x y → belongs x i p → belongs y i p.
Proof.
  intros E. assert (submit_pid x = submit_pid y ∧ submit_nice x = submit_nice y ∧
    service_class x = service_class y) as (E1 & E2 & E3) by (by injection E).
  unfold belongs. by rewrite E1, E2, E3.
Qed.

(** A flow whose queue got one request more at its end, however the links of the
    requests were changed for it. *)
Lemma Rep_push s rq C i LA j q LB r x' rq' :
  Rep s rq C → C !! i = Some (LA ++ (j, q) :: LB) →
  r ∉ queued (concat C) → r ≠ nullptr → belongs x' i (pid (flow_pool_ s !!! j)) →
  qseg rq' (q ++ [r]) nullptr → rq' !! r = Some x' →
  (∀ k, k ≠ r → same_request (rq' !!! k) (rq !!! k)) → (∀ k, k ≠ r → k ∉ q → rq' !! k = rq !! k) →
  Rep (set_flow s j (with_queue (flow_pool_ s !!! j) (hd nullptr (q ++ [r])) r)) rq'
    (<[i := LA ++ (j, q ++ [r]) :: LB]> C).
Proof.
  intros HR Hi Hr Hr0 Hb Hseg' Hr' Hsame Hrq'. set (L := LA ++ (j, q) :: LB) in *.
  assert ((j, q) ∈ L) as HjL by (unfold L; in_list).
  pose proof (rep_queue_null _ _ _ _ _ _ _ HR Hi HjL) as Hnull.
  pose proof (rep_queue_nodup _ _ _ _ _ _ _ HR Hi HjL) as Hnd.
  destruct (r_flow _ _ _ HR i L j _ Hi HjL) as [Hjr _ _ Hh Ht Hseg Hown].
  assert (r ∉ q) as Hrq.
  { intros H. apply Hr, elem_of_queued. exists j, q. split; [|done]. apply elem_of_concat. eauto. }
  eapply (Rep_queue s rq C i LA j q LB (q ++ [r]) rq' _ (fs_nice (flow_pool_ s !!! j))); try done.
  - by rewrite last_or_snoc.
  - intros k Hk. destruct (decide (k = r)) as [->|Hkr]; [by rewrite lookup_total_alt, Hr'|].
    eapply same_belongs; [by symmetry; apply Hsame|]. apply Hown. set_solver.
  - intros k Hk Hkq. apply Hrq'; [by intros ->|done].
  - intros k Hk. apply elem_of_app in Hk as [Hk|Hk]; [by left|]. apply list_elem_of_singleton in Hk as ->. by right.
  - apply NoDup_app. split_and!; [done| |apply NoDup_singleton]. intros k Hk Hkr. by apply list_elem_of_singleton in Hkr as ->.
  - rewrite elem_of_app, list_elem_of_singleton. naive_solver.
Qed.

Lemma push_request s rq C i LA j q LB r x' :
  Rep s rq C → C !! i = Some (LA ++ (j, q) :: LB) →
  r ∉ queued (concat C) → r ≠ nullptr → flow_next x' = nullptr → belongs x' i (pid (flow_pool_ s !!! j)) →
  let rq1 := <[r := x']> rq in
  ∃ s' rq', (let! f := get_flow s j in
      if ftail f =? nullptr then Ret (set_flow s j (with_queue f r r), rq1)
      else let! t := get_request rq1 (ftail f) in
        Ret (set_flow s j (with_queue f (fhead f) r), <[ftail f := with_flow_next t r]> rq1)) = Ret (s', rq') ∧
    Rep s' rq' (<[i := LA ++ (j, q ++ [r]) :: LB]> C) ∧ rq' !! r = Some x' ∧
    (∀ k, k ≠ r → same_request (rq' !!! k) (rq !!! k)) ∧
    (∀ k, k ≠ r → k ∉ q → rq' !! k = rq !! k) ∧ dom rq' = {[r]} ∪ dom rq.
Proof.
  intros HR Hi Hr Hr0 Hn Hb rq1. set (L := LA ++ (j, q) :: LB) in *.
  assert ((j, q) ∈ L) as HjL by (unfold L; in_list).
  pose proof (rep_queue_null _ _ _ _ _ _ _ HR Hi HjL) as Hnull.
  pose proof (rep_queue_nodup _ _ _ _ _ _ _ HR Hi HjL) as Hnd.
  destruct (r_flow _ _ _ HR i L j _ Hi HjL) as [Hjr _ _ Hh Ht Hseg Hown].
  assert (r ∉ q) as Hrq.
  { intros H. apply Hr, elem_of_queued. exists j, q. split; [|done]. apply elem_of_concat. eauto. }
  rewrite get_flow_spec by done. cbn [obind]. rewrite Ht, Hh.
  pose proof (λ rq', Rep_push s rq C i LA j q LB r x' rq' HR Hi Hr Hr0 Hb) as Hfin.
  assert (∀ k, k ≠ r → rq1 !! k = rq !! k) as Hrq1 by (intros; by apply lookup_insert_ne).
  assert (qseg rq1 q nullptr) as Hseg1.
  { eapply qseg_frame; [|exact Hseg]. intros k Hk. apply Hrq1. by intros ->. }
  assert (rq1 !! r = Some x') as Hx1 by apply lookup_insert_eq.
  destruct q as [|q0 qs].
  - eexists _, rq1. split_and!; [done| |done| |by intros; apply Hrq1|apply dom_insert_L].
    + apply (Hfin rq1); [|done| |by intros; apply Hrq1].
      * cbn. rewrite lookup_total_alt, Hx1. done.
      * intros k Hk. by rewrite lookup_total_alt, Hrq1, <- lookup_total_alt.
    + intros k Hk. by rewrite lookup_total_alt, Hrq1, <- lookup_total_alt.
  - remember (q0 :: qs) as q eqn:Eq. assert (q ≠ []) as Hq by (by subst).
    assert (last_or nullptr q ∈ q) as Htq.
    { subst q. rewrite last_or_cons. unfold last_or. destruct (last qs) eqn:El; cbn; [|by left].
      right. by apply last_Some_elem_of. }
    assert (last_or nullptr q ≠ r) as Htr by (by intros E; rewrite E in Htq).
    assert (is_Some (rq1 !! last_or nullptr q)) as [t Hts] by (by eapply qseg_dom).
    rewrite (proj2 (Z.eqb_neq _ _)) by (intros E; by rewrite E in Htq).
    unfold get_request. rewrite Hts. cbn [obind].
    assert (∀ k, k ≠ r → same_request (<[last_or nullptr q := with_flow_next t r]> rq1 !!! k) (rq !!! k)) as Hsame.
    { intros k Hk. destruct (decide (k = last_or nullptr q)) as [->|Hk'].
      - rewrite lookup_total_insert_eq. rewrite (lookup_total_alt rq), <- Hrq1, Hts by done. done.
      - by rewrite lookup_total_insert_ne, lookup_total_alt, Hrq1, <- lookup_total_alt. }
    assert (∀ k, k ≠ r → k ∉ q → <[last_or nullptr q := with_flow_next t r]> rq1 !! k = rq !! k) as Hout.
    { intros k Hk Hkq. rewrite lookup_insert_ne by (by intros <-). by apply Hrq1. }
    eexists _, _. split_and!; [reflexivity| | |done|done|].
    + replace (hd nullptr q) with (hd nullptr (q ++ [r])) by (by subst q). apply Hfin; [| |done|done].
      * pose proof (qseg_snoc rq1 q nullptr r x' Hseg1 Hnd Hrq Hx1 Hn Hq) as H.
        by rewrite (lookup_total_alt rq1), Hts in H.
      * by rewrite lookup_insert_ne.
    + by rewrite lookup_insert_ne.
    + rewrite dom_insert_L. unfold rq1. rewrite dom_insert_L. apply elem_of_dom_2 in Hts.
      unfold rq1 in Hts. rewrite dom_insert_L in Hts. set_solver.
Qed.

Lemma tags_at s s' i :
  tags s' = tags s → (i < length (class_state_ s))%nat →
  last_r_tag_us (class_state_ s' !!! i) = last_r_tag_us (class_state_ s !!! i) ∧
  last_w_tag_us (class_state_ s' !!! i) = last_w_tag_us (class_state_ s !!! i).
Proof.
  intros E Hi. assert (length (class_state_ s') = length (class_state_ s)) as El.
  { apply (f_equal length) in E. unfold tags in E. by rewrite !length_fmap in E. }
  pose proof (f_equal (.!! i) E) as Ei. cbn in Ei. unfold tags in Ei. rewrite !list_lookup_fmap in Ei.
  rewrite !list_lookup_lookup_total_lt in Ei by lia. cbn in Ei. by simplify_eq.
Qed.

Lemma enqueue_spec s rq C r x now_us ewma_bps :
  Rep s rq C → rq !! r = Some x → r ∉ queued (concat C) → r ≠ nullptr →
  (length (concat C) < k_max_flows)%nat →
  let i := Z.to_nat (nice_to_service_class (submit_nice x)) in
  ∃ s' rq' L LA j q LB, enqueue s rq r now_us ewma_bps = Ret (s', rq') ∧
    C !! i = Some L ∧ located L LA j q LB ∧
    (L = LA → ∀ k, k ∈ slots L → pid (flow_pool_ s !!! k) ≠ submit_pid x) ∧
    Rep s' rq' (<[i := LA ++ (j, q ++ [r]) :: LB]> C) ∧
    rq' !! r = Some (scheduled x s now_us) ∧
    (∀ k, k ≠ r → same_request (rq' !!! k) (rq !!! k)) ∧
    (∀ k, k ≠ r → k ∉ queued (concat C) → rq' !! k = rq !! k) ∧ dom rq' = dom rq.
Proof.
  intros HR Hx Hr Hr0 Hlt i. pose proof (nice_class_range (submit_nice x)) as Hi8.
  assert (i < 8)%nat as Hi by (unfold i; lia).
  destruct (lookup_lt_is_Some_2 C i) as [L HL]; [by rewrite (r_classes _ _ _ HR)|].
  pose proof (rep_class_range _ _ _ HR i L HL) as Hir.
  destruct (find_or_alloc_flow_spec s rq C i L (submit_pid x) (submit_nice x) HR HL Hlt)
    as (s1 & LA & j & q & LB & E1 & HR1 & Hloc & Hpid & Et & Hnew).
  set (C1 := <[i := LA ++ (j, q) :: LB]> C) in *.
  assert (C1 !! i = Some (LA ++ (j, q) :: LB)) as HC1
    by (apply list_lookup_insert_eq; by eapply lookup_lt_Some).
  assert (r ∉ queued (concat C1)) as Hr1.
  { destruct (concat_insert C i L HL) as (R & HC & HI). unfold C1. rewrite HI, queued_app.
    rewrite HC, queued_app in Hr. destruct Hloc as [->|(-> & -> & ->)]; [done|].
    by rewrite queued_app, app_nil_r. }
  unfold enqueue, get_request. rewrite Hx. cbn [obind]. fold i. rewrite E1. cbn [obind].
  pose proof (rep_class_range _ _ _ HR1 i _ HC1) as Hir1.
  rewrite get_class_spec by done. cbn [obind]. rewrite class_unlimited, Z.eqb_refl by done.
  destruct (tags_at s s1 i Et Hir) as [-> ->].
  set (c := class_state_ s !!! i).
  assert (∀ a, (if now_us <? a then a else now_us) = Z.max a now_us) as Emax by (intros; case_test; lia).
  rewrite !Emax. set (lr := u64 _). set (lw := u64 _).
  set (s2 := set_class s1 i _).
  assert (Rep s2 rq C1) as HR2.
  { eapply Rep_set_class; [done|exact HC1|]. by destruct (r_class _ _ _ HR1 i _ HC1). }
  destruct (push_request s2 rq C1 i LA j q LB r (scheduled x s now_us) HR2 HC1 Hr1 Hr0)
    as (s' & rq' & E2 & HR' & Hr' & Hsame & Hout & Hdom); [done| |].
  { unfold belongs. cbn. rewrite Hpid. unfold i. by rewrite Z2Nat.id by lia. }
  exists s', rq', L, LA, j, q, LB. split_and!; try done.
  - unfold C1 in HR'. by rewrite list_insert_insert_eq in HR'.
  - intros k Hk Hkq. apply Hout; [done|]. destruct Hloc as [->|(_ & -> & _)]; [|apply not_elem_of_nil].
    intros Hq. apply Hkq, elem_of_queued. exists j, q. split; [|done]. apply elem_of_concat.
    exists i, (LA ++ (j, q) :: LB). split; [done|]. in_list.
  - rewrite Hdom. apply elem_of_dom_2 in Hx. set_solver.
Qed.

End MClockCalls.
