(* ===== verification/MClockPick.v ===== *)
(** * Which request the scheduler picks

    [pick_locked] goes over the head of every flow and keeps the best reserved
    and the best shared candidate. *)
From S2P Require Import Prelude IoSched MClock MClockRep MClockOps MClockCalls.
Import IoSched MClock MClockRep MClockOps MClockCalls.

Module MClockPick.

(** ** The three states of a candidate *)

(** Over its limit; due for its class's reservation; or sharing by weight. *)
Definition blocked (now : Z) (x : IoRequest) : Prop := now < l_tag_us x.
Definition reserved (now : Z) (x : IoRequest) : Prop := l_tag_us x ≤ now ∧ r_tag_us x ≤ now.
Definition shared (now : Z) (x : IoRequest) : Prop := l_tag_us x ≤ now ∧ now < r_tag_us x.

(** Smaller first tag, or same first and not larger second. *)
Definition lex_le (a b c d : Z) : Prop := a < c ∨ a = c ∧ b ≤ d.
Definition by_reservation (x y : IoRequest) : Prop :=
  lex_le (r_tag_us x) (w_tag_us x) (r_tag_us y) (w_tag_us y).
Definition by_weight (x y : IoRequest) : Prop :=
  lex_le (w_tag_us x) (r_tag_us x) (w_tag_us y) (r_tag_us y).

(** [r], the head of flow [o], is the best of the candidates [seen] in state [P]. *)
Definition best_of (rq : requests) (P : IoRequest → Prop) (le : IoRequest → IoRequest → Prop)
    (seen : list (nat * ptr)) (r : ptr) (o : option nat) : Prop :=
  if bool_decide (r = nullptr) then ∀ f, f ∈ seen → ¬ P (rq !!! f.2)
  else ∃ j, o = Some j ∧ (j, r) ∈ seen ∧ P (rq !!! r) ∧
    ∀ f, f ∈ seen → P (rq !!! f.2) → le (rq !!! r) (rq !!! f.2).

Record PickOk (rq : requests) (now : Z) (seen : list (nat * ptr)) (pick : PickState) : Prop := {
  po_reserved : best_of rq (reserved now) by_reservation seen (best_reservation pick) (best_reservation_flow pick);
  po_shared : best_of rq (shared now) by_weight seen (best_weight pick) (best_weight_flow pick);
  po_gate : ∀ f, f ∈ seen → blocked now (rq !!! f.2) → earliest_gate pick ≤ l_tag_us (rq !!! f.2);
  po_gate_of : earliest_gate pick = UINT64_MAX ∨
    ∃ f, f ∈ seen ∧ blocked now (rq !!! f.2) ∧ earliest_gate pick = l_tag_us (rq !!! f.2)
}.

Lemma best_of_skip rq P le seen r o f :
  ¬ P (rq !!! f.2) → best_of rq P le seen r o → best_of rq P le (seen ++ [f]) r o.
Proof.
  unfold best_of. intros Hf. case_bool_decide.
  - intros H' g Hg. apply elem_of_app in Hg as [Hg|Hg]; [by apply H'|].
    by apply list_elem_of_singleton in Hg as ->.
  - intros (j & -> & Hj & HP & Hle). exists j. split_and!; [done|set_solver|done|].
    intros g Hg HPg. apply elem_of_app in Hg as [Hg|Hg]; [by apply Hle|].
    by apply list_elem_of_singleton in Hg as ->.
Qed.

(** A further candidate in state [P] is kept exactly if it beats the best so far. *)
Lemma best_of_step rq P le seen r o j k (keep_old : bool) :
  (∀ x, le x x) → (∀ x y z, le x y → le y z → le x z) → P (rq !!! k) → k ≠ nullptr →
  best_of rq P le seen r o →
  (if keep_old then r ≠ nullptr ∧ le (rq !!! r) (rq !!! k)
   else r ≠ nullptr → le (rq !!! k) (rq !!! r)) →
  best_of rq P le (seen ++ [(j, k)]) (if keep_old then r else k) (if keep_old then o else Some j).
Proof.
  intros Hrefl Htrans HP Hk Hb Hcmp. unfold best_of in *. destruct keep_old.
  - destruct Hcmp as [Hr Hle]. rewrite !bool_decide_eq_false_2 in * by done.
    destruct Hb as (i & -> & Hi & HPr & Hall). exists i. split_and!; [done|set_solver|done|].
    intros g Hg HPg. apply elem_of_app in Hg as [Hg|Hg]; [by apply Hall|].
    by apply list_elem_of_singleton in Hg as ->.
  - rewrite (bool_decide_eq_false_2 (k = nullptr)) by done. exists j. split_and!; [done|set_solver|done|].
    intros g Hg HPg. apply elem_of_app in Hg as [Hg|Hg]; [|apply list_elem_of_singleton in Hg as ->; apply Hrefl].
    case_bool_decide as Hr; [by destruct (Hb g Hg)|]. destruct Hb as (i & _ & _ & _ & Hall).
    eapply Htrans; [by apply Hcmp|by apply Hall].
Qed.

Lemma lex_refl a b : lex_le a b a b.
Proof. unfold lex_le. lia. Qed.

Lemma lex_trans a b c d e f : lex_le a b c d → lex_le c d e f → lex_le a b e f.
Proof. unfold lex_le. lia. Qed.

(** The code's comparison: the candidate is strictly better. *)
Lemma lex_test a b c d :
  (if (a <? c) || ((a =? c) && (b <? d)) then lex_le a b c d else lex_le c d a b).
Proof.
  unfold lex_le. destruct (Z.ltb_spec a c); cbn; [lia|]. destruct (Z.eqb_spec a c); cbn; [|lia].
  destruct (Z.ltb_spec b d); lia.
Qed.

Lemma get_request_total rq r : is_Some (rq !! r) → get_request rq r = Ret (rq !!! r).
Proof. intros [x Hx]. unfold get_request. rewrite Hx. by rewrite lookup_total_alt, Hx. Qed.

Lemma best_of_dom rq P le seen r o :
  best_of rq P le seen r o → (∀ f, f ∈ seen → is_Some (rq !! f.2)) → r ≠ nullptr → is_Some (rq !! r).
Proof.
  intros Hb Hs Hr. unfold best_of in Hb. rewrite bool_decide_eq_false_2 in Hb by done.
  destruct Hb as (j & _ & Hj & _). by apply (Hs (j, r)).
Qed.

Lemma consider_ok rq now j r seen pick :
  PickOk rq now seen pick → (∀ f, f ∈ seen → is_Some (rq !! f.2)) → is_Some (rq !! r) → r ≠ nullptr →
  ∃ pick', consider rq now j r pick = Ret pick' ∧ PickOk rq now (seen ++ [(j, r)]) pick'.
Proof.
  intros [H1 H2 H3 H4] Hs Hr Hr0. unfold consider. rewrite get_request_total by done. cbn [obind].
  assert (¬ blocked now (rq !!! r) →
    (∀ f, f ∈ seen ++ [(j, r)] → blocked now (rq !!! f.2) → earliest_gate pick ≤ l_tag_us (rq !!! f.2)) ∧
    (earliest_gate pick = UINT64_MAX ∨ ∃ f, f ∈ seen ++ [(j, r)] ∧ blocked now (rq !!! f.2) ∧
      earliest_gate pick = l_tag_us (rq !!! f.2))) as Hgate.
  { intros Hb. split.
    - intros f Hf. apply elem_of_app in Hf as [Hf|Hf]; [by apply H3|]. by apply list_elem_of_singleton in Hf as ->.
    - destruct H4 as [->|(f & Hf & H4)]; [by left|]. right. exists f. split; [set_solver|done]. }
  destruct (Z.ltb_spec now (l_tag_us (rq !!! r))) as [Hl|Hl].
  - eexists. split; [reflexivity|].
    assert (best_of rq (reserved now) by_reservation (seen ++ [(j, r)]) (best_reservation pick)
      (best_reservation_flow pick)) by (apply best_of_skip; [unfold reserved; cbn; lia|done]).
    assert (best_of rq (shared now) by_weight (seen ++ [(j, r)]) (best_weight pick) (best_weight_flow pick))
      by (apply best_of_skip; [unfold shared; cbn; lia|done]).
    destruct (Z.ltb_spec (l_tag_us (rq !!! r)) (earliest_gate pick)); split; try done; cbn [earliest_gate].
    + intros f Hf Hb. apply elem_of_app in Hf as [Hf|Hf]; [|by apply list_elem_of_singleton in Hf as ->].
      pose proof (H3 f Hf Hb). lia.
    + right. exists (j, r). split; [set_solver|done].
    + intros f Hf Hb. apply elem_of_app in Hf as [Hf|Hf]; [by apply H3|].
      by apply list_elem_of_singleton in Hf as ->.
    + destruct H4 as [->|(f & Hf & H4)]; [by left|]. right. exists f. split; [set_solver|done].
  - destruct Hgate as [Hg1 Hg2]; [unfold blocked; lia|].
    destruct (Z.leb_spec (r_tag_us (rq !!! r)) now) as [Hrt|Hrt].
    + assert (best_of rq (shared now) by_weight (seen ++ [(j, r)]) (best_weight pick) (best_weight_flow pick))
        by (apply best_of_skip; [unfold shared; cbn; lia|done]).
      assert (reserved now (rq !!! r)) as HP by (unfold reserved; lia).
      pose proof (λ keep, best_of_step rq (reserved now) by_reservation seen _ _ j r keep
        (λ x, lex_refl _ _) (λ x y z, lex_trans _ _ _ _ _ _) HP Hr0 H1) as Hstep.
      destruct (Z.eqb_spec (best_reservation pick) nullptr) as [E|E].
      * eexists. split; [reflexivity|]. split; try done. by apply (Hstep false).
      * rewrite get_request_total by (by eapply best_of_dom). cbn [obind]. eexists. split; [reflexivity|].
        pose proof (lex_test (r_tag_us (rq !!! r)) (w_tag_us (rq !!! r))
          (r_tag_us (rq !!! best_reservation pick)) (w_tag_us (rq !!! best_reservation pick))) as Ht.
        destruct (_ || _); split; try done; [by apply (Hstep false)|by apply (Hstep true)].
    + assert (best_of rq (reserved now) by_reservation (seen ++ [(j, r)]) (best_reservation pick)
        (best_reservation_flow pick)) by (apply best_of_skip; [unfold reserved; cbn; lia|done]).
      assert (shared now (rq !!! r)) as HP by (unfold shared; lia).
      pose proof (λ keep, best_of_step rq (shared now) by_weight seen _ _ j r keep
        (λ x, lex_refl _ _) (λ x y z, lex_trans _ _ _ _ _ _) HP Hr0 H2) as Hstep.
      destruct (Z.eqb_spec (best_weight pick) nullptr) as [E|E].
      * eexists. split; [reflexivity|]. split; try done. by apply (Hstep false).
      * rewrite get_request_total by (by eapply best_of_dom). cbn [obind]. eexists. split; [reflexivity|].
        pose proof (lex_test (w_tag_us (rq !!! r)) (r_tag_us (rq !!! r))
          (w_tag_us (rq !!! best_weight pick)) (r_tag_us (rq !!! best_weight pick))) as Ht.
        destruct (_ || _); split; try done; [by apply (Hstep false)|by apply (Hstep true)].
Qed.

(** ** The rotation over a class *)

(** Successors in a rotation of a list are cyclic successors in the list. *)
Lemma rotation_split {A} (X Y D : list A) f rest :
  Y ++ X = D ++ f :: rest → ∃ LA LB, X ++ Y = LA ++ f :: LB ∧ LB ++ LA = rest ++ D.
Proof.
  intros E. apply app_eq_inv in E as [(k & -> & E)|(k & E & ->)].
  - destruct k as [|g k]; cbn in E.
    + exists [], (rest ++ D). rewrite app_nil_r in *. subst X. by rewrite !app_nil_r.
    + injection E as <- ->. exists (X ++ D), k. rewrite <- !app_assoc. done.
  - subst. exists k, (rest ++ Y). rewrite <- !app_assoc. done.
Qed.

(** The candidate a flow offers. *)
Definition cand (f : nat * list ptr) : nat * ptr := (f.1, hd nullptr f.2).

(** The flows of a class as the rotation meets them. *)
Definition offers (pool : list FlowState) (rq : requests) (L : flows) : Prop :=
  ∀ j q, (j, q) ∈ L → (j < length pool)%nat ∧ fhead (pool !!! j) = hd nullptr q ∧
    hd nullptr q ≠ nullptr ∧ is_Some (rq !! hd nullptr q).

Lemma pick_class_ok s rq now c (X Y : flows) start q0 Y' :
  Y = (start, q0) :: Y' → ClassOk (flow_pool_ s) c (X ++ Y) → NoDup (slots (X ++ Y)) →
  offers (flow_pool_ s) rq (X ++ Y) →
  ∀ rest D j q fuel seen pick, Y ++ X = D ++ (j, q) :: rest → (length rest < fuel)%nat →
  PickOk rq now seen pick → (∀ f, f ∈ seen → is_Some (rq !! f.2)) →
  ∃ pick', pick_class fuel s rq now c start j pick = Ret pick' ∧
    PickOk rq now (seen ++ (cand <$> (j, q) :: rest)) pick'.
Proof.
  intros EY Hc Hnd Ho rest. induction rest as [|[k qk] rest IH]; intros D j q [|fuel] seen pick E Hf Hp Hs;
    cbn in Hf; try lia; cbn [pick_class].
  all: destruct (rotation_split X Y D (j, q) _ E) as (LA & LB & EL & ER).
  all: destruct (Ho j q) as (Hjr & Hh & Hq0 & Hqr); [rewrite EL; in_list|].
  all: rewrite get_flow_spec by done; cbn [obind]; rewrite Hh, (proj2 (Z.eqb_neq _ _)) by done.
  all: destruct (consider_ok rq now j (hd nullptr q) seen pick Hp Hs Hqr Hq0) as (p1 & -> & Hp1); cbn [obind].
  all: rewrite EL in Hc; rewrite (next_flow_spec s c LA j q LB Hc Hjr); cbn [obind].
  all: rewrite app_assoc, <- slots_app, ER.
  - assert (head (slots ([] ++ D) ++ [j]) = Some start) as ->.
    { destruct D as [|[d qd] D]; cbn in *; subst Y; cbn in E; by simplify_eq. }
    rewrite bool_decide_eq_true_2 by done. by exists p1.
  - cbn [slots fmap list_fmap app head fst]. rewrite bool_decide_eq_false_2.
    + destruct (IH (D ++ [(j, q)]) k qk fuel (seen ++ [(j, hd nullptr q)]) p1) as (p2 & -> & Hp2);
        [by rewrite <- app_assoc|lia|done| |].
      * intros f Hf'. apply elem_of_app in Hf' as [Hf'|Hf']; [by apply Hs|].
        by apply list_elem_of_singleton in Hf' as ->.
      * exists p2. split; [done|]. by rewrite <- app_assoc in Hp2.
    + intros ->. assert (NoDup (slots (Y ++ X))) as Hnd'.
      { rewrite slots_app. rewrite slots_app in Hnd. by rewrite Permutation_app_comm. }
      rewrite E in Hnd'. subst Y. destruct D as [|[d qd] D]; cbn in E.
      * injection E as <- <- E. cbn in Hnd'. apply NoDup_cons in Hnd' as [Hn _]. apply Hn. by left.
      * injection E as -> -> E. cbn in Hnd'. apply NoDup_cons in Hnd' as [Hn _]. apply Hn.
        apply elem_of_slots. exists qk. in_list.
Qed.

Lemma best_of_perm rq P le seen seen' r o :
  (∀ f, f ∈ seen ↔ f ∈ seen') → best_of rq P le seen r o → best_of rq P le seen' r o.
Proof.
  intros H. unfold best_of. case_bool_decide.
  - intros Hb f Hf. by apply Hb, H.
  - intros (j & -> & Hj & HP & Hle). exists j. split_and!; [done|by apply H|done|].
    intros f Hf. by apply Hle, H.
Qed.

Lemma PickOk_perm rq now seen seen' pick :
  (∀ f, f ∈ seen ↔ f ∈ seen') → PickOk rq now seen pick → PickOk rq now seen' pick.
Proof.
  intros H [H1 H2 H3 H4]. split; [by eapply best_of_perm..| |].
  - intros f Hf. by apply H3, H.
  - destruct H4 as [?|(f & Hf & ?)]; [by left|]. right. exists f. by rewrite <- H.
Qed.

Lemma pick_classes_ok s rq now : ∀ cs C seen pick,
  Forall2 (ClassOk (flow_pool_ s)) cs C →
  (∀ L, L ∈ C → offers (flow_pool_ s) rq L ∧ NoDup (slots L) ∧ (length L ≤ length (flow_pool_ s))%nat) →
  PickOk rq now seen pick → (∀ f, f ∈ seen → is_Some (rq !! f.2)) →
  ∃ pick', pick_classes s rq now cs pick = Ret pick' ∧
    PickOk rq now (seen ++ (cand <$> concat C)) pick'.
Proof.
  induction cs as [|c cs IH]; intros C seen pick HC Ho Hp Hs; inversion HC as [|? L ? C' Hc HC']; subst.
  { exists pick. by rewrite app_nil_r. }
  cbn [pick_classes concat]. destruct (Ho L) as (HoL & HndL & HlL); [by left|].
  assert (∃ p1, match flow_head c, start_flow c with
      | Some _, Some start => pick_class (flow_fuel s) s rq now c start start pick
      | _, _ => Ret pick end = Ret p1 ∧ PickOk rq now (seen ++ (cand <$> L)) p1) as (p1 & -> & Hp1).
  { pose proof Hc as [Hh _ Hhint _ _]. rewrite Hh. unfold start_flow.
    destruct L as [|f0 L0]; [exists pick; by rewrite app_nil_r|]. set (L := f0 :: L0) in *.
    cbn [slots fmap list_fmap head]. destruct (rr_hint c) as [h|]; [|done].
    apply elem_of_slots in Hhint as [q Hq]. apply list_elem_of_split in Hq as (X & Y' & EL).
    rewrite EL in *. destruct (pick_class_ok s rq now c X ((h, q) :: Y') h q Y' eq_refl Hc HndL HoL
      (Y' ++ X) [] h q (flow_fuel s) seen pick) as (p1 & -> & Hp1); [done| |done|done|].
    - unfold flow_fuel. rewrite !length_app in *. cbn in *. lia.
    - exists p1. split; [by destruct X|]. eapply PickOk_perm; [|exact Hp1]. intros f.
      rewrite !elem_of_app, !list_elem_of_fmap. setoid_rewrite elem_of_app. setoid_rewrite elem_of_cons.
      setoid_rewrite elem_of_app. naive_solver. }
  cbn [obind]. destruct (IH C' (seen ++ (cand <$> L)) p1 HC') as (p2 & -> & Hp2);
    [intros; apply Ho; by right|done| |].
  - intros f Hf. apply elem_of_app in Hf as [Hf|Hf]; [by apply Hs|].
    apply list_elem_of_fmap in Hf as ([j q] & -> & Hq). by destruct (HoL j q Hq) as (_ & _ & _ & ?).
  - exists p2. split; [done|]. by rewrite fmap_app, app_assoc.
Qed.

End MClockPick.
