(* ===== verification/MClockCorrect.v ===== *)
(** * Correctness of the mClock scheduler

    Requests enter at the end of their process's flow and leave from the head of
    a flow, in the order the tags prescribe, and no request is lost. *)
From S2P Require Import Prelude IoSched MClock MClockRep MClockOps MClockCalls MClockPick.
Import IoSched MClock MClockRep MClockOps MClockCalls MClockPick.

Module MClockCorrect.

(** ** The single active class *)

(** No class but [i] has flows. *)
Definition sole (C : list flows) (i : nat) : Prop := ∀ k L, C !! k = Some L → L ≠ [] → k = i.

Lemma active_class_some cs a :
  active_class cs (Some a) = if bool_decide (Forall (λ c, flow_head c = None) cs) then Some a else None.
Proof.
  induction cs as [|c cs IH]; [done|]. cbn [active_class]. destruct (flow_head c) as [j|] eqn:E.
  - rewrite bool_decide_eq_false_2; [done|]. intros H. apply Forall_cons in H as [H _]. congruence.
  - rewrite IH. erewrite bool_decide_ext; [done|]. rewrite Forall_cons. naive_solver.
Qed.

Lemma active_class_none cs :
  match active_class cs None with
  | Some c => ∃ i, cs !! i = Some c ∧ flow_head c ≠ None ∧
                ∀ k d, cs !! k = Some d → flow_head d ≠ None → k = i
  | None => Forall (λ c, flow_head c = None) cs ∨
      ∃ i k c d, i ≠ k ∧ cs !! i = Some c ∧ cs !! k = Some d ∧ flow_head c ≠ None ∧ flow_head d ≠ None
  end.
Proof.
  induction cs as [|c cs IH]; [by left|]. cbn [active_class]. destruct (flow_head c) as [j|] eqn:E.
  - rewrite active_class_some. case_bool_decide as H.
    + exists 0%nat. split_and!; [done|congruence|]. intros [|k] d Hk Hd; [done|].
      rewrite Forall_lookup in H. by destruct Hd; apply (H k).
    + right. apply not_Forall_Exists, Exists_exists in H as (d & Hd & Hn); [|intros d; solve_decision].
      apply list_elem_of_lookup in Hd as [k Hk]. exists 0%nat, (S k), c, d. split_and!; try done. congruence.
  - destruct (active_class cs None) as [a|].
    + destruct IH as (i & Hi & Ha & Hu). exists (S i). split_and!; [done..|].
      intros [|k] d Hk Hd; [by simplify_eq/=|]. f_equal. by eapply Hu.
    + destruct IH as [H|(i & k & a & b & ? & ?)]; [left; by constructor|].
      right. exists (S i), (S k), a, b. naive_solver.
Qed.

Section represented.
Context (s : MClock) (rq : requests) (C : list flows) (HR : Rep s rq C) (HB : busy C).

Lemma rep_forall2 : Forall2 (ClassOk (flow_pool_ s)) (class_state_ s) C.
Proof using HR.
  apply Forall2_same_length_lookup_2; [by rewrite (r_count _ _ _ HR), (r_classes _ _ _ HR)|].
  intros i c L Hc HL. pose proof (r_class _ _ _ HR i L HL) as H. by rewrite list_lookup_total_alt, Hc in H.
Qed.

Lemma rep_offers i L : C !! i = Some L → offers (flow_pool_ s) rq L.
Proof using HR HB.
  intros HL j q Hq. pose proof (r_flow _ _ _ HR i L j q HL Hq) as [? _ _ ? _ Hseg _].
  pose proof (rep_queue_null _ _ _ _ _ _ _ HR HL Hq) as Hn.
  assert (q ≠ []) as Hne by (eapply HB; [by eapply list_elem_of_lookup_2|done]).
  destruct q as [|r q]; [done|]. destruct Hseg as [? _]. split_and!; [done..| |done].
  intros E. apply Hn. rewrite <- E. by left.
Qed.

Lemma class_active i c L :
  C !! i = Some L → class_state_ s !! i = Some c → flow_head c ≠ None ↔ L ≠ [].
Proof using HR.
  intros HL Hc. pose proof (r_class _ _ _ HR i L HL) as H. rewrite list_lookup_total_alt, Hc in H. cbn in H.
  destruct H as [-> _ _ _ _]. destruct L; cbn; naive_solver.
Qed.

Lemma active_spec :
  match active_class (class_state_ s) None with
  | Some c => ∃ i L, class_state_ s !! i = Some c ∧ C !! i = Some L ∧ L ≠ [] ∧ sole C i
  | None => concat C = [] ∨ ∀ i, ¬ sole C i
  end.
Proof using HR.
  pose proof (active_class_none (class_state_ s)) as H. pose proof rep_forall2 as HF.
  destruct (active_class _ _) as [c|].
  - destruct H as (i & Hi & Ha & Hu). destruct (Forall2_lookup_l _ _ _ _ _ HF Hi) as (L & HL & _).
    exists i, L. split_and!; [done..|by eapply class_active|]. intros k M HM Hne.
    destruct (Forall2_lookup_r _ _ _ _ _ HF HM) as (d & Hd & _). apply (Hu k d); [done|]. by eapply class_active.
  - destruct H as [H|(i & k & c & d & Hik & Hi & Hk & Hc & Hd)]; [left|right].
    + apply elem_of_nil_inv. intros f Hf. apply elem_of_concat in Hf as (i & L & HL & Hf).
      destruct (Forall2_lookup_r _ _ _ _ _ HF HL) as (c & Hc & _). rewrite Forall_lookup in H.
      assert (L ≠ []) as Hne by (intros ->; by apply not_elem_of_nil in Hf).
      by apply (class_active i c L HL Hc) in Hne; destruct Hne; apply (H i).
    + intros m Hm. destruct (Forall2_lookup_l _ _ _ _ _ HF Hi) as (L & HL & _).
      destruct (Forall2_lookup_l _ _ _ _ _ HF Hk) as (M & HM & _).
      apply Hik. trans m; [|symmetry]; [eapply (Hm i L)|eapply (Hm k M)]; try done; by eapply class_active.
Qed.

Lemma pick_locked_spec now :
  ∃ pick, pick_locked s rq now = Ret pick ∧ PickOk rq now (cand <$> concat C) pick.
Proof using HR HB.
  destruct (pick_classes_ok s rq now (class_state_ s) C []
    (mkPick nullptr None nullptr None UINT64_MAX)) as (pick & E & Hp).
  - apply rep_forall2.
  - intros L HL. apply list_elem_of_lookup in HL as [i Hi]. split_and!.
    + by eapply rep_offers.
    + by eapply rep_slots_class.
    + rewrite (r_pool _ _ _ HR). by eapply rep_class_bound.
  - split; cbn; [by intros f ?%not_elem_of_nil..|by left].
  - by intros f ?%not_elem_of_nil.
  - by exists pick.
Qed.
End represented.

(** ** Dequeueing *)

(** The head of every flow. *)
Definition heads (C : list flows) : list (nat * ptr) := cand <$> concat C.

(** The mClock rule: the earliest reservation that is due, or, if none is due, the
    earliest weight tag. *)
Definition chosen_by_tags (rq : requests) (now : Z) (C : list flows) (r : ptr) : Prop :=
  (reserved now (rq !!! r) ∧
     ∀ f, f ∈ heads C → reserved now (rq !!! f.2) → by_reservation (rq !!! r) (rq !!! f.2)) ∨
  ((∀ f, f ∈ heads C → ¬ reserved now (rq !!! f.2)) ∧ shared now (rq !!! r) ∧
     ∀ f, f ∈ heads C → shared now (rq !!! f.2) → by_weight (rq !!! r) (rq !!! f.2)).

(** [r], the head of flow [j] of class [i], was taken and the rotation of the class
    moved on to the flow after [j]. *)
Record Taken (s : MClock) (rq : requests) (C : list flows) (s' : MClock) (rq' : requests)
    (C' : list flows) (i j : nat) (r : ptr) : Prop := {
  t_split : ∃ LA q LB, C !! i = Some (LA ++ (j, r :: q) :: LB) ∧ C' = <[i := LA ++ keep j q ++ LB]> C ∧
    hint_of s' i = head (slots (LB ++ LA ++ keep j q));
  t_rep : Rep s' rq' C';
  t_busy : busy C';
  t_reqs : rq' = <[r := with_flow_next (rq !!! r) nullptr]> rq;
  t_tags : tags s' = tags s
}.

Lemma busy_insert C i L L' : busy C → C !! i = Some L → (∀ j q, (j, q) ∈ L' → q ≠ []) → busy (<[i := L']> C).
Proof.
  intros HB Hi HL' M j q HM Hq. apply list_elem_of_lookup in HM as [k Hk].
  destruct (decide (k = i)) as [->|Hki].
  - rewrite list_lookup_insert_eq in Hk by (by eapply lookup_lt_Some). simplify_eq. by eapply HL'.
  - rewrite list_lookup_insert_ne in Hk by done. eapply HB; [by eapply list_elem_of_lookup_2|done].
Qed.

Lemma dispatch_taken s rq C i j r q :
  Rep s rq C → busy C → (∃ L, C !! i = Some L ∧ (j, r :: q) ∈ L) →
  ∃ s' rq' C', dispatch s rq (Some j) r = Ret (s', rq', mkDecision r 0) ∧ Taken s rq C s' rq' C' i j r.
Proof.
  intros HR HB (L & Hi & Hq). apply list_elem_of_split in Hq as (LA & LB & ->).
  destruct (dispatch_spec s rq C i LA j r q LB HR Hi) as (s' & rq' & E & -> & HR' & Hh & Ht).
  eexists s', _, _. split; [exact E|]. split; [by exists LA, q, LB|exact HR'| |done|done].
  eapply busy_insert; [done..|]. intros k q' Hk. rewrite !elem_of_app in Hk. destruct Hk as [Hk|[Hk|Hk]].
  - eapply HB; [by eapply list_elem_of_lookup_2|]. apply elem_of_app. by left.
  - destruct q; [by apply not_elem_of_nil in Hk|]. apply list_elem_of_singleton in Hk. by simplify_eq.
  - eapply HB; [by eapply list_elem_of_lookup_2|]. apply elem_of_app. right. by right.
Qed.

Lemma head_flow C j r : busy C → (j, r) ∈ heads C → ∃ i L q, C !! i = Some L ∧ (j, r :: q) ∈ L.
Proof.
  intros HB H. apply list_elem_of_fmap in H as ([k q] & [= -> ->] & Hq).
  apply elem_of_concat in Hq as (i & L & Hi & Hq). exists i, L.
  assert (q ≠ []) by (eapply HB; [by eapply list_elem_of_lookup_2|done]).
  destruct q as [|r q]; [done|]. by exists q.
Qed.

(** Why nothing was dispatched. *)
Definition idle (s : MClock) (rq : requests) (now : Z) (C : list flows) (gate : Z) : Prop :=
  (concat C = [] ∧ gate = 0) ∨
  (∃ i j r, sole C i ∧ hint_of s i = Some j ∧ (j, r) ∈ heads C ∧ blocked now (rq !!! r) ∧
     gate = l_tag_us (rq !!! r)) ∨
  (concat C ≠ [] ∧ ∀ f, f ∈ heads C → blocked now (rq !!! f.2) ∧ gate ≤ l_tag_us (rq !!! f.2)).

(** What [dequeue_next] returns. *)
Definition dequeued (s : MClock) (rq : requests) (C : list flows) (now : Z)
    (out : MClock * requests * DispatchDecision) : Prop :=
  let '(s', rq', d) := out in
  (∃ C' i j r, d = mkDecision r 0 ∧ Taken s rq C s' rq' C' i j r ∧ l_tag_us (rq !!! r) ≤ now ∧
     ((sole C i ∧ hint_of s i = Some j) ∨ ((∀ k, ¬ sole C k) ∧ chosen_by_tags rq now C r))) ∨
  (request d = nullptr ∧ s' = s ∧ rq' = rq ∧ idle s rq now C (next_gate_us d)).

Lemma single_spec s rq C now c :
  Rep s rq C → busy C → active_class (class_state_ s) None = Some c →
  ∃ out, dequeue_single_active_class s rq now = Ret out ∧ dequeued s rq C now out ∧
    (request out.2 ≠ nullptr ∨ now < next_gate_us out.2).
Proof.
  intros HR HB Ea. pose proof (active_spec s rq C HR) as Hact. rewrite Ea in Hact.
  destruct Hact as (i & L & Hc & HL & Hne & Hsole).
  unfold dequeue_single_active_class. rewrite Ea. unfold start_flow.
  pose proof (r_class _ _ _ HR i L HL) as [_ _ Hhint _ _].
  assert (rr_hint (class_state_ s !!! i) = rr_hint c) as Eh by (by rewrite list_lookup_total_alt, Hc).
  rewrite Eh in Hhint. destruct (rr_hint c) as [j|]; [|done].
  apply elem_of_slots in Hhint as [q Hq].
  destruct (rep_offers s rq C HR HB i L HL j q Hq) as (Hj & Hh & Hh0 & Hr).
  assert (q ≠ []) by (eapply HB; [by eapply list_elem_of_lookup_2|done]).
  destruct q as [|r q]; [done|]. cbn [hd] in *.
  rewrite get_flow_spec by done. cbn [obind]. rewrite Hh, (proj2 (Z.eqb_neq _ _)) by done.
  rewrite get_request_total by done. cbn [obind].
  destruct (Z.ltb_spec now (l_tag_us (rq !!! r))) as [Hl|Hl].
  - eexists. split; [reflexivity|]. split; [|by right]. right. split_and!; [done..|]. right. left.
    exists i, j, r. split_and!; [done|done| |done|done]. apply list_elem_of_fmap. exists (j, r :: q).
    split; [done|]. apply elem_of_concat. eauto.
  - destruct (dispatch_taken s rq C i j r q HR HB) as (s' & rq' & C' & -> & Ht); [eauto|].
    eexists. split; [reflexivity|]. split; [|by left]. left. exists C', i, j, r. split_and!; [done..|].
    left. done.
Qed.

(** The tags choose among several classes. *)
Lemma picked_spec s rq C now pick :
  Rep s rq C → busy C → 0 ≤ now → (concat C = [] ∨ ∀ k, ¬ sole C k) → PickOk rq now (heads C) pick →
  let reserved := negb (best_reservation pick =? nullptr) in
  let flow := if reserved then best_reservation_flow pick else best_weight_flow pick in
  let r := if reserved then best_reservation pick else best_weight pick in
  ∃ out, (if r =? nullptr
          then Ret (s, rq, mkDecision nullptr (if earliest_gate pick =? UINT64_MAX then 0 else earliest_gate pick))
          else dispatch s rq flow r) = Ret out ∧ dequeued s rq C now out.
Proof.
  intros HR HB Hnow Hcase [Hres Hsh Hgate Hgof]. unfold best_of in Hres, Hsh.
  assert (∀ j r, (j, r) ∈ heads C → r ≠ nullptr → l_tag_us (rq !!! r) ≤ now → chosen_by_tags rq now C r →
    ∃ out, dispatch s rq (Some j) r = Ret out ∧ dequeued s rq C now out) as Htake.
  { intros j r Hj Hr0 Hl Hch. destruct (head_flow C j r HB Hj) as (i & L & q & Hi & Hq).
    destruct (dispatch_taken s rq C i j r q HR HB) as (s' & rq' & C' & -> & Ht); [eauto|].
    eexists. split; [reflexivity|]. left. exists C', i, j, r. split_and!; [done..|]. right. split; [|done].
    destruct Hcase as [E|E]; [|done]. unfold heads in Hj. rewrite E in Hj. by apply not_elem_of_nil in Hj. }
  destruct (Z.eqb_spec (best_reservation pick) nullptr) as [E1|E1]; cbn [negb].
  - rewrite bool_decide_eq_true_2 in Hres by done.
    destruct (Z.eqb_spec (best_weight pick) nullptr) as [E2|E2].
    + rewrite bool_decide_eq_true_2 in Hsh by done. eexists. split; [reflexivity|]. right.
      split_and!; [done..|]. destruct (decide (concat C = [])) as [EC|EC].
      { left. split; [done|]. cbn. destruct Hgof as [->|(f & Hf & _)]; [done|].
        unfold heads in Hf. rewrite EC in Hf. by apply not_elem_of_nil in Hf. }
      right. right. split; [done|]. intros f Hf. assert (blocked now (rq !!! f.2)) as Hb.
      { pose proof (Hres f Hf). pose proof (Hsh f Hf). unfold reserved, shared, blocked in *. lia. }
      split; [done|]. cbn. pose proof (Hgate f Hf Hb). unfold blocked in Hb. case_test; lia.
    + rewrite bool_decide_eq_false_2 in Hsh by done. destruct Hsh as (j & -> & Hj & HP & Hle).
      apply Htake; [done|done|by destruct HP|]. by right.
  - rewrite bool_decide_eq_false_2 in Hres by done. destruct Hres as (j & -> & Hj & HP & Hle).
    rewrite (proj2 (Z.eqb_neq _ _)) by done. apply Htake; [done|done|by destruct HP|]. by left.
Qed.

Lemma dequeue_next_spec s rq C now :
  Rep s rq C → busy C → 0 ≤ now → ∃ out, dequeue_next s rq now = Ret out ∧ dequeued s rq C now out.
Proof.
  intros HR HB Hnow. unfold dequeue_next. destruct (active_class (class_state_ s) None) as [c|] eqn:Ea.
  - destruct (single_spec s rq C now c HR HB Ea) as ([[s' rq'] d] & -> & Hd & Hnz). cbn [obind]. cbn in Hnz.
    assert (negb (request d =? nullptr) || negb (next_gate_us d =? 0) = true) as ->; [|by eexists].
    rewrite orb_true_iff, !negb_true_iff, !Z.eqb_neq. destruct Hnz; [by left|right; lia].
  - pose proof (active_spec s rq C HR) as Hact. rewrite Ea in Hact.
    unfold dequeue_single_active_class. rewrite Ea. cbn [obind request next_gate_us Z.eqb negb orb nullptr].
    destruct (pick_locked_spec s rq C HR HB now) as (pick & -> & Hp). cbn [obind].
    by apply picked_spec.
Qed.

(** ** The scheduler as an instance of its interface *)

#[export] Instance mclock_scheduler : IoScheduler MClock := {|
  sched_reset := reset;
  sched_enqueue := enqueue;
  sched_dequeue := dequeue_next;
  sched_default_ewma := default_ewma_bps;
  sched_capacity := k_max_flows
|}.

(** The scheduler holds the requests of [l]. *)
Definition holds (s : MClock) (rq : requests) (l : list ptr) : Prop :=
  ∃ C, Rep s rq C ∧ busy C ∧ queued (concat C) ≡ₚ l.

Lemma busy_length C : busy C → (length (concat C) ≤ length (queued (concat C)))%nat.
Proof.
  intros HB. assert (∀ f, f ∈ concat C → f.2 ≠ []) as H.
  { intros [j q] Hf. apply elem_of_concat in Hf as (i & L & Hi & Hf).
    eapply HB; [by eapply list_elem_of_lookup_2|done]. }
  induction (concat C) as [|[j q] L IH]; [done|]. rewrite queued_cons, length_app.
  assert (q ≠ []) by (apply (H (j, q)); by left). assert (length L ≤ length (queued L))%nat.
  { apply IH. intros f Hf. apply H. by right. }
  destruct q; [done|]. cbn in *. lia.
Qed.

Lemma reset_rep s rq : Rep (reset s) rq (replicate k_class_count []).
Proof.
  assert (∀ n, concat (replicate n ([] : flows)) = []) as E by (induction n; done).
  split; rewrite ?E; unfold reset; cbn [class_state_ flow_pool_].
  - apply length_replicate.
  - apply length_replicate.
  - apply length_replicate.
  - intros i L Hi. apply lookup_replicate in Hi as [-> Hi].
    rewrite lookup_total_replicate_2 by done. split; try done. constructor.
  - intros i L j q Hi Hq. apply lookup_replicate in Hi as [-> Hi]. by apply not_elem_of_nil in Hq.
  - constructor.
  - intros j Hj. by rewrite lookup_total_replicate_2.
  - constructor.
  - apply not_elem_of_nil.
Qed.

Lemma holds_reset s rq : holds (reset s) rq [].
Proof.
  exists (replicate k_class_count []). split_and!; [apply reset_rep| |done].
  intros L j q HL Hq. apply elem_of_replicate in HL as [-> _]. by apply not_elem_of_nil in Hq.
Qed.

Lemma rep_queued_dom s rq C r : Rep s rq C → r ∈ queued (concat C) → is_Some (rq !! r).
Proof.
  intros HR Hr. apply elem_of_queued in Hr as (j & q & Hq & Hr). apply elem_of_concat in Hq as (i & L & Hi & Hq).
  destruct (r_flow _ _ _ HR i L j q Hi Hq) as [_ _ _ _ _ Hseg _]. by eapply qseg_dom.
Qed.

Lemma Rep_frame s rq rq' C :
  (∀ r, r ∈ queued (concat C) → rq' !! r = rq !! r) → Rep s rq C → Rep s rq' C.
Proof.
  intros Hf [H1 H2 H3 H4 H5 H6 H7 H8 H9]. split; try done. intros i L j q Hi Hq.
  eapply FlowOk_frame; [done|done| |by eapply H5]. intros r Hr. apply Hf, elem_of_queued.
  exists j, q. split; [|done]. apply elem_of_concat. eauto.
Qed.

(** A request taken from the represented queues. *)
Lemma taken_queued s rq C s' rq' C' i j r :
  Taken s rq C s' rq' C' i j r → queued (concat C) ≡ₚ r :: queued (concat C').
Proof.
  intros [(LA & q & LB & Hi & -> & _) _ _ _ _]. destruct (concat_insert C i _ Hi) as (R & HC & HI).
  rewrite HI, HC, !queued_app, queued_cons. replace (queued (keep j q)) with q by (destruct q; cbn; by rewrite ?app_nil_r).
  cbn. solve_Permutation.
Qed.

Lemma enqueue_queued (C : list flows) i L LA j q LB r :
  C !! i = Some L → located L LA j q LB →
  queued (concat (<[i := LA ++ (j, q ++ [r]) :: LB]> C)) ≡ₚ r :: queued (concat C).
Proof.
  intros Hi Hloc. destruct (concat_insert C i _ Hi) as (R & HC & HI).
  rewrite HI, HC, !queued_app, queued_cons. destruct Hloc as [->|(-> & -> & ->)].
  - rewrite queued_app, queued_cons. solve_Permutation.
  - cbn. solve_Permutation.
Qed.

Lemma enqueue_busy (C : list flows) i L LA j q LB r :
  busy C → C !! i = Some L → located L LA j q LB → busy (<[i := LA ++ (j, q ++ [r]) :: LB]> C).
Proof.
  intros HB Hi Hloc. eapply busy_insert; [done..|]. intros k q' Hk.
  apply elem_of_app in Hk as [Hk|[[= -> ->]|Hk]%elem_of_cons].
  - eapply HB; [by eapply list_elem_of_lookup_2|]. destruct Hloc as [->|(-> & _)]; [|done]. in_list.
  - by intros [_ ?]%app_nil.
  - destruct Hloc as [->|(_ & _ & ->)]; [|by apply not_elem_of_nil in Hk].
    eapply HB; [by eapply list_elem_of_lookup_2|]. apply elem_of_app. right. by right.
Qed.

Lemma same_request_transfer x y : same_request x y → transfer x = transfer y ∧ l_tag_us x = l_tag_us y.
Proof.
  intros E. split; [exact (f_equal transfer E)|exact (f_equal l_tag_us E)].
Qed.

(** ** The laws *)

Lemma head_queued C f : busy C → f ∈ heads C → f.2 ∈ queued (concat C).
Proof.
  destruct f as [j r]. intros HB Hf. destruct (head_flow C j r HB Hf) as (i & L & q & Hi & Hq).
  apply elem_of_queued. exists j, (r :: q). split; [apply elem_of_concat; eauto|by left].
Qed.

Lemma holds_enqueue s rq l r now ewma :
  holds s rq l → is_Some (rq !! r) → r ∉ l → r ≠ nullptr → (length l < k_max_flows)%nat →
  ∃ s' rq', enqueue s rq r now ewma = Ret (s', rq') ∧ holds s' rq' (r :: l) ∧
    same_transfers rq rq' ∧ (∀ k, k ∉ r :: l → rq' !! k = rq !! k) ∧
    l_tag_us (rq' !!! r) = now ∧ ∀ k, k ≠ r → l_tag_us (rq' !!! k) = l_tag_us (rq !!! k).
Proof.
  intros (C & HR & HB & HC) [x Hx] Hr Hr0 Hlen. pose proof (busy_length C HB) as Hbl. rewrite HC in Hbl.
  destruct (enqueue_spec s rq C r x now ewma HR Hx) as
    (s' & rq' & L & LA & j & q & LB & E & Hi & Hloc & _ & HR' & Hr' & Hsame & Hout & Hdom);
    [by rewrite HC|done|lia|].
  exists s', rq'. split_and!; [done| | | | |].
  - eexists. split; [exact HR'|]. split; [by eapply enqueue_busy|]. by rewrite enqueue_queued, HC.
  - split; [done|]. intros k. destruct (decide (k = r)) as [->|Hk].
    + by rewrite !lookup_total_alt, Hr', Hx.
    + by apply same_request_transfer, Hsame.
  - intros k Hk. rewrite not_elem_of_cons in Hk. apply Hout; [tauto|]. rewrite HC. tauto.
  - by rewrite lookup_total_alt, Hr'.
  - intros k Hk. by apply same_request_transfer, Hsame.
Qed.

Lemma holds_dequeue s rq l now :
  holds s rq l → 0 ≤ now →
  ∃ s' rq' d, dequeue_next s rq now = Ret (s', rq', d) ∧ same_transfers rq rq' ∧
    (∀ k, l_tag_us (rq' !!! k) = l_tag_us (rq !!! k)) ∧ (∀ k, k ∉ l → rq' !! k = rq !! k) ∧
    if request d =? nullptr
    then holds s' rq' l ∧ (l = [] ∨ ∃ r, r ∈ l ∧ now < l_tag_us (rq !!! r))
    else ∃ l', l ≡ₚ request d :: l' ∧ holds s' rq' l'.
Proof.
  intros (C & HR & HB & HC) Hnow.
  destruct (dequeue_next_spec s rq C now HR HB Hnow) as ([[s' rq'] d] & E & Hd).
  exists s', rq', d. split; [done|]. destruct Hd as [(C' & i & j & r & -> & Ht & Hl & _)|(Hd0 & -> & -> & Hidle)].
  - pose proof (taken_queued _ _ _ _ _ _ _ _ _ Ht) as Hq. destruct Ht as [_ HR' HB' -> _].
    assert (r ∈ queued (concat C)) as Hr by (rewrite Hq; by left).
    destruct (rep_queued_dom _ _ _ _ HR Hr) as [x Hx].
    assert (∀ k, same_request (<[r := with_flow_next (rq !!! r) nullptr]> rq !!! k) (rq !!! k)) as Hsame.
    { intros k. destruct (decide (k = r)) as [->|Hk]; [by rewrite lookup_total_insert_eq|].
      by rewrite lookup_total_insert_ne. }
    split_and!.
    + split; [rewrite dom_insert_L; apply elem_of_dom_2 in Hx; set_solver|].
      intros k. by apply same_request_transfer.
    + intros k. by apply same_request_transfer.
    + intros k Hk. apply lookup_insert_ne. intros ->. apply Hk. by rewrite <- HC.
    + cbn [request]. rewrite (proj2 (Z.eqb_neq _ _)) by (intros ->; by apply (r_null _ _ _ HR)).
      exists (queued (concat C')). rewrite <- HC. split; [done|]. by exists C'.
  - rewrite Hd0, Z.eqb_refl. do 3 (split; [done|]). split; [by exists C|].
    destruct Hidle as [[E0 _]|[(i & j & r & _ & _ & Hr & Hb & _)|[Hne Hall]]].
    + left. rewrite E0 in HC. by apply Permutation_nil in HC.
    + right. exists r. split; [|done]. rewrite <- HC. by eapply (head_queued C (j, r)).
    + right. assert (∃ f, f ∈ heads C) as [f Hf].
      { unfold heads. destruct (concat C) as [|f fs]; [done|]. exists (cand f). by left. }
      exists f.2. split; [rewrite <- HC; by apply head_queued|by apply Hall].
Qed.

#[export] Instance mclock_laws : IoSchedulerLaws MClock.
Proof.
  refine {| pending := holds |}.
  - apply holds_reset.
  - intros t rq l l' Hp (C & HR & HB & HC). exists C. by rewrite HC.
  - intros t rq l (C & HR & HB & HC). split_and!.
    + rewrite <- HC. apply (r_reqs _ _ _ HR).
    + rewrite <- HC. apply (r_null _ _ _ HR).
    + intros r. rewrite <- HC. by apply (rep_queued_dom t).
  - intros t rq rq' l Hf (C & HR & HB & HC). exists C. split; [|done].
    eapply Rep_frame; [|done]. intros r Hr. apply Hf. by rewrite <- HC.
  - apply holds_enqueue.
  - apply holds_dequeue.
Defined.

(** ** Service times *)

Lemma ceil_div_bounds n d :
  0 ≤ n → 0 < d → n + d - 1 < 2 ^ 64 →
  n ≤ ceil_div_u64 n d * d < n + d ∧ 0 ≤ ceil_div_u64 n d.
Proof.
  intros Hn Hd Hb. unfold ceil_div_u64. rewrite (proj2 (Z.eqb_neq _ _)), u64_small by lia.
  pose proof (Z.div_mod (n + d - 1) d). pose proof (Z.mod_pos_bound (n + d - 1) d).
  pose proof (Z.div_pos (n + d - 1) d). nia.
Qed.

Lemma bytes_to_service_us_bounds bytes bps :
  0 ≤ bytes → 0 < bps → bytes * k_usec_per_sec + bps ≤ 2 ^ 64 →
  let us := bytes_to_service_us bytes bps in
  1 ≤ us ∧ bytes * k_usec_per_sec ≤ us * bps ∧ (0 < bytes → us * bps < bytes * k_usec_per_sec + bps).
Proof.
  intros Hb Hp Hlt us. unfold k_usec_per_sec in *.
  pose proof (ceil_div_bounds (bytes * 1000000) bps) as Hc. unfold us, bytes_to_service_us, k_usec_per_sec.
  rewrite (proj2 (Z.eqb_neq _ _)), u64_small by lia. cbv zeta. case_test; nia.
Qed.

(** ** The theorems *)

(** C24. The scheduler returns the head of a flow, and takes exactly it: with one
    active class it is the flow whose turn it is in the rotation; with several
    it is the request with the earliest reservation that is due, weight tags
    deciding ties, or, if no reservation is due, the one with the earliest
    weight tag.  The rotation of the class moves on behind the flow, which is
    given up when it is empty.  Nothing is returned, and nothing changed, only if
    there is no request or the requests in question are over their limit. *)
Theorem dequeue_correct s rq C now :
  Rep s rq C → busy C → 0 ≤ now → ∃ out, dequeue_next s rq now = Ret out ∧ dequeued s rq C now out.
Proof. apply dequeue_next_spec. Qed.

(** Enqueueing returns and appends the request at the end of the flow of its
    process in the class of its niceness, which is created at the end of the
    class if there is none; the request keeps its transfer and gets its tags from
    its class and the time, every other request stays as it is. *)
Theorem enqueue_correct s rq C r x now ewma :
  Rep s rq C → busy C → rq !! r = Some x → r ∉ queued (concat C) → r ≠ nullptr →
  (length (concat C) < k_max_flows)%nat →
  let i := Z.to_nat (nice_to_service_class (submit_nice x)) in
  ∃ s' rq' L LA j q LB, enqueue s rq r now ewma = Ret (s', rq') ∧
    C !! i = Some L ∧ located L LA j q LB ∧
    (L = LA → ∀ k, k ∈ slots L → pid (flow_pool_ s !!! k) ≠ submit_pid x) ∧
    Rep s' rq' (<[i := LA ++ (j, q ++ [r]) :: LB]> C) ∧ busy (<[i := LA ++ (j, q ++ [r]) :: LB]> C) ∧
    rq' !! r = Some (scheduled x s now) ∧ (∀ k, k ≠ r → same_request (rq' !!! k) (rq !!! k)).
Proof.
  intros HR HB Hx Hr Hr0 Hlen i. destruct (enqueue_spec s rq C r x now ewma HR Hx Hr Hr0 Hlen) as
    (s' & rq' & L & LA & j & q & LB & E & Hi & Hloc & Hnew & HR' & Hr' & Hsame & _).
  exists s', rq', L, LA, j, q, LB. split_and!; try done. by eapply enqueue_busy.
Qed.

(** The scheduler is work-conserving: while it holds requests and the clock has
    not gone back behind the time they were enqueued at, it returns one of them
    and keeps the others. *)
Theorem dequeue_work_conserving s rq l now :
  holds s rq l → l ≠ [] → 0 ≤ now → (∀ r, r ∈ l → l_tag_us (rq !!! r) ≤ now) →
  ∃ s' rq' r l', dequeue_next s rq now = Ret (s', rq', mkDecision r 0) ∧ l ≡ₚ r :: l' ∧
    holds s' rq' l' ∧ ∀ k, k ∈ l' → l_tag_us (rq' !!! k) ≤ now.
Proof.
  intros (C & HR & HB & HC) Hne Hnow Hl.
  destruct (dequeue_next_spec s rq C now HR HB Hnow) as ([[s' rq'] d] & E & Hd).
  destruct (holds_dequeue s rq l now) as (s2 & rq2 & d2 & E2 & _ & Htag & _ & Hcase); [by exists C|done|].
  rewrite E in E2. simplify_eq. destruct Hd as [(C' & i & j & r & -> & _)|(Hd0 & _)].
  - cbn [request] in Hcase. destruct (Z.eqb_spec r nullptr) as [->|Hr].
    { destruct Hcase as [_ [?|(k & Hk & Hb)]]; [done|]. pose proof (Hl k Hk). lia. }
    destruct Hcase as (l' & Hp & Hh). exists s2, rq2, r, l'. split_and!; [done..|].
    intros k Hk. rewrite Htag. apply Hl. rewrite Hp. by right.
  - rewrite Hd0, Z.eqb_refl in Hcase. destruct Hcase as [_ [?|(k & Hk & Hb)]]; [done|].
    pose proof (Hl k Hk). lia.
Qed.

(** Service times are the time the bytes take at the given rate, rounded up, and
    at least one microsecond, as long as bytes times 10^6 plus the rate is at
    most 2^64; the weighted time is that of the bytes scaled by total weight over
    weight. *)
Theorem service_us_correct bytes bps weight :
  0 ≤ bytes → 0 < bps → 0 < weight → bytes * k_total_weight + weight ≤ 2 ^ 64 →
  (bytes * k_total_weight + weight) * k_usec_per_sec + bps ≤ 2 ^ 64 →
  let us := bytes_to_service_us bytes bps in
  let ws := weighted_service_us bytes weight bps in
  1 ≤ us ∧ bytes * k_usec_per_sec ≤ us * bps ∧ (0 < bytes → us * bps < bytes * k_usec_per_sec + bps) ∧
  1 ≤ ws ∧ bytes * k_total_weight * k_usec_per_sec ≤ ws * bps * weight ∧
  (0 < bytes → ws * bps * weight < bytes * k_total_weight * k_usec_per_sec + (k_usec_per_sec + bps) * weight).
Proof.
  intros Hb Hp Hw Hlt Hlt2 us ws. unfold k_total_weight, k_usec_per_sec in *.
  destruct (bytes_to_service_us_bounds bytes bps) as (H1 & H2 & H3); [done..|unfold k_usec_per_sec; lia|].
  unfold k_usec_per_sec in *. split_and!; [done..| | |].
  all: unfold ws, weighted_service_us, k_total_weight; rewrite !(proj2 (Z.eqb_neq _ _)), u64_small by lia.
  all: pose proof (ceil_div_bounds (bytes * 792) weight) as Hc.
  all: set (sb := ceil_div_u64 (bytes * 792) weight) in *.
  all: destruct (bytes_to_service_us_bounds sb bps) as (H4 & H5 & H6); unfold k_usec_per_sec in *; try nia.
Qed.

(** ** Witnesses *)

Definition sample_request (p nice : Z) : IoRequest :=
  mkIoRequest 4096 512 7 true 512 p nice 0 CallerWait 0 false 0 0 0 0 0 0 nullptr.

Definition sample_requests : requests :=
  <[100 := sample_request 1 0]> (<[200 := sample_request 2 (-20)]> ∅).

Definition sample_start : MClock := reset (mkClock [] []).

(** The scheduler after the request at 100 was enqueued at time 5. *)
Lemma sample_one :
  ∃ s rq, enqueue sample_start sample_requests 100 5 0 = Ret (s, rq) ∧ holds s rq [100] ∧
    ∀ r, r ∈ [100] → l_tag_us (rq !!! r) ≤ 5.
Proof.
  destruct (holds_enqueue sample_start sample_requests [] 100 5 0) as (s & rq & E & Hh & _ & _ & Hl & _).
  - apply holds_reset.
  - by eexists.
  - apply not_elem_of_nil.
  - done.
  - unfold k_max_flows, num_process. cbn [length]. lia.
  - exists s, rq. split_and!; [done..|]. intros r Hr. apply list_elem_of_singleton in Hr as ->. lia.
Qed.

Lemma enqueue_correct_witness :
  ∃ s' rq', enqueue sample_start sample_requests 100 5 0 = Ret (s', rq') ∧
    rq' !! 100 = Some (scheduled (sample_request 1 0) sample_start 5).
Proof.
  destruct (enqueue_correct sample_start sample_requests (replicate k_class_count []) 100 (sample_request 1 0) 5 0)
    as (s' & rq' & L & LA & j & q & LB & E & _ & _ & _ & _ & _ & Hr & _).
  - apply reset_rep.
  - intros L j q HL Hq. apply elem_of_replicate in HL as [-> _]. by apply not_elem_of_nil in Hq.
  - done.
  - apply not_elem_of_nil.
  - done.
  - unfold k_max_flows, num_process. cbn. lia.
  - by exists s', rq'.
Defined.

Lemma dequeue_correct_witness :
  ∃ s rq C out, enqueue sample_start sample_requests 100 5 0 = Ret (s, rq) ∧
    dequeue_next s rq 9 = Ret out ∧ dequeued s rq C 9 out.
Proof.
  destruct sample_one as (s & rq & E & (C & HR & HB & HC) & _).
  destruct (dequeue_correct s rq C 9 HR HB) as (out & E' & Hd); [lia|]. by exists s, rq, C, out.
Defined.

Lemma dequeue_work_conserving_witness :
  ∃ s rq s' rq', enqueue sample_start sample_requests 100 5 0 = Ret (s, rq) ∧
    dequeue_next s rq 9 = Ret (s', rq', mkDecision 100 0) ∧ holds s' rq' [].
Proof.
  destruct sample_one as (s & rq & E & Hh & Hl).
  destruct (dequeue_work_conserving s rq [100] 9 Hh) as (s' & rq' & r & l' & E' & Hp & Hh' & _);
    [done|lia|intros r Hr; specialize (Hl r Hr); lia|].
  apply Permutation_singleton_l in Hp. simplify_eq. by exists s, rq, s', rq'.
Defined.

Lemma service_us_correct_witness :
  bytes_to_service_us 4096 (1024 * 1024) = 3907 ∧ weighted_service_us 4096 256 (64 * 1024 * 1024) = 189 ∧
  4096 * k_usec_per_sec ≤ 3907 * (1024 * 1024).
Proof.
  split_and!; [by vm_compute..|].
  pose proof (service_us_correct 4096 (1024 * 1024) 256) as H.
  destruct H as (_ & H & _); [unfold k_total_weight, k_usec_per_sec; lia..|exact H].
Defined.

(** Two active classes: the reservation of the nicer-class request is due no later. *)
Example two_classes_dispatch :
  (let! (s, rq) := enqueue sample_start sample_requests 100 5 0 in
   let! (s, rq) := enqueue s rq 200 5 0 in
   let! (s, rq, d1) := dequeue_next s rq 9 in
   let! (s, rq, d2) := dequeue_next s rq 9 in
   let! (s, rq, d3) := dequeue_next s rq 9 in
   Ret (request d1, request d2, request d3, next_gate_us d3)) = Ret (200, 100, 0, 0).
Proof. by vm_compute. Qed.

End MClockCorrect.
