(* ===== verification/VirtioQueue.v ===== *)
(** * The virtio block queue (kernel/fs/drivers/virtio_blk_queue.{hh,cc})

    Descriptors, rings and in-flight bookkeeping, written against the scheduler
    interface [IoScheduler].  The transport's [dma_addr] and [polling_wait], the
    addresses of the driver's own fields and the clock are parameters. *)
From S2P Require Import Prelude IoSched.
Import IoSched.

Module VirtioQueue.

(** ** Data (virtio_blk.hh, virtio_blk_queue.hh, buf.hh) *)

Definition k_queue_size : Z := 128.
Definition k_desc_flag_next : Z := 1.
Definition k_desc_flag_write : Z := 2.
Definition k_req_type_read : Z := 0.
Definition k_req_type_write : Z := 1.
Definition BSIZE : Z := 512.
Definition default_proc_prio : Z := 0.

Record VRingDesc := mkDesc { d_addr : Z; d_len : Z; d_flags : Z; d_next : Z }.
Record UsedArea := mkUsed { u_flags : Z; u_id : Z; elems : list (Z * Z) }.
Record VirtioBlkReq := mkReq { type_ : Z; reserved_ : Z; sector : Z }.
Record RequestInfo := mkInfo { i_request : ptr; header : VirtioBlkReq; status : Z; dispatch_us : Z }.

Definition zero_desc : VRingDesc := mkDesc 0 0 0 0.
Definition zero_info : RequestInfo := mkInfo nullptr (mkReq 0 0 0) 0 0.

#[export] Instance VRingDesc_inhabited : Inhabited VRingDesc := populate zero_desc.
#[export] Instance RequestInfo_inhabited : Inhabited RequestInfo := populate zero_info.

(** The fields of [struct buf] the queue uses; [disk] is kept in the state. *)
Record buf := mkBuf { b_data : ptr; blockno : Z }.

(** What a section does besides changing memory. *)
Inductive QEvent := Barrier | NotifyQueue | Wakeup (chan : ptr) | AckInterrupt.

#[export] Instance QEvent_eq_dec : EqDecision QEvent.
Proof. solve_decision. Defined.

(** Where [submit_request_and_wait] gives up the lock. *)
Inductive WaitStatus := Returned | Spinning | Yielding | Sleeping.

#[export] Instance WaitStatus_eq_dec : EqDecision WaitStatus.
Proof. solve_decision. Defined.

Section queue.
Context {T : Type} `{IoScheduler T}.

Record Queue := mkQueue {
  desc_ : list VRingDesc;
  avail_ : list Z;
  used_ : UsedArea;
  free_ : list Z;
  used_idx_ : Z;
  owner_token_ : Z;
  inflight_count_ : Z;
  ewma_bps_ : Z;
  info_ : list RequestInfo;
  scheduler_ : T
}.

(** The queue with the requests, the [disk] flags of the buffers, the number of
    times the clock was read and the events so far. *)
Record World := mkWorld { queue : Queue; reqs : requests; disk : gmap ptr Z; ticks : nat; events : list QEvent }.

Definition with_desc (q : Queue) d := mkQueue d (avail_ q) (used_ q) (free_ q) (used_idx_ q)
  (owner_token_ q) (inflight_count_ q) (ewma_bps_ q) (info_ q) (scheduler_ q).
Definition with_avail (q : Queue) a := mkQueue (desc_ q) a (used_ q) (free_ q) (used_idx_ q)
  (owner_token_ q) (inflight_count_ q) (ewma_bps_ q) (info_ q) (scheduler_ q).
Definition with_used (q : Queue) u := mkQueue (desc_ q) (avail_ q) u (free_ q) (used_idx_ q)
  (owner_token_ q) (inflight_count_ q) (ewma_bps_ q) (info_ q) (scheduler_ q).
Definition with_free (q : Queue) f := mkQueue (desc_ q) (avail_ q) (used_ q) f (used_idx_ q)
  (owner_token_ q) (inflight_count_ q) (ewma_bps_ q) (info_ q) (scheduler_ q).
Definition with_counts (q : Queue) u n e := mkQueue (desc_ q) (avail_ q) (used_ q) (free_ q) u
  (owner_token_ q) n e (info_ q) (scheduler_ q).
Definition with_info (q : Queue) i := mkQueue (desc_ q) (avail_ q) (used_ q) (free_ q) (used_idx_ q)
  (owner_token_ q) (inflight_count_ q) (ewma_bps_ q) i (scheduler_ q).
Definition with_scheduler (q : Queue) t := mkQueue (desc_ q) (avail_ q) (used_ q) (free_ q) (used_idx_ q)
  (owner_token_ q) (inflight_count_ q) (ewma_bps_ q) (info_ q) t.

Definition with_queue (w : World) q := mkWorld q (reqs w) (disk w) (ticks w) (events w).
Definition with_reqs (w : World) rq := mkWorld (queue w) rq (disk w) (ticks w) (events w).
Definition with_disk (w : World) d := mkWorld (queue w) (reqs w) d (ticks w) (events w).
Definition emit (w : World) (l : list QEvent) :=
  mkWorld (queue w) (reqs w) (disk w) (ticks w) (events w ++ l).

(** [dma_addr] of the transport, the addresses of [info_[i].header] and
    [info_[i].status], and [k_tm.get_time_val()] at its n-th call. *)
Context (dma_addr : ptr → Z) (header_at status_at : Z → ptr) (clock : nat → Z * Z).

(** ** Helpers *)

Definition time_at (n : nat) : Z := u64 (u64 ((clock n).1 * 1000000) + (clock n).2).
Definition now_us (w : World) : World * Z :=
  (mkWorld (queue w) (reqs w) (disk w) (S (ticks w)) (events w), time_at (ticks w)).

Definition ceil_div_u64 (numerator denominator : Z) : Z :=
  if denominator =? 0 then 0 else u64 (numerator + denominator - 1) / denominator.

Definition get_req (w : World) (r : ptr) : outcome IoRequest :=
  match reqs w !! r with Some x => Ret x | None => Fault end.

(** ** Initialisation *)

Definition reset_runtime (q : Queue) : Queue :=
  mkQueue (desc_ q) (<[1%nat := 0]> (<[0%nat := 0]> (avail_ q))) (mkUsed 0 0 (elems (used_ q)))
    (replicate (Z.to_nat k_queue_size) 1) 0 (owner_token_ q) 0 sched_default_ewma
    (replicate (Z.to_nat k_queue_size) zero_info) (sched_reset (scheduler_ q)).

(** [avail_] starts behind the descriptors and runs to the end of the page. *)
Definition initialize (q : Queue) (owner_token : Z) : Queue :=
  reset_runtime
    (mkQueue (replicate (Z.to_nat k_queue_size) zero_desc)
       (replicate (Z.to_nat ((PGSIZE - k_queue_size * 16) / 2)) 0)
       (mkUsed 0 0 (replicate (Z.to_nat k_queue_size) (0, 0)))
       (free_ q) (used_idx_ q) owner_token (inflight_count_ q) (ewma_bps_ q) (info_ q) (scheduler_ q)).

(** ** Descriptors *)

Fixpoint count_free (l : list Z) (free_count : Z) : bool :=
  match l with
  | [] => false
  | f :: l =>
      if negb (f =? 0)
      then if 3 <=? free_count + 1 then true else count_free l (free_count + 1)
      else count_free l free_count
  end.
Definition has_free_desc_chain_locked (q : Queue) : bool := count_free (free_ q) 0.

Definition free_desc_locked (q : Queue) (idx : Z) : outcome Queue :=
  if (idx <? 0) || (k_queue_size <=? idx) then Panic else
  let! d := aset (desc_ q) idx zero_desc in
  let! f := aset (free_ q) idx 1 in
  Ret (with_free (with_desc q d) f).

Fixpoint free_all (q : Queue) (l : list Z) : outcome Queue :=
  match l with
  | [] => Ret q
  | i :: l => let! q := free_desc_locked q i in free_all q l
  end.

(** [n] more descriptors, the ones so far in [allocated]. *)
Fixpoint alloc_loop (n : nat) (q : Queue) (allocated : list Z) : outcome (Queue * option (list Z)) :=
  match n with
  | O => Ret (q, Some allocated)
  | S n =>
      match list_find (λ f, f ≠ 0) (free_ q) with
      | Some (j, _) => alloc_loop n (with_free q (<[j := 0]> (free_ q))) (allocated ++ [Z.of_nat j])
      | None => let! q := free_all q allocated in Ret (q, None)
      end
  end.
Definition alloc_desc_chain_locked (q : Queue) : outcome (Queue * option (list Z)) := alloc_loop 3 q [].

Fixpoint free_chain_loop (fuel : nat) (q : Queue) (idx : Z) : outcome Queue :=
  match fuel with
  | O => Stuck
  | S n =>
      let! d := aget (desc_ q) idx in
      let! q := free_desc_locked q idx in
      if Z.land (d_flags d) k_desc_flag_next =? 0 then Ret q else free_chain_loop n q (d_next d)
  end.
Definition free_chain_locked (q : Queue) (head_idx : Z) : outcome Queue :=
  free_chain_loop (S (Z.to_nat k_queue_size)) q head_idx.

(** ** Submission *)

(** The three descriptors of request [x]. *)
Definition chain_descs (x : IoRequest) (head_ middle tail_ : Z) : VRingDesc * VRingDesc * VRingDesc :=
  (mkDesc (dma_addr (header_at head_)) 16 k_desc_flag_next (u16 middle),
   mkDesc (dma_addr (data x)) (data_len x)
     (Z.lor (if write x then 0 else k_desc_flag_write) k_desc_flag_next) (u16 tail_),
   mkDesc (dma_addr (status_at head_)) 1 k_desc_flag_write 0).

Definition submit_one_locked (w : World) (r : ptr) : outcome (World * bool) :=
  let! (q, chain) := alloc_desc_chain_locked (queue w) in
  match chain with
  | Some [head_; middle; tail_] =>
      let! x := get_req w r in
      let (w, t) := now_us w in
      let! info := aset (info_ q) head_
        (mkInfo r (mkReq (if write x then k_req_type_write else k_req_type_read) 0 (start_sector x)) 0xff t) in
      let '(dh, dm, dt) := chain_descs x head_ middle tail_ in
      let! d := aset (desc_ q) head_ dh in
      let! d := aset d middle dm in
      let! d := aset d tail_ dt in
      let! idx := aget (avail_ q) 1 in
      let! a := aset (avail_ q) (2 + idx mod k_queue_size) (u16 head_) in
      let! a := aset a 1 (u16 (idx + 1)) in
      let q := with_avail (with_desc (with_info q info) d) a in
      let q := with_counts q (used_idx_ q) (i32 (inflight_count_ q + 1)) (ewma_bps_ q) in
      Ret (emit (with_queue w q) [Barrier; Barrier; NotifyQueue], true)
  | _ => Ret (with_queue w q, false)
  end.

(** Returns whether a request was submitted, and the next gate. *)
Fixpoint dispatch_loop (fuel : nat) (w : World) (submitted : bool) : outcome (World * bool * Z) :=
  match fuel with
  | O => Stuck
  | S n =>
      if (inflight_count_ (queue w) <? k_queue_size) && has_free_desc_chain_locked (queue w) then
        let (w, t) := now_us w in
        let! (s, rq, decision) := sched_dequeue (scheduler_ (queue w)) (reqs w) t in
        let w := with_reqs (with_queue w (with_scheduler (queue w) s)) rq in
        if request decision =? nullptr then Ret (w, submitted, next_gate_us decision) else
        let! (w, b) := submit_one_locked w (request decision) in
        if negb b then Panic else dispatch_loop n w true
      else Ret (w, submitted, 0)
  end.
Definition dispatch_pending_locked (w : World) : outcome (World * bool * Z) :=
  dispatch_loop (S (Z.to_nat k_queue_size)) w false.

(** ** Completion *)

(** The throughput estimate after [done_] completed at [finish]. *)
Definition ewma_after (ewma : Z) (done_ : option IoRequest) (dispatched finish : Z) : Z :=
  match done_ with
  | Some x =>
      if negb (dispatched =? 0) && (dispatched <? finish) then
        let instant := ceil_div_u64 (u64 (request_bytes x * 1000000)) (finish - dispatched) in
        if negb (instant =? 0) then u64 (u64 (ewma * 7) + instant) / 8 else ewma
      else ewma
  | None => ewma
  end.

(** [done->io_status = 0; done->completed = true; ...; wakeup]. *)
Definition complete_request (w : World) (r : ptr) (x : IoRequest) : World :=
  let w := with_reqs w (<[r := with_completion x 0]> (reqs w)) in
  let w := if bool_decide (completion_type x = BufferCache) && negb (owner_buf x =? nullptr)
           then with_disk w (<[owner_buf x := 0]> (disk w)) else w in
  emit w [Wakeup (wait_channel x)].

(** One turn of the loop over the used ring; [None] if the ring has nothing new. *)
Definition process_one (w : World) : outcome (option World) :=
  let q := queue w in
  if used_idx_ q =? u_id (used_ q) then Ret None else
  let w := emit w [Barrier] in
  let! elem := aget (elems (used_ q)) (used_idx_ q mod k_queue_size) in
  let id := i32 elem.1 in
  if (id <? 0) || (k_queue_size <=? id) then Panic else
  let! info := aget (info_ q) id in
  if negb (status info =? 0) then Panic else
  let (w, finish) := now_us w in
  let! done_ := (if i_request info =? nullptr then Ret None
                 else let! x := get_req w (i_request info) in Ret (Some x)) in
  let ewma := ewma_after (ewma_bps_ q) done_ (dispatch_us info) finish in
  let w := match done_ with Some x => complete_request w (i_request info) x | None => w end in
  let! infos := aset (info_ q) id (mkInfo nullptr (header info) (status info) 0) in
  let! q := free_chain_locked (with_info q infos) id in
  Ret (Some (with_queue w (with_counts q (u16 (used_idx_ q + 1)) (i32 (inflight_count_ q - 1)) ewma))).

(** The device writes memory while the loop runs: [dev] holds what it does before
    each read of the used index. *)
Fixpoint process_loop (fuel : nat) (dev : list (World → World)) (w : World) : outcome World :=
  match fuel with
  | O => Stuck
  | S n =>
      let w := match dev with d :: _ => d w | [] => w end in
      let! res := process_one w in
      match res with None => Ret w | Some w => process_loop n (tail dev) w end
  end.

Definition process_used_locked (dev : list (World → World)) (w : World) : outcome World :=
  let! w := process_loop (S (Z.to_nat k_queue_size)) dev w in
  let! (w, _, _) := dispatch_pending_locked w in
  Ret w.

(** ** Calls *)

(** From the loop condition to the next point without the lock.  [has_pcb] is
    [get_cur_pcb() != nullptr], [polling] the transport's [polling_wait()]. *)
Definition wait_section (r : ptr) (has_pcb polling : bool) (dev : list (World → World)) (w : World)
    : outcome (World * WaitStatus) :=
  let! x := get_req w r in
  if completed x then Ret (w, Returned) else
  let! w := process_used_locked dev w in
  let! x := get_req w r in
  if completed x then Ret (w, Returned) else
  let! (w, _, gate) := dispatch_pending_locked w in
  if negb has_pcb then Ret (w, Spinning)
  else if polling then Ret (w, Yielding)
  else if negb (gate =? 0) && (inflight_count_ (queue w) =? 0) then Ret (w, Yielding)
  else Ret (w, Sleeping).

Definition submit_request (r : ptr) (w : World) : outcome World :=
  let (w, t) := now_us w in
  let! (s, rq) := sched_enqueue (scheduler_ (queue w)) (reqs w) r t (ewma_bps_ (queue w)) in
  let w := with_reqs (with_queue w (with_scheduler (queue w) s)) rq in
  let! (w, _, _) := dispatch_pending_locked w in
  Ret w.

(** The first section of [submit_request_and_wait]. *)
Definition submit_request_and_wait (r : ptr) (has_pcb polling : bool) (dev : list (World → World)) (w : World)
    : outcome (World * WaitStatus) :=
  let! w := submit_request r w in wait_section r has_pcb polling dev w.

(** The requests the two entry points build; [current] is the process's pid and
    I/O priority. *)
Definition buf_request (b : ptr) (bf : buf) (wr : bool) (current : option (Z * Z)) : IoRequest :=
  mkIoRequest (b_data bf) BSIZE (blockno bf) wr BSIZE
    (match current with Some (p, _) => p | None => 0 end)
    (match current with Some (_, n) => n | None => default_proc_prio end)
    b BufferCache b false 0 0 0 0 0 0 nullptr.

Definition transfer_request (r data_ : ptr) (data_len_ start_sector_ : Z) (wr : bool)
    (current : option (Z * Z)) : IoRequest :=
  mkIoRequest data_ data_len_ start_sector_ wr data_len_
    (match current with Some (p, _) => p | None => 0 end)
    (match current with Some (_, n) => n | None => default_proc_prio end)
    r CallerWait nullptr false 0 0 0 0 0 0 nullptr.

(** [r] is the address of the call's request. *)
Definition submit_and_wait (r b : ptr) (bf : buf) (wr : bool) (current : option (Z * Z))
    (polling : bool) (dev : list (World → World)) (w : World) : outcome (World * WaitStatus) :=
  let w := with_reqs w (<[r := buf_request b bf wr current]> (reqs w)) in
  let w := with_disk w (<[b := owner_token_ (queue w)]> (disk w)) in
  submit_request_and_wait r (bool_decide (is_Some current)) polling dev w.

Definition submit_transfer_and_wait (r data_ : ptr) (data_len_ start_sector_ : Z) (wr : bool)
    (current : option (Z * Z)) (polling : bool) (dev : list (World → World)) (w : World)
    : outcome (World * WaitStatus) :=
  let w := with_reqs w (<[r := transfer_request r data_ data_len_ start_sector_ wr current]> (reqs w)) in
  submit_request_and_wait r (bool_decide (is_Some current)) polling dev w.

Definition handle_interrupt (dev : list (World → World)) (w : World) : outcome World :=
  let! w := process_used_locked dev w in Ret (emit w [AckInterrupt]).

Definition poll_once (dev : list (World → World)) (w : World) : outcome World :=
  process_used_locked dev w.

End queue.

Arguments Queue T : clear implicits.
Arguments World T : clear implicits.

End VirtioQueue.
