(* ===== verification/VirtioRep.v ===== *)
(** * What the virtio queue represents

    The chains in flight, the completions the device has published and the
    requests still with the scheduler, and what the descriptor-level operations
    do to them. *)
From S2P Require Import Prelude IoSched VirtioQueue.
Import IoSched VirtioQueue.

Module VirtioRep.

(** A chain in flight: its three descriptors and its request. *)
Record chain := mkChain { c_head : Z; c_mid : Z; c_tail : Z; c_req : ptr }.

#[export] Instance chain_eq_dec : EqDecision chain.
Proof. solve_decision. Defined.

Definition descs_of (c : chain) : list Z := [c_head c; c_mid c; c_tail c].
Definition descs (fl : list chain) : list Z := flat_map descs_of fl.
Definition reqs_of (fl : list chain) : list ptr := c_req <$> fl.

(** Element [i] of an array that is long enough. *)
Definition at_ {A} `{Inhabited A} (l : list A) (i : Z) : A := l !!! Z.to_nat i.

Lemma at_insert {A} `{Inhabited A} (l : list A) i j x :
  0 ≤ i < Z.of_nat (length l) → 0 ≤ j → at_ (<[Z.to_nat i := x]> l) j = if bool_decide (j = i) then x else at_ l j.
Proof.
  intros Hi Hj. unfold at_. case_bool_decide as E; [subst; by apply lookup_total_aset_eq|].
  apply lookup_total_aset_ne; [lia|lia|congruence].
Qed.

Section free.
Context {T : Type}.

Abbreviation Queue := (VirtioQueue.Queue T).

(** ** Free descriptors *)

Definition nfree (l : list Z) : nat := length (base.filter (λ f, f ≠ 0) l).

Lemma nfree_cons f l : nfree (f :: l) = ((if (f =? 0)%Z then 0 else 1) + nfree l)%nat.
Proof.
  unfold nfree. rewrite filter_cons. destruct (decide (f ≠ 0)) as [Hf|Hf].
  - by rewrite (proj2 (Z.eqb_neq _ _)).
  - apply dec_stable in Hf as ->. done.
Qed.

Lemma count_free_spec l : ∀ c, 0 ≤ c < 3 → count_free l c = bool_decide (3 ≤ c + Z.of_nat (nfree l)).
Proof.
  induction l as [|f l IH]; intros c Hc.
  - cbn [count_free]. rewrite bool_decide_eq_false_2; [done|]. unfold nfree. cbn. lia.
  - cbn [count_free]. rewrite nfree_cons. destruct (Z.eqb_spec f 0) as [->|Hf]; cbn [negb].
    + by rewrite IH by done.
    + destruct (Z.leb_spec 3 (c + 1)).
      * rewrite bool_decide_eq_true_2; [done|lia].
      * rewrite IH by lia. apply bool_decide_ext. lia.
Qed.

(** The first free descriptor. *)
Lemma find_free l :
  (0 < nfree l)%nat → ∃ j f, list_find (λ f, f ≠ 0) l = Some (j, f) ∧ (j < length l)%nat ∧
    l !!! j ≠ 0 ∧ nfree (<[j := 0]> l) = pred (nfree l).
Proof.
  induction l as [|f l IH]; [unfold nfree; cbn; lia|]. rewrite nfree_cons. intros Hn. cbn [list_find].
  destruct (decide (f ≠ 0)) as [Hf|Hf].
  - exists 0%nat, f. split_and!; [done|cbn; lia|done|]. cbn [insert list_insert].
    rewrite nfree_cons, (proj2 (Z.eqb_neq f 0)) by done. done.
  - apply dec_stable in Hf as ->. destruct IH as (j & g & E & Hj & Hg & Hc); [cbn in Hn; lia|].
    exists (S j), g. rewrite E. split_and!; [done|cbn; lia|done|].
    change (nfree (0 :: <[j := 0]> l) = pred (nfree l)). by rewrite nfree_cons, Hc.
Qed.

Lemma alloc_loop_spec n : ∀ (q : Queue) acc, (n ≤ nfree (free_ q))%nat →
  ∃ l fr, alloc_loop n q acc = Ret (VirtioQueue.with_free q fr, Some (acc ++ l)) ∧ length l = n ∧ NoDup l ∧
    (∀ i, i ∈ l → 0 ≤ i < Z.of_nat (length (free_ q)) ∧ at_ (free_ q) i ≠ 0) ∧
    length fr = length (free_ q) ∧
    (∀ i, 0 ≤ i → at_ fr i = if bool_decide (i ∈ l) then 0 else at_ (free_ q) i).
Proof.
  induction n as [|n IH]; intros q acc Hn.
  - exists [], (free_ q). rewrite app_nil_r. split_and!; try done.
    + by destruct q.
    + constructor.
    + intros i Hi. by apply not_elem_of_nil in Hi.
  - cbn [alloc_loop]. destruct (find_free (free_ q)) as (j & f & -> & Hj & Hf & Hc); [lia|].
    set (q1 := VirtioQueue.with_free q (<[j := 0]> (free_ q))).
    assert (∀ i, 0 ≤ i → at_ (<[j := 0]> (free_ q)) i = if bool_decide (i = Z.of_nat j) then 0 else at_ (free_ q) i) as Hat.
    { intros i Hi. rewrite <- (Nat2Z.id j) at 1. apply at_insert; lia. }
    destruct (IH q1 (acc ++ [Z.of_nat j])) as (l & fr & E & Hl & Hnd & Hin & Hlen & Hfr); [unfold q1; cbn [free_ VirtioQueue.with_free]; lia|].
    cbn [free_ q1 VirtioQueue.with_free] in Hin, Hlen, Hfr. rewrite length_insert in Hin, Hlen.
    assert (Z.of_nat j ∉ l) as Hjl.
    { intros Hjl. destruct (Hin _ Hjl) as [_ Hz]. rewrite Hat, bool_decide_eq_true_2 in Hz by (done || lia). done. }
    exists (Z.of_nat j :: l), fr. rewrite E. rewrite <- app_assoc. split_and!; [done|cbn; lia|by constructor| |done|].
    + intros i [->|Hi]%elem_of_cons.
      * split; [lia|]. unfold at_. by rewrite Nat2Z.id.
      * destruct (Hin i Hi) as [Hr Hz]. split; [done|]. rewrite Hat in Hz by lia.
        by case_bool_decide.
    + intros i Hi. rewrite Hfr, Hat by done. destruct (decide (i = Z.of_nat j)) as [->|Hij].
      * rewrite !(bool_decide_eq_true_2 (Z.of_nat j ∈ _ :: _)), (bool_decide_eq_true_2 (_ = _)) by (done || by left).
        by case_bool_decide.
      * rewrite (bool_decide_eq_false_2 (i = _)) by done. f_equal.
        erewrite bool_decide_ext; [done|]. rewrite elem_of_cons. naive_solver.
Qed.

Lemma nfree_all l : (∀ i, 0 ≤ i < Z.of_nat (length l) → at_ l i ≠ 0) → nfree l = length l.
Proof.
  unfold at_. induction l as [|f l IH]; intros Hl; [done|]. cbn [length] in *. rewrite nfree_cons, IH.
  - pose proof (Hl 0) as Hf. cbn in Hf. rewrite (proj2 (Z.eqb_neq _ _)) by (apply Hf; lia). done.
  - intros i Hi. specialize (Hl (i + 1)). rewrite Z2Nat.inj_add, Nat.add_1_r in Hl by lia. apply Hl. lia.
Qed.

End free.

Section rep.
Context {T : Type} (dma_addr : ptr → Z) (header_at status_at : Z → ptr).

Abbreviation Queue := (VirtioQueue.Queue T).
Abbreviation qsize := (Z.to_nat k_queue_size).

(** The chain [c] carries its request [x]. *)
Record ChainOk (q : Queue) (x : IoRequest) (c : chain) : Prop := {
  ck_desc : chain_descs dma_addr header_at status_at x (c_head c) (c_mid c) (c_tail c) =
    (at_ (desc_ q) (c_head c), at_ (desc_ q) (c_mid c), at_ (desc_ q) (c_tail c));
  ck_request : i_request (at_ (info_ q) (c_head c)) = c_req c;
  ck_header : header (at_ (info_ q) (c_head c)) =
    mkReq (if write x then k_req_type_write else k_req_type_read) 0 (start_sector x)
}.

Definition in_range (i : Z) : Prop := 0 ≤ i < k_queue_size.

(** The descriptor table: the chains [fl] own their descriptors, the rest is free. *)
Record TableOk (q : Queue) (rq : requests) (fl : list chain) : Prop := {
  tb_desc : length (desc_ q) = qsize;
  tb_free : length (free_ q) = qsize;
  tb_info : length (info_ q) = qsize;
  tb_avail : (130 ≤ length (avail_ q))%nat;
  tb_nodup : NoDup (descs fl);
  tb_range : ∀ i, i ∈ descs fl → in_range i;
  tb_owner : ∀ i, in_range i → at_ (free_ q) i = 0 ↔ i ∈ descs fl;
  tb_chain : ∀ c, c ∈ fl → ChainOk q (rq !!! c_req c) c;
  tb_count : inflight_count_ q = Z.of_nat (length fl);
  tb_idle : ∀ i, in_range i → i ∉ c_head <$> fl → i_request (at_ (info_ q) i) = nullptr
}.

(** The used ring: the device has published the heads of [done_], in this order, with
    their status; the driver has taken everything before. *)
Record RingOk (q : Queue) (fl : list chain) (done_ : list (Z * Z)) : Prop := {
  rg_elems : length (elems (used_ q)) = qsize;
  rg_idx : 0 ≤ used_idx_ q < 2 ^ 16;
  rg_id : u_id (used_ q) = u16 (used_idx_ q + Z.of_nat (length done_));
  rg_heads : ∀ h, h ∈ done_.*1 → h ∈ c_head <$> fl;
  rg_nodup : NoDup done_.*1;
  rg_elem : ∀ k h, done_.*1 !! k = Some h →
    (at_ (elems (used_ q)) ((used_idx_ q + Z.of_nat k) mod k_queue_size)).1 = h;
  rg_status : ∀ h st, (h, st) ∈ done_ → status (at_ (info_ q) h) = st
}.

(** The avail ring: the device has fetched everything before index [seen]; the
    heads [waiting] are published for it, in this order. *)
Record AvailOk (q : Queue) (seen : Z) (waiting : list Z) : Prop := {
  av_seen : 0 ≤ seen < 2 ^ 16;
  av_idx : at_ (avail_ q) 1 = u16 (seen + Z.of_nat (length waiting));
  av_elem : ∀ k h, waiting !! k = Some h →
    at_ (avail_ q) (2 + (seen + Z.of_nat k) mod k_queue_size) = h
}.

Lemma u16_mod_queue a : u16 a mod k_queue_size = a mod k_queue_size.
Proof.
  unfold u16, k_queue_size. symmetry. apply Znumtheory.Zmod_div_mod; [lia|lia|by exists 512].
Qed.

Lemma u16_advance a n : 0 ≤ a < 2 ^ 16 → 0 < n < 2 ^ 16 → u16 (a + n) ≠ a.
Proof. intros Ha Hn. unfold u16. destruct (mod_wrap (a + n) (2 ^ 16)) as [[_ ->]|[_ ->]]; lia. Qed.

(** Two ring positions less than a turn apart are different. *)
Lemma ring_slots_differ a k n : 0 ≤ k < n → n < k_queue_size → (a + k) mod k_queue_size ≠ (a + n) mod k_queue_size.
Proof.
  intros Hk Hn E. unfold k_queue_size in *.
  assert ((a + n - (a + k)) mod 128 = 0) as E0 by (rewrite Zminus_mod, E, Z.sub_diag; done).
  replace (a + n - (a + k)) with (n - k) in E0 by lia. rewrite Z.mod_small in E0; lia.
Qed.

(** Publishing one more head. *)
Lemma avail_publish (q q' : Queue) seen waiting h :
  AvailOk q seen waiting → (130 ≤ length (avail_ q))%nat → (length waiting < 128)%nat →
  avail_ q' = <[Z.to_nat 1 := u16 (at_ (avail_ q) 1 + 1)]>
    (<[Z.to_nat (2 + at_ (avail_ q) 1 mod k_queue_size) := h]> (avail_ q)) →
  AvailOk q' seen (waiting ++ [h]).
Proof.
  intros [A1 A2 A3] Hlen Hw E. pose proof (Z.mod_pos_bound (at_ (avail_ q) 1) 128 ltac:(lia)) as Hslot.
  pose proof (u16_mod_queue (seen + Z.of_nat (length waiting))) as Eslot. rewrite <- A2 in Eslot.
  assert (∀ i, 2 ≤ i → at_ (avail_ q') i =
    if bool_decide (i = 2 + at_ (avail_ q) 1 mod k_queue_size) then h else at_ (avail_ q) i) as Hat.
  { intros i Hi. rewrite E, at_insert by (rewrite ?length_insert; lia). rewrite bool_decide_eq_false_2 by lia.
    apply at_insert; unfold k_queue_size in *; lia. }
  split; [done|..].
  - rewrite E, at_insert by (rewrite ?length_insert; lia). rewrite bool_decide_eq_true_2 by done.
    rewrite A2, length_app. unfold u16. rewrite Zplus_mod_idemp_l. cbn. f_equal. lia.
  - intros k h' Hk. pose proof (Z.mod_pos_bound (seen + Z.of_nat k) k_queue_size ltac:(done)).
    rewrite Hat, Eslot by lia. apply lookup_snoc_Some in Hk as [[Hk Hk']|[-> ->]].
    + rewrite bool_decide_eq_false_2, (A3 k h' Hk'); [done|].
      intros E'. eapply (ring_slots_differ seen (Z.of_nat k) (Z.of_nat (length waiting)));
        [lia|unfold k_queue_size; lia|]. lia.
    + by rewrite bool_decide_eq_true_2.
Qed.

(** ** Sizes *)

Lemma length_descs fl : length (descs fl) = (3 * length fl)%nat.
Proof. induction fl as [|c fl IH]; [done|]. change (descs (c :: fl)) with (descs_of c ++ descs fl). rewrite length_app, IH. cbn. lia. Qed.

Lemma table_bound (q : Queue) rq fl : TableOk q rq fl → (3 * length fl ≤ 128)%nat.
Proof.
  intros [_ _ _ _ Hnd Hr _ _ _ _]. rewrite <- length_descs. change 128%nat with (length (seqZ 0 128)).
  apply submseteq_length, NoDup_submseteq; [done|]. intros i Hi. apply elem_of_seqZ.
  pose proof (Hr i Hi) as Hir. unfold in_range, k_queue_size in Hir. lia.
Qed.

(** With nothing in flight there is room for a chain. *)
Lemma table_empty (q : Queue) rq : TableOk q rq [] → has_free_desc_chain_locked q = true.
Proof.
  intros [_ Hf _ _ _ _ Ho _ _ _]. unfold has_free_desc_chain_locked. rewrite count_free_spec by lia.
  apply bool_decide_eq_true_2. rewrite nfree_all; [rewrite Hf; by vm_compute|].
  intros i Hi E. rewrite Hf in Hi. apply Ho in E; [by apply not_elem_of_nil in E|].
  unfold in_range. unfold k_queue_size in *. lia.
Qed.

End rep.

End VirtioRep.
