(* ===== verification/VirtioOps.v ===== *)
(** * The virtio queue's operations on what it represents *)
From S2P Require Import Prelude IoSched VirtioQueue VirtioRep.
Import IoSched VirtioQueue VirtioRep.

Module VirtioOps.

Section ops.
Context {T : Type} `{IoScheduler T} (dma_addr : ptr → Z) (header_at status_at : Z → ptr) (clock : nat → Z * Z).

Abbreviation Queue := (VirtioQueue.Queue T).
Abbreviation World := (VirtioQueue.World T).
Abbreviation ChainOk := (VirtioRep.ChainOk dma_addr header_at status_at).
Abbreviation TableOk := (VirtioRep.TableOk dma_addr header_at status_at).

Lemma elem_of_descs i fl : i ∈ descs fl ↔ ∃ c, c ∈ fl ∧ i ∈ descs_of c.
Proof. apply elem_of_flat_map. Qed.

Lemma descs_app fl fl' : descs (fl ++ fl') = descs fl ++ descs fl'.
Proof. apply flat_map_app. Qed.

Lemma head_in_descs c fl : c ∈ fl → c_head c ∈ descs fl.
Proof. intros Hc. apply elem_of_descs. exists c. split; [done|by left]. Qed.

Lemma ChainOk_frame (q q' : Queue) x c :
  (∀ i, i ∈ descs_of c → at_ (desc_ q') i = at_ (desc_ q) i) →
  at_ (info_ q') (c_head c) = at_ (info_ q) (c_head c) → ChainOk q x c → ChainOk q' x c.
Proof.
  intros Hd Hi [H1 H2 H3]. split; rewrite ?Hi; try done.
  rewrite H1, !Hd; [done|right; right; by left|right; by left|by left].
Qed.

(** ** Submission *)

Record Submitted (w w' : World) (fl : list chain) (c : chain) (done_ : list (Z * Z)) (r : ptr) : Prop := {
  sb_req : c_req c = r;
  sb_table : TableOk (queue w') (reqs w) (fl ++ [c]);
  sb_ring : RingOk (queue w') (fl ++ [c]) done_;
  sb_reqs : reqs w' = reqs w;
  sb_disk : disk w' = disk w;
  sb_ticks : ticks w' = S (ticks w);
  sb_sched : scheduler_ (queue w') = scheduler_ (queue w);
  sb_new : c_head c ∉ c_head <$> fl;
  sb_events : ∃ l, events w' = events w ++ l;
  sb_avail : ∀ seen waiting, (length waiting < 128)%nat →
    AvailOk (queue w) seen waiting → AvailOk (queue w') seen (waiting ++ [c_head c])
}.

(** Adding chain [c], whose descriptors were free, for request [r]. *)
Lemma add_chain (q q' : Queue) rq fl c :
  TableOk q rq fl →
  NoDup (descs_of c) → (∀ i, i ∈ descs_of c → in_range i ∧ at_ (free_ q) i ≠ 0) →
  length (desc_ q') = length (desc_ q) → length (free_ q') = length (free_ q) →
  length (info_ q') = length (info_ q) → length (avail_ q') = length (avail_ q) →
  (∀ i, 0 ≤ i → at_ (free_ q') i = if bool_decide (i ∈ descs_of c) then 0 else at_ (free_ q) i) →
  (∀ i, 0 ≤ i → i ∉ descs_of c → at_ (desc_ q') i = at_ (desc_ q) i) →
  (∀ i, 0 ≤ i → i ≠ c_head c → at_ (info_ q') i = at_ (info_ q) i) →
  ChainOk q' (rq !!! c_req c) c → inflight_count_ q' = inflight_count_ q + 1 →
  TableOk q' rq (fl ++ [c]) ∧ (∀ i, i ∈ descs_of c → i ∉ descs fl).
Proof.
  intros [T1 T2 T3 T4 T5 T6 T7 T8 T9 T10] Hnd Hnew L1 L2 L3 L4 Hf Hd Hi Hc Hn.
  assert (∀ i, i ∈ descs_of c → i ∉ descs fl) as Hdisj.
  { intros i Hic Hil. destruct (Hnew i Hic) as [Hir Hz]. by apply Hz, T7. }
  split; [|done]. split; rewrite ?L1, ?L2, ?L3, ?L4, ?descs_app; try done; cbn [descs flat_map]; rewrite ?app_nil_r.
  - apply NoDup_app. split_and!; [done| |done]. intros i Hil Hic. by apply (Hdisj i).
  - intros i [Hil|Hic]%elem_of_app; [by apply T6|by apply Hnew].
  - intros i Hir. unfold in_range in Hir. rewrite Hf, elem_of_app by lia. case_bool_decide as Hic.
    + naive_solver.
    + rewrite T7 by done. naive_solver.
  - intros c' [Hc'|Hc']%elem_of_app; [|by apply list_elem_of_singleton in Hc' as ->].
    assert (∀ i, i ∈ descs_of c' → 0 ≤ i ∧ i ∉ descs_of c) as Hout.
    { intros i Hic'. assert (i ∈ descs fl) as Hil by (apply elem_of_descs; eauto).
      split; [by destruct (T6 i Hil)|]. intros Hic. by apply (Hdisj i). }
    eapply ChainOk_frame; [| |by apply T8].
    + intros i Hic'. apply Hd; by apply Hout.
    + destruct (Hout (c_head c')) as [H0 Hh]; [by left|]. apply Hi; [done|]. intros E. apply Hh. rewrite E. by left.
  - rewrite Hn, T9, length_app. cbn. lia.
  - intros i Hir Hih. rewrite fmap_app, not_elem_of_app in Hih. destruct Hih as [Hih Hic].
    rewrite Hi; [by apply T10|by destruct Hir|]. intros ->. apply Hic. by left.
Qed.

Lemma RingOk_frame (q q' : Queue) fl fl' done_ :
  used_ q' = used_ q → used_idx_ q' = used_idx_ q →
  (∀ h, h ∈ done_.*1 → status (at_ (info_ q') h) = status (at_ (info_ q) h)) →
  (∀ h, h ∈ done_.*1 → h ∈ c_head <$> fl → h ∈ c_head <$> fl') → RingOk q fl done_ → RingOk q' fl' done_.
Proof.
  intros Eu Ei Hs Hh [R1 R2 R3 R4 R5 R6 R7]. split; rewrite ?Eu, ?Ei; try done.
  - intros h Hd. apply Hh; [done|by apply R4].
  - intros h st Hd. rewrite Hs by (apply list_elem_of_fmap; by exists (h, st)). by apply R7.
Qed.

Lemma done_range (q : Queue) rq fl done_ h : TableOk q rq fl → RingOk q fl done_ → h ∈ done_.*1 → in_range h.
Proof.
  intros HT HR Hh. apply (tb_range _ _ _ _ _ _ HT). apply (rg_heads _ _ _ HR) in Hh.
  apply list_elem_of_fmap in Hh as (c & -> & Hc). by apply head_in_descs.
Qed.

Lemma submit_one_spec (w : World) r fl done_ :
  TableOk (queue w) (reqs w) fl → RingOk (queue w) fl done_ → is_Some (reqs w !! r) →
  has_free_desc_chain_locked (queue w) = true →
  ∃ w' c, submit_one_locked dma_addr header_at status_at clock w r = Ret (w', true) ∧ Submitted w w' fl c done_ r.
Proof.
  intros HT HR [x Hx] Hfree. unfold has_free_desc_chain_locked in Hfree. rewrite count_free_spec in Hfree by lia.
  apply bool_decide_eq_true in Hfree. pose proof (table_bound _ _ _ _ _ _ HT) as Hb.
  pose proof HT as [T1 T2 T3 T4 _ _ _ _ T9 _].
  destruct (alloc_loop_spec 3 (queue w) []) as (l & fr & E & Hl & Hnd & Hin & Hlen & Hfr); [lia|].
  destruct l as [|h [|m [|t [|? ?]]]]; try done. cbn [app] in E.
  set (q := queue w) in *. set (c := mkChain h m t r).
  assert (∀ i, i ∈ descs_of c → in_range i ∧ at_ (free_ q) i ≠ 0) as Hnew.
  { intros i Hi. destruct (Hin i Hi) as [Hir Hz]. rewrite T2, Z2Nat.id in Hir by (unfold k_queue_size; lia). done. }
  destruct (Hnew h) as [Hh _]; [by left|]. destruct (Hnew m) as [Hm _]; [right; by left|].
  destruct (Hnew t) as [Ht _]; [right; right; by left|]. unfold in_range in Hh, Hm, Ht.
  assert (h ≠ m ∧ h ≠ t ∧ m ≠ t) as (Hhm & Hht & Hmt).
  { rewrite !NoDup_cons, !not_elem_of_cons in Hnd. tauto. }
  unfold k_queue_size in *. change (Z.to_nat 128) with 128%nat in *.
  unfold submit_one_locked, alloc_desc_chain_locked. fold q. rewrite E. cbn [obind].
  unfold get_req. rewrite Hx. cbn [obind now_us]. cbn [info_ desc_ avail_ VirtioQueue.with_free].
  unfold chain_descs. set (dh := mkDesc _ 16 _ _). set (dm := mkDesc _ (data_len x) _ _). set (dt := mkDesc _ 1 _ _).
  rewrite !(aset_in_range (info_ q)) by lia. cbn [obind].
  do 3 (rewrite (aset_in_range _ _ (_ : VRingDesc)) by (rewrite ?length_insert; lia); cbn [obind]).
  rewrite aget_total by lia. cbn [obind]. set (idx := avail_ q !!! Z.to_nat 1).
  pose proof (Z.mod_pos_bound idx 128).
  do 2 (rewrite (aset_in_range _ _ (_ : Z)) by (unfold k_queue_size; rewrite ?length_insert; lia); cbn [obind]).
  eexists _, c. split; [reflexivity|].
  match goal with |- Submitted _ ?w' _ _ _ _ => set (w1 := w') end.
  assert (∀ i, 0 ≤ i → at_ (desc_ (queue w1)) i = if bool_decide (i = t) then dt else
    if bool_decide (i = m) then dm else if bool_decide (i = h) then dh else at_ (desc_ q) i) as Ed.
  { intros i Hi. cbn. rewrite !at_insert by (rewrite ?length_insert; lia). done. }
  assert (at_ (desc_ (queue w1)) h = dh ∧ at_ (desc_ (queue w1)) m = dm ∧ at_ (desc_ (queue w1)) t = dt)
    as (Edh & Edm & Edt) by (rewrite !Ed by lia; clearbody dh dm dt; split_and!; repeat case_bool_decide; congruence).
  assert (∀ i, 0 ≤ i → i ≠ h → at_ (info_ (queue w1)) i = at_ (info_ q) i) as Ei.
  { intros i Hi Hih. cbn. rewrite at_insert by lia. by rewrite bool_decide_eq_false_2. }
  assert (at_ (info_ (queue w1)) h = mkInfo r (mkReq (if write x then k_req_type_write else k_req_type_read) 0
    (start_sector x)) 0xff (time_at clock (ticks w))) as Eh.
  { cbn. rewrite at_insert by lia. by rewrite bool_decide_eq_true_2. }
  assert (TableOk (queue w1) (reqs w) (fl ++ [c]) ∧ (∀ i, i ∈ descs_of c → i ∉ descs fl)) as [HT' Hdisj].
  { apply (add_chain q); try done; try (cbn; by rewrite ?length_insert).
    - intros i Hi Hic. rewrite Ed by done. change (i ∉ [h; m; t]) in Hic. rewrite !not_elem_of_cons in Hic.
      by rewrite !bool_decide_eq_false_2 by tauto.
    - split; cbn [c_head c_mid c_tail c_req c]; rewrite ?Eh; [|done|].
      + rewrite Edh, Edm, Edt, lookup_total_alt, Hx. done.
      + by rewrite lookup_total_alt, Hx.
    - cbn. rewrite T9. apply i32_small. lia. }
  assert (c_head c ∉ c_head <$> fl) as Hch.
  { intros (c' & Ec & Hc')%list_elem_of_fmap. apply (Hdisj (c_head c)); [by left|].
    rewrite Ec. by apply head_in_descs. }
  split; try done; [|by eexists|].
  2:{ intros seen waiting Hw HA. eapply (avail_publish q); [done|lia|lia|].
      cbn. unfold at_, idx. by rewrite (u16_small h) by lia. }
  eapply (RingOk_frame q _ fl); try done.
  - intros h' Hh'. rewrite Ei; [done| |].
    + by apply (done_range _ _ _ _ _ HT HR).
    + intros ->. apply Hch. by apply (rg_heads _ _ _ HR).
  - intros h' _ Hin'. rewrite fmap_app. apply elem_of_app. by left.
Qed.

(** ** Giving descriptors back *)

Lemma free_desc_spec (q : Queue) i :
  in_range i → length (desc_ q) = Z.to_nat k_queue_size → length (free_ q) = Z.to_nat k_queue_size →
  free_desc_locked q i = Ret (with_free (with_desc q (<[Z.to_nat i := zero_desc]> (desc_ q)))
    (<[Z.to_nat i := 1]> (free_ q))).
Proof.
  intros Hi L1 L2. unfold in_range, k_queue_size in *. unfold free_desc_locked.
  rewrite (proj2 (Z.ltb_ge _ _)), (proj2 (Z.leb_gt _ _)) by (unfold k_queue_size; lia). cbn [orb].
  rewrite aset_in_range by lia. cbn [obind]. by rewrite aset_in_range by lia.
Qed.

(** The queue with the descriptors of [l] given back. *)
Fixpoint freed (q : Queue) (l : list Z) : Queue :=
  match l with
  | [] => q
  | i :: l => freed (with_free (with_desc q (<[Z.to_nat i := zero_desc]> (desc_ q)))
      (<[Z.to_nat i := 1]> (free_ q))) l
  end.

Definition same_rest (q q' : Queue) : Prop :=
  length (desc_ q') = length (desc_ q) ∧ length (free_ q') = length (free_ q) ∧
  avail_ q' = avail_ q ∧ used_ q' = used_ q ∧ used_idx_ q' = used_idx_ q ∧ info_ q' = info_ q ∧
  inflight_count_ q' = inflight_count_ q ∧ ewma_bps_ q' = ewma_bps_ q ∧ scheduler_ q' = scheduler_ q.

Lemma freed_rest l : ∀ q, same_rest q (freed q l).
Proof.
  induction l as [|i l IH]; intros q; cbn [freed]; [by unfold same_rest|].
  destruct (IH (with_free (with_desc q (<[Z.to_nat i := zero_desc]> (desc_ q))) (<[Z.to_nat i := 1]> (free_ q))))
    as (E1 & E2 & E3 & E4 & E5 & E6 & E7 & E8 & E9).
  unfold same_rest. rewrite E1, E2, E3, E4, E5, E6, E7, E8, E9. cbn. by rewrite !length_insert.
Qed.

Lemma freed_at l : ∀ (q : Queue) i,
  (∀ k, k ∈ l → 0 ≤ k < Z.of_nat (length (free_ q))) → length (desc_ q) = length (free_ q) → 0 ≤ i →
  at_ (free_ (freed q l)) i = (if bool_decide (i ∈ l) then 1 else at_ (free_ q) i) ∧
  (i ∉ l → at_ (desc_ (freed q l)) i = at_ (desc_ q) i).
Proof.
  induction l as [|k l IH]; intros q i Hl Hlen Hi; [done|]. cbn [freed].
  set (q1 := with_free _ _). assert (0 ≤ k < Z.of_nat (length (free_ q))) as Hk by (apply Hl; by left).
  assert (length (free_ q1) = length (free_ q)) as L1 by (cbn; apply length_insert).
  destruct (IH q1 i) as [-> Hd]; [|cbn; by rewrite !length_insert|done|].
  { intros k' Hk'. rewrite L1. apply Hl. by right. }
  cbn [free_ desc_ q1 with_free with_desc] in *. split.
  - rewrite at_insert by lia. destruct (decide (i = k)) as [->|Hik].
    + rewrite (bool_decide_eq_true_2 (k ∈ _ :: _)), (bool_decide_eq_true_2 (k = k)) by (done || by left).
      by case_bool_decide.
    + rewrite (bool_decide_eq_false_2 (i = k)) by done. erewrite bool_decide_ext; [done|].
      rewrite elem_of_cons. naive_solver.
  - intros [Hik Hil]%not_elem_of_cons. rewrite Hd by done. rewrite at_insert by lia.
    by rewrite bool_decide_eq_false_2.
Qed.

Lemma free_chain_step fuel (q : Queue) i :
  in_range i → length (desc_ q) = Z.to_nat k_queue_size → length (free_ q) = Z.to_nat k_queue_size →
  free_chain_loop (S fuel) q i =
    let q1 := with_free (with_desc q (<[Z.to_nat i := zero_desc]> (desc_ q))) (<[Z.to_nat i := 1]> (free_ q)) in
    if Z.land (d_flags (at_ (desc_ q) i)) k_desc_flag_next =? 0 then Ret q1
    else free_chain_loop fuel q1 (d_next (at_ (desc_ q) i)).
Proof.
  intros Hi L1 L2. cbn [free_chain_loop]. rewrite aget_total.
  - cbn [obind]. by rewrite free_desc_spec.
  - unfold in_range in Hi. rewrite L1. unfold k_queue_size in *. lia.
Qed.

Lemma free_chain_spec (q : Queue) x c :
  length (desc_ q) = Z.to_nat k_queue_size → length (free_ q) = Z.to_nat k_queue_size →
  (∀ i, i ∈ descs_of c → in_range i) → NoDup (descs_of c) →
  chain_descs dma_addr header_at status_at x (c_head c) (c_mid c) (c_tail c) =
    (at_ (desc_ q) (c_head c), at_ (desc_ q) (c_mid c), at_ (desc_ q) (c_tail c)) →
  free_chain_locked q (c_head c) = Ret (freed q (descs_of c)).
Proof.
  intros L1 L2 Hr Hnd Hd. destruct c as [h m t r]. unfold descs_of in *. cbn [c_head c_mid c_tail] in *.
  assert (in_range h ∧ in_range m ∧ in_range t) as (Hh & Hm & Ht).
  { split_and!; apply Hr; [by left|right; by left|right; right; by left]. }
  assert (h ≠ m ∧ h ≠ t ∧ m ≠ t) as (Hhm & Hht & Hmt).
  { rewrite !NoDup_cons, !not_elem_of_cons in Hnd. tauto. }
  unfold chain_descs in Hd. injection Hd as Eh Em Et. unfold in_range in *.
  assert (h < 2 ^ 16 ∧ m < 2 ^ 16 ∧ t < 2 ^ 16) as (Hh' & Hm' & Ht') by (unfold k_queue_size in *; lia).
  unfold free_chain_locked. change (S (Z.to_nat k_queue_size)) with (S (S (S 126))).
  rewrite free_chain_step by done. rewrite <- Eh. cbn [d_flags d_next].
  change (Z.land k_desc_flag_next k_desc_flag_next =? 0) with false. cbv iota.
  rewrite u16_small, free_chain_step by (try done; lia || (cbn; by rewrite length_insert)).
  cbn [desc_ with_free with_desc]. rewrite !at_insert by (rewrite ?L1, ?Z2Nat.id by done; lia).
  rewrite (bool_decide_eq_false_2 (m = h)) by done. rewrite <- Em. cbn [d_flags d_next].
  replace (Z.land _ _ =? 0) with false by (by destruct (write x)). cbv iota.
  rewrite u16_small, free_chain_step by (try done; lia || (cbn; by rewrite !length_insert)).
  cbn [desc_ with_free with_desc]. rewrite !at_insert by (rewrite ?length_insert, ?L1, ?Z2Nat.id by done; lia).
  rewrite (bool_decide_eq_false_2 (t = m)), (bool_decide_eq_false_2 (t = h)) by done. rewrite <- Et. done.
Qed.

Lemma remove_chain (q q' : Queue) rq rq' A c B :
  TableOk q rq (A ++ c :: B) →
  length (desc_ q') = length (desc_ q) → length (free_ q') = length (free_ q) →
  length (info_ q') = length (info_ q) → length (avail_ q') = length (avail_ q) →
  (∀ i, 0 ≤ i → at_ (free_ q') i = if bool_decide (i ∈ descs_of c) then 1 else at_ (free_ q) i) →
  (∀ i, 0 ≤ i → i ∉ descs_of c → at_ (desc_ q') i = at_ (desc_ q) i) →
  (∀ i, 0 ≤ i → i ≠ c_head c → at_ (info_ q') i = at_ (info_ q) i) →
  i_request (at_ (info_ q') (c_head c)) = nullptr →
  (∀ d, d ∈ A ++ B → rq' !!! c_req d = rq !!! c_req d) → inflight_count_ q' = inflight_count_ q - 1 →
  TableOk q' rq' (A ++ B).
Proof.
  intros [T1 T2 T3 T4 T5 T6 T7 T8 T9 T10] L1 L2 L3 L4 Hf Hd Hi Hc0 Hrq Hn.
  assert (descs (A ++ c :: B) ≡ₚ descs_of c ++ descs (A ++ B)) as HP.
  { rewrite !descs_app. change (descs (c :: B)) with (descs_of c ++ descs B). solve_Permutation. }
  rewrite HP in T5. apply NoDup_app in T5 as (_ & Hdisj & T5).
  split; rewrite ?L1, ?L2, ?L3, ?L4; try done.
  - intros i Hil. apply T6. rewrite HP. apply elem_of_app. by right.
  - intros i Hir. unfold in_range in Hir. rewrite Hf by lia. case_bool_decide as Hic.
    + split; [done|]. intros Hil. by destruct (Hdisj i).
    + rewrite T7 by done. rewrite HP, elem_of_app. naive_solver.
  - intros d Hdin. assert (d ∈ A ++ c :: B) as Hdin' by in_list. rewrite Hrq by done.
    assert (∀ i, i ∈ descs_of d → 0 ≤ i ∧ i ∉ descs_of c) as Hout.
    { intros i Hid. assert (i ∈ descs (A ++ B)) as Hil by (apply elem_of_descs; eauto). split.
      - assert (i ∈ descs (A ++ c :: B)) as Hil' by (rewrite HP; apply elem_of_app; by right).
        by destruct (T6 i Hil').
      - intros Hic. by apply (Hdisj i). }
    eapply ChainOk_frame; [| |by apply T8].
    + intros i Hid. apply Hd; by apply Hout.
    + destruct (Hout (c_head d)) as [H0 Hh]; [by left|]. apply Hi; [done|]. intros E. apply Hh. rewrite E. by left.
  - rewrite Hn, T9, !length_app. cbn. lia.
  - intros i Hir Hih. destruct (decide (i = c_head c)) as [->|Hic]; [done|].
    rewrite Hi; [|by destruct Hir|done]. apply T10; [done|]. rewrite fmap_app in *. cbn. in_list.
Qed.

(** Taking the first published completion off the used ring. *)
Lemma ring_advance (q q' : Queue) A c B st done_ :
  RingOk q (A ++ c :: B) ((c_head c, st) :: done_) → used_ q' = used_ q → used_idx_ q' = u16 (used_idx_ q + 1) →
  (∀ h, h ∈ done_.*1 → status (at_ (info_ q') h) = status (at_ (info_ q) h)) → RingOk q' (A ++ B) done_.
Proof.
  intros [R1 R2 R3 R4 R5 R6 R7] Eu Ei Hs. apply NoDup_cons in R5 as [R5 R5']. cbn [length] in R3.
  split; rewrite ?Eu, ?Ei; try done.
  - apply Z.mod_pos_bound. lia.
  - rewrite R3. unfold u16. rewrite Zplus_mod_idemp_l. f_equal. lia.
  - intros h Hh. assert (h ∈ c_head <$> A ++ c :: B) as Hin by (apply R4; by right).
    rewrite fmap_app in *. cbn in Hin. assert (h ≠ c_head c) by (intros ->; done). in_list.
  - intros k h Hk. rewrite <- (R6 (S k) h Hk). do 2 f_equal. unfold u16, k_queue_size.
    rewrite <- (Zplus_mod_idemp_l (_ mod 2 ^ 16)).
    rewrite <- (Znumtheory.Zmod_div_mod 128 (2 ^ 16)); [|lia|lia|by exists 512].
    rewrite Zplus_mod_idemp_l. f_equal. lia.
  - intros h s Hh. rewrite Hs by (apply list_elem_of_fmap; by exists (h, s)). apply R7. by right.
Qed.

End ops.

End VirtioOps.
