(* ===== verification/VirtioCalls.v ===== *)
(** * The virtio queue with its scheduler

    The invariant that ties descriptors, rings, scheduler and requests together,
    and that every critical section keeps it and runs to its end, unless the device
    reports an error, on which it panics. *)
From S2P Require Import Prelude IoSched VirtioQueue VirtioRep VirtioOps.
Import IoSched VirtioQueue VirtioRep VirtioOps.

Module VirtioCalls.

Section calls.
Context {T : Type} `{IoSchedulerLaws T} (dma_addr : ptr → Z) (header_at status_at : Z → ptr).
Context (clock : nat → Z * Z).

Abbreviation Queue := (VirtioQueue.Queue T).
Abbreviation World := (VirtioQueue.World T).
Abbreviation TableOk := (VirtioRep.TableOk dma_addr header_at status_at).
Abbreviation Submitted := (VirtioOps.Submitted dma_addr header_at status_at).

(** Chains [fl] are in flight, of which the device has published [done_]; the
    requests [pend] are with the scheduler, each tagged with the time it came; all other
    requests are completed. *)
Record Inv (w : World) (fl : list chain) (done_ : list (Z * Z)) (pend : list ptr) : Prop := {
  iv_table : TableOk (queue w) (reqs w) fl;
  iv_ring : RingOk (queue w) fl done_;
  iv_pending : pending (scheduler_ (queue w)) (reqs w) pend;
  iv_nodup : NoDup (reqs_of fl ++ pend);
  iv_live : ∀ r, r ∈ reqs_of fl ++ pend → ∃ x, reqs w !! r = Some x ∧ completed x = false;
  iv_done : ∀ r x, reqs w !! r = Some x → r ∉ reqs_of fl ++ pend → completed x = true;
  iv_null : nullptr ∉ reqs_of fl;
  iv_time : ∀ r, r ∈ pend → ∃ n, (n < ticks w)%nat ∧ l_tag_us (reqs w !!! r) = time_at clock n
}.

(** At its last reading the clock was behind the tag of a request of [pend]. *)
Definition Held (w : World) (pend : list ptr) : Prop :=
  ∃ r, r ∈ pend ∧ time_at clock (pred (ticks w)) < l_tag_us (reqs w !!! r).

Lemma transfer_completed x y : transfer x = transfer y → completed x = completed y.
Proof. intros E. by injection E. Qed.

Lemma TableOk_transfers (q : Queue) rq rq' fl :
  (∀ r, r ∈ reqs_of fl → transfer (rq' !!! r) = transfer (rq !!! r)) → TableOk q rq fl → TableOk q rq' fl.
Proof.
  intros Ht [T1 T2 T3 T4 T5 T6 T7 T8 T9 T10]. split; try done. intros c Hc.
  destruct (T8 c Hc) as [C1 C2 C3]. injection (Ht (c_req c) ltac:(by apply list_elem_of_fmap_2)) as E1 E2 E3 E4 _ _ _ _ _ _ _ _.
  split; unfold chain_descs in *; by rewrite ?E1, ?E2, ?E3, ?E4.
Qed.

Lemma TableOk_fields (q q' : Queue) rq fl :
  desc_ q' = desc_ q → free_ q' = free_ q → info_ q' = info_ q → avail_ q' = avail_ q →
  inflight_count_ q' = inflight_count_ q → TableOk q rq fl → TableOk q' rq fl.
Proof.
  intros E1 E2 E3 E4 E5 [T1 T2 T3 T4 T5 T6 T7 T8 T9 T10]. split; rewrite ?E1, ?E2, ?E3, ?E4, ?E5; try done.
  intros c Hc. eapply ChainOk_frame; [| |by apply T8]; by rewrite ?E1, ?E3.
Qed.

Lemma transfers_lookup rq rq' r x :
  same_transfers rq rq' → rq !! r = Some x → ∃ y, rq' !! r = Some y ∧ transfer y = transfer x.
Proof.
  intros [Hd Ht] Hx. assert (r ∈ dom rq') as [y Hy]%elem_of_dom by (rewrite Hd; by eapply elem_of_dom_2).
  exists y. split; [done|]. specialize (Ht r). by rewrite !lookup_total_alt, Hx, Hy in Ht.
Qed.

Lemma same_transfers_sym rq rq' : same_transfers rq rq' → same_transfers rq' rq.
Proof. intros [H1 H2]. split; [done|]. intros r. by rewrite H2. Qed.

Lemma same_transfers_trans rq rq' rq'' :
  same_transfers rq rq' → same_transfers rq' rq'' → same_transfers rq rq''.
Proof. intros [H1 H2] [H3 H4]. split; [congruence|]. intros r. by rewrite H4, H2. Qed.

(** The scheduler's part of a step: some request may move out of [pend]. *)
Lemma after_dequeue (w : World) fl done_ pend s rq :
  Inv w fl done_ pend →
  same_transfers (reqs w) rq → (∀ k, l_tag_us (rq !!! k) = l_tag_us (reqs w !!! k)) →
  let w1 := mkWorld (with_scheduler (queue w) s) rq (disk w) (S (ticks w)) (events w) in
  TableOk (queue w1) (reqs w1) fl ∧ RingOk (queue w1) fl done_ ∧
  (∀ r, r ∈ reqs_of fl ++ pend → ∃ x, reqs w1 !! r = Some x ∧ completed x = false) ∧
  (∀ r x, reqs w1 !! r = Some x → r ∉ reqs_of fl ++ pend → completed x = true) ∧
  (∀ r, r ∈ pend → ∃ n, (n < ticks w1)%nat ∧ l_tag_us (reqs w1 !!! r) = time_at clock n).
Proof.
  intros [HT HR _ _ Hl Hd _ Htm] Hst Htag w1. cbn. split_and!.
  - destruct Hst as [_ Hst]. apply (TableOk_transfers _ _ rq _ (λ r _, Hst r)) in HT. by apply (TableOk_fields (queue w)).
  - by apply (RingOk_frame (queue w) _ fl).
  - intros r Hr. destruct (Hl r Hr) as (x & Hx & Hc). destruct (transfers_lookup _ _ _ _ Hst Hx) as (y & Hy & E).
    exists y. by rewrite (transfer_completed _ _ E).
  - intros r x Hx Hr. destruct (transfers_lookup _ _ _ _ (same_transfers_sym _ _ Hst) Hx) as (y & Hy & E).
    rewrite <- (transfer_completed _ _ E). by eapply Hd.
  - intros r Hr. rewrite Htag. destruct (Htm r Hr) as (n & Hn & ->). exists n. split; [lia|done].
Qed.

(** What a dispatch does: it moves requests [fl'] from the scheduler into flight
    until none is left, there is no room, or the scheduler holds the rest back. *)
Record Dispatched (w w' : World) (fl fl' : list chain) (done_ : list (Z * Z)) (pend pend' : list ptr) : Prop := {
  dp_inv : Inv w' (fl ++ fl') done_ pend';
  dp_moved : pend ≡ₚ reqs_of fl' ++ pend';
  dp_reqs : same_transfers (reqs w) (reqs w');
  dp_disk : disk w' = disk w;
  dp_events : ∃ l, events w' = events w ++ l;
  dp_avail : ∀ seen waiting, (length waiting ≤ length fl)%nat →
    AvailOk (queue w) seen waiting → AvailOk (queue w') seen (waiting ++ (c_head <$> fl'));
  dp_busy : pend' = [] ∨ has_free_desc_chain_locked (queue w') = false ∨ Held w' pend'
}.

Lemma inflight_room (q : Queue) rq fl : TableOk q rq fl → inflight_count_ q <? k_queue_size = true.
Proof.
  intros HT. pose proof (table_bound _ _ _ _ _ _ HT). pose proof (tb_count _ _ _ _ _ _ HT).
  unfold k_queue_size. apply Z.ltb_lt. lia.
Qed.

Lemma dispatch_loop_spec fuel : ∀ (w : World) fl done_ pend b,
  Inv w fl done_ pend → (43 ≤ fuel + length fl)%nat →
  ∃ w' b' gate fl' pend', dispatch_loop dma_addr header_at status_at clock fuel w b = Ret (w', b', gate) ∧
    Dispatched w w' fl fl' done_ pend pend'.
Proof.
  induction fuel as [|fuel IH]; intros w fl done_ pend b HI Hf;
    pose proof (table_bound _ _ _ _ _ _ (iv_table _ _ _ _ HI)); [lia|].
  cbn [dispatch_loop]. rewrite (inflight_room _ _ _ (iv_table _ _ _ _ HI)). cbn [andb].
  destruct (has_free_desc_chain_locked (queue w)) eqn:Efree.
  2:{ eexists w, _, _, [], pend. split; [reflexivity|]. split; try done; [by rewrite app_nil_r| | |by right; left].
      - exists []. by rewrite app_nil_r.
      - intros. by rewrite app_nil_r. }
  cbn [now_us queue reqs].
  destruct (dequeue_law _ _ _ (time_at clock (ticks w)) (iv_pending _ _ _ _ HI)) as
    (s & rq & d & -> & Hst & Htag & Hout & Hcase); [apply u64_range|]. cbn [obind].
  destruct (after_dequeue w fl done_ pend s rq HI Hst Htag) as (HT1 & HR1 & Hl1 & Hd1 & Htm1).
  set (w1 := mkWorld (with_scheduler (queue w) s) rq (disk w) (S (ticks w)) (events w)) in *.
  change (with_reqs _ rq) with w1.
  destruct (Z.eqb_spec (request d) nullptr) as [Ed|Ed].
  - destruct Hcase as [Hp Hwhy]. exists w1, b, (next_gate_us d), [], pend. split; [done|].
    split; try done.
    + rewrite app_nil_r. destruct HI. split; try done.
    + exists []. by rewrite app_nil_r.
    + intros seen waiting _ [A1 A2 A3]. rewrite app_nil_r. by split.
    + destruct Hwhy as [?|(r & Hr & Hlt)]; [by left|right; right]. exists r. split; [done|]. cbn. by rewrite Htag.
  - destruct Hcase as (pend1 & Hperm & Hp1). set (r := request d) in *.
    destruct (submit_one_spec dma_addr header_at status_at clock w1 r fl done_ HT1 HR1) as (w2 & c & E2 & HS).
    { destruct (Hl1 r) as (x & Hx & _); [rewrite elem_of_app, Hperm; right; by left|by eexists]. }
    { done. }
    rewrite E2. cbn [obind negb]. destruct HS as [Sr ST SR Srq Sdisk Stk Ssc Sn [l1 Sev] Sav].
    assert (reqs_of (fl ++ [c]) ++ pend1 ≡ₚ reqs_of fl ++ pend) as HP.
    { unfold reqs_of. rewrite fmap_app, <- app_assoc, Hperm. cbn. by rewrite Sr. }
    assert (Inv w2 (fl ++ [c]) done_ pend1) as HI2.
    { destruct HI as [_ _ _ Hnd _ _ Hn0 _]. split; rewrite ?Srq, ?Ssc, ?Stk; try done.
      - by rewrite HP.
      - intros k Hk. apply Hl1. by rewrite <- HP.
      - intros k x Hx Hk. apply (Hd1 k x Hx). by rewrite <- HP.
      - unfold reqs_of. rewrite fmap_app, elem_of_app. cbn. rewrite list_elem_of_singleton, Sr. naive_solver.
      - intros k Hk. destruct (Htm1 k) as (n & Hn & ->); [rewrite Hperm; by right|]. exists n. split; [lia|done]. }
    destruct (IH w2 (fl ++ [c]) done_ pend1 true HI2) as (w' & b' & gate & fl' & pend' & E & HD);
      [rewrite length_app; cbn; lia|].
    exists w', b', gate, (c :: fl'), pend'. split; [done|]. destruct HD as [D1 D2 D3 D4 [l2 D5] D6 D7].
    split; [by rewrite <- app_assoc in D1| | | | | |done].
    + rewrite Hperm, D2. cbn. by rewrite Sr.
    + rewrite Srq in D3. by eapply same_transfers_trans.
    + by rewrite D4, Sdisk.
    + exists (l1 ++ l2). by rewrite D5, Sev, <- app_assoc.
    + intros seen waiting Hw [A1 A2 A3]. replace (waiting ++ (c_head <$> c :: fl')) with ((waiting ++ [c_head c]) ++ (c_head <$> fl')) by (by rewrite <- app_assoc).
      apply D6; [rewrite !length_app; cbn; lia|]. apply Sav; [lia|]. by split.
Qed.

(** ** Completion *)

(** One completion: chain [c] is given back and its request completed. *)
Record Processed (w w' : World) (c : chain) (x : IoRequest) : Prop := {
  pr_req : reqs w !! c_req c = Some x;
  pr_reqs : reqs w' = <[c_req c := with_completion x 0]> (reqs w);
  pr_disk : disk w' = if bool_decide (completion_type x = BufferCache) && negb (owner_buf x =? nullptr)
                      then <[owner_buf x := 0]> (disk w) else disk w;
  pr_events : events w' = events w ++ [Barrier; Wakeup (wait_channel x)];
  pr_avail : avail_ (queue w') = avail_ (queue w)
}.

Lemma process_one_none (w : World) fl pend : Inv w fl [] pend → process_one clock w = Ret None.
Proof.
  intros [_ [_ R2 R3 _ _ _ _] _ _ _ _ _ _]. unfold process_one. cbn [length] in R3.
  rewrite R3, Z.add_0_r, u16_small, Z.eqb_refl by done. done.
Qed.

(** The first checks of [process_one] pass. *)
Lemma used_head (w : World) fl done_ pend h st :
  Inv w fl ((h, st) :: done_) pend →
  used_idx_ (queue w) =? u_id (used_ (queue w)) = false ∧
  ∃ len, aget (elems (used_ (queue w))) (used_idx_ (queue w) mod k_queue_size) = Ret (h, len) ∧
    i32 h = h ∧ in_range h ∧ aget (info_ (queue w)) h = Ret (at_ (info_ (queue w)) h) ∧
    status (at_ (info_ (queue w)) h) = st.
Proof.
  intros [HT HR _ _ _ _ _ _]. pose proof (table_bound _ _ _ _ _ _ HT) as Hb.
  pose proof (done_range _ _ _ _ _ _ _ h HT HR) as Hr. pose proof HR as [R1 R2 R3 R4 R5 R6 R7].
  assert (length ((h, st) :: done_) ≤ length fl)%nat as Hlen.
  { rewrite <- (length_fmap c_head fl), <- (length_fmap fst ((h, st) :: done_)). apply submseteq_length, NoDup_submseteq; [done|exact R4]. }
  assert (in_range h) as Hh by (apply Hr; by left). unfold in_range, k_queue_size in *. split.
  - apply Z.eqb_neq. rewrite R3. apply not_eq_sym, u16_advance; [done|]. cbn [length] in *. lia.
  - pose proof (R6 0%nat h eq_refl) as Eh. rewrite Z.add_0_r in Eh. unfold at_ in Eh.
    pose proof (Z.mod_pos_bound (used_idx_ (queue w)) 128).
    exists (elems (used_ (queue w)) !!! Z.to_nat (used_idx_ (queue w) mod 128)).2. split_and!.
    + rewrite aget_total by lia. f_equal. destruct (_ !!! _). cbn in *. by subst.
    + apply i32_small. lia.
    + lia.
    + lia.
    + apply aget_total. pose proof (tb_info _ _ _ _ _ _ HT) as L. rewrite L. unfold k_queue_size. lia.
    + apply R7. by left.
Qed.

(** The request of the chain is taken out of [info_], the descriptors are given
    back and the counters move on. *)
Definition retired (q : Queue) (c : chain) (ewma : Z) : Queue :=
  let infos := <[Z.to_nat (c_head c) :=
    mkInfo nullptr (header (at_ (info_ q) (c_head c))) 0 0]> (info_ q) in
  let q1 := freed (with_info q infos) (descs_of c) in
  with_counts q1 (u16 (used_idx_ q1 + 1)) (i32 (inflight_count_ q1 - 1)) ewma.

Lemma retired_ok (q : Queue) rq rq' A c B st done_ ewma :
  TableOk q rq (A ++ c :: B) → RingOk q (A ++ c :: B) ((c_head c, st) :: done_) →
  (∀ d, d ∈ A ++ B → rq' !!! c_req d = rq !!! c_req d) →
  TableOk (retired q c ewma) rq' (A ++ B) ∧ RingOk (retired q c ewma) (A ++ B) done_.
Proof.
  intros HT HR Hrq. pose proof HT as [T1 T2 T3 _ T5 T6 _ _ T9 _]. pose proof (table_bound _ _ _ _ _ _ HT) as Hb.
  assert (∀ i, i ∈ descs_of c → in_range i) as Hcr.
  { intros i Hi. apply T6, elem_of_descs. exists c. split; [in_list|done]. }
  pose proof (Hcr (c_head c) ltac:(by left)) as Hh. unfold in_range, k_queue_size in *.
  unfold retired. set (infos := <[_ := _]> (info_ q)).
  assert (∀ i, 0 ≤ i → i ≠ c_head c → at_ infos i = at_ (info_ q) i) as Hi.
  { intros i Hi Hne. unfold infos. rewrite at_insert by lia. by rewrite bool_decide_eq_false_2. }
  assert (∀ i, 0 ≤ i → at_ (free_ (freed (with_info q infos) (descs_of c))) i =
      (if bool_decide (i ∈ descs_of c) then 1 else at_ (free_ q) i) ∧
    (i ∉ descs_of c → at_ (desc_ (freed (with_info q infos) (descs_of c))) i = at_ (desc_ q) i)) as Hat.
  { intros i Hi0. apply (freed_at dma_addr header_at status_at) with (q := with_info q infos); [|cbn; lia|done]. intros k Hk. specialize (Hcr k Hk). cbn. lia. }
  pose proof (freed_rest (descs_of c) (with_info q infos)) as (E1 & E2 & E3 & E4 & E5 & E6 & E7 & _ & _).
  set (q1 := freed _ _) in *. clearbody q1. cbn in E1, E2, E3, E4, E5, E6, E7.
  split.
  - apply (remove_chain _ _ _ q _ rq rq' A c B HT); cbn; rewrite ?E1, ?E2, ?E3, ?E6, ?E7; try done.
    + apply length_insert.
    + intros i Hi0. by apply Hat.
    + intros i Hi0. by apply Hat.
    + unfold infos. rewrite at_insert by lia. by rewrite bool_decide_eq_true_2.
    + rewrite T9. apply i32_small. lia.
  - apply (ring_advance dma_addr header_at status_at q _ A c B st done_ HR); cbn; rewrite ?E4, ?E5, ?E6; try done.
    intros h Hd. rewrite Hi; [done| |].
    + pose proof (done_range _ _ _ _ _ _ _ h HT HR) as Hr. unfold in_range in Hr.
      assert (h ∈ ((c_head c, st) :: done_).*1) as Hin by (by right). by destruct (Hr Hin).
    + intros ->. pose proof (rg_nodup _ _ _ HR) as Hnd. by apply NoDup_cons in Hnd as [? _].
Qed.

(** A completion with an error status ends in a panic. *)
Lemma process_one_error (w : World) fl done_ pend h st :
  Inv w fl ((h, st) :: done_) pend → st ≠ 0 → process_one clock w = Panic.
Proof.
  intros HI Hst. destruct (used_head w fl done_ pend h st HI) as (E1 & len & E2 & E3 & Hh & E4 & E5).
  unfold process_one. rewrite E1, E2. cbn [obind fst]. rewrite E3. unfold in_range in Hh.
  rewrite (proj2 (Z.ltb_ge _ _)), (proj2 (Z.leb_gt _ _)) by lia. cbn [orb]. rewrite E4. cbn [obind].
  by rewrite E5, (proj2 (Z.eqb_neq _ _)).
Qed.

Lemma process_one_some (w : World) fl done_ pend h :
  Inv w fl ((h, 0) :: done_) pend →
  ∃ w' A c B x, fl = A ++ c :: B ∧ c_head c = h ∧ process_one clock w = Ret (Some w') ∧
    Inv w' (A ++ B) done_ pend ∧ Processed w w' c x.
Proof.
  intros HI. destruct (used_head w fl done_ pend h 0 HI) as (E1 & len & E2 & E3 & Hh & E4 & E5).
  pose proof HI as [HT HR Hp Hnd Hl Hd Hn Htm].
  assert (h ∈ c_head <$> fl) as Hin by (apply (rg_heads _ _ _ HR); by left).
  apply list_elem_of_fmap in Hin as (c & -> & Hc).
  pose proof (tb_chain _ _ _ _ _ _ HT c Hc) as HcO. pose proof HcO as [C1 C2 C3].
  assert (c_req c ∈ reqs_of fl) as Hcr by (by apply list_elem_of_fmap_2).
  destruct (Hl (c_req c)) as (x & Hx & Hxc); [apply elem_of_app; by left|].
  apply list_elem_of_split in Hc as (A & B & ->).
  assert (∀ i, i ∈ descs_of c → i ∈ descs (A ++ c :: B)) as Hcd.
  { intros i Hi. apply elem_of_descs. exists c. split; [in_list|done]. }
  unfold process_one. rewrite E1, E2. cbn [obind fst]. rewrite E3. unfold in_range in Hh.
  rewrite (proj2 (Z.ltb_ge _ _)), (proj2 (Z.leb_gt _ _)) by lia. cbn [orb]. rewrite E4. cbn [obind].
  rewrite E5, Z.eqb_refl. cbn [negb now_us emit]. rewrite C2, (proj2 (Z.eqb_neq _ _)) by (intros E; by rewrite E in Hcr).
  unfold get_req. change (reqs (mkWorld _ (reqs (emit w [Barrier])) _ _ _)) with (reqs w). rewrite Hx. cbn [obind].
  set (ewma := ewma_after _ _ _ _).
  pose proof (tb_info _ _ _ _ _ _ HT) as L3.
  rewrite aset_in_range by (rewrite L3; unfold k_queue_size in *; lia). cbn [obind].
  rewrite (free_chain_spec dma_addr header_at status_at _ (reqs w !!! c_req c) c);
    [|apply (tb_desc _ _ _ _ _ _ HT)|apply (tb_free _ _ _ _ _ _ HT)| | |exact C1].
  2:{ intros i Hi. by apply (tb_range _ _ _ _ _ _ HT), Hcd. }
  2:{ pose proof (tb_nodup _ _ _ _ _ _ HT) as Hndd. rewrite descs_app in Hndd.
      apply NoDup_app in Hndd as (_ & _ & Hndd). by apply NoDup_app in Hndd as [? _]. }
  cbn [obind]. change (with_counts (freed _ _) _ _ ewma) with (retired (queue w) c ewma).
  eexists _, A, c, B, x. split_and!; [done|done|reflexivity| |].
  2:{ unfold complete_request. split; [done|..]; destruct (_ && _); try done; cbn; by rewrite <- app_assoc. }
  assert (reqs_of (A ++ c :: B) ++ pend ≡ₚ c_req c :: reqs_of (A ++ B) ++ pend) as HP.
  { unfold reqs_of. rewrite !fmap_app. cbn. solve_Permutation. }
  rewrite HP in Hnd. apply NoDup_cons in Hnd as [Hnin Hnd].
  set (w' := with_queue _ _).
  assert (reqs w' = <[c_req c := with_completion x 0]> (reqs w)) as Erq
    by (unfold w', complete_request; by destruct (_ && _)).
  assert (∀ k, k ∈ reqs_of (A ++ B) ++ pend → reqs w' !! k = reqs w !! k) as Hrq.
  { intros k Hk. rewrite Erq. apply lookup_insert_ne. by intros <-. }
  destruct (retired_ok (queue w) (reqs w) (reqs w') A c B 0 done_ ewma HT HR) as [HT' HR'].
  { intros d Hd'. rewrite !lookup_total_alt, Hrq; [done|]. apply elem_of_app. left. by apply list_elem_of_fmap_2. }
  split; try done.
  - change (scheduler_ (queue w')) with (scheduler_ (retired (queue w) c ewma)).
    assert (scheduler_ (retired (queue w) c ewma) = scheduler_ (queue w)) as -> by reflexivity.
    eapply pending_frame; [|exact Hp]. intros k Hk. apply Hrq. apply elem_of_app. by right.
  - intros k Hk. rewrite Hrq by done. apply Hl. rewrite HP. by right.
  - intros k y Hy Hk. destruct (decide (k = c_req c)) as [->|Hkc].
    + rewrite Erq, lookup_insert_eq in Hy. by simplify_eq.
    + rewrite Erq, lookup_insert_ne in Hy by done. apply (Hd k y Hy). rewrite HP, elem_of_cons. naive_solver.
  - unfold reqs_of in *. rewrite fmap_app in *. cbn in Hn. in_list.
  - intros k Hk. rewrite lookup_total_alt, Hrq, <- lookup_total_alt by (apply elem_of_app; by right).
    assert (ticks w' = S (ticks w)) as -> by (unfold w', complete_request; by destruct (_ && _)).
    destruct (Htm k Hk) as (n & Hlt & ->). exists n. split; [lia|done].
Qed.

(** ** The device *)

(** The device finishes the chain with head [h]: it stores the status [st], the used
    element and the used index. *)
Definition device_completes (c : Z * Z) (w : World) : World :=
  let '(h, st) := c in
  let q := queue w in
  let info := at_ (info_ q) h in
  let q := with_info q (<[Z.to_nat h := mkInfo (i_request info) (header info) st (dispatch_us info)]> (info_ q)) in
  let u := used_ q in
  with_queue w (with_used q (mkUsed (u_flags u) (u16 (u_id u + 1))
    (<[Z.to_nat (u_id u mod k_queue_size) := (h, 1)]> (elems u)))).

Definition device (l : list (Z * Z)) (w : World) : World := foldl (λ w c, device_completes c w) w l.

Lemma device_ring h st (w : World) fl done_ :
  RingOk (queue w) fl done_ → h ∈ c_head <$> fl → h ∉ done_.*1 → (length done_ < 128)%nat →
  length (info_ (queue w)) = Z.to_nat k_queue_size → (∀ k, k ∈ c_head <$> fl → in_range k) →
  RingOk (queue (device_completes (h, st) w)) fl (done_ ++ [(h, st)]).
Proof.
  intros [R1 R2 R3 R4 R5 R6 R7] Hh Hnew Hlen L3 Hrange.
  pose proof (Hrange h Hh) as Hhr. unfold in_range in *.
  assert (0 ≤ u_id (used_ (queue w)) mod k_queue_size < k_queue_size) as Hslot by (by apply Z.mod_pos_bound).
  assert (u_id (used_ (queue w)) mod k_queue_size =
    (used_idx_ (queue w) + Z.of_nat (length done_)) mod k_queue_size) as Eslot by (rewrite R3; apply u16_mod_queue).
  assert (Z.of_nat (length (elems (used_ (queue w)))) = k_queue_size) as Le by (by rewrite R1).
  split; cbn [device_completes queue with_queue with_used with_info used_ used_idx_ info_ u_id elems]; rewrite ?fmap_app.
  - by rewrite length_insert.
  - done.
  - rewrite R3, length_app. unfold u16. rewrite Zplus_mod_idemp_l. cbn. f_equal. lia.
  - intros k [Hk|Hk]%elem_of_app; [by apply R4|by apply list_elem_of_singleton in Hk as ->].
  - apply NoDup_app. split_and!; [done| |apply NoDup_singleton]. intros k Hk Hk'.
    by apply list_elem_of_singleton in Hk' as ->.
  - intros k h' Hk. rewrite at_insert by (rewrite ?Le; try done; by apply Z.mod_pos_bound).
    cbn in Hk. apply lookup_snoc_Some in Hk as [[Hk Hk']|[-> <-]]; rewrite length_fmap in *.
    + rewrite bool_decide_eq_false_2, (R6 k h' Hk') by
        (rewrite Eslot; apply ring_slots_differ; unfold k_queue_size; lia). done.
    + by rewrite bool_decide_eq_true_2.
  - intros k s [Hk|Hk]%elem_of_app.
    + assert (k ∈ done_.*1) as Hk1 by (apply list_elem_of_fmap; by exists (k, s)). destruct (Hrange k (R4 k Hk1)) as [Hk0 _].
      rewrite at_insert by (rewrite ?L3; unfold k_queue_size in *; lia). rewrite bool_decide_eq_false_2 by (by intros ->).
      by apply R7.
    + apply list_elem_of_singleton in Hk as [= -> ->].
      rewrite at_insert by (rewrite ?L3; unfold k_queue_size in *; lia). by rewrite bool_decide_eq_true_2.
Qed.

Lemma done_length (w : World) fl done_ pend : Inv w fl done_ pend → (length done_ ≤ length fl ≤ 42)%nat.
Proof.
  intros [HT [_ _ _ R4 R5 _ _] _ _ _ _ _ _]. pose proof (table_bound _ _ _ _ _ _ HT). split; [|lia].
  rewrite <- (length_fmap c_head fl), <- (length_fmap fst done_). apply submseteq_length, NoDup_submseteq; [done|exact R4].
Qed.

Lemma device_completes_inv h st (w : World) fl done_ pend :
  Inv w fl done_ pend → h ∈ c_head <$> fl → h ∉ done_.*1 →
  Inv (device_completes (h, st) w) fl (done_ ++ [(h, st)]) pend.
Proof.
  intros HI Hh Hnew. pose proof (done_length _ _ _ _ HI) as Hlen.
  destruct HI as [HT HR Hp Hnd Hl Hd Hn Htm]. pose proof HT as [T1 T2 T3 T4 T5 T6 T7 T8 T9 T10].
  assert (∀ h', h' ∈ c_head <$> fl → in_range h') as Hrange.
  { intros h' (c & -> & Hc)%list_elem_of_fmap. by apply T6, head_in_descs. }
  split; try done; [|apply device_ring; try done; lia].
  pose proof (Hrange h Hh) as Hr2. unfold in_range, k_queue_size in *.
  split; cbn; rewrite ?length_insert; try done.
  - intros c Hc. destruct (T8 c Hc) as [C1 C2 C3].
    pose proof (Hrange (c_head c) ltac:(by apply list_elem_of_fmap_2)) as Hr1.
    split; [done|..]; cbn; rewrite at_insert by lia; by case_bool_decide as E; rewrite <- ?E.
  - intros i Hir Hih. unfold in_range, k_queue_size in Hir. rewrite at_insert by lia.
    case_bool_decide as E; [by subst|]. by apply T10.
Qed.

Lemma device_inv l : ∀ (w : World) fl done_ pend,
  Inv w fl done_ pend → (∀ h, h ∈ l.*1 → h ∈ c_head <$> fl) → NoDup (done_ ++ l).*1 →
  Inv (device l w) fl (done_ ++ l) pend.
Proof.
  induction l as [|[h st] l IH]; intros w fl done_ pend HI Hh Hnd; [by rewrite app_nil_r|].
  cbn [device foldl]. replace (done_ ++ (h, st) :: l) with ((done_ ++ [(h, st)]) ++ l) in * by (by rewrite <- app_assoc).
  apply IH; [|intros; apply Hh; by right|done]. apply device_completes_inv; [done|apply Hh; by left|].
  rewrite !fmap_app in Hnd. apply NoDup_app in Hnd as [Hnd _]. apply NoDup_app in Hnd as (_ & Hnd & _).
  intros Hin. apply (Hnd h Hin). by left.
Qed.

Lemma device_reqs l : ∀ w, reqs (device l w) = reqs w ∧ disk (device l w) = disk w ∧
  events (device l w) = events w ∧ avail_ (queue (device l w)) = avail_ (queue w).
Proof. induction l as [|[h st] l IH]; intros w; [done|]. exact (IH (device_completes (h, st) w)). Qed.

(** ** The loop over the used ring *)

(** The requests of [fin] were completed and their waiters woken. *)
Record Settled (w w' : World) (fin : list chain) : Prop := {
  se_reqs : ∀ r, reqs w' !! r =
    if bool_decide (r ∈ reqs_of fin) then (λ x, with_completion x 0) <$> (reqs w !! r) else reqs w !! r;
  se_events : ∃ l, events w' = events w ++ l ∧
    ∀ c x, c ∈ fin → reqs w !! c_req c = Some x → Wakeup (wait_channel x) ∈ l;
  se_avail : avail_ (queue w') = avail_ (queue w)
}.

Lemma settled_cons (w w1 w2 : World) c x fin :
  Processed w w1 c x → c_req c ∉ reqs_of fin → Settled w1 w2 fin → Settled w w2 (c :: fin).
Proof.
  intros [P1 P2 _ P4 P5] Hc [S1 (l & S2 & S3) S4]. split; [| |by rewrite S4].
  - intros r. rewrite S1, P2. cbn [reqs_of fmap list_fmap]. fold (reqs_of fin).
    destruct (decide (r = c_req c)) as [->|Hr].
    + rewrite (bool_decide_eq_false_2 (_ ∈ reqs_of fin)), (bool_decide_eq_true_2 (_ ∈ _ :: _)) by (done || by left).
      by rewrite lookup_insert_eq, P1.
    + rewrite lookup_insert_ne by done. erewrite bool_decide_ext; [done|]. rewrite elem_of_cons. naive_solver.
  - exists ([Barrier; Wakeup (wait_channel x)] ++ l). split; [by rewrite S2, P4, <- app_assoc|].
    intros d y Hd Hy. apply elem_of_cons in Hd as [->|Hd].
    + rewrite P1 in Hy. simplify_eq. apply elem_of_app. left. right. by left.
    + apply elem_of_app. right. apply (S3 d y Hd). rewrite P2, lookup_insert_ne; [done|].
      intros E. apply Hc. rewrite E. by apply list_elem_of_fmap_2.
Qed.

(** With [n] completions published at the start, the loop lives long enough to
    see all of the device's actions. *)
Fixpoint consumed (n : nat) (arr : list (list (Z * Z))) : Prop :=
  match arr with
  | [] => True
  | a :: arr => (0 < n + length a)%nat ∧ consumed (pred (n + length a)) arr
  end.

(** All the completions report success. *)
Definition succeed (l : list (Z * Z)) : bool := forallb (λ c, c.2 =? 0) l.

(** The loop takes all completions, or panics at the first error. *)
Lemma process_loop_spec fuel : ∀ (w : World) fl done_ pend arr,
  Inv w fl done_ pend → NoDup (done_ ++ concat arr).*1 → (∀ h, h ∈ (concat arr).*1 → h ∈ c_head <$> fl) →
  consumed (length done_) arr → (length fl < fuel)%nat →
  if succeed (done_ ++ concat arr)
  then ∃ w' fl' fin, process_loop clock fuel (device <$> arr) w = Ret w' ∧ Inv w' fl' [] pend ∧
    fl ≡ₚ fin ++ fl' ∧ c_head <$> fin ≡ₚ (done_ ++ concat arr).*1 ∧ Settled w w' fin
  else process_loop clock fuel (device <$> arr) w = Panic.
Proof.
  induction fuel as [|fuel IH]; intros w fl done_ pend arr HI Hnd Hh Hco Hf; [lia|].
  set (a := default [] (head arr)).
  assert (match device <$> arr with d :: _ => d w | [] => w end = device a w) as Ea by (by destruct arr).
  assert (concat arr = a ++ concat (tail arr)) as Ec by (by destruct arr).
  assert (tail (device <$> arr) = device <$> tail arr) as Et by (by destruct arr).
  cbn [process_loop]. rewrite Ea, Et. rewrite Ec, app_assoc in *. rewrite fmap_app in Hh.
  assert (NoDup (done_ ++ a).*1) as Hnd1 by (rewrite fmap_app in Hnd; by apply NoDup_app in Hnd as (? & _)).
  assert (Inv (device a w) fl (done_ ++ a) pend) as HI1.
  { apply device_inv; [done| |done]. intros h Hin. apply Hh. apply elem_of_app. by left. }
  destruct (device_reqs a w) as (D1 & D2 & D3 & D4).
  destruct (done_ ++ a) as [|[h st] rest] eqn:Ed.
  - rewrite (process_one_none _ _ _ HI1). cbn [obind].
    assert (concat (tail arr) = []) as ->.
    { apply app_nil in Ed as [-> Ea0]. destruct arr as [|b arr]; [done|]. cbn in a. subst a b. cbn in Hco. lia. }
    exists (device a w), fl, []. split_and!; [done..|].
    split; [|exists []; rewrite D3, app_nil_r; split; [done|]; intros c x Hc; by apply not_elem_of_nil in Hc|done].
    intros r. rewrite D1, bool_decide_eq_false_2; [done|apply not_elem_of_nil].
  - cbn [succeed forallb app snd]. destruct (Z.eqb_spec st 0) as [->|Hst]; cbn [andb].
    2: { by rewrite (process_one_error _ _ _ _ _ _ HI1 Hst). }
    destruct (process_one_some _ _ _ _ _ HI1) as (w1 & A & c & B & x & -> & <- & -> & HI2 & HP). cbn [obind].
    cbn in Hnd. apply NoDup_cons in Hnd as [Hnew Hnd].
    assert (∀ k, k ∈ (concat (tail arr)).*1 → k ∈ c_head <$> A ++ B) as Hh2.
    { intros k Hk. assert (k ∈ c_head <$> A ++ c :: B) as Hk' by (apply Hh; apply elem_of_app; by right).
      assert (k ≠ c_head c) by (intros ->; apply Hnew; rewrite fmap_app; apply elem_of_app; by right).
      rewrite fmap_app in *. cbn in Hk'. in_list. }
    assert (consumed (length rest) (tail arr)) as Hco2.
    { destruct arr as [|b arr]; [done|]. destruct Hco as [_ Hco]. apply (f_equal length) in Ed.
      rewrite length_app in Ed. cbn in *. subst a. by rewrite Ed in Hco. }
    assert (length (A ++ B) < fuel)%nat as Hf2 by (rewrite length_app in *; cbn in Hf; lia).
    specialize (IH w1 (A ++ B) rest pend (tail arr) HI2 Hnd Hh2 Hco2 Hf2). change (forallb _ ?l) with (succeed l).
    destruct (succeed (rest ++ concat (tail arr))); [|done].
    destruct IH as (w' & fl' & fin & -> & HI' & Hfl & Hfin & HS).
    exists w', fl', (c :: fin). split_and!; [done|done| | |].
    + rewrite <- Permutation_middle, Hfl. done.
    + cbn. by rewrite Hfin.
    + eapply settled_cons; [| |exact HS].
      * destruct HP as [P1 P2 P3 P4 P5]. rewrite D1 in P1, P2. rewrite D2 in P3. rewrite D3 in P4. rewrite D4 in P5. by split.
      * pose proof (iv_nodup _ _ _ _ HI) as Hndr. intros Hin.
        assert (reqs_of (A ++ c :: B) ≡ₚ c_req c :: reqs_of fin ++ reqs_of fl') as HP'.
        { unfold reqs_of. rewrite <- Permutation_middle, Hfl. cbn. by rewrite fmap_app. }
        rewrite HP' in Hndr. cbn in Hndr. apply NoDup_cons in Hndr as [Hn _]. apply Hn.
        rewrite !elem_of_app. tauto.
Qed.

End calls.

End VirtioCalls.
