(* ===== verification/VirtioSystem.v ===== *)
(** * Processes, driver and device

    Any number of calls run on one queue, section by section, with interrupts
    and the device's own steps in between and, while the used ring is worked off,
    during a section.  The device fetches heads from the avail ring in order and
    completes the fetched chains in any order, with any status. *)
From S2P Require Import Prelude IoSched VirtioQueue VirtioRep VirtioOps VirtioCalls.
Import IoSched VirtioQueue VirtioRep VirtioOps VirtioCalls.

Module VirtioSystem.

Section system.
Context {T : Type} `{IoSchedulerLaws T} (dma_addr : ptr → Z) (header_at status_at : Z → ptr).
Context (clock : nat → Z * Z).

Abbreviation World := (VirtioQueue.World T).
Abbreviation Inv := (VirtioCalls.Inv dma_addr header_at status_at clock).
Abbreviation Held := (VirtioCalls.Held clock).

(** ** What the driver and the device agree on *)

(** The scheduler is empty, there is no room for another chain, or the clock is behind
    the tag of a request. *)
Definition Ready (w : World) (pend : list ptr) : Prop :=
  pend = [] ∨ has_free_desc_chain_locked (queue w) = false ∨ Held w pend.

(** The chains in flight are those the device works on, those published for it and
    those it has finished. *)
Record Shared (w : World) (seen : Z) (work : list Z) (fl : list chain) (waiting : list Z)
    (done_ : list (Z * Z)) (pend : list ptr) : Prop := {
  sh_inv : Inv w fl done_ pend;
  sh_avail : AvailOk (queue w) seen waiting;
  sh_heads : c_head <$> fl ≡ₚ work ++ waiting ++ done_.*1
}.

(** What a section does to the requests, sending the events [l]: none is lost, none
    un-completed, and every completion wakes the request's channel. *)
Record Effect (w w' : World) (l : list QEvent) : Prop := {
  ef_events : events w' = events w ++ l;
  ef_dom : dom (reqs w') = dom (reqs w);
  ef_reqs : ∀ r x, reqs w !! r = Some x → ∃ y, reqs w' !! r = Some y ∧
    wait_channel y = wait_channel x ∧ (completed x = true → completed y = true) ∧
    (completed y = true → completed x = true ∨ Wakeup (wait_channel x) ∈ l)
}.

Lemma Effect_refl w : Effect w w [].
Proof. split; [by rewrite app_nil_r|done|]. intros r x Hx. exists x. split_and!; try done. by left. Qed.

Lemma Effect_trans w w1 w2 l l' : Effect w w1 l → Effect w1 w2 l' → Effect w w2 (l ++ l').
Proof.
  intros [E1 E2 E3] [F1 F2 F3]. split; [by rewrite F1, E1, <- app_assoc|congruence|].
  intros r x Hx. destruct (E3 r x Hx) as (y & Hy & Ey & Ec & Ew). destruct (F3 r y Hy) as (z & Hz & Ez & Fc & Fw).
  exists z. split_and!; [done|congruence|tauto|]. intros Hc. rewrite elem_of_app. rewrite Ey in Fw.
  destruct (Fw Hc) as [?|?]; tauto.
Qed.

Lemma heads_nodup w fl done_ pend : Inv w fl done_ pend → NoDup (c_head <$> fl).
Proof.
  intros [[_ _ _ _ Hnd _ _ _ _ _] _ _ _ _ _ _ _]. induction fl as [|c fl IH]; [constructor|].
  change (descs (c :: fl)) with (descs_of c ++ descs fl) in Hnd. apply NoDup_app in Hnd as (_ & Hd & Hnd).
  cbn. apply NoDup_cons. split; [|by apply IH]. intros (d & E & Hin)%list_elem_of_fmap.
  apply (Hd (c_head c)); [by left|]. rewrite E. by apply head_in_descs.
Qed.

(** ** Sections *)

Lemma dispatch_ok w seen work fl waiting done_ pend :
  Shared w seen work fl waiting done_ pend →
  ∃ w' b gate fl' waiting' pend' l, dispatch_pending_locked dma_addr header_at status_at clock w = Ret (w', b, gate) ∧
    Shared w' seen work fl' waiting' done_ pend' ∧ Ready w' pend' ∧ Effect w w' l ∧
    same_transfers (reqs w) (reqs w').
Proof.
  intros [HI HA HH]. destruct (done_length _ _ _ _ _ _ _ _ HI) as [_ Hlen].
  destruct (dispatch_loop_spec dma_addr header_at status_at clock (S (Z.to_nat k_queue_size)) w fl
    done_ pend false HI) as (w' & b & gate & fl' & pend' & E & [D1 D2 D3 D4 [l D5] D6 D7]);
    [unfold k_queue_size; lia|].
  assert (Shared w' seen work (fl ++ fl') (waiting ++ (c_head <$> fl')) done_ pend') as HS.
  { split; [done| |].
    - apply D6; [|done]. apply Permutation_length in HH. rewrite !length_app, !length_fmap in HH. lia.
    - rewrite fmap_app, HH. solve_Permutation. }
  assert (Effect w w' l) as HE.
  { split; [done|by destruct D3|]. intros r x Hx. destruct (transfers_lookup _ _ _ _ D3 Hx) as (y & Hy & Ety).
    exists y. split; [done|]. pose proof (transfer_completed _ _ Ety) as ->.
    split_and!; [|done|by left]. by injection Ety. }
  by exists w', b, gate, (fl ++ fl'), (waiting ++ (c_head <$> fl')), pend', l.
Qed.

Lemma settled_effect (w w' : World) fin : Settled w w' fin → ∃ l, Effect w w' l.
Proof.
  intros [S1 (l & S2 & S3) _]. exists l. split; [done| |].
  - apply set_eq. intros r. rewrite !elem_of_dom, S1. case_bool_decide; [|done]. by rewrite fmap_is_Some.
  - intros r x Hx. rewrite S1, Hx. case_bool_decide as Hr.
    + exists (with_completion x 0). split_and!; try done. intros _. right.
      apply list_elem_of_fmap in Hr as (c & -> & Hc). by apply (S3 c x Hc).
    + exists x. split_and!; try done. by left.
Qed.

Lemma process_used_ok w seen work fl waiting done_ pend arr work' :
  Shared w seen work fl waiting done_ pend → work ≡ₚ (concat arr).*1 ++ work' → consumed (length done_) arr →
  if succeed (done_ ++ concat arr)
  then ∃ w' fl' waiting' pend' l,
    process_used_locked dma_addr header_at status_at clock (device <$> arr) w = Ret w' ∧
    Shared w' seen work' fl' waiting' [] pend' ∧ Ready w' pend' ∧ Effect w w' l
  else process_used_locked dma_addr header_at status_at clock (device <$> arr) w = Panic.
Proof.
  intros [HI HA HH] Hw Hco. pose proof (heads_nodup _ _ _ _ HI) as Hnd. rewrite HH, Hw in Hnd.
  destruct (done_length _ _ _ _ _ _ _ _ HI) as [_ Hlen]. unfold process_used_locked.
  assert (NoDup (done_ ++ concat arr).*1) as Hnd1.
  { assert (((concat arr).*1 ++ work') ++ waiting ++ done_.*1 ≡ₚ (done_ ++ concat arr).*1 ++ work' ++ waiting) as HP
      by (rewrite fmap_app; solve_Permutation).
    rewrite HP in Hnd. by apply NoDup_app in Hnd as [? _]. }
  assert (∀ h, h ∈ (concat arr).*1 → h ∈ c_head <$> fl) as Hin by (intros h Hh; rewrite HH, Hw, !elem_of_app; tauto).
  pose proof (process_loop_spec dma_addr header_at status_at clock (S (Z.to_nat k_queue_size)) w fl done_ pend arr
    HI Hnd1 Hin Hco ltac:(unfold k_queue_size; lia)) as HL.
  destruct (succeed _); [|by rewrite HL]. destruct HL as (w1 & fl1 & fin & E1 & HI1 & Hfl & Hfin & HS).
  destruct (settled_effect _ _ _ HS) as (l1 & HE1).
  assert (Shared w1 seen work' fl1 waiting [] pend) as HS1.
  { split; [done| |].
    - destruct HA as [A1 A2 A3]. destruct HS as [_ _ Hav]. split; rewrite ?Hav; done.
    - apply (Permutation_app_inv_l (done_ ++ concat arr).*1). rewrite <- Hfin at 1.
      rewrite <- fmap_app, <- Hfl, HH, Hw, fmap_app, app_nil_r. solve_Permutation. }
  destruct (dispatch_ok _ _ _ _ _ _ _ HS1) as (w2 & b & g & fl2 & waiting2 & pend2 & l2 & E2 & HS2 & HR2 & HE2 & _).
  exists w2, fl2, waiting2, pend2, (l1 ++ l2). rewrite E1. cbn [obind].
  rewrite E2. cbn [obind]. split_and!; try done. by eapply Effect_trans.
Qed.

Lemma shared_lookup w seen work fl waiting done_ pend r x :
  Shared w seen work fl waiting done_ pend → reqs w !! r = Some x →
  completed x = false ↔ r ∈ reqs_of fl ++ pend.
Proof.
  intros [HI _ _] Hx. split; intros Hr.
  - destruct (decide (r ∈ reqs_of fl ++ pend)) as [|Hn]; [done|].
    by rewrite (iv_done _ _ _ _ _ _ _ _ HI r x Hx Hn) in Hr.
  - destruct (iv_live _ _ _ _ _ _ _ _ HI r Hr) as (y & Hy & Hc). by simplify_eq.
Qed.

Lemma wait_section_ok w seen work fl waiting done_ pend arr work' r x has_pcb polling :
  Shared w seen work fl waiting done_ pend → Ready w pend → reqs w !! r = Some x →
  work ≡ₚ (concat arr).*1 ++ work' → consumed (length done_) arr → (completed x = true → arr = []) →
  if completed x || succeed (done_ ++ concat arr)
  then ∃ w' st fl' waiting' done' pend' l y,
    wait_section dma_addr header_at status_at clock r has_pcb polling (device <$> arr) w = Ret (w', st) ∧
    Shared w' seen work' fl' waiting' done' pend' ∧ Ready w' pend' ∧ Effect w w' l ∧
    reqs w' !! r = Some y ∧ (completed y = true ↔ st = Returned)
  else wait_section dma_addr header_at status_at clock r has_pcb polling (device <$> arr) w = Panic.
Proof.
  intros HS HR Hx Hw Hco Harr. unfold wait_section, get_req. rewrite Hx. cbn [obind].
  destruct (completed x) eqn:Ec; cbn [orb].
  { rewrite (Harr eq_refl) in *. exists w, Returned, fl, waiting, done_, pend, [], x. split_and!; try done.
    - destruct HS as [S1 S2 S3]. split; [done..|]. by rewrite S3, Hw.
    - apply Effect_refl. }
  pose proof (process_used_ok _ _ _ _ _ _ _ _ _ HS Hw Hco) as HP. destruct (succeed _); [|by rewrite HP].
  destruct HP as (w1 & fl1 & wt1 & pend1 & l1 & -> & HS1 & HR1 & HE1).
  cbn [obind]. destruct (ef_reqs _ _ _ HE1 r x Hx) as (y & Hy & _). rewrite Hy. cbn [obind].
  destruct (completed y) eqn:Ecy.
  { exists w1, Returned, fl1, wt1, [], pend1, l1, y. split_and!; try done. }
  destruct (dispatch_ok _ _ _ _ _ _ _ HS1) as (w2 & b & g & fl2 & wt2 & pend2 & l2 & -> & HS2 & HR2 & HE2 & Htr).
  cbn [obind]. destruct (transfers_lookup _ _ _ _ Htr Hy) as (z & Hz & Ez). apply transfer_completed in Ez.
  match goal with |- ∃ w' st fl' waiting' done' pend' l y, ?e = _ ∧ _ =>
    assert (∃ st, e = Ret (w2, st) ∧ st ≠ Returned) as (st & -> & Hst) end.
  { destruct has_pcb, polling; cbn [negb]; [..|by eexists|by eexists]; [by eexists|].
    destruct (_ && _); by eexists. }
  exists w2, st, fl2, wt2, [], pend2, (l1 ++ l2), z. split_and!; try done; [by eapply Effect_trans|].
  rewrite Ez, Ecy. naive_solver.
Qed.

(** The request at a fresh address, before it is queued. *)
Definition new_request (w : World) (r : ptr) (x : IoRequest) (d : gmap ptr Z) : World :=
  mkWorld (queue w) (<[r := x]> (reqs w)) d (ticks w) (events w).

Lemma enqueue_inv w fl done_ pend r x d :
  Inv w fl done_ pend → reqs w !! r = None → r ≠ nullptr → completed x = false →
  (size (reqs w) < sched_capacity)%nat →
  let w0 := new_request w r x d in
  ∃ s rq, sched_enqueue (scheduler_ (queue w)) (reqs w0) r (time_at clock (ticks w)) (ewma_bps_ (queue w)) = Ret (s, rq) ∧
    same_transfers (reqs w0) rq ∧
    Inv (mkWorld (with_scheduler (queue w) s) rq d (S (ticks w)) (events w)) fl done_ (r :: pend).
Proof.
  intros HI Hr Hr0 Hc Hcap w0. pose proof HI as [HT HR Hp Hnd Hl Hd Hn Htm].
  assert (r ∉ reqs_of fl ++ pend) as Hnew.
  { intros Hin. destruct (Hl r Hin) as (y & Hy & _). congruence. }
  assert (∀ k, k ∈ reqs_of fl ++ pend → reqs w0 !! k = reqs w !! k) as Hk0.
  { intros k Hk. apply lookup_insert_ne. by intros ->. }
  assert (length pend ≤ size (reqs w))%nat as Hsz.
  { rewrite <- size_dom. rewrite <- (size_list_to_set (C := gset ptr) pend).
    - apply subseteq_size. intros k Hk. apply elem_of_list_to_set in Hk. apply elem_of_dom.
      by apply (pending_nodup _ _ _ Hp).
    - by apply NoDup_app in Hnd as (_ & _ & ?). }
  destruct (enqueue_law (scheduler_ (queue w)) (reqs w0) pend r (time_at clock (ticks w)) (ewma_bps_ (queue w)))
    as (s & rq & E & Hp' & Hst & Hout & Hlr & Hlk).
  { eapply pending_frame; [|exact Hp]. intros k Hk. apply Hk0. apply elem_of_app. by right. }
  { exists x. apply lookup_insert_eq. }
  { intros Hin. apply Hnew. apply elem_of_app. by right. }
  { done. }
  { lia. }
  exists s, rq. split_and!; [done..|]. pose proof Hst as [_ Htr].
  split; cbn [queue reqs ticks scheduler_ with_scheduler]; try done.
  - apply (TableOk_fields _ _ _ (queue w)); try done. eapply TableOk_transfers; [|exact HT]. intros k Hk.
    rewrite Htr, !lookup_total_alt, Hk0; [done|]. apply elem_of_app. by left.
  - by apply (RingOk_frame (queue w) _ fl).
  - rewrite <- Permutation_middle. by apply NoDup_cons.
  - intros k Hk. assert (∃ y, reqs w0 !! k = Some y ∧ completed y = false) as (y & Hy & Hyc).
    { rewrite <- Permutation_middle in Hk. apply elem_of_cons in Hk as [->|Hk].
      - exists x. split; [apply lookup_insert_eq|done].
      - rewrite Hk0 by done. by apply Hl. }
    destruct (transfers_lookup _ _ _ _ Hst Hy) as (z & Hz & Ez). exists z.
    by rewrite (transfer_completed _ _ Ez).
  - intros k y Hy Hk. rewrite <- Permutation_middle, not_elem_of_cons in Hk. destruct Hk as [Hkr Hk].
    destruct (transfers_lookup _ _ _ _ (same_transfers_sym _ _ Hst) Hy) as (z & Hz & Ez).
    rewrite <- (transfer_completed _ _ Ez). eapply Hd; [|done]. by rewrite <- (lookup_insert_ne (reqs w) r k x).
  - intros k Hk. apply elem_of_cons in Hk as [->|Hk]; [exists (ticks w); split; [lia|done]|].
    assert (k ≠ r) as Hkr by (intros ->; apply Hnew, elem_of_app; by right).
    rewrite Hlk, lookup_total_alt, Hk0, <- lookup_total_alt by (done || (apply elem_of_app; by right)).
    destruct (Htm k Hk) as (n & Hlt & ->). exists n. split; [lia|done].
Qed.

Lemma submit_ok w seen work fl waiting done_ pend r x d :
  Shared w seen work fl waiting done_ pend → reqs w !! r = None → r ≠ nullptr → completed x = false →
  (size (reqs w) < sched_capacity)%nat →
  ∃ w' fl' waiting' pend' l,
    submit_request dma_addr header_at status_at clock r (new_request w r x d) = Ret w' ∧
    Shared w' seen work fl' waiting' done_ pend' ∧ Ready w' pend' ∧ Effect (new_request w r x d) w' l ∧
    (∀ y, reqs w' !! r = Some y → completed y = false).
Proof.
  intros [HI HA HH] Hr Hr0 Hc Hcap.
  destruct (enqueue_inv w fl done_ pend r x d HI Hr Hr0 Hc Hcap) as (s & rq & E & Htr & HI1).
  set (w1 := mkWorld _ _ _ _ _) in HI1.
  assert (Shared w1 seen work fl waiting done_ (r :: pend)) as HS1.
  { split; [done| |done]. destruct HA as [A1 A2 A3]. by split. }
  destruct (dispatch_ok _ _ _ _ _ _ _ HS1) as (w2 & b & g & fl2 & wt2 & pend2 & l2 & E2 & HS2 & HR2 & HE2 & Htr2).
  exists w2, fl2, wt2, pend2, l2. unfold submit_request. cbn [now_us].
  match goal with |- context [sched_enqueue ?a ?b ?c ?t ?e] => replace (sched_enqueue a b c t e) with (Ret (s, rq)) end.
  cbn [obind].
  change (with_reqs _ rq) with w1. rewrite E2. cbn [obind].
  pose proof (same_transfers_trans _ _ _ Htr Htr2) as Ht.
  split; [done|]. split; [done|]. split; [done|]. split.
  - destruct HE2 as [F1 F2 F3]. split; [exact F1|by destruct Ht|]. intros k y Hy.
    destruct (transfers_lookup _ _ _ _ Ht Hy) as (z & Hz & Ez). exists z. split; [done|].
    pose proof (transfer_completed _ _ Ez) as ->. split_and!; [|done|by left]. by injection Ez.
  - intros y Hy. destruct (transfers_lookup _ _ r x Ht) as (z & Hz & Ez); [apply lookup_insert_eq|].
    rewrite Hy in Hz. injection Hz as <-. by rewrite (transfer_completed _ _ Ez).
Qed.

(** ** The system *)

(** The calls in progress, by the address of their request, with whether they are
    asleep; the device has fetched the avail ring up to [c_seen] and works on the
    chains of [c_work]. *)
Record Config := mkConfig { c_world : World; c_seen : Z; c_work : list Z; c_calls : gmap ptr bool }.

(** The completions the driver has not taken yet. *)
Definition published (q : VirtioQueue.Queue T) : nat := Z.to_nat (u16 (u_id (used_ q) - used_idx_ q)).
Definition completions (q : VirtioQueue.Queue T) : list (Z * Z) :=
  (λ k, let h := (at_ (elems (used_ q)) ((used_idx_ q + Z.of_nat k) mod k_queue_size)).1 in
        (h, status (at_ (info_ q) h))) <$> seq 0 (published q).

(** [wakeup] ends the sleep of the calls on the channels of [l]. *)
Definition wake_calls (w : World) (l : list QEvent) (calls : gmap ptr bool) : gmap ptr bool :=
  map_imap (λ r (asleep : bool), Some (asleep && negb (bool_decide (Wakeup (wait_channel (reqs w !!! r)) ∈ l)))) calls.

Definition new_events (w w' : World) : list QEvent := drop (length (events w)) (events w').

(** A section of no particular call, from [w] to [w']. *)
Definition after_section (cfg : Config) (w' : World) (work' : list Z) : Config :=
  mkConfig w' (c_seen cfg) work' (wake_calls w' (new_events (c_world cfg) w') (c_calls cfg)).

(** A section of call [r]; when the call returns its request goes. *)
Definition after_call (cfg : Config) (r : ptr) (w' : World) (st : WaitStatus) (work' : list Z) : Config :=
  let calls := wake_calls w' (new_events (c_world cfg) w') (c_calls cfg) in
  match st with
  | Returned => mkConfig (with_reqs w' (delete r (reqs w'))) (c_seen cfg) work' (delete r calls)
  | _ => mkConfig w' (c_seen cfg) work' (<[r := bool_decide (st = Sleeping)]> calls)
  end.

Context (max_calls : nat) (enough : (max_calls ≤ sched_capacity)%nat).

(** A fresh request may enter. *)
Definition may_enter (w : World) (r : ptr) : Prop :=
  reqs w !! r = None ∧ r ≠ nullptr ∧ (size (reqs w) < max_calls)%nat.

(** The device completes [arr] during a section, batch by batch, and still works on
    [work'] afterwards. *)
Definition device_during (cfg : Config) (arr : list (list (Z * Z))) (work' : list Z) : Prop :=
  c_work cfg ≡ₚ (concat arr).*1 ++ work' ∧ consumed (published (queue (c_world cfg))) arr.

(** Every completion a section finds, published before it or during it, reports success. *)
Definition all_succeed (cfg : Config) (arr : list (list (Z * Z))) : bool :=
  succeed (completions (queue (c_world cfg)) ++ concat arr).

Inductive Label := Returns (r : ptr) | Silent.

Definition label_of (r : ptr) (st : WaitStatus) : Label :=
  match st with Returned => Returns r | _ => Silent end.

Inductive step (cfg : Config) : Label → Config → Prop :=
  | st_fetch h :
      c_seen cfg ≠ at_ (avail_ (queue (c_world cfg))) 1 →
      h = at_ (avail_ (queue (c_world cfg))) (2 + c_seen cfg mod k_queue_size) →
      step cfg Silent (mkConfig (c_world cfg) (u16 (c_seen cfg + 1)) (c_work cfg ++ [h]) (c_calls cfg))
  | st_complete h st work' :
      c_work cfg ≡ₚ h :: work' →
      step cfg Silent (mkConfig (device_completes (h, st) (c_world cfg)) (c_seen cfg) work' (c_calls cfg))
  | st_buf r b bf wr current polling arr work' w' st :
      may_enter (c_world cfg) r → device_during cfg arr work' →
      submit_and_wait dma_addr header_at status_at clock r b bf wr current polling (device <$> arr) (c_world cfg)
        = Ret (w', st) →
      step cfg (label_of r st) (after_call cfg r w' st work')
  | st_transfer r data_ len sec wr current polling arr work' w' st :
      may_enter (c_world cfg) r → device_during cfg arr work' →
      submit_transfer_and_wait dma_addr header_at status_at clock r data_ len sec wr current polling (device <$> arr)
        (c_world cfg) = Ret (w', st) →
      step cfg (label_of r st) (after_call cfg r w' st work')
  | st_wait r x has_pcb polling arr work' w' st :
      c_calls cfg !! r = Some false → reqs (c_world cfg) !! r = Some x → (completed x = true → arr = []) →
      device_during cfg arr work' →
      wait_section dma_addr header_at status_at clock r has_pcb polling (device <$> arr) (c_world cfg) = Ret (w', st) →
      step cfg (label_of r st) (after_call cfg r w' st work')
  | st_interrupt arr work' w' :
      device_during cfg arr work' →
      handle_interrupt dma_addr header_at status_at clock (device <$> arr) (c_world cfg) = Ret w' →
      step cfg Silent (after_section cfg w' work')
  | st_poll arr work' w' :
      device_during cfg arr work' →
      poll_once dma_addr header_at status_at clock (device <$> arr) (c_world cfg) = Ret w' →
      step cfg Silent (after_section cfg w' work')
  | st_wake r :
      c_calls cfg !! r = Some true →
      step cfg Silent (mkConfig (c_world cfg) (c_seen cfg) (c_work cfg) (<[r := false]> (c_calls cfg))).

Definition initial (q : VirtioQueue.Queue T) (token : Z) (d : gmap ptr Z) : Config :=
  mkConfig (mkWorld (initialize q token) ∅ d 0 []) 0 [] ∅.

Inductive reachable : Config → Prop :=
  | reach_init q token d : reachable (initial q token d)
  | reach_step cfg l cfg' : reachable cfg → step cfg l cfg' → reachable cfg'.

(** ** The invariant *)

(** [X]: the requests of calls that are just being made. *)
Definition calls_ok (X : gset ptr) (w : World) (calls : gmap ptr bool) : Prop :=
  dom calls ∪ X = dom (reqs w) ∧ nullptr ∉ dom (reqs w) ∧
  ∀ r, calls !! r = Some true → ∃ x, reqs w !! r = Some x ∧ completed x = false.

Definition SysInv (cfg : Config) : Prop :=
  ∃ fl waiting done_ pend, Shared (c_world cfg) (c_seen cfg) (c_work cfg) fl waiting done_ pend ∧
    Ready (c_world cfg) pend ∧ calls_ok ∅ (c_world cfg) (c_calls cfg).

Lemma published_length w fl done_ pend : Inv w fl done_ pend → published (queue w) = length done_.
Proof.
  intros HI. pose proof (done_length _ _ _ _ _ _ _ _ HI) as Hlen. destruct HI as [_ [_ R2 R3 _ _ _ _] _ _ _ _ _ _].
  unfold published. rewrite R3. unfold u16. rewrite Zminus_mod_idemp_l.
  replace (_ + _ - _) with (Z.of_nat (length done_)) by lia. rewrite Z.mod_small; lia.
Qed.

Lemma completions_done w fl done_ pend : Inv w fl done_ pend → completions (queue w) = done_.
Proof.
  intros HI. unfold completions. rewrite (published_length _ _ _ _ HI). destruct HI as [_ [_ _ _ _ _ R6 R7] _ _ _ _ _ _].
  apply list_eq. intros k. rewrite list_lookup_fmap. destruct (done_ !! k) as [[h st]|] eqn:E.
  - rewrite lookup_seq_lt by (by eapply lookup_lt_Some). cbn [fmap option_fmap option_map]. rewrite Nat.add_0_l.
    rewrite (R6 k h) by (by rewrite list_lookup_fmap, E). by rewrite (R7 h st) by (by eapply list_elem_of_lookup_2).
  - rewrite lookup_seq_ge by (by apply lookup_ge_None). done.
Qed.

(** The calls after a section with effect [l]: only calls whose request is still
    open sleep on. *)
Lemma wake_calls_ok X w w' l calls :
  calls_ok X w calls → Effect w w' l → calls_ok X w' (wake_calls w' (new_events w w') calls).
Proof.
  intros (Hd & H0' & Hs) [E1 E2 E3]. assert (new_events w w' = l) as ->.
  { unfold new_events. rewrite E1. apply drop_app_length. }
  split; [|split; [by rewrite E2|]].
  - rewrite E2, <- Hd. f_equal. apply set_eq. intros r. rewrite !elem_of_dom. unfold wake_calls.
    rewrite map_lookup_imap. by destruct (calls !! r).
  - intros r. unfold wake_calls. rewrite map_lookup_imap. destruct (calls !! r) as [a|] eqn:Ea; cbn; [|done].
    intros [= Ha]. apply andb_true_iff in Ha as [-> Hb]. apply negb_true_iff, bool_decide_eq_false in Hb.
    destruct (Hs r Ea) as (x & Hx & Hc). destruct (E3 r x Hx) as (y & Hy & Ey & _ & Hw). exists y.
    split; [done|]. rewrite lookup_total_alt, Hy in Hb. cbn in Hb. rewrite Ey in Hb.
    destruct (completed y); [|done]. destruct (Hw eq_refl); congruence.
Qed.

(** A completed request can go: nothing refers to it. *)
Lemma Shared_delete w seen work fl waiting done_ pend r y :
  Shared w seen work fl waiting done_ pend → reqs w !! r = Some y → completed y = true →
  Shared (with_reqs w (delete r (reqs w))) seen work fl waiting done_ pend.
Proof.
  intros HS Hy Hc. pose proof (shared_lookup _ _ _ _ _ _ _ _ _ HS Hy) as Hin.
  destruct HS as [[HT HR Hp Hnd Hl Hd Hn Htm] HA HH].
  assert (r ∉ reqs_of fl ++ pend) as Hr by (intros Hr; apply Hin in Hr; congruence).
  assert (∀ k, k ∈ reqs_of fl ++ pend → delete r (reqs w) !! k = reqs w !! k) as Hk.
  { intros k Hk. apply lookup_delete_ne. by intros ->. }
  split; [|done|done]. split; cbn [with_reqs queue reqs ticks]; try done.
  - eapply TableOk_transfers; [|exact HT]. intros k Hkf. rewrite !lookup_total_alt, Hk; [done|].
    apply elem_of_app. by left.
  - eapply pending_frame; [|exact Hp]. intros k Hkp. apply Hk. apply elem_of_app. by right.
  - intros k Hkin. rewrite Hk by done. by apply Hl.
  - intros k x Hx Hkin. apply lookup_delete_Some in Hx as [_ Hx]. by apply (Hd k).
  - intros k Hkp. rewrite lookup_total_alt, Hk, <- lookup_total_alt by (apply elem_of_app; by right).
    by apply Htm.
Qed.

Lemma Ready_delete w seen work fl waiting done_ pend r y :
  Shared w seen work fl waiting done_ pend → reqs w !! r = Some y → completed y = true →
  Ready w pend → Ready (with_reqs w (delete r (reqs w))) pend.
Proof.
  intros HS Hy Hc [H1|[H1|(k & Hk & Hlt)]]; [by left|by right; left|right; right]. exists k. split; [done|]. cbn.
  rewrite lookup_total_alt, lookup_delete_ne, <- lookup_total_alt; [done|]. intros ->.
  assert (k ∈ reqs_of fl ++ pend) as Hin by (apply elem_of_app; by right).
  apply (shared_lookup _ _ _ _ _ _ _ _ _ HS Hy) in Hin. congruence.
Qed.

Lemma after_call_inv cfg r w' st work' fl waiting done_ pend y :
  Shared w' (c_seen cfg) work' fl waiting done_ pend → Ready w' pend → reqs w' !! r = Some y →
  (completed y = true ↔ st = Returned) →
  calls_ok {[r]} w' (wake_calls w' (new_events (c_world cfg) w') (c_calls cfg)) →
  SysInv (after_call cfg r w' st work').
Proof.
  intros HS HR Hy Hst (Hd & Hn & Hs). unfold after_call. set (calls := wake_calls _ _ _) in *.
  assert (st ≠ Returned → SysInv (mkConfig w' (c_seen cfg) work' (<[r := bool_decide (st = Sleeping)]> calls))) as Hgo.
  { intros Hne. exists fl, waiting, done_, pend. split; [done|]. split; [done|]. split; [|split; [done|]].
    - cbn. rewrite <- Hd, dom_insert_L. set_solver.
    - intros k Hk. destruct (decide (k = r)) as [->|Hkr].
      + exists y. split; [done|]. destruct (completed y); [naive_solver|done].
      + cbn in Hk. rewrite lookup_insert_ne in Hk by done. by apply Hs. }
  destruct st; [|by apply Hgo..]. exists fl, waiting, done_, pend. cbn. split; [|split].
  - eapply Shared_delete; [done..|]. by apply Hst.
  - eapply Ready_delete; [done..| |done]. by apply Hst.
  - split; [|split]; cbn.
    + rewrite !dom_delete_L, <- Hd. set_solver.
    + rewrite dom_delete_L. set_solver.
    + intros k Hk. apply lookup_delete_Some in Hk as [Hkr Hk]. destruct (Hs k Hk) as (x & Hx & Hc).
      exists x. by rewrite lookup_delete_ne.
Qed.

(** ** Every section returns and keeps the invariant *)

Lemma enter_ok cfg r x d has_pcb polling arr work' :
  SysInv cfg → may_enter (c_world cfg) r → completed x = false → device_during cfg arr work' →
  let m := submit_request_and_wait dma_addr header_at status_at clock r has_pcb polling (device <$> arr)
      (new_request (c_world cfg) r x d) in
  if all_succeed cfg arr then ∃ w' st, m = Ret (w', st) ∧ SysInv (after_call cfg r w' st work') else m = Panic.
Proof.
  intros (fl & wt & dn & pend & HS & HR & Hd & Hn & Hs) (Hr & Hr0 & Hsz) Hc [Hw Hco] m.
  rewrite (published_length _ _ _ _ (sh_inv _ _ _ _ _ _ _ HS)) in Hco.
  unfold all_succeed. rewrite (completions_done _ _ _ _ (sh_inv _ _ _ _ _ _ _ HS)).
  destruct (submit_ok _ _ _ _ _ _ _ r x d HS Hr Hr0 Hc) as (w1 & fl1 & wt1 & pend1 & l1 & E1 & HS1 & HR1 & HE1 & Hnc); [lia|].
  destruct (ef_reqs _ _ _ HE1 r x) as (y & Hy & _); [apply lookup_insert_eq|].
  pose proof (wait_section_ok _ _ _ _ _ _ _ arr work' r y has_pcb polling HS1 HR1 Hy Hw Hco) as HW.
  rewrite (Hnc y Hy) in HW. specialize (HW ltac:(done)). cbn [orb] in HW.
  unfold m, submit_request_and_wait. rewrite E1. cbn [obind]. destruct (succeed _); [|done].
  destruct HW as (w2 & st & fl2 & wt2 & dn2 & pend2 & l2 & z & E2 & HS2 & HR2 & HE2 & Hz & Hst).
  exists w2, st. split; [done|]. eapply after_call_inv; [done..|].
  apply (wake_calls_ok {[r]} (new_request (c_world cfg) r x d) w2 (l1 ++ l2)); [|by eapply Effect_trans].
  split; [|split].
  - cbn. rewrite dom_insert_L, <- Hd. set_solver.
  - cbn. rewrite dom_insert_L. set_solver.
  - intros k Hk. destruct (Hs k Hk) as (v & Hv & Hvc). exists v. split; [|done]. cbn.
    rewrite lookup_insert_ne; [done|]. intros ->. congruence.
Qed.

Lemma wait_ok cfg r x has_pcb polling arr work' :
  SysInv cfg → is_Some (c_calls cfg !! r) → reqs (c_world cfg) !! r = Some x → (completed x = true → arr = []) →
  device_during cfg arr work' →
  let m := wait_section dma_addr header_at status_at clock r has_pcb polling (device <$> arr) (c_world cfg) in
  if completed x || all_succeed cfg arr
  then ∃ w' st, m = Ret (w', st) ∧ SysInv (after_call cfg r w' st work') else m = Panic.
Proof.
  intros (fl & wt & dn & pend & HS & HR & Hcalls) Hr Hx Harr [Hw Hco] m.
  rewrite (published_length _ _ _ _ (sh_inv _ _ _ _ _ _ _ HS)) in Hco.
  unfold all_succeed. rewrite (completions_done _ _ _ _ (sh_inv _ _ _ _ _ _ _ HS)).
  pose proof (wait_section_ok _ _ _ _ _ _ _ arr work' r x has_pcb polling HS HR Hx Hw Hco Harr) as HW.
  destruct (_ || _); [|done].
  destruct HW as (w2 & st & fl2 & wt2 & dn2 & pend2 & l2 & z & E2 & HS2 & HR2 & HE2 & Hz & Hst).
  exists w2, st. split; [done|]. eapply after_call_inv; [done..|].
  eapply wake_calls_ok; [|exact HE2]. destruct Hcalls as [Hd Hs]. split; [|done].
  rewrite <- Hd. apply elem_of_dom in Hr. set_solver.
Qed.

Lemma used_section_ok cfg arr work' :
  SysInv cfg → device_during cfg arr work' →
  let m := process_used_locked dma_addr header_at status_at clock (device <$> arr) (c_world cfg) in
  if all_succeed cfg arr
  then ∃ w', m = Ret w' ∧
    SysInv (after_section cfg w' work') ∧ SysInv (after_section cfg (emit w' [AckInterrupt]) work')
  else m = Panic.
Proof.
  intros (fl & wt & dn & pend & HS & HR & Hcalls) [Hw Hco] m.
  rewrite (published_length _ _ _ _ (sh_inv _ _ _ _ _ _ _ HS)) in Hco.
  unfold all_succeed. rewrite (completions_done _ _ _ _ (sh_inv _ _ _ _ _ _ _ HS)).
  pose proof (process_used_ok _ _ _ _ _ _ _ _ _ HS Hw Hco) as HP. destruct (succeed _); [|done].
  destruct HP as (w1 & fl1 & wt1 & pend1 & l1 & E1 & HS1 & HR1 & HE1).
  exists w1. split; [done|]. split; exists fl1, wt1, [], pend1.
  - split_and!; [done..|]. by eapply wake_calls_ok.
  - destruct HS1 as [[] HA HH]. split_and!; [by split|done|]. eapply wake_calls_ok; [done|].
    destruct HE1 as [F1 F2 F3]. split; [|exact F2|].
    + cbn. rewrite F1, <- app_assoc. reflexivity.
    + intros r x Hx. destruct (F3 r x Hx) as (y & Hy & Ey & E3 & E4). exists y. split_and!; try done.
      rewrite elem_of_app. tauto.
Qed.

Lemma fetch_ok cfg :
  SysInv cfg → c_seen cfg ≠ at_ (avail_ (queue (c_world cfg))) 1 →
  let h := at_ (avail_ (queue (c_world cfg))) (2 + c_seen cfg mod k_queue_size) in
  SysInv (mkConfig (c_world cfg) (u16 (c_seen cfg + 1)) (c_work cfg ++ [h]) (c_calls cfg)).
Proof.
  intros (fl & wt & dn & pend & [HI [A1 A2 A3] HH] & HR & Hcalls) Hne h.
  destruct wt as [|h' wt].
  { rewrite A2, Z.add_0_r, u16_small in Hne by done. done. }
  assert (h' = h) as ->. { rewrite <- (A3 0%nat h' eq_refl), Z.add_0_r. done. }
  exists fl, wt, dn, pend. split_and!; [|done..]. split; cbn; [done| |].
  - split; [apply Z.mod_pos_bound; lia| |].
    + rewrite A2. unfold u16. rewrite Zplus_mod_idemp_l. f_equal. cbn [length]. lia.
    + intros k h' Hk. rewrite <- (A3 (S k) h' Hk). do 2 f_equal.
      rewrite <- Zplus_mod_idemp_l, u16_mod_queue, Zplus_mod_idemp_l. f_equal. lia.
  - rewrite HH. solve_Permutation.
Qed.

Lemma complete_ok cfg h st work' :
  SysInv cfg → c_work cfg ≡ₚ h :: work' →
  SysInv (mkConfig (device_completes (h, st) (c_world cfg)) (c_seen cfg) work' (c_calls cfg)).
Proof.
  intros (fl & wt & dn & pend & [HI [A1 A2 A3] HH] & HR & Hcalls) Hw.
  pose proof (heads_nodup _ _ _ _ HI) as Hnd. rewrite HH, Hw in Hnd.
  exists fl, wt, (dn ++ [(h, st)]), pend. split_and!; [|done..]. split; [|by split|].
  - apply device_completes_inv; [done|rewrite HH, Hw; by left|].
    cbn in Hnd. apply NoDup_cons in Hnd as [Hnd _]. rewrite !elem_of_app in Hnd. tauto.
  - rewrite HH, Hw, fmap_app. cbn. solve_Permutation.
Qed.

Lemma initial_ok q token d : SysInv (initial q token d).
Proof.
  assert (∀ i, 0 ≤ i < k_queue_size → at_ (replicate (Z.to_nat k_queue_size) 1) i = 1) as Hrep.
  { intros i Hi. apply lookup_total_replicate_2. lia. }
  exists [], [], [], []. split_and!; [|by left|by split].
  split; [|by vm_compute|done]. split; try done.
  - split; try done.
    + cbn [initial initialize reset_runtime c_world queue avail_]. rewrite !length_insert, length_replicate.
      change (Z.to_nat ((PGSIZE - k_queue_size * 16) / 2)) with (Z.to_nat 1024). lia.
    + constructor.
    + by intros i ?%not_elem_of_nil.
    + intros i Hi. cbn [initial initialize reset_runtime c_world queue free_]. rewrite Hrep by done. split; [done|]. by intros ?%not_elem_of_nil.
    + by intros c ?%not_elem_of_nil.
    + intros i Hi _. cbn [initial initialize reset_runtime c_world queue info_]. unfold at_.
      by rewrite lookup_total_replicate_2 by (unfold in_range in Hi; lia).
  - split; try done; [by apply NoDup_nil|by intros ? ? ?%not_elem_of_nil].
  - apply pending_reset.
  - constructor.
  - by intros r ?%not_elem_of_nil.
  - apply not_elem_of_nil.
  - by intros r ?%not_elem_of_nil.
Qed.

Lemma section_result cfg r m work' w' st (ok : bool) : m = Ret (w', st) →
  (if ok then ∃ w' st, m = Ret (w', st) ∧ SysInv (after_call cfg r w' st work') else m = Panic) →
  SysInv (after_call cfg r w' st work').
Proof. intros -> HE. destruct ok; [|done]. destruct HE as (w2 & st2 & [= <- <-] & HI). done. Qed.

Lemma queue_step_inv cfg l cfg' : SysInv cfg → step cfg l cfg' → SysInv cfg'.
Proof.
  intros HI Hst. destruct Hst as [h Hne ->|h st work' Hw|r b bf wr current polling arr work' w' st Hm Hdev E
    |r data_ len sec wr current polling arr work' w' st Hm Hdev E|r x has_pcb polling arr work' w' st Hr Hx Ha Hdev E
    |arr work' w' Hdev E|arr work' w' Hdev E|r Hr].
  - by apply fetch_ok.
  - by apply complete_ok.
  - pose proof (enter_ok cfg r (buf_request b bf wr current) (<[b := owner_token_ (queue (c_world cfg))]> (disk (c_world cfg)))
      (bool_decide (is_Some current)) polling arr work' HI Hm eq_refl Hdev) as HE.
    eapply section_result; [exact E|exact HE].
  - pose proof (enter_ok cfg r (transfer_request r data_ len sec wr current) (disk (c_world cfg))
      (bool_decide (is_Some current)) polling arr work' HI Hm eq_refl Hdev) as HE.
    eapply section_result; [exact E|exact HE].
  - pose proof (wait_ok cfg r x has_pcb polling arr work' HI ltac:(by eexists) Hx Ha Hdev) as HE.
    eapply section_result; [exact E|exact HE].
  - pose proof (used_section_ok cfg arr work' HI Hdev) as HE. unfold handle_interrupt in E.
    destruct (all_succeed cfg arr); [|by rewrite HE in E]. destruct HE as (w2 & E2 & _ & HI2).
    rewrite E2 in E. cbn in E. by simplify_eq.
  - pose proof (used_section_ok cfg arr work' HI Hdev) as HE. unfold poll_once in E.
    destruct (all_succeed cfg arr); [|by rewrite HE in E]. destruct HE as (w2 & E2 & HI2 & _).
    rewrite E2 in E. by simplify_eq.
  - destruct HI as (fl & wt & dn & pend & HS & HR & Hd & Hn & Hs). exists fl, wt, dn, pend. split; [done|].
    split; [done|]. split; [|split; [done|]]; cbn.
    + rewrite dom_insert_L, <- Hd. apply elem_of_dom_2 in Hr. set_solver.
    + intros k Hk. destruct (decide (k = r)) as [->|Hkr]; [by rewrite lookup_insert_eq in Hk|].
      rewrite lookup_insert_ne in Hk by done. by apply Hs.
Qed.

Lemma queue_reachable_inv cfg : reachable cfg → SysInv cfg.
Proof. induction 1 as [q token d|cfg l cfg' _ IH Hst]; [apply initial_ok|by eapply queue_step_inv]. Qed.

End system.

End VirtioSystem.
