(* ===== verification/VirtioCorrect.v ===== *)
(** * Correctness of the virtio block queue with the mClock scheduler

    The queue of [VirtioQueue] runs on the scheduler of [MClock]; at most one call
    per process is in progress. *)
From S2P Require Import Prelude IoSched MClock MClockCorrect VirtioQueue VirtioRep VirtioOps VirtioCalls VirtioSystem.
Import IoSched VirtioQueue VirtioRep VirtioOps VirtioCalls VirtioSystem.
Import MClockCorrect.

Module VirtioCorrect.

Section correct.
Context (dma_addr : ptr → Z) (header_at status_at : Z → ptr) (clock : nat → Z * Z).

(** The block queue of the kernel. *)
Abbreviation Config := (VirtioSystem.Config (T := MClock.MClock)).
Definition disk_step : Config → Label → Config → Prop :=
  step dma_addr header_at status_at clock MClock.num_process.
Definition disk_reachable : Config → Prop :=
  reachable dma_addr header_at status_at clock MClock.num_process.

Lemma disk_invariant cfg :
  disk_reachable cfg → SysInv dma_addr header_at status_at clock cfg.
Proof.
  apply (queue_reachable_inv dma_addr header_at status_at clock MClock.num_process).
  unfold sched_capacity, mclock_scheduler, MClock.k_max_flows. lia.
Qed.

Lemma enough_calls : (MClock.num_process ≤ sched_capacity)%nat.
Proof. unfold sched_capacity, mclock_scheduler, MClock.k_max_flows. lia. Qed.

End correct.

Section theorems.
Context (dma_addr : ptr → Z) (header_at status_at : Z → ptr) (clock : nat → Z * Z).
Abbreviation Config := (VirtioSystem.Config (T := MClock.MClock)).
Abbreviation disk_reachable := (VirtioCorrect.disk_reachable dma_addr header_at status_at clock).
Abbreviation disk_step := (VirtioCorrect.disk_step dma_addr header_at status_at clock).

(** The section returns, or it panics. *)
Definition answers {A} (ok : bool) (m : outcome A) : Prop := if ok then ∃ a, m = Ret a else m = Panic.

Lemma answers_pair {A B} (ok : bool) (m : outcome (A * B)) (P : A → B → Prop) :
  (if ok then ∃ a b, m = Ret (a, b) ∧ P a b else m = Panic) → answers ok m.
Proof. unfold answers. destruct ok; [|done]. intros (a & b & E & _). eauto. Qed.

(** C10. The sections of the block queue neither fault nor loop, and they panic exactly
    when the device reports an error.  In every reachable state, whatever completions of
    fetched chains the device makes meanwhile and whatever the clock reads, a new buffer
    or sector request, the next turn of a waiting call, an interrupt and a poll run to
    their end if the status of every completion they find is zero; if one is not,
    they panic.  (A call whose request is completed returns without looking.)
    Descriptors never run out unexpectedly, used ids are in range, and the scheduler has
    a flow for each request. *)
Theorem disk_sections_return (cfg : Config) arr work' polling :
  disk_reachable cfg → device_during cfg arr work' →
  let ok := all_succeed cfg arr in
  (∀ r b bf wr current, may_enter MClock.num_process (c_world cfg) r → answers ok
     (submit_and_wait dma_addr header_at status_at clock r b bf wr current polling (device <$> arr) (c_world cfg))) ∧
  (∀ r data_ len sec wr current, may_enter MClock.num_process (c_world cfg) r → answers ok
     (submit_transfer_and_wait dma_addr header_at status_at clock r data_ len sec wr current polling (device <$> arr)
       (c_world cfg))) ∧
  (∀ r x has_pcb, is_Some (c_calls cfg !! r) → reqs (c_world cfg) !! r = Some x → (completed x = true → arr = []) →
     answers (completed x || ok)
       (wait_section dma_addr header_at status_at clock r has_pcb polling (device <$> arr) (c_world cfg))) ∧
  answers ok (handle_interrupt dma_addr header_at status_at clock (device <$> arr) (c_world cfg)) ∧
  answers ok (poll_once dma_addr header_at status_at clock (device <$> arr) (c_world cfg)).
Proof.
  intros Hr Hdev ok. pose proof (disk_invariant _ _ _ _ _ Hr) as HI. pose proof enough_calls as He.
  split_and!.
  - intros r b bf wr current Hent. eapply answers_pair.
    exact (enter_ok dma_addr header_at status_at clock _ He cfg r (buf_request b bf wr current)
      (<[b := owner_token_ (queue (c_world cfg))]> (disk (c_world cfg))) (bool_decide (is_Some current)) polling arr work'
      HI Hent eq_refl Hdev).
  - intros r data_ len sec wr current Hent. eapply answers_pair.
    exact (enter_ok dma_addr header_at status_at clock _ He cfg r (transfer_request r data_ len sec wr current)
      (disk (c_world cfg)) (bool_decide (is_Some current)) polling arr work' HI Hent eq_refl Hdev).
  - intros r x has_pcb Hc Hx Ha. eapply answers_pair.
    exact (wait_ok dma_addr header_at status_at clock _ He cfg r x has_pcb polling arr work' HI Hc Hx Ha Hdev).
  - pose proof (used_section_ok dma_addr header_at status_at clock _ He cfg arr work' HI Hdev) as HE.
    unfold answers, ok, handle_interrupt. destruct (all_succeed cfg arr); [|by rewrite HE].
    destruct HE as (w' & E & _). rewrite E. cbn. eauto.
  - pose proof (used_section_ok dma_addr header_at status_at clock _ He cfg arr work' HI Hdev) as HE.
    unfold answers, ok, poll_once. destruct (all_succeed cfg arr); [|by rewrite HE].
    destruct HE as (w' & E & _). rewrite E. eauto.
Qed.

(** C26. What the device fetches is a request.  The next head of the avail ring is the
    first of three descriptors that describe an open request of the queue: its
    header with type and sector, its data buffer, writable by the device exactly for
    reads, and its status byte. *)
Theorem fetched_chain_correct (cfg : Config) :
  disk_reachable cfg → c_seen cfg ≠ at_ (avail_ (queue (c_world cfg))) 1 →
  let q := queue (c_world cfg) in
  let h := at_ (avail_ q) (2 + c_seen cfg mod k_queue_size) in
  let r := i_request (at_ (info_ q) h) in
  ∃ m t x, in_range h ∧ in_range m ∧ in_range t ∧ NoDup [h; m; t] ∧
    reqs (c_world cfg) !! r = Some x ∧ completed x = false ∧
    (at_ (desc_ q) h, at_ (desc_ q) m, at_ (desc_ q) t) = chain_descs dma_addr header_at status_at x h m t ∧
    header (at_ (info_ q) h) = mkReq (if write x then k_req_type_write else k_req_type_read) 0 (start_sector x).
Proof.
  intros Hr Hne q h r. destruct (disk_invariant _ _ _ _ _ Hr) as (fl & wt & dn & pend & [HI [A1 A2 A3] HH] & _).
  destruct wt as [|h' wt].
  { rewrite A2, Z.add_0_r, u16_small in Hne by done. done. }
  assert (h' = h) as -> by (by rewrite <- (A3 0%nat h' eq_refl), Z.add_0_r).
  assert (h ∈ c_head <$> fl) as Hh by (rewrite HH, !elem_of_app; right; left; by left).
  apply list_elem_of_fmap in Hh as (c & Ec & Hc). destruct HI as [HT _ _ _ Hl _ _ _].
  destruct (tb_chain _ _ _ _ _ _ HT c Hc) as [C1 C2 C3].
  destruct (Hl (c_req c)) as (x & Hx & Hxc); [apply elem_of_app; left; by apply list_elem_of_fmap_2|].
  assert (∀ i, i ∈ descs_of c → in_range i) as Hin.
  { intros i Hi. apply (tb_range _ _ _ _ _ _ HT), elem_of_descs. by exists c. }
  rewrite lookup_total_alt, Hx in C1, C3. rewrite <- Ec in *. fold q in C1, C2, C3. fold r in C2.
  exists (c_mid c), (c_tail c), x. split_and!; try done.
  - rewrite Ec. apply Hin. by left.
  - apply Hin. right. by left.
  - apply Hin. right. right. by left.
  - pose proof (tb_nodup _ _ _ _ _ _ HT) as Hnd. apply list_elem_of_split in Hc as (A & B & ->).
    rewrite descs_app in Hnd. apply NoDup_app in Hnd as (_ & _ & Hnd). apply NoDup_app in Hnd as [Hnd _].
    by rewrite Ec.
  - by rewrite C2.
Qed.

(** C27. Nobody sleeps for nothing, as long as the clock is not set back.  While a call
    is asleep its request is open, and there is something that will lead to its wakeup:
    the device works on a chain, or has one to fetch, or has published a completion the
    driver has yet to take.  The one other possibility is that the clock, whose readings
    are arbitrary here, was set back under an open request: the request is tagged with a
    reading that is larger than the last, later one, and the scheduler holds it back. *)
Theorem sleepers_progress (cfg : Config) r :
  disk_reachable cfg → c_calls cfg !! r = Some true →
  let w := c_world cfg in
  (∃ x, reqs w !! r = Some x ∧ completed x = false) ∧
  (c_work cfg ≠ [] ∨ c_seen cfg ≠ at_ (avail_ (queue w)) 1 ∨ used_idx_ (queue w) ≠ u_id (used_ (queue w)) ∨
   ∃ k y n, reqs w !! k = Some y ∧ completed y = false ∧ (S n < ticks w)%nat ∧
     l_tag_us y = time_at clock n ∧ time_at clock (pred (ticks w)) < time_at clock n).
Proof.
  intros Hr Hs w. destruct (disk_invariant _ _ _ _ _ Hr) as (fl & wt & dn & pend & HS & HR & _ & _ & Hcalls).
  destruct (Hcalls r Hs) as (x & Hx & Hc). split; [by exists x|].
  pose proof (proj1 (shared_lookup _ _ _ _ _ _ _ _ _ _ _ _ _ HS Hx) Hc) as Hin.
  destruct HS as [HI [A1 A2 _] HH]. pose proof (done_length _ _ _ _ _ _ _ _ HI) as Hlen. fold w in HI, HR, A2.
  destruct (decide (fl = [])) as [->|Hfl].
  { do 3 right. destruct HR as [->|[HR|(k & Hk & Hlt)]]; [by apply not_elem_of_nil in Hin|..].
    - by rewrite (table_empty _ _ _ _ _ (iv_table _ _ _ _ _ _ _ _ HI)) in HR.
    - destruct (iv_live _ _ _ _ _ _ _ _ HI k) as (y & Hy & Hyc); [by apply elem_of_app; right|].
      destruct (iv_time _ _ _ _ _ _ _ _ HI k Hk) as (n & Hn & En). rewrite En in Hlt.
      exists k, y, n. rewrite lookup_total_alt, Hy in En. cbn in En. split_and!; [done|done| |done|done].
      destruct (decide (n = pred (ticks w))) as [->|]; lia. }
  pose proof (Permutation_length HH) as Hl. rewrite !length_app, !length_fmap in Hl.
  assert (length fl ≠ 0)%nat as Hfl0 by (by destruct fl).
  destruct (c_work cfg) as [|h work]; [right|by left]. cbn in Hl.
  destruct (decide (length wt = 0%nat)) as [Hw|Hw]; [right; left|left].
  - destruct (iv_ring _ _ _ _ _ _ _ _ HI) as [_ R2 R3 _ _ _ _]. rewrite R3.
    apply not_eq_sym, u16_advance; [done|lia].
  - rewrite A2. apply not_eq_sym, u16_advance; [done|lia].
Qed.

Lemma returned_gone (cfg cfg' : Config) r :
  disk_reachable cfg → disk_step cfg (Returns r) cfg' →
  c_calls cfg' !! r = None ∧ reqs (c_world cfg') !! r = None ∧ r ≠ nullptr.
Proof.
  intros Hr Hst. destruct (disk_invariant _ _ _ _ _ Hr) as (fl & wt & dn & pend & _ & _ & _ & Hn & _).
  assert (∀ r' w' st work', label_of r' st = Returns r → r' ≠ nullptr →
    let c := after_call cfg r' w' st work' in
    c_calls c !! r = None ∧ reqs (c_world c) !! r = None ∧ r ≠ nullptr) as Hgone.
  { intros r' w' [] work' E Hr0; cbn in E; try discriminate. injection E as ->. cbn.
    by rewrite !lookup_delete_eq. }
  inversion Hst; subst; try discriminate.
  - eapply Hgone; [done|]. by match goal with H : may_enter _ _ _ |- _ => destruct H as (_ & ? & _) end.
  - eapply Hgone; [done|]. by match goal with H : may_enter _ _ _ |- _ => destruct H as (_ & ? & _) end.
  - eapply Hgone; [done|]. intros ->. apply Hn. by eapply elem_of_dom_2.
Qed.

(** When a call returns, its request, which lives on the caller's stack, is gone
    from the driver: no slot of the queue refers to it and the scheduler does not
    hold it. *)
Theorem returned_request_released (cfg cfg' : Config) r :
  disk_reachable cfg → disk_step cfg (Returns r) cfg' →
  c_calls cfg' !! r = None ∧
  (∀ i, in_range i → i_request (at_ (info_ (queue (c_world cfg'))) i) ≠ r) ∧
  ∃ l, holds (scheduler_ (queue (c_world cfg'))) (reqs (c_world cfg')) l ∧ r ∉ l.
Proof.
  intros Hr Hst.
  assert (c_calls cfg' !! r = None ∧ reqs (c_world cfg') !! r = None ∧ r ≠ nullptr) as (H1 & H2 & H3)
    by (by eapply returned_gone).
  assert (disk_reachable cfg') as Hr' by (by eapply reach_step).
  destruct (disk_invariant _ _ _ _ _ Hr') as (fl & wt & dn & pend & [HI _ _] & _).
  assert (r ∉ reqs_of fl ++ pend) as Hnin.
  { intros Hin. destruct (iv_live _ _ _ _ _ _ _ _ HI r Hin) as (x & Hx & _). congruence. }
  split; [done|]. split.
  - intros i Hi E. pose proof (iv_table _ _ _ _ _ _ _ _ HI) as HT.
    destruct (decide (i ∈ c_head <$> fl)) as [(c & -> & Hc)%list_elem_of_fmap|Hn].
    + apply Hnin, elem_of_app. left. rewrite <- E, (ck_request _ _ _ _ _ _ (tb_chain _ _ _ _ _ _ HT c Hc)).
      by apply list_elem_of_fmap_2.
    + rewrite (tb_idle _ _ _ _ _ _ HT i Hi Hn) in E. by apply H3.
  - exists pend. split; [exact (iv_pending _ _ _ _ _ _ _ _ HI)|]. intros Hin. apply Hnin, elem_of_app. by right.
Qed.

End theorems.

(** ** Witnesses

    One process writes two sectors and sleeps; the device fetches and completes the
    chain; the process wakes up and its call returns. *)
Definition still_clock (n : nat) : Z * Z := (1, 0).

Definition no_queue : VirtioQueue.Queue MClock.MClock :=
  mkQueue [] [] (mkUsed 0 0 []) [] 0 0 0 0 [] (MClock.mkClock [] []).

Definition cfg0 : VirtioSystem.Config := initial no_queue 1 ∅.

Definition idp (a : ptr) : Z := a.
Definition header_addr (i : Z) : ptr := 8192 + 64 * i.
Definition status_addr (i : Z) : ptr := 8192 + 64 * i + 24.

Definition world_of {A} (r : outcome (World MClock.MClock * A)) : World MClock.MClock :=
  match r with Ret (w, _) => w | _ => c_world cfg0 end.

Definition submitted : outcome (World MClock.MClock * WaitStatus) :=
  submit_transfer_and_wait idp header_addr status_addr still_clock 100 4096 1024 7 true (Some (1, 0)) false
    (device <$> []) (c_world cfg0).
Definition cfg1 : VirtioSystem.Config := after_call cfg0 100 (world_of submitted) Sleeping [].
Definition cfg_fetched : VirtioSystem.Config :=
  mkConfig (c_world cfg1) (u16 (c_seen cfg1 + 1)) (c_work cfg1 ++ [0]) (c_calls cfg1).
Definition cfg_completed : VirtioSystem.Config :=
  mkConfig (device_completes (0, 0) (c_world cfg_fetched)) (c_seen cfg_fetched) [] (c_calls cfg_fetched).
Definition cfg_failed : VirtioSystem.Config :=
  mkConfig (device_completes (0, 1) (c_world cfg_fetched)) (c_seen cfg_fetched) [] (c_calls cfg_fetched).
Definition cfg2 : VirtioSystem.Config :=
  mkConfig (c_world cfg_completed) (c_seen cfg_completed) (c_work cfg_completed) (<[100 := false]> (c_calls cfg_completed)).
Definition finished : outcome (World MClock.MClock * WaitStatus) :=
  wait_section idp header_addr status_addr still_clock 100 true false (device <$> []) (c_world cfg2).
Definition cfg3 : VirtioSystem.Config := after_call cfg2 100 (world_of finished) Returned [].

Abbreviation sample_reachable := (disk_reachable idp header_addr status_addr still_clock).
Abbreviation sample_step := (disk_step idp header_addr status_addr still_clock).

Lemma cfg1_reachable : sample_reachable cfg1.
Proof.
  eapply (reach_step _ _ _ _ _ cfg0); [apply reach_init|].
  apply (st_transfer _ _ _ _ _ cfg0 100 4096 1024 7 true (Some (1, 0)) false [] [] _ Sleeping).
  - split_and!; [done|done|]. change (reqs (c_world cfg0)) with (∅ : requests).
    rewrite map_size_empty. unfold MClock.num_process. lia.
  - by split.
  - by vm_compute.
Qed.

Lemma cfg_fetched_reachable : sample_reachable cfg_fetched.
Proof. apply (reach_step _ _ _ _ _ cfg1 Silent); [apply cfg1_reachable|]. apply (st_fetch _ _ _ _ _ cfg1 0); by vm_compute. Qed.

Lemma cfg_failed_reachable : sample_reachable cfg_failed.
Proof.
  apply (reach_step _ _ _ _ _ cfg_fetched Silent); [apply cfg_fetched_reachable|].
  apply (st_complete _ _ _ _ _ cfg_fetched 0 1 []). by vm_compute.
Qed.

Lemma cfg2_reachable : sample_reachable cfg2.
Proof.
  apply (reach_step _ _ _ _ _ cfg_completed Silent); [apply (reach_step _ _ _ _ _ cfg_fetched Silent);
    [apply cfg_fetched_reachable|]|].
  - apply (st_complete _ _ _ _ _ cfg_fetched 0 0 []). by vm_compute.
  - apply (st_wake _ _ _ _ _ cfg_completed 100). by vm_compute.
Qed.

Lemma cfg3_returns : sample_step cfg2 (Returns 100) cfg3.
Proof.
  apply (st_wait _ _ _ _ _ cfg2 100 (reqs (c_world cfg2) !!! 100) true false [] [] _ Returned).
  - by vm_compute.
  - by vm_compute.
  - done.
  - by split.
  - by vm_compute.
Qed.

Lemma disk_sections_return_witness :
  (∃ w, handle_interrupt idp header_addr status_addr still_clock (device <$> []) (c_world cfg2) = Ret w) ∧
  handle_interrupt idp header_addr status_addr still_clock (device <$> []) (c_world cfg_failed) = Panic.
Proof.
  destruct (disk_sections_return idp header_addr status_addr still_clock cfg2 [] [] false cfg2_reachable)
    as (_ & _ & _ & H & _); [by split|].
  destruct (disk_sections_return idp header_addr status_addr still_clock cfg_failed [] [] false cfg_failed_reachable)
    as (_ & _ & _ & H' & _); [by split|].
  assert (all_succeed cfg2 [] = true) as E by (by vm_compute).
  assert (all_succeed cfg_failed [] = false) as E' by (by vm_compute).
  rewrite E in H. rewrite E' in H'. split; [exact H|exact H'].
Defined.

Lemma fetched_chain_correct_witness :
  ∃ m t x, NoDup [0; m; t] ∧ reqs (c_world cfg1) !! 100 = Some x ∧ completed x = false.
Proof.
  destruct (fetched_chain_correct idp header_addr status_addr still_clock cfg1 cfg1_reachable)
    as (m & t & x & _ & _ & _ & Hnd & Hx & Hc & _); [by vm_compute|].
  exists m, t, x. split_and!; [exact Hnd|exact Hx|exact Hc].
Defined.

Lemma sleepers_progress_witness :
  c_calls cfg1 !! 100 = Some true ∧
  (c_work cfg1 ≠ [] ∨ c_seen cfg1 ≠ at_ (avail_ (queue (c_world cfg1))) 1 ∨
   used_idx_ (queue (c_world cfg1)) ≠ u_id (used_ (queue (c_world cfg1)))).
Proof.
  split; [by vm_compute|].
  destruct (sleepers_progress idp header_addr status_addr still_clock cfg1 100 cfg1_reachable)
    as (_ & [H|[H|[H|(k & y & n & _ & _ & _ & _ & Hlt)]]]); [by vm_compute|..].
  - left. exact H.
  - right. left. exact H.
  - right. right. exact H.
  - exfalso. revert Hlt. generalize (pred (ticks (c_world cfg1))). intros m Hlt. exact (Z.lt_irrefl _ Hlt).
Defined.

Lemma returned_request_released_witness :
  c_calls cfg3 !! 100 = None ∧
  (∀ i, in_range i → i_request (at_ (info_ (queue (c_world cfg3))) i) ≠ 100).
Proof.
  destruct (returned_request_released idp header_addr status_addr still_clock cfg2 cfg3 100
    cfg2_reachable cfg3_returns) as (H1 & H2 & _). by split.
Defined.

(** ** The clock set back

    Request 100 is in flight when request 200 comes at a clock reading of 1000 s; from
    then on the clock reads 1 s.  The scheduler holds 200 back and its call sleeps, since
    something is in flight; when 100 is completed nothing is, and 200 sleeps on. *)
Definition set_back (n : nat) : Z * Z := if bool_decide (n = 6%nat) then (1000, 0) else (1, 0).

Definition late_first : outcome (World MClock.MClock * WaitStatus) :=
  submit_transfer_and_wait idp header_addr status_addr set_back 100 4096 1024 7 true (Some (1, 0)) false
    (device <$> []) (c_world cfg0).
Definition late1 : VirtioSystem.Config := after_call cfg0 100 (world_of late_first) Sleeping [].
Definition late_second : outcome (World MClock.MClock * WaitStatus) :=
  submit_transfer_and_wait idp header_addr status_addr set_back 200 8192 1024 9 true (Some (2, 0)) false
    (device <$> []) (c_world late1).
Definition late2 : VirtioSystem.Config := after_call late1 200 (world_of late_second) Sleeping [].
Definition late3 : VirtioSystem.Config :=
  mkConfig (c_world late2) (u16 (c_seen late2 + 1)) (c_work late2 ++ [0]) (c_calls late2).
Definition late4 : VirtioSystem.Config :=
  mkConfig (device_completes (0, 0) (c_world late3)) (c_seen late3) [] (c_calls late3).
Definition late_interrupt : World MClock.MClock :=
  match handle_interrupt idp header_addr status_addr set_back (device <$> []) (c_world late4) with
  | Ret w => w | _ => c_world cfg0 end.
Definition late5 : VirtioSystem.Config := after_section late4 late_interrupt [].

Theorem clock_set_back_strands :
  disk_reachable idp header_addr status_addr set_back late5 ∧ c_calls late5 !! 200 = Some true ∧
  c_work late5 = [] ∧ c_seen late5 = at_ (avail_ (queue (c_world late5))) 1 ∧
  used_idx_ (queue (c_world late5)) = u_id (used_ (queue (c_world late5))).
Proof.
  split; [|by vm_compute].
  apply (reach_step _ _ _ _ _ late4 Silent); [apply (reach_step _ _ _ _ _ late3 Silent); [apply (reach_step _ _ _ _ _ late2 Silent);
    [apply (reach_step _ _ _ _ _ late1 Silent); [apply (reach_step _ _ _ _ _ cfg0 Silent); [apply reach_init|]|]|]|]|].
  - apply (st_transfer _ _ _ _ _ cfg0 100 4096 1024 7 true (Some (1, 0)) false [] [] _ Sleeping); [|by split|by vm_compute].
    split_and!; [done|done|]. change (reqs (c_world cfg0)) with (∅ : requests). rewrite map_size_empty. unfold MClock.num_process. lia.
  - apply (st_transfer _ _ _ _ _ late1 200 8192 1024 9 true (Some (2, 0)) false [] [] _ Sleeping); [|by split|by vm_compute].
    split_and!; [by vm_compute|done|]. apply Nat.ltb_lt. by vm_compute.
  - apply (st_fetch _ _ _ _ _ late2 0); by vm_compute.
  - apply (st_complete _ _ _ _ _ late3 0 0 []). by vm_compute.
  - apply (st_interrupt _ _ _ _ _ late4 [] []); [by split|by vm_compute].
Qed.

End VirtioCorrect.
