(* ===== verification/Sleep.v ===== *)
(** * Sleep and wakeup (kernel/proc/proc_manager.cc, proc.hh, signal.cc)

    A process sleeps on a channel, an address.  The process pool, the bitmaps that
    find the sleepers of a channel, and the tests for pending signals that end a
    sleep early.  Of a process control block the model has the fields these
    operations and the futexes use; the run queues behind [set_task_state] and the
    interrupts sent to idle processors are omitted.  A function runs with the locks
    the code holds; functions that give up a lock in between are split there. *)
From S2P Require Import Prelude.

Module Sleep.

(** ** Process control blocks (proc.hh) *)

Inductive ProcState := UNUSED | USED | SLEEPING | RUNNABLE | RUNNING | STOPPED | ZOMBIE.

#[export] Instance ProcState_eq_dec : EqDecision ProcState.
Proof. solve_decision. Defined.

Definition num_process : Z := 512.

Record sigaction := mkAction { sa_handler : Z; sa_flags : Z }.

Record Pcb := mkPcb {
  _state : ProcState;
  _chan : Z;
  _wait_channel_bucket : Z;
  _wait_channel_registered : bool;
  _killed : bool;
  _signal : Z;
  _sigmask : Z;
  _sigactions : gmap Z sigaction; (* the entries that are not null *)
  memory_manager : Z;
  _futex_addr : Z;
  _futex_key : Z;
  _futex_private : bool;
  _futex_bucket_index : Z;
  _futex_timeout_deadline : Z;
  _futex_wait_result : Z
}.

Definition set_task_state (p : Pcb) (s : ProcState) : Pcb :=
  mkPcb s (_chan p) (_wait_channel_bucket p) (_wait_channel_registered p) (_killed p) (_signal p) (_sigmask p)
    (_sigactions p) (memory_manager p) (_futex_addr p) (_futex_key p) (_futex_private p) (_futex_bucket_index p)
    (_futex_timeout_deadline p) (_futex_wait_result p).

Definition with_channel (p : Pcb) (chan bucket : Z) (registered : bool) : Pcb :=
  mkPcb (_state p) chan bucket registered (_killed p) (_signal p) (_sigmask p)
    (_sigactions p) (memory_manager p) (_futex_addr p) (_futex_key p) (_futex_private p) (_futex_bucket_index p)
    (_futex_timeout_deadline p) (_futex_wait_result p).

Definition with_signals (p : Pcb) (killed : bool) (signal sigmask : Z) (acts : gmap Z sigaction) : Pcb :=
  mkPcb (_state p) (_chan p) (_wait_channel_bucket p) (_wait_channel_registered p) killed signal sigmask
    acts (memory_manager p) (_futex_addr p) (_futex_key p) (_futex_private p) (_futex_bucket_index p)
    (_futex_timeout_deadline p) (_futex_wait_result p).

Definition with_futex (p : Pcb) (addr key : Z) (priv : bool) (bucket : Z) : Pcb :=
  mkPcb (_state p) (_chan p) (_wait_channel_bucket p) (_wait_channel_registered p) (_killed p) (_signal p) (_sigmask p)
    (_sigactions p) (memory_manager p) addr key priv bucket (_futex_timeout_deadline p) (_futex_wait_result p).

Definition with_deadline (p : Pcb) (deadline : Z) : Pcb :=
  mkPcb (_state p) (_chan p) (_wait_channel_bucket p) (_wait_channel_registered p) (_killed p) (_signal p) (_sigmask p)
    (_sigactions p) (memory_manager p) (_futex_addr p) (_futex_key p) (_futex_private p) (_futex_bucket_index p)
    deadline (_futex_wait_result p).

Definition with_result (p : Pcb) (result : Z) : Pcb :=
  mkPcb (_state p) (_chan p) (_wait_channel_bucket p) (_wait_channel_registered p) (_killed p) (_signal p) (_sigmask p)
    (_sigactions p) (memory_manager p) (_futex_addr p) (_futex_key p) (_futex_private p) (_futex_bucket_index p)
    (_futex_timeout_deadline p) result.

Definition no_pcb : Pcb := mkPcb UNUSED 0 0 false false 0 0 ∅ 0 0 0 false 0 0 0.
#[export] Instance Pcb_inhabited : Inhabited Pcb := populate no_pcb.

(** ** The pool and the bitmaps

    [k_proc_pool] by global id, the bitmaps of sleepers by channel bucket and those
    of futex waiters by futex bucket: eight words of 64 bits per bucket. *)
Record Kernel := mkKernel {
  k_proc_pool : list Pcb;
  _wait_channel_slot_words : list (list Z);
  g_futex_buckets : list (list Z)
}.

Definition k_wait_channel_bucket_count : Z := 64.

Definition with_pool (k : Kernel) (l : list Pcb) : Kernel := mkKernel l (_wait_channel_slot_words k) (g_futex_buckets k).
Definition with_channels (k : Kernel) (c : list (list Z)) : Kernel := mkKernel (k_proc_pool k) c (g_futex_buckets k).
Definition with_buckets (k : Kernel) (b : list (list Z)) : Kernel := mkKernel (k_proc_pool k) (_wait_channel_slot_words k) b.

Definition get_pcb (k : Kernel) (gid : Z) : outcome Pcb := aget (k_proc_pool k) gid.
Definition put_pcb (k : Kernel) (gid : Z) (p : Pcb) : outcome Kernel :=
  let! l := aset (k_proc_pool k) gid p in Ret (with_pool k l).
Definition upd_pcb (k : Kernel) (gid : Z) (f : Pcb → Pcb) : outcome Kernel :=
  let! p := get_pcb k gid in put_pcb k gid (f p).

(** [1ULL << (gid % 64)] and the two updates of a bitmap. *)
Definition slot_bit (gid : Z) : Z := u64 (Z.shiftl 1 (gid mod 64)).
Definition set_slot (words : list Z) (gid : Z) : outcome (list Z) :=
  let! w := aget words (gid / 64) in aset words (gid / 64) (Z.lor w (slot_bit gid)).
Definition clear_slot (words : list Z) (gid : Z) : outcome (list Z) :=
  let! w := aget words (gid / 64) in aset words (gid / 64) (Z.land w (u64 (Z.lnot (slot_bit gid)))).
Definition in_bucket (bs : list (list Z)) (b : Z) (f : list Z → outcome (list Z)) : outcome (list (list Z)) :=
  let! ws := aget bs b in let! ws := f ws in aset bs b ws.

(** ** Wait channels *)

Definition wait_channel_bucket (chan : Z) : Z :=
  let value := Z.shiftr chan 3 in
  let value := Z.lxor value (Z.shiftr value 17) in
  let value := Z.lxor value (Z.shiftr value 31) in
  Z.land (u32 value) (k_wait_channel_bucket_count - 1).

Definition register_wait_channel (k : Kernel) (gid chan : Z) : outcome Kernel :=
  if chan =? nullptr then Ret k else
  let bucket := wait_channel_bucket chan in
  let! p := get_pcb k gid in
  let old_bucket := _wait_channel_bucket p in
  if _wait_channel_registered p && (old_bucket =? bucket) && (_chan p =? chan) then Ret k else
  let! c := (if _wait_channel_registered p && (old_bucket <? k_wait_channel_bucket_count)
             then in_bucket (_wait_channel_slot_words k) old_bucket (λ ws, clear_slot ws gid)
             else Ret (_wait_channel_slot_words k)) in
  let! c := in_bucket c bucket (λ ws, set_slot ws gid) in
  put_pcb (with_channels k c) gid (with_channel p chan bucket true).

Definition unregister_wait_channel (k : Kernel) (gid : Z) : outcome Kernel :=
  let! p := get_pcb k gid in
  let bucket := _wait_channel_bucket p in
  let! c := (if _wait_channel_registered p && (bucket <? k_wait_channel_bucket_count)
             then in_bucket (_wait_channel_slot_words k) bucket (λ ws, clear_slot ws gid)
             else Ret (_wait_channel_slot_words k)) in
  put_pcb (with_channels k c) gid (with_channel p nullptr bucket false).

(** One test of [active_slot_bit_index] on the count and the word. *)
Definition halve (s : Z * Z) (mask width : Z) : Z * Z :=
  if Z.land s.2 mask =? 0 then (s.1 + width, Z.shiftr s.2 width) else s.

(** The index of the lowest bit of a word that is set. *)
Definition active_slot_bit_index (value : Z) : Z :=
  let s := halve (0, value) 0xffffffff 32 in
  let s := halve s 0xffff 16 in
  let s := halve s 0xff 8 in
  let s := halve s 0xf 4 in
  let s := halve s 0x3 2 in
  if Z.land s.2 1 =? 0 then s.1 + 1 else s.1.

(** One candidate of [wakeup], with its lock held. *)
Definition wakeup_candidate (k : Kernel) (gid chan : Z) : outcome Kernel :=
  let! p := get_pcb k gid in
  if bool_decide (_state p = SLEEPING) && (_chan p =? chan) then
    let! k := unregister_wait_channel k gid in
    upd_pcb k gid (λ p, set_task_state p RUNNABLE)
  else if _wait_channel_registered p && (_chan p =? chan) then unregister_wait_channel k gid
  else Ret k.

Fixpoint wakeup_word (fuel : nat) (k : Kernel) (cur chan word_index candidates : Z) : outcome Kernel :=
  if candidates =? 0 then Ret k else
  match fuel with
  | O => Stuck
  | S fuel' =>
      let bit := active_slot_bit_index candidates in
      let candidates := Z.land candidates (u64 (candidates - 1)) in
      let global_id := word_index * 64 + bit in
      if num_process <=? global_id then Ret k else
      let! p := get_pcb k global_id in
      if (global_id =? cur) || negb (_chan p =? chan) then wakeup_word fuel' k cur chan word_index candidates else
      let! k := wakeup_candidate k global_id chan in
      wakeup_word fuel' k cur chan word_index candidates
  end.

(** [wakeup], by the process [cur]. *)
Definition wakeup (k : Kernel) (cur chan : Z) : outcome Kernel :=
  if chan =? nullptr then Ret k else
  let bucket := wait_channel_bucket chan in
  for_up (λ word_index k,
    let! ws := aget (_wait_channel_slot_words k) bucket in
    let! candidates := aget ws word_index in
    wakeup_word 64 k cur chan word_index candidates) 0 (num_process / 64) k.

Definition wakeup_one (k : Kernel) (cur target chan : Z) : outcome Kernel :=
  if target =? cur then Ret k else
  let! p := get_pcb k target in
  if negb (_chan p =? chan) then Ret k else
  if bool_decide (_state p = SLEEPING) && (_chan p =? chan) then
    let! k := unregister_wait_channel k target in
    upd_pcb k target (λ p, set_task_state p RUNNABLE)
  else Ret k.

(** ** Pending signals (signal.cc) *)

Definition SIGKILL : Z := 9.
Definition SIGCHLD : Z := 17.
Definition SIGCONT : Z := 18.
Definition SIGSTOP : Z := 19.
Definition SIGURG : Z := 23.
Definition SIGWINCH : Z := 28.
Definition SIGCANCEL : Z := 33.
Definition SIGRTMAX : Z := 64.
Definition SIG_DFL : Z := 0.
Definition SIG_IGN : Z := 1.
Definition RESTART : Z := 0x10000000.

Definition pending (signals signum : Z) : bool := negb (Z.land signals (u64 (Z.shiftl 1 (signum - 1))) =? 0).

Definition has_fatal_signal_pending (p : Pcb) : bool :=
  if _killed p then true
  else if _signal p =? 0 then false
  else pending (_signal p) SIGKILL || pending (_signal p) SIGSTOP.

Definition signal_is_ignored_for_interrupt (p : Pcb) (signum : Z) : bool :=
  let default_ := (signum =? SIGCHLD) || (signum =? SIGCONT) || (signum =? SIGURG) || (signum =? SIGWINCH) in
  match _sigactions p !! signum with
  | Some act =>
      if sa_handler act =? SIG_IGN then true
      else if negb (sa_handler act =? 0) && negb (sa_handler act =? SIG_DFL) then false
      else default_
  | None => default_
  end.

Definition has_unmasked_signal_pending (p : Pcb) : bool :=
  if _killed p then true
  else if _signal p =? 0 then false
  else existsb (λ signum,
    if negb (pending (_signal p) signum) then false
    else if signum =? SIGCANCEL then true
    else if pending (_sigmask p) signum then false
    else negb (signal_is_ignored_for_interrupt p signum)) (seqZ 1 SIGRTMAX).

Definition should_interrupt_blocking_syscall (p : Pcb) : bool :=
  if _killed p then true
  else if _signal p =? 0 then false
  else existsb (λ signum,
    if negb (pending (_signal p) signum) then false
    else if (signum =? SIGCANCEL) || (signum =? SIGKILL) || (signum =? SIGSTOP) then true
    else if pending (_sigmask p) signum then false
    else
      let default_ := negb (signal_is_ignored_for_interrupt p signum) in
      match _sigactions p !! signum with
      | Some act =>
          if sa_handler act =? SIG_IGN then false
          else if negb (sa_handler act =? 0) && negb (sa_handler act =? SIG_DFL) then
            Z.land (sa_flags act) RESTART =? 0
          else default_
      | None => default_
      end) (seqZ 1 SIGRTMAX).

(** ** [sleep]

    [sleep_enter] runs with the process lock held up to the switch to another
    process, and gives up the condition lock on the way; [sleep_exit] runs when the
    process is scheduled again. *)
Definition sleep_enter (k : Kernel) (gid chan : Z) : outcome Kernel :=
  let! k := register_wait_channel k gid chan in
  let! k := upd_pcb k gid (λ p, set_task_state p SLEEPING) in
  let! p := get_pcb k gid in
  if should_interrupt_blocking_syscall p then put_pcb k gid (set_task_state p RUNNABLE) else Ret k.

Definition sleep_exit (k : Kernel) (gid : Z) : outcome Kernel := unregister_wait_channel k gid.

End Sleep.
