(* ===== verification/SleepRep.v ===== *)
(** * The process pool and its bitmaps

    What the operations on process control blocks, on the bitmaps of a bucket and on
    wait channels do, stated on the members of the bitmaps; the invariant of the wait
    channels. *)
From S2P Require Import Prelude Sleep.
Import Sleep.

Module SleepRep.

(** ** Words *)

Definition word_ok (w : Z) : Prop := 0 ≤ w < 2 ^ 64.

Lemma testbit_high w n : word_ok w → 64 ≤ n → Z.testbit w n = false.
Proof.
  intros [Hl Hh] Hn. rewrite <- (Z.mod_small w (2 ^ 64)) by lia. apply Z.mod_pow2_bits_high. lia.
Qed.

Lemma word_ext v w : word_ok v → word_ok w → (∀ n, 0 ≤ n < 64 → Z.testbit v n = Z.testbit w n) → v = w.
Proof.
  intros Hv Hw H. apply Z.bits_inj'. intros n Hn. destruct (decide (n < 64)); [by apply H|].
  rewrite !testbit_high; [done|done|lia|done|lia].
Qed.

Lemma word_of_bits w : 0 ≤ w → (∀ n, 64 ≤ n → Z.testbit w n = false) → word_ok w.
Proof.
  intros Hw H. split; [done|]. apply Z.lt_nge. intros Hge.
  assert (64 ≤ Z.log2 w) as Hlog by (apply Z.log2_le_pow2; lia).
  pose proof (Z.bit_log2 w ltac:(lia)) as E. rewrite H in E by done. done.
Qed.

Lemma testbit_u64 x n : 0 ≤ n → Z.testbit (u64 x) n = bool_decide (n < 64) && Z.testbit x n.
Proof.
  intros Hn. unfold u64. case_bool_decide; [apply Z.mod_pow2_bits_low; lia|].
  apply Z.mod_pow2_bits_high. lia.
Qed.

Lemma slot_bit_pow i : 0 ≤ i → slot_bit i = 2 ^ (i mod 64).
Proof.
  intros Hi. unfold slot_bit. rewrite Z.shiftl_1_l. apply u64_small.
  pose proof (Z.mod_pos_bound i 64 ltac:(lia)). split; [apply Z.pow_nonneg; lia|].
  apply Z.pow_lt_mono_r; lia.
Qed.

Lemma testbit_slot_bit i n : 0 ≤ i → 0 ≤ n → Z.testbit (slot_bit i) n = bool_decide (n = i mod 64).
Proof.
  intros Hi Hn. rewrite slot_bit_pow, Z.pow2_bits_eqb by (try apply Z.mod_pos_bound; lia).
  destruct (Z.eqb_spec (i mod 64) n); case_bool_decide; naive_solver.
Qed.

Lemma testbit_set w i n : 0 ≤ i → 0 ≤ n →
  Z.testbit (Z.lor w (slot_bit i)) n = bool_decide (n = i mod 64) || Z.testbit w n.
Proof. intros. rewrite Z.lor_spec, testbit_slot_bit by done. apply orb_comm. Qed.

Lemma testbit_clear w i n : word_ok w → 0 ≤ i → 0 ≤ n →
  Z.testbit (Z.land w (u64 (Z.lnot (slot_bit i)))) n = negb (bool_decide (n = i mod 64)) && Z.testbit w n.
Proof.
  intros Hw Hi Hn. rewrite Z.land_spec, testbit_u64, Z.lnot_spec, testbit_slot_bit by done.
  destruct (bool_decide_reflect (n < 64)); cbn; [apply andb_comm|].
  rewrite (testbit_high w n) by (done || lia). by rewrite !andb_false_r.
Qed.

Lemma word_ok_set w i : word_ok w → 0 ≤ i → word_ok (Z.lor w (slot_bit i)).
Proof.
  intros Hw Hi. apply word_of_bits.
  - apply Z.lor_nonneg. split; [apply Hw|]. rewrite slot_bit_pow by done. apply Z.pow_nonneg. lia.
  - intros n Hn. rewrite testbit_set by lia. rewrite (testbit_high w n Hw Hn).
    pose proof (Z.mod_pos_bound i 64 ltac:(lia)). rewrite bool_decide_eq_false_2 by lia. done.
Qed.

Lemma word_ok_land w x : word_ok w → 0 ≤ x → word_ok (Z.land w x).
Proof.
  intros Hw Hx. apply word_of_bits; [apply Z.land_nonneg; by right|].
  intros n Hn. by rewrite Z.land_spec, testbit_high.
Qed.

(** ** Bitmaps *)

Definition words_ok (ws : list Z) : Prop := length ws = 8%nat ∧ Forall word_ok ws.
(** A bitmap for each of [n] buckets. *)
Definition rows_ok (n : nat) (bs : list (list Z)) : Prop := length bs = n ∧ Forall words_ok bs.
Definition map_ok (bs : list (list Z)) : Prop := rows_ok 64 bs.

Definition bit_at (ws : list Z) (i : Z) : bool := Z.testbit (ws !!! Z.to_nat (i / 64)) (i mod 64).
(** Process [i] is in the bitmap of bucket [b]. *)
Definition member (bs : list (list Z)) (b i : Z) : bool := bit_at (bs !!! Z.to_nat b) i.

Definition slot (i : Z) : Prop := 0 ≤ i < num_process.
Definition bucket (b : Z) : Prop := 0 ≤ b < 64.

Lemma slot_word i : slot i → 0 ≤ i / 64 < 8.
Proof. unfold slot, num_process. intros. split; [apply Z.div_pos|apply Z.div_lt_upper_bound]; lia. Qed.

Lemma word_lookup ws w : words_ok ws → 0 ≤ w < 8 → aget ws w = Ret (ws !!! Z.to_nat w) ∧ word_ok (ws !!! Z.to_nat w).
Proof.
  intros [Hl Hf] Hw. split; [apply aget_total; lia|].
  apply (Forall_lookup_1 _ _ (Z.to_nat w) _ Hf). apply list_lookup_lookup_total_lt. lia.
Qed.

Lemma row_lookup n bs b : rows_ok n bs → 0 ≤ b < Z.of_nat n →
  aget bs b = Ret (bs !!! Z.to_nat b) ∧ words_ok (bs !!! Z.to_nat b).
Proof.
  intros [Hl Hf] Hb. split; [apply aget_total; lia|].
  apply (Forall_lookup_1 _ _ (Z.to_nat b) _ Hf). apply list_lookup_lookup_total_lt. lia.
Qed.

Lemma bucket_lookup bs b : map_ok bs → bucket b → aget bs b = Ret (bs !!! Z.to_nat b) ∧ words_ok (bs !!! Z.to_nat b).
Proof. exact (row_lookup 64 bs b). Qed.

(** Storing a word. *)
Lemma store_word ws w v : words_ok ws → 0 ≤ w < 8 → word_ok v →
  aset ws w v = Ret (<[Z.to_nat w := v]> ws) ∧ words_ok (<[Z.to_nat w := v]> ws).
Proof.
  intros [Hl Hf] Hw Hv. rewrite aset_in_range by lia. split; [done|].
  split; [by rewrite length_insert|by apply Forall_insert].
Qed.

Lemma bit_at_store ws i i' v : words_ok ws → slot i → slot i' →
  bit_at (<[Z.to_nat (i / 64) := v]> ws) i' =
  if bool_decide (i' / 64 = i / 64) then Z.testbit v (i' mod 64) else bit_at ws i'.
Proof.
  intros [Hl _] Hi Hi'. unfold bit_at. pose proof (slot_word i Hi). pose proof (slot_word i' Hi').
  case_bool_decide as E.
  - rewrite E, lookup_total_aset_eq by lia. done.
  - rewrite lookup_total_aset_ne by lia. done.
Qed.

Lemma same_slot i i' : i' = i ↔ i' / 64 = i / 64 ∧ i' mod 64 = i mod 64.
Proof.
  split; [by intros ->|]. intros [H1 H2].
  rewrite (Z.div_mod i 64), (Z.div_mod i' 64), H1, H2 by lia. done.
Qed.

Lemma set_slot_spec ws i : words_ok ws → slot i →
  ∃ ws', set_slot ws i = Ret ws' ∧ words_ok ws' ∧
    ∀ i', slot i' → bit_at ws' i' = bool_decide (i' = i) || bit_at ws i'.
Proof.
  intros Hws Hi. pose proof (slot_word i Hi) as Hw. unfold set_slot.
  destruct (word_lookup ws (i / 64) Hws Hw) as [-> Hok]. cbn [obind].
  destruct (store_word ws (i / 64) (Z.lor (ws !!! Z.to_nat (i / 64)) (slot_bit i)) Hws Hw) as [-> Hws'].
  { apply word_ok_set; [done|unfold slot in Hi; lia]. }
  eexists. split; [done|]. split; [done|]. intros i' Hi'. rewrite bit_at_store by done.
  pose proof (Z.mod_pos_bound i' 64 ltac:(lia)). unfold slot in Hi, Hi'.
  case_bool_decide as E.
  - rewrite testbit_set by lia. unfold bit_at. rewrite E. f_equal. apply bool_decide_ext.
    rewrite (same_slot i i'). tauto.
  - rewrite (bool_decide_eq_false_2 (i' = i)); [done|]. by intros ->.
Qed.

Lemma clear_slot_spec ws i : words_ok ws → slot i →
  ∃ ws', clear_slot ws i = Ret ws' ∧ words_ok ws' ∧
    ∀ i', slot i' → bit_at ws' i' = negb (bool_decide (i' = i)) && bit_at ws i'.
Proof.
  intros Hws Hi. pose proof (slot_word i Hi) as Hw. unfold clear_slot.
  destruct (word_lookup ws (i / 64) Hws Hw) as [-> Hok]. cbn [obind].
  destruct (store_word ws (i / 64) (Z.land (ws !!! Z.to_nat (i / 64)) (u64 (Z.lnot (slot_bit i)))) Hws Hw) as [-> Hws'].
  { apply word_ok_land; [done|apply u64_range]. }
  eexists. split; [done|]. split; [done|]. intros i' Hi'. rewrite bit_at_store by done.
  pose proof (Z.mod_pos_bound i' 64 ltac:(lia)). unfold slot in Hi, Hi'.
  case_bool_decide as E.
  - rewrite testbit_clear by (done || lia). unfold bit_at. rewrite E. do 2 f_equal. apply bool_decide_ext.
    rewrite (same_slot i i'). tauto.
  - rewrite (bool_decide_eq_false_2 (i' = i)); [done|]. by intros ->.
Qed.

Lemma in_bucket_spec n bs b f ws' :
  rows_ok n bs → 0 ≤ b < Z.of_nat n → f (bs !!! Z.to_nat b) = Ret ws' → words_ok ws' →
  ∃ bs', in_bucket bs b f = Ret bs' ∧ rows_ok n bs' ∧
    ∀ b', 0 ≤ b' < Z.of_nat n → bs' !!! Z.to_nat b' = if bool_decide (b' = b) then ws' else bs !!! Z.to_nat b'.
Proof.
  intros Hbs Hb Hf Hws'. unfold in_bucket. destruct (row_lookup n bs b Hbs Hb) as [-> _]. cbn [obind].
  rewrite Hf. cbn [obind]. destruct Hbs as [Hl Hall]. rewrite aset_in_range by lia.
  eexists. split; [done|]. split; [split; [by rewrite length_insert|by apply Forall_insert]|].
  intros b' Hb'. case_bool_decide as E; [subst; rewrite lookup_total_aset_eq by lia; done|].
  rewrite lookup_total_aset_ne by lia. done.
Qed.

Lemma mark_row n bs b i : rows_ok n bs → 0 ≤ b < Z.of_nat n → slot i →
  ∃ bs', in_bucket bs b (λ ws, set_slot ws i) = Ret bs' ∧ rows_ok n bs' ∧
    ∀ b' i', 0 ≤ b' < Z.of_nat n → slot i' →
      member bs' b' i' = bool_decide (b' = b ∧ i' = i) || member bs b' i'.
Proof.
  intros Hbs Hb Hi. destruct (set_slot_spec (bs !!! Z.to_nat b) i) as (ws' & E & Hok & Hbit);
    [by eapply row_lookup|done|].
  destruct (in_bucket_spec n bs b (λ ws, set_slot ws i) ws') as (bs' & -> & Hbs' & Hat); [done..|].
  exists bs'. split; [done|]. split; [done|]. intros b' i' Hb' Hi'. unfold member. rewrite Hat by done.
  destruct (bool_decide_reflect (b' = b)) as [->|Hne].
  - rewrite Hbit by done. f_equal. apply bool_decide_ext. tauto.
  - rewrite (bool_decide_eq_false_2 (b' = b ∧ i' = i)); [done|tauto].
Qed.

Lemma unmark_row n bs b i : rows_ok n bs → 0 ≤ b < Z.of_nat n → slot i →
  ∃ bs', in_bucket bs b (λ ws, clear_slot ws i) = Ret bs' ∧ rows_ok n bs' ∧
    ∀ b' i', 0 ≤ b' < Z.of_nat n → slot i' →
      member bs' b' i' = negb (bool_decide (b' = b ∧ i' = i)) && member bs b' i'.
Proof.
  intros Hbs Hb Hi. destruct (clear_slot_spec (bs !!! Z.to_nat b) i) as (ws' & E & Hok & Hbit);
    [by eapply row_lookup|done|].
  destruct (in_bucket_spec n bs b (λ ws, clear_slot ws i) ws') as (bs' & -> & Hbs' & Hat); [done..|].
  exists bs'. split; [done|]. split; [done|]. intros b' i' Hb' Hi'. unfold member. rewrite Hat by done.
  destruct (bool_decide_reflect (b' = b)) as [->|Hne].
  - rewrite Hbit by done. do 2 f_equal. apply bool_decide_ext. tauto.
  - rewrite (bool_decide_eq_false_2 (b' = b ∧ i' = i)); [done|tauto].
Qed.

Lemma mark_spec bs b i : map_ok bs → bucket b → slot i →
  ∃ bs', in_bucket bs b (λ ws, set_slot ws i) = Ret bs' ∧ map_ok bs' ∧
    ∀ b' i', bucket b' → slot i' →
      member bs' b' i' = bool_decide (b' = b ∧ i' = i) || member bs b' i'.
Proof. exact (mark_row 64 bs b i). Qed.

Lemma unmark_spec bs b i : map_ok bs → bucket b → slot i →
  ∃ bs', in_bucket bs b (λ ws, clear_slot ws i) = Ret bs' ∧ map_ok bs' ∧
    ∀ b' i', bucket b' → slot i' →
      member bs' b' i' = negb (bool_decide (b' = b ∧ i' = i)) && member bs b' i'.
Proof. exact (unmark_row 64 bs b i). Qed.

(** ** The invariant of the pool *)

Definition pcb (k : Kernel) (i : Z) : Pcb := k_proc_pool k !!! Z.to_nat i.
Definition listens (k : Kernel) (b i : Z) : bool := member (_wait_channel_slot_words k) b i.
Definition waits (k : Kernel) (b i : Z) : bool := member (g_futex_buckets k) b i.

(** A process is registered exactly while it has a channel, in the bucket of it. *)
Definition channel_ok (k : Kernel) (i : Z) : Prop :=
  let p := pcb k i in
  if _wait_channel_registered p
  then _chan p ≠ nullptr ∧ _wait_channel_bucket p = wait_channel_bucket (_chan p) ∧
       listens k (wait_channel_bucket (_chan p)) i = true
  else _chan p = nullptr.

Record Ok (k : Kernel) : Prop := {
  ok_pool : Z.of_nat (length (k_proc_pool k)) = num_process;
  ok_channels : map_ok (_wait_channel_slot_words k);
  ok_buckets : map_ok (g_futex_buckets k);
  ok_channel i : slot i → channel_ok k i
}.

Lemma wait_channel_bucket_range chan : bucket (wait_channel_bucket chan).
Proof.
  unfold wait_channel_bucket, k_wait_channel_bucket_count. change (64 - 1) with (Z.ones 6).
  rewrite Z.land_ones by lia. apply Z.mod_pos_bound. lia.
Qed.

(** [k'] is [k] with [p] for process [i] and the futex bitmaps [bs]. *)
Record Touch (k : Kernel) (i : Z) (p : Pcb) (bs : list (list Z)) (k' : Kernel) : Prop := {
  touch_ok : Ok k';
  touch_pool : k_proc_pool k' = <[Z.to_nat i := p]> (k_proc_pool k);
  touch_buckets : g_futex_buckets k' = bs
}.

Lemma touch_pcb k i p bs k' i' : Ok k → slot i → slot i' → Touch k i p bs k' →
  pcb k' i' = if bool_decide (i' = i) then p else pcb k i'.
Proof.
  intros [Hl _ _ _] Hi Hi' [_ E _]. unfold pcb, slot in *. rewrite E.
  case_bool_decide; subst; [rewrite lookup_total_aset_eq by lia|rewrite lookup_total_aset_ne by lia]; done.
Qed.

Lemma touch_self k i p bs k' : Ok k → slot i → Touch k i p bs k' → pcb k' i = p.
Proof. intros Hk Hi Ht. rewrite (touch_pcb _ _ _ _ _ _ Hk Hi Hi Ht). by rewrite bool_decide_eq_true_2. Qed.

Lemma touch_refl k i : Ok k → slot i → Touch k i (pcb k i) (g_futex_buckets k) k.
Proof.
  intros Hk Hi. split; [done| |done]. symmetry. apply list_insert_id.
  destruct Hk as [Hl _ _ _]. apply lookup_total_in_range. unfold slot in Hi. lia.
Qed.

Lemma touch_trans k i p bs k1 p' bs' k2 :
  Touch k i p bs k1 → Touch k1 i p' bs' k2 → Touch k i p' bs' k2.
Proof. intros [_ E1 _] [Hok E2 E3]. split; [done| |done]. by rewrite E2, E1, list_insert_insert_eq. Qed.

Lemma get_pcb_spec k i : Ok k → slot i → get_pcb k i = Ret (pcb k i).
Proof. intros [Hl _ _ _] Hi. apply aget_total. unfold slot in Hi. lia. Qed.

(** A store to a process control block that leaves its channel as it was. *)
Definition same_channel (p p' : Pcb) : Prop :=
  _chan p' = _chan p ∧ _wait_channel_bucket p' = _wait_channel_bucket p ∧
  _wait_channel_registered p' = _wait_channel_registered p.

Lemma put_pcb_spec k i p : Ok k → slot i → same_channel (pcb k i) p →
  ∃ k', put_pcb k i p = Ret k' ∧ Touch k i p (g_futex_buckets k) k'.
Proof.
  intros Hk Hi (E1 & E2 & E3). destruct (Hk) as [Hl Hc Hb Hch]. unfold put_pcb.
  rewrite aset_in_range by (unfold slot in Hi; lia). cbn [obind]. eexists. split; [done|].
  split; [|done..]. split; [by cbn; rewrite length_insert|done|done|].
  intros j Hj. specialize (Hch j Hj). unfold channel_ok, pcb, listens in *. cbn. destruct (decide (j = i)) as [->|Hne].
  - rewrite lookup_total_aset_eq by (unfold slot in Hi; lia). by rewrite E1, E2, E3.
  - unfold slot in *. rewrite lookup_total_aset_ne by lia. done.
Qed.

Lemma upd_pcb_spec k i f : Ok k → slot i → same_channel (pcb k i) (f (pcb k i)) →
  ∃ k', upd_pcb k i f = Ret k' ∧ Touch k i (f (pcb k i)) (g_futex_buckets k) k'.
Proof. intros Hk Hi Hf. unfold upd_pcb. rewrite get_pcb_spec by done. cbn [obind]. by apply put_pcb_spec. Qed.

(** Changing the channel bitmaps and the process [i] together. *)
Lemma touch_channel k i p cs : Ok k → slot i → map_ok cs →
  (∀ b j, bucket b → slot j → j ≠ i → member cs b j = listens k b j) →
  (if _wait_channel_registered p
   then _chan p ≠ nullptr ∧ _wait_channel_bucket p = wait_channel_bucket (_chan p) ∧
        member cs (wait_channel_bucket (_chan p)) i = true
   else _chan p = nullptr) →
  ∃ k', put_pcb (with_channels k cs) i p = Ret k' ∧ Touch k i p (g_futex_buckets k) k'.
Proof.
  intros Hk Hi Hcs Hother Hp. destruct (Hk) as [Hl Hc Hb Hch]. unfold put_pcb. cbn.
  rewrite aset_in_range by (unfold slot in Hi; lia). cbn [obind]. eexists. split; [done|].
  split; [|done..]. split; [by cbn; rewrite length_insert|done|done|].
  intros j Hj. specialize (Hch j Hj). unfold channel_ok, pcb, listens in *. cbn. destruct (decide (j = i)) as [->|Hne].
  - rewrite lookup_total_aset_eq by (unfold slot in Hi; lia). done.
  - rewrite lookup_total_aset_ne by (unfold slot in *; lia).
    destruct (_wait_channel_registered (k_proc_pool k !!! Z.to_nat j)); [|done]. destruct Hch as (? & ? & ?).
    split_and!; [done..|]. rewrite Hother; [done|apply wait_channel_bucket_range|done|done].
Qed.

Lemma registered_bucket k i : Ok k → slot i → _wait_channel_registered (pcb k i) = true →
  bucket (_wait_channel_bucket (pcb k i)).
Proof.
  intros Hk Hi E. pose proof (ok_channel k Hk i Hi) as H. unfold channel_ok in H. rewrite E in H.
  destruct H as (_ & -> & _). apply wait_channel_bucket_range.
Qed.

Lemma unregister_spec k i : Ok k → slot i →
  ∃ k', unregister_wait_channel k i = Ret k' ∧
    Touch k i (with_channel (pcb k i) nullptr (_wait_channel_bucket (pcb k i)) false) (g_futex_buckets k) k'.
Proof.
  intros Hk Hi. unfold unregister_wait_channel. rewrite get_pcb_spec by done. cbn [obind].
  destruct (_wait_channel_registered (pcb k i)) eqn:E; cbn [andb].
  - pose proof (registered_bucket k i Hk Hi E) as Hb. rewrite (proj2 (Z.ltb_lt _ _)) by apply Hb.
    destruct (unmark_spec _ _ i (ok_channels k Hk) Hb Hi) as (cs & -> & Hcs & Hm). cbn [obind].
    apply touch_channel; [done..| |done]. intros b j Hb' Hj Hne. rewrite Hm by done.
    rewrite bool_decide_eq_false_2 by tauto. done.
  - cbn [obind]. apply touch_channel; [done|done|apply Hk|done|done].
Qed.

Lemma register_spec k i chan : Ok k → slot i → chan ≠ nullptr →
  ∃ k' b, register_wait_channel k i chan = Ret k' ∧
    Touch k i (with_channel (pcb k i) chan b true) (g_futex_buckets k) k'.
Proof.
  intros Hk Hi Hchan. unfold register_wait_channel. rewrite (proj2 (Z.eqb_neq _ _)) by done.
  rewrite get_pcb_spec by done. cbn [obind].
  destruct (_ && _ && _) eqn:Hsame.
  { bool_facts. exists k, (_wait_channel_bucket (pcb k i)). split; [done|].
    pose proof (touch_refl k i Hk Hi) as Ht. destruct (pcb k i); cbn in *. by subst. }
  clear Hsame. assert (∃ cs, (if _wait_channel_registered (pcb k i)
      && (_wait_channel_bucket (pcb k i) <? k_wait_channel_bucket_count)
    then in_bucket (_wait_channel_slot_words k) (_wait_channel_bucket (pcb k i)) (λ ws, clear_slot ws i)
    else Ret (_wait_channel_slot_words k)) = Ret cs ∧ map_ok cs ∧
    ∀ b j, bucket b → slot j → j ≠ i → member cs b j = listens k b j) as (cs & -> & Hcs & Hm).
  { destruct (_wait_channel_registered (pcb k i)) eqn:E; cbn [andb].
    - pose proof (registered_bucket k i Hk Hi E) as Hb. rewrite (proj2 (Z.ltb_lt _ _)) by apply Hb.
      destruct (unmark_spec _ _ i (ok_channels k Hk) Hb Hi) as (cs & -> & Hcs & Hm).
      exists cs. split_and!; [done..|]. intros b j Hb' Hj Hne. rewrite Hm by done.
      rewrite bool_decide_eq_false_2 by tauto. done.
    - eexists. split; [done|]. split; [apply Hk|done]. }
  cbn [obind]. pose proof (wait_channel_bucket_range chan) as Hb.
  destruct (mark_spec cs _ i Hcs Hb Hi) as (cs' & -> & Hcs' & Hm'). cbn [obind].
  destruct (touch_channel k i (with_channel (pcb k i) chan (wait_channel_bucket chan) true) cs') as (k' & E & Ht).
  - done.
  - done.
  - done.
  - intros b j Hb' Hj Hne. rewrite Hm', Hm by done. rewrite bool_decide_eq_false_2 by tauto. done.
  - cbn. split_and!; [done..|]. rewrite Hm' by done. by rewrite bool_decide_eq_true_2.
  - exists k', (wait_channel_bucket chan). done.
Qed.

End SleepRep.
