(* ===== verification/SleepOps.v ===== *)
(** * Sleeping and waking one process; the lowest bit of a word *)
From S2P Require Import Prelude Sleep SleepRep.
Import Sleep SleepRep.

Module SleepOps.

(** ** The lowest bit *)

Definition lowest (v idx : Z) : Prop :=
  0 ≤ idx < 64 ∧ Z.testbit v idx = true ∧ ∀ n, 0 ≤ n < idx → Z.testbit v n = false.

(** Every bit of [v] is at [m] or above. *)
Definition bits_from (v m : Z) : Prop := ∀ n, 0 ≤ n < 64 → Z.testbit v n = true → m ≤ n.

Lemma word_nonzero v : word_ok v → v ≠ 0 → ∃ n, 0 ≤ n < 64 ∧ Z.testbit v n = true.
Proof.
  intros Hv Hne. exists (Z.log2 v). assert (0 < v) by (destruct Hv; lia).
  pose proof (Z.bit_log2 v ltac:(lia)) as E. split; [|done].
  split; [apply Z.log2_nonneg|]. apply Z.log2_lt_pow2; [done|apply Hv].
Qed.

Lemma land_ones_zero x w : 0 ≤ w → Z.land x (Z.ones w) = 0 ↔ ∀ n, 0 ≤ n < w → Z.testbit x n = false.
Proof.
  intros Hw. split.
  - intros E n Hn. pose proof (Z.bits_0 n) as H0. rewrite <- E, Z.land_spec, Z.ones_spec_low in H0 by lia.
    by rewrite andb_true_r in H0.
  - intros H. apply Z.bits_inj'. intros n Hn. rewrite Z.land_spec, Z.bits_0.
    destruct (decide (n < w)); [by rewrite H|]. rewrite Z.ones_spec_high by lia. apply andb_false_r.
Qed.

(** What the halvings of [active_slot_bit_index] keep: the bits below the count are
    clear, and one of the next [width] is set. *)
Definition narrowed (v width : Z) (s : Z * Z) : Prop :=
  0 ≤ s.1 ∧ s.2 = Z.shiftr v s.1 ∧ (∀ n, 0 ≤ n < s.1 → Z.testbit v n = false) ∧
  ∃ n, 0 ≤ n < width ∧ Z.testbit s.2 n = true.

Lemma narrow v w s : 0 < w → narrowed v (2 * w) s →
  narrowed v w (halve s (Z.ones w) w).
Proof.
  unfold halve. intros Hw (Hc & Hx & Hlow & n & Hn & Hbit). destruct s as [c x]. cbn in *. subst x.
  destruct (Z.eqb_spec (Z.land (Z.shiftr v c) (Z.ones w)) 0) as [E|E].
  - rewrite land_ones_zero in E by lia. split_and!; cbn; [lia|by rewrite Z.shiftr_shiftr by lia| |].
    + intros m Hm. destruct (decide (m < c)); [apply Hlow; lia|].
      specialize (E (m - c) ltac:(lia)). rewrite Z.shiftr_spec in E by lia. by replace (m - c + c) with m in E by lia.
    + exists (n - w). assert (w ≤ n) as Hge.
      { apply Z.le_ngt. intros Hlt. rewrite E in Hbit by lia. done. }
      split; [lia|]. rewrite Z.shiftr_spec by lia. by replace (n - w + w) with n by lia.
  - split_and!; cbn; [done..|].
    pose proof (Z.land_ones (Z.shiftr v c) w ltac:(lia)) as Eo. rewrite Eo in E.
    pose proof (Z.mod_pos_bound (Z.shiftr v c) (2 ^ w) ltac:(apply Z.pow_pos_nonneg; lia)) as Hr.
    exists (Z.log2 (Z.shiftr v c mod 2 ^ w)). pose proof (Z.bit_log2 (Z.shiftr v c mod 2 ^ w) ltac:(lia)) as Hb.
    assert (Z.log2 (Z.shiftr v c mod 2 ^ w) < w) by (apply Z.log2_lt_pow2; lia).
    split; [split; [apply Z.log2_nonneg|done]|]. by rewrite Z.mod_pow2_bits_low in Hb.
Qed.

Lemma active_slot_bit_index_lowest v : word_ok v → v ≠ 0 → lowest v (active_slot_bit_index v).
Proof.
  intros Hv Hne. unfold active_slot_bit_index.
  assert (narrowed v 64 (0, v)) as H.
  { split_and!; [done|by rewrite Z.shiftr_0_r|cbn; intros; lia|by apply word_nonzero]. }
  apply (narrow v 32) in H; [|lia]. apply (narrow v 16) in H; [|lia]. apply (narrow v 8) in H; [|lia].
  apply (narrow v 4) in H; [|lia]. apply (narrow v 2) in H; [|lia].
  change (Z.ones 32) with 0xffffffff in H. change (Z.ones 16) with 0xffff in H. change (Z.ones 8) with 0xff in H.
  change (Z.ones 4) with 0xf in H. change (Z.ones 2) with 0x3 in H.
  set (s := halve _ 0x3 2) in *. clearbody s. apply (narrow v 1) in H; [|lia].
  change (Z.ones 1) with 1 in H.
  replace (if Z.land s.2 1 =? 0 then s.1 + 1 else s.1) with (halve s 1 1).1
    by (unfold halve; by destruct (_ =? 0)).
  generalize dependent (halve s 1 1). clear s. intros s H.
  destruct H as (Hc & Hx & Hlow & n & Hn & Hbit). replace n with 0 in Hbit by lia.
  rewrite Hx, Z.shiftr_spec, Z.add_0_l in Hbit by lia. split_and!; [done| |done|done].
  apply Z.lt_nge. intros Hge. by rewrite testbit_high in Hbit.
Qed.

Lemma lowest_unique v a b : lowest v a → lowest v b → a = b.
Proof.
  intros (Ha & Ea & La) (Hb & Eb & Lb). destruct (Z.lt_trichotomy a b) as [H|[H|H]]; [|done|].
  - rewrite Lb in Ea by lia. done.
  - rewrite La in Eb by lia. done.
Qed.

(** Clearing the lowest bit. *)
Lemma clear_lowest v idx n : word_ok v → lowest v idx → 0 ≤ n →
  Z.testbit (Z.land v (u64 (v - 1))) n = negb (bool_decide (n = idx)) && Z.testbit v n.
Proof.
  intros Hv (Hidx & Eb & Hlow) Hn.
  assert (0 < v) as Hpos.
  { destruct Hv. destruct (decide (v = 0)) as [->|]; [by rewrite Z.bits_0 in Eb|lia]. }
  assert (v mod 2 ^ idx = 0) as Hmod.
  { rewrite <- Z.land_ones by lia. apply land_ones_zero; [lia|]. intros m Hm. apply Hlow. lia. }
  assert (v / 2 ^ idx mod 2 = 1) as Hodd.
  { apply Z.testbit_true in Eb; [done|lia]. }
  set (q := v / 2 ^ idx / 2). set (B := 2 ^ idx).
  assert (0 < B) as HB by (apply Z.pow_pos_nonneg; lia).
  assert (v = B * (2 * q + 1)) as Ev.
  { pose proof (Z.div_mod v B ltac:(lia)) as E1. fold B in Hmod, Hodd. rewrite Hmod in E1.
    pose proof (Z.div_mod (v / B) 2 ltac:(lia)) as E2. rewrite Hodd in E2. unfold q. fold B. nia. }
  rewrite Z.land_spec, u64_small by (destruct Hv; lia).
  destruct (Z.lt_trichotomy n idx) as [Hlt|[->|Hgt]].
  - rewrite Hlow by lia. by rewrite andb_false_r.
  - rewrite bool_decide_eq_true_2 by done. rewrite Eb. cbn.
    apply Z.testbit_false; [lia|]. fold B. replace (v - 1) with ((2 * q) * B + (B - 1)) by lia.
    rewrite Z.div_add_l, (Z.div_small (B - 1)), Z.add_0_r by lia. rewrite Z.mul_comm. apply Z_mod_mult.
  - rewrite bool_decide_eq_false_2 by lia. cbn. replace (Z.testbit (v - 1) n) with (Z.testbit v n).
    { apply andb_diag. }
    replace n with ((n - idx - 1) + (idx + 1)) by lia. rewrite <- !Z.shiftr_spec by lia. f_equal.
    rewrite !Z.shiftr_div_pow2, Z.pow_add_r by lia. change (2 ^ 1) with 2. fold B.
    assert (∀ r, 0 ≤ r < 2 * B → (q * (B * 2) + r) / (B * 2) = q) as Hq.
    { intros r Hr. rewrite Z.div_add_l, Z.div_small by lia. lia. }
    rewrite Ev. replace (B * (2 * q + 1)) with (q * (B * 2) + B) by lia.
    replace (q * (B * 2) + B - 1) with (q * (B * 2) + (B - 1)) by lia. rewrite !Hq by lia. done.
Qed.

Lemma bits_from_lowest v m idx : bits_from v m → lowest v idx → m ≤ idx.
Proof. intros H (Hi & Hb & _). by apply H. Qed.

(** The next word to scan, without its lowest bit. *)
Lemma bits_from_next v v' m idx : bits_from v m → lowest v idx →
  (∀ n, 0 ≤ n → Z.testbit v' n = negb (bool_decide (n = idx)) && Z.testbit v n) → bits_from v' (m + 1).
Proof.
  intros H Hl E n Hn Hb. rewrite E in Hb by lia. apply andb_true_iff in Hb as [Hne Hb].
  pose proof (bits_from_lowest _ _ _ H Hl). destruct Hl as (_ & _ & Hlow).
  destruct (bool_decide_reflect (n = idx)); [done|].
  destruct (decide (n < idx)); [rewrite Hlow in Hb by lia; done|lia].
Qed.

Lemma word_bit w idx : 0 ≤ idx < 64 → (w * 64 + idx) / 64 = w ∧ (w * 64 + idx) mod 64 = idx.
Proof.
  intros H. rewrite Z.div_add_l, Z.div_small, Z.add_0_r by lia. split; [done|].
  by rewrite (Z.add_comm (w * 64)), Z.mod_add, Z.mod_small by lia.
Qed.

Lemma bits_from_end v m : word_ok v → bits_from v m → 64 ≤ m → v = 0.
Proof.
  intros Hv H Hm. destruct (decide (v = 0)) as [|Hne]; [done|].
  destruct (word_nonzero v Hv Hne) as (n & Hn & Hb). specialize (H n Hn Hb). lia.
Qed.

(** ** One process *)

Lemma sleep_enter_spec k i chan : Ok k → slot i → chan ≠ nullptr →
  ∃ k' b, sleep_enter k i chan = Ret k' ∧
    Touch k i (set_task_state (with_channel (pcb k i) chan b true)
                 (if should_interrupt_blocking_syscall (pcb k i) then RUNNABLE else SLEEPING)) (g_futex_buckets k) k'.
Proof.
  intros Hk Hi Hc. unfold sleep_enter.
  destruct (register_spec k i chan Hk Hi Hc) as (k1 & b & -> & Ht1). cbn [obind].
  destruct (upd_pcb_spec k1 i (λ p, set_task_state p SLEEPING)) as (k2 & -> & Ht2); [apply Ht1|done|done|].
  cbn [obind]. pose proof (touch_ok _ _ _ _ _ Ht1) as Hk1. pose proof (touch_ok _ _ _ _ _ Ht2) as Hk2.
  rewrite get_pcb_spec by done. cbn [obind].
  rewrite (touch_self _ _ _ _ _ Hk1 Hi Ht2), (touch_self _ _ _ _ _ Hk Hi Ht1).
  rewrite (touch_self _ _ _ _ _ Hk Hi Ht1), (touch_buckets _ _ _ _ _ Ht1) in Ht2.
  pose proof (touch_trans _ _ _ _ _ _ _ _ Ht1 Ht2) as Ht.
  change (should_interrupt_blocking_syscall (set_task_state (with_channel (pcb k i) chan b true) SLEEPING))
    with (should_interrupt_blocking_syscall (pcb k i)).
  destruct (should_interrupt_blocking_syscall (pcb k i)); [|by exists k2, b].
  destruct (put_pcb_spec k2 i (set_task_state (set_task_state (with_channel (pcb k i) chan b true) SLEEPING) RUNNABLE))
    as (k3 & -> & Ht3); [done|done|by rewrite (touch_self _ _ _ _ _ Hk Hi Ht)|].
  exists k3, b. split; [done|]. rewrite (touch_buckets _ _ _ _ _ Ht) in Ht3. by apply (touch_trans _ _ _ _ _ _ _ _ Ht Ht3).
Qed.

(** A process whose channel was taken away, made runnable if it slept. *)
Definition woken (p : Pcb) : Pcb :=
  let p' := with_channel p nullptr (_wait_channel_bucket p) false in
  if bool_decide (_state p = SLEEPING) then set_task_state p' RUNNABLE else p'.

Lemma unregister_runnable k i : Ok k → slot i →
  ∃ k', (let! k := unregister_wait_channel k i in upd_pcb k i (λ p, set_task_state p RUNNABLE)) = Ret k' ∧
    Touch k i (set_task_state (with_channel (pcb k i) nullptr (_wait_channel_bucket (pcb k i)) false) RUNNABLE)
      (g_futex_buckets k) k'.
Proof.
  intros Hk Hi. destruct (unregister_spec k i Hk Hi) as (k1 & -> & Ht1). cbn [obind].
  destruct (upd_pcb_spec k1 i (λ p, set_task_state p RUNNABLE)) as (k2 & -> & Ht2); [apply Ht1|done|done|].
  rewrite (touch_self _ _ _ _ _ Hk Hi Ht1), (touch_buckets _ _ _ _ _ Ht1) in Ht2.
  eexists. split; [done|]. by apply (touch_trans _ _ _ _ _ _ _ _ Ht1 Ht2).
Qed.

Lemma channel_registered k i : Ok k → slot i → _chan (pcb k i) ≠ nullptr →
  _wait_channel_registered (pcb k i) = true ∧ listens k (wait_channel_bucket (_chan (pcb k i))) i = true.
Proof.
  intros Hk Hi Hc. pose proof (ok_channel k Hk i Hi) as H. unfold channel_ok in H.
  destruct (_wait_channel_registered (pcb k i)); naive_solver.
Qed.

Lemma wakeup_candidate_spec k i chan : Ok k → slot i → chan ≠ nullptr →
  ∃ k', wakeup_candidate k i chan = Ret k' ∧
    Touch k i (if bool_decide (_chan (pcb k i) = chan) then woken (pcb k i) else pcb k i) (g_futex_buckets k) k'.
Proof.
  intros Hk Hi Hc. unfold wakeup_candidate. rewrite get_pcb_spec by done. cbn [obind].
  destruct (bool_decide_reflect (_chan (pcb k i) = chan)) as [E|E].
  - rewrite (proj2 (Z.eqb_eq _ _) E). rewrite !andb_true_r. unfold woken.
    destruct (channel_registered k i) as [-> _]; [done|done|congruence|].
    destruct (bool_decide_reflect (_state (pcb k i) = SLEEPING)); [by apply unregister_runnable|].
    by apply unregister_spec.
  - rewrite (proj2 (Z.eqb_neq _ _) E), !andb_false_r. exists k. split; [done|]. by apply touch_refl.
Qed.

End SleepOps.

(** * Loops over the processes of a bitmap

    [wakeup] and [futex_check_timeouts] go through the words of a bitmap and, in each
    word, from the lowest bit up.  Both change every process they visit by a function
    [f] that leaves the others alone. *)
Import Sleep SleepRep SleepOps.

Module SlotScan.

(** The processes before the bits [v] of word [w]. *)
Definition passed (w v i : Z) : Prop := i / 64 < w ∨ i / 64 = w ∧ Z.testbit v (i mod 64) = false.

Lemma passed_next w v v' idx i : lowest v idx →
  (∀ n, 0 ≤ n → Z.testbit v' n = negb (bool_decide (n = idx)) && Z.testbit v n) →
  slot i → passed w v' i ↔ passed w v i ∨ i = w * 64 + idx.
Proof.
  intros (Hidx & _ & _) Hv Hi. unfold passed. pose proof (Z.mod_pos_bound i 64 ltac:(lia)). rewrite Hv by lia.
  pose proof (Z.div_mod i 64 ltac:(lia)) as Ei. rewrite andb_false_iff, negb_false_iff, bool_decide_eq_true. split.
  - intros [?|[? [?|?]]]; [by left; left|right; lia|by left; right].
  - intros [[?|[? ?]]| ->]; [by left|right; auto|right]. destruct (word_bit w idx Hidx) as [-> ->]. auto.
Qed.

Lemma not_passed w v idx : lowest v idx → ¬ passed w v (w * 64 + idx).
Proof.
  intros (Hidx & Hb & _). unfold passed. destruct (word_bit w idx Hidx) as [-> ->]. intros [?|[_ ?]]; [lia|congruence].
Qed.

Section scan.
Context (f : Z → Pcb → Pcb) (k0 : Kernel).

(** The processes that [P] holds of are changed, the others are not. *)
Record Changed (P : Z → Prop) (k : Kernel) : Prop := {
  changed_ok : Ok k;
  changed_done i : slot i → P i → pcb k i = f i (pcb k0 i);
  changed_rest i : slot i → ¬ P i → pcb k i = pcb k0 i
}.

Lemma changed_turn (P P' : Z → Prop) k t bs k' : slot t → ¬ P t → (∀ i, slot i → P' i ↔ P i ∨ i = t) →
  Changed P k → Touch k t (f t (pcb k t)) bs k' → Changed P' k'.
Proof.
  intros Ht HPt HP' [H1 H2 H3] Htouch. rewrite (H3 t Ht HPt) in Htouch. split; [apply Htouch|..]; intros i Hi HP.
  - rewrite (touch_pcb _ _ _ _ _ _ H1 Ht Hi Htouch). case_bool_decide as E; [by subst i|].
    apply H2; [done|]. apply HP' in HP as [|]; done.
  - rewrite (touch_pcb _ _ _ _ _ _ H1 Ht Hi Htouch). case_bool_decide as E; [subst i; destruct HP; apply HP'; auto|].
    apply H3; [done|]. intros ?. apply HP, HP'; auto.
Qed.

(** The predicates may differ where [f] does nothing. *)
Lemma changed_ext (P P' : Z → Prop) k : (∀ i, slot i → Decision (P i)) →
  (∀ i, slot i → (P i ↔ P' i) ∨ f i (pcb k0 i) = pcb k0 i) → Changed P k → Changed P' k.
Proof.
  intros HP H [H1 H2 H3]. split; [done|..]; intros i Hi HP'; destruct (H i Hi) as [Hiff|E].
  - apply H2; [done|]. by apply Hiff.
  - destruct (HP i Hi) as [Hp|Hn]; [by apply H2|]. rewrite E. by apply H3.
  - apply H3; [done|]. intros Hp. by apply HP', Hiff.
  - destruct (HP i Hi) as [Hp|Hn]; [rewrite <- E; by apply H2|by apply H3].
Qed.

(** [Q] holds of the processes that may be visited, [J] of the kernel between turns. *)
Context (Q : Z → Prop) (J : Kernel → Prop) (load : Z → Kernel → outcome Z) (word : Z → nat → Kernel → Z → outcome Kernel).

(** A turn of the inner loop takes the lowest bit. *)
Hypothesis word_end : ∀ w n k, word w n k 0 = Ret k.
Hypothesis word_next : ∀ w n k v idx, 0 ≤ w < 8 → word_ok v → lowest v idx → J k → Ok k → slot (w * 64 + idx) →
  Q (w * 64 + idx) → ∃ k1 bs, word w (S n) k v = word w n k1 (Z.land v (u64 (v - 1))) ∧ J k1 ∧
    Touch k (w * 64 + idx) (f (w * 64 + idx) (pcb k (w * 64 + idx))) bs k1.
(** A process whose bit is clear when its word is loaded needs no turn. *)
Hypothesis load_spec : ∀ w k, 0 ≤ w < 8 → J k → Changed (λ i, i / 64 < w) k →
  ∃ v, load w k = Ret v ∧ word_ok v ∧ (∀ n, 0 ≤ n < 64 → Z.testbit v n = true → Q (w * 64 + n)) ∧
    ∀ i, slot i → i / 64 = w → Z.testbit v (i mod 64) = false → f i (pcb k0 i) = pcb k0 i.

Lemma scan_word w n k v : 0 ≤ w < 8 → word_ok v → bits_from v (64 - Z.of_nat n) →
  (∀ m, 0 ≤ m < 64 → Z.testbit v m = true → Q (w * 64 + m)) → J k → Changed (passed w v) k →
  ∃ k', word w n k v = Ret k' ∧ J k' ∧ Changed (passed w 0) k'.
Proof.
  intros Hw. revert k v. induction n as [|n IH]; intros k v Hv Hfrom HQ HJ Hk.
  - assert (v = 0) as -> by (by apply (bits_from_end v (64 - Z.of_nat 0))). rewrite word_end. eauto.
  - destruct (decide (v = 0)) as [->|Hne]; [rewrite word_end; eauto|].
    pose proof (active_slot_bit_index_lowest v Hv Hne) as Hl. set (idx := active_slot_bit_index v) in *.
    assert (slot (w * 64 + idx)) as Ht by (pose proof (proj1 Hl); unfold slot, num_process; lia).
    destruct (word_next w n k v idx Hw Hv Hl HJ (changed_ok _ _ Hk) Ht (HQ idx (proj1 Hl) (proj1 (proj2 Hl)))) as (k1 & bs & -> & HJ1 & Htouch).
    assert (∀ m, 0 ≤ m → Z.testbit (Z.land v (u64 (v - 1))) m = negb (bool_decide (m = idx)) && Z.testbit v m) as Hbit.
    { intros m Hm. by apply clear_lowest. }
    apply IH; [apply word_ok_land; [done|apply u64_range]| | |done|].
    + replace (64 - Z.of_nat n) with (64 - Z.of_nat (S n) + 1) by lia. by eapply bits_from_next.
    + intros m Hm. rewrite Hbit by lia. intros [_ ?]%andb_true_iff. by apply HQ.
    + apply (changed_turn (passed w v) _ k _ bs _ Ht (not_passed w v idx Hl)); [|done|done].
      intros i Hi. by apply passed_next.
Qed.

Lemma scan_words : Ok k0 → J k0 →
  ∃ k', for_up (λ w k, let! v := load w k in word w 64 k v) 0 8 k0 = Ret k' ∧ J k' ∧ Ok k' ∧
    ∀ i, slot i → pcb k' i = f i (pcb k0 i).
Proof.
  intros Hk0 HJ0.
  destruct (for_up_inv (λ w k, let! v := load w k in word w 64 k v) (λ w k, J k ∧ Changed (λ i, i / 64 < w) k) 0 8 k0)
    as (k' & -> & HJ & Hk'); [lia| | |].
  - split; [done|]. split; [done| |done]. intros i Hi ?. pose proof (slot_word i Hi). lia.
  - intros w k Hw [HJ Hk]. destruct (load_spec w k Hw HJ Hk) as (v & -> & Hv & HQ & Hclear). cbn [obind].
    destruct (scan_word w 64 k v Hw Hv) as (k' & -> & HJ' & Hk'); [by intros n ? _; lia|done|done| |].
    + apply (changed_ext (λ i, i / 64 < w)); [intros; apply _| |done]. intros i Hi. unfold passed.
      destruct (decide (i / 64 = w)) as [Hiw|]; [|left; naive_solver].
      destruct (Z.testbit v (i mod 64)) eqn:Eb; [left; naive_solver|right; by apply Hclear].
    + exists k'. split; [done|]. split; [done|]. apply (changed_ext (passed w 0)); [|intros i Hi; left|done].
      * intros i _. unfold passed. apply _.
      * unfold passed. rewrite Z.bits_0. split; [intros [?|[? _]]; lia|].
        intros. destruct (decide (i / 64 < w)); [by left|right; split; [lia|done]].
  - exists k'. split_and!; [done|done|apply Hk'|]. intros i Hi. apply (changed_done _ _ Hk'); [done|].
    pose proof (slot_word i Hi). lia.
Qed.
End scan.
End SlotScan.
