(* ===== verification/SleepCorrect.v ===== *)
(** * [wakeup] wakes every sleeper of its channel and nobody else *)
From S2P Require Import Prelude Sleep SleepRep SleepOps.
Import Sleep SleepRep SleepOps SlotScan.

Module SleepCorrect.

(** What [wakeup] of [chan] by [cur] makes of the process [i]. *)
Definition wake_one (cur chan i : Z) (p : Pcb) : Pcb :=
  if bool_decide (i ≠ cur ∧ _chan p = chan) then woken p else p.

Lemma wakeup_word_next cur chan k0 w n k v idx : chan ≠ nullptr → 0 ≤ w < 8 → word_ok v → lowest v idx →
  g_futex_buckets k = g_futex_buckets k0 → Ok k → slot (w * 64 + idx) →
  ∃ k1 bs, wakeup_word (S n) k cur chan w v = wakeup_word n k1 cur chan w (Z.land v (u64 (v - 1))) ∧
    g_futex_buckets k1 = g_futex_buckets k0 ∧
    Touch k (w * 64 + idx) (wake_one cur chan (w * 64 + idx) (pcb k (w * 64 + idx))) bs k1.
Proof.
  intros Hc Hw Hv Hl HJ Hk Ht. assert (v ≠ 0) as Hne by (intros ->; destruct Hl as (_ & Hb & _); by rewrite Z.bits_0 in Hb).
  cbn [wakeup_word]. rewrite (proj2 (Z.eqb_neq _ _) Hne).
  rewrite (lowest_unique _ _ _ (active_slot_bit_index_lowest v Hv Hne) Hl).
  rewrite (proj2 (Z.leb_gt _ _)) by apply Ht. rewrite get_pcb_spec by done. cbn [obind]. unfold wake_one.
  destruct (Z.eqb_spec (w * 64 + idx) cur) as [E|E]; cbn [orb].
  { exists k, (g_futex_buckets k). rewrite bool_decide_eq_false_2 by tauto. split_and!; [done..|by apply touch_refl]. }
  destruct (Z.eqb_spec (_chan (pcb k (w * 64 + idx))) chan) as [Ech|Ech]; cbn [negb].
  - destruct (wakeup_candidate_spec k (w * 64 + idx) chan Hk Ht Hc) as (k1 & -> & Htouch).
    rewrite bool_decide_eq_true_2 in Htouch by done. exists k1, (g_futex_buckets k). rewrite bool_decide_eq_true_2 by done.
    split_and!; [done| |done]. by rewrite (touch_buckets _ _ _ _ _ Htouch).
  - exists k, (g_futex_buckets k). rewrite bool_decide_eq_false_2 by tauto. split_and!; [done..|by apply touch_refl].
Qed.

(** [wakeup]: every process that sleeps on the channel is made runnable and leaves the
    channel, and no other process changes, whatever the state of the bitmaps that
    narrow the search. *)
Theorem wakeup_correct k cur chan : Ok k → chan ≠ nullptr →
  ∃ k', wakeup k cur chan = Ret k' ∧ Ok k' ∧ g_futex_buckets k' = g_futex_buckets k ∧
    ∀ i, slot i → pcb k' i = wake_one cur chan i (pcb k i).
Proof.
  intros Hk Hc. unfold wakeup. rewrite (proj2 (Z.eqb_neq _ _)) by done. change (num_process / 64) with 8.
  pose proof (wait_channel_bucket_range chan) as Hb.
  set (load := λ w k', let! ws := aget (_wait_channel_slot_words k') (wait_channel_bucket chan) in aget ws w).
  destruct (scan_words (wake_one cur chan) k (λ _, True) (λ k', g_futex_buckets k' = g_futex_buckets k) load
    (λ w n k' v, wakeup_word n k' cur chan w v)) as (k' & E & HJ & Hk' & Hall).
  - by intros w [|n] k'.
  - intros. by apply (wakeup_word_next cur chan k).
  - intros w k' Hw HJ HP. pose proof (changed_ok _ _ _ _ HP) as Hok. unfold load.
    destruct (bucket_lookup _ _ (ok_channels k' Hok) Hb) as [-> Hws]. cbn [obind].
    destruct (word_lookup _ w Hws Hw) as [-> Hwo]. eexists. split_and!; [done..|].
    intros i Hi Hiw Hbit. unfold wake_one. rewrite bool_decide_eq_false_2; [done|]. intros [Hne Hch].
    pose proof (changed_rest _ _ _ _ HP i Hi ltac:(cbn; lia)) as Ei.
    destruct (channel_registered k' i Hok Hi) as [_ Hl]; [by rewrite Ei, Hch|].
    rewrite Ei, Hch in Hl. unfold listens, member, bit_at in Hl. rewrite Hiw, Hbit in Hl. done.
  - done.
  - done.
  - exists k'. split_and!; [|done..]. rewrite <- E. apply for_up_ext. intros w k1. unfold load.
    by destruct (aget (_wait_channel_slot_words k1) _).
Qed.

(** A pool in which process 1 sleeps on the channel 0x8000. *)
Definition sleeping_pool : outcome Kernel :=
  let p := set_task_state no_pcb RUNNING in
  let k := mkKernel (p :: p :: replicate 510 no_pcb) (replicate 64 (replicate 8 0)) (replicate 64 (replicate 8 0)) in
  sleep_enter k 1 0x8000.

Lemma fresh_ok ps : length ps = 512%nat → Forall (λ p, _wait_channel_registered p = false ∧ _chan p = nullptr) ps →
  Ok (mkKernel ps (replicate 64 (replicate 8 0)) (replicate 64 (replicate 8 0))).
Proof.
  intros Hlen Hall. assert (map_ok (replicate 64 (replicate 8 0))) as Hmap.
  { split; [done|]. apply Forall_replicate. split; [done|]. by apply Forall_replicate. }
  split; [cbn; by rewrite Hlen|done|done|]. intros i Hi. unfold channel_ok, pcb. cbn.
  destruct (Forall_lookup_1 _ _ (Z.to_nat i) (ps !!! Z.to_nat i) Hall) as [-> ->]; [|done].
  apply list_lookup_lookup_total_lt. unfold slot, num_process in Hi. lia.
Qed.

Lemma wakeup_correct_witness :
  ∃ k k', sleeping_pool = Ret k ∧ wakeup k 0 0x8000 = Ret k' ∧
    _state (pcb k 1) = SLEEPING ∧ _state (pcb k' 1) = RUNNABLE.
Proof.
  unfold sleeping_pool. set (k0 := mkKernel _ _ _).
  assert (Ok k0) as Hk0.
  { apply fresh_ok; [done|]. do 2 (constructor; [done|]). by apply Forall_replicate. }
  destruct (sleep_enter_spec k0 1 0x8000 Hk0) as (k & b & E & Ht); [done|done|].
  assert (pcb k 1 = set_task_state (with_channel (pcb k0 1) 0x8000 b true) SLEEPING) as Ep.
  { exact (touch_self k0 1 _ _ k Hk0 ltac:(done) Ht). }
  destruct (wakeup_correct k 0 0x8000) as (k' & E' & _ & _ & Hp); [apply Ht|done|].
  exists k, k'. split; [exact E|]. split; [exact E'|]. rewrite (Hp 1) by done. rewrite Ep. done.
Defined.

End SleepCorrect.

(** * What else happens to processes that sleep

    The events that change process control blocks while processes use a lock or a
    semaphore built on [sleep]: signals arrive and end sleeps, the scheduler runs and
    preempts processes, and processes sleep and are woken on other channels. *)
Import Sleep SleepRep SleepOps SleepCorrect.

Module SleepEnv.

Definition runs (k : Kernel) (i : Z) : Prop := slot i ∧ _state (pcb k i) = RUNNING.

(** A pool in which nobody sleeps. *)
Definition awake (k : Kernel) : Prop := Ok k ∧ ∀ i, slot i → _state (pcb k i) ≠ SLEEPING.

Inductive Kind :=
  | Signal (killed : bool) (signal sigmask : Z) (acts : gmap Z sigaction)
  | Schedule | Preempt
  | Interrupt (* a signal sender takes a sleeper off its channel and makes it runnable *)
  | OtherSleep (chan : Z) | OtherSlept
  | OtherWake (chan : Z).

(** When the event can happen to process [i], and what it does. *)
Definition permitted (k : Kernel) (i : Z) (e : Kind) : Prop :=
  let p := pcb k i in
  slot i ∧
  match e with
  | Signal _ _ _ _ => True
  | Schedule => _state p = RUNNABLE
  | Preempt | OtherSlept => _state p = RUNNING
  | Interrupt => _state p = SLEEPING
  | OtherSleep chan => _state p = RUNNING ∧ chan ≠ nullptr
  | OtherWake chan => chan ≠ nullptr
  end.

Definition happens (k : Kernel) (i : Z) (e : Kind) : outcome Kernel :=
  match e with
  | Signal killed signal sigmask acts => upd_pcb k i (λ p, with_signals p killed signal sigmask acts)
  | Schedule => upd_pcb k i (λ p, set_task_state p RUNNING)
  | Preempt => upd_pcb k i (λ p, set_task_state p RUNNABLE)
  | Interrupt => let! k := unregister_wait_channel k i in upd_pcb k i (λ p, set_task_state p RUNNABLE)
  | OtherSleep chan => sleep_enter k i chan
  | OtherSlept => sleep_exit k i
  | OtherWake chan => wakeup_candidate k i chan
  end.

(** What an event may make of a process: [Signal] and [OtherWake] can happen to any. *)
Definition passive (e : Kind) : Prop := match e with OtherSleep _ | OtherSlept => False | _ => True end.

Record Effect (e : Kind) (p p' : Pcb) : Prop := {
  effect_asleep : passive e → _state p' = SLEEPING → _state p = SLEEPING ∧ _chan p' = _chan p;
  effect_sleeper : _state p = SLEEPING → e ≠ Interrupt → e ≠ OtherWake (_chan p) →
    _state p' = SLEEPING ∧ _chan p' = _chan p;
  effect_running : passive e → e ≠ Preempt → _state p = RUNNING → _state p' = RUNNING
}.

Lemma store_effect k i e f : Ok k → slot i → same_channel (pcb k i) (f (pcb k i)) → Effect e (pcb k i) (f (pcb k i)) →
  ∃ k' p, upd_pcb k i f = Ret k' ∧ Touch k i p (g_futex_buckets k) k' ∧ Effect e (pcb k i) p.
Proof. intros Hk Hi Hc He. destruct (upd_pcb_spec k i f Hk Hi Hc) as (k' & E & Ht). by exists k', (f (pcb k i)). Qed.

Lemma happens_spec k i e : Ok k → permitted k i e →
  ∃ k' p, happens k i e = Ret k' ∧ Touch k i p (g_futex_buckets k) k' ∧ Effect e (pcb k i) p.
Proof.
  intros Hk [Hi He]. destruct e as [killed sg mask acts| | | |chan| |chan]; cbn [happens] in *.
  1-3: apply store_effect; [done|done|done|]; split; cbn; intros; repeat split; congruence.
  - destruct (unregister_runnable k i Hk Hi) as (k' & -> & Ht). eexists k', _. split; [done|]. split; [exact Ht|]. by split; cbn; rewrite ?He.
  - destruct (sleep_enter_spec k i chan Hk Hi) as (k' & b & -> & Ht); [apply He|]. eexists k', _. split; [done|]. split; [exact Ht|].
    split; [done| |done]. cbn. destruct He as [-> _]. done.
  - destruct (unregister_spec k i Hk Hi) as (k' & E & Ht). eexists k', _. split; [exact E|]. split; [exact Ht|].
    split; [done| |done]. cbn. by rewrite He.
  - destruct (wakeup_candidate_spec k i chan Hk Hi He) as (k' & -> & Ht). eexists k', _. split; [done|]. split; [exact Ht|].
    destruct (bool_decide_reflect (_chan (pcb k i) = chan)) as [Ec|Ec]; [|by split].
    unfold woken. split; [|by rewrite Ec|]; case_bool_decide; cbn; congruence.
Qed.

(** ** A pool with two running processes *)

Definition demo_kernel : Kernel :=
  let p := set_task_state no_pcb RUNNING in
  mkKernel (p :: p :: replicate 510 no_pcb) (replicate 64 (replicate 8 0)) (replicate 64 (replicate 8 0)).

Lemma demo_awake : awake demo_kernel.
Proof.
  split.
  - apply fresh_ok; [done|]. do 2 (constructor; [done|]). by apply Forall_replicate.
  - intros i Hi. unfold pcb, demo_kernel. cbn [k_proc_pool].
    assert (Forall (λ p, _state p ≠ SLEEPING) (set_task_state no_pcb RUNNING :: set_task_state no_pcb RUNNING :: replicate 510 no_pcb)) as H.
    { do 2 (constructor; [done|]). by apply Forall_replicate. }
    apply (Forall_lookup_1 _ _ (Z.to_nat i) _ H). apply list_lookup_lookup_total_lt. unfold slot, num_process in Hi. cbn. lia.
Qed.

End SleepEnv.
