(* ===== verification/SleepLock.v ===== *)
(** * Sleep locks (kernel/proc/sleeplock.cc)

    A lock whose waiters sleep on its address.  Its fields are guarded by a spin lock;
    a call is split where it gives the spin lock up, and the wakeup of [release] into
    its single turns, since processes leave their sleep while it runs. *)
From S2P Require Import Prelude Sleep SleepRep SleepOps SleepCorrect.
Import Sleep SleepRep SleepEnv.

Module SleepLock.

Record SleepLock := mkLock { _locked : bool; _owner_tid : Z }.

Definition init : SleepLock := mkLock false 0.

(** One turn of the loop of [acquire], with the spin lock held: the lock is taken, or
    the process sleeps and gives up the spin lock.  The Boolean tells which. *)
Definition acquire_turn (k : Kernel) (l : SleepLock) (this gid tid : Z) : outcome (Kernel * SleepLock * bool) :=
  if _locked l then let! k := sleep_enter k gid this in Ret (k, l, false)
  else Ret (k, mkLock true tid, true).

(** [release] up to its wakeup. *)
Definition release (l : SleepLock) : SleepLock := mkLock false 0.

Definition is_holding (l : SleepLock) (tid : Z) : bool := _locked l && (_owner_tid l =? tid).

(** ** The turns of [wakeup]

    A scan is a word and the candidates that are left of it. *)
Record Scan := mkScan { word_index : Z; candidates : Z }.

Definition load_candidates (k : Kernel) (chan w : Z) : outcome Scan :=
  let! ws := aget (_wait_channel_slot_words k) (wait_channel_bucket chan) in
  let! candidates := aget ws w in Ret (mkScan w candidates).

Definition wakeup_turn (k : Kernel) (cur chan : Z) (s : Scan) : outcome (Kernel * option Scan) :=
  if candidates s =? 0 then
    if word_index s + 1 <? num_process / 64
    then let! s := load_candidates k chan (word_index s + 1) in Ret (k, Some s)
    else Ret (k, None)
  else
    let bit := active_slot_bit_index (candidates s) in
    let rest := mkScan (word_index s) (Z.land (candidates s) (u64 (candidates s - 1))) in
    let global_id := word_index s * 64 + bit in
    if num_process <=? global_id then Ret (k, Some (mkScan (word_index s) 0)) else
    let! p := get_pcb k global_id in
    if (global_id =? cur) || negb (_chan p =? chan) then Ret (k, Some rest) else
    let! k := wakeup_candidate k global_id chan in
    Ret (k, Some rest).

(** ** Processes using one lock *)

(** Where a process that uses the lock stands: before taking the spin lock to acquire,
    in the sleep of [acquire], past [acquire], in the wakeup of [release]. *)
Inductive Pc :=
  | Wants
  | Sleeps
  | Holds
  | Wakes (s : Scan).

Record Config := mkConfig { c_kernel : Kernel; c_lock : SleepLock; c_calls : gmap Z Pc }.

Section system.
(** The address of the lock and the thread ids of the processes. *)
Context (this : Z) (tid : Z → Z).

(** Only the wakeup of [release] keeps the spin lock from one step to the next. *)
Definition spin_free (s : Config) : Prop := ∀ i w, c_calls s !! i ≠ Some (Wakes w).

(** A process may sleep on other channels before it calls [acquire] and while it holds
    the lock, and is not preempted with a spin lock held. *)
Definition undisturbed (c : option Pc) (e : Kind) : Prop :=
  match c, e with
  | (None | Some Holds), OtherSleep chan => chan ≠ this
  | _, (OtherSleep _ | OtherSlept) => c = None ∨ c = Some Holds
  | Some (Wakes _), Preempt => False
  | _, _ => True
  end.

Inductive step (s : Config) : Config → Prop :=
  | step_call i :
      runs (c_kernel s) i → c_calls s !! i = None →
      step s (mkConfig (c_kernel s) (c_lock s) (<[i := Wants]> (c_calls s)))
  | step_acquire i k l taken :
      runs (c_kernel s) i → c_calls s !! i = Some Wants → spin_free s →
      acquire_turn (c_kernel s) (c_lock s) this i (tid i) = Ret (k, l, taken) →
      step s (mkConfig k l (<[i := if taken then Holds else Sleeps]> (c_calls s)))
  | step_slept i k :
      runs (c_kernel s) i → c_calls s !! i = Some Sleeps → sleep_exit (c_kernel s) i = Ret k →
      step s (mkConfig k (c_lock s) (<[i := Wants]> (c_calls s)))
  | step_release i w :
      runs (c_kernel s) i → c_calls s !! i = Some Holds → spin_free s →
      load_candidates (c_kernel s) this 0 = Ret w →
      step s (mkConfig (c_kernel s) (release (c_lock s)) (<[i := Wakes w]> (c_calls s)))
  | step_wake i w k w' :
      runs (c_kernel s) i → c_calls s !! i = Some (Wakes w) →
      wakeup_turn (c_kernel s) i this w = Ret (k, Some w') →
      step s (mkConfig k (c_lock s) (<[i := Wakes w']> (c_calls s)))
  | step_woken i w k :
      runs (c_kernel s) i → c_calls s !! i = Some (Wakes w) →
      wakeup_turn (c_kernel s) i this w = Ret (k, None) →
      step s (mkConfig k (c_lock s) (delete i (c_calls s)))
  | step_other i e k :
      permitted (c_kernel s) i e → undisturbed (c_calls s !! i) e → happens (c_kernel s) i e = Ret k →
      step s (mkConfig k (c_lock s) (c_calls s)).

Inductive reachable : Config → Prop :=
  | reachable_init k : awake k → reachable (mkConfig k init ∅)
  | reachable_step s s' : reachable s → step s s' → reachable s'.

End system.
End SleepLock.

(** * A sleep lock excludes others and wakes its waiters *)
Import Sleep SleepRep SleepOps SlotScan SleepCorrect SleepEnv SleepLock.

Module SleepLockCorrect.

Definition scan_ok (w : Scan) : Prop := 0 ≤ word_index w < 8 ∧ word_ok (candidates w).

(** The scan has yet to look at the process [i]. *)
Definition ahead (w : Scan) (i : Z) : Prop :=
  word_index w < i / 64 ∨ word_index w = i / 64 ∧ Z.testbit (candidates w) (i mod 64) = true.

Section with_lock.
Context (this : Z) (tid : Z → Z) (Hthis : this ≠ nullptr).

(** ** Turns of the wakeup *)

Lemma load_candidates_spec k w : Ok k → 0 ≤ w < 8 →
  ∃ v, load_candidates k this w = Ret (mkScan w v) ∧ word_ok v ∧
    ∀ i, slot i → i / 64 = w → _chan (pcb k i) = this → Z.testbit v (i mod 64) = true.
Proof.
  intros Hk Hw. unfold load_candidates. pose proof (wait_channel_bucket_range this) as Hb.
  destruct (bucket_lookup _ _ (ok_channels k Hk) Hb) as [-> Hws]. cbn [obind].
  destruct (word_lookup _ w Hws Hw) as [-> Hwo]. cbn [obind]. eexists. split_and!; [done..|].
  intros i Hi Hiw Hch. destruct (channel_registered k i Hk Hi) as [_ Hl]; [by rewrite Hch|].
  rewrite Hch in Hl. unfold listens, member, bit_at in Hl. by rewrite Hiw in Hl.
Qed.

Lemma ahead_rest w idx j : scan_ok w → lowest (candidates w) idx → slot j → j ≠ word_index w * 64 + idx → ahead w j →
  ahead (mkScan (word_index w) (Z.land (candidates w) (u64 (candidates w - 1)))) j.
Proof.
  intros [Hw Hv] Hl Hj Hne [Ha|[Ha Hb]]; [by left|right]. split; [done|]. cbn [candidates].
  rewrite (clear_lowest _ idx) by (done || apply Z.mod_pos_bound; lia). rewrite Hb, bool_decide_eq_false_2; [done|].
  intros E. apply Hne. pose proof (Z.div_mod j 64). lia.
Qed.

(** What one turn by [cur] does; the result is [None] when it was the last. *)
Definition Turned (k : Kernel) (cur : Z) (w : Scan) (k' : Kernel) (r : option Scan) : Prop :=
  Ok k' ∧ pcb k' cur = pcb k cur ∧
  (∀ j, slot j → pcb k' j = pcb k j ∨ _state (pcb k' j) ≠ SLEEPING) ∧
  match r with
  | Some w' => scan_ok w' ∧
      ∀ j, slot j → j ≠ cur → _state (pcb k' j) = SLEEPING → _chan (pcb k' j) = this → ahead w j → ahead w' j
  | None => ∀ j, slot j → ¬ ahead w j
  end.

Lemma turn_empty k cur w : Ok k → scan_ok w → candidates w = 0 →
  ∃ k' r, wakeup_turn k cur this w = Ret (k', r) ∧ Turned k cur w k' r.
Proof.
  intros Hk [Hw Hv] E0. unfold wakeup_turn. change (num_process / 64) with 8. rewrite E0, Z.eqb_refl.
  assert (∀ j, ahead w j → word_index w < j / 64) as Hword.
  { intros j [|[_ Hb]]; [done|]. by rewrite E0, Z.bits_0 in Hb. }
  destruct (Z.ltb_spec (word_index w + 1) 8) as [Hlt|Hge].
  - destruct (load_candidates_spec k (word_index w + 1) Hk) as (v & -> & Hv' & Hload); [lia|]. cbn [obind].
    eexists k, _. split; [done|]. split_and!; [done|done|by left|split; cbn; [lia|done]|].
    intros j Hj _ _ Hch Ha. apply Hword in Ha. destruct (decide (j / 64 = word_index w + 1)) as [E|]; [right|left; cbn; lia].
    split; [done|]. by apply Hload.
  - eexists k, _. split; [done|]. split_and!; [done|done|by left|]. intros j Hj Ha. apply Hword in Ha.
    pose proof (slot_word j Hj). lia.
Qed.

Lemma turn_candidate k cur w : Ok k → slot cur → scan_ok w → candidates w ≠ 0 →
  ∃ k' r, wakeup_turn k cur this w = Ret (k', r) ∧ Turned k cur w k' r.
Proof.
  intros Hk Hc Hs Hne. destruct (Hs) as [Hw Hv]. unfold wakeup_turn. rewrite (proj2 (Z.eqb_neq _ _)) by done.
  pose proof (active_slot_bit_index_lowest _ Hv Hne) as Hl. set (idx := active_slot_bit_index _) in *.
  destruct (Hl) as (Hidx & Hbit & _). set (g := word_index w * 64 + idx).
  assert (slot g) as Hg by (unfold slot, num_process, g; lia). rewrite (proj2 (Z.leb_gt _ _)) by apply Hg.
  rewrite get_pcb_spec by done. cbn [obind]. set (rest := mkScan _ _).
  assert (scan_ok rest) as Hrest.
  { split; [done|]. apply word_ok_land; [done|]. apply Z.mod_pos_bound. lia. }
  destruct ((g =? cur) || negb (_chan (pcb k g) =? this)) eqn:Ec.
  - eexists k, _. split; [done|]. split_and!; [done|done|by left|done|]. intros j Hj Hne' _ Hch.
    apply (ahead_rest w idx j Hs Hl Hj). intros ->. change (_ * 64 + _) with g in Hne', Hch.
    apply orb_true_iff in Ec as [?%Z.eqb_eq|Ec]; [done|]. by rewrite Hch, Z.eqb_refl in Ec.
  - apply orb_false_iff in Ec as [Hcur%Z.eqb_neq Ech%negb_false_iff%Z.eqb_eq].
    destruct (wakeup_candidate_spec k g this Hk Hg Hthis) as (k' & -> & Ht). cbn [obind].
    rewrite bool_decide_eq_true_2 in Ht by done.
    assert (∀ j, slot j → pcb k' j = if bool_decide (j = g) then woken (pcb k g) else pcb k j) as Hp.
    { intros j Hj. exact (touch_pcb _ _ _ _ _ _ Hk Hg Hj Ht). }
    assert (_state (woken (pcb k g)) ≠ SLEEPING) as Hw' by (unfold woken; by case_bool_decide).
    eexists k', _. split; [done|]. split_and!; [apply Ht| | |done|].
    + rewrite Hp, bool_decide_eq_false_2; by auto.
    + intros j Hj. rewrite Hp by done. case_bool_decide; [by right|by left].
    + intros j Hj _ Hst _. apply (ahead_rest w idx j Hs Hl Hj). intros ->. rewrite Hp, bool_decide_eq_true_2 in Hst by done. done.
Qed.

Lemma wakeup_turn_spec k cur w : Ok k → slot cur → scan_ok w →
  ∃ k' r, wakeup_turn k cur this w = Ret (k', r) ∧ Turned k cur w k' r.
Proof. intros. destruct (decide (candidates w = 0)); [by apply turn_empty|by apply turn_candidate]. Qed.

(** Turns without anything in between are [wakeup]. *)
Inductive Turns (cur : Z) : Kernel → Scan → Kernel → option Scan → Prop :=
  | turns_here k w : Turns cur k w k (Some w)
  | turns_last k w k' : wakeup_turn k cur this w = Ret (k', None) → Turns cur k w k' None
  | turns_next k w k1 w1 k' r : wakeup_turn k cur this w = Ret (k1, Some w1) → Turns cur k1 w1 k' r → Turns cur k w k' r.

Lemma word_turns cur n k w v k' : wakeup_word n k cur this w v = Ret k' →
  Turns cur k (mkScan w v) k' (Some (mkScan w 0)).
Proof.
  revert k v. induction n as [|n IH]; intros k v; cbn [wakeup_word].
  { destruct (Z.eqb_spec v 0) as [->|]; [|done]. intros [= <-]. constructor. }
  destruct (Z.eqb_spec v 0) as [->|Hne]; [intros [= <-]; constructor|]. intros E.
  pose proof (proj2 (Z.eqb_neq _ _) Hne) as Ev. set (g := w * 64 + active_slot_bit_index v) in *.
  destruct (num_process <=? g) eqn:Eg.
  { injection E as <-. eapply turns_next; [|constructor]. unfold wakeup_turn. cbn. rewrite Ev. fold g. by rewrite Eg. }
  destruct (get_pcb k g) as [p| | |] eqn:Ep; [|done..]. cbn [obind] in E.
  destruct (_ || _) eqn:Eb.
  { eapply turns_next; [|by apply IH]. unfold wakeup_turn. cbn. rewrite Ev. fold g. rewrite Eg, Ep. cbn [obind]. by rewrite Eb. }
  destruct (wakeup_candidate k g this) as [k1| | |] eqn:Ew; [|done..]. cbn [obind] in E.
  eapply turns_next; [|by apply IH]. unfold wakeup_turn. cbn. rewrite Ev. fold g. rewrite Eg, Ep. cbn [obind]. by rewrite Eb, Ew.
Qed.

Lemma turns_trans cur k w k1 w1 k2 r : Turns cur k w k1 (Some w1) → Turns cur k1 w1 k2 r → Turns cur k w k2 r.
Proof.
  intros H. remember (Some w1) as r1 eqn:Er. induction H; intros H2; simplify_eq; [done|]. eapply turns_next; [done|]. by apply IHTurns.
Qed.

Definition scan_word (fuel : nat) (cur w : Z) (k : Kernel) : outcome Kernel :=
  let! s := load_candidates k this w in wakeup_word fuel k cur this w (candidates s).

Lemma scan_word_turns fuel cur w k k' : scan_word fuel cur w k = Ret k' →
  ∃ s, load_candidates k this w = Ret s ∧ Turns cur k s k' (Some (mkScan w 0)).
Proof.
  unfold scan_word, load_candidates. intros E. destruct (aget (_wait_channel_slot_words k) _) as [ws| | |]; [|discriminate E..].
  cbn [obind] in *. destruct (aget ws w) as [v| | |]; [|discriminate E..]. cbn [obind candidates] in *.
  exists (mkScan w v). split; [done|]. exact (word_turns _ _ _ _ _ _ E).
Qed.

Lemma words_turns fuel cur n lo k k' : lo + Z.of_nat n = 7 → for_iter (scan_word fuel cur) (S n) lo k = Ret k' →
  ∃ w, load_candidates k this lo = Ret w ∧ Turns cur k w k' None.
Proof.
  assert (∀ n lo k, for_iter (scan_word fuel cur) (S n) lo k = Ret k' → ∃ k1 w, load_candidates k this lo = Ret w ∧
    Turns cur k w k1 (Some (mkScan lo 0)) ∧ for_iter (scan_word fuel cur) n (lo + 1) k1 = Ret k') as Hfirst.
  { clear. intros n lo k E. change (obind (scan_word fuel cur lo k) (for_iter (scan_word fuel cur) n (lo + 1)) = Ret k') in E.
    destruct (scan_word fuel cur lo k) as [k1| | |] eqn:Ew; [|discriminate E..]. apply scan_word_turns in Ew as (w & El & Hw).
    exists k1, w. split; [exact El|]. split; [exact Hw|exact E]. }
  assert (∀ lo, (lo + 1 <? num_process / 64) = (lo <? 7)) as Hlast.
  { intros z. change (num_process / 64) with 8. destruct (Z.ltb_spec (z + 1) 8), (Z.ltb_spec z 7); lia. }
  revert lo k. induction n as [|n IH]; intros lo k Hlo E.
  - apply Hfirst in E as (k1 & w & El & Hw & [= <-]). exists w. split; [exact El|]. apply (turns_trans _ _ _ _ _ _ _ Hw).
    apply turns_last. unfold wakeup_turn. cbn [candidates word_index]. rewrite Z.eqb_refl, Hlast. by rewrite (proj2 (Z.ltb_ge _ _)) by lia.
  - apply Hfirst in E as (k1 & w & El & Hw & E). exists w. split; [exact El|]. apply (turns_trans _ _ _ _ _ _ _ Hw).
    apply (IH (lo + 1) k1) in E as (w' & El' & Ht); [|lia]. eapply turns_next; [|exact Ht]. unfold wakeup_turn. cbn [candidates word_index].
    rewrite Z.eqb_refl, Hlast, (proj2 (Z.ltb_lt _ _)) by lia. by rewrite El'.
Qed.

(** The turns of the model are those of [wakeup]. *)
Lemma wakeup_turns k cur k' : wakeup k cur this = Ret k' →
  ∃ w, load_candidates k this 0 = Ret w ∧ Turns cur k w k' None.
Proof.
  unfold wakeup. rewrite (proj2 (Z.eqb_neq _ _) Hthis). generalize 64%nat. intros fuel E.
  apply (words_turns fuel cur 7 0); [exact eq_refl|]. etrans; [|exact E].
  apply (for_up_ext (scan_word fuel cur) _ 0 8 k).
  intros w k1. unfold scan_word, load_candidates. destruct (aget _ _) as [ws| | |]; [|done..]. cbn [obind]. by destruct (aget ws w).
Qed.

(** ** The invariant *)

(** Something will wake the sleeper [i]: the holder, or the scan of a release. *)
Definition due (s : Config) (i : Z) : Prop :=
  _locked (c_lock s) = true ∨ ∃ j w, c_calls s !! j = Some (Wakes w) ∧ ahead w i.

Record Inv (s : Config) : Prop := {
  inv_ok : Ok (c_kernel s);
  inv_slot i c : c_calls s !! i = Some c → slot i;
  inv_locked : _locked (c_lock s) = true ↔ ∃ i, c_calls s !! i = Some Holds;
  inv_holds i : c_calls s !! i = Some Holds → _owner_tid (c_lock s) = tid i;
  inv_one i j : c_calls s !! i = Some Holds → c_calls s !! j = Some Holds → i = j;
  inv_wakes i w : c_calls s !! i = Some (Wakes w) →
    _locked (c_lock s) = false ∧ _state (pcb (c_kernel s) i) = RUNNING ∧ scan_ok w;
  inv_spin i j w w' : c_calls s !! i = Some (Wakes w) → c_calls s !! j = Some (Wakes w') → i = j;
  inv_sleeps i : c_calls s !! i = Some Sleeps → _state (pcb (c_kernel s) i) = SLEEPING →
    _chan (pcb (c_kernel s) i) = this ∧ due s i
}.

Lemma init_inv k : awake k → Inv (mkConfig k init ∅).
Proof.
  intros [Hk _]. split; cbn; [done|..].
  all: intros *; try (rewrite lookup_empty; done).
  split; [done|]. intros [i Hi]. by rewrite lookup_empty in Hi.
Qed.

(** A process changes its place without changing who holds the lock or wakes. *)
Definition plain (c : option Pc) : Prop := match c with Some Holds | Some (Wakes _) => False | _ => True end.

Lemma plain_insert (m : gmap Z Pc) i c j d : plain (m !! i) → plain (Some c) → ¬ plain (Some d) →
  <[i := c]> m !! j = Some d ↔ m !! j = Some d.
Proof.
  intros Hi Hc Hd. rewrite lookup_insert_Some. split.
  - intros [[_ ->]|[_ ?]]; [done|done].
  - intros E. right. split; [|done]. intros ->. by rewrite E in Hi.
Qed.

Lemma plain_inv s k i p c : Inv s → slot i → plain (c_calls s !! i) → plain (Some c) →
  Touch (c_kernel s) i p (g_futex_buckets (c_kernel s)) k →
  (c = Sleeps → _state p = SLEEPING → _chan p = this ∧ due s i) →
  Inv (mkConfig k (c_lock s) (<[i := c]> (c_calls s))).
Proof.
  intros Hs Hi Hp Hc Ht Hsl. destruct Hs as [H1 H2 H3 H4 H5 H6 H7 H8].
  assert (∀ j d, ¬ plain (Some d) → <[i := c]> (c_calls s) !! j = Some d ↔ c_calls s !! j = Some d) as Hins
    by (intros; by apply plain_insert).
  assert (∀ j, due s j → due (mkConfig k (c_lock s) (<[i := c]> (c_calls s))) j) as Hdue.
  { intros j [?|(j' & w & Hj & Ha)]; [by left|right]. exists j', w. split; [|done]. by apply Hins; [intros []|]. }
  split; cbn.
  - apply Ht.
  - intros j d [[<- _]|[_ E]]%lookup_insert_Some; [done|by apply H2 in E].
  - rewrite H3. split; intros [j Hj]; exists j; by apply Hins; [intros []|].
  - intros j Hj%Hins; [by apply H4|by intros []].
  - intros j j' Hj%Hins Hj'%Hins; [by apply H5|by intros []..].
  - intros j w Hj%Hins; [|by intros []]. destruct (H6 j w Hj) as (? & Hr & ?). split_and!; [done| |done].
    rewrite (touch_pcb _ _ _ _ _ _ H1 Hi (H2 _ _ Hj) Ht). rewrite bool_decide_eq_false_2; [done|]. intros ->. by rewrite Hj in Hp.
  - intros j j' w w' Hj%Hins Hj'%Hins; [by apply (H7 _ _ w w')|by intros []..].
  - intros j Hj Hst. assert (slot j) as Hjs by (apply lookup_insert_Some in Hj as [[<- _]|[_ E]]; [done|by apply H2 in E]).
    rewrite (touch_pcb _ _ _ _ _ _ H1 Hi Hjs Ht) in Hst |- *. apply lookup_insert_Some in Hj as [[<- ->]|[Hne E]].
    + rewrite bool_decide_eq_true_2 in Hst |- * by done. destruct Hsl; [done|done|]. split; [done|]. by apply Hdue.
    + rewrite bool_decide_eq_false_2 in Hst |- * by done. destruct (H8 j E Hst). split; [done|]. by apply Hdue.
Qed.

Lemma call_inv s i : Inv s → slot i → c_calls s !! i = None → Inv (mkConfig (c_kernel s) (c_lock s) (<[i := Wants]> (c_calls s))).
Proof.
  intros Hs Hi E. apply (plain_inv s _ i (pcb (c_kernel s) i)); [done|done|by rewrite E|done| |done].
  apply touch_refl; [apply Hs|done].
Qed.

Lemma acquire_inv s i : Inv s → c_calls s !! i = Some Wants → spin_free s →
  ∃ k l taken, acquire_turn (c_kernel s) (c_lock s) this i (tid i) = Ret (k, l, taken) ∧
    Inv (mkConfig k l (<[i := if taken then Holds else Sleeps]> (c_calls s))).
Proof.
  intros Hs E Hfree. pose proof (inv_slot s Hs _ _ E) as Hi. unfold acquire_turn. destruct (_locked (c_lock s)) eqn:El.
  - destruct (sleep_enter_spec _ i this (inv_ok s Hs) Hi Hthis) as (k & b & -> & Ht). cbn [obind]. eexists _, _, _. split; [done|].
    refine (plain_inv s k i _ _ Hs Hi _ _ Ht _); [by rewrite E|done|]. intros _ _. split; [done|by left].
  - eexists _, _, _. split; [done|]. destruct Hs as [H1 H2 H3 H4 H5 H6 H7 H8].
    assert (∀ j, c_calls s !! j ≠ Some Holds) as Hnone.
    { intros j Ej. destruct H3 as [_ H3]. by rewrite H3 in El by eauto. }
    split; cbn; [done|..].
    + intros j d [[<- _]|[_ Ej]]%lookup_insert_Some; [done|by apply H2 in Ej].
    + split; [|done]. intros _. exists i. apply lookup_insert_eq.
    + intros j [[<- _]|[_ Ej]]%lookup_insert_Some; [done|by apply Hnone in Ej].
    + intros j j' [[<- _]|[_ Ej]]%lookup_insert_Some [[<- _]|[_ Ej']]%lookup_insert_Some; try done; by apply Hnone in Ej || by apply Hnone in Ej'.
    + intros j w [[_ ?]|[_ Ej]]%lookup_insert_Some; [done|by apply Hfree in Ej].
    + intros j j' w w' [[_ ?]|[_ Ej]]%lookup_insert_Some; [done|by apply Hfree in Ej].
    + intros j [[_ ?]|[_ Ej]]%lookup_insert_Some Hst; [done|]. destruct (H8 j Ej Hst). split; [done|by left].
Qed.

Lemma slept_inv s i : Inv s → c_calls s !! i = Some Sleeps →
  ∃ k, sleep_exit (c_kernel s) i = Ret k ∧ Inv (mkConfig k (c_lock s) (<[i := Wants]> (c_calls s))).
Proof.
  intros Hs E. pose proof (inv_slot s Hs _ _ E) as Hi. destruct (unregister_spec _ i (inv_ok s Hs) Hi) as (k & Ek & Ht).
  exists k. split; [exact Ek|]. by refine (plain_inv s k i _ _ Hs Hi _ _ Ht _); [rewrite E|..].
Qed.

Lemma release_inv s i : Inv s → c_calls s !! i = Some Holds → spin_free s → _state (pcb (c_kernel s) i) = RUNNING →
  ∃ w, load_candidates (c_kernel s) this 0 = Ret w ∧
    Inv (mkConfig (c_kernel s) (release (c_lock s)) (<[i := Wakes w]> (c_calls s))).
Proof.
  intros Hs E Hfree Hr. destruct (load_candidates_spec _ 0 (inv_ok s Hs)) as (v & -> & Hv & Hload); [done|].
  eexists. split; [done|]. destruct Hs as [H1 H2 H3 H4 H5 H6 H7 H8]. split; cbn; [done|..].
  - intros j d [[<- _]|[_ Ej]]%lookup_insert_Some; [by apply (H2 _ Holds)|by apply H2 in Ej].
  - split; [done|]. intros [j [[_ ?]|[Hne Ej]]%lookup_insert_Some]; [done|]. by destruct Hne; apply H5.
  - intros j [[_ ?]|[Hne Ej]]%lookup_insert_Some; [done|]. by destruct Hne; apply H5.
  - intros j j' [[_ ?]|[Hne Ej]]%lookup_insert_Some; [done|]. by destruct Hne; apply H5.
  - intros j w [[<- [= <-]]|[_ Ej]]%lookup_insert_Some; [done|by apply Hfree in Ej].
  - intros j j' w w' [[<- _]|[_ Ej]]%lookup_insert_Some [[<- _]|[_ Ej']]%lookup_insert_Some; try done; by apply Hfree in Ej || by apply Hfree in Ej'.
  - intros j [[_ ?]|[Hne Ej]]%lookup_insert_Some Hst; [done|]. destruct (H8 j Ej Hst) as [Hch _]. split; [done|]. right.
    exists i, (mkScan 0 v). split; [apply lookup_insert_eq|]. pose proof (H2 _ _ Ej) as Hj. pose proof (slot_word j Hj).
    destruct (decide (j / 64 = 0)) as [E0|]; [right|left; cbn; lia]. split; [done|]. by apply Hload.
Qed.

(** The calls after a turn of the scan of [i]. *)
Definition scanned (m : gmap Z Pc) (i : Z) (r : option Scan) : gmap Z Pc :=
  match r with Some w => <[i := Wakes w]> m | None => delete i m end.

Lemma scanned_lookup m i r j : scanned m i r !! j = if bool_decide (j = i) then Wakes <$> r else m !! j.
Proof.
  unfold scanned. case_bool_decide as E; destruct r; subst.
  - by rewrite lookup_insert_eq.
  - by rewrite lookup_delete_eq.
  - by rewrite lookup_insert_ne.
  - by rewrite lookup_delete_ne.
Qed.

Lemma wake_inv s i w : Inv s → c_calls s !! i = Some (Wakes w) →
  ∃ k r, wakeup_turn (c_kernel s) i this w = Ret (k, r) ∧ Inv (mkConfig k (c_lock s) (scanned (c_calls s) i r)).
Proof.
  intros Hs E. pose proof (inv_slot s Hs _ _ E) as Hi. destruct (inv_wakes s Hs i w E) as (El & Hr & Hw).
  destruct (wakeup_turn_spec _ i w (inv_ok s Hs) Hi Hw) as (k & r & -> & Hk & Hcur & Hp & Hres). exists k, r. split; [done|].
  destruct Hs as [H1 H2 H3 H4 H5 H6 H7 H8].
  assert (∀ j d, scanned (c_calls s) i r !! j = Some d → j = i ∧ Wakes <$> r = Some d ∨ j ≠ i ∧ c_calls s !! j = Some d) as Hlook.
  { intros j d. rewrite scanned_lookup. case_bool_decide; auto. }
  assert (∀ j, c_calls s !! j ≠ Some Holds) as Hnone.
  { intros j Ej. destruct H3 as [_ H3]. by rewrite H3 in El by eauto. }
  assert (∀ j, scanned (c_calls s) i r !! j ≠ Some Holds) as Hnone'.
  { intros j [[_ ?]|[_ Ej]]%Hlook; [by destruct r|by apply Hnone in Ej]. }
  assert (∀ j v, scanned (c_calls s) i r !! j = Some (Wakes v) → j = i ∧ r = Some v) as Honly.
  { intros j v [[-> Ej]|[Hne Ej]]%Hlook; [destruct r; by simplify_eq/=|]. by destruct Hne; apply (H7 _ _ v w). }
  split; cbn; [done|..].
  - intros j d [[-> _]|[_ Ej]]%Hlook; [done|by apply H2 in Ej].
  - split; [by rewrite El|]. intros [j Ej]. by apply Hnone' in Ej.
  - intros j Ej. by apply Hnone' in Ej.
  - intros j j' Ej. by apply Hnone' in Ej.
  - intros j v [-> ->]%Honly. rewrite Hcur. split_and!; [done|done|apply Hres].
  - intros j j' v v' [-> _]%Honly [-> _]%Honly. done.
  - intros j [[_ ?]|[Hne Ej]]%Hlook Hst; [by destruct r|]. pose proof (H2 _ _ Ej) as Hj.
    destruct (Hp j Hj) as [Ep|]; [|done]. rewrite Ep in Hst. destruct (H8 j Ej Hst) as [Hch Hdue]. rewrite <- Ep in Hch, Hst.
    split; [done|]. destruct Hdue as [?|(j' & v & Ej' & Ha)]; [congruence|].
    assert (j' = i) as -> by (by apply (H7 _ _ v w)). simplify_eq. right. destruct r as [w'|].
    + exists i, w'. split; [apply lookup_insert_eq|]. by apply Hres.
    + by destruct (Hres j Hj).
Qed.

Lemma other_inv s i e : Inv s → permitted (c_kernel s) i e → undisturbed this (c_calls s !! i) e →
  ∃ k, happens (c_kernel s) i e = Ret k ∧ Inv (mkConfig k (c_lock s) (c_calls s)).
Proof.
  intros Hs Hperm Hun. destruct (happens_spec _ i e (inv_ok s Hs) Hperm) as (k & p & -> & Ht & [Ha _ Hr]).
  exists k. split; [done|]. destruct (Hperm) as [Hi _]. destruct Hs as [H1 H2 H3 H4 H5 H6 H7 H8].
  assert (∀ c, c_calls s !! i = Some c → c ≠ Holds → passive e) as Hpas.
  { intros c Ec Hne. rewrite Ec in Hun. destruct c, e; cbn in *; naive_solver. }
  split; cbn; [apply Ht|done|done|done|done| |done|].
  - intros j w Ej. destruct (H6 j w Ej) as (? & Hst & ?). split_and!; [done| |done].
    rewrite (touch_pcb _ _ _ _ _ _ H1 Hi (H2 _ _ Ej) Ht). case_bool_decide as Eji; [|done]. subst j.
    apply Hr; [by apply (Hpas (Wakes w))| |done]. intros ->. by rewrite Ej in Hun.
  - intros j Ej. rewrite (touch_pcb _ _ _ _ _ _ H1 Hi (H2 _ _ Ej) Ht). case_bool_decide as Eji; [|by apply H8]. subst j.
    intros Hst. destruct (Ha (Hpas Sleeps Ej ltac:(done)) Hst) as [Hst' ->]. by apply H8.
Qed.

Lemma lock_step_inv s s' : Inv s → step this tid s s' → Inv s'.
Proof.
  intros Hs [i [Hi _] E|i k l taken _ E Hf Hk|i k _ E Hk|i w [_ Hr] E Hf Hk|i w k w' _ E Hk|i w k _ E Hk|i e k Hp Hu Hk].
  - by apply call_inv.
  - destruct (acquire_inv s i Hs E Hf) as (k' & l' & t' & E' & H). rewrite Hk in E'. by injection E' as <- <- <-.
  - destruct (slept_inv s i Hs E) as (k' & E' & H). rewrite Hk in E'. by injection E' as <-.
  - destruct (release_inv s i Hs E Hf Hr) as (w' & E' & H). rewrite Hk in E'. by injection E' as <-.
  - destruct (wake_inv s i w Hs E) as (k' & r & E' & H). rewrite Hk in E'. by injection E' as <- <-.
  - destruct (wake_inv s i w Hs E) as (k' & r & E' & H). rewrite Hk in E'. by injection E' as <- <-.
  - destruct (other_inv s i e Hs Hp Hu) as (k' & E' & H). rewrite Hk in E'. by injection E' as <-.
Qed.

Lemma lock_reachable_inv s : reachable this tid s → Inv s.
Proof. induction 1 as [k Hk|s s' _ IH Hst]; [by apply init_inv|by apply (lock_step_inv s)]. Qed.

(** ** What the lock promises *)

(** No step of a call panics or accesses an array out of bounds. *)
Lemma lock_calls_return s i c : Inv s → c_calls s !! i = Some c → (c = Wants ∨ c = Holds → spin_free s) → runs (c_kernel s) i →
  ∃ s', step this tid s s'.
Proof.
  intros Hs E Hf Hr. destruct c as [| | |w].
  - destruct (acquire_inv s i Hs E) as (k & l & b & E' & _); [by apply Hf; left|]. eexists. exact (step_acquire _ _ _ i k l b Hr E (Hf (or_introl eq_refl)) E').
  - destruct (slept_inv s i Hs E) as (k & E' & _). eexists. exact (step_slept _ _ _ i k Hr E E').
  - destruct (release_inv s i Hs E) as (w & E' & _); [by apply Hf; right|apply Hr|]. eexists. exact (step_release _ _ _ i w Hr E (Hf (or_intror eq_refl)) E').
  - destruct (wake_inv s i w Hs E) as (k & [w'|] & E' & _); eexists; [by apply (step_wake _ _ _ i w k w')|by apply (step_woken _ _ _ i w k)].
Qed.

(** The turns a scan has left are fewer than its rank. *)
Definition rank (w : Scan) : Z := (8 - word_index w) * 2 ^ 64 + candidates w.

Lemma wakeup_turn_rank k cur w k' w' : Ok k → scan_ok w → wakeup_turn k cur this w = Ret (k', Some w') → 0 ≤ rank w' < rank w.
Proof.
  intros Hk [Hw Hv]. unfold wakeup_turn, rank. change (num_process / 64) with 8. destruct (Z.eqb_spec (candidates w) 0) as [E0|Hne].
  - destruct (Z.ltb_spec (word_index w + 1) 8); [|done]. intros E.
    destruct (load_candidates_spec k (word_index w + 1) Hk) as (v & El & Hv' & _); [lia|]. rewrite El in E. cbn [obind] in E.
    injection E as <- <-. cbn [word_index candidates]. unfold word_ok in *. lia.
  - assert (0 ≤ Z.land (candidates w) (u64 (candidates w - 1)) < candidates w) as Hland.
    { unfold word_ok in Hv. rewrite u64_small by lia. split; [apply Z.land_nonneg; lia|].
      assert (Z.land (candidates w) (candidates w - 1) ≤ candidates w - 1); [|lia].
      rewrite <- (Z2N.id (candidates w - 1)), <- (Z2N.id (candidates w)), <- N2Z.inj_land by lia. apply N2Z.inj_le, N.land_le_r. }
    intros E. assert (word_index w' = word_index w ∧ 0 ≤ candidates w' < candidates w) as [-> ?]; [|lia].
    destruct (num_process <=? _); [injection E as _ <-; cbn; unfold word_ok in Hv; lia|].
    destruct (get_pcb k _) as [q| | |]; [|discriminate E..]. cbn [obind] in E. destruct (_ || _); [by injection E as _ <-|].
    destruct (wakeup_candidate k _ this); [|discriminate E..]. cbn [obind] in E. by injection E as _ <-.
Qed.

End with_lock.

(** ** A run in which process 1 waits for process 0 *)

Definition demo_tid (i : Z) : Z := i + 1.

Definition calls_1 : gmap Z Pc := <[0 := Wants]> ∅.
Definition calls_2 : gmap Z Pc := <[0 := Holds]> calls_1.
Definition calls_3 : gmap Z Pc := <[1 := Wants]> calls_2.
Definition demo (k : Kernel) : Config := mkConfig k (mkLock true (demo_tid 0)) (<[1 := Sleeps]> calls_3).

Lemma quiet_calls i w : calls_1 !! i ≠ Some (Wakes w) ∧ calls_3 !! i ≠ Some (Wakes w).
Proof.
  assert (calls_1 !! i ≠ Some (Wakes w)) as H1.
  { unfold calls_1. intros [[_ ?]|[_ E]]%lookup_insert_Some; [done|by rewrite lookup_empty in E]. }
  split; [done|]. unfold calls_3, calls_2. by intros [[_ ?]|[_ [[_ ?]|[_ E]]%lookup_insert_Some]]%lookup_insert_Some.
Qed.

Lemma lock_demo_reachable : ∃ k, reachable 0x8000 demo_tid (demo k) ∧ runs k 0 ∧ _state (pcb k 1) = SLEEPING.
Proof.
  pose proof (reachable_init 0x8000 demo_tid demo_kernel demo_awake) as H0. pose proof (proj1 demo_awake) as Hk.
  assert (runs demo_kernel 0 ∧ runs demo_kernel 1) as [Hr0 Hr1] by done.
  assert (reachable 0x8000 demo_tid (mkConfig demo_kernel init calls_1)) as H1.
  { apply (reachable_step _ _ _ _ H0). by apply (step_call _ _ (mkConfig demo_kernel init ∅) 0). }
  assert (reachable 0x8000 demo_tid (mkConfig demo_kernel (mkLock true (demo_tid 0)) calls_2)) as H2.
  { apply (reachable_step _ _ _ _ H1). apply (step_acquire _ _ (mkConfig demo_kernel init calls_1) 0 _ _ true); [done|done| |done].
    intros i w. apply quiet_calls. }
  assert (reachable 0x8000 demo_tid (mkConfig demo_kernel (mkLock true (demo_tid 0)) calls_3)) as H3.
  { apply (reachable_step _ _ _ _ H2). by apply (step_call _ _ (mkConfig demo_kernel _ calls_2) 1). }
  destruct (sleep_enter_spec demo_kernel 1 0x8000 Hk) as (k & b & E & Ht); [done|done|].
  exists k. split; [|split; [split; [done|]|]].
  - apply (reachable_step _ _ _ _ H3). apply (step_acquire _ _ (mkConfig demo_kernel _ calls_3) 1 _ _ false); [done|done| |].
    + intros i w. apply quiet_calls.
    + unfold acquire_turn. cbn [c_kernel c_lock _locked]. by rewrite E.
  - by rewrite (touch_pcb demo_kernel 1 _ _ _ 0 Hk ltac:(done) ltac:(done) Ht).
  - by rewrite (touch_self demo_kernel 1 _ _ _ Hk ltac:(done) Ht).
Qed.

(** ** The theorems *)

(** C20. In every interleaving at most one process is past [acquire], and [is_holding]
    tells exactly that process that it holds the lock. *)
Theorem sleep_lock_excludes this tid s : this ≠ nullptr → reachable this tid s →
  (∀ i j, slot i → slot j → tid i = tid j → i = j) →
  (∀ i j, c_calls s !! i = Some Holds → c_calls s !! j = Some Holds → i = j) ∧
  ∀ i, slot i → is_holding (c_lock s) (tid i) = true ↔ c_calls s !! i = Some Holds.
Proof.
  intros Hthis Hr Hinj. destruct (lock_reachable_inv this tid Hthis s Hr) as [_ Hsl Hl Ho H1 _ _ _]. split; [done|].
  intros i Hi. unfold is_holding. rewrite andb_true_iff, Z.eqb_eq, Hl. split.
  - intros [[j Hj] Ei]. rewrite (Ho j Hj) in Ei. rewrite <- (Hinj j i (Hsl _ _ Hj) Hi Ei). done.
  - intros E. split; [by exists i|by apply Ho].
Qed.

Lemma sleep_lock_excludes_witness : ∃ k, c_calls (demo k) !! 0 = Some Holds ∧
  is_holding (c_lock (demo k)) (demo_tid 0) = true ∧ is_holding (c_lock (demo k)) (demo_tid 1) = false.
Proof.
  destruct lock_demo_reachable as (k & Hr & _). exists k.
  destruct (sleep_lock_excludes 0x8000 demo_tid (demo k) ltac:(discriminate) Hr) as [_ H].
  - unfold demo_tid. intros. lia.
  - split; [exact eq_refl|]. split; [apply (proj2 (H 0 ltac:(split; [lia|exact eq_refl])) eq_refl)|exact eq_refl].
Defined.

(** C21. No wakeup is lost: while a process sleeps in [acquire], signals and other
    wakeups apart, some process holds the lock, or a release is on its way that has
    yet to look at the sleeper; that release runs, its next turn returns, and it has
    finitely many turns left. *)
Theorem sleep_lock_no_lost_wakeup this tid s i : this ≠ nullptr → reachable this tid s →
  c_calls s !! i = Some Sleeps → _state (pcb (c_kernel s) i) = SLEEPING →
  (∃ j, c_calls s !! j = Some Holds) ∨
  ∃ j w k r, c_calls s !! j = Some (Wakes w) ∧ ahead w i ∧ runs (c_kernel s) j ∧
    wakeup_turn (c_kernel s) j this w = Ret (k, r) ∧
    match r with Some w' => 0 ≤ rank w' < rank w | None => False end.
Proof.
  intros Hthis Hr Ei Hst. pose proof (lock_reachable_inv this tid Hthis s Hr) as Hs.
  destruct (inv_sleeps _ _ s Hs i Ei Hst) as [_ [Hl|(j & w & Ej & Ha)]]; [left; by apply (inv_locked _ _ s Hs)|right].
  destruct (inv_wakes _ _ s Hs j w Ej) as (_ & Hrun & Hw). pose proof (inv_slot _ _ s Hs _ _ Ej) as Hj.
  destruct (wakeup_turn_spec this Hthis (c_kernel s) j w (inv_ok _ _ s Hs) Hj Hw) as (k & r & E & Ht). exists j, w, k, r.
  split_and!; [done..|]. destruct r as [w'|]; [by apply (wakeup_turn_rank this Hthis (c_kernel s) j w k w' (inv_ok _ _ s Hs))|].
  destruct Ht as (_ & _ & _ & Hno). by apply (Hno i); [apply (inv_slot _ _ s Hs i Sleeps)|].
Qed.

Lemma sleep_lock_no_lost_wakeup_witness : ∃ k, _state (pcb k 1) = SLEEPING ∧ ∃ j, c_calls (demo k) !! j = Some Holds.
Proof.
  destruct lock_demo_reachable as (k & Hr & _ & Hst). exists k. split; [exact Hst|].
  destruct (sleep_lock_no_lost_wakeup 0x8000 demo_tid (demo k) 1 ltac:(discriminate) Hr eq_refl Hst)
    as [H|(j & w & _ & _ & E & _)]; [exact H|].
  exfalso. assert (j = 0 ∨ j = 1 ∨ (j ≠ 0 ∧ j ≠ 1)) as [->|[->|[H0 H1]]] by lia; [discriminate E|discriminate E|].
  unfold demo, calls_3, calls_2, calls_1 in E. cbn [c_calls] in E. rewrite !lookup_insert_ne in E by lia. discriminate E.
Defined.

End SleepLockCorrect.
