(* ===== verification/Semaphore.v ===== *)
(** * Semaphores (kernel/libs/semaphore.cc)

    A counter with a list of the processes that wait for it, in the order they came.
    A negative value is the number of waiters.  A call runs with the semaphore's spin
    lock; [sem_p] is split where its sleep gives the lock up. *)
From S2P Require Import Prelude Sleep SleepRep SleepOps SleepCorrect.
Import Sleep SleepRep SleepEnv.

Module Semaphore.

Definition NPROC : Z := 512.

Record sem := mkSem { value : Z; max_value : Z; wait_list : list (option Z); top : Z }.

Definition with_value (s : sem) (v : Z) : sem := mkSem v (max_value s) (wait_list s) (top s).

Definition sem_init_with_max (value max_value : Z) : sem := mkSem value max_value (replicate (Z.to_nat NPROC) None) 0.
Definition sem_init (value : Z) : sem := mkSem value (-1) (replicate (Z.to_nat NPROC) None) 0.

Definition sem_pop_waiter_locked (s : sem) : outcome (sem * option Z) :=
  if top s <=? 0 then Ret (s, None) else
  let! waiter := aget (wait_list s) 0 in
  let! l := for_up (λ i l, let! w := aget l (i + 1) in aset l i w) 0 (top s - 1) (wait_list s) in
  let! l := aset l (top s - 1) None in
  Ret (mkSem (value s) (max_value s) l (top s - 1), waiter).

(** [sem_p] up to its end, or up to the switch in its sleep; the Boolean tells which. *)
Definition sem_p (k : Kernel) (s : sem) (this gid : Z) : outcome (Kernel * sem * bool) :=
  let s := with_value s (i32 (value s - 1)) in
  if value s <? 0 then
    if NPROC <=? top s then Panic else
    let! l := aset (wait_list s) (top s) (Some gid) in
    let! k := sleep_enter k gid this in
    Ret (k, mkSem (value s) (max_value s) l (top s + 1), true)
  else Ret (k, s, false).

(** [sem_p] after its sleep, with the lock taken again: whether the process exits. *)
Definition sem_p_leave (k : Kernel) (gid : Z) : outcome bool := let! p := get_pcb k gid in Ret (_killed p).

Definition sem_v (k : Kernel) (s : sem) (this cur : Z) : outcome (Kernel * sem) :=
  if 0 <? top s then
    let! (s, waiter) := sem_pop_waiter_locked s in
    let s := with_value s (i32 (value s + 1)) in
    match waiter with
    | Some w => let! k := wakeup_one k cur w this in Ret (k, s)
    | None => Ret (k, s)
    end
  else if (0 <? max_value s) && (max_value s <=? value s) then Ret (k, s)
  else Ret (k, with_value s (i32 (value s + 1))).

Definition sem_try_p (s : sem) : sem * bool :=
  if 0 <? value s then (with_value s (i32 (value s - 1)), true) else (s, false).

Definition sem_try_v (k : Kernel) (s : sem) (this cur : Z) : outcome (Kernel * sem * bool) :=
  if 0 <? top s then
    let! (s, waiter) := sem_pop_waiter_locked s in
    let s := with_value s (i32 (value s + 1)) in
    match waiter with
    | Some w => let! k := wakeup_one k cur w this in Ret (k, s, true)
    | None => Ret (k, s, true)
    end
  else if (0 <? max_value s) && (max_value s <=? value s) then Ret (k, s, false)
  else Ret (k, with_value s (i32 (value s + 1)), true).

(** ** Processes using one semaphore *)

(** In the sleep of [sem_p]; past it, before taking the lock again. *)
Inductive Pc := Waits | Leaves.

(** [c_passed] calls of [sem_p] and [sem_try_p] got a unit and returned, [c_released]
    calls of [sem_v] and [sem_try_v] gave one. *)
Record Config := mkConfig {
  c_kernel : Kernel;
  c_sem : sem;
  c_calls : gmap Z Pc;
  c_passed : Z;
  c_released : Z
}.

Section system.
(** The address of the semaphore, its first value and its bound. *)
Context (this initial bound : Z).

(** The value may not exceed an [int]. *)
Definition in_range (s : sem) : Prop := value s + 1 < 2 ^ 31.

(** Nothing else wakes a process that waits: see [interrupted_wait_enters]. *)
Definition undisturbed (c : option Pc) (e : Kind) : Prop :=
  e ≠ OtherWake this ∧
  match c with
  | None => e ≠ OtherSleep this
  | Some Waits => e ≠ Interrupt ∧ passive e
  | Some Leaves => passive e
  end.

Inductive step (s : Config) : Config → Prop :=
  | step_p i k m blocked :
      runs (c_kernel s) i → c_calls s !! i = None → should_interrupt_blocking_syscall (pcb (c_kernel s) i) = false →
      sem_p (c_kernel s) (c_sem s) this i = Ret (k, m, blocked) →
      step s (mkConfig k m (if blocked then <[i := Waits]> (c_calls s) else c_calls s)
        (if blocked then c_passed s else c_passed s + 1) (c_released s))
  | step_slept i k :
      runs (c_kernel s) i → c_calls s !! i = Some Waits → sleep_exit (c_kernel s) i = Ret k →
      step s (mkConfig k (c_sem s) (<[i := Leaves]> (c_calls s)) (c_passed s) (c_released s))
  | step_leave i killed :
      runs (c_kernel s) i → c_calls s !! i = Some Leaves → sem_p_leave (c_kernel s) i = Ret killed →
      step s (mkConfig (c_kernel s) (c_sem s) (delete i (c_calls s)) (c_passed s + 1) (c_released s))
  | step_try_p i :
      runs (c_kernel s) i → c_calls s !! i = None →
      step s (mkConfig (c_kernel s) (sem_try_p (c_sem s)).1 (c_calls s)
        (if (sem_try_p (c_sem s)).2 then c_passed s + 1 else c_passed s) (c_released s))
  | step_try_v i k m given :
      runs (c_kernel s) i → c_calls s !! i = None → in_range (c_sem s) →
      sem_try_v (c_kernel s) (c_sem s) this i = Ret (k, m, given) →
      step s (mkConfig k m (c_calls s) (c_passed s) (if given then c_released s + 1 else c_released s))
  | step_v i k m given :
      runs (c_kernel s) i → c_calls s !! i = None → in_range (c_sem s) →
      given = (0 <? top (c_sem s)) || negb ((0 <? max_value (c_sem s)) && (max_value (c_sem s) <=? value (c_sem s))) →
      sem_v (c_kernel s) (c_sem s) this i = Ret (k, m) →
      step s (mkConfig k m (c_calls s) (c_passed s) (if given then c_released s + 1 else c_released s))
  | step_other i e k :
      permitted (c_kernel s) i e → undisturbed (c_calls s !! i) e → happens (c_kernel s) i e = Ret k →
      step s (mkConfig k (c_sem s) (c_calls s) (c_passed s) (c_released s)).

Inductive reachable : Config → Prop :=
  | reachable_init k : awake k → reachable (mkConfig k (sem_init_with_max initial bound) ∅ 0 0)
  | reachable_step s s' : reachable s → step s s' → reachable s'.

End system.
End Semaphore.

(** * A semaphore grants as many units as it has *)
Import Sleep SleepRep SleepOps SleepCorrect SleepEnv Semaphore.

Module SemaphoreCorrect.

(** ** The list of waiters *)

(** The queue [q] as the array and [top] hold it. *)
Definition queue_array (q : list Z) : list (option Z) := (Some <$> q) ++ replicate (Z.to_nat NPROC - length q) None.

(** The loop that moves the elements after the first one down. *)
Lemma shift_down {A} (x : A) (l : list A) n : (n ≤ length l)%nat →
  for_up (λ i l, let! w := aget l (i + 1) in aset l i w) 0 (Z.of_nat n) (x :: l) = Ret (take n l ++ drop n (x :: l)).
Proof.
  intros Hn. destruct (for_up_inv (λ i l, let! w := aget l (i + 1) in aset l i w)
    (λ i l', l' = take (Z.to_nat i) l ++ drop (Z.to_nat i) (x :: l)) 0 (Z.of_nat n) (x :: l)) as (l' & -> & ->); [lia|done| |].
  2: by rewrite Nat2Z.id.
  intros i l' Hi ->. set (m := Z.to_nat i). replace (Z.to_nat (i + 1)) with (S m) by lia.
  destruct (lookup_lt_is_Some_2 l m) as [y Hy]; [lia|].
  destruct (lookup_lt_is_Some_2 (x :: l) m) as [z Hz]; [cbn; lia|].
  rewrite (drop_S (x :: l) z m Hz), (drop_S (x :: l) y (S m)) by done. rewrite (take_S_r _ _ _ Hy).
  assert (length (take m l) = m) as Hlen by (rewrite length_take; lia).
  rewrite (aget_lookup _ _ y); [|lia|]. 2: { rewrite lookup_app_r by lia. by replace (Z.to_nat (i + 1) - length (take m l))%nat with 1%nat by lia. }
  cbn [obind]. rewrite aset_in_range by (rewrite length_app; cbn; lia). eexists. split; [done|]. fold m.
  rewrite insert_app_r_alt by lia. rewrite Hlen, Nat.sub_diag. cbn. by rewrite <- app_assoc.
Qed.

Lemma pop_spec v m i q : (length (i :: q) ≤ Z.to_nat NPROC)%nat →
  sem_pop_waiter_locked (mkSem v m (queue_array (i :: q)) (Z.of_nat (length (i :: q)))) =
    Ret (mkSem v m (queue_array q) (Z.of_nat (length q)), Some i).
Proof.
  intros Hq. unfold sem_pop_waiter_locked. cbn [top wait_list value max_value]. rewrite (proj2 (Z.leb_gt _ _)) by (cbn; lia).
  set (r := replicate (Z.to_nat NPROC - length (i :: q)) (None : option Z)).
  assert (queue_array (i :: q) = Some i :: ((Some <$> q) ++ r)) as -> by done.
  change (aget (Some i :: (Some <$> q) ++ r) 0) with (Ret (Some i)). cbn [obind].
  replace (Z.of_nat (length (i :: q)) - 1) with (Z.of_nat (length q)) by (cbn [length]; lia).
  rewrite shift_down by (rewrite length_app, length_fmap; lia). cbn [obind].
  assert (length (Some <$> q) = length q) as Hl by apply length_fmap.
  assert (∃ z, drop (length q) (Some i :: (Some <$> q) ++ r) = z :: r) as [z ->].
  { destruct (length q) as [|n] eqn:En.
    - destruct q; [|done]. by exists (Some i).
    - cbn [drop]. destruct (lookup_lt_is_Some_2 (Some <$> q) n) as [z Hz]; [lia|]. exists z.
      rewrite (drop_S _ z n) by (by apply lookup_app_l_Some). by rewrite drop_app_length'. }
  rewrite <- Hl, take_app_length. rewrite aset_in_range by (rewrite length_app; cbn; lia). cbn [obind].
  do 3 f_equal. rewrite Nat2Z.id, insert_app_r_alt, Nat.sub_diag by lia. cbn [list_insert]. unfold queue_array. f_equal.
  unfold r. by replace (Z.to_nat NPROC - length q)%nat with (S (Z.to_nat NPROC - length (i :: q))) by (cbn [length] in *; lia).
Qed.

Lemma push_spec i q : (length q < Z.to_nat NPROC)%nat → aset (queue_array q) (Z.of_nat (length q)) (Some i) = Ret (queue_array (q ++ [i])).
Proof.
  intros Hq. unfold queue_array. assert (length (Some <$> q) = length q) as Hl by apply length_fmap.
  rewrite aset_in_range by (rewrite length_app, length_replicate, Hl; lia). f_equal.
  rewrite insert_app_r_alt by lia. rewrite Hl, Nat2Z.id, Nat.sub_diag, fmap_app, <- app_assoc, length_app. cbn [length].
  by replace (Z.to_nat NPROC - length q)%nat with (S (Z.to_nat NPROC - (length q + 1))) by lia.
Qed.

Section with_sem.
Context (this initial bound : Z) (Hthis : this ≠ nullptr) (Hinitial : 0 ≤ initial < 2 ^ 31).

(** ** The invariant, for the queue [q] of waiters *)

Record Inv (s : Config) (q : list Z) : Prop := {
  inv_ok : Ok (c_kernel s);
  inv_slot i c : c_calls s !! i = Some c → slot i;
  inv_list : wait_list (c_sem s) = queue_array q ∧ top (c_sem s) = Z.of_nat (length q);
  inv_nodup : NoDup q;
  inv_waiting i : i ∈ q → c_calls s !! i = Some Waits ∧ _state (pcb (c_kernel s) i) = SLEEPING ∧ _chan (pcb (c_kernel s) i) = this;
  inv_granted i c : c_calls s !! i = Some c → i ∉ q → _state (pcb (c_kernel s) i) ≠ SLEEPING;
  inv_count : value (c_sem s) + c_passed s + Z.of_nat (size (c_calls s)) = initial + c_released s;
  inv_value : Z.of_nat (length q) = Z.max 0 (- value (c_sem s));
  inv_int : value (c_sem s) < 2 ^ 31
}.

Lemma queue_length s q : Inv s q → (length q ≤ 512)%nat.
Proof.
  intros Hs. assert (q ⊆+ seqZ 0 512) as H%submseteq_length; [|by rewrite length_seqZ in H].
  apply NoDup_submseteq; [apply Hs|]. intros i Hi. apply elem_of_seqZ. destruct (inv_waiting s q Hs i Hi) as [E _].
  apply (inv_slot s q Hs) in E. unfold slot, num_process in E. lia.
Qed.

Lemma queue_room s q i : Inv s q → slot i → c_calls s !! i = None → (length q < 512)%nat.
Proof.
  intros Hs Hsl E. assert (i :: q ⊆+ seqZ 0 512) as H%submseteq_length; [|rewrite length_seqZ in H; cbn in H; lia].
  apply NoDup_submseteq.
  - apply NoDup_cons. split; [|apply Hs]. intros Hi. destruct (inv_waiting s q Hs i Hi) as [E' _]. congruence.
  - intros j [->|Hj]%elem_of_cons; apply elem_of_seqZ; [unfold slot, num_process in Hsl; lia|].
    destruct (inv_waiting s q Hs j Hj) as [E' _]. apply (inv_slot s q Hs) in E'. unfold slot, num_process in E'. lia.
Qed.

Lemma sem_init_inv k : awake k → Inv (mkConfig k (sem_init_with_max initial bound) ∅ 0 0) [].
Proof.
  intros [Hk _]. split; cbn; [done|..].
  - intros *. by rewrite lookup_empty.
  - done.
  - constructor.
  - intros i Hi. by apply elem_of_nil in Hi.
  - intros *. by rewrite lookup_empty.
  - rewrite map_size_empty. lia.
  - lia.
  - lia.
Qed.

(** ** The operations *)

Lemma pcb_other k i p bs k' j : Ok k → slot i → slot j → Touch k i p bs k' → j ≠ i → pcb k' j = pcb k j.
Proof. intros Hk Hi Hj Ht Hne. rewrite (touch_pcb _ _ _ _ _ _ Hk Hi Hj Ht). by rewrite bool_decide_eq_false_2. Qed.

Lemma sem_p_blocks k m q i : Ok k → slot i → wait_list m = queue_array q → top m = Z.of_nat (length q) → (length q < 512)%nat →
  - 2 ^ 31 < value m ≤ 0 → should_interrupt_blocking_syscall (pcb k i) = false →
  ∃ k' b, sem_p k m this i =
      Ret (k', mkSem (value m - 1) (max_value m) (queue_array (q ++ [i])) (Z.of_nat (length (q ++ [i]))), true) ∧
    Touch k i (set_task_state (with_channel (pcb k i) this b true) SLEEPING) (g_futex_buckets k) k'.
Proof.
  intros Hk Hi Hl Ht Hq Hv Hsig. unfold sem_p. cbn [value with_value top wait_list max_value]. rewrite i32_small by lia.
  rewrite (proj2 (Z.ltb_lt _ _)) by lia. rewrite Hl, Ht, (proj2 (Z.leb_gt _ _)) by (unfold NPROC; lia).
  rewrite push_spec by (unfold NPROC; lia). cbn [obind]. destruct (sleep_enter_spec k i this Hk Hi Hthis) as (k' & b & -> & Htouch).
  cbn [obind]. rewrite Hsig in Htouch. exists k', b. split; [|done]. rewrite length_app. cbn [length]. by replace (Z.of_nat (length q + 1)) with (Z.of_nat (length q) + 1) by lia.
Qed.

Lemma sem_p_inv s q i : Inv s q → slot i → c_calls s !! i = None →
  should_interrupt_blocking_syscall (pcb (c_kernel s) i) = false →
  ∃ k m blocked q', sem_p (c_kernel s) (c_sem s) this i = Ret (k, m, blocked) ∧
    Inv (mkConfig k m (if blocked then <[i := Waits]> (c_calls s) else c_calls s)
      (if blocked then c_passed s else c_passed s + 1) (c_released s)) q'.
Proof.
  intros Hs Hi E Hsig. pose proof (queue_room s q i Hs Hi E) as Hroom. destruct Hs as [H1 H2 [H3 H4] H5 H6 H7 H8 H9 H10].
  destruct (decide (value (c_sem s) ≤ 0)) as [Hneg|Hpos].
  - destruct (sem_p_blocks (c_kernel s) (c_sem s) q i) as (k & b & -> & Ht); [done..|lia|done|].
    assert (i ∉ q) as Hnot by (intros Hq; destruct (H6 i Hq); congruence).
    eexists k, _, _, (q ++ [i]). split; [done|]. split; cbn.
    + apply Ht.
    + intros j c [[<- _]|[_ Ej]]%lookup_insert_Some; [done|by apply H2 in Ej].
    + done.
    + apply NoDup_app. split_and!; [done| |apply NoDup_singleton]. intros j Hj ->%list_elem_of_singleton. done.
    + intros j [Hj| ->%list_elem_of_singleton]%elem_of_app.
      * destruct (H6 j Hj) as (Ec & Es). rewrite lookup_insert_ne by (intros ->; done).
        rewrite (pcb_other _ _ _ _ _ j H1 Hi (H2 _ _ Ec) Ht); [done|]. by intros ->.
      * by rewrite lookup_insert_eq, (touch_self _ _ _ _ _ H1 Hi Ht).
    + intros j c [[<- _]|[Hne Ej]]%lookup_insert_Some Hj; [by destruct Hj; apply elem_of_app; right; apply list_elem_of_singleton|].
      rewrite (pcb_other _ _ _ _ _ j H1 Hi (H2 _ _ Ej) Ht) by done. apply (H7 j c Ej). intros ?. apply Hj, elem_of_app. by left.
    + rewrite map_size_insert_None by done. lia.
    + rewrite length_app. cbn. lia.
    + lia.
  - unfold sem_p. cbn [value with_value]. rewrite i32_small, (proj2 (Z.ltb_ge _ _)) by lia.
    eexists _, _, _, q. split; [done|]. split; cbn; [done|done|done|done|done|done|lia|lia|lia].
Qed.

Lemma sem_slept_inv s q i : Inv s q → c_calls s !! i = Some Waits → _state (pcb (c_kernel s) i) = RUNNING →
  ∃ k, sleep_exit (c_kernel s) i = Ret k ∧
    Inv (mkConfig k (c_sem s) (<[i := Leaves]> (c_calls s)) (c_passed s) (c_released s)) q.
Proof.
  intros [H1 H2 H3 H5 H6 H7 H8 H9 H10] E Hr. pose proof (H2 _ _ E) as Hi.
  destruct (unregister_spec _ i H1 Hi) as (k & Ek & Ht). exists k. split; [exact Ek|].
  assert (∀ j, j ∈ q → j ≠ i) as Hne by (intros j Hj ->; destruct (H6 i Hj) as (_ & ? & _); congruence).
  split; cbn; [apply Ht| |done|done| | | |done|done].
  - intros j c [[<- _]|[_ Ej]]%lookup_insert_Some; [done|by apply H2 in Ej].
  - intros j Hj. pose proof (Hne j Hj). destruct (H6 j Hj) as (Ec & Es). rewrite lookup_insert_ne by done.
    by rewrite (pcb_other _ _ _ _ _ j H1 Hi (H2 _ _ Ec) Ht).
  - intros j c [[<- _]|[Hn Ej]]%lookup_insert_Some Hj; [by rewrite (touch_self _ _ _ _ _ H1 Hi Ht); cbn; rewrite Hr|].
    rewrite (pcb_other _ _ _ _ _ j H1 Hi (H2 _ _ Ej) Ht) by done. by apply (H7 j c).
  - by rewrite (map_size_insert_Some _ _ _ (mk_is_Some _ _ E)).
Qed.

Lemma sem_leave_inv s q i : Inv s q → c_calls s !! i = Some Leaves →
  ∃ b, sem_p_leave (c_kernel s) i = Ret b ∧
    Inv (mkConfig (c_kernel s) (c_sem s) (delete i (c_calls s)) (c_passed s + 1) (c_released s)) q.
Proof.
  intros [H1 H2 H3 H5 H6 H7 H8 H9 H10] E. pose proof (H2 _ _ E) as Hi. unfold sem_p_leave. rewrite get_pcb_spec by done.
  cbn [obind]. eexists. split; [done|]. split; cbn; [done| |done|done| | | |done|done].
  - intros j c [_ Ej]%lookup_delete_Some. by apply H2 in Ej.
  - intros j Hj. destruct (H6 j Hj) as (Ec & Es). rewrite lookup_delete_ne; [done|]. intros ->. congruence.
  - intros j c [_ Ej]%lookup_delete_Some. by apply (H7 j c).
  - rewrite map_size_delete, E. pose proof (map_size_ne_0_lookup_2 (c_calls s) i (mk_is_Some _ _ E)). lia.
Qed.

Lemma sem_try_p_inv s q : Inv s q →
  Inv (mkConfig (c_kernel s) (sem_try_p (c_sem s)).1 (c_calls s)
    (if (sem_try_p (c_sem s)).2 then c_passed s + 1 else c_passed s) (c_released s)) q.
Proof.
  intros [H1 H2 H3 H5 H6 H7 H8 H9 H10]. unfold sem_try_p. destruct (Z.ltb_spec 0 (value (c_sem s))); [|by split].
  cbn [fst snd]. rewrite i32_small by lia. split; cbn; [done|done|done|done|done|done|lia|lia|lia].
Qed.

Definition full (m : sem) : bool := (0 <? max_value m) && (max_value m <=? value m).

(** The first waiter is woken and nobody else. *)
Definition first_woken (k : Kernel) (q : list Z) (k' : Kernel) : Prop :=
  match q with
  | [] => k' = k
  | w :: _ => Touch k w (set_task_state (with_channel (pcb k w) nullptr (_wait_channel_bucket (pcb k w)) false) RUNNABLE)
                (g_futex_buckets k) k'
  end.

Lemma sem_try_v_spec s q i : Inv s q → slot i → c_calls s !! i = None → in_range (c_sem s) →
  ∃ k, first_woken (c_kernel s) q k ∧
    sem_try_v (c_kernel s) (c_sem s) this i = Ret (k,
      match q with
      | [] => if full (c_sem s) then c_sem s else with_value (c_sem s) (value (c_sem s) + 1)
      | _ :: q' => mkSem (value (c_sem s) + 1) (max_value (c_sem s)) (queue_array q') (Z.of_nat (length q'))
      end, match q with [] => negb (full (c_sem s)) | _ => true end).
Proof.
  intros Hs Hi E Hrange. pose proof (queue_length s q Hs) as Hlen. destruct Hs as [H1 H2 [H3 H4] H5 H6 H7 H8 H9 H10].
  unfold sem_try_v, in_range in *. fold (full (c_sem s)). rewrite H4. destruct q as [|w q].
  - cbn. exists (c_kernel s). split; [done|]. destruct (full (c_sem s)); [done|]. by rewrite i32_small by (cbn in H9; lia).
  - rewrite (proj2 (Z.ltb_lt _ _)) by (cbn; lia).
    assert (c_sem s = mkSem (value (c_sem s)) (max_value (c_sem s)) (queue_array (w :: q)) (Z.of_nat (length (w :: q)))) as Es.
    { destruct (c_sem s). cbn in *. by subst. }
    assert (length (w :: q) ≤ Z.to_nat NPROC)%nat as Hcap by (unfold NPROC; lia).
    pose proof (pop_spec (value (c_sem s)) (max_value (c_sem s)) w q Hcap) as Hpop. rewrite <- Es in Hpop. rewrite Hpop. cbn [obind]. unfold with_value. cbn [value max_value wait_list top].
    rewrite i32_small by lia.
    destruct (H6 w) as (Ew & Est & Ech); [apply elem_of_cons; by left|]. pose proof (H2 _ _ Ew) as Hw. unfold wakeup_one.
    rewrite (proj2 (Z.eqb_neq _ _)) by (intros ->; congruence). rewrite get_pcb_spec by done. cbn [obind].
    rewrite Ech, Z.eqb_refl, Est. cbn [negb]. rewrite bool_decide_eq_true_2 by done. cbn [andb].
    destruct (unregister_runnable (c_kernel s) w H1 Hw) as (k & -> & Ht). cbn [obind]. by exists k.
Qed.

Lemma sem_v_try k m cur : sem_v k m this cur = let! (k', m', _) := sem_try_v k m this cur in Ret (k', m').
Proof.
  unfold sem_v, sem_try_v. destruct (0 <? top m).
  - destruct (sem_pop_waiter_locked m) as [[m' [w|]]| | |]; cbn [obind]; [|done..]. by destruct (wakeup_one k cur w this).
  - by destruct (_ && _).
Qed.

Lemma sem_try_v_inv s q i : Inv s q → slot i → c_calls s !! i = None → in_range (c_sem s) →
  ∃ k m given, sem_try_v (c_kernel s) (c_sem s) this i = Ret (k, m, given) ∧
    given = (0 <? top (c_sem s)) || negb (full (c_sem s)) ∧
    Inv (mkConfig k m (c_calls s) (c_passed s) (if given then c_released s + 1 else c_released s)) (tail q).
Proof.
  intros Hs Hi E Hrange. destruct (sem_try_v_spec s q i Hs Hi E Hrange) as (k & Hk & ->). eexists _, _, _. split; [done|].
  destruct Hs as [H1 H2 [H3 H4] H5 H6 H7 H8 H9 H10]. rewrite H4. unfold in_range in Hrange. destruct q as [|w q]; cbn [first_woken tail] in *.
  - subst k. split; [done|]. cbn in H9. destruct (full (c_sem s)); cbn; [by split|].
    split; cbn; [done|done|by rewrite H3, H4|done|done|done|lia|lia|lia].
  - rewrite (proj2 (Z.ltb_lt 0 _)) by (cbn; lia). split; [done|].
    apply NoDup_cons in H5 as [Hnot H5]. destruct (H6 w) as (Ew & _); [apply elem_of_cons; by left|]. pose proof (H2 _ _ Ew) as Hw.
    split; cbn; [apply Hk|done|done|done| | |lia|cbn in H9; lia|lia].
    + intros j Hj. destruct (H6 j) as (Ec & Es); [apply elem_of_cons; by right|]. split; [done|].
      rewrite (pcb_other _ _ _ _ _ j H1 Hw (H2 _ _ Ec) Hk); [done|]. by intros ->.
    + intros j c Ec Hj. rewrite (touch_pcb _ _ _ _ _ _ H1 Hw (H2 _ _ Ec) Hk). case_bool_decide; [done|].
      apply (H7 j c Ec). by intros [?|?]%elem_of_cons.
Qed.

Lemma sem_other_inv s q i e : Inv s q → permitted (c_kernel s) i e → undisturbed this (c_calls s !! i) e →
  ∃ k, happens (c_kernel s) i e = Ret k ∧ Inv (mkConfig k (c_sem s) (c_calls s) (c_passed s) (c_released s)) q.
Proof.
  intros Hs Hperm [Hown Hun]. destruct (happens_spec _ i e (inv_ok s q Hs) Hperm) as (k & p & -> & Ht & [Ha Hsl _]).
  exists k. split; [done|]. destruct (Hperm) as [Hi _]. destruct Hs as [H1 H2 H3 H5 H6 H7 H8 H9 H10].
  split; cbn; [apply Ht|done|done|done| | |done|done|done].
  - intros j Hj. destruct (H6 j Hj) as (Ec & Est & Ech). split; [done|].
    rewrite (touch_pcb _ _ _ _ _ _ H1 Hi (H2 _ _ Ec) Ht). case_bool_decide as Eji; [|done]. subst j.
    rewrite Ec in Hun. destruct Hsl as [? ->]; [done|by destruct Hun|by rewrite Ech|done].
  - intros j c Ec Hj. rewrite (touch_pcb _ _ _ _ _ _ H1 Hi (H2 _ _ Ec) Ht). case_bool_decide as Eji; [|by apply (H7 j c)]. subst j.
    intros Hst. assert (passive e) as Hp by (rewrite Ec in Hun; by destruct c; [destruct Hun|]). by destruct (Ha Hp Hst) as [? _]; apply (H7 i c).
Qed.

Lemma sem_step_inv s q s' : Inv s q → step this s s' → ∃ q', Inv s' q'.
Proof.
  intros Hs [i k m b [Hi _] E Hg Hk|i k [_ Hr] E Hk|i b _ E Hk|i _ E|i k m g [Hi _] E Hrange Hk|i k m g [Hi _] E Hrange Hg Hk|i e k Hp Hu Hk].
  - destruct (sem_p_inv s q i Hs Hi E Hg) as (k' & m' & b' & q' & E' & H). rewrite Hk in E'. injection E' as <- <- <-. by exists q'.
  - destruct (sem_slept_inv s q i Hs E Hr) as (k' & E' & H). rewrite Hk in E'. injection E' as <-. by exists q.
  - destruct (sem_leave_inv s q i Hs E) as (b' & _ & H). by exists q.
  - exists q. by apply sem_try_p_inv.
  - destruct (sem_try_v_inv s q i Hs Hi E Hrange) as (k' & m' & g' & E' & _ & H). rewrite Hk in E'. injection E' as <- <- <-. by exists (tail q).
  - destruct (sem_try_v_inv s q i Hs Hi E Hrange) as (k' & m' & g' & E' & Eg & H). rewrite sem_v_try, E' in Hk. injection Hk as <- <-.
    exists (tail q). unfold full in Eg. by rewrite Hg, <- Eg.
  - destruct (sem_other_inv s q i e Hs Hp Hu) as (k' & E' & H). rewrite Hk in E'. injection E' as <-. by exists q.
Qed.

Lemma sem_reachable_inv s : reachable this initial bound s → ∃ q, Inv s q.
Proof. induction 1 as [k Hk|s s' _ [q IH] Hst]; [eexists; by apply sem_init_inv|by apply (sem_step_inv s q)]. Qed.

(** ** Counting *)

(** The processes in [sem_p] that are not asleep any more. *)
Definition granted (s : Config) : gset Z := filter (λ i, _state (pcb (c_kernel s) i) ≠ SLEEPING) (dom (c_calls s)).

Lemma granted_size s q : Inv s q → Z.of_nat (size (c_calls s)) = Z.of_nat (length q) + Z.of_nat (size (granted s)).
Proof.
  intros Hs. rewrite <- (size_dom (D := gset Z) (c_calls s)), <- (size_list_to_set (C := gset Z) q), <- Nat2Z.inj_add by apply Hs.
  rewrite <- size_union.
  - f_equal. f_equal. apply set_eq. intros i. unfold granted. rewrite elem_of_union, elem_of_list_to_set, elem_of_filter, elem_of_dom. split.
    + intros [c Hc]. destruct (decide (i ∈ q)); [by left|right]. split; [by apply (inv_granted s q Hs i c)|by eexists].
    + intros [Hi|[_ Hi]]; [|done]. destruct (inv_waiting s q Hs i Hi) as [-> _]. by eexists.
  - intros i. unfold granted. rewrite elem_of_list_to_set, elem_of_filter. intros Hi [Hst _].
    by destruct (inv_waiting s q Hs i Hi) as (_ & ? & _).
Qed.

(** The waiters in the order they will be served. *)
Definition waiters (m : sem) : list Z := omap id (take (Z.to_nat (top m)) (wait_list m)).

Lemma waiters_queue v m q : waiters (mkSem v m (queue_array q) (Z.of_nat (length q))) = q.
Proof.
  unfold waiters, queue_array. cbn. rewrite Nat2Z.id. rewrite <- (length_fmap Some q) at 1. rewrite take_app_length.
  induction q as [|i q IH]; [done|]. cbn. by rewrite IH.
Qed.

Lemma inv_waiters s q : Inv s q → waiters (c_sem s) = q.
Proof.
  intros Hs. destruct (inv_list s q Hs) as [E1 E2]. rewrite <- (waiters_queue (value (c_sem s)) (max_value (c_sem s)) q).
  unfold waiters. cbn. by rewrite E1, E2.
Qed.

End with_sem.

(** ** A run in which process 1 waits for process 0 *)

Definition demo (k : Kernel) : Config :=
  mkConfig k (mkSem (-1) (-1) (queue_array [1]) 1) (<[1 := Waits]> ∅) 1 0.

Lemma sem_demo_reachable : ∃ k, reachable 0x8000 1 (-1) (demo k) ∧ runs k 0 ∧ _state (pcb k 1) = SLEEPING.
Proof.
  pose proof (reachable_init 0x8000 1 (-1) demo_kernel demo_awake) as H0. pose proof (proj1 demo_awake) as Hk.
  assert (runs demo_kernel 0 ∧ runs demo_kernel 1) as [Hr0 Hr1] by done. set (c0 := mkConfig _ _ _ _ _) in H0.
  set (c1 := mkConfig demo_kernel (mkSem 0 (-1) (replicate 512 None) 0) ∅ 1 0).
  assert (reachable 0x8000 1 (-1) c1) as H1.
  { apply (reachable_step _ _ _ _ _ H0). by apply (step_p 0x8000 c0 0 _ _ false). }
  destruct (sem_p_blocks 0x8000 ltac:(done) demo_kernel (c_sem c1) [] 1) as (k & b & E & Ht); [done..|cbn; lia|done|done|].
  exists k. split; [|split; [split; [done|]|]].
  - apply (reachable_step _ _ _ _ _ H1). by apply (step_p 0x8000 c1 1 _ _ true).
  - by rewrite (touch_pcb demo_kernel 1 _ _ _ 0 Hk ltac:(done) ltac:(done) Ht).
  - by rewrite (touch_self demo_kernel 1 _ _ _ Hk ltac:(done) Ht).
Qed.

(** ** The theorems *)

(** C22. A semaphore grants no more units than it started with and was given, counting
    the calls that returned and the waiters that were woken; and while a process sleeps
    for a unit, all units are granted.  Waits that a signal ends are excluded. *)
Theorem semaphore_counts this initial bound s : this ≠ nullptr → 0 ≤ initial < 2 ^ 31 → reachable this initial bound s →
  c_passed s + Z.of_nat (size (granted s)) ≤ initial + c_released s ∧
  ((∃ i c, c_calls s !! i = Some c ∧ _state (pcb (c_kernel s) i) = SLEEPING) →
   c_passed s + Z.of_nat (size (granted s)) = initial + c_released s).
Proof.
  intros Hthis Hin Hr. destruct (sem_reachable_inv this initial bound Hthis Hin s Hr) as [q Hs].
  pose proof (granted_size _ _ s q Hs). pose proof (inv_count _ _ s q Hs). pose proof (inv_value _ _ s q Hs).
  split; [lia|]. intros (i & c & Hc & Hst). assert (i ∈ q) as Hi.
  { destruct (decide (i ∈ q)); [done|]. by destruct (inv_granted _ _ s q Hs i c). }
  destruct q; [by apply elem_of_nil in Hi|]. cbn in *. lia.
Qed.

Lemma semaphore_counts_witness : ∃ k, _state (pcb k 1) = SLEEPING ∧ 1 + Z.of_nat (size (granted (demo k))) = 1 + 0.
Proof.
  destruct sem_demo_reachable as (k & Hr & _ & Hst). exists k. split; [exact Hst|].
  apply (semaphore_counts 0x8000 1 (-1) (demo k) ltac:(discriminate) ltac:(split; [lia|exact eq_refl]) Hr).
  exists 1, Waits. split; [exact eq_refl|exact Hst].
Defined.

(** C40. As long as no signal ends a wait ([step] has no such waits), waiters are served
    in the order they came: [sem_p] without a unit to take, called with no signal that
    interrupts it pending, puts the caller to sleep at the end of the list, and [sem_v] takes the first one off the
    list, makes it runnable and changes no other process. *)
Theorem semaphore_fifo this initial bound s i : this ≠ nullptr → 0 ≤ initial < 2 ^ 31 → reachable this initial bound s →
  slot i → c_calls s !! i = None → in_range (c_sem s) →
  (value (c_sem s) ≤ 0 → should_interrupt_blocking_syscall (pcb (c_kernel s) i) = false →
   ∃ k m, sem_p (c_kernel s) (c_sem s) this i = Ret (k, m, true) ∧
     waiters m = waiters (c_sem s) ++ [i] ∧ _state (pcb k i) = SLEEPING) ∧
  (∀ w ws, waiters (c_sem s) = w :: ws →
   ∃ k m, sem_v (c_kernel s) (c_sem s) this i = Ret (k, m) ∧ waiters m = ws ∧
     _state (pcb (c_kernel s) w) = SLEEPING ∧ _state (pcb k w) = RUNNABLE ∧
     ∀ j, slot j → j ≠ w → pcb k j = pcb (c_kernel s) j).
Proof.
  intros Hthis Hin Hr Hi E Hrange. destruct (sem_reachable_inv this initial bound Hthis Hin s Hr) as [q Hs].
  pose proof (inv_ok _ _ s q Hs) as Hk. split.
  - intros Hv Hsig. destruct (inv_list _ _ s q Hs) as [El Et]. pose proof (inv_value _ _ s q Hs). pose proof (queue_length _ _ s q Hs).
    destruct (sem_p_blocks this Hthis (c_kernel s) (c_sem s) q i) as (k & b & -> & Ht);
      [done..|by apply (queue_room this initial s q i)|lia|done|].
    eexists _, _. split; [done|]. rewrite (inv_waiters _ _ s q Hs). split; [apply waiters_queue|].
    by rewrite (touch_self _ _ _ _ _ Hk Hi Ht).
  - intros w ws Hw. rewrite (inv_waiters _ _ s q Hs) in Hw. subst q.
    destruct (sem_try_v_spec this initial s _ i Hs Hi E Hrange) as (k & Ht & Ev).
    rewrite sem_v_try, Ev. cbn [obind]. eexists _, _. split; [done|]. split; [apply waiters_queue|].
    destruct (inv_waiting _ _ s _ Hs w) as (Ew & Hst & _); [apply elem_of_cons; by left|].
    pose proof (inv_slot _ _ s _ Hs _ _ Ew) as Hws. split_and!; [done| |].
    + by rewrite (touch_self _ _ _ _ _ Hk Hws Ht).
    + intros j Hj Hne. by apply (pcb_other _ _ _ _ _ j Hk Hws Hj Ht).
Qed.

Lemma semaphore_fifo_witness : ∃ k k' m, _state (pcb k 1) = SLEEPING ∧ sem_v k (c_sem (demo k)) 0x8000 0 = Ret (k', m) ∧
  waiters m = [] ∧ _state (pcb k' 1) = RUNNABLE.
Proof.
  destruct sem_demo_reachable as (k & Hr & [Hi _] & Hst). exists k.
  destruct (semaphore_fifo 0x8000 1 (-1) (demo k) 0 ltac:(discriminate) ltac:(split; [lia|exact eq_refl]) Hr Hi eq_refl)
    as [_ H]; [exact eq_refl|].
  destruct (H 1 [] eq_refl) as (k' & m & E & Hw & _ & Hrun & _). exists k', m. split; [exact Hst|]. split; [exact E|].
  split; [exact Hw|exact Hrun].
Defined.

(** ** Interrupted waits

    [sem_p] does not test after its sleep whether it got a unit.  A signal that wakes a
    waiter lets it pass: here the semaphore starts with one unit, process 0 takes it,
    process 1 waits, is interrupted by a signal and returns from [sem_p] without being
    killed while process 0 has not called [sem_v]; process 1 is still in the list, and
    the unit that process 0 gives back is spent on it. *)
Definition interrupted_wait : outcome (bool * bool * bool * list Z * Z) :=
  let! (k, m, blocked0) := sem_p demo_kernel (sem_init 1) 0x8000 0 in
  let! (k, m, blocked1) := sem_p k m 0x8000 1 in
  let! k := happens k 1 (Signal false (2 ^ 14) 0 ∅) in
  let! k := happens k 1 Interrupt in
  let! k := happens k 1 Schedule in
  let! k := sleep_exit k 1 in
  let! exits := sem_p_leave k 1 in
  let queue := waiters m in
  let! (k, m) := sem_v k m 0x8000 0 in
  Ret (blocked0, blocked1, exits, queue, value m).

Lemma interrupted_wait_enters : interrupted_wait = Ret (false, true, false, [1], 0).
Proof. vm_compute. reflexivity. Qed.

End SemaphoreCorrect.
