(* ===== verification/Futex.v ===== *)
(** * Futexes (kernel/proc/futex.cc, futex.hh; wakeup2 of proc_manager.cc)

    A waiter publishes the key of its futex in its process control block and its bit
    in the bucket of the key; a waker scans the bucket.  The bucket lock orders the
    two.  [futex_wait] gives up the process lock several times: it is modelled as the
    regions between, each a function to the point where the call stands next. *)
From S2P Require Import Prelude Sleep.
Import Sleep.

Module Futex.

(** ** Constants *)

Definition k_nsec_per_sec : Z := 1000000000.
Definition k_futex_key_invalid : Z := 0.
Definition k_futex_bucket_count : Z := 64.
Definition k_futex_word_count : Z := (num_process + 63) / 64.

Definition ESRCH : Z := -3.
Definition EINTR : Z := -4.
Definition EAGAIN : Z := -11.
Definition EFAULT : Z := -14.
Definition EINVAL : Z := -22.
Definition ENOSYS : Z := -38.
Definition ETIMEDOUT : Z := -110.

(** ** Keys *)

Inductive FutexKeyScope := Auto | Private.

#[export] Instance FutexKeyScope_eq_dec : EqDecision FutexKeyScope.
Proof. solve_decision. Defined.

Record FutexKey := mkKey { value : Z; private_mm : ptr; is_private : bool }.

#[export] Instance FutexKey_eq_dec : EqDecision FutexKey.
Proof. solve_decision. Defined.

Definition no_key : FutexKey := mkKey 0 nullptr false.
Definition valid (k : FutexKey) : bool := negb (value k =? k_futex_key_invalid).

Definition futex_keys_equal (lhs rhs : FutexKey) : bool :=
  if negb (value lhs =? value rhs) || negb (Bool.eqb (is_private lhs) (is_private rhs)) then false
  else negb (is_private lhs) || (private_mm lhs =? private_mm rhs).

Definition futex_bucket_index_for_key (key : FutexKey) : Z :=
  let hash := value key in
  let hash := if is_private key then Z.lxor hash (private_mm key) else hash in
  let hash := Z.lxor hash (Z.shiftr hash 17) in
  let hash := Z.lxor hash (Z.shiftr hash 31) in
  u32 (Z.land hash (k_futex_bucket_count - 1)).

(** What the futexes use of the address spaces: the translation of a user address of
    a memory manager, [nullptr] where no page is present, and whether the area that
    covers an address is a shared mapping. *)
Class AddressSpaces := {
  walk_addr : ptr → Z → Z;
  is_shared_mapping : ptr → Z → bool
}.

(** ** Times *)

Record timespec := mkTime { tv_sec : Z; tv_nsec : Z }.

(** The clocks at one moment: [clock_gettime] by whether the realtime clock is asked,
    [get_hw_time_stamp] and [clock_frequency_hz]. *)
Record Clock := mkClock { clock_gettime : bool → option timespec; hw_time_stamp : Z; clock_frequency_hz : Z }.

Definition futex_timespec_is_valid (ts : timespec) : bool :=
  (0 <=? tv_sec ts) && (0 <=? tv_nsec ts) && (tv_nsec ts <? k_nsec_per_sec).

Definition futex_timeout_to_cycles (clk : Clock) (ts : timespec) : option Z :=
  if negb (futex_timespec_is_valid ts) then None else
  let freq := clock_frequency_hz clk in
  let sec_cycles := u64 (tv_sec ts * freq) in
  let nsec_cycles := u64 (tv_nsec ts * freq) / k_nsec_per_sec in
  Some (u64 (sec_cycles + nsec_cycles)).

Definition compare_timespec (lhs rhs : timespec) : Z :=
  if negb (tv_sec lhs =? tv_sec rhs) then (if tv_sec lhs <? tv_sec rhs then -1 else 1)
  else if negb (tv_nsec lhs =? tv_nsec rhs) then (if tv_nsec lhs <? tv_nsec rhs then -1 else 1)
  else 0.

Definition futex_absolute_deadline_to_cycles (clk : Clock) (now target : timespec) : option Z :=
  if 0 <=? compare_timespec now target then None else
  let sec := tv_sec target - tv_sec now in
  let nsec := tv_nsec target - tv_nsec now in
  let remaining := if nsec <? 0 then mkTime (sec - 1) (nsec + k_nsec_per_sec) else mkTime sec nsec in
  match futex_timeout_to_cycles clk remaining with
  | None => None
  | Some timeout_cycles =>
      let timeout_cycles := if timeout_cycles =? 0 then 1 else timeout_cycles in
      let max_uint64 := 2 ^ 64 - 1 in
      Some (if max_uint64 - timeout_cycles <? hw_time_stamp clk then max_uint64
            else hw_time_stamp clk + timeout_cycles)
  end.

(** ** A waiter's entry *)

Definition futex_waiter_key_locked (p : Pcb) : FutexKey :=
  if _futex_key p =? k_futex_key_invalid then no_key
  else mkKey (_futex_key p) (if _futex_private p then memory_manager p else nullptr) (_futex_private p).

Definition futex_waiter_matches_key_locked (p : Pcb) (key : FutexKey) : bool :=
  futex_keys_equal (futex_waiter_key_locked p) key.

Definition clear_futex_waiter_key_locked (p : Pcb) : Pcb := with_deadline (with_futex p nullptr 0 false 0) 0.

Definition mark_futex_waiter_locked (k : Kernel) (bucket gid : Z) : outcome Kernel :=
  let! b := in_bucket (g_futex_buckets k) bucket (λ ws, set_slot ws gid) in Ret (with_buckets k b).
Definition clear_futex_waiter_locked (k : Kernel) (bucket gid : Z) : outcome Kernel :=
  let! b := in_bucket (g_futex_buckets k) bucket (λ ws, clear_slot ws gid) in Ret (with_buckets k b).

(** [futex_remove_waiter] reads the key with the process lock held, gives the lock up,
    and runs [remove_with_key] with the process lock and, for a valid key, the lock of
    its bucket. *)
Definition remove_with_key (k : Kernel) (gid : Z) (key : FutexKey) : outcome Kernel :=
  if negb (valid key) then
    let! k := upd_pcb k gid clear_futex_waiter_key_locked in
    unregister_wait_channel k gid
  else
    let! p := get_pcb k gid in
    if futex_waiter_matches_key_locked p key then
      let! k := clear_futex_waiter_locked k (futex_bucket_index_for_key key) gid in
      let! k := upd_pcb k gid clear_futex_waiter_key_locked in
      unregister_wait_channel k gid
    else Ret k.

Definition futex_remove_waiter (k : Kernel) (gid : Z) : outcome Kernel :=
  let! p := get_pcb k gid in
  remove_with_key k gid (futex_waiter_key_locked p).

(** The end of [interrupt_sleep_for_signal] and of [kill_proc], with the process lock
    that [remove_with_key] left held. *)
Definition wake_removed (k : Kernel) (gid : Z) : outcome Kernel :=
  let! p := get_pcb k gid in
  if bool_decide (_state p = SLEEPING) then put_pcb k gid (set_task_state p RUNNABLE) else Ret k.

Definition interrupt_sleep_for_signal (k : Kernel) (gid : Z) : outcome (Kernel * bool) :=
  let! p := get_pcb k gid in
  if negb (bool_decide (_state p = SLEEPING)) || negb (has_unmasked_signal_pending p) then Ret (k, false) else
  let! k := futex_remove_waiter k gid in
  let! p := get_pcb k gid in
  if negb (bool_decide (_state p = SLEEPING)) then Ret (k, false) else
  let! k := put_pcb k gid (set_task_state p RUNNABLE) in
  Ret (k, true).

(** ** [futex_check_timeouts] *)

(** The part for one candidate that runs with both locks held. *)
Definition expire_candidate (k : Kernel) (gid now_cycles candidate_key candidate_bucket_index : Z) : outcome Kernel :=
  let! p := get_pcb k gid in
  if (_futex_key p =? candidate_key) && (_futex_bucket_index p =? candidate_bucket_index)
     && negb (_futex_timeout_deadline p =? 0) && (_futex_timeout_deadline p <=? now_cycles)
     && bool_decide (_state p = SLEEPING) && (_chan p =? candidate_key) then
    let! k := clear_futex_waiter_locked k candidate_bucket_index gid in
    let! k := upd_pcb k gid (λ p, with_result (clear_futex_waiter_key_locked p) ETIMEDOUT) in
    let! k := unregister_wait_channel k gid in
    upd_pcb k gid (λ p, set_task_state p RUNNABLE)
  else Ret k.

Definition check_timeout (k : Kernel) (cur now_cycles global_id : Z) : outcome Kernel :=
  if global_id =? cur then Ret k else
  let! p := get_pcb k global_id in
  if (_futex_timeout_deadline p =? 0) || (now_cycles <? _futex_timeout_deadline p) then Ret k else
  if _futex_key p =? k_futex_key_invalid then Ret k else
  if k_futex_bucket_count <=? _futex_bucket_index p then Ret k else
  expire_candidate k global_id now_cycles (_futex_key p) (_futex_bucket_index p).

(** The position of the lowest bit that is set, by shifting the word. *)
Fixpoint probe_bit (fuel : nat) (bit_probe bit : Z) : outcome Z :=
  if Z.land bit_probe 1 =? 0 then
    match fuel with O => Stuck | S fuel' => probe_bit fuel' (Z.shiftr bit_probe 1) (bit + 1) end
  else Ret bit.

Fixpoint check_timeouts_word (fuel : nat) (k : Kernel) (cur now_cycles word_index candidates : Z) : outcome Kernel :=
  if candidates =? 0 then Ret k else
  match fuel with
  | O => Stuck
  | S fuel' =>
      let! bit := probe_bit 64 candidates 0 in
      let candidates := Z.land candidates (u64 (candidates - 1)) in
      let global_id := word_index * 64 + bit in
      if num_process <=? global_id then check_timeouts_word fuel' k cur now_cycles word_index candidates else
      let! k := check_timeout k cur now_cycles global_id in
      check_timeouts_word fuel' k cur now_cycles word_index candidates
  end.

(** [active] are the words of the slots in use, [cur] the interrupted process. *)
Definition futex_check_timeouts (k : Kernel) (active : list Z) (cur now_cycles : Z) : outcome Kernel :=
  for_up (λ word_index k,
    let! candidates := aget active word_index in
    check_timeouts_word 64 k cur now_cycles word_index candidates) 0 k_futex_word_count k.

(** ** [wakeup2] *)

(** The arguments of a wakeup once its keys are resolved. *)
Record WakeJob := mkJob {
  j_uaddr : Z; j_key : FutexKey; j_val : Z;
  j_uaddr2 : Z; j_key2 : FutexKey; j_val2 : Z;
  j_include : bool; j_expected : option Z
}.

Definition source_bucket_index (j : WakeJob) : Z := futex_bucket_index_for_key (j_key j).
Definition target_bucket_index (j : WakeJob) : Z :=
  if j_uaddr2 j =? nullptr then source_bucket_index j else futex_bucket_index_for_key (j_key2 j).

Definition can_requeue (j : WakeJob) : bool := negb (j_uaddr2 j =? nullptr) && (0 <? j_val2 j).

(** The guard at the head: there is nothing to do. *)
Definition wakeup2_void (j : WakeJob) : bool :=
  (j_val j <? 0) || (j_val2 j <? 0) || ((j_val j =? 0) && negb (can_requeue j)).

(** The waiter of one bit, with its process lock held: the two counts after it. *)
Definition wakeup2_turn (k : Kernel) (j : WakeJob) (gid count1 count2 : Z) : outcome (Kernel * Z * Z) :=
  let src := source_bucket_index j in
  let! p := get_pcb k gid in
  let observed_key := _futex_key p in
  let observed := mkKey observed_key (if _futex_private p then memory_manager p else nullptr) (_futex_private p) in
  let key_matches := valid observed && futex_keys_equal observed (j_key j) in
  let is_futex_waiter :=
    key_matches && (bool_decide (_state p = SLEEPING) || bool_decide (_state p = RUNNABLE)) in
  if negb key_matches then
    if observed_key =? 0 then
      let! k := clear_futex_waiter_locked k src gid in Ret (k, count1, count2)
    else Ret (k, count1, count2)
  else if is_futex_waiter then
    if count1 <? j_val j then
      let! k := clear_futex_waiter_locked k src gid in
      let p := if bool_decide (_state p = SLEEPING) then set_task_state p RUNNABLE else p in
      let! k := put_pcb k gid (with_result (with_deadline (with_futex p nullptr 0 false 0) 0) 0) in
      let! k := unregister_wait_channel k gid in
      Ret (k, count1 + 1, count2)
    else if bool_decide (_state p = SLEEPING) && can_requeue j && (count2 <? j_val2 j) then
      let! k := clear_futex_waiter_locked k src gid in
      let! k := mark_futex_waiter_locked k (target_bucket_index j) gid in
      let! k := unregister_wait_channel k gid in
      let! k := upd_pcb k gid (λ p, with_futex p (j_uaddr2 j) (value (j_key2 j)) (is_private (j_key2 j))
                                       (target_bucket_index j)) in
      let! k := register_wait_channel k gid (value (j_key2 j)) in
      Ret (k, count1, count2 + 1)
    else Ret (k, count1, count2)
  else Ret (k, count1, count2).

(** The position of the lowest bit that is set, by shifting the mask. *)
Fixpoint lowest_bit (fuel : nat) (bits bit : Z) : outcome Z :=
  if Z.land bits (u64 (Z.shiftl 1 bit)) =? 0 then
    match fuel with O => Stuck | S fuel' => lowest_bit fuel' bits (bit + 1) end
  else Ret bit.

(** The variables of the two loops. *)
Record Scan := mkScan { s_word : Z; s_bits : Z; s_count1 : Z; s_count2 : Z }.

Definition wakeup2_result (j : WakeJob) (count1 count2 : Z) : Z := count1 + (if j_include j then count2 else 0).

Definition load_word (k : Kernel) (j : WakeJob) (word_index count1 count2 : Z) : outcome Scan :=
  let! ws := aget (g_futex_buckets k) (source_bucket_index j) in
  let! bits := aget ws word_index in
  Ret (mkScan word_index bits count1 count2).

(** One iteration of the loops: the next word, the next waiter, or the end with the
    two counts. *)
Definition wakeup2_step (k : Kernel) (j : WakeJob) (s : Scan) : outcome (Kernel * (Scan + Z * Z)) :=
  let 'mkScan word_index bits count1 count2 := s in
  if bits =? 0 then
    if word_index + 1 <? k_futex_word_count then
      let! s := load_word k j (word_index + 1) count1 count2 in Ret (k, inl s)
    else Ret (k, inr (count1, count2))
  else
    let! bit := lowest_bit 64 bits 0 in
    let bits := Z.land bits (u64 (Z.lnot (u64 (Z.shiftl 1 bit)))) in
    let global_id := word_index * 64 + bit in
    if num_process <=? global_id then Ret (k, inl (mkScan word_index bits count1 count2)) else
    let! (k, count1, count2) := wakeup2_turn k j global_id count1 count2 in
    if (j_val j <=? count1) && (negb (can_requeue j) || (j_val2 j <=? count2)) then Ret (k, inr (count1, count2))
    else Ret (k, inl (mkScan word_index bits count1 count2)).

Fixpoint wakeup2_loop (fuel : nat) (k : Kernel) (j : WakeJob) (s : Scan) : outcome (Kernel * (Z * Z)) :=
  match fuel with
  | O => Stuck
  | S fuel' =>
      let! (k, r) := wakeup2_step k j s in
      match r with
      | inl s => wakeup2_loop fuel' k j s
      | inr c => Ret (k, c)
      end
  end.

(** At most an iteration per process and one per word. *)
Definition wakeup2_fuel : nat := 521.

Definition wakeup2 (k : Kernel) (j : WakeJob) : outcome (Kernel * Z) :=
  if wakeup2_void j then Ret (k, 0) else
  let! s := load_word k j 0 0 0 in
  let! (k, c) := wakeup2_loop wakeup2_fuel k j s in
  Ret (k, wakeup2_result j c.1 c.2).

Section with_address_spaces.
Context {AS : AddressSpaces}.

Definition resolve_futex_key (p : Pcb) (uaddr : Z) (key_scope : FutexKeyScope) : FutexKey :=
  let mm := memory_manager p in
  if uaddr =? 0 then no_key else
  let pa := walk_addr mm uaddr in
  if pa =? nullptr then no_key else
  let use_private_key :=
    bool_decide (key_scope = Private) || (mm =? nullptr) || negb (is_shared_mapping mm uaddr) in
  if use_private_key then (if mm =? nullptr then no_key else mkKey uaddr mm true)
  else mkKey pa nullptr false.

(** The 32-bit cells of physical memory by address, those not present zero. *)
Definition load_futex_value_nofault (mem : gmap Z Z) (p : Pcb) (uaddr : Z) : option Z :=
  if (uaddr =? 0) || negb (Z.land uaddr 3 =? 0) then None else
  let pa := walk_addr (memory_manager p) uaddr in
  if pa =? nullptr then None else Some (default 0 (mem !! pa)).

(** ** [futex_wait] *)

Record Wait := mkWait {
  w_uaddr : Z; w_val : Z; w_ts : option timespec;
  w_absolute : bool; w_realtime : bool; w_scope : FutexKeyScope
}.

(** What follows the removal of the waiter. *)
Inductive Next :=
  | Finish (r : Z)
  | Recheck (w : Wait) (deadline : Z).

(** Where a call stands.  A waiter: at the head of its loop; about to take the bucket
    lock; entered in the bucket and holding its lock; switched away in [sleep]; running
    again and about to take the bucket lock; about to remove itself; past its sleep.
    A waker: about to take a first and a second bucket lock; holding them; scanning. *)
Inductive Pc :=
  | Returned (r : Z)
  | Loop (w : Wait) (has_slept : bool) (deadline : Z)
  | WantBucket (w : Wait) (has_slept : bool) (deadline : Z) (candidate : FutexKey)
  | Published (w : Wait) (deadline : Z) (key : FutexKey)
  | Asleep (w : Wait) (deadline : Z) (key : FutexKey)
  | WantAgain (w : Wait) (deadline : Z) (key : FutexKey)
  | Clearing (key : FutexKey) (next : Next)
  | Awake (w : Wait) (deadline : Z)
  | WantFirst (j : WakeJob)
  | WantSecond (j : WakeJob)
  | Locked (j : WakeJob)
  | Scanning (j : WakeJob) (s : Scan).

Definition signal_pending (p : Pcb) : bool := has_fatal_signal_pending p || has_unmasked_signal_pending p.

(** [clear_wait_state]. *)
Definition begin_clear (k : Kernel) (gid : Z) (n : Next) : outcome (Kernel * Pc) :=
  let! p := get_pcb k gid in Ret (k, Clearing (futex_waiter_key_locked p) n).

Definition load_and_resolve (p : Pcb) (w : Wait) (loaded : option Z) : Z + FutexKey :=
  match loaded with
  | None => inl EFAULT
  | Some current_val =>
      if negb (current_val =? w_val w) then inl EAGAIN else
      let futex_key := resolve_futex_key p (w_uaddr w) (w_scope w) in
      if negb (valid futex_key) then inl EFAULT else inr futex_key
  end.

Definition load_error_result (has_slept : bool) (result : Z) : Z :=
  if (result =? EAGAIN) && has_slept then 0 else result.

(** From the entry to the loops. *)
Definition futex_wait_enter (k : Kernel) (gid : Z) (w : Wait) (clk : Clock) : outcome (Kernel * Pc) :=
  let! k := upd_pcb k gid (λ p, with_result (with_deadline p 0) 0) in
  match w_ts w with
  | None => Ret (k, Loop w false 0)
  | Some ts =>
      if negb (futex_timespec_is_valid ts) then Ret (k, Returned EINVAL) else
      if w_absolute w then
        match clock_gettime clk (w_realtime w) with
        | None => Ret (k, Returned EINVAL)
        | Some now_ts =>
            if 0 <=? compare_timespec now_ts ts then begin_clear k gid (Finish ETIMEDOUT) else
            match futex_absolute_deadline_to_cycles clk now_ts ts with
            | None => begin_clear k gid (Finish EINVAL)
            | Some deadline => Ret (k, Loop w false deadline)
            end
        end
      else
        match futex_timeout_to_cycles clk ts with
        | None => Ret (k, Returned EINVAL)
        | Some timeout_cycles =>
            if timeout_cycles =? 0 then begin_clear k gid (Finish ETIMEDOUT)
            else Ret (k, Loop w false (u64 (hw_time_stamp clk + timeout_cycles)))
        end
  end.

(** The tests at the head of the loop with a timeout: an error, or the deadline. *)
Definition timed_checks (p : Pcb) (w : Wait) (ts : timespec) (deadline : Z) (clk : Clock) : Z + Z :=
  if signal_pending p then inl EINTR
  else if w_absolute w then
    match clock_gettime clk (w_realtime w) with
    | None => inl EINVAL
    | Some now_ts =>
        if 0 <=? compare_timespec now_ts ts then inl ETIMEDOUT else
        match futex_absolute_deadline_to_cycles clk now_ts ts with
        | None => inl EINVAL
        | Some deadline => inr deadline
        end
    end
  else if deadline <=? hw_time_stamp clk then inl ETIMEDOUT
  else inr deadline.

(** The head of the loops, up to the release of the process lock in
    [acquire_futex_wait_interlock]; [loaded] is what [copy_in] read. *)
Definition futex_wait_loop (k : Kernel) (gid : Z) (w : Wait) (has_slept : bool) (deadline : Z) (clk : Clock)
    (loaded : option Z) : outcome (Kernel * Pc) :=
  let! p := get_pcb k gid in
  match (match w_ts w with None => inr deadline | Some ts => timed_checks p w ts deadline clk end) with
  | inl r => begin_clear k gid (Finish r)
  | inr deadline =>
      match load_and_resolve p w loaded with
      | inl load_ret => begin_clear k gid (Finish (load_error_result has_slept load_ret))
      | inr candidate_key => Ret (k, WantBucket w has_slept deadline candidate_key)
      end
  end.

(** With the bucket lock and the process lock: the second look at the value, and the
    first half of [futex_sleep_with_interlock], up to the release of the process lock. *)
Definition futex_wait_publish (mem : gmap Z Z) (k : Kernel) (gid : Z) (w : Wait) (has_slept : bool) (deadline : Z)
    (candidate_key : FutexKey) : outcome (Kernel * Pc) :=
  let! p := get_pcb k gid in
  match load_and_resolve p w (load_futex_value_nofault mem p (w_uaddr w)) with
  | inl load_ret => begin_clear k gid (Finish (load_error_result has_slept load_ret))
  | inr futex_key =>
      let bucket := futex_bucket_index_for_key candidate_key in
      if negb (futex_bucket_index_for_key futex_key =? bucket) then Ret (k, Loop w has_slept deadline) else
      let p := with_result (with_deadline p deadline) 0 in
      let p := with_futex p (w_uaddr w) (value futex_key) (is_private futex_key) (futex_bucket_index_for_key futex_key) in
      let! k := put_pcb k gid p in
      let! k := mark_futex_waiter_locked k bucket gid in
      Ret (k, Published w deadline futex_key)
  end.

(** [sleep] with the key as channel, up to the switch, and after it up to the release
    of the process lock. *)
Definition futex_wait_sleep (k : Kernel) (gid : Z) (w : Wait) (deadline : Z) (key : FutexKey) : outcome (Kernel * Pc) :=
  let! k := sleep_enter k gid (value key) in Ret (k, Asleep w deadline key).
Definition futex_wait_resume (k : Kernel) (gid : Z) (w : Wait) (deadline : Z) (key : FutexKey) : outcome (Kernel * Pc) :=
  let! k := sleep_exit k gid in Ret (k, WantAgain w deadline key).

(** The end of [futex_sleep_with_interlock]. *)
Definition futex_wait_again (k : Kernel) (gid : Z) (w : Wait) (deadline : Z) : outcome (Kernel * Pc) :=
  let! p := get_pcb k gid in
  if signal_pending p then begin_clear k gid (Recheck w deadline) else Ret (k, Awake w deadline).

Definition futex_wait_clear (k : Kernel) (gid : Z) (key : FutexKey) (n : Next) : outcome (Kernel * Pc) :=
  let! k := remove_with_key k gid key in
  Ret (k, match n with Finish r => Returned r | Recheck w deadline => Awake w deadline end).

(** After [futex_sleep_with_interlock]. *)
Definition futex_wait_awake (k : Kernel) (gid : Z) (w : Wait) (deadline : Z) (clk : Clock) : outcome (Kernel * Pc) :=
  let! p := get_pcb k gid in
  if _futex_key p =? 0 then
    if signal_pending p then Ret (k, Returned EINTR) else
    match w_ts w with
    | Some ts =>
        if _futex_wait_result p =? ETIMEDOUT then
          let timed_out :=
            let! k := put_pcb k gid (with_deadline p 0) in Ret (k, Returned ETIMEDOUT) in
          if w_absolute w then
            match clock_gettime clk (w_realtime w) with
            | None => Ret (k, Returned EINVAL)
            | Some now_ts =>
                if compare_timespec now_ts ts <? 0 then
                  let! k := put_pcb k gid (with_result p 0) in Ret (k, Loop w true deadline)
                else timed_out
            end
          else timed_out
        else Ret (k, Returned 0)
    | None => Ret (k, Returned 0)
    end
  else Ret (k, Loop w true deadline).

(** ** [futex_wakeup] *)

(** The arguments up to the keys: an error, or the job. *)
Definition futex_wakeup_keys (cur : Pcb) (uaddr val uaddr2 val2 : Z) (key_scope : FutexKeyScope)
    (include_requeued : bool) (expected : option Z) : Z + WakeJob :=
  if val <? 0 then inl EINVAL else
  if negb (uaddr2 =? nullptr) && (val2 <? 0) then inl EINVAL else
  if uaddr =? 0 then inl EFAULT else
  let futex_key := resolve_futex_key cur uaddr key_scope in
  if negb (valid futex_key) then inl EFAULT else
  if uaddr2 =? nullptr then inr (mkJob uaddr futex_key val uaddr2 no_key val2 include_requeued expected) else
  let futex_key2 := resolve_futex_key cur uaddr2 key_scope in
  if negb (valid futex_key2) then inl EFAULT else
  inr (mkJob uaddr futex_key val uaddr2 futex_key2 val2 include_requeued expected).

(** The bucket locks in the order they are taken. *)
Definition first_bucket (j : WakeJob) : Z := Z.min (source_bucket_index j) (target_bucket_index j).
Definition second_bucket (j : WakeJob) : option Z :=
  if target_bucket_index j =? source_bucket_index j then None
  else Some (Z.max (source_bucket_index j) (target_bucket_index j)).

(** The comparison of [CMP_REQUEUE], with the bucket locks held. *)
Definition check_expected (mem : gmap Z Z) (cur : Pcb) (j : WakeJob) : option Z :=
  match j_expected j with
  | None => None
  | Some v =>
      match load_futex_value_nofault mem cur (j_uaddr j) with
      | None => Some EFAULT
      | Some observed_value => if negb (observed_value =? v) then Some EAGAIN else None
      end
  end.

(** The end: [woken] is not negative. *)
Definition wakeup_return (woken : Z) : Z := if 0 <=? woken then woken else ESRCH.

(** The whole call, when no other process takes a turn during it. *)
Definition futex_wakeup (mem : gmap Z Z) (k : Kernel) (cur uaddr val uaddr2 val2 : Z) (key_scope : FutexKeyScope)
    (include_requeued : bool) (expected : option Z) : outcome (Kernel * Z) :=
  let! p := get_pcb k cur in
  match futex_wakeup_keys p uaddr val uaddr2 val2 key_scope include_requeued expected with
  | inl e => Ret (k, e)
  | inr j =>
      match check_expected mem p j with
      | Some e => Ret (k, e)
      | None => let! (k, woken) := wakeup2 k j in Ret (k, wakeup_return woken)
      end
  end.

End with_address_spaces.
End Futex.
