(* ===== verification/FutexSystem.v ===== *)
(** * Processes using futexes

    Every process of the pool may be in a futex call; the regions of the calls run in
    any order, each with the process lock it needs and, where it needs one, the lock of
    a bucket no other call holds.  In between user programs store to memory, signals
    arrive, the timer expires waits, signal senders remove waiters, channels are woken
    and the scheduler runs and preempts processes. *)
From S2P Require Import Prelude Sleep SleepRep Futex.
Import Sleep SleepRep Futex.

Module FutexSystem.

Section with_address_spaces.
Context {AS : AddressSpaces}.

(** ** Configurations *)

(** A store to a cell; a waiter moved to a key by a requeue; a scan of all waiters of
    a key that ran to its end; a process that entered its key in a bucket; a process
    whose entry was damaged, see [mixed] and [removal]. *)
Inductive Event :=
  | Stored (a : Z)
  | Moved (key : FutexKey)
  | Settled (key : FutexKey)
  | Entered (i : Z)
  | Strayed (i : Z).

(** The last event first. *)
Record Config := mkConfig {
  c_kernel : Kernel;
  c_mem : gmap Z Z;
  c_calls : gmap Z Pc;
  c_log : list Event
}.

(** The cell the value of a futex is in. *)
Definition cell (key : FutexKey) : Z :=
  if is_private key then walk_addr (private_mm key) (value key) else value key.

(** Since the last scan of all waiters of [key] its cell was stored to, or a waiter
    was moved to it. *)
Fixpoint unsettled (key : FutexKey) (log : list Event) : bool :=
  match log with
  | [] => false
  | Stored a :: log => (a =? cell key) || unsettled key log
  | Moved k :: log => bool_decide (k = key) || unsettled key log
  | Settled k :: log => negb (bool_decide (k = key)) && unsettled key log
  | _ :: log => unsettled key log
  end.

(** The entry of process [i] was damaged since the process made it. *)
Fixpoint stray (i : Z) (log : list Event) : bool :=
  match log with
  | [] => false
  | Strayed i' :: log => (i' =? i) || stray i log
  | Entered i' :: log => negb (i' =? i) && stray i log
  | _ :: log => stray i log
  end.

(** ** Bucket locks *)

Definition buckets_of (j : WakeJob) : list Z := first_bucket j :: option_list (second_bucket j).

(** The bucket locks a call holds where it stands. *)
Definition holds (c : Pc) : list Z :=
  match c with
  | Published _ _ key => [futex_bucket_index_for_key key]
  | WantSecond j => [first_bucket j]
  | Locked j | Scanning j _ => buckets_of j
  | _ => []
  end.

(** The bucket lock the next region takes. *)
Definition needs (c : Pc) : option Z :=
  match c with
  | WantBucket _ _ _ candidate => Some (futex_bucket_index_for_key candidate)
  | WantAgain _ _ key => Some (futex_bucket_index_for_key key)
  | Clearing key _ => if valid key then Some (futex_bucket_index_for_key key) else None
  | WantFirst j => Some (first_bucket j)
  | WantSecond j => second_bucket j
  | _ => None
  end.

Definition free (s : Config) (b : Z) : Prop := ∀ i c, c_calls s !! i = Some c → b ∉ holds c.

(** ** Regions *)

(** A wakeup that returns these counts looked at all waiters of its key. *)
Definition complete (j : WakeJob) (count1 count2 : Z) : bool :=
  ((count1 <? j_val j) || (can_requeue j && (count2 <? j_val2 j)))
  && negb (can_requeue j && bool_decide (j_key2 j = j_key j)).

(** A requeue from a shared to a private futex, of a process of another address space
    than that of the caller: it enters the process in the bucket of a key the process
    does not have, see [requeue_loses_waiter]. *)
Definition mixed (j : WakeJob) (p : Pcb) : bool :=
  negb (is_private (j_key j)) && is_private (j_key2 j) && negb (memory_manager p =? private_mm (j_key2 j)).

(** Process [t] of [k] is moved. *)
Definition moves (k : Kernel) (j : WakeJob) (t : Z) : list Event :=
  Moved (j_key2 j) :: (if mixed j (pcb k t) then [Strayed t] else []).

Definition scan_step (k : Kernel) (j : WakeJob) (s : Scan) : outcome (Kernel * Pc * list Event) :=
  let! (k', r) := wakeup2_step k j s in
  let moved count2 :=
    if s_count2 s <? count2 then moves k j (s_word s * 64 + active_slot_bit_index (s_bits s)) else [] in
  match r with
  | inl s' => Ret (k', Scanning j s', moved (s_count2 s'))
  | inr (count1, count2) =>
      Ret (k', Returned (wakeup_return (wakeup2_result j count1 count2)),
           (if complete j count1 count2 then [Settled (j_key j)] else []) ++ moved count2)
  end.

Definition quiet (m : outcome (Kernel * Pc)) : outcome (Kernel * Pc * list Event) :=
  let! (k, c) := m in Ret (k, c, []).

Definition enters (gid : Z) (m : outcome (Kernel * Pc)) : outcome (Kernel * Pc * list Event) :=
  let! (k, c) := m in Ret (k, c, match c with Published _ _ _ => [Entered gid] | _ => [] end).

(** The region at [c]: [clk] the clocks, [loaded] what [copy_in] reads. *)
Definition region (mem : gmap Z Z) (k : Kernel) (gid : Z) (c : Pc) (clk : Clock) (loaded : option Z)
    : outcome (Kernel * Pc * list Event) :=
  match c with
  | Returned r => Ret (k, Returned r, [])
  | Loop w has_slept deadline => quiet (futex_wait_loop k gid w has_slept deadline clk loaded)
  | WantBucket w has_slept deadline candidate => enters gid (futex_wait_publish mem k gid w has_slept deadline candidate)
  | Published w deadline key => quiet (futex_wait_sleep k gid w deadline key)
  | Asleep w deadline key => quiet (futex_wait_resume k gid w deadline key)
  | WantAgain w deadline key => quiet (futex_wait_again k gid w deadline)
  | Clearing key next => quiet (futex_wait_clear k gid key next)
  | Awake w deadline => quiet (futex_wait_awake k gid w deadline clk)
  | WantFirst j =>
      Ret (k, match second_bucket j with Some _ => WantSecond j | None => Locked j end, [])
  | WantSecond j => Ret (k, Locked j, [])
  | Locked j =>
      let! p := get_pcb k gid in
      match check_expected mem p j with
      | Some e => Ret (k, Returned e, [])
      | None =>
          if wakeup2_void j then Ret (k, Returned (wakeup_return 0), []) else
          let! s := load_word k j 0 0 0 in Ret (k, Scanning j s, [])
      end
  | Scanning j s => scan_step k j s
  end.

(** ** Steps *)

Definition idle (s : Config) (i : Z) : Prop :=
  match c_calls s !! i with None | Some (Returned _) => True | _ => False end.

Definition runs (s : Config) (i : Z) : Prop := slot i ∧ _state (pcb (c_kernel s) i) = RUNNING.

Definition canonical (key : FutexKey) : Prop := is_private key = false → private_mm key = nullptr.

(** [futex_remove_waiter] that found no key clears the one the process may have published
    since, and leaves the bit of the process in the bucket: see [removal_race]. *)
Definition removal (s : Config) (i : Z) (key : FutexKey) : list Event :=
  match c_calls s !! i with
  | Some (Published _ _ _) => if valid key then [] else [Strayed i]
  | _ => []
  end.

Definition with_kernel (s : Config) (k : Kernel) : Config := mkConfig k (c_mem s) (c_calls s) (c_log s).

Inductive step (s : Config) : Config → Prop :=
  | step_wait i w clk k c :
      runs s i → idle s i → futex_wait_enter (c_kernel s) i w clk = Ret (k, c) →
      step s (mkConfig k (c_mem s) (<[i := c]> (c_calls s)) (c_log s))
  | step_wake i uaddr val uaddr2 val2 scope incl expected :
      runs s i → idle s i →
      step s (mkConfig (c_kernel s) (c_mem s)
        (<[i := match futex_wakeup_keys (pcb (c_kernel s) i) uaddr val uaddr2 val2 scope incl expected with
                | inl e => Returned e | inr j => WantFirst j end]> (c_calls s)) (c_log s))
  | step_region i c clk loaded k c' ev :
      runs s i → c_calls s !! i = Some c → (∀ b, needs c = Some b → free s b) →
      region (c_mem s) (c_kernel s) i c clk loaded = Ret (k, c', ev) →
      step s (mkConfig k (c_mem s) (<[i := c']> (c_calls s)) (ev ++ c_log s))
  | step_store a v :
      step s (mkConfig (c_kernel s) (<[a := v]> (c_mem s)) (c_calls s) (Stored a :: c_log s))
  | step_signal i killed signal sigmask acts k :
      slot i → upd_pcb (c_kernel s) i (λ p, with_signals p killed signal sigmask acts) = Ret k →
      step s (with_kernel s k)
  | step_schedule i k :
      slot i → _state (pcb (c_kernel s) i) = RUNNABLE →
      upd_pcb (c_kernel s) i (λ p, set_task_state p RUNNING) = Ret k → step s (with_kernel s k)
  | step_preempt i k :
      runs s i → (∀ c, c_calls s !! i = Some c → holds c = []) →
      upd_pcb (c_kernel s) i (λ p, set_task_state p RUNNABLE) = Ret k → step s (with_kernel s k)
  | step_sleep i chan k :
      runs s i → idle s i → chan ≠ nullptr → sleep_enter (c_kernel s) i chan = Ret k → step s (with_kernel s k)
  | step_slept i k :
      runs s i → idle s i → sleep_exit (c_kernel s) i = Ret k → step s (with_kernel s k)
  | step_wakeup i chan k :
      slot i → chan ≠ nullptr → wakeup_candidate (c_kernel s) i chan = Ret k → step s (with_kernel s k)
  | step_expire i now key bucket k :
      slot i → free s bucket → key ≠ k_futex_key_invalid → SleepRep.bucket bucket →
      expire_candidate (c_kernel s) i now key bucket = Ret k → step s (with_kernel s k)
  | step_remove i key k :
      slot i → canonical key → (valid key = true → free s (futex_bucket_index_for_key key)) →
      (let! k := remove_with_key (c_kernel s) i key in wake_removed k i) = Ret k →
      step s (mkConfig k (c_mem s) (c_calls s) (removal s i key ++ c_log s)).

(** No process waits for a futex. *)
Definition quiescent (k : Kernel) : Prop :=
  Ok k ∧ (∀ i, slot i → _futex_key (pcb k i) = k_futex_key_invalid).

Inductive reachable : Config → Prop :=
  | reachable_initial k mem : quiescent k → reachable (mkConfig k mem ∅ [])
  | reachable_step s s' : reachable s → step s s' → reachable s'.

End with_address_spaces.
End FutexSystem.
