(* ===== verification/FutexOps.v ===== *)
(** * What the regions of the futex calls do to a process and to the buckets *)
From S2P Require Import Prelude Sleep SleepRep SleepOps Futex FutexSystem.
Import Sleep SleepRep SleepOps Futex FutexSystem.

Module FutexOps.

(** ** Keys *)

Lemma futex_bucket_range key : bucket (futex_bucket_index_for_key key).
Proof.
  unfold futex_bucket_index_for_key, k_futex_bucket_count. change (64 - 1) with (Z.ones 6).
  rewrite Z.land_ones by lia. match goal with |- bucket (u32 (?x mod _)) => pose proof (Z.mod_pos_bound x (2 ^ 6) ltac:(lia)) end.
  rewrite u32_small by lia. unfold bucket. lia.
Qed.

#[export] Hint Resolve futex_bucket_range : kernel.

Lemma waiter_key_canonical p : canonical (futex_waiter_key_locked p).
Proof. unfold futex_waiter_key_locked, canonical. case_test; [done|]. cbn. by intros ->. Qed.

Lemma waiter_key_valid p : valid (futex_waiter_key_locked p) = negb (_futex_key p =? 0).
Proof. unfold futex_waiter_key_locked, valid, k_futex_key_invalid. destruct (Z.eqb_spec (_futex_key p) 0) as [E|E]; cbn; [done|]. by rewrite (proj2 (Z.eqb_neq _ _) E). Qed.

Lemma waiter_key_none p : futex_waiter_key_locked p = no_key ↔ _futex_key p = 0.
Proof.
  unfold futex_waiter_key_locked, k_futex_key_invalid. destruct (Z.eqb_spec (_futex_key p) 0) as [E|E]; [done|].
  split; [|done]. intros H. apply (f_equal value) in H. by cbn in H.
Qed.

Lemma keys_equal_iff k1 k2 : canonical k1 → canonical k2 → futex_keys_equal k1 k2 = true ↔ k1 = k2.
Proof.
  unfold canonical. destruct k1 as [v1 m1 [|]], k2 as [v2 m2 [|]]; cbn; intros H1 H2; unfold futex_keys_equal; cbn.
  - destruct (Z.eqb_spec v1 v2), (Z.eqb_spec m1 m2); cbn; naive_solver.
  - destruct (Z.eqb_spec v1 v2); cbn; naive_solver.
  - destruct (Z.eqb_spec v1 v2); cbn; naive_solver.
  - rewrite H1, H2 by done. destruct (Z.eqb_spec v1 v2); cbn; naive_solver.
Qed.

Lemma matches_iff p key : canonical key → futex_waiter_matches_key_locked p key = true ↔ futex_waiter_key_locked p = key.
Proof. intros. apply keys_equal_iff; [apply waiter_key_canonical|done]. Qed.

(** ** Buckets *)

(** The bitmaps [bs] differ from those of [k] at process [i] only. *)
Definition bits_of (k : Kernel) (i : Z) (bs : list (list Z)) : Prop :=
  map_ok bs ∧ ∀ b j, bucket b → slot j → j ≠ i → member bs b j = waits k b j.

Lemma bits_of_refl k i : Ok k → bits_of k i (g_futex_buckets k).
Proof. intros Hk. split; [apply Hk|done]. Qed.

Lemma with_buckets_touch k i bs : Ok k → slot i → map_ok bs → Touch k i (pcb k i) bs (with_buckets k bs).
Proof.
  intros Hk Hi Hbs. split; [|apply (touch_refl k i Hk Hi)|done].
  destruct Hk as [Hl Hc _ Hch]. by split.
Qed.

Lemma mark_futex_spec k b i : Ok k → slot i → bucket b →
  ∃ bs k', mark_futex_waiter_locked k b i = Ret k' ∧ Touch k i (pcb k i) bs k' ∧ bits_of k i bs ∧
    ∀ b', bucket b' → member bs b' i = bool_decide (b' = b) || waits k b' i.
Proof.
  intros Hk Hi Hb. unfold mark_futex_waiter_locked.
  destruct (mark_spec _ b i (ok_buckets k Hk) Hb Hi) as (bs & -> & Hbs & Hm). cbn [obind].
  exists bs, (with_buckets k bs). split; [done|]. split; [by apply with_buckets_touch|]. split; [split; [done|]|].
  - intros b' j Hb' Hj Hne. rewrite Hm by done. by rewrite bool_decide_eq_false_2 by tauto.
  - intros b' Hb'. rewrite Hm by done. f_equal. apply bool_decide_ext. tauto.
Qed.

Lemma clear_futex_spec k b i : Ok k → slot i → bucket b →
  ∃ bs k', clear_futex_waiter_locked k b i = Ret k' ∧ Touch k i (pcb k i) bs k' ∧ bits_of k i bs ∧
    ∀ b', bucket b' → member bs b' i = negb (bool_decide (b' = b)) && waits k b' i.
Proof.
  intros Hk Hi Hb. unfold clear_futex_waiter_locked.
  destruct (unmark_spec _ b i (ok_buckets k Hk) Hb Hi) as (bs & -> & Hbs & Hm). cbn [obind].
  exists bs, (with_buckets k bs). split; [done|]. split; [by apply with_buckets_touch|]. split; [split; [done|]|].
  - intros b' j Hb' Hj Hne. rewrite Hm by done. by rewrite bool_decide_eq_false_2 by tauto.
  - intros b' Hb'. rewrite Hm by done. do 2 f_equal. apply bool_decide_ext. tauto.
Qed.

(** ** Chains of operations on one process *)

Lemma then_put k i p bs k1 p' : Ok k → slot i → Touch k i p bs k1 → same_channel p p' →
  ∃ k', put_pcb k1 i p' = Ret k' ∧ Touch k i p' bs k'.
Proof.
  intros Hk Hi Ht Hs. destruct (put_pcb_spec k1 i p') as (k' & -> & Ht'); [apply Ht|done| |].
  { by rewrite (touch_self _ _ _ _ _ Hk Hi Ht). }
  eexists. split; [done|]. rewrite (touch_buckets _ _ _ _ _ Ht) in Ht'. by eapply touch_trans.
Qed.

Lemma then_upd k i p bs k1 f : Ok k → slot i → Touch k i p bs k1 → same_channel p (f p) →
  ∃ k', upd_pcb k1 i f = Ret k' ∧ Touch k i (f p) bs k'.
Proof.
  intros Hk Hi Ht Hs. unfold upd_pcb. rewrite get_pcb_spec by (apply Ht || done). cbn [obind].
  rewrite (touch_self _ _ _ _ _ Hk Hi Ht). by apply (then_put k i p).
Qed.

Definition unlisted (p : Pcb) : Pcb := with_channel p nullptr (_wait_channel_bucket p) false.

Lemma then_unregister k i p bs k1 : Ok k → slot i → Touch k i p bs k1 →
  ∃ k', unregister_wait_channel k1 i = Ret k' ∧ Touch k i (unlisted p) bs k'.
Proof.
  intros Hk Hi Ht. destruct (unregister_spec k1 i) as (k' & -> & Ht'); [apply Ht|done|].
  eexists. split; [done|]. rewrite (touch_buckets _ _ _ _ _ Ht), (touch_self _ _ _ _ _ Hk Hi Ht) in Ht'.
  by eapply touch_trans.
Qed.

Lemma then_register k i p bs k1 chan : Ok k → slot i → chan ≠ nullptr → Touch k i p bs k1 →
  ∃ k' b, register_wait_channel k1 i chan = Ret k' ∧ Touch k i (with_channel p chan b true) bs k'.
Proof.
  intros Hk Hi Hc Ht. destruct (register_spec k1 i chan) as (k' & b & -> & Ht'); [apply Ht|done|done|].
  exists k', b. split; [done|]. rewrite (touch_buckets _ _ _ _ _ Ht), (touch_self _ _ _ _ _ Hk Hi Ht) in Ht'.
  by eapply touch_trans.
Qed.

Lemma bits_of_then k i p bs k1 bs' : Ok k → slot i → Touch k i p bs k1 → bits_of k i bs → bits_of k1 i bs' → bits_of k i bs'.
Proof.
  intros Hk Hi Ht [_ H] [Hok H']. split; [done|]. intros b j Hb Hj Hne. rewrite H' by done.
  unfold waits. rewrite (touch_buckets _ _ _ _ _ Ht). by apply H.
Qed.

(** ** Removal *)

(** The process [i] as [remove_with_key] leaves it. *)
Definition removed (p : Pcb) : Pcb := unlisted (clear_futex_waiter_key_locked p).

Lemma remove_spec k i key : Ok k → slot i → canonical key →
  ∃ bs k', remove_with_key k i key = Ret k' ∧ bits_of k i bs ∧
    Touch k i (if negb (valid key) || bool_decide (futex_waiter_key_locked (pcb k i) = key)
               then removed (pcb k i) else pcb k i) bs k' ∧
    (futex_waiter_key_locked (pcb k i) ≠ key → bs = g_futex_buckets k).
Proof.
  intros Hk Hi Hkey. unfold remove_with_key. destruct (valid key) eqn:Hv; cbn [negb orb].
  - rewrite get_pcb_spec by done. cbn [obind].
    destruct (bool_decide_reflect (futex_waiter_key_locked (pcb k i) = key)) as [E|E].
    + rewrite (proj2 (matches_iff _ _ Hkey) E).
      destruct (clear_futex_spec k (futex_bucket_index_for_key key) i) as (bs & k1 & -> & Ht1 & Hbs & _); [done|done|auto with kernel|].
      cbn [obind]. destruct (then_upd k i _ bs k1 clear_futex_waiter_key_locked Hk Hi Ht1) as (k2 & -> & Ht2); [done|]. cbn [obind].
      destruct (then_unregister k i _ bs k2 Hk Hi Ht2) as (k3 & -> & Ht3). by exists bs, k3.
    + destruct (futex_waiter_matches_key_locked _ _) eqn:Em; [apply matches_iff in Em; done|].
      exists (g_futex_buckets k), k. split_and!; [done|by apply bits_of_refl|by apply touch_refl|done].
  - pose proof (touch_refl k i Hk Hi) as Ht.
    destruct (then_upd k i _ _ k clear_futex_waiter_key_locked Hk Hi Ht) as (k2 & -> & Ht2); [done|]. cbn [obind].
    destruct (then_unregister k i _ _ k2 Hk Hi Ht2) as (k3 & -> & Ht3).
    exists (g_futex_buckets k), k3. split_and!; [done|by apply bits_of_refl|done|done].
Qed.

Lemma wake_removed_spec k i p bs k1 : Ok k → slot i → Touch k i p bs k1 →
  ∃ k', wake_removed k1 i = Ret k' ∧
    Touch k i (if bool_decide (_state p = SLEEPING) then set_task_state p RUNNABLE else p) bs k'.
Proof.
  intros Hk Hi Ht. unfold wake_removed. rewrite get_pcb_spec by (apply Ht || done). cbn [obind].
  rewrite (touch_self _ _ _ _ _ Hk Hi Ht). case_test; [by apply (then_put k i p)|by exists k1].
Qed.

(** ** Expiry *)

Definition expires (p : Pcb) (now key b : Z) : Prop :=
  _futex_key p = key ∧ _futex_bucket_index p = b ∧ _futex_timeout_deadline p ≠ 0 ∧
  _futex_timeout_deadline p ≤ now ∧ _state p = SLEEPING ∧ _chan p = key.

Lemma expire_spec k i now key b : Ok k → slot i → bucket b →
  ∃ bs k', expire_candidate k i now key b = Ret k' ∧ bits_of k i bs ∧
    (expires (pcb k i) now key b ∧
       Touch k i (set_task_state (unlisted (with_result (clear_futex_waiter_key_locked (pcb k i)) ETIMEDOUT)) RUNNABLE) bs k' ∨
     ¬ expires (pcb k i) now key b ∧ k' = k ∧ bs = g_futex_buckets k).
Proof.
  intros Hk Hi Hb. unfold expire_candidate. rewrite get_pcb_spec by done. cbn [obind].
  match goal with |- context [if ?c then _ else _] => destruct c eqn:E end.
  - bool_facts. destruct (clear_futex_spec k b i Hk Hi Hb) as (bs & k1 & -> & Ht1 & Hbs & _). cbn [obind].
    destruct (then_upd k i _ bs k1 (λ p, with_result (clear_futex_waiter_key_locked p) ETIMEDOUT) Hk Hi Ht1) as (k2 & -> & Ht2); [done|]. cbn [obind].
    destruct (then_unregister k i _ bs k2 Hk Hi Ht2) as (k3 & -> & Ht3). cbn [obind].
    destruct (then_upd k i _ bs k3 (λ p, set_task_state p RUNNABLE) Hk Hi Ht3) as (k4 & -> & Ht4); [done|].
    exists bs, k4. split_and!; [done|done|]. left. split; [unfold expires; split_and!; done|done].
  - exists (g_futex_buckets k), k. split_and!; [done|by apply bits_of_refl|]. right. split; [|done].
    intros (E1 & E2 & E3 & E4 & E5 & E6). subst key b. rewrite !Z.eqb_refl, E6, Z.eqb_refl, bool_decide_eq_true_2 in E by done.
    rewrite (proj2 (Z.eqb_neq _ _) E3), (proj2 (Z.leb_le _ _) E4) in E. done.
Qed.

(** ** A turn of [wakeup2] *)

(** What a turn makes of a waiter of the key. *)
Definition released (p : Pcb) : Pcb :=
  set_task_state (unlisted (with_result (clear_futex_waiter_key_locked p) 0)) RUNNABLE.
Definition requeued (j : WakeJob) (b : Z) (p : Pcb) : Pcb :=
  with_channel (with_futex p (j_uaddr2 j) (value (j_key2 j)) (is_private (j_key2 j)) (target_bucket_index j))
    (value (j_key2 j)) b true.

Inductive Turn (k : Kernel) (j : WakeJob) (i count1 count2 : Z) : Pcb → list (list Z) → Z → Z → Prop :=
  | turn_none bs :
      ((futex_waiter_key_locked (pcb k i) ≠ j_key j) ∨
       (_state (pcb k i) ≠ SLEEPING ∧ _state (pcb k i) ≠ RUNNABLE) ∨
       (j_val j ≤ count1 ∧ (_state (pcb k i) = SLEEPING → can_requeue j = true → j_val2 j ≤ count2))) →
      (_futex_key (pcb k i) ≠ 0 → bs = g_futex_buckets k) →
      Turn k j i count1 count2 (pcb k i) bs count1 count2
  | turn_wake bs :
      futex_waiter_key_locked (pcb k i) = j_key j →
      _state (pcb k i) = SLEEPING ∨ _state (pcb k i) = RUNNABLE → count1 < j_val j →
      Turn k j i count1 count2 (released (pcb k i)) bs (count1 + 1) count2
  | turn_requeue bs b :
      futex_waiter_key_locked (pcb k i) = j_key j → _state (pcb k i) = SLEEPING → j_val j ≤ count1 →
      can_requeue j = true → count2 < j_val2 j → member bs (target_bucket_index j) i = true →
      Turn k j i count1 count2 (requeued j b (pcb k i)) bs count1 (count2 + 1).

(** The keys of a job come from [resolve_futex_key]. *)
Record JobOk (j : WakeJob) : Prop := {
  job_key : canonical (j_key j) ∧ valid (j_key j) = true;
  job_key2 : j_uaddr2 j ≠ nullptr → canonical (j_key2 j) ∧ valid (j_key2 j) = true;
  job_mm : is_private (j_key j) = true → is_private (j_key2 j) = true → private_mm (j_key2 j) = private_mm (j_key j)
}.

Lemma target_range j : bucket (target_bucket_index j).
Proof. unfold target_bucket_index, source_bucket_index. case_test; apply futex_bucket_range. Qed.

Lemma observed_matches p j : JobOk j →
  let observed := mkKey (_futex_key p) (if _futex_private p then memory_manager p else nullptr) (_futex_private p) in
  valid observed && futex_keys_equal observed (j_key j) = bool_decide (futex_waiter_key_locked p = j_key j).
Proof.
  intros [[Hc Hv] _ _] observed. unfold futex_waiter_key_locked, k_futex_key_invalid.
  unfold valid, k_futex_key_invalid at 1. cbn. destruct (Z.eqb_spec (_futex_key p) 0) as [E|E]; cbn.
  - rewrite bool_decide_eq_false_2; [done|]. intros E'. by rewrite <- E' in Hv.
  - apply Bool.eq_iff_eq_true. rewrite bool_decide_eq_true. apply keys_equal_iff; [|done].
    unfold canonical. cbn. by intros ->.
Qed.

Lemma turn_spec k j i count1 count2 : Ok k → slot i → JobOk j →
  ∃ k' p bs c1 c2, wakeup2_turn k j i count1 count2 = Ret (k', c1, c2) ∧ bits_of k i bs ∧
    Touch k i p bs k' ∧ Turn k j i count1 count2 p bs c1 c2.
Proof.
  intros Hk Hi Hj. unfold wakeup2_turn. rewrite get_pcb_spec by done. cbn [obind].
  rewrite (observed_matches (pcb k i) j Hj).
  assert (bucket (source_bucket_index j)) as Hsrc by apply futex_bucket_range.
  pose proof (touch_refl k i Hk Hi) as Hrefl. pose proof (bits_of_refl k i Hk) as Hbrefl.
  destruct (bool_decide_reflect (futex_waiter_key_locked (pcb k i) = j_key j)) as [Ekey|Ekey]; cbn [negb andb].
  2: { case_test.
    - destruct (clear_futex_spec k (source_bucket_index j) i Hk Hi Hsrc) as (bs & k1 & -> & Ht1 & Hbs & _). cbn [obind].
      eexists k1, _, bs, _, _. split_and!; [done..|]. constructor; [by left|done].
    - eexists k, _, _, _, _. split_and!; [done..|]. constructor; [by left|done]. }
  destruct (bool_decide (_state (pcb k i) = SLEEPING) || bool_decide (_state (pcb k i) = RUNNABLE)) eqn:Est.
  2: { apply orb_false_iff in Est as [E1 E2]. apply bool_decide_eq_false in E1, E2.
    eexists k, _, _, _, _. split_and!; [done..|]. constructor; [right; left; done|done]. }
  apply orb_true_iff in Est. rewrite !bool_decide_eq_true in Est.
  case_test.
  - destruct (clear_futex_spec k (source_bucket_index j) i Hk Hi Hsrc) as (bs & k1 & -> & Ht1 & Hbs & _). cbn [obind].
    edestruct (then_put k i (pcb k i) bs k1) as (k2 & -> & Ht2); [done|done|done| |cbn [obind]].
    { by destruct (bool_decide _). }
    destruct (then_unregister k i _ bs k2 Hk Hi Ht2) as (k3 & -> & Ht3). cbn [obind].
    eexists k3, _, bs, _, _. split_and!; [done|done| |by constructor]. revert Ht3.
    unfold released, unlisted, clear_futex_waiter_key_locked. destruct Est as [E|E]; rewrite E.
    + by rewrite bool_decide_eq_true_2.
    + rewrite bool_decide_eq_false_2 by done. clear - E. destruct (pcb k i). cbn in *. by subst.
  - destruct (bool_decide (_state (pcb k i) = SLEEPING) && can_requeue j && (count2 <? j_val2 j)) eqn:Erq.
    + bool_facts. assert (Hu2 : j_uaddr2 j ≠ nullptr).
      { unfold can_requeue in *. bool_facts. done. }
      destruct (job_key2 j Hj Hu2) as [_ Hv2].
      destruct (clear_futex_spec k (source_bucket_index j) i Hk Hi Hsrc) as (bs & k1 & -> & Ht1 & Hbs & _). cbn [obind].
      destruct (mark_futex_spec k1 (target_bucket_index j) i) as (bs' & k2 & -> & Ht2 & Hbs' & Hm); [apply Ht1|done|apply target_range|].
      cbn [obind]. rewrite (touch_self _ _ _ _ _ Hk Hi Ht1) in Ht2.
      pose proof (bits_of_then _ _ _ _ _ _ Hk Hi Ht1 Hbs Hbs') as Hbs2. pose proof (touch_trans _ _ _ _ _ _ _ _ Ht1 Ht2) as Ht.
      destruct (then_unregister k i _ bs' k2 Hk Hi Ht) as (k3 & -> & Ht3). cbn [obind].
      destruct (then_upd k i _ bs' k3 (λ p, with_futex p (j_uaddr2 j) (value (j_key2 j)) (is_private (j_key2 j))
        (target_bucket_index j)) Hk Hi Ht3) as (k4 & -> & Ht4); [done|]. cbn [obind].
      assert (value (j_key2 j) ≠ nullptr) as Hval by (unfold valid in Hv2; bool_facts; done).
      destruct (then_register k i _ bs' k4 (value (j_key2 j)) Hk Hi Hval Ht4) as (k5 & b & -> & Ht5). cbn [obind].
      eexists k5, _, bs', _, _. split_and!; [done|done|exact Ht5|].
      apply (turn_requeue k j i count1 count2 bs' b); [done|done|lia|done|done|]. rewrite Hm by apply target_range.
      by rewrite bool_decide_eq_true_2.
    + eexists k, _, _, _, _. split_and!; [done..|]. constructor; [|done]. right; right. split; [lia|].
      intros E1 E2. rewrite bool_decide_eq_true_2, E2 in Erq by done. cbn in Erq. by apply Z.ltb_ge in Erq.
Qed.

(** ** The loops *)

Lemma testbit_land_pow v n : word_ok v → 0 ≤ n < 64 → (Z.land v (u64 (Z.shiftl 1 n)) =? 0) = negb (Z.testbit v n).
Proof.
  intros Hv Hn. rewrite Z.shiftl_1_l, u64_small by (split; [apply Z.pow_nonneg; lia|apply Z.pow_lt_mono_r; lia]).
  destruct (Z.testbit v n) eqn:E; cbn.
  - apply Z.eqb_neq. intros H0. assert (Z.testbit (Z.land v (2 ^ n)) n = true) as Ht.
    { rewrite Z.land_spec, E, Z.pow2_bits_true; [done|lia]. }
    rewrite H0, Z.bits_0 in Ht. done.
  - apply Z.eqb_eq. apply Z.bits_inj'. intros m Hm. rewrite Z.land_spec, Z.pow2_bits_eqb, Z.bits_0 by lia.
    destruct (Z.eqb_spec n m); [subst; by rewrite E|apply andb_false_r].
Qed.

Lemma lowest_bit_spec fuel v n idx : word_ok v → lowest v idx → 0 ≤ n ≤ idx → idx - n ≤ Z.of_nat fuel →
  lowest_bit fuel v n = Ret idx.
Proof.
  intros Hv (Hidx & Hb & Hlow). revert n. induction fuel as [|fuel IH]; intros n Hn Hf; cbn [lowest_bit].
  - replace n with idx by lia. rewrite testbit_land_pow, Hb by (done || lia). done.
  - rewrite testbit_land_pow by (done || lia). destruct (decide (n = idx)) as [->|Hne]; [by rewrite Hb|].
    rewrite Hlow by lia. cbn. apply IH; lia.
Qed.

Lemma probe_bit_spec fuel v n idx : word_ok v → lowest v idx → 0 ≤ n ≤ idx → idx - n ≤ Z.of_nat fuel →
  probe_bit fuel (Z.shiftr v n) n = Ret idx.
Proof.
  intros Hv (Hidx & Hb & Hlow). revert n.
  assert (∀ n, 0 ≤ n → (Z.land (Z.shiftr v n) 1 =? 0) = negb (Z.testbit v n)) as Htest.
  { intros n Hn. change 1 with (Z.ones 1) at 1. destruct (Z.testbit v n) eqn:E; cbn [negb].
    - apply Z.eqb_neq. rewrite land_ones_zero by lia. intros H. specialize (H 0 ltac:(lia)).
      rewrite Z.shiftr_spec, Z.add_0_l in H by lia. congruence.
    - apply Z.eqb_eq. rewrite land_ones_zero by lia. intros m Hm. replace m with 0 by lia.
      by rewrite Z.shiftr_spec, Z.add_0_l by lia. }
  induction fuel as [|fuel IH]; intros n Hn Hf; cbn [probe_bit]; rewrite Htest by lia.
  - replace n with idx by lia. by rewrite Hb.
  - destruct (decide (n = idx)) as [->|Hne]; [by rewrite Hb|].
    rewrite Hlow by lia. cbn [negb]. rewrite Z.shiftr_shiftr by lia. apply IH; lia.
Qed.

Lemma lowest_exists v : word_ok v → v ≠ 0 → ∃ idx, lowest v idx.
Proof. intros. eexists. by apply active_slot_bit_index_lowest. Qed.

(** Dropping the lowest bit with its mask. *)
Lemma drop_bit_spec v n m : word_ok v → 0 ≤ n < 64 → 0 ≤ m →
  Z.testbit (Z.land v (u64 (Z.lnot (u64 (Z.shiftl 1 n))))) m = negb (bool_decide (m = n)) && Z.testbit v m.
Proof.
  intros Hv Hn Hm. pose proof (testbit_clear v n m Hv ltac:(lia) Hm) as H. unfold slot_bit in H.
  by rewrite Z.mod_small in H by lia.
Qed.

End FutexOps.
