(* ===== verification/FutexInv.v ===== *)
(** * The invariant of the processes using futexes *)
From S2P Require Import Prelude Sleep SleepRep SleepOps Futex FutexSystem FutexOps.
Import Sleep SleepRep SleepOps Futex FutexSystem FutexOps.

Module FutexInv.

Section with_address_spaces.
Context {AS : AddressSpaces}.

(** ** The invariant *)

Notation key_of := futex_waiter_key_locked.
Notation index := futex_bucket_index_for_key.

(** The bucket has the bit of a process that published a key, and the process has the
    index of the bucket. *)
Definition listed (p : Pcb) (bs : list (list Z)) (i : Z) : Prop :=
  key_of p ≠ no_key → member bs (index (key_of p)) i = true ∧ _futex_bucket_index p = index (key_of p).

Definition listed_in (k : Kernel) (i : Z) : Prop := listed (pcb k i) (g_futex_buckets k) i.
Definition AllListed (k : Kernel) : Prop := ∀ i, slot i → listed_in k i.

Definition is_waiter (c : Pc) : Prop :=
  match c with
  | Loop _ _ _ | WantBucket _ _ _ _ | Published _ _ _ | Asleep _ _ _ | WantAgain _ _ _ | Clearing _ _ | Awake _ _ => True
  | _ => False
  end.

(** A process waits with reason: the futex has the value it waits for, or something
    happened to the futex that no wakeup has answered yet. *)
Definition justified (mem : gmap Z Z) (log : list Event) (p : Pcb) (w : Wait) : Prop :=
  (key_of p = resolve_futex_key p (w_uaddr w) (w_scope w) ∧ default 0 (mem !! cell (key_of p)) = w_val w)
  ∨ unsettled (key_of p) log = true.

(** The scan still has process [i] before it. *)
Definition ahead (s : Scan) (i : Z) : Prop :=
  s_word s < i / 64 ∨ i / 64 = s_word s ∧ Z.testbit (s_bits s) (i mod 64) = true.

Definition sleeps_on (p : Pcb) (key : FutexKey) : Prop := _state p = SLEEPING ∧ key_of p = key.

Definition distinct (j : WakeJob) : Prop := can_requeue j = true → j_key2 j ≠ j_key j.

Record ScanOk (log : list Event) (k : Kernel) (j : WakeJob) (s : Scan) : Prop := {
  scan_word : 0 ≤ s_word s < 8;
  scan_bits : word_ok (s_bits s);
  scan_goes : s_count1 s < j_val j ∨ can_requeue j = true ∧ s_count2 s < j_val2 j;
  scan_ahead : distinct j → ∀ i, slot i → stray i log = false → sleeps_on (pcb k i) (j_key j) → ahead s i
}.

(** Only a call that is in [sleep] is asleep; a call that holds a lock runs. *)
Definition may_sleep (c : Pc) : Prop := match c with Asleep _ _ _ | Returned _ => True | _ => False end.
Definition state_ok (st : ProcState) (c : Pc) : Prop :=
  (st = SLEEPING → may_sleep c) ∧ (holds c ≠ [] → st = RUNNING).

Lemma running_ok c : state_ok RUNNING c.
Proof. by split. Qed.

Definition call_ok (mem : gmap Z Z) (log : list Event) (k : Kernel) (i : Z) (c : Pc) : Prop :=
  let p := pcb k i in
  state_ok (_state p) c ∧
  match c with
  | Published w _ key =>
      valid key = true ∧ _state p = RUNNING ∧ (key_of p = key ∨ key_of p = no_key) ∧
      (stray i log = false → key_of p = key ∧ justified mem log p w)
  | Asleep w _ key =>
      _state p = SLEEPING → stray i log = false →
      key_of p ≠ no_key ∧ _chan p = value (key_of p) ∧ justified mem log p w
  | Clearing key _ => canonical key ∧ (key_of p = key ∨ key_of p = no_key)
  | WantFirst j | WantSecond j | Locked j => JobOk j
  | Scanning j s => JobOk j ∧ ScanOk log k j s
  | _ => True
  end.

Record Inv (s : Config) : Prop := {
  inv_ok : Ok (c_kernel s);
  inv_listed i : slot i → stray i (c_log s) = false → listed_in (c_kernel s) i;
  inv_waiter i : slot i → key_of (pcb (c_kernel s) i) ≠ no_key → ∃ c, c_calls s !! i = Some c ∧ is_waiter c;
  inv_calls i c : c_calls s !! i = Some c → slot i ∧ call_ok (c_mem s) (c_log s) (c_kernel s) i c;
  inv_locks i i' c c' b : c_calls s !! i = Some c → c_calls s !! i' = Some c' → b ∈ holds c → b ∈ holds c' → i = i'
}.

(** ** Changes that a call does not notice *)

(** The log grows from [log] to [log'] while the process [t] of [k] becomes [p] at the
    hands of others than its own call [c]. *)
Record Weaker (log' : list Event) (k : Kernel) (t : Z) (p : Pcb) (c : Pc) : Prop := {
  weaker_sleep : _state p = SLEEPING →
    _state (pcb k t) = SLEEPING ∧ key_of p = key_of (pcb k t) ∧ _chan p = _chan (pcb k t) ∨ ∃ r, c = Returned r;
  weaker_mm : memory_manager p = memory_manager (pcb k t);
  weaker_key : key_of p = key_of (pcb k t) ∨ key_of p = no_key;
  weaker_state : holds c ≠ [] → _state p = _state (pcb k t);
  weaker_published w d key : c = Published w d key → stray t log' = false → key_of p = key_of (pcb k t)
}.

(** The process [t] does not start to sleep on a key whose bucket [c] holds. *)
Definition calm (log log' : list Event) (k : Kernel) (t : Z) (p : Pcb) (c : Pc) : Prop :=
  ∀ key, key ≠ no_key → stray t log' = false → sleeps_on p key →
    stray t log = false ∧ sleeps_on (pcb k t) key ∨ index key ∉ holds c.

(** The events leave every waiter justified that was; none but [t] is put right. *)
Definition strays_on (t : Z) (log log' : list Event) : Prop :=
  ∀ i, i ≠ t → stray i log' = false → stray i log = false.

Definition keeps (log log' : list Event) (i : Z) (p : Pcb) (c : Pc) : Prop :=
  stray i log' = false → stray i log = false ∧
  (_state p = SLEEPING ∨ (∃ w d key, c = Published w d key) →
   unsettled (key_of p) log = true → unsettled (key_of p) log' = true).

Lemma keeps_refl log i p c : keeps log log i p c.
Proof. by intros Hs. Qed.

Lemma strays_on_refl t log : strays_on t log log.
Proof. by intros i _. Qed.

Lemma justified_same mem log log' p p' w : memory_manager p' = memory_manager p → key_of p' = key_of p →
  (unsettled (key_of p) log = true → unsettled (key_of p) log' = true) →
  justified mem log p w → justified mem log' p' w.
Proof.
  intros Hmm Hk Hl [[E1 E2]|H]; [left|right].
  - rewrite Hk. split; [|done]. rewrite E1. unfold resolve_futex_key. by rewrite Hmm.
  - rewrite Hk. by apply Hl.
Qed.

(** A waker holds the locks of both its buckets. *)
Lemma source_held j : source_bucket_index j ∈ buckets_of j.
Proof.
  unfold buckets_of, first_bucket, second_bucket. generalize (source_bucket_index j) (target_bucket_index j). intros a b.
  destruct (Z.eqb_spec b a) as [->|Hne]; cbn; rewrite ?elem_of_cons; [left; lia|].
  destruct (decide (a < b)); [left|right; left]; lia.
Qed.

Lemma target_held j : target_bucket_index j ∈ buckets_of j.
Proof.
  unfold buckets_of, first_bucket, second_bucket. generalize (source_bucket_index j) (target_bucket_index j). intros a b.
  destruct (Z.eqb_spec b a) as [->|Hne]; cbn; rewrite ?elem_of_cons; [left; lia|].
  destruct (decide (a < b)); [right; left|left]; lia.
Qed.

Lemma scan_ok_stable log log' k t p bs k' j s : Ok k → slot t → Touch k t p bs k' →
  calm log log' k t p (Scanning j s) → strays_on t log log' → JobOk j → ScanOk log k j s → ScanOk log' k' j s.
Proof.
  intros Hk Ht Htouch Hcalm Hstray Hj [H1 H2 H3 H4]. split; [done..|]. intros Hd i Hi Hns Hs.
  rewrite (touch_pcb _ _ _ _ _ _ Hk Ht Hi Htouch) in Hs. case_bool_decide as E; [subst i|by apply H4; [..|apply Hstray|]].
  destruct (Hcalm (j_key j)) as [[Hns' Hs']|Hno]; [|done|done|by apply H4|].
  - intros E. destruct (job_key j Hj) as [_ Hv]. by rewrite E in Hv.
  - destruct Hno. apply source_held.
Qed.

Lemma call_ok_stable mem log log' k t p bs k' i c : Ok k → slot t → slot i → Touch k t p bs k' →
  (i = t → Weaker log' k t p c) → calm log log' k t p c → strays_on t log log' → keeps log log' i (pcb k i) c →
  call_ok mem log k i c → call_ok mem log' k' i c.
Proof.
  intros Hk Ht Hi Htouch Hw Hcalm Hstray Hkeep [Hs Hc]. unfold call_ok.
  rewrite (touch_pcb _ _ _ _ _ _ Hk Ht Hi Htouch). case_bool_decide as E.
  - specialize (Hw E). subst i. destruct Hw as [W1 W2 W3 W4 W5]. split.
    { destruct Hs as [Hs1 Hs2]. split; [|intros Hh; rewrite W4 by done; by apply Hs2].
      intros Hp. destruct (W1 Hp) as [(? & _)|[r ->]]; [by apply Hs1|done]. }
    destruct c; try done.
    + destruct Hc as (E1 & E2 & E3 & E4). rewrite (W4 ltac:(done)). split_and!; [done|done| |].
      { destruct W3 as [->| ->]; [done|by right]. }
      intros Hns. destruct (Hkeep Hns) as [Hns0 Hk0]. destruct (E4 Hns0) as [E5 E6].
      rewrite (W5 _ _ _ eq_refl Hns). split; [done|].
      apply (justified_same _ log _ (pcb k t)); [done|by eapply W5| |done]. apply Hk0. right. eauto.
    + intros Hp Hns. destruct (W1 Hp) as [(F1 & F2 & F3)|[r ?]]; [|done].
      destruct (Hkeep Hns) as [Hns0 Hk0]. destruct (Hc F1 Hns0) as (E1 & E2 & E3).
      rewrite F2, F3. split_and!; [done..|]. apply (justified_same _ log _ (pcb k t)); [done..| |done].
      apply Hk0. by left.
    + destruct Hc as [E1 E2]. split; [done|]. destruct W3 as [->| ->]; [done|by right].
    + destruct Hc as [E1 E2]. split; [done|]. by apply (scan_ok_stable log _ k t p bs).
  - split; [done|]. destruct c; try done.
    + destruct Hc as (E1 & E2 & E3 & E4). split_and!; [done..|]. intros Hns.
      destruct (Hkeep Hns) as [Hns0 Hk0]. destruct (E4 Hns0) as [E5 E6]. split; [done|].
      apply (justified_same _ log _ (pcb k i)); [done..| |done]. apply Hk0. right. eauto.
    + intros Hp Hns. destruct (Hkeep Hns) as [Hns0 Hk0]. destruct (Hc Hp Hns0) as (E1 & E2 & E3). split_and!; [done..|].
      apply (justified_same _ log _ (pcb k i)); [done..| |done]. apply Hk0. by left.
    + destruct Hc as [E1 E2]. split; [done|]. by apply (scan_ok_stable log _ k t p bs).
Qed.

(** ** Steps that touch one process *)

Lemma listed_touch_other k t p bs k' i : Ok k → slot t → slot i → i ≠ t → Touch k t p bs k' → bits_of k t bs →
  listed_in k i → listed_in k' i.
Proof.
  intros Hk Ht Hi Hne Htouch [_ Hbits] Hl. unfold listed_in. rewrite (touch_pcb _ _ _ _ _ _ Hk Ht Hi Htouch).
  rewrite (touch_buckets _ _ _ _ _ Htouch), bool_decide_eq_false_2 by done.
  intros Hk0. rewrite Hbits by (done || apply futex_bucket_range). by apply Hl.
Qed.

Lemma listed_touch_self k t p bs k' : Ok k → slot t → Touch k t p bs k' → listed p bs t → listed_in k' t.
Proof.
  intros Hk Ht Htouch Hl. unfold listed_in. by rewrite (touch_self _ _ _ _ _ Hk Ht Htouch), (touch_buckets _ _ _ _ _ Htouch).
Qed.

Lemma listed_touch k t p bs k' : Ok k → AllListed k → slot t → Touch k t p bs k' → bits_of k t bs →
  listed p bs t → AllListed k'.
Proof.
  intros Hk Hall Ht Htouch Hbits Hl i Hi. destruct (decide (i = t)) as [->|Hne].
  - by apply (listed_touch_self k t p bs).
  - apply (listed_touch_other k t p bs); auto.
Qed.

Lemma inv_listed_touch s t p bs k' log' : Inv s → slot t → Touch (c_kernel s) t p bs k' →
  bits_of (c_kernel s) t bs → (stray t log' = false → listed p bs t) → strays_on t (c_log s) log' →
  ∀ i, slot i → stray i log' = false → listed_in k' i.
Proof.
  intros Hinv Ht Htouch Hbits Hl Hstray i Hi Hns. pose proof (inv_ok s Hinv) as Hk.
  destruct (decide (i = t)) as [->|Hne]; [apply (listed_touch_self (c_kernel s) t p bs); auto|].
  apply (listed_touch_other (c_kernel s) t p bs); [done..|]. apply (inv_listed s Hinv); auto.
Qed.

(** Others change the process [t]. *)
Lemma inv_weaken s t p bs k' log' : Inv s → slot t → Touch (c_kernel s) t p bs k' → bits_of (c_kernel s) t bs →
  (stray t log' = false → listed p bs t) → strays_on t (c_log s) log' →
  (∀ i p c, keeps (c_log s) log' i p c) →
  (key_of p = key_of (pcb (c_kernel s) t) ∨ key_of p = no_key) →
  (∀ c, c_calls s !! t = Some c → Weaker log' (c_kernel s) t p c) →
  (∀ i c, c_calls s !! i = Some c → calm (c_log s) log' (c_kernel s) t p c) →
  Inv (mkConfig k' (c_mem s) (c_calls s) log').
Proof.
  intros Hinv Ht Htouch Hbits Hl Hstray Hkeep Hkey Hweak Hcalm. pose proof (inv_ok s Hinv) as Hk. split; cbn.
  - apply Htouch.
  - by apply (inv_listed_touch s t p bs).
  - intros i Hi. rewrite (touch_pcb _ _ _ _ _ _ Hk Ht Hi Htouch). case_bool_decide as E.
    + subst i. intros Hne. apply (inv_waiter s Hinv t Ht). destruct Hkey as [<-|]; done.
    + by apply (inv_waiter s Hinv).
  - intros i c Hc. destruct (inv_calls s Hinv i c Hc) as [Hi Hok]. split; [done|].
    apply (call_ok_stable _ (c_log s) _ (c_kernel s) t p bs); [done..| |by eapply Hcalm|done|done|done].
    intros ->. by apply Hweak.
  - apply (inv_locks s Hinv).
Qed.

(** A region of the call of process [i] that touches process [t]. *)
Lemma inv_call s i c' t p bs k' log' : Inv s → slot i → slot t →
  Touch (c_kernel s) t p bs k' → bits_of (c_kernel s) t bs → (stray t log' = false → listed p bs t) →
  strays_on t (c_log s) log' →
  (∀ t', slot t' → key_of (pcb k' t') ≠ no_key →
     ∃ c, <[i := c']> (c_calls s) !! t' = Some c ∧ is_waiter c) →
  (∀ c, t ≠ i → c_calls s !! t = Some c → call_ok (c_mem s) log' k' t c) →
  (∀ i1 c, i1 ≠ i → i1 ≠ t → c_calls s !! i1 = Some c →
     calm (c_log s) log' (c_kernel s) t p c ∧ keeps (c_log s) log' i1 (pcb (c_kernel s) i1) c) →
  call_ok (c_mem s) log' k' i c' →
  (∀ i1 c b, i1 ≠ i → c_calls s !! i1 = Some c → b ∈ holds c' → b ∉ holds c) →
  Inv (mkConfig k' (c_mem s) (<[i := c']> (c_calls s)) log').
Proof.
  intros Hinv Hi Ht Htouch Hbits Hl Hstray Hwait Hweak Hother Hself Hlocks. pose proof (inv_ok s Hinv) as Hk. split; cbn.
  - apply Htouch.
  - by apply (inv_listed_touch s t p bs).
  - done.
  - intros i1 c. rewrite lookup_insert_Some. intros [[<- <-]|[Hne Hc]]; [done|].
    destruct (inv_calls s Hinv i1 c Hc) as [Hi1 Hok]. split; [done|].
    destruct (decide (i1 = t)) as [->|Hnt]; [by apply Hweak|].
    destruct (Hother i1 c) as [Hcalm Hkeep]; [done..|].
    by apply (call_ok_stable _ (c_log s) _ (c_kernel s) t p bs).
  - intros i1 i2 c1 c2 b. rewrite !lookup_insert_Some.
    intros [[<- <-]|[H1 Hc1]] [[<- <-]|[H2 Hc2]] Hb1 Hb2; [done| | |by eapply (inv_locks s Hinv)].
    + destruct (Hlocks i2 c2 b); done.
    + destruct (Hlocks i1 c1 b); done.
Qed.

End with_address_spaces.
End FutexInv.

(** * Stores, signals, timers, channels and the scheduler keep the invariant *)
Import Sleep SleepRep SleepOps Futex FutexSystem FutexOps FutexInv.

Module FutexOthers.

Section with_address_spaces.
Context {AS : AddressSpaces}.

Notation key_of := futex_waiter_key_locked.
Notation index := futex_bucket_index_for_key.

(** A process in [Published] runs, and its key is the one it published or was cleared. *)
Lemma published_facts s i w d key : Inv s → c_calls s !! i = Some (Published w d key) →
  (key_of (pcb (c_kernel s) i) = key ∨ key_of (pcb (c_kernel s) i) = no_key) ∧ _state (pcb (c_kernel s) i) = RUNNING.
Proof. intros Hinv Hc. destruct (inv_calls s Hinv _ _ Hc) as (_ & _ & E1 & E2 & E3 & _). done. Qed.

Lemma idle_no_key s i : Inv s → slot i → idle s i → key_of (pcb (c_kernel s) i) = no_key.
Proof.
  intros Hinv Hi Hidle. destruct (decide (key_of (pcb (c_kernel s) i) = no_key)) as [|Hne]; [done|].
  destruct (inv_waiter s Hinv i Hi Hne) as (c & Hc & Hw). unfold idle in Hidle. rewrite Hc in Hidle. by destruct c.
Qed.

Lemma idle_returned s i c : idle s i → c_calls s !! i = Some c → ∃ r, c = Returned r.
Proof. unfold idle. intros Hid Hc. rewrite Hc in Hid. destruct c; try done. eauto. Qed.

(** The process keeps its key. *)
Lemma inv_same_key s t p k' : Inv s → slot t → Touch (c_kernel s) t p (g_futex_buckets (c_kernel s)) k' →
  key_of p = key_of (pcb (c_kernel s) t) → _futex_bucket_index p = _futex_bucket_index (pcb (c_kernel s) t) →
  memory_manager p = memory_manager (pcb (c_kernel s) t) →
  (_state p = SLEEPING → _state (pcb (c_kernel s) t) = SLEEPING ∧ _chan p = _chan (pcb (c_kernel s) t) ∨ idle s t) →
  (_state (pcb (c_kernel s) t) = RUNNING → _state p ≠ RUNNING → ∀ c, c_calls s !! t = Some c → holds c = []) →
  Inv (with_kernel s k').
Proof.
  intros Hinv Ht Htouch Hkey Hidx Hmm Hsleep Hrun. pose proof (inv_ok s Hinv) as Hk.
  apply (inv_weaken s t p (g_futex_buckets (c_kernel s)));
    [done..|by apply bits_of_refl| |by apply strays_on_refl|intros; by apply keeps_refl|by left| |].
  - intros Hns. unfold listed. rewrite Hkey, Hidx. by apply (inv_listed s Hinv).
  - intros c Hc. split; [|done|by left| |done].
    + intros Hp. destruct (Hsleep Hp) as [[? ?]|Hid]; [by left|right]. by eapply idle_returned.
    + intros Hh. destruct (inv_calls s Hinv _ _ Hc) as (_ & [_ E] & _). specialize (E Hh). rewrite E.
      destruct (decide (_state p = RUNNING)) as [|Hne]; [done|]. by specialize (Hrun E Hne _ Hc).
  - intros i c Hc key Hne Hns [Hp Hpk]. destruct (Hsleep Hp) as [[? _]|Hid].
    + left. split; [done|]. split; [done|]. by rewrite <- Hkey.
    + rewrite Hkey, idle_no_key in Hpk by done. done.
Qed.

(** The process loses its key and is awake. *)
Lemma inv_cleared s t p bs k' log' : Inv s → slot t → Touch (c_kernel s) t p bs k' → bits_of (c_kernel s) t bs →
  strays_on t (c_log s) log' → (∀ i p c, keeps (c_log s) log' i p c) →
  key_of p = no_key → memory_manager p = memory_manager (pcb (c_kernel s) t) → _state p ≠ SLEEPING →
  (_state (pcb (c_kernel s) t) ≠ SLEEPING → _state p = _state (pcb (c_kernel s) t)) →
  (∀ w d key, c_calls s !! t = Some (Published w d key) → stray t log' = false → key_of (pcb (c_kernel s) t) = no_key) →
  Inv (mkConfig k' (c_mem s) (c_calls s) log').
Proof.
  intros Hinv Ht Htouch Hbits Hstray Hkeep Hkey Hmm Hst Hsame Hpub.
  apply (inv_weaken s t p bs); [done..| |done|done|by right| |].
  - intros _ Hne. done.
  - intros c Hc. split; [done|done|by right| |].
    + intros Hh. apply Hsame. destruct (inv_calls s Hinv _ _ Hc) as (_ & [_ E] & _). by rewrite E.
    + intros w d key -> Hns. by rewrite (Hpub w d key Hc Hns).
  - intros i c Hc key Hne _ [Hp _]. done.
Qed.

Ltac touch H := match type of H with ?f = Ret _ =>
  match goal with E : f = Ret _ |- _ => rewrite H in E; injection E as <- end end.

Lemma inv_store s a v : Inv s →
  Inv (mkConfig (c_kernel s) (<[a := v]> (c_mem s)) (c_calls s) (Stored a :: c_log s)).
Proof.
  intros [H1 H2 H3 H4 H5]. split; cbn; [done..| |done]. intros i c Hc. destruct (H4 i c Hc) as (Hi & Hs & Hok).
  split; [done|]. split; [done|].
  assert (∀ w, justified (c_mem s) (c_log s) (pcb (c_kernel s) i) w →
    justified (<[a := v]> (c_mem s)) (Stored a :: c_log s) (pcb (c_kernel s) i) w) as Hj.
  { intros w [[E1 E2]|H]; unfold justified; cbn; [|right; by rewrite H, orb_true_r].
    destruct (Z.eqb_spec a (cell (key_of (pcb (c_kernel s) i)))) as [->|Hne]; [by right|left].
    split; [done|]. by rewrite lookup_insert_ne. }
  destruct c; try done; [naive_solver..|]. destruct Hok as [? [? ? ? ?]]. by split.
Qed.

Lemma inv_signal s i killed signal sigmask acts k : Inv s → slot i →
  upd_pcb (c_kernel s) i (λ p, with_signals p killed signal sigmask acts) = Ret k → Inv (with_kernel s k).
Proof.
  intros Hinv Hi E. destruct (upd_pcb_spec (c_kernel s) i (λ p, with_signals p killed signal sigmask acts))
    as (k' & E' & Ht); [apply Hinv|done|done|]. touch E'.
  apply (inv_same_key s i _ _ Hinv Hi Ht); [done..| |done]. intros Hp. by left.
Qed.

Lemma inv_schedule s i k : Inv s → slot i → _state (pcb (c_kernel s) i) = RUNNABLE →
  upd_pcb (c_kernel s) i (λ p, set_task_state p RUNNING) = Ret k → Inv (with_kernel s k).
Proof.
  intros Hinv Hi Hst E. destruct (upd_pcb_spec (c_kernel s) i (λ p, set_task_state p RUNNING))
    as (k' & E' & Ht); [apply Hinv|done|done|]. touch E'.
  apply (inv_same_key s i _ _ Hinv Hi Ht); [done..|]. rewrite Hst. done.
Qed.

Lemma inv_preempt s i k : Inv s → runs s i → (∀ c, c_calls s !! i = Some c → holds c = []) →
  upd_pcb (c_kernel s) i (λ p, set_task_state p RUNNABLE) = Ret k → Inv (with_kernel s k).
Proof.
  intros Hinv [Hi Hst] Hh E. destruct (upd_pcb_spec (c_kernel s) i (λ p, set_task_state p RUNNABLE))
    as (k' & E' & Ht); [apply Hinv|done|done|]. touch E'.
  by apply (inv_same_key s i _ _ Hinv Hi Ht).
Qed.

Lemma inv_sleep s i chan k : Inv s → runs s i → idle s i → chan ≠ nullptr →
  sleep_enter (c_kernel s) i chan = Ret k → Inv (with_kernel s k).
Proof.
  intros Hinv [Hi Hst] Hid Hc E. destruct (sleep_enter_spec (c_kernel s) i chan) as (k' & b & E' & Ht); [apply Hinv|done|done|].
  touch E'. apply (inv_same_key s i _ _ Hinv Hi Ht); [done..|by right|].
  intros _ _ c Hc'. by destruct (idle_returned s i c Hid Hc') as [r ->].
Qed.

Lemma inv_slept s i k : Inv s → runs s i → idle s i → sleep_exit (c_kernel s) i = Ret k → Inv (with_kernel s k).
Proof.
  intros Hinv [Hi Hst] Hid E. destruct (unregister_spec (c_kernel s) i) as (k' & E' & Ht); [apply Hinv|done|].
  unfold sleep_exit in E. touch E'. apply (inv_same_key s i _ _ Hinv Hi Ht); [done..|by right|done].
Qed.

Lemma inv_wakeup s i chan k : Inv s → slot i → chan ≠ nullptr →
  wakeup_candidate (c_kernel s) i chan = Ret k → Inv (with_kernel s k).
Proof.
  intros Hinv Hi Hc E. destruct (wakeup_candidate_spec (c_kernel s) i chan) as (k' & E' & Ht); [apply Hinv|done|done|].
  touch E'. unfold woken in Ht. case_bool_decide as E1; [case_bool_decide as E2|]; cbn in Ht.
  - apply (inv_same_key s i _ _ Hinv Hi Ht); [done..|]. cbn. by rewrite E2.
  - by apply (inv_same_key s i _ _ Hinv Hi Ht).
  - apply (inv_same_key s i _ _ Hinv Hi Ht); [done..|by left|done].
Qed.

Lemma with_kernel_id s : with_kernel s (c_kernel s) = s.
Proof. by destruct s. Qed.

Lemma inv_expire s i now key b k : Inv s → slot i → bucket b →
  expire_candidate (c_kernel s) i now key b = Ret k → Inv (with_kernel s k).
Proof.
  intros Hinv Hi Hb E. destruct (expire_spec (c_kernel s) i now key b) as (bs & k' & E' & Hbs & H); [apply Hinv|done..|].
  touch E'. destruct H as [[Hx Ht]|(_ & -> & _)]; [|by rewrite with_kernel_id].
  destruct Hx as (_ & _ & _ & _ & Hx & _).
  apply (inv_cleared s i _ bs _ _ Hinv Hi Ht); [done|by apply strays_on_refl|intros; by apply keeps_refl|done..|].
  intros w d key' Hc. destruct (published_facts s i w d key' Hinv Hc) as [_ Hrun]. congruence.
Qed.

Lemma removal_cases s i key :
  removal s i key = [] ∨ removal s i key = [Strayed i].
Proof. unfold removal. destruct (c_calls s !! i) as [[]|]; try by left. destruct (valid key); [by left|by right]. Qed.

Lemma removal_strays s i key : strays_on i (c_log s) (removal s i key ++ c_log s).
Proof. intros x Hne. destruct (removal_cases s i key) as [-> | ->]; cbn; [done|]. by intros [_ ?]%orb_false_iff. Qed.

Lemma removal_keeps s i key x p c : keeps (c_log s) (removal s i key ++ c_log s) x p c.
Proof. intros Hns. destruct (removal_cases s i key) as [E|E]; rewrite E in *; cbn in *; [done|]. by apply orb_false_iff in Hns as [_ ?]. Qed.

Lemma inv_remove s i key k : Inv s → slot i → canonical key → (valid key = true → free s (index key)) →
  (let! k := remove_with_key (c_kernel s) i key in wake_removed k i) = Ret k →
  Inv (mkConfig k (c_mem s) (c_calls s) (removal s i key ++ c_log s)).
Proof.
  intros Hinv Hi Hcan Hfree E. pose proof (inv_ok s Hinv) as Hk.
  destruct (remove_spec (c_kernel s) i key Hk Hi Hcan) as (bs & k1 & E1 & Hbs & Ht1 & Hsame). rewrite E1 in E. cbn [obind] in E.
  destruct (wake_removed_spec (c_kernel s) i _ bs k1 Hk Hi Ht1) as (k2 & E2 & Ht2). touch E2.
  destruct (negb (valid key) || bool_decide (key_of (pcb (c_kernel s) i) = key)) eqn:Hm.
  - apply (inv_cleared s i _ bs _ _ Hinv Hi Ht2); [done|apply removal_strays|intros; apply removal_keeps| | | | |].
    + by case_test.
    + by case_test.
    + case_test; done.
    + intros Hns. by rewrite bool_decide_eq_false_2.
    + intros w d key' Hc Hns. destruct (published_facts s i w d key' Hinv Hc) as [[F1|F1] _]; [|done].
      unfold removal in Hns. rewrite Hc in Hns. destruct (valid key); cbn in Hm, Hns; [|by rewrite Z.eqb_refl in Hns].
      bool_facts. destruct (Hfree eq_refl i _ Hc). cbn. rewrite <- F1, Hm. by left.
  - apply orb_false_iff in Hm as [Hv Hne%bool_decide_eq_false]. rewrite (Hsame Hne) in *. clear bs Hsame Ht1 Hbs E1.
    assert (removal s i key = []) as ->.
    { unfold removal. apply negb_false_iff in Hv. rewrite Hv. by destruct (c_calls s !! i) as [[]|]. }
    change (Inv (with_kernel s k2)). case_bool_decide as Hd.
    + apply (inv_same_key s i _ _ Hinv Hi Ht2); [done..|]. rewrite Hd. done.
    + apply (inv_same_key s i _ _ Hinv Hi Ht2); [done..|by left|done].
Qed.

End with_address_spaces.
End FutexOthers.
