(* ===== verification/FutexWait.v ===== *)
(** * The regions of [futex_wait] keep the invariant *)
From S2P Require Import Prelude Sleep SleepRep SleepOps Futex FutexSystem FutexOps FutexInv.
Import Sleep SleepRep SleepOps Futex FutexSystem FutexOps FutexInv FutexOthers.

Module FutexWait.

Section with_address_spaces.
Context {AS : AddressSpaces}.

Notation key_of := futex_waiter_key_locked.
Notation index := futex_bucket_index_for_key.

(** No call but that of [i] holds the lock of [b]. *)
Definition own (s : Config) (i b : Z) : Prop := ∀ i' c, i' ≠ i → c_calls s !! i' = Some c → b ∉ holds c.

Lemma own_held s i c b : Inv s → c_calls s !! i = Some c → b ∈ holds c → own s i b.
Proof. intros Hinv Hc Hb i' c' Hne Hc' Hb'. apply Hne. by eapply (inv_locks s Hinv). Qed.

Lemma own_free s i b : free s b → own s i b.
Proof. intros Hf i' c _ Hc. by apply (Hf i' c). Qed.

(** A region that touches its own process. *)
Lemma inv_own_log s i c' p bs k' log' : Inv s → slot i →
  Touch (c_kernel s) i p bs k' → bits_of (c_kernel s) i bs → (stray i log' = false → listed p bs i) →
  strays_on i (c_log s) log' → (∀ i1 p c, i1 ≠ i → keeps (c_log s) log' i1 p c) →
  (key_of p ≠ no_key → is_waiter c') →
  (_state p = SLEEPING → key_of p ≠ no_key → own s i (index (key_of p))) →
  call_ok (c_mem s) log' k' i c' → (∀ b, b ∈ holds c' → own s i b) →
  Inv (mkConfig k' (c_mem s) (<[i := c']> (c_calls s)) log').
Proof.
  intros Hinv Hi Ht Hbs Hl Hstray Hkeep Hwait Hsleep Hok Hown. pose proof (inv_ok s Hinv) as Hk.
  apply (inv_call s i c' i p bs); [done..| | | |done|].
  - intros t Ht' Hne. rewrite (touch_pcb _ _ _ _ _ _ Hk Hi Ht' Ht) in Hne. case_bool_decide as E.
    + subst t. exists c'. rewrite lookup_insert_eq. auto.
    + rewrite lookup_insert_ne by done. by apply (inv_waiter s Hinv).
  - done.
  - intros i1 c Hne _ Hc. split; [|by apply Hkeep]. intros key Hk0 _ [Hp <-]. right. by apply (Hsleep Hp Hk0 i1).
  - intros i1 c b Hne Hc Hb. by apply (Hown b Hb i1).
Qed.

Lemma inv_own s i c' p bs k' : Inv s → slot i →
  Touch (c_kernel s) i p bs k' → bits_of (c_kernel s) i bs → (stray i (c_log s) = false → listed p bs i) →
  (key_of p ≠ no_key → is_waiter c') →
  (_state p = SLEEPING → key_of p ≠ no_key → own s i (index (key_of p))) →
  call_ok (c_mem s) (c_log s) k' i c' → (∀ b, b ∈ holds c' → own s i b) →
  Inv (mkConfig k' (c_mem s) (<[i := c']> (c_calls s)) (c_log s)).
Proof. intros. apply (inv_own_log s i c' p bs); try done. apply strays_on_refl. Qed.

(** A region that leaves the processes as they are. *)
Lemma inv_move s i c c' : Inv s → runs s i → c_calls s !! i = Some c →
  (key_of (pcb (c_kernel s) i) ≠ no_key → is_waiter c → is_waiter c') →
  call_ok (c_mem s) (c_log s) (c_kernel s) i c' → (∀ b, b ∈ holds c' → own s i b) →
  Inv (mkConfig (c_kernel s) (c_mem s) (<[i := c']> (c_calls s)) (c_log s)).
Proof.
  intros Hinv [Hi Hst] Hc Hw Hok Hown. pose proof (inv_ok s Hinv) as Hk.
  apply (inv_own s i c' (pcb (c_kernel s) i) (g_futex_buckets (c_kernel s)));
    [done|done|by apply touch_refl|by apply bits_of_refl|by apply (inv_listed s Hinv)| | |done|done].
  - intros Hne. apply Hw; [done|]. destruct (inv_waiter s Hinv i Hi Hne) as (c1 & Hc1 & ?). naive_solver.
  - by rewrite Hst.
Qed.

Lemma clearing_ok mem log k i n : _state (pcb k i) = RUNNING → call_ok mem log k i (Clearing (key_of (pcb k i)) n).
Proof. intros Hst. unfold call_ok. rewrite Hst. split; [apply running_ok|]. split; [apply waiter_key_canonical|by left]. Qed.

Lemma begin_clear_spec k i n : Ok k → slot i → begin_clear k i n = Ret (k, Clearing (key_of (pcb k i)) n).
Proof. intros. unfold begin_clear. by rewrite get_pcb_spec. Qed.

(** Where the regions before the sleep can lead. *)
Definition before_sleep (k : Kernel) (i : Z) (c : Pc) : Prop :=
  (∃ w b d, c = Loop w b d) ∨ (∃ w b d cand, c = WantBucket w b d cand) ∨ (∃ n, c = Clearing (key_of (pcb k i)) n).

Lemma before_sleep_facts mem log k i c : _state (pcb k i) = RUNNING → before_sleep k i c →
  is_waiter c ∧ holds c = [] ∧ call_ok mem log k i c.
Proof.
  intros Hst. unfold before_sleep.
  intros [(w & b & d & ->)|[(w & b & d & cand & ->)|(n & ->)]]; (split; [done|split; [done|]]);
    [unfold call_ok; rewrite Hst; by split; [apply running_ok|]..|by apply clearing_ok].
Qed.

Lemma inv_before s i c c' : Inv s → runs s i → c_calls s !! i = Some c → is_waiter c →
  before_sleep (c_kernel s) i c' →
  Inv (mkConfig (c_kernel s) (c_mem s) (<[i := c']> (c_calls s)) (c_log s)).
Proof.
  intros Hinv Hr Hc Hw Hb. destruct (before_sleep_facts (c_mem s) (c_log s) _ _ _ (proj2 Hr) Hb) as (H1 & H2 & H3).
  apply (inv_move s i c); [done..|]. rewrite H2. by intros b ?%not_elem_of_nil.
Qed.

(** ** Entry *)

Lemma enter_spec k i w clk : Ok k → slot i → ∃ k' c, futex_wait_enter k i w clk = Ret (k', c) ∧
  Touch k i (with_result (with_deadline (pcb k i) 0) 0) (g_futex_buckets k) k' ∧
  ((∃ r, c = Returned r) ∨ before_sleep k' i c).
Proof.
  intros Hk Hi. unfold futex_wait_enter.
  destruct (upd_pcb_spec k i (λ p, with_result (with_deadline p 0) 0)) as (k' & -> & Ht); [done..|]. cbn [obind].
  assert (∀ n, begin_clear k' i n = Ret (k', Clearing (key_of (pcb k' i)) n)) as Hclear.
  { intros n. apply begin_clear_spec; [apply Ht|done]. }
  assert (∀ m c, m = Ret (k', c) → (∃ r, c = Returned r) ∨ before_sleep k' i c →
    ∃ k'0 c, m = Ret (k'0, c) ∧ Touch k i (with_result (with_deadline (pcb k i) 0) 0) (g_futex_buckets k) k'0 ∧
      ((∃ r, c = Returned r) ∨ before_sleep k'0 i c)) as Hdone by eauto 10.
  unfold before_sleep in *. destruct (w_ts w) as [ts|]; [|eapply Hdone; by eauto 10].
  destruct (negb _); [eapply Hdone; by eauto 10|]. destruct (w_absolute w).
  - destruct (clock_gettime clk _) as [now|]; [|eapply Hdone; by eauto 10].
    destruct (0 <=? _); [eapply Hdone; [apply Hclear|]; by eauto 10|].
    destruct (futex_absolute_deadline_to_cycles clk now ts); [eapply Hdone; by eauto 10|].
    eapply Hdone; [apply Hclear|]; by eauto 10.
  - destruct (futex_timeout_to_cycles clk ts) as [cyc|]; [|eapply Hdone; by eauto 10].
    destruct (cyc =? 0); [eapply Hdone; [apply Hclear|]; by eauto 10|]. eapply Hdone; by eauto 10.
Qed.

Lemma inv_enter s i w clk k c : Inv s → runs s i → idle s i → futex_wait_enter (c_kernel s) i w clk = Ret (k, c) →
  Inv (mkConfig k (c_mem s) (<[i := c]> (c_calls s)) (c_log s)).
Proof.
  intros Hinv [Hi Hst] Hid E. pose proof (inv_ok s Hinv) as Hk.
  destruct (enter_spec (c_kernel s) i w clk Hk Hi) as (k' & c' & E' & Ht & Hc). rewrite E' in E. injection E as <- <-.
  pose proof (touch_self _ _ _ _ _ Hk Hi Ht) as Ep.
  assert (key_of (with_result (with_deadline (pcb (c_kernel s) i) 0) 0) = no_key) as Hkey by (by apply (idle_no_key s)).
  apply (inv_own s i c' _ _ _ Hinv Hi Ht); [by apply bits_of_refl|done|done|done| |].
  - destruct Hc as [[r ->]|Hc]; [|apply before_sleep_facts; [by rewrite Ep|done]].
    unfold call_ok. rewrite Ep. cbn. by rewrite Hst.
  - destruct Hc as [[r ->]|Hc]; [by intros b ?%not_elem_of_nil|].
    apply (before_sleep_facts (c_mem s) (c_log s)) in Hc as (_ & -> & _); [|by rewrite Ep]. by intros b ?%not_elem_of_nil.
Qed.

(** ** The head of the loop *)

Lemma loop_spec k i w b d clk loaded : Ok k → slot i →
  ∃ c, futex_wait_loop k i w b d clk loaded = Ret (k, c) ∧ before_sleep k i c.
Proof.
  intros Hk Hi. unfold futex_wait_loop, before_sleep. rewrite get_pcb_spec by done. cbn [obind].
  destruct (match w_ts w with None => inr d | Some ts => timed_checks (pcb k i) w ts d clk end); [rewrite begin_clear_spec by done; eauto 10|].
  destruct (load_and_resolve _ _ _); [rewrite begin_clear_spec by done|]; eauto 10.
Qed.

(** ** Publishing *)

(** The process as [futex_wait_publish] leaves it. *)
Definition published (p : Pcb) (w : Wait) (d : Z) (key : FutexKey) : Pcb :=
  with_futex (with_result (with_deadline p d) 0) (w_uaddr w) (value key) (is_private key) (index key).

Lemma resolve_key p uaddr scope : let key := resolve_futex_key p uaddr scope in
  canonical key ∧ (is_private key = true → private_mm key = memory_manager p) ∧
  (valid key = true → cell key = walk_addr (memory_manager p) uaddr ∧ cell key ≠ nullptr).
Proof.
  unfold resolve_futex_key, canonical, cell.
  destruct (Z.eqb_spec uaddr 0); [done|]. destruct (Z.eqb_spec (walk_addr (memory_manager p) uaddr) nullptr); [done|].
  destruct (_ || _ || _); [|done]. destruct (memory_manager p =? nullptr); done.
Qed.

Lemma published_key p w d key : canonical key → valid key = true →
  (is_private key = true → private_mm key = memory_manager p) → key_of (published p w d key) = key.
Proof.
  unfold valid, canonical, futex_waiter_key_locked. cbn. intros Hc Hv Hm. bool_facts.
  rewrite (proj2 (Z.eqb_neq _ _)) by done. destruct key as [v mm [|]]; cbn in *; [by rewrite Hm|by rewrite Hc].
Qed.

Lemma publish_spec mem k i w b d cand : Ok k → slot i →
  ∃ k' c, futex_wait_publish mem k i w b d cand = Ret (k', c) ∧
   (k' = k ∧ before_sleep k i c ∨
    ∃ key bs, c = Published w d key ∧ index key = index cand ∧ valid key = true ∧
      key = resolve_futex_key (pcb k i) (w_uaddr w) (w_scope w) ∧ default 0 (mem !! cell key) = w_val w ∧
      Touch k i (published (pcb k i) w d key) bs k' ∧ bits_of k i bs ∧ member bs (index key) i = true).
Proof.
  intros Hk Hi. unfold futex_wait_publish. rewrite get_pcb_spec by done. cbn [obind].
  unfold load_and_resolve, load_futex_value_nofault, before_sleep.
  destruct (_ || _); [rewrite begin_clear_spec by done; eauto 10|]. set (pa := walk_addr _ _). destruct (Z.eqb_spec pa nullptr); [rewrite begin_clear_spec by done; eauto 10|].
  destruct (Z.eqb_spec (default 0 (mem !! pa)) (w_val w)) as [Ev|]; cbn [negb]; [|rewrite begin_clear_spec by done; eauto 10].
  destruct (resolve_key (pcb k i) (w_uaddr w) (w_scope w)) as (_ & _ & Hcell).
  set (key := resolve_futex_key _ _ _) in *. destruct (valid key) eqn:Hv; cbn [negb]; [|rewrite begin_clear_spec by done; eauto 10].
  destruct (Z.eqb_spec (index key) (index cand)) as [Ei|]; cbn [negb]; [|eauto 10].
  destruct (put_pcb_spec k i (published (pcb k i) w d key)) as (k1 & E1 & Ht1); [done..|].
  unfold published in E1. rewrite E1. cbn [obind].
  destruct (mark_futex_spec k1 (index cand) i) as (bs & k2 & -> & Ht2 & Hbs & Hm); [apply Ht1|done|apply futex_bucket_range|].
  cbn [obind]. eexists k2, _. split; [done|]. right. exists key, bs.
  rewrite (touch_self _ _ _ _ _ Hk Hi Ht1) in Ht2. destruct (Hcell eq_refl) as [-> _].
  split_and!; [done..|by apply (touch_trans _ _ _ _ _ _ _ _ Ht1 Ht2)| |].
  - by apply (bits_of_then _ _ _ _ _ _ Hk Hi Ht1 (bits_of_refl k i Hk)).
  - rewrite Hm by apply futex_bucket_range. by rewrite bool_decide_eq_true_2.
Qed.

Lemma entered_strays i log : strays_on i log (Entered i :: log).
Proof. intros x Hne. cbn. by rewrite (proj2 (Z.eqb_neq i x)). Qed.

Lemma inv_publish s i w b d cand k c : Inv s → runs s i → c_calls s !! i = Some (WantBucket w b d cand) →
  free s (index cand) → futex_wait_publish (c_mem s) (c_kernel s) i w b d cand = Ret (k, c) →
  Inv (mkConfig k (c_mem s) (<[i := c]> (c_calls s))
    ((match c with Published _ _ _ => [Entered i] | _ => [] end) ++ c_log s)).
Proof.
  intros Hinv [Hi Hst] Hc Hfree E. pose proof (inv_ok s Hinv) as Hk.
  destruct (publish_spec (c_mem s) (c_kernel s) i w b d cand Hk Hi) as (k' & c' & E' & H). rewrite E' in E. injection E as <- <-.
  destruct H as [[-> Hb]|(key & bs & -> & Ei & Hv & Ekey & Ev & Ht & Hbs & Hm)].
  { replace (match c' with Published _ _ _ => [Entered i] | _ => [] end) with (@nil Event).
    - by eapply inv_before.
    - by destruct Hb as [(? & ? & ? & ->)|[(? & ? & ? & ? & ->)|(? & ->)]]. }
  destruct (resolve_key (pcb (c_kernel s) i) (w_uaddr w) (w_scope w)) as (Hcan & Hmm & _). rewrite <- Ekey in Hcan, Hmm.
  pose proof (published_key (pcb (c_kernel s) i) w d key Hcan Hv Hmm) as Hpk.
  apply (inv_own_log s i _ _ bs _ _ Hinv Hi Ht); [done| |apply entered_strays| |done| | |].
  - intros _ _. rewrite Hpk. done.
  - intros i1 p c Hne Hns. split; [by apply (entered_strays i _ i1)|by intros _].
  - cbn. by rewrite Hst.
  - unfold call_ok. rewrite (touch_self _ _ _ _ _ Hk Hi Ht), Hpk. cbn [_state published with_futex with_result with_deadline].
    rewrite Hst. split_and!; [apply running_ok|done|done|by left|]. intros _. split; [done|]. left. rewrite Hpk. split; [|done]. rewrite Ekey. done.
  - intros b' Hb'. apply own_free. cbn in Hb'. apply list_elem_of_singleton in Hb' as ->. by rewrite Ei.
Qed.

(** ** Sleeping *)

Lemma inv_fall_asleep s i w d key k c : Inv s → runs s i → c_calls s !! i = Some (Published w d key) →
  futex_wait_sleep (c_kernel s) i w d key = Ret (k, c) →
  Inv (mkConfig k (c_mem s) (<[i := c]> (c_calls s)) (c_log s)).
Proof.
  intros Hinv [Hi Hst] Hc E. pose proof (inv_ok s Hinv) as Hk.
  destruct (inv_calls s Hinv _ _ Hc) as (_ & _ & E2 & E3 & E1 & E4).
  assert (value key ≠ nullptr) as Hval by (unfold valid in E2; bool_facts; done).
  destruct (sleep_enter_spec (c_kernel s) i (value key) Hk Hi Hval) as (k' & b & E' & Ht).
  unfold futex_wait_sleep in E. rewrite E' in E. injection E as <- <-.
  set (p := set_task_state _ _) in Ht.
  assert (key_of p = key_of (pcb (c_kernel s) i)) as Hpk by done.
  apply (inv_own s i _ p _ _ Hinv Hi Ht); [by apply bits_of_refl| |done| | |by intros ? ?%not_elem_of_nil].
  - intros Hns. unfold listed. rewrite Hpk. by apply (inv_listed s Hinv i Hi).
  - rewrite Hpk. intros _ Hne. destruct E1 as [->|]; [|done]. apply (own_held s i _ _ Hinv Hc). by left.
  - unfold call_ok. rewrite (touch_self _ _ _ _ _ Hk Hi Ht). split; [by split|]. intros _ Hns. rewrite Hpk.
    destruct (E4 Hns) as [E5 E6]. rewrite E5.
    split_and!; [by intros ->|done|]. by apply (justified_same _ (c_log s) _ (pcb (c_kernel s) i)).
Qed.

Lemma inv_resume s i w d key k c : Inv s → runs s i → c_calls s !! i = Some (Asleep w d key) →
  futex_wait_resume (c_kernel s) i w d key = Ret (k, c) →
  Inv (mkConfig k (c_mem s) (<[i := c]> (c_calls s)) (c_log s)).
Proof.
  intros Hinv [Hi Hst] Hc E. pose proof (inv_ok s Hinv) as Hk.
  destruct (unregister_spec (c_kernel s) i Hk Hi) as (k' & E' & Ht).
  unfold futex_wait_resume, sleep_exit in E. rewrite E' in E. injection E as <- <-.
  apply (inv_own s i _ _ _ _ Hinv Hi Ht); [by apply bits_of_refl|exact (inv_listed s Hinv i Hi)|done| | |by intros ? ?%not_elem_of_nil].
  - cbn. by rewrite Hst.
  - unfold call_ok. rewrite (touch_self _ _ _ _ _ Hk Hi Ht). cbn. by rewrite Hst.
Qed.

Lemma inv_again s i w d key k c : Inv s → runs s i → c_calls s !! i = Some (WantAgain w d key) →
  futex_wait_again (c_kernel s) i w d = Ret (k, c) →
  Inv (mkConfig k (c_mem s) (<[i := c]> (c_calls s)) (c_log s)).
Proof.
  intros Hinv Hr Hc E. destruct (Hr) as [Hi Hst]. pose proof (inv_ok s Hinv) as Hk.
  unfold futex_wait_again in E. rewrite get_pcb_spec in E by done. cbn [obind] in E.
  destruct (signal_pending _).
  - rewrite begin_clear_spec in E by done. injection E as <- <-. apply (inv_before s i _ _ Hinv Hr Hc); [done|].
    right; right. eauto.
  - injection E as <- <-. apply (inv_move s i _ _ Hinv Hr Hc); [done| |by intros ? ?%not_elem_of_nil].
    unfold call_ok. by rewrite Hst.
Qed.

(** ** Removing oneself *)

Lemma inv_clear s i key n k c : Inv s → runs s i → c_calls s !! i = Some (Clearing key n) →
  futex_wait_clear (c_kernel s) i key n = Ret (k, c) →
  Inv (mkConfig k (c_mem s) (<[i := c]> (c_calls s)) (c_log s)) ∧ key_of (pcb k i) = no_key.
Proof.
  intros Hinv [Hi Hst] Hc E. pose proof (inv_ok s Hinv) as Hk.
  destruct (inv_calls s Hinv _ _ Hc) as (_ & _ & Hcan & Hkey).
  destruct (remove_spec (c_kernel s) i key Hk Hi Hcan) as (bs & k1 & E1 & Hbs & Ht & Hsame).
  unfold futex_wait_clear in E. rewrite E1 in E. injection E as <- <-.
  match type of Ht with Touch _ _ ?q _ _ => set (p := q) in Ht end.
  assert (key_of p = no_key ∧ _state p = RUNNING) as [Hp Hps].
  { unfold p. destruct (negb (valid key) || _) eqn:Hm; [done|]. split; [|done].
    destruct Hkey as [Ek|]; [|done]. apply orb_false_iff in Hm as [_ Hne%bool_decide_eq_false]. done. }
  pose proof (touch_self _ _ _ _ _ Hk Hi Ht) as Ep. split; [|by rewrite Ep].
  apply (inv_own s i _ p bs _ Hinv Hi Ht); [done|done|done|done| |].
  - unfold call_ok. rewrite Ep, Hps. by destruct n.
  - destruct n; by intros ? ?%not_elem_of_nil.
Qed.

Lemma inv_awake s i w d clk k c : Inv s → runs s i → c_calls s !! i = Some (Awake w d) →
  futex_wait_awake (c_kernel s) i w d clk = Ret (k, c) →
  Inv (mkConfig k (c_mem s) (<[i := c]> (c_calls s)) (c_log s)).
Proof.
  intros Hinv Hr Hc E. destruct (Hr) as [Hi Hst]. pose proof (inv_ok s Hinv) as Hk.
  unfold futex_wait_awake in E. rewrite get_pcb_spec in E by done. cbn [obind] in E.
  destruct (Z.eqb_spec (_futex_key (pcb (c_kernel s) i)) 0) as [E0|E0].
  2: { injection E as <- <-. apply (inv_before s i _ _ Hinv Hr Hc); [done|]. left. eauto. }
  apply waiter_key_none in E0.
  assert (∀ r, Inv (mkConfig (c_kernel s) (c_mem s) (<[i := Returned r]> (c_calls s)) (c_log s))) as Hret.
  { intros r. apply (inv_move s i _ _ Hinv Hr Hc); [done| |by intros ? ?%not_elem_of_nil]. unfold call_ok. by rewrite Hst. }
  assert (∀ p' k' c', same_channel (pcb (c_kernel s) i) p' → key_of p' = no_key → _state p' = RUNNING →
    (∃ r, c' = Returned r) ∨ (∃ w b d, c' = Loop w b d) → put_pcb (c_kernel s) i p' = Ret k' →
    Inv (mkConfig k' (c_mem s) (<[i := c']> (c_calls s)) (c_log s))) as Hput.
  { intros p' k' c' Hsc Hp' Hs' Hc' Eput. destruct (put_pcb_spec (c_kernel s) i p' Hk Hi Hsc) as (k1 & E1 & Ht).
    rewrite E1 in Eput. injection Eput as <-.
    apply (inv_own s i _ _ _ _ Hinv Hi Ht); [by apply bits_of_refl|done|done|done| |].
    - unfold call_ok. rewrite (touch_self _ _ _ _ _ Hk Hi Ht), Hs'. by destruct Hc' as [[r ->]|(w' & b' & d' & ->)].
    - destruct Hc' as [[r ->]|(w' & b' & d' & ->)]; by intros ? ?%not_elem_of_nil. }
  destruct (signal_pending _); [by injection E as <- <-|]. destruct (w_ts w) as [ts|]; [|by injection E as <- <-].
  destruct (_ =? ETIMEDOUT); [|by injection E as <- <-]. destruct (w_absolute w).
  - destruct (clock_gettime clk _) as [now|]; [|by injection E as <- <-].
    destruct (_ <? 0); obind_inv E; injection E as <- <-; (eapply Hput; [..|eassumption]; [done|exact E0|exact Hst|eauto 10]).
  - obind_inv E. injection E as <- <-. (eapply Hput; [..|eassumption]; [done|exact E0|exact Hst|eauto 10]).
Qed.

End with_address_spaces.
End FutexWait.
