(* ===== verification/FutexWake.v ===== *)
(** * The regions of [futex_wakeup] keep the invariant *)
From S2P Require Import Prelude Sleep SleepRep SleepOps Futex FutexSystem FutexOps FutexInv FutexWait.
Import Sleep SleepRep SleepOps Futex FutexSystem FutexOps FutexInv FutexOthers FutexWait.

Module FutexWake.

(** ** One iteration of the scan *)

Definition word_at (k : Kernel) (j : WakeJob) (w : Z) : Z := g_futex_buckets k !!! Z.to_nat (source_bucket_index j) !!! Z.to_nat w.

Lemma load_word_spec k j w c1 c2 : Ok k → 0 ≤ w < 8 →
  load_word k j w c1 c2 = Ret (mkScan w (word_at k j w) c1 c2) ∧ word_ok (word_at k j w).
Proof.
  intros Hk Hw. unfold load_word, word_at.
  destruct (bucket_lookup _ (source_bucket_index j) (ok_buckets k Hk) (futex_bucket_range _)) as [-> Hok]. cbn [obind].
  destruct (word_lookup _ w Hok Hw) as [-> Hwo]. done.
Qed.

(** The job has what it asked for. *)
Definition satisfied (j : WakeJob) (c1 c2 : Z) : bool :=
  (j_val j <=? c1) && (negb (can_requeue j) || (j_val2 j <=? c2)).

Inductive Iteration (k : Kernel) (j : WakeJob) (s : Scan) : Kernel → Scan + Z * Z → Prop :=
  | iteration_word :
      s_bits s = 0 → s_word s + 1 < 8 →
      Iteration k j s k (inl (mkScan (s_word s + 1) (word_at k j (s_word s + 1)) (s_count1 s) (s_count2 s)))
  | iteration_end :
      s_bits s = 0 → s_word s = 7 → Iteration k j s k (inr (s_count1 s, s_count2 s))
  | iteration_turn t idx bits k' p bs c1 c2 :
      lowest (s_bits s) idx → t = s_word s * 64 + idx → slot t →
      word_ok bits → (∀ n, 0 ≤ n → Z.testbit bits n = negb (bool_decide (n = idx)) && Z.testbit (s_bits s) n) →
      bits_of k t bs → Touch k t p bs k' → Turn k j t (s_count1 s) (s_count2 s) p bs c1 c2 →
      Iteration k j s k' (if satisfied j c1 c2 then inr (c1, c2) else inl (mkScan (s_word s) bits c1 c2)).

Lemma wakeup2_step_spec k j s : Ok k → JobOk j → 0 ≤ s_word s < 8 → word_ok (s_bits s) →
  ∃ k' r, wakeup2_step k j s = Ret (k', r) ∧ Iteration k j s k' r.
Proof.
  intros Hk Hj Hw Hbits. destruct s as [w bits c1 c2]. unfold wakeup2_step. cbn [s_word s_bits] in *.
  change k_futex_word_count with 8. destruct (Z.eqb_spec bits 0) as [->|Hne].
  - destruct (Z.ltb_spec (w + 1) 8).
    + destruct (load_word_spec k j (w + 1) c1 c2 Hk ltac:(lia)) as [-> _]. cbn [obind].
      eexists k, _. split; [done|]. by apply (iteration_word k j (mkScan w 0 c1 c2)).
    + eexists k, _. split; [done|]. apply (iteration_end k j (mkScan w 0 c1 c2)); cbn; [done|lia].
  - destruct (lowest_exists bits Hbits Hne) as (idx & Hl). pose proof (proj1 Hl) as Hidx.
    rewrite (lowest_bit_spec 64 bits 0 idx Hbits Hl) by lia. cbn [obind].
    assert (slot (w * 64 + idx)) as Ht by (unfold slot, num_process; lia).
    rewrite (proj2 (Z.leb_gt _ _)) by apply Ht.
    destruct (turn_spec k j (w * 64 + idx) c1 c2 Hk Ht Hj) as (k' & p & bs & c1' & c2' & -> & Hbs & Htouch & Hturn).
    cbn [obind]. exists k', (if satisfied j c1' c2' then inr (c1', c2') else
      inl (mkScan w (Z.land bits (u64 (Z.lnot (u64 (Z.shiftl 1 idx))))) c1' c2')).
    split; [unfold satisfied; by destruct (_ && _)|].
    apply (iteration_turn k j (mkScan w bits c1 c2) (w * 64 + idx) idx _ k' p bs c1' c2'); [done..| | |done|done|done].
    + apply word_ok_land; [done|apply u64_range].
    + intros n Hn. by apply drop_bit_spec.
Qed.

Section with_address_spaces.
Context {AS : AddressSpaces}.

Notation key_of := futex_waiter_key_locked.
Notation index := futex_bucket_index_for_key.

(** ** Keys and locks *)

Lemma job_ok p uaddr val uaddr2 val2 scope incl expected j :
  futex_wakeup_keys p uaddr val uaddr2 val2 scope incl expected = inr j → JobOk j.
Proof.
  unfold futex_wakeup_keys. intros E.
  destruct (resolve_key p uaddr scope) as (H1 & H2 & _). destruct (resolve_key p uaddr2 scope) as (H3 & H4 & _).
  destruct (val <? 0); [done|]. destruct (_ && _); [done|]. destruct (uaddr =? 0); [done|].
  destruct (valid (resolve_futex_key p uaddr scope)) eqn:Hv; [|done]. cbn [negb] in E.
  destruct (Z.eqb_spec uaddr2 nullptr); [injection E as <-; by split|].
  destruct (valid (resolve_futex_key p uaddr2 scope)) eqn:Hv2; [|done]. injection E as <-. split; cbn; [done..|].
  intros. by rewrite H2, H4.
Qed.

Lemma inv_wake_start s i uaddr val uaddr2 val2 scope incl expected : Inv s → runs s i → idle s i →
  Inv (mkConfig (c_kernel s) (c_mem s)
    (<[i := match futex_wakeup_keys (pcb (c_kernel s) i) uaddr val uaddr2 val2 scope incl expected with
            | inl e => Returned e | inr j => WantFirst j end]> (c_calls s)) (c_log s)).
Proof.
  intros Hinv [Hi Hst] Hid. pose proof (inv_ok s Hinv) as Hk. pose proof (idle_no_key s i Hinv Hi Hid) as Hkey.
  apply (inv_own s i _ (pcb (c_kernel s) i) (g_futex_buckets (c_kernel s)));
    [done|done|by apply touch_refl|by apply bits_of_refl|by apply (inv_listed s Hinv)|done|by rewrite Hst| |].
  - unfold call_ok. rewrite Hst. split; [done|]. destruct (futex_wakeup_keys _ _ _ _ _ _ _ _) eqn:E; [done|].
    by eapply job_ok.
  - destruct (futex_wakeup_keys _ _ _ _ _ _ _ _); by intros ? ?%not_elem_of_nil.
Qed.

Lemma inv_first s i j : Inv s → runs s i → c_calls s !! i = Some (WantFirst j) → free s (first_bucket j) →
  Inv (mkConfig (c_kernel s) (c_mem s)
    (<[i := match second_bucket j with Some _ => WantSecond j | None => Locked j end]> (c_calls s)) (c_log s)).
Proof.
  intros Hinv Hr Hc Hf. destruct (inv_calls s Hinv _ _ Hc) as (Hi & _ & Hj). pose proof (proj2 Hr) as Hst.
  apply (inv_move s i _ _ Hinv Hr Hc).
  - done.
  - unfold call_ok. rewrite Hst. split; [done|]. by destruct (second_bucket j).
  - intros b Hb. apply own_free. destruct (second_bucket j) eqn:E2; cbn in Hb; unfold buckets_of in Hb; rewrite ?E2 in Hb;
      apply list_elem_of_singleton in Hb as ->; done.
Qed.

Lemma inv_second s i j : Inv s → runs s i → c_calls s !! i = Some (WantSecond j) →
  (∀ b, second_bucket j = Some b → free s b) →
  Inv (mkConfig (c_kernel s) (c_mem s) (<[i := Locked j]> (c_calls s)) (c_log s)).
Proof.
  intros Hinv Hr Hc Hf. destruct (inv_calls s Hinv _ _ Hc) as (Hi & _ & Hj). pose proof (proj2 Hr) as Hst.
  apply (inv_move s i _ _ Hinv Hr Hc); [done| |].
  - unfold call_ok. by rewrite Hst.
  - intros b. cbn. unfold buckets_of. rewrite elem_of_cons. intros [->|Hb].
    + apply (own_held s i _ _ Hinv Hc). by left.
    + apply own_free, Hf. destruct (second_bucket j); cbn in Hb; [by apply list_elem_of_singleton in Hb as ->|by apply not_elem_of_nil in Hb].
Qed.

(** ** The scan *)

Lemma active_index v idx : word_ok v → lowest v idx → active_slot_bit_index v = idx.
Proof.
  intros Hv Hl. apply (lowest_unique v); [|done]. apply active_slot_bit_index_lowest; [done|].
  intros ->. destruct Hl as (_ & Hb & _). by rewrite Z.bits_0 in Hb.
Qed.

Lemma bit_ahead k j w i : slot i → i / 64 = w → waits k (source_bucket_index j) i = true →
  Z.testbit (word_at k j w) (i mod 64) = true.
Proof. intros Hi <- H. exact H. Qed.

(** The waiters of a word about to be scanned are ahead. *)
Lemma ahead_start s j w c1 c2 : Inv s → JobOk j →
  (∀ i, slot i → stray i (c_log s) = false → sleeps_on (pcb (c_kernel s) i) (j_key j) → w ≤ i / 64) →
  ∀ i, slot i → stray i (c_log s) = false → sleeps_on (pcb (c_kernel s) i) (j_key j) →
    ahead (mkScan w (word_at (c_kernel s) j w) c1 c2) i.
Proof.
  intros Hinv Hj Hge i Hi Hns Hs. specialize (Hge i Hi Hns Hs). unfold ahead. cbn.
  destruct (decide (w < i / 64)); [by left|]. right. split; [lia|]. apply bit_ahead; [done|lia|].
  destruct Hs as [_ Hs]. destruct (inv_listed s Hinv i Hi Hns) as [Hm _].
  - rewrite Hs. destruct (job_key j Hj) as [_ Hv]. by intros E; rewrite E in Hv.
  - by rewrite Hs in Hm.
Qed.

Lemma unsatisfied j c1 c2 : satisfied j c1 c2 = false → c1 < j_val j ∨ can_requeue j = true ∧ c2 < j_val2 j.
Proof.
  unfold satisfied. intros [H|H]%andb_false_iff; [left; by apply Z.leb_gt|right].
  apply orb_false_iff in H as [H1 H2]. split; [by apply negb_false_iff|by apply Z.leb_gt].
Qed.

Lemma inv_locked s i j k c ev : Inv s → runs s i → c_calls s !! i = Some (Locked j) →
  (let! p := get_pcb (c_kernel s) i in
   match check_expected (c_mem s) p j with
   | Some e => Ret (c_kernel s, Returned e, [])
   | None =>
       if wakeup2_void j then Ret (c_kernel s, Returned (wakeup_return 0), []) else
       let! s' := load_word (c_kernel s) j 0 0 0 in Ret (c_kernel s, Scanning j s', [])
   end) = Ret (k, c, ev) →
  Inv (mkConfig k (c_mem s) (<[i := c]> (c_calls s)) (ev ++ c_log s)).
Proof.
  intros Hinv Hr Hc E. destruct (inv_calls s Hinv _ _ Hc) as (Hi & _ & Hj). pose proof (proj2 Hr) as Hst.
  pose proof (inv_ok s Hinv) as Hk. rewrite get_pcb_spec in E by done. cbn [obind] in E.
  assert (∀ r, Inv (mkConfig (c_kernel s) (c_mem s) (<[i := Returned r]> (c_calls s)) (c_log s))) as Hret.
  { intros r. apply (inv_move s i _ _ Hinv Hr Hc); [done| |by intros ? ?%not_elem_of_nil]. unfold call_ok. by rewrite Hst. }
  destruct (check_expected _ _ _); [by injection E as <- <- <-|].
  destruct (wakeup2_void j) eqn:Hvoid; [by injection E as <- <- <-|].
  destruct (load_word_spec (c_kernel s) j 0 0 0 Hk ltac:(lia)) as [El Hwo]. rewrite El in E. injection E as <- <- <-. cbn [app].
  apply (inv_move s i _ _ Hinv Hr Hc); [done| |intros b Hb; by apply (own_held s i _ _ Hinv Hc)].
  unfold call_ok. rewrite Hst. split_and!; [done..|]. split; cbn; [lia|done| |].
  - unfold wakeup2_void in Hvoid. apply orb_false_iff in Hvoid as [Hvoid H3]. apply orb_false_iff in Hvoid as [H1%Z.ltb_ge H2%Z.ltb_ge].
    destruct (Z.eqb_spec (j_val j) 0) as [E0|]; [|left; lia]. cbn in H3. apply negb_false_iff in H3. right. split; [done|].
    unfold can_requeue in H3. bool_facts. done.
  - intros _. apply ahead_start; [done..|]. intros i' Hi' _ _. apply Z.div_pos; [apply Hi'|lia].
Qed.

Lemma inv_next_word s i j sc : Inv s → runs s i → c_calls s !! i = Some (Scanning j sc) →
  s_bits sc = 0 → s_word sc + 1 < 8 →
  Inv (mkConfig (c_kernel s) (c_mem s) (<[i := Scanning j (mkScan (s_word sc + 1)
    (word_at (c_kernel s) j (s_word sc + 1)) (s_count1 sc) (s_count2 sc))]> (c_calls s)) (c_log s)).
Proof.
  intros Hinv Hr Hc Hb Hw. destruct (inv_calls s Hinv _ _ Hc) as (Hi & _ & Hj & Hsc). pose proof (proj2 Hr) as Hst.
  pose proof (inv_ok s Hinv) as Hk. destruct Hsc as [H1 H2 H3 H4].
  apply (inv_move s i _ _ Hinv Hr Hc); [done| |intros b Hb'; by apply (own_held s i _ _ Hinv Hc)].
  unfold call_ok. rewrite Hst. split_and!; [done..|]. split; cbn; [lia| |done|].
  - apply (load_word_spec (c_kernel s) j (s_word sc + 1) 0 0 Hk). lia.
  - intros Hd. apply ahead_start; [done..|]. intros i' Hi' Hns Hs. specialize (H4 Hd i' Hi' Hns Hs). unfold ahead in H4.
    rewrite Hb, Z.bits_0 in H4. destruct H4 as [|[_ ?]]; [lia|done].
Qed.

Lemma scan_counts_bits s i j sc c : Inv s → c_calls s !! i = Some (Scanning j sc) →
  s_bits sc = 0 → s_word sc = 7 → distinct j → c ≠ i →
  ∀ p, p = pcb (c_kernel s) c → slot c → stray c (c_log s) = false → ¬ sleeps_on p (j_key j).
Proof.
  intros Hinv Hc Hb Hw Hd _ p -> Hi' Hns Hs. destruct (inv_calls s Hinv _ _ Hc) as (_ & _ & _ & Hsc).
  pose proof (scan_ahead _ _ _ _ Hsc Hd c Hi' Hns Hs) as Ha. unfold ahead in Ha. rewrite Hb, Hw, Z.bits_0 in Ha.
  pose proof (slot_word c Hi'). destruct Ha as [|[_ ?]]; [lia|done].
Qed.

Lemma inv_scan_end s i j sc : Inv s → runs s i → c_calls s !! i = Some (Scanning j sc) →
  s_bits sc = 0 → s_word sc = 7 →
  Inv (mkConfig (c_kernel s) (c_mem s) (<[i := Returned (wakeup_return (wakeup2_result j (s_count1 sc) (s_count2 sc)))]> (c_calls s))
    ((if complete j (s_count1 sc) (s_count2 sc) then [Settled (j_key j)] else []) ++ c_log s)).
Proof.
  intros Hinv Hr Hc Hb Hw. destruct (inv_calls s Hinv _ _ Hc) as (Hi & _ & Hj & Hsc). pose proof (proj2 Hr) as Hst.
  pose proof (inv_ok s Hinv) as Hk.
  assert (∀ x, stray x ((if complete j (s_count1 sc) (s_count2 sc) then [Settled (j_key j)] else []) ++ c_log s)
    = stray x (c_log s)) as Hst' by (intros x; by destruct (complete _ _ _)).
  apply (inv_call s i _ i (pcb (c_kernel s) i) (g_futex_buckets (c_kernel s)));
    [done|done|done|by apply touch_refl|by apply bits_of_refl|rewrite Hst'; by apply (inv_listed s Hinv)| | |done| | |].
  - intros x _. by rewrite Hst'.
  - intros t Ht Hne. destruct (inv_waiter s Hinv t Ht Hne) as (c & Hc' & Hw'). exists c. split; [|done].
    rewrite lookup_insert_ne; [done|]. intros <-. rewrite Hc in Hc'. by injection Hc' as <-.
  - intros i1 c Hne _ Hc1. split; [intros key Hk0; rewrite Hst'; by left|]. intros Hns. rewrite Hst' in Hns. split; [done|].
    destruct (complete _ _ _) eqn:Hcomp; [|done].
    destruct (inv_calls s Hinv _ _ Hc1) as (Hi1 & _ & Hok1).
    intros Hcase Hu. cbn. rewrite bool_decide_eq_false_2; [done|]. intros Ekey.
    destruct Hcase as [Hs|(w & d & key & ->)].
    + apply andb_true_iff in Hcomp as [_ Hd%negb_true_iff].
      eapply (scan_counts_bits s i j sc i1 Hinv Hc Hb Hw); [|done|reflexivity|done|done|by split].
      intros Hcr Eq. rewrite Hcr, bool_decide_eq_true_2 in Hd by done. done.
    + destruct Hok1 as (_ & _ & _ & E1). destruct (E1 Hns) as [E2 _].
      apply Hne. apply (inv_locks s Hinv i1 i _ _ (source_bucket_index j) Hc1 Hc).
      * cbn. rewrite <- E2, <- Ekey. by left.
      * apply source_held.
  - unfold call_ok. by rewrite Hst.
  - by intros i1 c b _ _ ?%not_elem_of_nil.
Qed.

(** *** A turn *)

Lemma requeued_key j b p : JobOk j → mixed j p = false → j_uaddr2 j ≠ nullptr → key_of p = j_key j →
  key_of (requeued j b p) = j_key2 j.
Proof.
  intros Hj Hun Hu Hp. destruct (job_key2 j Hj Hu) as [Hc Hv]. destruct (job_key j Hj) as [_ Hv1]. unfold valid in Hv, Hv1. bool_facts.
  unfold mixed in Hun. unfold futex_waiter_key_locked in *. cbn. rewrite (proj2 (Z.eqb_neq _ _)) by done.
  destruct (is_private (j_key2 j)) eqn:E2.
  - assert (memory_manager p = private_mm (j_key2 j)) as Emm.
    { destruct (is_private (j_key j)) eqn:E1.
      - rewrite (job_mm j Hj E1 E2), <- Hp. destruct (_futex_key p =? k_futex_key_invalid); [by rewrite <- Hp in Hv1|].
        rewrite <- Hp in E1. cbn in *. by rewrite E1.
      - cbn in Hun. apply negb_false_iff, Z.eqb_eq in Hun. done. }
    rewrite Emm. destruct (j_key2 j) as [v2 m2 b2]; cbn in *. by subst b2.
  - destruct (j_key2 j) as [v2 m2 b2]; cbn in *. subst b2. by rewrite Hc.
Qed.

Lemma can_requeue_uaddr j : can_requeue j = true → j_uaddr2 j ≠ nullptr ∧ target_bucket_index j = index (j_key2 j).
Proof.
  unfold can_requeue, target_bucket_index. intros H. bool_facts. split; [done|]. by rewrite (proj2 (Z.eqb_neq _ _)).
Qed.

(** What a turn of the scan of [j] does to the key and the sleep of its process. *)
Lemma turn_facts k j t c1 c2 p bs c1' c2' : JobOk j → slot t → Turn k j t c1 c2 p bs c1' c2' →
  (listed_in k t → (c2' = c2 + 1 → mixed j (pcb k t) = false) → listed p bs t) ∧
  (key_of p ≠ no_key → key_of (pcb k t) ≠ no_key) ∧
  (∀ key, key ≠ no_key → sleeps_on p key → (c2' = c2 + 1 → mixed j (pcb k t) = false) →
     sleeps_on (pcb k t) key ∨ c2' = c2 + 1 ∧ key = j_key2 j ∧ can_requeue j = true) ∧
  (c2' = c2 ∨ c2' = c2 + 1).
Proof.
  intros Hj Ht [bs0 Hwhy Hsame|bs0 Ek Est Hc|bs0 b Ek Est Hc Hcr Hc2 Hm].
  - split_and!; [|done|by left|by left]. intros Hl _ Hne. rewrite Hsame by (by rewrite <- waiter_key_none). by apply Hl.
  - split_and!; [done|done| |by left]. by intros key _ [? _].
  - destruct (can_requeue_uaddr j Hcr) as [Hu Et]. destruct (job_key j Hj) as [_ Hv]. split_and!; [| | |by right].
    + intros _ Hmix _. rewrite (requeued_key j b _ Hj (Hmix eq_refl) Hu Ek), <- Et. done.
    + intros _. rewrite Ek. intros E. by rewrite E in Hv.
    + intros key _ [_ Hs] Hmix. right. rewrite <- Hs, (requeued_key j b _ Hj (Hmix eq_refl) Hu Ek). done.
Qed.

(** The events of a turn. *)
Definition turn_events (k : Kernel) (j : WakeJob) (t c2 c2' : Z) : list Event := if c2 <? c2' then moves k j t else [].

Lemma turn_stray k j t c2 c2' log x : stray x (turn_events k j t c2 c2' ++ log) = false → stray x log = false.
Proof.
  unfold turn_events, moves. destruct (_ <? _); [|done]. cbn. destruct (mixed _ _); cbn; [|done]. by intros [_ ?]%orb_false_iff.
Qed.

Lemma turn_unmixed k j t c2 c2' log : stray t (turn_events k j t c2 c2' ++ log) = false → c2' = c2 + 1 →
  mixed j (pcb k t) = false.
Proof.
  unfold turn_events, moves. intros H ->. rewrite (proj2 (Z.ltb_lt _ _)) in H by lia. cbn in H.
  destruct (mixed _ _); [|done]. cbn in H. by rewrite Z.eqb_refl in H.
Qed.

Lemma turn_unsettled k j t c2 c2' log key : unsettled key log = true → unsettled key (turn_events k j t c2 c2' ++ log) = true.
Proof.
  intros Hu. unfold turn_events, moves. destruct (_ <? _); [|done]. cbn. destruct (mixed _ _); cbn; by rewrite Hu, orb_true_r.
Qed.

Lemma turn_keeps k j t c2 c2' log x p c : keeps log (turn_events k j t c2 c2' ++ log) x p c.
Proof. intros Hns. split; [by eapply turn_stray|]. intros _. apply turn_unsettled. Qed.

(** The lock of the target bucket keeps the scans of others undisturbed. *)
Lemma turn_calm s j i t sc p bs c1' c2' x c : Inv s → JobOk j → slot t → c_calls s !! i = Some (Scanning j sc) →
  x ≠ i → c_calls s !! x = Some c → Turn (c_kernel s) j t (s_count1 sc) (s_count2 sc) p bs c1' c2' →
  calm (c_log s) (turn_events (c_kernel s) j t (s_count2 sc) c2' ++ c_log s) (c_kernel s) t p c.
Proof.
  intros Hinv Hj Ht Hci Hne Hc Hturn key Hk0 Hns Hs.
  destruct (turn_facts (c_kernel s) j t _ _ p bs _ _ Hj Ht Hturn) as (_ & _ & Hsl & _).
  destruct (Hsl key Hk0 Hs) as [|(_ & -> & Hcr)]; [by eapply turn_unmixed|left; split; [by eapply turn_stray|done]|right].
  destruct (can_requeue_uaddr j Hcr) as [_ <-]. by apply (own_held s i _ _ Hinv Hci (target_held j) x c Hne Hc).
Qed.

(** The call of the process whose turn it is. *)
Lemma turn_call_ok s j i t sc p bs k' c1' c2' c : Inv s → JobOk j → slot t → t ≠ i →
  c_calls s !! i = Some (Scanning j sc) → c_calls s !! t = Some c →
  Touch (c_kernel s) t p bs k' → Turn (c_kernel s) j t (s_count1 sc) (s_count2 sc) p bs c1' c2' →
  call_ok (c_mem s) (turn_events (c_kernel s) j t (s_count2 sc) c2' ++ c_log s) k' t c.
Proof.
  intros Hinv Hj Ht Hne Hci Hc Htouch Hturn. pose proof (inv_ok s Hinv) as Hk.
  destruct (inv_calls s Hinv t c Hc) as [_ Hok].
  pose proof (turn_calm s j i t sc p bs c1' c2' t c Hinv Hj Ht Hci Hne Hc Hturn) as Hcalm.
  assert (strays_on t (c_log s) (turn_events (c_kernel s) j t (s_count2 sc) c2' ++ c_log s)) as Hstray
    by (intros x _; apply turn_stray).
  pose proof (λ x p c, turn_keeps (c_kernel s) j t (s_count2 sc) c2' (c_log s) x p c) as Hkeep.
  destruct Hturn as [bs0 Hwhy Hsame|bs0 Ek Est Hcnt|bs0 b Ek Est Hcnt Hcr Hc2 Hm].
  - apply (call_ok_stable _ (c_log s) _ (c_kernel s) t (pcb (c_kernel s) t) bs0); [done..| |done|done|done|done].
    intros _. split; [by left|done|by left|done|done].
  - apply (call_ok_stable _ (c_log s) _ (c_kernel s) t (released (pcb (c_kernel s) t)) bs0); [done..| |done|done|done|done].
    intros _. assert (holds c = []) as Hh.
    { destruct (holds c) eqn:Eh; [done|]. destruct Hok as [[_ Hrun] _]. rewrite Hrun in Est by (by rewrite Eh). by destruct Est. }
    split; [done|done|by right|by rewrite Hh|]. by intros w d key ->.
  - destruct Hok as [[Hs Hrun] Hok]. specialize (Hs Est). destruct (can_requeue_uaddr j Hcr) as [Hu Et].
    destruct (job_key2 j Hj Hu) as [_ Hv2].
    unfold call_ok. rewrite (touch_self _ _ _ _ _ Hk Ht Htouch). split.
    { split; [done|]. intros Hh. cbn. by apply Hrun. }
    destruct c; try done.
    intros _ Hns. pose proof (requeued_key j b _ Hj (turn_unmixed _ _ _ _ _ _ Hns eq_refl) Hu Ek) as Hk2. rewrite Hk2.
    split_and!; [intros E; by rewrite E in Hv2|done|]. right. rewrite Hk2. unfold turn_events, moves.
    rewrite (proj2 (Z.ltb_lt _ _)) by lia. cbn. by rewrite bool_decide_eq_true_2.
Qed.

(** The rest of the scan has everyone who still sleeps on the key before it. *)
Lemma turn_scan_ok s j i t sc idx bits p bs k' c1' c2' : Inv s → JobOk j → slot t →
  c_calls s !! i = Some (Scanning j sc) → lowest (s_bits sc) idx → t = s_word sc * 64 + idx →
  word_ok bits → (∀ n, 0 ≤ n → Z.testbit bits n = negb (bool_decide (n = idx)) && Z.testbit (s_bits sc) n) →
  Touch (c_kernel s) t p bs k' → Turn (c_kernel s) j t (s_count1 sc) (s_count2 sc) p bs c1' c2' →
  satisfied j c1' c2' = false →
  ScanOk (turn_events (c_kernel s) j t (s_count2 sc) c2' ++ c_log s) k' j (mkScan (s_word sc) bits c1' c2').
Proof.
  intros Hinv Hj Ht Hc Hl Et Hwo Hbits Htouch Hturn Hsat. pose proof (inv_ok s Hinv) as Hk.
  destruct (inv_calls s Hinv _ _ Hc) as (_ & _ & _ & [H1 H2 H3 H4]).
  split; cbn; [done|done|by apply unsatisfied|]. intros Hd x Hx Hns Hs.
  rewrite (touch_pcb _ _ _ _ _ _ Hk Ht Hx Htouch) in Hs. case_bool_decide as E.
  - exfalso. subst x. destruct Hs as [Hs1 Hs2]. destruct Hturn as [bs0 Hwhy _|bs0 _ _ _|bs0 b Ek _ _ Hcr _ _].
    + destruct Hwhy as [?|[[? _]|[Hv Hv2]]]; [done|done|]. destruct H3 as [?|[Hcr ?]]; [lia|]. specialize (Hv2 Hs1 Hcr). lia.
    + done.
    + destruct (can_requeue_uaddr j Hcr) as [Hu _].
      rewrite (requeued_key j b _ Hj (turn_unmixed _ _ _ _ _ _ Hns eq_refl) Hu Ek) in Hs2. by apply (Hd Hcr).
  - apply turn_stray in Hns. destruct (H4 Hd x Hx Hns Hs) as [Ha|[Ha1 Ha2]]; [by left|right]. cbn. split; [done|].
    pose proof (Z.mod_pos_bound x 64 ltac:(lia)). rewrite Hbits by lia. rewrite Ha2, andb_true_r, negb_true_iff.
    apply bool_decide_eq_false. intros Em. apply E. rewrite Et, <- Ha1, <- Em. rewrite (Z.div_mod x 64) at 1 by lia. lia.
Qed.

Lemma inv_turn s i j sc t idx bits k' p bs c1 c2 : Inv s → runs s i → c_calls s !! i = Some (Scanning j sc) →
  lowest (s_bits sc) idx → t = s_word sc * 64 + idx → slot t → word_ok bits →
  (∀ n, 0 ≤ n → Z.testbit bits n = negb (bool_decide (n = idx)) && Z.testbit (s_bits sc) n) →
  bits_of (c_kernel s) t bs → Touch (c_kernel s) t p bs k' →
  Turn (c_kernel s) j t (s_count1 sc) (s_count2 sc) p bs c1 c2 →
  ∀ c', (c' = Scanning j (mkScan (s_word sc) bits c1 c2) ∧ satisfied j c1 c2 = false ∨ ∃ r, c' = Returned r) →
  Inv (mkConfig k' (c_mem s) (<[i := c']> (c_calls s))
    (turn_events (c_kernel s) j t (s_count2 sc) c2 ++ c_log s)).
Proof.
  intros Hinv Hr Hc Hl Et Ht Hwo Hbits Hbs Htouch Hturn c' Hc'. pose proof (inv_ok s Hinv) as Hk.
  destruct (inv_calls s Hinv _ _ Hc) as (Hi & _ & Hj & Hsc). pose proof (proj2 Hr) as Hst.
  pose proof (turn_facts (c_kernel s) j t _ _ p bs _ _ Hj Ht Hturn) as (Hlist & Hkeys & Hsl & _).
  assert (∀ x, slot x → key_of (pcb (c_kernel s) x) ≠ no_key → x ≠ i) as Hnoti.
  { intros x Hx Hne ->. destruct (inv_waiter s Hinv i Hx Hne) as (c & Hci & Hw). rewrite Hc in Hci. by injection Hci as <-. }
  apply (inv_call s i c' t p bs); [done..| |intros x _; apply turn_stray| | | | |].
  - intros Hns. apply Hlist; [apply (inv_listed s Hinv t Ht); by eapply turn_stray|by eapply turn_unmixed].
  - intros x Hx Hne. rewrite (touch_pcb _ _ _ _ _ _ Hk Ht Hx Htouch) in Hne.
    assert (key_of (pcb (c_kernel s) x) ≠ no_key) as Hne' by (case_bool_decide; [subst x; by apply Hkeys|done]).
    rewrite lookup_insert_ne; [by apply (inv_waiter s Hinv)|]. intros <-. by apply (Hnoti i).
  - intros c Hne Hct. by apply (turn_call_ok s j i t sc p bs k' c1 c2 c).
  - intros i1 c Hne _ Hc1. split; [by apply (turn_calm s j i t sc p bs c1 c2 i1 c)|apply turn_keeps].
  - assert (_state (pcb k' i) = RUNNING) as Hst'.
    { rewrite (touch_pcb _ _ _ _ _ _ Hk Ht Hi Htouch). case_bool_decide as E; [|done]. subst i.
      destruct Hturn as [?|? Ek|? ? Ek]; [done|..]; exfalso; apply (Hnoti t Ht); try done;
        rewrite Ek; destruct (job_key j Hj) as [_ Hv]; intros E; by rewrite E in Hv. }
    unfold call_ok. rewrite Hst'. split; [done|]. destruct Hc' as [[-> Hsat]|[r ->]]; [|done].
    split_and!; [done..|]. by apply (turn_scan_ok s j i t sc idx bits p bs).
  - intros i1 c b Hne Hc1 Hb. destruct Hc' as [[-> _]|[r ->]]; [|by apply not_elem_of_nil in Hb].
    by apply (own_held s i _ _ Hinv Hc Hb i1 c).
Qed.

Lemma satisfied_incomplete j c1 c2 : satisfied j c1 c2 = true → complete j c1 c2 = false.
Proof.
  unfold satisfied, complete. intros [H1 H2]%andb_true_iff. apply Z.leb_le in H1.
  rewrite (proj2 (Z.ltb_ge _ _)) by done. cbn. apply orb_true_iff in H2 as [H2|H2].
  - apply negb_true_iff in H2. by rewrite H2.
  - apply Z.leb_le in H2. rewrite (proj2 (Z.ltb_ge _ _)) by done. by rewrite andb_false_r.
Qed.

Lemma inv_scan s i j sc k c ev : Inv s → runs s i → c_calls s !! i = Some (Scanning j sc) →
  scan_step (c_kernel s) j sc = Ret (k, c, ev) →
  Inv (mkConfig k (c_mem s) (<[i := c]> (c_calls s)) (ev ++ c_log s)).
Proof.
  intros Hinv Hr Hc E. destruct (inv_calls s Hinv _ _ Hc) as (Hi & _ & Hj & Hsc).
  destruct (wakeup2_step_spec (c_kernel s) j sc (inv_ok s Hinv) Hj (scan_word _ _ _ _ Hsc) (scan_bits _ _ _ _ Hsc)) as (k' & r & E' & Hit).
  unfold scan_step in E. rewrite E' in E. cbn [obind] in E.
  destruct Hit as [Hb Hw|Hb Hw|t idx bits k' p bs c1 c2 Hl Et Ht Hwo Hbits Hbs Htouch Hturn].
  - injection E as <- <- <-. cbn [s_count2]. rewrite Z.ltb_irrefl. by apply inv_next_word.
  - injection E as <- <- <-. rewrite Z.ltb_irrefl, app_nil_r. by apply inv_scan_end.
  - rewrite (active_index (s_bits sc) idx (scan_bits _ _ _ _ Hsc) Hl), <- Et in E.
    destruct (satisfied j c1 c2) eqn:Hsat; injection E as <- <- <-.
    + rewrite (satisfied_incomplete _ _ _ Hsat). cbn [app].
      apply (inv_turn s i j sc t idx bits k' p bs c1 c2); eauto.
    + cbn [s_count2]. apply (inv_turn s i j sc t idx bits k' p bs c1 c2); eauto.
Qed.

End with_address_spaces.
End FutexWake.

(** * Every step keeps the invariant; every region returns; the order of the locks *)
Import Sleep SleepRep SleepOps Futex FutexSystem FutexOps FutexInv FutexOthers FutexWait FutexWake.

Module FutexReach.

Section with_address_spaces.
Context {AS : AddressSpaces}.

Notation key_of := futex_waiter_key_locked.
Notation index := futex_bucket_index_for_key.

(** ** The invariant holds in every reachable configuration *)

Lemma quiet_Ret m k c ev : quiet m = Ret (k, c, ev) → m = Ret (k, c) ∧ ev = [].
Proof. unfold quiet. intros E. obind_inv E. destruct x as [k' c']. by simplify_eq. Qed.

Lemma inv_region s i c clk loaded k c' ev : Inv s → runs s i → c_calls s !! i = Some c →
  (∀ b, needs c = Some b → free s b) → region (c_mem s) (c_kernel s) i c clk loaded = Ret (k, c', ev) →
  Inv (mkConfig k (c_mem s) (<[i := c']> (c_calls s)) (ev ++ c_log s)).
Proof.
  intros Hinv Hr Hc Hfree E. destruct (inv_calls s Hinv i c Hc) as [Hi Hok]. pose proof (inv_ok s Hinv) as Hk.
  destruct c; cbn [region] in E.
  - injection E as <- <- <-. destruct s as [k mem calls log]. cbn in *. by rewrite insert_id.
  - apply quiet_Ret in E as [E ->]. destruct (loop_spec (c_kernel s) i w has_slept deadline clk loaded Hk Hi) as (c & E' & Hb).
    rewrite E' in E. injection E as <- <-. by apply (inv_before s i _ c Hinv Hr Hc).
  - unfold enters in E. obind_inv E. destruct x as [k1 c1]. injection E as <- <- <-.
    eapply inv_publish; [done..| |done]. by apply Hfree.
  - apply quiet_Ret in E as [E ->]. by eapply inv_fall_asleep.
  - apply quiet_Ret in E as [E ->]. by eapply inv_resume.
  - apply quiet_Ret in E as [E ->]. by eapply inv_again.
  - apply quiet_Ret in E as [E ->]. by eapply inv_clear.
  - apply quiet_Ret in E as [E ->]. by eapply inv_awake.
  - injection E as <- <- <-. apply inv_first; [done..|]. by apply Hfree.
  - injection E as <- <- <-. by apply inv_second.
  - by apply (inv_locked s i j).
  - by apply (inv_scan s i j s0).
Qed.

Lemma inv_step s s' : Inv s → step s s' → Inv s'.
Proof.
  intros Hinv [].
  - by eapply inv_enter.
  - by apply inv_wake_start.
  - by eapply inv_region.
  - by apply inv_store.
  - by eapply inv_signal.
  - by eapply inv_schedule.
  - by eapply inv_preempt.
  - by eapply inv_sleep.
  - by eapply inv_slept.
  - by eapply inv_wakeup.
  - by eapply inv_expire.
  - by eapply inv_remove.
Qed.

Lemma futex_reachable_inv s : reachable s → Inv s.
Proof.
  induction 1 as [k mem [Hk Hkeys]|s s' _ IH Hstep]; [|by eapply inv_step].
  split; cbn; [done| | |by intros ? ? ?%lookup_empty_Some|by intros ? ? ? ? ? ?%lookup_empty_Some].
  - intros i Hi _ Hne. destruct Hne. apply waiter_key_none. by apply Hkeys.
  - intros i Hi Hne. destruct Hne. apply waiter_key_none. by apply Hkeys.
Qed.

(** ** Every region returns *)

Lemma awake_returns k i w d clk : Ok k → slot i → ∃ k' c, futex_wait_awake k i w d clk = Ret (k', c).
Proof.
  intros Hk Hi. unfold futex_wait_awake. rewrite get_pcb_spec by done. cbn [obind].
  destruct (_ =? 0); [|eauto]. destruct (signal_pending _); [eauto|]. destruct (w_ts w) as [ts|]; [|eauto].
  destruct (_ =? ETIMEDOUT); [|eauto].
  destruct (put_pcb_spec k i (with_deadline (pcb k i) 0)) as (k1 & -> & _); [done..|]. cbn [obind].
  destruct (w_absolute w); [|eauto]. destruct (clock_gettime clk _) as [now|]; [|eauto]. destruct (_ <? 0); [|eauto].
  destruct (put_pcb_spec k i (with_result (pcb k i) 0)) as (k2 & -> & _); [done..|]. cbn [obind]. eauto.
Qed.

Lemma again_returns k i w d : Ok k → slot i → ∃ k' c, futex_wait_again k i w d = Ret (k', c).
Proof.
  intros Hk Hi. unfold futex_wait_again. rewrite get_pcb_spec by done. cbn [obind].
  destruct (signal_pending _); [rewrite begin_clear_spec by done|]; eauto.
Qed.

Lemma scan_returns s i j sc : Inv s → c_calls s !! i = Some (Scanning j sc) →
  ∃ k c ev, scan_step (c_kernel s) j sc = Ret (k, c, ev).
Proof.
  intros Hinv Hc. destruct (inv_calls s Hinv _ _ Hc) as (_ & _ & Hj & Hsc).
  destruct (wakeup2_step_spec (c_kernel s) j sc (inv_ok s Hinv) Hj (scan_word _ _ _ _ Hsc) (scan_bits _ _ _ _ Hsc)) as (k' & r & E & _).
  unfold scan_step. rewrite E. cbn [obind]. destruct r as [s'|[c1 c2]]; eauto.
Qed.

Lemma region_returns s i c clk loaded : Inv s → c_calls s !! i = Some c →
  ∃ k c' ev, region (c_mem s) (c_kernel s) i c clk loaded = Ret (k, c', ev).
Proof.
  intros Hinv Hc. destruct (inv_calls s Hinv i c Hc) as (Hi & _ & Hok). pose proof (inv_ok s Hinv) as Hk.
  assert (∀ m, (∃ k c, m = Ret (k, c)) → ∃ k c' ev, quiet m = Ret (k, c', ev)) as Hquiet.
  { intros m (k & c' & ->). unfold quiet. cbn. eauto. }
  destruct c; cbn [region]; try apply Hquiet.
  - eauto.
  - destruct (loop_spec (c_kernel s) i w has_slept deadline clk loaded Hk Hi) as (c & -> & _). eauto.
  - destruct (publish_spec (c_mem s) (c_kernel s) i w has_slept deadline candidate Hk Hi) as (k & c & -> & _).
    unfold enters. cbn. eauto.
  - destruct Hok as [Hv _]. unfold valid in Hv. bool_facts. unfold futex_wait_sleep.
    destruct (sleep_enter_spec (c_kernel s) i (value key) Hk Hi) as (k' & b & -> & _); [done|]. cbn. eauto.
  - unfold futex_wait_resume, sleep_exit. destruct (unregister_spec (c_kernel s) i Hk Hi) as (k' & -> & _). cbn. eauto.
  - by apply again_returns.
  - destruct Hok as [Hcan _]. unfold futex_wait_clear.
    destruct (remove_spec (c_kernel s) i key Hk Hi Hcan) as (bs & k' & -> & _). cbn. eauto.
  - by apply awake_returns.
  - eauto.
  - eauto.
  - rewrite get_pcb_spec by done. cbn [obind]. destruct (check_expected _ _ _); [eauto|].
    destruct (wakeup2_void j); [eauto|]. destruct (load_word_spec (c_kernel s) j 0 0 0 Hk ltac:(lia)) as [-> _]. cbn. eauto.
  - by apply (scan_returns s i).
Qed.

(** ** Locks *)

Lemma held_or_free s b : (∃ i c, c_calls s !! i = Some c ∧ b ∈ holds c) ∨ free s b.
Proof.
  destruct (decide (map_Exists (λ _ c, b ∈ holds c) (c_calls s))) as [(i & c & H)|Hno]; [left; eauto|right].
  intros i c Hc Hb. apply Hno. exists i, c. done.
Qed.

Lemma second_above j b : second_bucket j = Some b → first_bucket j < b.
Proof. unfold second_bucket, first_bucket. destruct (Z.eqb_spec (target_bucket_index j) (source_bucket_index j)); [done|]. intros [= <-]. lia. Qed.

Lemma second_range j b : second_bucket j = Some b → b < 64.
Proof.
  unfold second_bucket. destruct (_ =? _); [done|]. intros [= <-].
  pose proof (target_range j). pose proof (futex_bucket_range (j_key j)). unfold bucket, source_bucket_index in *. lia.
Qed.

(** Among the calls that hold locks one needs none that is held. *)
Lemma some_holder_goes s i c b : c_calls s !! i = Some c → b ∈ holds c →
  ∃ i' c', c_calls s !! i' = Some c' ∧ holds c' ≠ [] ∧ ∀ b', needs c' = Some b' → free s b'.
Proof.
  remember (Z.to_nat (64 - b)) as n eqn:En. revert i c b En. induction n as [n IH] using lt_wf_ind. intros i c b -> Hc Hb.
  assert (holds c ≠ []) as Hne by (intros E; rewrite E in Hb; by apply not_elem_of_nil in Hb).
  destruct (needs c) as [b'|] eqn:En; [|exists i, c; by rewrite En].
  destruct (held_or_free s b') as [(i' & c' & Hc' & Hb')|Hf]; [|exists i, c; rewrite En; naive_solver].
  destruct c; cbn in Hb, En; try (by apply not_elem_of_nil in Hb); try done.
  apply list_elem_of_singleton in Hb as ->. pose proof (second_above j b' En). pose proof (second_range j b' En).
  apply (IH (Z.to_nat (64 - b')) ltac:(lia) i' c' b'); done.
Qed.

End with_address_spaces.
End FutexReach.
