(* ===== verification/FutexScan.v ===== *)
(** * [wakeup2] against its specification

    Which waiters a wakeup wakes and which it requeues, in terms of the list of all
    waiters of the key in the order of their slots. *)
From S2P Require Import Prelude Sleep SleepRep SleepOps Futex FutexSystem FutexOps FutexInv FutexWake.
Import Sleep SleepRep SleepOps SlotScan Futex FutexSystem FutexOps FutexInv FutexWake.

Module FutexScan.

Notation key_of := futex_waiter_key_locked.

(** ** The specification *)

Definition waits_for (k : Kernel) (j : WakeJob) (i : Z) : Prop :=
  key_of (pcb k i) = j_key j ∧ (_state (pcb k i) = SLEEPING ∨ _state (pcb k i) = RUNNABLE).

#[export] Instance waits_for_dec k j i : Decision (waits_for k j i).
Proof. unfold waits_for. apply _. Defined.

(** The waiters of the key, in the order of their slots. *)
Definition waiters (k : Kernel) (j : WakeJob) : list Z := base.filter (waits_for k j) (seqZ 0 num_process).

(** Of the waiters [l] the first [val] are woken, and of those after them the first
    [val2] that sleep are requeued. *)
Definition to_wake (j : WakeJob) (l : list Z) : list Z := take (Z.to_nat (j_val j)) l.
Definition to_move (k : Kernel) (j : WakeJob) (l : list Z) : list Z :=
  if can_requeue j
  then take (Z.to_nat (j_val2 j)) (base.filter (λ i, _state (pcb k i) = SLEEPING) (drop (Z.to_nat (j_val j)) l))
  else [].

(** The bucket of the key of [j] has the bits of the processes that wait for the key:
    true of processes whose entry was not damaged, see [inv_listed]. *)
Definition KeyListed (k : Kernel) (j : WakeJob) : Prop := ∀ i, slot i → waits_for k j i → listed_in k i.

(** [k] is [k0] with the processes [ws] woken and the processes [ms] requeued.  A process
    found in the bucket of its key before is found in that of its key now, unless it was
    moved from a shared to a private futex of another address space. *)
Record Served (k0 : Kernel) (j : WakeJob) (ws ms : list Z) (k : Kernel) : Prop := {
  served_ok : Ok k;
  served_listed i : slot i → listed_in k0 i → (i ∈ ms → mixed j (pcb k0 i) = false) → listed_in k i;
  served_slots i : i ∈ ws ++ ms → slot i;
  served_wake i : i ∈ ws → pcb k i = released (pcb k0 i);
  served_move i : i ∈ ms → ∃ b, pcb k i = requeued j b (pcb k0 i);
  served_rest i : slot i → i ∉ ws ++ ms → pcb k i = pcb k0 i
}.

(** ** One more waiter *)

Lemma to_wake_snoc j l t :
  to_wake j (l ++ [t]) = if bool_decide (Z.of_nat (length l) < j_val j) then to_wake j l ++ [t] else to_wake j l.
Proof.
  unfold to_wake. case_bool_decide.
  - rewrite !take_ge by (rewrite ?length_app; cbn; lia). done.
  - by rewrite take_app_le by lia.
Qed.

Lemma to_move_snoc k j l t :
  to_move k j (l ++ [t]) =
    if bool_decide (can_requeue j = true ∧ j_val j ≤ Z.of_nat (length l) ∧ _state (pcb k t) = SLEEPING ∧
                    Z.of_nat (length (to_move k j l)) < j_val2 j)
    then to_move k j l ++ [t] else to_move k j l.
Proof.
  unfold to_move. destruct (can_requeue j); [|by rewrite bool_decide_eq_false_2 by naive_solver].
  destruct (decide (j_val j ≤ Z.of_nat (length l))) as [Hle|Hgt].
  2: { rewrite !drop_ge by (rewrite ?length_app; cbn; lia). rewrite bool_decide_eq_false_2 by naive_solver. done. }
  rewrite drop_app_le by lia. set (X := drop _ l). rewrite filter_app.
  destruct (decide (_state (pcb k t) = SLEEPING)) as [Hs|Hs].
  2: { rewrite (filter_cons_False _ t) by done. rewrite filter_nil, app_nil_r.
       rewrite bool_decide_eq_false_2 by naive_solver. done. }
  rewrite (filter_cons_True _ t), filter_nil by done. set (Y := base.filter _ X). rewrite length_take.
  destruct (decide (Z.of_nat (length Y) < j_val2 j)) as [Hlt|Hge].
  - rewrite bool_decide_eq_true_2 by (split_and!; [done..|lia]). rewrite !take_ge by (rewrite ?length_app; cbn; lia). done.
  - rewrite take_app_le by lia. destruct (decide (0 ≤ j_val2 j)).
    + rewrite bool_decide_eq_false_2 by (intros (_ & _ & _ & ?); lia). done.
    + rewrite bool_decide_eq_false_2 by (intros (_ & _ & _ & ?); lia). done.
Qed.

Lemma to_wake_sub j l i : i ∈ to_wake j l → i ∈ l.
Proof. unfold to_wake. intros H. eapply elem_of_take in H as (n & H & _). by eapply list_elem_of_lookup_2. Qed.

Lemma to_move_sub k j l i : i ∈ to_move k j l → i ∈ drop (Z.to_nat (j_val j)) l ∧ _state (pcb k i) = SLEEPING.
Proof.
  unfold to_move. destruct (can_requeue j); [|by intros ?%not_elem_of_nil].
  intros H. eapply elem_of_take in H as (n & H & _). apply list_elem_of_lookup_2 in H. by apply list_elem_of_filter in H as [? ?].
Qed.

Lemma to_move_elem k j l i : i ∈ to_move k j l → i ∈ l.
Proof. intros [H _]%to_move_sub. apply list_elem_of_lookup in H as [n H]. rewrite lookup_drop in H. by eapply list_elem_of_lookup_2. Qed.

Lemma to_wake_length j l : 0 ≤ j_val j → Z.of_nat (length (to_wake j l)) = Z.min (j_val j) (Z.of_nat (length l)).
Proof. intros. unfold to_wake. rewrite length_take. lia. Qed.


(** The process [t] is changed to [p]. *)
Lemma served_touch k0 j ws ms k t p bs k' ws' ms' : Served k0 j ws ms k → slot t → t ∉ ws ++ ms →
  Touch k t p bs k' → bits_of k t bs → (listed_in k t → (t ∈ ms' → mixed j (pcb k0 t) = false) → listed p bs t) →
  (ws' = ws ∧ ms' = ms ∧ p = pcb k0 t ∨ ws' = ws ++ [t] ∧ ms' = ms ∧ p = released (pcb k0 t) ∨
   ws' = ws ∧ ms' = ms ++ [t] ∧ ∃ b, p = requeued j b (pcb k0 t)) →
  Served k0 j ws' ms' k'.
Proof.
  intros [S1 S2 S3 S4 S5 S6] Ht Hfresh Htouch Hbs Hl Hcase.
  pose proof (touch_self _ _ _ _ _ S1 Ht Htouch) as Et.
  assert (∀ i, slot i → i ≠ t → pcb k' i = pcb k i) as Hother.
  { intros i Hi Hne. rewrite (touch_pcb _ _ _ _ _ _ S1 Ht Hi Htouch). by rewrite bool_decide_eq_false_2. }
  assert (∀ i, i ∈ ws ++ ms → pcb k' i = pcb k i) as Hold.
  { intros i Hi. apply Hother; [by apply S3|]. by intros ->. }
  assert (∀ i, i ∈ ws → i ∈ ws ++ ms) as Hw by (intros; rewrite elem_of_app; auto).
  assert (∀ i, i ∈ ms → i ∈ ws ++ ms) as Hm by (intros; rewrite elem_of_app; auto).
  assert (∀ i, i ∈ ws' ++ ms' → i ∈ ws ++ ms ∨ i = t) as Hsub.
  { intros i. destruct Hcase as [(-> & -> & _)|[(-> & -> & _)|(-> & -> & _)]]; rewrite !elem_of_app, ?list_elem_of_singleton; tauto. }
  assert (∀ i, i ∈ ms → i ∈ ms') as Hms.
  { intros i. destruct Hcase as [(-> & -> & _)|[(-> & -> & _)|(-> & -> & _)]]; rewrite ?elem_of_app; tauto. }
  split; [apply Htouch| | | | |].
  - intros i Hi Hl0 Hmix. assert (listed_in k i) as Hlk by (apply S2; auto). destruct (decide (i = t)) as [->|Hne].
    + apply (listed_touch_self k t p bs); auto.
    + by apply (listed_touch_other k t p bs).
  - intros i [Hi| ->]%Hsub; [by apply S3|done].
  - intros i. destruct Hcase as [(-> & _)|[(-> & _ & ->)|(-> & _)]]; rewrite ?elem_of_app, ?list_elem_of_singleton.
    1,3: intros Hi; rewrite Hold by auto; auto. intros [Hi| ->]; [rewrite Hold by auto; auto|done].
  - intros i. destruct Hcase as [(_ & -> & _)|[(_ & -> & _)|(_ & -> & b & ->)]]; rewrite ?elem_of_app, ?list_elem_of_singleton.
    1,2: intros Hi; rewrite Hold by auto; auto. intros [Hi| ->]; [rewrite Hold by auto; auto|eauto].
  - intros i Hi Hn. destruct (decide (i = t)) as [->|Hne].
    + destruct Hcase as [(_ & _ & ->)|[(-> & -> & _)|(-> & -> & _)]]; [done|..]; destruct Hn; rewrite !elem_of_app, list_elem_of_singleton; auto.
    + rewrite Hother by done. apply S6; [done|]. intros Hin. apply Hn.
      destruct Hcase as [(-> & -> & _)|[(-> & -> & _)|(-> & -> & _)]]; rewrite !elem_of_app in *; tauto.
Qed.

(** The turn of the process [t], a waiter after those of [l]. *)
Lemma served_turn k0 j l t k p bs k' c1 c2 :
  JobOk j → 0 ≤ j_val j → slot t → t ∉ l → waits_for k0 j t →
  Served k0 j (to_wake j l) (to_move k0 j l) k → bits_of k t bs → Touch k t p bs k' →
  Turn k j t (Z.of_nat (length (to_wake j l))) (Z.of_nat (length (to_move k0 j l))) p bs c1 c2 →
  Served k0 j (to_wake j (l ++ [t])) (to_move k0 j (l ++ [t])) k' ∧
  c1 = Z.of_nat (length (to_wake j (l ++ [t]))) ∧ c2 = Z.of_nat (length (to_move k0 j (l ++ [t]))).
Proof.
  intros Hj Hv Ht Hfresh [Hkey Hst] HS Hbs Htouch Hturn.
  assert (t ∉ to_wake j l ++ to_move k0 j l) as Hn.
  { rewrite elem_of_app. intros [?%to_wake_sub|?%to_move_elem]; done. }
  pose proof (served_rest _ _ _ _ _ HS t Ht Hn) as Et. pose proof (to_wake_length j l Hv) as Hlen.
  destruct (turn_facts k j t _ _ p bs _ _ Hj Ht Hturn) as (Hl & _).
  rewrite to_wake_snoc, to_move_snoc.
  destruct Hturn as [bs0 Hwhy Hsame|bs0 Ek Est Hc|bs0 b Ek Est Hc Hcr Hc2 Hm]; rewrite Et in *.
  - destruct Hwhy as [?|[?|[H1 H2]]]; [done|naive_solver|].
    rewrite (bool_decide_eq_false_2 (_ < _)) by lia.
    rewrite bool_decide_eq_false_2 by (intros (E1 & _ & E2 & E3); specialize (H2 E2 E1); lia).
    split; [|done]. apply (served_touch k0 j _ _ k t (pcb k0 t) bs0 k' _ _ HS Ht Hn); auto. intros Hlk _. apply Hl; [done|lia].
  - rewrite (bool_decide_eq_true_2 (_ < _)) by lia. rewrite bool_decide_eq_false_2 by lia.
    split; [|rewrite length_app; cbn; lia]. apply (served_touch k0 j _ _ k t _ bs0 k' _ _ HS Ht Hn Htouch Hbs); [|auto]. by intros.
  - rewrite (bool_decide_eq_false_2 (_ < _)) by lia. rewrite bool_decide_eq_true_2 by (split_and!; [done|lia|done|done]).
    split; [|rewrite length_app; cbn; lia]. apply (served_touch k0 j _ _ k t _ bs0 k' _ _ HS Ht Hn Htouch Hbs); [|eauto 10].
    intros Hlk Hmix. apply Hl; [done|]. intros _. apply Hmix. rewrite elem_of_app, list_elem_of_singleton. auto.
Qed.

(** ** The scan *)

(** The waiters [l] were visited, the waiters [r] are ahead. *)
Record Progress (k0 : Kernel) (j : WakeJob) (l r : list Z) (s : Scan) (k : Kernel) : Prop := {
  progress_split : waiters k0 j = l ++ r;
  progress_served : Served k0 j (to_wake j l) (to_move k0 j l) k;
  progress_counts : s_count1 s = Z.of_nat (length (to_wake j l)) ∧ s_count2 s = Z.of_nat (length (to_move k0 j l));
  progress_ahead i : i ∈ r → ahead s i;
  progress_past i : i ∈ l → ¬ ahead s i
}.

Lemma waiters_spec k j i : i ∈ waiters k j ↔ waits_for k j i ∧ slot i.
Proof. unfold waiters. rewrite list_elem_of_filter, elem_of_seqZ. unfold slot. naive_solver lia. Qed.

Lemma waiters_nodup k j : NoDup (waiters k j).
Proof. apply NoDup_filter, NoDup_seqZ. Qed.

Lemma ascending (P : Z → Prop) `{!∀ x, Decision (P x)} n a : StronglySorted Z.lt (base.filter P (seqZ a (Z.of_nat n))).
Proof.
  revert a. induction n as [|n IH]; intros a; [constructor|]. rewrite seqZ_cons by lia.
  replace (Z.pred (Z.of_nat (S n))) with (Z.of_nat n) by lia. specialize (IH (Z.succ a)).
  destruct (decide (P a)); [rewrite filter_cons_True by done|by rewrite filter_cons_False].
  constructor; [done|]. apply Forall_forall. intros x [_ Hx%elem_of_seqZ]%list_elem_of_filter. lia.
Qed.

Lemma waiters_ascend k j l r i i' : waiters k j = l ++ r → i ∈ l → i' ∈ r → i < i'.
Proof.
  intros E Hi Hi'. pose proof (ascending (waits_for k j) 512 0) as Hs. change (StronglySorted Z.lt (waiters k j)) in Hs.
  rewrite E in Hs. by apply (StronglySorted_app_1_elem_of _ _ _ _ _ Hs).
Qed.

(** A waiter that is the lowest ahead is the next. *)
Lemma next_waiter k0 j l r s k idx : Progress k0 j l r s k → lowest (s_bits s) idx → s_word s * 64 + idx ∈ r →
  ∃ r', r = (s_word s * 64 + idx) :: r'.
Proof.
  intros [Hsplit _ _ Ha _] (Hidx & Hb & Hlow) Hin. destruct r as [|x r']; [by apply not_elem_of_nil in Hin|].
  exists r'. f_equal. apply elem_of_cons in Hin as [->|Hin]; [done|]. exfalso.
  assert (x < s_word s * 64 + idx) as Hlt.
  { apply (waiters_ascend k0 j (l ++ [x]) r'); [by rewrite <- app_assoc|rewrite elem_of_app, list_elem_of_singleton; auto|done]. }
  pose proof (Z.div_mod x 64 ltac:(lia)) as Ex. pose proof (Z.mod_pos_bound x 64 ltac:(lia)).
  destruct (Ha x ltac:(by left)) as [?|[E1 E2]]; [lia|]. rewrite Hlow in E2 by lia. done.
Qed.

(** The end: all waiters were served. *)
Definition Final (k0 : Kernel) (j : WakeJob) (k : Kernel) (c1 c2 : Z) : Prop :=
  Served k0 j (to_wake j (waiters k0 j)) (to_move k0 j (waiters k0 j)) k ∧
  c1 = Z.of_nat (length (to_wake j (waiters k0 j))) ∧ c2 = Z.of_nat (length (to_move k0 j (waiters k0 j))).

(** Once the job has what it asked for, the other waiters do not count. *)
Lemma satisfied_rest k0 j l r : 0 ≤ j_val j →
  satisfied j (Z.of_nat (length (to_wake j l))) (Z.of_nat (length (to_move k0 j l))) = true →
  to_wake j (l ++ r) = to_wake j l ∧ to_move k0 j (l ++ r) = to_move k0 j l.
Proof.
  unfold satisfied. intros Hv [H1%Z.leb_le H2]%andb_true_iff. rewrite to_wake_length in H1 by done.
  split; [unfold to_wake; by rewrite take_app_le by lia|]. unfold to_move in *. destruct (can_requeue j); [|done].
  cbn in H2. apply Z.leb_le in H2. rewrite drop_app_le, filter_app by lia. rewrite length_take in H2.
  by rewrite take_app_le by lia.
Qed.

Lemma served_exit k0 j l r k c1 c2 : 0 ≤ j_val j → waiters k0 j = l ++ r →
  Served k0 j (to_wake j l) (to_move k0 j l) k →
  c1 = Z.of_nat (length (to_wake j l)) → c2 = Z.of_nat (length (to_move k0 j l)) →
  satisfied j c1 c2 = true ∨ r = [] → Final k0 j k c1 c2.
Proof.
  intros Hv Hsplit HS -> -> [Hsat| ->]; unfold Final; rewrite Hsplit; [|by rewrite app_nil_r].
  destruct (satisfied_rest k0 j l r Hv Hsat) as [-> ->]. done.
Qed.

Lemma unvisited k0 j l r s k i : Progress k0 j l r s k → i ∈ r → slot i ∧ pcb k i = pcb k0 i ∧ waits_for k0 j i.
Proof.
  intros [Hsplit HS _ _ _] Hi. pose proof (waiters_nodup k0 j) as Hnd. rewrite Hsplit, NoDup_app in Hnd.
  destruct (proj1 (waiters_spec k0 j i)) as [Hw Hs]; [rewrite Hsplit, elem_of_app; auto|].
  split_and!; [done| |done]. apply (served_rest _ _ _ _ _ HS); [done|]. destruct Hnd as (_ & Hd & _).
  rewrite elem_of_app. intros [H%to_wake_sub|H%to_move_elem]; by apply (Hd i H).
Qed.

Lemma progress_word k0 j l r s k : KeyListed k0 j → JobOk j → Progress k0 j l r s k → s_bits s = 0 → 0 ≤ s_word s → s_word s + 1 < 8 →
  Progress k0 j l r (mkScan (s_word s + 1) (word_at k j (s_word s + 1)) (s_count1 s) (s_count2 s)) k.
Proof.
  intros Hlist Hj HP Hb Hw0 Hw. destruct (HP) as [Hsplit HS Hc Ha Hp]. split; [done|done|done|..]; intros i Hi; unfold ahead; cbn.
  - destruct (unvisited _ _ _ _ _ _ i HP Hi) as (Hs & Ei & Hwf). pose proof (proj1 Hwf) as Hk. specialize (Ha i Hi). unfold ahead in Ha.
    rewrite Hb, Z.bits_0 in Ha. destruct Ha as [Ha|[_ ?]]; [|done].
    destruct (decide (s_word s + 1 < i / 64)); [by left|right]. split; [lia|]. apply bit_ahead; [done|lia|].
    rewrite <- Ei in Hk. destruct (served_listed _ _ _ _ _ HS i Hs (Hlist i Hs Hwf)) as [Hm _].
    { intros Hl%to_move_elem. pose proof (waiters_ascend k0 j l r i i Hsplit Hl Hi). lia. }
    { rewrite Hk. destruct (job_key j Hj) as [_ Hv]. intros E. by rewrite E in Hv. }
    by rewrite Hk in Hm.
  - specialize (Hp i Hi). unfold ahead in Hp. rewrite Hb, Z.bits_0 in Hp.
    intros [?|[E _]]; apply Hp; left; lia.
Qed.

Lemma ahead_next s idx bits c1 c2 i : lowest (s_bits s) idx → slot i →
  (∀ n, 0 ≤ n → Z.testbit bits n = negb (bool_decide (n = idx)) && Z.testbit (s_bits s) n) →
  ahead (mkScan (s_word s) bits c1 c2) i ↔ ahead s i ∧ i ≠ s_word s * 64 + idx.
Proof.
  intros (Hidx & Hb & _) Hi Hbits. unfold ahead. cbn. pose proof (Z.mod_pos_bound i 64 ltac:(lia)).
  pose proof (Z.div_mod i 64 ltac:(lia)). rewrite Hbits, andb_true_iff, negb_true_iff, bool_decide_eq_false by lia.
  split; [intros [?|(? & ? & ?)]; (split; [auto|lia])|]. intros [[?|[? ?]] Hne]; [by left|right]. split_and!; [done| |done]. lia.
Qed.

(** The waiters after a turn, before the test whether the job is done. *)
Lemma progress_turn k0 j l r s k t idx bits k' p bs c1 c2 : JobOk j → 0 ≤ j_val j → Progress k0 j l r s k →
  lowest (s_bits s) idx → t = s_word s * 64 + idx → slot t →
  (∀ n, 0 ≤ n → Z.testbit bits n = negb (bool_decide (n = idx)) && Z.testbit (s_bits s) n) →
  bits_of k t bs → Touch k t p bs k' → Turn k j t (s_count1 s) (s_count2 s) p bs c1 c2 →
  ∃ l' r', Progress k0 j l' r' (mkScan (s_word s) bits c1 c2) k'.
Proof.
  intros Hj Hv HP Hl Et Ht Hbits Hbs Htouch Hturn. destruct (HP) as [Hsplit HS [Hc1 Hc2] Ha Hp]. rewrite Hc1, Hc2 in Hturn.
  assert (ahead s t) as Hat.
  { right. destruct (word_bit (s_word s) idx (proj1 Hl)) as [E1 E2]. rewrite Et, E1, E2. split; [done|apply Hl]. }
  assert (t ∉ l) as Hnl by (intros Hin; by apply (Hp t Hin)).
  assert (∀ i, i ∈ l ++ r → slot i) as Hslots by (intros i Hi; rewrite <- Hsplit in Hi; by apply waiters_spec in Hi as [_ ?]).
  destruct (decide (waits_for k0 j t)) as [Hw|Hnw].
  - assert (t ∈ r) as Hr.
    { assert (t ∈ l ++ r) as Hin by (rewrite <- Hsplit; by apply waiters_spec). apply elem_of_app in Hin as [|]; done. }
    rewrite Et in Hr. destruct (next_waiter k0 j l r s k idx HP Hl Hr) as (r' & ->). rewrite <- Et in *.
    destruct (served_turn k0 j l t k p bs k' c1 c2) as (HS' & E1 & E2); [done..|].
    pose proof (waiters_nodup k0 j) as Hnd. rewrite Hsplit in Hnd. apply NoDup_app in Hnd as (_ & _ & [Hfresh _]%NoDup_cons).
    exists (l ++ [t]), r'. split; [by rewrite <- app_assoc|done|done|..]; intros i Hi; rewrite (ahead_next _ idx), <- Et; try done.
    + split; [apply Ha; by right|by intros ->].
    + apply Hslots. rewrite elem_of_app, elem_of_cons. auto.
    + apply elem_of_app in Hi as [Hi|Hi%list_elem_of_singleton]; [intros [? _]; by apply (Hp i Hi)|naive_solver].
    + apply Hslots. rewrite elem_of_app, elem_of_cons. rewrite elem_of_app, list_elem_of_singleton in Hi. naive_solver.
  - assert (t ∉ to_wake j l ++ to_move k0 j l) as Hn.
    { rewrite elem_of_app. intros [?%to_wake_sub|?%to_move_elem]; done. }
    pose proof (served_rest _ _ _ _ _ HS t Ht Hn) as Ept.
    destruct (turn_facts k j t _ _ p bs _ _ Hj Ht Hturn) as (Hlst & _).
    exists l, r. destruct Hturn as [bs0 Hwhy Hsame|bs0 Ek Est Hc|bs0 b Ek Est Hc Hcr Hcc Hm].
    2,3: destruct Hnw; unfold waits_for; rewrite <- Ept; auto.
    split; [done| |done|..].
    + apply (served_touch k0 j _ _ k t _ bs0 k' _ _ HS Ht Hn Htouch Hbs); [|auto]. intros Hlk _. apply Hlst; [done|lia].
    + intros i Hi. rewrite (ahead_next _ idx), <- Et; [|done|apply Hslots; rewrite elem_of_app; auto|done].
      split; [auto|]. intros ->. apply Hnw. by destruct (unvisited _ _ _ _ _ _ t HP Hi) as (_ & _ & ?).
    + intros i Hi. rewrite (ahead_next _ idx); [|done|apply Hslots; rewrite elem_of_app; auto|done]. intros [? _]. by apply (Hp i Hi).
Qed.

(** ** The loop *)

Lemma loop_correct k0 j fuel l r s k m : KeyListed k0 j → JobOk j → 0 ≤ j_val j → Progress k0 j l r s k →
  0 ≤ s_word s < 8 → word_ok (s_bits s) → bits_from (s_bits s) m → 0 ≤ m ≤ 64 →
  (7 - s_word s) * 65 + (64 - m) < Z.of_nat fuel →
  ∃ k' c1 c2, wakeup2_loop fuel k j s = Ret (k', (c1, c2)) ∧ Final k0 j k' c1 c2.
Proof.
  intros Hlist Hj Hv. revert l r s k m. induction fuel as [|fuel IH]; intros l r s k m HP Hw Hwo Hfrom Hm Hf; [lia|].
  destruct (HP) as [Hsplit HS [Hc1 Hc2] Ha Hp]. pose proof (served_ok _ _ _ _ _ HS) as Hk.
  destruct (wakeup2_step_spec k j s Hk Hj Hw Hwo) as (k' & res & E & Hit). cbn [wakeup2_loop]. rewrite E. cbn [obind]. clear E.
  destruct Hit as [Hb Hw7|Hb Hw7|t idx bits k' p bs c1 c2 Hl Et Ht Hwb Hbits Hbs Htouch Hturn].
  - apply (IH l r _ k 0); [apply progress_word; [done|done|done|done|lia|done]|cbn; lia| |by intros n ? _; lia|lia|cbn; lia].
    apply (load_word_spec k j (s_word s + 1) 0 0 Hk). lia.
  - eexists k, _, _. split; [done|]. apply (served_exit k0 j l r); [done..|right].
    destruct r as [|x r]; [done|]. destruct (unvisited _ _ _ _ _ _ x HP) as (Hs & _); [by left|].
    specialize (Ha x ltac:(by left)). unfold ahead in Ha. rewrite Hb, Z.bits_0 in Ha. pose proof (slot_word x Hs).
    destruct Ha as [?|[_ ?]]; [lia|done].
  - destruct (progress_turn k0 j l r s k t idx bits k' p bs c1 c2) as (l' & r' & HP'); [done..|].
    destruct (HP') as [Hsplit' HS' [E1 E2] _ _]. cbn in E1, E2. destruct (satisfied j c1 c2) eqn:Hsat.
    + eexists k', c1, c2. split; [done|]. apply (served_exit k0 j l' r'); auto.
    + pose proof (bits_from_lowest _ _ _ Hfrom Hl). pose proof (proj1 Hl).
      apply (IH l' r' _ k' (m + 1)); [done|done|done| |lia|cbn; lia]. by eapply bits_from_next.
Qed.

Lemma wakeup2_spec k j : Ok k → KeyListed k j → JobOk j → wakeup2_void j = false →
  ∃ k' c1 c2, wakeup2 k j = Ret (k', wakeup2_result j c1 c2) ∧ Final k j k' c1 c2.
Proof.
  intros Hk Hlist Hj Hvoid. assert (0 ≤ j_val j) as Hv.
  { unfold wakeup2_void in Hvoid. apply orb_false_iff in Hvoid as [Hvoid _]. apply orb_false_iff in Hvoid as [?%Z.ltb_ge _]. done. }
  unfold wakeup2. rewrite Hvoid. destruct (load_word_spec k j 0 0 0 Hk ltac:(lia)) as [-> Hwo]. cbn [obind].
  destruct (loop_correct k j wakeup2_fuel [] (waiters k j) (mkScan 0 (word_at k j 0) 0 0) k 0) as (k' & c1 & c2 & -> & HF);
    [done|done|done| |cbn; lia|done|by intros n ? _; lia|lia|done|].
  - assert (to_wake j [] = [] ∧ to_move k j [] = []) as [Ew Em].
    { unfold to_wake, to_move. rewrite take_nil, drop_nil, filter_nil, take_nil. by destruct (can_requeue j). }
    split; rewrite ?Ew, ?Em; [done| |done| |by intros i ?%not_elem_of_nil].
    + split; [done|done|by intros i ?%not_elem_of_nil..|done].
    + intros i [Hwf Hs]%waiters_spec. pose proof (proj1 Hwf) as Hkey. unfold ahead. cbn. pose proof (slot_word i Hs).
      destruct (decide (0 < i / 64)); [by left|right]. split; [lia|]. apply bit_ahead; [done|lia|].
      destruct (Hlist i Hs Hwf) as [Hm _]; [rewrite Hkey; destruct (job_key j Hj) as [_ Hvk]; intros E; by rewrite E in Hvk|].
      by rewrite Hkey in Hm.
  - cbn [obind]. eexists k', c1, c2. done.
Qed.

Lemma key_listed k j : AllListed k → KeyListed k j.
Proof. intros H i Hi _. by apply H. Qed.

Lemma served_all_listed k0 j ws ms k : AllListed k0 → (∀ i, i ∈ ms → mixed j (pcb k0 i) = false) →
  Served k0 j ws ms k → AllListed k.
Proof. intros H0 Hm HS i Hi. apply (served_listed _ _ _ _ _ HS); auto. Qed.

End FutexScan.
