(* ===== verification/FutexCorrect.v ===== *)
(** * Futexes: the properties

    Waits and wakeups in any interleaving: no wakeup is lost, no waiter is left behind,
    no lock is waited for in a circle; what a wakeup does on its own. *)
From S2P Require Import Prelude Sleep SleepRep SleepOps SleepCorrect Futex FutexSystem FutexOps FutexInv FutexWait FutexWake FutexScan.
Import Sleep SleepRep SleepOps Futex FutexSystem FutexOps FutexInv FutexOthers FutexWait FutexWake FutexReach FutexScan SleepCorrect.

Module FutexCorrect.

Notation key_of := futex_waiter_key_locked.
Notation index := futex_bucket_index_for_key.

(** ** Runs for the witnesses *)
Section runs.
Context {AS : AddressSpaces}.

(** Some of the steps as functions: a process enters [futex_wait], enters
    [futex_wakeup], runs its next region; a store; the scheduler. *)
Inductive Act :=
  | DoWait (i : Z) (w : Wait) (clk : Clock)
  | DoWake (i uaddr val uaddr2 val2 : Z) (scope : FutexKeyScope) (expected : option Z)
  | DoRegion (i : Z) (clk : Clock) (loaded : option Z)
  | DoStore (a v : Z)
  | DoSchedule (i : Z).

Definition running (s : Config) (i : Z) : bool :=
  bool_decide (slot i) && bool_decide (_state (pcb (c_kernel s) i) = RUNNING).
Definition idle_b (s : Config) (i : Z) : bool :=
  match c_calls s !! i with None | Some (Returned _) => true | _ => false end.
Definition free_b (s : Config) (b : Z) : bool := bool_decide (map_Forall (λ _ c, b ∉ holds c) (c_calls s)).

Definition run (s : Config) (a : Act) : option Config :=
  match a with
  | DoWait i w clk =>
      if running s i && idle_b s i then
        match futex_wait_enter (c_kernel s) i w clk with
        | Ret (k, c) => Some (mkConfig k (c_mem s) (<[i := c]> (c_calls s)) (c_log s))
        | _ => None
        end
      else None
  | DoWake i uaddr val uaddr2 val2 scope expected =>
      let r := futex_wakeup_keys (pcb (c_kernel s) i) uaddr val uaddr2 val2 scope false expected in
      if running s i && idle_b s i then
        Some (mkConfig (c_kernel s) (c_mem s)
          (<[i := match r with inl e => Returned e | inr j => WantFirst j end]> (c_calls s)) (c_log s))
      else None
  | DoRegion i clk loaded =>
      match c_calls s !! i with
      | Some c =>
          if running s i && match needs c with Some b => free_b s b | None => true end then
            match region (c_mem s) (c_kernel s) i c clk loaded with
            | Ret (k, c', ev) => Some (mkConfig k (c_mem s) (<[i := c']> (c_calls s)) (ev ++ c_log s))
            | _ => None
            end
          else None
      | None => None
      end
  | DoStore a v => Some (mkConfig (c_kernel s) (<[a := v]> (c_mem s)) (c_calls s) (Stored a :: c_log s))
  | DoSchedule i =>
      if bool_decide (slot i) && bool_decide (_state (pcb (c_kernel s) i) = RUNNABLE) then
        match upd_pcb (c_kernel s) i (λ p, set_task_state p RUNNING) with
        | Ret k => Some (with_kernel s k)
        | _ => None
        end
      else None
  end.

Lemma running_spec s i : running s i = true → runs s i.
Proof. unfold running. intros H. bool_facts. by split. Qed.

Lemma free_spec s b : free_b s b = true → free s b.
Proof. unfold free_b. rewrite bool_decide_eq_true. intros H i c Hc. by apply (H i c). Qed.

Lemma idle_spec s i : idle_b s i = true → idle s i.
Proof. unfold idle_b, idle. destruct (c_calls s !! i) as [[]|]; done. Qed.

Lemma run_step s a s' : run s a = Some s' → step s s'.
Proof.
  destruct a as [i w clk|i uaddr val uaddr2 val2 scope expected|i clk loaded|a v|i]; cbn [run]; intros E.
  - destruct (running s i && idle_b s i) eqn:Hr; [|done]. bool_facts.
    destruct (futex_wait_enter _ _ _ _) as [[k c]| | |] eqn:Ee; try done. injection E as <-.
    by apply (step_wait s i w clk); [apply running_spec|apply idle_spec|].
  - destruct (running s i && idle_b s i) eqn:Hr; [|done]. bool_facts. injection E as <-.
    by apply step_wake; [apply running_spec|apply idle_spec].
  - destruct (c_calls s !! i) as [c|] eqn:Hc; [|done]. destruct (running s i && _) eqn:Hr; [|done]. bool_facts.
    destruct (region _ _ _ _ _ _) as [[[k c'] ev]| | |] eqn:Ee; try done. injection E as <-.
    apply (step_region s i c clk loaded); [by apply running_spec|done| |done]. intros b Hb. rewrite Hb in *. by apply free_spec.
  - injection E as <-. constructor.
  - destruct (bool_decide (slot i) && _) eqn:Hr; [|done]. bool_facts.
    destruct (upd_pcb _ _ _) as [k| | |] eqn:Ee; try done. injection E as <-. by eapply step_schedule.
Qed.

Fixpoint run_all (s : Config) (l : list Act) : option Config :=
  match l with
  | [] => Some s
  | a :: l => match run s a with Some s' => run_all s' l | None => None end
  end.

Lemma run_all_reachable s l s' : reachable s → run_all s l = Some s' → reachable s'.
Proof.
  revert s. induction l as [|a l IH]; intros s Hs; cbn; [by intros [= <-]|].
  destruct (run s a) as [s1|] eqn:E; [|done]. apply IH. eapply reachable_step; [done|by apply run_step in E].
Qed.

(** A run from a configuration at rest that ends in a configuration that passes [check]. *)
Lemma run_exists k mem l (check : Config → bool) : quiescent k →
  match run_all (mkConfig k mem ∅ []) l with Some s => check s | None => false end = true →
  ∃ s, reachable s ∧ check s = true.
Proof.
  intros Hk. destruct (run_all _ l) as [s|] eqn:E; [|done]. intros Hc. exists s. split; [|done].
  eapply run_all_reachable; [|done]. by constructor.
Qed.

End runs.

(** Two processes of one address space and one of another; the page at 0x700000 is a
    mapping the two share. *)
Definition demo_spaces : AddressSpaces := {|
  walk_addr mm a := if 0x700000 <=? a then 0x90000000 + (a - 0x700000) else 0x80000000 + mm * 0x10000 + a;
  is_shared_mapping mm a := 0x700000 <=? a
|}.

Definition demo_process (mm : Z) : Pcb := mkPcb RUNNING 0 0 false false 0 0 ∅ mm 0 0 false 0 0 0.

Definition demo_kernel : Kernel :=
  mkKernel ([demo_process 0x1000; demo_process 0x1000; demo_process 0x2010] ++ replicate 509 no_pcb)
    (replicate 64 (replicate 8 0)) (replicate 64 (replicate 8 0)).

Definition demo_clock : Clock := mkClock (λ _, None) 0 10000000.
Definition demo_wait : Wait := mkWait 0x5000 7 None false false Private.

Lemma demo_quiescent : quiescent demo_kernel.
Proof.
  assert (Forall (λ p, (_wait_channel_registered p = false ∧ _chan p = nullptr) ∧ _futex_key p = 0) (k_proc_pool demo_kernel)) as Hall.
  { unfold demo_kernel. cbn [k_proc_pool]. apply Forall_app. split; [by repeat constructor|]. by apply Forall_replicate. }
  split.
  - apply fresh_ok; [done|]. eapply Forall_impl; [exact Hall|]. by intros p [? _].
  - intros i Hi. apply (Forall_lookup_1 _ _ (Z.to_nat i) _ Hall). apply list_lookup_lookup_total_lt.
    change (length (k_proc_pool demo_kernel)) with 512%nat. unfold slot, num_process in Hi. lia.
Qed.

(** Process 0 falls asleep on a futex with value 7. *)
Definition demo_cell : Z := 0x80000000 + 0x1000 * 0x10000 + 0x5000.
Definition go (i : Z) : Act := DoRegion i demo_clock (Some 7).
Definition demo_asleep : list Act := [DoStore demo_cell 7; DoWait 0 demo_wait demo_clock; go 0; go 0; go 0].
(** Process 1 changes the value and wakes, up to the end of its scan. *)
Definition demo_wake : list Act := demo_asleep ++ [DoStore demo_cell 8; DoWake 1 0x5000 2 0 0 Private None] ++ replicate 10 (go 1).
(** The wakeup and the wait return. *)
Definition demo_done : list Act := demo_wake ++ [go 1; DoSchedule 0; go 0; go 0; go 0].

Definition sleeps_at (s : Config) (i : Z) : bool :=
  match c_calls s !! i with Some (Asleep _ _ _) => bool_decide (_state (pcb (c_kernel s) i) = SLEEPING) | _ => false end.

(** What keeps [sleep] from sleeping ends the wait. *)
Lemma existsb_mono {A} (f g : A → bool) l : (∀ x, f x = true → g x = true) → existsb f l = true → existsb g l = true.
Proof. intros H. rewrite !existsb_exists. intros (x & Hx & Hf). exists x. auto. Qed.

(** When [sleep] does not sleep because of a pending signal, [futex_wait] sees a
    reason to return: whatever [should_interrupt_blocking_syscall] accepts,
    [has_fatal_signal_pending] or [has_unmasked_signal_pending] accepts. *)
Theorem refused_sleep_is_seen p : should_interrupt_blocking_syscall p = true → signal_pending p = true.
Proof.
  unfold should_interrupt_blocking_syscall, signal_pending, has_fatal_signal_pending, has_unmasked_signal_pending.
  destruct (_killed p); [done|]. destruct (_signal p =? 0); [done|]. intros H.
  destruct (pending (_signal p) SIGKILL || pending (_signal p) SIGSTOP) eqn:Hf; [done|]. apply orb_false_iff in Hf as [Hk Hs].
  cbn [orb]. revert H. apply existsb_mono. intros n. destruct (pending (_signal p) n) eqn:Hp; cbn [negb]; [|done].
  destruct (Z.eqb_spec n SIGCANCEL); cbn [orb]; [done|]. destruct (Z.eqb_spec n SIGKILL) as [->|]; [congruence|].
  destruct (Z.eqb_spec n SIGSTOP) as [->|]; cbn [orb]; [congruence|]. destruct (pending (_sigmask p) n); [done|].
  unfold signal_is_ignored_for_interrupt. destruct (_sigactions p !! n) as [act|]; [|done].
  destruct (sa_handler act =? SIG_IGN); [done|]. by destruct (negb (sa_handler act =? 0) && negb (sa_handler act =? SIG_DFL)).
Qed.

Lemma refused_sleep_is_seen_witness :
  let p := mkPcb RUNNING 0 0 false false (2 ^ 14) 0 ∅ 0x1000 0 0 false 0 0 0 in
  should_interrupt_blocking_syscall p = true ∧ signal_pending p = true.
Proof. intros p. split; [by vm_compute|]. apply (refused_sleep_is_seen p). by vm_compute. Defined.

Section theorems.
Context {AS : AddressSpaces}.

(** C5. No wakeup is lost, in every interleaving of waits, wakeups, requeues, stores,
    signals, removals, timeouts and scheduling.  A process asleep in [futex_wait] whose
    entry was not damaged is in the bucket of its key and on its channel, and it sleeps
    for a reason: its futex still has the value it was called with, or since the last
    wakeup that looked at all waiters of the key the futex was stored to or a waiter was
    requeued to it, so that a wakeup is due.  Two steps damage an entry ([stray]), both
    defects of the code: a requeue from a shared to a private futex that moves a process
    of another address space than the caller's, and a removal that read no key and clears
    the one the process published since.  Of the processes hit by them, and of no others,
    nothing is claimed until they enter a key again. *)
Theorem futex_no_lost_wakeup s i w deadline key :
  reachable s → c_calls s !! i = Some (Asleep w deadline key) → _state (pcb (c_kernel s) i) = SLEEPING →
  let p := pcb (c_kernel s) i in
  stray i (c_log s) = true ∨
  valid (key_of p) = true ∧ waits (c_kernel s) (index (key_of p)) i = true ∧ _chan p = value (key_of p) ∧
  (key_of p = resolve_futex_key p (w_uaddr w) (w_scope w) ∧
     default 0 (c_mem s !! walk_addr (memory_manager p) (w_uaddr w)) = w_val w
   ∨ unsettled (key_of p) (c_log s) = true).
Proof.
  intros Hr Hc Hst p. destruct (stray i (c_log s)) eqn:Hns; [by left|right].
  apply futex_reachable_inv in Hr. destruct (inv_calls s Hr _ _ Hc) as (Hi & _ & Hok).
  destruct (Hok Hst Hns) as (Hne & Hch & Hj). fold p in Hne, Hch, Hj.
  assert (valid (key_of p) = true) as Hv by (rewrite waiter_key_valid, negb_true_iff, Z.eqb_neq; by rewrite waiter_key_none in Hne).
  split_and!; [done|by apply (inv_listed s Hr i Hi)|done|]. destruct Hj as [[E1 E2]|Hu]; [left|by right].
  split; [done|]. destruct (resolve_key p (w_uaddr w) (w_scope w)) as (_ & _ & Hcell). rewrite <- E1 in Hcell.
  by rewrite <- (proj1 (Hcell Hv)).
Qed.

(** C18. A wakeup that ends with fewer woken than it was allowed to wake, or, when it may
    requeue, with fewer moved than it was allowed to move, and that does not requeue to
    the key it wakes, has left no process asleep on its key, whatever other processes did
    during its scan; but for the processes whose entry a requeue from a shared to a
    private futex or a removal without a key has damaged ([stray]). *)
Theorem complete_wakeup_leaves_no_sleeper s i j sc k count1 count2 i' :
  reachable s → c_calls s !! i = Some (Scanning j sc) →
  wakeup2_step (c_kernel s) j sc = Ret (k, inr (count1, count2)) →
  count1 < j_val j ∨ can_requeue j = true ∧ count2 < j_val2 j →
  (can_requeue j = true → j_key2 j ≠ j_key j) →
  slot i' → stray i' (c_log s) = false → ¬ (_state (pcb k i') = SLEEPING ∧ key_of (pcb k i') = j_key j).
Proof.
  intros Hr Hc E Hlt Hd Hi' Hns Hs. apply futex_reachable_inv in Hr. destruct (inv_calls s Hr _ _ Hc) as (_ & _ & Hj & Hsc).
  destruct (wakeup2_step_spec (c_kernel s) j sc (inv_ok s Hr) Hj (scan_word _ _ _ _ Hsc) (scan_bits _ _ _ _ Hsc)) as (k' & res & E' & Hit).
  rewrite E' in E. destruct Hit as [Hb Hw|Hb Hw|t idx bits k' p bs c1 c2 _ _ _ _ _ _ _ _]; [done|..].
  - injection E as <- <- <-. pose proof (scan_ahead _ _ _ _ Hsc Hd i' Hi' Hns Hs) as Ha. unfold ahead in Ha.
    rewrite Hb, Hw, Z.bits_0 in Ha. pose proof (slot_word i' Hi'). destruct Ha as [|[_ ?]]; [lia|done].
  - destruct (satisfied j c1 c2) eqn:Hsat; [|done]. injection E as <- <- <-. unfold satisfied in Hsat.
    apply andb_true_iff in Hsat as [Hs1%Z.leb_le Hs2]. destruct Hlt as [?|[Hcr ?]]; [lia|]. rewrite Hcr in Hs2. cbn in Hs2.
    apply Z.leb_le in Hs2. lia.
Qed.

(** C37. No waiter is left behind: a process outside [futex_wait], on whatever path it
    returned, has no key published, so that no later wakeup is spent on it; and the
    process control blocks, bitmaps and channels agree with each other. *)
Theorem futex_wait_cleans_up s i :
  reachable s → slot i → idle s i → _futex_key (pcb (c_kernel s) i) = 0 ∧ Ok (c_kernel s).
Proof.
  intros Hr Hi Hid. apply futex_reachable_inv in Hr. split; [|apply Hr]. apply waiter_key_none. by apply (idle_no_key s).
Qed.

(** C19. Whenever a bucket lock is held, some holder of a bucket lock is running, needs no
    lock that is held, and its next region returns: the order in which [futex_wakeup]
    takes two locks excludes a circle, and no region faults. *)
Theorem futex_locks_progress s i c b clk loaded :
  reachable s → c_calls s !! i = Some c → b ∈ holds c →
  ∃ i' c' k' c'' ev, c_calls s !! i' = Some c' ∧ holds c' ≠ [] ∧ runs s i' ∧
    (∀ b', needs c' = Some b' → free s b') ∧
    region (c_mem s) (c_kernel s) i' c' clk loaded = Ret (k', c'', ev).
Proof.
  intros Hr Hc Hb. apply futex_reachable_inv in Hr. destruct (some_holder_goes s i c b Hc Hb) as (i' & c' & Hc' & Hh & Hfree).
  destruct (region_returns s i' c' clk loaded Hr Hc') as (k' & c'' & ev & E). destruct (inv_calls s Hr _ _ Hc') as (Hi' & [_ Hrun] & _).
  exists i', c', k', c'', ev. split_and!; [done|done| |done|done]. split; [done|by apply Hrun].
Qed.

End theorems.

Lemma futex_no_lost_wakeup_witness :
  let _ := demo_spaces in
  ∃ s w deadline key, reachable s ∧ c_calls s !! 0 = Some (Asleep w deadline key) ∧
    _state (pcb (c_kernel s) 0) = SLEEPING ∧ _chan (pcb (c_kernel s) 0) = value (key_of (pcb (c_kernel s) 0)).
Proof.
  intros AS. destruct (@run_exists AS demo_kernel ∅ demo_asleep (λ s, sleeps_at s 0 && negb (stray 0 (c_log s))) demo_quiescent) as (s & Hr & Hc); [by vm_compute|].
  apply andb_true_iff in Hc as [Hc Hns%negb_true_iff]. unfold sleeps_at in Hc. destruct (c_calls s !! 0) as [[]|] eqn:E; try done. apply bool_decide_eq_true in Hc.
  exists s, w, deadline, key. split_and!; [done..|].
  destruct (futex_no_lost_wakeup s 0 w deadline key Hr E Hc) as [H|(_ & _ & H & _)]; [congruence|done].
Defined.

(** The next iteration of process 1 ends its scan with fewer woken than allowed. *)
Definition scan_about_to_end (s : Config) : bool :=
  negb (stray 0 (c_log s)) && match c_calls s !! 1 with
  | Some (Scanning j sc) =>
      match wakeup2_step (c_kernel s) j sc with
      | Ret (_, inr (count1, _)) => (count1 <? j_val j) && negb (can_requeue j)
      | _ => false
      end
  | _ => false
  end.

Lemma complete_wakeup_leaves_no_sleeper_witness :
  let AS := demo_spaces in
  ∃ s j sc k count1 count2, reachable s ∧ c_calls s !! 1 = Some (Scanning j sc) ∧
    wakeup2_step (c_kernel s) j sc = Ret (k, inr (count1, count2)) ∧
    ¬ (_state (pcb k 0) = SLEEPING ∧ key_of (pcb k 0) = j_key j).
Proof.
  intros AS. destruct (@run_exists AS demo_kernel ∅ demo_wake scan_about_to_end demo_quiescent) as (s & Hr & Hc); [by vm_compute|].
  unfold scan_about_to_end in Hc. apply andb_true_iff in Hc as [Hns%negb_true_iff Hc].
  destruct (c_calls s !! 1) as [[]|] eqn:E; try done.
  destruct (wakeup2_step _ _ _) as [[k [sc|[count1 count2]]]| | |] eqn:Er; try done.
  apply andb_true_iff in Hc as [Hlt%Z.ltb_lt Hcr%negb_true_iff].
  eexists s, j, s0, k, count1, count2. split_and!; [done|done|exact Er|].
  apply (complete_wakeup_leaves_no_sleeper s 1 j s0 k count1 count2 0); [done|done|done|by left|congruence|done|done].
Defined.

Lemma futex_wait_cleans_up_witness :
  let AS := demo_spaces in
  ∃ s, reachable s ∧ c_calls s !! 0 = Some (Returned 0) ∧ _futex_key (pcb (c_kernel s) 0) = 0.
Proof.
  intros AS. destruct (@run_exists AS demo_kernel ∅ demo_done
    (λ s, match c_calls s !! 0 with Some (Returned r) => r =? 0 | _ => false end) demo_quiescent) as (s & Hr & Hc); [by vm_compute|].
  destruct (c_calls s !! 0) as [[]|] eqn:E; try done. apply Z.eqb_eq in Hc as ->. exists s. split_and!; [done|done|].
  apply (futex_wait_cleans_up s 0 Hr); [done|]. unfold idle. by rewrite E.
Defined.

Lemma futex_locks_progress_witness :
  let AS := demo_spaces in
  ∃ s c b, reachable s ∧ c_calls s !! 0 = Some c ∧ b ∈ holds c ∧ ∃ i c', c_calls s !! i = Some c' ∧ runs s i.
Proof.
  intros AS. destruct (@run_exists AS demo_kernel ∅ (take 4 demo_asleep)
    (λ s, match c_calls s !! 0 with Some (Published _ _ _) => true | _ => false end) demo_quiescent) as (s & Hr & Hc); [by vm_compute|].
  destruct (c_calls s !! 0) as [[]|] eqn:E; try done. eexists s, _, (index key). split_and!; [done|done|by left|].
  destruct (futex_locks_progress s 0 _ (index key) demo_clock None Hr E) as (i' & c' & _ & _ & _ & H1 & _ & H2 & _); [by left|]. eauto.
Defined.




End FutexCorrect.
