(* ===== verification/FutexTimeouts.v ===== *)
(** * Timeouts of futex waits: the arithmetic and the check at every tick *)
From S2P Require Import Prelude Sleep SleepRep SleepOps Futex FutexSystem FutexOps FutexInv FutexWait FutexWake FutexScan FutexCorrect.
Import Sleep SleepRep SleepOps SlotScan Futex FutexSystem FutexOps FutexInv.

Module FutexTimeouts.

Notation key_of := futex_waiter_key_locked.

(** ** Deadlines *)

(** The time in nanoseconds. *)
Definition nanos (ts : timespec) : Z := tv_sec ts * k_nsec_per_sec + tv_nsec ts.

Lemma compare_nanos a b : futex_timespec_is_valid a = true → futex_timespec_is_valid b = true →
  (0 <=? compare_timespec a b) = (nanos b <=? nanos a).
Proof.
  unfold futex_timespec_is_valid, compare_timespec, nanos, k_nsec_per_sec. intros Ha Hb. bool_facts.
  apply Bool.eq_iff_eq_true. rewrite !Z.leb_le.
  destruct (Z.eqb_spec (tv_sec a) (tv_sec b)); cbn [negb]; [|destruct (Z.ltb_spec (tv_sec a) (tv_sec b)); lia].
  destruct (Z.eqb_spec (tv_nsec a) (tv_nsec b)); cbn [negb]; [lia|]. destruct (Z.ltb_spec (tv_nsec a) (tv_nsec b)); lia.
Qed.

(** The cycles are the exact quotient, rounded down once, modulo 2^64. *)
Lemma timeout_cycles_exact clk ts : futex_timespec_is_valid ts = true → 0 < clock_frequency_hz clk < 2 ^ 34 →
  futex_timeout_to_cycles clk ts = Some (u64 (nanos ts * clock_frequency_hz clk / k_nsec_per_sec)).
Proof.
  intros Hv Hf. unfold futex_timeout_to_cycles. rewrite Hv. cbn [negb]. unfold futex_timespec_is_valid, nanos in *.
  bool_facts. set (f := clock_frequency_hz clk) in *. unfold k_nsec_per_sec in *.
  replace ((tv_sec ts * 1000000000 + tv_nsec ts) * f) with ((tv_sec ts * f) * 1000000000 + tv_nsec ts * f) by lia.
  rewrite Z.div_add_l by lia. rewrite (u64_small (tv_nsec ts * f)) by nia. f_equal. unfold u64.
  by rewrite Z.add_mod_idemp_l by lia.
Qed.

(** C39. The hardware deadline of an absolute timeout, for valid times and a clock below
    2^34 Hz: none once the time has come; otherwise the present stamp plus the cycles of
    the remaining time, rounded down but not to zero, and the largest stamp where that
    sum would wrap around.  The cycles themselves are counted modulo 2^64: they are those
    of the remaining time only as long as these fit 64 bits. *)
Theorem absolute_deadline_exact clk now target :
  futex_timespec_is_valid now = true → futex_timespec_is_valid target = true →
  0 < clock_frequency_hz clk < 2 ^ 34 → 0 ≤ hw_time_stamp clk < 2 ^ 64 →
  let cycles := (nanos target - nanos now) * clock_frequency_hz clk / k_nsec_per_sec in
  futex_absolute_deadline_to_cycles clk now target =
    (if nanos now <? nanos target
     then Some (Z.min (2 ^ 64 - 1) (hw_time_stamp clk + Z.max 1 (cycles mod 2 ^ 64)))
     else None) ∧
  (nanos now < nanos target → cycles < 2 ^ 64 → cycles mod 2 ^ 64 = cycles).
Proof.
  intros Hn Ht Hf Hhw cycles. split.
  2: { intros Hlater Hlt. apply Z.mod_small. split; [|done]. apply Z.div_pos; [nia|done]. }
  unfold futex_absolute_deadline_to_cycles. rewrite (compare_nanos now target Hn Ht).
  rewrite (Z.leb_antisym (nanos now) (nanos target)). destruct (Z.ltb_spec (nanos now) (nanos target)) as [Hlater|]; cbn [negb]; [|done].
  set (r := if tv_nsec target - tv_nsec now <? 0 then _ else _).
  assert (futex_timespec_is_valid r = true ∧ nanos r = nanos target - nanos now) as [Hr Er].
  { unfold r, futex_timespec_is_valid, nanos, k_nsec_per_sec in *. bool_facts.
    destruct (Z.ltb_spec (tv_nsec target - tv_nsec now) 0); cbn [tv_sec tv_nsec];
      (split; [rewrite !andb_true_iff, !Z.leb_le, Z.ltb_lt; lia|lia]). }
  rewrite (timeout_cycles_exact clk r Hr Hf), Er. fold cycles. change (u64 cycles) with (cycles mod 2 ^ 64).
  pose proof (Z.mod_pos_bound cycles (2 ^ 64) ltac:(lia)). set (c := cycles mod 2 ^ 64) in *. clearbody c.
  f_equal. destruct (Z.eqb_spec c 0) as [->|]; destruct (Z.ltb_spec (2 ^ 64 - 1 - 1) (hw_time_stamp clk)); try lia;
    destruct (Z.ltb_spec (2 ^ 64 - 1 - c) (hw_time_stamp clk)); lia.
Qed.

(** ** The check at a tick *)

(** The wait of [p] has run out, and [p] sleeps in it. *)
Definition due (p : Pcb) (now : Z) : Prop :=
  _futex_timeout_deadline p ≠ 0 ∧ _futex_timeout_deadline p ≤ now ∧ _futex_key p ≠ 0 ∧
  _state p = SLEEPING ∧ _chan p = _futex_key p.

#[export] Instance due_dec p now : Decision (due p now).
Proof. unfold due. apply _. Defined.










Lemma absolute_deadline_exact_witness :
  let clk := mkClock (λ _, None) 500 10000000 in
  futex_absolute_deadline_to_cycles clk (mkTime 1 900000000) (mkTime 3 100000000) = Some 12000500.
Proof.
  intros clk. destruct (absolute_deadline_exact clk (mkTime 1 900000000) (mkTime 3 100000000)) as [E _]; [done|done|cbn; lia|cbn; lia|].
  exact E.
Defined.



End FutexTimeouts.

(** * Where the futexes fall short

    Runs of the model in which a waiter is not woken, or a wait ends early. *)
Import Sleep SleepRep SleepOps Futex FutexSystem FutexOps FutexInv FutexWait FutexWake FutexReach FutexScan FutexTimeouts FutexCorrect.

Module FutexLimits.

Notation key_of := futex_waiter_key_locked.

Section removal_race.
Context {AS : AddressSpaces}.

(** A process whose key was cleared is passed over by every wakeup. *)
Lemma keyless_not_woken k i j : Ok k → AllListed k → slot i → key_of (pcb k i) = no_key →
  JobOk j → wakeup2_void j = false →
  ∃ k' n, wakeup2 k j = Ret (k', n) ∧ pcb k' i = pcb k i.
Proof.
  intros Hk Hall Hi Hkey Hj Hvoid. destruct (wakeup2_spec k j Hk (key_listed k j Hall) Hj Hvoid) as (k' & c1 & c2 & E & HS & _).
  eexists k', _. split; [exact E|]. apply (served_rest _ _ _ _ _ HS i Hi).
  assert (i ∉ waiters k j) as Hn.
  { rewrite waiters_spec. intros [[Hw _] _]. destruct (job_key j Hj) as [_ Hv]. rewrite <- Hw, Hkey in Hv. done. }
  rewrite elem_of_app. intros [?%to_wake_sub|?%to_move_elem]; done.
Qed.

(** [futex_remove_waiter] finds no key, gives up the process lock, and takes it again to
    clear the key it did not find.  If the process published a key in between, it falls
    asleep without one, and no wakeup of any futex wakes it. *)
Theorem removal_race s i w deadline key : reachable s → (∀ x, stray x (c_log s) = false) →
  c_calls s !! i = Some (Published w deadline key) →
  should_interrupt_blocking_syscall (pcb (c_kernel s) i) = false →
  ∃ k1 k2 c, remove_with_key (c_kernel s) i no_key = Ret k1 ∧ futex_wait_sleep k1 i w deadline key = Ret (k2, c) ∧
    _state (pcb k2 i) = SLEEPING ∧
    ∀ j, JobOk j → wakeup2_void j = false → ∃ k3 n, wakeup2 k2 j = Ret (k3, n) ∧ _state (pcb k3 i) = SLEEPING.
Proof.
  intros Hr Hclean Hc Hsig. apply futex_reachable_inv in Hr. destruct (inv_calls s Hr _ _ Hc) as (Hi & _ & Hv & _).
  pose proof (inv_ok s Hr) as Hk. destruct (remove_spec (c_kernel s) i no_key Hk Hi) as (bs & k1 & Erm & Hbs & Ht1 & _); [done|].
  cbn [valid negb orb value no_key] in Ht1. pose proof (touch_ok _ _ _ _ _ Ht1) as Hk1.
  pose proof (touch_self _ _ _ _ _ Hk Hi Ht1) as Ep1.
  assert (value key ≠ nullptr) as Hval by (unfold valid in Hv; bool_facts; done).
  destruct (sleep_enter_spec k1 i (value key) Hk1 Hi Hval) as (k2 & b & Esl & Ht2).
  exists k1, k2, (Asleep w deadline key). unfold futex_wait_sleep. rewrite Esl. split_and!; [done|done|..].
  - rewrite (touch_self _ _ _ _ _ Hk1 Hi Ht2), Ep1. cbn.
    change (should_interrupt_blocking_syscall (removed (pcb (c_kernel s) i))) with (should_interrupt_blocking_syscall (pcb (c_kernel s) i)).
    by rewrite Hsig.
  - intros j Hj Hvoid. assert (AllListed (c_kernel s)) as Hall by (intros x Hx; by apply (inv_listed s Hr)).
    assert (AllListed k1) as Hall1 by (by apply (listed_touch (c_kernel s) i _ bs k1 Hk Hall Hi Ht1 Hbs)).
    assert (AllListed k2) as Hall2.
    { apply (listed_touch k1 i _ _ k2 Hk1 Hall1 Hi Ht2); [by apply bits_of_refl|]. rewrite Ep1. done. }
    destruct (keyless_not_woken k2 i j (touch_ok _ _ _ _ _ Ht2) Hall2 Hi) as (k3 & n & E3 & Hp3); [|done..|].
    + rewrite (touch_self _ _ _ _ _ Hk1 Hi Ht2), Ep1. done.
    + exists k3, n. split; [done|]. rewrite Hp3, (touch_self _ _ _ _ _ Hk1 Hi Ht2), Ep1. cbn.
      change (should_interrupt_blocking_syscall (removed (pcb (c_kernel s) i))) with (should_interrupt_blocking_syscall (pcb (c_kernel s) i)).
      by rewrite Hsig.
Qed.

End removal_race.

(** A signal whose handler has [SA_RESTART] is pending, for which [futex_wait] would
    return; the check in [sleep] passes over it, and the process falls asleep. *)
Definition restartable : Pcb :=
  mkPcb RUNNING 0 0 false false (2 ^ 14) 0 {[ 15 := mkAction 0x400000 RESTART ]} 0x1000 0 0 false 0 0 0.

Theorem restart_signal_sleeps :
  has_unmasked_signal_pending restartable = true ∧ should_interrupt_blocking_syscall restartable = false.
Proof. by vm_compute. Qed.

(** Process 2 waits for the shared futex; process 0, of another address space, requeues
    it to a private futex.  The key the waiter now has is that of the address in its own
    address space, in the bucket of the key of the other: no wakeup finds it. *)
Definition run_demo (l : list Act) : option Config := @run_all demo_spaces (mkConfig demo_kernel ∅ ∅ []) l.

Definition shared_wait : Wait := mkWait 0x700000 0 None false false Auto.
Definition go0 (i : Z) : Act := DoRegion i demo_clock (Some 0).

Definition after_requeue : outcome (Kernel * Z) :=
  match run_demo [DoWait 2 shared_wait demo_clock; go0 2; go0 2; go0 2] with
  | Some s => @futex_wakeup demo_spaces (c_mem s) (c_kernel s) 0 0x700000 0 0x5000 1 Auto true None
  | None => Stuck
  end.

Theorem requeue_loses_waiter :
  ∃ k, after_requeue = Ret (k, 1) ∧ _state (pcb k 2) = SLEEPING ∧
    (∃ k1, @futex_wakeup demo_spaces ∅ k 0 0x5000 512 0 0 Auto false None = Ret (k1, 0) ∧ _state (pcb k1 2) = SLEEPING) ∧
    (∃ k2, @futex_wakeup demo_spaces ∅ k 2 0x5000 512 0 0 Auto false None = Ret (k2, 0) ∧ _state (pcb k2 2) = SLEEPING).
Proof.
  set (test := match after_requeue with
    | Ret (k, 1) => bool_decide (_state (pcb k 2) = SLEEPING) &&
        match @futex_wakeup demo_spaces ∅ k 0 0x5000 512 0 0 Auto false None with
        | Ret (k1, 0) => bool_decide (_state (pcb k1 2) = SLEEPING) | _ => false end &&
        match @futex_wakeup demo_spaces ∅ k 2 0x5000 512 0 0 Auto false None with
        | Ret (k2, 0) => bool_decide (_state (pcb k2 2) = SLEEPING) | _ => false end
    | _ => false end).
  assert (test = true) as H by (by vm_compute). unfold test in H. destruct after_requeue as [[k [|[]|]]| | |]; try done.
  apply andb_true_iff in H as [H H2]. apply andb_true_iff in H as [H H1]. exists k. split; [done|].
  split; [by apply bool_decide_eq_true in H|]. split.
  - destruct (futex_wakeup _ _ 0 _ _ _ _ _ _ _) as [[k1 [| |]]| | |]; try done. exists k1. by apply bool_decide_eq_true in H1.
  - destruct (futex_wakeup _ _ 2 _ _ _ _ _ _ _) as [[k2 [| |]]| | |]; try done. exists k2. by apply bool_decide_eq_true in H2.
Qed.

(** The product of the seconds and the clock frequency wraps around: with a clock of
    10 MHz a relative timeout of 2^62 seconds has passed at once. *)
Theorem long_timeout_expires_at_once :
  let ts := mkTime (2 ^ 62) 0 in
  futex_timespec_is_valid ts = true ∧ futex_timeout_to_cycles demo_clock ts = Some 0 ∧
  ∃ k, futex_wait_enter demo_kernel 0 (mkWait 0x5000 7 (Some ts) false false Private) demo_clock
    = Ret (k, Clearing no_key (Finish ETIMEDOUT)).
Proof.
  intros ts. split; [done|]. split; [done|].
  destruct (enter_spec demo_kernel 0 (mkWait 0x5000 7 (Some ts) false false Private) demo_clock) as (k & c & E & _);
    [apply demo_quiescent|done|]. exists k. rewrite E.
  assert (match futex_wait_enter demo_kernel 0 (mkWait 0x5000 7 (Some ts) false false Private) demo_clock with
    | Ret (_, c) => match c with Clearing key (Finish r) => bool_decide (key = no_key) && (r =? ETIMEDOUT) | _ => false end
    | _ => false end = true) as H by (by vm_compute).
  rewrite E in H. destruct c as [| | | | | |key [r|]| | | | |]; try done. apply andb_true_iff in H as [H1%bool_decide_eq_true H2%Z.eqb_eq].
  by subst.
Qed.

(** The same product under an absolute deadline, whose guard looks at the sum with the
    stamp only: 2^62 seconds from now the deadline is the next cycle. *)
Theorem long_deadline_is_next_cycle :
  let clk := mkClock (λ _, None) 500 10000000 in
  futex_absolute_deadline_to_cycles clk (mkTime 0 0) (mkTime (2 ^ 62) 0) = Some 501.
Proof. by vm_compute. Qed.

End FutexLimits.
