(* ===== verification/FutexCalls.v ===== *)
(** * The calls above the futexes (kernel/proc/futex.cc, kernel/sys/syscall_handler.cc)

    [sys_futex] decodes its arguments; [futex_wake_op] changes a futex and wakes two;
    [futex_cleanup_robust_list] hands over the futexes an exiting thread holds.  The
    wakeups they make run without another process in between. *)
From S2P Require Import Prelude Sleep SleepRep Futex FutexSystem FutexOps FutexInv FutexWake FutexScan.
Import Sleep SleepRep Futex FutexSystem FutexOps FutexInv FutexWake FutexScan.

Module FutexCalls.

(** ** [sys_futex] *)

Definition FUTEX_WAIT : Z := 0.
Definition FUTEX_WAKE : Z := 1.
Definition FUTEX_REQUEUE : Z := 3.
Definition FUTEX_CMP_REQUEUE : Z := 4.
Definition FUTEX_WAKE_OP : Z := 5.
Definition FUTEX_WAIT_BITSET : Z := 9.
Definition FUTEX_WAKE_BITSET : Z := 10.
Definition FUTEX_CMP_REQUEUE_PI : Z := 12.
Definition FUTEX_PRIVATE_FLAG : Z := 128.
Definition FUTEX_CLOCK_REALTIME : Z := 256.
Definition FUTEX_CMD_MASK : Z := Z.lnot (Z.lor FUTEX_PRIVATE_FLAG FUTEX_CLOCK_REALTIME).

Definition MAXVA : Z := 2 ^ 38.

(** The call [sys_futex] makes. *)
Inductive FutexCall :=
  | CallWait (w : Wait)
  | CallWakeup (uaddr val uaddr2 val2 : Z) (scope : FutexKeyScope) (include : bool) (expected : option Z)
  | CallWakeOp (uaddr val uaddr2 val2 code : Z) (scope : FutexKeyScope).

(** [_arg_addr]; [_arg_int] narrows and cannot fail. *)
Definition arg_addr (raw : Z) : option Z := if MAXVA <=? raw then None else Some raw.

(** The registers of the call, and the timeout [copy_in] reads at an address. *)
Definition sys_futex (a0 a1 a2 a3 a4 a5 : Z) (read_timeout : Z → option timespec) : Z + FutexCall :=
  match arg_addr a0 with
  | None => inl EINVAL
  | Some uaddr =>
      let op := i32 a1 in
      let val := i32 a2 in
      let scope := if negb (Z.land op FUTEX_PRIVATE_FLAG =? 0) then Private else Auto in
      let cmd := Z.land op FUTEX_CMD_MASK in
      let timeout :=
        if (cmd =? FUTEX_WAIT) || (cmd =? FUTEX_WAIT_BITSET) then
          match arg_addr a3 with
          | None => inl EINVAL
          | Some timeout_addr =>
              if timeout_addr =? 0 then inr None else
              match read_timeout timeout_addr with None => inl EFAULT | Some ts => inr (Some ts) end
          end
        else inr None in
      match timeout with
      | inl e => inl e
      | inr ts =>
          let second :=
            if (cmd =? FUTEX_REQUEUE) || (cmd =? FUTEX_CMP_REQUEUE) || (cmd =? FUTEX_CMP_REQUEUE_PI) || (cmd =? FUTEX_WAKE_OP)
            then match arg_addr a4 with None => inl EINVAL | Some uaddr2 => inr (i32 a3, uaddr2) end
            else inr (0, 0) in
          match second with
          | inl e => inl e
          | inr (val2, uaddr2) =>
              if cmd =? FUTEX_WAIT then inr (CallWait (mkWait uaddr val ts false false scope))
              else if cmd =? FUTEX_WAIT_BITSET then
                inr (CallWait (mkWait uaddr val ts true (negb (Z.land op FUTEX_CLOCK_REALTIME =? 0)) scope))
              else if (cmd =? FUTEX_WAKE) || (cmd =? FUTEX_WAKE_BITSET) then
                inr (CallWakeup uaddr val 0 0 scope false None)
              else if cmd =? FUTEX_REQUEUE then inr (CallWakeup uaddr val uaddr2 val2 scope false None)
              else if cmd =? FUTEX_CMP_REQUEUE then inr (CallWakeup uaddr val uaddr2 val2 scope true (Some (i32 a5)))
              else if cmd =? FUTEX_WAKE_OP then inr (CallWakeOp uaddr val uaddr2 val2 (u32 a5) scope)
              else inl ENOSYS
          end
      end
  end.

(** ** User memory

    [copy_in] and [copy_out] of words of 4 and 8 bytes in the address space of a memory
    manager; [None] where they fail. *)
Class UserMemory := {
  copy_in32 : gmap Z Z → ptr → Z → option Z;
  copy_in64 : gmap Z Z → ptr → Z → option Z;
  copy_out32 : gmap Z Z → ptr → Z → Z → option (gmap Z Z)
}.

Section with_memory.
Context {AS : AddressSpaces} {UM : UserMemory}.

(** ** [futex_wake_op] *)

(** The argument of the operation; with the shift bit, a power of two. *)
Definition operation_argument (raw : Z) : option Z :=
  let arg := Z.land (Z.shiftr raw 12) 0xFFF in
  if negb (Z.land raw 0x80000000 =? 0) then (if 31 <=? arg then None else Some (u32 (Z.shiftl 1 arg))) else Some arg.

Definition operation (op old_value arg : Z) : option Z :=
  if op =? 0 then Some (i32 arg)
  else if op =? 1 then Some (i32 (old_value + i32 arg))
  else if op =? 2 then Some (Z.lor old_value (i32 arg))
  else if op =? 3 then Some (Z.land old_value (Z.lnot (i32 arg)))
  else if op =? 4 then Some (Z.lxor old_value (i32 arg))
  else None.

Definition comparison (cmp old_value arg : Z) : option bool :=
  if cmp =? 0 then Some (old_value =? arg)
  else if cmp =? 1 then Some (negb (old_value =? arg))
  else if cmp =? 2 then Some (old_value <? arg)
  else if cmp =? 3 then Some (old_value <=? arg)
  else if cmp =? 4 then Some (arg <? old_value)
  else if cmp =? 5 then Some (arg <=? old_value)
  else None.

Definition futex_wake_op (mem : gmap Z Z) (k : Kernel) (cur uaddr1 wake_count uaddr2 second_wake_count encoded_op : Z)
    (key_scope : FutexKeyScope) : outcome (Kernel * gmap Z Z * Z) :=
  if (uaddr1 =? 0) || (uaddr2 =? 0) || (wake_count <? 0) || (second_wake_count <? 0) then Ret (k, mem, EINVAL) else
  let! p := get_pcb k cur in
  let mm := memory_manager p in
  match copy_in32 mem mm uaddr2 with
  | None => Ret (k, mem, EFAULT)
  | Some loaded =>
      let old_value := i32 loaded in
      let op := Z.land (Z.shiftr encoded_op 28) 0x7 in
      let cmp := Z.land (Z.shiftr encoded_op 24) 0xF in
      match operation_argument encoded_op with
      | None => Ret (k, mem, EINVAL)
      | Some arg =>
          match operation op old_value arg with
          | None => Ret (k, mem, ENOSYS)
          | Some new_value =>
              match copy_out32 mem mm uaddr2 (u32 new_value) with
              | None => Ret (k, mem, EFAULT)
              | Some mem =>
                  match comparison cmp old_value (Z.land encoded_op 0xFFF) with
                  | None => Ret (k, mem, ENOSYS)
                  | Some compare_matches =>
                      let! (k, result) := futex_wakeup mem k cur uaddr1 wake_count 0 0 key_scope false None in
                      if result <? 0 then Ret (k, mem, result) else
                      if compare_matches then
                        let! (k, second_result) := futex_wakeup mem k cur uaddr2 second_wake_count 0 0 key_scope false None in
                        if second_result <? 0 then Ret (k, mem, second_result) else
                        Ret (k, mem, result + second_result)
                      else Ret (k, mem, result)
                  end
              end
          end
      end
  end.

(** ** Robust lists *)

Definition FUTEX_OWNER_DIED : Z := 0x40000000.
Definition FUTEX_WAITERS : Z := 0x80000000.
Definition FUTEX_TID_MASK : Z := 0x3fffffff.
Definition MAX_ROBUST_ENTRIES : nat := 1000.

(** The offsets of [robust_list_head]. *)
Definition offset_list_next : Z := 0.
Definition offset_futex_offset : Z := 8.
Definition offset_list_op_pending : Z := 16.

(** A pointer of the list, and the bit it carries. *)
Definition fetch_robust_entry (mem : gmap Z Z) (mm entry_ptr_addr : Z) : option (Z * Z) :=
  match copy_in64 mem mm entry_ptr_addr with
  | None => None
  | Some raw_entry => Some (Z.land raw_entry (u64 (Z.lnot 1)), Z.land raw_entry 1)
  end.

(** The futex at [futex_addr] of the dead owner [tid]. *)
Definition owner_died (mem : gmap Z Z) (k : Kernel) (cur tid futex_addr pi : Z) : outcome (Kernel * gmap Z Z) :=
  let! p := get_pcb k cur in
  let mm := memory_manager p in
  match copy_in32 mem mm futex_addr with
  | None => Ret (k, mem)
  | Some futex_val =>
      if negb (Z.land futex_val FUTEX_TID_MASK =? u32 tid) then Ret (k, mem) else
      let new_val := Z.lor (Z.land futex_val FUTEX_WAITERS) FUTEX_OWNER_DIED in
      match copy_out32 mem mm futex_addr new_val with
      | None => Ret (k, mem)
      | Some mem =>
          if negb (Z.land futex_val FUTEX_WAITERS =? 0) && (pi =? 0) then
            let! (k, _) := futex_wakeup mem k cur futex_addr 1 0 0 Auto false None in Ret (k, mem)
          else Ret (k, mem)
      end
  end.

(** The walk along the list; [room] is what [MAX_ROBUST_ENTRIES] leaves. *)
Fixpoint robust_walk (room : nat) (mem : gmap Z Z) (k : Kernel) (cur tid mm head futex_offset pending entry pi : Z)
    : outcome (Kernel * gmap Z Z) :=
  if (entry =? nullptr) || (entry =? head) then Ret (k, mem) else
  match room with
  | O => Ret (k, mem)
  | S room =>
      match fetch_robust_entry mem mm (entry + offset_list_next) with
      | None => Ret (k, mem)
      | Some (next_entry, next_pi) =>
          let! (k, mem) := (if negb (entry =? pending) then owner_died mem k cur tid (u64 (entry + futex_offset)) pi
                            else Ret (k, mem)) in
          robust_walk room mem k cur tid mm head futex_offset pending next_entry next_pi
      end
  end.

(** [head] is [_robust_list_user_addr] and [tid] is [_tid] of the current process. *)
Definition futex_cleanup_robust_list (mem : gmap Z Z) (k : Kernel) (cur tid head : Z) : outcome (Kernel * gmap Z Z) :=
  if head =? 0 then Ret (k, mem) else
  let! p := get_pcb k cur in
  let mm := memory_manager p in
  match copy_in64 mem mm (head + offset_futex_offset) with
  | None => Ret (k, mem)
  | Some futex_offset =>
      match fetch_robust_entry mem mm (head + offset_list_next) with
      | None => Ret (k, mem)
      | Some (entry, pi) =>
          match fetch_robust_entry mem mm (head + offset_list_op_pending) with
          | None => Ret (k, mem)
          | Some (pending, pending_pi) =>
              let! (k, mem) := robust_walk MAX_ROBUST_ENTRIES mem k cur tid mm head futex_offset pending entry pi in
              if negb (pending =? nullptr) then owner_died mem k cur tid (u64 (pending + futex_offset)) pending_pi
              else Ret (k, mem)
          end
      end
  end.

End with_memory.
End FutexCalls.
