(* ===== verification/FutexRobust.v ===== *)
(** * The robust list of an exiting thread *)
From S2P Require Import Prelude Sleep SleepRep Futex FutexSystem FutexOps FutexInv FutexWait FutexWake FutexScan FutexCorrect FutexCalls.
Import Sleep SleepRep Futex FutexSystem FutexOps FutexInv FutexWait FutexWake FutexScan FutexCalls FutexCorrect.

Module FutexRobust.

Section with_memory.
Context {AS : AddressSpaces} {UM : UserMemory}.

(** ** Everything returns *)

(** The kernel is consistent and the processes keep their address spaces. *)
Record Sound (k k' : Kernel) : Prop := {
  sound_ok : Ok k';
  sound_listed : AllListed k';
  sound_mm i : slot i → memory_manager (pcb k' i) = memory_manager (pcb k i)
}.

Lemma sound_refl k : Ok k → AllListed k → Sound k k.
Proof. by split. Qed.

Lemma sound_trans k1 k2 k3 : Sound k1 k2 → Sound k2 k3 → Sound k1 k3.
Proof. intros [_ _ H1] [? ? H2]. split; [done..|]. intros i Hi. rewrite H2 by done. by apply H1. Qed.

Lemma wakeup_returns mem k cur uaddr val scope : Ok k → AllListed k → slot cur →
  ∃ k' r, futex_wakeup mem k cur uaddr val 0 0 scope false None = Ret (k', r) ∧ Sound k k'.
Proof.
  intros Hk Hall Hcur. unfold futex_wakeup. rewrite get_pcb_spec by done. cbn [obind].
  destruct (futex_wakeup_keys _ _ _ _ _ _ _ _) as [e|j] eqn:E; [exists k, e; split; [done|by apply sound_refl]|].
  pose proof (job_ok _ _ _ _ _ _ _ _ _ E) as Hj.
  assert (j_key2 j = no_key ∧ j_expected j = None) as [Ek2 Ee].
  { unfold futex_wakeup_keys in E. change (0 =? nullptr) with true in E. cbn [negb andb] in E.
    destruct (val <? 0); [done|]. destruct (uaddr =? 0); [done|]. destruct (valid _); [|done]. by injection E as <-. }
  unfold check_expected. rewrite Ee. destruct (wakeup2_void j) eqn:Hvoid.
  { unfold wakeup2. rewrite Hvoid. eexists k, _. split; [done|by apply sound_refl]. }
  destruct (wakeup2_spec k j Hk (key_listed k j Hall) Hj Hvoid) as (k' & c1 & c2 & -> & HS & _).
  eexists k', _. split; [done|]. pose proof (λ H, served_all_listed _ _ _ _ _ Hall H HS) as Hall'.
  destruct HS as [S1 _ _ S4 S5 S6]. split; [done|apply Hall'; intros i _; unfold mixed; by rewrite Ek2, andb_false_r|]. intros i Hi.
  destruct (decide (i ∈ to_wake j (waiters k j))); [by rewrite S4|].
  destruct (decide (i ∈ to_move k j (waiters k j))) as [Hm|]; [by destruct (S5 i Hm) as [b ->]|].
  rewrite S6; [done|done|]. rewrite elem_of_app. tauto.
Qed.

(** The word of a futex after its owner died. *)
Definition died (v : Z) : Z := Z.lor (Z.land v FUTEX_WAITERS) FUTEX_OWNER_DIED.
Definition owned (tid v : Z) : bool := Z.land v FUTEX_TID_MASK =? u32 tid.

(** What [owner_died] does to the memory. *)
Definition died_mem (mem mem' : gmap Z Z) (mm tid a : Z) : Prop :=
  mem' = mem ∨ ∃ v, copy_in32 mem mm a = Some v ∧ owned tid v = true ∧ copy_out32 mem mm a (died v) = Some mem'.

Lemma owner_died_spec mem k cur tid a pi : Ok k → AllListed k → slot cur →
  ∃ k' mem', owner_died mem k cur tid a pi = Ret (k', mem') ∧ Sound k k' ∧
    died_mem mem mem' (memory_manager (pcb k cur)) tid a ∧
    (∀ v, copy_in32 mem (memory_manager (pcb k cur)) a = Some v → owned tid v = true →
      is_Some (copy_out32 mem (memory_manager (pcb k cur)) a (died v)) →
      copy_out32 mem (memory_manager (pcb k cur)) a (died v) = Some mem').
Proof.
  intros Hk Hall Hcur. unfold owner_died. rewrite get_pcb_spec by done. cbn [obind]. set (mm := memory_manager _).
  pose proof (sound_refl k Hk Hall) as Hrefl.
  destruct (copy_in32 mem mm a) as [v|] eqn:Ein; [|exists k, mem; split_and!; [done|done|by left|done]].
  fold (owned tid v). destruct (owned tid v) eqn:Eo; cbn [negb].
  2: { exists k, mem. split_and!; [done|done|by left|]. intros v' [= <-]. by rewrite Eo. }
  fold (died v). destruct (copy_out32 mem mm a (died v)) as [mem'|] eqn:Eout.
  2: { exists k, mem. split_and!; [done|done|by left|]. intros v' [= <-] _ Hs. rewrite Eout in Hs. by destruct Hs. }
  assert (died_mem mem mem' mm tid a) as Hd by (right; eauto).
  assert (∀ v', Some v = Some v' → owned tid v' = true → is_Some (copy_out32 mem mm a (died v')) →
    copy_out32 mem mm a (died v') = Some mem') as Hall' by (by intros v' [= <-]).
  destruct (_ && _); [|by exists k, mem'].
  destruct (wakeup_returns mem' k cur a 1 Auto Hk Hall Hcur) as (k' & r & -> & Hs). cbn [obind]. by exists k', mem'.
Qed.

Lemma walk_returns room mem k cur tid mm head off pending entry pi : Ok k → AllListed k → slot cur →
  ∃ k' mem', robust_walk room mem k cur tid mm head off pending entry pi = Ret (k', mem') ∧ Sound k k'.
Proof.
  intros Hk Hall Hcur. revert mem k entry pi Hk Hall. induction room as [|room IH]; intros mem k entry pi Hk Hall; cbn [robust_walk].
  - destruct (_ || _); eexists k, mem; split; done || by apply sound_refl.
  - destruct (_ || _); [eexists k, mem; split; done || by apply sound_refl|].
    destruct (fetch_robust_entry _ _ _) as [[nxt npi]|]; [|eexists k, mem; split; done || by apply sound_refl].
    assert (∃ k1 mem1, (if negb (entry =? pending) then owner_died mem k cur tid (u64 (entry + off)) pi else Ret (k, mem)) = Ret (k1, mem1) ∧ Sound k k1) as (k1 & mem1 & -> & Hs1).
    { destruct (negb _); [|eexists k, mem; split; done || by apply sound_refl].
      destruct (owner_died_spec mem k cur tid (u64 (entry + off)) pi Hk Hall Hcur) as (k1 & mem1 & E & Hs & _). eauto. }
    cbn [obind]. destruct (IH mem1 k1 nxt npi) as (k2 & mem2 & E & Hs2); [apply Hs1|apply Hs1|].
    exists k2, mem2. split; [done|by eapply sound_trans].
Qed.

(** The cleanup of an exiting thread returns and leaves the kernel consistent,
    whatever the user memory holds: lists that run in a circle, lead to unmapped
    addresses or are longer than the bound are walked no further than the bound. *)
Theorem robust_list_returns mem k cur tid head : Ok k → AllListed k → slot cur →
  ∃ k' mem', futex_cleanup_robust_list mem k cur tid head = Ret (k', mem') ∧ Sound k k'.
Proof.
  intros Hk Hall Hcur. pose proof (sound_refl k Hk Hall) as Hrefl. unfold futex_cleanup_robust_list.
  destruct (head =? 0); [eauto|]. rewrite get_pcb_spec by done. cbn [obind].
  destruct (copy_in64 _ _ _) as [off|]; [|eauto]. destruct (fetch_robust_entry _ _ (head + offset_list_next)) as [[entry pi]|]; [|eauto].
  destruct (fetch_robust_entry _ _ _) as [[pending ppi]|]; [|eauto].
  destruct (walk_returns MAX_ROBUST_ENTRIES mem k cur tid (memory_manager (pcb k cur)) head off pending entry pi Hk Hall Hcur) as (k1 & mem1 & -> & Hs1).
  cbn [obind]. destruct (negb _); [|eauto].
  destruct (owner_died_spec mem1 k1 cur tid (u64 (pending + off)) ppi) as (k2 & mem2 & -> & Hs2 & _); [apply Hs1|apply Hs1|done|].
  exists k2, mem2. split; [done|by eapply sound_trans].
Qed.

(** ** A well-formed list *)

(** Two ranges of addresses that do not meet. *)
Definition apart (a n b m : Z) : Prop := a + n ≤ b ∨ b + m ≤ a.

(** What [copy_in] and [copy_out] promise where no two addresses are the same memory. *)
Class UserMemoryLaws (mm : ptr) := {
  in32_same mem mem' a v : copy_out32 mem mm a v = Some mem' → 0 ≤ v < 2 ^ 32 → copy_in32 mem' mm a = Some v;
  in32_other mem mem' a v b : copy_out32 mem mm a v = Some mem' → apart a 4 b 4 → copy_in32 mem' mm b = copy_in32 mem mm b;
  in64_other mem mem' a v b : copy_out32 mem mm a v = Some mem' → apart a 4 b 8 → copy_in64 mem' mm b = copy_in64 mem mm b
}.

(** The nodes [l] from the pointer [e] on, back to [head]. *)
Fixpoint linked (mem : gmap Z Z) (mm head : Z) (l : list Z) (e : Z * Z) : Prop :=
  match l with
  | [] => e.1 = nullptr ∨ e.1 = head
  | n :: l => e.1 = n ∧ n ≠ nullptr ∧ n ≠ head ∧
      ∃ nxt, fetch_robust_entry mem mm (n + offset_list_next) = Some nxt ∧ linked mem mm head l nxt
  end.

Lemma died_range v : 0 ≤ v < 2 ^ 32 → 0 ≤ died v < 2 ^ 32.
Proof.
  intros Hv. unfold died. assert (0 ≤ Z.lor (Z.land v FUTEX_WAITERS) FUTEX_OWNER_DIED) as H0.
  { apply Z.lor_nonneg. split; [apply Z.land_nonneg; by right|done]. }
  split; [done|]. destruct (decide (Z.lor (Z.land v FUTEX_WAITERS) FUTEX_OWNER_DIED = 0)) as [->|]; [done|].
  apply Z.log2_lt_pow2; [lia|]. rewrite Z.log2_lor by (done || apply Z.land_nonneg; by right).
  apply Z.max_lub_lt; [|done]. eapply Z.le_lt_trans; [apply Z.log2_land; [lia|done]|]. apply Z.min_lt_iff. by right.
Qed.

Section well_formed.
Context (mm : ptr) {Laws : UserMemoryLaws mm} (tid off : Z) (writable : Z → Prop).
Hypothesis writable_spec : ∀ mem a v, writable a → is_Some (copy_out32 mem mm a v).

Definition futex_of (n : Z) : Z := u64 (n + off).

(** The word after the cleanup. *)
Definition released_word (v : Z) : Z := if owned tid v then died v else v.

(** [mem'] is [mem] with the words of the futexes of [ns] released. *)
Record Cleaned (mem : gmap Z Z) (ns : list Z) (mem' : gmap Z Z) : Prop := {
  cleaned_words n v : n ∈ ns → copy_in32 mem mm (futex_of n) = Some v → 0 ≤ v < 2 ^ 32 →
    copy_in32 mem' mm (futex_of n) = Some (released_word v);
  cleaned_rest b : (∀ n, n ∈ ns → apart (futex_of n) 4 b 4) → copy_in32 mem' mm b = copy_in32 mem mm b;
  cleaned_links b : (∀ n, n ∈ ns → apart (futex_of n) 4 b 8) → copy_in64 mem' mm b = copy_in64 mem mm b
}.

Lemma cleaned_nil mem : Cleaned mem [] mem.
Proof. split; [by intros n v ?%not_elem_of_nil|done|done]. Qed.

Lemma cleaned_one mem k cur n pi : Ok k → AllListed k → slot cur → memory_manager (pcb k cur) = mm → writable (futex_of n) →
  ∃ k' mem', owner_died mem k cur tid (futex_of n) pi = Ret (k', mem') ∧ Sound k k' ∧ Cleaned mem [n] mem'.
Proof.
  intros Hk Hall Hcur Emm Hw. destruct (owner_died_spec mem k cur tid (futex_of n) pi Hk Hall Hcur) as (k' & mem' & E & Hs & Hd & Hwrite).
  rewrite Emm in *. exists k', mem'. split_and!; [done..|]. split.
  - intros n' v ->%list_elem_of_singleton Hv Hr. unfold released_word. destruct (owned tid v) eqn:Eo.
    + specialize (Hwrite v Hv Eo (writable_spec _ _ _ Hw)). by apply (in32_same mem _ _ _ Hwrite), died_range.
    + destruct Hd as [->|(v' & Hv' & Eo' & _)]; [done|]. rewrite Hv in Hv'. injection Hv' as <-. congruence.
  - intros b Hb. destruct Hd as [->|(v' & _ & _ & Hout)]; [done|]. apply (in32_other _ _ _ _ _ Hout). apply Hb. by left.
  - intros b Hb. destruct Hd as [->|(v' & _ & _ & Hout)]; [done|]. apply (in64_other _ _ _ _ _ Hout). apply Hb. by left.
Qed.

Lemma cleaned_app mem ns mem1 ns' mem2 : Cleaned mem ns mem1 → Cleaned mem1 ns' mem2 →
  (∀ n n', n ∈ ns → n' ∈ ns' → apart (futex_of n') 4 (futex_of n) 4 ∧ apart (futex_of n) 4 (futex_of n') 4) →
  Cleaned mem (ns ++ ns') mem2.
Proof.
  intros [A1 A2 A3] [B1 B2 B3] Hap. split.
  - intros n v [Hn|Hn]%elem_of_app Hv Hr.
    + rewrite B2 by (intros n' Hn'; exact (proj1 (Hap n n' Hn Hn'))). by apply A1.
    + apply B1; [done| |done]. rewrite A2; [done|]. intros n' Hn'. exact (proj2 (Hap n' n Hn' Hn)).
  - intros b Hb. rewrite B2, A2; [done|..]; intros n Hn; apply Hb; rewrite elem_of_app; auto.
  - intros b Hb. rewrite B3, A3; [done|..]; intros n Hn; apply Hb; rewrite elem_of_app; auto.
Qed.

(** The futexes of the nodes do not overlap each other or the pointers of the list. *)
Definition spread (l : list Z) (ptrs : list Z) : Prop :=
  (∀ n n', n ∈ l → n' ∈ l → n ≠ n' → apart (futex_of n) 4 (futex_of n') 4) ∧
  (∀ n b, n ∈ l → b ∈ ptrs → apart (futex_of n) 4 b 8).

Lemma linked_cleaned mem ns mem' head l e : Cleaned mem ns mem' →
  (∀ n b, n ∈ ns → b ∈ l → apart (futex_of n) 4 (b + offset_list_next) 8) →
  linked mem mm head l e → linked mem' mm head l e.
Proof.
  intros HC. revert e. induction l as [|n l IH]; intros e Hap; [done|]. cbn.
  intros (E1 & E2 & E3 & nxt & Hf & Hl). split_and!; [done..|]. exists nxt. split.
  - unfold fetch_robust_entry in *. rewrite (cleaned_links _ _ _ HC); [done|]. intros n' Hn'. apply Hap; [done|by left].
  - apply IH; [|done]. intros. apply Hap; [done|by right].
Qed.

Lemma walk_spec room l mem k cur head pending entry pi : Ok k → AllListed k → slot cur → memory_manager (pcb k cur) = mm →
  NoDup l → spread l ((λ b, b + offset_list_next) <$> l) → (∀ n, n ∈ l → writable (futex_of n)) →
  (length l ≤ room)%nat → linked mem mm head l (entry, pi) →
  ∃ k' mem', robust_walk room mem k cur tid mm head off pending entry pi = Ret (k', mem') ∧ Sound k k' ∧
    Cleaned mem (base.filter (.≠ pending) l) mem'.
Proof.
  revert room mem k entry pi. induction l as [|n l IH]; intros room mem k entry pi Hk Hall Hcur Emm Hnd Hsp Hw Hlen Hl.
  - exists k, mem. split_and!; [|by apply sound_refl|apply cleaned_nil].
    assert ((entry =? nullptr) || (entry =? head) = true) as E by (apply orb_true_iff; rewrite !Z.eqb_eq; exact Hl).
    destruct room; cbn [robust_walk]; by rewrite E.
  - destruct Hl as (E1 & E2 & E3 & [nxt npi] & Hf & Hl). cbn in E1. subst entry. apply NoDup_cons in Hnd as [Hfresh Hnd].
    destruct room as [|room]; [cbn in Hlen; lia|]. cbn [robust_walk].
    rewrite (proj2 (Z.eqb_neq _ _) E2), (proj2 (Z.eqb_neq _ _) E3). cbn [orb]. rewrite Hf.
    assert (spread l ((λ b, b + offset_list_next) <$> l)) as Hsp'.
    { destruct Hsp as [Hs1 Hs2]. split; [intros; apply Hs1; by try right|]. intros; apply Hs2; [by right|]. cbn. by right. }
    assert (∀ n', n' ∈ l → writable (futex_of n')) as Hw' by (intros; apply Hw; by right).
    destruct (Z.eqb_spec n pending) as [->|Hne]; cbn [negb obind].
    + destruct (IH room mem k nxt npi) as (k' & mem' & -> & Hs & HC); [done..|cbn in Hlen; lia|done|].
      exists k', mem'. split_and!; [done..|]. by rewrite filter_cons_False by (intros H; by apply H).
    + destruct (cleaned_one mem k cur n pi Hk Hall Hcur Emm) as (k1 & mem1 & E & Hs1 & HC1); [apply Hw; by left|].
      unfold futex_of in E. rewrite E. cbn [obind].
      destruct (IH room mem1 k1 nxt npi) as (k2 & mem2 & -> & Hs2 & HC2).
      * apply Hs1.
      * apply Hs1.
      * done.
      * by rewrite (sound_mm _ _ Hs1 cur Hcur).
      * done.
      * done.
      * done.
      * cbn in Hlen. lia.
      * apply (linked_cleaned mem [n] mem1); [done| |done]. intros n' b ->%list_elem_of_singleton Hb.
        apply Hsp; [by left|]. cbn. right. apply list_elem_of_fmap. eauto.
      * exists k2, mem2. split_and!; [done|by eapply sound_trans|]. rewrite filter_cons_True by done.
        apply (cleaned_app mem [n] mem1 _ mem2 HC1 HC2). intros n1 n2 ->%list_elem_of_singleton [_ Hn2]%list_elem_of_filter.
        assert (n ≠ n2) by (intros ->; done). destruct Hsp as [Hs' _]. split; apply Hs'; try done; try (by left); by right.
Qed.

(** The nodes whose futexes are handed over: those of the list, and the pending one. *)
Definition nodes (l : list Z) (pending : Z) : list Z :=
  base.filter (.≠ pending) l ++ (if pending =? nullptr then [] else [pending]).

Lemma nodes_sup l pending n : n ∈ l → n ≠ nullptr → n ∈ nodes l pending.
Proof.
  intros Hn Hnz. unfold nodes. rewrite elem_of_app, list_elem_of_filter. destruct (decide (n = pending)) as [->|]; [right|by left].
  rewrite (proj2 (Z.eqb_neq _ _) Hnz). by left.
Qed.

Lemma linked_nonnull mem head l e n : linked mem mm head l e → n ∈ l → n ≠ nullptr.
Proof.
  revert e. induction l as [|x l IH]; intros e; [by intros _ ?%not_elem_of_nil|].
  intros (_ & Hx & _ & nxt & _ & Hl) [->|Hn]%elem_of_cons; [done|by eapply IH].
Qed.

(** The cleanup of a well-formed list: the word of every futex of the list, and of the
    operation that was pending, that carries the thread's id is replaced by the mark
    that its owner died, keeping the bit for waiters; every other word is as before. *)
Theorem robust_list_correct mem k cur head l entry pi pending ppi :
  Ok k → AllListed k → slot cur → memory_manager (pcb k cur) = mm → head ≠ 0 →
  copy_in64 mem mm (head + offset_futex_offset) = Some off →
  fetch_robust_entry mem mm (head + offset_list_next) = Some (entry, pi) →
  fetch_robust_entry mem mm (head + offset_list_op_pending) = Some (pending, ppi) →
  linked mem mm head l (entry, pi) → NoDup l → (length l ≤ MAX_ROBUST_ENTRIES)%nat →
  spread (nodes l pending) ((λ b, b + offset_list_next) <$> l) →
  (∀ n, n ∈ nodes l pending → writable (futex_of n)) →
  ∃ k' mem', futex_cleanup_robust_list mem k cur tid head = Ret (k', mem') ∧ Sound k k' ∧
    Cleaned mem (nodes l pending) mem'.
Proof.
  intros Hk Hall Hcur Emm Hh Eoff Ehead Epend Hl Hnd Hlen Hsp Hw. unfold futex_cleanup_robust_list.
  rewrite (proj2 (Z.eqb_neq _ _) Hh). rewrite get_pcb_spec by done. cbn [obind]. rewrite Emm, Eoff, Ehead, Epend.
  assert (∀ n, n ∈ l → n ∈ nodes l pending) as Hsup by (intros n Hn; apply nodes_sup; [done|by eapply linked_nonnull]).
  destruct (walk_spec MAX_ROBUST_ENTRIES l mem k cur head pending entry pi) as (k1 & mem1 & -> & Hs1 & HC1); [done..| | |done|done|].
  { destruct Hsp as [Hs1 Hs2]. split; [intros; apply Hs1; auto|intros; apply Hs2; auto]. }
  { intros n Hn. apply Hw. by apply Hsup. }
  cbn [obind]. unfold nodes in *. destruct (Z.eqb_spec pending nullptr) as [Ep|Ep]; cbn [negb].
  { exists k1, mem1. by rewrite app_nil_r. }
  destruct (cleaned_one mem1 k1 cur pending ppi) as (k2 & mem2 & E2 & Hs2 & HC2); [apply Hs1|apply Hs1|done| | |].
  - by rewrite (sound_mm _ _ Hs1 cur Hcur).
  - apply Hw. rewrite elem_of_app. right. by left.
  - unfold futex_of in E2. rewrite E2. exists k2, mem2. split_and!; [done|by eapply sound_trans|].
    apply (cleaned_app mem _ mem1 _ mem2 HC1 HC2). intros n n' Hn ->%list_elem_of_singleton.
    pose proof Hn as [Hne _]%list_elem_of_filter. destruct Hsp as [Hsp _].
    split; apply Hsp; rewrite ?elem_of_app, ?list_elem_of_singleton; auto.
Qed.

End well_formed.
End with_memory.
(** ** A list of one futex *)

(** User memory without translation. *)
Definition flat_memory : UserMemory := {|
  copy_in32 mem _ a := Some (default 0 (mem !! a));
  copy_in64 mem _ a := Some (default 0 (mem !! a) + 2 ^ 32 * default 0 (mem !! (a + 4)));
  copy_out32 mem _ a v := Some (<[a := v]> mem)
|}.

Lemma flat_laws mm : @UserMemoryLaws flat_memory mm.
Proof.
  split; cbn.
  - intros mem mem' a v [= <-] _. by rewrite lookup_insert_eq.
  - intros mem mem' a v b [= <-] Hap. unfold apart in Hap. rewrite lookup_insert_ne by lia. done.
  - intros mem mem' a v b [= <-] Hap. unfold apart in Hap. rewrite !lookup_insert_ne by lia. done.
Qed.

Definition demo_memory : gmap Z Z :=
  list_to_map [(0x6000, 0x6100); (0x6008, 0x10); (0x6100, 0x6000); (0x6110, 5 + FUTEX_WAITERS)].

Lemma robust_list_correct_witness :
  let AS := demo_spaces in let UM := flat_memory in
  ∃ k' mem', futex_cleanup_robust_list demo_memory demo_kernel 0 5 0x6000 = Ret (k', mem') ∧
    copy_in32 mem' 0x1000 0x6110 = Some (FUTEX_WAITERS + FUTEX_OWNER_DIED).
Proof.
  intros AS UM. destruct demo_quiescent as [Hk Hkeys].
  assert (AllListed demo_kernel) as Hall by (intros i Hi Hne; destruct Hne; apply waiter_key_none; by apply Hkeys).
  destruct (@robust_list_correct AS UM 0x1000 (flat_laws 0x1000) 5 0x10 (λ _, True) ltac:(by intros; eexists)
    demo_memory demo_kernel 0 0x6000 [0x6100] 0x6100 0 0 0) as (k' & mem' & E & _ & HC).
  - done.
  - done.
  - done.
  - done.
  - done.
  - by vm_compute.
  - by vm_compute.
  - by vm_compute.
  - split_and!; [done..|]. exists (0x6000, 0). split; [by vm_compute|by right].
  - apply NoDup_singleton.
  - cbn. unfold MAX_ROBUST_ENTRIES. lia.
  - split.
    + intros n n' ->%list_elem_of_singleton ->%list_elem_of_singleton. done.
    + intros n b ->%list_elem_of_singleton ->%list_elem_of_singleton. vm_compute. by right.
  - done.
  - exists k', mem'. split; [exact E|]. clear E.
    refine (cleaned_words _ _ _ _ _ _ HC 0x6100 (5 + FUTEX_WAITERS) _ _ _); [by left|by vm_compute|unfold FUTEX_WAITERS; lia].
Defined.

Lemma robust_list_returns_witness :
  let AS := demo_spaces in let UM := flat_memory in
  ∃ k' mem', futex_cleanup_robust_list (<[0x6100 := 0x6100]> demo_memory) demo_kernel 0 5 0x6000 = Ret (k', mem').
Proof.
  intros AS UM. destruct demo_quiescent as [Hk Hkeys].
  assert (AllListed demo_kernel) as Hall by (intros i Hi Hne; destruct Hne; apply waiter_key_none; by apply Hkeys).
  destruct (robust_list_returns (<[0x6100 := 0x6100]> demo_memory) demo_kernel 0 5 0x6000 Hk Hall) as (k' & mem' & E & _); [done|].
  exists k', mem'. exact E.
Defined.

End FutexRobust.
