(* ===== verification/Scheduler.v ===== *)
(** * The scheduler (kernel/proc/scheduler.cc, kernel/hal/cpu.cc)

    A bitmap per processor names the runnable tasks whose home is there; counters hold
    the number of schedulable tasks per home, for the placement of new tasks, and the
    number with a priority that is not the default.  A function runs with the locks the
    code holds.  Of a task the model has the process control block of [Sleep] and the
    fields of the scheduler; the change of address space and of registers at a switch
    is omitted. *)
From S2P Require Import Prelude Sleep.
Import Sleep.

Module Scheduler.

(** ** Constants (param.h, proc.hh) *)

Definition NUMCPU : Z := 8.
Definition default_proc_prio : Z := 0.
Definition lowest_proc_prio : Z := 19.
Definition highest_proc_prio : Z := -20.
Definition k_runnable_slot_word_count : Z := (num_process + 63) / 64.
Definition EINVAL : Z := -22.

(** ** State *)

Record Task := mkTask {
  block : Pcb;
  _cpu_mask : Z;
  _last_cpu : Z;
  _running_cpu : Z;
  _priority : Z
}.

Definition state (t : Task) : ProcState := _state (block t).
Definition with_state (t : Task) (s : ProcState) : Task :=
  mkTask (Sleep.set_task_state (block t) s) (_cpu_mask t) (_last_cpu t) (_running_cpu t) (_priority t).
Definition with_mask (t : Task) (m : Z) : Task := mkTask (block t) m (_last_cpu t) (_running_cpu t) (_priority t).
Definition with_last (t : Task) (c : Z) : Task := mkTask (block t) (_cpu_mask t) c (_running_cpu t) (_priority t).
Definition with_running (t : Task) (c : Z) : Task := mkTask (block t) (_cpu_mask t) (_last_cpu t) c (_priority t).
Definition with_priority (t : Task) (p : Z) : Task := mkTask (block t) (_cpu_mask t) (_last_cpu t) (_running_cpu t) p.

Record Sched := mkSched {
  _non_default_schedulable : Z;
  _runnable_slot_words : list (list Z);
  _next_scan_global_id : list Z;
  _next_initial_cpu : Z;
  _pressure : list Z;
  _load_averages : list Z;
  _load_last_sample_sec : Z;
  _load_initialized : bool
}.

Definition with_non_default (s : Sched) (n : Z) : Sched :=
  mkSched n (_runnable_slot_words s) (_next_scan_global_id s) (_next_initial_cpu s) (_pressure s) (_load_averages s)
    (_load_last_sample_sec s) (_load_initialized s).
Definition with_words (s : Sched) (w : list (list Z)) : Sched :=
  mkSched (_non_default_schedulable s) w (_next_scan_global_id s) (_next_initial_cpu s) (_pressure s) (_load_averages s)
    (_load_last_sample_sec s) (_load_initialized s).
Definition with_next_scan (s : Sched) (l : list Z) : Sched :=
  mkSched (_non_default_schedulable s) (_runnable_slot_words s) l (_next_initial_cpu s) (_pressure s) (_load_averages s)
    (_load_last_sample_sec s) (_load_initialized s).
Definition with_next_initial (s : Sched) (c : Z) : Sched :=
  mkSched (_non_default_schedulable s) (_runnable_slot_words s) (_next_scan_global_id s) c (_pressure s) (_load_averages s)
    (_load_last_sample_sec s) (_load_initialized s).
Definition with_pressure (s : Sched) (l : list Z) : Sched :=
  mkSched (_non_default_schedulable s) (_runnable_slot_words s) (_next_scan_global_id s) (_next_initial_cpu s) l
    (_load_averages s) (_load_last_sample_sec s) (_load_initialized s).
Definition with_loads (s : Sched) (l : list Z) (last : Z) : Sched :=
  mkSched (_non_default_schedulable s) (_runnable_slot_words s) (_next_scan_global_id s) (_next_initial_cpu s) (_pressure s)
    l last true.

(** The process pool, the scheduler and the sets of processors (cpu.cc). *)
Record Machine := mkMachine {
  pool : list Task;
  sched : Sched;
  g_possible_cpu_mask : Z;
  g_online_cpu_mask : Z
}.

Definition with_tasks (m : Machine) (l : list Task) : Machine :=
  mkMachine l (sched m) (g_possible_cpu_mask m) (g_online_cpu_mask m).
Definition with_sched (m : Machine) (s : Sched) : Machine :=
  mkMachine (pool m) s (g_possible_cpu_mask m) (g_online_cpu_mask m).
Definition with_online (m : Machine) (w : Z) : Machine := mkMachine (pool m) (sched m) (g_possible_cpu_mask m) w.

Definition get_task (m : Machine) (gid : Z) : outcome Task := aget (pool m) gid.
Definition put_task (m : Machine) (gid : Z) (t : Task) : outcome Machine :=
  let! l := aset (pool m) gid t in Ret (with_tasks m l).

(** ** Processors (cpu.cc) *)

Definition k_cpu_capacity_mask : Z := u64 (u64 (Z.shiftl 1 NUMCPU) - 1).

Definition is_valid_cpu_id (cpu_id : Z) : bool := (cpu_id <? NUMCPU) && (cpu_id <? 64).
Definition valid_home_cpu (cpu_id : Z) : bool := (0 <=? cpu_id) && is_valid_cpu_id cpu_id.

Definition is_set (bits cpu : Z) : bool := negb (Z.land bits (u64 (Z.shiftl 1 cpu)) =? 0).

Definition possible_cpu_mask (m : Machine) : Z := Z.land (g_possible_cpu_mask m) k_cpu_capacity_mask.
Definition online_cpu_mask (m : Machine) : Z := Z.land (g_online_cpu_mask m) (possible_cpu_mask m).

(** The processors the device tree names, and the one that boots. *)
Fixpoint hart_mask (hartids : list Z) (mask : Z) : Z :=
  match hartids with
  | [] => mask
  | h :: hs => hart_mask hs (if is_valid_cpu_id h then Z.lor mask (u64 (Z.shiftl 1 h)) else mask)
  end.

Definition configure_topology (m : Machine) (hartids : list Z) (bootstrap_cpu : Z) : Machine :=
  let mask := hart_mask hartids 0 in
  let mask := if is_valid_cpu_id bootstrap_cpu then Z.lor mask (u64 (Z.shiftl 1 bootstrap_cpu)) else mask in
  let mask := if mask =? 0 then 1 else mask in
  mkMachine (pool m) (sched m) (Z.land mask k_cpu_capacity_mask) (g_online_cpu_mask m).

Definition mark_current_online (m : Machine) (cpu_id : Z) : Machine :=
  if negb (is_valid_cpu_id cpu_id) then m
  else with_online m (Z.lor (g_online_cpu_mask m) (u64 (Z.shiftl 1 cpu_id))).

Definition retain_online_cpus_only (m : Machine) (bootstrap_cpu : Z) : Machine * Z :=
  let old_possible := possible_cpu_mask m in
  let retained := Z.land (g_online_cpu_mask m) k_cpu_capacity_mask in
  let retained := if is_valid_cpu_id bootstrap_cpu then Z.lor retained (u64 (Z.shiftl 1 bootstrap_cpu)) else retained in
  let retained := if retained =? 0 then 1 else retained in
  (mkMachine (pool m) (sched m) retained (g_online_cpu_mask m), Z.land old_possible (u64 (Z.lnot retained))).

(** ** Bitmaps and counters *)

Definition mark_runnable_slot (m : Machine) (cpu_id global_id : Z) : outcome Machine :=
  if (NUMCPU <=? cpu_id) || (num_process <=? global_id) then Ret m else
  let! w := in_bucket (_runnable_slot_words (sched m)) cpu_id (λ ws, set_slot ws global_id) in
  Ret (with_sched m (with_words (sched m) w)).

Definition clear_runnable_slot (m : Machine) (cpu_id global_id : Z) : outcome Machine :=
  if (NUMCPU <=? cpu_id) || (num_process <=? global_id) then Ret m else
  let! w := in_bucket (_runnable_slot_words (sched m)) cpu_id (λ ws, clear_slot ws global_id) in
  Ret (with_sched m (with_words (sched m) w)).

Definition runnable_slot_word (m : Machine) (cpu_id word_index : Z) : outcome Z :=
  if (NUMCPU <=? cpu_id) || (k_runnable_slot_word_count <=? word_index) then Ret 0 else
  let! ws := aget (_runnable_slot_words (sched m)) cpu_id in aget ws word_index.

(** [fetch_add] and [fetch_sub] of a counter; the code asserts that a counter that is
    decremented was not zero. *)
Definition raise_pressure (m : Machine) (cpu : Z) : outcome Machine :=
  let! n := aget (_pressure (sched m)) cpu in
  let! l := aset (_pressure (sched m)) cpu (u32 (n + 1)) in
  Ret (with_sched m (with_pressure (sched m) l)).
Definition lower_pressure (m : Machine) (cpu : Z) : outcome Machine :=
  let! n := aget (_pressure (sched m)) cpu in
  if n =? 0 then Panic else
  let! l := aset (_pressure (sched m)) cpu (u32 (n - 1)) in
  Ret (with_sched m (with_pressure (sched m) l)).
Definition raise_non_default (m : Machine) : outcome Machine :=
  Ret (with_sched m (with_non_default (sched m) (u32 (_non_default_schedulable (sched m) + 1)))).
Definition lower_non_default (m : Machine) : outcome Machine :=
  let n := _non_default_schedulable (sched m) in
  if n =? 0 then Panic else Ret (with_sched m (with_non_default (sched m) (u32 (n - 1)))).

Definition is_schedulable (s : ProcState) : bool := bool_decide (s = RUNNABLE) || bool_decide (s = RUNNING).

(** ** [init] *)

Definition init : Sched :=
  mkSched 0 (replicate (Z.to_nat NUMCPU) (replicate (Z.to_nat k_runnable_slot_word_count) 0))
    (replicate (Z.to_nat NUMCPU) 0) (-1) (replicate (Z.to_nat NUMCPU) 0) [0; 0; 0] 0 false.

(** ** Placement *)

(** The first eligible processor. *)
Fixpoint first_eligible (fuel : nat) (eligible_mask first_cpu : Z) : outcome Z :=
  if Z.land eligible_mask (u64 (Z.shiftl 1 first_cpu)) =? 0 then
    match fuel with O => Stuck | S fuel' => first_eligible fuel' eligible_mask (first_cpu + 1) end
  else Ret first_cpu.

Definition usable (eligible_mask cpu : Z) : bool := valid_home_cpu cpu && is_set eligible_mask cpu.

Definition eligible_cpus (m : Machine) (mask : Z) : Z :=
  let eligible_mask := Z.land mask (online_cpu_mask m) in
  if eligible_mask =? 0 then Z.land mask (possible_cpu_mask m) else eligible_mask.

(** One candidate of [select_initial_cpu]; the selection is a processor and its pressure. *)
Definition consider_cpu (m : Machine) (eligible_mask first_cpu offset : Z) (best : Z * Z) : outcome (Z * Z) :=
  let candidate := (first_cpu + offset) mod NUMCPU in
  if negb (is_set eligible_mask candidate) then Ret best else
  let! pressure := aget (_pressure (sched m)) candidate in
  Ret (if pressure <? best.2 then (candidate, pressure) else best).

Definition select_initial_cpu (m : Machine) (mask parent_cpu : Z) : outcome (Machine * Z) :=
  let eligible_mask := eligible_cpus m mask in
  if eligible_mask =? 0 then Ret (m, parent_cpu) else
  let! first_cpu := (let cursor := _next_initial_cpu (sched m) in
                     if usable eligible_mask cursor then Ret cursor
                     else if usable eligible_mask parent_cpu then Ret parent_cpu
                     else first_eligible 64 eligible_mask 0) in
  let! best := for_up (consider_cpu m eligible_mask first_cpu) 0 NUMCPU (first_cpu, u32 (Z.lnot 0)) in
  Ret (with_sched m (with_next_initial (sched m) ((best.1 + 1) mod NUMCPU)), best.1).

(** ** Changes of a task, with its lock held *)

Definition set_task_state (m : Machine) (gid : Z) (s : ProcState) : outcome Machine :=
  let! t := get_task m gid in
  let old_state := state t in
  if bool_decide (old_state = s) then Ret m else
  let old_runnable := bool_decide (old_state = RUNNABLE) in
  let new_runnable := bool_decide (s = RUNNABLE) in
  let! m := (if old_runnable && valid_home_cpu (_last_cpu t) then clear_runnable_slot m (_last_cpu t) gid else Ret m) in
  let! (m, t) := (if new_runnable && negb (valid_home_cpu (_last_cpu t)) then
                    let! (m, c) := select_initial_cpu m (_cpu_mask t) (-1) in Ret (m, with_last t c)
                  else Ret (m, t)) in
  let old_schedulable := is_schedulable old_state in
  let new_schedulable := is_schedulable s in
  let home_cpu := _last_cpu t in
  let! m := (if valid_home_cpu home_cpu && negb (Bool.eqb old_schedulable new_schedulable) then
               if old_schedulable then lower_pressure m home_cpu else raise_pressure m home_cpu
             else Ret m) in
  let! m := (if negb (_priority t =? default_proc_prio) && negb (Bool.eqb old_schedulable new_schedulable) then
               if old_schedulable then lower_non_default m else raise_non_default m
             else Ret m) in
  let! m := put_task m gid (with_state t s) in
  if new_runnable && valid_home_cpu (_last_cpu t) then mark_runnable_slot m (_last_cpu t) gid else Ret m.

Definition set_task_priority (m : Machine) (gid priority : Z) : outcome Machine :=
  let! t := get_task m gid in
  let old_priority := _priority t in
  if old_priority =? priority then Ret m else
  let! m := (if is_schedulable (state t)
                && negb (Bool.eqb (old_priority =? default_proc_prio) (priority =? default_proc_prio)) then
               if negb (old_priority =? default_proc_prio) then lower_non_default m else raise_non_default m
             else Ret m) in
  put_task m gid (with_priority t priority).

Definition set_task_home_cpu (m : Machine) (gid cpu_id : Z) : outcome Machine :=
  let! t := get_task m gid in
  let old_cpu := _last_cpu t in
  if old_cpu =? cpu_id then Ret m else
  let runnable := bool_decide (state t = RUNNABLE) in
  let! m := (if is_schedulable (state t) then
               let! m := (if runnable && valid_home_cpu old_cpu then clear_runnable_slot m old_cpu gid else Ret m) in
               let! m := (if valid_home_cpu old_cpu then lower_pressure m old_cpu else Ret m) in
               if valid_home_cpu cpu_id then raise_pressure m cpu_id else Ret m
             else Ret m) in
  let! m := put_task m gid (with_last t cpu_id) in
  if runnable && valid_home_cpu cpu_id then mark_runnable_slot m cpu_id gid else Ret m.

(** ** Callers *)

(** [ProcessManager::set_priority]. *)
Definition set_priority (m : Machine) (gid priority : Z) : outcome Machine :=
  let priority := if priority <? highest_proc_prio then highest_proc_prio
                  else if lowest_proc_prio <? priority then lowest_proc_prio else priority in
  set_task_priority m gid priority.

(** What [alloc_proc] and [freeproc] do to the fields of the scheduler. *)
Definition default_mask (m : Machine) : Z := if negb (possible_cpu_mask m =? 0) then possible_cpu_mask m else 1.

Definition reset_placement (m : Machine) (gid : Z) : outcome Machine :=
  let! t := get_task m gid in
  let! m := put_task m gid (with_mask (with_priority t default_proc_prio) (default_mask m)) in
  set_task_home_cpu m gid (-1).

Definition alloc_proc (m : Machine) (gid : Z) : outcome Machine :=
  let! m := set_task_state m gid USED in reset_placement m gid.
Definition freeproc (m : Machine) (gid : Z) : outcome Machine :=
  let! m := set_task_state m gid UNUSED in reset_placement m gid.

(** The child of a fork takes the priority and the mask of its parent, and a home; with
    [reset], for a child that is no thread of a parent that asked for
    [SCHED_RESET_ON_FORK], the priority is the default one. *)
Definition place_child (m : Machine) (parent child : Z) (reset : bool) : outcome Machine :=
  let! p := get_task m parent in
  let! np := get_task m child in
  let! m := put_task m child (with_mask (with_priority np (_priority p)) (_cpu_mask p)) in
  let! (m, c) := select_initial_cpu m (_cpu_mask p) (_last_cpu p) in
  let! m := set_task_home_cpu m child c in
  if reset then let! np := get_task m child in put_task m child (with_priority np default_proc_prio) else Ret m.

(** [sys_sched_setaffinity], once the mask is read and the task found. *)
Definition sched_setaffinity (m : Machine) (gid requested : Z) : outcome (Machine * Z) :=
  let effective_mask := Z.land requested (possible_cpu_mask m) in
  if effective_mask =? 0 then Ret (m, EINVAL) else
  let! t := get_task m gid in
  let! m := put_task m gid (with_mask t effective_mask) in
  if (_last_cpu t <? 0) || negb (is_set effective_mask (_last_cpu t)) then
    let! (m, c) := select_initial_cpu m effective_mask (-1) in
    let! m := set_task_home_cpu m gid c in Ret (m, 0)
  else Ret (m, 0).

(** ** Choice of the next task *)

Definition can_schedule_on_cpu (m : Machine) (t : Task) (cpu_id : Z) : bool :=
  if (cpu_id <? 0) || negb (is_valid_cpu_id cpu_id) || negb (is_set (_cpu_mask t) cpu_id) then false else
  let eligible_mask := Z.land (_cpu_mask t) (online_cpu_mask m) in
  if negb (is_set eligible_mask cpu_id) then false else
  if Z.land eligible_mask (u64 (eligible_mask - 1)) =? 0 then true else
  if usable eligible_mask (_last_cpu t) then cpu_id =? _last_cpu t else true.

Definition effective_schedule_priority (t : Task) : Z :=
  if has_unmasked_signal_pending (block t) then highest_proc_prio else _priority t.

Definition trailing_zero_count_nonzero (value : Z) : Z :=
  let s := halve (0, value) 0xffffffff 32 in
  let s := halve s 0xffff 16 in
  let s := halve s 0xff 8 in
  let s := halve s 0xf 4 in
  let s := halve s 0x3 2 in
  if Z.land s.2 1 =? 0 then s.1 + 1 else s.1.

Section with_locks.
(** The tasks whose lock [try_acquire] finds taken. *)
Context (locked : Z → bool).

Definition better_priority (m : Machine) (cpu_id : Z) (t : Task) (prio : Z) : Z :=
  if (effective_schedule_priority t <? prio) && bool_decide (state t = RUNNABLE) && can_schedule_on_cpu m t cpu_id
  then effective_schedule_priority t else prio.

Fixpoint highest_in_word (fuel : nat) (m : Machine) (cpu_id word_index runnable_bits prio : Z) : outcome Z :=
  if runnable_bits =? 0 then Ret prio else
  match fuel with
  | O => Stuck
  | S fuel' =>
      let bit := trailing_zero_count_nonzero runnable_bits in
      let runnable_bits := Z.land runnable_bits (u64 (runnable_bits - 1)) in
      let global_id := word_index * 64 + bit in
      if num_process <=? global_id then Ret prio else
      if locked global_id then highest_in_word fuel' m cpu_id word_index runnable_bits prio else
      let! t := get_task m global_id in
      highest_in_word fuel' m cpu_id word_index runnable_bits (better_priority m cpu_id t prio)
  end.

Definition get_highest_priority (m : Machine) (cpu_id : Z) : outcome Z :=
  if _non_default_schedulable (sched m) =? 0 then Ret default_proc_prio else
  for_up (λ word_index prio,
    let! runnable_bits := runnable_slot_word m cpu_id word_index in
    highest_in_word 64 m cpu_id word_index runnable_bits prio) 0 k_runnable_slot_word_count lowest_proc_prio.

(** A task the scheduler of [cpu_id] looks at, with its lock held, up to the switch to
    it; [None] if it is passed over. *)
Definition claim (m : Machine) (cpu_id gid priority : Z) : outcome (option Machine) :=
  let! t := get_task m gid in
  if bool_decide (state t = RUNNABLE) && can_schedule_on_cpu m t cpu_id
     && (effective_schedule_priority t <=? priority) then
    if negb (_running_cpu t =? -1) then Panic else
    let! l := aset (_next_scan_global_id (sched m)) cpu_id ((gid + 1) mod num_process) in
    let m := with_sched m (with_next_scan (sched m) l) in
    let! m := set_task_home_cpu m gid cpu_id in
    let! t := get_task m gid in
    let! m := put_task m gid (with_running t cpu_id) in
    let! m := set_task_state m gid RUNNING in
    Ret (Some m)
  else Ret None.

(** A pass of [start_schedule]: the range that is scanned, the word and the bits of it
    that are left, and whether the range is the second one, up to [scan_begin]. *)
Record Pass := mkPass {
  p_priority : Z; p_scan_begin : Z; p_end : Z; p_word : Z; p_bits : Z; p_second : bool; p_ran : bool
}.

Inductive Turn :=
  | Continue (p : Pass)
  | Switch (gid : Z) (p : Pass)
  | Over (ran_task : bool).

(** The bits of a word that are in the range. *)
Definition cut_low (word begin : Z) : Z := Z.land word (u64 (Z.shiftl (2 ^ 64 - 1) (begin mod 64))).
Definition cut_high (word end_ : Z) : Z :=
  if negb (end_ mod 64 =? 0) then Z.land word (u64 (u64 (Z.shiftl 1 (end_ mod 64)) - 1)) else word.

Definition load_active (m : Machine) (cpu_id begin end_ word_index : Z) : outcome Z :=
  let! active_bits := runnable_slot_word m cpu_id word_index in
  let active_bits := if word_index =? begin / 64 then cut_low active_bits begin else active_bits in
  Ret (if word_index =? (end_ - 1) / 64 then cut_high active_bits end_ else active_bits).

(** The range from [begin] to [p_end]. *)
Definition open_range (m : Machine) (cpu_id begin end_ : Z) (p : Pass) (second : bool) : outcome Pass :=
  if end_ <=? begin then
    Ret (mkPass (p_priority p) (p_scan_begin p) end_ ((end_ - 1) / 64) 0 second (p_ran p))
  else
    let! bits := load_active m cpu_id begin end_ (begin / 64) in
    Ret (mkPass (p_priority p) (p_scan_begin p) end_ (begin / 64) bits second (p_ran p)).

Definition pass_start (m : Machine) (cpu_id : Z) : outcome Pass :=
  let! priority := get_highest_priority m cpu_id in
  let! cursor := aget (_next_scan_global_id (sched m)) cpu_id in
  let scan_begin := cursor mod num_process in
  open_range m cpu_id scan_begin num_process (mkPass priority scan_begin 0 0 0 false false) false.

Definition pass_step (m : Machine) (cpu_id : Z) (p : Pass) : outcome (Machine * Turn) :=
  let begin := if p_second p then 0 else p_scan_begin p in
  if p_bits p =? 0 then
    if p_word p <? (p_end p - 1) / 64 then
      let! bits := load_active m cpu_id begin (p_end p) (p_word p + 1) in
      Ret (m, Continue (mkPass (p_priority p) (p_scan_begin p) (p_end p) (p_word p + 1) bits (p_second p) (p_ran p)))
    else if p_second p then Ret (m, Over (p_ran p))
    else let! p := open_range m cpu_id 0 (p_scan_begin p) p true in Ret (m, Continue p)
  else
    let bit := trailing_zero_count_nonzero (p_bits p) in
    let p := mkPass (p_priority p) (p_scan_begin p) (p_end p) (p_word p)
               (Z.land (p_bits p) (u64 (p_bits p - 1))) (p_second p) (p_ran p) in
    let global_id := p_word p * 64 + bit in
    if locked global_id then Ret (m, Continue p) else
    let! r := claim m cpu_id global_id (p_priority p) in
    match r with
    | None => Ret (m, Continue p)
    | Some m => Ret (m, Switch global_id p)
    end.

(** When the task [gid] has switched back, with its lock held; [reap] if it is a thread
    that exited. *)
Definition pass_resume (m : Machine) (cpu_id gid : Z) (reap : bool) (p : Pass) : outcome (Machine * Pass) :=
  let! t := get_task m gid in
  let! m := (if bool_decide (state t = ZOMBIE) && reap then freeproc m gid else Ret m) in
  let! refreshed_priority := get_highest_priority m cpu_id in
  let! t := get_task m gid in
  let priority := if negb ((p_priority p =? default_proc_prio) && (_priority t <? p_priority p))
                  then refreshed_priority else p_priority p in
  Ret (m, mkPass priority (p_scan_begin p) (p_end p) (p_word p) (p_bits p) (p_second p) true).

(** The turns up to a switch or the end of the pass. *)
Fixpoint pass_run (fuel : nat) (m : Machine) (cpu_id : Z) (p : Pass) : outcome (Machine * Turn) :=
  match fuel with
  | O => Stuck
  | S fuel' =>
      let! (m, r) := pass_step m cpu_id p in
      match r with Continue p => pass_run fuel' m cpu_id p | _ => Ret (m, r) end
  end.
End with_locks.

(** ** Leaving the processor *)

(** [call_sched] up to the switch, by the task [gid] on [cpu_id]. *)
Definition call_sched (m : Machine) (cpu_id gid : Z) : outcome Machine :=
  let! t := get_task m gid in
  if bool_decide (state t = RUNNING) then Panic else
  if negb (_running_cpu t =? cpu_id) then Panic else
  put_task m gid (with_running t (-1)).

Definition yield (m : Machine) (cpu_id gid : Z) : outcome Machine :=
  let! m := set_task_state m gid RUNNABLE in call_sched m cpu_id gid.

(** ** Load averages *)

Definition runnable_task_count (m : Machine) : outcome Z :=
  for_up (λ cpu_id total,
    if negb (is_set (online_cpu_mask m) cpu_id) then Ret total else
    let! n := aget (_pressure (sched m)) cpu_id in Ret (u32 (total + n))) 0 NUMCPU 0.

Definition fixed_1 : Z := 2048.
Definition exps : list Z := [1884; 2014; 2037].

Definition decay (current average exp : Z) : Z :=
  Z.shiftr (u64 (u64 (average * exp) + u64 (current * (fixed_1 - exp)))) 11.

Definition sample_load_averages (m : Machine) (now_sec : Z) : outcome Machine :=
  let! count := runnable_task_count m in
  let current := u64 (count * fixed_1) in
  let s := sched m in
  let s := if _load_initialized s then s
           else with_loads s [0; 0; 0] (if 5 <=? now_sec then now_sec - 5 else 0) in
  let last := _load_last_sample_sec s in
  if u64 (last + 5) <=? now_sec then
    let samples := (now_sec - last) / 5 in
    let samples := if 2048 <? samples then 2048 else samples in
    let! loads := for_up (λ _ l, Ret (zip_with (decay current) l exps)) 0 samples (_load_averages s) in
    Ret (with_sched m (with_loads s loads (u64 (last + samples * 5))))
  else Ret (with_sched m s).

Definition snapshot_load_averages (m : Machine) : list Z :=
  map (λ l, u64 (Z.shiftl l 5)) (_load_averages (sched m)).

End Scheduler.
