(* ===== verification/SchedRep.v ===== *)
(** * The tables of the scheduler

    What the scheduler keeps about the tasks: a bit per runnable task at its home, the
    number of schedulable tasks per home, and the number of those with a priority that
    is not the default.  [Agree] says that the tables are those of a pool of tasks;
    [Inv] adds the placement of the tasks. *)
From S2P Require Import Prelude Sleep SleepRep SleepOps Scheduler.
Import Sleep SleepRep SleepOps Scheduler.

Module SchedRep.

#[export] Instance Task_inhabited : Inhabited Task := populate (mkTask no_pcb 0 (-1) (-1) 0).

(** ** Sets of processors *)

Definition cpu (c : Z) : Prop := 0 ≤ c < NUMCPU.

Lemma is_set_testbit w c : 0 ≤ c < 64 → is_set w c = Z.testbit w c.
Proof.
  intros Hc. unfold is_set. rewrite Z.shiftl_1_l, u64_small.
  2: { split; [apply Z.pow_nonneg; lia|apply Z.pow_lt_mono_r; lia]. }
  destruct (Z.testbit w c) eqn:E; apply eq_true_iff_eq; rewrite negb_true_iff, Z.eqb_neq; split; try done.
  - intros _ H0. apply (f_equal (λ x, Z.testbit x c)) in H0.
    rewrite Z.land_spec, E, Z.pow2_bits_true, Z.bits_0 in H0 by lia. done.
  - intros H. destruct H. apply Z.bits_inj'. intros n Hn. rewrite Z.land_spec, Z.bits_0.
    destruct (decide (n = c)) as [->|Hne]; [by rewrite E|]. rewrite Z.pow2_bits_false by lia. apply andb_false_r.
Qed.

Lemma valid_home_cpu_spec c : valid_home_cpu c = bool_decide (cpu c).
Proof.
  unfold valid_home_cpu, is_valid_cpu_id, cpu, NUMCPU. apply eq_true_iff_eq.
  rewrite !andb_true_iff, !Z.ltb_lt, Z.leb_le, bool_decide_eq_true. lia.
Qed.

Lemma possible_bits m c : 0 ≤ c → Z.testbit (possible_cpu_mask m) c = true → cpu c.
Proof.
  intros Hc. unfold possible_cpu_mask. rewrite Z.land_spec. intros [_ H]%andb_true_iff.
  change k_cpu_capacity_mask with (Z.ones 8) in H. rewrite Z.testbit_ones_nonneg in H by lia.
  apply Z.ltb_lt in H. done.
Qed.

(** A mask of processors with at least one in it. *)
Definition mask_ok (m : Machine) (w : Z) : Prop :=
  (∃ c, cpu c ∧ Z.testbit w c = true) ∧ ∀ c, 0 ≤ c → Z.testbit w c = true → cpu c ∧ Z.testbit (possible_cpu_mask m) c = true.

(** ** Counting tasks *)

Fixpoint count (f : Task → bool) (l : list Task) : Z :=
  match l with [] => 0 | t :: l => Z.b2z (f t) + count f l end.

Lemma b2z_range b : 0 ≤ Z.b2z b ≤ 1.
Proof. destruct b; cbn; lia. Qed.

Lemma count_range f l : 0 ≤ count f l ≤ Z.of_nat (length l).
Proof. induction l as [|t l IH]; cbn [count length]; [lia|]. pose proof (b2z_range (f t)). lia. Qed.

Lemma count_insert f l i t t' : l !! i = Some t →
  count f (<[i := t']> l) = count f l - Z.b2z (f t) + Z.b2z (f t').
Proof.
  revert i. induction l as [|u l IH]; intros [|i] E; simplify_eq/=; [lia|]. rewrite (IH i E). lia.
Qed.

Lemma count_pos f l i t : l !! i = Some t → f t = true → 1 ≤ count f l.
Proof.
  revert i. induction l as [|u l IH]; intros [|i] E Hf; cbn in *; simplify_eq.
  - rewrite Hf. pose proof (count_range f l). cbn. lia.
  - pose proof (b2z_range (f u)). specialize (IH i E Hf). lia.
Qed.

Definition at_home (c : Z) (t : Task) : bool := is_schedulable (state t) && (_last_cpu t =? c).
Definition special (t : Task) : bool := is_schedulable (state t) && negb (_priority t =? default_proc_prio).
Definition queued (c : Z) (t : Task) : bool := bool_decide (state t = RUNNABLE) && (_last_cpu t =? c).

(** ** Views *)

Definition task (m : Machine) (g : Z) : Task := pool m !!! Z.to_nat g.
Definition bit (m : Machine) (c g : Z) : bool := member (_runnable_slot_words (sched m)) c g.
Definition pressure (m : Machine) (c : Z) : Z := _pressure (sched m) !!! Z.to_nat c.
Definition non_default (m : Machine) : Z := _non_default_schedulable (sched m).

Record Shape (m : Machine) : Prop := {
  shape_pool : Z.of_nat (length (pool m)) = num_process;
  shape_rows : rows_ok 8 (_runnable_slot_words (sched m));
  shape_pressure : length (_pressure (sched m)) = 8%nat;
  shape_scan : length (_next_scan_global_id (sched m)) = 8%nat
}.

Record Agree (m : Machine) : Prop := {
  agree_bit c g : cpu c → slot g → bit m c g = queued c (task m g);
  agree_pressure c : cpu c → pressure m c = count (at_home c) (pool m);
  agree_non_default : non_default m = count special (pool m)
}.

(** The tables are those of the pool. *)
Record Base (m : Machine) : Prop := { base_shape : Shape m; base_agree : Agree m }.

(** What no change of a task touches. *)
Record Frame (m m' : Machine) : Prop := {
  frame_possible : g_possible_cpu_mask m' = g_possible_cpu_mask m;
  frame_online : g_online_cpu_mask m' = g_online_cpu_mask m;
  frame_scan : _next_scan_global_id (sched m') = _next_scan_global_id (sched m);
  frame_loads : _load_averages (sched m') = _load_averages (sched m);
  frame_last : _load_last_sample_sec (sched m') = _load_last_sample_sec (sched m);
  frame_initialized : _load_initialized (sched m') = _load_initialized (sched m)
}.

#[export] Instance Frame_preorder : PreOrder Frame.
Proof. split; [done|]. intros m1 m2 m3 [] []. split; congruence. Qed.

Lemma frame_masks m m' : Frame m m' →
  possible_cpu_mask m' = possible_cpu_mask m ∧ online_cpu_mask m' = online_cpu_mask m.
Proof. intros [E1 E2 _ _ _ _]. unfold online_cpu_mask, possible_cpu_mask. by rewrite E1, E2. Qed.

Lemma task_lookup m g : Shape m → slot g → pool m !! Z.to_nat g = Some (task m g) ∧ get_task m g = Ret (task m g).
Proof.
  intros [Hl _ _ _] Hg. unfold slot in Hg. split; [apply list_lookup_lookup_total_lt; lia|]. apply aget_total. lia.
Qed.

(** ** Primitive operations

    [Tables m m' b p n]: [m'] has the pool of [m], and tables with bits [b], pressures
    [p] and [n] tasks of special priority. *)
Record Tables (m m' : Machine) (b : Z → Z → bool) (p : Z → Z) (n : Z) : Prop := {
  tables_shape : Shape m';
  tables_frame : Frame m m';
  tables_pool : pool m' = pool m;
  tables_bit c g : cpu c → slot g → bit m' c g = b c g;
  tables_pressure c : cpu c → pressure m' c = p c;
  tables_non_default : non_default m' = n
}.

Lemma tables_refl m : Shape m → Tables m m (bit m) (pressure m) (non_default m).
Proof. done. Qed.

Lemma mark_runnable_slot_spec m c g : Shape m → cpu c → slot g →
  ∃ m', mark_runnable_slot m c g = Ret m' ∧
    Tables m m' (λ c' g', bool_decide (c' = c ∧ g' = g) || bit m c' g') (pressure m) (non_default m).
Proof.
  intros [Hp Hr Hq Hs] Hc Hg. unfold mark_runnable_slot.
  rewrite (proj2 (Z.leb_gt _ _)) by apply Hc. rewrite (proj2 (Z.leb_gt _ _)) by apply Hg. cbn [orb].
  destruct (mark_row 8 _ c g Hr Hc Hg) as (w & -> & Hw & Hbit). eexists. split; [done|]. by split.
Qed.

Lemma clear_runnable_slot_spec m c g : Shape m → cpu c → slot g →
  ∃ m', clear_runnable_slot m c g = Ret m' ∧
    Tables m m' (λ c' g', negb (bool_decide (c' = c ∧ g' = g)) && bit m c' g') (pressure m) (non_default m).
Proof.
  intros [Hp Hr Hq Hs] Hc Hg. unfold clear_runnable_slot.
  rewrite (proj2 (Z.leb_gt _ _)) by apply Hc. rewrite (proj2 (Z.leb_gt _ _)) by apply Hg. cbn [orb].
  destruct (unmark_row 8 _ c g Hr Hc Hg) as (w & -> & Hw & Hbit). eexists. split; [done|]. by split.
Qed.

Lemma store_pressure m c v : Shape m → cpu c →
  ∃ l, aset (_pressure (sched m)) c v = Ret l ∧
    Tables m (with_sched m (with_pressure (sched m) l)) (bit m) (λ c', if bool_decide (c' = c) then v else pressure m c')
      (non_default m).
Proof.
  intros [Hp Hr Hq Hs] Hc. unfold cpu, NUMCPU in Hc. rewrite aset_in_range by lia. eexists. split; [done|].
  split; [|done|done|done| |done].
  - split; [done|done|cbn; by rewrite length_insert|done].
  - intros c' Hc'. unfold pressure, cpu, NUMCPU in *. cbn.
    case_bool_decide as E; [subst; by rewrite lookup_total_aset_eq by lia|by rewrite lookup_total_aset_ne by lia].
Qed.

Lemma raise_pressure_spec m c : Shape m → cpu c → 0 ≤ pressure m c ≤ num_process →
  ∃ m', raise_pressure m c = Ret m' ∧
    Tables m m' (bit m) (λ c', pressure m c' + Z.b2z (bool_decide (c' = c))) (non_default m).
Proof.
  intros Hm Hc Hn. unfold raise_pressure. assert (aget (_pressure (sched m)) c = Ret (pressure m c)) as ->.
  { apply aget_total. rewrite (shape_pressure m Hm). unfold cpu, NUMCPU in Hc. lia. }
  cbn [obind]. rewrite u32_small by (unfold num_process in Hn; lia).
  destruct (store_pressure m c (pressure m c + 1) Hm Hc) as (l & -> & H). eexists. split; [done|].
  destruct H as [H1 H2 H3 H4 H5 H6]. split; [done..| |done]. intros c' Hc'. rewrite H5 by done.
  case_bool_decide; [subst; done|cbn; lia].
Qed.

Lemma lower_pressure_spec m c : Shape m → cpu c → 1 ≤ pressure m c ≤ num_process →
  ∃ m', lower_pressure m c = Ret m' ∧
    Tables m m' (bit m) (λ c', pressure m c' - Z.b2z (bool_decide (c' = c))) (non_default m).
Proof.
  intros Hm Hc Hn. unfold lower_pressure. assert (aget (_pressure (sched m)) c = Ret (pressure m c)) as ->.
  { apply aget_total. rewrite (shape_pressure m Hm). unfold cpu, NUMCPU in Hc. lia. }
  cbn [obind]. rewrite (proj2 (Z.eqb_neq _ _)) by lia. rewrite u32_small by (unfold num_process in Hn; lia).
  destruct (store_pressure m c (pressure m c - 1) Hm Hc) as (l & -> & H). eexists. split; [done|].
  destruct H as [H1 H2 H3 H4 H5 H6]. split; [done..| |done]. intros c' Hc'. rewrite H5 by done.
  case_bool_decide; [subst; done|cbn; lia].
Qed.

Lemma raise_non_default_spec m : Shape m → 0 ≤ non_default m ≤ num_process →
  ∃ m', raise_non_default m = Ret m' ∧ Tables m m' (bit m) (pressure m) (non_default m + 1).
Proof.
  intros [] Hn. eexists. split; [done|]. split; [done..|]. unfold non_default in *. cbn. apply u32_small.
  unfold num_process in Hn. lia.
Qed.

Lemma lower_non_default_spec m : Shape m → 1 ≤ non_default m ≤ num_process →
  ∃ m', lower_non_default m = Ret m' ∧ Tables m m' (bit m) (pressure m) (non_default m - 1).
Proof.
  intros [] Hn. unfold lower_non_default, non_default in *. rewrite (proj2 (Z.eqb_neq _ _)) by lia.
  eexists. split; [done|]. split; [done..|]. cbn. apply u32_small. unfold num_process in Hn. lia.
Qed.

Lemma put_task_spec m g t : Shape m → slot g →
  ∃ m', put_task m g t = Ret m' ∧ Shape m' ∧ Frame m m' ∧ pool m' = <[Z.to_nat g := t]> (pool m) ∧ sched m' = sched m.
Proof.
  intros [Hl H1 H2 H3] Hg. unfold put_task, slot in *. rewrite aset_in_range by lia. eexists. split; [done|].
  split_and!; [|done|done|done]. split; [cbn; by rewrite length_insert|done..].
Qed.

(** ** The invariant *)

(** A task that is in use may run somewhere, and its home is none or one of the
    processors it may run on; a schedulable task has a home; priorities are in range. *)
Record task_ok (m : Machine) (t : Task) : Prop := {
  ok_mask : state t ≠ UNUSED → mask_ok m (_cpu_mask t);
  ok_home : state t ≠ UNUSED → _last_cpu t = -1 ∨ cpu (_last_cpu t) ∧ Z.testbit (_cpu_mask t) (_last_cpu t) = true;
  ok_schedulable : is_schedulable (state t) = true → _last_cpu t ≠ -1;
  ok_priority : highest_proc_prio ≤ _priority t ≤ lowest_proc_prio
}.

Record Inv (m : Machine) : Prop := {
  inv_base : Base m;
  inv_task g : slot g → task_ok m (task m g);
  inv_possible : mask_ok m (possible_cpu_mask m);
  inv_scan c : cpu c → slot (_next_scan_global_id (sched m) !!! Z.to_nat c)
}.

Lemma task_insert m m' g t g' : Shape m → slot g → slot g' → pool m' = <[Z.to_nat g := t]> (pool m) →
  task m' g' = if bool_decide (g' = g) then t else task m g'.
Proof.
  intros [Hl _ _ _] Hg Hg' E. unfold task, slot in *. rewrite E.
  case_bool_decide; [subst; by rewrite lookup_total_aset_eq by lia|by rewrite lookup_total_aset_ne by lia].
Qed.

(** A change of the task [g] to [t] that keeps the tables. *)
Record Touch (m : Machine) (g : Z) (t : Task) (m' : Machine) : Prop := {
  touch_base : Base m';
  touch_frame : Frame m m';
  touch_pool : pool m' = <[Z.to_nat g := t]> (pool m)
}.

Lemma touch_task m g t m' g' : Shape m → slot g → slot g' → Touch m g t m' →
  task m' g' = if bool_decide (g' = g) then t else task m g'.
Proof. intros Hm Hg Hg' H. apply task_insert; [done..|apply H]. Qed.

Lemma task_touch_self m g t m' : Shape m → slot g → Touch m g t m' → task m' g = t.
Proof. intros Hm Hg H. rewrite (touch_task m g t m' g) by done. by rewrite bool_decide_eq_true_2. Qed.

Lemma task_touch_refl m g : Base m → slot g → Touch m g (task m g) m.
Proof.
  intros Hm Hg. split; [done|done|]. symmetry. apply list_insert_id. by apply task_lookup; [apply Hm|].
Qed.

Lemma task_touch_trans m g t m1 t' m2 : Touch m g t m1 → Touch m1 g t' m2 → Touch m g t' m2.
Proof.
  intros [] []. split; [done|by etrans|]. rewrite touch_pool1, touch_pool0. by rewrite list_insert_insert_eq.
Qed.

Lemma frame_mask_ok m m' w : Frame m m' → mask_ok m w → mask_ok m' w.
Proof. intros HF [H1 H2]. split; [done|]. by rewrite (proj1 (frame_masks m m' HF)). Qed.

Lemma frame_task_ok m m' t : Frame m m' → task_ok m t → task_ok m' t.
Proof. intros HF [H1 H2 H3 H4]. split; [|done..]. intros. apply (frame_mask_ok m); auto. Qed.

Lemma touch_inv m g t m' : Inv m → slot g → Touch m g t m' → task_ok m t → Inv m'.
Proof.
  intros Hm Hg Ht Hok. pose proof (touch_frame m g t m' Ht) as HF.
  split; [apply Ht|..].
  - intros g' Hg'. rewrite (touch_task m g t m' g') by (done || apply Hm). apply (frame_task_ok m); [done|].
    case_bool_decide; [done|by apply (inv_task m Hm)].
  - rewrite (proj1 (frame_masks m m' HF)). apply (frame_mask_ok m); [done|apply Hm].
  - intros c Hc. rewrite (frame_scan m m' HF). by apply (inv_scan m Hm).
Qed.

(** A change of the pool with the change of the tables that belongs to it. *)
Lemma touch_intro m g t' m' : Base m → slot g →
  Shape m' → Frame m m' → pool m' = <[Z.to_nat g := t']> (pool m) →
  (∀ c g', cpu c → slot g' → bit m' c g' = if bool_decide (g' = g) then queued c t' else bit m c g') →
  (∀ c, cpu c → pressure m' c = pressure m c - Z.b2z (at_home c (task m g)) + Z.b2z (at_home c t')) →
  non_default m' = non_default m - Z.b2z (special (task m g)) + Z.b2z (special t') →
  Touch m g t' m'.
Proof.
  intros Hm Hg Hs HF Hp Hb Hq Hn. destruct (task_lookup m g (base_shape m Hm) Hg) as [El _].
  split; [|done|done]. split; [done|]. split.
  - intros c g' Hc Hg'. rewrite Hb, (task_insert m m' g t' g') by (done || apply Hm).
    case_bool_decide; [done|]. by apply (base_agree m Hm).
  - intros c Hc. rewrite Hq, Hp, (count_insert _ _ _ _ _ El) by done. by rewrite (agree_pressure m (base_agree m Hm)).
  - rewrite Hn, Hp, (count_insert _ _ _ _ _ El). by rewrite (agree_non_default m (base_agree m Hm)).
Qed.

Lemma pressure_range m c : Base m → cpu c → 0 ≤ pressure m c ≤ num_process.
Proof.
  intros Hm Hc. rewrite (agree_pressure m (base_agree m Hm)) by done. rewrite <- (shape_pool m (base_shape m Hm)).
  apply count_range.
Qed.

Lemma non_default_range m : Base m → 0 ≤ non_default m ≤ num_process.
Proof.
  intros Hm. rewrite (agree_non_default m (base_agree m Hm)), <- (shape_pool m (base_shape m Hm)). apply count_range.
Qed.

(** The counters that the code asserts to be positive are. *)
Lemma pressure_positive m g c : Base m → slot g → cpu c → at_home c (task m g) = true → 1 ≤ pressure m c.
Proof.
  intros Hm Hg Hc Ht. rewrite (agree_pressure m (base_agree m Hm)) by done.
  destruct (task_lookup m g (base_shape m Hm) Hg) as [El _]. by eapply count_pos.
Qed.

Lemma non_default_positive m g : Base m → slot g → special (task m g) = true → 1 ≤ non_default m.
Proof.
  intros Hm Hg Ht. rewrite (agree_non_default m (base_agree m Hm)).
  destruct (task_lookup m g (base_shape m Hm) Hg) as [El _]. by eapply count_pos.
Qed.

(** ** The machine before the first task (Pcb::init, Scheduler::init) *)

Definition boot (possible online : Z) : Machine :=
  let mask := Z.land possible k_cpu_capacity_mask in
  mkMachine (replicate (Z.to_nat num_process) (mkTask no_pcb (if negb (mask =? 0) then mask else 1) 0 (-1) default_proc_prio))
    init possible online.

Lemma count_replicate f n t : f t = false → count f (replicate n t) = 0.
Proof. intros E. induction n as [|n IH]; cbn; [done|]. by rewrite E. Qed.

Lemma boot_inv possible online : Z.land possible k_cpu_capacity_mask ≠ 0 → Inv (boot possible online).
Proof.
  intros Hne. set (m := boot possible online).
  assert (Shape m) as Hs.
  { split; [done| |done|done]. split; [done|]. apply Forall_replicate. split; [done|]. by apply Forall_replicate. }
  assert (∀ g, slot g → state (task m g) = UNUSED ∧ _priority (task m g) = 0) as Ht.
  { intros g Hg. unfold task, m, boot. cbn [pool]. rewrite lookup_total_replicate_2; [done|]. unfold slot, num_process in *. lia. }
  assert (mask_ok m (possible_cpu_mask m)) as Hmask.
  { split; [|by intros; split; [apply (possible_bits m)|]].
    assert (0 < possible_cpu_mask m) as Hpos.
    { assert (0 ≤ possible_cpu_mask m) by (apply Z.land_nonneg; right; by vm_compute).
      unfold possible_cpu_mask in *. change (g_possible_cpu_mask m) with possible in *. lia. }
    exists (Z.log2 (possible_cpu_mask m)). pose proof (Z.bit_log2 _ Hpos). pose proof (Z.log2_nonneg (possible_cpu_mask m)).
    split; [by apply (possible_bits m)|done]. }
  split; [split; [done|]| |done|].
  - split.
    + intros c g Hc Hg. unfold queued. destruct (Ht g Hg) as [-> _]. cbn [andb]. unfold bit, member, bit_at.
      change (_runnable_slot_words (sched m)) with (replicate 8 (replicate 8 0)).
      rewrite lookup_total_replicate_2 by (unfold cpu, NUMCPU in Hc; lia). pose proof (slot_word g Hg).
      rewrite lookup_total_replicate_2 by lia. apply Z.bits_0.
    + intros c Hc. unfold pressure. change (_pressure (sched m)) with (replicate 8 0).
      rewrite lookup_total_replicate_2 by (unfold cpu, NUMCPU in Hc; lia). symmetry. by apply count_replicate.
    + symmetry. by apply count_replicate.
  - intros g Hg. destruct (Ht g Hg) as [E Ep]. split; rewrite ?E; [done..|]. rewrite Ep. done.
  - intros c Hc. change (_next_scan_global_id (sched m)) with (replicate 8 0).
    rewrite lookup_total_replicate_2 by (unfold cpu, NUMCPU in Hc; lia). done.
Qed.

(** ** The set of processors is never empty *)

Definition within (w : Z) : Prop := Z.land w k_cpu_capacity_mask = w.

Lemma within_add w h : within w → 0 ≤ h → within (if is_valid_cpu_id h then Z.lor w (u64 (Z.shiftl 1 h)) else w).
Proof.
  intros Hw Hh. destruct (is_valid_cpu_id h) eqn:E; [|done]. unfold is_valid_cpu_id in E. apply andb_true_iff in E as [E%Z.ltb_lt _].
  unfold within in *. rewrite Z.land_lor_distr_l, Hw. f_equal. unfold NUMCPU in E.
  assert (h = 0 ∨ h = 1 ∨ h = 2 ∨ h = 3 ∨ h = 4 ∨ h = 5 ∨ h = 6 ∨ h = 7) as H by lia.
  by destruct H as [->|[->|[->|[->|[->|[->|[->| ->]]]]]]].
Qed.

Lemma within_hart_mask hs w : within w → Forall (λ h, 0 ≤ h) hs → within (hart_mask hs w).
Proof.
  intros Hw H. revert w Hw. induction H as [|h hs Hh _ IH]; intros w Hw; cbn [hart_mask]; [done|]. apply IH. by apply within_add.
Qed.

Lemma within_nonzero w : within w → Z.land (if w =? 0 then 1 else w) k_cpu_capacity_mask ≠ 0.
Proof. intros Hw. destruct (Z.eqb_spec w 0); [done|]. by rewrite Hw. Qed.

(** Whatever processors the device tree names, and whichever of them come online, the
    set of possible processors that the scheduler starts with has a member. *)
Theorem topology_has_a_cpu m hartids b : Forall (λ h, 0 ≤ h) hartids → 0 ≤ b →
  possible_cpu_mask (configure_topology m hartids b) ≠ 0 ∧ possible_cpu_mask (retain_online_cpus_only m b).1 ≠ 0.
Proof.
  intros Hh Hb. assert (within k_cpu_capacity_mask) as Hcap by done. split.
  - unfold configure_topology, possible_cpu_mask. cbn [g_possible_cpu_mask]. rewrite <- Z.land_assoc, Hcap.
    apply within_nonzero, within_add; [|done]. by apply within_hart_mask.
  - unfold retain_online_cpus_only, possible_cpu_mask. cbn [fst g_possible_cpu_mask].
    apply within_nonzero, within_add; [|done]. unfold within. by rewrite <- Z.land_assoc, Hcap.
Qed.

End SchedRep.
