(* ===== verification/SchedOps.v ===== *)
(** * Placement: [select_initial_cpu] takes the least loaded processor *)
From S2P Require Import Prelude Sleep SleepRep SleepOps Futex FutexOps Scheduler SchedRep.
Import Sleep SleepRep SleepOps Futex FutexOps Scheduler SchedRep.

Module SchedPlace.

(** ** Eligible processors *)

Lemma online_bits m c : 0 ≤ c → Z.testbit (online_cpu_mask m) c = true → Z.testbit (possible_cpu_mask m) c = true.
Proof. intros Hc. unfold online_cpu_mask. rewrite Z.land_spec. by intros [_ ?]%andb_true_iff. Qed.

Lemma eligible_bits m mask c : 0 ≤ c → Z.testbit (eligible_cpus m mask) c = true →
  cpu c ∧ Z.testbit mask c = true ∧ Z.testbit (possible_cpu_mask m) c = true.
Proof.
  intros Hc H. unfold eligible_cpus in H.
  assert (Z.testbit mask c = true ∧ Z.testbit (possible_cpu_mask m) c = true) as [H1 H2].
  { destruct (_ =? 0); rewrite Z.land_spec in H; apply andb_true_iff in H as [H1 H2]; split; [done..|by apply online_bits]. }
  split_and!; [by apply (possible_bits m)|done|done].
Qed.

Lemma eligible_word m mask : word_ok (eligible_cpus m mask).
Proof.
  apply word_of_bits.
  - assert (0 ≤ possible_cpu_mask m) as Hp by (apply Z.land_nonneg; right; by vm_compute).
    unfold eligible_cpus. destruct (_ =? 0); apply Z.land_nonneg; right; [done|]. apply Z.land_nonneg. by right.
  - intros n Hn. apply not_true_is_false. intros H. apply eligible_bits in H as [H _]; [|lia].
    unfold cpu, NUMCPU in H. lia.
Qed.

Lemma eligible_nonzero m mask c : 0 ≤ c → Z.testbit mask c = true → Z.testbit (possible_cpu_mask m) c = true →
  eligible_cpus m mask ≠ 0.
Proof.
  intros Hc H1 H2. unfold eligible_cpus. destruct (Z.eqb_spec (Z.land mask (online_cpu_mask m)) 0) as [E|]; [|done].
  intros E0. apply (f_equal (λ w, Z.testbit w c)) in E0. rewrite Z.land_spec, H1, H2, Z.bits_0 in E0. done.
Qed.

Lemma usable_spec w c : usable w c = bool_decide (cpu c ∧ Z.testbit w c = true).
Proof.
  unfold usable. rewrite valid_home_cpu_spec. case_bool_decide as Hc; cbn [andb].
  - rewrite is_set_testbit by (unfold cpu, NUMCPU in Hc; lia). apply eq_true_iff_eq. rewrite bool_decide_eq_true. tauto.
  - rewrite bool_decide_eq_false_2; [done|tauto].
Qed.

(** ** The start of the search *)

(** The processor after the last one chosen, else the parent's, else the first. *)
Definition search_start (m : Machine) (eligible_mask parent_cpu : Z) : Z :=
  if usable eligible_mask (_next_initial_cpu (sched m)) then _next_initial_cpu (sched m)
  else if usable eligible_mask parent_cpu then parent_cpu else active_slot_bit_index eligible_mask.

Lemma first_eligible_lowest w idx : word_ok w → lowest w idx → first_eligible 64 w 0 = Ret idx.
Proof. intros Hw Hl. change first_eligible with lowest_bit. apply lowest_bit_spec; [done|done|destruct Hl; lia..]. Qed.

Lemma search_start_spec m mask parent : let w := eligible_cpus m mask in w ≠ 0 →
  (let cursor := _next_initial_cpu (sched m) in
   if usable w cursor then Ret cursor else if usable w parent then Ret parent else first_eligible 64 w 0)
  = Ret (search_start m w parent) ∧
  cpu (search_start m w parent) ∧ Z.testbit w (search_start m w parent) = true.
Proof.
  intros w Hne. cbv zeta. unfold search_start. rewrite !usable_spec.
  case_bool_decide as H1; [by split|]. case_bool_decide as H2; [by split|].
  pose proof (active_slot_bit_index_lowest w (eligible_word m mask) Hne) as Hl.
  rewrite (first_eligible_lowest w _ (eligible_word m mask) Hl). destruct Hl as (Hr & Hb & _).
  split; [done|]. split; [|done]. by apply (eligible_bits m mask); [lia|].
Qed.

(** ** The search *)

(** How far round from [a] the processor [b] is. *)
Definition distance (a b : Z) : Z := (b - a) mod NUMCPU.

Lemma distance_range a b : cpu (distance a b).
Proof. apply Z.mod_pos_bound. done. Qed.

Lemma distance_at a b k : cpu b → 0 ≤ k < NUMCPU → distance a b = k ↔ b = (a + k) mod NUMCPU.
Proof.
  unfold distance, cpu, NUMCPU. intros Hb Hk. split; intros E.
  - rewrite <- E. rewrite Zplus_mod_idemp_r. replace (a + (b - a)) with b by lia. by rewrite Z.mod_small.
  - rewrite E, Zminus_mod_idemp_l. replace (a + k - a) with k by lia. by rewrite Z.mod_small.
Qed.

Section search.
Context (m : Machine) (w first : Z).
Hypothesis Hpressure : ∀ c, cpu c → aget (_pressure (sched m)) c = Ret (pressure m c) ∧ 0 ≤ pressure m c < 2 ^ 32 - 1.
Hypothesis Hfirst : cpu first ∧ Z.testbit w first = true.

(** [c] is least loaded among the processors closer than [k], and the closest such. *)
Definition least (k c : Z) : Prop :=
  cpu c ∧ Z.testbit w c = true ∧ distance first c < k ∧
  ∀ c', cpu c' → Z.testbit w c' = true → distance first c' < k →
    pressure m c < pressure m c' ∨ pressure m c = pressure m c' ∧ distance first c ≤ distance first c'.

Lemma consider_cpu_spec k best : 0 ≤ k < NUMCPU →
  (k = 0 ∧ best = (first, 2 ^ 32 - 1) ∨ least k best.1 ∧ best.2 = pressure m best.1) →
  ∃ best', consider_cpu m w first k best = Ret best' ∧ least (k + 1) best'.1 ∧ best'.2 = pressure m best'.1.
Proof.
  intros Hk Hbest. unfold consider_cpu. set (c := (first + k) mod NUMCPU).
  assert (cpu c) as Hc by (apply Z.mod_pos_bound; done).
  assert (distance first c = k) as Hd by (by apply distance_at).
  rewrite is_set_testbit by (unfold cpu, NUMCPU in Hc; lia).
  destruct (Z.testbit w c) eqn:Ec; cbn [negb].
  - destruct (Hpressure c Hc) as [-> Hp]. cbn [obind]. eexists. split; [done|].
    assert (∀ c', cpu c' → distance first c' < k + 1 → distance first c' < k ∨ c' = c) as Hnew.
    { intros c' Hc' Hd'. destruct (decide (distance first c' = k)) as [E|]; [|left; lia]. right. by apply distance_at. }
    destruct (Z.ltb_spec (pressure m c) best.2) as [Hlt|Hge]; cbn.
    + split; [|done]. split_and!; [done|done|lia|]. intros c' Hc' Hw' Hd'.
      destruct (Hnew c' Hc' Hd') as [Hd''| ->]; [|right; lia].
      destruct Hbest as [[-> _]|[(_ & _ & _ & Hl) Hb]]; [pose proof (distance_range first c') as [? _]; lia|].
      specialize (Hl c' Hc' Hw' Hd''). left. lia.
    + destruct Hbest as [[-> ->]|[(H1 & H2 & H3 & Hl) Hb]]; [cbn in Hge; lia|]. split; [|done].
      split_and!; [done|done|lia|]. intros c' Hc' Hw' Hd'. destruct (Hnew c' Hc' Hd') as [Hd''| ->]; [by apply Hl|].
      destruct (decide (pressure m best.1 = pressure m c)); [right; lia|left; lia].
  - destruct Hbest as [[-> ->]|[(H1 & H2 & H3 & Hl) Hb]].
    { exfalso. destruct Hfirst as [Hf Ef]. assert (c = first) as E; [|congruence].
      unfold c. rewrite Z.add_0_r. by apply Z.mod_small. }
    eexists. split; [done|]. split; [|done]. split_and!; [done|done|lia|]. intros c' Hc' Hw' Hd'.
    apply Hl; [done|done|]. destruct (decide (distance first c' = k)) as [E|]; [|lia].
    apply distance_at in E; [|done|done]. fold c in E. congruence.
Qed.

Lemma search_spec : ∃ best, for_up (consider_cpu m w first) 0 NUMCPU (first, u32 (Z.lnot 0)) = Ret best ∧ least NUMCPU best.1.
Proof.
  destruct (for_up_inv (consider_cpu m w first)
    (λ k best, k = 0 ∧ best = (first, 2 ^ 32 - 1) ∨ least k best.1 ∧ best.2 = pressure m best.1)
    0 NUMCPU (first, u32 (Z.lnot 0))) as (best & -> & H); [done|by left|..].
  - intros k best Hk Hbest. destruct (consider_cpu_spec k best Hk Hbest) as (best' & -> & H). eauto.
  - exists best. split; [done|]. destruct H as [[H _]|[H _]]; [done|done].
Qed.
End search.

(** Where a task with affinity [mask] goes; [parent] where it may go nowhere. *)
Definition placed (m : Machine) (mask parent c : Z) : Prop :=
  let w := eligible_cpus m mask in
  if bool_decide (w = 0) then c = parent else least m w (search_start m w parent) NUMCPU c.

Lemma base_pressures m c : Base m → cpu c →
  aget (_pressure (sched m)) c = Ret (pressure m c) ∧ 0 ≤ pressure m c < 2 ^ 32 - 1.
Proof.
  intros Hm Hc. pose proof (pressure_range m c Hm Hc) as Hr. split; [|unfold num_process in Hr; lia].
  apply aget_total. rewrite (shape_pressure m (base_shape m Hm)). unfold cpu, NUMCPU in Hc. lia.
Qed.

Lemma select_initial_cpu_spec m mask parent : (∀ c, cpu c → aget (_pressure (sched m)) c = Ret (pressure m c) ∧ 0 ≤ pressure m c < 2 ^ 32 - 1) →
  ∃ s c, select_initial_cpu m mask parent = Ret (with_sched m s, c) ∧
    (∃ n, s = with_next_initial (sched m) n) ∧ placed m mask parent c.
Proof.
  intros Hp. unfold select_initial_cpu, placed. destruct (Z.eqb_spec (eligible_cpus m mask) 0) as [E|Hne].
  - exists (sched m), parent. rewrite bool_decide_eq_true_2 by done. split_and!; [by destruct m| |done].
    exists (_next_initial_cpu (sched m)). by destruct (sched m).
  - rewrite bool_decide_eq_false_2 by done. destruct (search_start_spec m mask parent Hne) as (E & Hf).
    cbv zeta in E |- *. rewrite E. cbn [obind].
    destruct (search_spec m _ _ Hp Hf) as (best & -> & Hl). cbn [obind]. eexists _, _. split; [done|]. by eauto.
Qed.

Lemma placed_home m mask parent c : mask_ok m mask → placed m mask parent c → cpu c ∧ Z.testbit mask c = true.
Proof.
  intros [(c0 & Hc0 & Hb0) Hall] H. unfold placed in H. rewrite bool_decide_eq_false_2 in H.
  - destruct H as (H1 & H2 & _). split; [done|]. apply (eligible_bits m mask) in H2 as (_ & ? & _); [done|apply H1].
  - apply (eligible_nonzero m mask c0); [apply Hc0|done|]. by apply Hall; [apply Hc0|].
Qed.

(** [select_initial_cpu] returns the processor with the fewest schedulable tasks
    among the online processors the task may run on, or among the possible ones while
    none of them is online, and of equally loaded ones the first from the processor
    after the last choice, or from the parent's; only its cursor changes. *)
Theorem select_initial_cpu_correct m mask parent : Base m → eligible_cpus m mask ≠ 0 →
  ∃ c m', select_initial_cpu m mask parent = Ret (m', c) ∧
    (∃ n, m' = with_sched m (with_next_initial (sched m) n)) ∧
    let w := eligible_cpus m mask in
    let start := search_start m w parent in
    cpu c ∧ is_set w c = true ∧
    ∀ c', cpu c' → is_set w c' = true →
      pressure m c < pressure m c' ∨ pressure m c = pressure m c' ∧ distance start c ≤ distance start c'.
Proof.
  intros Hm Hne. destruct (select_initial_cpu_spec m mask parent) as (s & c & -> & [n ->] & Hpl).
  { intros c Hc. by apply base_pressures. }
  eexists _, _. split; [done|]. split; [by eauto|]. unfold placed in Hpl. rewrite bool_decide_eq_false_2 in Hpl by done.
  destruct Hpl as (H1 & H2 & _ & Hl). cbv zeta. assert (∀ x, cpu x → 0 ≤ x < 64) as Hcpu by (unfold cpu, NUMCPU; lia).
  split_and!; [done|rewrite is_set_testbit; auto|]. intros c' Hc' Hw'. rewrite is_set_testbit in Hw' by auto.
  apply Hl; [done|done|apply distance_range].
Qed.

(** Of two idle processors a task that may only run on the second goes there. *)
Lemma select_initial_cpu_correct_witness : ∃ m', select_initial_cpu (boot 3 3) 2 0 = Ret (m', 1).
Proof.
  destruct (select_initial_cpu_correct (boot 3 3) 2 0) as (c & m' & E & _ & Hc & Hset & _).
  - exact (inv_base _ (boot_inv 3 3 ltac:(discriminate))).
  - discriminate.
  - exists m'. rewrite E. do 2 f_equal. unfold cpu, NUMCPU in Hc. change (eligible_cpus (boot 3 3) 2) with 2 in Hset.
    assert (c = 0 ∨ c = 1 ∨ c = 2 ∨ c = 3 ∨ c = 4 ∨ c = 5 ∨ c = 6 ∨ c = 7) as H by lia.
    destruct H as [->|[->|[->|[->|[->|[->|[->| ->]]]]]]]; (discriminate || exact eq_refl).
Defined.

End SchedPlace.

(** * Changes of tasks keep the tables of the scheduler *)
Import Sleep SleepRep SleepOps Scheduler SchedRep SchedPlace.

Module SchedOps.

Lemma tables_trans m m1 m2 b p n b' p' n' : Tables m m1 b p n → Tables m1 m2 b' p' n' → Tables m m2 b' p' n'.
Proof. intros [] []. split; [done|by etrans|congruence|done..]. Qed.

Lemma tables_ext m m' b p n b' p' n' : Tables m m' b p n →
  (∀ c g, cpu c → slot g → b c g = b' c g) → (∀ c, cpu c → p c = p' c) → n = n' → Tables m m' b' p' n'.
Proof.
  intros [] Hb Hp Hn. split; [done..| | |congruence]; intros; rewrite <- ?Hb, <- ?Hp by done; auto.
Qed.

Lemma same_sched m m' : sched m' = sched m →
  (∀ c g, bit m' c g = bit m c g) ∧ (∀ c, pressure m' c = pressure m c) ∧ non_default m' = non_default m.
Proof. intros E. unfold bit, pressure, non_default. by rewrite E. Qed.

(** ** Parts of the changes *)

(** A runnable task leaves the bitmap of its home. *)
Lemma unqueue_spec m g : Base m → slot g →
  ∃ m', (if bool_decide (state (task m g) = RUNNABLE) && valid_home_cpu (_last_cpu (task m g))
         then clear_runnable_slot m (_last_cpu (task m g)) g else Ret m) = Ret m' ∧
    Tables m m' (λ c g', negb (bool_decide (g' = g)) && bit m c g') (pressure m) (non_default m).
Proof.
  intros Hm Hg. set (t := task m g). pose proof (base_shape m Hm) as Hs.
  assert (∀ c g', cpu c → slot g' → queued c t = false → bit m c g' = negb (bool_decide (g' = g)) && bit m c g') as Hout.
  { intros c g' Hc Hg' Hq. case_bool_decide as E; [|done]. subst g'. by rewrite (agree_bit m (base_agree m Hm)). }
  rewrite valid_home_cpu_spec. unfold queued in Hout. destruct (bool_decide_reflect (state t = RUNNABLE)) as [Er|Er]; cbn [andb] in *.
  - case_bool_decide as Hc.
    + destruct (clear_runnable_slot_spec m _ g Hs Hc Hg) as (m' & -> & Ht). exists m'. split; [done|].
      apply (tables_ext _ _ _ _ _ _ _ _ Ht); [|done|done]. intros c g' Hc' Hg'. cbv beta.
      destruct (Z.eqb_spec (_last_cpu t) c) as [El|El].
      * do 2 f_equal. apply bool_decide_ext. naive_solver.
      * rewrite (bool_decide_eq_false_2 (c = _ ∧ _)) by naive_solver.
        cbn [negb andb]. apply Hout; [done|done|by apply Z.eqb_neq].
    + exists m. split; [done|]. apply (tables_ext _ _ _ _ _ _ _ _ (tables_refl m Hs)); [|done|done].
      intros c g' Hc' Hg'. apply Hout; [done|done|]. apply Z.eqb_neq. intros E. by rewrite E in Hc.
  - exists m. split; [done|]. apply (tables_ext _ _ _ _ _ _ _ _ (tables_refl m Hs)); [|done|done]. intros. by apply Hout.
Qed.

Lemma adjust_pressure_spec m c (old new : bool) : Shape m →
  (∀ c', cpu c' → 0 ≤ pressure m c' ≤ num_process) → (cpu c → old = true → 1 ≤ pressure m c) →
  ∃ m', (if valid_home_cpu c && negb (Bool.eqb old new) then if old then lower_pressure m c else raise_pressure m c
         else Ret m) = Ret m' ∧
    Tables m m' (bit m) (λ c', pressure m c' - Z.b2z (old && (c =? c')) + Z.b2z (new && (c =? c'))) (non_default m).
Proof.
  intros Hs Hr Hpos. rewrite valid_home_cpu_spec.
  assert (∀ c', bool_decide (c' = c) = (c =? c')) as Hsw.
  { intros c'. destruct (Z.eqb_spec c c'); case_bool_decide; congruence. }
  destruct (bool_decide_reflect (cpu c)) as [Hc|Hc]; cbn [andb].
  - destruct old, new; cbn [Bool.eqb negb].
    + exists m. split; [done|]. apply (tables_ext _ _ _ _ _ _ _ _ (tables_refl m Hs)); [done| |done]. intros; cbn; lia.
    + destruct (lower_pressure_spec m c Hs Hc) as (m' & -> & Ht); [specialize (Hr c Hc); specialize (Hpos Hc eq_refl); lia|].
      exists m'. split; [done|]. apply (tables_ext _ _ _ _ _ _ _ _ Ht); [done| |done].
      intros c' Hc'. cbv beta. rewrite Hsw. cbn [andb Z.b2z]. lia.
    + destruct (raise_pressure_spec m c Hs Hc) as (m' & -> & Ht); [by apply Hr|].
      exists m'. split; [done|]. apply (tables_ext _ _ _ _ _ _ _ _ Ht); [done| |done].
      intros c' Hc'. cbv beta. rewrite Hsw. cbn [andb Z.b2z]. lia.
    + exists m. split; [done|]. apply (tables_ext _ _ _ _ _ _ _ _ (tables_refl m Hs)); [done| |done]. intros; cbn; lia.
  - exists m. split; [done|]. apply (tables_ext _ _ _ _ _ _ _ _ (tables_refl m Hs)); [done| |done].
    intros c' Hc'. destruct (Z.eqb_spec c c') as [->|]; [done|]. rewrite !andb_false_r. cbn. lia.
Qed.

Lemma adjust_non_default_spec m (odd old new : bool) : Shape m → 0 ≤ non_default m ≤ num_process →
  (old && odd = true → 1 ≤ non_default m) →
  ∃ m', (if odd && negb (Bool.eqb old new) then if old then lower_non_default m else raise_non_default m
         else Ret m) = Ret m' ∧
    Tables m m' (bit m) (pressure m) (non_default m - Z.b2z (old && odd) + Z.b2z (new && odd)).
Proof.
  intros Hs Hr Hpos. destruct odd, old, new; cbn [andb Bool.eqb negb] in *.
  2: { destruct (lower_non_default_spec m Hs) as (m' & -> & Ht); [specialize (Hpos eq_refl); lia|]. exists m'. split; [done|].
       apply (tables_ext _ _ _ _ _ _ _ _ Ht); [done..|cbn; lia]. }
  2: { destruct (raise_non_default_spec m Hs Hr) as (m' & -> & Ht). exists m'. split; [done|].
       apply (tables_ext _ _ _ _ _ _ _ _ Ht); [done..|cbn; lia]. }
  all: exists m; split; [done|]; apply (tables_ext _ _ _ _ _ _ _ _ (tables_refl m Hs)); [done..|cbn; lia].
Qed.

(** The end of a change: the task is stored, and enters the bitmap of its home if it is
    runnable. *)
Lemma requeue_spec m m1 g t' p n : Base m → slot g →
  Tables m m1 (λ c g', negb (bool_decide (g' = g)) && bit m c g') p n →
  (∀ c, cpu c → p c = pressure m c - Z.b2z (at_home c (task m g)) + Z.b2z (at_home c t')) →
  n = non_default m - Z.b2z (special (task m g)) + Z.b2z (special t') →
  ∃ m', (let! m := put_task m1 g t' in
         if bool_decide (state t' = RUNNABLE) && valid_home_cpu (_last_cpu t')
         then mark_runnable_slot m (_last_cpu t') g else Ret m) = Ret m' ∧ Touch m g t' m'.
Proof.
  intros Hm Hg [Hs1 HF1 Hp1 Hb1 Hq1 Hn1] Hp Hn.
  destruct (put_task_spec m1 g t' Hs1 Hg) as (m2 & -> & Hs2 & HF2 & Hp2 & Es). cbn [obind].
  destruct (same_sched m1 m2 Es) as (Hb2' & Hq2 & Hn2).
  assert (∀ c g', cpu c → slot g' → bit m2 c g' = negb (bool_decide (g' = g)) && bit m c g') as Hb2.
  { intros c g' Hc Hg'. rewrite Hb2'. by apply Hb1. }
  rewrite valid_home_cpu_spec. destruct (bool_decide (state t' = RUNNABLE) && bool_decide (cpu (_last_cpu t'))) eqn:E.
  - apply andb_true_iff in E as [Er Hc]. apply bool_decide_eq_true in Hc.
    destruct (mark_runnable_slot_spec m2 _ g Hs2 Hc Hg) as (m' & -> & [Hs3 HF3 Hp3 Hb3 Hq3 Hn3]). exists m'. split; [done|].
    apply touch_intro; [done|done|done|exact (transitivity HF1 (transitivity HF2 HF3))|congruence| | |].
    + intros c g' Hc' Hg'. rewrite Hb3, Hb2 by done. unfold queued. rewrite Er.
      destruct (bool_decide_reflect (g' = g)) as [->|Hne]; cbn [negb andb].
      * rewrite orb_false_r. destruct (Z.eqb_spec (_last_cpu t') c) as [El|El]; [by apply bool_decide_eq_true_2|].
        apply bool_decide_eq_false_2. intros [? _]. by apply El.
      * rewrite bool_decide_eq_false_2 by tauto. done.
    + intros c Hc'. rewrite Hq3, Hq2, Hq1 by done. by apply Hp.
    + by rewrite Hn3, Hn2, Hn1, Hn.
  - exists m2. split; [done|]. apply touch_intro; [done|done|done|by etrans|congruence| | |].
    + intros c g' Hc' Hg'. rewrite Hb2 by done. destruct (bool_decide_reflect (g' = g)) as [Eg|Eg]; [|done]. cbn [negb andb]. symmetry. unfold queued.
      apply andb_false_iff in E as [->|E]; [done|]. apply bool_decide_eq_false in E.
      destruct (Z.eqb_spec (_last_cpu t') c) as [El|]; [by rewrite El in E|apply andb_false_r].
    + intros c Hc'. rewrite Hq2, Hq1 by done. by apply Hp.
    + by rewrite Hn2, Hn1, Hn.
Qed.

(** ** [set_task_state] *)

(** The task [t] when it is about to get the state [s]: a task without a home gets one
    when it becomes runnable. *)
Definition homed (t : Task) (s : ProcState) (t' : Task) : Prop :=
  if bool_decide (s = RUNNABLE) && negb (valid_home_cpu (_last_cpu t))
  then ∃ c, t' = with_last t c ∧ cpu c ∧ Z.testbit (_cpu_mask t) c = true else t' = t.

Lemma find_home_spec m m1 g s b : Base m → slot g → (s = RUNNABLE → mask_ok m (_cpu_mask (task m g))) →
  Tables m m1 b (pressure m) (non_default m) →
  ∃ m' t', (if bool_decide (s = RUNNABLE) && negb (valid_home_cpu (_last_cpu (task m g))) then
              let! (m2, c) := select_initial_cpu m1 (_cpu_mask (task m g)) (-1) in Ret (m2, with_last (task m g) c)
            else Ret (m1, task m g)) = Ret (m', t') ∧
    homed (task m g) s t' ∧ Tables m m' b (pressure m) (non_default m).
Proof.
  intros Hm Hg Hs Ht. unfold homed. destruct (bool_decide_reflect (s = RUNNABLE)) as [Er|]; cbn [andb]; [|by eauto].
  destruct (valid_home_cpu _); cbn [negb]; [by eauto|].
  destruct (select_initial_cpu_spec m1 (_cpu_mask (task m g)) (-1)) as (sc & c & -> & [n ->] & Hpl).
  { intros c Hc. rewrite (tables_pressure _ _ _ _ _ Ht c Hc). destruct (base_pressures m c Hm Hc) as [_ Hr].
    split; [|done]. rewrite <- (tables_pressure _ _ _ _ _ Ht c Hc). apply aget_total.
    rewrite (shape_pressure m1 (tables_shape _ _ _ _ _ Ht)). unfold cpu, NUMCPU in Hc. lia. }
  eexists _, _. split; [done|]. split.
  - exists c. split; [done|]. apply (placed_home m1 (_cpu_mask (task m g)) (-1) c); [|done].
    apply (frame_mask_ok m); [apply Ht|]. by apply Hs.
  - destruct Ht as [[] [] H1 H2 H3 H4]. by split.
Qed.

Lemma with_state_same t : with_state t (state t) = t.
Proof. by destruct t as [[]]. Qed.

Lemma set_task_state_spec m g s : Base m → slot g →
  (s = RUNNABLE → mask_ok m (_cpu_mask (task m g))) →
  (is_schedulable (state (task m g)) = true → cpu (_last_cpu (task m g))) →
  ∃ m' t, set_task_state m g s = Ret m' ∧ Touch m g (with_state t s) m' ∧ homed (task m g) s t.
Proof.
  intros Hm Hg Hmask Hhome. pose proof (base_shape m Hm) as Hs0.
  unfold set_task_state. rewrite (proj2 (task_lookup m g Hs0 Hg)). cbn [obind].
  destruct (bool_decide_reflect (state (task m g) = s)) as [E|Hne].
  { exists m, (task m g). split; [done|]. subst s. rewrite with_state_same. split; [by apply task_touch_refl|].
    unfold homed. destruct (bool_decide_reflect (state (task m g) = RUNNABLE)) as [Er|]; [|done].
    rewrite valid_home_cpu_spec, bool_decide_eq_true_2; [done|]. apply Hhome. by rewrite Er. }
  destruct (unqueue_spec m g Hm Hg) as (m1 & -> & Ht1). cbn [obind].
  destruct (find_home_spec m m1 g s _ Hm Hg Hmask Ht1) as (m2 & t & -> & Hh & Ht2).
  cbn [obind]. set (t0 := task m g) in *.
  assert (_priority t = _priority t0) as Eprio by (unfold homed in Hh; destruct (_ && _) in Hh; [by destruct Hh as (? & -> & _)|by subst]).
  assert (is_schedulable (state t0) = true → t = t0) as Esame.
  { intros Hsch. unfold homed in Hh. rewrite valid_home_cpu_spec, (bool_decide_eq_true_2 (cpu _)), andb_false_r in Hh; [done|].
    by apply Hhome. }
  destruct (adjust_pressure_spec m2 (_last_cpu t) (is_schedulable (state t0)) (is_schedulable s)) as (m3 & -> & Ht3).
  { apply Ht2. }
  { intros c Hc. rewrite (tables_pressure _ _ _ _ _ Ht2) by done. by apply pressure_range. }
  { intros Hc Hsch. rewrite (tables_pressure _ _ _ _ _ Ht2) by done. apply (pressure_positive m g); [done..|].
    unfold at_home. fold t0. rewrite Hsch, (Esame Hsch). by apply Z.eqb_eq. }
  cbn [obind]. rewrite Eprio.
  destruct (adjust_non_default_spec m3 (negb (_priority t0 =? default_proc_prio)) (is_schedulable (state t0)) (is_schedulable s))
    as (m4 & -> & Ht4).
  { apply Ht3. }
  { rewrite (tables_non_default _ _ _ _ _ Ht3), (tables_non_default _ _ _ _ _ Ht2). by apply non_default_range. }
  { intros Hsp. rewrite (tables_non_default _ _ _ _ _ Ht3), (tables_non_default _ _ _ _ _ Ht2). by apply (non_default_positive m g). }
  cbn [obind]. pose proof (tables_trans _ _ _ _ _ _ _ _ _ Ht2 (tables_trans _ _ _ _ _ _ _ _ _ Ht3 Ht4)) as Ht.
  destruct (requeue_spec m m4 g (with_state t s)
    (λ c, pressure m c - Z.b2z (at_home c t0) + Z.b2z (at_home c (with_state t s)))
    (non_default m - Z.b2z (special t0) + Z.b2z (special (with_state t s)))) as (m' & E & Htouch); [done|done| |done|done|].
  { apply (tables_ext _ _ _ _ _ _ _ _ Ht).
    - intros c g' Hc Hg'. rewrite (tables_bit _ _ _ _ _ Ht3), (tables_bit _ _ _ _ _ Ht2) by done. done.
    - intros c Hc. rewrite (tables_pressure _ _ _ _ _ Ht3), (tables_pressure _ _ _ _ _ Ht2) by done. unfold at_home. cbn.
      destruct (is_schedulable (state t0)) eqn:Es; [by rewrite Esame|done].
    - rewrite (tables_non_default _ _ _ _ _ Ht3), (tables_non_default _ _ _ _ _ Ht2). unfold special. cbn. by rewrite Eprio. }
  exists m', t. split; [exact E|done].
Qed.

(** ** [set_task_priority] *)

Lemma set_task_priority_spec m g p : Base m → slot g →
  ∃ m', set_task_priority m g p = Ret m' ∧ Touch m g (with_priority (task m g) p) m'.
Proof.
  intros Hm Hg. pose proof (base_shape m Hm) as Hs0. unfold set_task_priority.
  rewrite (proj2 (task_lookup m g Hs0 Hg)). cbn [obind]. set (t := task m g).
  destruct (Z.eqb_spec (_priority t) p) as [E|Hne].
  { exists m. split; [done|]. replace (with_priority t p) with t by (destruct t; cbn in *; by subst). by apply task_touch_refl. }
  destruct (adjust_non_default_spec m (is_schedulable (state t)) (negb (_priority t =? default_proc_prio))
    (negb (p =? default_proc_prio))) as (m1 & E & [H1 H2 H3 H4 H5 H6]); [done|by apply non_default_range| |].
  { intros Hsp. apply (non_default_positive m g); [done..|]. unfold special. by rewrite andb_comm. }
  assert (∀ a b, Bool.eqb (negb a) (negb b) = Bool.eqb a b) as Heq by (by intros [] []).
  rewrite Heq in E. rewrite E. cbn [obind].
  destruct (put_task_spec m1 g (with_priority t p) H1 Hg) as (m2 & -> & Hs2 & HF2 & Hp2 & Es2).
  destruct (same_sched m1 m2 Es2) as (Hb & Hq & Hn).
  exists m2. split; [done|]. apply touch_intro; [done|done|done|by etrans|congruence|..].
  - intros c g' Hc Hg'. rewrite Hb, H4 by done. case_bool_decide as Eg; [|done]. subst g'.
    by apply (agree_bit m (base_agree m Hm)).
  - intros c Hc. rewrite Hq, H5 by done. change (at_home c (with_priority t p)) with (at_home c t). fold t. lia.
  - rewrite Hn, H6. unfold special. by rewrite !(andb_comm (is_schedulable _)).
Qed.

(** ** [set_task_home_cpu] *)

(** The bitmap and the two counters, before the task is stored. *)
Lemma move_home_spec m g c : Base m → slot g →
  let t := task m g in
  ∃ m', (if is_schedulable (state t) then
      let! m := (if bool_decide (state t = RUNNABLE) && valid_home_cpu (_last_cpu t)
                 then clear_runnable_slot m (_last_cpu t) g else Ret m) in
      let! m := (if valid_home_cpu (_last_cpu t) then lower_pressure m (_last_cpu t) else Ret m) in
      if valid_home_cpu c then raise_pressure m c else Ret m else Ret m) = Ret m' ∧
    Tables m m' (λ c' g', negb (bool_decide (g' = g)) && bit m c' g')
      (λ c', pressure m c' - Z.b2z (at_home c' t) + Z.b2z (at_home c' (with_last t c))) (non_default m).
Proof.
  intros Hm Hg t. pose proof (base_shape m Hm) as Hs0.
  assert (∀ c', at_home c' (with_last t c) = is_schedulable (state t) && (c =? c')) as Hnew by done.
  destruct (is_schedulable (state t)) eqn:Esch.
  - destruct (unqueue_spec m g Hm Hg) as (m1 & E1 & Ht1). fold t in E1. rewrite E1. cbn [obind].
    destruct (adjust_pressure_spec m1 (_last_cpu t) true false) as (m2 & E2 & Ht2).
    { apply Ht1. }
    { intros c' Hc'. rewrite (tables_pressure _ _ _ _ _ Ht1) by done. by apply pressure_range. }
    { intros Hc' _. rewrite (tables_pressure _ _ _ _ _ Ht1) by done. apply (pressure_positive m g); [done..|].
      unfold at_home. fold t. rewrite Esch. by apply Z.eqb_eq. }
    cbn [Bool.eqb negb] in E2. rewrite andb_true_r in E2. rewrite E2. cbn [obind].
    assert (∀ c', cpu c' → pressure m2 c' = pressure m c' - Z.b2z (at_home c' t)) as Hp2.
    { intros c' Hc'. rewrite (tables_pressure _ _ _ _ _ Ht2), (tables_pressure _ _ _ _ _ Ht1) by done.
      unfold at_home. rewrite Esch. cbn [andb Z.b2z]. lia. }
    destruct (adjust_pressure_spec m2 c false true) as (m3 & E3 & Ht3); [apply Ht2| |done|].
    { intros c' Hc'. rewrite Hp2 by done. pose proof (pressure_range m c' Hm Hc').
      destruct (at_home c' t) eqn:Ea; cbn [Z.b2z]; [|lia]. pose proof (pressure_positive m g c' Hm Hg Hc' Ea). lia. }
    cbn [Bool.eqb negb] in E3. rewrite andb_true_r in E3. rewrite E3. exists m3. split; [done|].
    apply (tables_ext _ _ _ _ _ _ _ _ (tables_trans _ _ _ _ _ _ _ _ _ Ht1 (tables_trans _ _ _ _ _ _ _ _ _ Ht2 Ht3))).
    + intros c' g' Hc' Hg'. rewrite (tables_bit _ _ _ _ _ Ht2), (tables_bit _ _ _ _ _ Ht1) by done. done.
    + intros c' Hc'. rewrite Hp2, Hnew by done. cbn [andb Z.b2z]. lia.
    + by rewrite (tables_non_default _ _ _ _ _ Ht2), (tables_non_default _ _ _ _ _ Ht1).
  - exists m. split; [done|]. apply (tables_ext _ _ _ _ _ _ _ _ (tables_refl m Hs0)); [..|done].
    + intros c' g' Hc' Hg'. case_bool_decide as Eg; [|done]. subst g'. rewrite (agree_bit m (base_agree m Hm)) by done.
      unfold queued. fold t. by destruct (state t).
    + intros c' Hc'. rewrite Hnew. unfold at_home. rewrite Esch. cbn. lia.
Qed.

Lemma set_task_home_cpu_spec m g c : Base m → slot g →
  ∃ m', set_task_home_cpu m g c = Ret m' ∧ Touch m g (with_last (task m g) c) m'.
Proof.
  intros Hm Hg. unfold set_task_home_cpu. rewrite (proj2 (task_lookup m g (base_shape m Hm) Hg)). cbn [obind].
  set (t := task m g). destruct (Z.eqb_spec (_last_cpu t) c) as [E|Hne].
  { exists m. split; [done|]. replace (with_last t c) with t by (destruct t; cbn in *; by subst). by apply task_touch_refl. }
  destruct (move_home_spec m g c Hm Hg) as (m1 & E & Ht). fold t in E. rewrite E. cbn [obind].
  apply (requeue_spec m m1 g (with_last t c) _ _ Hm Hg Ht); [done|].
  change (special (with_last t c)) with (special t). fold t. lia.
Qed.

(** ** Stores to a task that leave its place in the tables *)

Lemma put_touch m g t : Base m → slot g →
  state t = state (task m g) → _last_cpu t = _last_cpu (task m g) → special t = special (task m g) →
  ∃ m', put_task m g t = Ret m' ∧ Touch m g t m'.
Proof.
  intros Hm Hg E1 E2 E3. destruct (put_task_spec m g t (base_shape m Hm) Hg) as (m' & -> & Hs & HF & Hp & Es).
  exists m'. split; [done|]. destruct (same_sched m m' Es) as (Hb & Hq & Hn).
  apply touch_intro; [done..| | |].
  - intros c g' Hc Hg'. rewrite Hb. case_bool_decide as Eg; [|done]. subst g'. rewrite (agree_bit m (base_agree m Hm)) by done.
    unfold queued. by rewrite E1, E2.
  - intros c Hc. rewrite Hq. unfold at_home. rewrite E1, E2. lia.
  - rewrite Hn, E3. lia.
Qed.

End SchedOps.

(** * Load averages *)
Import Sleep SleepRep Scheduler SchedRep SchedPlace.

Module SchedLoad.

(** ** [runnable_task_count] counts the schedulable tasks at online processors *)

Lemma count_ext f f' l : (∀ t, f t = f' t) → count f l = count f' l.
Proof. intros H. induction l as [|t l IH]; cbn; [done|]. by rewrite H, IH. Qed.

Lemma count_or f f' l : (∀ t, f t && f' t = false) → count (λ t, f t || f' t) l = count f l + count f' l.
Proof.
  intros H. induction l as [|t l IH]; cbn [count]; [done|]. specialize (H t). destruct (f t), (f' t); cbn in *; [done|lia..].
Qed.

(** A schedulable task whose home is one of the first [k] processors and in [w]. *)
Definition counted (w k : Z) (t : Task) : bool :=
  is_schedulable (state t) && bool_decide (0 ≤ _last_cpu t < k) && Z.testbit w (_last_cpu t).

Lemma counted_next w k t : 0 ≤ k →
  counted w (k + 1) t = counted w k t || (if Z.testbit w k then at_home k t else false).
Proof.
  intros Hk. unfold counted, at_home. destruct (is_schedulable (state t)); cbn [andb]; [|by destruct (Z.testbit w k)].
  destruct (Z.eqb_spec (_last_cpu t) k) as [->|Hne].
  - rewrite bool_decide_eq_true_2, bool_decide_eq_false_2 by lia. cbn. by destruct (Z.testbit w k).
  - rewrite (bool_decide_ext _ (0 ≤ _last_cpu t < k)) by lia. destruct (Z.testbit w k); by rewrite orb_false_r.
Qed.

Lemma runnable_task_count_spec m : Base m →
  runnable_task_count m = Ret (count (counted (online_cpu_mask m) NUMCPU) (pool m)).
Proof.
  intros Hm. unfold runnable_task_count. set (w := online_cpu_mask m).
  destruct (for_up_inv (λ cpu_id total, if negb (is_set w cpu_id) then Ret total else
      let! n := aget (_pressure (sched m)) cpu_id in Ret (u32 (total + n)))
    (λ k total, total = count (counted w k) (pool m)) 0 NUMCPU 0) as (total & -> & ->); [done| | |done].
  - symmetry. assert (∀ t, counted w 0 t = false) as H.
    { intros t. unfold counted. rewrite bool_decide_eq_false_2 by lia. by rewrite andb_false_r. }
    rewrite (count_ext _ (λ _, false) _ H). induction (pool m); cbn; lia.
  - intros k total Hk ->. rewrite is_set_testbit by (unfold NUMCPU in Hk; lia).
    pose proof (count_ext _ _ (pool m) (λ t, counted_next w k t (proj1 Hk))) as E.
    destruct (Z.testbit w k) eqn:Ew; cbn [negb].
    + rewrite count_or in E.
      2: { intros t. unfold counted, at_home. destruct (Z.eqb_spec (_last_cpu t) k) as [->|]; [|by rewrite !andb_false_r].
           rewrite bool_decide_eq_false_2 by lia. by rewrite andb_false_r. }
      destruct (base_pressures m k Hm Hk) as [-> _]. cbn [obind]. eexists. split; [done|].
      rewrite E, (agree_pressure m (base_agree m Hm)) by done. apply u32_small.
      pose proof (count_range (counted w (k + 1)) (pool m)) as Hr. rewrite (shape_pool m (base_shape m Hm)), E in Hr.
      unfold num_process in Hr. lia.
    + eexists. split; [done|]. rewrite E. apply count_ext. intros t. by rewrite orb_false_r.
Qed.

(** ** [sample_load_averages] *)

Definition max_load : Z := num_process * fixed_1.

(** A sample moves an average toward the present load, not beyond it. *)
Lemma decay_between c a e : 0 ≤ c ≤ max_load → 0 ≤ a ≤ max_load → 0 ≤ e ≤ fixed_1 →
  Z.min a c ≤ decay c a e ≤ Z.max a c.
Proof.
  unfold max_load, num_process, fixed_1. intros Hc Ha He. unfold decay, fixed_1.
  assert (0 ≤ a * e ≤ 2 ^ 31) as H1 by nia. assert (0 ≤ c * (2048 - e) ≤ 2 ^ 31) as H2 by nia.
  rewrite !u64_small by (rewrite ?u64_small; lia). rewrite Z.shiftr_div_pow2 by lia. change (2 ^ 11) with 2048. split.
  - apply Z.div_le_lower_bound; [lia|]. nia.
  - apply Z.div_le_upper_bound; [lia|]. nia.
Qed.

(** Every average is between what it was and the present load. *)
Definition between (c : Z) (old new : list Z) : Prop :=
  Forall2 (λ a b, Z.min a c ≤ b ≤ Z.max a c) old new.

Definition loads_ok (l : list Z) : Prop := length l = 3%nat ∧ Forall (λ a, 0 ≤ a ≤ max_load) l.

Lemma decay_list c l : 0 ≤ c ≤ max_load → loads_ok l →
  loads_ok (zip_with (decay c) l exps) ∧ between c l (zip_with (decay c) l exps).
Proof.
  intros Hc [Hl Hf]. destruct l as [|a [|b [|d [|]]]]; try done. cbn [zip_with exps].
  apply Forall_cons in Hf as [Ha Hf]. apply Forall_cons in Hf as [Hb Hf]. apply Forall_cons in Hf as [Hd _].
  pose proof (decay_between c a 1884 Hc Ha ltac:(done)). pose proof (decay_between c b 2014 Hc Hb ltac:(done)).
  pose proof (decay_between c d 2037 Hc Hd ltac:(done)). unfold between. split; [split; [done|]|].
  - do 3 (constructor; [lia|]). constructor.
  - do 3 (constructor; [done|]). constructor.
Qed.

Lemma between_trans c l1 l2 l3 : between c l1 l2 → between c l2 l3 → between c l1 l3.
Proof.
  intros H. revert l3. induction H as [|a b l1 l2 Hab H IH]; intros l3 H3; inversion H3; subst; constructor; [lia|by apply IH].
Qed.

Lemma between_refl c l : between c l l.
Proof. induction l as [|a l IH]; constructor; [lia|done]. Qed.

Lemma samples_spec c n l : 0 ≤ c ≤ max_load → loads_ok l → 0 ≤ n →
  ∃ l', for_up (λ _ l, Ret (zip_with (decay c) l exps)) 0 n l = Ret l' ∧ loads_ok l' ∧ between c l l'.
Proof.
  intros Hc Hl Hn. destruct (for_up_inv (λ _ l, Ret (zip_with (decay c) l exps))
    (λ _ l', loads_ok l' ∧ between c l l') 0 n l) as (l' & -> & H); [done| | |by eauto].
  - split; [done|apply between_refl].
  - intros i l1 _ [H1 H2]. eexists. split; [done|]. destruct (decay_list c l1 Hc H1) as [H3 H4].
    split; [done|by eapply between_trans].
Qed.

(** Only the averages and their clock change. *)
Definition with_averages (m : Machine) (l : list Z) (last : Z) (b : bool) : Machine :=
  with_sched m (mkSched (_non_default_schedulable (sched m)) (_runnable_slot_words (sched m)) (_next_scan_global_id (sched m))
    (_next_initial_cpu (sched m)) (_pressure (sched m)) l last b).

Lemma sample_returns m now : Base m → ∃ l last b, sample_load_averages m now = Ret (with_averages m l last b).
Proof.
  intros Hm. unfold sample_load_averages. rewrite runnable_task_count_spec by done. cbn [obind].
  set (s := if _load_initialized (sched m) then _ else _).
  assert (∃ l last b, s = sched (with_averages m l last b)) as (l & last & b & Es).
  { unfold s. destruct (_load_initialized (sched m)) eqn:E.
    - exists (_load_averages (sched m)), (_load_last_sample_sec (sched m)), true. clear s Hm. destruct m as [? [] ? ?]. cbn in *. by subst.
    - by eexists _, _, _. }
  rewrite Es. destruct (u64 _ <=? now).
  - set (n := if 2048 <? _ then _ else _). set (body := λ (_ : Z) (l : list Z), Ret _).
    destruct (for_up_inv body (λ _ _, True) 0 (Z.max 0 n) (_load_averages (sched (with_averages m l last b))))
      as (l' & E & _); [lia|done|by eauto|].
    assert (for_up body 0 n (_load_averages (sched (with_averages m l last b))) = Ret l') as ->.
    { rewrite <- E. unfold for_up. by replace (Z.to_nat (Z.max 0 n - 0)) with (Z.to_nat (n - 0)) by lia. }
    eexists l', _, true. reflexivity.
  - by exists l, last, b.
Qed.

(** The averages a sample starts from. *)
Definition averages (m : Machine) : list Z :=
  if _load_initialized (sched m) then _load_averages (sched m) else [0; 0; 0].
Definition last_sample (m : Machine) (now : Z) : Z :=
  if _load_initialized (sched m) then _load_last_sample_sec (sched m) else if 5 <=? now then now - 5 else 0.

(** [sample_load_averages] takes the samples that are due since the last one, at
    most 2048.  Each average moves toward the number of schedulable tasks at online
    processors, in units of 1/2048, and never beyond it; no product overflows.  With
    at most 2048 samples due, the next one is due five seconds after the last. *)
Theorem sample_load_averages_correct m now : Inv m → loads_ok (averages m) → 0 ≤ last_sample m now ≤ now → now < 2 ^ 63 →
  let load := count (counted (online_cpu_mask m) NUMCPU) (pool m) * fixed_1 in
  ∃ m', sample_load_averages m now = Ret m' ∧ loads_ok (averages m') ∧
    pool m' = pool m ∧ between load (averages m) (averages m') ∧
    (now - last_sample m now < 5 * 2049 → last_sample m' now ≤ now < last_sample m' now + 5).
Proof.
  intros Hm Hl Hlast Hnow load. unfold sample_load_averages.
  rewrite runnable_task_count_spec by apply Hm. cbn [obind].
  pose proof (count_range (counted (online_cpu_mask m) NUMCPU) (pool m)) as Hr.
  rewrite (shape_pool m (base_shape m (inv_base m Hm))) in Hr. unfold num_process in Hr.
  assert (0 ≤ load ≤ max_load) as Hload by (unfold load, max_load, num_process, fixed_1; lia).
  rewrite (u64_small (_ * fixed_1)) by (fold load; unfold max_load, num_process, fixed_1 in Hload; lia). fold load.
  set (s := if _load_initialized (sched m) then _ else _).
  assert (_load_averages s = averages m ∧ _load_last_sample_sec s = last_sample m now ∧ _load_initialized s = true) as (E1 & E2 & E3).
  { unfold s, averages, last_sample. by destruct (_load_initialized (sched m)) eqn:E. }
  rewrite E1, E2, u64_small by lia. destruct (Z.leb_spec (last_sample m now + 5) now) as [Hdue|Hdue].
  - assert (0 ≤ (now - last_sample m now) / 5) as Hq by (apply Z.div_pos; lia).
    set (n := if 2048 <? _ then _ else _).
    assert (0 ≤ n ≤ 2048 ∧ n ≤ (now - last_sample m now) / 5 ∧ (now - last_sample m now < 5 * 2049 → n = (now - last_sample m now) / 5)) as (Hn & Hn' & Hn2).
    { unfold n. destruct (Z.ltb_spec 2048 ((now - last_sample m now) / 5)); split_and!; try lia.
      intros. assert ((now - last_sample m now) / 5 < 2049) by (apply Z.div_lt_upper_bound; lia). lia. }
    destruct (samples_spec load n (averages m) Hload Hl ltac:(lia)) as (l & -> & Hl' & Hb). cbn [obind].
    pose proof (Z.mul_div_le (now - last_sample m now) 5 ltac:(lia)) as Hmul.
    eexists. split; [done|]. rewrite u64_small by lia. unfold averages at 1 3, last_sample at 2 3. cbn. split_and!; [done..|].
    intros H. rewrite (Hn2 H). pose proof (Z.mod_pos_bound (now - last_sample m now) 5 ltac:(lia)).
    pose proof (Z.div_mod (now - last_sample m now) 5 ltac:(lia)). lia.
  - eexists. split; [done|]. assert (averages (with_sched m s) = averages m) as -> by (unfold averages at 1; cbn; by rewrite E3).
    assert (last_sample (with_sched m s) now = last_sample m now) as -> by (unfold last_sample at 1; cbn; by rewrite E3).
    split_and!; [done|done|apply between_refl|lia].
Qed.

Lemma sample_load_averages_correct_witness : ∃ m', sample_load_averages (boot 3 3) 100 = Ret m' ∧
  loads_ok (averages m') ∧ last_sample m' 100 ≤ 100 < last_sample m' 100 + 5.
Proof.
  destruct (sample_load_averages_correct (boot 3 3) 100) as (m' & E & Hl & _ & _ & H).
  - exact (boot_inv 3 3 ltac:(discriminate)).
  - split; [exact eq_refl|]. do 3 (constructor; [unfold max_load, num_process, fixed_1; lia|]). constructor.
  - vm_compute. split; discriminate.
  - lia.
  - exists m'. split; [exact E|]. split; [exact Hl|]. apply H. vm_compute. exact eq_refl.
Defined.

End SchedLoad.
