(* ===== verification/SchedReach.v ===== *)
(** * Processors running tasks

    Every processor runs a task or the scheduler; tasks are created, woken, moved,
    preempted, put to sleep, stopped and freed in any order.  An operation runs with
    the lock of its task, so that it is one step. *)
From S2P Require Import Prelude Sleep SleepRep SleepOps Scheduler SchedRep SchedOps.
Import Sleep SleepRep Scheduler SchedRep.

Module SchedSystem.

(** The machine, and the task each processor runs ([cur_proc]). *)
Record Config := mkConfig { c_machine : Machine; c_current : gmap Z Z }.

(** ** Compound operations *)

(** A task gives up its processor in the state [s]; [woken] if [sleep] finds a signal
    once it has registered its channel. *)
Definition switch_out (m : Machine) (c g : Z) (s : ProcState) (woken : bool) : outcome Machine :=
  let! m := set_task_state m g s in
  let! m := (if woken then set_task_state m g RUNNABLE else Ret m) in
  call_sched m c g.

(** The scheduler frees a thread that has exited. *)
Definition reap (m : Machine) (g : Z) (deferred : bool) : outcome Machine :=
  let! t := get_task m g in
  if bool_decide (state t = ZOMBIE) && deferred then freeproc m g else Ret m.

(** Signals and the wait channel of a task change. *)
Definition with_block (t : Task) (p : Pcb) : Task :=
  mkTask (Sleep.set_task_state p (state t)) (_cpu_mask t) (_last_cpu t) (_running_cpu t) (_priority t).

(** The states a task takes when it leaves its processor. *)
Definition leaving (s : ProcState) : Prop := s = RUNNABLE ∨ s = SLEEPING ∨ s = STOPPED ∨ s = ZOMBIE.
(** The states a task is made runnable from. *)
Definition waiting (s : ProcState) : Prop := s = SLEEPING ∨ s = STOPPED ∨ s = USED.

Definition at_slot (s : Config) (g : Z) : Task := task (c_machine s) g.

(** ** Permitted operations *)

(** The result of an operation on the machine that leaves the processors as they are. *)
Definition on_machine (s : Config) (r : outcome Machine) : outcome Config :=
  let! m := r in Ret (mkConfig m (c_current s)).

(** The scheduler of [c] looks at [g]. *)
Definition look (s : Config) (c g p : Z) : outcome Config :=
  let! r := claim (c_machine s) c g p in
  match r with Some m => Ret (mkConfig m (<[c := g]> (c_current s))) | None => Ret s end.

(** The task [g] leaves [c]. *)
Definition leave (s : Config) (c g : Z) (st : ProcState) (woken deferred : bool) : outcome Config :=
  let! m := switch_out (c_machine s) c g st woken in
  let! m := reap m g deferred in
  Ret (mkConfig m (delete c (c_current s))).

(** [operation s r]: a permitted operation has the result [r]. *)
Inductive operation (s : Config) : outcome Config → Prop :=
  | op_look c g p : cpu c → slot g → c_current s !! c = None → operation s (look s c g p)
  | op_leave c g st woken deferred : c_current s !! c = Some g → leaving st → (woken = true → st = SLEEPING) →
      operation s (leave s c g st woken deferred)
  | op_wake g : slot g → waiting (state (at_slot s g)) →
      operation s (on_machine s (set_task_state (c_machine s) g RUNNABLE))
  | op_priority g p : slot g → operation s (on_machine s (set_priority (c_machine s) g p))
  | op_affinity g w : slot g → state (at_slot s g) ≠ UNUSED →
      operation s (on_machine s (let! (m, _) := sched_setaffinity (c_machine s) g w in Ret m))
  | op_alloc g : slot g → state (at_slot s g) = UNUSED → operation s (on_machine s (alloc_proc (c_machine s) g))
  | op_fork parent child reset : slot parent → slot child → state (at_slot s parent) ≠ UNUSED → state (at_slot s child) = USED →
      operation s (on_machine s (place_child (c_machine s) parent child reset))
  | op_free g : slot g → state (at_slot s g) = ZOMBIE ∨ state (at_slot s g) = USED →
      operation s (on_machine s (freeproc (c_machine s) g))
  | op_block g p : slot g → operation s (on_machine s (put_task (c_machine s) g (with_block (at_slot s g) p)))
  | op_online c : cpu c → operation s (on_machine s (Ret (mark_current_online (c_machine s) c)))
  | op_sample now : operation s (on_machine s (sample_load_averages (c_machine s) now)).

Inductive reachable : Config → Prop :=
  | reachable_boot possible online :
      Z.land possible k_cpu_capacity_mask ≠ 0 → reachable (mkConfig (boot possible online) ∅)
  | reachable_step s s' : reachable s → operation s (Ret s') → reachable s'.

(** ** The invariant *)

(** A processor runs a task exactly if the task is running there. *)
Definition coherent (m : Machine) (cur : gmap Z Z) (g : Z) : Prop :=
  let t := task m g in
  (∀ c, cur !! c = Some g ↔ _running_cpu t = c ∧ c ≠ -1) ∧ (state t = RUNNING ↔ _running_cpu t ≠ -1).

Record Invariant (s : Config) : Prop := {
  all_inv : Inv (c_machine s);
  all_coherent g : slot g → coherent (c_machine s) (c_current s) g;
  all_current c g : c_current s !! c = Some g → cpu c ∧ slot g
}.

End SchedSystem.

(** * The operations keep the invariant of the scheduler *)
Import Sleep SleepRep SleepOps Scheduler SchedRep SchedPlace SchedOps SchedSystem.

Module SchedReach.

(** ** Operations on the machine *)

Lemma inv_home m g : Inv m → slot g → is_schedulable (state (task m g)) = true → cpu (_last_cpu (task m g)).
Proof.
  intros Hm Hg Hs. pose proof (inv_task m Hm g Hg) as [_ Hh Hn _]. specialize (Hn Hs).
  destruct Hh as [|[? _]]; [|done..]. intros E. by rewrite E in Hs.
Qed.

Lemma homed_ok m t s t' : task_ok m t → homed t s t' →
  (s ≠ UNUSED → state t ≠ UNUSED) → (s = RUNNING → is_schedulable (state t) = true) → task_ok m (with_state t' s).
Proof.
  intros [H1 H2 H3 H4] Hh Hu Hr. unfold homed in Hh. rewrite valid_home_cpu_spec in Hh.
  destruct (bool_decide_reflect (s = RUNNABLE)) as [->|Hne]; cbn [andb] in Hh; [destruct (bool_decide_reflect (cpu (_last_cpu t))) as [Hc|Hn]|]; cbn [negb] in Hh.
  - subst t'. split; cbn; [auto..| |done]. intros _ E. rewrite E in Hc. by destruct Hc.
  - destruct Hh as (c & -> & Hc & Hb). split; cbn; [auto|auto| |done]. intros _ ->. by destruct Hc.
  - subst t'. split; cbn; [auto..| |done]. intros Hs. apply H3, Hr. by destruct s.
Qed.

Lemma set_state_inv m g s : Inv m → slot g →
  (s ≠ UNUSED → state (task m g) ≠ UNUSED) → (s = RUNNING → is_schedulable (state (task m g)) = true) →
  ∃ m' t, set_task_state m g s = Ret m' ∧ Touch m g (with_state t s) m' ∧ homed (task m g) s t ∧ Inv m'.
Proof.
  intros Hm Hg Hu Hr. pose proof (inv_task m Hm g Hg) as Hok.
  destruct (set_task_state_spec m g s) as (m' & t & E & Ht & Hh); [apply Hm|done| |by apply inv_home|].
  { intros ->. apply (ok_mask m _ Hok). by apply Hu. }
  exists m', t. split_and!; [done..|]. apply (touch_inv m g (with_state t s)); [done..|]. by apply (homed_ok m (task m g)).
Qed.

Lemma homed_running t s t' : homed t s t' → _running_cpu t' = _running_cpu t.
Proof. unfold homed. destruct (_ && _); [by intros (c & -> & _)|by intros ->]. Qed.

Lemma default_mask_ok m : Inv m → mask_ok m (default_mask m).
Proof. intros Hm. unfold default_mask. destruct (Z.eqb_spec (possible_cpu_mask m) 0) as [E|]; cbn; [|apply Hm].
  destruct (inv_possible m Hm) as [(c & _ & Hb) _]. by rewrite E, Z.bits_0 in Hb.
Qed.

Lemma unschedulable_special t : is_schedulable (state t) = false → special t = false.
Proof. intros E. unfold special. by rewrite E. Qed.

(** [alloc_proc] and [freeproc]. *)
Lemma reset_inv m g s : Inv m → slot g → is_schedulable s = false →
  ∃ m' t, (let! m := set_task_state m g s in reset_placement m g) = Ret m' ∧ Touch m g t m' ∧ Inv m' ∧
    state t = s ∧ _running_cpu t = _running_cpu (task m g).
Proof.
  intros Hm Hg Hs. destruct (set_task_state_spec m g s) as (m1 & t1 & -> & Ht1 & Hh); [apply Hm|done|by intros ->|by apply inv_home|].
  cbn [obind]. unfold reset_placement. pose proof (touch_base _ _ _ _ Ht1) as Hb1.
  rewrite (proj2 (task_lookup m1 g (base_shape m1 Hb1) Hg)), (task_touch_self _ _ _ _ (base_shape m (inv_base m Hm)) Hg Ht1). cbn [obind].
  set (t2 := with_mask _ _). destruct (put_touch m1 g t2 Hb1 Hg) as (m2 & -> & Ht2).
  { by rewrite (task_touch_self _ _ _ _ (base_shape m (inv_base m Hm)) Hg Ht1). }
  { by rewrite (task_touch_self _ _ _ _ (base_shape m (inv_base m Hm)) Hg Ht1). }
  { rewrite (task_touch_self _ _ _ _ (base_shape m (inv_base m Hm)) Hg Ht1).
    by rewrite (unschedulable_special t2 Hs), (unschedulable_special (with_state t1 s) Hs). }
  cbn [obind]. destruct (set_task_home_cpu_spec m2 g (-1) (touch_base _ _ _ _ Ht2) Hg) as (m3 & -> & Ht3).
  rewrite (task_touch_self _ _ _ _ (base_shape m1 Hb1) Hg Ht2) in Ht3.
  pose proof (task_touch_trans _ _ _ _ _ _ Ht1 (task_touch_trans _ _ _ _ _ _ Ht2 Ht3)) as Ht.
  eexists m3, _. split; [done|]. split; [exact Ht|]. split_and!; [|done|exact (homed_running _ _ _ Hh)].
  apply (touch_inv m g _ m3 Hm Hg Ht). split; cbn.
  - intros _. unfold default_mask. rewrite (proj1 (frame_masks m m1 (touch_frame _ _ _ _ Ht1))). by apply default_mask_ok.
  - by left.
  - intros E. change (is_schedulable s = true) in E. congruence.
  - done.
Qed.

(** A choice of processor moves only the cursor. *)
Lemma select_touch m0 g t m mask parent : Touch m0 g t m →
  ∃ m' c, select_initial_cpu m mask parent = Ret (m', c) ∧ Touch m0 g t m' ∧ placed m mask parent c ∧
    task m' g = task m g.
Proof.
  intros Ht. destruct (select_initial_cpu_spec m mask parent) as (s & c & -> & [n ->] & Hpl).
  { intros c Hc. apply base_pressures; [apply Ht|done]. }
  eexists _, c. split; [done|]. split_and!; [|done|done]. destruct Ht as [[[] []] [] Hp]. by split.
Qed.

Lemma set_affinity_inv m g w : Inv m → slot g → state (task m g) ≠ UNUSED →
  ∃ m' r t, sched_setaffinity m g w = Ret (m', r) ∧ Touch m g t m' ∧ Inv m' ∧
    state t = state (task m g) ∧ _running_cpu t = _running_cpu (task m g).
Proof.
  intros Hm Hg Hu. pose proof (inv_task m Hm g Hg) as Hok. pose proof (base_shape m (inv_base m Hm)) as Hs. unfold sched_setaffinity.
  destruct (Z.eqb_spec (Z.land w (possible_cpu_mask m)) 0) as [|Hne].
  { exists m, EINVAL, (task m g). split_and!; [done|by apply task_touch_refl; [apply Hm|]|done..]. }
  set (w' := Z.land w (possible_cpu_mask m)) in *.
  assert (mask_ok m w') as Hw.
  { assert (∀ c, 0 ≤ c → Z.testbit w' c = true → Z.testbit (possible_cpu_mask m) c = true) as Hsub.
    { intros c Hc. unfold w'. rewrite Z.land_spec. by intros [_ ?]%andb_true_iff. }
    split; [|intros c Hc Hb; specialize (Hsub c Hc Hb); split; [by apply (possible_bits m)|done]].
    assert (0 < w') as Hpos.
    { assert (0 ≤ w'); [|lia]. apply Z.land_nonneg. right. apply Z.land_nonneg. right. by vm_compute. }
    pose proof (Z.bit_log2 w' Hpos) as Hb. pose proof (Z.log2_nonneg w') as H0. exists (Z.log2 w').
    split; [|done]. apply (possible_bits m); [done|]. by apply Hsub. }
  rewrite (proj2 (task_lookup m g Hs Hg)). cbn [obind].
  destruct (put_touch m g (with_mask (task m g) w')) as (m1 & -> & Ht1); [apply Hm|done..|]. cbn [obind].
  pose proof (task_touch_self _ _ _ _ Hs Hg Ht1) as E1.
  destruct ((_last_cpu (task m g) <? 0) || negb (is_set w' (_last_cpu (task m g)))) eqn:Eout.
  - destruct (select_touch m g _ m1 w' (-1) Ht1) as (m2 & c & -> & Ht2 & Hpl & E2). cbn [obind].
    destruct (set_task_home_cpu_spec m2 g c (touch_base _ _ _ _ Ht2) Hg) as (m3 & -> & Ht3). cbn [obind].
    rewrite E2, E1 in Ht3. pose proof (task_touch_trans _ _ _ _ _ _ Ht2 Ht3) as Ht.
    eexists m3, 0, _. split; [done|]. split; [exact Ht|]. split_and!; [|done|done].
    apply (touch_inv m g _ m3 Hm Hg Ht).
    destruct (placed_home m1 w' (-1) c) as [Hc Hb]; [by apply (frame_mask_ok m); [apply Ht1|]|done|].
    split; cbn; [done|by right|intros _ ->; by destruct Hc|apply Hok].
  - eexists m1, 0, _. split; [done|]. split; [exact Ht1|]. split_and!; [|done|done].
    apply (touch_inv m g _ m1 Hm Hg Ht1). apply orb_false_iff in Eout as [Epos Ein]. apply Z.ltb_ge in Epos.
    destruct (ok_home m _ Hok Hu) as [E|[Hc _]]; [rewrite E in Epos; done|].
    rewrite is_set_testbit in Ein by (unfold cpu, NUMCPU in Hc; lia). apply negb_false_iff in Ein.
    split; cbn; [done|by right|apply Hok|apply Hok].
Qed.

Lemma place_child_inv m parent child reset : Inv m → slot parent → slot child →
  state (task m parent) ≠ UNUSED → state (task m child) = USED →
  ∃ m' t, place_child m parent child reset = Ret m' ∧ Touch m child t m' ∧ Inv m' ∧
    state t = USED ∧ _running_cpu t = _running_cpu (task m child).
Proof.
  intros Hm Hp Hg Hu Eu. pose proof (base_shape m (inv_base m Hm)) as Hs. unfold place_child.
  rewrite (proj2 (task_lookup m parent Hs Hp)), (proj2 (task_lookup m child Hs Hg)). cbn [obind].
  set (t1 := with_mask _ _). destruct (put_touch m child t1) as (m1 & -> & Ht1); [apply Hm|done..| |].
  { rewrite !unschedulable_special; [done|by rewrite Eu|]. change (is_schedulable (state (task m child)) = false). by rewrite Eu. }
  cbn [obind]. destruct (select_touch m child _ m1 (_cpu_mask (task m parent)) (_last_cpu (task m parent)) Ht1)
    as (m2 & c & -> & Ht2 & Hpl & E2). cbn [obind].
  destruct (set_task_home_cpu_spec m2 child c (touch_base _ _ _ _ Ht2) Hg) as (m3 & -> & Ht3).
  rewrite E2, (task_touch_self _ _ _ _ Hs Hg Ht1) in Ht3. pose proof (task_touch_trans _ _ _ _ _ _ Ht2 Ht3) as Ht.
  cbn [obind]. assert (mask_ok m (_cpu_mask (task m parent))) as Hmask by (by apply (ok_mask m _ (inv_task m Hm parent Hp))).
  destruct (placed_home m1 _ _ c (frame_mask_ok m m1 _ (touch_frame _ _ _ _ Ht1) Hmask) Hpl) as [Hc Hb].
  assert (∀ p, highest_proc_prio ≤ p ≤ lowest_proc_prio → task_ok m (with_priority (with_last t1 c) p)) as Hok.
  { intros p Hr. split; cbn; [done|by right|intros _ ->; by destruct Hc|done]. }
  destruct reset.
  - rewrite (proj2 (task_lookup m3 child (base_shape m3 (touch_base _ _ _ _ Ht)) Hg)), (task_touch_self _ _ _ _ Hs Hg Ht). cbn [obind].
    destruct (put_touch m3 child (with_priority (with_last t1 c) default_proc_prio)) as (m4 & -> & Ht4);
      [apply (touch_base _ _ _ _ Ht)|done|by rewrite (task_touch_self _ _ _ _ Hs Hg Ht)..| |].
    { rewrite (task_touch_self _ _ _ _ Hs Hg Ht), !unschedulable_special; [done|..];
        change (is_schedulable (state (task m child)) = false); by rewrite Eu. }
    pose proof (task_touch_trans _ _ _ _ _ _ Ht Ht4) as Ht'. eexists m4, _. split; [done|]. split; [exact Ht'|].
    split_and!; [|done|done]. apply (touch_inv m child _ m4 Hm Hg Ht'). by apply Hok.
  - eexists m3, _. split; [done|]. split; [exact Ht|]. split_and!; [|done|done]. apply (touch_inv m child _ m3 Hm Hg Ht).
    apply (Hok (_priority (task m parent))). apply (ok_priority _ _ (inv_task m Hm parent Hp)).
Qed.

Lemma set_priority_inv m g p : Inv m → slot g →
  ∃ m' t, set_priority m g p = Ret m' ∧ Touch m g t m' ∧ Inv m' ∧
    state t = state (task m g) ∧ _running_cpu t = _running_cpu (task m g).
Proof.
  intros Hm Hg. unfold set_priority. set (p' := if p <? highest_proc_prio then _ else _).
  assert (highest_proc_prio ≤ p' ≤ lowest_proc_prio) as Hp'.
  { unfold p', highest_proc_prio, lowest_proc_prio. destruct (Z.ltb_spec p (-20)), (Z.ltb_spec 19 p); lia. }
  destruct (set_task_priority_spec m g p') as (m' & -> & Ht); [apply Hm|done|]. eexists m', _. split; [done|].
  split; [exact Ht|]. split_and!; [|done|done]. apply (touch_inv m g _ m' Hm Hg Ht).
  destruct (inv_task m Hm g Hg) as [H1 H2 H3 _]. by split.
Qed.

Lemma can_schedule_home m t c : can_schedule_on_cpu m t c = true →
  cpu c ∧ Z.testbit (_cpu_mask t) c = true ∧ Z.testbit (online_cpu_mask m) c = true.
Proof.
  unfold can_schedule_on_cpu. destruct (_ || _) eqn:E1; [done|]. destruct (negb (is_set (Z.land _ _) c)) eqn:E2; [done|]. intros _.
  apply orb_false_iff in E1 as [[Ha Hb]%orb_false_iff Hc]. apply Z.ltb_ge in Ha. apply negb_false_iff in Hb, Hc, E2.
  unfold is_valid_cpu_id in Hb. apply andb_true_iff in Hb as [Hb%Z.ltb_lt _].
  rewrite is_set_testbit in Hc, E2 by (unfold NUMCPU in Hb; lia). rewrite Z.land_spec in E2. apply andb_true_iff in E2 as [_ E2]. done.
Qed.

Lemma next_scan_inv m c g : Inv m → cpu c →
  ∃ l, aset (_next_scan_global_id (sched m)) c ((g + 1) mod num_process) = Ret l ∧
    Inv (with_sched m (with_next_scan (sched m) l)) ∧ l !!! Z.to_nat c = (g + 1) mod num_process.
Proof.
  intros Hm Hc. destruct Hm as [[[Hp Hr Hq Hs] Ha] Ht Hpo Hsc]. unfold cpu, NUMCPU in Hc. rewrite aset_in_range by lia.
  eexists. split; [done|]. split; [|apply lookup_total_aset_eq; lia].
  split; [split; [|by destruct Ha]|by intros g0 Hg0; destruct (Ht g0 Hg0); split|done|].
  - split; [done..|]. cbn. by rewrite length_insert.
  - intros c' Hc'. pose proof Hc' as Hc''. unfold cpu, NUMCPU in Hc'. cbn. destruct (decide (c' = c)) as [->|].
    + rewrite lookup_total_aset_eq by lia. apply Z.mod_pos_bound. done.
    + rewrite lookup_total_aset_ne by lia. by apply Hsc.
Qed.

(** What [claim] makes of the task it takes. *)
Definition claimed (t : Task) (c : Z) : Task := with_state (with_running (with_last t c) c) RUNNING.

Lemma claim_inv m c g p : Inv m → cpu c → slot g → (state (task m g) = RUNNABLE → _running_cpu (task m g) = -1) →
  if bool_decide (state (task m g) = RUNNABLE) && can_schedule_on_cpu m (task m g) c
     && (effective_schedule_priority (task m g) <=? p)
  then ∃ m', claim m c g p = Ret (Some m') ∧ Inv m' ∧
         (∀ g', slot g' → task m' g' = if bool_decide (g' = g) then claimed (task m g) c else task m g') ∧
         _next_scan_global_id (sched m') !!! Z.to_nat c = (g + 1) mod num_process
  else claim m c g p = Ret None.
Proof.
  intros Hm Hc Hg Hrun. pose proof (base_shape m (inv_base m Hm)) as Hs. unfold claim.
  rewrite (proj2 (task_lookup m g Hs Hg)). cbn [obind]. destruct (_ && _ && _) eqn:Eif; [|done].
  apply andb_true_iff in Eif as [[Er Hcan]%andb_true_iff _]. apply bool_decide_eq_true in Er.
  rewrite (Hrun Er). cbn [Z.eqb negb Pos.eqb]. destruct (next_scan_inv m c g Hm Hc) as (l & -> & Hm0 & El). cbn [obind].
  set (m0 := with_sched m _) in *. change (task m g) with (task m0 g) in *. pose proof (base_shape m0 (inv_base m0 Hm0)) as Hs0.
  destruct (set_task_home_cpu_spec m0 g c (inv_base m0 Hm0) Hg) as (m1 & -> & Ht1). cbn [obind].
  pose proof (task_touch_self _ _ _ _ Hs0 Hg Ht1) as E1. pose proof (touch_base _ _ _ _ Ht1) as Hb1.
  rewrite (proj2 (task_lookup m1 g (base_shape m1 Hb1) Hg)), E1. cbn [obind].
  destruct (put_touch m1 g (with_running (with_last (task m0 g) c) c) Hb1 Hg) as (m2 & -> & Ht2); [by rewrite E1..|]. cbn [obind].
  pose proof (task_touch_trans _ _ _ _ _ _ Ht1 Ht2) as Ht12. pose proof (task_touch_self _ _ _ _ Hs0 Hg Ht12) as E2.
  destruct (can_schedule_home m _ c Hcan) as (_ & Hb & _).
  assert (Inv m2) as Hm2.
  { apply (touch_inv m0 g _ m2 Hm0 Hg Ht12). destruct (inv_task m0 Hm0 g Hg) as [H1 H2 H3 H4].
    split; cbn; [done|by right|intros _ ->; by destruct Hc|done]. }
  destruct (set_state_inv m2 g RUNNING Hm2 Hg) as (m3 & t & -> & Ht3 & Hh & Hm3).
  { intros _. rewrite E2. change (state (task m0 g) ≠ UNUSED). by rewrite Er. }
  { intros _. rewrite E2. change (is_schedulable (state (task m0 g)) = true). by rewrite Er. }
  cbn [obind]. exists m3. split; [done|]. split; [done|]. split.
  2: { rewrite (frame_scan m0 m3); [done|]. exact (transitivity (touch_frame _ _ _ _ Ht12) (touch_frame _ _ _ _ Ht3)). }
  intros g' Hg'. unfold homed in Hh. rewrite bool_decide_eq_false_2 in Hh by done. cbn [andb] in Hh. subst t. rewrite E2 in Ht3.
  rewrite (touch_task m0 g _ m3 g' Hs0 Hg Hg' (task_touch_trans _ _ _ _ _ _ Ht12 Ht3)). done.
Qed.

Lemma call_sched_inv m c g : Inv m → slot g → state (task m g) ≠ RUNNING → _running_cpu (task m g) = c →
  ∃ m', call_sched m c g = Ret m' ∧ Touch m g (with_running (task m g) (-1)) m' ∧ Inv m'.
Proof.
  intros Hm Hg Hne <-. unfold call_sched. rewrite (proj2 (task_lookup m g (base_shape m (inv_base m Hm)) Hg)). cbn [obind].
  rewrite bool_decide_eq_false_2 by done. rewrite Z.eqb_refl. cbn [negb].
  destruct (put_touch m g (with_running (task m g) (-1))) as (m' & -> & Ht); [apply Hm|done..|].
  exists m'. split; [done|]. split; [done|]. apply (touch_inv m g _ m' Hm Hg Ht).
  destruct (inv_task m Hm g Hg) as [H1 H2 H3 H4]. by split.
Qed.

(** A task that leaves its processor [c] in the state [s]. *)
Lemma switch_out_inv m c g s woken : Inv m → slot g → state (task m g) = RUNNING → _running_cpu (task m g) = c →
  leaving s → (woken = true → s = SLEEPING) →
  ∃ m' t, switch_out m c g s woken = Ret m' ∧ Touch m g t m' ∧ Inv m' ∧ _running_cpu t = -1 ∧ leaving (state t).
Proof.
  intros Hm Hg Er Hc Hl Hw. pose proof (base_shape m (inv_base m Hm)) as Hs. unfold switch_out.
  assert (s ≠ RUNNING) as Hsr by (by destruct Hl as [->|[->|[->| ->]]]).
  destruct (set_state_inv m g s Hm Hg) as (m1 & t1 & -> & Ht1 & Hh1 & Hm1); [by rewrite Er|by intros ->|]. cbn [obind].
  pose proof (task_touch_self _ _ _ _ Hs Hg Ht1) as E1.
  assert (∃ m2 t2, (if woken then set_task_state m1 g RUNNABLE else Ret m1) = Ret m2 ∧ Touch m g t2 m2 ∧ Inv m2 ∧
    _running_cpu t2 = c ∧ leaving (state t2) ∧ state t2 ≠ RUNNING) as (m2 & t2 & -> & Ht2 & Hm2 & Ec & Hl2 & Hr2).
  { assert (_running_cpu t1 = c) as Ec1 by (by rewrite (homed_running _ _ _ Hh1)). destruct woken.
    - destruct (set_state_inv m1 g RUNNABLE Hm1 Hg) as (m2 & t2 & -> & Ht2 & Hh2 & Hm2); [by rewrite E1, (Hw eq_refl)|done|].
      eexists m2, _. split; [done|]. split; [exact (task_touch_trans _ _ _ _ _ _ Ht1 Ht2)|]. split_and!; [done| |by left|done].
      pose proof (homed_running _ _ _ Hh2) as E2. rewrite E1 in E2. cbn. rewrite E2. done.
    - eexists m1, _. split; [done|]. split; [exact Ht1|]. split_and!; [done..| |done]. exact Hl. }
  cbn [obind]. pose proof (task_touch_self _ _ _ _ Hs Hg Ht2) as E2.
  destruct (call_sched_inv m2 c g Hm2 Hg) as (m3 & -> & Ht3 & Hm3); [by rewrite E2|by rewrite E2|]. rewrite E2 in Ht3.
  eexists m3, _. split; [done|]. split; [exact (task_touch_trans _ _ _ _ _ _ Ht2 Ht3)|]. done.
Qed.

Lemma reap_inv m g d : Inv m → slot g →
  ∃ m' t, reap m g d = Ret m' ∧ Touch m g t m' ∧ Inv m' ∧ _running_cpu t = _running_cpu (task m g) ∧
    (state (task m g) ≠ RUNNING → state t ≠ RUNNING).
Proof.
  intros Hm Hg. unfold reap. rewrite (proj2 (task_lookup m g (base_shape m (inv_base m Hm)) Hg)). cbn [obind].
  destruct (_ && _); [|exists m, (task m g); split_and!; [done|by apply task_touch_refl; [apply Hm|]|done..]].
  destruct (reset_inv m g UNUSED Hm Hg eq_refl) as (m' & t & E & Ht & Hm' & Es & Er). exists m', t.
  split_and!; [exact E|done..|]. by rewrite Es.
Qed.

Lemma sched_loads_inv m l last b : Inv m →
  Inv (with_sched m (mkSched (_non_default_schedulable (sched m)) (_runnable_slot_words (sched m)) (_next_scan_global_id (sched m))
    (_next_initial_cpu (sched m)) (_pressure (sched m)) l last b)).
Proof.
  intros [[[] []] Ht Hp Hs]. split; [split; [by split|by split]| |done|done].
  intros g Hg. destruct (Ht g Hg). by split.
Qed.

Lemma online_inv m c : Inv m → Inv (mark_current_online m c).
Proof.
  intros Hm. unfold mark_current_online. destruct (negb _); [done|]. destruct Hm as [[[] []] Ht Hp Hs].
  split; [split; [by split|by split]| |done|done]. intros g Hg. destruct (Ht g Hg). by split.
Qed.

End SchedReach.

(** * Every operation returns and keeps the invariant of the processors *)
Import Sleep SleepRep Scheduler SchedRep SchedPlace SchedOps SchedSystem SchedReach SchedLoad.

Module SchedSteps.

(** One task changes to [t]; only the processors that ran it or run it change. *)
Lemma invariant_update s m' cur' g t : Invariant s → slot g → Inv m' →
  (∀ g', slot g' → task m' g' = if bool_decide (g' = g) then t else task (c_machine s) g') →
  (∀ c, cur' !! c = Some g ↔ _running_cpu t = c ∧ c ≠ -1) → (state t = RUNNING ↔ _running_cpu t ≠ -1) →
  (∀ c g', g' ≠ g → cur' !! c = Some g' ↔ c_current s !! c = Some g') →
  (∀ c, cur' !! c = Some g → cpu c) → Invariant (mkConfig m' cur').
Proof.
  intros Hs Hg Hm Ht Hcur Hst Hother Hcpu. split; cbn; [done|..].
  - intros g' Hg'. unfold coherent. rewrite (Ht g' Hg'). case_bool_decide as E; [by subst g'|].
    destruct (all_coherent s Hs g' Hg') as [H1 H2]. split; [|done]. intros c. by rewrite Hother.
  - intros c g' E. destruct (decide (g' = g)) as [->|Hne]; [split; [by apply Hcpu|done]|].
    apply Hother in E; [|done]. by apply (all_current s Hs).
Qed.

(** The processors stay as they are. *)
Lemma invariant_touch s m' g t : Invariant s → slot g → Inv m' → Touch (c_machine s) g t m' →
  _running_cpu t = _running_cpu (at_slot s g) → (state t = RUNNING ↔ state (at_slot s g) = RUNNING) →
  Invariant (mkConfig m' (c_current s)).
Proof.
  intros Hs Hg Hm Ht Er Es. destruct (all_coherent s Hs g Hg) as [H1 H2]. unfold at_slot in *.
  apply (invariant_update s m' _ g t); [done|done|done| | | |done|].
  - intros g' Hg'. apply touch_task; [apply (base_shape _ (inv_base _ (all_inv s Hs)))|done..].
  - by rewrite Er.
  - by rewrite Er, Es.
  - intros c E. by apply (all_current s Hs c g).
Qed.

Lemma leave_returns s c g st woken deferred : Invariant s → c_current s !! c = Some g → leaving st →
  (woken = true → st = SLEEPING) → ∃ s', leave s c g st woken deferred = Ret s' ∧ Invariant s'.
Proof.
  intros Hs Ec Hl Hw. destruct (all_current s Hs c g Ec) as [Hc Hg]. pose proof (all_inv s Hs) as Hm.
  pose proof (base_shape _ (inv_base _ Hm)) as Hsh. destruct (all_coherent s Hs g Hg) as [Hcur Hrun].
  pose proof (proj1 (Hcur c) Ec) as [Er Hne]. assert (state (task (c_machine s) g) = RUNNING) as Est by (apply Hrun; by rewrite Er).
  unfold leave. destruct (switch_out_inv (c_machine s) c g st woken Hm Hg Est Er Hl Hw) as (m1 & t1 & -> & Ht1 & Hm1 & Er1 & Hl1).
  cbn [obind]. destruct (reap_inv m1 g deferred Hm1 Hg) as (m2 & t2 & -> & Ht2 & Hm2 & Er2 & Hs2). cbn [obind].
  rewrite (task_touch_self _ _ _ _ Hsh Hg Ht1) in Er2, Hs2. eexists. split; [done|].
  assert (state t2 ≠ RUNNING) as Hst2 by (apply Hs2; by destruct Hl1 as [->|[->|[->| ->]]]).
  assert (∀ c', c_current s !! c' = Some g → c' = c) as Honly.
  { intros c' E. apply Hcur in E as [E _]. congruence. }
  apply (invariant_update s m2 _ g t2); [done..| | | | |].
  - intros g' Hg'. apply touch_task; [done..|]. exact (task_touch_trans _ _ _ _ _ _ Ht1 Ht2).
  - intros c'. rewrite lookup_delete_Some, Er2, Er1. split; [|by intros [<- ?]]. intros [Hn E]. by rewrite (Honly c' E) in Hn.
  - rewrite Er2, Er1. done.
  - intros c' g' Hg'. rewrite lookup_delete_Some. split; [by intros [_ ?]|]. intros E. split; [|done]. intros <-. congruence.
  - intros c' [_ E]%lookup_delete_Some. by apply (all_current s Hs c' g).
Qed.

Lemma look_returns s c g p : Invariant s → cpu c → slot g → c_current s !! c = None →
  ∃ s', look s c g p = Ret s' ∧ Invariant s'.
Proof.
  intros Hs Hc Hg Ec. pose proof (all_inv s Hs) as Hm. destruct (all_coherent s Hs g Hg) as [Hcur Hrun]. unfold look.
  assert (state (task (c_machine s) g) = RUNNABLE → _running_cpu (task (c_machine s) g) = -1) as Hr.
  { intros E. destruct (decide (_running_cpu (task (c_machine s) g) = -1)) as [|Hne]; [done|]. apply Hrun in Hne. congruence. }
  pose proof (claim_inv (c_machine s) c g p Hm Hc Hg Hr) as H. destruct (_ && _ && _) eqn:E.
  2: { rewrite H. cbn [obind]. by eexists. }
  apply andb_true_iff in E as [[Er _]%andb_true_iff _]. apply bool_decide_eq_true in Er.
  assert (∀ c', c_current s !! c' ≠ Some g) as Hnone.
  { intros c' E. apply Hcur in E as [E Hne]. rewrite (Hr Er) in E. congruence. }
  destruct H as (m' & -> & Hm' & Ht & _). cbn [obind]. eexists. split; [done|].
  assert (c ≠ -1) as Hc1 by (intros ->; by destruct Hc).
  apply (invariant_update s m' _ g (claimed (task (c_machine s) g) c)); [done..| | | |].
  - intros c'. cbn. rewrite lookup_insert_Some. split.
    + intros [[<- _]|[_ E]]; [done|]. by apply Hnone in E.
    + intros [<- _]. by left.
  - done.
  - intros c' g' Hg'. rewrite lookup_insert_Some. split; [|intros E; right; split; [intros <-; congruence|done]].
    intros [[_ <-]|[_ E]]; [done|done].
  - intros c' [[<- _]|[_ E]]%lookup_insert_Some; [done|by apply Hnone in E].
Qed.

(** Every permitted operation returns, in particular no assertion of the scheduler
    fails, and keeps the invariant. *)
Lemma operation_returns s r : Invariant s → operation s r → ∃ s', r = Ret s' ∧ Invariant s'.
Proof.
  intros Hs Hop. pose proof (all_inv s Hs) as Hm.
  destruct Hop as [c g p Hc Hg Hn|c g st woken deferred Hcur Hl Hw|g Hg Hw|g p Hg|g w Hg Hu|g Hg Hu|parent child reset Hp Hc Hu Ec
    |g Hg He|g p Hg|c Hc|now]; unfold on_machine.
  - by apply look_returns.
  - by apply leave_returns.
  - destruct (set_state_inv (c_machine s) g RUNNABLE Hm Hg) as (m' & t & -> & Ht & Hh & Hm').
    { intros _. unfold at_slot, waiting in *. by destruct Hw as [->|[->| ->]]. }
    { done. }
    cbn [obind]. eexists. split; [done|]. apply (invariant_touch s m' g (with_state t RUNNABLE)); [done..| |].
    + exact (homed_running _ _ _ Hh).
    + unfold at_slot, waiting in *. by destruct Hw as [->|[->| ->]].
  - destruct (set_priority_inv (c_machine s) g p Hm Hg) as (m' & t & -> & Ht & Hm' & Es & Er).
    cbn [obind]. eexists. split; [done|]. apply (invariant_touch s m' g t); [done..|]. by rewrite Es.
  - destruct (set_affinity_inv (c_machine s) g w Hm Hg Hu) as (m' & x & t & -> & Ht & Hm' & Es & Er).
    cbn [obind]. eexists. split; [done|]. apply (invariant_touch s m' g t); [done..|]. by rewrite Es.
  - destruct (reset_inv (c_machine s) g USED Hm Hg eq_refl) as (m' & t & E & Ht & Hm' & Es & Er).
    unfold alloc_proc. rewrite E. cbn [obind]. eexists. split; [done|]. apply (invariant_touch s m' g t); [done..|]. by rewrite Es, Hu.
  - destruct (place_child_inv (c_machine s) parent child reset Hm Hp Hc Hu Ec) as (m' & t & -> & Ht & Hm' & Es & Er).
    cbn [obind]. eexists. split; [done|]. apply (invariant_touch s m' child t); [done..|]. by rewrite Es, Ec.
  - destruct (reset_inv (c_machine s) g UNUSED Hm Hg eq_refl) as (m' & t & E & Ht & Hm' & Es & Er).
    unfold freeproc. rewrite E. cbn [obind]. eexists. split; [done|]. apply (invariant_touch s m' g t); [done..|].
    rewrite Es. by destruct He as [-> | ->].
  - destruct (put_touch (c_machine s) g (with_block (at_slot s g) p)) as (m' & -> & Ht); [apply Hm|done..|].
    cbn [obind]. eexists. split; [done|]. apply (invariant_touch s m' g (with_block (at_slot s g) p)); [done..| |done|done|done].
    apply (touch_inv (c_machine s) g _ m' Hm Hg Ht). destruct (inv_task _ Hm g Hg). by split.
  - cbn [obind]. eexists. split; [done|]. split; [by apply online_inv| |apply Hs]. intros g Hg.
    unfold mark_current_online. destruct (negb _); by apply (all_coherent s Hs).
  - destruct (sample_returns (c_machine s) now (inv_base _ Hm)) as (l & last & b & ->). cbn [obind]. eexists. split; [done|].
    split; [by apply sched_loads_inv|apply (all_coherent s Hs)|apply Hs].
Qed.

Lemma sched_reachable_inv s : reachable s → Invariant s.
Proof.
  induction 1 as [possible online H|s s' _ IH Hop].
  - pose proof (boot_inv possible online H) as Hm. split; [done| |by intros c g E]. intros g Hg. unfold coherent. cbn.
    assert (task (boot possible online) g = mkTask no_pcb
      (if negb (Z.land possible k_cpu_capacity_mask =? 0) then Z.land possible k_cpu_capacity_mask else 1) 0 (-1) default_proc_prio) as ->.
    { unfold task, boot. cbn [pool]. apply lookup_total_replicate_2. unfold slot, num_process in *. lia. }
    cbn. split; [|by split]. intros c. split; [by rewrite lookup_empty|]. intros [<- ?]. done.
  - destruct (operation_returns s (Ret s') IH Hop) as (s1 & [= <-] & H). done.
Qed.

End SchedSteps.
