(* ===== verification/SchedPass.v ===== *)
(** * The tasks of a bitmap in the order they are visited *)
From S2P Require Import Prelude Sleep SleepRep SleepOps Scheduler SchedRep SchedOps SchedReach.
Import Sleep SleepRep SleepOps Scheduler SchedRep.

Module SchedScan.

(** ** Selections of the slots *)

Definition select (f : Z → bool) : list Z := List.filter f (seqZ 0 num_process).

Lemma elem_of_select f g : g ∈ select f ↔ slot g ∧ f g = true.
Proof. unfold select. rewrite list_elem_of_In, List.filter_In, <- list_elem_of_In, elem_of_seqZ. unfold slot. split; intros []; split; (done || lia). Qed.

Lemma select_ext f f' : (∀ g, slot g → f g = f' g) → select f = select f'.
Proof.
  intros H. apply List.filter_ext_in. intros g Hg. apply H. rewrite <- list_elem_of_In, elem_of_seqZ in Hg. done.
Qed.

Lemma filter_none (f : Z → bool) l : (∀ g, g ∈ l → f g = false) → List.filter f l = [].
Proof.
  induction l as [|g l IH]; intros H; cbn; [done|]. rewrite H by left. apply IH. intros g' Hg'. apply H. by right.
Qed.

Lemma select_none f : (∀ g, slot g → f g = false) → select f = [].
Proof. intros H. apply filter_none. intros g [Hg ?]%elem_of_seqZ. by apply H. Qed.

Lemma select_cut k f : 0 ≤ k ≤ num_process →
  select f = List.filter f (seqZ 0 k) ++ List.filter f (seqZ k (num_process - k)).
Proof.
  intros Hk. unfold select. replace num_process with (k + (num_process - k)) at 1 by lia.
  rewrite seqZ_app by lia. by rewrite List.filter_app, Z.add_0_l.
Qed.

(** What the first selection takes comes before what the second takes. *)
Lemma select_app k f f' : 0 ≤ k ≤ num_process →
  (∀ g, slot g → f g = true → g < k) → (∀ g, slot g → f' g = true → k ≤ g) →
  select (λ g, f g || f' g) = select f ++ select f'.
Proof.
  intros Hk H H'. rewrite (select_cut k) by done. f_equal.
  - rewrite (select_cut k f) by done. rewrite (filter_none f (seqZ k _)), app_nil_r.
    + apply List.filter_ext_in. intros g Hg. rewrite <- list_elem_of_In, elem_of_seqZ in Hg.
      destruct (f' g) eqn:E; [|apply orb_false_r]. apply H' in E; [lia|unfold slot; lia].
    + intros g Hg%elem_of_seqZ. apply not_true_is_false. intros E. apply H in E; [lia|unfold slot; lia].
  - rewrite (select_cut k f') by done. rewrite (filter_none f' (seqZ 0 k)), app_nil_l.
    + apply List.filter_ext_in. intros g Hg. rewrite <- list_elem_of_In, elem_of_seqZ in Hg.
      destruct (f g) eqn:E; [|done]. apply H in E; [lia|unfold slot; lia].
    + intros g Hg%elem_of_seqZ. apply not_true_is_false. intros E. apply H' in E; [lia|unfold slot; lia].
Qed.

Lemma select_one g : slot g → select (λ g', g' =? g) = [g].
Proof.
  intros Hg. rewrite (select_cut g) by (unfold slot in Hg; lia).
  rewrite (filter_none _ (seqZ 0 g)) by (intros g' Hg'%elem_of_seqZ; apply Z.eqb_neq; lia).
  rewrite seqZ_cons by (unfold slot in Hg; lia). cbn [app List.filter]. rewrite Z.eqb_refl. f_equal.
  apply filter_none. intros g' Hg'%elem_of_seqZ. apply Z.eqb_neq. lia.
Qed.

Lemma select_length f : (length (select f) ≤ 512)%nat.
Proof. change 512%nat with (length (seqZ 0 num_process)). apply List.filter_length_le. Qed.

Lemma find_app (f : Z → bool) l1 l2 :
  List.find f (l1 ++ l2) = match List.find f l1 with Some g => Some g | None => List.find f l2 end.
Proof. induction l1 as [|g l1 IH]; cbn; [done|]. by destruct (f g). Qed.

(** The first of a selection with a property is the lowest. *)
Lemma select_find f h g w : List.find f (select h) = Some g → w ∈ select h → f w = true → g ≤ w.
Proof.
  intros E [Hw Hh]%elem_of_select Hf. rewrite (select_cut (w + 1)), find_app in E by (unfold slot in Hw; lia).
  assert (w ∈ List.filter h (seqZ 0 (w + 1))) as Hin.
  { rewrite list_elem_of_In, List.filter_In, <- list_elem_of_In, elem_of_seqZ. split; [destruct Hw; lia|done]. }
  destruct (List.find f (List.filter h (seqZ 0 (w + 1)))) as [g'|] eqn:E'.
  - injection E as ->. apply List.find_some in E' as [Hg _]. rewrite List.filter_In, <- list_elem_of_In, elem_of_seqZ in Hg. lia.
  - rewrite list_elem_of_In in Hin. apply (List.find_none _ _ E') in Hin. congruence.
Qed.

#[global] Opaque select.

(** ** Words and ranges *)

Definition in_word (w v g : Z) : bool := (g / 64 =? w) && Z.testbit v (g mod 64).
Definition in_range (m : Machine) (c a b g : Z) : bool := (a <=? g) && (g <? b) && bit m c g.

(** The tasks of the bits [v] of the word [w]; the tasks of [c] from [a] to [b]. *)
Definition word_todo (w v : Z) : list Z := select (in_word w v).
Definition range_todo (m : Machine) (c a b : Z) : list Z := select (in_range m c a b).

Lemma word_todo_zero w : word_todo w 0 = [].
Proof. apply select_none. intros g _. unfold in_word. by rewrite Z.bits_0, andb_false_r. Qed.

Lemma range_todo_empty m c a b : b ≤ a → range_todo m c a b = [].
Proof.
  intros H. apply select_none. intros g _. unfold in_range. destruct (Z.leb_spec a g), (Z.ltb_spec g b); try done. lia.
Qed.

Lemma word_todo_next w v idx : 0 ≤ w < 8 → word_ok v → lowest v idx →
  word_todo w v = (w * 64 + idx) :: word_todo w (Z.land v (u64 (v - 1))).
Proof.
  intros Hw Hv Hl. destruct (Hl) as (Hidx & Hb & Hlow). destruct (word_bit w idx Hidx) as [Ed Em].
  assert (slot (w * 64 + idx)) as Hg by (unfold slot, num_process; lia).
  change (?x :: ?l) with ([x] ++ l). rewrite <- (select_one _ Hg). unfold word_todo.
  assert (∀ g, g = g / 64 * 64 + g mod 64 ∧ 0 ≤ g mod 64 < 64) as Hdiv.
  { intros g. pose proof (Z.div_mod g 64 ltac:(lia)). pose proof (Z.mod_pos_bound g 64 ltac:(lia)). lia. }
  rewrite <- (select_app (w * 64 + idx + 1)).
  - apply select_ext. intros g _. unfold in_word. destruct (Hdiv g) as [Eg Hm]. rewrite (clear_lowest v idx) by (done || lia).
    destruct (Z.eqb_spec g (w * 64 + idx)) as [->|Hne].
    + rewrite Ed, Em, Z.eqb_refl, Hb. done.
    + cbn [orb]. destruct (Z.eqb_spec (g / 64) w) as [E|]; [|done]. cbn [andb].
      rewrite bool_decide_eq_false_2 by lia. done.
  - unfold slot in Hg. lia.
  - intros g _ ->%Z.eqb_eq. lia.
  - intros g _. unfold in_word. destruct (Hdiv g) as [Eg Hm]. rewrite (clear_lowest v idx) by (done || lia).
    intros [E [Hne Ht]%andb_true_iff]%andb_true_iff. apply Z.eqb_eq in E. apply negb_true_iff, bool_decide_eq_false in Hne.
    destruct (decide (g mod 64 < idx)); [rewrite Hlow in Ht by lia; done|lia].
Qed.

(** The word [w] of the range from [a] to [b], and the rest of the range. *)
Lemma range_todo_word m c a b w v : 0 ≤ w < 8 → w * 64 ≤ a < (w + 1) * 64 → b ≤ num_process →
  (∀ n, 0 ≤ n < 64 → Z.testbit v n = (a <=? w * 64 + n) && (w * 64 + n <? b) && bit m c (w * 64 + n)) →
  range_todo m c a b = word_todo w v ++ range_todo m c ((w + 1) * 64) b.
Proof.
  intros Hw Ha Hb Hv. unfold range_todo, word_todo.
  assert (∀ g, g = g / 64 * 64 + g mod 64 ∧ 0 ≤ g mod 64 < 64) as Hdiv.
  { intros g. pose proof (Z.div_mod g 64 ltac:(lia)). pose proof (Z.mod_pos_bound g 64 ltac:(lia)). lia. }
  rewrite <- (select_app ((w + 1) * 64)).
  - apply select_ext. intros g Hg. unfold in_word, in_range. destruct (Hdiv g) as [Eg Hm].
    destruct (Z.eqb_spec (g / 64) w) as [E|Hne]; cbn [andb].
    + rewrite Hv by done. replace (w * 64 + g mod 64) with g by lia.
      destruct (Z.leb_spec ((w + 1) * 64) g); [lia|]. cbn [andb]. by rewrite orb_false_r.
    + cbn [orb]. destruct (Z.leb_spec a g), (Z.leb_spec ((w + 1) * 64) g); try done; lia.
  - unfold num_process. lia.
  - intros g _. unfold in_word. destruct (Hdiv g) as [Eg Hm]. intros [E%Z.eqb_eq _]%andb_true_iff. lia.
  - intros g _. unfold in_range. intros [[E%Z.leb_le _]%andb_true_iff _]%andb_true_iff. done.
Qed.

(** The runnable tasks of [c] in the order of a pass that begins at the slot [b]. *)
Definition turns (m : Machine) (c b : Z) : list Z := range_todo m c b num_process ++ range_todo m c 0 b.

Definition cursor (m : Machine) (c : Z) : Z := _next_scan_global_id (sched m) !!! Z.to_nat c.

Lemma elem_of_turns m c b g : slot b → g ∈ turns m c b ↔ slot g ∧ bit m c g = true.
Proof.
  intros Hb. unfold turns, range_todo. rewrite elem_of_app, !elem_of_select. unfold in_range, slot in *.
  rewrite !andb_true_iff, !Z.leb_le, !Z.ltb_lt. split; [tauto|]. intros [Hg Hbit]. destruct (decide (b ≤ g)); [left|right]; repeat split; (done || lia).
Qed.

(** ** Loading a word *)

Lemma runnable_slot_word_spec m c w : Shape m → cpu c → 0 ≤ w < 8 →
  ∃ v, runnable_slot_word m c w = Ret v ∧ word_ok v ∧ ∀ n, 0 ≤ n < 64 → Z.testbit v n = bit m c (w * 64 + n).
Proof.
  intros [_ Hr _ _] Hc Hw. unfold runnable_slot_word. rewrite (proj2 (Z.leb_gt _ _)) by apply Hc.
  change k_runnable_slot_word_count with 8. rewrite (proj2 (Z.leb_gt _ _)) by lia. cbn [orb].
  destruct (row_lookup 8 _ c Hr Hc) as [-> Hws]. cbn [obind]. destruct (word_lookup _ w Hws Hw) as [-> Hv].
  eexists. split; [done|]. split; [done|]. intros n Hn. unfold bit, member, bit_at.
  by destruct (word_bit w n Hn) as [-> ->].
Qed.

Lemma testbit_cut_low v b n : 0 ≤ n < 64 → Z.testbit (cut_low v b) n = Z.testbit v n && (b mod 64 <=? n).
Proof.
  intros Hn. unfold cut_low. pose proof (Z.mod_pos_bound b 64 ltac:(lia)) as Hb.
  rewrite Z.land_spec, testbit_u64, bool_decide_eq_true_2, Z.shiftl_spec by lia. cbn [andb]. f_equal.
  change (2 ^ 64 - 1) with (Z.ones 64). destruct (Z.leb_spec (b mod 64) n).
  - rewrite Z.testbit_ones_nonneg by lia. apply Z.ltb_lt. lia.
  - by rewrite Z.testbit_neg_r by lia.
Qed.

Lemma testbit_cut_high v e n : 0 ≤ n < 64 →
  Z.testbit (cut_high v e) n = Z.testbit v n && ((e mod 64 =? 0) || (n <? e mod 64)).
Proof.
  intros Hn. unfold cut_high. destruct (Z.eqb_spec (e mod 64) 0) as [|Hne]; cbn [negb orb]; [by rewrite andb_true_r|].
  pose proof (Z.mod_pos_bound e 64 ltac:(lia)) as He.
  rewrite Z.shiftl_1_l, (u64_small (2 ^ _)).
  2: { split; [apply Z.pow_nonneg; lia|apply Z.pow_lt_mono_r; lia]. }
  rewrite Z.land_spec, testbit_u64, bool_decide_eq_true_2 by lia. cbn [andb]. f_equal.
  replace (2 ^ (e mod 64) - 1) with (Z.ones (e mod 64)) by (rewrite Z.ones_equiv; lia).
  rewrite Z.testbit_ones_nonneg by lia. done.
Qed.

Lemma load_active_spec m c a b w : Shape m → cpu c → 0 ≤ a < b → b ≤ num_process → a / 64 ≤ w ≤ (b - 1) / 64 →
  ∃ v, load_active m c a b w = Ret v ∧ word_ok v ∧
    ∀ n, 0 ≤ n < 64 → Z.testbit v n = (a <=? w * 64 + n) && (w * 64 + n <? b) && bit m c (w * 64 + n).
Proof.
  intros Hs Hc Ha Hb Hw. unfold load_active.
  assert (0 ≤ w < 8) as Hw8.
  { pose proof (Z.div_pos a 64 ltac:(lia) ltac:(lia)). assert ((b - 1) / 64 < 8) by (apply Z.div_lt_upper_bound; unfold num_process in Hb; lia). lia. }
  destruct (runnable_slot_word_spec m c w Hs Hc Hw8) as (v & -> & Hv & Hbit). cbn [obind]. eexists. split; [done|]. split.
  - assert (word_ok (if w =? a / 64 then cut_low v a else v)) as Hlow.
    { destruct (_ =? _); [|done]. apply word_ok_land; [done|apply u64_range]. }
    revert Hlow. generalize (if w =? a / 64 then cut_low v a else v). intros v1 Hv1.
    destruct (_ =? _); [|done]. unfold cut_high. destruct (negb _); [|done]. apply word_ok_land; [done|apply u64_range].
  - intros n Hn. pose proof (Z.div_mod a 64 ltac:(lia)) as Ea. pose proof (Z.mod_pos_bound a 64 ltac:(lia)).
    pose proof (Z.div_mod b 64 ltac:(lia)) as Eb. pose proof (Z.mod_pos_bound b 64 ltac:(lia)).
    pose proof (Z.div_mod (b - 1) 64 ltac:(lia)) as Eb1. pose proof (Z.mod_pos_bound (b - 1) 64 ltac:(lia)).
    assert (Z.testbit (if w =? a / 64 then cut_low v a else v) n = (a <=? w * 64 + n) && bit m c (w * 64 + n)) as Elow.
    { destruct (Z.eqb_spec w (a / 64)) as [Ew|Ew].
      - rewrite testbit_cut_low, Hbit by done. rewrite andb_comm. f_equal. apply eq_true_iff_eq. rewrite !Z.leb_le. lia.
      - rewrite Hbit by done. rewrite (proj2 (Z.leb_le a _)) by lia. done. }
    destruct (Z.eqb_spec w ((b - 1) / 64)) as [Ew|Ew].
    + rewrite testbit_cut_high, Elow by done. rewrite <- !andb_assoc. f_equal. rewrite andb_comm. f_equal.
      apply eq_true_iff_eq. rewrite orb_true_iff, Z.eqb_eq, !Z.ltb_lt. lia.
    + rewrite Elow, (proj2 (Z.ltb_lt _ b)) by lia. by rewrite andb_true_r.
Qed.

End SchedScan.

(** * A pass of the scheduler takes the next task in turn *)
Import Sleep SleepRep SleepOps Scheduler SchedRep SchedPlace SchedOps SchedSystem SchedReach SchedScan.

Module SchedPass.

Lemma trailing_zero_lowest v : word_ok v → v ≠ 0 → lowest v (trailing_zero_count_nonzero v).
Proof. exact (active_slot_bit_index_lowest v). Qed.

Lemma lowest_slot w v idx : 0 ≤ w < 8 → lowest v idx → slot (w * 64 + idx).
Proof. intros Hw (Hi & _). unfold slot, num_process. lia. Qed.

Section pass.
Context (locked : Z → bool) (m : Machine) (c : Z).
Hypothesis Hm : Inv m.
Hypothesis Hc : cpu c.

Let Hs : Shape m := base_shape m (inv_base m Hm).

(** ** [get_highest_priority] *)

(** The priority after a look at the task [g]. *)
Definition look_at (prio g : Z) : Z := if locked g then prio else better_priority m c (task m g) prio.

Lemma highest_in_word_spec n w v prio : 0 ≤ w < 8 → word_ok v → bits_from v (64 - Z.of_nat n) →
  highest_in_word locked n m c w v prio = Ret (fold_left look_at (word_todo w v) prio).
Proof.
  intros Hw. revert v prio. induction n as [|n IH]; intros v prio Hv Hfrom.
  - assert (v = 0) as -> by (by apply (bits_from_end v (64 - Z.of_nat 0))). by rewrite word_todo_zero.
  - cbn [highest_in_word]. destruct (Z.eqb_spec v 0) as [->|Hne]; [by rewrite word_todo_zero|].
    pose proof (trailing_zero_lowest v Hv Hne) as Hl. set (idx := trailing_zero_count_nonzero v) in *.
    pose proof (lowest_slot w v idx Hw Hl) as Hg. rewrite (proj2 (Z.leb_gt _ _)) by apply Hg.
    rewrite (proj2 (task_lookup m _ Hs Hg)), (word_todo_next w v idx) by done. cbn [obind fold_left].
    assert (word_ok (Z.land v (u64 (v - 1)))) as Hv' by (apply word_ok_land; [done|apply u64_range]).
    assert (bits_from (Z.land v (u64 (v - 1))) (64 - Z.of_nat n)) as Hfrom'.
    { replace (64 - Z.of_nat n) with (64 - Z.of_nat (S n) + 1) by lia. eapply bits_from_next; [done|done|].
      intros k Hk. by apply clear_lowest. }
    destruct (locked (w * 64 + idx)) eqn:El.
    + replace (look_at prio (w * 64 + idx)) with prio by (unfold look_at; by rewrite El). by apply IH.
    + replace (look_at prio (w * 64 + idx)) with (better_priority m c (task m (w * 64 + idx)) prio)
        by (unfold look_at; by rewrite El). by apply IH.
Qed.

(** A task that the scheduler of [c] may run, if its priority permits. *)
Definition candidate (g : Z) : Prop :=
  slot g ∧ bit m c g = true ∧ locked g = false ∧ can_schedule_on_cpu m (task m g) c = true.

Lemma bit_runnable g : slot g → bit m c g = true → state (task m g) = RUNNABLE ∧ _last_cpu (task m g) = c.
Proof.
  intros Hg. rewrite (agree_bit m (base_agree m (inv_base m Hm))) by done. unfold queued.
  intros [E1 E2]%andb_true_iff. by rewrite bool_decide_eq_true in E1; rewrite Z.eqb_eq in E2.
Qed.

Definition least_priority (l : list Z) (start prio : Z) : Prop :=
  prio ≤ start ∧ (∀ g, g ∈ l → candidate g → prio ≤ effective_schedule_priority (task m g)) ∧
  (prio = start ∨ ∃ g, candidate g ∧ effective_schedule_priority (task m g) = prio).

Lemma fold_least l start : (∀ g, g ∈ l → slot g ∧ bit m c g = true) → least_priority l start (fold_left look_at l start).
Proof.
  revert start. induction l as [|g l IH]; intros start Hl; cbn [fold_left].
  - split_and!; [lia| |by left]. intros g Hg. by apply elem_of_nil in Hg.
  - destruct (Hl g ltac:(left)) as [Hg Hb]. destruct (bit_runnable g Hg Hb) as [Er _].
    destruct (IH (look_at start g)) as (H1 & H2 & H3); [intros g' ?; apply Hl; by right|].
    assert (look_at start g ≤ start ∧ (candidate g → look_at start g ≤ effective_schedule_priority (task m g)) ∧
      (look_at start g = start ∨ candidate g ∧ effective_schedule_priority (task m g) = look_at start g)) as (L1 & L2 & L3).
    { unfold look_at, better_priority, candidate. rewrite Er, (bool_decide_eq_true_2 (RUNNABLE = RUNNABLE)), andb_true_r by done.
      destruct (locked g); [by split_and!; [lia|intros (_ & _ & ? & _)|left]|].
      destruct (Z.ltb_spec (effective_schedule_priority (task m g)) start); cbn [andb]; [|split_and!; [lia|lia|by left]].
      destruct (can_schedule_on_cpu m (task m g) c); [|by split_and!; [lia|intros (_ & _ & _ & ?)|left]].
      split_and!; [lia|lia|]. by right. }
    split_and!; [lia| |].
    + intros g' [->|Hg']%elem_of_cons Hcand; [specialize (L2 Hcand); lia|by apply H2].
    + destruct H3 as [->|H3]; [|by right]. destruct L3 as [L3|L3]; [by left|right; by exists g].
Qed.

Lemma get_highest_priority_spec : ∃ prio, get_highest_priority locked m c = Ret prio ∧
  if non_default m =? 0 then prio = default_proc_prio
  else prio ≤ lowest_proc_prio ∧ (∀ g, candidate g → prio ≤ effective_schedule_priority (task m g)) ∧
    (prio = lowest_proc_prio ∨ ∃ g, candidate g ∧ effective_schedule_priority (task m g) = prio).
Proof.
  unfold get_highest_priority. fold (non_default m). destruct (non_default m =? 0); [by eauto|].
  change k_runnable_slot_word_count with 8.
  destruct (for_up_inv (λ word_index prio, let! runnable_bits := runnable_slot_word m c word_index in
      highest_in_word locked 64 m c word_index runnable_bits prio)
    (λ k prio, prio = fold_left look_at (range_todo m c 0 (k * 64)) lowest_proc_prio) 0 8 lowest_proc_prio)
    as (prio & -> & ->); [done|by rewrite range_todo_empty| |].
  - intros k prio Hk ->. destruct (runnable_slot_word_spec m c k Hs Hc Hk) as (v & -> & Hv & Hbit). cbn [obind].
    rewrite highest_in_word_spec by (done || (intros n ? _; lia)). eexists. split; [done|].
    rewrite <- fold_left_app. f_equal. unfold range_todo, word_todo. rewrite <- (select_app (k * 64)).
    + apply select_ext. intros g Hg. unfold in_range, in_word. pose proof (Z.div_mod g 64 ltac:(lia)) as Eg.
      pose proof (Z.mod_pos_bound g 64 ltac:(lia)) as Hmod. rewrite !(proj2 (Z.leb_le 0 g)) by apply Hg. cbn [andb].
      rewrite Hbit by done. destruct (Z.eqb_spec (g / 64) k) as [E|Hne]; cbn [andb].
      * replace (k * 64 + g mod 64) with g by lia. rewrite (proj2 (Z.ltb_ge g (k * 64))), (proj2 (Z.ltb_lt g _)) by lia. done.
      * rewrite orb_false_r. f_equal. apply eq_true_iff_eq. rewrite !Z.ltb_lt. lia.
    + unfold num_process. lia.
    + intros g _. unfold in_range. by intros [[_ E%Z.ltb_lt]%andb_true_iff _]%andb_true_iff.
    + intros g _. unfold in_word. intros [E%Z.eqb_eq _]%andb_true_iff. pose proof (Z.div_mod g 64 ltac:(lia)).
      pose proof (Z.mod_pos_bound g 64 ltac:(lia)). lia.
  - eexists. split; [done|]. destruct (fold_least (range_todo m c 0 (8 * 64)) lowest_proc_prio) as (H1 & H2 & H3).
    + intros g [Hg H]%elem_of_select. split; [done|]. unfold in_range in H. by apply andb_true_iff in H as [_ ?].
    + split_and!; [done| |done]. intros g Hcand. apply H2; [|done]. destruct Hcand as (Hg & Hb & _).
      apply elem_of_select. split; [done|]. unfold in_range. rewrite Hb. destruct Hg. unfold num_process in *.
      by rewrite (proj2 (Z.leb_le 0 g)), (proj2 (Z.ltb_lt g _)) by lia.
Qed.

(** ** The pass *)

(** The tasks a pass has still to look at. *)
Definition todo (p : Pass) : list Z :=
  word_todo (p_word p) (p_bits p) ++ range_todo m c ((p_word p + 1) * 64) (p_end p) ++
  (if p_second p then [] else range_todo m c 0 (p_scan_begin p)).

(** A pass in progress. *)
Record pass_ok (p : Pass) : Prop := {
  ok_begin : slot (p_scan_begin p);
  ok_end : p_end p = if p_second p then p_scan_begin p else num_process;
  ok_word : p_bits p = 0 ∧ p_word p = (p_end p - 1) / 64 ∨
            0 ≤ p_word p ≤ (p_end p - 1) / 64 ∧ (if p_second p then 0 else p_scan_begin p) / 64 ≤ p_word p;
  ok_bits : word_ok (p_bits p)
}.

(** Turns that do not look at a task. *)
Definition words_left (p : Pass) : nat := Z.to_nat ((p_end p - 1) / 64 - p_word p) + (if p_second p then 1 else 10).

Lemma open_range_spec a b p second : 0 ≤ a → 0 ≤ b ≤ num_process →
  ∃ p', open_range m c a b p second = Ret p' ∧
    word_todo (p_word p') (p_bits p') ++ range_todo m c ((p_word p' + 1) * 64) b = range_todo m c a b ∧
    p_priority p' = p_priority p ∧ p_scan_begin p' = p_scan_begin p ∧ p_end p' = b ∧ p_second p' = second ∧ p_ran p' = p_ran p ∧
    word_ok (p_bits p') ∧
    (p_bits p' = 0 ∧ p_word p' = (b - 1) / 64 ∨ a / 64 ≤ p_word p' ≤ (b - 1) / 64 ∧ p_word p' = a / 64).
Proof.
  intros Ha Hb. unfold open_range. destruct (Z.leb_spec b a) as [Hle|Hlt].
  - eexists. split; [done|]. cbn. split_and!; [|done..|by left]. rewrite word_todo_zero, (range_todo_empty m c a) by done. cbn.
    apply range_todo_empty. pose proof (Z.div_mod (b - 1) 64 ltac:(lia)). pose proof (Z.mod_pos_bound (b - 1) 64 ltac:(lia)). lia.
  - assert (a / 64 ≤ (b - 1) / 64) as Hd by (apply Z.div_le_mono; lia).
    destruct (load_active_spec m c a b (a / 64) Hs Hc ltac:(lia) ltac:(lia) ltac:(lia)) as (v & -> & Hv & Hbit). cbn [obind].
    eexists. split; [done|]. cbn. split_and!; [|done..|by right]. symmetry. apply range_todo_word; [..|done].
    + split; [apply Z.div_pos; lia|apply Z.div_lt_upper_bound; unfold num_process in Hb; lia].
    + pose proof (Z.div_mod a 64 ltac:(lia)). pose proof (Z.mod_pos_bound a 64 ltac:(lia)). lia.
    + lia.
Qed.

(** The scheduler takes the task [g]. *)
Definition ready (prio g : Z) : bool :=
  negb (locked g) && (bool_decide (state (task m g) = RUNNABLE) && can_schedule_on_cpu m (task m g) c
    && (effective_schedule_priority (task m g) <=? prio)).

Hypothesis Hidle : ∀ g, slot g → state (task m g) = RUNNABLE → _running_cpu (task m g) = -1.

(** A turn that looks at no task. *)
Lemma pass_step_word p : pass_ok p → p_bits p = 0 →
  todo p = [] ∧ pass_step locked m c p = Ret (m, Over (p_ran p)) ∨
  ∃ p', pass_step locked m c p = Ret (m, Continue p') ∧ pass_ok p' ∧ todo p' = todo p ∧
    p_priority p' = p_priority p ∧ p_ran p' = p_ran p ∧ (words_left p' < words_left p)%nat.
Proof.
  intros [Hb He Hw Hv] E0. unfold pass_step. rewrite E0, Z.eqb_refl.
  assert (0 ≤ p_end p ≤ num_process) as Hend by (rewrite He; unfold slot in Hb; destruct (p_second p); lia).
  assert ((p_end p - 1) / 64 < 8) as H8 by (apply Z.div_lt_upper_bound; unfold num_process in Hend; lia).
  set (a := if p_second p then 0 else p_scan_begin p) in *. assert (0 ≤ a) as Ha by (unfold a, slot in *; destruct (p_second p); lia).
  destruct (Z.ltb_spec (p_word p) ((p_end p - 1) / 64)) as [Hlt|Hge].
  - right. destruct Hw as [[_ Hw]|[Hw Haw]]; [lia|].
    assert (a < (p_word p + 1) * 64) as Haw' by (pose proof (Z.div_mod a 64 ltac:(lia)); pose proof (Z.mod_pos_bound a 64 ltac:(lia)); lia).
    pose proof (Z.div_mod (p_end p - 1) 64 ltac:(lia)) as Ed. pose proof (Z.mod_pos_bound (p_end p - 1) 64 ltac:(lia)).
    destruct (load_active_spec m c a (p_end p) (p_word p + 1) Hs Hc ltac:(lia) ltac:(lia) ltac:(lia)) as (v & -> & Hv' & Hbit). cbn [obind].
    eexists. split; [done|]. split_and!; [|unfold todo; cbn|done|done|unfold words_left; cbn; lia].
    + split; cbn; [done|done|right; fold a; lia|done].
    + rewrite E0, word_todo_zero, app_nil_l, app_assoc. f_equal. symmetry. apply range_todo_word; [lia|lia|lia|].
      intros n Hn. rewrite Hbit by done. f_equal. f_equal. apply eq_true_iff_eq. rewrite !Z.leb_le. lia.
  - assert (word_todo (p_word p) (p_bits p) ++ range_todo m c ((p_word p + 1) * 64) (p_end p) = []) as Eempty.
    { rewrite E0, word_todo_zero. apply range_todo_empty.
      pose proof (Z.div_mod (p_end p - 1) 64 ltac:(lia)). pose proof (Z.mod_pos_bound (p_end p - 1) 64 ltac:(lia)). lia. }
    unfold todo. rewrite app_assoc, Eempty, app_nil_l. destruct (p_second p) eqn:Esec; [by left|right].
    destruct (open_range_spec 0 (p_scan_begin p) p true) as (p' & -> & Ht & E1 & E2 & E3 & E4 & E5 & Hv' & Hw'); [done|destruct Hb; lia|].
    cbn [obind]. exists p'. split; [done|]. split_and!; [|by rewrite E4, app_nil_r, E3|done|done|].
    + split; [by rewrite E2|by rewrite E4, E2|rewrite E3, E4|done]. destruct Hw' as [?|[H1 H2]]; [by left|right]. rewrite H2 in *. done.
    + unfold words_left. rewrite E3, E4, Esec. unfold slot, num_process in Hb.
      assert ((p_scan_begin p - 1) / 64 < 8) by (apply Z.div_lt_upper_bound; lia).
      destruct Hw' as [[_ ->]|[_ ->]]; [lia|change (0 / 64) with 0; lia].
Qed.

(** A turn that looks at the next task. *)
Lemma pass_step_task p : pass_ok p → p_bits p ≠ 0 →
  ∃ g p', todo p = g :: todo p' ∧ pass_ok p' ∧ p_priority p' = p_priority p ∧ p_ran p' = p_ran p ∧ words_left p' = words_left p ∧
    if ready (p_priority p) g
    then ∃ m', pass_step locked m c p = Ret (m', Switch g p') ∧ claim m c g (p_priority p) = Ret (Some m')
    else pass_step locked m c p = Ret (m, Continue p').
Proof.
  intros [Hb He Hw Hv] Hne. unfold pass_step. rewrite (proj2 (Z.eqb_neq _ _) Hne).
  destruct Hw as [[? _]|[Hw Haw]]; [done|].
  assert (0 ≤ p_word p < 8) as H8.
  { assert ((p_end p - 1) / 64 < 8); [|lia]. apply Z.div_lt_upper_bound; [lia|]. rewrite He.
    unfold slot, num_process in *. destruct (p_second p); lia. }
  pose proof (trailing_zero_lowest _ Hv Hne) as Hl. set (idx := trailing_zero_count_nonzero (p_bits p)) in *. cbn zeta.
  set (p' := mkPass _ _ _ _ _ _ _). set (g := p_word p * 64 + idx). change (p_word p' * 64 + idx) with g.
  assert (slot g) as Hg by (by apply (lowest_slot _ (p_bits p))).
  exists g, p'. split_and!; [|split; cbn; [done|done|by right|apply word_ok_land; [done|apply u64_range]]|done|done|done|].
  - unfold todo. cbn. by rewrite (word_todo_next _ _ idx).
  - unfold ready. destruct (locked g); cbn [negb andb]; [done|]. change (p_priority p') with (p_priority p).
    pose proof (claim_inv m c g (p_priority p) Hm Hc Hg (Hidle g Hg)) as Hcl.
    destruct (_ && _ && _).
    + destruct Hcl as (m' & -> & _). cbn [obind]. by exists m'.
    + by rewrite Hcl.
Qed.

(** The turns up to a switch, or to the end of the pass. *)
Lemma pass_run_spec fuel p : pass_ok p → (length (todo p) + words_left p < fuel)%nat →
  match List.find (ready (p_priority p)) (todo p) with
  | Some g => ∃ m' p', pass_run locked fuel m c p = Ret (m', Switch g p') ∧ claim m c g (p_priority p) = Ret (Some m')
  | None => pass_run locked fuel m c p = Ret (m, Over (p_ran p))
  end.
Proof.
  revert p. induction fuel as [|fuel IH]; intros p Hp Hf; [lia|]. cbn [pass_run].
  destruct (decide (p_bits p = 0)) as [E0|Hne].
  - destruct (pass_step_word p Hp E0) as [[-> ->]|(p' & -> & Hp' & Et & Ep & Er & Hlt)]; [done|]. cbn [obind].
    specialize (IH p' Hp'). rewrite Et, Ep, Er in IH. apply IH. lia.
  - destruct (pass_step_task p Hp Hne) as (g & p' & Et & Hp' & Ep & Er & Ew & H). rewrite Et in *. cbn [List.find length] in *.
    destruct (ready (p_priority p) g).
    + destruct H as (m' & -> & Hcl). cbn [obind]. eauto.
    + rewrite H. cbn [obind]. specialize (IH p' Hp'). rewrite Ep, Er in IH. apply IH. lia.
Qed.

(** ** Whole passes *)

(** Two ranges of at most 512 tasks, and their words. *)
Definition pass_fuel : nat := 1100.

Lemma pass_spec prio : get_highest_priority locked m c = Ret prio →
  ∃ p, pass_start locked m c = Ret p ∧
  match List.find (ready prio) (turns m c (cursor m c)) with
  | Some g => ∃ m' p', pass_run locked pass_fuel m c p = Ret (m', Switch g p') ∧ claim m c g prio = Ret (Some m')
  | None => pass_run locked pass_fuel m c p = Ret (m, Over false)
  end.
Proof.
  intros Hprio. unfold pass_start. rewrite Hprio. cbn [obind]. pose proof (inv_scan m Hm c Hc) as Hcur. fold (cursor m c) in Hcur.
  assert (aget (_next_scan_global_id (sched m)) c = Ret (cursor m c)) as ->.
  { apply aget_total. rewrite (shape_scan m Hs). unfold cpu, NUMCPU in Hc. lia. }
  cbn [obind]. rewrite Z.mod_small by exact Hcur. set (p0 := mkPass _ _ _ _ _ _ _).
  destruct (open_range_spec (cursor m c) num_process p0 false) as (p & -> & Ht & E1 & E2 & E3 & E4 & E5 & Hv & Hw); [apply Hcur|done|].
  exists p. split; [done|]. assert (todo p = turns m c (cursor m c)) as Et.
  { unfold todo, turns. by rewrite app_assoc, E3, Ht, E4, E2. }
  rewrite <- Et. change prio with (p_priority p0). rewrite <- E1. change false with (p_ran p0). rewrite <- E5. apply pass_run_spec.
  - split; [by rewrite E2|by rewrite E4|rewrite E3, E4, E2|done]. destruct Hw as [?|[H1 H2]]; [by left|right]. split; [|by rewrite H2].
    split; [|lia]. rewrite H2. apply Z.div_pos; [apply Hcur|lia].
  - rewrite Et. unfold turns. rewrite length_app. unfold range_todo.
    pose proof (select_length (in_range m c (cursor m c) num_process)). pose proof (select_length (in_range m c 0 (cursor m c))).
    unfold words_left, pass_fuel. rewrite E3, E4. assert (Z.to_nat ((num_process - 1) / 64 - p_word p) ≤ 8)%nat; [|lia].
    change ((num_process - 1) / 64) with 7. destruct Hw as [[_ ->]|[_ ->]]; [change ((num_process - 1) / 64) with 7; lia|].
    pose proof (Z.div_pos (cursor m c) 64 (proj1 Hcur) ltac:(lia)). lia.
Qed.

(** With a candidate there is one that is ready. *)
Lemma candidate_ready prio g : get_highest_priority locked m c = Ret prio → candidate g →
  ∃ g', candidate g' ∧ ready prio g' = true.
Proof.
  intros Hprio Hcand. assert (∀ g', candidate g' → effective_schedule_priority (task m g') ≤ prio → ready prio g' = true) as Hready.
  { intros g' (Hg & Hbit & Hl & Hcan) Hle. unfold ready. destruct (bit_runnable g' Hg Hbit) as [Er _].
    rewrite Hl, Hcan, (bool_decide_eq_true_2 _ Er), (proj2 (Z.leb_le _ _) Hle). done. }
  assert (∀ g', candidate g' → effective_schedule_priority (task m g') ≤ Z.max highest_proc_prio (_priority (task m g'))) as Heff.
  { intros g' _. unfold effective_schedule_priority. destruct (has_unmasked_signal_pending _); lia. }
  destruct get_highest_priority_spec as (prio' & E & H). rewrite E in Hprio. injection Hprio as ->.
  destruct (Z.eqb_spec (non_default m) 0) as [E0|_].
  - exists g. split; [done|]. apply Hready; [done|]. specialize (Heff g Hcand). destruct Hcand as (Hg & Hbit & _).
    destruct (bit_runnable g Hg Hbit) as [Er _]. rewrite H. assert (_priority (task m g) = default_proc_prio) as Ep.
    { destruct (Z.eqb_spec (_priority (task m g)) default_proc_prio) as [|Hne]; [done|].
      assert (special (task m g) = true) as Hsp by (unfold special; rewrite Er, (proj2 (Z.eqb_neq _ _) Hne); done).
      pose proof (non_default_positive m g (inv_base m Hm) Hg Hsp). lia. }
    rewrite Ep in Heff. unfold highest_proc_prio, default_proc_prio in *. lia.
  - destruct H as (_ & _ & [->|(g' & Hcand' & Ee)]).
    + exists g. split; [done|]. apply Hready; [done|]. specialize (Heff g Hcand). destruct Hcand as (Hg & _).
      pose proof (ok_priority _ _ (inv_task m Hm g Hg)) as Hp. unfold highest_proc_prio, lowest_proc_prio in *. lia.
    + exists g'. split; [done|]. apply Hready; [done|lia].
Qed.
End pass.
End SchedPass.
