(* ===== verification/SchedCorrect.v ===== *)
(** * Correctness of the scheduler

    For every state that any interleaving of the operations of [SchedSystem] reaches:
    no task runs on two processors and no assertion fails, the tables of the scheduler
    are exact, every runnable task is on the queue of the one processor that will run
    it, and a pass of that processor takes the tasks in turn and finds one whenever
    there is one. *)
From S2P Require Import Prelude Sleep SleepRep SleepOps Scheduler SchedRep SchedOps SchedReach SchedPass.
Import Sleep SleepRep SleepOps Scheduler SchedRep SchedPlace SchedOps SchedSystem SchedReach SchedLoad SchedSteps SchedScan SchedPass.

Module SchedCorrect.

(** ** A run to evaluate the theorems on *)

Definition signalled (p : Pcb) (signals : Z) : Pcb := with_signals p (_killed p) signals (_sigmask p) (_sigactions p).

Inductive Command :=
  | Alloc (g : Z)
  | Wake (g : Z)
  | Look (c g : Z)
  | Leave (c g : Z) (st : ProcState)
  | Nice (g p : Z)
  | Signal (g signals : Z).

#[export] Instance waiting_dec st : Decision (waiting st).
Proof. unfold waiting. apply _. Defined.
#[export] Instance leaving_dec st : Decision (leaving st).
Proof. unfold leaving. apply _. Defined.
#[export] Instance cpu_dec c : Decision (cpu c).
Proof. unfold cpu. apply _. Defined.
#[export] Instance slot_dec g : Decision (slot g).
Proof. unfold slot. apply _. Defined.

Definition permitted (s : Config) (x : Command) : bool :=
  match x with
  | Alloc g => bool_decide (slot g ∧ state (at_slot s g) = UNUSED)
  | Wake g => bool_decide (slot g ∧ waiting (state (at_slot s g)))
  | Look c g => bool_decide (cpu c ∧ slot g ∧ c_current s !! c = None)
  | Leave c g st => bool_decide (c_current s !! c = Some g ∧ leaving st)
  | Nice g p => bool_decide (slot g)
  | Signal g _ => bool_decide (slot g)
  end.

Definition perform (s : Config) (x : Command) : outcome Config :=
  match x with
  | Alloc g => on_machine s (alloc_proc (c_machine s) g)
  | Wake g => on_machine s (set_task_state (c_machine s) g RUNNABLE)
  | Look c g => look s c g lowest_proc_prio
  | Leave c g st => leave s c g st false false
  | Nice g p => on_machine s (set_priority (c_machine s) g p)
  | Signal g signals => on_machine s (put_task (c_machine s) g (with_block (at_slot s g) (signalled (block (at_slot s g)) signals)))
  end.

Fixpoint run (s : Config) (l : list Command) : option Config :=
  match l with
  | [] => Some s
  | x :: l => if permitted s x then match perform s x with Ret s => run s l | _ => None end else None
  end.

Lemma run_reachable s l s' : reachable s → run s l = Some s' → reachable s'.
Proof.
  revert s. induction l as [|x l IH]; intros s Hs E; cbn [run] in E; [by injection E as <-|].
  destruct (permitted s x) eqn:Hp; [|done]. destruct (perform s x) as [s1| | |] eqn:Hx; try done.
  apply (IH s1); [|done]. apply (reachable_step s s1 Hs). rewrite <- Hx.
  destruct x; apply bool_decide_eq_true in Hp; cbn [perform].
  - destruct Hp. by apply op_alloc.
  - destruct Hp. by apply op_wake.
  - destruct Hp as (? & ? & ?). by apply op_look.
  - destruct Hp. by apply op_leave.
  - by apply op_priority.
  - by apply op_block.
Qed.

Definition start : Config := mkConfig (boot 3 3) ∅.

Lemma start_reachable : reachable start.
Proof. by apply reachable_boot. Qed.

(** Two processors; the tasks 5 and 6 wait for processor 0 and the task 7, with a higher
    nice value, for processor 1, which runs the task 8. *)
Definition demo : list Command :=
  [Alloc 5; Wake 5; Alloc 8; Wake 8; Alloc 6; Wake 6; Look 1 8; Alloc 7; Wake 7; Nice 7 3].

(** What the witnesses below evaluate. *)
Definition check (s : Config) (l : list Command) (f : Config → bool) : bool :=
  match run s l with Some s => f s | None => false end.

Lemma check_run s l f : reachable s → check s l f = true → ∃ s', run s l = Some s' ∧ reachable s' ∧ f s' = true.
Proof.
  unfold check. destruct (run s l) as [s'|] eqn:E; [|done]. intros Hs H. exists s'. split_and!; [done| |done].
  by apply (run_reachable s l).
Qed.

(** A range that holds of numbers. *)
Ltac in_numbers := match goal with |- ?P => apply (bool_decide_eq_true_1 P); vm_compute; exact eq_refl end.

(** ** Safety *)

(** C2. No task runs on two processors at once, a task that a processor runs is
    [RUNNING] there, and a task that is [RUNNING] has a processor that runs it. *)
Theorem scheduler_runs_a_task_once s g : reachable s → slot g →
  (∀ c c', c_current s !! c = Some g → c_current s !! c' = Some g → c = c') ∧
  (state (at_slot s g) = RUNNING ↔ ∃ c, c_current s !! c = Some g) ∧
  (∀ c, c_current s !! c = Some g → _running_cpu (at_slot s g) = c).
Proof.
  intros Hr Hg. destruct (all_coherent s (sched_reachable_inv s Hr) g Hg) as [Hcur Hst]. unfold at_slot. split_and!.
  - intros c c' [<- _]%Hcur [<- _]%Hcur. done.
  - rewrite Hst. split; [intros Hne; eexists; by apply Hcur|]. intros [c [<- ?]%Hcur]. done.
  - by intros c [<- _]%Hcur.
Qed.

Lemma scheduler_runs_a_task_once_witness : ∃ s, run start demo = Some s ∧
  c_current s !! 1 = Some 8 ∧ state (at_slot s 8) = RUNNING ∧ _running_cpu (at_slot s 8) = 1.
Proof.
  destruct (check_run start demo (λ s, bool_decide (c_current s !! 1 = Some 8)) start_reachable)
    as (s & E & Hr & H); [vm_compute; exact eq_refl|].
  apply bool_decide_eq_true in H. exists s. destruct (scheduler_runs_a_task_once s 8 Hr) as (_ & H2 & H3); [in_numbers|].
  split; [exact E|]. split; [exact H|]. split; [apply H2; exists 1; exact H|exact (H3 1 H)].
Defined.

(** C16. No assertion of the scheduler fails and nothing is accessed out of bounds:
    every operation that is permitted in a reachable state returns. *)
Theorem scheduler_operations_return s r : reachable s → operation s r → ∃ s', r = Ret s' ∧ reachable s'.
Proof.
  intros Hr Hop. destruct (operation_returns s r (sched_reachable_inv s Hr) Hop) as (s' & -> & _).
  exists s'. split; [done|]. by apply (reachable_step s).
Qed.

Lemma scheduler_operations_return_witness : ∃ s s', run start demo = Some s ∧ leave s 1 8 SLEEPING false false = Ret s'.
Proof.
  destruct (check_run start demo (λ s, bool_decide (c_current s !! 1 = Some 8)) start_reachable)
    as (s & E & Hr & H); [vm_compute; exact eq_refl|].
  apply bool_decide_eq_true in H. exists s.
  destruct (scheduler_operations_return s (leave s 1 8 SLEEPING false false) Hr) as (s' & E' & _).
  - apply op_leave; [exact H|right; left; exact eq_refl|discriminate].
  - exists s'. split; [exact E|exact E'].
Defined.

(** C7. The tables are exact: a bit is set exactly for a runnable task at its home, the
    pressure of a processor is the number of schedulable tasks at home there, and the
    count that selects the fast path is the number of schedulable tasks whose priority
    is not the default. *)
Theorem scheduler_tables_exact s c g : reachable s → cpu c → slot g →
  (bit (c_machine s) c g = true ↔ state (at_slot s g) = RUNNABLE ∧ _last_cpu (at_slot s g) = c) ∧
  pressure (c_machine s) c = count (at_home c) (pool (c_machine s)) ∧
  non_default (c_machine s) = count special (pool (c_machine s)).
Proof.
  intros Hr Hc Hg. destruct (inv_base _ (all_inv s (sched_reachable_inv s Hr))) as [_ [H1 H2 H3]]. split_and!; [|by apply H2|done].
  rewrite H1 by done. unfold queued, at_slot. by rewrite andb_true_iff, bool_decide_eq_true, Z.eqb_eq.
Qed.

Lemma scheduler_tables_exact_witness : ∃ s, run start demo = Some s ∧ bit (c_machine s) 0 5 = true ∧
  pressure (c_machine s) 1 = count (at_home 1) (pool (c_machine s)) ∧
  (let tasks := pool (c_machine s) in count (at_home 1) tasks = 2 ∧ count special tasks = 1).
Proof.
  destruct (check_run start demo (λ s, bool_decide (state (at_slot s 5) = RUNNABLE ∧ _last_cpu (at_slot s 5) = 0)
    && ((count (at_home 1) (pool (c_machine s)) =? 2) && (count special (pool (c_machine s)) =? 1))) start_reachable)
    as (s & E & Hr & H); [vm_compute; exact eq_refl|].
  apply andb_true_iff in H as [H [H1%Z.eqb_eq H2%Z.eqb_eq]%andb_true_iff]. apply bool_decide_eq_true in H. exists s.
  destruct (scheduler_tables_exact s 0 5 Hr) as (Hb & _ & _); [in_numbers..|].
  destruct (scheduler_tables_exact s 1 5 Hr) as (_ & Hp & _); [in_numbers..|].
  split; [exact E|]. split; [apply Hb; exact H|]. split; [exact Hp|]. split; [exact H1|exact H2].
Defined.

(** ** Every runnable task will be found *)

Lemma online_word m w : word_ok (Z.land w (online_cpu_mask m)).
Proof.
  assert (0 ≤ possible_cpu_mask m) as Hp by (apply Z.land_nonneg; right; by vm_compute).
  assert (0 ≤ online_cpu_mask m) as Ho by (apply Z.land_nonneg; by right).
  apply word_of_bits; [apply Z.land_nonneg; by right|]. intros n Hn. apply not_true_is_false.
  rewrite Z.land_spec. intros [_ H]%andb_true_iff. apply online_bits in H; [|lia]. apply possible_bits in H; [|lia].
  unfold cpu, NUMCPU in H. lia.
Qed.

(** A word without its lowest bit is zero only if it has no other. *)
Lemma single_bit v a b : word_ok v → Z.land v (u64 (v - 1)) = 0 → 0 ≤ a < 64 → 0 ≤ b < 64 →
  Z.testbit v a = true → Z.testbit v b = true → a = b.
Proof.
  intros Hv E0 Ha Hb Ta Tb. assert (v ≠ 0) as Hne by (intros ->; by rewrite Z.bits_0 in Ta).
  pose proof (active_slot_bit_index_lowest v Hv Hne) as Hl.
  assert (∀ n, 0 ≤ n < 64 → Z.testbit v n = true → n = active_slot_bit_index v) as H.
  { intros n Hn Tn. pose proof (clear_lowest v _ n Hv Hl ltac:(lia)) as Hc. rewrite E0, Z.bits_0, Tn, andb_true_r in Hc.
    symmetry in Hc. apply negb_false_iff, bool_decide_eq_true in Hc. done. }
  rewrite (H a), (H b) by done. done.
Qed.

(** C32. A runnable task is on exactly one queue, that of its home, which its affinity
    permits; once that processor is online it may run the task, and no other may. *)
Theorem runnable_task_has_one_cpu s g : reachable s → slot g → state (at_slot s g) = RUNNABLE →
  let m := c_machine s in
  let home := _last_cpu (at_slot s g) in
  cpu home ∧ is_set (_cpu_mask (at_slot s g)) home = true ∧
  (∀ c, cpu c → bit m c g = true ↔ c = home) ∧
  (is_set (online_cpu_mask m) home = true →
   ∀ c, can_schedule_on_cpu m (at_slot s g) c = true ↔ c = home).
Proof.
  intros Hr Hg Er m home. pose proof (all_inv s (sched_reachable_inv s Hr)) as Hm. fold m in Hm.
  destruct (inv_task m Hm g Hg) as [_ Hh Hsch _]. unfold at_slot in *. fold m in Er, home |- *.
  assert (cpu home ∧ Z.testbit (_cpu_mask (task m g)) home = true) as [Hc Hb].
  { destruct Hh as [E|H]; [by rewrite Er|by destruct Hsch; [rewrite Er|]|done]. }
  assert (∀ c, cpu c → 0 ≤ c < 64) as Hcpu by (unfold cpu, NUMCPU; lia).
  rewrite !is_set_testbit by auto. split_and!; [done|done|..].
  - intros c Hc'. rewrite (agree_bit m (base_agree m (inv_base m Hm))) by done. unfold queued. fold home.
    rewrite andb_true_iff, bool_decide_eq_true, Z.eqb_eq. split; [by intros [_ ->]|by intros ->].
  - intros Ho c. set (v := Z.land (_cpu_mask (task m g)) (online_cpu_mask m)).
    assert (Z.testbit v home = true) as Hv by (unfold v; by rewrite Z.land_spec, Hb, Ho).
    split.
    + intros Hcan. destruct (can_schedule_home m _ c Hcan) as (Hc' & Hb' & Ho').
      assert (Z.testbit v c = true) as Hv' by (unfold v; by rewrite Z.land_spec, Hb', Ho').
      unfold can_schedule_on_cpu in Hcan. fold v in Hcan. destruct (_ || _) in Hcan; [done|].
      destruct (negb _) in Hcan; [done|]. destruct (Z.eqb_spec (Z.land v (u64 (v - 1))) 0) as [E0|].
      * apply (single_bit v); [apply online_word|done|auto..|done|done].
      * rewrite usable_spec, bool_decide_eq_true_2 in Hcan by done. by apply Z.eqb_eq.
    + intros ->. unfold can_schedule_on_cpu. fold v. rewrite !is_set_testbit, Hb, Hv by auto.
      unfold is_valid_cpu_id. rewrite (proj2 (Z.ltb_ge home 0)), (proj2 (Z.ltb_lt home NUMCPU)), (proj2 (Z.ltb_lt home 64))
        by (apply Hc || apply Hcpu, Hc). cbn [orb andb negb].
      destruct (_ =? 0); [done|]. rewrite usable_spec, bool_decide_eq_true_2 by done. apply Z.eqb_refl.
Qed.

Lemma runnable_task_has_one_cpu_witness : ∃ s, run start demo = Some s ∧
  ∀ c, can_schedule_on_cpu (c_machine s) (at_slot s 7) c = true ↔ c = _last_cpu (at_slot s 7).
Proof.
  destruct (check_run start demo (λ s, bool_decide (state (at_slot s 7) = RUNNABLE)
    && is_set (online_cpu_mask (c_machine s)) (_last_cpu (at_slot s 7))) start_reachable)
    as (s & E & Hr & H); [vm_compute; exact eq_refl|].
  apply andb_true_iff in H as [H1 H2]. apply bool_decide_eq_true in H1. exists s. split; [exact E|].
  destruct (runnable_task_has_one_cpu s 7 Hr) as (_ & _ & _ & H); [in_numbers|exact H1|]. exact (H H2).
Defined.

(** ** Passes *)

Lemma reachable_idle s g : reachable s → slot g → state (task (c_machine s) g) = RUNNABLE → _running_cpu (task (c_machine s) g) = -1.
Proof.
  intros Hr Hg E. destruct (all_coherent s (sched_reachable_inv s Hr) g Hg) as [_ Hst].
  destruct (decide (_running_cpu (task (c_machine s) g) = -1)) as [|Hne]; [done|]. apply Hst in Hne. congruence.
Qed.

(** C8. A pass of the scheduler returns.  It looks at the runnable tasks of its
    processor from its cursor on and round to it, and switches to the first one it can
    lock, whose affinity permits it and whose priority is at least the one
    [get_highest_priority] found; the cursor is then behind it.  Without such a task it
    ends and changes nothing. *)
Theorem scheduler_pass_correct s locked c : reachable s → cpu c →
  let m := c_machine s in
  ∃ prio p, get_highest_priority locked m c = Ret prio ∧ pass_start locked m c = Ret p ∧
  match List.find (ready locked m c prio) (turns m c (cursor m c)) with
  | Some g => ∃ m' p', pass_run locked pass_fuel m c p = Ret (m', Switch g p') ∧
      task m' g = claimed (task m g) c ∧ (∀ g', slot g' → g' ≠ g → task m' g' = task m g') ∧
      cursor m' c = (g + 1) mod num_process
  | None => pass_run locked pass_fuel m c p = Ret (m, Over false)
  end.
Proof.
  intros Hr Hc m. pose proof (all_inv s (sched_reachable_inv s Hr)) as Hm. fold m in Hm.
  destruct (get_highest_priority_spec locked m c Hm Hc) as (prio & Hprio & _).
  destruct (pass_spec locked m c Hm Hc (λ g Hg, reachable_idle s g Hr Hg) prio Hprio) as (p & Hp & Hrun).
  exists prio, p. split_and!; [done|done|]. destruct (List.find _ _) as [g|] eqn:Ef; [|done].
  destruct Hrun as (m' & p' & Erun & Hcl). exists m', p'. split; [done|].
  assert (slot g) as Hg.
  { apply List.find_some in Ef as [Hin _]. rewrite <- list_elem_of_In in Hin.
    apply (elem_of_turns m c) in Hin; [by destruct Hin|by apply (inv_scan m Hm)]. }
  pose proof (claim_inv m c g prio Hm Hc Hg (reachable_idle s g Hr Hg)) as H. destruct (_ && _ && _); [|congruence].
  destruct H as (m1 & E1 & _ & Ht & Hcur). rewrite Hcl in E1. injection E1 as <-. split_and!; [| |done].
  - rewrite (Ht g Hg). by rewrite bool_decide_eq_true_2.
  - intros g' Hg' Hne. rewrite (Ht g' Hg'). by rewrite bool_decide_eq_false_2.
Qed.

Lemma scheduler_pass_correct_witness : ∃ s m' p p', run start demo = Some s ∧
  pass_start (λ _, false) (c_machine s) 0 = Ret p ∧ pass_run (λ _, false) pass_fuel (c_machine s) 0 p = Ret (m', Switch 5 p') ∧
  state (task m' 5) = RUNNING ∧ cursor m' 0 = 6.
Proof.
  destruct (check_run start demo (λ s, match get_highest_priority (λ _, false) (c_machine s) 0 with
    | Ret prio => bool_decide (List.find (ready (λ _, false) (c_machine s) 0 prio) (turns (c_machine s) 0 (cursor (c_machine s) 0)) = Some 5)
    | _ => false end) start_reachable)
    as (s & E & Hr & H); [vm_compute; exact eq_refl|].
  destruct (scheduler_pass_correct s (λ _, false) 0 Hr) as (prio & p & Hprio & Hp & Hrun); [in_numbers|].
  rewrite Hprio in H. apply bool_decide_eq_true in H. rewrite H in Hrun. destruct Hrun as (m' & p' & Hrun & Ht & _ & Hcur).
  exists s, m', p, p'. split; [exact E|]. split; [exact Hp|]. split; [exact Hrun|]. split; [rewrite Ht; exact eq_refl|exact Hcur].
Defined.

(** C15. No processor idles while it has work: if some runnable task of the processor can
    be locked and may run there, a pass switches to a task.  Neither the fast path of
    [get_highest_priority] nor its threshold excludes them all. *)
Theorem scheduler_work_conserving s locked c g : reachable s → cpu c → slot g →
  bit (c_machine s) c g = true → locked g = false → can_schedule_on_cpu (c_machine s) (at_slot s g) c = true →
  ∃ p m' g' p', pass_start locked (c_machine s) c = Ret p ∧
    pass_run locked pass_fuel (c_machine s) c p = Ret (m', Switch g' p') ∧ state (task m' g') = RUNNING.
Proof.
  intros Hr Hc Hg Hb Hl Hcan. set (m := c_machine s) in *. pose proof (all_inv s (sched_reachable_inv s Hr)) as Hm. fold m in Hm.
  destruct (get_highest_priority_spec locked m c Hm Hc) as (prio & Hprio & _).
  destruct (candidate_ready locked m c Hm Hc prio g Hprio) as (g1 & Hcand & Hready); [by split_and!|].
  destruct (pass_spec locked m c Hm Hc (λ g Hg, reachable_idle s g Hr Hg) prio Hprio) as (p & Hp & Hrun).
  assert (slot (cursor m c)) as Hcur by (by apply (inv_scan m Hm)).
  destruct (List.find _ _) as [g'|] eqn:Ef.
  - destruct Hrun as (m' & p' & Erun & Hcl). exists p, m', g', p'. split_and!; [done|done|].
    assert (slot g') as Hg'.
    { apply List.find_some in Ef as [Hin _]. rewrite <- list_elem_of_In in Hin. by apply (elem_of_turns m c) in Hin as [? _]. }
    pose proof (claim_inv m c g' prio Hm Hc Hg' (reachable_idle s g' Hr Hg')) as H. destruct (_ && _ && _); [|congruence].
    destruct H as (m1 & E1 & _ & Ht & _). rewrite Hcl in E1. injection E1 as <-. rewrite (Ht g' Hg').
    by rewrite bool_decide_eq_true_2.
  - destruct Hcand as (Hg1 & Hb1 & _). assert (g1 ∈ turns m c (cursor m c)) as Hin by (by apply (elem_of_turns m c)).
    rewrite list_elem_of_In in Hin. apply (List.find_none _ _ Ef) in Hin. congruence.
Qed.

Lemma scheduler_work_conserving_witness : ∃ s p m' g' p', run start demo = Some s ∧ pass_start (λ _, false) (c_machine s) 0 = Ret p ∧
  pass_run (λ _, false) pass_fuel (c_machine s) 0 p = Ret (m', Switch g' p') ∧ state (task m' g') = RUNNING.
Proof.
  destruct (check_run start demo (λ s, bit (c_machine s) 0 5 && can_schedule_on_cpu (c_machine s) (at_slot s 5) 0) start_reachable)
    as (s & E & Hr & H); [vm_compute; exact eq_refl|]. apply andb_true_iff in H as [H1 H2].
  destruct (scheduler_work_conserving s (λ _, false) 0 5 Hr) as (p & m' & g' & p' & H); [in_numbers|in_numbers|exact H1|exact eq_refl|exact H2|].
  exists s, p, m', g', p'. exact (conj E H).
Defined.

(** How many slots from [b] on, round the pool, until [g]. *)
Definition slots_until (b g : Z) : Z := (g - b) mod num_process.

Lemma slots_until_value b g : slot b → slot g → slots_until b g = if b <=? g then g - b else g - b + num_process.
Proof.
  unfold slots_until, slot. intros Hb Hg. destruct (Z.leb_spec b g); [apply Z.mod_small; lia|].
  rewrite <- (Z.mod_add _ 1) by done. rewrite Z.mul_1_l. apply Z.mod_small. lia.
Qed.

(** The first of the turns is the closest. *)
Lemma find_turns_closest m c f b g w : slot b → List.find f (turns m c b) = Some g → w ∈ turns m c b → f w = true →
  slot g → slot w → slots_until b g ≤ slots_until b w.
Proof.
  intros Hb Ef Hw Hf Hg Hsw. rewrite !slots_until_value by done. unfold turns in *. rewrite find_app in Ef.
  assert (∀ a e x, x ∈ range_todo m c a e → a ≤ x < e) as Hrange.
  { intros a e x [_ H]%elem_of_select. unfold in_range in H. by apply andb_true_iff in H as [[?%Z.leb_le ?%Z.ltb_lt]%andb_true_iff _]. }
  unfold slot in *. destruct (List.find f (range_todo m c b num_process)) as [g'|] eqn:E1.
  - injection Ef as ->. pose proof E1 as E2. apply List.find_some in E2 as [Hin _]. rewrite <- list_elem_of_In in Hin. apply Hrange in Hin.
    apply elem_of_app in Hw as [Hw|Hw]; pose proof (Hrange _ _ _ Hw).
    + pose proof (select_find _ _ _ _ E1 Hw Hf). rewrite !(proj2 (Z.leb_le b _)) by lia. lia.
    + rewrite (proj2 (Z.leb_le b g)), (proj2 (Z.leb_gt b w)) by lia. lia.
  - apply elem_of_app in Hw as [Hw|Hw]; pose proof (Hrange _ _ _ Hw).
    + rewrite list_elem_of_In in Hw. apply (List.find_none _ _ E1) in Hw. congruence.
    + pose proof (select_find _ _ _ _ Ef Hw Hf). apply List.find_some in Ef as [Hin _]. rewrite <- list_elem_of_In in Hin.
      apply Hrange in Hin. rewrite !(proj2 (Z.leb_gt b _)) by lia. lia.
Qed.

(** C31. Waiting is bounded: a pass that could take the task [w] and takes another one
    moves the cursor closer to [w], so that fewer tasks than there are slots can
    overtake it. *)
Theorem scheduler_round_robin s locked c w prio p m' g p' : reachable s → cpu c → slot w →
  bit (c_machine s) c w = true → get_highest_priority locked (c_machine s) c = Ret prio →
  ready locked (c_machine s) c prio w = true → pass_start locked (c_machine s) c = Ret p →
  pass_run locked pass_fuel (c_machine s) c p = Ret (m', Switch g p') →
  g = w ∨ slots_until (cursor m' c) w < slots_until (cursor (c_machine s) c) w.
Proof.
  intros Hr Hc Hw Hb Hprio Hready Hp Hrun. set (m := c_machine s) in *.
  pose proof (all_inv s (sched_reachable_inv s Hr)) as Hm. fold m in Hm.
  assert (slot (cursor m c)) as Hcur by (by apply (inv_scan m Hm)).
  destruct (pass_spec locked m c Hm Hc (λ g Hg, reachable_idle s g Hr Hg) prio Hprio) as (p1 & Hp1 & H).
  rewrite Hp in Hp1. injection Hp1 as <-. destruct (List.find _ _) as [g1|] eqn:Ef; [|congruence].
  destruct H as (m1 & p1' & Erun & Hcl). rewrite Hrun in Erun. injection Erun as <- <- <-.
  assert (w ∈ turns m c (cursor m c)) as Hin by (by apply (elem_of_turns m c)).
  assert (slot g) as Hg.
  { pose proof Ef as E. apply List.find_some in E as [Hg _]. rewrite <- list_elem_of_In in Hg. by apply (elem_of_turns m c) in Hg as [? _]. }
  pose proof (find_turns_closest m c _ _ _ _ Hcur Ef Hin Hready Hg Hw) as Hle.
  pose proof (claim_inv m c g prio Hm Hc Hg (reachable_idle s g Hr Hg)) as H. destruct (_ && _ && _); [|congruence].
  destruct H as (m1 & E1 & _ & _ & Enew). rewrite Hcl in E1. injection E1 as <-.
  destruct (decide (g = w)) as [->|Hne]; [by left|right]. unfold cursor at 1. rewrite Enew.
  assert (slot ((g + 1) mod num_process)) as Hn by (apply Z.mod_pos_bound; done).
  rewrite !slots_until_value in * by done. unfold slot, num_process in *.
  destruct (decide (g = 511)) as [->|].
  - change ((511 + 1) mod 512) with 0 in *. destruct (Z.leb_spec 0 w), (Z.leb_spec (cursor m c) w), (Z.leb_spec (cursor m c) 511); lia.
  - rewrite Z.mod_small in * by lia. destruct (Z.leb_spec (g + 1) w), (Z.leb_spec (cursor m c) w), (Z.leb_spec (cursor m c) g); lia.
Qed.

Lemma scheduler_round_robin_witness : ∃ s p m' p', run start demo = Some s ∧ pass_start (λ _, false) (c_machine s) 0 = Ret p ∧
  pass_run (λ _, false) pass_fuel (c_machine s) 0 p = Ret (m', Switch 5 p') ∧
  slots_until (cursor m' 0) 6 < slots_until (cursor (c_machine s) 0) 6.
Proof.
  destruct (check_run start demo (λ s, bit (c_machine s) 0 6 &&
    match get_highest_priority (λ _, false) (c_machine s) 0, pass_start (λ _, false) (c_machine s) 0 with
    | Ret prio, Ret p => ready (λ _, false) (c_machine s) 0 prio 6 &&
        match pass_run (λ _, false) pass_fuel (c_machine s) 0 p with Ret (m', Switch g _) => g =? 5 | _ => false end
    | _, _ => false
    end) start_reachable) as (s & E & Hr & H); [vm_compute; exact eq_refl|].
  apply andb_true_iff in H as [Hb H]. destruct (get_highest_priority _ _ 0) as [prio| | |] eqn:Hprio; [|discriminate H..].
  destruct (pass_start _ _ 0) as [p| | |] eqn:Hp; [|discriminate H..]. apply andb_true_iff in H as [Hready H].
  destruct (pass_run _ _ _ 0 p) as [[m' [|g p'|]]| | |] eqn:Hrun; try discriminate H. apply Z.eqb_eq in H. subst g.
  exists s, p, m', p'. split; [exact E|]. split; [exact Hp|]. split; [exact Hrun|].
  destruct (scheduler_round_robin s (λ _, false) 0 6 prio p m' 5 p' Hr) as [H|H]; [in_numbers|in_numbers|exact Hb|exact Hprio|exact Hready|exact Hp|exact Hrun| |].
  - discriminate H.
  - exact H.
Defined.

(** ** A limit of the priority of signals

    [effective_schedule_priority] gives a task with a signal to handle the highest
    priority.  While every task has the default priority [get_highest_priority] returns
    the default without a look at the tasks, and a pass takes them in turn: here the
    task 5, although the task 6 behind it has such a signal. *)
Lemma signal_does_not_overtake :
  check start [Alloc 5; Wake 5; Alloc 8; Wake 8; Alloc 6; Wake 6; Signal 6 (2 ^ 14)] (λ s,
    (effective_schedule_priority (at_slot s 6) =? highest_proc_prio) &&
    bit (c_machine s) 0 6 && can_schedule_on_cpu (c_machine s) (at_slot s 6) 0 &&
    match pass_start (λ _, false) (c_machine s) 0 with
    | Ret p => match pass_run (λ _, false) pass_fuel (c_machine s) 0 p with Ret (_, Switch g _) => g =? 5 | _ => false end
    | _ => false
    end) = true.
Proof. vm_compute. exact eq_refl. Qed.

End SchedCorrect.
